(* ===== verification/_CoqProject ===== *)
-Q . S2P
Prelude.v
Handler.v
Str.v
Chars.v
Identity.v
Json.v
Resource.v
Registry.v
SqlCaveat.v
ColumnEncryption.v
Tables.v
Jcs.v
PolicyCapability.v
Evidence.v
PolicyDelegation.v
PolicyVerifier.v
PolicyMemory.v
PolicyDatabase.v
PolicyWalk.v
PolicyRefinement.v
ShareTypes.v
ShareInvitation.v
ShareState.v
ShareVerifier.v
ShareBridge.v
ShareRuns.v
ShareMaterial.v
Storage.v
Chain.v
Tokens.v
Events.v
Demo.v
Delegation.v
Invocation.v
Revocation.v
Kv.v
Transact.v
Authority.v
KvStore.v
Query.v
AccountQuery.v
Invoke.v
Replay.v
EncryptionNetwork.v
Quota.v
Artifacts.v
KvRoute.v
SqlParser.v
ShareRead.v
SqlAuthorizer.v
SqlService.v
ShareConfig.v
ShareRoute.v
ShareCompose.v
SqlRoute.v
DuckParser.v
DuckTypes.v
DuckService.v
DuckRoute.v
SignedUrls.v
Hooks.v
Webhooks.v
Link.v
TunnelFrames.v
Tunnel.v
FileStore.v
Public.v
