(* ===== verification/Prelude.v ===== *)
(** * TinyCloud node: a verified model of its authority and storage core

    TinyCloud is a self-hosted data node.  A {b space} belongs to a DID; its owner
    hands out {b delegations} (UCAN or SIWE/CACAO tokens) that grant abilities on
    resources of the space, holders pass them on, {b invocations} exercise them,
    {b revocations} withdraw them.  Every accepted token is an event of a
    per-space log of epochs; key-value invocations also write content-addressed
    blocks.  The library models the Rust code of that core as executable
    functions and proves what makes it correct.

    ** How a request runs

    A route decodes a token (Tokens), [SpaceDatabase::{delegate, revoke, invoke}]
    takes locks on the token's ancestor chain and calls [transact] (Transact),
    which orders the events of each space into an epoch, and processes each event
    with the handler of its kind: [delegation::process] (Delegation),
    [invocation::process] (Invocation), [revocation::process] (Revocation).  The
    handlers verify the token, check it against the stored delegations, following
    the ancestor chain (Chain), and insert rows (Tables).  [invoke] then reads or
    persists blocks (Storage, Kv, Invoke).  The authority checks rest on three
    orders: resources extend resources (Resource), abilities imply abilities
    (Registry), caveats contain caveats (SqlCaveat), and on the canonical form of
    DIDs (Identity).

    Around this core the node serves routes: key-value bodies under a quota
    (KvRoute), SQL databases of a space (SqlParser, SqlAuthorizer, SqlService,
    SqlRoute), DuckDB databases (DuckParser, DuckTypes, DuckService, DuckRoute), signed download URLs (SignedUrls), streams of write events and
    webhooks (Hooks, Webhooks).  Beside the chain of delegations a second
    authority exists, the policy authority of email shares: signed artifacts
    (PolicyDelegation, PolicyVerifier) that a kernel admits, consumes and walks, once
    over memory (PolicyMemory) and once over a database (PolicyDatabase), with
    evidence about a person's email address (Evidence).  An email share is opened
    in a protocol over both databases: an invitation (ShareInvitation), a challenge
    (ShareState), a credential and a holder's binding (ShareVerifier), a session
    whose root the policy authority issues (ShareBridge), and signed reads that
    answer one document (ShareRead), over four routes (ShareRoute) that a node mounts
    when its configuration, the operator's file and its key agree (ShareConfig,
    ShareMaterial, ShareCompose).  Encryption networks release keys to invokers
    the owner of the network let decrypt (EncryptionNetwork).

    ** Files

    - Prelude: [result] with its monad and inversion tactic, shared lemmas.
    - Handler: request handlers as functions of the state they commit, with the order
      a handler's commits follow.
    - Str, Chars, Json: what the code uses of Rust's [str], [char], integer
      parsing and [serde_json::Value].
    - Identity: tinycloud-auth/src/identity.rs, and [encode_eip55] of
      dependencies/siwe.
    - Resource: tinycloud-auth/src/resource.rs, tinycloud-core/src/types/resource.rs
      and encryption_network/network_id.rs.
    - Registry: tinycloud-auth/src/policy_capability.rs and its generated table.
    - SqlCaveat: tinycloud-core/src/policy_capability/sql_caveat.rs and the caveat
      comparison of models/delegation.rs and models/invocation.rs.
    - ColumnEncryption: tinycloud-core/src/encryption.rs.
    - Tables: hash.rs, the entities of models/*.rs and relationships/*.rs with
      their primary and foreign keys, as tables with SQL-like inserts and queries.
    - Jcs, PolicyCapability: tinycloud-core/src/policy_capability/{jcs,mod}.rs.
    - Storage: storage/mod.rs as the class [BlockStore] with its laws,
      storage/memory.rs as an instance, and the staging [HashBuffer] of
      storage/util.rs poll by poll.
    - FileStore: tinycloud-node-server/src/storage/{file_system,size}.rs, the store on
      disk, with its refinement to the one in memory.
    - Chain: the ancestor walk of models/revocation.rs.
    - Tokens: util.rs (what is read out of a token), the payload of
      dependencies/cacao and the ReCap of dependencies/siwe-recap.
    - Events: events/mod.rs and write_hooks.rs.
    - Demo: concrete parameters and a small world used by the witnesses.
    - Delegation, Invocation, Revocation: models/{delegation,invocation,revocation}.rs.
    - Kv: the key-value reads and listings of db.rs, and the key-value store as an
      abstract map.
    - Transact: [transact], [delegate], [revoke], [delegation_status] of db.rs.
    - Authority: the soundness of the stored authority over reachable states.
    - KvStore: the invariant of the key-value tables over reachable states.
    - Query: the delegation queries of db.rs and their parameters.
    - AccountQuery: the account-wide delegation query: types/delegation_query.rs, its
      walks and pages in db.rs and its route.
    - Invoke: [invoke_with_options] of db.rs.
    - Replay, Quota: tinycloud-node-server/src/{invocation_replay,quota}.rs, the
      second as steps of interleaved requests, refresh tasks and admin calls.
    - EncryptionNetwork: tinycloud-core/src/encryption_network/*.rs and
      tinycloud-node-server/src/routes/encryption.rs.
    - Artifacts: tinycloud-core/src/{database_artifacts,sql_sizes}.rs and the stored
      size of a space in db.rs.
    - KvRoute: the key-value paths of tinycloud-node-server/src/routes/mod.rs, with
      routes/util.rs and auth_guards.rs.
    - Evidence: tinycloud-auth/src/share_email_evidence.rs.
    - PolicyDelegation, PolicyVerifier: the artifacts, validators and the verifier of
      tinycloud-core/src/policy_authority/{mod,verifier}.rs.
    - PolicyMemory, PolicyDatabase: the two kernels of policy_authority/mod.rs and
      policy_authority/database.rs.
    - PolicyWalk, PolicyRefinement: the ancestor walks of both kernels; the histories
      of the database kernel, with commits between its queries and its
      transaction, and their refinement to the memory kernel.
    - ShareTypes, ShareInvitation, ShareState, ShareVerifier, ShareBridge, ShareRead:
      types.rs, invitation.rs, state.rs, verifier.rs, bridge.rs (with ports.rs) and
      data_plane.rs of tinycloud-core/src/share_email.
    - ShareRuns: histories of the bridge over its two databases and their invariant.
    - ShareMaterial: share_email/authority.rs, the operator's file and the providers
      made of it.
    - ShareConfig: the email-share configuration of tinycloud-node-server/src/config.rs
      and its trust bundle.
    - ShareRoute: the handlers of tinycloud-node-server/src/share_email.rs, their
      histories and the two stores of the data plane.
    - ShareCompose: [compose] of share_email.rs and its call in lib.rs.
    - SqlParser, SqlAuthorizer, SqlService: tinycloud-core/src/sql: validation of SQL
      text, the authorizer callback as a state machine, requests against a
      database with its actor, hydration, export and artifact.
    - SqlRoute: the SQL handler of routes/mod.rs: the caveat of the chain, the
      constrained-statements profile, scopes and write events.
    - DuckParser, DuckTypes, DuckService: tinycloud-core/src/duckdb: caveats and
      validation of texts; values between JSON and the engine; requests on a
      connection, copies and exports, actors and the service.
    - DuckRoute: the DuckDB handler of routes/mod.rs.
    - SignedUrls: tinycloud-node-server/src/signed_urls.rs and its two routes.
    - Hooks: tinycloud-node-server/src/hooks.rs and the ticket and event routes of
      routes/hooks.rs.
    - Webhooks: the webhook routes, the subscription and delivery queries of db.rs,
      the deliveries of database writes, and webhook_dispatcher.rs.
    - Public: tinycloud-node-server/src/routes/public.rs, the reads of public spaces and
      their rate limiter, in binary64 arithmetic.
    - Link: tinycloud-node-server/src/link: names, addresses, signed requests and the
      commands that claim a name and get its certificate.
    - TunnelFrames, Tunnel: tinycloud-node-server/src/tunnel: the frames of a
      connection and the requests made of them; the task that keeps the tunnel open,
      as a state machine between the commands of other processes.

    ** What the theorems show

    - Authority.  [validate] of delegations and invocations is characterised
      exactly ([delegation_validate_exact], [invocation_validate_exact]); in every
      reachable store every ability is backed by a chain of attenuations that
      starts at the owner ([stored_abilities_backed]) and every accepted
      invocation is traced to the owner of what it touches
      ([invocation_traced_to_owner]).  Terminal delegations are never passed on.
    - Revocation.  Only a controller revokes; a revoked delegation is never used
      again nor passed on, also by descendants whose walk reaches it
      ([revoked_target_never_used], [revocation_fails_closed]); the walk always
      ends and finds exactly the ancestors, as long as no node has more parents
      than the walk reads ([chain_walk_terminates], [chain_walk_exact]); beyond
      that bound it can miss one ([revoked_ancestor_missed]).
    - Data.  The database tables refine a map from keys to values
      ([invoke_refines_map]), a put is read back ([put_then_get]), conditional
      writes and listings are exact, the store only grows
      ([transact_append_only]).  The block store on disk answers as the one in memory,
      also after a restart ([file_store_refines_memory]), but a block whose writing broke
      off is served ([torn_block_served]), a space that is hosted again forgets its size
      ([rehosted_space_forgets_size]) and spaces named with dots share a directory
      ([dotted_spaces_shared]).
    - Server.  An accepted invocation is not accepted again while it is valid
      ([invocation_replay_rejected]); the limit a request is answered refines
      override, last answer, default over all interleavings
      ([quota_answers_refine], [one_refresh_per_space]), except that an
      invalidation can be lost ([quota_invalidation_lost]).
    - Policy capabilities.  Containment narrows and composes, the canonical bytes
      of a request determine it up to order, and parsing inverts canonical values
      ([policy_contains_attenuates], [requested_capabilities_canonical],
      [policy_parse_roundtrip]).
    - Policy authority.  A session that the database kernel validates rests on an
      unrevoked chain of verified artifacts from an authority that was admitted,
      each within its parent ([policy_session_backed]); a revocation is final
      ([policy_revocation_permanent]) and a challenge is consumed once
      ([challenge_single_use]), although commits come between the queries of an
      operation and its transaction; the kernel refines the memory kernel
      ([database_refines_memory]).  A CID names one verified artifact
      ([verified_cid_unique]), an accepted credential carries the address its
      issuer signed ([sd_jwt_sound]).
    - Email shares.  A document is answered over HTTP only to a person whose
      credential, holder key and session were checked, for the scope the owner granted
      ([share_read_end_to_end]).  A read is authorized only on a session that was opened for its
      holder and its scope, whose root the policy authority still validates
      ([share_read_backed]); a scope is validated only for what policy and
      delegation grant ([validated_scope_granted]); a challenge, a presentation and
      a holder binding open one session ([sessions_single_use]); an admission is
      bound to one holder, credential and challenge ([admission_bound]);
      anonymous challenges are rationed ([challenges_rationed]) and a read
      identifier is used up ([read_identifier_used_up]), but the clean-up can
      forget one early ([unexpired_read_accepted_again]).  An answered read is the
      document of its source ([read_answers_source]), what the holder signs
      determines the request ([signed_read_binds]), both readers of an address
      agree ([email_readers_agree]) and an invitation's receipt is short-lived
      ([invitation_receipt_window]).  A session's descendant is never accepted as
      the delegation of a share ([descendant_delegation_denied]), and signed times
      lose trailing zeros ([trimmed_fraction_signed]).  What is served rests on the
      operator's file ([loaded_scope_backed]), which the node reads once: shares stop
      five minutes after its last observation ([loaded_shares_stop]); a share whose
      policy ends within a second is never opened ([fractional_share_never_opens]).
      A node that starts with email shares serves what is in that file, for the trust
      its bundle names ([started_node_serves_file], [trust_from_bundle]); the check for
      fixtures refuses some real hosts ([attestation_host_refused]).
    - Encryption networks.  A key is released only to an invocation that traces to
      the network's owner with a capability for that network ([decrypt_released]), not after a revocation or with a
      used nonce ([release_refused_for_good]); a refused request has no effect but
      its audit and nonce ([refused_decrypt_effects]); stored networks read back
      ([stored_networks_read_back]) and a sealed key comes back to its receiver
      ([key_release_roundtrip]).
    - Account queries.  The listing of an account is exact ([account_records_exact])
      and its pages, each read at its own time, give every record once
      ([account_pages_complete]); a listing that filters by status can lose its place
      between two pages ([ended_cursor_refused]).
    - Routes.  An upload stays within the quota ([upload_within_quota]), conditional
      requests compare with the current value ([conditional_request]).  Without authority
      only values of public spaces are read, with the headers that are safe
      ([public_get_confined]), and the others do not show ([private_spaces_silent]); the
      rate limiter keeps every address it saw ([buckets_never_evicted]).
    - SQL.  Text is accepted exactly as the abilities and caveats say
      ([validate_sql_exact]); the schema tier cannot read rows
      ([schema_tier_confined]), a read changes nothing ([sql_reads_change_nothing]),
      an acknowledged write to a table the parser names is durable whenever actors end
      ([sql_writes_durable]), one it does not name is lost ([unnamed_write_lost]); an answer is the whole of the rows or an error
      ([query_answer_exact]); a caveat anywhere in the chain binds the statement
      that is run and its parameters ([constrained_chain_binds]), but a parameter pinned
      at a negative place is not bound ([negative_pin_dropped]).
    - DuckDB.  An accepted text names only tables and columns its caveats allow
      ([duck_caveats_confine]) and a reader's text is one of the kinds that read
      ([duck_reader_confined]), but not what it explains or inserts from
      ([explained_write_accepted], [insert_source_unchecked]), nor a statement that the
      invocation itself lists as prepared ([reader_runs_listed_statement]).  A
      transactional batch is all or nothing ([transactional_batch_atomic]); an
      acknowledged write is in the saved artifact ([duck_acknowledged_durable]), up to
      what the copy leaves out ([unique_index_lost]) and what a reader rolls back
      ([reader_rollback_loses_write]); a request changes its own database alone, and
      with room for it ([duck_request_confined]).  Values come back as they were bound
      ([bound_value_returns]), answers are complete or refused ([duck_query_exact]).
    - Signed URLs and hooks.  A signed download was authorized when its ticket was
      minted ([signed_get_authorized]); a stream shows what its ticket was asked
      for ([hook_stream_authorized]), open streams are bounded
      ([stream_leases_bounded]); every webhook delivery is posted a bounded number
      of times and comes to an end ([webhook_posts_bounded], [deliveries_settle]).
      The hook routes do not authorize the invocation itself
      ([unauthorized_invocation_gets_ticket], [unauthorized_invocation_gets_webhook]),
      and database writes reach only subscriptions to the table itself
      ([database_webhooks_exact_path]).
    - Link and tunnel.  The requests a node signs have numbers of their own, however
      commands and the tunnel's task interleave ([sequence_signed_once]), until the link
      is disabled ([disabled_link_restarts]); what is signed determines the request
      ([link_payload_binds]), a counter that fell behind catches up
      ([stale_counter_recovers]), the certificate is for the key beside it
      ([certificate_for_own_key]) and the published addresses are the host's
      ([published_addresses_exact]).  A forwarded request is the one the relay sent, to
      the node itself ([tunnel_forwards_what_came]), within bounds
      ([tunnel_memory_bounded]), and its answer arrives whole ([response_reassembles]);
      attempts are paced ([failed_attempts_paced]); a tunnel that is turned off stays
      off ([disabled_tunnel_stays_off]), but the task of a disabled link goes on trying
      ([disabled_link_retried]).
    - Orders and codecs.  Extension, implication and containment are preorders
      that never widen; canonical DIDs, resources, network ids, ReCap statements
      and column encryption round trip.

    ** Modelling choices

    Definitions are functions of their inputs: the database is a record of tables
    passed along, the clock is a parameter [now] in nanoseconds, randomness (the
    encryption nonce) is a parameter, and a failing function returns [Err], with
    the state it would roll back discarded.  Code outside the repository is a
    class whose instance is a parameter: [Keccak256], [Blake3], [CidLib] (CID
    text), [UriLib] (URI parsing), [RecapLib] and [TokenCodec] (token codecs),
    [TokenLib] (signatures), [TimeLib], [DagCbor], [HookFormats] (serde_json and
    RFC 3339 text), [Nfc], [Sha256] and [FloatText] (Unicode normalization, the
    hash and the text of doubles for policy capabilities), [Rfc3339], [TimeText] and
    [DbTime] (the texts of instants), [PercentDecode], [JsonText] (reading JSON
    text), [EvidenceLib] and [Recover] (Base64, keys and signatures of evidence and
    artifacts), [SqlParse] (the SQL parser), [Sqlite] (the engine) with
    [SqliteLaws], [DuckParse], [Uppercase], [DuckText] and [DuckDb] with [DuckLaws] (the
    DuckDB engine, its parser and the texts of its values), [UrlLib] (URLs of the
    configuration), [RowJson] and [NumberAsF64] (JSON of values), [TicketCodec] and
    [WebhookMac] (authentication codes), [HashFile] (the file name of a hash), [RowOrder] (the order in which the
    database returns rows that a query does not order, any permutation),
    [ShareTime] (the text of times of the share protocol), [Libp2pVerify] (the
    signature check of reads), [EncLib], [X25519] and [KeyBackend] (codecs, key
    agreement and the threshold backend of encryption networks), [DisplayFloat],
    [CursorCodec] (page cursors), [LimitedJoin] (which rows a limited join returns),
    [Collation] and [LikeEscape] (what the database's LIKE takes for the same
    character and for an escape), [LinkEnv], [TunnelEnv] and [TaskEnv] (the name service
    and the relay, the host's interfaces, keys and signatures, Base64, frames' JSON and
    the HTTP client; the node's identity and the interfaces are the same throughout a
    run, although each command reads them anew).  Strings are byte strings, UTF-8 as in
    Rust.  The providers of authority material, status and attestation and the
    stores of the share protocol's data plane are arguments, as they are trait objects
    in the code.  Sequence numbers are [Z]: they count the epochs of one space.  In
    Invoke the hash of a staged block is the hash of its bytes, as it is with the
    in-memory staging; [hash_buffer_exact] says what another staging must do.

    Recursion that is not structural has fuel, and a theorem that it suffices:
    [walk_fuel] for the chain walk (the walk holds at most 65 nodes and reads at
    most 66 links per node), [expand_fuel] for the action worklist,
    [resolve_fuel] for the session-key resolution (each round visits a new DID),
    the number of stored delegations for the chain query (when parent links have
    no cycle), the length of the text for the blanks of SQL text
    ([skip_blank_total]), the number of stored parent links for the caveat of the chain
    ([chain_caveat_loop_total]), the stored links for the lifecycle of an account's
    delegations ([lifecycle_total]), the four bytes of a carry ([push_carry_small]) and the
    three letters of an issuance identifier that one step can push
    ([take_letters_enough]), the length of a body for the chunks of a response
    ([body_frames_chunks]), the number of rows for the walks of the policy
    database ([database_walks_terminate]); the memory kernel's walk has the depth
    bound of the code.

    ** Not modelled

    Concurrent database calls outside the policy authority (one runs at a time; locks
    and isolation levels only matter between calls), database I/O errors,
    cryptography, the SQLite and DuckDB engines and their parsers (parameters), the
    encodings of HTTP, the S3 block store,
    migrations beyond the tables' keys, node control, the LAN TLS terminator, configuration
    beyond email shares, command line and telemetry: they are I/O or calls of the
    operating system. *)
From stdpp Require Export base tactics list gmap strings sets.
From Stdlib Require Export ZArith Lia.
From Stdlib Require Ascii.
Export Stdlib.Strings.Ascii (ascii(..), ascii_of_N, N_of_ascii).
Export (notations) Stdlib.Strings.Ascii.

(** ** Results: Rust's [Result<A, E>] *)

Inductive result (E A : Type) : Type :=
| Ok (a : A)
| Err (e : E).
Arguments Ok {E A} a.
Arguments Err {E A} e.

#[export] Instance result_ret E : MRet (result E) := fun A a => Ok a.
#[export] Instance result_bind E : MBind (result E) := fun A B f m =>
  match m with Ok a => f a | Err e => Err e end.
#[export] Instance result_fmap E : FMap (result E) := fun A B f m =>
  match m with Ok a => Ok (f a) | Err e => Err e end.
#[export] Instance result_eq_dec E A `{EqDecision E, EqDecision A} : EqDecision (result E A).
Proof. solve_decision. Defined.

(** [Result::is_ok]. *)
Definition is_ok {E A} (m : result E A) : bool :=
  match m with Ok _ => true | Err _ => false end.

(** [Result::map_err]. *)
Definition map_err {E F A} (f : E → F) (m : result E A) : result F A :=
  match m with Ok a => Ok a | Err e => Err (f e) end.

(** [Option::ok_or]. *)
Definition ok_or {E A} (o : option A) (e : E) : result E A :=
  match o with Some a => Ok a | None => Err e end.

(** [if cond { return Err(e) }]. *)
Definition ensure {E} (b : bool) (e : E) : result E unit :=
  if b then Ok tt else Err e.

(** A [for] loop whose body may return early with an error. *)
Fixpoint for_each {E A} (f : A → result E unit) (l : list A) : result E unit :=
  match l with
  | [] => Ok tt
  | x :: l => _ ← f x; for_each f l
  end.

(** [iter().map(f).collect::<Result<Vec<_>, _>>()]. *)
Fixpoint try_map {E A B} (f : A → result E B) (l : list A) : result E (list B) :=
  match l with
  | [] => Ok []
  | x :: l => y ← f x; ys ← try_map f l; Ok (y :: ys)
  end.

Section Results.
Context {E : Type}.

Lemma bind_Ok {A B} (m : result E A) (f : A → result E B) b :
  m ≫= f = Ok b ↔ ∃ a, m = Ok a ∧ f a = Ok b.
Proof. destruct m; naive_solver. Qed.

Lemma bind_ret_l {A B} (a : A) (f : A → result E B) : Ok a ≫= f = f a.
Proof. done. Qed.

Lemma bind_step {A B} (m : result E A) (f : A → result E B) a r : m = Ok a → f a = r → m ≫= f = r.
Proof. by intros -> ?. Qed.

Lemma ensure_true (e : E) : ensure true e = Ok tt.
Proof. done. Qed.

Lemma ensure_Ok (b : bool) (e : E) u : ensure b e = Ok u ↔ b = true.
Proof. destruct b, u; naive_solver. Qed.

Lemma ok_or_Ok {A} (o : option A) (e : E) a : ok_or o e = Ok a ↔ o = Some a.
Proof. destruct o; naive_solver. Qed.

Lemma map_err_Ok {F A} (g : E → F) (m : result E A) a : map_err g m = Ok a ↔ m = Ok a.
Proof. destruct m; naive_solver. Qed.

Lemma is_ok_Ok {A} (m : result E A) : is_ok m = true ↔ ∃ a, m = Ok a.
Proof. destruct m; naive_solver. Qed.

Lemma for_each_Ok {A} (f : A → result E unit) l :
  for_each f l = Ok tt ↔ ∀ x, x ∈ l → f x = Ok tt.
Proof.
  induction l as [|x l IH]; simpl.
  - split; [|done]. intros _ y Hy. by apply not_elem_of_nil in Hy.
  - rewrite bind_Ok. setoid_rewrite elem_of_cons. split.
    + intros ([] & Hx & Hl) y [->|Hy]; [done|]. by apply IH.
    + intros H. exists tt. split; [by apply H; left|]. apply IH. eauto.
Qed.

Lemma try_map_Ok {A B} (f : A → result E B) l ys :
  try_map f l = Ok ys ↔ Forall2 (λ x y, f x = Ok y) l ys.
Proof.
  revert ys. induction l as [|x l IH]; intros ys; simpl.
  - split; [by intros [= <-]|]. by inversion 1.
  - rewrite bind_Ok. setoid_rewrite bind_Ok. split.
    + intros (y & Hy & ys' & Hys & [= <-]). constructor; [done|]. by apply IH.
    + inversion 1 as [|? y ? ys' Hy Hys]; subst. exists y. split; [done|].
      exists ys'. split; [by apply IH|done].
Qed.

End Results.

(** Inversion of a chain of binds that succeeded. *)
Ltac ok_inv :=
  repeat match goal with
  | H : Ok _ = Ok _ |- _ => injection H as H; try subst
  | H : Err _ = Ok _ |- _ => discriminate H
  | H : Ok _ = Err _ |- _ => discriminate H
  | H : mret _ = Ok _ |- _ => change (mret ?x) with (Ok x) in H
  | H : _ ≫= _ = Ok _ |- _ => apply bind_Ok in H; destruct H as (? & ? & H)
  | H : ensure _ _ = Ok _ |- _ => apply ensure_Ok in H
  | H : ok_or _ _ = Ok _ |- _ => apply ok_or_Ok in H
  | H : map_err _ _ = Ok _ |- _ => apply map_err_Ok in H
  | u : unit |- _ => destruct u
  end.

(** ** Integers *)

(** A float cast [x as i64] saturates; arithmetic on [i64] wraps in a release
    build. *)
Definition as_i64_cast (z : Z) : Z := Z.max (- 2 ^ 63) (Z.min z (2 ^ 63 - 1)).
Definition wrap_i64 (z : Z) : Z := (z + 2 ^ 63) mod 2 ^ 64 - 2 ^ 63.

(** ** Lists *)

(** [iter().find_map(f)]. *)
Fixpoint find_map {A B} (f : A → option B) (l : list A) : option B :=
  match l with [] => None | x :: l => match f x with Some y => Some y | None => find_map f l end end.

Lemma find_map_Some {A C} (f : A → option C) l y : find_map f l = Some y → ∃ x, x ∈ l ∧ f x = Some y.
Proof.
  induction l as [|x l IH]; [done|]. cbn [find_map]. destruct (f x) eqn:Hx.
  - intros [= ->]. exists x. split; [by left|done].
  - intros (z & Hz & Hf)%IH. exists z. split; [by right|done].
Qed.

Lemma find_map_None {A C} (f : A → option C) l x : find_map f l = None → x ∈ l → f x = None.
Proof.
  induction l as [|y l IH]; [by intros _ ?%not_elem_of_nil|]. cbn [find_map]. destruct (f y) eqn:Hy; [done|].
  intros Hn [->|Hx]%elem_of_cons; [done|by apply IH].
Qed.

Lemma elem_of_rev {A} (x : A) l : x ∈ rev l ↔ x ∈ l.
Proof. by rewrite !list_elem_of_In, <- in_rev. Qed.
