(* ===== verification/Handler.v ===== *)
(** * Handlers: results over a state

    A handler yields an answer or an error and the state; what it committed before an
    error stays. *)
From S2P Require Import Prelude.

Definition handler (S E A : Type) : Type := S → result E A * S.
#[export] Instance handler_ret S E : MRet (handler S E) := λ A a s, (Ok a, s).
#[export] Instance handler_bind S E : MBind (handler S E) := λ A B f m s,
  match m s with (Ok a, s) => f a s | (Err e, s) => (Err e, s) end.

(** A computation that leaves the state, one that looks at it, and a transaction:
    an error rolls it back. *)
Definition answer {S E A} (r : result E A) : handler S E A := λ s, (r, s).
Definition look {S E A} (f : S → result E A) : handler S E A := λ s, (f s, s).
Definition commit_to {S E A} (f : S → result E (A * S)) : handler S E A := λ s,
  match f s with Ok (a, s) => (Ok a, s) | Err e => (Err e, s) end.

Section Handlers.
Context {S E : Type}.

Lemma handler_bind_Ok {A B} (m : handler S E A) (f : A → handler S E B) s b s' :
  (m ≫= f) s = (Ok b, s') ↔ ∃ a s1, m s = (Ok a, s1) ∧ f a s1 = (Ok b, s').
Proof.
  unfold mbind, handler_bind. destruct (m s) as [[a|e] s1]; [|split; [done|by intros (? & ? & [=] & _)]].
  split; [by eauto|]. by intros (? & ? & [= <- <-] & ?).
Qed.

Lemma answer_Ok {A} (r : result E A) (s : S) a s' : answer r s = (Ok a, s') ↔ r = Ok a ∧ s' = s.
Proof. unfold answer. split; [by intros [= -> ->]|by intros [-> ->]]. Qed.

Lemma look_Ok {A} (f : S → result E A) s a s' : look f s = (Ok a, s') ↔ f s = Ok a ∧ s' = s.
Proof. unfold look. split; [by intros [= -> ->]|by intros [-> ->]]. Qed.

Lemma commit_to_Ok {A} (f : S → result E (A * S)) s a s' : commit_to f s = (Ok a, s') ↔ f s = Ok (a, s').
Proof. unfold commit_to. destruct (f s) as [[a0 s0]|]; [|done]. split; [by intros [= -> ->]|by intros [= -> ->]]. Qed.

(** A relation between the state before and after, whatever the answer is. *)
Definition leads (R : relation S) {A} (m : handler S E A) (s : S) : Prop := R s (m s).2.

Context (R : relation S) `{!PreOrder R}.

Lemma leads_bind {A B} (m : handler S E A) (f : A → handler S E B) s :
  leads R m s → (∀ a s1, m s = (Ok a, s1) → leads R (f a) s1) → leads R (m ≫= f) s.
Proof.
  unfold leads, mbind, handler_bind. intros Hm Hf. destruct (m s) as [[a|e] s1]; [|done]. etrans; [exact Hm|by apply Hf].
Qed.

Lemma leads_ret {A} (a : A) s : leads R (mret a) s.
Proof. unfold leads. reflexivity. Qed.

Lemma leads_answer {A} (r : result E A) s : leads R (answer r) s.
Proof. unfold leads. reflexivity. Qed.

Lemma leads_look {A} (f : S → result E A) s : leads R (look f) s.
Proof. unfold leads. reflexivity. Qed.

Lemma leads_commit {A} (f : S → result E (A * S)) s : (∀ a s', f s = Ok (a, s') → R s s') → leads R (commit_to f) s.
Proof. unfold leads, commit_to. intros Hf. destruct (f s) as [[a s']|] eqn:Hs; [by eapply Hf|reflexivity]. Qed.

End Handlers.

(** Takes the success of a handler apart, from the front. *)
Ltac handler_steps H :=
  repeat first
    [ let a := fresh "a" in let s := fresh "s" in let E := fresh "E" in
      apply handler_bind_Ok in H as (a & s & E & H); cbn beta in H;
      lazymatch type of E with
      | answer _ _ = _ => apply answer_Ok in E as [E ->]
      | look _ _ = _ => apply look_Ok in E as [E ->]
      | commit_to _ _ = _ => apply commit_to_Ok in E
      | _ => idtac
      end
    | progress (cbn beta iota zeta in H) ].

(** Walks through a handler, leaving the transactions. *)
Ltac leads_steps :=
  repeat (cbn beta iota zeta; lazymatch goal with
    | |- leads _ (answer _) _ => refine (leads_answer _ _ _)
    | |- leads _ (look _) _ => refine (leads_look _ _ _)
    | |- leads _ (mret _) _ => refine (leads_ret _ _ _)
    | |- leads _ (_ ≫= _) _ => refine (leads_bind _ _ _ _ _ _); [|let a := fresh "a" in let s := fresh "s" in intros a s ?]
    | |- leads _ (match ?p with (_, _) => _ end) _ => destruct p
    end).
