(* ===== verification/Str.v ===== *)
(** * Rust string operations

    A Rust [&str] is a sequence of UTF-8 bytes; it is modelled by stdpp's
    [string], one [ascii] per byte.  This file has the operations of [str]
    that the sources use ([starts_with], [strip_prefix], [split_once],
    [rsplit_once], [ends_with], [contains], [split], [trim_matches]) and
    their characterisations, shared by every component. *)
From S2P Require Import Prelude.


(** [s.strip_prefix(p)]. *)
Fixpoint strip_prefix (p s : string) : option string :=
  match p, s with
  | EmptyString, _ => Some s
  | String a p, String b s => if decide (a = b) then strip_prefix p s else None
  | String _ _, EmptyString => None
  end.

(** [s.starts_with(p)]. *)
Definition starts_with (p s : string) : bool :=
  match strip_prefix p s with Some _ => true | None => false end.

(** [s.contains(c)] for a character. *)
Fixpoint contains_char (c : ascii) (s : string) : bool :=
  match s with
  | EmptyString => false
  | String a s => if decide (a = c) then true else contains_char c s
  end.

(** [s.ends_with(c)] for a character. *)
Fixpoint ends_with_char (c : ascii) (s : string) : bool :=
  match s with
  | EmptyString => false
  | String a EmptyString => bool_decide (a = c)
  | String _ s => ends_with_char c s
  end.

(** [s.split_once(c)]: at the first occurrence. *)
Fixpoint split_once (c : ascii) (s : string) : option (string * string) :=
  match s with
  | EmptyString => None
  | String a s =>
      if decide (a = c) then Some ("", s)
      else match split_once c s with
           | Some (l, r) => Some (String a l, r)
           | None => None
           end
  end.

(** [s.rsplit_once(c)]: at the last occurrence. *)
Fixpoint rsplit_once (c : ascii) (s : string) : option (string * string) :=
  match s with
  | EmptyString => None
  | String a s =>
      match rsplit_once c s with
      | Some (l, r) => Some (String a l, r)
      | None => if decide (a = c) then Some ("", s) else None
      end
  end.

(** [s.contains(p)] for a substring. *)
Fixpoint contains_str (p s : string) : bool :=
  starts_with p s ||
  match s with EmptyString => false | String _ s => contains_str p s end.

(** [s.split(c)]: all the pieces. *)
Fixpoint split_char (c : ascii) (s : string) : list string :=
  match s with
  | EmptyString => [""]
  | String a s =>
      if decide (a = c) then "" :: split_char c s
      else match split_char c s with
           | w :: ws => String a w :: ws
           | [] => [String a ""]
           end
  end.

(** [s.trim_start_matches(c)] and [s.trim_matches(c)] for a character. *)
Fixpoint trim_start (c : ascii) (s : string) : string :=
  match s with
  | EmptyString => ""
  | String a r => if decide (a = c) then trim_start c r else s
  end.

Fixpoint trim_end (c : ascii) (s : string) : string :=
  match s with
  | EmptyString => ""
  | String a r =>
      match trim_end c r with
      | EmptyString => if decide (a = c) then "" else String a ""
      | r' => String a r'
      end
  end.

Definition trim_matches (c : ascii) (s : string) : string := trim_end c (trim_start c s).

Definition is_empty (s : string) : bool := bool_decide (s = "").

(** ** Append *)

Lemma append_nil_r s : s +:+ "" = s.
Proof. induction s as [|a s IH]; [done|]. unfold String.app in *. simpl. by rewrite IH. Qed.

Lemma append_cons a s t : String a s +:+ t = String a (s +:+ t).
Proof. done. Qed.

Lemma append_assoc s t u : (s +:+ t) +:+ u = s +:+ (t +:+ u).
Proof. induction s as [|a s IH]; [done|]. rewrite !append_cons. by rewrite IH. Qed.

Lemma append_inj_l s t u : s +:+ t = s +:+ u → t = u.
Proof. induction s as [|a s IH]; [done|]. rewrite !append_cons. intros [= ?]. auto. Qed.

Lemma length_append s t : String.length (s +:+ t) = String.length s + String.length t.
Proof. induction s as [|a s IH]; [done|]. rewrite append_cons. simpl. lia. Qed.

Lemma length_zero s : String.length s = 0 → s = "".
Proof. by destruct s. Qed.

Lemma append_nil_inv s t : s +:+ t = s → t = "".
Proof. intros H. apply (f_equal String.length) in H. rewrite length_append in H.
  apply length_zero. lia. Qed.

Lemma append_eq_nil s t : s +:+ t = "" → s = "" ∧ t = "".
Proof. destruct s; [done|]. discriminate. Qed.

(** The first byte after a prefix: [s.as_bytes().get(b.len())]. *)
Lemma get_append s t : String.get (String.length s) (s +:+ t) = String.get 0 t.
Proof. induction s as [|a s IH]; [by destruct t|]. done. Qed.

(** ** Prefixes *)

Lemma strip_prefix_Some p s r : strip_prefix p s = Some r ↔ s = p +:+ r.
Proof.
  revert s. induction p as [|a p IH]; intros s; simpl.
  - unfold String.app; simpl. split; [by intros [= <-]|]. by intros ->.
  - destruct s as [|b s]; [split; [done|]; discriminate|].
    rewrite append_cons. case_decide as Hab; [subst b|].
    + rewrite IH. split; [by intros ->|]. by intros [= ->].
    + split; [done|]. intros [= ?]; congruence.
Qed.

Lemma strip_prefix_app p r : strip_prefix p (p +:+ r) = Some r.
Proof. by apply strip_prefix_Some. Qed.

Lemma starts_with_spec p s : starts_with p s = true ↔ ∃ r, s = p +:+ r.
Proof.
  unfold starts_with. destruct (strip_prefix p s) as [r|] eqn:E.
  - apply strip_prefix_Some in E. naive_solver.
  - split; [done|]. intros [r Hr]. apply strip_prefix_Some in Hr. congruence.
Qed.

Lemma starts_with_refl s : starts_with s s = true.
Proof. apply starts_with_spec. exists "". by rewrite append_nil_r. Qed.

Lemma starts_with_trans p q s :
  starts_with p q = true → starts_with q s = true → starts_with p s = true.
Proof.
  rewrite !starts_with_spec. intros [r ->] [t ->]. exists (r +:+ t). apply append_assoc.
Qed.

Lemma starts_with_length p s : starts_with p s = true → String.length p ≤ String.length s.
Proof. rewrite starts_with_spec. intros [r ->]. rewrite length_append. lia. Qed.

Lemma starts_with_same_length p s :
  starts_with p s = true → String.length s = String.length p → s = p.
Proof.
  rewrite starts_with_spec. intros [r ->]. rewrite length_append. intros H.
  rewrite (length_zero r), append_nil_r; [done|lia].
Qed.

(** ** Characters *)

Lemma contains_char_app c s t :
  contains_char c (s +:+ t) = contains_char c s || contains_char c t.
Proof.
  induction s as [|a s IH]; [done|]. rewrite append_cons. simpl. by case_decide.
Qed.

Lemma contains_char_cons c a s :
  contains_char c (String a s) = bool_decide (a = c) || contains_char c s.
Proof. simpl. by repeat case_decide. Qed.

Lemma ends_with_char_app c s t :
  ends_with_char c (s +:+ t) =
    if decide (t = "") then ends_with_char c s else ends_with_char c t.
Proof.
  induction s as [|a s IH].
  - case_decide; [by subst|done].
  - rewrite append_cons. case_decide as Ht.
    + subst t. by rewrite append_nil_r.
    + transitivity (ends_with_char c (s +:+ t)); [|done].
      simpl. destruct (s +:+ t) eqn:E; [|done].
      apply append_eq_nil in E. naive_solver.
Qed.

Lemma ends_with_char_spec c s :
  ends_with_char c s = true ↔ ∃ t, s = t +:+ String c "".
Proof.
  split.
  - induction s as [|a s IH]; [done|]. destruct s as [|b s].
    + simpl. rewrite bool_decide_eq_true. intros ->. by exists "".
    + intros H. destruct (IH H) as [t Ht]. exists (String a t). by rewrite append_cons, <- Ht.
  - intros [t ->]. rewrite ends_with_char_app. simpl. by rewrite bool_decide_eq_true.
Qed.

(** ** Splitting *)

Lemma split_once_Some c s l r :
  split_once c s = Some (l, r) ↔ s = l +:+ String c r ∧ contains_char c l = false.
Proof.
  revert l r. induction s as [|a s IH]; intros l r; simpl.
  - split; [done|]. intros [H _]. by destruct l.
  - case_decide as Hac; [subst a|].
    + split; [by intros [= <- <-]|].
      intros [H Hl]. destruct l as [|b l].
      * by injection H as ->.
      * injection H as -> ->. simpl in Hl. by case_decide.
    + destruct (split_once c s) as [[l' r']|] eqn:E.
      * destruct (IH l' r') as [[Hs Hl] _]; [done|]. split.
        { intros [= <- <-]. rewrite append_cons, <- Hs. simpl. by rewrite decide_False. }
        intros [H Hc]. destruct l as [|b l]; [by injection H as ? ?|].
        injection H as -> H. simpl in Hc. rewrite decide_False in Hc by done.
        destruct (IH l r) as [_ IH']. specialize (IH' (conj H Hc)). by simplify_eq.
      * split; [done|]. intros [H Hc]. destruct l as [|b l]; [by injection H as ? ?|].
        injection H as -> H. simpl in Hc. rewrite decide_False in Hc by done.
        destruct (IH l r) as [_ IH']. by specialize (IH' (conj H Hc)).
Qed.

Lemma split_once_None c s : split_once c s = None ↔ contains_char c s = false.
Proof.
  induction s as [|a s IH]; simpl; [done|]. case_decide; [done|].
  destruct (split_once c s) as [[]|]; naive_solver.
Qed.

Lemma split_once_app c l r :
  contains_char c l = false → split_once c (l +:+ String c r) = Some (l, r).
Proof. intros H. by apply split_once_Some. Qed.

Lemma rsplit_once_None c s : rsplit_once c s = None ↔ contains_char c s = false.
Proof.
  induction s as [|a s IH]; simpl; [done|].
  destruct (rsplit_once c s) as [[]|]; [|by case_decide; naive_solver].
  case_decide; naive_solver.
Qed.

Lemma rsplit_once_Some c s l r :
  rsplit_once c s = Some (l, r) ↔ s = l +:+ String c r ∧ contains_char c r = false.
Proof.
  revert l r. induction s as [|a s IH]; intros l r; simpl.
  - split; [done|]. intros [H _]. by destruct l.
  - destruct (rsplit_once c s) as [[l' r']|] eqn:E.
    + destruct (IH l' r') as [[Hs Hr] _]; [done|]. split.
      { intros [= <- <-]. by rewrite append_cons, <- Hs. }
      intros [H Hc]. destruct l as [|b l].
      * injection H as _ ->. rewrite Hs, contains_char_app, contains_char_cons in Hc.
        rewrite bool_decide_eq_true_2 in Hc by done. destruct (contains_char c l'); done.
      * injection H as -> H. destruct (IH l r) as [_ IH']. specialize (IH' (conj H Hc)).
        by simplify_eq.
    + apply rsplit_once_None in E. case_decide as Hac; [subst a|].
      * split; [by intros [= <- <-]|]. intros [H Hc]. destruct l as [|b l].
        { by injection H as ->. }
        injection H as <- H. rewrite H, contains_char_app, contains_char_cons in E.
        rewrite bool_decide_eq_true_2 in E by done. destruct (contains_char c l); done.
      * split; [done|]. intros [H Hc]. destruct l as [|b l]; [by injection H|].
        injection H as _ H. rewrite H, contains_char_app, contains_char_cons in E.
        rewrite bool_decide_eq_true_2 in E by done. destruct (contains_char c l); done.
Qed.

Lemma rsplit_once_app c l r :
  contains_char c r = false → rsplit_once c (l +:+ String c r) = Some (l, r).
Proof. intros H. by apply rsplit_once_Some. Qed.

Lemma contains_str_spec p s : contains_str p s = true ↔ ∃ l r, s = l +:+ p +:+ r.
Proof.
  induction s as [|a s IH]; simpl; rewrite orb_true_iff, starts_with_spec.
  - split; [|intros (l & r & H)].
    + intros [[r Hr]|]; [|done]. by exists "", r.
    + symmetry in H. apply append_eq_nil in H as [-> H]. left. by exists r.
  - rewrite IH. split.
    + intros [[r Hr]|(l & r & ->)]; [by exists "", r|]. by exists (String a l), r.
    + intros ([|b l] & r & H); [left; by exists r|]. injection H as -> H. right. by exists l, r.
Qed.

#[global] Arguments strip_prefix : simpl never.
#[global] Arguments starts_with : simpl never.
#[global] Arguments split_once : simpl never.
#[global] Arguments rsplit_once : simpl never.
#[global] Arguments contains_char : simpl never.
#[global] Arguments contains_str : simpl never.
#[global] Arguments ends_with_char : simpl never.

(** [str::ends_with]. *)
Fixpoint ends_with (p s : string) : bool :=
  bool_decide (s = p) || match s with "" => false | String _ s' => ends_with p s' end.

Lemma ends_with_spec p s : ends_with p s = true ↔ ∃ pre, s = pre +:+ p.
Proof.
  induction s as [|c s IH]; simpl; rewrite orb_true_iff, bool_decide_eq_true.
  - split.
    + intros [<-|?]; [by exists ""|done].
    + intros [[|] ?]; [by left|done].
  - rewrite IH. split.
    + intros [<-|[pre ->]]; [by exists ""|by exists (String c pre)].
    + intros [[|c' pre] Hp]; [by left|]. right. exists pre. by injection Hp as -> ->.
Qed.
#[global] Arguments ends_with : simpl never.

(** ** Substrings *)

Lemma substring_app_l s t : String.substring 0 (String.length s) (s +:+ t) = s.
Proof. induction s as [|c s IH]; [by destruct t|]. change (String c (String.substring 0 (String.length s) (s +:+ t)) = String c s). by rewrite IH. Qed.

Lemma substring_all s n : n = String.length s → String.substring 0 n s = s.
Proof. intros ->. rewrite <- (append_nil_r s) at 2. apply substring_app_l. Qed.

Lemma substring_app_r s t n : n = String.length t → String.substring (String.length s) n (s +:+ t) = t.
Proof. intros Hn. induction s as [|c s IH]; [by apply substring_all|exact IH]. Qed.

Lemma substring_cut s n : n ≤ String.length s →
  String.substring 0 n s +:+ String.substring n (String.length s - n) s = s.
Proof.
  revert n. induction s as [|c s IH]; intros [|n] Hn; simpl in Hn; try done; try lia.
  - change (String.substring 0 (S (String.length s)) (String c s) = String c s). by apply substring_all.
  - change (String c (String.substring 0 n s +:+ String.substring n (String.length s - n) s) = String c s).
    f_equal. apply IH. lia.
Qed.

Lemma substring_take_length s n : n ≤ String.length s → String.length (String.substring 0 n s) = n.
Proof.
  revert n. induction s as [|c s IH]; intros [|n] Hn; simpl in Hn; try done; [lia|].
  change (S (String.length (String.substring 0 n s)) = S n). f_equal. apply IH. lia.
Qed.
