(* ===== verification/Chars.v ===== *)
(** * ASCII characters, hexadecimal and decimal numerals

    The character classes of [u8]/[char] the sources test, the [hex] crate's
    [encode], and the decimal [Display] and [FromStr] of [u64]. *)
From S2P Require Import Prelude Str.

(** ** Characters *)

Definition code (c : ascii) : N := N_of_ascii c.
Definition char (n : N) : ascii := ascii_of_N n.

Definition in_range (lo hi : ascii) (c : ascii) : bool :=
  (code lo <=? code c)%N && (code c <=? code hi)%N.

Definition is_ascii_digit : ascii → bool := in_range "0" "9".
Definition is_ascii_lower : ascii → bool := in_range "a" "z".
Definition is_ascii_upper : ascii → bool := in_range "A" "Z".
Definition is_ascii_alphanumeric (c : ascii) : bool :=
  is_ascii_digit c || is_ascii_lower c || is_ascii_upper c.

Definition to_ascii_uppercase_char (c : ascii) : ascii :=
  if is_ascii_lower c then char (code c - 32)%N else c.
Definition to_ascii_lowercase_char (c : ascii) : ascii :=
  if is_ascii_upper c then char (code c + 32)%N else c.

Fixpoint map_string (f : ascii → ascii) (s : string) : string :=
  match s with EmptyString => "" | String a s => String (f a) (map_string f s) end.

(** [str::to_ascii_uppercase], [str::to_ascii_lowercase]. *)
Definition to_ascii_uppercase : string → string := map_string to_ascii_uppercase_char.
Definition to_ascii_lowercase : string → string := map_string to_ascii_lowercase_char.

Fixpoint forall_char (p : ascii → bool) (s : string) : bool :=
  match s with EmptyString => true | String a s => p a && forall_char p s end.

Lemma code_char n : (n < 256)%N → code (char n) = n.
Proof. apply Stdlib.Strings.Ascii.N_ascii_embedding. Qed.

Lemma code_inj a b : code a = code b → a = b.
Proof.
  intros H. rewrite <- (Stdlib.Strings.Ascii.ascii_N_embedding a).
  rewrite <- (Stdlib.Strings.Ascii.ascii_N_embedding b). unfold code in H. by rewrite H.
Qed.

(** A boolean fact about every character, checked on the 256 of them. *)
Lemma ascii_forall (p : ascii → bool) :
  forallb p (map char (N.of_nat <$> seq 0 256)) = true → ∀ c, p c = true.
Proof.
  intros H c. rewrite forallb_forall in H. apply H.
  apply in_map_iff. exists (code c). split.
  { apply Stdlib.Strings.Ascii.ascii_N_embedding. }
  apply list_elem_of_In, list_elem_of_fmap. exists (N.to_nat (code c)).
  pose proof (Stdlib.Strings.Ascii.N_ascii_bounded c) as Hb. fold (code c) in Hb.
  rewrite N2Nat.id. split; [done|]. apply elem_of_seq. lia.
Qed.

(** ** Hexadecimal *)

(** One lowercase hexadecimal digit. *)
Definition hex_digit (n : N) : ascii :=
  if (n <? 10)%N then char (code "0" + n)%N else char (code "a" + (n - 10))%N.

(** The value of a hexadecimal digit of either case, [char::to_digit(16)]. *)
Definition hex_value (c : ascii) : option N :=
  if in_range "0" "9" c then Some (code c - code "0")%N
  else if in_range "a" "f" c then Some (code c - code "a" + 10)%N
  else if in_range "A" "F" c then Some (code c - code "A" + 10)%N
  else None.

(** [hex::encode]. *)
Fixpoint hex_encode (bs : list N) : string :=
  match bs with
  | [] => ""
  | b :: bs => String (hex_digit (N.shiftr b 4)) (String (hex_digit (N.land b 15)) (hex_encode bs))
  end.

Lemma hex_value_bound c n : hex_value c = Some n → (n < 16)%N.
Proof.
  unfold hex_value, in_range.
  repeat case_match; simplify_eq/=; intros; simplify_eq/=;
  repeat match goal with H : _ && _ = true |- _ => apply andb_true_iff in H as [??] end;
  rewrite ?N.leb_le in *; change (code "0") with 48%N in *; change (code "9") with 57%N in *;
  change (code "a") with 97%N in *; change (code "f") with 102%N in *;
  change (code "A") with 65%N in *; change (code "F") with 70%N in *; lia.
Qed.

Lemma N_below_16 (P : N → bool) :
  forallb P (N.of_nat <$> seq 0 16) = true → ∀ n, (n < 16)%N → P n = true.
Proof.
  intros H n Hn. rewrite forallb_forall in H. apply H, list_elem_of_In, list_elem_of_fmap.
  exists (N.to_nat n). rewrite N2Nat.id. split; [done|]. apply elem_of_seq. lia.
Qed.

Lemma hex_value_digit n : (n < 16)%N → hex_value (hex_digit n) = Some n.
Proof.
  intros H. apply (bool_decide_eq_true_1 (hex_value (hex_digit n) = Some n)).
  revert n H. apply (N_below_16 (λ n, bool_decide (hex_value (hex_digit n) = Some n))).
  vm_compute. done.
Qed.

(** ** Decimal *)

Definition u64_max : N := 18446744073709551615%N.

Fixpoint parse_digits (acc : N) (s : string) : option N :=
  match s with
  | EmptyString => Some acc
  | String c s =>
      if is_ascii_digit c then parse_digits (acc * 10 + (code c - code "0"))%N s else None
  end.

(** [str::parse::<u64>()]: an optional [+], at least one digit, no overflow. *)
Definition parse_u64 (s : string) : option N :=
  let digits := match strip_prefix "+" s with Some r => r | None => s end in
  if is_empty digits then None
  else match parse_digits 0 digits with
       | Some n => if (n <=? u64_max)%N then Some n else None
       | None => None
       end.

Fixpoint dec_go (fuel : nat) (n : N) (acc : string) : string :=
  match fuel with
  | O => acc
  | S fuel =>
      let acc := String (char (code "0" + n mod 10)%N) acc in
      if (n <? 10)%N then acc else dec_go fuel (n / 10)%N acc
  end.

(** [Display] of a [u64]: at most 20 digits. *)
Definition fmt_u64 (n : N) : string := dec_go 20 n "".

Lemma dec_digit d : (d < 10)%N →
  is_ascii_digit (char (code "0" + d)%N) = true ∧
  (code (char (code "0" + d)%N) - code "0" = d)%N.
Proof.
  intros Hd. change (code "0") with 48%N.
  assert (code (char (48 + d)%N) = (48 + d)%N) as Hc by (apply code_char; lia).
  split.
  - unfold is_ascii_digit, in_range. rewrite Hc. change (code "0") with 48%N.
    change (code "9") with 57%N. apply andb_true_iff. rewrite !N.leb_le. lia.
  - rewrite Hc. lia.
Qed.

Lemma parse_dec_go fuel n acc :
  (n < 10 ^ N.of_nat fuel)%N → parse_digits 0 (dec_go fuel n acc) = parse_digits n acc.
Proof.
  revert n acc. induction fuel as [|fuel IH]; intros n acc Hn.
  - simpl in *. f_equal. lia.
  - cbn [dec_go]. assert (n mod 10 < 10)%N as Hm by (apply N.mod_lt; lia).
    destruct (dec_digit _ Hm) as [Hd Hv].
    destruct (N.ltb_spec n 10).
    + cbn [parse_digits]. rewrite Hd. f_equal. rewrite Hv, N.mod_small; lia.
    + rewrite IH.
      * cbn [parse_digits]. rewrite Hd, Hv. f_equal.
        pose proof (N.div_mod n 10). lia.
      * apply N.Div0.div_lt_upper_bound.
        rewrite Nat2N.inj_succ, N.pow_succ_r' in Hn. lia.
Qed.

Lemma dec_go_head fuel n acc :
  fuel ≠ 0 → ∃ c s, dec_go fuel n acc = String c s ∧ c ≠ "+"%char.
Proof.
  revert n acc. induction fuel as [|fuel IH]; intros n acc Hf; [done|].
  cbn [dec_go]. assert (n mod 10 < 10)%N as Hm by (apply N.mod_lt; lia).
  destruct (dec_digit _ Hm) as [Hd _].
  assert (char (code "0" + n mod 10)%N ≠ "+"%char) as Hp by (intros E; by rewrite E in Hd).
  destruct (n <? 10)%N; [eauto|]. destruct fuel as [|fuel]; [eauto|]. apply IH. done.
Qed.

Lemma dec_go_no_char x fuel n acc :
  is_ascii_digit x = false → contains_char x acc = false →
  contains_char x (dec_go fuel n acc) = false.
Proof.
  intros Hx. revert n acc. induction fuel as [|fuel IH]; intros n acc Ha; [done|].
  cbn [dec_go]. assert (n mod 10 < 10)%N as Hm by (apply N.mod_lt; lia).
  destruct (dec_digit _ Hm) as [Hd _].
  assert (contains_char x (String (char (code "0" + n mod 10)%N) acc) = false) as Hs.
  { rewrite contains_char_cons, Ha, bool_decide_eq_false_2; [done|]. intros <-. congruence. }
  destruct (n <? 10)%N; [done|]. by apply IH.
Qed.

Lemma fmt_u64_no_char x n : is_ascii_digit x = false → contains_char x (fmt_u64 n) = false.
Proof. intros Hx. by apply dec_go_no_char. Qed.

(** A printed number is digits, at least one. *)
Lemma dec_go_digits fuel n acc :
  forall_char is_ascii_digit acc = true → forall_char is_ascii_digit (dec_go fuel n acc) = true.
Proof.
  revert n acc. induction fuel as [|fuel IH]; intros n acc Ha; [done|].
  cbn [dec_go]. assert (n mod 10 < 10)%N as Hm by (apply N.mod_lt; lia).
  destruct (dec_digit _ Hm) as [Hd _].
  assert (forall_char is_ascii_digit (String (char (code "0" + n mod 10)%N) acc) = true) as Hs
    by (cbn [forall_char]; by rewrite Hd).
  destruct (n <? 10)%N; [done|]. by apply IH.
Qed.

Lemma fmt_u64_digits n : forall_char is_ascii_digit (fmt_u64 n) = true.
Proof. by apply dec_go_digits. Qed.

Lemma fmt_u64_head n : ∃ c s, fmt_u64 n = String c s ∧ is_ascii_digit c = true.
Proof.
  destruct (dec_go_head 20 n "") as (c & s & Hs & _); [done|]. exists c, s. split; [done|].
  pose proof (fmt_u64_digits n) as Hd. unfold fmt_u64 in Hd. rewrite Hs in Hd. cbn [forall_char] in Hd.
  by apply andb_true_iff in Hd as [? _].
Qed.

(** Printing a [u64] and parsing it back gives the same number. *)
Lemma parse_fmt_u64 n : (n ≤ u64_max)%N → parse_u64 (fmt_u64 n) = Some n.
Proof.
  intros Hn. unfold parse_u64, fmt_u64.
  destruct (dec_go_head 20 n "") as (c & s & Hs & Hc); [done|].
  assert (strip_prefix "+" (dec_go 20 n "") = None) as ->.
  { rewrite Hs. unfold strip_prefix. by rewrite decide_False. }
  unfold is_empty. rewrite bool_decide_eq_false_2 by (by rewrite Hs).
  rewrite parse_dec_go; [|unfold u64_max in Hn; change (10 ^ N.of_nat 20)%N with 100000000000000000000%N; lia].
  cbn [parse_digits]. by apply N.leb_le in Hn as ->.
Qed.

Lemma parse_u64_bound s n : parse_u64 s = Some n → (n ≤ u64_max)%N.
Proof.
  unfold parse_u64. intros H. repeat case_match; simplify_eq/=; by apply N.leb_le.
Qed.

(** ** Characters of a UTF-8 text *)

(** A continuation byte [10xxxxxx]. *)
Definition is_continuation (c : ascii) : bool := (N.land (code c) 192 =? 128)%N.

(** [s.chars()], each character as its UTF-8 bytes. *)
Fixpoint chars (s : string) : list string :=
  match s with
  | EmptyString => []
  | String c s =>
      match chars s with
      | String d w :: ws =>
          if is_continuation d then String c (String d w) :: ws else String c "" :: String d w :: ws
      | ws => String c "" :: ws
      end
  end.

Definition bytes_string (l : list N) : string := foldr (λ b s, String (char b) s) "" l.

(** [char::is_whitespace]: the Unicode [White_Space] characters, in UTF-8. *)
Definition unicode_whitespace : list string :=
  bytes_string <$>
  [[9]; [10]; [11]; [12]; [13]; [32]; [194; 133]; [194; 160]; [225; 154; 128];
   [226; 128; 128]; [226; 128; 129]; [226; 128; 130]; [226; 128; 131]; [226; 128; 132];
   [226; 128; 133]; [226; 128; 134]; [226; 128; 135]; [226; 128; 136]; [226; 128; 137];
   [226; 128; 138]; [226; 128; 168]; [226; 128; 169]; [226; 128; 175]; [226; 129; 159];
   [227; 128; 128]]%N.

Definition is_whitespace (c : string) : bool := bool_decide (c ∈ unicode_whitespace).

(** [trim_start_matches(p)], [trim_end_matches(p)] on characters and [str::trim]. *)
Fixpoint trim_start_chars (p : string → bool) (l : list string) : list string :=
  match l with [] => [] | c :: l' => if p c then trim_start_chars p l' else l end.
Definition trim_end_chars (p : string → bool) (l : list string) : list string := rev (trim_start_chars p (rev l)).
Definition trim (s : string) : string :=
  String.concat "" (trim_end_chars is_whitespace (trim_start_chars is_whitespace (chars s))).

(** [eq_ignore_ascii_case]. *)
Definition eq_ignore_ascii_case (a b : string) : bool :=
  bool_decide (to_ascii_lowercase a = to_ascii_lowercase b).

(** ** Bytes and hexadecimal *)

Fixpoint string_bytes (s : string) : list N :=
  match s with "" => [] | String c s => code c :: string_bytes s end.

(** [hex::decode]. *)
Fixpoint hex_decode (s : string) : option string :=
  match s with
  | "" => Some ""
  | String a (String b r) =>
      hi ← hex_value a; lo ← hex_value b; t ← hex_decode r; Some (String (char (hi * 16 + lo)%N) t)
  | String _ "" => None
  end.

Lemma code_lt c : (code c < 256)%N.
Proof. unfold code. destruct c as [[] [] [] [] [] [] [] []]; by vm_compute. Qed.

Lemma nibbles_lt b : (b < 256)%N →
  (N.shiftr b 4 < 16 ∧ N.land b 15 < 16 ∧ N.shiftr b 4 * 16 + N.land b 15 = b)%N.
Proof.
  intros Hb. rewrite N.shiftr_div_pow2. change 15%N with (N.ones 4). rewrite N.land_ones.
  change (2 ^ 4)%N with 16%N. pose proof (N.div_mod b 16). pose proof (N.mod_lt b 16).
  pose proof (N.Div0.div_lt_upper_bound b 16 16). lia.
Qed.

Lemma char_code c : char (code c) = c.
Proof. apply code_inj, code_char, code_lt. Qed.

(** Encoding and decoding back. *)
Lemma hex_decode_encode s : hex_decode (hex_encode (string_bytes s)) = Some s.
Proof.
  induction s as [|c s IH]; [done|]. cbn [string_bytes hex_encode hex_decode].
  destruct (nibbles_lt _ (code_lt c)) as (Hhi & Hlo & Hb).
  rewrite !hex_value_digit by done. cbn. rewrite IH. cbn. by rewrite Hb, char_code.
Qed.

Lemma length_hex_encode l : String.length (hex_encode l) = 2 * length l.
Proof. induction l as [|b l IH]; [done|]. cbn. rewrite IH. lia. Qed.

Lemma length_string_bytes s : length (string_bytes s) = String.length s.
Proof. induction s as [|c s IH]; [done|]. cbn. by rewrite IH. Qed.

(** ** ASCII text *)

Definition is_ascii (s : string) : bool := forall_char (λ c, (code c <? 128)%N) s.

Fixpoint singles (s : string) : list string :=
  match s with "" => [] | String c s => String c "" :: singles s end.

Lemma forall_char_app p s t : forall_char p (s +:+ t) = forall_char p s && forall_char p t.
Proof. induction s as [|c s IH]; [done|]. rewrite append_cons. cbn. by rewrite IH, andb_assoc. Qed.

Lemma chars_ascii s : is_ascii s = true → chars s = singles s.
Proof.
  induction s as [|c s IH]; [done|]. unfold is_ascii. cbn [forall_char]. intros [_ Hs]%andb_true_iff.
  cbn [chars]. rewrite (IH Hs). destruct s as [|d s]; [done|]. cbn [singles].
  cbn [forall_char] in Hs. apply andb_true_iff in Hs as [Hd _]. apply N.ltb_lt in Hd.
  assert (is_continuation d = false) as ->; [|done]. unfold is_continuation. apply N.eqb_neq. intros Hc.
  assert (N.testbit (N.land (code d) 192) 7 = true) as Hbit by by rewrite Hc.
  rewrite N.land_spec in Hbit. apply andb_true_iff in Hbit as [Hbit _].
  rewrite N.testbit_eqb in Hbit. change (2 ^ 7)%N with 128%N in Hbit.
  rewrite (N.div_small (code d) 128) in Hbit by done. done.
Qed.

Lemma concat_singles s : String.concat "" (singles s) = s.
Proof.
  induction s as [|c s IH]; [done|]. destruct s as [|d s]; [done|].
  change (String.concat "" (singles (String c (String d s)))) with (String c "" +:+ "" +:+ String.concat "" (singles (String d s))).
  rewrite IH. done.
Qed.

Lemma singles_app s t : singles (s +:+ t) = singles s ++ singles t.
Proof. induction s as [|c s IH]; [done|]. rewrite append_cons. cbn. by rewrite IH. Qed.

(** Trimming an ASCII text whose first and last characters are not white. *)
Lemma trim_ascii a s b :
  is_ascii (String a (s +:+ String b "")) = true →
  is_whitespace (String a "") = false → is_whitespace (String b "") = false →
  trim (String a (s +:+ String b "")) = String a (s +:+ String b "").
Proof.
  intros Hs Ha Hb. unfold trim. rewrite chars_ascii by done. cbn [singles trim_start_chars]. rewrite Ha.
  unfold trim_end_chars. cbn [rev]. rewrite singles_app, rev_app_distr. cbn [singles rev app trim_start_chars].
  rewrite Hb. change (String b "" :: rev (singles s) ++ [String a ""]) with ((String b "" :: rev (singles s)) ++ [String a ""]).
  rewrite rev_app_distr. cbn [rev]. rewrite rev_involutive. cbn [app rev].
  change (String a "" :: singles s ++ [String b ""]) with (String a "" :: singles s ++ singles (String b "")).
  rewrite <- singles_app. apply (concat_singles (String a (s +:+ String b ""))).
Qed.
