(* ===== verification/Identity.v ===== *)
(** * Principals: tinycloud-auth/src/identity.rs

    DID principals and their canonical form.  A [did:pkh:eip155] DID carries
    an Ethereum address whose canonical spelling is the EIP-55 checksum
    casing (dependencies/siwe/src/lib.rs [encode_eip55]); every other DID is
    its own canonical form.  [Keccak256] is a parameter: nothing below
    depends on what it computes.

    The theorems: EIP-55 encoding decodes back, canonicalization is
    idempotent and insensitive to the casing of the address, and
    [did_principal_matches] is an equivalence relation, which is what lets
    the chain checks compose principal comparisons. *)
From S2P Require Import Prelude Str Chars.

(** The digest of the [sha3] crate, as bytes. *)
Class Keccak256 := keccak256_digest : string → list N.

(** ** EIP-55 *)

(** [check_byte]: the bit of the digest that decides the case of digit [i]. *)
Definition check_byte (hash : list N) (i : nat) : bool :=
  negb (N.land (default 0%N (hash !! (Nat.div2 i))) (if Nat.even i then 128 else 8) =? 0)%N.

(** The closure of [encode_eip55]: the case of one digit, by its digest bit. *)
Definition eip55_char (upper : bool) (c : ascii) : ascii :=
  if in_range "0" "9" c then c
  else if in_range "a" "f" c then if upper then to_ascii_uppercase_char c else c
  else if in_range "A" "F" c then if negb upper then to_ascii_lowercase_char c else c
  else c.

(** The digit-by-digit map of [encode_eip55], from position [i]. *)
Fixpoint eip55_case (hash : list N) (i : nat) (s : string) : string :=
  match s with
  | EmptyString => ""
  | String c s => String (eip55_char (check_byte hash i) c) (eip55_case hash (S i) s)
  end.

Definition encode_eip55 `{Keccak256} (addr : list N) : string :=
  let addr_str := hex_encode addr in
  let hash := keccak256_digest (to_ascii_lowercase addr_str) in
  eip55_case hash 0 addr_str.

(** ** identity.rs *)

Record PkhDid := { chain_id : N; address : string }.

Inductive IdentityError :=
| InvalidAddressPrefix
| InvalidAddressLength (n : nat)
(** The offending character is given by its first byte. *)
| InvalidAddressChar (index : nat) (character : ascii)
| InvalidChainId
| InvalidPkhDid
| InvalidDid.

#[export] Instance IdentityError_eq_dec : EqDecision IdentityError.
Proof. solve_decision. Defined.

Definition hex_nibble (index : nat) (c : ascii) : result IdentityError N :=
  if in_range "0" "9" c then Ok (code c - code "0")%N
  else if in_range "a" "f" c then Ok (code c - code "a" + 10)%N
  else if in_range "A" "F" c then Ok (code c - code "A" + 10)%N
  else Err (InvalidAddressChar index c).

(** The loop that fills the 20 bytes, two characters at a time. *)
Fixpoint nibble_pairs (n index : nat) (chars : string) : result IdentityError (list N) :=
  match n with
  | O => Ok []
  | S n =>
      match chars with
      | EmptyString => Err InvalidPkhDid
      | String _ EmptyString => Err InvalidPkhDid
      | String hi (String lo rest) =>
          h ← hex_nibble index hi;
          l ← hex_nibble (S index) lo;
          bs ← nibble_pairs n (S (S index)) rest;
          Ok (N.lor (N.shiftl h 4) l :: bs)
      end
  end.

Definition canonicalize_eip155_address `{Keccak256} (address : string) : result IdentityError string :=
  raw ← ok_or (strip_prefix "0x" address) InvalidAddressPrefix;
  _ ← ensure (String.length raw =? 40) (InvalidAddressLength (String.length raw));
  bytes ← nibble_pairs 20 0 raw;
  Ok ("0x" +:+ encode_eip55 bytes).

Definition parse_pkh_did `{Keccak256} (did : string) : result IdentityError (option PkhDid) :=
  match strip_prefix "did:pkh:eip155:" did with
  | None => Ok None
  | Some rest =>
      '(chain_id, address) ← ok_or (split_once ":" rest) InvalidPkhDid;
      _ ← ensure (negb (contains_char ":" address)) InvalidPkhDid;
      chain_id ← ok_or (match parse_u64 chain_id with
                        | Some id => if (0 <? id)%N then Some id else None
                        | None => None
                        end) InvalidChainId;
      address ← canonicalize_eip155_address address;
      Ok (Some {| chain_id := chain_id; address := address |})
  end.

Definition canonicalize_did `{Keccak256} (did : string) : result IdentityError string :=
  pkh ← parse_pkh_did did;
  match pkh with
  | Some pkh => Ok ("did:pkh:eip155:" +:+ fmt_u64 pkh.(chain_id) +:+ ":" +:+ pkh.(address))
  | None =>
      match strip_prefix "did:" did with
      | Some rest =>
          match split_once ":" rest with
          | Some _ => Ok did
          | None => Err InvalidDid
          end
      | None => Err InvalidDid
      end
  end.

Definition canonicalize_did_url `{Keccak256} (did_url : string) : result IdentityError string :=
  match split_once "#" did_url with
  | Some (did, fragment) => did ← canonicalize_did did; Ok (did +:+ "#" +:+ fragment)
  | None => canonicalize_did did_url
  end.

Definition principal_did `{Keccak256} (did_url : string) : result IdentityError string :=
  let did := match split_once "#" did_url with Some (did, _) => did | None => did_url end in
  canonicalize_did did.

Definition canonicalize_principal `{Keccak256} (principal : string) : result IdentityError string :=
  if starts_with "did:" principal then canonicalize_did principal else Ok principal.

Definition did_principal_matches `{Keccak256} (actual expected : string) : bool :=
  match principal_did actual, principal_did expected with
  | Ok a, Ok b => bool_decide (a = b)
  | _, _ => bool_decide (actual = expected)
  end.

(** core/src/util.rs: the principal of a DID URL, or the text before [#]. *)
Definition strip_fragment `{Keccak256} (did : string) : string :=
  match principal_did did with
  | Ok p => p
  | Err _ => match split_once "#" did with Some (p, _) => p | None => did end
  end.

(** ** Hexadecimal digits survive the casing *)

Definition byte_list (bs : list N) : Prop := Forall (λ b, b < 256)%N bs.

Lemma hex_nibble_value i c :
  hex_nibble i c = match hex_value c with
                   | Some v => Ok v
                   | None => Err (InvalidAddressChar i c)
                   end.
Proof. unfold hex_nibble, hex_value. by repeat case_match. Qed.

Lemma hex_nibble_Ok i c v : hex_nibble i c = Ok v ↔ hex_value c = Some v.
Proof. rewrite hex_nibble_value. case_match; naive_solver. Qed.

Lemma byte_split b : (b < 256)%N →
  (N.shiftr b 4 < 16)%N ∧ (N.land b 15 < 16)%N ∧
  N.lor (N.shiftl (N.shiftr b 4) 4) (N.land b 15) = b.
Proof.
  intros Hb. change 15%N with (N.ones 4). rewrite N.land_ones, N.shiftr_div_pow2.
  split_and!.
  - apply N.Div0.div_lt_upper_bound. simpl. lia.
  - apply N.mod_lt. done.
  - rewrite N.shiftl_mul_pow2, <- N.shiftr_div_pow2, <- N.land_ones.
    rewrite <- N.shiftl_mul_pow2. apply N.bits_inj. intros k.
    rewrite N.lor_spec, N.land_spec.
    destruct (N.ltb_spec k 4).
    + rewrite N.shiftl_spec_low, N.ones_spec_low by done. by rewrite andb_true_r.
    + rewrite N.shiftl_spec_high', N.shiftr_spec', N.ones_spec_high by done.
      rewrite andb_false_r, orb_false_r. f_equal. lia.
Qed.

(** The cased digit has the same value. *)
Lemma eip55_digit (b : bool) (n : N) : (n < 16)%N →
  hex_value (eip55_char b (hex_digit n)) = Some n.
Proof.
  intros Hn. apply (bool_decide_eq_true_1 (_ = _)). revert n Hn.
  apply (N_below_16 (λ n, bool_decide (hex_value (eip55_char b (hex_digit n)) = Some n))).
  destruct b; by vm_compute.
Qed.

Lemma eip55_case_decodes h j i bs rest :
  byte_list bs →
  nibble_pairs (length bs) i (eip55_case h j (hex_encode bs) +:+ rest) = Ok bs.
Proof.
  intros Hbs. revert i j. induction Hbs as [|b bs Hb Hbs IH]; intros i j; [done|].
  destruct (byte_split b Hb) as (Hhi & Hlo & Hsplit).
  cbn [hex_encode eip55_case length]. rewrite !append_cons. cbn [nibble_pairs].
  pose proof (eip55_digit (check_byte h j) _ Hhi) as Hvhi.
  pose proof (eip55_digit (check_byte h (S j)) _ Hlo) as Hvlo.
  rewrite !hex_nibble_value, Hvhi, Hvlo. simpl. rewrite IH. simpl. by rewrite Hsplit.
Qed.

Lemma eip55_case_length h j s : String.length (eip55_case h j s) = String.length s.
Proof. revert j. induction s as [|c s IH]; intros j; [done|]. simpl. by rewrite IH. Qed.

Lemma hex_encode_length bs : String.length (hex_encode bs) = 2 * length bs.
Proof. induction bs as [|b bs IH]; [done|]. simpl. lia. Qed.

Lemma eip55_case_no_char x h j bs :
  hex_value x = None → byte_list bs → contains_char x (eip55_case h j (hex_encode bs)) = false.
Proof.
  intros Hx Hbs. revert j. induction Hbs as [|b bs Hb Hbs IH]; intros j; [done|].
  destruct (byte_split b Hb) as (Hhi & Hlo & _).
  cbn [hex_encode eip55_case]. rewrite !contains_char_cons, IH.
  pose proof (eip55_digit (check_byte h j) _ Hhi) as Hvhi.
  pose proof (eip55_digit (check_byte h (S j)) _ Hlo) as Hvlo.
  rewrite !bool_decide_eq_false_2; [done|..]; intros E; by rewrite E, Hx in *.
Qed.

Lemma nibble_byte h l : (h < 16)%N → (l < 16)%N → (N.lor (N.shiftl h 4) l < 256)%N.
Proof.
  intros Hh Hl. apply N.ltb_lt. revert l Hl.
  apply (N_below_16 (λ l, N.lor (N.shiftl h 4) l <? 256)%N). revert h Hh.
  apply (N_below_16 (λ h, forallb (λ l, N.lor (N.shiftl h 4) l <? 256)%N (N.of_nat <$> seq 0 16))).
  by vm_compute.
Qed.

Lemma nibble_pairs_bytes n i s bs :
  nibble_pairs n i s = Ok bs → byte_list bs ∧ length bs = n.
Proof.
  revert i s bs. induction n as [|n IH]; intros i s bs; simpl; [intros [= <-]; by split; [constructor|]|].
  destruct s as [|hi [|lo rest]]; [done..|]. intros H.
  apply bind_Ok in H as (h & Hh & H). apply bind_Ok in H as (l & Hl & H).
  apply bind_Ok in H as (bs' & Hbs & [= <-]).
  destruct (IH _ _ _ Hbs) as [Hb Hlen]. split; [|simpl; congruence].
  constructor; [|done].
  apply hex_nibble_Ok, hex_value_bound in Hh. apply hex_nibble_Ok, hex_value_bound in Hl.
  by apply nibble_byte.
Qed.

(** ** Canonicalization *)

Section Canonical.
Context `{Keccak256}.

Lemma encode_eip55_length bs : String.length (encode_eip55 bs) = 2 * length bs.
Proof. unfold encode_eip55. rewrite eip55_case_length. apply hex_encode_length. Qed.

Lemma encode_eip55_no_char x bs :
  hex_value x = None → byte_list bs → contains_char x (encode_eip55 bs) = false.
Proof. apply eip55_case_no_char. Qed.

Lemma canonicalize_address_spec a c :
  canonicalize_eip155_address a = Ok c →
  ∃ bs, c = "0x" +:+ encode_eip55 bs ∧ byte_list bs ∧ length bs = 20.
Proof.
  unfold canonicalize_eip155_address. intros H'.
  apply bind_Ok in H' as (raw & _ & H'). apply bind_Ok in H' as ([] & _ & H').
  apply bind_Ok in H' as (bs & Hbs & [= <-]).
  apply nibble_pairs_bytes in Hbs. by exists bs.
Qed.

Lemma canonicalize_encoded bs :
  byte_list bs → length bs = 20 →
  canonicalize_eip155_address ("0x" +:+ encode_eip55 bs) = Ok ("0x" +:+ encode_eip55 bs).
Proof.
  intros Hbs Hlen. unfold canonicalize_eip155_address.
  assert (nibble_pairs 20 0 (encode_eip55 bs) = Ok bs) as Hdec.
  { unfold encode_eip55. rewrite <- (append_nil_r (eip55_case _ _ _)), <- Hlen.
    by apply eip55_case_decodes. }
  rewrite strip_prefix_app. unfold ok_or. rewrite bind_ret_l, encode_eip55_length, Hlen.
  by rewrite ensure_true, bind_ret_l, Hdec.
Qed.

Lemma canonicalize_pkh_text n bs :
  (0 < n ≤ u64_max)%N → byte_list bs → length bs = 20 →
  parse_pkh_did ("did:pkh:eip155:" +:+ fmt_u64 n +:+ ":" +:+ ("0x" +:+ encode_eip55 bs)) =
    Ok (Some {| chain_id := n; address := "0x" +:+ encode_eip55 bs |}).
Proof.
  intros [Hn Hmax] Hbs Hlen. unfold parse_pkh_did. rewrite strip_prefix_app.
  change (":" +:+ ?t) with (String ":" t).
  rewrite split_once_app by by apply fmt_u64_no_char.
  unfold ok_or. rewrite bind_ret_l, contains_char_app, encode_eip55_no_char by done.
  change (negb (contains_char ":" "0x" || false)) with true.
  rewrite ensure_true, bind_ret_l, parse_fmt_u64 by done. apply N.ltb_lt in Hn as ->.
  rewrite bind_ret_l, canonicalize_encoded by done. done.
Qed.

Lemma parse_pkh_did_Some d p :
  parse_pkh_did d = Ok (Some p) →
  ∃ bs, (0 < p.(chain_id) ≤ u64_max)%N ∧ p.(address) = "0x" +:+ encode_eip55 bs ∧
        byte_list bs ∧ length bs = 20.
Proof.
  unfold parse_pkh_did. destruct (strip_prefix _ d) as [rest|]; [|done]. intros H'.
  apply bind_Ok in H' as ([c a] & _ & H'). apply bind_Ok in H' as ([] & _ & H').
  apply bind_Ok in H' as (n & Hn & H'). apply bind_Ok in H' as (a' & Ha & [= <-]).
  apply ok_or_Ok in Hn. destruct (parse_u64 c) as [m|] eqn:Hm; [|done].
  destruct (N.ltb_spec 0 m); [|done]. injection Hn as <-.
  apply canonicalize_address_spec in Ha as (bs & -> & Hbs & Hlen).
  exists bs. simpl. apply parse_u64_bound in Hm. done.
Qed.

(** (C: idempotence) *)
Lemma canonicalize_did_idem d c : canonicalize_did d = Ok c → canonicalize_did c = Ok c.
Proof.
  unfold canonicalize_did at 1. intros H'. apply bind_Ok in H' as ([p|] & Hp & H').
  - injection H' as <-. destruct (parse_pkh_did_Some _ _ Hp) as (bs & Hn & -> & Hbs & Hlen).
    unfold canonicalize_did. by rewrite canonicalize_pkh_text.
  - destruct (strip_prefix "did:" d) as [rest|] eqn:Hd; [|done].
    destruct (split_once ":" rest) eqn:Hs; [|done]. injection H' as <-.
    unfold canonicalize_did. by rewrite Hp, bind_ret_l, Hd, Hs.
Qed.

(** A canonical DID starts with [did:], and has no character that the original
    did not have, hexadecimal digits, [x] and the constant prefix apart. *)
Lemma canonicalize_did_prefix d c :
  canonicalize_did d = Ok c → ∃ x, c = "did:" +:+ x.
Proof.
  unfold canonicalize_did. intros H'. apply bind_Ok in H' as ([p|] & Hp & H').
  - injection H' as <-. by eexists ("pkh:eip155:" +:+ _).
  - destruct (strip_prefix "did:" d) as [rest|] eqn:Hd; [|done].
    destruct (split_once ":" rest) eqn:Hs; [|done]. injection H' as <-.
    exists rest. by apply strip_prefix_Some.
Qed.

Lemma canonicalize_did_no_slash d c :
  canonicalize_did d = Ok c → contains_char "/" d = false → contains_char "/" c = false.
Proof.
  unfold canonicalize_did. intros H' Hd. apply bind_Ok in H' as ([p|] & Hp & H').
  - injection H' as <-. destruct (parse_pkh_did_Some _ _ Hp) as (bs & _ & -> & Hbs & _).
    rewrite !contains_char_app, fmt_u64_no_char, encode_eip55_no_char; done.
  - destruct (strip_prefix "did:" d); [|done]. destruct (split_once ":" _); [|done].
    by injection H' as <-.
Qed.

(** What [did_principal_matches] compares: the canonical principal when there
    is one, the text otherwise. *)
Definition principal_key (s : string) : string + string :=
  match principal_did s with Ok p => inl p | Err _ => inr s end.

Lemma did_principal_matches_spec a b :
  did_principal_matches a b = true ↔ principal_key a = principal_key b.
Proof.
  unfold did_principal_matches, principal_key.
  destruct (principal_did a) eqn:Ha, (principal_did b) eqn:Hb;
    rewrite bool_decide_eq_true; naive_solver congruence.
Qed.

End Canonical.

Lemma hex_value_lower c : hex_value (to_ascii_lowercase_char c) = hex_value c.
Proof.
  apply (bool_decide_eq_true_1 (_ = _)). revert c. apply ascii_forall. by vm_compute.
Qed.

Lemma nibble_pairs_lower n i s bs :
  nibble_pairs n i (to_ascii_lowercase s) = Ok bs ↔ nibble_pairs n i s = Ok bs.
Proof.
  revert i s bs. induction n as [|n IH]; intros i s bs; [done|].
  destruct s as [|hi [|lo rest]]; [done..|].
  change (to_ascii_lowercase (String hi (String lo rest))) with
    (String (to_ascii_lowercase_char hi) (String (to_ascii_lowercase_char lo)
      (to_ascii_lowercase rest))).
  cbn [nibble_pairs]. rewrite !bind_Ok. setoid_rewrite bind_Ok. setoid_rewrite bind_Ok.
  setoid_rewrite hex_nibble_Ok. setoid_rewrite IH. by rewrite !hex_value_lower.
Qed.

Lemma length_lower s : String.length (to_ascii_lowercase s) = String.length s.
Proof. unfold to_ascii_lowercase. induction s as [|a s IH]; [done|]. simpl. by rewrite IH. Qed.

(** Canonicalizing a DID is idempotent: canonicalizing the canonical form of
    any DID gives it back, and a DID that is refused stays refused, whatever
    Keccak-256 computes. *)
Theorem canonicalize_did_idempotent `{Keccak256} (d : string) :
  canonicalize_did d ≫= canonicalize_did = canonicalize_did d.
Proof.
  destruct (canonicalize_did d) as [c|e] eqn:E; [|done].
  rewrite bind_ret_l. by apply canonicalize_did_idem with d.
Qed.

(** Comparing principals is an equivalence relation: the comparisons that the
    chain checks make link by link (delegatee of one delegation against
    delegator of the next, delegatee against invoker, owner against delegator)
    compose. *)
Theorem did_principal_matches_equivalence `{Keccak256} :
  Equivalence (λ a b, did_principal_matches a b = true).
Proof.
  split.
  - intros a. by apply did_principal_matches_spec.
  - intros a b. rewrite !did_principal_matches_spec. done.
  - intros a b c. rewrite !did_principal_matches_spec. congruence.
Qed.

(** The casing of an EIP-155 address does not matter: two spellings of the
    same hexadecimal digits canonicalize to the same checksummed address. *)
Theorem address_casing_irrelevant `{Keccak256} (a b c : string) :
  to_ascii_lowercase a = to_ascii_lowercase b →
  canonicalize_eip155_address ("0x" +:+ a) = Ok c →
  canonicalize_eip155_address ("0x" +:+ b) = Ok c.
Proof.
  intros Hab. unfold canonicalize_eip155_address. rewrite !strip_prefix_app.
  unfold ok_or. rewrite !bind_ret_l.
  rewrite <- (length_lower a), <- (length_lower b), Hab.
  destruct (_ =? 40); [|done]. rewrite !ensure_true, !bind_ret_l, !bind_Ok.
  intros (bs & Hbs & Hc). exists bs. split; [|done].
  apply nibble_pairs_lower. rewrite <- Hab. by apply nibble_pairs_lower.
Qed.

Lemma address_casing_irrelevant_witness :
  let K : Keccak256 := λ _, [255%N; 0%N; 255%N] in
  canonicalize_eip155_address "0xF39FD6E51AAD88F6F4CE6AB8827279CFFFB92266" =
  canonicalize_eip155_address "0xf39fd6e51aad88f6f4ce6ab8827279cfffb92266".
Proof.
  intros K.
  exact (address_casing_irrelevant "f39fd6e51aad88f6f4ce6ab8827279cfffb92266"
    "F39FD6E51AAD88F6F4CE6AB8827279CFFFB92266" "0xF39fD6e51aad88f6f4ce6ab8827279cfffb92266"
    eq_refl eq_refl).
Defined.
