(* ===== verification/Json.v ===== *)
(** * JSON values: [serde_json::Value]

    An object is a [BTreeMap] (the lock file has no [preserve_order]), hence
    an association list in strictly increasing key order; a number is an
    integer of the [i64]/[u64] range or a finite double, the latter named by
    an integer code up to IEEE equality (the two zeros share one code). *)
From S2P Require Import Prelude Str.

Inductive Number :=
| NInt (z : Z)
| NFloat (repr : Z).

Inductive json :=
| JNull
| JBool (b : bool)
| JNumber (n : Number)
| JString (s : string)
| JArray (l : list json)
| JObject (m : list (string * json)).

#[export] Instance Number_eq_dec : EqDecision Number.
Proof. solve_decision. Defined.

#[export] Instance json_eq_dec : EqDecision json.
Proof.
  refine (fix go x y := let _ : EqDecision json := go in
    match x, y with
    | JNull, JNull => left eq_refl
    | JBool a, JBool b => cast_if (decide (a = b))
    | JNumber a, JNumber b => cast_if (decide (a = b))
    | JString a, JString b => cast_if (decide (a = b))
    | JArray a, JArray b => cast_if (decide (a = b))
    | JObject a, JObject b => cast_if (decide (a = b))
    | _, _ => right _
    end); congruence.
Defined.

(** The accessors of [Value]. *)
Definition as_object (v : json) : option (list (string * json)) :=
  match v with JObject m => Some m | _ => None end.
Definition as_array (v : json) : option (list json) :=
  match v with JArray l => Some l | _ => None end.
Definition as_str (v : json) : option string :=
  match v with JString s => Some s | _ => None end.
Definition as_bool (v : json) : option bool :=
  match v with JBool b => Some b | _ => None end.
Definition as_i64 (v : json) : option Z :=
  match v with
  | JNumber (NInt z) => if bool_decide (-2^63 ≤ z < 2^63)%Z then Some z else None
  | _ => None
  end.

(** [Map::get]. *)
Fixpoint obj_get (k : string) (m : list (string * json)) : option json :=
  match m with
  | [] => None
  | (k', v) :: m => if decide (k' = k) then Some v else obj_get k m
  end.

(** [BTreeMap::insert]. *)
Fixpoint obj_insert {A} (k : string) (v : A) (m : list (string * A)) : list (string * A) :=
  match m with
  | [] => [(k, v)]
  | (k', v') :: m' =>
      if decide (k' = k) then (k, v) :: m'
      else if String.leb k k' then (k, v) :: m else (k', v') :: obj_insert k v m'
  end.

(** Induction over values with the hypothesis for every element. *)
Section JsonInd.
Context (P : json → Prop) (Hnull : P JNull) (Hbool : ∀ b, P (JBool b)) (Hnum : ∀ n, P (JNumber n))
  (Hstr : ∀ s, P (JString s)) (Harr : ∀ l, Forall P l → P (JArray l))
  (Hobj : ∀ m, Forall (λ kv, P kv.2) m → P (JObject m)).

Fixpoint json_nested_ind (v : json) : P v :=
  match v with
  | JNull => Hnull
  | JBool b => Hbool b
  | JNumber n => Hnum n
  | JString s => Hstr s
  | JArray l =>
      Harr l ((fix go l : Forall P l := match l with [] => Forall_nil_2 _ | x :: l => Forall_cons_2 _ _ _ (json_nested_ind x) (go l) end) l)
  | JObject m =>
      Hobj m ((fix go m : Forall (λ kv, P kv.2) m := match m with [] => Forall_nil_2 _ | kv :: m => Forall_cons_2 _ _ _ (json_nested_ind kv.2) (go m) end) m)
  end.
End JsonInd.

(** ** A document as the reader meets it

    [serde_json::Deserializer] hands a visitor the values of a document in order
    and stops at the first syntax error: [RBad], or an array or object that is not
    [closed].  Entries of an object come in document order, repeated keys
    included. *)
Inductive raw :=
| RNull
| RBool (b : bool)
| RInt (z : Z)
| RFloat (repr : Z)
| RString (s : string)
| RArray (l : list raw) (closed : bool)
| RObject (m : list (string * raw)) (closed : bool)
| RBad.

(** The tokenizer ([json_read] also says whether nothing follows the value), and
    whether a double is an integer beyond the safe range. *)
Class JsonText := {
  json_read : string → raw * bool;
  float_unsafe : Z → bool;
}.

Section RawInd.
Context (P : raw → Prop) (Hnull : P RNull) (Hbool : ∀ b, P (RBool b)) (Hint : ∀ z, P (RInt z))
  (Hfloat : ∀ r, P (RFloat r)) (Hstr : ∀ s, P (RString s)) (Harr : ∀ l c, Forall P l → P (RArray l c))
  (Hobj : ∀ m c, Forall (λ kv, P kv.2) m → P (RObject m c)) (Hbad : P RBad).

Fixpoint raw_nested_ind (r : raw) : P r :=
  match r with
  | RNull => Hnull
  | RBool b => Hbool b
  | RInt z => Hint z
  | RFloat f => Hfloat f
  | RString s => Hstr s
  | RArray l c =>
      Harr l c ((fix go l : Forall P l := match l with [] => Forall_nil_2 _ | x :: l => Forall_cons_2 _ _ _ (raw_nested_ind x) (go l) end) l)
  | RObject m c =>
      Hobj m c ((fix go m : Forall (λ kv, P kv.2) m := match m with [] => Forall_nil_2 _ | kv :: m => Forall_cons_2 _ _ _ (raw_nested_ind kv.2) (go m) end) m)
  | RBad => Hbad
  end.
End RawInd.
