(* ===== verification/Resource.v ===== *)
(** * Resources: tinycloud-auth/src/resource.rs, tinycloud-core/src/types/resource.rs
      and tinycloud-core/src/encryption_network/network_id.rs

    A resource is a [tinycloud:] URI naming a space, a service and a path
    ([ResourceId]), or any other URI ([Resource::Other]); among the latter the
    encryption-network identifiers ([NetworkId]) have an owner.  A capability
    is delegated along [extends]: the resource of the child must extend the
    resource of the parent.

    URIs are the [iri-string] crate's, a parameter here: a [Uri] is what that
    crate's parser returns, [uri_str] its text (RFC 3986, section 5.3), and
    the class [UriLib] holds the parser, the normalization test and the [ssi]
    crate's DID syntax check. *)
From S2P Require Import Prelude Str Chars Identity.

Record Uri := mkUri {
  scheme_str : string;
  authority_str : option string;
  path_str : string;
  query_str : option string;
  fragment_str : option string;
}.

#[export] Instance Uri_eq_dec : EqDecision Uri.
Proof. solve_decision. Defined.

Definition opt_text (pre : string) (o : option string) : string :=
  match o with Some s => pre +:+ s | None => "" end.

(** The text of a URI. *)
Definition uri_str (u : Uri) : string :=
  u.(scheme_str) +:+ ":" +:+ opt_text "//" u.(authority_str) +:+ u.(path_str) +:+
  opt_text "?" u.(query_str) +:+ opt_text "#" u.(fragment_str).

Class UriLib := {
  uri_new : string → option Uri;        (* UriStr::new *)
  uri_is_normalized : Uri → bool;       (* UriStr::is_normalized *)
  did_valid : string → bool;            (* DIDBuf::try_from *)
}.

(** ** Identifiers *)

Record SpaceId := { base_did : string; name : string }.

Record ResourceId := {
  space : SpaceId;
  service : string;
  path : option string;
  query : option string;
  fragment : option string;
}.

#[export] Instance SpaceId_eq_dec : EqDecision SpaceId.
Proof. solve_decision. Defined.
#[export] Instance ResourceId_eq_dec : EqDecision ResourceId.
Proof. solve_decision. Defined.

Inductive ResourceCheckError :=
| IncorrectSpace | IncorrectService | IncorrectFragment | DoesNotExtendPath.

Inductive KRIParseError :=
| IncorrectForm | UriStringParse | DidParse | Identity (e : IdentityError).

(** [&s[4..]]. *)
Definition suffix (sp : SpaceId) : string :=
  String.substring 4 (String.length sp.(base_did) - 4) sp.(base_did).

Definition to_resource (sp : SpaceId) (service : string) (path query fragment : option string)
    : ResourceId :=
  {| space := sp; service := service; path := path; query := query; fragment := fragment |}.

(** [impl Display for SpaceId]. *)
Definition space_to_string (sp : SpaceId) : string :=
  "tinycloud:" +:+ suffix sp +:+ ":" +:+ sp.(name).

(** [impl Display for ResourceId]. *)
Definition resource_to_string (r : ResourceId) : string :=
  space_to_string r.(space) +:+ "/" +:+ r.(service) +:+ opt_text "/" r.(path) +:+
  opt_text "?" r.(query) +:+ opt_text "#" r.(fragment).

(** The condition of [extends] on paths: [true] when the extension is refused. *)
Definition path_refused (self base : option string) : bool :=
  match self, base with
  | Some s, Some b =>
      negb (starts_with b s) ||
      negb (ends_with_char "/" b || (String.length s =? String.length b) ||
            bool_decide (String.get (String.length b) s = Some "/"%char))
  | Some _, None | None, None => false
  | None, Some _ => true
  end.

Definition resource_id_extends (self base : ResourceId) : result ResourceCheckError unit :=
  if negb (bool_decide (base.(space) = self.(space))) then Err IncorrectSpace
  else if negb (bool_decide (base.(service) = self.(service))) then Err IncorrectService
  else if negb (bool_decide (base.(fragment) = self.(fragment))) then Err IncorrectFragment
  else if path_refused self.(path) base.(path) then Err DoesNotExtendPath
  else Ok tt.

Section Parse.
Context `{Keccak256, UriLib}.

Definition did_from_suffix (suf : string) : result KRIParseError string :=
  did ← map_err Identity (canonicalize_did ("did:" +:+ suf));
  if did_valid did then Ok did else Err DidParse.

(** [rsplit_once(':')] with a non-empty name. *)
Definition split_space (s : string) : option (string * string) :=
  match rsplit_once ":" s with
  | Some (suf, name) => if is_empty name then None else Some (suf, name)
  | None => None
  end.

Definition space_try_from (uri : Uri) : result KRIParseError SpaceId :=
  if negb (bool_decide (uri.(scheme_str) = "tinycloud"))
     || bool_decide (is_Some uri.(authority_str))
     || bool_decide (is_Some uri.(query_str))
     || bool_decide (is_Some uri.(fragment_str))
     || ends_with_char ":" uri.(path_str)
     || contains_char "/" uri.(path_str)
     || negb (uri_is_normalized uri)
  then Err IncorrectForm
  else match split_space uri.(path_str) with
       | Some (suf, name) => did ← did_from_suffix suf; Ok {| base_did := did; name := name |}
       | None => Err IncorrectForm
       end.

Definition space_from_str (s : string) : result KRIParseError SpaceId :=
  uri ← ok_or (uri_new s) UriStringParse; space_try_from uri.

Definition resource_try_from (uri : Uri) : result KRIParseError ResourceId :=
  if negb (bool_decide (uri.(scheme_str) = "tinycloud"))
     || bool_decide (is_Some uri.(authority_str))
     || negb (contains_char "/" uri.(path_str))
     || negb (uri_is_normalized uri)
  then Err IncorrectForm
  else match split_once "/" uri.(path_str) with
       | Some (sp, rest) =>
           match split_space sp with
           | Some (suf, name) =>
               let '(service, path) :=
                 match split_once "/" rest with
                 | Some (service, path) => (service, Some path)
                 | None => (rest, None)
                 end in
               did ← did_from_suffix suf;
               Ok (to_resource {| base_did := did; name := name |} service path
                     uri.(query_str) uri.(fragment_str))
           | None => Err IncorrectForm
           end
       | None => Err IncorrectForm
       end.

Definition resource_from_str (s : string) : result KRIParseError ResourceId :=
  uri ← ok_or (uri_new s) UriStringParse; resource_try_from uri.

End Parse.

(** ** Encryption-network identifiers *)

Inductive NetworkIdError :=
| MissingPrefix | EmptyOwnerDid | EmptyName | MissingSeparator | InvalidName
| InvalidPrincipal (e : IdentityError).

Record NetworkId := { owner_did : string; network_name : string }.

#[export] Instance NetworkId_eq_dec : EqDecision NetworkId.
Proof. solve_decision. Defined.

Definition NETWORK_ID_PREFIX : string := "urn:tinycloud:encryption:".

Section Network.
Context `{Keccak256}.

Definition network_id_new (owner_did name : string) : result NetworkIdError NetworkId :=
  _ ← ensure (negb (is_empty owner_did)) EmptyOwnerDid;
  _ ← ensure (negb (is_empty name)) EmptyName;
  _ ← ensure (negb (contains_char ":" name || contains_char "/" name)) InvalidName;
  owner_did ← map_err InvalidPrincipal (canonicalize_principal owner_did);
  Ok {| owner_did := owner_did; network_name := name |}.

Definition network_id_from_str (s : string) : result NetworkIdError NetworkId :=
  rest ← ok_or (strip_prefix NETWORK_ID_PREFIX s) MissingPrefix;
  '(owner_did, name) ← ok_or (rsplit_once ":" rest) MissingSeparator;
  network_id_new owner_did name.

Definition network_id_to_string (n : NetworkId) : string :=
  NETWORK_ID_PREFIX +:+ n.(owner_did) +:+ ":" +:+ n.(network_name).

End Network.

(** ** [Resource] *)

Inductive Resource :=
| TinyCloud (id : ResourceId)
| Other (uri : Uri).

#[export] Instance Resource_eq_dec : EqDecision Resource.
Proof. solve_decision. Defined.

Definition ENCRYPTION_NETWORK_PREFIX : string := "urn:tinycloud:encryption:".

Definition resource_space (r : Resource) : option SpaceId :=
  match r with TinyCloud id => Some id.(space) | Other _ => None end.

Definition tinycloud_resource (r : Resource) : option ResourceId :=
  match r with TinyCloud id => Some id | Other _ => None end.

Section Extends.
Context `{Keccak256}.

Definition resource_extends (self other : Resource) : bool :=
  match self, other with
  | TinyCloud a, TinyCloud b => is_ok (resource_id_extends a b)
  | Other a, Other b =>
      match network_id_from_str (uri_str a), network_id_from_str (uri_str b) with
      | Ok a, Ok b => bool_decide (a = b)
      | Ok _, Err _ | Err _, Ok _ => false
      | Err _, Err _ =>
          if starts_with ENCRYPTION_NETWORK_PREFIX (uri_str a)
             || starts_with ENCRYPTION_NETWORK_PREFIX (uri_str b)
          then false
          else starts_with (uri_str b) (uri_str a)
      end
  | _, _ => false
  end.

Context `{UriLib}.

(** [impl From<UriString> for Resource]. *)
Definition resource_of_uri (uri : Uri) : Resource :=
  match resource_try_from uri with Ok r => TinyCloud r | Err _ => Other uri end.

(** [impl FromStr for Resource]. *)
Definition resource_parse (s : string) : option Resource :=
  match resource_from_str s with
  | Ok r => Some (TinyCloud r)
  | Err UriStringParse => None
  | Err _ => Other <$> uri_new s
  end.

(** [impl Display for Resource]. *)
Definition resource_display (r : Resource) : string :=
  match r with TinyCloud id => resource_to_string id | Other u => uri_str u end.

End Extends.

(** ** Path containment *)

(** What [extends] allows on paths: the same path, or a longer one that
    continues at a [/] boundary. *)
Definition path_within (s b : string) : Prop :=
  s = b ∨ (∃ t, s = b +:+ t ∧ ends_with_char "/" b = true) ∨ (∃ t, s = b +:+ String "/" t).

Lemma get_zero c t : String.get 0 t = Some c ↔ ∃ t', t = String c t'.
Proof. destruct t; simpl; naive_solver. Qed.

Lemma path_refused_Some s b : path_refused (Some s) (Some b) = false ↔ path_within s b.
Proof.
  unfold path_refused, path_within.
  rewrite orb_false_iff, !negb_false_iff, !orb_true_iff, bool_decide_eq_true.
  rewrite starts_with_spec, Nat.eqb_eq. split.
  - intros [[t ->] [[He|Hl]|Hg]].
    + right; left. by exists t.
    + left. rewrite length_append in Hl. rewrite (length_zero t), append_nil_r; [done|lia].
    + right; right. rewrite get_append in Hg. apply get_zero in Hg as [t' ->]. by exists t'.
  - intros [->|[(t & -> & He)|(t & ->)]].
    + split; [exists ""; by rewrite append_nil_r|]. auto.
    + split; [by exists t|]. auto.
    + split; [by exists (String "/" t)|]. right. by rewrite get_append.
Qed.

Lemma path_within_trans s b c : path_within s b → path_within b c → path_within s c.
Proof.
  intros Hs [->|[(t & -> & He)|(t & ->)]]; [done| |].
  - right; left. destruct Hs as [->|[(t' & -> & _)|(t' & ->)]]; [by exists t|..].
    + exists (t +:+ t'). by rewrite append_assoc.
    + exists (t +:+ String "/" t'). by rewrite append_assoc.
  - right; right. destruct Hs as [->|[(t' & -> & _)|(t' & ->)]]; [by exists t|..].
    + exists (t +:+ t'). by rewrite append_assoc, append_cons.
    + exists (t +:+ String "/" t'). by rewrite append_assoc, append_cons.
Qed.

Lemma path_refused_spec p b :
  path_refused p b = false ↔
  match b with None => True | Some b => ∃ s, p = Some s ∧ path_within s b end.
Proof.
  destruct p as [s|], b as [b|]; try (simpl; naive_solver).
  rewrite path_refused_Some. naive_solver.
Qed.

Lemma path_refused_trans p b c :
  path_refused p b = false → path_refused b c = false → path_refused p c = false.
Proof.
  rewrite !path_refused_spec. destruct b as [b|], c as [c|]; try naive_solver.
  intros (s & -> & Hs) (? & [= <-] & Hb). exists s. eauto using path_within_trans.
Qed.

Lemma resource_id_extends_Ok a b :
  resource_id_extends a b = Ok tt ↔
  a.(space) = b.(space) ∧ a.(service) = b.(service) ∧ a.(fragment) = b.(fragment) ∧
  path_refused a.(path) b.(path) = false.
Proof.
  unfold resource_id_extends.
  repeat case_bool_decide; simpl; try naive_solver congruence.
  destruct (path_refused _ _); naive_solver.
Qed.

Lemma resource_id_extends_trans a b c :
  resource_id_extends a b = Ok tt → resource_id_extends b c = Ok tt →
  resource_id_extends a c = Ok tt.
Proof.
  rewrite !resource_id_extends_Ok. intros (?&?&?&?) (?&?&?&?).
  split_and!; try congruence. eauto using path_refused_trans.
Qed.

Lemma is_ok_unit {E} (m : result E unit) : is_ok m = true ↔ m = Ok tt.
Proof. destruct m as [[]|]; naive_solver. Qed.

(** ** Extension of resources *)

Section ExtendsLemmas.
Context `{Keccak256}.

Lemma resource_extends_trans a b c :
  resource_extends a b = true → resource_extends b c = true → resource_extends a c = true.
Proof.
  destruct a as [a|a], b as [b|b], c as [c|c]; simpl; try done.
  - rewrite !is_ok_unit. apply resource_id_extends_trans.
  - destruct (network_id_from_str (uri_str a)), (network_id_from_str (uri_str b)),
      (network_id_from_str (uri_str c)); rewrite ?bool_decide_eq_true; try done; [congruence|].
    destruct (starts_with _ (uri_str a)), (starts_with _ (uri_str b)),
      (starts_with _ (uri_str c)); simpl; try done.
    intros ??. eauto using starts_with_trans.
Qed.

(** The root authority of a resource: the owner of its space or of the network
    it names; other URIs have none. *)
Definition resource_owner (r : Resource) : option string :=
  match r with
  | TinyCloud id => Some id.(space).(base_did)
  | Other u => match network_id_from_str (uri_str u) with
               | Ok n => Some n.(owner_did)
               | Err _ => None
               end
  end.

Lemma resource_extends_owner a b :
  resource_extends a b = true → resource_owner a = resource_owner b.
Proof.
  destruct a as [a|a], b as [b|b]; simpl; try done.
  - rewrite is_ok_unit, resource_id_extends_Ok. by intros (-> & _).
  - destruct (network_id_from_str (uri_str a)), (network_id_from_str (uri_str b));
      rewrite ?bool_decide_eq_true; naive_solver.
Qed.

Lemma resource_extends_space a b :
  resource_extends a b = true → resource_space a = resource_space b.
Proof.
  destruct a as [a|a], b as [b|b]; simpl; try done.
  rewrite is_ok_unit, resource_id_extends_Ok. by intros (-> & _).
Qed.

End ExtendsLemmas.

(** ** Properties *)

(** [ResourceId::extends] accepts exactly the resources of the same space,
    service and fragment whose path is the base path or continues it at a
    component boundary: [docs] covers [docs] and [docs/a] and never [docs2],
    [docs/] covers everything below it, and a base without a path covers every
    path of the service. *)
Theorem resource_id_extends_exact (a b : ResourceId) :
  is_ok (resource_id_extends a b) = true ↔
  a.(space) = b.(space) ∧ a.(service) = b.(service) ∧ a.(fragment) = b.(fragment) ∧
  match b.(path) with
  | None => True
  | Some pb => ∃ pa, a.(path) = Some pa ∧
      (pa = pb ∨ (∃ t, pa = pb +:+ t ∧ ends_with_char "/" pb = true) ∨
       (∃ t, pa = pb +:+ "/" +:+ t))
  end.
Proof. rewrite is_ok_unit, resource_id_extends_Ok, path_refused_spec. done. Qed.

(** Extension of resources is transitive, so a chain of attenuations never
    widens: the resource at the end of the chain extends the resource at its
    root, stays in the root's space, and has the root's owner. *)
Theorem resource_extends_attenuates `{Keccak256} (a b c : Resource) :
  resource_extends a b = true → resource_extends b c = true →
  resource_extends a c = true ∧ resource_space a = resource_space c ∧
  resource_owner a = resource_owner c.
Proof.
  intros Hab Hbc. pose proof (resource_extends_trans _ _ _ Hab Hbc) as Hac.
  split; [done|]. split; [by apply resource_extends_space|by apply resource_extends_owner].
Qed.

Definition demo_resource (p : option string) : Resource :=
  TinyCloud {| space := {| base_did := "did:key:z6Mk"; name := "default" |}; service := "kv";
               path := p; query := None; fragment := None |}.

Lemma resource_extends_attenuates_witness :
  let K : Keccak256 := λ _, [] in
  resource_extends (demo_resource (Some "docs/a/b")) (demo_resource None) = true ∧
  resource_space (demo_resource (Some "docs/a/b")) = resource_space (demo_resource None) ∧
  resource_owner (demo_resource (Some "docs/a/b")) = resource_owner (demo_resource None).
Proof.
  intros K.
  exact (resource_extends_attenuates (demo_resource (Some "docs/a/b"))
    (demo_resource (Some "docs")) (demo_resource None) eq_refl eq_refl).
Defined.

(** ** Printing and parsing *)

Section RoundTrip.
Context `{Keccak256, UriLib}.

(** The URI a [ResourceId] prints. *)
Definition resource_uri (r : ResourceId) : Uri :=
  mkUri "tinycloud" None
    (suffix r.(space) +:+ ":" +:+ r.(space).(name) +:+ "/" +:+ r.(service) +:+ opt_text "/" r.(path))
    r.(query) r.(fragment).

Lemma suffix_did x n : suffix {| base_did := "did:" +:+ x; name := n |} = x.
Proof. unfold suffix. simpl. rewrite Nat.sub_0_r. by apply substring_all. Qed.

Lemma did_from_suffix_Ok suf d :
  did_from_suffix suf = Ok d ↔ canonicalize_did ("did:" +:+ suf) = Ok d ∧ did_valid d = true.
Proof.
  unfold did_from_suffix. rewrite bind_Ok. setoid_rewrite map_err_Ok. split.
  - intros (d' & Hd & H'). destruct (did_valid d') eqn:?; by simplify_eq.
  - intros [Hd Hv]. exists d. by rewrite Hv.
Qed.

(** The space part of a parsed resource prints back to text that parses to it. *)
Lemma did_from_suffix_print suf d n :
  did_from_suffix suf = Ok d → contains_char "/" suf = false →
  did_from_suffix (suffix {| base_did := d; name := n |}) = Ok d ∧
  contains_char "/" (suffix {| base_did := d; name := n |}) = false.
Proof.
  rewrite did_from_suffix_Ok. intros [Hd Hv] Hs.
  destruct (canonicalize_did_prefix _ _ Hd) as [x ->]. rewrite suffix_did. split.
  - apply did_from_suffix_Ok. split; [|done]. by apply canonicalize_did_idem with ("did:" +:+ suf).
  - apply canonicalize_did_no_slash in Hd; [|by rewrite contains_char_app, Hs].
    by rewrite contains_char_app in Hd.
Qed.

Lemma split_space_Some s suf n :
  split_space s = Some (suf, n) ↔
  s = suf +:+ String ":" n ∧ contains_char ":" n = false ∧ n ≠ "".
Proof.
  unfold split_space, is_empty. split.
  - destruct (rsplit_once ":" s) as [[l r]|] eqn:E; [|done].
    apply rsplit_once_Some in E as [-> Hr].
    case_bool_decide; [done|]. by intros [= <- <-].
  - intros (-> & Hn & Hne). rewrite rsplit_once_app by done.
    by rewrite bool_decide_eq_false_2.
Qed.

(** What a successful parse says about the text it was given. *)
Lemma resource_try_from_Ok u r :
  resource_try_from u = Ok r →
  ∃ suf, did_from_suffix suf = Ok r.(space).(base_did) ∧
    contains_char "/" suf = false ∧ contains_char "/" r.(space).(name) = false ∧
    contains_char ":" r.(space).(name) = false ∧ r.(space).(name) ≠ "" ∧
    contains_char "/" r.(service) = false ∧
    u = mkUri "tinycloud" None
          (suf +:+ ":" +:+ r.(space).(name) +:+ "/" +:+ r.(service) +:+ opt_text "/" r.(path))
          r.(query) r.(fragment).
Proof.
  unfold resource_try_from. destruct u as [sch auth pth q f]; simpl.
  case_bool_decide as Hsch; [|done]. subst sch.
  case_bool_decide as Ha; [done|]. rewrite <- eq_None_not_Some in Ha. subst auth. simpl.
  destruct (negb _ || negb _); [done|].
  destruct (split_once "/" pth) as [[sp rest]|] eqn:Hsp; [|done].
  apply split_once_Some in Hsp as [-> Hslash].
  destruct (split_space sp) as [[suf n]|] eqn:Hn; [|done].
  apply split_space_Some in Hn as (-> & Hcol & Hne).
  rewrite contains_char_app, contains_char_cons, orb_false_iff, orb_false_iff in Hslash.
  destruct Hslash as (Hs1 & _ & Hs2). intros H'.
  destruct (split_once "/" rest) as [[srv p]|] eqn:Hrest.
  - apply split_once_Some in Hrest as [-> Hsrv].
    apply bind_Ok in H' as (d & Hd & [= <-]). exists suf. simpl. split_and!; try done.
    by rewrite append_assoc.
  - apply split_once_None in Hrest.
    apply bind_Ok in H' as (d & Hd & [= <-]). exists suf. simpl. split_and!; try done.
    by rewrite append_assoc, append_nil_r.
Qed.

Lemma resource_try_from_parts suf n d srv p q f :
  did_from_suffix suf = Ok d → contains_char "/" suf = false →
  contains_char "/" n = false → contains_char ":" n = false → n ≠ "" →
  contains_char "/" srv = false →
  let u := mkUri "tinycloud" None (suf +:+ ":" +:+ n +:+ "/" +:+ srv +:+ opt_text "/" p) q f in
  uri_is_normalized u = true →
  resource_try_from u = Ok (to_resource {| base_did := d; name := n |} srv p q f).
Proof.
  intros Hd Hs Hn Hcol Hne Hsrv u Hu. unfold resource_try_from. rewrite Hu. subst u. simpl.
  assert (contains_char "/" (suf +:+ ":" +:+ n +:+ "/" +:+ srv +:+ opt_text "/" p) = true) as ->.
  { rewrite !contains_char_app. change (contains_char "/" "/") with true.
    by rewrite orb_true_l, !orb_true_r. }
  simpl. assert (suf +:+ ":" +:+ n +:+ "/" +:+ srv +:+ opt_text "/" p =
          (suf +:+ String ":" n) +:+ String "/" (srv +:+ opt_text "/" p)) as ->
    by by rewrite append_assoc.
  rewrite split_once_app; [|by rewrite contains_char_app, contains_char_cons, Hs, Hn].
  assert (split_space (suf +:+ String ":" n) = Some (suf, n)) as -> by by apply split_space_Some.
  destruct p as [p|]; simpl.
  - change ("/" +:+ p) with (String "/" p). rewrite split_once_app by done. by rewrite Hd.
  - rewrite append_nil_r. apply split_once_None in Hsrv as ->. by rewrite Hd.
Qed.

(** A parsed resource prints to text that parses back to it: for every URI
    that [ResourceId] accepts, the printed form is the text of a URI, which (if
    it is normalized, as the parser demands) parses to the same resource; in
    particular the text stored in the database names the same capability. *)
Theorem resource_roundtrip (u : Uri) (r : ResourceId) :
  resource_try_from u = Ok r →
  uri_str (resource_uri r) = resource_to_string r ∧
  (uri_is_normalized (resource_uri r) = true → resource_try_from (resource_uri r) = Ok r).
Proof.
  intros Hr. split.
  { unfold uri_str, resource_uri, resource_to_string, space_to_string. simpl.
    by rewrite !append_assoc. }
  intros Hnorm. destruct (resource_try_from_Ok _ _ Hr) as (suf & Hd & Hs & Hn & Hcol & Hne & Hsrv & _).
  destruct r as [[d n] srv p q f]; simpl in *.
  destruct (did_from_suffix_print _ _ n Hd Hs) as [Hd' Hs'].
  by apply (resource_try_from_parts (suffix {| base_did := d; name := n |}) n d srv p q f).
Qed.

(** Network identifiers round-trip: what [FromStr] accepts prints to text that
    parses to the same identifier, so two texts name the same network exactly
    when their canonical forms are equal. *)
Theorem network_id_roundtrip (s : string) (n : NetworkId) :
  network_id_from_str s = Ok n → network_id_from_str (network_id_to_string n) = Ok n.
Proof.
  unfold network_id_from_str at 1. intros H'.
  apply bind_Ok in H' as (rest & _ & H'). apply bind_Ok in H' as ([o m] & _ & H').
  unfold network_id_new in H'.
  apply bind_Ok in H' as ([] & Ho & H'). apply bind_Ok in H' as ([] & Hm & H').
  apply bind_Ok in H' as ([] & Hc & H'). apply bind_Ok in H' as (o' & Ho' & [= <-]).
  apply map_err_Ok in Ho'. apply ensure_Ok in Hc.
  assert (canonicalize_principal o' = Ok o' ∧ is_empty o' = false) as [Hidem Hne].
  { unfold canonicalize_principal in Ho' |- *. destruct (starts_with "did:" o) eqn:Hst.
    - destruct (canonicalize_did_prefix _ _ Ho') as [x ->]. split; [|done].
      assert (starts_with "did:" ("did:" +:+ x) = true) as ->
        by (apply starts_with_spec; by exists x).
      by apply canonicalize_did_idem with o.
    - injection Ho' as <-. rewrite Hst. split; [done|].
      apply ensure_Ok in Ho. by destruct (is_empty o). }
  unfold network_id_from_str, network_id_to_string. cbn [owner_did network_name].
  rewrite strip_prefix_app. unfold ok_or. rewrite bind_ret_l. change (":" +:+ m) with (String ":" m).
  rewrite negb_true_iff, orb_false_iff in Hc. destruct Hc as [Hc1 Hc2].
  rewrite rsplit_once_app by done. rewrite bind_ret_l. unfold network_id_new.
  by rewrite Hne, Hm, Hc1, Hc2, Hidem.
Qed.

End RoundTrip.

Definition demo_uri : Uri :=
  mkUri "tinycloud" None "key:z6Mk:default/kv/docs/a" None (Some "list").

Definition demo_resource_id : ResourceId :=
  {| space := {| base_did := "did:key:z6Mk"; name := "default" |}; service := "kv";
     path := Some "docs/a"; query := None; fragment := Some "list" |}.

Lemma resource_roundtrip_witness :
  let K : Keccak256 := λ _, [] in
  let U : UriLib := {| uri_new _ := None; uri_is_normalized _ := true; did_valid _ := true |} in
  uri_str (resource_uri demo_resource_id) = resource_to_string demo_resource_id ∧
  (uri_is_normalized (resource_uri demo_resource_id) = true →
   resource_try_from (resource_uri demo_resource_id) = Ok demo_resource_id).
Proof. intros K U. exact (resource_roundtrip demo_uri demo_resource_id eq_refl). Defined.

Lemma network_id_roundtrip_witness :
  let K : Keccak256 := λ _, [] in
  let n := {| owner_did := "did:key:z6Mk"; network_name := "default" |} in
  network_id_from_str (network_id_to_string n) = Ok n.
Proof.
  intros K n.
  exact (network_id_roundtrip "urn:tinycloud:encryption:did:key:z6Mk:default" n eq_refl).
Defined.
