(* ===== verification/Registry.v ===== *)
(** * The capability registry: tinycloud-auth/src/policy_capability.rs and
      tinycloud-auth/src/policy_capability/generated.rs

    The action URNs each service accepts, the deprecated aliases, the
    implications between actions, and [ability_matches], the comparison every
    authorization check of the node uses ([tinycloud-core/src/policy_capability]
    delegates to it).  [expand_actions] is a worklist: it is modelled with fuel,
    shown to terminate within it, and shown to compute exactly the actions
    reachable through aliases and implications. *)
From S2P Require Import Prelude Str.

Definition accepted_actions (service : string) : option (list string) :=
  if decide (service = "tinycloud.capabilities") then Some ["tinycloud.capabilities/read"]
  else if decide (service = "tinycloud.delegation") then
    Some ["tinycloud.delegation/list"; "tinycloud.delegation/status"]
  else if decide (service = "tinycloud.duckdb") then
    Some ["tinycloud.duckdb/*"; "tinycloud.duckdb/admin"; "tinycloud.duckdb/export";
          "tinycloud.duckdb/import"; "tinycloud.duckdb/read"; "tinycloud.duckdb/select";
          "tinycloud.duckdb/write"]
  else if decide (service = "tinycloud.encryption") then
    Some ["tinycloud.encryption/decrypt"; "tinycloud.encryption/network.create";
          "tinycloud.encryption/network.revoke"]
  else if decide (service = "tinycloud.hooks") then
    Some ["tinycloud.hooks/list"; "tinycloud.hooks/register"; "tinycloud.hooks/subscribe";
          "tinycloud.hooks/unregister"]
  else if decide (service = "tinycloud.kv") then
    Some ["tinycloud.kv/del"; "tinycloud.kv/delete"; "tinycloud.kv/get"; "tinycloud.kv/list";
          "tinycloud.kv/metadata"; "tinycloud.kv/put"]
  else if decide (service = "tinycloud.space") then
    Some ["tinycloud.space/create"; "tinycloud.space/host"; "tinycloud.space/info";
          "tinycloud.space/list"]
  else if decide (service = "tinycloud.sql") then
    Some ["tinycloud.sql/*"; "tinycloud.sql/admin"; "tinycloud.sql/read"; "tinycloud.sql/schema";
          "tinycloud.sql/select"; "tinycloud.sql/write"]
  else if decide (service = "tinycloud.vfs") then
    Some ["tinycloud.vfs/delete"; "tinycloud.vfs/get"; "tinycloud.vfs/list";
          "tinycloud.vfs/metadata"; "tinycloud.vfs/put"]
  else None.

Definition resolve_alias (action : string) : string :=
  if decide (action = "tinycloud.duckdb/select") then "tinycloud.duckdb/read"
  else if decide (action = "tinycloud.kv/delete") then "tinycloud.kv/del"
  else if decide (action = "tinycloud.sql/select") then "tinycloud.sql/read"
  else action.

Definition implied_actions (action : string) : list string :=
  if decide (action = "tinycloud.duckdb/*") then
    ["tinycloud.duckdb/admin"; "tinycloud.duckdb/export"; "tinycloud.duckdb/import";
     "tinycloud.duckdb/read"; "tinycloud.duckdb/write"]
  else if decide (action = "tinycloud.sql/*") then
    ["tinycloud.sql/admin"; "tinycloud.sql/read"; "tinycloud.sql/schema"; "tinycloud.sql/write"]
  else if decide (action = "tinycloud.sql/admin") then ["tinycloud.sql/schema"]
  else [].

(** The worklist of [expand_actions]; the stack is kept top first, so the
    implied actions end up on it in reverse order of pushing. *)
Fixpoint expand_loop (fuel : nat) (out stack : list string) : option (list string) :=
  match stack with
  | [] => Some out
  | action :: stack =>
      match fuel with
      | O => None
      | S fuel =>
          let canonical := resolve_alias action in
          if decide (canonical ∈ out) then expand_loop fuel out stack
          else expand_loop fuel (canonical :: out) (rev (implied_actions canonical) ++ stack)
      end
  end.

(** Each action puts at most six entries on the stack, itself included. *)
Definition expand_fuel (actions : list string) : nat := 6 * length actions.

Definition expand_actions (actions : list string) : list string :=
  default [] (expand_loop (expand_fuel actions) [] (rev actions)).

Definition ability_matches (held required : string) : bool :=
  bool_decide (resolve_alias required ∈ expand_actions [held]).

Definition path_contains (service auth req : string) : bool :=
  if decide (service = "tinycloud.sql") then bool_decide (auth = req)
  else if bool_decide (auth = req) then true
  else if ends_with_char "/" auth then
    match strip_prefix auth req with
    | Some rest => negb (is_empty rest)
    | None => false
    end
  else false.

(** ** Termination of the worklist *)

(** The number of stack entries an action can cause, itself included. *)
Definition action_weight (a : string) : nat :=
  if decide (a = "tinycloud.duckdb/*") then 6
  else if decide (a = "tinycloud.sql/*") then 6
  else if decide (a = "tinycloud.sql/admin") then 2
  else 1.

Lemma action_weight_bounds a : 1 ≤ action_weight a ≤ 6.
Proof. unfold action_weight. repeat case_decide; lia. Qed.

Lemma implied_weight a :
  sum_list_with action_weight (implied_actions (resolve_alias a)) < action_weight a.
Proof.
  unfold resolve_alias, implied_actions, action_weight.
  repeat case_decide; subst; try done; simpl; lia.
Qed.

Lemma sum_list_with_rev (f : string → nat) l : sum_list_with f (rev l) = sum_list_with f l.
Proof.
  induction l as [|x l IH]; [done|]. simpl. rewrite sum_list_with_app, IH. simpl. lia.
Qed.

Lemma expand_loop_total fuel out stack :
  sum_list_with action_weight stack ≤ fuel → is_Some (expand_loop fuel out stack).
Proof.
  revert out stack. induction fuel as [|fuel IH]; intros out [|a stack] Hf; simpl; eauto.
  - simpl in Hf. pose proof (action_weight_bounds a). lia.
  - simpl in Hf. pose proof (action_weight_bounds a). pose proof (implied_weight a).
    case_decide; apply IH; [lia|].
    rewrite sum_list_with_app, sum_list_with_rev. lia.
Qed.

Lemma expand_actions_total actions :
  expand_loop (expand_fuel actions) [] (rev actions) = Some (expand_actions actions).
Proof.
  unfold expand_actions.
  destruct (expand_loop_total (expand_fuel actions) [] (rev actions)) as [out ->]; [|done].
  rewrite sum_list_with_rev. unfold expand_fuel.
  induction actions as [|a l IH]; simpl; [lia|].
  pose proof (action_weight_bounds a). simpl in *. lia.
Qed.

(** ** What the worklist computes *)

(** One implication step between canonical actions. *)
Definition implies_step (a b : string) : Prop :=
  ∃ i, i ∈ implied_actions a ∧ b = resolve_alias i.

Section Worklist.
Variable roots : list string.

Definition reachable_action (x : string) : Prop :=
  ∃ a, a ∈ roots ∧ rtc implies_step (resolve_alias a) x.

(** Invariant of the loop: what is out is reachable, what is on the stack
    resolves to something reachable, every root and every successor of an
    output is out or waiting. *)
Record worklist_inv (out stack : list string) : Prop := {
  wl_out : ∀ x, x ∈ out → reachable_action x;
  wl_stack : ∀ a, a ∈ stack → reachable_action (resolve_alias a);
  wl_roots : ∀ a, a ∈ roots → resolve_alias a ∈ out ∨ a ∈ stack;
  wl_closed : ∀ x i, x ∈ out → i ∈ implied_actions x → resolve_alias i ∈ out ∨ i ∈ stack;
}.

Lemma worklist_skip out a stack :
  worklist_inv out (a :: stack) → resolve_alias a ∈ out → worklist_inv out stack.
Proof.
  intros [Ho Hs Hr Hc] Ha. split; [done|..].
  - intros b Hb. apply Hs. by right.
  - intros b Hb. destruct (Hr b Hb) as [|[->|]%elem_of_cons]; auto.
  - intros x i Hx Hi. destruct (Hc x i Hx Hi) as [|[->|]%elem_of_cons]; auto.
Qed.

Lemma worklist_visit out a stack :
  worklist_inv out (a :: stack) →
  worklist_inv (resolve_alias a :: out) (rev (implied_actions (resolve_alias a)) ++ stack).
Proof.
  intros [Ho Hs Hr Hc].
  assert (reachable_action (resolve_alias a)) as Ha by (apply Hs; by left).
  split.
  - intros x [->|Hx]%elem_of_cons; auto.
  - intros b [Hb|Hb]%elem_of_app; [|apply Hs; by right].
    rewrite elem_of_rev in Hb.
    destruct Ha as (r & Hr' & Hra). exists r. split; [done|].
    eapply rtc_r; [done|]. by exists b.
  - intros b Hb. rewrite elem_of_cons, elem_of_app.
    destruct (Hr b Hb) as [|[->|]%elem_of_cons]; auto.
  - intros x i [->|Hx]%elem_of_cons Hi; rewrite elem_of_cons, elem_of_app.
    + right; left. by rewrite elem_of_rev.
    + destruct (Hc x i Hx Hi) as [|[->|]%elem_of_cons]; auto.
Qed.

Lemma expand_loop_inv fuel out stack out' :
  expand_loop fuel out stack = Some out' → worklist_inv out stack → worklist_inv out' [].
Proof.
  revert out stack. induction fuel as [|fuel IH]; intros out [|a stack]; simpl.
  - by intros [= ->].
  - done.
  - by intros [= ->].
  - case_decide; intros He Hi; apply (IH _ _ He).
    + by apply worklist_skip with a.
    + by apply worklist_visit.
Qed.

End Worklist.

Lemma expand_actions_spec actions x :
  x ∈ expand_actions actions ↔ reachable_action actions x.
Proof.
  pose proof (expand_loop_inv actions _ _ _ _ (expand_actions_total actions)) as [Ho _ Hr Hc].
  { split.
    - intros y Hy. by apply not_elem_of_nil in Hy.
    - intros a Ha. rewrite elem_of_rev in Ha. exists a. split; [done|reflexivity].
    - intros a Ha. right. by rewrite elem_of_rev.
    - intros y i Hy. by apply not_elem_of_nil in Hy. }
  split; [apply Ho|]. intros (a & Ha & Hax).
  assert (resolve_alias a ∈ expand_actions actions) as Hin.
  { destruct (Hr a Ha) as [|Hn]; [done|]. by apply not_elem_of_nil in Hn. }
  revert Hin. induction Hax as [y|y z w (i & Hi & ->) _ IH]; intros Hin; [done|].
  apply IH. destruct (Hc _ _ Hin Hi) as [|Hn]; [done|]. by apply not_elem_of_nil in Hn.
Qed.

Lemma ability_matches_spec held required :
  ability_matches held required = true ↔
  rtc implies_step (resolve_alias held) (resolve_alias required).
Proof.
  unfold ability_matches. rewrite bool_decide_eq_true, expand_actions_spec. split.
  - intros (a & ->%list_elem_of_singleton & ?). done.
  - intros ?. exists held. split; [by apply list_elem_of_singleton|done].
Qed.

(** ** Properties *)

Lemma implies_step_service a b :
  implies_step a b → split_once "/" a ≠ None ∧ fst <$> split_once "/" a = fst <$> split_once "/" b.
Proof.
  intros (i & Hi & ->). unfold implied_actions in Hi.
  repeat case_decide; subst; rewrite ?elem_of_cons in Hi; set_unfold;
    destruct_or?; subst; by vm_compute.
Qed.

Lemma resolve_alias_service a : fst <$> split_once "/" (resolve_alias a) = fst <$> split_once "/" a.
Proof. unfold resolve_alias. repeat case_decide; by subst. Qed.

Lemma ability_matches_refl a : ability_matches a a = true.
Proof. apply ability_matches_spec. reflexivity. Qed.

Lemma ability_matches_trans a b c :
  ability_matches a b = true → ability_matches b c = true → ability_matches a c = true.
Proof. rewrite !ability_matches_spec. intros. by etrans. Qed.

(** Comparing abilities is a preorder, so a chain of delegations composes: an
    ability covers itself, and if every link of a chain covers the next, the
    first ability covers the last. *)
Theorem ability_matches_preorder : PreOrder (λ held required, ability_matches held required = true).
Proof.
  split; [exact ability_matches_refl|]. intros a b c. apply ability_matches_trans.
Qed.

(** [ability_matches] is exactly alias resolution followed by any number of
    declared implications: nothing the registry does not declare is granted. *)
Theorem ability_matches_exact (held required : string) :
  ability_matches held required = true ↔
  rtc (λ a b, ∃ i, i ∈ implied_actions a ∧ b = resolve_alias i)
      (resolve_alias held) (resolve_alias required).
Proof. apply ability_matches_spec. Qed.

(** Abilities never cross services: what an ability covers has the same text
    before the first slash. *)
Theorem ability_matches_service (held required : string) :
  ability_matches held required = true →
  fst <$> split_once "/" held = fst <$> split_once "/" required.
Proof.
  rewrite ability_matches_spec, <- (resolve_alias_service held), <- (resolve_alias_service required).
  induction 1 as [|a b c Hab _ IH]; [done|].
  apply implies_step_service in Hab as [_ ->]. done.
Qed.

Lemma ability_matches_service_witness :
  fst <$> split_once "/" "tinycloud.sql/*" = fst <$> split_once "/" "tinycloud.sql/select".
Proof. exact (ability_matches_service "tinycloud.sql/*" "tinycloud.sql/select" eq_refl). Defined.

(** The worklist that expands a set of actions terminates: its fuel is never
    exhausted, whatever the actions. *)
Theorem expand_actions_terminates (actions : list string) :
  expand_loop (expand_fuel actions) [] (rev actions) = Some (expand_actions actions).
Proof. apply expand_actions_total. Qed.
