(* ===== verification/SqlCaveat.v ===== *)
(** * SQL constrained-statement caveats:
      tinycloud-core/src/policy_capability/sql_caveat.rs, and the caveat
      containment of tinycloud-core/src/models/delegation.rs and invocation.rs

    A caveat restricts a SQL capability to named statements with fixed
    parameters.  [contains] decides whether a child's caveat stays within its
    parent's; the theorems show that it composes along a chain and what it
    guarantees of every statement the child may run.  The scans of bound SQL
    text ([contains_write_keyword], [is_multistatement], [looks_like_escape])
    are modelled byte for byte. *)
From S2P Require Import Prelude Str Chars Json.

Inductive RejectionCode :=
| PolicyCapabilityMalformedService | PolicyCapabilityMalformedSpace
| PolicyCapabilityMalformedPath | PolicyCapabilityMalformedActionShortname
| PolicyCapabilityMalformedAction | PolicyCapabilityEmptyActions
| PolicyCapabilityMalformedCaveats | PolicyCapabilityUnknownKey | PolicyCapabilityMalformed
| ContainmentServiceMismatch | ContainmentSpaceMismatch | ContainmentPathMismatch
| ContainmentActionNotSubset | ContainmentCaveatRequired | ContainmentSqlFixedParamDropped
| ContainmentSqlFixedParamMismatch | ContainmentSqlStatementAdded
| SqlNonReadonlyNotPermitted | SqlWriteBlocked.

#[export] Instance RejectionCode_eq_dec : EqDecision RejectionCode.
Proof. solve_decision. Defined.

(** [RejectionCode::as_str]. *)
Definition rejection_str (c : RejectionCode) : string :=
  match c with
  | PolicyCapabilityMalformedService => "policy-capability-malformed-service"
  | PolicyCapabilityMalformedSpace => "policy-capability-malformed-space"
  | PolicyCapabilityMalformedPath => "policy-capability-malformed-path"
  | PolicyCapabilityMalformedActionShortname => "policy-capability-malformed-action-shortname"
  | PolicyCapabilityMalformedAction => "policy-capability-malformed-action"
  | PolicyCapabilityEmptyActions => "policy-capability-empty-actions"
  | PolicyCapabilityMalformedCaveats => "policy-capability-malformed-caveats"
  | PolicyCapabilityUnknownKey => "policy-capability-unknown-key"
  | PolicyCapabilityMalformed => "policy-capability-malformed"
  | ContainmentServiceMismatch => "containment-service-mismatch"
  | ContainmentSpaceMismatch => "containment-space-mismatch"
  | ContainmentPathMismatch => "containment-path-mismatch"
  | ContainmentActionNotSubset => "containment-action-not-subset"
  | ContainmentCaveatRequired => "containment-caveat-required"
  | ContainmentSqlFixedParamDropped => "containment-sql-fixed-param-dropped"
  | ContainmentSqlFixedParamMismatch => "containment-sql-fixed-param-mismatch"
  | ContainmentSqlStatementAdded => "containment-sql-statement-added"
  | SqlNonReadonlyNotPermitted => "sql-non-readonly-not-permitted"
  | SqlWriteBlocked => "sql-write-blocked"
  end.

Record FixedParam := { fp_index : Z; fp_value : json }.

Record ConstrainedStatement := {
  st_name : string;
  st_sql : string;
  fixed_params : list FixedParam;
}.

Record SqlConstrainedStatementCaveat := {
  read_only : bool;
  statements : list ConstrainedStatement;
}.

(** ** Parsing *)

Definition malformed {A} (o : option A) : result RejectionCode A :=
  ok_or o PolicyCapabilityMalformedCaveats.

(** [obj.get(key).and_then(f).ok_or(malformed)]. *)
Definition field {A} (m : list (string * json)) (k : string) (f : json → option A)
    : result RejectionCode A :=
  malformed (match obj_get k m with Some v => f v | None => None end).

Definition parse_fixed_param (fp : json) : result RejectionCode FixedParam :=
  fpo ← malformed (as_object fp);
  index ← field fpo "index" as_i64;
  value ← field fpo "value" Some;
  Ok {| fp_index := index; fp_value := value |}.

Definition parse_statement (s : json) : result RejectionCode ConstrainedStatement :=
  so ← malformed (as_object s);
  name ← field so "name" as_str;
  sql ← field so "sql" as_str;
  fixed ← match obj_get "fixedParams" so with
          | None => Ok []
          | Some v => arr ← malformed (as_array v); try_map parse_fixed_param arr
          end;
  Ok {| st_name := name; st_sql := sql; fixed_params := fixed |}.

Definition parse_sql_caveat (input : json) : result RejectionCode SqlConstrainedStatementCaveat :=
  obj ← malformed (as_object input);
  mode ← field obj "mode" as_str;
  _ ← ensure (bool_decide (mode = "constrained-statements")) PolicyCapabilityMalformedCaveats;
  read_only_value ← field obj "readOnly" Some;
  read_only ← malformed (as_bool read_only_value);
  statements_arr ← field obj "statements" as_array;
  statements ← try_map parse_statement statements_arr;
  Ok {| read_only := read_only; statements := statements |}.

(** ** Containment *)

Definition find_statement (n : string) (l : list ConstrainedStatement) : option ConstrainedStatement :=
  find (λ s, bool_decide (s.(st_name) = n)) l.

Definition find_param (i : Z) (l : list FixedParam) : option FixedParam :=
  find (λ p, bool_decide (p.(fp_index) = i)) l.

(** One requested statement against the authority. *)
Definition statement_contained (auth : SqlConstrainedStatementCaveat) (req_stmt : ConstrainedStatement)
    : result RejectionCode unit :=
  match find_statement req_stmt.(st_name) auth.(statements) with
  | None => Err ContainmentSqlStatementAdded
  | Some auth_stmt =>
      _ ← ensure (bool_decide (auth_stmt.(st_sql) = req_stmt.(st_sql))) ContainmentSqlStatementAdded;
      for_each (λ ap,
        match find_param ap.(fp_index) req_stmt.(fixed_params) with
        | None => Err ContainmentSqlFixedParamDropped
        | Some rp => ensure (bool_decide (rp.(fp_value) = ap.(fp_value))) ContainmentSqlFixedParamMismatch
        end) auth_stmt.(fixed_params)
  end.

Definition sql_contains (auth req : SqlConstrainedStatementCaveat) : result RejectionCode unit :=
  _ ← ensure (auth.(read_only) && req.(read_only)) SqlNonReadonlyNotPermitted;
  for_each (statement_contained auth) req.(statements).

(** ** Scans of SQL text *)

Definition WRITE_KEYWORDS : list string :=
  ["INSERT"; "UPDATE"; "DELETE"; "REPLACE"; "MERGE"; "CREATE"; "DROP"; "ALTER"; "TRUNCATE";
   "ATTACH"; "DETACH"; "PRAGMA"; "VACUUM"; "ANALYZE"].

(** The first occurrence of [needle]: the text before it and after it. *)
Fixpoint find_sub (needle s : string) : option (string * string) :=
  match strip_prefix needle s with
  | Some rest => Some ("", rest)
  | None =>
      match s with
      | EmptyString => None
      | String c s => match find_sub needle s with
                      | Some (l, r) => Some (String c l, r)
                      | None => None
                      end
      end
  end.

Fixpoint last_char (s : string) : option ascii :=
  match s with
  | EmptyString => None
  | String c EmptyString => Some c
  | String _ s => last_char s
  end.

(** [true] at the ends of the text and next to a byte that is not part of a word. *)
Definition boundary (c : option ascii) : bool :=
  match c with
  | None => true
  | Some c => negb (is_ascii_alphanumeric c) && negb (bool_decide (c = "_"%char))
  end.

(** The loop of [contains_word]: [prev] is the byte before the unread text. *)
Fixpoint contains_word_loop (fuel : nat) (needle : string) (prev : option ascii) (s : string) : bool :=
  match fuel with
  | O => false
  | S fuel =>
      match find_sub needle s with
      | None => false
      | Some (l, r) =>
          let before := boundary (if is_empty l then prev else last_char l) in
          let after := boundary (String.get 0 r) in
          if before && after then true
          else contains_word_loop fuel needle (last_char needle) r
      end
  end.

Definition contains_word (haystack needle : string) : bool :=
  contains_word_loop (S (String.length haystack)) needle None haystack.

Definition contains_write_keyword (sql : string) : bool :=
  let upper := to_ascii_uppercase sql in
  existsb (λ kw, contains_word upper kw) WRITE_KEYWORDS.

Definition looks_like_escape (value : string) : bool :=
  contains_char (char 34) value || contains_char "'" value || contains_char ";" value ||
  contains_str "--" value || contains_str " OR 1=1" (to_ascii_uppercase value) ||
  contains_str "/*" value || contains_str "*/" value.

Fixpoint multistatement_loop (in_str : bool) (prev : string) (cs : list string) : bool :=
  match cs with
  | [] => false
  | c :: cs =>
      let in_str := if bool_decide (c = "'") && negb (bool_decide (prev = "\")) then negb in_str else in_str in
      if bool_decide (c = ";") && negb in_str then true else multistatement_loop in_str c cs
  end.

Definition is_multistatement (sql : string) : bool :=
  let trimmed := trim_end_chars (λ c, is_whitespace c || bool_decide (c = ";")) (chars sql) in
  multistatement_loop false (String (char 0) "") trimmed.

(** ** Caveats of capabilities (types/caveats.rs) *)

(** [BTreeMap<String, Value>]. *)
Notation Caveats := (list (string * json)).

(** [extract_sql_caveat], the same in delegation.rs and invocation.rs. *)
Fixpoint extract_sql_caveat (caveats : Caveats) : option SqlConstrainedStatementCaveat :=
  match caveats with
  | [] => None
  | (_, v) :: rest =>
      match parse_sql_caveat v with
      | Ok c => Some c
      | Err _ =>
          match (match as_object v with Some o => obj_get "constrained-statements" o | None => None end) with
          | Some inner =>
              match parse_sql_caveat inner with
              | Ok c => Some c
              | Err _ => extract_sql_caveat rest
              end
          | None => extract_sql_caveat rest
          end
      end
  end.

(** [caveats_contain_child] of delegation.rs. *)
Definition caveats_contain_child (parent child : Caveats) : result string unit :=
  match extract_sql_caveat parent, extract_sql_caveat child with
  | Some p, Some c => map_err rejection_str (sql_contains p c)
  | Some _, None => Err "containment-caveat-required"
  | None, _ =>
      if bool_decide (parent = child) then Ok tt
      else if bool_decide (parent = []) then Ok tt
      else Err "child-caveats-not-subset-of-parent"
  end.

(** [caveats_contain_child] of invocation.rs: another reason, same decision. *)
Definition caveats_contain_invocation (parent child : Caveats) : result string unit :=
  match extract_sql_caveat parent, extract_sql_caveat child with
  | Some p, Some c => map_err rejection_str (sql_contains p c)
  | Some _, None => Err "containment-caveat-required"
  | None, _ =>
      if bool_decide (parent = child) || (bool_decide (parent = []) && bool_decide (child = []))
         || bool_decide (parent = [])
      then Ok tt
      else Err "invocation-caveats-not-subset-of-chain"
  end.

(** ** Containment composes *)

Definition statement_within (auth : SqlConstrainedStatementCaveat) (rs : ConstrainedStatement) : Prop :=
  ∃ au, find_statement rs.(st_name) auth.(statements) = Some au ∧ au.(st_sql) = rs.(st_sql) ∧
    ∀ ap, ap ∈ au.(fixed_params) →
      ∃ rp, find_param ap.(fp_index) rs.(fixed_params) = Some rp ∧ rp.(fp_value) = ap.(fp_value).

Lemma statement_contained_Ok auth rs :
  statement_contained auth rs = Ok tt ↔ statement_within auth rs.
Proof.
  unfold statement_contained, statement_within.
  destruct (find_statement _ _) as [au|]; [|naive_solver].
  case_bool_decide as Hsql; simpl; [rewrite for_each_Ok|naive_solver]. split.
  - intros Hp. exists au. split_and!; [done..|]. intros ap Hap.
    specialize (Hp ap Hap). destruct (find_param _ _) as [rp|]; [|done].
    apply ensure_Ok, bool_decide_eq_true in Hp. eauto.
  - intros (? & [= <-] & _ & Hp) ap Hap.
    destruct (Hp ap Hap) as (rp & -> & Hv). by apply ensure_Ok, bool_decide_eq_true.
Qed.

Lemma sql_contains_Ok a r :
  sql_contains a r = Ok tt ↔
  a.(read_only) = true ∧ r.(read_only) = true ∧ ∀ rs, rs ∈ r.(statements) → statement_within a rs.
Proof.
  unfold sql_contains. destruct (read_only a), (read_only r); simpl; try naive_solver.
  rewrite for_each_Ok. setoid_rewrite statement_contained_Ok. naive_solver.
Qed.

Lemma find_statement_Some n l s : find_statement n l = Some s → s ∈ l ∧ s.(st_name) = n.
Proof.
  intros H. apply find_some in H as [Hin Hn]. apply bool_decide_eq_true in Hn.
  by rewrite list_elem_of_In.
Qed.

Lemma find_param_Some i l p : find_param i l = Some p → p ∈ l ∧ p.(fp_index) = i.
Proof.
  intros H. apply find_some in H as [Hin Hn]. apply bool_decide_eq_true in Hn.
  by rewrite list_elem_of_In.
Qed.

Lemma sql_contains_trans a b c :
  sql_contains a b = Ok tt → sql_contains b c = Ok tt → sql_contains a c = Ok tt.
Proof.
  rewrite !sql_contains_Ok. intros (Ha & _ & Hab) (_ & Hc & Hbc). split_and!; [done..|].
  intros cs Hcs. destruct (Hbc cs Hcs) as (bs & Hbs & Hsql & Hp).
  apply find_statement_Some in Hbs as [Hbs Hname].
  destruct (Hab bs Hbs) as (au & Hau & Hsql' & Hp'). rewrite Hname in Hau.
  exists au. split_and!; [done|congruence|]. intros ap Hap.
  destruct (Hp' ap Hap) as (bp & Hbp & Hv). apply find_param_Some in Hbp as [Hbp Hi].
  destruct (Hp bp Hbp) as (cp & Hcp & Hv'). exists cp. rewrite Hi in Hcp. split; congruence.
Qed.

Lemma caveats_contain_child_Ok p c :
  caveats_contain_child p c = Ok tt ↔
  match extract_sql_caveat p with
  | Some ps => ∃ cs, extract_sql_caveat c = Some cs ∧ sql_contains ps cs = Ok tt
  | None => p = c ∨ p = []
  end.
Proof.
  unfold caveats_contain_child. destruct (extract_sql_caveat p), (extract_sql_caveat c);
    rewrite ?map_err_Ok; repeat case_bool_decide; naive_solver.
Qed.

Lemma caveats_contain_child_trans a b c :
  caveats_contain_child a b = Ok tt → caveats_contain_child b c = Ok tt →
  caveats_contain_child a c = Ok tt.
Proof.
  rewrite !caveats_contain_child_Ok. intros Hab Hbc.
  destruct (extract_sql_caveat a) as [sa|] eqn:Ha.
  - destruct Hab as (sb & Hb & Hab). rewrite Hb in Hbc. destruct Hbc as (sc & Hc & Hbc).
    exists sc. split; [done|]. by apply sql_contains_trans with sb.
  - destruct Hab as [->| ->]; [|by right]. by rewrite Ha in Hbc.
Qed.

(** The two copies of the containment helper decide the same. *)
Lemma caveats_contain_same p c :
  caveats_contain_invocation p c = Ok tt ↔ caveats_contain_child p c = Ok tt.
Proof.
  unfold caveats_contain_invocation, caveats_contain_child.
  destruct (extract_sql_caveat p), (extract_sql_caveat c); try done;
    repeat case_bool_decide; naive_solver.
Qed.

(** ** Words in SQL text *)

Lemma append_split (a b x y : string) :
  a +:+ x = b +:+ y → String.length a ≤ String.length b → ∃ m, b = a +:+ m ∧ x = m +:+ y.
Proof.
  revert b. induction a as [|c a IH]; intros b Heq Hlen; [by exists b|].
  destruct b as [|d b]; [simpl in Hlen; lia|]. rewrite !append_cons in Heq.
  injection Heq as -> Heq. simpl in Hlen. destruct (IH b Heq) as (m & -> & ->); [lia|].
  by exists m.
Qed.

Lemma last_char_app a b : last_char (a +:+ b) = if is_empty b then last_char a else last_char b.
Proof.
  unfold is_empty. case_bool_decide as Hb; [subst; by rewrite append_nil_r|].
  induction a as [|c a IH]; [done|]. rewrite append_cons. rewrite <- IH. simpl.
  destruct (a +:+ b) eqn:E; [|done]. apply append_eq_nil in E. naive_solver.
Qed.

Lemma find_sub_Some n s l r :
  find_sub n s = Some (l, r) →
  s = l +:+ n +:+ r ∧ ∀ l' r', s = l' +:+ n +:+ r' → String.length l ≤ String.length l'.
Proof.
  revert l r. induction s as [|c s IH]; intros l r; simpl;
    destruct (strip_prefix n _) as [rest|] eqn:E; try done.
  - intros [= <- <-]. apply strip_prefix_Some in E. split; [done|]. intros; simpl; lia.
  - intros [= <- <-]. apply strip_prefix_Some in E. split; [done|]. intros; simpl; lia.
  - destruct (find_sub n s) as [[l0 r0]|] eqn:Hf; [|done]. intros [= <- <-].
    destruct (IH l0 r0 eq_refl) as [-> Hmin]. split; [done|].
    intros [|d l'] r' Heq.
    + assert (strip_prefix n (String c (l0 +:+ n +:+ r0)) = Some r') by by apply strip_prefix_Some.
      congruence.
    + injection Heq as -> Heq. simpl. specialize (Hmin l' r' Heq). lia.
Qed.

Lemma find_sub_None n s : find_sub n s = None → ∀ l r, s ≠ l +:+ n +:+ r.
Proof.
  induction s as [|c s IH]; simpl; destruct (strip_prefix n _) as [rest|] eqn:E; try done.
  - intros _ [|? ?] r Heq; [|done].
    assert (strip_prefix n "" = Some r) by by apply strip_prefix_Some. congruence.
  - destruct (find_sub n s) as [[]|] eqn:Hf; [done|]. intros _ [|d l] r Heq.
    + assert (strip_prefix n (String c s) = Some r) by by apply strip_prefix_Some. congruence.
    + injection Heq as -> Heq. by eapply IH.
Qed.

Section Words.
Variable needle : string.
(** A search word: not empty, every byte part of a word. *)
Hypothesis needle_ne : needle ≠ "".
Hypothesis needle_word : forall_char (λ c, negb (boundary (Some c))) needle = true.

Definition word_at (prev : option ascii) (s : string) : Prop :=
  ∃ l r, s = l +:+ needle +:+ r ∧
    boundary (if is_empty l then prev else last_char l) = true ∧ boundary (String.get 0 r) = true.

Lemma word_last_char m : m ≠ "" → forall_char (λ c, negb (boundary (Some c))) m = true →
  boundary (last_char m) = false.
Proof.
  induction m as [|c m IH]; [done|]. intros _. cbn [forall_char].
  rewrite andb_true_iff, negb_true_iff. intros [Hc Hm].
  destruct m as [|d m]; [done|]. by apply IH.
Qed.

(** A word occurrence after a rejected one starts after the rejected one. *)
Lemma word_at_skip prev l0 r0 :
  (∀ l' r', l0 +:+ needle +:+ r0 = l' +:+ needle +:+ r' → String.length l0 ≤ String.length l') →
  boundary (if is_empty l0 then prev else last_char l0) && boundary (String.get 0 r0) = false →
  word_at prev (l0 +:+ needle +:+ r0) → word_at (last_char needle) r0.
Proof.
  intros Hmin Hrej (l & r & Heq & Hl & Hr). specialize (Hmin l r Heq).
  destruct (append_split _ _ _ _ Heq Hmin) as (m & -> & Hm).
  destruct (decide (String.length needle ≤ String.length m)) as [Hle|Hgt].
  - destruct (append_split _ _ _ _ Hm Hle) as (m' & -> & ->). exists m', r. split_and!; [done| |done].
    rewrite <- Hl. unfold is_empty. case_bool_decide as Hm'.
    + subst m'. rewrite append_nil_r. case_bool_decide as Hn.
      { apply append_eq_nil in Hn. naive_solver. }
      rewrite last_char_app. unfold is_empty. by rewrite bool_decide_eq_false_2.
    + case_bool_decide as Hn.
      { apply append_eq_nil in Hn as [_ Hn]. apply append_eq_nil in Hn. naive_solver. }
      rewrite !last_char_app. unfold is_empty. rewrite (bool_decide_eq_false_2 (needle +:+ m' = "")).
      { by rewrite bool_decide_eq_false_2. }
      intros Hx. apply append_eq_nil in Hx. naive_solver.
  - symmetry in Hm. destruct (append_split _ _ _ _ Hm) as (n' & Hn' & Hr0); [lia|].
    destruct (decide (m = "")) as [->|Hne].
    + exfalso. rewrite append_nil_r in Hl. change ("" +:+ needle +:+ r) with (needle +:+ r) in Hm.
      apply append_inj_l in Hm. subst r. rewrite Hl, Hr in Hrej. done.
    + exfalso. revert Hl. rewrite Hn', forall_char_app, andb_true_iff in needle_word.
      unfold is_empty. case_bool_decide as Hx; [apply append_eq_nil in Hx; naive_solver|].
      rewrite last_char_app. unfold is_empty. rewrite bool_decide_eq_false_2 by done.
      rewrite (word_last_char m Hne); [done|]. apply needle_word.
Qed.

Lemma contains_word_loop_spec fuel prev s :
  String.length s < fuel → contains_word_loop fuel needle prev s = true ↔ word_at prev s.
Proof.
  revert prev s. induction fuel as [|fuel IH]; intros prev s Hlen; [lia|]. cbn [contains_word_loop].
  destruct (find_sub needle s) as [[l r]|] eqn:Hf.
  - apply find_sub_Some in Hf as [-> Hmin]. destruct (_ && _) eqn:Hb.
    + split; [|done]. intros _. apply andb_true_iff in Hb as [??]. by exists l, r.
    + assert (String.length needle ≠ 0) by (by intros ?%length_zero).
      rewrite !length_append in Hlen. rewrite IH by lia. split; [|by apply word_at_skip].
      intros (l' & r' & -> & Hl' & Hr'). exists (l +:+ needle +:+ l'), r'.
      split_and!; [by rewrite !append_assoc| |done]. unfold is_empty in *.
      rewrite bool_decide_eq_false_2.
      2:{ intros Hx. apply append_eq_nil in Hx as [_ Hx]. apply append_eq_nil in Hx. naive_solver. }
      rewrite !last_char_app. unfold is_empty.
      rewrite (bool_decide_eq_false_2 (needle +:+ l' = "")).
      2:{ intros Hx. apply append_eq_nil in Hx. naive_solver. }
      done.
  - split; [done|]. intros (l & r & Heq & _). by eapply find_sub_None in Hf.
Qed.

Lemma contains_word_spec s : contains_word s needle = true ↔ word_at None s.
Proof. apply contains_word_loop_spec. lia. Qed.

End Words.

(** ** Properties *)

(** Caveats only narrow along a chain: if every link's caveats are contained in
    its parent's, the last caveats are contained in the first; when the first
    carries a SQL caveat, so does the last, both are read-only, and every
    statement the last one allows is one the first one names, with the same SQL
    text and every parameter the first one fixed still fixed to its value. *)
Theorem caveats_attenuate (a b c : Caveats) (sa : SqlConstrainedStatementCaveat) :
  caveats_contain_child a b = Ok tt → caveats_contain_child b c = Ok tt →
  extract_sql_caveat a = Some sa →
  caveats_contain_child a c = Ok tt ∧
  ∃ sc, extract_sql_caveat c = Some sc ∧ sa.(read_only) = true ∧ sc.(read_only) = true ∧
    ∀ st, st ∈ sc.(statements) →
      ∃ au, au ∈ sa.(statements) ∧ au.(st_name) = st.(st_name) ∧ au.(st_sql) = st.(st_sql) ∧
        ∀ fixed, fixed ∈ au.(fixed_params) →
          ∃ p, p ∈ st.(fixed_params) ∧ p.(fp_index) = fixed.(fp_index) ∧
               p.(fp_value) = fixed.(fp_value).
Proof.
  intros Hab Hbc Ha. pose proof (caveats_contain_child_trans _ _ _ Hab Hbc) as Hac.
  split; [done|]. apply caveats_contain_child_Ok in Hac. rewrite Ha in Hac.
  destruct Hac as (sc & Hc & Hcont). apply sql_contains_Ok in Hcont as (Hra & Hrc & Hst).
  exists sc. split_and!; [done..|]. intros st Hin.
  destruct (Hst st Hin) as (au & Hau & Hsql & Hp). apply find_statement_Some in Hau as [Hau Hn].
  exists au. split_and!; [done..|]. intros fixed Hf. destruct (Hp fixed Hf) as (p & Hfind & Hv).
  apply find_param_Some in Hfind as [Hin' Hi]. by exists p.
Qed.

Definition demo_caveat (stmts : list json) : json :=
  JObject [("mode", JString "constrained-statements"); ("readOnly", JBool true);
           ("statements", JArray stmts)].

Definition demo_statement (params : list json) : json :=
  JObject [("fixedParams", JArray params); ("name", JString "by_user");
           ("sql", JString "SELECT * FROM t WHERE u = ? AND v = ?")].

Definition demo_param (i : Z) (v : string) : json :=
  JObject [("index", JNumber (NInt i)); ("value", JString v)].

Lemma caveats_attenuate_witness :
  let a := [("0", demo_caveat [demo_statement []])] in
  let b := [("0", demo_caveat [demo_statement [demo_param 0 "alice"]])] in
  let c := [("0", demo_caveat [demo_statement [demo_param 0 "alice"; demo_param 1 "x"]])] in
  caveats_contain_child a c = Ok tt.
Proof.
  intros a b c.
  exact (proj1 (caveats_attenuate a b c
    {| read_only := true;
       statements := [{| st_name := "by_user"; st_sql := "SELECT * FROM t WHERE u = ? AND v = ?";
                         fixed_params := [] |}] |} eq_refl eq_refl eq_refl)).
Defined.

(** The write-keyword scan is exact on word boundaries: it reports a text exactly
    when one of the keywords occurs in it, in any letter case, as a whole word
    (not inside a longer identifier), wherever it occurs. *)
Theorem contains_write_keyword_exact (sql : string) :
  contains_write_keyword sql = true ↔
  ∃ kw l r, kw ∈ WRITE_KEYWORDS ∧ to_ascii_uppercase sql = l +:+ kw +:+ r ∧
    boundary (last_char l) = true ∧ boundary (String.get 0 r) = true.
Proof.
  unfold contains_write_keyword. rewrite existsb_exists.
  assert (∀ kw, kw ∈ WRITE_KEYWORDS →
            kw ≠ "" ∧ forall_char (λ c, negb (boundary (Some c))) kw = true) as Hkw.
  { intros kw Hin. unfold WRITE_KEYWORDS in Hin. set_unfold. destruct_or?; subst; by vm_compute. }
  assert (∀ l, boundary (if is_empty l then None else last_char l) = boundary (last_char l)) as Hl.
  { intros [|? ?]; done. }
  split.
  - intros (kw & Hin%list_elem_of_In & Hw). destruct (Hkw kw Hin).
    apply contains_word_spec in Hw as (l & r & Heq & Hb & Ha); [|done..].
    rewrite Hl in Hb. by exists kw, l, r.
  - intros (kw & l & r & Hin & Heq & Hb & Ha). destruct (Hkw kw Hin).
    exists kw. split; [by apply list_elem_of_In|]. apply contains_word_spec; [done..|].
    exists l, r. by rewrite Hl.
Qed.
