(* ===== verification/ColumnEncryption.v ===== *)
(** * Column encryption: tinycloud-core/src/encryption.rs

    Stored values are [0x01 || nonce || ciphertext and tag], or legacy plaintext
    when they start with another byte.  AES-256-GCM is the [aes-gcm] crate's: a
    configured cipher is a pair of functions, the nonce the caller's random
    bytes. *)
From S2P Require Import Prelude Str Chars.

Record ColumnEncryption := mkColumnEncryption {
  cipher_encrypt : string → string → string;          (* nonce, plaintext *)
  cipher_decrypt : string → string → option string;   (* nonce, ciphertext *)
}.

Inductive EncryptionError := Decrypt | TooShort.

Definition VERSION_ENCRYPTED : ascii := char 1.

Definition encrypt (e : ColumnEncryption) (nonce plaintext : string) : string :=
  String VERSION_ENCRYPTED (nonce +:+ cipher_encrypt e nonce plaintext).

Definition decrypt (e : ColumnEncryption) (data : string) : result EncryptionError string :=
  match data with
  | "" => Ok data
  | String v rest =>
      if negb (bool_decide (v = VERSION_ENCRYPTED)) then Ok data
      else if (String.length data <? 1 + 12 + 16)%nat then Err TooShort
      else ok_or (cipher_decrypt e (String.substring 0 12 rest) (String.substring 12 (String.length rest - 12) rest)) Decrypt
  end.

Definition maybe_encrypt (enc : option ColumnEncryption) (nonce data : string) : string :=
  match enc with Some e => encrypt e nonce data | None => data end.

Definition maybe_decrypt (enc : option ColumnEncryption) (data : string) : result EncryptionError string :=
  match enc with Some e => decrypt e data | None => Ok data end.

(** A value the node stores encrypted reads back: with a 12-byte nonce, a
    cipher that inverts itself and appends a tag of at least 16 bytes, decrypting
    what [encrypt] returns gives the plaintext; without a key, and for legacy
    values that do not start with the version byte, the bytes come back
    unchanged. *)
Theorem column_encryption_roundtrip (e : ColumnEncryption) (nonce data : string) :
  String.length nonce = 12 →
  cipher_decrypt e nonce (cipher_encrypt e nonce data) = Some data →
  (16 ≤ String.length (cipher_encrypt e nonce data))%nat →
  maybe_decrypt (Some e) (maybe_encrypt (Some e) nonce data) = Ok data ∧
  maybe_decrypt None (maybe_encrypt None nonce data) = Ok data ∧
  ∀ v rest, v ≠ VERSION_ENCRYPTED → maybe_decrypt (Some e) (String v rest) = Ok (String v rest).
Proof.
  intros Hnonce Hinv Htag. split_and!; [|done|].
  - cbn [maybe_decrypt maybe_encrypt encrypt decrypt].
    rewrite bool_decide_eq_true_2 by done. cbn [negb String.length].
    destruct (Nat.ltb_spec (String.length (encrypt e nonce data)) (1 + 12 + 16)) as [Hl|_].
    { unfold encrypt in Hl. cbn [String.length] in Hl. rewrite length_append in Hl. lia. }
    set (ct := cipher_encrypt e nonce data) in *.
    pose proof (substring_app_l nonce ct) as Hn. rewrite Hnonce in Hn.
    pose proof (substring_app_r nonce ct (String.length (nonce +:+ ct) - 12)) as Hc.
    rewrite Hnonce in Hc. rewrite Hn, Hc by (rewrite length_append; lia).
    unfold ok_or. by rewrite Hinv.
  - intros v rest Hv. cbn [maybe_decrypt decrypt]. by rewrite bool_decide_eq_false_2.
Qed.

(** A cipher that appends a 16-byte tag. *)
Definition demo_tag : string := "0123456789abcdef".
Definition demo_cipher : ColumnEncryption :=
  {| cipher_encrypt := λ _ p, demo_tag +:+ p; cipher_decrypt := λ _ c, strip_prefix demo_tag c |}.

Lemma column_encryption_roundtrip_witness :
  maybe_decrypt (Some demo_cipher) (maybe_encrypt (Some demo_cipher) "nonce_nonce_" "secret") = Ok "secret".
Proof.
  apply (column_encryption_roundtrip demo_cipher "nonce_nonce_" "secret"); [done|by vm_compute|].
  vm_compute. lia.
Defined.
