(* ===== verification/Tables.v ===== *)
(** * Hashes and the relational store: tinycloud-core/src/hash.rs, models/*.rs
      and relationships/*.rs

    [Hash] is a multihash: its ordering compares the digest only
    ([Ord for Hash]), its equality and the column it is stored in use the whole
    multihash.  The tables the node keeps are lists of rows in insertion order;
    an insert checks the primary key and the foreign keys the entities declare,
    which is what the migration [m20230510_101010_init_tables] creates.  A query
    without ORDER BY returns its rows in an order the database chooses:
    [RowOrder] is that choice, any permutation. *)
From S2P Require Import Prelude Str Chars Json Identity Resource.
From Stdlib Require Import Sorting.Permutation Sorting.Sorted.
From Stdlib Require Import Strings.Ascii.

(** ** Hashes and CIDs *)

Record Hash := mkHash { mh_code : N; mh_digest : string }.

#[export] Instance Hash_eq_dec : EqDecision Hash.
Proof. solve_decision. Defined.

#[export] Instance Hash_countable : Countable Hash.
Proof.
  refine (inj_countable' (λ h, (mh_code h, mh_digest h)) (λ p, mkHash p.1 p.2) _).
  by intros [].
Defined.

Record Cid := mkCid { cid_version : N; cid_codec : N; cid_hash : Hash }.

#[export] Instance Cid_eq_dec : EqDecision Cid.
Proof. solve_decision. Defined.

(** BLAKE3 and the textual form of a CID come from crates; so does the order in
    which the database returns the rows of a query. *)
Class Blake3 := blake3_digest : string → string.
Class CidLib := {
  cid_to_string : Cid → string;
  cid_parse : string → option Cid;
}.
Class RowOrder := {
  row_order : ∀ {A : Type}, list A → list A;
  row_order_perm : ∀ {A : Type} (l : list A), row_order l ≡ₚ l;
}.

(** [Code::Blake3_256]. *)
Definition BLAKE3_256 : N := 30.

Definition hash `{Blake3} (data : string) : Hash := mkHash BLAKE3_256 (blake3_digest data).

(** [Hash::to_cid] and [From<Cid> for Hash]. *)
Definition to_cid (h : Hash) (codec : N) : Cid := mkCid 1 codec h.
Definition hash_of_cid (c : Cid) : Hash := cid_hash c.
Definition cid_text `{CidLib} (h : Hash) : string := cid_to_string (to_cid h 85).

(** Byte strings compare lexicographically. *)
Fixpoint bytes_leb (a b : string) : bool :=
  match a, b with
  | "", _ => true
  | String _ _, "" => false
  | String x a, String y b =>
      if (code x <? code y)%N then true
      else if (code y <? code x)%N then false
      else bytes_leb a b
  end.

(** [From<Hash> for Vec<u8>], the stored form: the code and the digest's length
    as unsigned varints, then the digest. *)
Fixpoint uvarint (fuel : nat) (n : N) : string :=
  match fuel with
  | O => ""
  | S fuel => if (n <? 128)%N then String (char n) ""
              else String (char (n mod 128 + 128)) (uvarint fuel (n / 128))
  end.
Definition hash_bytes (h : Hash) : string :=
  uvarint 10 (mh_code h) +:+ uvarint 10 (N.of_nat (String.length (mh_digest h))) +:+ mh_digest h.

(** [Ord for Hash]: digests only. *)
Definition hash_leb (a b : Hash) : bool := bytes_leb (mh_digest a) (mh_digest b).

(** [slice::sort_by] is a stable sort. *)
Fixpoint insert_by {A} (le : A → A → bool) (x : A) (l : list A) : list A :=
  match l with
  | [] => [x]
  | y :: l => if le x y then x :: y :: l else y :: insert_by le x l
  end.
Definition sort_by {A} (le : A → A → bool) (l : list A) : list A := foldr (insert_by le) [] l.

(** [Vec::dedup] drops an element equal to the one kept before it. *)
Fixpoint dedup_from {A} `{EqDecision A} (prev : A) (l : list A) : list A :=
  match l with
  | [] => []
  | y :: l => if bool_decide (prev = y) then dedup_from prev l else y :: dedup_from y l
  end.
Definition dedup {A} `{EqDecision A} (l : list A) : list A :=
  match l with [] => [] | x :: l => x :: dedup_from x l end.

(** ** Rows *)

Notation Facts := (list (string * json)).
Notation Metadata := (list (string * string)).

Record DelegationRow := mkDelegationRow {
  d_id : Hash;
  d_delegator : string;
  d_delegatee : string;
  d_expiry : option Z;
  d_issued_at : option Z;
  d_not_before : option Z;
  d_facts : option Facts;
  d_serialization : string;
}.

Record AbilityRow := mkAbilityRow {
  a_resource : Resource;
  a_ability : string;
  a_delegation : Hash;
  a_caveats : list (string * json);
}.

Record ParentRow := mkParentRow { p_parent : Hash; p_child : Hash }.

Record RevocationRow := mkRevocationRow {
  r_id : Hash;
  r_revoker : string;
  r_revoked : Hash;
  r_serialization : string;
  r_revoked_at : option Z;
}.

Record InvocationRow := mkInvocationRow {
  i_id : Hash;
  i_invoker : string;
  i_issued_at : Z;
  i_facts : option Facts;
  i_serialization : string;
}.

Record InvokedRow := mkInvokedRow { ia_invocation : Hash; ia_resource : Resource; ia_ability : string }.

Record EpochRow := mkEpochRow { e_seq : Z; e_id : Hash; e_space : SpaceId }.
Record EpochOrderRow := mkEpochOrderRow { eo_parent : Hash; eo_child : Hash; eo_space : SpaceId }.
Record EventOrderRow := mkEventOrderRow {
  ev_seq : Z;
  ev_epoch : Hash;
  ev_epoch_seq : Z;
  ev_event : Hash;
  ev_space : SpaceId;
}.

Record KvWriteRow := mkKvWriteRow {
  w_space : SpaceId;
  w_key : string;
  w_invocation : Hash;
  w_seq : Z;
  w_epoch : Hash;
  w_epoch_seq : Z;
  w_value : Hash;
  w_metadata : Metadata;
}.

Record KvDeleteRow := mkKvDeleteRow {
  del_invocation_id : Hash;
  del_space : SpaceId;
  del_key : string;
  del_deleted_invocation_id : Hash;
}.

Record HookSubscriptionRow := mkHookSubscriptionRow {
  hs_id : string;
  hs_subscriber_did : string;
  hs_space_id : string;
  hs_target_service : string;
  hs_path_prefix : option string;
  hs_abilities_json : option string;
  hs_callback_url : string;
  hs_encrypted_secret : string;
  hs_secret_key_id : string;
  hs_active : bool;
  hs_created_at : string;
}.

Record HookDeliveryRow := mkHookDeliveryRow {
  hd_id : string;
  hd_subscription_id : string;
  hd_event_id : string;
  hd_payload_json : string;
  hd_status : string;
  hd_attempts : Z;
  hd_next_attempt_at : option string;
  hd_last_error : option string;
  hd_created_at : string;
  hd_delivered_at : option string;
}.

#[export] Instance DelegationRow_eq_dec : EqDecision DelegationRow.
Proof. solve_decision. Defined.
#[export] Instance ParentRow_eq_dec : EqDecision ParentRow.
Proof. solve_decision. Defined.
#[export] Instance KvWriteRow_eq_dec : EqDecision KvWriteRow.
Proof. solve_decision. Defined.
#[export] Instance KvDeleteRow_eq_dec : EqDecision KvDeleteRow.
Proof. solve_decision. Defined.

Record Db := mkDb {
  actors : list string;
  delegations : list DelegationRow;
  abilities : list AbilityRow;
  parent_delegations : list ParentRow;
  revocations : list RevocationRow;
  invocations : list InvocationRow;
  invoked_abilities : list InvokedRow;
  spaces : list SpaceId;
  epochs : list EpochRow;
  epoch_order : list EpochOrderRow;
  event_order : list EventOrderRow;
  kv_writes : list KvWriteRow;
  kv_deletes : list KvDeleteRow;
  hook_subscriptions : list HookSubscriptionRow;
  hook_deliveries : list HookDeliveryRow;
}.

Definition empty_db : Db := mkDb [] [] [] [] [] [] [] [] [] [] [] [] [] [] [].

(** Replacing one table. *)
Definition set_actors (t : list string) (db : Db) : Db :=
  mkDb t (delegations db) (abilities db) (parent_delegations db) (revocations db)
    (invocations db) (invoked_abilities db) (spaces db) (epochs db) (epoch_order db)
    (event_order db) (kv_writes db) (kv_deletes db) (hook_subscriptions db)
    (hook_deliveries db).
Definition set_delegations (t : list DelegationRow) (db : Db) : Db :=
  mkDb (actors db) t (abilities db) (parent_delegations db) (revocations db) (invocations db)
    (invoked_abilities db) (spaces db) (epochs db) (epoch_order db) (event_order db)
    (kv_writes db) (kv_deletes db) (hook_subscriptions db) (hook_deliveries db).
Definition set_abilities (t : list AbilityRow) (db : Db) : Db :=
  mkDb (actors db) (delegations db) t (parent_delegations db) (revocations db)
    (invocations db) (invoked_abilities db) (spaces db) (epochs db) (epoch_order db)
    (event_order db) (kv_writes db) (kv_deletes db) (hook_subscriptions db)
    (hook_deliveries db).
Definition set_parent_delegations (t : list ParentRow) (db : Db) : Db :=
  mkDb (actors db) (delegations db) (abilities db) t (revocations db) (invocations db)
    (invoked_abilities db) (spaces db) (epochs db) (epoch_order db) (event_order db)
    (kv_writes db) (kv_deletes db) (hook_subscriptions db) (hook_deliveries db).
Definition set_revocations (t : list RevocationRow) (db : Db) : Db :=
  mkDb (actors db) (delegations db) (abilities db) (parent_delegations db) t (invocations db)
    (invoked_abilities db) (spaces db) (epochs db) (epoch_order db) (event_order db)
    (kv_writes db) (kv_deletes db) (hook_subscriptions db) (hook_deliveries db).
Definition set_invocations (t : list InvocationRow) (db : Db) : Db :=
  mkDb (actors db) (delegations db) (abilities db) (parent_delegations db) (revocations db) t
    (invoked_abilities db) (spaces db) (epochs db) (epoch_order db) (event_order db)
    (kv_writes db) (kv_deletes db) (hook_subscriptions db) (hook_deliveries db).
Definition set_invoked_abilities (t : list InvokedRow) (db : Db) : Db :=
  mkDb (actors db) (delegations db) (abilities db) (parent_delegations db) (revocations db)
    (invocations db) t (spaces db) (epochs db) (epoch_order db) (event_order db)
    (kv_writes db) (kv_deletes db) (hook_subscriptions db) (hook_deliveries db).
Definition set_spaces (t : list SpaceId) (db : Db) : Db :=
  mkDb (actors db) (delegations db) (abilities db) (parent_delegations db) (revocations db)
    (invocations db) (invoked_abilities db) t (epochs db) (epoch_order db)
    (event_order db) (kv_writes db) (kv_deletes db) (hook_subscriptions db)
    (hook_deliveries db).
Definition set_epochs (t : list EpochRow) (db : Db) : Db :=
  mkDb (actors db) (delegations db) (abilities db) (parent_delegations db) (revocations db)
    (invocations db) (invoked_abilities db) (spaces db) t (epoch_order db)
    (event_order db) (kv_writes db) (kv_deletes db) (hook_subscriptions db)
    (hook_deliveries db).
Definition set_epoch_order (t : list EpochOrderRow) (db : Db) : Db :=
  mkDb (actors db) (delegations db) (abilities db) (parent_delegations db) (revocations db)
    (invocations db) (invoked_abilities db) (spaces db) (epochs db) t (event_order db)
    (kv_writes db) (kv_deletes db) (hook_subscriptions db) (hook_deliveries db).
Definition set_event_order (t : list EventOrderRow) (db : Db) : Db :=
  mkDb (actors db) (delegations db) (abilities db) (parent_delegations db) (revocations db)
    (invocations db) (invoked_abilities db) (spaces db) (epochs db) (epoch_order db) t
    (kv_writes db) (kv_deletes db) (hook_subscriptions db) (hook_deliveries db).
Definition set_kv_writes (t : list KvWriteRow) (db : Db) : Db :=
  mkDb (actors db) (delegations db) (abilities db) (parent_delegations db) (revocations db)
    (invocations db) (invoked_abilities db) (spaces db) (epochs db) (epoch_order db)
    (event_order db) t (kv_deletes db) (hook_subscriptions db) (hook_deliveries db).
Definition set_kv_deletes (t : list KvDeleteRow) (db : Db) : Db :=
  mkDb (actors db) (delegations db) (abilities db) (parent_delegations db) (revocations db)
    (invocations db) (invoked_abilities db) (spaces db) (epochs db) (epoch_order db)
    (event_order db) (kv_writes db) t (hook_subscriptions db) (hook_deliveries db).
Definition set_hook_subscriptions (t : list HookSubscriptionRow) (db : Db) : Db :=
  mkDb (actors db) (delegations db) (abilities db) (parent_delegations db) (revocations db)
    (invocations db) (invoked_abilities db) (spaces db) (epochs db) (epoch_order db)
    (event_order db) (kv_writes db) (kv_deletes db) t (hook_deliveries db).
Definition set_hook_deliveries (t : list HookDeliveryRow) (db : Db) : Db :=
  mkDb (actors db) (delegations db) (abilities db) (parent_delegations db) (revocations db)
    (invocations db) (invoked_abilities db) (spaces db) (epochs db) (epoch_order db)
    (event_order db) (kv_writes db) (kv_deletes db) (hook_subscriptions db) t.

(** ** Statements *)

Inductive DbErr :=
| RecordNotInserted
| UniqueViolation (table : string)
| ForeignKeyViolation (table : string).

#[export] Instance DbErr_eq_dec : EqDecision DbErr.
Proof. solve_decision. Defined.

(** [Entity::insert_many(rows).exec(db)]: a row whose key is present, or one
    whose references are not, fails the statement. *)
Fixpoint insert_many {R} (table : string) (same_key : R → R → bool) (refs_ok : R → bool)
    (rows tbl : list R) : result DbErr (list R) :=
  match rows with
  | [] => Ok tbl
  | r :: rows =>
      _ ← ensure (negb (existsb (same_key r) tbl)) (UniqueViolation table);
      _ ← ensure (refs_ok r) (ForeignKeyViolation table);
      insert_many table same_key refs_ok rows (tbl ++ [r])
  end.

(** With [on_conflict(key).do_nothing()] the rows whose key is present are left
    out. *)
Fixpoint insert_fresh {R} (table : string) (same_key : R → R → bool) (refs_ok : R → bool)
    (rows tbl : list R) : result DbErr (list R) :=
  match rows with
  | [] => Ok tbl
  | r :: rows =>
      if existsb (same_key r) tbl then insert_fresh table same_key refs_ok rows tbl
      else
        _ ← ensure (refs_ok r) (ForeignKeyViolation table);
        insert_fresh table same_key refs_ok rows (tbl ++ [r])
  end.

(** ... and a statement that inserted nothing reports [RecordNotInserted]. *)
Definition insert_or_ignore {R} (table : string) (same_key : R → R → bool) (refs_ok : R → bool)
    (rows tbl : list R) : result DbErr (list R) :=
  tbl' ← insert_fresh table same_key refs_ok rows tbl;
  if (length tbl' =? length tbl)%nat then Err RecordNotInserted else Ok tbl'.

(** [match ... { Err(DbErr::RecordNotInserted) => (), r => { r?; } }]. *)
Definition or_not_inserted {R} (tbl : list R) (r : result DbErr (list R)) : result DbErr (list R) :=
  match r with Err RecordNotInserted => Ok tbl | r => r end.

(** [Entity::find().filter(p).all(db)]. *)
Definition select `{RowOrder} {R} (p : R → bool) (tbl : list R) : list R :=
  row_order (List.filter p tbl).

(** [Entity::find().filter(p).one(db)] on a query that is not ordered. *)
Definition select_one `{RowOrder} {R} (p : R → bool) (tbl : list R) : option R :=
  head (select p tbl).

Definition hash_eqb (a b : Hash) : bool := bool_decide (a = b).
Definition mem {A} `{EqDecision A} (x : A) (l : list A) : bool := existsb (λ y, bool_decide (x = y)) l.

(** ** The tables' keys and references *)

Definition has_actor (db : Db) (a : string) : bool := mem a (actors db).
Definition has_delegation (db : Db) (h : Hash) : bool := existsb (λ d, hash_eqb (d_id d) h) (delegations db).
Definition has_invocation (db : Db) (h : Hash) : bool := existsb (λ i, hash_eqb (i_id i) h) (invocations db).
Definition has_space (db : Db) (s : SpaceId) : bool := mem s (spaces db).
Definition has_epoch (db : Db) (h : Hash) (s : SpaceId) : bool :=
  existsb (λ e, hash_eqb (e_id e) h && bool_decide (e_space e = s)) (epochs db).

Definition insert_actors (rows : list string) (db : Db) : result DbErr Db :=
  t ← insert_or_ignore "actor" (λ a b, bool_decide (a = b)) (λ _, true) rows (actors db);
  Ok (set_actors t db).

Definition insert_delegation (row : DelegationRow) (db : Db) : result DbErr Db :=
  t ← insert_or_ignore "delegation" (λ a b, hash_eqb (d_id b) (d_id a))
        (λ r, has_actor db (d_delegator r) && has_actor db (d_delegatee r)) [row] (delegations db);
  Ok (set_delegations t db).

(** The key of [ability] is (resource, ability, delegation), the resource in its
    textual form. *)
Definition same_ability (a b : AbilityRow) : bool :=
  bool_decide (resource_display (a_resource a) = resource_display (a_resource b)) &&
  bool_decide (a_ability a = a_ability b) && hash_eqb (a_delegation a) (a_delegation b).

Definition insert_abilities (rows : list AbilityRow) (db : Db) : result DbErr Db :=
  t ← insert_many "ability" same_ability (λ r, has_delegation db (a_delegation r)) rows (abilities db);
  Ok (set_abilities t db).

Definition insert_parents (rows : list ParentRow) (db : Db) : result DbErr Db :=
  t ← insert_many "parent_delegation"
        (λ a b, hash_eqb (p_parent a) (p_parent b) && hash_eqb (p_child a) (p_child b))
        (λ r, has_delegation db (p_parent r)) rows (parent_delegations db);
  Ok (set_parent_delegations t db).

Definition insert_revocation (row : RevocationRow) (db : Db) : result DbErr Db :=
  t ← insert_or_ignore "revocation" (λ a b, hash_eqb (r_id a) (r_id b))
        (λ r, has_actor db (r_revoker r) && has_delegation db (r_revoked r)) [row] (revocations db);
  Ok (set_revocations t db).

Definition insert_invocation (row : InvocationRow) (db : Db) : result DbErr Db :=
  t ← insert_or_ignore "invocation" (λ a b, hash_eqb (i_id b) (i_id a))
        (λ r, has_actor db (i_invoker r)) [row] (invocations db);
  Ok (set_invocations t db).

Definition insert_invoked (rows : list InvokedRow) (db : Db) : result DbErr Db :=
  t ← insert_many "invoked_abilities"
        (λ a b, hash_eqb (ia_invocation a) (ia_invocation b) &&
                bool_decide (resource_display (ia_resource a) = resource_display (ia_resource b)) &&
                bool_decide (ia_ability a = ia_ability b))
        (λ r, has_invocation db (ia_invocation r)) rows (invoked_abilities db);
  Ok (set_invoked_abilities t db).

Definition insert_spaces (rows : list SpaceId) (db : Db) : result DbErr Db :=
  t ← insert_or_ignore "space" (λ a b, bool_decide (a = b)) (λ _, true) rows (spaces db);
  Ok (set_spaces t db).

Definition insert_epochs (rows : list EpochRow) (db : Db) : result DbErr Db :=
  t ← insert_many "epoch" (λ a b, hash_eqb (e_id a) (e_id b) && bool_decide (e_space a = e_space b))
        (λ r, has_space db (e_space r)) rows (epochs db);
  Ok (set_epochs t db).

Definition insert_epoch_order (rows : list EpochOrderRow) (db : Db) : result DbErr Db :=
  t ← insert_many "epoch_order"
        (λ a b, hash_eqb (eo_parent a) (eo_parent b) && hash_eqb (eo_child a) (eo_child b) &&
                bool_decide (eo_space a = eo_space b))
        (λ r, has_epoch db (eo_parent r) (eo_space r) && has_epoch db (eo_child r) (eo_space r) &&
              has_space db (eo_space r)) rows (epoch_order db);
  Ok (set_epoch_order t db).

Definition insert_event_order (rows : list EventOrderRow) (db : Db) : result DbErr Db :=
  t ← insert_many "event_order"
        (λ a b, hash_eqb (ev_epoch a) (ev_epoch b) && (ev_epoch_seq a =? ev_epoch_seq b)%Z &&
                bool_decide (ev_space a = ev_space b))
        (λ r, has_epoch db (ev_epoch r) (ev_space r) && has_space db (ev_space r)) rows (event_order db);
  Ok (set_event_order t db).

Definition insert_kv_write (row : KvWriteRow) (db : Db) : result DbErr Db :=
  t ← insert_many "kv_write"
        (λ a b, bool_decide (w_space a = w_space b) && bool_decide (w_key a = w_key b) &&
                hash_eqb (w_invocation a) (w_invocation b))
        (λ r, has_invocation db (w_invocation r) &&
              existsb (λ o, hash_eqb (ev_epoch o) (w_epoch r) && (ev_epoch_seq o =? w_epoch_seq r)%Z &&
                            bool_decide (ev_space o = w_space r)) (event_order db)) [row] (kv_writes db);
  Ok (set_kv_writes t db).

Definition insert_kv_delete (row : KvDeleteRow) (db : Db) : result DbErr Db :=
  t ← insert_many "kv_delete"
        (λ a b, hash_eqb (del_invocation_id a) (del_invocation_id b) &&
                bool_decide (del_space a = del_space b))
        (λ r, has_invocation db (del_invocation_id r) &&
              existsb (λ w, bool_decide (w_space w = del_space r) &&
                            hash_eqb (w_invocation w) (del_deleted_invocation_id r) &&
                            bool_decide (w_key w = del_key r)) (kv_writes db)) [row] (kv_deletes db);
  Ok (set_kv_deletes t db).

Definition insert_hook_deliveries (rows : list HookDeliveryRow) (db : Db) : result DbErr Db :=
  t ← insert_or_ignore "hook_delivery" (λ a b, bool_decide (hd_id a = hd_id b))
        (λ r, existsb (λ s, bool_decide (hs_id s = hd_subscription_id r)) (hook_subscriptions db))
        rows (hook_deliveries db);
  Ok (set_hook_deliveries t db).

(** ** Lemmas *)

Lemma hash_eqb_true a b : hash_eqb a b = true ↔ a = b.
Proof. unfold hash_eqb. by rewrite bool_decide_eq_true. Qed.

Lemma mem_true {A} `{EqDecision A} (x : A) l : mem x l = true ↔ x ∈ l.
Proof.
  unfold mem. rewrite existsb_exists. setoid_rewrite bool_decide_eq_true.
  setoid_rewrite <- list_elem_of_In. naive_solver.
Qed.

Lemma has_delegation_true db h : has_delegation db h = true ↔ ∃ d, d ∈ delegations db ∧ d_id d = h.
Proof.
  unfold has_delegation. rewrite existsb_exists. setoid_rewrite hash_eqb_true.
  by setoid_rewrite <- list_elem_of_In.
Qed.

(** Byte strings are totally ordered. *)
Lemma bytes_leb_total a b : bytes_leb a b = true ∨ bytes_leb b a = true.
Proof.
  revert b. induction a as [|x a IH]; intros [|y b]; simpl; auto.
  destruct (N.ltb_spec (code x) (code y)), (N.ltb_spec (code y) (code x)); auto.
Qed.

Lemma bytes_leb_antisym a b : bytes_leb a b = true → bytes_leb b a = true → a = b.
Proof.
  revert b. induction a as [|x a IH]; intros [|y b]; simpl; try done.
  destruct (N.ltb_spec (code x) (code y)), (N.ltb_spec (code y) (code x)); try done; try lia.
  intros ??. f_equal; [apply code_inj; lia|auto].
Qed.

Lemma bytes_leb_trans a b c : bytes_leb a b = true → bytes_leb b c = true → bytes_leb a c = true.
Proof.
  revert b c. induction a as [|x a IH]; intros [|y b] [|z c]; simpl; try done.
  destruct (N.ltb_spec (code x) (code y)), (N.ltb_spec (code y) (code x)),
    (N.ltb_spec (code y) (code z)), (N.ltb_spec (code z) (code y)),
    (N.ltb_spec (code x) (code z)), (N.ltb_spec (code z) (code x)); try done; try lia. apply IH.
Qed.

Section Statements.
Context {R : Type} (table : string) (same_key : R → R → bool) (refs_ok : R → bool).

(** An insert appends its rows. *)
Lemma insert_many_Ok rows tbl tbl' :
  insert_many table same_key refs_ok rows tbl = Ok tbl' →
  tbl' = tbl ++ rows ∧ Forall (λ r, refs_ok r = true) rows.
Proof.
  revert tbl. induction rows as [|r rows IH]; intros tbl H; simpl in H; ok_inv.
  - by rewrite app_nil_r.
  - apply IH in H as [-> ?]. rewrite <- app_assoc. auto.
Qed.

Lemma insert_fresh_Ok rows tbl tbl' :
  insert_fresh table same_key refs_ok rows tbl = Ok tbl' →
  ∃ added, tbl' = tbl ++ added ∧ added ⊆ rows ∧ Forall (λ r, refs_ok r = true) added.
Proof.
  revert tbl. induction rows as [|r rows IH]; intros tbl H; simpl in H.
  - ok_inv. exists []. rewrite app_nil_r. split_and!; [done|set_solver|done].
  - destruct (existsb (same_key r) tbl).
    + apply IH in H as (added & -> & Hsub & ?). exists added. split_and!; [done|set_solver|done].
    + ok_inv. apply IH in H as (added & -> & Hsub & ?). exists (r :: added).
      rewrite <- app_assoc. split_and!; [done|set_solver|by constructor].
Qed.

Lemma insert_or_ignore_Ok row tbl tbl' :
  insert_or_ignore table same_key refs_ok [row] tbl = Ok tbl' →
  tbl' = tbl ++ [row] ∧ existsb (same_key row) tbl = false ∧ refs_ok row = true.
Proof.
  unfold insert_or_ignore. intros H. ok_inv. rename x into t, H0 into Ht.
  simpl in Ht. destruct (existsb (same_key row) tbl) eqn:Hk.
  - ok_inv. by rewrite Nat.eqb_refl in H.
  - ok_inv. destruct (_ =? _)%nat; ok_inv. done.
Qed.

Lemma insert_or_ignore_none row tbl :
  insert_or_ignore table same_key refs_ok [row] tbl = Err RecordNotInserted ↔
  existsb (same_key row) tbl = true.
Proof.
  unfold insert_or_ignore. simpl. destruct (existsb (same_key row) tbl).
  - rewrite bind_ret_l, Nat.eqb_refl. done.
  - unfold ensure. destruct (refs_ok row); simpl; [|naive_solver].
    rewrite length_app. simpl. replace (_ =? _)%nat with false; [naive_solver|].
    symmetry. apply Nat.eqb_neq. lia.
Qed.

End Statements.

Lemma elem_of_select `{RowOrder} {R} (p : R → bool) tbl x :
  x ∈ select p tbl ↔ x ∈ tbl ∧ p x = true.
Proof.
  unfold select. rewrite row_order_perm, !list_elem_of_In, filter_In. done.
Qed.

Lemma select_nil `{RowOrder} {R} (p : R → bool) tbl :
  select p tbl = [] → ∀ x, x ∈ tbl → p x = false.
Proof.
  intros Hs x Hx. destruct (p x) eqn:Hp; [|done].
  assert (x ∈ select p tbl) as Hin by (rewrite elem_of_select; done).
  rewrite Hs in Hin. by apply not_elem_of_nil in Hin.
Qed.

Lemma select_one_Some `{RowOrder} {R} (p : R → bool) tbl x :
  select_one p tbl = Some x → x ∈ tbl ∧ p x = true.
Proof.
  unfold select_one. intros Hx. apply elem_of_select. destruct (select p tbl); [done|].
  simplify_eq/=. set_solver.
Qed.

Lemma select_one_None `{RowOrder} {R} (p : R → bool) tbl :
  select_one p tbl = None → ∀ x, x ∈ tbl → p x = false.
Proof.
  unfold select_one. intros Hs. apply select_nil. destruct (select p tbl); done.
Qed.

Lemma select_length `{RowOrder} {R} (p : R → bool) tbl :
  length (select p tbl) = length (List.filter p tbl).
Proof. unfold select. by rewrite row_order_perm. Qed.

(** Sorting keeps the elements; removing neighbours keeps the set. *)
Lemma insert_by_perm {A} (le : A → A → bool) x l : insert_by le x l ≡ₚ x :: l.
Proof.
  induction l as [|y l IH]; simpl; [done|]. destruct (le x y); [done|].
  rewrite IH. apply perm_swap.
Qed.

Lemma sort_by_perm {A} (le : A → A → bool) l : sort_by le l ≡ₚ l.
Proof. induction l as [|x l IH]; simpl; [done|]. by rewrite insert_by_perm, IH. Qed.

Lemma fmap_perm_inj {A C} (f : A → C) `{!Inj (=) (=) f} l l' : f <$> l ≡ₚ f <$> l' → l ≡ₚ l'.
Proof.
  intros (m & Hm & Hp)%Permutation_map_inv. rewrite Hp. assert (l = m) as ->; [|done]. clear Hp.
  revert m Hm. induction l as [|x l IH]; intros [|y m] Hm; try done. injection Hm as Hx Hm.
  f_equal; [by apply (inj f)|by apply IH].
Qed.

Lemma insert_by_sorted {A} (le : A → A → bool) x l :
  (∀ a b, le a b = true ∨ le b a = true) →
  Sorted (λ a b, le a b = true) l → Sorted (λ a b, le a b = true) (insert_by le x l).
Proof.
  intros Htot. induction 1 as [|y l Hl IH Hd]; simpl; [by repeat constructor|].
  destruct (le x y) eqn:Hxy; [by repeat constructor|].
  constructor; [done|]. destruct (Htot x y) as [?|Hyx]; [congruence|].
  inversion Hd as [|z l' Hyz]; subst; simpl; [by constructor|]. destruct (le x z); by constructor.
Qed.

Lemma sort_by_sorted {A} (le : A → A → bool) l :
  (∀ a b, le a b = true ∨ le b a = true) → Sorted (λ a b, le a b = true) (sort_by le l).
Proof. intros Htot. induction l; simpl; [constructor|by apply insert_by_sorted]. Qed.

Lemma elem_of_dedup_from {A} `{EqDecision A} (x p : A) l : x ∈ p :: dedup_from p l ↔ x ∈ p :: l.
Proof.
  revert p. induction l as [|y l IH]; intros p; simpl; [done|].
  case_bool_decide as Hp.
  - rewrite IH. subst. set_solver.
  - rewrite elem_of_cons, IH. set_solver.
Qed.

Lemma elem_of_dedup {A} `{EqDecision A} (x : A) l : x ∈ dedup l ↔ x ∈ l.
Proof. destruct l; simpl; [done|apply elem_of_dedup_from]. Qed.

Lemma dedup_from_length {A} `{EqDecision A} (p : A) l : length (dedup_from p l) ≤ length l.
Proof.
  revert p. induction l as [|y l IH]; intros p; simpl; [done|].
  case_bool_decide; simpl; [specialize (IH p)|specialize (IH y)]; lia.
Qed.

Lemma dedup_from_idem {A} `{EqDecision A} (p : A) l : dedup_from p (dedup_from p l) = dedup_from p l.
Proof.
  revert p. induction l as [|y l IH]; intros p; simpl; [done|].
  case_bool_decide as Hp; [apply IH|]. simpl. rewrite bool_decide_eq_false_2 by done. by rewrite IH.
Qed.

Lemma dedup_idem {A} `{EqDecision A} (l : list A) : dedup (dedup l) = dedup l.
Proof. destruct l; simpl; [done|]. by rewrite dedup_from_idem. Qed.

Lemma dedup_from_sorted {A} `{EqDecision A} (R : relation A) p l : Sorted R (p :: l) → Sorted R (p :: dedup_from p l).
Proof.
  revert p. induction l as [|y l IH]; intros p Hs; simpl; [done|]. inversion Hs as [|? ? Hl Hhd]; subst.
  case_bool_decide as Hp; [subst; by apply IH|]. constructor; [by apply IH|]. inversion Hhd; subst. by constructor.
Qed.

Lemma dedup_sorted {A} `{EqDecision A} (R : relation A) (l : list A) : Sorted R l → Sorted R (dedup l).
Proof. destruct l; [done|]. apply dedup_from_sorted. Qed.

(** A column without duplicates names its rows. *)
Lemma NoDup_fmap_inj {A B} (f : A → B) l x y : NoDup (f <$> l) → x ∈ l → y ∈ l → f x = f y → x = y.
Proof.
  induction l as [|z l IH]; [by intros _ ?%not_elem_of_nil|]. rewrite fmap_cons, NoDup_cons, !elem_of_cons. intros [Hz Hl] [->|Hx] [->|Hy] Heq; auto.
  - exfalso. apply Hz. rewrite Heq. by apply list_elem_of_fmap_2.
  - exfalso. apply Hz. rewrite <- Heq. by apply list_elem_of_fmap_2.
Qed.

(** Sorting a sorted list changes nothing. *)
Lemma sort_by_id {A} (le : A → A → bool) l : Sorted (λ a b, le a b = true) l → sort_by le l = l.
Proof.
  induction 1 as [|x l Hl IH Hd]; [done|]. change (insert_by le x (sort_by le l) = x :: l). rewrite IH.
  inversion Hd as [|y l' Hxy]; subst; [done|]. simpl. by rewrite Hxy.
Qed.
