(* ===== verification/Jcs.v ===== *)
(** * JSON canonicalization (RFC 8785): tinycloud-core/src/policy_capability/jcs.rs

    The bytes that are hashed for a policy capability.  Strings are UTF-8 byte
    strings, so escaping character by character is escaping byte by byte: every
    character that is escaped is one byte and all other bytes are copied.  Keys
    are ordered by UTF-16 code units.  The text of a double is [ryu_js]'s, the
    parameter [FloatText].  The theorem is that the encoding is injective on
    values whose numbers are integers: equal canonical bytes mean equal values. *)
From stdpp Require Import sorting.
From S2P Require Import Prelude Str Chars Json Tables.

Class FloatText := float_text : Z → string.

(** [write_string]. *)
Definition escape (c : ascii) : string :=
  if decide (c = char 34) then "\" +:+ String (char 34) ""
  else if decide (c = "\"%char) then "\\"
  else if decide (c = char 8) then "\b"
  else if decide (c = char 12) then "\f"
  else if decide (c = char 10) then "\n"
  else if decide (c = char 13) then "\r"
  else if decide (c = char 9) then "\t"
  else if (code c <? 32)%N then
    "\u00" +:+ String (hex_digit (N.shiftr (code c) 4)) (String (hex_digit (N.land (code c) 15)) "")
  else String c "".

Fixpoint escape_all (s : string) : string :=
  match s with "" => "" | String c s => escape c +:+ escape_all s end.

Definition write_string (s : string) : string :=
  String (char 34) (escape_all s +:+ String (char 34) "").

(** [str::encode_utf16]. *)
Definition code_point (c : string) : N :=
  match c with
  | String a (String b (String d (String e _))) =>
      N.land (code a) 7 * 262144 + N.land (code b) 63 * 4096 + N.land (code d) 63 * 64 + N.land (code e) 63
  | String a (String b (String d "")) =>
      N.land (code a) 15 * 4096 + N.land (code b) 63 * 64 + N.land (code d) 63
  | String a (String b "") => N.land (code a) 31 * 64 + N.land (code b) 63
  | String a "" => code a
  | "" => 0
  end%N.

Definition utf16_units (cp : N) : list N :=
  if (cp <? 65536)%N then [cp]
  else [55296 + N.shiftr (cp - 65536) 10; 56320 + N.land (cp - 65536) 1023]%N.

Definition encode_utf16 (s : string) : list N := flat_map (λ c, utf16_units (code_point c)) (chars s).

(** [cmp_utf16(a, b) != Greater]. *)
Fixpoint units_leb (a b : list N) : bool :=
  match a, b with
  | [], _ => true
  | _ :: _, [] => false
  | x :: a, y :: b => if (x <? y)%N then true else if (y <? x)%N then false else units_leb a b
  end.
Definition cmp_utf16_le (a b : string) : bool := units_leb (encode_utf16 a) (encode_utf16 b).

Section Jcs.
Context `{FloatText}.

(** [write_number]: an [i64] or [u64] in decimal, a double by [ryu_js]. *)
Definition write_number (n : Number) : string :=
  match n with
  | NInt z => if (z <? 0)%Z then String "-" (fmt_u64 (Z.to_N (- z))) else fmt_u64 (Z.to_N z)
  | NFloat r => float_text r
  end.

(** [write_value]; the entries of an object are ordered by key alone, so ordering
    them with their values already written is the same. *)
Fixpoint write_value (v : json) : string :=
  match v with
  | JNull => "null"
  | JBool b => if b then "true" else "false"
  | JNumber n => write_number n
  | JString s => write_string s
  | JArray l => "[" +:+ String.concat "," (write_value <$> l) +:+ "]"
  | JObject m =>
      let entries := sort_by (λ a b, cmp_utf16_le a.1 b.1) ((λ '(k, v), (k, write_value v)) <$> m) in
      "{" +:+ String.concat "," ((λ '(k, t), write_string k +:+ ":" +:+ t) <$> entries) +:+ "}"
  end.

Definition canonicalize (v : json) : string := write_value v.

(** ** Injectivity *)

(** Integers of the range of [i64] and [u64] only, and objects in key order. *)
Definition key_lt {A} (a b : string * A) : Prop := bytes_leb a.1 b.1 = true ∧ a.1 ≠ b.1.

Fixpoint wf_json (v : json) : Prop :=
  match v with
  | JNumber (NInt z) => (- 2 ^ 63 ≤ z < 2 ^ 64)%Z
  | JNumber (NFloat _) => False
  | JArray l => foldr (λ x P, wf_json x ∧ P) True l
  | JObject m => StronglySorted key_lt m ∧ foldr (λ kv P, wf_json kv.2 ∧ P) True m
  | _ => True
  end.

Lemma wf_array l : wf_json (JArray l) ↔ Forall wf_json l.
Proof. induction l as [|x l IH]; simpl; [done|]. rewrite Forall_cons. tauto. Qed.

Lemma wf_object m : wf_json (JObject m) ↔ StronglySorted key_lt m ∧ Forall (λ kv, wf_json kv.2) m.
Proof.
  simpl. apply and_iff_compat_l. induction m as [|x m IH]; simpl; [done|]. rewrite Forall_cons. tauto.
Qed.

(** The text that may follow a value. *)
Definition stops (r : string) : Prop := match r with "" => True | String c _ => is_ascii_digit c = false end.

(** Reading one escaped character back. *)
Definition unescape (s : string) : option (ascii * string) :=
  match s with
  | String "\" (String "u" (String _ (String _ (String h (String l r))))) =>
      a ← hex_value h; b ← hex_value l; Some (char (a * 16 + b)%N, r)
  | String "\" (String e r) =>
      Some (if decide (e = "b"%char) then char 8 else if decide (e = "f"%char) then char 12
            else if decide (e = "n"%char) then char 10 else if decide (e = "r"%char) then char 13
            else if decide (e = "t"%char) then char 9 else e, r)
  | String c r => Some (c, r)
  | "" => None
  end.

Lemma unescape_escape c r : unescape (escape c +:+ r) = Some (c, r).
Proof. by destruct c as [[] [] [] [] [] [] [] []]. Qed.

Lemma escape_head c r : ∃ x t, escape c +:+ r = String x t ∧ x ≠ char 34.
Proof. destruct c as [[] [] [] [] [] [] [] []]; by eexists _, _. Qed.

Lemma escape_all_inj s s' r r' :
  escape_all s +:+ String (char 34) r = escape_all s' +:+ String (char 34) r' → s = s' ∧ r = r'.
Proof.
  revert s'. induction s as [|c s IH]; intros [|c' s'] Heq; cbn [escape_all] in Heq.
  - change (String (char 34) r = String (char 34) r') in Heq. by injection Heq as ->.
  - rewrite append_assoc in Heq. destruct (escape_head c' (escape_all s' +:+ String (char 34) r')) as (x & t & Hx & Hne).
    rewrite Hx in Heq. by injection Heq as <-.
  - rewrite append_assoc in Heq. destruct (escape_head c (escape_all s +:+ String (char 34) r)) as (x & t & Hx & Hne).
    rewrite Hx in Heq. by injection Heq as ->.
  - rewrite !append_assoc in Heq. apply (f_equal unescape) in Heq. rewrite !unescape_escape in Heq.
    injection Heq as -> Heq. by apply IH in Heq as [-> ->].
Qed.

Lemma write_string_inj s s' r r' : write_string s +:+ r = write_string s' +:+ r' → s = s' ∧ r = r'.
Proof.
  unfold write_string. rewrite !append_cons, !append_assoc. intros Heq. injection Heq as Heq.
  rewrite !append_cons in Heq. by apply escape_all_inj in Heq.
Qed.

(** Digits are read up to the first other character. *)
Lemma digits_inj d d' r r' :
  forall_char is_ascii_digit d = true → forall_char is_ascii_digit d' = true → stops r → stops r' →
  d +:+ r = d' +:+ r' → d = d' ∧ r = r'.
Proof.
  revert d'. induction d as [|c d IH]; intros [|c' d'] Hd Hd' Hr Hr' Heq; simpl in Hd, Hd'.
  - done.
  - change (r = String c' (d' +:+ r')) in Heq. subst r. simpl in Hr. by rewrite Hr in Hd'.
  - change (String c (d +:+ r) = r') in Heq. subst r'. simpl in Hr'. by rewrite Hr' in Hd.
  - rewrite !append_cons in Heq. injection Heq as -> Heq. apply andb_true_iff in Hd as [_ Hd], Hd' as [_ Hd'].
    by destruct (IH d' Hd Hd' Hr Hr' Heq) as [-> ->].
Qed.

Lemma fmt_u64_inj n n' : (n ≤ u64_max)%N → (n' ≤ u64_max)%N → fmt_u64 n = fmt_u64 n' → n = n'.
Proof. intros Hn Hn' Heq. apply (f_equal parse_u64) in Heq. rewrite !parse_fmt_u64 in Heq by done. by simplify_eq. Qed.

Lemma write_int_inj z z' r r' :
  wf_json (JNumber (NInt z)) → wf_json (JNumber (NInt z')) → stops r → stops r' →
  write_number (NInt z) +:+ r = write_number (NInt z') +:+ r' → z = z' ∧ r = r'.
Proof.
  simpl. intros Hz Hz' Hr Hr' Heq.
  destruct (Z.ltb_spec z 0), (Z.ltb_spec z' 0); rewrite ?append_cons in Heq.
  - injection Heq as Heq. apply digits_inj in Heq as [Heq ->]; try done; try apply fmt_u64_digits.
    assert (Z.to_N (- z) = Z.to_N (- z')) by (apply fmt_u64_inj; [unfold u64_max; lia..|done]). split; [lia|done].
  - destruct (fmt_u64_head (Z.to_N z')) as (c & t & Ht & Hc). rewrite Ht in Heq. by injection Heq as <- _.
  - destruct (fmt_u64_head (Z.to_N z)) as (c & t & Ht & Hc). rewrite Ht in Heq. by injection Heq as -> _.
  - apply digits_inj in Heq as [Heq ->]; try done; try apply fmt_u64_digits.
    assert (Z.to_N z = Z.to_N z') by (apply fmt_u64_inj; [unfold u64_max; lia..|done]). split; [lia|done].
Qed.

(** *** Comma-separated lists *)

Definition comma_tail (l : list string) : string := foldr (λ t s, String "," (t +:+ s)) "" l.

Lemma concat_comma t l : String.concat "," (t :: l) = t +:+ comma_tail l.
Proof.
  revert t. induction l as [|u l IH]; intros t; [by rewrite append_nil_r|].
  change (t +:+ "," +:+ String.concat "," (u :: l) = t +:+ String "," (u +:+ comma_tail l)).
  by rewrite IH.
Qed.

Section Items.
Context {A : Type} (w : A → string) (ok : A → Prop) (close : ascii).
Hypothesis Hclose : is_ascii_digit close = false.
Hypothesis Hcomma : close ≠ ","%char.
Hypothesis Hhead : ∀ x, ok x → ∃ c t, w x = String c t ∧ c ≠ close.

Definition decodes (x : A) : Prop := ∀ x' r r',
  ok x' → stops r → stops r' → w x +:+ r = w x' +:+ r' → x = x' ∧ r = r'.

Lemma stops_tail l r : stops (comma_tail l +:+ String close r).
Proof. by destruct l. Qed.

Lemma comma_tail_inj l l' r r' :
  Forall decodes l → Forall ok l' →
  comma_tail (w <$> l) +:+ String close r = comma_tail (w <$> l') +:+ String close r' → l = l' ∧ r = r'.
Proof.
  intros Hl. revert l'. induction Hl as [|x l Hx Hl IH]; intros l' Hl' Heq; destruct Hl' as [|x' l' Hx' Hl']; simpl in Heq.
  - change (String close r = String close r') in Heq. by injection Heq as ->.
  - rewrite append_cons in Heq. by injection Heq as ? _.
  - rewrite append_cons in Heq. by injection Heq as ? _.
  - rewrite !append_cons in Heq. injection Heq as Heq. rewrite !append_assoc in Heq.
    apply Hx in Heq as [-> Heq]; [|done|apply stops_tail|apply stops_tail]. by apply IH in Heq as [-> ->].
Qed.

Lemma items_inj l l' r r' :
  Forall decodes l → Forall ok l → Forall ok l' →
  String.concat "," (w <$> l) +:+ String close r = String.concat "," (w <$> l') +:+ String close r' → l = l' ∧ r = r'.
Proof.
  intros Hl Hok Hok' Heq. destruct Hl as [|x l Hx Hl], Hok' as [|x' l' Hx' Hok'].
  - change (String close r = String close r') in Heq. by injection Heq as ->.
  - rewrite fmap_cons, concat_comma, append_assoc in Heq. destruct (Hhead x' Hx') as (c & t & Ht & Hc).
    rewrite Ht in Heq. by injection Heq as <- _.
  - rewrite fmap_cons, concat_comma, append_assoc in Heq. apply Forall_cons_1 in Hok as [Hxok _].
    destruct (Hhead x Hxok) as (c & t & Ht & Hc). rewrite Ht in Heq. by injection Heq as -> _.
  - rewrite !fmap_cons, !concat_comma, !append_assoc in Heq.
    apply Hx in Heq as [-> Heq]; [|done|apply stops_tail|apply stops_tail].
    apply comma_tail_inj in Heq as [-> ->]; done.
Qed.
End Items.

(** *** Values *)

(** The kind of a value, and of the character its text starts with. *)
Definition kind (v : json) : nat :=
  match v with JNull => 0 | JBool _ => 1 | JNumber _ => 2 | JString _ => 3 | JArray _ => 4 | JObject _ => 5 end.
Definition head_kind (c : ascii) : nat :=
  if decide (c = "n"%char) then 0 else if decide (c = "t"%char ∨ c = "f"%char) then 1
  else if is_ascii_digit c || bool_decide (c = "-"%char) then 2 else if decide (c = char 34) then 3
  else if decide (c = "["%char) then 4 else if decide (c = "{"%char) then 5 else 6.

Lemma head_kind_digit c : is_ascii_digit c = true → head_kind c = 2.
Proof. intros Hc. unfold head_kind. by repeat (rewrite decide_False by naive_solver); rewrite Hc. Qed.

Lemma value_head v : wf_json v → ∃ c t, write_value v = String c t ∧ head_kind c = kind v.
Proof.
  destruct v as [|[]|[z|]|s|l|m]; intros Hwf; try done; try (by eexists _, _). simpl.
  destruct (z <? 0)%Z; [by eexists _, _|]. destruct (fmt_u64_head (Z.to_N z)) as (c & t & -> & Hc).
  exists c, t. split; [done|]. by apply head_kind_digit.
Qed.

Definition write_entry (kv : string * json) : string := write_string kv.1 +:+ ":" +:+ write_value kv.2.

Lemma sort_by_fmap {A C} (f : A → C) (le : A → A → bool) (le' : C → C → bool) l :
  (∀ a b, le' (f a) (f b) = le a b) → sort_by le' (f <$> l) = f <$> sort_by le l.
Proof.
  intros Hle. induction l as [|x l IH]; [done|].
  change (insert_by le' (f x) (sort_by le' (f <$> l)) = f <$> insert_by le x (sort_by le l)). rewrite IH. clear IH.
  induction (sort_by le l) as [|y m IHm]; [done|].
  rewrite fmap_cons. cbn [insert_by]. rewrite Hle. destruct (le x y); [done|]. by rewrite fmap_cons, IHm.
Qed.

Lemma write_object m :
  write_value (JObject m) =
  String "{" (String.concat "," (write_entry <$> sort_by (λ a b, cmp_utf16_le a.1 b.1) m) +:+ String "}" "").
Proof.
  cbn [write_value]. rewrite (sort_by_fmap _ (λ a b, cmp_utf16_le a.1 b.1)) by by intros [] [].
  rewrite <- list_fmap_compose. erewrite (list_fmap_ext _ write_entry); [done|]. by intros ? [].
Qed.

Lemma write_array l : write_value (JArray l) = String "[" (String.concat "," (write_value <$> l) +:+ String "]" "").
Proof. done. Qed.

Lemma write_entry_head kv : ∃ c t, write_entry kv = String c t ∧ c ≠ "}"%char.
Proof. by eexists _, _. Qed.

Lemma entries_decode m :
  Forall (λ kv, wf_json kv.2 ∧ decodes write_value wf_json kv.2) m → Forall (decodes write_entry (λ kv, wf_json kv.2)) m.
Proof.
  intros Hm. eapply Forall_impl; [exact Hm|]. intros [k v] [_ Hv] [k' v'] r r' Hwf Hr Hr' Heq.
  unfold write_entry in Heq. rewrite !append_assoc in Heq. apply write_string_inj in Heq as [Hk Heq].
  simpl in Hk. subst k'. rewrite !append_cons in Heq. injection Heq as Heq.
  by destruct (Hv v' r r' Hwf Hr Hr' Heq) as [<- ->].
Qed.

Lemma sort_by_Forall {A} (le : A → A → bool) (P : A → Prop) l : Forall P l → Forall P (sort_by le l).
Proof. by rewrite sort_by_perm. Qed.

Lemma key_lt_unique {A} (m m' : list (string * A)) :
  StronglySorted key_lt m → StronglySorted key_lt m' → m ≡ₚ m' → m = m'.
Proof.
  intros Hm Hm'. apply (StronglySorted_unique_strong key_lt); [|done|done].
  intros a b _ _ [Hab Hne] [Hba _]. exfalso. apply Hne. by apply bytes_leb_antisym.
Qed.

Lemma write_value_decodes v : wf_json v → decodes write_value wf_json v.
Proof.
  induction v as [|b|n|s|l IH|m IH] using json_nested_ind; intros Hwf v' r r' Hwf' Hr Hr' Heq.
  all: destruct (value_head _ Hwf) as (c & t & Hc & Hk), (value_head _ Hwf') as (c' & t' & Hc' & Hk').
  all: pose proof Heq as Hh; rewrite Hc, Hc' in Hh; injection Hh as -> _; rewrite Hk in Hk'; clear Hk Hc Hc' c' t t'.
  all: destruct v' as [|b'|n'|s'|l'|m']; try done.
  - by injection Heq.
  - destruct b, b'; by injection Heq.
  - destruct n as [z|], n' as [z'|]; try done. by destruct (write_int_inj z z' r r' Hwf Hwf' Hr Hr' Heq) as [-> ->].
  - by apply write_string_inj in Heq as [-> ->].
  - apply wf_array in Hwf, Hwf'. rewrite !write_array, !append_cons in Heq. injection Heq as Heq.
    rewrite !append_assoc in Heq. apply (items_inj write_value wf_json "]") in Heq as [-> ->]; try done.
    + intros x Hx. destruct (value_head x Hx) as (c & t & -> & Hk). exists c, t. split; [done|].
      intros ->. destruct x; done.
    + apply Forall_forall. intros x Hx. rewrite Forall_forall in IH, Hwf. auto.
  - apply wf_object in Hwf as [Hs Hwf], Hwf' as [Hs' Hwf']. rewrite !write_object, !append_cons in Heq.
    injection Heq as Heq. rewrite !append_assoc in Heq.
    apply (items_inj write_entry (λ kv, wf_json kv.2) "}") in Heq as [Heq ->]; try done.
    + split; [|done]. f_equal. apply key_lt_unique; [done..|].
      rewrite <- (sort_by_perm (λ a b, cmp_utf16_le a.1 b.1) m), Heq. apply sort_by_perm.
    + intros kv _. apply write_entry_head.
    + apply sort_by_Forall, entries_decode, Forall_forall. intros x Hx. rewrite Forall_forall in IH, Hwf. auto.
    + by apply sort_by_Forall.
    + by apply sort_by_Forall.
Qed.

Lemma canonicalize_inj v v' : wf_json v → wf_json v' → canonicalize v = canonicalize v' → v = v'.
Proof.
  intros Hwf Hwf' Heq. destruct (write_value_decodes v Hwf v' "" "" Hwf' I I) as [-> _]; [|done].
  rewrite !append_nil_r. exact Heq.
Qed.

End Jcs.
