(* ===== verification/PolicyCapability.v ===== *)
(** * Policy capabilities: tinycloud-core/src/policy_capability/mod.rs

    The resolved authority shape that policies, requests and sessions exchange:
    parsing with its boundary checks, path normalization, canonical bytes and
    hashes, and containment.  NFC normalization and SHA-256 are library code, the
    classes [Nfc] and [Sha256]. *)
From stdpp Require Import sorting.
From S2P Require Import Prelude Str Chars Json Registry SqlCaveat Tables Jcs.

Class Nfc := nfc : string → string.
Class Sha256 := sha256_digest : string → list N.

Definition POLICY_CAPABILITY_DOMAIN : string := "xyz.tinycloud.policy/PolicyCapability/v0" +:+ String (char 0) "".
Definition REQUESTED_CAPABILITIES_DOMAIN : string :=
  "xyz.tinycloud.policy/RequestedCapabilities/v0" +:+ String (char 0) "".

Record PolicyCapability := mkPolicyCapability {
  pc_service : string;
  pc_space : string;
  pc_path : string;
  pc_actions : list string;
  pc_caveats : option json;
}.

Definition ALLOWED_KEYS : list string := ["service"; "space"; "path"; "actions"; "caveats"].
Definition MANIFEST_MARKER_KEYS : list string := ["id"; "scope"; "type"; "actions_short"; "permissions"].

(** ** Paths *)

Definition is_unreserved (c : ascii) : bool :=
  is_ascii_alphanumeric c || bool_decide (c ∈ ["-"; "."; "_"; "~"]%char).

(** A percent sign and two hexadecimal digits are ASCII, so the scan over
    characters is the same scan over bytes. *)
Fixpoint percent_decode_unreserved (s : string) : string :=
  match s with
  | "" => ""
  | String c t =>
      match t with
      | String h (String l r) =>
          match hex_value h, hex_value l with
          | Some hi, Some lo =>
              let d := char (hi * 16 + lo)%N in
              if bool_decide (c = "%"%char) && is_unreserved d
              then String d (percent_decode_unreserved r)
              else String c (percent_decode_unreserved t)
          | _, _ => String c (percent_decode_unreserved t)
          end
      | _ => String c (percent_decode_unreserved t)
      end
  end.

Definition normalize_path `{Nfc} (service path : string) : result RejectionCode string :=
  let normal := nfc (percent_decode_unreserved path) in
  _ ← ensure (negb (bool_decide (".." ∈ split_char "/" normal))) PolicyCapabilityMalformedPath;
  _ ← ensure (negb (bool_decide (service = "tinycloud.sql") && is_empty normal)) PolicyCapabilityMalformedPath;
  Ok normal.

(** ** Parsing *)

Definition check_key (k : string) : result RejectionCode unit :=
  if decide (k ∈ MANIFEST_MARKER_KEYS) then Err PolicyCapabilityMalformed
  else if decide (k ∉ ALLOWED_KEYS) then Err PolicyCapabilityUnknownKey
  else Ok tt.

Definition parse_action (accepted : list string) (a : json) : result RejectionCode string :=
  s ← ok_or (as_str a) PolicyCapabilityMalformedAction;
  _ ← ensure (contains_char "/" s) PolicyCapabilityMalformedActionShortname;
  _ ← ensure (bool_decide (s ∈ accepted)) PolicyCapabilityMalformedAction;
  Ok s.

(** The SQL profile: read actions only, and bound SQL without write keywords. *)
Definition check_sql_caveat (actions : list string) (v : json) : result RejectionCode unit :=
  caveat ← parse_sql_caveat v;
  _ ← for_each (λ a, ensure (bool_decide (a = "tinycloud.sql/read") || bool_decide (a = "tinycloud.sql/select"))
                       PolicyCapabilityMalformed) actions;
  for_each (λ st, ensure (negb (contains_write_keyword (st_sql st))) SqlWriteBlocked) (statements caveat).

Definition parse_caveats (service : string) (actions : list string) (v : option json)
    : result RejectionCode (option json) :=
  match v with
  | None => Ok None
  | Some v =>
      _ ← ensure (bool_decide (is_Some (as_object v))) PolicyCapabilityMalformedCaveats;
      _ ← (if decide (service = "tinycloud.sql") then check_sql_caveat actions v else Ok tt);
      Ok (Some v)
  end.

Definition parse `{Nfc} (input : json) : result RejectionCode PolicyCapability :=
  obj ← ok_or (as_object input) PolicyCapabilityMalformed;
  _ ← for_each check_key obj.*1;
  service ← ok_or (obj_get "service" obj ≫= as_str) PolicyCapabilityMalformedService;
  _ ← ensure (negb (is_empty service || existsb is_whitespace (chars service))) PolicyCapabilityMalformedService;
  accepted ← ok_or (accepted_actions service) PolicyCapabilityMalformedService;
  space ← ok_or (obj_get "space" obj ≫= as_str) PolicyCapabilityMalformedSpace;
  _ ← ensure (negb (is_empty space || contains_char "*" space || contains_char "?" space ||
                    starts_with "manifest:" space)) PolicyCapabilityMalformedSpace;
  raw_path ← ok_or (obj_get "path" obj ≫= as_str) PolicyCapabilityMalformedPath;
  path ← normalize_path service raw_path;
  actions_value ← ok_or (obj_get "actions" obj) PolicyCapabilityEmptyActions;
  actions_arr ← ok_or (as_array actions_value) PolicyCapabilityMalformedAction;
  actions ← try_map (parse_action accepted) actions_arr;
  let actions := dedup (sort_by bytes_leb actions) in
  _ ← ensure (negb (bool_decide (actions = []))) PolicyCapabilityEmptyActions;
  caveats ← parse_caveats service actions (obj_get "caveats" obj);
  Ok (mkPolicyCapability service space path actions caveats).

(** ** Canonical form *)

Definition canonical_value (c : PolicyCapability) : json :=
  let m := obj_insert "actions" (JArray (JString <$> pc_actions c)) [] in
  let m := match pc_caveats c with Some v => obj_insert "caveats" v m | None => m end in
  let m := obj_insert "path" (JString (pc_path c)) m in
  let m := obj_insert "service" (JString (pc_service c)) m in
  JObject (obj_insert "space" (JString (pc_space c)) m).

Definition canonical_bytes `{FloatText} (c : PolicyCapability) : string := canonicalize (canonical_value c).

Definition capability_hash_hex `{FloatText} `{Sha256} (c : PolicyCapability) : string :=
  hex_encode (sha256_digest (POLICY_CAPABILITY_DOMAIN +:+ canonical_bytes c)).

(** [left.get(field).and_then(Value::as_str).unwrap_or("")]. *)
Definition text_field (f : string) (v : json) : string :=
  default "" (m ← as_object v; x ← obj_get f m; as_str x).

(** The comparison of the first field that differs. *)
Fixpoint fields_leb (fields : list string) (a b : json) : bool :=
  match fields with
  | [] => true
  | f :: fields =>
      if decide (text_field f a = text_field f b) then fields_leb fields a b
      else bytes_leb (text_field f a) (text_field f b)
  end.

Definition requested_value (caps : list PolicyCapability) : json :=
  JArray (sort_by (fields_leb ["service"; "space"; "path"]) (canonical_value <$> caps)).

Definition requested_capabilities_hash_hex `{FloatText} `{Sha256} (caps : list PolicyCapability) : string :=
  hex_encode (sha256_digest (REQUESTED_CAPABILITIES_DOMAIN +:+ canonicalize (requested_value caps))).

(** ** Containment *)

Definition caveats_contained (service : string) (auth req : option json) : result RejectionCode unit :=
  match auth, req with
  | None, _ => Ok tt
  | Some _, None => Err ContainmentCaveatRequired
  | Some auth_c, Some req_c =>
      if decide (service = "tinycloud.sql") then
        auth ← parse_sql_caveat auth_c;
        req ← parse_sql_caveat req_c;
        sql_contains auth req
      else Ok tt
  end.

Definition contains (self req : PolicyCapability) : result RejectionCode unit :=
  _ ← ensure (bool_decide (pc_service self = pc_service req)) ContainmentServiceMismatch;
  _ ← ensure (bool_decide (pc_space self = pc_space req)) ContainmentSpaceMismatch;
  _ ← ensure (path_contains (pc_service self) (pc_path self) (pc_path req)) ContainmentPathMismatch;
  let granted := expand_actions (pc_actions self) in
  _ ← for_each (λ a, ensure (bool_decide (resolve_alias a ∈ granted)) ContainmentActionNotSubset) (pc_actions req);
  caveats_contained (pc_service self) (pc_caveats self) (pc_caveats req).

(** ** Containment composes *)

Lemma path_contains_trans service a b c :
  path_contains service a b = true → path_contains service b c = true → path_contains service a c = true.
Proof.
  unfold path_contains. destruct (decide (service = "tinycloud.sql")).
  { rewrite !bool_decide_eq_true. congruence. }
  case_bool_decide as Hab; [by subst|]. case_bool_decide as Hbc; [by subst; rewrite (bool_decide_eq_false_2 _ Hab)|].
  destruct (ends_with_char "/" a) eqn:Ha; [|done]. destruct (ends_with_char "/" b) eqn:Hb; [|done].
  destruct (strip_prefix a b) as [r|] eqn:Hr; [|done]. destruct (strip_prefix b c) as [r'|] eqn:Hr'; [|done].
  apply strip_prefix_Some in Hr as ->, Hr' as ->. intros Hne _. rewrite append_assoc, strip_prefix_app.
  case_bool_decide; [done|]. by destruct r.
Qed.

Lemma caveats_contained_trans service a b c :
  caveats_contained service a b = Ok tt → caveats_contained service b c = Ok tt →
  caveats_contained service a c = Ok tt.
Proof.
  unfold caveats_contained. destruct a as [a|], b as [b|], c as [c|]; try done.
  destruct (decide (service = "tinycloud.sql")); [|done].
  destruct (parse_sql_caveat a) as [pa|]; [|done]. destruct (parse_sql_caveat b) as [pb|]; [|done].
  destruct (parse_sql_caveat c) as [pc|]; [|done]. rewrite !bind_ret_l. apply sql_contains_trans.
Qed.

Definition granted (held : list string) (action : string) : Prop :=
  ∃ h, h ∈ held ∧ ability_matches h action = true.

Lemma granted_spec held action : resolve_alias action ∈ expand_actions held ↔ granted held action.
Proof.
  rewrite expand_actions_spec. unfold granted, reachable_action. by setoid_rewrite ability_matches_spec.
Qed.

Lemma contains_Ok a b :
  contains a b = Ok tt ↔
  pc_service a = pc_service b ∧ pc_space a = pc_space b ∧
  path_contains (pc_service a) (pc_path a) (pc_path b) = true ∧
  (∀ x, x ∈ pc_actions b → granted (pc_actions a) x) ∧
  caveats_contained (pc_service a) (pc_caveats a) (pc_caveats b) = Ok tt.
Proof.
  unfold contains. rewrite bind_Ok. setoid_rewrite bind_Ok. setoid_rewrite bind_Ok. setoid_rewrite bind_Ok.
  setoid_rewrite ensure_Ok. setoid_rewrite bool_decide_eq_true. split.
  - intros (_ & ? & _ & ? & _ & ? & [] & Hacts & ?). split_and!; try done. rewrite for_each_Ok in Hacts.
    intros x Hx%Hacts%ensure_Ok%bool_decide_eq_true. by apply granted_spec.
  - intros (? & ? & ? & Hacts & ?). exists tt. split; [done|]. exists tt. split; [done|]. exists tt. split; [done|].
    exists tt. split; [|done]. apply for_each_Ok. intros x Hx. apply ensure_Ok, bool_decide_eq_true.
    by apply granted_spec, Hacts.
Qed.

Lemma contains_trans a b c : contains a b = Ok tt → contains b c = Ok tt → contains a c = Ok tt.
Proof.
  rewrite !contains_Ok. intros (Hs & Hsp & Hp & Ha & Hc) (Hs' & Hsp' & Hp' & Ha' & Hc').
  rewrite <- Hs in Hp', Hc'. split_and!; [congruence|congruence|by eapply path_contains_trans| |by eapply caveats_contained_trans].
  intros x (y & Hy & Hyx)%Ha'. destruct (Ha y Hy) as (h & Hh & Hhy). exists h. split; [done|].
  by eapply ability_matches_trans.
Qed.

(** ** Canonical forms *)

Lemma canonical_value_eq c :
  canonical_value c =
  JObject (("actions", JArray (JString <$> pc_actions c)) ::
           (match pc_caveats c with Some v => [("caveats", v)] | None => [] end) ++
           [("path", JString (pc_path c)); ("service", JString (pc_service c)); ("space", JString (pc_space c))]).
Proof. unfold canonical_value. by destruct (pc_caveats c). Qed.

#[export] Instance canonical_value_inj : Inj (=) (=) canonical_value.
Proof.
  intros [s sp p a c] [s' sp' p' a' c']. rewrite !canonical_value_eq. simpl. intros Heq.
  assert (∀ l l' : list string, JString <$> l = JString <$> l' → l = l') as Hstr.
  { intros l. induction l as [|x l IH]; intros [|y l'] Hl; try done. injection Hl as -> Hl. f_equal. auto. }
  destruct c, c'; simplify_eq/=; f_equal; auto.
Qed.

(** Caveats with integer numbers and keys in order, as [serde_json] keeps them. *)
Definition wf_capability (c : PolicyCapability) : Prop :=
  match pc_caveats c with Some v => wf_json v | None => True end.

Lemma canonical_value_wf c : wf_capability c → wf_json (canonical_value c).
Proof.
  unfold wf_capability. intros Hc. rewrite canonical_value_eq. apply wf_object. split.
  - destruct (pc_caveats c); repeat constructor; by vm_compute.
  - apply Forall_cons. split.
    { apply wf_array, Forall_fmap, Forall_forall. done. }
    destruct (pc_caveats c); repeat constructor. done.
Qed.

Definition capability_key (c : PolicyCapability) : string * string * string :=
  (pc_service c, pc_space c, pc_path c).

Lemma text_field_canonical c :
  text_field "service" (canonical_value c) = pc_service c ∧
  text_field "space" (canonical_value c) = pc_space c ∧
  text_field "path" (canonical_value c) = pc_path c.
Proof. rewrite canonical_value_eq. by destruct (pc_caveats c). Qed.

Lemma fields_leb_total fields a b : fields_leb fields a b = true ∨ fields_leb fields b a = true.
Proof.
  induction fields as [|f fields IH]; simpl; [by left|].
  destruct (decide (text_field f a = text_field f b)) as [He|Hne].
  - by rewrite (decide_True _ _ (eq_sym He)).
  - rewrite decide_False by congruence. apply bytes_leb_total.
Qed.

Lemma fields_leb_trans fields a b c :
  fields_leb fields a b = true → fields_leb fields b c = true → fields_leb fields a c = true.
Proof.
  induction fields as [|f fields IH]; simpl; [done|].
  destruct (decide (text_field f a = text_field f b)) as [Hab|Hab], (decide (text_field f b = text_field f c)) as [Hbc|Hbc].
  - rewrite decide_True by congruence. auto.
  - rewrite decide_False by congruence. by rewrite Hab.
  - rewrite decide_False by congruence. by rewrite <- Hbc.
  - intros H1 H2. destruct (decide (text_field f a = text_field f c)) as [Hac|Hac]; [|by eapply bytes_leb_trans].
    exfalso. apply Hab. apply bytes_leb_antisym; [done|]. by rewrite Hac.
Qed.

Lemma fields_leb_antisym fields a b :
  fields_leb fields a b = true → fields_leb fields b a = true → Forall (λ f, text_field f a = text_field f b) fields.
Proof.
  induction fields as [|f fields IH]; simpl; [constructor|].
  destruct (decide (text_field f a = text_field f b)) as [He|Hne].
  - rewrite (decide_True _ _ (eq_sym He)). auto.
  - rewrite decide_False by congruence. intros. exfalso. by apply Hne, bytes_leb_antisym.
Qed.

(** Sorting forgets the order of capabilities with different keys. *)
Lemma requested_value_perm l l' :
  NoDup (capability_key <$> l) → l ≡ₚ l' → requested_value l = requested_value l'.
Proof.
  intros Hnd Hp. unfold requested_value. f_equal.
  set (le := fields_leb ["service"; "space"; "path"]).
  assert (∀ m, StronglySorted (λ a b, le a b = true) (sort_by le m)) as Hsort.
  { intros m. apply Sorted_StronglySorted; [|apply sort_by_sorted, fields_leb_total].
    intros a b c. apply fields_leb_trans. }
  apply (StronglySorted_unique_strong (λ a b, le a b = true)); [|apply Hsort..|by rewrite !sort_by_perm, Hp].
  intros a b Ha Hb Hab Hba. rewrite sort_by_perm in Ha, Hb. rewrite <- Hp in Hb.
  apply list_elem_of_fmap in Ha as (x & -> & Hx), Hb as (y & -> & Hy). f_equal.
  pose proof (fields_leb_antisym _ _ _ Hab Hba) as Hf.
  destruct (text_field_canonical x) as (Hx1 & Hx2 & Hx3), (text_field_canonical y) as (Hy1 & Hy2 & Hy3).
  apply list_elem_of_lookup in Hx as [i Hi], Hy as [j Hj].
  assert (i = j) as ->; [|congruence].
  eapply NoDup_lookup; [exact Hnd| |]; rewrite list_lookup_fmap; [by rewrite Hi|]. rewrite Hj. simpl. f_equal.
  rewrite !Forall_cons in Hf. destruct Hf as (? & ? & ? & _). unfold capability_key. congruence.
Qed.

Lemma requested_value_inj l l' : requested_value l = requested_value l' → l ≡ₚ l'.
Proof.
  unfold requested_value. generalize (fields_leb ["service"; "space"; "path"]). intros le Heq. injection Heq as Heq.
  assert (canonical_value <$> l ≡ₚ canonical_value <$> l') as Hp.
  { by rewrite <- (sort_by_perm le (_ <$> l)), Heq, sort_by_perm. }
  by apply (fmap_perm_inj canonical_value) in Hp.
Qed.

Lemma requested_value_wf l : Forall wf_capability l → wf_json (requested_value l).
Proof.
  intros Hl. apply wf_array. rewrite sort_by_perm. apply Forall_fmap.
  eapply Forall_impl; [exact Hl|]. apply canonical_value_wf.
Qed.

(** ** What parsing yields *)

Lemma percent_decode_plain s : contains_char "%" s = false → percent_decode_unreserved s = s.
Proof.
  induction s as [|c s IH]; intros Hs; [done|]. rewrite contains_char_cons in Hs. apply orb_false_iff in Hs as [Hc Hs].
  specialize (IH Hs). cbn [percent_decode_unreserved]. destruct s as [|h [|l r]]; [done|by rewrite IH|].
  rewrite bool_decide_eq_false in Hc. rewrite (bool_decide_eq_false_2 (c = "%"%char)) by congruence. simpl andb.
  destruct (hex_value h), (hex_value l); by rewrite IH.
Qed.

Lemma parse_action_Ok accepted a s :
  parse_action accepted a = Ok s ↔ a = JString s ∧ contains_char "/" s = true ∧ s ∈ accepted.
Proof.
  unfold parse_action. split.
  - intros Ha. ok_inv. apply bool_decide_eq_true in H1. destruct a; simplify_eq/=. done.
  - intros (-> & Hs & Hin). cbn [as_str ok_or]. rewrite bind_ret_l, Hs, ensure_true, bind_ret_l.
    rewrite bool_decide_eq_true_2 by done. by rewrite ensure_true, bind_ret_l.
Qed.

Section Parse.
Context `{Nfc}.

(** The checks a parsed capability has passed. *)
Record parsed (c : PolicyCapability) : Prop := {
  parsed_service : negb (is_empty (pc_service c) || existsb is_whitespace (chars (pc_service c))) = true;
  parsed_accepted : ∃ l, accepted_actions (pc_service c) = Some l ∧
    Forall (λ a, contains_char "/" a = true ∧ a ∈ l) (pc_actions c);
  parsed_space : negb (is_empty (pc_space c) || contains_char "*" (pc_space c) || contains_char "?" (pc_space c) ||
                       starts_with "manifest:" (pc_space c)) = true;
  parsed_path : ∃ raw, normalize_path (pc_service c) raw = Ok (pc_path c);
  parsed_actions : pc_actions c ≠ [] ∧ dedup (sort_by bytes_leb (pc_actions c)) = pc_actions c;
  parsed_caveats : parse_caveats (pc_service c) (pc_actions c) (pc_caveats c) = Ok (pc_caveats c);
}.

Lemma sorted_actions l : dedup (sort_by bytes_leb (dedup (sort_by bytes_leb l))) = dedup (sort_by bytes_leb l).
Proof.
  rewrite (sort_by_id bytes_leb (dedup _)), dedup_idem; [done|]. apply dedup_sorted, sort_by_sorted, bytes_leb_total.
Qed.

Lemma parse_caveats_Ok service actions v w : parse_caveats service actions v = Ok w → v = w.
Proof. unfold parse_caveats. destruct v; intros Hp; ok_inv; done. Qed.

Lemma parse_Ok input c : parse input = Ok c → parsed c.
Proof.
  unfold parse. intros Hp.
  apply bind_Ok in Hp as (obj & _ & Hp). apply bind_Ok in Hp as (_ & _ & Hp).
  apply bind_Ok in Hp as (service & _ & Hp). apply bind_Ok in Hp as (_ & Hs%ensure_Ok & Hp).
  apply bind_Ok in Hp as (accepted & Hacc%ok_or_Ok & Hp). apply bind_Ok in Hp as (space & _ & Hp).
  apply bind_Ok in Hp as (_ & Hsp%ensure_Ok & Hp). apply bind_Ok in Hp as (raw & _ & Hp).
  apply bind_Ok in Hp as (path & Hpath & Hp). apply bind_Ok in Hp as (av & _ & Hp).
  apply bind_Ok in Hp as (arr & _ & Hp). apply bind_Ok in Hp as (acts & Hacts%try_map_Ok & Hp).
  apply bind_Ok in Hp as (_ & Hne%ensure_Ok & Hp). apply bind_Ok in Hp as (cav & Hcav & Hp).
  injection Hp as <-. pose proof (parse_caveats_Ok _ _ _ _ Hcav) as Heq. rewrite Heq in Hcav.
  split; simpl; try done.
  - exists accepted. split; [done|]. apply Forall_forall. intros a Ha. rewrite elem_of_dedup, sort_by_perm in Ha.
    apply list_elem_of_lookup in Ha as [i Hi]. destruct (Forall2_lookup_r _ _ _ _ _ Hacts Hi) as (x & _ & Hx).
    by apply parse_action_Ok in Hx as (_ & ? & ?).
  - by exists raw.
  - split; [|apply sorted_actions]. by apply negb_true_iff, bool_decide_eq_false in Hne.
Qed.

Lemma parse_canonical c :
  parsed c → normalize_path (pc_service c) (pc_path c) = Ok (pc_path c) → parse (canonical_value c) = Ok c.
Proof.
  intros [Hs (l & Hl & Hacts) Hsp _ [Hne Hsorted] Hcav] Hpath. rewrite canonical_value_eq. unfold parse.
  set (obj := _ :: _). assert (for_each check_key obj.*1 = Ok tt) as Hkeys.
  { unfold obj. destruct (pc_caveats c); by vm_compute. }
  assert (obj_get "service" obj = Some (JString (pc_service c)) ∧ obj_get "space" obj = Some (JString (pc_space c)) ∧
    obj_get "path" obj = Some (JString (pc_path c)) ∧ obj_get "actions" obj = Some (JArray (JString <$> pc_actions c)) ∧
    obj_get "caveats" obj = pc_caveats c) as (H1 & H2 & H3 & H4 & H5).
  { unfold obj. by destruct (pc_caveats c). }
  clearbody obj. apply (bind_step _ _ obj); [done|]. apply (bind_step _ _ tt); [done|].
  apply (bind_step _ _ (pc_service c)); [by rewrite H1|]. apply (bind_step _ _ tt); [by rewrite Hs|].
  apply (bind_step _ _ l); [by rewrite Hl|]. apply (bind_step _ _ (pc_space c)); [by rewrite H2|].
  apply (bind_step _ _ tt); [by rewrite Hsp|]. apply (bind_step _ _ (pc_path c)); [by rewrite H3|].
  apply (bind_step _ _ (pc_path c)); [done|].
  apply (bind_step _ _ (JArray (JString <$> pc_actions c))); [by rewrite H4|].
  apply (bind_step _ _ (JString <$> pc_actions c)); [done|]. apply (bind_step _ _ (pc_actions c)).
  { apply try_map_Ok, Forall2_fmap_l, Forall_Forall2_diag. eapply Forall_impl; [exact Hacts|].
    intros a [??]. by apply parse_action_Ok. }
  rewrite Hsorted. apply (bind_step _ _ tt); [by rewrite bool_decide_eq_false_2|].
  apply (bind_step _ _ (pc_caveats c)); [by rewrite H5|]. by destruct c.
Qed.

End Parse.

(** ** Claims *)

(** Containment of policy capabilities only narrows and composes: what a
    capability contains is on the same service and space, on a path it covers,
    with actions each implied by one of its own; and it contains whatever that
    capability contains in turn. *)
Theorem policy_contains_attenuates (a b c : PolicyCapability) :
  contains a b = Ok tt → contains b c = Ok tt →
  contains a c = Ok tt ∧ pc_service c = pc_service a ∧ pc_space c = pc_space a ∧
  path_contains (pc_service a) (pc_path a) (pc_path c) = true ∧
  (∀ x, x ∈ pc_actions c → ∃ h, h ∈ pc_actions a ∧ ability_matches h x = true) ∧
  (is_Some (pc_caveats a) → is_Some (pc_caveats c)).
Proof.
  intros Hab Hbc. pose proof (contains_trans _ _ _ Hab Hbc) as Hac. split; [done|].
  apply contains_Ok in Hac as (? & ? & ? & Hacts & Hcav). split_and!; try done.
  intros [v Hv]. rewrite Hv in Hcav. by destruct (pc_caveats c).
Qed.

(** The hash input of requested capabilities is canonical: for capabilities on
    pairwise different resources, two requests have the same canonical bytes
    exactly when they ask for the same capabilities, in any order. *)
Theorem requested_capabilities_canonical `{FloatText} (l l' : list PolicyCapability) :
  Forall wf_capability l → Forall wf_capability l' → NoDup (capability_key <$> l) →
  canonicalize (requested_value l) = canonicalize (requested_value l') ↔ l ≡ₚ l'.
Proof.
  intros Hl Hl' Hnd. split; [|intros Hp; by rewrite (requested_value_perm l l')].
  intros Heq%canonicalize_inj; [|by apply requested_value_wf..]. by apply requested_value_inj.
Qed.

(** A parsed capability is its own canonical form: when its path has no
    percent sign and NFC normalization is idempotent, parsing its canonical value
    gives it back, so hashing and storing the canonical value loses nothing. *)
Theorem policy_parse_roundtrip `{Nfc} (input : json) (c : PolicyCapability) :
  (∀ s, nfc (nfc s) = nfc s) → parse input = Ok c → contains_char "%" (pc_path c) = false →
  parse (canonical_value c) = Ok c.
Proof.
  intros Hnfc Hp%parse_Ok Hpct. apply parse_canonical; [done|]. destruct (parsed_path c Hp) as [raw Hraw].
  apply bind_Ok in Hraw as ([] & Hseg & Hraw). apply bind_Ok in Hraw as ([] & Hsql & Hraw). injection Hraw as Hraw.
  rewrite Hraw in Hseg, Hsql. unfold normalize_path. rewrite percent_decode_plain by done.
  assert (nfc (pc_path c) = pc_path c) as -> by (by rewrite <- Hraw, Hnfc).
  by rewrite Hseg, bind_ret_l, Hsql, bind_ret_l.
Qed.

(** ** Witnesses *)

Definition demo_nfc : Nfc := λ s, s.
Definition demo_float : FloatText := λ _, "0.5".
#[local] Existing Instances demo_nfc demo_float.

Definition demo_policy (path : string) (actions : list string) : PolicyCapability :=
  mkPolicyCapability "tinycloud.kv" "did:key:owner:main" path actions None.

Lemma policy_contains_attenuates_witness :
  contains (demo_policy "docs/" ["tinycloud.kv/del"; "tinycloud.kv/get"]) (demo_policy "docs/a/b" ["tinycloud.kv/delete"]) = Ok tt.
Proof.
  apply (policy_contains_attenuates _ (demo_policy "docs/a/" ["tinycloud.kv/del"])); by vm_compute.
Defined.

Lemma requested_capabilities_canonical_witness :
  canonicalize (requested_value [demo_policy "b" ["tinycloud.kv/get"]; demo_policy "a" ["tinycloud.kv/put"]]) =
  canonicalize (requested_value [demo_policy "a" ["tinycloud.kv/put"]; demo_policy "b" ["tinycloud.kv/get"]]).
Proof.
  apply requested_capabilities_canonical; [by repeat constructor..| |apply Permutation_swap].
  apply NoDup_cons. split; [|apply NoDup_singleton]. rewrite list_elem_of_singleton. done.
Defined.

Definition demo_policy_json (path : string) : json :=
  JObject [("actions", JArray [JString "tinycloud.kv/put"; JString "tinycloud.kv/get"; JString "tinycloud.kv/put"]);
           ("path", JString path); ("service", JString "tinycloud.kv"); ("space", JString "did:key:owner:main")].

Lemma policy_parse_roundtrip_witness :
  parse (canonical_value (demo_policy "docs/a" ["tinycloud.kv/get"; "tinycloud.kv/put"])) =
  Ok (demo_policy "docs/a" ["tinycloud.kv/get"; "tinycloud.kv/put"]).
Proof.
  apply (policy_parse_roundtrip (demo_policy_json "docs/%61")); by vm_compute.
Defined.

(** Path normalization is not stable: it decodes once, so the normal form of a
    path can hold a percent escape again.  A capability on such a path is
    accepted, and its own canonical value is refused, because decoding once more
    yields the dot segments the check refuses. *)
Theorem normalized_path_unstable :
  parse (demo_policy_json "%%32%45%%32%45") =
    Ok (demo_policy "%2E%2E" ["tinycloud.kv/get"; "tinycloud.kv/put"]) ∧
  parse (canonical_value (demo_policy "%2E%2E" ["tinycloud.kv/get"; "tinycloud.kv/put"])) =
    Err PolicyCapabilityMalformedPath.
Proof. by vm_compute. Qed.

(** The hash input of requested capabilities depends on the order of two
    capabilities on the same resource, although they are sorted to be canonical:
    the sort compares service, space and path only. *)
Theorem requested_order_matters :
  let a := demo_policy "docs/" ["tinycloud.kv/get"] in
  let b := demo_policy "docs/" ["tinycloud.kv/put"] in
  canonicalize (requested_value [a; b]) ≠ canonicalize (requested_value [b; a]).
Proof. by vm_compute. Qed.
