(* ===== verification/Evidence.v ===== *)
(** * Email evidence: tinycloud-auth/src/share_email_evidence.rs

    The registry of trusted issuer keys, the SD-JWT credential that discloses an
    email address to a holder, the holder's binding artifact, the strict JSON
    reader and the JSON canonicalizer of this crate.  Base64, multibase and
    Ed25519 come from crates and are parameters ([EvidenceLib]). *)
From stdpp Require Import sorting.
From S2P Require Import Prelude Str Chars Json Tables Jcs PolicyCapability.

(** [URL_SAFE_NO_PAD], [multibase::decode] and [ssi]'s verification of an Ed25519
    signature, on byte strings. *)
Class EvidenceLib := {
  b64url_encode : string → string;
  b64url_decode : string → option string;
  multibase_decode : string → option string;
  ed25519_verify : string → string → string → bool;
}.

Definition EMAIL_VCT : string := "opencredentials.email/v1".
Definition EDDSA : string := "EdDSA".
Definition SD_ALG : string := "sha-256".
Definition HOLDER_BINDING_DOMAIN : string := "xyz.tinycloud.share/email-claim-holder-binding/v1" +:+ String (char 0) "".
Definition HOLDER_BINDING_NAME : string := "holderBinding".
Definition MAX_CREDENTIAL_BYTES : N := 65536.
Definition MAX_SAFE_INTEGER : Z := 9007199254740991.

Inductive EvidenceError :=
| Invalid | UntrustedIssuer | AmbiguousIssuerKey | DisabledIssuerKey | InvalidSignature | InvalidHolderProof
| CredentialNotActive | CredentialExpired | SubjectMismatch | EmailMismatch | ScopeMismatch | HolderEquationMismatch
| UnsupportedCryptography.

(** ** Email addresses *)

Fixpoint count_char (c : ascii) (s : string) : nat :=
  match s with "" => 0 | String d s => (if bool_decide (d = c) then 1 else 0) + count_char c s end.

Definition starts_with_char (c : ascii) (s : string) : bool :=
  match s with String d _ => bool_decide (d = c) | "" => false end.

Definition local_char (c : ascii) : bool := is_ascii_alphanumeric c || contains_char c "!#$%&'*+-/=?^_`{|}~.".
Definition label_char (c : ascii) : bool := is_ascii_alphanumeric c || bool_decide (c = "-"%char).

Definition valid_local (local : string) : bool :=
  negb (is_empty local) && (String.length local <=? 64) && negb (starts_with_char "." local) &&
  negb (ends_with_char "." local) && negb (contains_str ".." local) && forall_char local_char local.

Definition valid_label (label : string) : bool :=
  negb (is_empty label) && (String.length label <=? 63) && negb (starts_with_char "-" label) &&
  negb (ends_with_char "-" label) && forall_char label_char label.

(** The domain is folded to lower case, the local part kept. *)
Definition normalize_email (input : string) : result EvidenceError string :=
  _ ← ensure (is_ascii input && (String.length input <=? 254)) Invalid;
  '(local, domain) ← ok_or (split_once "@" input) Invalid;
  _ ← ensure (valid_local local && negb (is_empty domain) && (String.length domain <=? 253) &&
              (count_char "@" input =? 1)) Invalid;
  _ ← ensure (forallb valid_label (split_char "." domain)) Invalid;
  Ok (local +:+ String "@" (to_ascii_lowercase domain)).

(** ** Trusted issuer keys *)

Record IssuerKey := mkIssuerKey {
  ik_issuer : string; ik_vct : string; ik_version : N; ik_kid : string; ik_public_key : string; ik_enabled : bool;
}.

#[export] Instance IssuerKey_eq_dec : EqDecision IssuerKey.
Proof. solve_decision. Defined.

(** [IssuerKey::new]: a new key is enabled. *)
Definition IssuerKey_new (issuer vct : string) (version : N) (kid public_key : string) : IssuerKey :=
  mkIssuerKey issuer vct version kid public_key true.

(** [BTreeMap<(issuer, vct, kid), IssuerKey>]. *)
Notation IssuerTrustRegistry := (gmap (string * string * string) IssuerKey).

Definition lookup_of (k : IssuerKey) : string * string * string := (ik_issuer k, ik_vct k, ik_kid k).

Definition registry_insert (r : IssuerTrustRegistry) (key : IssuerKey) : result EvidenceError IssuerTrustRegistry :=
  _ ← ensure (negb (is_empty (ik_issuer key)) && bool_decide (ik_vct key = EMAIL_VCT) && negb (is_empty (ik_kid key)) &&
              negb (ik_version key =? 0)%N && (length (split_char "#" (ik_kid key)) =? 2)) Invalid;
  _ ← (match r !! lookup_of key with
       | Some previous => ensure (ik_version previous <? ik_version key)%N Invalid
       | None => Ok tt
       end);
  Ok (<[lookup_of key := key]> r).

Fixpoint insert_all (r : IssuerTrustRegistry) (keys : list IssuerKey) : result EvidenceError IssuerTrustRegistry :=
  match keys with [] => Ok r | k :: keys => r ← registry_insert r k; insert_all r keys end.
Definition registry_new (keys : list IssuerKey) : result EvidenceError IssuerTrustRegistry := insert_all ∅ keys.

Definition registry_remove (r : IssuerTrustRegistry) (issuer vct kid : string) : bool * IssuerTrustRegistry :=
  (bool_decide (is_Some (r !! (issuer, vct, kid))), delete (issuer, vct, kid) r).

Definition disabled (k : IssuerKey) : IssuerKey :=
  mkIssuerKey (ik_issuer k) (ik_vct k) (ik_version k) (ik_kid k) (ik_public_key k) false.

Definition registry_disable (r : IssuerTrustRegistry) (issuer vct kid : string) : bool * IssuerTrustRegistry :=
  match r !! (issuer, vct, kid) with
  | Some k => (true, <[(issuer, vct, kid) := disabled k]> r)
  | None => (false, r)
  end.

(** The old key stays disabled when the insertion of the new one fails. *)
Definition registry_rotate (r : IssuerTrustRegistry) (issuer vct old_kid : string) (new_key : IssuerKey)
    : result EvidenceError unit * IssuerTrustRegistry :=
  let guard :=
    _ ← ensure (bool_decide (ik_issuer new_key = issuer) && bool_decide (ik_vct new_key = vct)) Invalid;
    old ← ok_or (r !! (issuer, vct, old_kid)) UntrustedIssuer;
    ensure (ik_version old <? ik_version new_key)%N Invalid in
  match guard with
  | Err e => (Err e, r)
  | Ok _ =>
      let r := (registry_disable r issuer vct old_kid).2 in
      match registry_insert r new_key with
      | Ok r' => (Ok tt, r')
      | Err e => (Err e, r)
      end
  end.

Definition keys_of (r : IssuerTrustRegistry) (issuer vct : string) : list IssuerKey :=
  List.filter (λ k, bool_decide (ik_issuer k = issuer) && bool_decide (ik_vct k = vct)) (snd <$> map_to_list r).

Definition active_key (r : IssuerTrustRegistry) (issuer vct : string) : result EvidenceError IssuerKey :=
  match List.filter ik_enabled (keys_of r issuer vct) with
  | [] => if bool_decide (keys_of r issuer vct = []) then Err UntrustedIssuer else Err DisabledIssuerKey
  | [key] => Ok key
  | _ => Err AmbiguousIssuerKey
  end.

(** ** Strict JSON *)

Fixpoint strict_value (r : raw) : result EvidenceError json :=
  match r with
  | RNull => Ok JNull
  | RBool b => Ok (JBool b)
  | RInt z => Ok (JNumber (NInt z))
  | RFloat _ => Err Invalid
  | RString s => Ok (JString s)
  | RArray l closed => vs ← try_map strict_value l; _ ← ensure closed Invalid; Ok (JArray vs)
  | RObject m closed =>
      (fix go m values :=
         match m with
         | [] => _ ← ensure closed Invalid; Ok (JObject values)
         | (key, r) :: m =>
             v ← strict_value r;
             _ ← ensure (bool_decide (obj_get key values = None)) Invalid;
             go m (obj_insert key v values)
         end) m []
  | RBad => Err Invalid
  end.

Definition exact_object (v : json) : result EvidenceError (list (string * json)) := ok_or (as_object v) Invalid.

Definition require_exact_keys (object : list (string * json)) (expected : list string) : result EvidenceError unit :=
  ensure (bool_decide (length object = length expected) && forallb (λ kv, bool_decide (kv.1 ∈ expected)) object) Invalid.

Definition required_string (object : list (string * json)) (key : string) : result EvidenceError string :=
  ok_or (obj_get key object ≫= as_str) Invalid.

Definition required_integer (object : list (string * json)) (key : string) : result EvidenceError Z :=
  value ← ok_or (obj_get key object ≫= as_i64) Invalid;
  _ ← ensure (Z.abs value <=? MAX_SAFE_INTEGER)%Z Invalid;
  Ok value.

(** [write_jcs]: entries are ordered by key, which ordering them with their texts
    already written does not change. *)
Definition jcs_number (n : Number) : result EvidenceError string :=
  match n with
  | NInt z =>
      _ ← ensure ((- 2 ^ 63 <=? z) && (z <? 2 ^ 63) && (Z.abs z <=? MAX_SAFE_INTEGER))%Z Invalid;
      Ok (if (z <? 0)%Z then String "-" (fmt_u64 (Z.to_N (- z))) else fmt_u64 (Z.to_N z))
  | NFloat _ => Err Invalid
  end.

Definition by_utf16 {A} : list (string * A) → list (string * A) := sort_by (λ a b, cmp_utf16_le a.1 b.1).

Fixpoint write_jcs (v : json) : result EvidenceError string :=
  match v with
  | JNull => Ok "null"
  | JBool b => Ok (if b then "true" else "false")
  | JNumber n => jcs_number n
  | JString s => Ok (write_string s)
  | JArray l => ts ← try_map write_jcs l; Ok ("[" +:+ String.concat "," ts +:+ "]")
  | JObject m =>
      entries ← try_map (λ '(k, v), t ← write_jcs v; Ok (k, t)) m;
      Ok ("{" +:+ String.concat "," ((λ '(k, t), write_string k +:+ ":" +:+ t) <$> by_utf16 entries) +:+ "}")
  end.
Definition jcs : json → result EvidenceError string := write_jcs.

(** [str::from_utf8]. *)
Definition cont (lo hi : N) (c : ascii) : bool := ((lo <=? code c) && (code c <=? hi))%N.
Fixpoint utf8_valid (s : string) : bool :=
  match s with
  | "" => true
  | String a s =>
      if (code a <? 128)%N then utf8_valid s
      else match s with
           | String b s1 =>
               if cont 194 223 a then cont 128 191 b && utf8_valid s1
               else match s1 with
                    | String d s2 =>
                        if cont 224 239 a then
                          cont (if (code a =? 224)%N then 160 else 128) (if (code a =? 237)%N then 159 else 191) b &&
                          cont 128 191 d && utf8_valid s2
                        else match s2 with
                             | String e s3 =>
                                 cont 240 244 a &&
                                 cont (if (code a =? 240)%N then 144 else 128) (if (code a =? 244)%N then 143 else 191) b &&
                                 cont 128 191 d && cont 128 191 e && utf8_valid s3
                             | "" => false
                             end
                    | "" => false
                    end
           | "" => false
           end
  end.

(** ** Signatures *)

(** The bytes of the group order, most significant first. *)
Definition GROUP_ORDER : list N :=
  [16; 0; 0; 0; 0; 0; 0; 0; 0; 0; 0; 0; 0; 0; 0; 0; 20; 222; 249; 222; 162; 247; 156; 214; 88; 18; 99; 26; 92; 245; 211; 237]%N.

(** [Iterator::cmp] is [Less]. *)
Fixpoint bytes_lt (a b : list N) : bool :=
  match a, b with
  | [], _ :: _ => true
  | x :: a, y :: b => (x <? y)%N || ((x =? y)%N && bytes_lt a b)
  | _, [] => false
  end.

Definition canonical_signature_s (signature : string) : bool :=
  bool_decide (String.length signature = 64) && bytes_lt (rev (drop 32 (string_bytes signature))) GROUP_ORDER.

Section Evidence.
Context `{Sha256} `{EvidenceLib} `{JsonText}.

Definition sha256_bytes (s : string) : string := bytes_string (sha256_digest s).
Definition sha256_b64 (s : string) : string := b64url_encode (sha256_bytes s).

Definition normalized_email_hash (input : string) : result EvidenceError string :=
  e ← normalize_email input; Ok (sha256_b64 e).

Definition decode_b64 (value : string) : result EvidenceError string :=
  bytes ← ok_or (b64url_decode value) Invalid;
  _ ← ensure (bool_decide (b64url_encode bytes = value)) Invalid;
  Ok bytes.

Definition decode_exact_b64 (value : string) (len : nat) : result EvidenceError string :=
  bytes ← ok_or (b64url_decode value) Invalid;
  _ ← ensure (bool_decide (String.length bytes = len) && bool_decide (b64url_encode bytes = value)) Invalid;
  Ok bytes.

Definition parse_strict_json (bytes : string) : result EvidenceError json :=
  let '(r, ended) := json_read bytes in
  v ← strict_value r;
  _ ← ensure ended Invalid;
  Ok v.

Definition decode_json (encoded : string) : result EvidenceError json :=
  bytes ← decode_b64 encoded; parse_strict_json bytes.

Definition did_key_public_key (did : string) : result EvidenceError string :=
  encoded ← ok_or (strip_prefix "did:key:z" did) Invalid;
  bytes ← ok_or (multibase_decode (String "z" encoded)) Invalid;
  _ ← ensure (bool_decide (String.length bytes = 34) && bool_decide (String.substring 0 2 bytes = bytes_string [237; 1]%N))
        Invalid;
  Ok (String.substring 2 32 bytes).

Definition canonical_kid (did : string) : result EvidenceError string :=
  fragment ← ok_or (strip_prefix "did:key:" did) Invalid; Ok (did +:+ String "#" fragment).

Definition verify_ed25519 (public_key message signature : string) : result EvidenceError unit :=
  _ ← ensure (canonical_signature_s signature) InvalidSignature;
  ensure (ed25519_verify public_key message signature) InvalidSignature.

Definition verify_detached_ed25519 (signer_did message signature : string) : result EvidenceError unit :=
  key ← did_key_public_key signer_did; verify_ed25519 key message signature.

Definition enforce_holder_equation (first : string) (rest : list string) : result EvidenceError string :=
  _ ← ensure (forallb (λ v, bool_decide (v = first)) rest && is_ok (did_key_public_key first)) HolderEquationMismatch;
  Ok first.

(** ** Credentials *)

Record CredentialScope := mkCredentialScope {
  cs_share_cid : string; cs_share_id : string; cs_policy_cid : string; cs_node_audience : string;
}.
Record VerificationTime := mkVerificationTime {
  vt_evaluation : Z; vt_skew : Z; vt_expected_expiry : option Z;
}.
Record VerifiedEmailEvidence := mkVerifiedEmailEvidence {
  ve_issuer : string; ve_issuer_kid : string; ve_subject : string; ve_email : string; ve_digest : string; ve_expires_at : Z;
}.

Definition EXPECTED_CLAIMS : list string :=
  ["iss"; "sub"; "iat"; "nbf"; "exp"; "jti"; "vct"; "tinycloud_share"; "_sd_alg"; "_sd"].
Definition SCOPE_KEYS : list string := ["share_cid"; "share_id"; "policy_cid"; "node_audience"].

(** [i64::checked_add] and [checked_sub]. *)
Definition checked_i64 (z : Z) : option Z := if bool_decide (- 2 ^ 63 ≤ z < 2 ^ 63)%Z then Some z else None.

Definition string_is (object : list (string * json)) (key v : string) (e : EvidenceError) : result EvidenceError unit :=
  s ← required_string object key; ensure (bool_decide (s = v)) e.

(** The disclosure of the credential: salt, name and value, committed to by [_sd]. *)
Definition disclosed_email (payload : list (string * json)) (text : string) : result EvidenceError string :=
  sd ← ok_or (obj_get "_sd" payload ≫= as_array) Invalid;
  _ ← ensure (bool_decide (length sd = 1)) Invalid;
  disclosure ← decode_json text;
  match as_array disclosure with
  | Some [salt; name; value] =>
      _ ← ensure (bool_decide (is_Some (as_str salt)) && bool_decide (as_str name = Some "email")) Invalid;
      salt ← ok_or (as_str salt) Invalid;
      disclosed ← ok_or (as_str value) Invalid;
      _ ← decode_exact_b64 salt 16;
      commitment ← ok_or (head sd ≫= as_str) Invalid;
      _ ← ensure (bool_decide (sha256_b64 text = commitment)) Invalid;
      Ok disclosed
  | _ => Err Invalid
  end.

Definition check_times (payload : list (string * json)) (time : VerificationTime) : result EvidenceError Z :=
  iat ← required_integer payload "iat";
  nbf ← required_integer payload "nbf";
  exp ← required_integer payload "exp";
  _ ← ensure ((0 <=? iat) && (0 <=? nbf) && (0 <=? exp) && (iat <=? nbf) && (nbf <? exp))%Z Invalid;
  latest_allowed ← ok_or (checked_i64 (vt_evaluation time + vt_skew time)) CredentialNotActive;
  earliest_allowed_expiry ← ok_or (checked_i64 (vt_evaluation time - vt_skew time)) CredentialNotActive;
  _ ← ensure ((0 <=? vt_skew time) && (iat <=? latest_allowed) && (nbf <=? latest_allowed))%Z CredentialNotActive;
  _ ← ensure (earliest_allowed_expiry <? exp)%Z CredentialExpired;
  _ ← ensure (match vt_expected_expiry time with Some expected => bool_decide (expected = exp) | None => true end)
        CredentialExpired;
  Ok exp.

Definition check_scope (payload : list (string * json)) (expected : CredentialScope) : result EvidenceError unit :=
  v ← ok_or (obj_get "tinycloud_share" payload) Invalid;
  scope ← exact_object v;
  _ ← require_exact_keys scope SCOPE_KEYS;
  _ ← string_is scope "share_cid" (cs_share_cid expected) ScopeMismatch;
  _ ← string_is scope "share_id" (cs_share_id expected) ScopeMismatch;
  _ ← string_is scope "policy_cid" (cs_policy_cid expected) ScopeMismatch;
  string_is scope "node_audience" (cs_node_audience expected) ScopeMismatch.

Definition verify_sd_jwt (credential : string) (registry : IssuerTrustRegistry) (scope : CredentialScope)
    (holder email issuer : string) (time : VerificationTime) : result EvidenceError VerifiedEmailEvidence :=
  _ ← ensure (negb (is_empty credential) && (N.of_nat (String.length credential) <=? MAX_CREDENTIAL_BYTES)%N) Invalid;
  _ ← ensure (utf8_valid credential) Invalid;
  match split_char "~" credential with
  | [jwt; disclosure; tail] =>
      _ ← ensure (is_empty tail && negb (is_empty disclosure)) Invalid;
      match split_char "." jwt with
      | [h; p; s] =>
          _ ← ensure (negb (is_empty h) && negb (is_empty p) && negb (is_empty s)) Invalid;
          header ← decode_json h ≫= exact_object;
          _ ← ensure (bool_decide (length header = 1) && bool_decide ((obj_get "alg" header ≫= as_str) = Some EDDSA))
                UnsupportedCryptography;
          payload ← decode_json p ≫= exact_object;
          iss ← required_string payload "iss";
          sub ← required_string payload "sub";
          _ ← ensure (bool_decide (sub = holder)) SubjectMismatch;
          vct ← required_string payload "vct";
          _ ← ensure (bool_decide (vct = EMAIL_VCT)) Invalid;
          _ ← ensure (bool_decide (iss = issuer)) UntrustedIssuer;
          key ← active_key registry iss vct;
          signature ← decode_exact_b64 s 64;
          _ ← verify_ed25519 (ik_public_key key) (h +:+ String "." p) signature;
          _ ← require_exact_keys payload EXPECTED_CLAIMS;
          _ ← string_is payload "_sd_alg" SD_ALG Invalid;
          _ ← check_scope payload scope;
          disclosed ← disclosed_email payload disclosure;
          normalized ← normalize_email disclosed;
          expected ← normalize_email email;
          _ ← ensure (bool_decide (normalized = expected)) EmailMismatch;
          exp ← check_times payload time;
          _ ← required_string payload "jti";
          Ok (mkVerifiedEmailEvidence iss (ik_kid key) sub normalized (sha256_bytes credential) exp)
      | _ => Err Invalid
      end
  | _ => Err Invalid
  end.

(** ** Holder binding *)

Definition BINDING_KEYS : list string :=
  ["name"; "domain"; "signerDid"; "message"; "jcs"; "messageDigest"; "signedBytesDigest"; "signatureDigest"; "signature"].

Definition verify_holder_binding_artifact (artifact expected_holder : string) : result EvidenceError json :=
  value ← parse_strict_json artifact;
  object ← exact_object value;
  _ ← require_exact_keys object BINDING_KEYS;
  _ ← string_is object "name" HOLDER_BINDING_NAME HolderEquationMismatch;
  _ ← string_is object "domain" HOLDER_BINDING_DOMAIN HolderEquationMismatch;
  _ ← string_is object "signerDid" expected_holder HolderEquationMismatch;
  signer ← required_string object "signerDid";
  public_key ← did_key_public_key signer;
  message ← ok_or (obj_get "message" object) Invalid;
  canonical ← jcs message;
  _ ← string_is object "jcs" canonical InvalidHolderProof;
  _ ← string_is object "messageDigest" (sha256_b64 canonical) InvalidHolderProof;
  domain ← required_string object "domain";
  let signed := domain +:+ canonical in
  _ ← string_is object "signedBytesDigest" (sha256_b64 signed) InvalidHolderProof;
  signature ← ok_or (obj_get "signature" object) Invalid ≫= exact_object;
  _ ← require_exact_keys signature ["alg"; "kid"; "value"];
  _ ← string_is signature "alg" EDDSA InvalidHolderProof;
  kid ← required_string signature "kid";
  expected_kid ← canonical_kid signer;
  _ ← ensure (bool_decide (kid = expected_kid)) InvalidHolderProof;
  encoded ← required_string signature "value";
  signature_bytes ← decode_exact_b64 encoded 64;
  _ ← string_is object "signatureDigest" (sha256_b64 signature_bytes) InvalidHolderProof;
  _ ← verify_ed25519 public_key signed signature_bytes;
  Ok message.

End Evidence.

(** ** The two canonicalizers *)

Fixpoint safe_json (v : json) : bool :=
  match v with
  | JNumber (NInt z) => (Z.abs z <=? MAX_SAFE_INTEGER)%Z
  | JNumber (NFloat _) => false
  | JArray l => forallb safe_json l
  | JObject m => forallb (λ kv, safe_json kv.2) m
  | _ => true
  end.

(** A traversal whose only error is [e]. *)
Lemma try_map_if {A B} (f : A → result EvidenceError B) (ok : A → bool) (g : A → B) (e : EvidenceError) l :
  Forall (λ x, f x = if ok x then Ok (g x) else Err e) l →
  try_map f l = if forallb ok l then Ok (g <$> l) else Err e.
Proof.
  induction 1 as [|x l Hx _ IH]; [done|]. cbn [try_map forallb]. rewrite Hx, IH. by destruct (ok x), (forallb ok l).
Qed.

(** [jcs] of the credential verifier accepts exactly the values whose numbers
    are integers of the safe range, and on those writes the text that
    [policy_capability::jcs::canonicalize] of the core writes. *)
Theorem canonicalizers_agree `{FloatText} (v : json) : jcs v = if safe_json v then Ok (canonicalize v) else Err Invalid.
Proof.
  unfold jcs, canonicalize. induction v as [|b|n|s|l IH|m IH] using json_nested_ind; try done.
  - destruct n as [z|]; [|done]. cbn [write_jcs safe_json write_value write_number jcs_number].
    destruct (Z.leb_spec (Z.abs z) MAX_SAFE_INTEGER) as [Hz|Hz].
    + unfold MAX_SAFE_INTEGER in Hz. rewrite (proj2 (Z.leb_le (- 2 ^ 63) z)), (proj2 (Z.ltb_lt z (2 ^ 63))) by lia. done.
    + by rewrite andb_false_r.
  - cbn [write_jcs safe_json]. rewrite (try_map_if _ safe_json write_value Invalid) by done. by destruct (forallb safe_json l).
  - cbn [write_jcs safe_json].
    rewrite (try_map_if _ (λ kv, safe_json kv.2) (λ '(k, v), (k, write_value v)) Invalid).
    + by destruct (forallb _ m).
    + eapply Forall_impl; [exact IH|]. intros [k v] Hv. simpl in *. rewrite Hv. by destruct (safe_json v).
Qed.

(** ** What the strict reader yields *)

Lemma leb_bytes_leb a b : String.leb a b = bytes_leb a b.
Proof.
  revert b. induction a as [|x a IH]; intros [|y b]; try done. specialize (IH b). unfold String.leb in *.
  cbn [String.compare bytes_leb]. unfold Ascii.compare. change N_of_ascii with code. unfold N.ltb.
  rewrite (N.compare_antisym (code x) (code y)). by destruct (N.compare (code x) (code y)).
Qed.

Lemma obj_get_None k (m : list (string * json)) : obj_get k m = None ↔ k ∉ m.*1.
Proof.
  induction m as [|[k' v] m IH]; cbn [obj_get fmap list_fmap fst]; [by split; [intros _; apply not_elem_of_nil|]|].
  rewrite not_elem_of_cons, <- IH. case_decide; simpl; naive_solver.
Qed.

Lemma obj_insert_perm {A} k (v : A) m : k ∉ m.*1 → obj_insert k v m ≡ₚ (k, v) :: m.
Proof.
  induction m as [|[k' v'] m IH]; [done|]. cbn [obj_insert fmap list_fmap fst]. rewrite not_elem_of_cons. intros [Hne Hk].
  rewrite decide_False by congruence. destruct (String.leb k k'); [done|]. rewrite IH by done. apply Permutation_swap.
Qed.

Lemma obj_insert_sorted {A} k (v : A) m :
  k ∉ m.*1 → StronglySorted key_lt m → StronglySorted key_lt (obj_insert k v m).
Proof.
  induction m as [|[k' v'] m IH]; intros Hk Hs; [by repeat constructor|].
  cbn [obj_insert fmap list_fmap fst] in *. apply not_elem_of_cons in Hk as [Hne Hk]. rewrite decide_False by congruence.
  apply StronglySorted_inv in Hs as [Hs Hall]. rewrite leb_bytes_leb. destruct (bytes_leb k k') eqn:Hle.
  - constructor; [by constructor|]. apply Forall_cons. split; [by split|]. eapply Forall_impl; [exact Hall|].
    intros [k2 v2] [Hle2 Hne2]. simpl in *. split; simpl; [by eapply bytes_leb_trans|]. intros ->. apply Hne2. by apply bytes_leb_antisym.
  - constructor; [by apply IH|]. rewrite obj_insert_perm by done. apply Forall_cons. split; [|done]. split; simpl; [|congruence].
    destruct (bytes_leb_total k k'); congruence.
Qed.

(** The tokenizer passes integers of the range of [i64] and [u64]; larger ones are
    doubles. *)
Fixpoint raw_ints (r : raw) : bool :=
  match r with
  | RInt z => ((- 2 ^ 63 <=? z) && (z <? 2 ^ 64))%Z
  | RArray l _ => forallb raw_ints l
  | RObject m _ => forallb (λ kv, raw_ints kv.2) m
  | _ => true
  end.

Lemma strict_value_wf r v : raw_ints r = true → strict_value r = Ok v → wf_json v.
Proof.
  revert v. induction r as [|b|z|f|s|l c IH|m c IH|] using raw_nested_ind; intros v Hr Hv; cbn [strict_value raw_ints] in *; try done.
  1, 2, 4: by injection Hv as <-.
  - injection Hv as <-. rewrite andb_true_iff, Z.leb_le, Z.ltb_lt in Hr. done.
  - apply bind_Ok in Hv as (vs & Hvs%try_map_Ok & Hv). apply bind_Ok in Hv as ([] & _ & Hv). injection Hv as <-.
    apply wf_array. revert Hr IH. induction Hvs as [|r w l vs Hw _ IHvs]; intros Hr IH; [done|].
    cbn [forallb] in Hr. apply andb_true_iff in Hr as [Hr Hl]. apply Forall_cons in IH as [IH IHl]. constructor; auto.
  - assert (∀ values, wf_json (JObject values) →
      ∀ w, (fix go m values := match m with [] => _ ← ensure c Invalid; Ok (JObject values)
            | (key, r) :: m => v ← strict_value r; _ ← ensure (bool_decide (obj_get key values = None)) Invalid;
                               go m (obj_insert key v values) end) m values = Ok w → wf_json w) as Hgo; [|eapply Hgo; [|exact Hv]; apply wf_object; split; constructor].
    clear v Hv. induction IH as [|[k r] m Hx _ IHm]; intros values Hwf w Hw.
    { apply bind_Ok in Hw as ([] & _ & Hw). by injection Hw as <-. }
    cbn [forallb snd] in Hr. apply andb_true_iff in Hr as [Hr Hm]. simpl in Hx.
    apply bind_Ok in Hw as (v & Hv%Hx & Hw); [|done].
    apply bind_Ok in Hw as ([] & Hk%ensure_Ok%bool_decide_eq_true%obj_get_None & Hw). apply (IHm Hm) in Hw; [done|].
    apply wf_object in Hwf as [Hs Hall]. apply wf_object. split; [by apply obj_insert_sorted|].
    rewrite obj_insert_perm by done. by constructor.
Qed.

(** ** Normalized addresses *)

(** Folding to lower case keeps what looks at characters up to case. *)
Notation lower := to_ascii_lowercase.

Lemma lower_cons c s : lower (String c s) = String (to_ascii_lowercase_char c) (lower s).
Proof. done. Qed.

Lemma lower_idem s : lower (lower s) = lower s.
Proof.
  induction s as [|c s IH]; [done|]. rewrite !lower_cons, IH. f_equal. clear.
  apply (bool_decide_eq_true_1 (to_ascii_lowercase_char (to_ascii_lowercase_char c) = to_ascii_lowercase_char c)).
  revert c. apply ascii_forall. by vm_compute.
Qed.

Lemma lower_length s : String.length (lower s) = String.length s.
Proof. induction s as [|c s IH]; [done|]. rewrite lower_cons. simpl. by rewrite IH. Qed.

Lemma lower_is_empty s : is_empty (lower s) = is_empty s.
Proof. by destruct s. Qed.

Lemma lower_forall p s : (∀ c, p (to_ascii_lowercase_char c) = p c) → forall_char p (lower s) = forall_char p s.
Proof. intros Hp. induction s as [|c s IH]; [done|]. rewrite lower_cons. simpl. by rewrite Hp, IH. Qed.

Section NotLetter.
Context (d : ascii) (Hd : ∀ c, bool_decide (to_ascii_lowercase_char c = d) = bool_decide (c = d)).

Lemma lower_eq c : to_ascii_lowercase_char c = d ↔ c = d.
Proof. specialize (Hd c). rewrite <- (bool_decide_eq_true (c = d)), <- Hd. by rewrite bool_decide_eq_true. Qed.

Lemma lower_count s : count_char d (lower s) = count_char d s.
Proof. induction s as [|c s IH]; [done|]. rewrite lower_cons. simpl. by rewrite Hd, IH. Qed.

Lemma lower_starts s : starts_with_char d (lower s) = starts_with_char d s.
Proof. destruct s; [done|]. apply Hd. Qed.

Lemma lower_ends s : ends_with_char d (lower s) = ends_with_char d s.
Proof.
  induction s as [|c s IH]; [done|]. rewrite lower_cons. cbn [ends_with_char].
  destruct s as [|c' s]; [apply Hd|]. rewrite lower_cons in *. exact IH.
Qed.

Lemma lower_split s : split_char d (lower s) = lower <$> split_char d s.
Proof.
  induction s as [|c s IH]; [done|]. rewrite lower_cons. cbn [split_char].
  destruct (decide (c = d)) as [->|Hne].
  - rewrite decide_True by by apply lower_eq. by rewrite IH.
  - rewrite decide_False by by rewrite lower_eq. rewrite IH. by destruct (split_char d s).
Qed.
End NotLetter.

Ltac by_ascii := let c := fresh in intros c; apply Bool.eqb_true_iff; revert c; apply ascii_forall; by vm_compute.

Lemma lower_valid_label s : valid_label (lower s) = valid_label s.
Proof.
  unfold valid_label. rewrite lower_is_empty, lower_length. rewrite lower_starts, lower_ends by by_ascii.
  by rewrite lower_forall by by_ascii.
Qed.

Lemma count_app c s t : count_char c (s +:+ t) = count_char c s + count_char c t.
Proof. induction s as [|d s IH]; [done|]. rewrite append_cons. simpl. rewrite IH. lia. Qed.

(** A normalized address is its own normal form; it differs from the input
    in the case of the domain only. *)
Theorem normalize_email_idempotent (input email : string) :
  normalize_email input = Ok email →
  normalize_email email = Ok email ∧
  ∃ name domain, input = name +:+ String "@" domain ∧ email = name +:+ String "@" (lower domain).
Proof.
  unfold normalize_email at 1. intros Hn. apply bind_Ok in Hn as ([] & [Ha Hl]%ensure_Ok%andb_true_iff & Hn).
  apply bind_Ok in Hn as ([name domain] & Hsplit%ok_or_Ok & Hn).
  apply bind_Ok in Hn as ([] & Hv%ensure_Ok & Hn). apply bind_Ok in Hn as ([] & Hd%ensure_Ok & Hn). injection Hn as <-.
  apply split_once_Some in Hsplit as [-> Hno]. split; [|by exists name, domain].
  rewrite !andb_true_iff in Hv. destruct Hv as [[[Hlocal Hne] Hdl] Hcount].
  unfold is_ascii in Ha. rewrite forall_char_app in Ha. cbn [forall_char] in Ha. rewrite !andb_true_iff in Ha.
  destruct Ha as (Hna & Hat & Hda).
  unfold normalize_email. rewrite (proj2 (split_once_Some _ _ _ _) (conj eq_refl Hno)). cbn [ok_or].
  assert (is_ascii (name +:+ String "@" (lower domain)) = true) as ->.
  { unfold is_ascii. rewrite forall_char_app. cbn [forall_char]. rewrite Hna, lower_forall, Hda by by_ascii. done. }
  rewrite !length_append in *. cbn [String.length] in *. rewrite lower_length, Hl. cbn [andb]. rewrite ensure_true, bind_ret_l, bind_ret_l.
  rewrite !count_app in *. cbn [count_char] in *. rewrite lower_count by by_ascii.
  rewrite Hlocal, lower_is_empty, Hne, lower_length, Hdl, Hcount. cbn [andb]. rewrite ensure_true, bind_ret_l.
  assert (forallb valid_label (split_char "." (lower domain)) = true) as ->.
  { rewrite lower_split by by_ascii. rewrite forallb_forall in Hd |- *. intros x [y [<- Hy]]%in_map_iff.
    rewrite lower_valid_label. auto. }
  by rewrite ensure_true, bind_ret_l, lower_idem.
Qed.

Lemma normalize_email_idempotent_witness :
  normalize_email "Ann.B@Example.COM" = Ok "Ann.B@example.com" ∧ normalize_email "Ann.B@example.com" = Ok "Ann.B@example.com".
Proof. split; [by vm_compute|]. apply (normalize_email_idempotent "Ann.B@Example.COM"). by vm_compute. Defined.

(** ** The registry *)

(** Every key is stored under its own tuple. *)
Definition registry_wf (r : IssuerTrustRegistry) : Prop := map_Forall (λ t k, lookup_of k = t) r.

Lemma registry_insert_Ok r key r' :
  registry_insert r key = Ok r' →
  r' = <[lookup_of key := key]> r ∧ ∀ old, r !! lookup_of key = Some old → (ik_version old < ik_version key)%N.
Proof.
  unfold registry_insert. intros Hi. apply bind_Ok in Hi as ([] & _ & Hi). apply bind_Ok in Hi as ([] & Hv & Hi).
  injection Hi as <-. split; [done|]. intros old Hold. rewrite Hold in Hv. by apply ensure_Ok, N.ltb_lt in Hv.
Qed.

Lemma registry_insert_wf r key r' : registry_wf r → registry_insert r key = Ok r' → registry_wf r'.
Proof. intros Hr [-> _]%registry_insert_Ok. by apply map_Forall_insert_2. Qed.

Lemma registry_disable_wf r i v k : registry_wf r → registry_wf (registry_disable r i v k).2.
Proof.
  intros Hr. unfold registry_disable. destruct (r !! (i, v, k)) as [key|] eqn:Hk; [|done].
  apply map_Forall_insert_2; [|done]. exact (Hr _ _ Hk).
Qed.

Lemma registry_new_wf keys r : registry_new keys = Ok r → registry_wf r.
Proof.
  unfold registry_new. assert (registry_wf ∅) as Hwf by apply map_Forall_empty. revert Hwf. generalize (∅ : IssuerTrustRegistry).
  induction keys as [|k keys IH]; intros r0 Hwf Hr; [by injection Hr as <-|]. cbn [insert_all] in Hr.
  apply bind_Ok in Hr as (r1 & Hr1 & Hr). eapply IH; [|exact Hr]. by eapply registry_insert_wf.
Qed.

Lemma rotate_wf r i v kid key : registry_wf r → registry_wf (registry_rotate r i v kid key).2.
Proof.
  intros Hr. unfold registry_rotate. destruct (_ ≫= _); [|done].
  destruct (registry_insert _ key) as [r'|] eqn:Hi; simpl; [|by apply registry_disable_wf].
  by eapply registry_insert_wf; [apply registry_disable_wf|].
Qed.

(** The keys an issuer may be verified with. *)
Definition usable (r : IssuerTrustRegistry) (issuer vct : string) (k : IssuerKey) : Prop :=
  r !! lookup_of k = Some k ∧ ik_issuer k = issuer ∧ ik_vct k = vct ∧ ik_enabled k = true.

Lemma elem_of_usable r i v k : registry_wf r → k ∈ List.filter ik_enabled (keys_of r i v) ↔ usable r i v k.
Proof.
  intros Hr. unfold keys_of, usable. rewrite !list_elem_of_In, !filter_In, <- list_elem_of_In, list_elem_of_fmap.
  rewrite andb_true_iff, !bool_decide_eq_true. split.
  - intros [[([t k'] & -> & Hk%elem_of_map_to_list) []] ?]. simpl in *. pose proof (Hr _ _ Hk) as Ht. simpl in Ht. by rewrite Ht.
  - intros (Hk & ? & ? & ?). split; [split|]; [|done|done]. exists (lookup_of k, k). split; [done|]. by apply elem_of_map_to_list.
Qed.

Lemma NoDup_usable r i v : registry_wf r → NoDup (List.filter ik_enabled (keys_of r i v)).
Proof.
  intros Hr. unfold keys_of. apply NoDup_ListNoDup, List.NoDup_filter, List.NoDup_filter, NoDup_ListNoDup.
  assert (∀ l : list ((string * string * string) * IssuerKey),
    NoDup l.*1 → Forall (λ tk, lookup_of tk.2 = tk.1) l → NoDup l.*2) as Hl.
  { induction l as [|[t k] l IH]; intros Hnd Hall; [constructor|]. simpl in *. apply NoDup_cons in Hnd as [Hn Hnd].
    apply Forall_cons in Hall as [Ht Hall]. simpl in Ht. apply NoDup_cons. split; [|by apply IH]. intros ([t' k'] & -> & Hin)%list_elem_of_fmap.
    rewrite Forall_forall in Hall. pose proof (Hall _ Hin) as Ht'. simpl in *. apply Hn. rewrite <- Ht, Ht'.
    apply list_elem_of_fmap. by exists (t', k'). }
  apply Hl; [apply NoDup_fst_map_to_list|]. apply Forall_forall. intros [t k] Hk%elem_of_map_to_list. exact (Hr _ _ Hk).
Qed.

Lemma active_key_Ok r i v k :
  registry_wf r → active_key r i v = Ok k ↔ usable r i v k ∧ ∀ k', usable r i v k' → k' = k.
Proof.
  intros Hr. pose proof (NoDup_usable r i v Hr) as Hnd.
  setoid_rewrite <- (elem_of_usable r i v); [|done..]. unfold active_key.
  destruct (List.filter ik_enabled (keys_of r i v)) as [|x [|y l]].
  - split; [by case_bool_decide|]. by intros [?%elem_of_nil _].
  - split; [|by intros [->%list_elem_of_singleton _]]. intros [= ->]. split; [by left|]. by intros k' ->%list_elem_of_singleton.
  - split; [done|]. intros [_ Hu]. exfalso. apply NoDup_cons in Hnd as [Hn _]. apply Hn.
    assert (x = k) as -> by (apply Hu; by left). assert (y = k) as -> by (apply Hu; by right; left). by left.
Qed.

Lemma disable_lookup r i v kid t :
  (registry_disable r i v kid).2 !! t =
  if decide (t = (i, v, kid)) then disabled <$> r !! t else r !! t.
Proof.
  unfold registry_disable. case_decide as Ht; [subst t|].
  - destruct (r !! (i, v, kid)) as [k|] eqn:Hk; cbn [snd]; [by rewrite lookup_insert_eq|by rewrite Hk].
  - destruct (r !! (i, v, kid)); cbn [snd]; [by rewrite lookup_insert_ne|done].
Qed.

(** Rotating the active key of an issuer to a new enabled key makes the new key
    the issuer's only active key: verification is never left without a key or with
    two. *)
Theorem rotate_replaces_active (r r' : IssuerTrustRegistry) (issuer vct : string) (old new : IssuerKey) :
  registry_wf r → active_key r issuer vct = Ok old → ik_enabled new = true →
  registry_rotate r issuer vct (ik_kid old) new = (Ok tt, r') →
  active_key r' issuer vct = Ok new ∧ registry_wf r' ∧ (ik_version old < ik_version new)%N.
Proof.
  intros Hr [(Hold & Hi & Hv & He) Hu]%active_key_Ok Hen Hrot; [|done].
  assert (registry_wf r') as Hr' by (pose proof (rotate_wf r issuer vct (ik_kid old) new Hr) as Hw; by rewrite Hrot in Hw).
  revert Hrot. unfold registry_rotate. unfold lookup_of in Hold. rewrite Hi, Hv in Hold. rewrite Hold.
  destruct (_ ≫= _) as [[]|] eqn:Hg; [|done]. apply bind_Ok in Hg as ([] & [Hni Hnv]%ensure_Ok%andb_true_iff & Hg).
  apply bool_decide_eq_true in Hni, Hnv. cbn [ok_or] in Hg. rewrite bind_ret_l in Hg. apply ensure_Ok, N.ltb_lt in Hg.
  destruct (registry_insert _ new) as [r1|] eqn:Hins; [|done]. intros [= ->]. apply registry_insert_Ok in Hins as [-> _].
  split_and!; [|done|done]. apply active_key_Ok; [done|]. split; [by split; [apply lookup_insert_eq|]|].
  intros k (Hk & Hki & Hkv & Hke). destruct (decide (lookup_of k = lookup_of new)) as [Heq|Hne].
  { rewrite Heq, lookup_insert_eq in Hk. by injection Hk. }
  rewrite lookup_insert_ne in Hk by done. rewrite disable_lookup in Hk. case_decide as Hd.
  - rewrite Hd, Hold in Hk. injection Hk as <-. by simpl in Hke.
  - exfalso. apply Hd. assert (k = old) as -> by by apply Hu. by unfold lookup_of; rewrite Hi, Hv.
Qed.

Definition demo_key (version : N) (kid : string) (enabled : bool) : IssuerKey :=
  mkIssuerKey "did:web:issuer.credentials.org" EMAIL_VCT version kid "key" enabled.
Definition demo_registry (keys : list IssuerKey) : IssuerTrustRegistry := default ∅ (match registry_new keys with Ok r => Some r | _ => None end).

Lemma demo_registry_wf keys : registry_wf (demo_registry keys).
Proof.
  unfold demo_registry. destruct (registry_new keys) as [r|] eqn:E; [by eapply registry_new_wf|]. apply map_Forall_empty.
Qed.

Lemma rotate_replaces_active_witness :
  active_key (registry_rotate (demo_registry [demo_key 1 "a#1" true]) "did:web:issuer.credentials.org" EMAIL_VCT "a#1"
                (demo_key 2 "a#2" true)).2 "did:web:issuer.credentials.org" EMAIL_VCT = Ok (demo_key 2 "a#2" true).
Proof.
  set (out := registry_rotate _ _ _ _ _). assert (out = (Ok tt, out.2)) as Hout.
  { assert (is_ok out.1 = true) as Hok by by vm_compute. by destruct out as [[[]|] ?]. }
  refine (proj1 (rotate_replaces_active _ _ _ _ (demo_key 1 "a#1" true) _ (demo_registry_wf _) _ _ Hout)); by vm_compute.
Defined.

(** Rotating a key that is no longer the active one leaves two active keys, and
    every credential of the issuer is refused as ambiguous until one is disabled. *)
Theorem rotation_can_be_ambiguous :
  let r := demo_registry [demo_key 1 "a#1" false; demo_key 2 "a#2" true] in
  let out := registry_rotate r "did:web:issuer.credentials.org" EMAIL_VCT "a#1" (demo_key 3 "a#3" true) in
  active_key r "did:web:issuer.credentials.org" EMAIL_VCT = Ok (demo_key 2 "a#2" true) ∧
  out.1 = Ok tt ∧ active_key out.2 "did:web:issuer.credentials.org" EMAIL_VCT = Err AmbiguousIssuerKey.
Proof. by vm_compute. Qed.

(** ** What an accepted credential proves *)
Section Accepted.
Context `{Sha256} `{EvidenceLib} `{JsonText}.

Lemma string_is_Ok object key v e : string_is object key v e = Ok tt ↔ required_string object key = Ok v.
Proof.
  unfold string_is. rewrite bind_Ok. split.
  - by intros (s & Hs & ->%ensure_Ok%bool_decide_eq_true).
  - intros Hs. exists v. split; [done|]. by apply ensure_Ok, bool_decide_eq_true.
Qed.

Lemma disclosed_email_Ok payload text email :
  disclosed_email payload text = Ok email →
  obj_get "_sd" payload = Some (JArray [JString (sha256_b64 text)]) ∧
  ∃ salt, decode_json text = Ok (JArray [JString salt; JString "email"; JString email]).
Proof.
  unfold disclosed_email. intros Hd. apply bind_Ok in Hd as (sd & Hsd%ok_or_Ok & Hd).
  apply bind_Ok in Hd as ([] & Hlen%ensure_Ok%bool_decide_eq_true & Hd). apply bind_Ok in Hd as (d & Hdec & Hd).
  destruct d as [| | | |l|]; try done. destruct l as [|salt [|name [|value [|]]]]; try done. cbn [as_array] in Hd.
  apply bind_Ok in Hd as ([] & [_ Hname%bool_decide_eq_true]%ensure_Ok%andb_true_iff & Hd).
  apply bind_Ok in Hd as (s & Hsalt%ok_or_Ok & Hd). apply bind_Ok in Hd as (e & He%ok_or_Ok & Hd).
  apply bind_Ok in Hd as (? & _ & Hd). apply bind_Ok in Hd as (c & Hc%ok_or_Ok & Hd).
  apply bind_Ok in Hd as ([] & <-%ensure_Ok%bool_decide_eq_true & Hd). injection Hd as ->.
  destruct salt, name, value; simplify_eq/=. split; [|by exists s]. destruct sd as [|c0 [|]]; simplify_eq/=.
  destruct c0; simplify_eq/=. destruct (obj_get "_sd" payload) as [[]|]; simplify_eq/=. done.
Qed.

Lemma check_times_Ok payload time exp :
  check_times payload time = Ok exp →
  ∃ iat nbf, required_integer payload "iat" = Ok iat ∧ required_integer payload "nbf" = Ok nbf ∧
    required_integer payload "exp" = Ok exp ∧
    (0 ≤ iat ≤ nbf ∧ nbf < exp ∧ nbf ≤ vt_evaluation time + vt_skew time ∧
     vt_evaluation time - vt_skew time < exp ∧ 0 ≤ vt_skew time)%Z ∧
    ∀ e, vt_expected_expiry time = Some e → e = exp.
Proof.
  unfold check_times. intros Ht. apply bind_Ok in Ht as (iat & Hiat & Ht). apply bind_Ok in Ht as (nbf & Hnbf & Ht).
  apply bind_Ok in Ht as (x & Hx & Ht). apply bind_Ok in Ht as ([] & Ha%ensure_Ok & Ht).
  apply bind_Ok in Ht as (latest & Hl%ok_or_Ok & Ht). apply bind_Ok in Ht as (earliest & He%ok_or_Ok & Ht).
  apply bind_Ok in Ht as ([] & Hb%ensure_Ok & Ht). apply bind_Ok in Ht as ([] & Hc%ensure_Ok%Z.ltb_lt & Ht).
  apply bind_Ok in Ht as ([] & Hd%ensure_Ok & Ht). injection Ht as ->. unfold checked_i64 in Hl, He.
  destruct (bool_decide (_ ≤ _ + _ < _)%Z); [|done]. destruct (bool_decide (_ ≤ _ - _ < _)%Z); [|done].
  injection Hl as <-. injection He as <-. rewrite !andb_true_iff, !Z.leb_le in Ha, Hb. rewrite Z.ltb_lt in Ha.
  exists iat, nbf. split_and!; try done; try lia. intros e Hexp. rewrite Hexp in Hd. by apply bool_decide_eq_true in Hd.
Qed.

(** C33: an accepted credential is signed, over the exact header and payload it
    carries, by the only active key of the expected issuer; its payload names the
    expected holder and commits to the disclosure, whose address is the expected
    one up to the case of the domain; and the evaluation time is inside its window
    up to the allowed skew. *)
Theorem sd_jwt_sound (credential : string) (registry : IssuerTrustRegistry) (scope : CredentialScope)
    (holder email issuer : string) (time : VerificationTime) (ev : VerifiedEmailEvidence) :
  registry_wf registry → verify_sd_jwt credential registry scope holder email issuer time = Ok ev →
  ∃ jwt disclosure h p s payload key signature salt disclosed nbf,
    split_char "~" credential = [jwt; disclosure; ""] ∧ split_char "." jwt = [h; p; s] ∧
    decode_json p = Ok (JObject payload) ∧
    usable registry issuer EMAIL_VCT key ∧ (∀ key', usable registry issuer EMAIL_VCT key' → key' = key) ∧
    decode_exact_b64 s 64 = Ok signature ∧ ed25519_verify (ik_public_key key) (h +:+ String "." p) signature = true ∧
    required_string payload "sub" = Ok holder ∧ check_scope payload scope = Ok tt ∧
    obj_get "_sd" payload = Some (JArray [JString (sha256_b64 disclosure)]) ∧
    decode_json disclosure = Ok (JArray [JString salt; JString "email"; JString disclosed]) ∧
    normalize_email disclosed = Ok (ve_email ev) ∧ normalize_email email = Ok (ve_email ev) ∧ ve_subject ev = holder ∧
    required_integer payload "nbf" = Ok nbf ∧ required_integer payload "exp" = Ok (ve_expires_at ev) ∧
    (nbf ≤ vt_evaluation time + vt_skew time ∧ vt_evaluation time - vt_skew time < ve_expires_at ev)%Z.
Proof.
  intros Hr Hv. unfold verify_sd_jwt in Hv. do 2 (apply bind_Ok in Hv as ([] & _ & Hv)).
  destruct (split_char "~" credential) as [|jwt [|disclosure [|tail [|]]]]; try done.
  apply bind_Ok in Hv as ([] & Htail%ensure_Ok & Hv). apply andb_true_iff in Htail as [->%bool_decide_eq_true _].
  destruct (split_char "." jwt) as [|h [|p [|s [|]]]] eqn:Hjwt; try done.
  apply bind_Ok in Hv as ([] & _ & Hv). apply bind_Ok in Hv as (header & _ & Hv). apply bind_Ok in Hv as ([] & _ & Hv).
  apply bind_Ok in Hv as (payload & Hp & Hv). apply bind_Ok in Hp as (pv & Hp & Hpo%ok_or_Ok).
  apply bind_Ok in Hv as (iss & _ & Hv). apply bind_Ok in Hv as (sub & Hsub & Hv).
  apply bind_Ok in Hv as ([] & ->%ensure_Ok%bool_decide_eq_true & Hv). apply bind_Ok in Hv as (vct & _ & Hv).
  apply bind_Ok in Hv as ([] & ->%ensure_Ok%bool_decide_eq_true & Hv). apply bind_Ok in Hv as ([] & ->%ensure_Ok%bool_decide_eq_true & Hv).
  apply bind_Ok in Hv as (key & [Hkey Huniq]%active_key_Ok & Hv); [|done]. apply bind_Ok in Hv as (signature & Hsig & Hv).
  apply bind_Ok in Hv as ([] & Hed & Hv). apply bind_Ok in Hed as ([] & _ & Hed%ensure_Ok).
  do 2 (apply bind_Ok in Hv as ([] & _ & Hv)). apply bind_Ok in Hv as ([] & Hscope & Hv).
  apply bind_Ok in Hv as (disclosed & [Hsd [salt Hdec]]%disclosed_email_Ok & Hv). apply bind_Ok in Hv as (n & Hn & Hv).
  apply bind_Ok in Hv as (n' & Hn' & Hv). apply bind_Ok in Hv as ([] & ->%ensure_Ok%bool_decide_eq_true & Hv).
  apply bind_Ok in Hv as (exp & (iat & nbf & _ & Hnbf & Hexp & Hw & _)%check_times_Ok & Hv).
  apply bind_Ok in Hv as (? & _ & Hv). injection Hv as <-. destruct pv as [| | | | |m]; try done. injection Hpo as ->.
  exists jwt, disclosure, h, p, s, payload, key, signature, salt, disclosed, nbf. split_and!; try done; cbn [ve_expires_at]; lia.
Qed.

End Accepted.

(** A credential with the coding functions replaced by the identity. *)
Definition demo_sha : Sha256 := string_bytes.
Definition demo_lib : EvidenceLib :=
  {| b64url_encode := λ s, s; b64url_decode := Some; multibase_decode := Some; ed25519_verify := λ _ _ _, true |}.
Definition demo_text : JsonText :=
  {| json_read := λ s,
       (if decide (s = "H") then RObject [("alg", RString EDDSA)] true
        else if decide (s = "P") then
          RObject [("iss", RString "did:web:issuer.credentials.org"); ("sub", RString "did:key:zHolder"); ("iat", RInt 100);
                   ("nbf", RInt 100); ("exp", RInt 200); ("jti", RString "j"); ("vct", RString EMAIL_VCT);
                   ("tinycloud_share", RObject [("share_cid", RString "c"); ("share_id", RString "i");
                                                ("policy_cid", RString "p"); ("node_audience", RString "n")] true);
                   ("_sd_alg", RString SD_ALG); ("_sd", RArray [RString "D"] true)] true
        else if decide (s = "D") then RArray [RString "0123456789abcdef"; RString "email"; RString "a@X.org"] true
        else RBad, true);
     float_unsafe := λ _, false |}.
#[local] Existing Instances demo_sha demo_lib demo_text.

Definition demo_signature : string := bytes_string (repeat 1%N 64).
Definition demo_credential : string := "H.P." +:+ demo_signature +:+ "~D~".
Definition demo_time : VerificationTime := mkVerificationTime 150 5 None.

Lemma sd_jwt_sound_witness :
  ∃ key, usable (demo_registry [demo_key 1 "a#1" true]) "did:web:issuer.credentials.org" EMAIL_VCT key.
Proof.
  destruct (sd_jwt_sound demo_credential (demo_registry [demo_key 1 "a#1" true]) (mkCredentialScope "c" "i" "p" "n")
    "did:key:zHolder" "a@x.org" "did:web:issuer.credentials.org" demo_time
    (mkVerifiedEmailEvidence "did:web:issuer.credentials.org" "a#1" "did:key:zHolder" "a@x.org" demo_credential 200)
    (demo_registry_wf _)) as (jwt & disclosure & h & p & s & payload & key & signature & salt & disclosed & nbf & Hall);
    [by vm_compute|]. exists key. tauto.
Defined.

(** The order of the Ed25519 group. *)
Example group_order_value :
  foldl (λ acc b, acc * 256 + b)%N 0%N GROUP_ORDER = 7237005577332262213973186563042994240857116359379907606001950938285454250989%N.
Proof. by vm_compute. Qed.
