(* ===== verification/PolicyDelegation.v ===== *)
(** * Policy delegations: tinycloud-core/src/policy_authority/mod.rs 26-224,
      415-861 and 1511-1965

    The artifacts of the policy authority (an owner's policy and enforcement
    delegations, the session root a node issues under them and the descendants
    holders pass on), and the validators that compare them.  Times are nanoseconds;
    a timestamp of an artifact is text, read by [Rfc3339].  Signatures, the JSON
    encoding of artifacts and attestation are verified before and are not modelled
    here. *)
From S2P Require Import Prelude Str Chars Json Registry SqlCaveat Tables Jcs PolicyCapability Evidence.

Class Rfc3339 := rfc3339_parse : string → option Z.

Definition POLICY_PREFIX : string := "xyz.tinycloud.policy/".
Definition MAX_STATUS_AGE : Z := 300000000000.
Definition MAX_ANCESTRY_DEPTH : nat := 64.
Definition DECISION_CONTEXT_DOMAIN : string := "xyz.tinycloud.policy/DecisionContext/v1" +:+ String (char 0) "".
Definition ISSUANCE_AUDIT_DOMAIN : string := "xyz.tinycloud.policy/IssuanceAudit/v1" +:+ String (char 0) "".
Definition EIP191_SUITE : string := "eip191-secp256k1-sha256-jcs-v1".
Definition ED25519_SUITE : string := "eddsa-ed25519-sha256-jcs-v1".
Definition AUTHORITY_FACTS : list string := ["ownerDid"; "policyId"; "policyDigestHex"; "capabilityCeilingHashHex"].
Definition ENFORCEMENT_FACTS : list string :=
  ["ownerDid"; "policyId"; "policyDigestHex"; "capabilityCeilingHashHex"; "enforcerDid"; "nodeAudience";
   "attestationBindingDigestHex"; "maxSessionTtlSeconds"; "sessionMode"; "maxRedelegationDepth"; "auditProfile"].
Definition SESSION_FACTS : list string :=
  ["ownerDid"; "policyId"; "policyDigestHex"; "capabilityCeilingHashHex"; "capabilityHashHex"; "enforcerDid";
   "nodeAudience"; "rootClaimantDid"; "sessionSubjectDid"; "policyDelegationCid"; "enforcementDelegationCid";
   "attestationBindingDigestHex"; "claimInvocationDigestHex"; "vpDigestHex"; "decisionContextDigestHex";
   "issuanceAuditDigestHex"; "issuanceId"; "remainingRedelegationDepth"; "auditProfile"].

Inductive DelegationRole := PolicyAuthority | PolicyEnforcement | PolicySessionRoot | PolicySessionDescendant.
Inductive DelegationMode := PolicySource | ConditionalMint | Attenuable | Terminal.

#[export] Instance DelegationRole_eq_dec : EqDecision DelegationRole.
Proof. solve_decision. Defined.
#[export] Instance DelegationMode_eq_dec : EqDecision DelegationMode.
Proof. solve_decision. Defined.

Record PolicyDelegation := mkPolicyDelegation {
  pd_schema : string;
  pd_role : DelegationRole;
  pd_cid : string;
  pd_issuer : string;
  pd_audience : string;
  pd_capabilities : list json;
  pd_proofs : list string;
  pd_not_before : string;
  pd_expires_at : string;
  pd_mode : DelegationMode;
  pd_facts : gmap string string;
  pd_suite : string;
  pd_signature : string;
}.

#[export] Instance PolicyDelegation_eq_dec : EqDecision PolicyDelegation.
Proof. solve_decision. Defined.

Inductive AuthorityError :=
| SchemaInvalid | CanonicalizationMismatch | TimestampNoncanonical | CapabilityNoncanonical | ProofSetUnmatched
| RoleModeMismatch | ConditionalMintNotParent | OwnerMismatch | PolicyMismatch | FactsMismatch | WrongEnforcer
| WrongAudience | ClaimantMismatch | CapabilityHashMismatch | CapabilityBroadened | DecisionContextMismatch
| AuditDigestMismatch | PolicyDecisionExpired | AttestationBindingMismatch | AttestationExpired | ChallengeNotFound
| ChallengeConsumed | ChallengeExpired | SessionTimeInvalid | SessionRedelegationInvalid | TerminalParent
| DescendantParentMismatch | DescendantAuthorityRootsMismatch | AuthorityStateUnavailable | DelegationRevoked
| DelegationAncestorRevoked | AncestryTooDeep | TransactionFailed.

#[export] Instance AuthorityError_eq_dec : EqDecision AuthorityError.
Proof. solve_decision. Defined.

(** ** Reading an artifact *)

Definition fact (d : PolicyDelegation) (name : string) : result AuthorityError string :=
  ok_or (pd_facts d !! (POLICY_PREFIX +:+ name)) FactsMismatch.

(** [d.fact(name)? != v] guards an error. *)
Definition fact_is (d : PolicyDelegation) (name v : string) (e : AuthorityError) : result AuthorityError unit :=
  f ← fact d name; ensure (bool_decide (f = v)) e.

(** [a.fact(name)? != b.fact(name)?] guards an error. *)
Definition facts_agree (a b : PolicyDelegation) (name : string) (e : AuthorityError) : result AuthorityError unit :=
  f ← fact a name; g ← fact b name; ensure (bool_decide (f = g)) e.

Definition depth (d : PolicyDelegation) : result AuthorityError N :=
  s ← fact d "remainingRedelegationDepth";
  ok_or (n ← parse_u64 s; if (n <=? 8)%N then Some n else None) SessionRedelegationInvalid.

Definition decimal_fact (d : PolicyDelegation) (name : string) : result AuthorityError N :=
  value ← fact d name;
  _ ← ensure (bool_decide (value = "0") || negb (starts_with "0" value)) FactsMismatch;
  ok_or (parse_u64 value) FactsMismatch.

Definition valid_prefixed_base32 (value prefix : string) (suffix_len : nat) : bool :=
  match strip_prefix prefix value with
  | Some suffix => bool_decide (String.length suffix = suffix_len) &&
                   forall_char (λ c, is_ascii_lower c || in_range "2" "7" c) suffix
  | None => false
  end.

Definition action_allowed (service action : string) : bool :=
  if decide (service = "tinycloud.kv") then
    bool_decide (action ∈ ["tinycloud.kv/get"; "tinycloud.kv/list"; "tinycloud.kv/metadata"; "tinycloud.kv/put";
                           "tinycloud.kv/delete"])
  else if decide (service = "tinycloud.sql") then
    bool_decide (action ∈ ["tinycloud.sql/read"; "tinycloud.sql/select"; "tinycloud.sql/write"])
  else if decide (service = "tinycloud.vfs") then
    bool_decide (action ∈ ["tinycloud.vfs/get"; "tinycloud.vfs/list"; "tinycloud.vfs/metadata"; "tinycloud.vfs/put";
                           "tinycloud.vfs/delete"])
  else false.

Section Validators.
Context `{Rfc3339} `{Nfc} `{FloatText} `{Sha256}.

Definition canonical_time (value : string) : result AuthorityError Z :=
  _ ← ensure (bool_decide (String.length value = 20) && ends_with_char "Z" value) TimestampNoncanonical;
  ok_or (rfc3339_parse value) TimestampNoncanonical.

Definition not_before (d : PolicyDelegation) : result AuthorityError Z := canonical_time (pd_not_before d).
Definition expires_at (d : PolicyDelegation) : result AuthorityError Z := canonical_time (pd_expires_at d).

Definition canonical_capability (value : json) : result AuthorityError PolicyCapability :=
  c ← map_err (λ _, CapabilityNoncanonical) (parse value);
  _ ← ensure (forallb (action_allowed (pc_service c)) (pc_actions c)) CapabilityNoncanonical;
  _ ← ensure (bool_decide (canonical_value c = value)) CapabilityNoncanonical;
  Ok c.

Definition canonical_capabilities (values : list json) : result AuthorityError (list PolicyCapability) :=
  try_map canonical_capability values.

Definition capability_set_contained (children parents : list json) : result AuthorityError bool :=
  cs ← canonical_capabilities children;
  ps ← canonical_capabilities parents;
  Ok (forallb (λ c, existsb (λ p, is_ok (contains p c)) ps) cs).

Definition capability_hash (d : PolicyDelegation) : result AuthorityError string :=
  caps ← canonical_capabilities (pd_capabilities d);
  Ok (requested_capabilities_hash_hex caps).

(** Modes, number of proofs, facts and signature suite of each role. *)
Definition session_mode (m : DelegationMode) : bool := bool_decide (m = Attenuable) || bool_decide (m = Terminal).
Definition wire_profile (d : PolicyDelegation) : bool * nat * list string * string :=
  match pd_role d with
  | PolicyAuthority => (bool_decide (pd_mode d = PolicySource), 0, AUTHORITY_FACTS, EIP191_SUITE)
  | PolicyEnforcement => (bool_decide (pd_mode d = ConditionalMint), 0, ENFORCEMENT_FACTS, EIP191_SUITE)
  | PolicySessionRoot => (session_mode (pd_mode d), 2, SESSION_FACTS, ED25519_SUITE)
  | PolicySessionDescendant =>
      (session_mode (pd_mode d), 1, SESSION_FACTS ++ ["rootSessionDelegationCid"; "immediateParentDelegationCid"],
       ED25519_SUITE)
  end.

Definition validate_wire_shape (d : PolicyDelegation) : result AuthorityError unit :=
  _ ← ensure (bool_decide (pd_schema d = "xyz.tinycloud.policy/enforcement-delegation/v1") &&
              negb (is_empty (pd_cid d)) && negb (is_empty (pd_issuer d)) && negb (is_empty (pd_audience d)) &&
              negb (bool_decide (pd_capabilities d = []))) SchemaInvalid;
  _ ← canonical_time (pd_not_before d);
  _ ← canonical_time (pd_expires_at d);
  _ ← canonical_capabilities (pd_capabilities d);
  _ ← ensure (bool_decide (NoDup (pd_proofs d))) ProofSetUnmatched;
  let '(mode_ok, proof_count, fact_names, suite) := wire_profile d in
  _ ← ensure (mode_ok && bool_decide (pd_suite d = suite)) RoleModeMismatch;
  _ ← ensure (bool_decide (length (pd_proofs d) = proof_count)) ProofSetUnmatched;
  ensure (bool_decide (dom (pd_facts d) = list_to_set (C := gset string) (String.append POLICY_PREFIX <$> fact_names)))
    FactsMismatch.

(** ** What is verified before *)

Inductive PolicyGrantMode := GrantAttenuable | GrantTerminal.

#[export] Instance PolicyGrantMode_eq_dec : EqDecision PolicyGrantMode.
Proof. solve_decision. Defined.

Definition grant_mode_str (m : PolicyGrantMode) : string :=
  match m with GrantAttenuable => "attenuable" | GrantTerminal => "terminal" end.

Record VerifiedPolicyState := mkVerifiedPolicyState {
  vs_owner : string;
  vs_policy_id : string;
  vs_policy_digest : string;
  vs_ceiling_hash : string;
  vs_grant_mode : PolicyGrantMode;
  vs_max_ttl_seconds : N;
  vs_status_checked_at : Z;
  vs_expires_at : Z;
}.

Definition policy_state_from_verified (policy enforcement : PolicyDelegation) (checked_at expires : Z)
    : result AuthorityError VerifiedPolicyState :=
  mode ← fact enforcement "sessionMode";
  grant_mode ← (if decide (mode = "attenuable") then Ok GrantAttenuable
                else if decide (mode = "terminal") then Ok GrantTerminal else Err FactsMismatch);
  owner ← fact policy "ownerDid";
  id ← fact policy "policyId";
  digest ← fact policy "policyDigestHex";
  ceiling ← fact policy "capabilityCeilingHashHex";
  ttl ← decimal_fact enforcement "maxSessionTtlSeconds";
  Ok (mkVerifiedPolicyState owner id digest ceiling grant_mode ttl checked_at expires).

Record EnforcerBinding := mkEnforcerBinding {
  eb_digest : string; eb_enforcer : string; eb_node_audience : string; eb_expires_at : Z;
}.

Record DecisionContext := mkDecisionContext {
  dc_owner : string; dc_policy_id : string; dc_policy_digest : string; dc_ceiling_hash : string;
  dc_enforcer : string; dc_node_audience : string; dc_claimant : string; dc_challenge_id : string;
  dc_nonce_hash : string; dc_requested_hash : string; dc_claim_digest : string; dc_vp_digest : string;
}.

#[export] Instance DecisionContext_eq_dec : EqDecision DecisionContext.
Proof. solve_decision. Defined.

(** The serialized context is an object in key order. *)
Definition context_value (c : DecisionContext) : json :=
  JObject [("capabilityCeilingHashHex", JString (dc_ceiling_hash c));
           ("challengeId", JString (dc_challenge_id c));
           ("challengeNonceHashHex", JString (dc_nonce_hash c));
           ("claimInvocationDigestHex", JString (dc_claim_digest c));
           ("claimantDid", JString (dc_claimant c));
           ("enforcerDid", JString (dc_enforcer c));
           ("nodeAudience", JString (dc_node_audience c));
           ("ownerDid", JString (dc_owner c));
           ("policyDigestHex", JString (dc_policy_digest c));
           ("policyId", JString (dc_policy_id c));
           ("requestedCapabilitiesHashHex", JString (dc_requested_hash c));
           ("vpDigestHex", JString (dc_vp_digest c))].

Definition context_digest_hex (c : DecisionContext) : string :=
  hex_encode (sha256_digest (DECISION_CONTEXT_DOMAIN +:+ canonicalize (context_value c))).

Record TrustedPolicyDecision := mkTrustedPolicyDecision {
  tp_context : DecisionContext; tp_digest : string; tp_evaluated_at : Z; tp_valid_until : Z;
}.

Definition decision_from_evaluation (c : DecisionContext) (evaluated_at valid_until : Z) : TrustedPolicyDecision :=
  mkTrustedPolicyDecision c (context_digest_hex c) evaluated_at valid_until.

(** ** Challenges *)

Record ChallengeState := mkChallengeState {
  ch_id : string; ch_nonce_hash : string; ch_owner : string; ch_policy_id : string; ch_policy_digest : string;
  ch_policy_cid : string; ch_enforcement_cid : string; ch_enforcer : string; ch_node_audience : string;
  ch_claimant : string; ch_requested_hash : string; ch_issued_at : Z; ch_expires_at : Z; ch_consumed_at : option Z;
}.

Record IssuanceBindings := mkIssuanceBindings {
  ib_now : Z; ib_claim_issued_at : Z; ib_claim_expires_at : Z; ib_challenge_id : string; ib_nonce_hash : string;
  ib_claimant : string; ib_requested_hash : string; ib_claim_digest : string; ib_vp_digest : string;
}.

Definition validate_challenge_lifetime_for_read (c : ChallengeState) : result AuthorityError unit :=
  ensure ((ch_issued_at c <? ch_expires_at c)%Z && (ch_expires_at c - ch_issued_at c <=? 300000000000)%Z) ChallengeExpired.

Definition validate_challenge_lifetime (c : ChallengeState) : result AuthorityError unit :=
  _ ← ensure (bool_decide (ch_consumed_at c = None)) ChallengeExpired;
  validate_challenge_lifetime_for_read c.

Definition validate_challenge (c : ChallengeState) (policy enforcement : PolicyDelegation) (b : IssuanceBindings)
    (node : string) : result AuthorityError unit :=
  _ ← validate_challenge_lifetime_for_read c;
  _ ← ensure (bool_decide (ch_id c = ib_challenge_id b) && bool_decide (ch_nonce_hash c = ib_nonce_hash b)) ChallengeNotFound;
  _ ← fact_is policy "ownerDid" (ch_owner c) ChallengeNotFound;
  _ ← fact_is policy "policyId" (ch_policy_id c) ChallengeNotFound;
  _ ← fact_is policy "policyDigestHex" (ch_policy_digest c) ChallengeNotFound;
  _ ← ensure (bool_decide (ch_policy_cid c = pd_cid policy) && bool_decide (ch_enforcement_cid c = pd_cid enforcement) &&
              bool_decide (ch_enforcer c = node)) ChallengeNotFound;
  _ ← fact_is enforcement "nodeAudience" (ch_node_audience c) ChallengeNotFound;
  _ ← ensure (bool_decide (ch_claimant c = ib_claimant b) && bool_decide (ch_requested_hash c = ib_requested_hash b))
        ChallengeNotFound;
  ensure ((ch_issued_at c <=? ib_now b)%Z && (ib_now b <? ch_expires_at c)%Z) ChallengeExpired.

(** ** The audit record *)

Record IssuanceAudit := mkIssuanceAudit {
  au_issuance_id : string; au_owner : string; au_policy_id : string; au_policy_digest : string; au_policy_cid : string;
  au_enforcement_cid : string; au_enforcer : string; au_node_audience : string; au_claimant : string;
  au_capability_hash : string; au_challenge_id : string; au_nonce_hash : string; au_claim_digest : string;
  au_vp_digest : string; au_decision_digest : string; au_decision : string; au_issued_at : string; au_expires_at : string;
  au_digest : string; au_session_cid : string;
}.

(** The serialized record without its digest and session CID, in key order. *)
Definition audit_value (a : IssuanceAudit) : json :=
  JObject [("capabilityHashHex", JString (au_capability_hash a));
           ("challengeId", JString (au_challenge_id a));
           ("challengeNonceHashHex", JString (au_nonce_hash a));
           ("claimInvocationDigestHex", JString (au_claim_digest a));
           ("claimantDid", JString (au_claimant a));
           ("decision", JString (au_decision a));
           ("decisionContextDigestHex", JString (au_decision_digest a));
           ("enforcementDelegationCid", JString (au_enforcement_cid a));
           ("enforcerDid", JString (au_enforcer a));
           ("expiresAt", JString (au_expires_at a));
           ("issuanceId", JString (au_issuance_id a));
           ("issuedAt", JString (au_issued_at a));
           ("nodeAudience", JString (au_node_audience a));
           ("ownerDid", JString (au_owner a));
           ("policyDelegationCid", JString (au_policy_cid a));
           ("policyDigestHex", JString (au_policy_digest a));
           ("policyId", JString (au_policy_id a));
           ("schema", JString "xyz.tinycloud.policy/issuance-audit/v1");
           ("vpDigestHex", JString (au_vp_digest a))].

Definition recompute_digest_hex (a : IssuanceAudit) : string :=
  hex_encode (sha256_digest (ISSUANCE_AUDIT_DOMAIN +:+ canonicalize (audit_value a))).

Definition with_digest (d : string) (a : IssuanceAudit) : IssuanceAudit :=
  {| au_issuance_id := au_issuance_id a; au_owner := au_owner a; au_policy_id := au_policy_id a;
     au_policy_digest := au_policy_digest a; au_policy_cid := au_policy_cid a;
     au_enforcement_cid := au_enforcement_cid a; au_enforcer := au_enforcer a; au_node_audience := au_node_audience a;
     au_claimant := au_claimant a; au_capability_hash := au_capability_hash a; au_challenge_id := au_challenge_id a;
     au_nonce_hash := au_nonce_hash a; au_claim_digest := au_claim_digest a; au_vp_digest := au_vp_digest a;
     au_decision_digest := au_decision_digest a; au_decision := au_decision a; au_issued_at := au_issued_at a;
     au_expires_at := au_expires_at a; au_digest := d; au_session_cid := au_session_cid a |}.

(** ** The authority pair and the session root *)

Definition validate_authority_pair (policy enforcement : PolicyDelegation) (st : VerifiedPolicyState) (node : string)
    : result AuthorityError unit :=
  _ ← validate_wire_shape policy;
  _ ← validate_wire_shape enforcement;
  _ ← ensure (bool_decide (pd_role policy = PolicyAuthority) && bool_decide (pd_mode policy = PolicySource) &&
              bool_decide (pd_proofs policy = []) && bool_decide (pd_role enforcement = PolicyEnforcement) &&
              bool_decide (pd_mode enforcement = ConditionalMint) && bool_decide (pd_proofs enforcement = []))
        RoleModeMismatch;
  _ ← ensure (bool_decide (pd_issuer policy = pd_issuer enforcement)) OwnerMismatch;
  _ ← facts_agree policy enforcement "ownerDid" OwnerMismatch;
  _ ← fact_is policy "ownerDid" (pd_issuer policy) OwnerMismatch;
  id ← fact policy "policyId";
  _ ← ensure (starts_with "pol_" id) PolicyMismatch;
  _ ← fact_is enforcement "nodeAudience" (pd_audience policy) PolicyMismatch;
  _ ← for_each (λ name, facts_agree policy enforcement name PolicyMismatch)
        ["policyId"; "policyDigestHex"; "capabilityCeilingHashHex"];
  _ ← ensure (bool_decide (pd_capabilities policy = pd_capabilities enforcement)) CapabilityHashMismatch;
  h ← capability_hash policy;
  _ ← fact_is policy "capabilityCeilingHashHex" h CapabilityHashMismatch;
  _ ← fact_is policy "ownerDid" (vs_owner st) PolicyMismatch;
  _ ← fact_is policy "policyId" (vs_policy_id st) PolicyMismatch;
  _ ← fact_is policy "policyDigestHex" (vs_policy_digest st) PolicyMismatch;
  _ ← fact_is policy "capabilityCeilingHashHex" (vs_ceiling_hash st) PolicyMismatch;
  _ ← fact_is enforcement "enforcerDid" (pd_audience enforcement) WrongEnforcer;
  _ ← ensure (bool_decide (pd_audience enforcement = node)) WrongEnforcer;
  ttl ← decimal_fact enforcement "maxSessionTtlSeconds";
  d ← decimal_fact enforcement "maxRedelegationDepth";
  _ ← ensure ((1 <=? ttl)%N && (ttl <=? 300)%N && (d <=? 8)%N) FactsMismatch;
  _ ← fact_is enforcement "auditProfile" "vp-digest-v1" FactsMismatch;
  _ ← ensure (ttl <=? vs_max_ttl_seconds st)%N PolicyMismatch;
  _ ← fact_is enforcement "sessionMode" (grant_mode_str (vs_grant_mode st)) PolicyMismatch;
  ensure (negb (bool_decide (vs_grant_mode st = GrantTerminal) && negb (d =? 0)%N)) PolicyMismatch.

Definition mode_of_depth (d : N) : DelegationMode := if (0 <? d)%N then Attenuable else Terminal.

Definition expected_context (policy enforcement : PolicyDelegation) (b : IssuanceBindings) (node : string)
    : result AuthorityError DecisionContext :=
  owner ← fact policy "ownerDid";
  id ← fact policy "policyId";
  digest ← fact policy "policyDigestHex";
  ceiling ← fact policy "capabilityCeilingHashHex";
  aud ← fact enforcement "nodeAudience";
  Ok {| dc_owner := owner; dc_policy_id := id; dc_policy_digest := digest; dc_ceiling_hash := ceiling;
        dc_enforcer := node; dc_node_audience := aud; dc_claimant := ib_claimant b; dc_challenge_id := ib_challenge_id b;
        dc_nonce_hash := ib_nonce_hash b; dc_requested_hash := ib_requested_hash b; dc_claim_digest := ib_claim_digest b;
        dc_vp_digest := ib_vp_digest b |}.

(** The session's window against the bounds of everything it rests on; [ttl] is
    in seconds. *)
Definition validate_root_window (policy enforcement root : PolicyDelegation) (st : VerifiedPolicyState)
    (c : ChallengeState) (t : TrustedPolicyDecision) (b : IssuanceBindings) : result AuthorityError unit :=
  nb ← not_before root;
  ex ← expires_at root;
  ttl ← decimal_fact enforcement "maxSessionTtlSeconds";
  let ttl_end := (nb + Z.of_N (N.min ttl (vs_max_ttl_seconds st)) * 1000000000)%Z in
  pex ← expires_at policy;
  eex ← expires_at enforcement;
  let maximum := foldr Z.min pex [eex; vs_expires_at st; ch_expires_at c; ib_claim_expires_at b; tp_valid_until t; ttl_end] in
  pnb ← not_before policy;
  _ ← ensure (pnb <=? nb)%Z SessionTimeInvalid;
  enb ← not_before enforcement;
  ensure ((enb <=? nb)%Z && (ib_now b <=? nb)%Z && (ib_claim_issued_at b <=? nb)%Z && (tp_evaluated_at t <=? nb)%Z &&
          (ex <=? maximum)%Z && (nb <? ex)%Z) SessionTimeInvalid.

Definition root_audit (policy enforcement root : PolicyDelegation) (c : ChallengeState) (t : TrustedPolicyDecision)
    (b : IssuanceBindings) (node issuance_id : string) : result AuthorityError IssuanceAudit :=
  owner ← fact policy "ownerDid";
  id ← fact policy "policyId";
  digest ← fact policy "policyDigestHex";
  aud ← fact enforcement "nodeAudience";
  cap ← fact root "capabilityHashHex";
  let a := {| au_issuance_id := issuance_id; au_owner := owner; au_policy_id := id; au_policy_digest := digest;
              au_policy_cid := pd_cid policy; au_enforcement_cid := pd_cid enforcement; au_enforcer := node;
              au_node_audience := aud; au_claimant := ib_claimant b; au_capability_hash := cap;
              au_challenge_id := ch_id c; au_nonce_hash := ch_nonce_hash c; au_claim_digest := ib_claim_digest b;
              au_vp_digest := ib_vp_digest b; au_decision_digest := tp_digest t; au_decision := "allow";
              au_issued_at := pd_not_before root; au_expires_at := pd_expires_at root; au_digest := "";
              au_session_cid := pd_cid root |} in
  Ok (with_digest (recompute_digest_hex a) a).

Definition ensure_contained (children parents : list json) (e : AuthorityError) : result AuthorityError unit :=
  ok ← capability_set_contained children parents; ensure ok e.

Definition validate_root (policy enforcement : PolicyDelegation) (st : VerifiedPolicyState) (c : ChallengeState)
    (root : PolicyDelegation) (eb : EnforcerBinding) (t : TrustedPolicyDecision) (b : IssuanceBindings) (node : string)
    : result AuthorityError IssuanceAudit :=
  _ ← validate_wire_shape root;
  _ ← ensure ((vs_status_checked_at st <=? ib_now b)%Z && (ib_now b - vs_status_checked_at st <=? MAX_STATUS_AGE)%Z &&
              (ib_now b <? vs_expires_at st)%Z) AuthorityStateUnavailable;
  _ ← validate_challenge c policy enforcement b node;
  _ ← ensure (bool_decide (pd_role root = PolicySessionRoot) &&
              bool_decide (pd_proofs root = [pd_cid policy; pd_cid enforcement])) ProofSetUnmatched;
  d ← depth root;
  _ ← ensure (bool_decide (pd_mode root = mode_of_depth d)) SessionRedelegationInvalid;
  max_depth ← decimal_fact enforcement "maxRedelegationDepth";
  _ ← ensure (d =? max_depth)%N SessionRedelegationInvalid;
  _ ← ensure (bool_decide (pd_issuer root = pd_audience enforcement)) WrongEnforcer;
  _ ← fact_is root "enforcerDid" (pd_audience enforcement) WrongEnforcer;
  _ ← ensure (bool_decide (pd_issuer root = node)) WrongEnforcer;
  _ ← facts_agree root enforcement "nodeAudience" WrongAudience;
  _ ← ensure (bool_decide (pd_audience root = ib_claimant b)) ClaimantMismatch;
  _ ← fact_is root "rootClaimantDid" (ib_claimant b) ClaimantMismatch;
  _ ← fact_is root "sessionSubjectDid" (ib_claimant b) ClaimantMismatch;
  owner ← fact policy "ownerDid";
  id ← fact policy "policyId";
  digest ← fact policy "policyDigestHex";
  ceiling ← fact policy "capabilityCeilingHashHex";
  _ ← for_each (λ '(name, expected), fact_is root name expected FactsMismatch)
        [("ownerDid", owner); ("policyId", id); ("policyDigestHex", digest); ("capabilityCeilingHashHex", ceiling);
         ("policyDelegationCid", pd_cid policy); ("enforcementDelegationCid", pd_cid enforcement);
         ("attestationBindingDigestHex", eb_digest eb); ("claimInvocationDigestHex", ib_claim_digest b);
         ("vpDigestHex", ib_vp_digest b); ("decisionContextDigestHex", tp_digest t)];
  h ← capability_hash root;
  _ ← fact_is root "capabilityHashHex" h CapabilityBroadened;
  _ ← ensure (bool_decide (h = ib_requested_hash b)) CapabilityBroadened;
  _ ← ensure_contained (pd_capabilities root) (pd_capabilities policy) CapabilityBroadened;
  _ ← ensure_contained (pd_capabilities root) (pd_capabilities enforcement) CapabilityBroadened;
  _ ← ensure (bool_decide (eb_enforcer eb = pd_audience enforcement)) AttestationBindingMismatch;
  _ ← fact_is enforcement "nodeAudience" (eb_node_audience eb) AttestationBindingMismatch;
  _ ← ensure (bool_decide (eb_enforcer eb = node)) AttestationBindingMismatch;
  _ ← fact_is enforcement "attestationBindingDigestHex" (eb_digest eb) AttestationBindingMismatch;
  _ ← ensure (ib_now b <? eb_expires_at eb)%Z AttestationExpired;
  context ← expected_context policy enforcement b node;
  _ ← ensure (bool_decide (tp_context t = context) && bool_decide (tp_digest t = context_digest_hex context))
        DecisionContextMismatch;
  _ ← ensure ((tp_evaluated_at t <=? ib_now b)%Z && (ib_now b <? tp_valid_until t)%Z) PolicyDecisionExpired;
  _ ← validate_root_window policy enforcement root st c t b;
  issuance_id ← fact root "issuanceId";
  _ ← ensure (valid_prefixed_base32 issuance_id "peiss_" 26) SchemaInvalid;
  audit ← root_audit policy enforcement root c t b node issuance_id;
  _ ← fact_is root "issuanceAuditDigestHex" (au_digest audit) AuditDigestMismatch;
  Ok audit.

(** ** Descendants *)

Definition MUTABLE_FACTS : list string :=
  ["capabilityHashHex"; "sessionSubjectDid"; "remainingRedelegationDepth"; "rootSessionDelegationCid";
   "immediateParentDelegationCid"].

(** Every other fact of the parent is kept. *)
Definition facts_kept (child parent : PolicyDelegation) : bool :=
  forallb (λ '(key, value),
    bool_decide (key ∈ String.append POLICY_PREFIX <$> MUTABLE_FACTS) ||
    bool_decide (pd_facts child !! key = Some value)) (map_to_list (pd_facts parent)).

Definition validate_descendant (child parent root : PolicyDelegation) : result AuthorityError unit :=
  _ ← validate_wire_shape child;
  _ ← validate_wire_shape parent;
  _ ← validate_wire_shape root;
  _ ← ensure (bool_decide (pd_role child = PolicySessionDescendant) && bool_decide (pd_proofs child = [pd_cid parent]))
        DescendantParentMismatch;
  _ ← fact_is child "immediateParentDelegationCid" (pd_cid parent) DescendantParentMismatch;
  _ ← ensure (negb (bool_decide (pd_mode parent = ConditionalMint))) ConditionalMintNotParent;
  _ ← ensure (negb (bool_decide (pd_mode parent = Terminal))) TerminalParent;
  _ ← ensure (bool_decide (pd_role parent = PolicySessionRoot) || bool_decide (pd_role parent = PolicySessionDescendant))
        RoleModeMismatch;
  _ ← ensure (bool_decide (pd_issuer child = pd_audience parent)) SessionRedelegationInvalid;
  _ ← fact_is child "sessionSubjectDid" (pd_audience child) SessionRedelegationInvalid;
  _ ← fact_is child "rootSessionDelegationCid" (pd_cid root) DescendantAuthorityRootsMismatch;
  _ ← facts_agree child root "policyDelegationCid" DescendantAuthorityRootsMismatch;
  _ ← facts_agree child root "enforcementDelegationCid" DescendantAuthorityRootsMismatch;
  _ ← ensure (facts_kept child parent) DescendantAuthorityRootsMismatch;
  pd ← depth parent;
  cd ← depth child;
  _ ← ensure (negb (pd =? 0)%N && (cd + 1 =? pd)%N && bool_decide (pd_mode child = mode_of_depth cd))
        SessionRedelegationInvalid;
  h ← capability_hash child;
  _ ← fact_is child "capabilityHashHex" h CapabilityBroadened;
  _ ← ensure_contained (pd_capabilities child) (pd_capabilities parent) CapabilityBroadened;
  cnb ← not_before child;
  pnb ← not_before parent;
  _ ← ensure (pnb <? cnb)%Z SessionTimeInvalid;
  cex ← expires_at child;
  pex ← expires_at parent;
  ensure ((cex <? pex)%Z && (cnb <? cex)%Z) SessionTimeInvalid.

(** ** The exact-email policy *)

Record ExactEmailPolicyEvaluation := mkExactEmailPolicyEvaluation {
  ee_policy : PolicyDelegation;
  ee_enforcement : PolicyDelegation;
  ee_policy_state : json;
  ee_sender : string;
  ee_verified_email : string;
  ee_holder : string;
  ee_source : json;
  ee_source_digest : string;
  ee_action : string;
  ee_resource : string;
  ee_owner : string;
  ee_enforcer : string;
  ee_node_audience : string;
  ee_context : DecisionContext;
  ee_now : Z;
  ee_credential_expires_at : Z;
  ee_policy_expires_at : Z;
}.

Definition SHARE_POLICY_KEYS : list string :=
  ["type"; "version"; "recipientEmail"; "contentSource"; "contentSourceDigest"; "action"; "resource"; "expiresAt";
   "issuerDid"].

Definition text_of (object : list (string * json)) (key : string) : option string := obj_get key object ≫= as_str.

Definition evaluate_exact_email_policy (i : ExactEmailPolicyEvaluation) : result AuthorityError TrustedPolicyDecision :=
  object ← ok_or (as_object (ee_policy_state i)) SchemaInvalid;
  _ ← ensure (bool_decide (length object = length SHARE_POLICY_KEYS) &&
              forallb (λ kv, bool_decide (kv.1 ∈ SHARE_POLICY_KEYS)) object &&
              bool_decide (text_of object "type" = Some "TinyCloudSharePolicy") &&
              bool_decide (obj_get "version" object = Some (JNumber (NInt 1)))) SchemaInvalid;
  recipient ← ok_or (text_of object "recipientEmail") PolicyMismatch;
  normalized ← map_err (λ _, PolicyMismatch) (normalize_email recipient);
  _ ← ensure (bool_decide (normalized = ee_verified_email i) &&
              bool_decide (obj_get "contentSource" object = Some (ee_source i)) &&
              bool_decide (text_of object "contentSourceDigest" = Some (ee_source_digest i)) &&
              bool_decide (text_of object "action" = Some (ee_action i)) &&
              bool_decide (text_of object "resource" = Some (ee_resource i)) &&
              bool_decide (text_of object "issuerDid" = Some (ee_sender i))) PolicyMismatch;
  expires ← ok_or (text_of object "expiresAt") PolicyDecisionExpired;
  policy_expiry ← ok_or (rfc3339_parse expires) PolicyDecisionExpired;
  _ ← ensure ((ee_policy_expires_at i <=? policy_expiry)%Z && (ee_now i <? policy_expiry)%Z &&
              (ee_now i <? ee_credential_expires_at i)%Z && (policy_expiry <=? ee_credential_expires_at i)%Z)
        PolicyDecisionExpired;
  _ ← ensure (bool_decide (dc_claimant (ee_context i) = ee_holder i) && bool_decide (dc_owner (ee_context i) = ee_owner i) &&
              bool_decide (dc_enforcer (ee_context i) = ee_enforcer i) &&
              bool_decide (dc_node_audience (ee_context i) = ee_node_audience i) &&
              bool_decide (pd_audience (ee_policy i) = ee_node_audience i) &&
              bool_decide (pd_audience (ee_enforcement i) = ee_enforcer i)) PolicyMismatch;
  _ ← fact_is (ee_enforcement i) "nodeAudience" (ee_node_audience i) PolicyMismatch;
  _ ← fact_is (ee_enforcement i) "enforcerDid" (ee_enforcer i) PolicyMismatch;
  st ← policy_state_from_verified (ee_policy i) (ee_enforcement i) (ee_now i) policy_expiry;
  _ ← validate_authority_pair (ee_policy i) (ee_enforcement i) st (ee_enforcer i);
  Ok (decision_from_evaluation (ee_context i) (ee_now i) policy_expiry).

End Validators.

(** ** Verified artifacts

    [VerifiedDelegation] is built by the verifier alone; what the kernels rely on is
    that a verified artifact has the wire shape and is determined by its CID. *)
Class VerifiedArtifacts `{Rfc3339} `{Nfc} `{FloatText} `{Sha256} (verified : PolicyDelegation → Prop) := {
  verified_wire d : verified d → validate_wire_shape d = Ok tt;
  verified_inj d e : verified d → verified e → pd_cid d = pd_cid e → d = e;
}.

(** ** Facts of the validators *)

Lemma fact_is_Ok d name v e : fact_is d name v e = Ok tt ↔ fact d name = Ok v.
Proof.
  unfold fact_is. rewrite bind_Ok. split.
  - by intros (f & Hf & ->%ensure_Ok%bool_decide_eq_true).
  - intros Hf. exists v. split; [done|]. by apply ensure_Ok, bool_decide_eq_true.
Qed.

Lemma facts_agree_Ok a b name e : facts_agree a b name e = Ok tt ↔ ∃ v, fact a name = Ok v ∧ fact b name = Ok v.
Proof.
  unfold facts_agree. rewrite bind_Ok. setoid_rewrite bind_Ok. split.
  - intros (f & Hf & g & Hg & ->%ensure_Ok%bool_decide_eq_true). eauto.
  - intros (v & Ha & Hb). exists v. split; [done|]. exists v. split; [done|]. by apply ensure_Ok, bool_decide_eq_true.
Qed.

Section Facts.
Context `{Rfc3339} `{Nfc} `{FloatText} `{Sha256}.

Lemma canonical_capabilities_Ok values caps :
  canonical_capabilities values = Ok caps → values = canonical_value <$> caps.
Proof.
  unfold canonical_capabilities. rewrite try_map_Ok. induction 1 as [|v c values caps Hc _ IH]; [done|].
  unfold canonical_capability in Hc. apply bind_Ok in Hc as (c' & _ & Hc). apply bind_Ok in Hc as ([] & _ & Hc).
  apply bind_Ok in Hc as ([] & Heq%ensure_Ok%bool_decide_eq_true & Hc). injection Hc as ->. cbn. by rewrite <- IH, Heq.
Qed.

(** Containment of capability sets: every child is within some parent. *)
Definition contained (children parents : list json) : Prop :=
  ∃ cs ps, canonical_capabilities children = Ok cs ∧ canonical_capabilities parents = Ok ps ∧
    ∀ c, c ∈ cs → ∃ p, p ∈ ps ∧ contains p c = Ok tt.

Lemma ensure_contained_Ok children parents e :
  ensure_contained children parents e = Ok tt → contained children parents.
Proof.
  unfold ensure_contained, capability_set_contained. intros He. apply bind_Ok in He as (ok & Hset & Hok0%ensure_Ok).
  apply bind_Ok in Hset as (cs & Hcs & Hset). apply bind_Ok in Hset as (ps & Hps & Hset). injection Hset as Hall.
  rewrite Hok0 in Hall. exists cs, ps. split_and!; [done|done|]. intros c Hc.
  rewrite forallb_forall in Hall. apply list_elem_of_In in Hc. apply Hall, existsb_exists in Hc as (p & Hp & Hok).
  exists p. split; [by apply list_elem_of_In|]. by destruct (contains p c) as [[]|].
Qed.

Lemma contained_trans a b c : contained a b → contained b c → contained a c.
Proof.
  intros (ca & cb & Ha & Hb & Hab) (cb' & cc & Hb' & Hc & Hbc). rewrite Hb in Hb'. injection Hb' as <-.
  exists ca, cc. split_and!; [done|done|]. intros x (p & Hp & Hpx)%Hab. destruct (Hbc p Hp) as (q & Hq & Hqp).
  exists q. split; [done|]. by eapply contains_trans.
Qed.

End Facts.

(** What an accepted descendant is relative to its parent. *)
Section Consequences.
Context `{Rfc3339} `{Nfc} `{FloatText} `{Sha256}.

Record descends (child parent root : PolicyDelegation) : Prop := {
  ds_role : pd_role child = PolicySessionDescendant;
  ds_proofs : pd_proofs child = [pd_cid parent];
  ds_parent_mode : pd_mode parent = Attenuable;
  ds_parent_role : pd_role parent = PolicySessionRoot ∨ pd_role parent = PolicySessionDescendant;
  ds_issuer : pd_issuer child = pd_audience parent;
  ds_root : fact child "rootSessionDelegationCid" = Ok (pd_cid root);
  ds_facts : ∀ name v, name ∉ MUTABLE_FACTS → fact parent name = Ok v → fact child name = Ok v;
  ds_depth : ∃ p c, depth parent = Ok p ∧ depth child = Ok c ∧ (c + 1 = p)%N;
  ds_caps : contained (pd_capabilities child) (pd_capabilities parent);
  ds_window : ∃ cn cx pn px, not_before child = Ok cn ∧ expires_at child = Ok cx ∧ not_before parent = Ok pn ∧
    expires_at parent = Ok px ∧ (pn < cn < cx ∧ cx < px)%Z;
}.

Lemma prefix_inj a b : POLICY_PREFIX +:+ a = POLICY_PREFIX +:+ b → a = b.
Proof. apply append_inj_l. Qed.

Lemma facts_kept_spec child parent name v :
  facts_kept child parent = true → name ∉ MUTABLE_FACTS → fact parent name = Ok v → fact child name = Ok v.
Proof.
  unfold facts_kept, fact. rewrite forallb_forall. intros Hall Hname Hp%ok_or_Ok. apply ok_or_Ok.
  specialize (Hall (POLICY_PREFIX +:+ name, v)). cbv beta iota in Hall. apply orb_true_iff in Hall as [Hin|Hc].
  - apply bool_decide_eq_true, list_elem_of_fmap in Hin as (n & Heq%prefix_inj & Hn). by subst.
  - by apply bool_decide_eq_true in Hc.
  - by apply list_elem_of_In, elem_of_map_to_list.
Qed.

Lemma wire_mode d : validate_wire_shape d = Ok tt → (wire_profile d).1.1.1 = true.
Proof.
  unfold validate_wire_shape. intros Hw. do 5 (apply bind_Ok in Hw as (? & _ & Hw)).
  destruct (wire_profile d) as [[[mode_ok n] names] suite]. apply bind_Ok in Hw as ([] & Hm%ensure_Ok & _).
  simpl. by apply andb_true_iff in Hm as [? _].
Qed.

Lemma validate_descendant_Ok child parent root : validate_descendant child parent root = Ok tt → descends child parent root.
Proof.
  unfold validate_descendant. intros Hv. apply bind_Ok in Hv as ([] & _ & Hv). apply bind_Ok in Hv as ([] & Hwp & Hv).
  apply bind_Ok in Hv as ([] & _ & Hv). apply bind_Ok in Hv as ([] & [Hr Hpr]%ensure_Ok%andb_true_iff & Hv).
  apply bind_Ok in Hv as ([] & _ & Hv). apply bind_Ok in Hv as ([] & Hcm%ensure_Ok%negb_true_iff & Hv).
  apply bind_Ok in Hv as ([] & Htm%ensure_Ok%negb_true_iff & Hv). apply bind_Ok in Hv as ([] & Hrole%ensure_Ok%orb_true_iff & Hv).
  apply bind_Ok in Hv as ([] & Hiss%ensure_Ok & Hv). apply bind_Ok in Hv as ([] & _ & Hv).
  apply bind_Ok in Hv as ([] & Hroot%fact_is_Ok & Hv). apply bind_Ok in Hv as ([] & _ & Hv).
  apply bind_Ok in Hv as ([] & _ & Hv). apply bind_Ok in Hv as ([] & Hkept%ensure_Ok & Hv).
  apply bind_Ok in Hv as (p & Hp & Hv). apply bind_Ok in Hv as (c & Hc & Hv). apply bind_Ok in Hv as ([] & Hd%ensure_Ok & Hv).
  apply bind_Ok in Hv as (h & _ & Hv). apply bind_Ok in Hv as ([] & _ & Hv). apply bind_Ok in Hv as ([] & Hcaps%ensure_contained_Ok & Hv).
  apply bind_Ok in Hv as (cn & Hcn & Hv). apply bind_Ok in Hv as (pn & Hpn & Hv). apply bind_Ok in Hv as ([] & Hw1%ensure_Ok & Hv).
  apply bind_Ok in Hv as (cx & Hcx & Hv). apply bind_Ok in Hv as (px & Hpx & Hw2%ensure_Ok).
  rewrite !bool_decide_eq_true in Hr, Hpr, Hiss. rewrite bool_decide_eq_false in Hcm, Htm. rewrite !bool_decide_eq_true in Hrole.
  rewrite !andb_true_iff, negb_true_iff in *. destruct Hd as [[Hd0 Hd1%N.eqb_eq] _].
  apply Z.ltb_lt in Hw1. rewrite !Z.ltb_lt in Hw2.
  assert (pd_mode parent = Attenuable) as Hmode.
  { apply wire_mode in Hwp. unfold wire_profile in Hwp. destruct Hrole as [Hrole|Hrole]; rewrite Hrole in Hwp; simpl in Hwp;
      apply orb_true_iff in Hwp as [Hm|Hm]; apply bool_decide_eq_true in Hm; done. }
  split; try done; [by intros name v; apply facts_kept_spec|by exists p, c|]. exists cn, cx, pn, px. split_and!; try done; lia.
Qed.

Record roots (policy enforcement root : PolicyDelegation) (node : string) : Prop := {
  rt_policy : pd_role policy = PolicyAuthority;
  rt_enforcement : pd_role enforcement = PolicyEnforcement;
  rt_role : pd_role root = PolicySessionRoot;
  rt_proofs : pd_proofs root = [pd_cid policy; pd_cid enforcement];
  rt_owner : fact policy "ownerDid" = Ok (pd_issuer policy);
  rt_issuers : pd_issuer enforcement = pd_issuer policy;
  rt_root_owner : fact root "ownerDid" = Ok (pd_issuer policy);
  rt_policy_id : ∃ id, fact policy "policyId" = Ok id ∧ fact root "policyId" = Ok id;
  rt_node : pd_issuer root = node ∧ pd_audience enforcement = node;
  rt_caps : contained (pd_capabilities root) (pd_capabilities policy) ∧
            contained (pd_capabilities root) (pd_capabilities enforcement);
  rt_window : ∃ rn rx pn px en ex ttl, not_before root = Ok rn ∧ expires_at root = Ok rx ∧ not_before policy = Ok pn ∧
    expires_at policy = Ok px ∧ not_before enforcement = Ok en ∧ expires_at enforcement = Ok ex ∧
    decimal_fact enforcement "maxSessionTtlSeconds" = Ok ttl ∧
    (pn ≤ rn ∧ en ≤ rn ∧ rn < rx ∧ rx ≤ px ∧ rx ≤ ex ∧ rx ≤ rn + Z.of_N ttl * 1000000000)%Z ∧ (ttl ≤ 300)%N;
}.

Lemma validate_root_window_Ok policy enforcement root st c t b :
  validate_root_window policy enforcement root st c t b = Ok tt →
  ∃ rn rx pn px en ex ttl, not_before root = Ok rn ∧ expires_at root = Ok rx ∧ not_before policy = Ok pn ∧
    expires_at policy = Ok px ∧ not_before enforcement = Ok en ∧ expires_at enforcement = Ok ex ∧
    decimal_fact enforcement "maxSessionTtlSeconds" = Ok ttl ∧
    (pn ≤ rn ∧ en ≤ rn ∧ rn < rx ∧ rx ≤ px ∧ rx ≤ ex ∧ rx ≤ rn + Z.of_N ttl * 1000000000)%Z.
Proof.
  unfold validate_root_window. intros Hv. apply bind_Ok in Hv as (rn & Hrn & Hv). apply bind_Ok in Hv as (rx & Hrx & Hv).
  apply bind_Ok in Hv as (ttl & Httl & Hv). apply bind_Ok in Hv as (px & Hpx & Hv). apply bind_Ok in Hv as (ex & Hex & Hv).
  apply bind_Ok in Hv as (pn & Hpn & Hv). apply bind_Ok in Hv as ([] & Hnb%ensure_Ok & Hv).
  apply bind_Ok in Hv as (en & Hen & Hrest%ensure_Ok). rewrite !andb_true_iff, !Z.leb_le, Z.ltb_lt in Hrest. apply Z.leb_le in Hnb.
  simpl in Hrest. exists rn, rx, pn, px, en, ex, ttl. split_and!; try done; lia.
Qed.

Lemma validate_root_Ok policy enforcement st c root eb t b node audit :
  validate_authority_pair policy enforcement st node = Ok tt →
  validate_root policy enforcement st c root eb t b node = Ok audit → roots policy enforcement root node.
Proof.
  unfold validate_authority_pair. intros Hp. do 2 (apply bind_Ok in Hp as ([] & _ & Hp)).
  apply bind_Ok in Hp as ([] & Hroles%ensure_Ok & Hp). apply bind_Ok in Hp as ([] & Hiss%ensure_Ok%bool_decide_eq_true & Hp).
  apply bind_Ok in Hp as ([] & _ & Hp). apply bind_Ok in Hp as ([] & Howner%fact_is_Ok & Hp).
  apply bind_Ok in Hp as (id & Hid & Hp). do 11 (apply bind_Ok in Hp as (? & _ & Hp)).
  apply bind_Ok in Hp as ([] & Hnode%ensure_Ok%bool_decide_eq_true & Hp). apply bind_Ok in Hp as (ttl & Httl & Hp).
  apply bind_Ok in Hp as (d & _ & Hp). apply bind_Ok in Hp as ([] & Hbound%ensure_Ok & _).
  unfold validate_root. intros Hv. apply bind_Ok in Hv as ([] & _ & Hv). do 2 (apply bind_Ok in Hv as ([] & _ & Hv)).
  apply bind_Ok in Hv as ([] & [Hrole Hproofs]%ensure_Ok%andb_true_iff & Hv). do 4 (apply bind_Ok in Hv as (? & _ & Hv)).
  do 2 (apply bind_Ok in Hv as ([] & _ & Hv)). apply bind_Ok in Hv as ([] & Hissuer%ensure_Ok%bool_decide_eq_true & Hv).
  do 4 (apply bind_Ok in Hv as ([] & _ & Hv)). apply bind_Ok in Hv as (owner & Ho & Hv). apply bind_Ok in Hv as (id' & Hid' & Hv).
  apply bind_Ok in Hv as (digest & _ & Hv). apply bind_Ok in Hv as (ceiling & _ & Hv).
  apply bind_Ok in Hv as ([] & Hfacts & Hv). rewrite for_each_Ok in Hfacts.
  apply bind_Ok in Hv as (h & _ & Hv). do 2 (apply bind_Ok in Hv as ([] & _ & Hv)).
  apply bind_Ok in Hv as ([] & Hc1%ensure_contained_Ok & Hv). apply bind_Ok in Hv as ([] & Hc2%ensure_contained_Ok & Hv).
  do 5 (apply bind_Ok in Hv as ([] & _ & Hv)). apply bind_Ok in Hv as (context & _ & Hv).
  do 2 (apply bind_Ok in Hv as ([] & _ & Hv)). apply bind_Ok in Hv as ([] & Hwin%validate_root_window_Ok & _).
  rewrite Howner in Ho. injection Ho as <-. rewrite Hid in Hid'. injection Hid' as <-.
  pose proof (Hfacts _ ltac:(by left)) as Hro%fact_is_Ok. pose proof (Hfacts _ ltac:(by right; left)) as Hrid%fact_is_Ok.
  rewrite !andb_true_iff, !bool_decide_eq_true in Hroles. rewrite !bool_decide_eq_true in Hrole, Hproofs.
  rewrite !andb_true_iff, !N.leb_le in Hbound.
  destruct Hroles as [[[[[? ?] ?] ?] ?] ?]. split; try done; [by exists id|].
  destruct Hwin as (rn & rx & pn & px & en & ex & ttl' & ? & ? & ? & ? & ? & ? & Httl' & ?). rewrite Httl in Httl'.
  injection Httl' as <-. exists rn, rx, pn, px, en, ex, ttl. split_and!; try done; tauto.
Qed.

End Consequences.
