(* ===== verification/PolicyVerifier.v ===== *)
(** * Verification of policy artifacts: tinycloud-core/src/policy_authority/verifier.rs
      and mod.rs 118-124, 226-356

    The strict I-JSON reader of artifacts, their JSON form, the canonical bytes a
    signature and a CID are computed over, and the verifier that yields a
    [VerifiedDelegation].  Digests, signature recovery and the textual CID are
    parameters. *)
From stdpp Require Import sorting.
From S2P Require Import Prelude Str Chars Json Identity Tables Jcs PolicyCapability Evidence PolicyDelegation.

(** [VerifyingKey::recover_from_prehash] of [k256]: prehash, 64 bytes of signature
    and recovery bit to the uncompressed point. *)
Class Recover := recover_from_prehash : string → string → N → option string.

(** ** Reading *)

(** The errors of [StrictVisitor] and of the tokenizer. *)
Inductive StrictError := Canonicalization | NotStrict.

Definition strict_text `{Nfc} (s : string) : result StrictError string :=
  _ ← ensure (bool_decide (nfc s = s)) Canonicalization; Ok s.

Fixpoint strict_json `{Nfc} `{JsonText} (r : raw) : result StrictError json :=
  match r with
  | RNull => Ok JNull
  | RBool b => Ok (JBool b)
  | RInt z => _ ← ensure (Z.abs z <=? MAX_SAFE_INTEGER)%Z NotStrict; Ok (JNumber (NInt z))
  | RFloat f => _ ← ensure (negb (float_unsafe f)) NotStrict; Ok (JNumber (NFloat f))
  | RString s => s ← strict_text s; Ok (JString s)
  | RArray l closed => vs ← try_map strict_json l; _ ← ensure closed NotStrict; Ok (JArray vs)
  | RObject m closed =>
      (fix go m object :=
         match m with
         | [] => _ ← ensure closed NotStrict; Ok (JObject object)
         | (key, r) :: m =>
             key ← strict_text key;
             _ ← ensure (bool_decide (obj_get key object = None)) NotStrict;
             v ← strict_json r;
             go m (obj_insert key v object)
         end) m []
  | RBad => Err NotStrict
  end.

Definition strict_json_value `{Nfc} `{JsonText} (bytes : string) : result AuthorityError json :=
  let '(r, ended) := json_read bytes in
  v ← map_err (λ e, match e with Canonicalization => CanonicalizationMismatch | NotStrict => SchemaInvalid end) (strict_json r);
  _ ← ensure ended SchemaInvalid;
  Ok v.

(** ** The JSON form of an artifact *)

Definition role_wire (r : DelegationRole) : string :=
  match r with
  | PolicyAuthority => "policy-authority"
  | PolicyEnforcement => "policy-enforcement"
  | PolicySessionRoot => "policy-session-root"
  | PolicySessionDescendant => "policy-session-descendant"
  end.
Definition mode_wire (m : DelegationMode) : string :=
  match m with
  | PolicySource => "policy-source"
  | ConditionalMint => "conditional-mint"
  | Attenuable => "attenuable"
  | Terminal => "terminal"
  end.

(** A [BTreeMap<String, String>] in key order. *)
Definition facts_value (facts : gmap string string) : json :=
  JObject (foldr (λ '(k, v), obj_insert k (JString v)) [] (map_to_list facts)).

Definition signature_value (d : PolicyDelegation) : json :=
  JObject [("suite", JString (pd_suite d)); ("value", JString (pd_signature d))].

(** [serde_json::to_value]; keys in order. *)
Definition to_value (d : PolicyDelegation) : list (string * json) :=
  [("audienceDid", JString (pd_audience d)); ("capabilities", JArray (pd_capabilities d));
   ("delegationCid", JString (pd_cid d)); ("delegationMode", JString (mode_wire (pd_mode d)));
   ("expiresAt", JString (pd_expires_at d)); ("facts", facts_value (pd_facts d));
   ("issuerDid", JString (pd_issuer d)); ("notBefore", JString (pd_not_before d));
   ("proofCids", JArray (JString <$> pd_proofs d)); ("role", JString (role_wire (pd_role d)));
   ("schema", JString (pd_schema d)); ("signature", signature_value d)].

Definition without (keys : list string) (object : list (string * json)) : list (string * json) :=
  List.filter (λ kv, negb (bool_decide (kv.1 ∈ keys))) object.

(** [serde_json::from_value] with [deny_unknown_fields]. *)
Definition parse_role (s : string) : option DelegationRole :=
  find (λ r, bool_decide (role_wire r = s)) [PolicyAuthority; PolicyEnforcement; PolicySessionRoot; PolicySessionDescendant].
Definition parse_mode (s : string) : option DelegationMode :=
  find (λ m, bool_decide (mode_wire m = s)) [PolicySource; ConditionalMint; Attenuable; Terminal].

Definition FIELDS : list string :=
  ["audienceDid"; "capabilities"; "delegationCid"; "delegationMode"; "expiresAt"; "facts"; "issuerDid"; "notBefore";
   "proofCids"; "role"; "schema"; "signature"].

Definition parse_facts (v : json) : option (gmap string string) :=
  m ← as_object v;
  foldr (λ '(k, v) acc, f ← acc; s ← as_str v; Some (<[k := s]> f)) (Some ∅) m.

(** The fields of the object, in declaration order. *)
Definition text (m : list (string * json)) (key : string) : option string := obj_get key m ≫= as_str.
Definition only (fields : list string) (m : list (string * json)) : bool := forallb (λ kv, bool_decide (kv.1 ∈ fields)) m.

Definition parse_signature (v : json) : option (string * string) :=
  m ← as_object v;
  if only ["suite"; "value"] m then suite ← text m "suite"; value ← text m "value"; Some (suite, value) else None.

Definition parse_texts (v : json) : option (list string) := l ← as_array v; mapM as_str l.

Definition from_value (v : json) : option PolicyDelegation :=
  m ← as_object v;
  if only FIELDS m then
    schema ← text m "schema";
    role ← (s ← text m "role"; parse_role s);
    cid ← text m "delegationCid";
    issuer ← text m "issuerDid";
    audience ← text m "audienceDid";
    capabilities ← (v ← obj_get "capabilities" m; as_array v);
    proofs ← (v ← obj_get "proofCids" m; parse_texts v);
    nb ← text m "notBefore";
    ex ← text m "expiresAt";
    mode ← (s ← text m "delegationMode"; parse_mode s);
    facts ← (v ← obj_get "facts" m; parse_facts v);
    '(suite, value) ← (v ← obj_get "signature" m; parse_signature v);
    Some (mkPolicyDelegation schema role cid issuer audience capabilities proofs nb ex mode facts suite value)
  else None.

Section Verifier.
Context `{Rfc3339} `{Nfc} `{FloatText} `{Sha256} `{JsonText} `{EvidenceLib} `{Blake3} `{CidLib} `{Keccak256} `{Recover}.

Definition from_json (bytes : string) : result AuthorityError PolicyDelegation :=
  value ← strict_json_value bytes;
  artifact ← ok_or (from_value value) SchemaInvalid;
  _ ← validate_wire_shape artifact;
  Ok artifact.

(** ** Canonical bytes *)

Definition RAW_CODEC : N := 85.
Definition ROOT_DOMAIN : string := "xyz.tinycloud.policy/enforcement-delegation/v1" +:+ String (char 0) "".

Definition canonical_unsigned (d : PolicyDelegation) : string :=
  canonicalize (JObject (without ["signature"; "delegationCid"] (to_value d))).
Definition canonical_cid (d : PolicyDelegation) : string :=
  canonicalize (JObject (without ["delegationCid"] (to_value d))).
Definition cid_for_artifact (d : PolicyDelegation) : string :=
  cid_to_string (mkCid 1 RAW_CODEC (hash (canonical_cid d))).
Definition signing_bytes (unsigned : string) : string := bytes_string (sha256_digest (ROOT_DOMAIN +:+ unsigned)).

(** ** Signatures *)

Definition PREIMAGE : string := String (char 25) ("Ethereum Signed Message:" +:+ String (char 10) "32").

Definition recovery_id (v : N) : option N :=
  if (v =? 27)%N || (v =? 28)%N then Some (v - 27)%N else if (v =? 0)%N || (v =? 1)%N then Some v else None.

(** The last segment of the DID is a 20-byte address. *)
Definition issuer_address (did : string) : option string :=
  value ← last (split_char ":" did);
  value ← strip_prefix "0x" value;
  bytes ← hex_decode value;
  if bool_decide (String.length bytes = 20) then Some bytes else None.

Definition verify_eip191 (d : PolicyDelegation) (unsigned signature : string) : result AuthorityError unit :=
  _ ← ensure (bool_decide (String.length signature = 65)) SchemaInvalid;
  recovery ← ok_or (String.get 64 signature ≫= λ c, recovery_id (code c)) SchemaInvalid;
  let prehash := bytes_string (keccak256_digest (PREIMAGE +:+ signing_bytes unsigned)) in
  public ← ok_or (recover_from_prehash prehash (String.substring 0 64 signature) recovery) SchemaInvalid;
  let address := keccak256_digest (String.substring 1 (String.length public - 1) public) in
  expected ← ok_or (issuer_address (pd_issuer d)) SchemaInvalid;
  ensure (bool_decide (drop 12 address = string_bytes expected)) OwnerMismatch.

Definition verify_ed25519_artifact (d : PolicyDelegation) (unsigned signature : string) : result AuthorityError unit :=
  _ ← ensure (bool_decide (String.length signature = 64)) SchemaInvalid;
  map_err (λ _, SchemaInvalid) (verify_detached_ed25519 (pd_issuer d) (signing_bytes unsigned) signature).

Definition verify_artifact (d : PolicyDelegation) : result AuthorityError unit :=
  let unsigned := canonical_unsigned d in
  _ ← ensure (bool_decide (pd_cid d = cid_for_artifact d)) SchemaInvalid;
  signature ← ok_or (b64url_decode (pd_signature d)) SchemaInvalid;
  _ ← ensure (bool_decide (b64url_encode signature = pd_signature d)) SchemaInvalid;
  if decide (pd_suite d = EIP191_SUITE) then verify_eip191 d unsigned signature
  else if decide (pd_suite d = ED25519_SUITE) then verify_ed25519_artifact d unsigned signature
  else Err SchemaInvalid.

Definition verify (bytes : string) : result AuthorityError PolicyDelegation :=
  artifact ← from_json bytes;
  _ ← verify_artifact artifact;
  Ok artifact.

(** ** The node's signer *)

Record NodeRootSigner := mkNodeRootSigner { signer_did : string; signer_sign : string → result AuthorityError string }.

Definition with_signature (d : PolicyDelegation) (suite value : string) : PolicyDelegation :=
  mkPolicyDelegation (pd_schema d) (pd_role d) (pd_cid d) (pd_issuer d) (pd_audience d) (pd_capabilities d) (pd_proofs d)
    (pd_not_before d) (pd_expires_at d) (pd_mode d) (pd_facts d) suite value.
Definition with_cid (d : PolicyDelegation) (cid : string) : PolicyDelegation :=
  mkPolicyDelegation (pd_schema d) (pd_role d) cid (pd_issuer d) (pd_audience d) (pd_capabilities d) (pd_proofs d)
    (pd_not_before d) (pd_expires_at d) (pd_mode d) (pd_facts d) (pd_suite d) (pd_signature d).

(** [json_print] is [serde_json::to_vec]. *)
Definition sign_and_verify_root (json_print : json → string) (d : PolicyDelegation) (signer : NodeRootSigner)
    : result AuthorityError PolicyDelegation :=
  _ ← ensure (bool_decide (pd_role d = PolicySessionRoot) && bool_decide (pd_suite d = ED25519_SUITE) &&
              bool_decide (pd_issuer d = signer_did signer)) WrongEnforcer;
  signature ← signer_sign signer (signing_bytes (canonical_unsigned d));
  let d := with_signature d ED25519_SUITE (b64url_encode signature) in
  let d := with_cid d (cid_for_artifact d) in
  verified ← verify (json_print (JObject (to_value d)));
  _ ← ensure (bool_decide (pd_issuer verified = signer_did signer)) WrongEnforcer;
  Ok verified.

End Verifier.

(** ** Reading an artifact back *)

Lemma parse_role_wire r : parse_role (role_wire r) = Some r.
Proof. by destruct r. Qed.
Lemma parse_mode_wire m : parse_mode (mode_wire m) = Some m.
Proof. by destruct m. Qed.

Lemma parse_texts_wire l : parse_texts (JArray (JString <$> l)) = Some l.
Proof. unfold parse_texts. cbn. induction l as [|s l IH]; [done|]. cbn. by rewrite IH. Qed.

(** An object in key order with one entry per fact. *)
Definition sorted_facts (l : list (string * string)) : list (string * json) :=
  foldr (λ '(k, v), obj_insert k (JString v)) [] l.

Lemma sorted_facts_perm l : NoDup l.*1 → sorted_facts l ≡ₚ prod_map id JString <$> l.
Proof.
  induction l as [|[k v] l IH]; [done|]. cbn [fmap list_fmap fst]. intros [Hk Hl]%NoDup_cons. specialize (IH Hl).
  change (sorted_facts ((k, v) :: l)) with (obj_insert k (JString v) (sorted_facts l)).
  rewrite obj_insert_perm, IH; [done|]. rewrite IH, <- list_fmap_compose. exact Hk.
Qed.

Lemma sorted_facts_sorted l : NoDup l.*1 → StronglySorted key_lt (sorted_facts l).
Proof.
  induction l as [|[k v] l IH]; [constructor|]. cbn [fmap list_fmap fst]. intros [Hk Hl]%NoDup_cons.
  change (sorted_facts ((k, v) :: l)) with (obj_insert k (JString v) (sorted_facts l)).
  apply obj_insert_sorted; [|by apply IH]. rewrite (sorted_facts_perm l Hl), <- list_fmap_compose. exact Hk.
Qed.

(** Reading entries into a map does not depend on their order. *)
Lemma parse_entries (l : list (string * string)) (m : list (string * json)) :
  m = prod_map id JString <$> l →
  foldr (λ '(k, v) acc, f ← acc; s ← as_str v; Some (<[k := s]> f)) (Some ∅) m = Some (list_to_map (M := gmap string string) l).
Proof. intros ->. induction l as [|[k v] l IH]; [done|]. cbn. rewrite IH. done. Qed.

Lemma facts_perm_inv (m : list (string * json)) (l : list (string * string)) :
  m ≡ₚ prod_map id JString <$> l → ∃ l', m = prod_map id JString <$> l' ∧ l' ≡ₚ l.
Proof. intros (l' & -> & Hl)%Permutation_map_inv. by exists l'. Qed.

Lemma parse_facts_wire facts : parse_facts (facts_value facts) = Some facts.
Proof.
  unfold parse_facts, facts_value. cbn [as_object]. fold (sorted_facts (map_to_list facts)).
  pose proof (NoDup_fst_map_to_list facts) as Hnd.
  destruct (facts_perm_inv _ _ (sorted_facts_perm _ Hnd)) as (l' & Hl & Hp).
  change (foldr (λ '(k, v) acc, f ← acc; s ← as_str v; Some (<[k := s]> f)) (Some (∅ : gmap string string)) (sorted_facts (map_to_list facts)) = Some facts).
  rewrite (parse_entries l' _ Hl). f_equal. rewrite <- (list_to_map_to_list facts).
  apply list_to_map_proper; [|done]. by rewrite Hp.
Qed.

Lemma bind_Some_step {A B} (o : option A) (f : A → option B) a r : o = Some a → f a = r → o ≫= f = r.
Proof. by intros -> <-. Qed.

Lemma from_to_value (d : PolicyDelegation) : from_value (JObject (to_value d)) = Some d.
Proof.
  unfold from_value. eapply bind_Some_step; [reflexivity|]. replace (only FIELDS (to_value d)) with true by by vm_compute.
  eapply bind_Some_step; [reflexivity|]. eapply bind_Some_step; [exact (parse_role_wire _)|].
  do 3 (eapply bind_Some_step; [reflexivity|]). eapply bind_Some_step; [reflexivity|].
  eapply bind_Some_step; [exact (parse_texts_wire _)|]. do 2 (eapply bind_Some_step; [reflexivity|]).
  eapply bind_Some_step; [exact (parse_mode_wire _)|]. eapply bind_Some_step; [exact (parse_facts_wire _)|].
  eapply bind_Some_step; [reflexivity|]. by destruct d.
Qed.

(** Reading the JSON form of an artifact gives the artifact back. *)
Theorem artifact_roundtrip (d : PolicyDelegation) : from_value (JObject (to_value d)) = Some d.
Proof. apply from_to_value. Qed.

(** ** One artifact per CID *)

Fixpoint integral (v : json) : bool :=
  match v with
  | JNumber (NFloat _) => false
  | JArray l => forallb integral l
  | JObject m => forallb (λ kv, integral kv.2) m
  | _ => true
  end.

Section Reader.
Context `{Nfc} `{JsonText}.

(** What the strict reader yields has keys in order and integers of the safe range. *)
Fixpoint strict_form (v : json) : Prop :=
  match v with
  | JNumber (NInt z) => (Z.abs z ≤ MAX_SAFE_INTEGER)%Z
  | JArray l => foldr (λ x P, strict_form x ∧ P) True l
  | JObject m => StronglySorted key_lt m ∧ foldr (λ kv P, strict_form kv.2 ∧ P) True m
  | _ => True
  end.

Lemma strict_form_array l : strict_form (JArray l) ↔ Forall strict_form l.
Proof. induction l as [|x l IH]; simpl; [done|]. rewrite Forall_cons. tauto. Qed.
Lemma strict_form_object m : strict_form (JObject m) ↔ StronglySorted key_lt m ∧ Forall (λ kv, strict_form kv.2) m.
Proof. simpl. apply and_iff_compat_l. induction m as [|x m IH]; simpl; [done|]. rewrite Forall_cons. tauto. Qed.

Lemma strict_form_wf v : integral v = true → strict_form v → wf_json v.
Proof.
  induction v as [|b|n|s|l IH|m IH] using json_nested_ind; try done.
  - destruct n as [z|]; [|done]. intros _. simpl. unfold MAX_SAFE_INTEGER. lia.
  - rewrite strict_form_array, wf_array. simpl. rewrite forallb_forall, !Forall_forall in *. intros Hi Hs x Hx.
    apply IH; [done| |by apply Hs]. by apply Hi, list_elem_of_In.
  - rewrite strict_form_object, wf_object. simpl. rewrite forallb_forall, !Forall_forall in *. intros Hi [Hk Hs].
    split; [done|]. intros x Hx. apply IH; [done| |by apply Hs]. by apply Hi, list_elem_of_In.
Qed.

Lemma strict_json_form r v : strict_json r = Ok v → strict_form v.
Proof.
  revert v. induction r as [|b|z|f|s|l c IH|m c IH|] using raw_nested_ind; intros v Hv; cbn [strict_json] in *; try done.
  1, 2: by injection Hv as <-.
  - apply bind_Ok in Hv as ([] & Hz%ensure_Ok%Z.leb_le & Hv). by injection Hv as <-.
  - apply bind_Ok in Hv as ([] & _ & Hv). by injection Hv as <-.
  - apply bind_Ok in Hv as (s' & _ & Hv). by injection Hv as <-.
  - apply bind_Ok in Hv as (vs & Hvs%try_map_Ok & Hv). apply bind_Ok in Hv as ([] & _ & Hv). injection Hv as <-.
    apply strict_form_array. revert IH. induction Hvs as [|r w l vs Hw _ IHvs]; intros IH; [done|].
    apply Forall_cons in IH as [IH IHl]. constructor; auto.
  - assert (∀ object, strict_form (JObject object) →
      ∀ w, (fix go m object := match m with [] => _ ← ensure c NotStrict; Ok (JObject object)
            | (key, r) :: m => key ← strict_text key; _ ← ensure (bool_decide (obj_get key object = None)) NotStrict;
                               v ← strict_json r; go m (obj_insert key v object) end) m object = Ok w → strict_form w)
      as Hgo; [|eapply Hgo; [|exact Hv]; apply strict_form_object; split; constructor].
    clear v Hv. induction IH as [|[k r] m Hx _ IHm]; intros object Hwf w Hw.
    { apply bind_Ok in Hw as ([] & _ & Hw). by injection Hw as <-. }
    apply bind_Ok in Hw as (k' & _ & Hw). simpl in Hx.
    apply bind_Ok in Hw as ([] & Hk%ensure_Ok%bool_decide_eq_true%obj_get_None & Hw).
    apply bind_Ok in Hw as (v & Hv%Hx & Hw). apply IHm in Hw; [done|].
    apply strict_form_object in Hwf as [Hs Hall]. apply strict_form_object. split; [by apply obj_insert_sorted|].
    rewrite obj_insert_perm by done. by constructor.
Qed.

End Reader.

(** ** What the verifier accepts *)
Section Accepted.
Context `{Rfc3339} `{Nfc} `{FloatText} `{Sha256} `{JsonText} `{EvidenceLib} `{Blake3} `{CidLib} `{Keccak256} `{Recover}.

(** Capabilities with integer caveats; how doubles are printed is a parameter. *)
Definition accepted (d : PolicyDelegation) : Prop :=
  (∃ bytes, verify bytes = Ok d) ∧ forallb integral (pd_capabilities d) = true.

Lemma obj_get_elem k (m : list (string * json)) v : obj_get k m = Some v → (k, v) ∈ m.
Proof.
  induction m as [|[k' v'] m IH]; [done|]. cbn [obj_get]. case_decide as Hk; [intros [= ->]; subst; by left|].
  intros ?%IH. by right.
Qed.

Lemma from_value_capabilities v d :
  from_value v = Some d → strict_form v → Forall strict_form (pd_capabilities d).
Proof.
  unfold from_value. intros Hd Hv. apply bind_Some in Hd as (m & Hm & Hd). destruct (only FIELDS m); [|done].
  do 5 (apply bind_Some in Hd as (? & _ & Hd)). apply bind_Some in Hd as (caps & Hcaps & Hd).
  do 5 (apply bind_Some in Hd as (? & _ & Hd)). apply bind_Some in Hd as ([] & _ & Hd). injection Hd as <-. cbn [pd_capabilities].
  apply bind_Some in Hcaps as (w & Hw & Hcaps). destruct v; simplify_eq/=. destruct w as [| | | |l|]; simplify_eq/=.
  destruct Hv as [Hk Hv]. destruct (strict_form_object m) as [Ho _]. destruct Ho as [_ Hall]; [done|].
  rewrite Forall_forall in Hall. apply obj_get_elem, Hall in Hw. simpl in Hw. by apply strict_form_array.
Qed.

Lemma verify_Ok bytes d :
  verify bytes = Ok d →
  validate_wire_shape d = Ok tt ∧ verify_artifact d = Ok tt ∧ Forall strict_form (pd_capabilities d).
Proof.
  unfold verify, from_json. intros Hv. apply bind_Ok in Hv as (d' & Hj & Hv). apply bind_Ok in Hv as ([] & Ha & Hv).
  injection Hv as ->. apply bind_Ok in Hj as (v & Hs & Hj). apply bind_Ok in Hj as (d' & Hd%ok_or_Ok & Hj).
  apply bind_Ok in Hj as ([] & Hw & Hj). injection Hj as ->. split_and!; [done|done|].
  eapply from_value_capabilities; [exact Hd|]. unfold strict_json_value in Hs. destruct (json_read bytes) as [r ended].
  apply bind_Ok in Hs as (v' & Hv'%map_err_Ok%strict_json_form & Hs). apply bind_Ok in Hs as ([] & _ & Hs). by injection Hs as ->.
Qed.

Lemma verify_artifact_cid d : verify_artifact d = Ok tt → pd_cid d = cid_for_artifact d.
Proof. unfold verify_artifact. intros Hv. by apply bind_Ok in Hv as ([] & Hc%ensure_Ok%bool_decide_eq_true & _). Qed.

Lemma cid_value_wf d :
  Forall wf_json (pd_capabilities d) → wf_json (JObject (without ["delegationCid"] (to_value d))).
Proof.
  intros Hcaps. change (without ["delegationCid"] (to_value d)) with
    [("audienceDid", JString (pd_audience d)); ("capabilities", JArray (pd_capabilities d));
     ("delegationMode", JString (mode_wire (pd_mode d)));
     ("expiresAt", JString (pd_expires_at d)); ("facts", facts_value (pd_facts d));
     ("issuerDid", JString (pd_issuer d)); ("notBefore", JString (pd_not_before d));
     ("proofCids", JArray (JString <$> pd_proofs d)); ("role", JString (role_wire (pd_role d)));
     ("schema", JString (pd_schema d)); ("signature", signature_value d)].
  apply wf_object. split; [repeat constructor; by vm_compute|].
  repeat (apply Forall_cons; split); cbn [snd]; try done.
  - by apply wf_array.
  - apply wf_object. pose proof (NoDup_fst_map_to_list (pd_facts d)) as Hnd. split; [by apply sorted_facts_sorted|].
    fold (sorted_facts (map_to_list (pd_facts d))). rewrite sorted_facts_perm by done. apply Forall_fmap, Forall_forall. done.
  - apply wf_array, Forall_fmap, Forall_forall. done.
  - apply wf_object. split; [repeat constructor; by vm_compute|by repeat constructor].
Qed.

Lemma to_value_split d :
  to_value d = let l := without ["delegationCid"] (to_value d) in take 2 l ++ ("delegationCid", JString (pd_cid d)) :: drop 2 l.
Proof. reflexivity. Qed.

Lemma to_value_inj d e :
  pd_cid d = pd_cid e → without ["delegationCid"] (to_value d) = without ["delegationCid"] (to_value e) → d = e.
Proof.
  intros Hc Hw. apply (inj Some). rewrite <- (from_to_value d), <- (from_to_value e). do 2 f_equal.
  by rewrite (to_value_split d), (to_value_split e), Hw, Hc.
Qed.

(** CIDs of texts do not collide. *)
Definition cids_distinct : Prop :=
  ∀ x y, cid_to_string (mkCid 1 RAW_CODEC (hash x)) = cid_to_string (mkCid 1 RAW_CODEC (hash y)) → x = y.

Lemma accepted_inj d e : cids_distinct → accepted d → accepted e → pd_cid d = pd_cid e → d = e.
Proof.
  assert (∀ c, accepted c → pd_cid c = cid_for_artifact c ∧ Forall wf_json (pd_capabilities c)) as Hacc.
  { intros c [[bytes (_ & Hc%verify_artifact_cid & Hs)%verify_Ok] Hi]. split; [done|].
    rewrite forallb_forall in Hi. rewrite Forall_forall in Hs |- *. intros v Hv.
    apply strict_form_wf; [|by apply Hs]. by apply Hi, list_elem_of_In. }
  intros Hd [Hcd Hwd]%Hacc [Hce Hwe]%Hacc Heq. apply to_value_inj; [done|]. rewrite Hcd, Hce in Heq. apply Hd in Heq.
  apply canonicalize_inj in Heq; [|by apply cid_value_wf..]. by apply (f_equal as_object), (inj Some) in Heq.
Qed.

(** What the verifier accepts discharges what the kernels rely on. *)
Lemma accepted_artifacts : cids_distinct → VerifiedArtifacts accepted.
Proof.
  intros Hd. split.
  - intros d [[bytes (Hw & _)%verify_Ok] _]. done.
  - intros d e Ha He. by apply accepted_inj.
Qed.

(** When CIDs of different texts differ, two texts that verify with the same CID
    hold the same artifact: the CID covers every field, the signature included, and
    the canonical bytes determine the artifact. *)
Theorem verified_cid_unique (bytes bytes' : string) (d e : PolicyDelegation) :
  cids_distinct → verify bytes = Ok d → verify bytes' = Ok e →
  forallb integral (pd_capabilities d) = true → forallb integral (pd_capabilities e) = true →
  pd_cid d = pd_cid e → d = e.
Proof. intros Hd Hv Hv' Hi Hi' Hc. apply accepted_inj; [done|split; [by exists bytes|done]|split; [by exists bytes'|done]|done]. Qed.

End Accepted.

(** ** A concrete artifact *)

Fixpoint raw_of (v : json) : raw :=
  match v with
  | JNull => RNull
  | JBool b => RBool b
  | JNumber (NInt z) => RInt z
  | JNumber (NFloat f) => RFloat f
  | JString s => RString s
  | JArray l => RArray (raw_of <$> l) true
  | JObject m => RObject ((λ '(k, v), (k, raw_of v)) <$> m) true
  end.

(** The minutes of a timestamp; every text hashes to itself. *)
Definition demo_rfc : Rfc3339 := λ s, (λ n, (Z.of_N n * 60000000000)%Z) <$> parse_u64 (String.substring 14 2 s).
Definition demo_blake : Blake3 := λ s, s.
Definition demo_cids : CidLib := {| cid_to_string := λ c, mh_digest (cid_hash c); cid_parse := λ _, None |}.
Definition demo_keccak : Keccak256 := λ _, repeat 0%N 12 ++ repeat 171%N 20.
Definition demo_recover : Recover := λ _ _ _, Some "key".
#[local] Existing Instances demo_rfc demo_nfc demo_float demo_sha demo_lib demo_blake demo_cids demo_keccak demo_recover.

Definition demo_owner : string := "did:pkh:eip155:1:0x" +:+ hex_encode (repeat 171%N 20).
Definition demo_capability : json := canonical_value (demo_policy "docs/" ["tinycloud.kv/get"]).
Definition demo_authority : PolicyDelegation :=
  let d := mkPolicyDelegation "xyz.tinycloud.policy/enforcement-delegation/v1" PolicyAuthority "" demo_owner "did:node"
    [demo_capability] [] "2026-01-01T00:00:00Z" "2026-01-01T00:50:00Z" PolicySource
    (list_to_map ((λ name, (POLICY_PREFIX +:+ name, "x")) <$> AUTHORITY_FACTS)) EIP191_SUITE
    (bytes_string (repeat 1%N 65)) in
  with_cid d (cid_for_artifact d).
Definition demo_documents : JsonText :=
  {| json_read := λ _, (raw_of (JObject (to_value demo_authority)), true); float_unsafe := λ _, false |}.
#[local] Existing Instance demo_documents.

Definition demo_verified : PolicyDelegation := match verify "bytes" with Ok d => d | Err _ => demo_authority end.

Lemma demo_verify : verify "bytes" = Ok demo_verified.
Proof.
  assert (is_ok (verify "bytes") = true) as Hok by by vm_compute. unfold demo_verified. by destruct (verify "bytes").
Qed.

Lemma verified_cid_unique_witness : verify "bytes" = Ok demo_verified ∧ demo_verified = demo_verified.
Proof.
  split; [apply demo_verify|].
  apply (verified_cid_unique "bytes" "other" demo_verified demo_verified); [by intros x y|exact demo_verify|exact demo_verify|by vm_compute..|done].
Defined.
