(* ===== verification/PolicyMemory.v ===== *)
(** * The reference authority kernel: tinycloud-core/src/policy_authority/mod.rs
      863-898 and 988-1509

    [AuthorityKernel] over [MemoryAuthorityStore]: verified artifacts with their
    statuses, the edges between them, challenges and audits, and the recursive walk
    that decides whether a delegation may be invoked.  The recursion is on the
    depth that is left, [MAX_ANCESTRY_DEPTH + 1] at the start.  An operation
    returns its result with the state it leaves. *)
From S2P Require Import Prelude Str Chars Json Registry SqlCaveat Tables Jcs PolicyCapability Evidence PolicyDelegation.

Inductive EdgeKind := Authority | Immediate.

#[export] Instance EdgeKind_eq_dec : EqDecision EdgeKind.
Proof. solve_decision. Defined.

Record VerifiedEdge := mkVerifiedEdge { ed_child : string; ed_parent : string; ed_kind : EdgeKind; ed_position : N }.

#[export] Instance VerifiedEdge_eq_dec : EqDecision VerifiedEdge.
Proof. solve_decision. Defined.

Record AuthorityStatus := mkAuthorityStatus {
  st_checked_at : Z; st_fresh_until : Z; st_sequence : N; st_revoked_at : option Z;
}.

#[export] Instance AuthorityStatus_eq_dec : EqDecision AuthorityStatus.
Proof. solve_decision. Defined.

(** The status of an artifact stored at [now]. *)
Definition fresh_status (now : Z) : AuthorityStatus := mkAuthorityStatus now (now + MAX_STATUS_AGE) 0 None.

Record MemoryState := mkMemoryState {
  ms_artifacts : gmap string PolicyDelegation;
  ms_edges : list VerifiedEdge;
  ms_challenges : gmap string ChallengeState;
  ms_audits : gmap string IssuanceAudit;
  ms_statuses : gmap string AuthorityStatus;
  ms_fail : bool;
}.

Definition memory_empty : MemoryState := mkMemoryState ∅ [] ∅ ∅ ∅ false.

Definition put_artifact (d : PolicyDelegation) (st : AuthorityStatus) (s : MemoryState) : MemoryState :=
  mkMemoryState (<[pd_cid d := d]> (ms_artifacts s)) (ms_edges s) (ms_challenges s) (ms_audits s)
    (<[pd_cid d := st]> (ms_statuses s)) (ms_fail s).
Definition push_edges (es : list VerifiedEdge) (s : MemoryState) : MemoryState :=
  mkMemoryState (ms_artifacts s) (ms_edges s ++ es) (ms_challenges s) (ms_audits s) (ms_statuses s) (ms_fail s).
Definition put_challenge (c : ChallengeState) (s : MemoryState) : MemoryState :=
  mkMemoryState (ms_artifacts s) (ms_edges s) (<[ch_id c := c]> (ms_challenges s)) (ms_audits s) (ms_statuses s) (ms_fail s).
Definition put_audit (a : IssuanceAudit) (s : MemoryState) : MemoryState :=
  mkMemoryState (ms_artifacts s) (ms_edges s) (ms_challenges s) (<[au_issuance_id a := a]> (ms_audits s)) (ms_statuses s) (ms_fail s).
Definition put_status (cid : string) (st : AuthorityStatus) (s : MemoryState) : MemoryState :=
  mkMemoryState (ms_artifacts s) (ms_edges s) (ms_challenges s) (ms_audits s) (<[cid := st]> (ms_statuses s)) (ms_fail s).
Definition no_fail (s : MemoryState) : MemoryState :=
  mkMemoryState (ms_artifacts s) (ms_edges s) (ms_challenges s) (ms_audits s) (ms_statuses s) false.

Definition consume (now : Z) (c : ChallengeState) : ChallengeState :=
  mkChallengeState (ch_id c) (ch_nonce_hash c) (ch_owner c) (ch_policy_id c) (ch_policy_digest c) (ch_policy_cid c)
    (ch_enforcement_cid c) (ch_enforcer c) (ch_node_audience c) (ch_claimant c) (ch_requested_hash c) (ch_issued_at c)
    (ch_expires_at c) (Some now).

(** [challenges.get_mut(id).consumed_at = Some(now)]. *)
Definition consume_challenge (id : string) (now : Z) (s : MemoryState) : MemoryState :=
  mkMemoryState (ms_artifacts s) (ms_edges s) (alter (consume now) id (ms_challenges s)) (ms_audits s) (ms_statuses s) (ms_fail s).

(** Checks that leave the state, then an update. *)
Definition checked {A} (check : result AuthorityError A) (s : MemoryState) (update : A → MemoryState)
    : result AuthorityError unit * MemoryState :=
  match check with Ok a => (Ok tt, update a) | Err e => (Err e, s) end.

(** ** Statuses and edges *)

Definition validate_status_transition (previous next : AuthorityStatus) : result AuthorityError unit :=
  ensure ((st_sequence previous <? st_sequence next)%N && (st_checked_at previous <=? st_checked_at next)%Z &&
          match st_revoked_at previous with Some t => bool_decide (st_revoked_at next = Some t) | None => true end &&
          match st_revoked_at next with
          | Some t => (st_checked_at previous <=? t)%Z && (t <=? st_checked_at next)%Z
          | None => true
          end) AuthorityStateUnavailable.

Definition by_position (es : list VerifiedEdge) : list VerifiedEdge := sort_by (λ a b, (ed_position a <=? ed_position b)%N) es.
Definition edges_of (cid : string) (es : list VerifiedEdge) : list VerifiedEdge :=
  List.filter (λ e, bool_decide (ed_child e = cid)) es.

(** Two authority edges to the proofs of a root, one immediate edge to the proof of a
    descendant, none for a policy; an artifact has the proofs of its role. *)
Definition validate_persisted_edge_shape (d : PolicyDelegation) (es : list VerifiedEdge) : result AuthorityError unit :=
  ensure
    (match pd_role d, es with
     | PolicySessionRoot, [a; b] =>
         bool_decide (ed_kind a = Authority) && (ed_position a =? 0)%N && bool_decide (ed_kind b = Authority) &&
         (ed_position b =? 1)%N && bool_decide (pd_proofs d !! 0 = Some (ed_parent a)) &&
         bool_decide (pd_proofs d !! 1 = Some (ed_parent b))
     | PolicySessionDescendant, [a] =>
         bool_decide (ed_kind a = Immediate) && (ed_position a =? 0)%N && bool_decide (pd_proofs d !! 0 = Some (ed_parent a))
     | (PolicyAuthority | PolicyEnforcement), [] => true
     | _, _ => false
     end) AuthorityStateUnavailable.

(** The check of [walk_verified_edges], which leaves the position of a descendant's
    edge out. *)
Definition verified_edge_shape (d : PolicyDelegation) (es : list VerifiedEdge) : result AuthorityError unit :=
  ensure
    (match pd_role d, es with
     | PolicySessionRoot, [a; b] =>
         bool_decide (ed_kind a = Authority) && (ed_position a =? 0)%N && bool_decide (ed_kind b = Authority) &&
         (ed_position b =? 1)%N && bool_decide (pd_proofs d !! 0 = Some (ed_parent a)) &&
         bool_decide (pd_proofs d !! 1 = Some (ed_parent b))
     | PolicySessionDescendant, [a] => bool_decide (ed_kind a = Immediate) && bool_decide (pd_proofs d !! 0 = Some (ed_parent a))
     | (PolicyAuthority | PolicyEnforcement), [] => true
     | _, _ => false
     end) AuthorityStateUnavailable.

(** [for x in l { f(x, &mut acc)?; }]. *)
Definition try_fold {E A B} (f : A → B → result E A) : list B → A → result E A :=
  fix go l a := match l with [] => Ok a | x :: l => a ← f a x; go l a end.

Section Memory.
Context `{Rfc3339} `{Nfc} `{FloatText} `{Sha256}.

Definition within (d : PolicyDelegation) (now : Z) : result AuthorityError unit :=
  nb ← not_before d;
  _ ← ensure (nb <=? now)%Z SessionTimeInvalid;
  ex ← expires_at d;
  ensure (now <? ex)%Z SessionTimeInvalid.

Definition status_fresh (st : AuthorityStatus) (now : Z) : bool :=
  (now - st_checked_at st <=? MAX_STATUS_AGE)%Z && (st_checked_at st <=? now)%Z && (now <? st_fresh_until st)%Z &&
  (st_fresh_until st - st_checked_at st <=? MAX_STATUS_AGE)%Z.
Definition revoked_by (st : AuthorityStatus) (t : Z) : bool :=
  match st_revoked_at st with Some r => (r <=? t)%Z | None => false end.
Definition revocation_observed (st : AuthorityStatus) : bool :=
  match st_revoked_at st with Some r => (r <=? st_checked_at st)%Z | None => true end.
Definition revoked_error (ancestor : bool) : AuthorityError :=
  if ancestor then DelegationAncestorRevoked else DelegationRevoked.

Definition ensure_live_in_memory (s : MemoryState) (cid : string) (now : Z) (ancestor : bool) : result AuthorityError unit :=
  d ← ok_or (ms_artifacts s !! cid) AuthorityStateUnavailable;
  _ ← within d now;
  st ← ok_or (ms_statuses s !! cid) AuthorityStateUnavailable;
  _ ← ensure (status_fresh st now && revocation_observed st) AuthorityStateUnavailable;
  ensure (negb (revoked_by st now)) (revoked_error ancestor).

(** ** Walks *)

Fixpoint walk_memory_edges (s : MemoryState) (now : Z) (left_depth : nat) (cid : string) (ancestor : bool)
    (visiting : gset string) : result AuthorityError (gset string) :=
  match left_depth with
  | O => Err AncestryTooDeep
  | S left_depth =>
      _ ← ensure (bool_decide (cid ∉ visiting)) AncestryTooDeep;
      _ ← ensure_live_in_memory s cid now ancestor;
      d ← ok_or (ms_artifacts s !! cid) AuthorityStateUnavailable;
      let es := by_position (edges_of cid (ms_edges s)) in
      _ ← validate_persisted_edge_shape d es;
      visiting ← try_fold (λ v e, walk_memory_edges s now left_depth (ed_parent e) true v) es ({[cid]} ∪ visiting);
      Ok (visiting ∖ {[cid]})
  end.

Fixpoint walk_verified_edges (s : MemoryState) (now : Z) (left_depth : nat) (cid : string) (ancestor : bool)
    (visiting : gset string) : result AuthorityError (gset string) :=
  match left_depth with
  | O => Err AncestryTooDeep
  | S left_depth =>
      _ ← ensure_live_in_memory s cid now ancestor;
      _ ← ensure (bool_decide (cid ∉ visiting)) AncestryTooDeep;
      let es := edges_of cid (ms_edges s) in
      d ← ok_or (ms_artifacts s !! cid) AuthorityStateUnavailable;
      _ ← verified_edge_shape d es;
      visiting ← try_fold (λ v e, walk_verified_edges s now left_depth (ed_parent e) true v) es ({[cid]} ∪ visiting);
      Ok (visiting ∖ {[cid]})
  end.

Definition WALK_DEPTH : nat := S MAX_ANCESTRY_DEPTH.

Definition validate_for_invocation (s : MemoryState) (cid : string) (now : Z) : result AuthorityError unit :=
  _ ← walk_verified_edges s now WALK_DEPTH cid false ∅; Ok tt.

(** ** The store *)

Definition insert_verified_authority (d : PolicyDelegation) (st : AuthorityStatus) (s : MemoryState)
    : result AuthorityError unit * MemoryState :=
  checked (ensure (bool_decide (ms_artifacts s !! pd_cid d = None) && bool_decide (ms_statuses s !! pd_cid d = None))
             AuthorityStateUnavailable) s (λ _, put_artifact d st s).

Definition insert_challenge (c : ChallengeState) (s : MemoryState) : result AuthorityError unit * MemoryState :=
  checked (_ ← validate_challenge_lifetime c; ensure (bool_decide (ms_challenges s !! ch_id c = None)) ChallengeConsumed) s
    (λ _, put_challenge c s).

Definition set_status (cid : string) (st : AuthorityStatus) (s : MemoryState) : result AuthorityError unit * MemoryState :=
  checked (previous ← ok_or (ms_statuses s !! cid) AuthorityStateUnavailable; validate_status_transition previous st) s
    (λ _, put_status cid st s).

(** ** The kernel *)

(** A transaction: the flag makes the next one fail after its checks. *)
Definition transaction {A} (check : result AuthorityError A) (s : MemoryState) (commit : A → MemoryState)
    : result AuthorityError unit * MemoryState :=
  match check with
  | Err e => (Err e, s)
  | Ok a => if ms_fail s then (Err TransactionFailed, no_fail s) else (Ok tt, commit a)
  end.

Definition root_edges (d : PolicyDelegation) : list VerifiedEdge :=
  match pd_proofs d with
  | p :: e :: _ => [mkVerifiedEdge (pd_cid d) p Authority 0; mkVerifiedEdge (pd_cid d) e Authority 1]
  | _ => []
  end.

Definition check_root (node : string) (policy enforcement : PolicyDelegation) (st : VerifiedPolicyState)
    (root : PolicyDelegation) (eb : EnforcerBinding) (t : TrustedPolicyDecision) (b : IssuanceBindings) (s : MemoryState)
    : result AuthorityError IssuanceAudit :=
  _ ← validate_authority_pair policy enforcement st node;
  _ ← ensure_live_in_memory s (pd_cid policy) (ib_now b) false;
  _ ← ensure_live_in_memory s (pd_cid enforcement) (ib_now b) false;
  _ ← ensure (bool_decide (ms_artifacts s !! pd_cid policy = Some policy) &&
              bool_decide (ms_artifacts s !! pd_cid enforcement = Some enforcement)) AuthorityStateUnavailable;
  c ← ok_or (ms_challenges s !! ib_challenge_id b) ChallengeNotFound;
  _ ← ensure (bool_decide (ch_consumed_at c = None)) ChallengeConsumed;
  validate_root policy enforcement st c root eb t b node.

Definition issue_root (node : string) (policy enforcement : PolicyDelegation) (st : VerifiedPolicyState)
    (root : PolicyDelegation) (eb : EnforcerBinding) (t : TrustedPolicyDecision) (b : IssuanceBindings) (s : MemoryState)
    : result AuthorityError unit * MemoryState :=
  transaction (check_root node policy enforcement st root eb t b s) s (λ audit,
    consume_challenge (ib_challenge_id b) (ib_now b)
      (put_audit audit (push_edges (root_edges root) (put_artifact root (fresh_status (ib_now b)) s)))).

(** The CID of the session root a parent belongs to. *)
Definition root_cid_of (parent : PolicyDelegation) : result AuthorityError string :=
  if decide (pd_role parent = PolicySessionRoot) then Ok (pd_cid parent) else fact parent "rootSessionDelegationCid".

Definition check_descendant (d : PolicyDelegation) (now : Z) (s : MemoryState) : result AuthorityError string :=
  parent_cid ← ok_or (head (pd_proofs d)) DescendantParentMismatch;
  parent ← ok_or (ms_artifacts s !! parent_cid) DescendantParentMismatch;
  _ ← ensure (negb (bool_decide (pd_mode parent = ConditionalMint))) ConditionalMintNotParent;
  root_cid ← root_cid_of parent;
  root ← ok_or (ms_artifacts s !! root_cid) DescendantAuthorityRootsMismatch;
  _ ← validate_descendant d parent root;
  _ ← walk_memory_edges s now WALK_DEPTH (pd_cid parent) false ∅;
  Ok parent_cid.

Definition persist_descendant (d : PolicyDelegation) (now : Z) (s : MemoryState) : result AuthorityError unit * MemoryState :=
  transaction (check_descendant d now s) s (λ parent_cid,
    push_edges [mkVerifiedEdge (pd_cid d) parent_cid Immediate 0] (put_artifact d (fresh_status now) s)).

End Memory.
