(* ===== verification/PolicyDatabase.v ===== *)
(** * The authority kernel over the database:
      tinycloud-core/src/policy_authority/database.rs

    [DatabaseAuthorityStore] and [DatabaseAuthorityKernel].  Rows hold the decoded
    artifact and instants; a row's other columns repeat fields of the artifact.
    Primary and foreign keys are checked on insertion.  An operation that reads
    first and writes in a later transaction takes both states: [read], seen by its
    queries, and [cur], the one its transaction commits on.  The walks keep a stack
    and visit at most one more artifact than there are rows, which is the fuel they
    get. *)
From S2P Require Import Prelude Str Chars Json Registry SqlCaveat Tables Jcs PolicyCapability Evidence PolicyDelegation PolicyMemory.

(** Whether [OffsetDateTime::format] can write an instant (years 0 to 9999). *)
Class DbTime := db_time_ok : Z → bool.

Module database.

(** [status_fresh_until] is NULL on a row from before the column existed. *)
Record Row := mkRow {
  row_artifact : PolicyDelegation; row_checked_at : Z; row_fresh_until : option Z; row_sequence : N; row_revoked_at : option Z;
}.

Record DbState := mkDbState {
  db_rows : gmap string Row;
  db_edges : list VerifiedEdge;
  db_challenges : gmap string ChallengeState;
  db_audits : gmap string IssuanceAudit;
}.

Definition db_empty : DbState := mkDbState ∅ [] ∅ ∅.

Definition with_rows (rows : gmap string Row) (s : DbState) : DbState :=
  mkDbState rows (db_edges s) (db_challenges s) (db_audits s).
Definition with_edges (es : list VerifiedEdge) (s : DbState) : DbState :=
  mkDbState (db_rows s) es (db_challenges s) (db_audits s).
Definition with_challenges (cs : gmap string ChallengeState) (s : DbState) : DbState :=
  mkDbState (db_rows s) (db_edges s) cs (db_audits s).
Definition with_audits (au : gmap string IssuanceAudit) (s : DbState) : DbState :=
  mkDbState (db_rows s) (db_edges s) (db_challenges s) au.

Record AuthorityStatusObservation := mkObservation {
  ob_checked_at : Z; ob_sequence : N; ob_revoked_at : option Z; ob_fresh_until : Z;
}.
Definition observed_status (o : AuthorityStatusObservation) : AuthorityStatus :=
  mkAuthorityStatus (ob_checked_at o) (ob_fresh_until o) (ob_sequence o) (ob_revoked_at o).

Definition I64_MAX : N := 9223372036854775807.

Section Database.
Context `{Rfc3339} `{Nfc} `{FloatText} `{Sha256} `{DbTime}.

(** ** Rows *)

Definition db_time (t : Z) : result AuthorityError unit := ensure (db_time_ok t) TimestampNoncanonical.

Definition artifact_model (d : PolicyDelegation) (st : AuthorityStatus) : result AuthorityError Row :=
  _ ← db_time (st_checked_at st);
  _ ← db_time (st_fresh_until st);
  _ ← ensure (st_sequence st <=? I64_MAX)%N SchemaInvalid;
  _ ← (match st_revoked_at st with Some t => db_time t | None => Ok tt end);
  Ok (mkRow d (st_checked_at st) (Some (st_fresh_until st)) (st_sequence st) (st_revoked_at st)).

Definition artifact_from_model (cid : string) (r : Row) : result AuthorityError PolicyDelegation :=
  _ ← validate_wire_shape (row_artifact r);
  _ ← ensure (bool_decide (pd_cid (row_artifact r) = cid)) AuthorityStateUnavailable;
  Ok (row_artifact r).

Definition row_status (r : Row) : AuthorityStatus :=
  mkAuthorityStatus (row_checked_at r) (default (row_checked_at r + MAX_STATUS_AGE)%Z (row_fresh_until r)) (row_sequence r)
    (row_revoked_at r).

Definition status_from_model (r : Row) : result AuthorityError AuthorityStatus :=
  let st := row_status r in
  _ ← ensure ((st_checked_at st <? st_fresh_until st)%Z && (st_fresh_until st - st_checked_at st <=? MAX_STATUS_AGE)%Z)
        AuthorityStateUnavailable;
  _ ← ensure (revocation_observed st) AuthorityStateUnavailable;
  Ok st.

Definition delegation_row (s : DbState) (cid : string) : result AuthorityError Row :=
  ok_or (db_rows s !! cid) AuthorityStateUnavailable.

Definition edges_on (s : DbState) (cid : string) : list VerifiedEdge := by_position (edges_of cid (db_edges s)).

Definition challenge_from_model (c : ChallengeState) : result AuthorityError ChallengeState :=
  _ ← validate_challenge_lifetime_for_read c; Ok c.

Definition challenge (s : DbState) (id : string) : result AuthorityError ChallengeState :=
  c ← ok_or (db_challenges s !! id) ChallengeNotFound; challenge_from_model c.

Definition artifact (s : DbState) (cid : string) : result AuthorityError PolicyDelegation :=
  r ← delegation_row s cid; artifact_from_model cid r.

(** Insertions; a violated key fails the statement. *)
Definition insert_row (d : PolicyDelegation) (st : AuthorityStatus) (s : DbState) : result AuthorityError DbState :=
  r ← artifact_model d st;
  _ ← ensure (bool_decide (db_rows s !! pd_cid d = None)) TransactionFailed;
  Ok (with_rows (<[pd_cid d := r]> (db_rows s)) s).

Definition insert_edge (e : VerifiedEdge) (s : DbState) : result AuthorityError DbState :=
  _ ← ensure (forallb (λ x, negb (bool_decide (ed_child x = ed_child e) && (ed_position x =? ed_position e)%N)) (db_edges s) &&
              bool_decide (is_Some (db_rows s !! ed_child e)) && bool_decide (is_Some (db_rows s !! ed_parent e)))
        TransactionFailed;
  Ok (with_edges (db_edges s ++ [e]) s).

Definition insert_audit (a : IssuanceAudit) (s : DbState) : result AuthorityError DbState :=
  _ ← ensure (bool_decide (db_audits s !! au_issuance_id a = None) &&
              forallb (λ x, negb (bool_decide (au_session_cid x.2 = au_session_cid a))) (map_to_list (db_audits s)) &&
              bool_decide (is_Some (db_rows s !! au_session_cid a))) TransactionFailed;
  Ok (with_audits (<[au_issuance_id a := a]> (db_audits s)) s).

(** ** The store *)

Definition insert_verified_authority (d : PolicyDelegation) (st : AuthorityStatus) (s : DbState) : result AuthorityError DbState :=
  insert_row d st s.

Definition insert_challenge (c : ChallengeState) (s : DbState) : result AuthorityError DbState :=
  _ ← validate_challenge_lifetime c;
  _ ← db_time (ch_issued_at c);
  _ ← db_time (ch_expires_at c);
  _ ← ensure (bool_decide (db_challenges s !! ch_id c = None)) TransactionFailed;
  Ok (with_challenges (<[ch_id c := c]> (db_challenges s)) s).

(** A SQL comparison with NULL never holds. *)
Definition sql_eq (a b : option Z) : bool := match a, b with Some x, Some y => (x =? y)%Z | _, _ => false end.

(** The filter of an update: the columns still hold what was read; [set_status]
    compares the revocation too. *)
Definition unchanged (read cur : Row) (revocation : bool) : bool :=
  (row_sequence read =? row_sequence cur)%N && (row_checked_at read =? row_checked_at cur)%Z &&
  sql_eq (row_fresh_until cur) (row_fresh_until read) &&
  (negb revocation || bool_decide (row_revoked_at cur = row_revoked_at read)).

Definition update_row (st : AuthorityStatus) (r : Row) : Row :=
  mkRow (row_artifact r) (st_checked_at st) (Some (st_fresh_until st)) (st_sequence st) (st_revoked_at st).

(** The update and whether it affected the row. *)
Definition update_where (cid : string) (st : AuthorityStatus) (filter : Row → bool) (s : DbState) : option DbState :=
  match db_rows s !! cid with
  | Some r => if filter r then Some (with_rows (<[cid := update_row st r]> (db_rows s)) s) else None
  | None => None
  end.

Definition status_columns (st : AuthorityStatus) (overflow : AuthorityError) : result AuthorityError unit :=
  _ ← db_time (st_checked_at st);
  _ ← db_time (st_fresh_until st);
  _ ← ensure (st_sequence st <=? I64_MAX)%N overflow;
  match st_revoked_at st with Some t => db_time t | None => Ok tt end.

(** One attempt of [set_status]; [None] is an update that affected no row. *)
Definition set_status_attempt (cid : string) (st : AuthorityStatus) (read cur : DbState) : result AuthorityError (option DbState) :=
  r ← delegation_row read cid;
  previous ← status_from_model r;
  _ ← validate_status_transition previous st;
  _ ← status_columns st AuthorityStateUnavailable;
  Ok (update_where cid st (λ now, unchanged r now true) cur).

(** The attempts of [set_status], each with the states it reads and writes. *)
Definition MAX_ATTEMPTS : nat := 8.
Fixpoint set_status_attempts (cid : string) (st : AuthorityStatus) (attempts : list (DbState * DbState))
    : result AuthorityError DbState :=
  match attempts with
  | [] => Err AuthorityStateUnavailable
  | (read, cur) :: attempts =>
      s ← set_status_attempt cid st read cur;
      match s with Some s => Ok s | None => set_status_attempts cid st attempts end
  end.
Definition set_status (cid : string) (st : AuthorityStatus) (attempts : list (DbState * DbState)) : result AuthorityError DbState :=
  set_status_attempts cid st (take MAX_ATTEMPTS attempts).

Definition observation_fresh (o : AuthorityStatusObservation) (now : Z) : bool :=
  (ob_checked_at o <=? now)%Z && (now <? ob_fresh_until o)%Z && (now - ob_checked_at o <=? MAX_STATUS_AGE)%Z.

Definition apply_status_in_transaction (cid : string) (o : AuthorityStatusObservation) (now : Z) (read cur : DbState)
    : result AuthorityError DbState :=
  _ ← ensure (observation_fresh o now && (ob_fresh_until o - ob_checked_at o <=? MAX_STATUS_AGE)%Z) AuthorityStateUnavailable;
  r ← delegation_row read cid;
  previous ← status_from_model r;
  let next := observed_status o in
  if bool_decide (next = previous) then Ok cur
  else
    _ ← validate_status_transition previous next;
    _ ← status_columns next SchemaInvalid;
    ok_or (update_where cid next (λ now, unchanged r now false) cur) AuthorityStateUnavailable.

Definition admit_verified_authority_in_transaction (d : PolicyDelegation) (o : AuthorityStatusObservation) (now : Z)
    (read cur : DbState) : result AuthorityError DbState :=
  match db_rows read !! pd_cid d with
  | Some r =>
      stored ← artifact_from_model (pd_cid d) r;
      _ ← ensure (bool_decide (stored = d)) AuthorityStateUnavailable;
      apply_status_in_transaction (pd_cid d) o now read cur
  | None =>
      _ ← ensure (observation_fresh o now) AuthorityStateUnavailable;
      insert_row d (observed_status o) cur
  end.

(** ** Liveness and walks *)

Definition ensure_live_model (cid : string) (r : Row) (now : Z) (ancestor : bool) : result AuthorityError PolicyDelegation :=
  d ← artifact_from_model cid r;
  _ ← within d now;
  st ← status_from_model r;
  _ ← ensure (status_fresh st now) AuthorityStateUnavailable;
  _ ← ensure (negb (revoked_by st now)) (revoked_error ancestor);
  Ok d.

Definition ensure_live_on (s : DbState) (cid : string) (now : Z) (ancestor : bool) : result AuthorityError PolicyDelegation :=
  r ← delegation_row s cid; ensure_live_model cid r now ancestor.

(** A [while let Some(..) = stack.pop()] walk; [visit] yields what is pushed, top
    first. *)
Fixpoint stack_walk (visit : string → bool → result AuthorityError (list string)) (fuel : nat)
    (stack : list (string * bool * nat)) (visited : gset string) : result AuthorityError (gset string) :=
  match fuel with
  | O => Err AncestryTooDeep
  | S fuel =>
      match stack with
      | [] => Ok visited
      | (current, ancestor, depth) :: stack =>
          _ ← ensure ((depth <=? MAX_ANCESTRY_DEPTH) && bool_decide (current ∉ visited)) AncestryTooDeep;
          parents ← visit current ancestor;
          stack_walk visit fuel (((λ p, (p, true, S depth)) <$> parents) ++ stack) ({[current]} ∪ visited)
      end
  end.

Definition walk_fuel (s : DbState) : nat := S (S (size (db_rows s))).

(** [validate_persisted_edges] has the text of [validate_persisted_edge_shape]. *)
Definition visit_live (s : DbState) (now : Z) (cid : string) (ancestor : bool) : result AuthorityError (list string) :=
  d ← ensure_live_on s cid now ancestor;
  let es := edges_on s cid in
  _ ← validate_persisted_edge_shape d es;
  Ok (ed_parent <$> es).

Definition validate_for_invocation (s : DbState) (cid : string) (now : Z) : result AuthorityError unit :=
  _ ← stack_walk (visit_live s now) (walk_fuel s) [(cid, false, 0)] ∅; Ok tt.

Definition ancestry_cids (s : DbState) (cid : string) : result AuthorityError (gset string) :=
  stack_walk (λ c _, Ok (rev (ed_parent <$> edges_on s c))) (walk_fuel s) [(cid, false, 0)] ∅.

Definition visit_locked (s : DbState) (locked : gmap string PolicyDelegation) (cid : string) (_ : bool)
    : result AuthorityError (list string) :=
  d ← ok_or (locked !! cid) AuthorityStateUnavailable;
  let es := edges_on s cid in
  _ ← validate_persisted_edge_shape d es;
  _ ← ensure (forallb (λ e, bool_decide (is_Some (locked !! ed_parent e))) es) AuthorityStateUnavailable;
  Ok (ed_parent <$> es).

Definition validate_locked_ancestry (s : DbState) (start : string) (locked : gmap string PolicyDelegation)
    : result AuthorityError unit :=
  visited ← stack_walk (visit_locked s locked) (walk_fuel s) [(start, false, 0)] ∅;
  ensure (bool_decide (size visited = size locked)) AuthorityStateUnavailable.

(** The walk of [validate_for_invocation_in_transaction] keeps the artifacts it saw. *)
Definition validate_for_invocation_in_transaction (s : DbState) (cid : string) (now : Z) : result AuthorityError unit :=
  visited ← stack_walk (visit_live s now) (walk_fuel s) [(cid, false, 0)] ∅;
  validate_locked_ancestry s cid
    (row_artifact <$> filter (λ '(c, _), c ∈ visited) (db_rows s)).

(** ** Persisting *)

Definition persist_root_in_transaction (d : PolicyDelegation) (audit : IssuanceAudit) (challenge_id : string) (now : Z)
    (s : DbState) : result AuthorityError DbState :=
  let authority_cids := dedup (sort_by bytes_leb (pd_proofs d)) in
  _ ← ensure (bool_decide (length authority_cids = 2)) ProofSetUnmatched;
  _ ← for_each (λ cid, _ ← ensure_live_on s cid now false; Ok tt) authority_cids;
  c ← ok_or (db_challenges s !! challenge_id) ChallengeNotFound;
  _ ← ensure (bool_decide (ch_consumed_at c = None)) ChallengeConsumed;
  c ← challenge_from_model c;
  _ ← ensure ((ch_issued_at c <=? now)%Z && (now <? ch_expires_at c)%Z) ChallengeExpired;
  _ ← db_time now;
  let s := with_challenges (alter (consume now) challenge_id (db_challenges s)) s in
  s ← insert_row d (fresh_status now) s;
  s ← insert_audit audit s;
  try_fold (λ s '(i, p), insert_edge (mkVerifiedEdge (pd_cid d) p Authority (N.of_nat i)) s) (imap pair (pd_proofs d)) s.

(** [validate] is the walk of the caller: in its own queries or in the transaction. *)
Definition check_root (validate : string → Z → result AuthorityError unit) (node : string)
    (policy enforcement : PolicyDelegation) (st : VerifiedPolicyState) (root : PolicyDelegation) (eb : EnforcerBinding)
    (t : TrustedPolicyDecision) (b : IssuanceBindings) (read : DbState) : result AuthorityError IssuanceAudit :=
  _ ← validate_authority_pair policy enforcement st node;
  _ ← validate (pd_cid policy) (ib_now b);
  _ ← validate (pd_cid enforcement) (ib_now b);
  c ← challenge read (ib_challenge_id b);
  _ ← ensure (bool_decide (ch_consumed_at c = None)) ChallengeConsumed;
  validate_root policy enforcement st c root eb t b node.

Definition issue_root (node : string) (policy enforcement : PolicyDelegation) (st : VerifiedPolicyState)
    (root : PolicyDelegation) (eb : EnforcerBinding) (t : TrustedPolicyDecision) (b : IssuanceBindings)
    (read cur : DbState) : result AuthorityError DbState :=
  audit ← check_root (validate_for_invocation read) node policy enforcement st root eb t b read;
  persist_root_in_transaction root audit (ib_challenge_id b) (ib_now b) cur.

Definition issue_root_in_transaction (node : string) (policy enforcement : PolicyDelegation) (st : VerifiedPolicyState)
    (root : PolicyDelegation) (eb : EnforcerBinding) (t : TrustedPolicyDecision) (b : IssuanceBindings)
    (s : DbState) : result AuthorityError DbState :=
  audit ← check_root (validate_for_invocation_in_transaction s) node policy enforcement st root eb t b s;
  persist_root_in_transaction root audit (ib_challenge_id b) (ib_now b) s.

(** The rows of [ancestry], live at [now], with the artifacts they hold. *)
Fixpoint lock_all (s : DbState) (parent : string) (now : Z) (cids : list string) (locked : gmap string PolicyDelegation)
    : result AuthorityError (gmap string PolicyDelegation) :=
  match cids with
  | [] => Ok locked
  | cid :: cids =>
      d ← ensure_live_on s cid now (negb (bool_decide (cid = parent)));
      lock_all s parent now cids (<[cid := d]> locked)
  end.

Definition persist_descendant_atomic (d : PolicyDelegation) (parent_cid : string) (now : Z) (ancestry : gset string)
    (s : DbState) : result AuthorityError DbState :=
  locked ← lock_all s parent_cid now (dedup (sort_by bytes_leb (elements ancestry))) ∅;
  _ ← validate_locked_ancestry s parent_cid locked;
  s ← insert_row d (fresh_status now) s;
  insert_edge (mkVerifiedEdge (pd_cid d) parent_cid Immediate 0) s.

(** The ancestry is read in [first], the artifacts in [read]. *)
Definition persist_descendant (d : PolicyDelegation) (now : Z) (first read cur : DbState) : result AuthorityError DbState :=
  parent_cid ← ok_or (head (pd_proofs d)) DescendantParentMismatch;
  ancestry ← ancestry_cids first parent_cid;
  parent ← artifact read parent_cid;
  _ ← ensure (negb (bool_decide (pd_mode parent = ConditionalMint))) ConditionalMintNotParent;
  root_cid ← root_cid_of parent;
  root ← artifact read root_cid;
  _ ← validate_descendant d parent root;
  _ ← validate_for_invocation read (pd_cid parent) now;
  persist_descendant_atomic d parent_cid now ancestry cur.

End Database.
End database.
