(* ===== verification/PolicyWalk.v ===== *)
(** * Walks over the ancestry of a delegation

    The recursive walks of the reference kernel and the stack walks of the database
    kernel against one specification, [tree_ok]: along every path to an ancestor at
    most [k] artifacts are visited, each once, and each visit succeeds. *)
From S2P Require Import Prelude Str Chars Json Registry SqlCaveat Tables Jcs PolicyCapability Evidence PolicyDelegation PolicyMemory PolicyDatabase.

Section Tree.
Context (visit : string → bool → result AuthorityError (list string)).

Fixpoint tree_ok (k : nat) (path : gset string) (c : string) (ancestor : bool) : Prop :=
  match k with
  | O => False
  | S k => c ∉ path ∧ ∃ ps, visit c ancestor = Ok ps ∧ Forall (λ p, tree_ok k ({[c]} ∪ path) p true) ps
  end.

Lemma tree_ok_path k path path' c a : path' ⊆ path → tree_ok k path c a → tree_ok k path' c a.
Proof.
  revert path path' c a. induction k as [|k IH]; [done|]. intros path path' c a Hsub (Hc & ps & Hps & Hall).
  split; [set_solver|]. exists ps. split; [done|]. eapply Forall_impl; [exact Hall|]. intros p. apply IH. set_solver.
Qed.

Lemma stack_walk_visited fuel stack visited w :
  database.stack_walk visit fuel stack visited = Ok w → visited ⊆ w.
Proof.
  revert stack visited. induction fuel as [|fuel IH]; [done|]. intros [|[[c a] d] stack] visited Hw; cbn in Hw.
  - by injection Hw as <-.
  - apply bind_Ok in Hw as ([] & _ & Hw). apply bind_Ok in Hw as (ps & _ & Hw). apply IH in Hw. set_solver.
Qed.

(** A stack walk that succeeds has walked the tree under every entry. *)
Lemma stack_walk_tree fuel stack visited w path :
  database.stack_walk visit fuel stack visited = Ok w → path ⊆ visited →
  Forall (λ '(c, a, d), d ≤ MAX_ANCESTRY_DEPTH ∧ tree_ok (WALK_DEPTH - d) path c a) stack.
Proof.
  revert stack visited path. induction fuel as [|fuel IH]; [done|]. intros [|[[c a] d] stack] visited path Hw Hp; [constructor|].
  cbn [database.stack_walk] in Hw.
  apply bind_Ok in Hw as ([] & [Hd%Nat.leb_le Hc%bool_decide_eq_true]%ensure_Ok%andb_true_iff & Hw).
  apply bind_Ok in Hw as (ps & Hps & Hw). apply Forall_cons. split.
  - split; [done|]. replace (WALK_DEPTH - d) with (S (WALK_DEPTH - S d)) by (unfold WALK_DEPTH; lia).
    split; [set_solver|]. exists ps. split; [done|].
    pose proof (IH _ _ ({[c]} ∪ path) Hw ltac:(set_solver)) as Hall. apply Forall_app in Hall as [Hall _].
    rewrite Forall_fmap in Hall. eapply Forall_impl; [exact Hall|]. intros p [_ Hp']. exact Hp'.
  - pose proof (IH _ _ path Hw ltac:(set_solver)) as Hall. by apply Forall_app in Hall as [_ Hall].
Qed.

(** ** Fuel *)

(** Every iteration visits one more artifact. *)
Lemma stack_walk_size fuel fuel' stack visited w :
  database.stack_walk visit fuel stack visited = Ok w → size w - size visited < fuel' →
  database.stack_walk visit fuel' stack visited = Ok w.
Proof.
  revert fuel' stack visited. induction fuel as [|fuel IH]; [done|].
  intros [|fuel'] stack visited Hw Hf; [lia|]. destruct stack as [|[[c a] d] stack]; cbn [database.stack_walk] in *; [done|].
  apply bind_Ok in Hw as ([] & Hg & Hw). apply bind_Ok in Hw as (ps & Hps & Hw). rewrite Hg, bind_ret_l, Hps, bind_ret_l.
  apply IH; [done|]. apply ensure_Ok, andb_true_iff in Hg as [_ Hc%bool_decide_eq_true].
  pose proof (subseteq_size _ _ (stack_walk_visited _ _ _ _ Hw)) as Hs. rewrite size_union in * by set_solver.
  rewrite size_singleton in *. lia.
Qed.

Context (D : gset string) (Q : string → Prop)
  (HD : ∀ c a ps, Q c → visit c a = Ok ps → c ∈ D ∧ Forall Q ps).

(** More fuel than there are artifacts to visit changes nothing. *)
Lemma stack_walk_fuel fuel stack visited :
  Forall (λ '(c, _, _), Q c) stack → visited ⊆ D → size D - size visited < fuel →
  database.stack_walk visit (S fuel) stack visited = database.stack_walk visit fuel stack visited.
Proof.
  revert stack visited. induction fuel as [|fuel IH]; [lia|]. intros [|[[c a] d] stack] visited Hq Hv Hf; [done|].
  apply Forall_cons in Hq as [Hqc Hq].
  change (database.stack_walk visit (S (S fuel)) ((c, a, d) :: stack) visited) with
    (_ ← ensure ((d <=? MAX_ANCESTRY_DEPTH) && bool_decide (c ∉ visited)) AncestryTooDeep; ps ← visit c a;
     database.stack_walk visit (S fuel) (((λ p, (p, true, S d)) <$> ps) ++ stack) ({[c]} ∪ visited)).
  cbn [database.stack_walk]. destruct ((d <=? MAX_ANCESTRY_DEPTH) && bool_decide (c ∉ visited)) eqn:Hg; [|done].
  apply andb_true_iff in Hg as [_ Hc%bool_decide_eq_true]. rewrite ensure_true, !bind_ret_l.
  destruct (visit c a) as [ps|] eqn:Hps; [|done]. rewrite !bind_ret_l. destruct (HD c a ps Hqc Hps) as [Hcd Hqs].
  apply IH.
  - apply Forall_app. split; [|done]. by rewrite Forall_fmap.
  - set_solver.
  - pose proof (subseteq_size _ _ Hv) as Hs1. assert ({[c]} ∪ visited ⊆ D) as Hs2%subseteq_size by set_solver.
    rewrite size_union in * by set_solver. rewrite size_singleton in *. lia.
Qed.

Lemma stack_walk_enough fuel stack :
  Forall (λ '(c, _, _), Q c) stack → size D < fuel → ∀ n,
  database.stack_walk visit (n + fuel) stack ∅ = database.stack_walk visit fuel stack ∅.
Proof.
  intros Hq Hf n. induction n as [|n IH]; [done|]. rewrite <- IH. apply stack_walk_fuel; [done|set_solver|]. lia.
Qed.

End Tree.

(** Visits that agree walk the same trees. *)
Lemma tree_ok_iff visit visit' k path c a :
  (∀ c a ps, visit c a = Ok ps ↔ visit' c a = Ok ps) → tree_ok visit k path c a ↔ tree_ok visit' k path c a.
Proof.
  intros Hv. revert path c a. induction k as [|k IH]; [done|]. intros path c a. cbn [tree_ok]. setoid_rewrite Hv.
  setoid_rewrite Forall_forall. setoid_rewrite IH. done.
Qed.

(** A fold whose step succeeds exactly when [ok] holds, and leaves the set as it was. *)
Lemma try_fold_iff {B} (f : gset string → B → result AuthorityError (gset string)) (ok : B → Prop) l v w :
  (∀ x w, f v x = Ok w ↔ w = v ∧ ok x) → try_fold f l v = Ok w ↔ w = v ∧ Forall ok l.
Proof.
  intros Hf. induction l as [|x l IH].
  - cbn. rewrite Forall_nil. split; [by intros [= <-]|by intros [-> _]].
  - cbn [try_fold]. rewrite bind_Ok, Forall_cons. fold (try_fold f). split.
    + intros (u & [-> Hx]%Hf & Hl). apply IH in Hl as [-> Hl]. done.
    + intros (-> & Hx & Hl). exists v. split; [by apply Hf|]. by apply IH.
Qed.

Section Recursive.
Context `{Rfc3339} `{Nfc} `{FloatText} `{Sha256}.

Definition visit_memory (s : MemoryState) (now : Z) (c : string) (ancestor : bool) : result AuthorityError (list string) :=
  _ ← ensure_live_in_memory s c now ancestor;
  d ← ok_or (ms_artifacts s !! c) AuthorityStateUnavailable;
  let es := by_position (edges_of c (ms_edges s)) in
  _ ← validate_persisted_edge_shape d es;
  Ok (ed_parent <$> es).

Lemma visit_memory_Ok s now c a ps :
  visit_memory s now c a = Ok ps ↔
  ensure_live_in_memory s c now a = Ok tt ∧ ps = ed_parent <$> by_position (edges_of c (ms_edges s)) ∧
  ∃ d, ms_artifacts s !! c = Some d ∧ validate_persisted_edge_shape d (by_position (edges_of c (ms_edges s))) = Ok tt.
Proof.
  unfold visit_memory. rewrite bind_Ok. split.
  - intros ([] & Hl & Hv). apply bind_Ok in Hv as (d & Hd%ok_or_Ok & Hv). apply bind_Ok in Hv as ([] & Hs & Hv).
    injection Hv as <-. naive_solver.
  - intros (Hl & -> & d & Hd & Hs). exists tt. split; [done|]. rewrite Hd. cbn [ok_or]. by rewrite bind_ret_l, Hs, bind_ret_l.
Qed.

(** The walk of [persist_descendant] succeeds exactly on trees of visits. *)
Lemma walk_memory_tree s now k c a v w :
  walk_memory_edges s now k c a v = Ok w ↔ w = v ∧ tree_ok (visit_memory s now) k v c a.
Proof.
  revert c a v w. induction k as [|k IH]; intros c a v w; [split; [done|by intros [_ []]]|].
  cbn [walk_memory_edges tree_ok]. setoid_rewrite visit_memory_Ok. rewrite bind_Ok. split.
  - intros ([] & Hc%ensure_Ok%bool_decide_eq_true & Hw). apply bind_Ok in Hw as ([] & Hl & Hw).
    apply bind_Ok in Hw as (d & Hd%ok_or_Ok & Hw). apply bind_Ok in Hw as ([] & Hs & Hw).
    apply bind_Ok in Hw as (u & Hu & Hw). injection Hw as <-.
    apply (try_fold_iff _ (λ e, tree_ok (visit_memory s now) k ({[c]} ∪ v) (ed_parent e) true)) in Hu as [-> Hall];
      [|by intros x u'; rewrite IH].
    split; [set_solver|]. split; [done|]. eexists. split; [eauto|]. by rewrite Forall_fmap.
  - intros (-> & Hc & ps & (Hl & -> & d & Hd & Hs) & Hall). exists tt. split; [by apply ensure_Ok, bool_decide_eq_true|].
    rewrite Hl, bind_ret_l, Hd. cbn [ok_or]. rewrite bind_ret_l, Hs, bind_ret_l. apply bind_Ok. exists ({[c]} ∪ v). split.
    + apply (try_fold_iff _ (λ e, tree_ok (visit_memory s now) k ({[c]} ∪ v) (ed_parent e) true)); [by intros x u'; rewrite IH|].
      split; [done|]. by rewrite Forall_fmap in Hall.
    + f_equal. set_solver.
Qed.

End Recursive.
