(* ===== verification/PolicyRefinement.v ===== *)
(** * The two authority kernels

    Reachable states of the reference kernel and of the database kernel; every commit
    of the database kernel, whatever commits came between its reads and its
    transaction, is a step of the reference kernel; what a delegation that may be
    invoked rests on; revocation is permanent; a challenge issues one session. *)
From stdpp Require Import sorting.
From S2P Require Import Prelude Str Chars Json Registry SqlCaveat Tables Jcs PolicyCapability Evidence PolicyDelegation PolicyVerifier PolicyMemory PolicyDatabase PolicyWalk.

(** ** The reference kernel *)

Section MemorySteps.
Context `{Rfc3339} `{Nfc} `{FloatText} `{Sha256} (verified : PolicyDelegation → Prop) (node : string).

Inductive mem_step (s : MemoryState) : MemoryState → Prop :=
| ms_insert d st s' : verified d → insert_verified_authority d st s = (Ok tt, s') → mem_step s s'
| ms_challenge c s' : insert_challenge c s = (Ok tt, s') → mem_step s s'
| ms_status cid st s' : set_status cid st s = (Ok tt, s') → mem_step s s'
| ms_root policy enforcement st root eb t b s' :
    verified policy → verified enforcement → verified root →
    issue_root node policy enforcement st root eb t b s = (Ok tt, s') → mem_step s s'
| ms_descendant d now s' : verified d → persist_descendant d now s = (Ok tt, s') → mem_step s s'.

Definition mem_reachable (s : MemoryState) : Prop := rtc mem_step memory_empty s.

(** The first edge of an artifact is at position 0, and so is every immediate edge. *)
Definition placed (es : list VerifiedEdge) : Prop :=
  (∀ c e, head (edges_of c es) = Some e → ed_position e = 0%N) ∧
  (∀ e, e ∈ es → ed_kind e = Immediate → ed_position e = 0%N).

Lemma edges_of_app c es es' : edges_of c (es ++ es') = edges_of c es ++ edges_of c es'.
Proof. apply List.filter_app. Qed.

Lemma placed_app es es' : placed es → placed es' → placed (es ++ es').
Proof.
  intros [Hh Hi] [Hh' Hi']. split.
  - intros c e. rewrite edges_of_app. destruct (edges_of c es) as [|e0 l] eqn:E; [apply Hh'|].
    intros He. apply (Hh c). by rewrite E.
  - intros e [?|?]%elem_of_app; auto.
Qed.

Lemma placed_root d : placed (root_edges d).
Proof.
  unfold root_edges. destruct (pd_proofs d) as [|p [|q ps]]; [by split; [|by intros e ?%elem_of_nil]..|]. split.
  - intros c e. cbn. case_bool_decide; [by intros [= <-]|done].
  - intros e [->|[->|?%elem_of_nil]%elem_of_cons]%elem_of_cons; done.
Qed.

Lemma placed_immediate c p : placed [mkVerifiedEdge c p Immediate 0].
Proof.
  split.
  - intros c' e. cbn. case_bool_decide; [by intros [= <-]|done].
  - by intros e ->%list_elem_of_singleton.
Qed.

Lemma checked_Ok {A} (check : result AuthorityError A) s update s' :
  checked check s update = (Ok tt, s') ↔ ∃ a, check = Ok a ∧ s' = update a.
Proof. unfold checked. destruct check; naive_solver. Qed.

Lemma transaction_Ok {A} (check : result AuthorityError A) s commit s' :
  transaction check s commit = (Ok tt, s') ↔ ∃ a, check = Ok a ∧ ms_fail s = false ∧ s' = commit a.
Proof. unfold transaction. destruct check, (ms_fail s); naive_solver. Qed.

Lemma mem_placed s : mem_reachable s → placed (ms_edges s).
Proof.
  intros Hr. apply rtc_ind_r with (P := λ s, placed (ms_edges s)) in Hr; [done| |].
  { by split; [|by intros e ?%elem_of_nil]. }
  clear. intros s s' _ Hs Hp. destruct Hs as [d st s' _ Hi|c s' Hi|cid st s' Hi|p e st r eb t b s' _ _ _ Hi|d now s' _ Hi].
  - by apply checked_Ok in Hi as (? & _ & ->).
  - by apply checked_Ok in Hi as (? & _ & ->).
  - by apply checked_Ok in Hi as (? & _ & ->).
  - apply transaction_Ok in Hi as (a & _ & _ & ->). by apply placed_app, placed_root.
  - apply transaction_Ok in Hi as (a & _ & _ & ->). by apply placed_app, placed_immediate.
Qed.

(** Both checks of an artifact's edges agree. *)
Lemma elem_of_edges_of e c es : e ∈ edges_of c es ↔ e ∈ es ∧ ed_child e = c.
Proof. unfold edges_of. by rewrite !list_elem_of_In, filter_In, bool_decide_eq_true. Qed.

Lemma shape_agrees es c d :
  placed es → verified_edge_shape d (edges_of c es) = validate_persisted_edge_shape d (by_position (edges_of c es)) ∧
  (validate_persisted_edge_shape d (by_position (edges_of c es)) = Ok tt → by_position (edges_of c es) = edges_of c es).
Proof.
  intros [Hh Hi]. pose proof (Hh c) as Hhead. assert (∀ e, e ∈ edges_of c es → ed_kind e = Immediate → ed_position e = 0%N) as Himm.
  { intros e [? _]%elem_of_edges_of. by apply Hi. }
  clear Hh Hi. destruct (edges_of c es) as [|a [|b [|x l]]].
  - done.
  - unfold by_position. cbn [sort_by foldr insert_by]. split; [|done]. unfold verified_edge_shape, validate_persisted_edge_shape.
    destruct (pd_role d); try done. specialize (Himm a ltac:(by left)). case_bool_decide as Hk; [|done].
    by rewrite (Himm Hk).
  - specialize (Hhead a eq_refl). unfold by_position. cbn [sort_by foldr insert_by]. rewrite Hhead.
    by destruct (N.leb_spec 0 (ed_position b)); [|lia].
  - assert (∀ l', length l' = S (S (S (length l))) → validate_persisted_edge_shape d l' = Err AuthorityStateUnavailable ∧
      verified_edge_shape d l' = Err AuthorityStateUnavailable) as Hlong.
    { intros [|? [|? [|? ?]]] Hl; try done. unfold validate_persisted_edge_shape, verified_edge_shape. by destruct (pd_role d). }
    destruct (Hlong (a :: b :: x :: l) eq_refl) as [_ ->].
    destruct (Hlong (by_position (a :: b :: x :: l))) as [-> _]; [|done].
    unfold by_position. by rewrite (Permutation_length (sort_by_perm _ _)).
Qed.

(** Folds whose steps agree where the set is unchanged. *)
Lemma try_fold_ext {B} (f g : gset string → B → result AuthorityError (gset string)) l v :
  (∀ x, f v x = g v x) → (∀ x w, g v x = Ok w → w = v) → try_fold f l v = try_fold g l v.
Proof.
  intros Hfg Hg. induction l as [|x l IH]; [done|]. cbn [try_fold]. fold (try_fold f) (try_fold g). rewrite Hfg.
  destruct (g v x) as [w|] eqn:Hx; [|done]. rewrite !bind_ret_l. by rewrite (Hg x w Hx).
Qed.

Lemma live_any_ancestor s c now a a' : ensure_live_in_memory s c now a = Ok tt → ensure_live_in_memory s c now a' = Ok tt.
Proof.
  unfold ensure_live_in_memory. intros Hl. apply bind_Ok in Hl as (d & Hd & Hl). apply bind_Ok in Hl as ([] & Hw & Hl).
  apply bind_Ok in Hl as (st & Hst & Hl). apply bind_Ok in Hl as ([] & Hf & Hl%ensure_Ok).
  rewrite Hd, bind_ret_l, Hw, bind_ret_l, Hst, bind_ret_l, Hf, bind_ret_l. by apply ensure_Ok.
Qed.

Lemma walks_agree_from s now k c a v :
  placed (ms_edges s) → (∀ x, x ∈ v → ensure_live_in_memory s x now true = Ok tt) →
  walk_verified_edges s now k c a v = walk_memory_edges s now k c a v.
Proof.
  intros Hp. revert c a v. induction k as [|k IH]; [done|]. intros c a v Hv. cbn [walk_verified_edges walk_memory_edges].
  destruct (decide (c ∈ v)) as [Hin|Hin].
  { rewrite (live_any_ancestor s c now true a) by auto. rewrite bind_ret_l. by rewrite bool_decide_eq_false_2 by tauto. }
  rewrite bool_decide_eq_true_2, ensure_true, !bind_ret_l by done.
  destruct (ensure_live_in_memory s c now a) as [[]|] eqn:Hl; [|done]. rewrite !bind_ret_l.
  destruct (ms_artifacts s !! c) as [d|]; [|done]. cbn [ok_or]. rewrite !bind_ret_l.
  destruct (shape_agrees (ms_edges s) c d Hp) as [-> Hsorted].
  destruct (validate_persisted_edge_shape d _) as [[]|]; [|done]. rewrite !bind_ret_l, Hsorted by done.
  rewrite (try_fold_ext _ (λ v e, walk_memory_edges s now k (ed_parent e) true v)); [done| |].
  - intros x. apply IH. intros y [->%elem_of_singleton|Hy]%elem_of_union; [by eapply live_any_ancestor|auto].
  - intros x w Hw. by apply walk_memory_tree in Hw as [-> _].
Qed.

End MemorySteps.

(** On every state the reference kernel reaches, the walk of
    [validate_for_invocation] and the one [persist_descendant] uses give the same
    result, error included, although only the second orders the edges and checks the
    position of a descendant's edge. *)
Theorem memory_walks_agree `{Rfc3339} `{Nfc} `{FloatText} `{Sha256} (verified : PolicyDelegation → Prop) (node : string)
    (s : MemoryState) (now : Z) (k : nat) (c : string) (a : bool) :
  mem_reachable verified node s → walk_verified_edges s now k c a ∅ = walk_memory_edges s now k c a ∅.
Proof. intros Hr. apply walks_agree_from; [by eapply mem_placed|]. by intros x ?%elem_of_empty. Qed.

(** ** The database kernel *)

Import database.

Section DbSteps.
Context `{Rfc3339} `{Nfc} `{FloatText} `{Sha256} `{DbTime}.
Context (verified : PolicyDelegation → Prop) (node : string).

(** A commit on [cur]: the queries before the transaction saw [cur] or any state
    before it, of which [h] lists those that were committed. *)
Inductive commit (h : list DbState) (cur : DbState) : DbState → Prop :=
| c_insert d st s' : verified d → insert_verified_authority d st cur = Ok s' → commit h cur s'
| c_admit d o now read s' :
    verified d → read ∈ cur :: h → admit_verified_authority_in_transaction d o now read cur = Ok s' → commit h cur s'
| c_challenge c s' : insert_challenge c cur = Ok s' → commit h cur s'
| c_set_status cid st read s' : read ∈ cur :: h → set_status_attempt cid st read cur = Ok (Some s') → commit h cur s'
| c_apply_status cid o now read s' :
    read ∈ cur :: h → apply_status_in_transaction cid o now read cur = Ok s' → commit h cur s'
| c_root policy enforcement st root eb t b read s' :
    verified policy → verified enforcement → verified root → read ∈ cur :: h →
    issue_root node policy enforcement st root eb t b read cur = Ok s' → commit h cur s'
| c_root_in_transaction policy enforcement st root eb t b s' :
    verified policy → verified enforcement → verified root →
    issue_root_in_transaction node policy enforcement st root eb t b cur = Ok s' → commit h cur s'
| c_descendant d now first read s' :
    verified d → first ∈ cur :: h → read ∈ cur :: h → persist_descendant d now first read cur = Ok s' → commit h cur s'.

(** The committed states, newest first. *)
Inductive history : list DbState → Prop :=
| h_empty : history [db_empty]
| h_commit h cur s' : history (cur :: h) → commit h cur s' → history (s' :: cur :: h).

Definition reachable (s : DbState) : Prop := ∃ h, history (s :: h).

(** ** What commits keep *)

Definition row_evolves (r r' : Row) : Prop :=
  row_artifact r' = row_artifact r ∧ (r' = r ∨ (row_sequence r < row_sequence r')%N) ∧
  ∀ t, row_revoked_at r = Some t → row_revoked_at r' = Some t.
Definition challenge_evolves (c c' : ChallengeState) : Prop :=
  c' = c ∨ (ch_consumed_at c = None ∧ is_Some (ch_consumed_at c')).

Record evolves (s s' : DbState) : Prop := {
  ev_rows cid r : db_rows s !! cid = Some r → ∃ r', db_rows s' !! cid = Some r' ∧ row_evolves r r';
  ev_edges cid : is_Some (db_rows s !! cid) → edges_of cid (db_edges s') = edges_of cid (db_edges s);
  ev_challenges id c : db_challenges s !! id = Some c → ∃ c', db_challenges s' !! id = Some c' ∧ challenge_evolves c c';
  ev_audits : db_audits s ⊆ db_audits s';
}.

#[local] Instance row_evolves_preorder : PreOrder row_evolves.
Proof.
  split.
  - intros r. split_and!; [done|by left|done].
  - intros r1 r2 r3 (Ha & Hs & Ht) (Ha' & Hs' & Ht'). split_and!; [congruence| |by auto].
    destruct Hs as [->|Hs]; [done|]. destruct Hs' as [->|Hs']; [by right|right; lia].
Qed.

#[local] Instance challenge_evolves_preorder : PreOrder challenge_evolves.
Proof.
  split.
  - by left.
  - intros c1 c2 c3 [->|[Hn Hs]] [->|[Hn' Hs']]; [by left|by right|by right|]. destruct Hs as [? Hs]. congruence.
Qed.

#[local] Instance evolves_preorder : PreOrder evolves.
Proof.
  split.
  - intros s. split; try done; eauto.
    + intros cid r Hr. by exists r.
    + intros id c Hc. by exists c.
  - intros s1 s2 s3 H12 H23. split.
    + intros cid r (r2 & Hr2 & He)%(ev_rows _ _ H12). destruct (ev_rows _ _ H23 _ _ Hr2) as (r3 & Hr3 & He').
      exists r3. split; [done|]. by etrans.
    + intros cid [r Hr]. destruct (ev_rows _ _ H12 _ _ Hr) as (r2 & Hr2 & _).
      rewrite (ev_edges _ _ H23), (ev_edges _ _ H12); eauto.
    + intros id c (c2 & Hc2 & He)%(ev_challenges _ _ H12). destruct (ev_challenges _ _ H23 _ _ Hc2) as (c3 & Hc3 & He').
      exists c3. split; [done|]. by etrans.
    + etrans; [by apply ev_audits|by apply ev_audits].
Qed.

(** ** Effects of the primitive updates *)

Lemma artifact_model_Ok d st r :
  artifact_model d st = Ok r → r = mkRow d (st_checked_at st) (Some (st_fresh_until st)) (st_sequence st) (st_revoked_at st).
Proof.
  unfold artifact_model. intros Hr. do 3 (apply bind_Ok in Hr as ([] & _ & Hr)). apply bind_Ok in Hr as ([] & _ & Hr).
  by injection Hr as <-.
Qed.

Definition new_row (d : PolicyDelegation) (st : AuthorityStatus) : Row :=
  mkRow d (st_checked_at st) (Some (st_fresh_until st)) (st_sequence st) (st_revoked_at st).

Lemma insert_row_Ok d st s s' :
  insert_row d st s = Ok s' → db_rows s !! pd_cid d = None ∧ s' = with_rows (<[pd_cid d := new_row d st]> (db_rows s)) s.
Proof.
  unfold insert_row. intros Hs. apply bind_Ok in Hs as (r & ->%artifact_model_Ok & Hs).
  apply bind_Ok in Hs as ([] & Hn%ensure_Ok%bool_decide_eq_true & Hs). by injection Hs as <-.
Qed.

Lemma insert_edge_Ok e s s' :
  insert_edge e s = Ok s' →
  s' = with_edges (db_edges s ++ [e]) s ∧ is_Some (db_rows s !! ed_child e) ∧ is_Some (db_rows s !! ed_parent e).
Proof.
  unfold insert_edge. intros Hs. apply bind_Ok in Hs as ([] & Hg%ensure_Ok & Hs). injection Hs as <-.
  rewrite !andb_true_iff, !bool_decide_eq_true in Hg. tauto.
Qed.

Lemma insert_audit_Ok a s s' :
  insert_audit a s = Ok s' → db_audits s !! au_issuance_id a = None ∧ s' = with_audits (<[au_issuance_id a := a]> (db_audits s)) s.
Proof.
  unfold insert_audit. intros Hs. apply bind_Ok in Hs as ([] & Hg%ensure_Ok & Hs). injection Hs as <-.
  rewrite !andb_true_iff, !bool_decide_eq_true in Hg. tauto.
Qed.

Lemma update_where_Some cid st filter s s' :
  update_where cid st filter s = Some s' →
  ∃ r, db_rows s !! cid = Some r ∧ filter r = true ∧ s' = with_rows (<[cid := update_row st r]> (db_rows s)) s.
Proof.
  unfold update_where. destruct (db_rows s !! cid) as [r|]; [|done]. destruct (filter r) eqn:Hf; [|done]. intros [= <-]. eauto.
Qed.

(** The edges of a new artifact do not touch the others. *)
Lemma edges_of_others cid c es : Forall (λ e, ed_child e = c) es → cid ≠ c → edges_of cid es = [].
Proof.
  intros Hall Hne. induction Hall as [|e es He _ IH]; [done|]. cbn [edges_of List.filter]. rewrite bool_decide_eq_false_2 by congruence.
  exact IH.
Qed.

Lemma edges_of_own c es : Forall (λ e, ed_child e = c) es → edges_of c es = es.
Proof.
  induction 1 as [|e es He _ IH]; [done|]. cbn [edges_of List.filter]. rewrite bool_decide_eq_true_2 by done. by f_equal.
Qed.

(** Artifacts in the store. *)
Definition stored (s : DbState) (d : PolicyDelegation) : Prop := ∃ r, db_rows s !! pd_cid d = Some r ∧ row_artifact r = d.

(** What the edges of an artifact were checked against when they were written. *)
Inductive backed (s : DbState) (d : PolicyDelegation) : Prop :=
| backed_root P E :
    stored s P → stored s E → roots P E d node →
    edges_of (pd_cid d) (db_edges s) = [mkVerifiedEdge (pd_cid d) (pd_cid P) Authority 0; mkVerifiedEdge (pd_cid d) (pd_cid E) Authority 1] →
    backed s d
| backed_descendant parent root :
    stored s parent → stored s root → root_cid_of parent = Ok (pd_cid root) → descends d parent root →
    edges_of (pd_cid d) (db_edges s) = [mkVerifiedEdge (pd_cid d) (pd_cid parent) Immediate 0] → backed s d.

Record inv (s : DbState) : Prop := {
  inv_row cid r : db_rows s !! cid = Some r →
    pd_cid (row_artifact r) = cid ∧ verified (row_artifact r) ∧ is_Some (row_fresh_until r);
  inv_edge e : e ∈ db_edges s → is_Some (db_rows s !! ed_child e) ∧ is_Some (db_rows s !! ed_parent e);
  inv_backed d : stored s d → edges_of (pd_cid d) (db_edges s) ≠ [] → backed s d;
  inv_challenge id c : db_challenges s !! id = Some c → ch_id c = id;
  inv_audit i a : db_audits s !! i = Some a →
    au_issuance_id a = i ∧ ∃ c, db_challenges s !! au_challenge_id a = Some c ∧ is_Some (ch_consumed_at c);
  inv_single i j a b : db_audits s !! i = Some a → db_audits s !! j = Some b → au_challenge_id a = au_challenge_id b → i = j;
}.

Lemma stored_evolves s s' d : evolves s s' → stored s d → stored s' d.
Proof. intros He (r & Hr & Hd). destruct (ev_rows _ _ He _ _ Hr) as (r' & Hr' & Ha & _). exists r'. split; congruence. Qed.

Lemma backed_evolves s s' d : evolves s s' → stored s d → backed s d → backed s' d.
Proof.
  intros He (r & Hr & _) Hb. assert (edges_of (pd_cid d) (db_edges s') = edges_of (pd_cid d) (db_edges s)) as Hes.
  { apply (ev_edges _ _ He). by exists r. }
  destruct Hb as [P E HP HE Hroots Hed|parent root Hp Hr' Hcid Hdesc Hed].
  - apply (backed_root _ _ P E); [by eapply stored_evolves|by eapply stored_evolves|done|by rewrite Hes].
  - apply (backed_descendant _ _ parent root); [by eapply stored_evolves|by eapply stored_evolves|done|done|by rewrite Hes].
Qed.

(** A new artifact with its edges, and whatever else its transaction wrote. *)
Section NewArtifact.
Context (s : DbState) (d : PolicyDelegation) (st : AuthorityStatus) (es : list VerifiedEdge)
  (chs : gmap string ChallengeState) (aus : gmap string IssuanceAudit).
Context (Hinv : inv s) (Hver : verified d) (Hnew : db_rows s !! pd_cid d = None)
  (Hes : Forall (λ e, ed_child e = pd_cid d ∧ is_Some (db_rows s !! ed_parent e)) es)
  (Hchs : ∀ id c, db_challenges s !! id = Some c → ∃ c', chs !! id = Some c' ∧ challenge_evolves c c')
  (Haus : db_audits s ⊆ aus).

Definition after_new : DbState := mkDbState (<[pd_cid d := new_row d st]> (db_rows s)) (db_edges s ++ es) chs aus.

Lemma own_edges : edges_of (pd_cid d) (db_edges s) = [].
Proof.
  destruct (edges_of (pd_cid d) (db_edges s)) as [|e l] eqn:E; [done|].
  assert (e ∈ edges_of (pd_cid d) (db_edges s)) as [He Hc]%elem_of_edges_of by (rewrite E; by left).
  destruct (inv_edge _ Hinv _ He) as [[r Hr] _]. congruence.
Qed.

Lemma new_children : Forall (λ e, ed_child e = pd_cid d) es.
Proof. eapply Forall_impl; [exact Hes|]. by intros e []. Qed.

Lemma new_evolves : evolves s after_new.
Proof.
  split; cbn [after_new db_rows db_edges db_challenges db_audits]; [| |exact Hchs|exact Haus].
  - intros cid r Hr. exists r. split; [|done]. rewrite lookup_insert_ne; [done|congruence].
  - intros cid [r Hr]. rewrite edges_of_app, (edges_of_others cid (pd_cid d) es); [apply app_nil_r|apply new_children|congruence].
Qed.

Lemma new_edges : edges_of (pd_cid d) (db_edges after_new) = es.
Proof. cbn [after_new db_rows db_edges db_challenges db_audits]. rewrite edges_of_app, own_edges. apply edges_of_own, new_children. Qed.

Context (Hbacked : es ≠ [] → backed after_new d)
  (Hids : ∀ id c, chs !! id = Some c → ch_id c = id)
  (Haudit : ∀ i a, aus !! i = Some a → au_issuance_id a = i ∧ ∃ c, chs !! au_challenge_id a = Some c ∧ is_Some (ch_consumed_at c))
  (Hsingle : ∀ i j a b, aus !! i = Some a → aus !! j = Some b → au_challenge_id a = au_challenge_id b → i = j).

Lemma new_inv : inv after_new.
Proof.
  assert (∀ cid, is_Some (db_rows s !! cid) → is_Some (db_rows after_new !! cid)) as Hmono.
  { intros cid [r Hr]. destruct (ev_rows _ _ new_evolves _ _ Hr) as (r' & Hr' & _). by exists r'. }
  split; [| | |exact Hids|exact Haudit|exact Hsingle].
  - intros cid r. cbn [after_new db_rows db_edges db_challenges db_audits]. intros [[<- <-]|[_ Hr]]%lookup_insert_Some; [by repeat split|]. by apply (inv_row _ Hinv).
  - intros e. cbn [after_new db_edges]. intros [He|He]%elem_of_app.
    + destruct (inv_edge _ Hinv _ He) as [Hc Hp]. split; by apply Hmono.
    + rewrite Forall_forall in Hes. destruct (Hes e He) as [Hc Hp]. split; [|by apply Hmono]. rewrite Hc. cbn [after_new db_rows db_edges db_challenges db_audits]. rewrite lookup_insert_eq. by eexists.
  - intros x (r & Hr & Hx) Hne. destruct (decide (pd_cid x = pd_cid d)) as [Heq|Hneq].
    + cbn [after_new db_rows db_edges db_challenges db_audits] in Hr. rewrite Heq, lookup_insert_eq in Hr. injection Hr as <-. cbn in Hx. subst x. apply Hbacked. by rewrite <- new_edges.
    + assert (stored s x) as Hst. { exists r. split; [|done]. cbn [after_new db_rows db_edges db_challenges db_audits] in Hr. by rewrite lookup_insert_ne in Hr. }
      apply (backed_evolves s); [apply new_evolves|done|]. apply (inv_backed _ Hinv); [done|].
      destruct Hst as (r0 & Hr0 & _). by rewrite <- (ev_edges _ _ new_evolves) by by exists r0.
Qed.
End NewArtifact.

(** A status update. *)
Section StatusUpdate.
Context (s : DbState) (cid : string) (r : Row) (st : AuthorityStatus).
Context (Hinv : inv s) (Hr : db_rows s !! cid = Some r) (Hst : validate_status_transition (row_status r) st = Ok tt).

Definition after_status : DbState := with_rows (<[cid := update_row st r]> (db_rows s)) s.

Lemma status_transition_Ok previous next :
  validate_status_transition previous next = Ok tt →
  (st_sequence previous < st_sequence next)%N ∧ ∀ t, st_revoked_at previous = Some t → st_revoked_at next = Some t.
Proof.
  unfold validate_status_transition. intros Ht%ensure_Ok. rewrite !andb_true_iff in Ht. destruct Ht as [[[Hs%N.ltb_lt _] Hp] _].
  split; [done|]. intros t Heq. rewrite Heq in Hp. by apply bool_decide_eq_true in Hp.
Qed.

Lemma status_evolves : evolves s after_status.
Proof.
  destruct (status_transition_Ok _ _ Hst) as [Hseq Hrev].
  split; cbn [after_status with_rows db_rows db_edges db_challenges db_audits]; [|done| |done].
  - intros c x Hx. destruct (decide (c = cid)) as [->|Hne].
    + exists (update_row st r). rewrite lookup_insert_eq. split; [done|]. rewrite Hr in Hx. injection Hx as <-.
      split_and!; [done|by right|exact Hrev].
    + exists x. by rewrite lookup_insert_ne.
  - intros id c Hc. by exists c.
Qed.

Lemma status_inv : inv after_status.
Proof.
  pose proof status_evolves as He. split; try apply Hinv.
  - intros c x. cbn [after_status with_rows db_rows]. intros [[<- <-]|[_ Hx]]%lookup_insert_Some; [|by apply (inv_row _ Hinv)].
    destruct (inv_row _ Hinv _ _ Hr) as (? & ? & _). by repeat split.
  - intros e Hed. destruct (inv_edge _ Hinv _ Hed) as [[x Hx] [y Hy]].
    destruct (ev_rows _ _ He _ _ Hx) as (? & ? & _), (ev_rows _ _ He _ _ Hy) as (? & ? & _). split; by eexists.
  - intros d (x & Hx & Hd) Hne. assert (stored s d) as Hs.
    { cbn [after_status with_rows db_rows] in Hx. apply lookup_insert_Some in Hx as [[Hc <-]|[_ Hx]]; [|by exists x].
      exists r. rewrite <- Hc. split; [done|]. exact Hd. }
    apply (backed_evolves s); [done|done|]. by apply (inv_backed _ Hinv).
Qed.
End StatusUpdate.

(** A row read earlier whose sequence is still the same is still the same. *)
Lemma unchanged_row (read cur : DbState) cid r r' b :
  evolves read cur → db_rows read !! cid = Some r → db_rows cur !! cid = Some r' → unchanged r r' b = true → r' = r.
Proof.
  intros He Hr Hr' Hu. destruct (ev_rows _ _ He _ _ Hr) as (x & Hx & _ & Hseq & _). rewrite Hr' in Hx. injection Hx as <-.
  unfold unchanged in Hu. rewrite !andb_true_iff in Hu. destruct Hu as [[[Hs%N.eqb_eq _] _] _].
  destruct Hseq as [->|Hlt]; [done|lia].
Qed.

Lemma status_from_model_Ok r st :
  status_from_model r = Ok st →
  st = row_status r ∧ (st_checked_at st < st_fresh_until st)%Z ∧ (st_fresh_until st - st_checked_at st ≤ MAX_STATUS_AGE)%Z ∧
  revocation_observed st = true.
Proof.
  unfold status_from_model. intros Hs. apply bind_Ok in Hs as ([] & Hw%ensure_Ok & Hs). apply bind_Ok in Hs as ([] & Hr%ensure_Ok & Hs).
  injection Hs as <-. rewrite andb_true_iff, Z.ltb_lt, Z.leb_le in Hw. naive_solver.
Qed.

Lemma set_status_effect cid st read cur s' :
  evolves read cur → set_status_attempt cid st read cur = Ok (Some s') →
  ∃ r, db_rows cur !! cid = Some r ∧ validate_status_transition (row_status r) st = Ok tt ∧ s' = after_status cur cid r st.
Proof.
  intros He Hs. unfold set_status_attempt in Hs. apply bind_Ok in Hs as (r & Hr%ok_or_Ok & Hs).
  apply bind_Ok in Hs as (previous & [-> _]%status_from_model_Ok & Hs). apply bind_Ok in Hs as ([] & Ht & Hs).
  apply bind_Ok in Hs as ([] & _ & Hs). injection Hs as Hs. apply update_where_Some in Hs as (r' & Hr' & Hu & ->).
  assert (r' = r) as -> by by eapply unchanged_row. by exists r.
Qed.

Lemma apply_status_effect cid o now read cur s' :
  evolves read cur → apply_status_in_transaction cid o now read cur = Ok s' →
  s' = cur ∨ ∃ r, db_rows cur !! cid = Some r ∧ validate_status_transition (row_status r) (observed_status o) = Ok tt ∧
    s' = after_status cur cid r (observed_status o).
Proof.
  intros He Hs. unfold apply_status_in_transaction in Hs. apply bind_Ok in Hs as ([] & _ & Hs).
  apply bind_Ok in Hs as (r & Hr%ok_or_Ok & Hs). apply bind_Ok in Hs as (previous & [-> _]%status_from_model_Ok & Hs).
  case_bool_decide as Heq; [injection Hs as <-; by left|]. apply bind_Ok in Hs as ([] & Ht & Hs). apply bind_Ok in Hs as ([] & _ & Hs).
  apply ok_or_Ok, update_where_Some in Hs as (r' & Hr' & Hu & ->). assert (r' = r) as -> by by eapply unchanged_row.
  right. by exists r.
Qed.

Lemma admit_effect d o now read cur s' :
  evolves read cur → admit_verified_authority_in_transaction d o now read cur = Ok s' →
  s' = cur ∨ (∃ r, db_rows cur !! pd_cid d = Some r ∧ validate_status_transition (row_status r) (observed_status o) = Ok tt ∧
    s' = after_status cur (pd_cid d) r (observed_status o)) ∨ insert_row d (observed_status o) cur = Ok s'.
Proof.
  intros He Hs. unfold admit_verified_authority_in_transaction in Hs. destruct (db_rows read !! pd_cid d) as [r|].
  - apply bind_Ok in Hs as (x & _ & Hs). apply bind_Ok in Hs as ([] & _ & Hs). apply apply_status_effect in Hs; [|done]. tauto.
  - apply bind_Ok in Hs as ([] & _ & Hs). tauto.
Qed.

(** ** Liveness *)

Lemma ensure_live_Ok s c now a d :
  ensure_live_on s c now a = Ok d ↔
  ∃ r, db_rows s !! c = Some r ∧ row_artifact r = d ∧ validate_wire_shape d = Ok tt ∧ pd_cid d = c ∧ within d now = Ok tt ∧
    status_from_model r = Ok (row_status r) ∧ status_fresh (row_status r) now = true ∧ revoked_by (row_status r) now = false.
Proof.
  unfold ensure_live_on, ensure_live_model, artifact_from_model, delegation_row. split.
  - intros Hl. apply bind_Ok in Hl as (r & Hr%ok_or_Ok & Hl). apply bind_Ok in Hl as (d' & Ha & Hl).
    apply bind_Ok in Ha as ([] & Hw & Ha). apply bind_Ok in Ha as ([] & Hc%ensure_Ok%bool_decide_eq_true & Ha). injection Ha as <-.
    apply bind_Ok in Hl as ([] & Hin & Hl). apply bind_Ok in Hl as (st & Hst & Hl). apply bind_Ok in Hl as ([] & Hf%ensure_Ok & Hl).
    apply bind_Ok in Hl as ([] & Hrev%ensure_Ok%negb_true_iff & Hl). injection Hl as <-.
    pose proof (status_from_model_Ok _ _ Hst) as [-> _]. by exists r.
  - intros (r & -> & <- & Hw & Hc & Hin & Hst & Hf & Hrev). cbn [ok_or]. rewrite bind_ret_l, Hw, bind_ret_l.
    rewrite bool_decide_eq_true_2, ensure_true, !bind_ret_l, Hin, bind_ret_l, Hst, bind_ret_l by done.
    rewrite Hf, Hrev. by rewrite !ensure_true, !bind_ret_l.
Qed.

Lemma ensure_live_any s c now a a' d : ensure_live_on s c now a = Ok d → ensure_live_on s c now a' = Ok d.
Proof. by rewrite !ensure_live_Ok. Qed.

(** The state of the reference kernel a database state stands for. *)
Definition abstract (s : DbState) : MemoryState :=
  mkMemoryState (row_artifact <$> db_rows s) (db_edges s) (db_challenges s) (db_audits s) (row_status <$> db_rows s) false.

Lemma live_abstract s c now a d : ensure_live_on s c now a = Ok d → ensure_live_in_memory (abstract s) c now a = Ok tt.
Proof.
  intros (r & Hr & <- & _ & _ & Hin & (_ & _ & _ & Hobs)%status_from_model_Ok & Hf & Hrev)%ensure_live_Ok.
  unfold ensure_live_in_memory. cbn [abstract ms_artifacts ms_statuses]. rewrite !lookup_fmap, Hr. cbn [fmap option_fmap option_map ok_or].
  rewrite bind_ret_l, Hin, !bind_ret_l, Hf, Hobs. cbn [andb]. by rewrite ensure_true, bind_ret_l, Hrev.
Qed.

Lemma visit_abstract s now c a ps : visit_live s now c a = Ok ps → visit_memory (abstract s) now c a = Ok ps.
Proof.
  unfold visit_live. intros Hv. apply bind_Ok in Hv as (d & Hl & Hv). apply bind_Ok in Hv as ([] & Hs & Hv). injection Hv as <-.
  apply visit_memory_Ok. split; [by eapply live_abstract|]. split; [done|]. exists d. split; [|done].
  apply ensure_live_Ok in Hl as (r & Hr & <- & _). cbn [abstract ms_artifacts]. by rewrite lookup_fmap, Hr.
Qed.

Lemma tree_ok_mono (visit visit' : string → bool → result AuthorityError (list string)) k path c a :
  (∀ c a ps, visit c a = Ok ps → visit' c a = Ok ps) → tree_ok visit k path c a → tree_ok visit' k path c a.
Proof.
  intros Hv. revert path c a. induction k as [|k IH]; [done|]. intros path c a (Hc & ps & Hps & Hall).
  split; [done|]. exists ps. split; [auto|]. eapply Forall_impl; [exact Hall|]. intros p. apply IH.
Qed.

(** ** Effects of issuing and persisting *)

Lemma sorted_pair p q : length (dedup (sort_by bytes_leb [p; q])) = 2 → p ≠ q.
Proof.
  intros Hl ->. cbn [sort_by foldr insert_by] in Hl. destruct (bytes_leb q q); cbn [dedup dedup_from] in Hl;
    by rewrite bool_decide_eq_true_2 in Hl.
Qed.

Lemma persist_root_effect d audit id now s s' p q :
  pd_proofs d = [p; q] → persist_root_in_transaction d audit id now s = Ok s' →
  p ≠ q ∧ (∃ P, ensure_live_on s p now false = Ok P) ∧ (∃ E, ensure_live_on s q now false = Ok E) ∧
  (∃ c, db_challenges s !! id = Some c ∧ ch_consumed_at c = None) ∧ db_rows s !! pd_cid d = None ∧
  db_audits s !! au_issuance_id audit = None ∧
  s' = after_new s d (fresh_status now) [mkVerifiedEdge (pd_cid d) p Authority 0; mkVerifiedEdge (pd_cid d) q Authority 1]
         (alter (consume now) id (db_challenges s)) (<[au_issuance_id audit := audit]> (db_audits s)).
Proof.
  intros Hproofs Hs. unfold persist_root_in_transaction in Hs. rewrite Hproofs in Hs.
  apply bind_Ok in Hs as ([] & Hlen%ensure_Ok%bool_decide_eq_true%sorted_pair & Hs).
  apply bind_Ok in Hs as ([] & Hlive & Hs). rewrite for_each_Ok in Hlive.
  apply bind_Ok in Hs as (c & Hc%ok_or_Ok & Hs). apply bind_Ok in Hs as ([] & Hn%ensure_Ok%bool_decide_eq_true & Hs).
  apply bind_Ok in Hs as (c' & _ & Hs). do 2 (apply bind_Ok in Hs as ([] & _ & Hs)).
  apply bind_Ok in Hs as (s1 & [Hnew ->]%insert_row_Ok & Hs). apply bind_Ok in Hs as (s2 & [Haud ->]%insert_audit_Ok & Hs).
  cbn [imap try_fold] in Hs. apply bind_Ok in Hs as (s3 & [-> _]%insert_edge_Ok & Hs).
  apply bind_Ok in Hs as (s4 & [-> _]%insert_edge_Ok & Hs). injection Hs as <-.
  assert (∀ x, x ∈ [p; q] → ∃ P, ensure_live_on s x now false = Ok P) as Hl.
  { intros x Hx. assert (x ∈ dedup (sort_by bytes_leb [p; q])) as Hx'%Hlive by by rewrite elem_of_dedup, sort_by_perm.
    apply bind_Ok in Hx' as (P & HP & _). by exists P. }
  split_and!; [done|apply Hl; by left|apply Hl; by right; left|by exists c|exact Hnew|exact Haud|].
  cbn. unfold after_new. f_equal. by rewrite <- app_assoc.
Qed.

Lemma lock_all_live s parent now cids locked locked' :
  lock_all s parent now cids locked = Ok locked' →
  (∀ c d, locked !! c = Some d → ensure_live_on s c now true = Ok d) →
  ∀ c d, locked' !! c = Some d → ensure_live_on s c now true = Ok d.
Proof.
  revert locked. induction cids as [|x cids IH]; intros locked Hl Hlive; [by injection Hl as <-|].
  cbn [lock_all] in Hl. apply bind_Ok in Hl as (d & Hd & Hl). eapply IH; [exact Hl|].
  intros c e [[<- <-]|[_ He]]%lookup_insert_Some; [by eapply ensure_live_any|by apply Hlive].
Qed.

Lemma persist_descendant_effect d parent now ancestry s s' :
  persist_descendant_atomic d parent now ancestry s = Ok s' →
  tree_ok (visit_live s now) WALK_DEPTH ∅ parent false ∧ db_rows s !! pd_cid d = None ∧
  s' = after_new s d (fresh_status now) [mkVerifiedEdge (pd_cid d) parent Immediate 0] (db_challenges s) (db_audits s).
Proof.
  unfold persist_descendant_atomic. intros Hs. apply bind_Ok in Hs as (locked & Hlock & Hs).
  apply bind_Ok in Hs as ([] & Hv & Hs). apply bind_Ok in Hs as (s1 & [Hnew ->]%insert_row_Ok & Hs).
  apply insert_edge_Ok in Hs as [-> _]. split_and!; [|done|done].
  unfold validate_locked_ancestry in Hv. apply bind_Ok in Hv as (visited & Hw & _).
  apply (stack_walk_tree _ _ _ _ _ ∅) in Hw; [|done]. apply Forall_cons in Hw as [[_ Ht] _].
  eapply tree_ok_mono; [|exact Ht]. clear Ht. intros c a ps Hps. unfold visit_locked in Hps.
  apply bind_Ok in Hps as (x & Hx%ok_or_Ok & Hps). apply bind_Ok in Hps as ([] & Hshape & Hps). apply bind_Ok in Hps as ([] & _ & Hps).
  injection Hps as <-. unfold visit_live.
  rewrite (ensure_live_any s c now true a x) by (eapply lock_all_live; [exact Hlock|by intros ? ?; rewrite lookup_empty|done]).
  by rewrite bind_ret_l, Hshape, bind_ret_l.
Qed.

(** ** Issuing a root *)

Context `{!VerifiedArtifacts verified}.

Lemma abstract_new s d st es chs aus :
  abstract (after_new s d st es chs aus) =
  mkMemoryState (<[pd_cid d := d]> (row_artifact <$> db_rows s)) (db_edges s ++ es) chs aus
    (<[pd_cid d := st]> (row_status <$> db_rows s)) false.
Proof. unfold abstract, after_new. cbn [db_rows db_edges db_challenges db_audits]. rewrite !fmap_insert. by destruct st. Qed.

Lemma validate_root_challenge policy enforcement st c root eb t b audit :
  validate_root policy enforcement st c root eb t b node = Ok audit →
  au_challenge_id audit = ch_id c ∧ ch_id c = ib_challenge_id b.
Proof.
  unfold validate_root. intros Hv. do 2 (apply bind_Ok in Hv as (? & _ & Hv)). apply bind_Ok in Hv as ([] & Hch & Hv).
  apply bind_Ok in Hch as ([] & _ & Hch). apply bind_Ok in Hch as ([] & Hid%ensure_Ok & _).
  apply andb_true_iff in Hid as [Hid%bool_decide_eq_true _]. split; [|done].
  do 33 (apply bind_Ok in Hv as (? & _ & Hv)). apply bind_Ok in Hv as (a & Ha & Hv). apply bind_Ok in Hv as (? & _ & Hv).
  injection Hv as <-. unfold root_audit in Ha. do 5 (apply bind_Ok in Ha as (? & _ & Ha)). by injection Ha as <-.
Qed.

(** The stored artifact of a CID is the verified one at hand. *)
Lemma live_stored s now d P :
  inv s → verified d → ensure_live_on s (pd_cid d) now false = Ok P → stored s d.
Proof.
  intros Hinv Hd (r & Hr & <- & _)%ensure_live_Ok. destruct (inv_row _ Hinv _ _ Hr) as (Hc & Hv & _).
  exists r. split; [done|]. by apply verified_inj.
Qed.

Lemma root_effect validate policy enforcement st root eb t b read cur audit s' :
  evolves read cur → inv cur → verified policy → verified enforcement → verified root →
  check_root validate node policy enforcement st root eb t b read = Ok audit →
  persist_root_in_transaction root audit (ib_challenge_id b) (ib_now b) cur = Ok s' →
  roots policy enforcement root node ∧ stored cur policy ∧ stored cur enforcement ∧ db_rows cur !! pd_cid root = None ∧
  (∃ c, db_challenges cur !! ib_challenge_id b = Some c ∧ ch_consumed_at c = None ∧ au_challenge_id audit = ib_challenge_id b) ∧
  db_audits cur !! au_issuance_id audit = None ∧
  PolicyMemory.issue_root node policy enforcement st root eb t b (abstract cur) = (Ok tt, abstract s') ∧
  s' = after_new cur root (fresh_status (ib_now b))
         [mkVerifiedEdge (pd_cid root) (pd_cid policy) Authority 0; mkVerifiedEdge (pd_cid root) (pd_cid enforcement) Authority 1]
         (alter (consume (ib_now b)) (ib_challenge_id b) (db_challenges cur)) (<[au_issuance_id audit := audit]> (db_audits cur)).
Proof.
  intros He Hinv HvP HvE HvR Hc Hs. unfold check_root in Hc. apply bind_Ok in Hc as ([] & Hpair & Hc).
  do 2 (apply bind_Ok in Hc as ([] & _ & Hc)). apply bind_Ok in Hc as (c0 & Hc0 & Hc). apply bind_Ok in Hc as ([] & _ & Hroot).
  apply bind_Ok in Hc0 as (c0' & Hc0%ok_or_Ok & Hm). apply bind_Ok in Hm as ([] & _ & Hm). injection Hm as ->.
  pose proof (validate_root_Ok _ _ _ _ _ _ _ _ _ _ Hpair Hroot) as Hroots.
  pose proof (validate_root_challenge _ _ _ _ _ _ _ _ _ Hroot) as [Hid1 Hid2].
  pose proof (rt_proofs _ _ _ _ Hroots) as Hproofs.
  apply (persist_root_effect _ _ _ _ _ _ _ _ Hproofs) in Hs as (_ & [P HP] & [E HE] & (c & Hcc & Hcn) & Hnew & Haud & ->).
  assert (c = c0) as ->.
  { destruct (ev_challenges _ _ He _ _ Hc0) as (c' & Hc' & Hev). rewrite Hcc in Hc'. injection Hc' as <-.
    destruct Hev as [->|[_ [? Hsome]]]; [done|congruence]. }
  pose proof (live_stored _ _ _ _ Hinv HvP HP) as HsP. pose proof (live_stored _ _ _ _ Hinv HvE HE) as HsE.
  split_and!; try done; [exists c0; split_and!; [done|done|congruence]|].
  apply transaction_Ok. exists audit. split_and!; [|done|].
  - unfold PolicyMemory.check_root. rewrite Hpair, bind_ret_l, (live_abstract _ _ _ _ _ HP), bind_ret_l, (live_abstract _ _ _ _ _ HE), bind_ret_l.
    cbn [abstract ms_artifacts ms_challenges]. rewrite !lookup_fmap. destruct HsP as (rP & -> & HaP), HsE as (rE & -> & HaE).
    cbn [fmap option_fmap option_map]. rewrite HaP, HaE, !bool_decide_eq_true_2 by done. cbn [andb]. rewrite ensure_true, bind_ret_l, Hcc.
    cbn [ok_or]. by rewrite bind_ret_l, Hcn.
  - rewrite abstract_new. unfold root_edges. by rewrite Hproofs.
Qed.

(** ** Persisting a descendant *)

Lemma artifact_Ok s cid d : artifact s cid = Ok d → stored s d ∧ pd_cid d = cid.
Proof.
  unfold artifact, artifact_from_model, delegation_row. intros Ha. apply bind_Ok in Ha as (r & Hr%ok_or_Ok & Ha).
  apply bind_Ok in Ha as ([] & _ & Ha). apply bind_Ok in Ha as ([] & Hc%ensure_Ok%bool_decide_eq_true & Ha). injection Ha as <-.
  split; [|done]. exists r. by rewrite Hc.
Qed.

Lemma stored_abstract s d : stored s d → ms_artifacts (abstract s) !! pd_cid d = Some d.
Proof. intros (r & Hr & Hd). cbn [abstract ms_artifacts]. rewrite lookup_fmap, Hr. cbn. by rewrite Hd. Qed.

Lemma descendant_effect d now first read cur s' :
  evolves read cur → persist_descendant d now first read cur = Ok s' →
  ∃ parent root, stored cur parent ∧ stored cur root ∧ root_cid_of parent = Ok (pd_cid root) ∧ descends d parent root ∧
    db_rows cur !! pd_cid d = None ∧
    PolicyMemory.persist_descendant d now (abstract cur) = (Ok tt, abstract s') ∧
    s' = after_new cur d (fresh_status now) [mkVerifiedEdge (pd_cid d) (pd_cid parent) Immediate 0] (db_challenges cur) (db_audits cur).
Proof.
  intros He Hs. unfold persist_descendant in Hs. apply bind_Ok in Hs as (pc & Hpc & Hs).
  apply bind_Ok in Hs as (ancestry & _ & Hs). apply bind_Ok in Hs as (parent & [Hparent <-]%artifact_Ok & Hs).
  apply bind_Ok in Hs as ([] & Hmode & Hs). apply bind_Ok in Hs as (rc & Hrc & Hs).
  apply bind_Ok in Hs as (root & [Hroot <-]%artifact_Ok & Hs). apply bind_Ok in Hs as ([] & Hdesc & Hs).
  apply bind_Ok in Hs as ([] & _ & Hs). apply persist_descendant_effect in Hs as (Htree & Hnew & ->).
  apply (stored_evolves _ _ _ He) in Hparent, Hroot.
  exists parent, root. split_and!; try done; [by apply validate_descendant_Ok|].
  apply transaction_Ok. exists (pd_cid parent). split_and!; [|done|by rewrite abstract_new].
  unfold check_descendant. rewrite Hpc, bind_ret_l, (stored_abstract _ _ Hparent). cbn [ok_or]. rewrite bind_ret_l, Hmode, bind_ret_l, Hrc, bind_ret_l.
  rewrite (stored_abstract _ _ Hroot). cbn [ok_or]. rewrite bind_ret_l, Hdesc, bind_ret_l.
  rewrite (proj2 (walk_memory_tree (abstract cur) now WALK_DEPTH (pd_cid parent) false ∅ ∅)); [by rewrite bind_ret_l|].
  split; [done|]. eapply tree_ok_mono; [|exact Htree]. apply visit_abstract.
Qed.

(** ** Every commit *)

Lemma insert_row_new s d st s' :
  insert_row d st s = Ok s' → db_rows s !! pd_cid d = None ∧ s' = after_new s d st [] (db_challenges s) (db_audits s).
Proof. intros [Hn ->]%insert_row_Ok. split; [done|]. unfold after_new, with_rows. by rewrite app_nil_r. Qed.

Definition keeps (cur s' : DbState) : Prop :=
  inv s' ∧ evolves cur s' ∧ (abstract s' = abstract cur ∨ mem_step verified node (abstract cur) (abstract s')).

Lemma insert_keeps cur d st s' : inv cur → verified d → insert_row d st cur = Ok s' → keeps cur s'.
Proof.
  intros Hinv Hd [Hnew ->]%insert_row_new.
  assert (evolves cur (after_new cur d st [] (db_challenges cur) (db_audits cur))) as He.
  { apply new_evolves; try done. intros id c Hc. by exists c. }
  split_and!; [|done|].
  - apply new_inv; try done; try apply Hinv. intros id c Hc. by exists c.
  - right. apply (ms_insert _ _ _ d st); [done|]. apply checked_Ok. exists tt. split.
    + cbn [abstract ms_artifacts ms_statuses]. rewrite !lookup_fmap, Hnew. done.
    + rewrite abstract_new. unfold put_artifact. cbn. by rewrite app_nil_r.
Qed.

Lemma status_keeps cur cid r st :
  inv cur → db_rows cur !! cid = Some r → validate_status_transition (row_status r) st = Ok tt →
  keeps cur (after_status cur cid r st).
Proof.
  intros Hinv Hr Ht. split_and!; [by apply status_inv|by apply status_evolves|]. right. apply (ms_status _ _ _ cid st).
  apply checked_Ok. exists tt. split.
  - cbn [abstract ms_statuses]. rewrite lookup_fmap, Hr. cbn [fmap option_fmap option_map ok_or]. by rewrite bind_ret_l.
  - unfold abstract, put_status, after_status, with_rows. cbn [db_rows db_edges db_challenges db_audits ms_artifacts ms_edges ms_challenges ms_audits ms_statuses ms_fail].
    rewrite !fmap_insert. f_equal; [|by destruct st]. apply insert_id. rewrite lookup_fmap, Hr. done.
Qed.

Lemma challenge_keeps cur c s' : inv cur → insert_challenge c cur = Ok s' → keeps cur s'.
Proof.
  intros Hinv Hs. unfold insert_challenge in Hs. apply bind_Ok in Hs as ([] & Hl & Hs). do 2 (apply bind_Ok in Hs as ([] & _ & Hs)).
  apply bind_Ok in Hs as ([] & Hn%ensure_Ok%bool_decide_eq_true & Hs). injection Hs as <-.
  assert (∀ id x, db_challenges cur !! id = Some x → <[ch_id c := c]> (db_challenges cur) !! id = Some x) as Hold.
  { intros id x Hx. rewrite lookup_insert_ne; [done|congruence]. }
  split_and!.
  - split; try apply Hinv.
    + intros d Hd Hne. destruct (inv_backed _ Hinv d Hd Hne) as [P E HP HE Hr Hed|parent root Hp Hr Hcid Hdesc Hed].
      * by apply (backed_root _ _ P E).
      * by apply (backed_descendant _ _ parent root).
    + intros id x. cbn [with_challenges db_challenges]. intros [[<- <-]|[_ Hx]]%lookup_insert_Some; [done|]. by apply (inv_challenge _ Hinv).
    + intros i a Ha. destruct (inv_audit _ Hinv i a Ha) as (Hi & x & Hx & Hsome). split; [done|]. exists x. split; [|done]. by apply Hold.
  - split; cbn [with_challenges db_rows db_edges db_challenges db_audits]; try done.
    + intros cid r Hr. by exists r.
    + intros id x Hx. exists x. split; [by apply Hold|by left].
  - right. apply (ms_challenge _ _ _ c). apply checked_Ok. exists tt. split; [|done]. rewrite Hl, bind_ret_l.
    cbn [abstract ms_challenges]. by rewrite Hn.
Qed.

Lemma consumed_challenges now id (m : gmap string ChallengeState) c :
  m !! id = Some c → ch_consumed_at c = None →
  ∀ i x, m !! i = Some x → ∃ x', alter (consume now) id m !! i = Some x' ∧ challenge_evolves x x'.
Proof.
  intros Hc Hn i x Hx. destruct (decide (i = id)) as [->|Hne].
  - exists (consume now x). rewrite lookup_alter_eq, Hx. split; [done|]. right. split; [congruence|by eexists].
  - exists x. rewrite lookup_alter_ne by done. split; [done|by left].
Qed.

Lemma root_keeps validate policy enforcement st root eb t b read cur audit s' :
  evolves read cur → inv cur → verified policy → verified enforcement → verified root →
  check_root validate node policy enforcement st root eb t b read = Ok audit →
  persist_root_in_transaction root audit (ib_challenge_id b) (ib_now b) cur = Ok s' → keeps cur s'.
Proof.
  intros He Hinv HvP HvE HvR Hc Hs.
  destruct (root_effect _ _ _ _ _ _ _ _ _ _ _ _ He Hinv HvP HvE HvR Hc Hs) as (Hroots & HsP & HsE & Hnew & (c & Hcc & Hcn & Hid) & Haud & Hmem & ->).
  set (chs := alter _ _ _). set (aus := <[_ := _]> _). set (es := [_; _]).
  assert (Forall (λ e, ed_child e = pd_cid root ∧ is_Some (db_rows cur !! ed_parent e)) es) as Hes.
  { destruct HsP as (? & HP & _), HsE as (? & HE & _). repeat constructor; by eexists. }
  pose proof (consumed_challenges (ib_now b) _ _ _ Hcc Hcn) as Hchs.
  assert (db_audits cur ⊆ aus) as Haus by by apply insert_subseteq.
  pose proof (new_evolves cur root (fresh_status (ib_now b)) es chs aus Hnew Hes Hchs Haus) as Hev.
  assert (∀ i a, db_audits cur !! i = Some a → au_challenge_id a ≠ ib_challenge_id b) as Hfresh.
  { intros i a Ha Heq. destruct (inv_audit _ Hinv i a Ha) as (_ & x & Hx & [y Hy]). rewrite Heq, Hcc in Hx. congruence. }
  assert (∃ x, chs !! au_challenge_id audit = Some x ∧ is_Some (ch_consumed_at x)) as Hcons.
  { exists (consume (ib_now b) c). unfold chs. rewrite Hid, lookup_alter_eq, Hcc. split; [done|by eexists]. }
  split_and!; [|done|by right; eapply (ms_root _ _ _ policy enforcement)].
  apply new_inv; try done.
  - intros _. apply (backed_root _ _ policy enforcement); [by eapply stored_evolves|by eapply stored_evolves|done|by apply new_edges].
  - intros id x Hx. unfold chs in Hx. apply lookup_alter_Some in Hx as [(<- & y & Hy & ->)|[_ Hx]]; [exact (inv_challenge _ Hinv _ _ Hy)|exact (inv_challenge _ Hinv _ _ Hx)].
  - intros i a [[<- <-]|[_ Ha]]%lookup_insert_Some; [done|]. destruct (inv_audit _ Hinv i a Ha) as (Hi & x & Hx & Hsome). split; [done|].
    exists x. split; [|done]. unfold chs. rewrite lookup_alter_ne; [done|]. intros Heq. by eapply Hfresh.
  - intros i j a a' [[<- <-]|[_ Ha]]%lookup_insert_Some [[<- <-]|[_ Ha']]%lookup_insert_Some Heq; [done| | |by eapply (inv_single _ Hinv)].
    + exfalso. eapply Hfresh; [exact Ha'|congruence].
    + exfalso. eapply Hfresh; [exact Ha|congruence].
Qed.

Lemma descendant_keeps d now first read cur s' :
  evolves read cur → inv cur → verified d → persist_descendant d now first read cur = Ok s' → keeps cur s'.
Proof.
  intros He Hinv Hd Hs. destruct (descendant_effect _ _ _ _ _ _ He Hs) as (parent & root & Hp & Hr & Hcid & Hdesc & Hnew & Hmem & ->).
  set (es := [_]). assert (Forall (λ e, ed_child e = pd_cid d ∧ is_Some (db_rows cur !! ed_parent e)) es) as Hes.
  { destruct Hp as (? & HP & _). repeat constructor. by eexists. }
  assert (∀ id c, db_challenges cur !! id = Some c → ∃ c', db_challenges cur !! id = Some c' ∧ challenge_evolves c c') as Hchs.
  { intros id c Hc. exists c. split; [done|by left]. }
  pose proof (new_evolves cur d (fresh_status now) es _ _ Hnew Hes Hchs (reflexivity _)) as Hev.
  split_and!; [|done|by right; eapply ms_descendant].
  apply new_inv; try done; try apply Hinv. intros _.
  apply (backed_descendant _ _ parent root); [by eapply stored_evolves|by eapply stored_evolves|done|done|by apply new_edges].
Qed.

Lemma commit_keeps h cur s' :
  inv cur → (∀ x, x ∈ cur :: h → evolves x cur) → commit h cur s' → keeps cur s'.
Proof.
  intros Hinv Hh [d st s2 Hd Hs|d o now read s2 Hd Hread Hs|c s2 Hs|cid st read s2 Hread Hs|cid o now read s2 Hread Hs
    |P E st R eb t b read s2 HP HE HR Hread Hs|P E st R eb t b s2 HP HE HR Hs|d now first read s2 Hd _ Hread Hs].
  - by eapply insert_keeps.
  - apply admit_effect in Hs as [->|[(r & Hr & Ht & ->)|Hs]]; [|by apply status_keeps|by eapply insert_keeps|by apply Hh].
    split_and!; [done|done|by left].
  - by eapply challenge_keeps.
  - apply set_status_effect in Hs as (r & Hr & Ht & ->); [by apply status_keeps|by apply Hh].
  - apply apply_status_effect in Hs as [->|(r & Hr & Ht & ->)]; [|by apply status_keeps|by apply Hh].
    split_and!; [done|done|by left].
  - apply bind_Ok in Hs as (audit & Hc & Hs). exact (root_keeps _ _ _ _ _ _ _ _ _ _ _ _ (Hh _ Hread) Hinv HP HE HR Hc Hs).
  - apply bind_Ok in Hs as (audit & Hc & Hs). exact (root_keeps _ _ _ _ _ _ _ _ _ _ _ _ (Hh cur ltac:(by left)) Hinv HP HE HR Hc Hs).
  - exact (descendant_keeps _ _ _ _ _ _ (Hh _ Hread) Hinv Hd Hs).
Qed.

Lemma inv_empty : inv db_empty.
Proof. split; intros *; cbn; try by rewrite lookup_empty. - by intros ?%elem_of_nil. - done. Qed.

Lemma history_inv h s : history (s :: h) → inv s ∧ ∀ x, x ∈ s :: h → evolves x s.
Proof.
  intros Hh. remember (s :: h) as l eqn:El. revert s h El. induction Hh as [|h cur s' Hh IH Hc]; intros s h0 [= <- <-].
  - split; [apply inv_empty|]. by intros x ->%list_elem_of_singleton.
  - destruct (IH cur h eq_refl) as [Hinv Hev]. destruct (commit_keeps _ _ _ Hinv Hev Hc) as (Hinv' & He & _).
    split; [done|]. intros x [->|Hx]%elem_of_cons; [done|]. etrans; [by apply Hev|done].
Qed.

End DbSteps.

Lemma history_mem_reachable `{Rfc3339} `{Nfc} `{FloatText} `{Sha256} `{DbTime} (verified : PolicyDelegation → Prop)
    `{!VerifiedArtifacts verified} (node : string) h s :
  history verified node (s :: h) → mem_reachable verified node (abstract s).
Proof.
  intros Hh. remember (s :: h) as l eqn:El. revert s h El. induction Hh as [|h cur s' Hh IH Hc]; intros s h0 [= <- <-].
  { unfold mem_reachable, abstract. cbn. rewrite !fmap_empty. apply rtc_refl. }
  destruct (history_inv verified node _ _ Hh) as [Hinv Hev].
  destruct (commit_keeps verified node _ _ _ Hinv Hev Hc) as (_ & _ & [Heq|Hstep]); [rewrite Heq; by eapply IH|].
  eapply rtc_r; [by eapply IH|exact Hstep].
Qed.

(** C6: every commit of the database kernel is a step of the reference kernel from
    the state it abstracts to (or leaves that state as it is), for any commits that
    came between the queries of the operation and its transaction: the reference
    kernel, run at the moment of the commit, succeeds with the same effect. *)
Theorem database_refines_memory `{Rfc3339} `{Nfc} `{FloatText} `{Sha256} `{DbTime} (verified : PolicyDelegation → Prop)
    `{!VerifiedArtifacts verified} (node : string) (h : list DbState) (cur s' : DbState) :
  history verified node (cur :: h) → commit verified node h cur s' →
  abstract s' = abstract cur ∨ mem_step verified node (abstract cur) (abstract s').
Proof. intros [Hinv Hev]%history_inv Hc; [|done]. by destruct (commit_keeps verified node _ _ _ Hinv Hev Hc) as (_ & _ & ?). Qed.

(** A challenge issues at most one session: two audits that name the same
    challenge are the same record, and its challenge is consumed. *)
Theorem challenge_single_use `{Rfc3339} `{Nfc} `{FloatText} `{Sha256} `{DbTime} (verified : PolicyDelegation → Prop)
    `{!VerifiedArtifacts verified} (node : string) (s : DbState) (i j : string) (a b : IssuanceAudit) :
  reachable verified node s → db_audits s !! i = Some a → db_audits s !! j = Some b → au_challenge_id a = au_challenge_id b →
  i = j ∧ a = b ∧ ∃ c, db_challenges s !! au_challenge_id a = Some c ∧ is_Some (ch_consumed_at c).
Proof.
  intros [h [Hinv _]%history_inv] Ha Hb Heq; [|done]. assert (i = j) as -> by by eapply (inv_single verified node s Hinv).
  split; [done|]. split; [congruence|]. by destruct (inv_audit verified node s Hinv _ _ Ha) as [_ ?].
Qed.

(** ** What an invocable session rests on *)

Section Sessions.
Context `{Rfc3339} `{Nfc} `{FloatText} `{Sha256} `{DbTime}.
Context (verified : PolicyDelegation → Prop) `{!VerifiedArtifacts verified} (node : string).

(** Stored, inside its window, with a fresh status and not revoked at [now]. *)
Definition live_now (s : DbState) (now : Z) (d : PolicyDelegation) : Prop :=
  ∃ r, db_rows s !! pd_cid d = Some r ∧ row_artifact r = d ∧ within d now = Ok tt ∧ status_fresh (row_status r) now = true ∧
    ∀ t, row_revoked_at r = Some t → (now < t)%Z.

Record authorised (s : DbState) (now : Z) (d P E R : PolicyDelegation) : Prop := {
  az_live : live_now s now d ∧ live_now s now P ∧ live_now s now E ∧ live_now s now R;
  az_roots : roots P E R node;
  az_session : root_cid_of d = Ok (pd_cid R);
  az_caps : contained (pd_capabilities d) (pd_capabilities P) ∧ contained (pd_capabilities d) (pd_capabilities E);
  az_owner : fact d "ownerDid" = Ok (pd_issuer P);
  az_window : ∃ dn dx rn rx, not_before d = Ok dn ∧ expires_at d = Ok dx ∧ not_before R = Ok rn ∧ expires_at R = Ok rx ∧
    (rn ≤ dn < dx ∧ dx ≤ rx)%Z;
}.

Lemma live_now_Ok s c now a d : ensure_live_on s c now a = Ok d → live_now s now d ∧ pd_cid d = c.
Proof.
  intros (r & Hr & Hd & _ & Hc & Hin & _ & Hf & Hrev)%ensure_live_Ok. split; [|done]. exists r. rewrite Hc. split_and!; try done.
  intros t Ht. unfold revoked_by, row_status in Hrev. cbn in Hrev. rewrite Ht in Hrev. by apply Z.leb_gt in Hrev.
Qed.

Lemma live_stored_eq s now d d' : live_now s now d → stored s d' → pd_cid d = pd_cid d' → d = d'.
Proof. intros (r & Hr & Hd & _) (r' & Hr' & Hd') Heq. rewrite Heq in Hr. congruence. Qed.

(** A visit of a stored artifact: it is live, and its edges have the shape of its role. *)
Lemma visit_stored s now c a ps d :
  visit_live s now c a = Ok ps → stored s d → pd_cid d = c →
  live_now s now d ∧ ps = ed_parent <$> edges_on s c ∧ validate_persisted_edge_shape d (edges_on s c) = Ok tt.
Proof.
  unfold visit_live. intros Hv Hd Hc. apply bind_Ok in Hv as (x & [Hl Hx]%live_now_Ok & Hv). apply bind_Ok in Hv as ([] & Hs & Hv).
  injection Hv as <-. assert (x = d) as -> by (eapply live_stored_eq; [done..|congruence]). done.
Qed.

Lemma shape_session d es :
  validate_persisted_edge_shape d es = Ok tt → pd_role d = PolicySessionRoot ∨ pd_role d = PolicySessionDescendant → es ≠ [].
Proof. intros Hs Hrole ->. unfold validate_persisted_edge_shape in Hs. by destruct Hrole as [Hrole|Hrole]; rewrite Hrole in Hs. Qed.

Lemma by_position_nil es : by_position es = [] → es = [].
Proof. intros Hs. pose proof (sort_by_perm (λ a b, (ed_position a <=? ed_position b)%N) es) as Hp. unfold by_position in Hs. rewrite Hs in Hp. by apply Permutation_nil_l in Hp. Qed.

Lemma fact_kept_owner child parent v : 
  (∀ name v, name ∉ MUTABLE_FACTS → fact parent name = Ok v → fact child name = Ok v) →
  fact parent "ownerDid" = Ok v → fact child "ownerDid" = Ok v.
Proof. intros Hk. apply Hk. apply (bool_decide_unpack _). by vm_compute. Qed.

Lemma tree_visit (visit : string → bool → result AuthorityError (list string)) k path c a :
  tree_ok visit k path c a → ∃ ps, visit c a = Ok ps.
Proof. destruct k as [|k]; [done|]. intros (_ & ps & Hps & _). by exists ps. Qed.

Lemma tree_live s now k path d a : tree_ok (visit_live s now) k path (pd_cid d) a → stored s d → live_now s now d.
Proof. intros [ps Hps]%tree_visit Hd. by destruct (visit_stored s now _ _ _ _ Hps Hd eq_refl) as [? _]. Qed.

Lemma tree_backed s now k path a d :
  inv verified node s → tree_ok (visit_live s now) k path (pd_cid d) a → stored s d →
  pd_role d = PolicySessionRoot ∨ pd_role d = PolicySessionDescendant → ∃ P E R, authorised s now d P E R.
Proof.
  intros Hinv. revert path a d. induction k as [|k IH]; [done|]. intros path a d Ht Hd Hrole.
  pose proof (tree_live _ _ _ _ _ _ Ht Hd) as Hlive. destruct Ht as (_ & ps & Hps & Hall).
  destruct (visit_stored s now _ _ _ _ Hps Hd eq_refl) as (_ & -> & Hshape). unfold edges_on in *.
  destruct (inv_backed _ _ _ Hinv d Hd) as [P E HP HE Hroots Hed|parent root Hp Hr Hcid Hdesc Hed].
  { intros Hnil. rewrite Hnil in Hshape. by apply shape_session in Hshape. }
  - rewrite Hed in Hall. cbn in Hall. apply Forall_cons in Hall as [HtP [HtE _]%Forall_cons].
    exists P, E, d. split; try done.
    + split_and!; [done|by eapply tree_live|by eapply tree_live|done].
    + unfold root_cid_of. by rewrite decide_True by apply (rt_role _ _ _ _ Hroots).
    + apply (rt_caps _ _ _ _ Hroots).
    + apply (rt_root_owner _ _ _ _ Hroots).
    + destruct (rt_window _ _ _ _ Hroots) as (rn & rx & ? & ? & ? & ? & ? & Hn & Hx & _ & _ & _ & _ & _ & Hw & _).
      exists rn, rx, rn, rx. split_and!; try done; lia.
  - rewrite Hed in Hall. cbn in Hall. apply Forall_cons in Hall as [Htp _].
    destruct (IH _ _ _ Htp Hp (ds_parent_role _ _ _ Hdesc)) as (P & E & R & [Hl Hroots Hsess [Hc1 Hc2] Howner Hwin]).
    exists P, E, R. split; try done.
    + destruct Hl as (_ & HlP & HlE & HlR). done.
    + unfold root_cid_of. rewrite decide_False by (rewrite (ds_role _ _ _ Hdesc); done).
      rewrite (ds_root _ _ _ Hdesc). congruence.
    + split; (eapply contained_trans; [apply (ds_caps _ _ _ Hdesc)|done]).
    + eapply fact_kept_owner; [apply (ds_facts _ _ _ Hdesc)|done].
    + destruct (ds_window _ _ _ Hdesc) as (cn & cx & pn & px & Hcn & Hcx & Hpn & Hpx & Hw).
      destruct Hwin as (pn' & px' & rn & rx & Hpn' & Hpx' & Hrn & Hrx & Hw').
      assert (pn' = pn) as -> by congruence. assert (px' = px) as -> by congruence.
      exists cn, cx, rn, rx. split_and!; try done; lia.
Qed.

Lemma validate_tree s cid now :
  validate_for_invocation s cid now = Ok tt → tree_ok (visit_live s now) WALK_DEPTH ∅ cid false.
Proof.
  unfold validate_for_invocation. intros Hv. apply bind_Ok in Hv as (w & Hw & _).
  apply (stack_walk_tree _ _ _ _ _ ∅) in Hw; [|done]. by apply Forall_cons in Hw as [[_ Ht] _].
Qed.

(** Walking from an artifact visits every ancestor of it. *)
Definition parent_of (s : DbState) (c p : string) : Prop := ∃ e, e ∈ db_edges s ∧ ed_child e = c ∧ ed_parent e = p.

Lemma tree_ancestor s now k path c a x :
  tree_ok (visit_live s now) k path c a → rtc (parent_of s) c x → ∃ a' ps, visit_live s now x a' = Ok ps.
Proof.
  intros Ht Hr. revert k path a Ht. induction Hr as [c|c p x (e & He & Hc & Hp) _ IH]; intros k path a Ht.
  { apply tree_visit in Ht as [ps Hps]. eauto. }
  destruct k as [|k]; [done|]. destruct Ht as (_ & ps & Hps & Hall). unfold visit_live in Hps.
  apply bind_Ok in Hps as (d & _ & Hps). apply bind_Ok in Hps as ([] & _ & Hps). injection Hps as <-.
  rewrite Forall_fmap, Forall_forall in Hall. apply (IH k ({[c]} ∪ path) true). rewrite <- Hp. apply Hall. unfold edges_on, by_position.
  rewrite sort_by_perm. by apply elem_of_edges_of.
Qed.

End Sessions.

(** C5: a session that may be invoked rests on a policy and an enforcement delegation
    of one owner that are stored, in their windows and not revoked, and on a session
    root issued by this node under both; its capabilities are contained in those of
    both, its window lies in the root's, and it carries the owner's identity. *)
Theorem policy_session_backed `{Rfc3339} `{Nfc} `{FloatText} `{Sha256} `{DbTime} (verified : PolicyDelegation → Prop)
    `{!VerifiedArtifacts verified} (node : string) (s : DbState) (cid : string) (now : Z) (d : PolicyDelegation) :
  reachable verified node s → validate_for_invocation s cid now = Ok tt → stored s d → pd_cid d = cid →
  pd_role d = PolicySessionRoot ∨ pd_role d = PolicySessionDescendant →
  ∃ P E R, authorised node s now d P E R.
Proof.
  intros [h [Hinv _]%history_inv] Hv Hd <- Hrole; [|done]. eapply tree_backed; [done|by apply validate_tree|done|done].
Qed.

(** C7: a revocation is permanent: once a row is revoked as of [t], in every later
    state no artifact that descends from it may be invoked at [t] or after. *)
Theorem policy_revocation_permanent `{Rfc3339} `{Nfc} `{FloatText} `{Sha256} `{DbTime} (verified : PolicyDelegation → Prop)
    `{!VerifiedArtifacts verified} (node : string) (h : list DbState) (s s' : DbState) (c x : string) (r : Row) (t now : Z) :
  history verified node (s' :: h) → s ∈ s' :: h → db_rows s !! x = Some r → row_revoked_at r = Some t → (t ≤ now)%Z →
  rtc (parent_of s') c x → validate_for_invocation s' c now ≠ Ok tt.
Proof.
  intros [_ Hev]%history_inv Hin Hr Ht Hle Hanc Hv; [|done]. destruct (ev_rows _ _ (Hev s Hin) _ _ Hr) as (r' & Hr' & _ & _ & Hrev).
  apply validate_tree in Hv. destruct (tree_ancestor _ _ _ _ _ _ _ Hv Hanc) as (a & ps & Hps). unfold visit_live in Hps.
  apply bind_Ok in Hps as (d & [(y & Hy & _ & _ & _ & Hno) Hd]%live_now_Ok & _). rewrite Hd, Hr' in Hy. injection Hy as <-.
  specialize (Hno t (Hrev t Ht)). lia.
Qed.

(** ** The walks of both kernels *)

Section WalkAgreement.
Context `{Rfc3339} `{Nfc} `{FloatText} `{Sha256} `{DbTime}.
Context (verified : PolicyDelegation → Prop) `{!VerifiedArtifacts verified} (node : string) (s : DbState).
Context (Hinv : inv verified node s).

Lemma child_stored c : edges_of c (db_edges s) ≠ [] → ∃ d, stored s d ∧ pd_cid d = c ∧ backed node s d.
Proof.
  intros Hne. destruct (edges_of c (db_edges s)) as [|e l] eqn:E; [done|].
  assert (e ∈ edges_of c (db_edges s)) as [He Hc]%elem_of_edges_of by (rewrite E; by left).
  destruct (inv_edge _ _ _ Hinv _ He) as [[r Hr] _]. destruct (inv_row _ _ _ Hinv _ _ Hr) as (Hcid & _).
  exists (row_artifact r). assert (stored s (row_artifact r)) as Hst by (exists r; by rewrite Hcid).
  split_and!; [done|congruence|]. apply (inv_backed _ _ _ Hinv); [done|]. by rewrite Hcid, Hc, E.
Qed.

Lemma db_placed : placed (db_edges s).
Proof.
  split.
  - intros c e Hh. destruct (child_stored c) as (d & _ & <- & Hb); [by intros Hnil; rewrite Hnil in Hh|].
    destruct Hb as [P E _ _ _ Hed|parent root _ _ _ _ Hed]; rewrite Hed in Hh; by injection Hh as <-.
  - intros e He Hk. assert (e ∈ edges_of (ed_child e) (db_edges s)) as Hin by by apply elem_of_edges_of.
    destruct (child_stored (ed_child e)) as (d & _ & Hc & Hb); [by intros Hnil; rewrite Hnil in Hin; apply elem_of_nil in Hin|].
    rewrite <- Hc in Hin. destruct Hb as [P E _ _ _ Hed|parent root _ _ _ _ Hed]; rewrite Hed in Hin.
    + apply elem_of_cons in Hin as [->|[->|?%elem_of_nil]%elem_of_cons]; done.
    + by apply list_elem_of_singleton in Hin as ->.
Qed.

(** A visit of the reference kernel succeeds exactly when the database's does. *)
Lemma visit_iff now c a ps : visit_live s now c a = Ok ps ↔ visit_memory (abstract s) now c a = Ok ps.
Proof.
  split; [apply visit_abstract|]. intros (Hl & -> & d & Hd & Hshape)%visit_memory_Ok. unfold visit_live.
  cbn [abstract ms_artifacts ms_edges] in *. rewrite lookup_fmap in Hd. destruct (db_rows s !! c) as [r|] eqn:Hr; [|done]. injection Hd as <-.
  destruct (inv_row _ _ _ Hinv _ _ Hr) as (Hc & Hv & _). unfold ensure_live_in_memory in Hl. cbn [abstract ms_artifacts ms_statuses] in Hl.
  rewrite !lookup_fmap, Hr in Hl. cbn [fmap option_fmap option_map ok_or] in Hl. rewrite bind_ret_l in Hl.
  apply bind_Ok in Hl as ([] & Hw & Hl). rewrite bind_ret_l in Hl. apply bind_Ok in Hl as ([] & [Hf Ho]%ensure_Ok%andb_true_iff & Hl%ensure_Ok%negb_true_iff).
  rewrite (proj2 (ensure_live_Ok s c now a (row_artifact r))).
  - rewrite bind_ret_l. unfold edges_on. by rewrite Hshape, bind_ret_l.
  - exists r. split_and!; try done; [by apply verified_wire|]. unfold status_from_model. unfold status_fresh in Hf.
    rewrite !andb_true_iff, !Z.leb_le, Z.ltb_lt in Hf. destruct Hf as [[[_ H1'] H2'] H3'].
    rewrite (proj2 (Z.ltb_lt _ _)), (proj2 (Z.leb_le _ _)) by lia. cbn [andb]. by rewrite ensure_true, bind_ret_l, Ho, ensure_true, bind_ret_l.
Qed.

(** The ancestry is a chain of descendants, a root, and its two policies. *)
Lemma visit_policy now c a ps d :
  visit_live s now c a = Ok ps → stored s d → pd_cid d = c → pd_role d = PolicyAuthority ∨ pd_role d = PolicyEnforcement → ps = [].
Proof.
  intros Hv Hd Hc Hrole. destruct (visit_stored s now _ _ _ _ Hv Hd Hc) as (_ & -> & Hs%ensure_Ok).
  destruct (edges_on s c) as [|x l]; [done|]. by destruct Hrole as [Hrole|Hrole]; rewrite Hrole in Hs.
Qed.

Lemma walk_step visit n c a k l visited ps :
  k ≤ MAX_ANCESTRY_DEPTH → c ∉ visited → visit c a = Ok ps →
  stack_walk visit (S n) ((c, a, k) :: l) visited = stack_walk visit n (((λ p, (p, true, S k)) <$> ps) ++ l) ({[c]} ∪ visited).
Proof.
  intros Hk Hc Hps. cbn [stack_walk]. rewrite (proj2 (Nat.leb_le _ _)), bool_decide_eq_true_2 by done. cbn [andb].
  by rewrite ensure_true, bind_ret_l, Hps, bind_ret_l.
Qed.

Lemma tree_stack now k path c a depth :
  tree_ok (visit_live s now) k path c a → depth + k = WALK_DEPTH →
  ∃ n w, stack_walk (visit_live s now) n [(c, a, depth)] path = Ok w.
Proof.
  revert path c a depth. induction k as [|k IH]; [done|]. intros path c a depth (Hc & ps & Hps & Hall) Hk.
  unfold WALK_DEPTH in *. pose proof Hps as Hv. unfold visit_live in Hv. apply bind_Ok in Hv as (x & _ & Hv). apply bind_Ok in Hv as ([] & _ & Hv).
  injection Hv as Hv. destruct (decide (edges_of c (db_edges s) = [])) as [Hnil|Hne].
  { unfold edges_on in Hv. rewrite Hnil in Hv. cbn in Hv. subst ps. exists 2, ({[c]} ∪ path). by rewrite (walk_step _ _ _ _ _ _ _ []) by (done || lia). }
  destruct (child_stored c Hne) as (d & Hd & <- & Hb). unfold edges_on in Hv.
  destruct Hb as [P E HP HE Hroots Hed|parent root Hp Hr _ _ Hed]; rewrite Hed in Hv; cbn in Hv; subst ps.
  - apply Forall_cons in Hall as [HtP [HtE _]%Forall_cons]. destruct k as [|k]; [done|].
    destruct (tree_visit _ _ _ _ _ HtP) as [psP HvP], (tree_visit _ _ _ _ _ HtE) as [psE HvE].
    assert (psP = []) as -> by (eapply visit_policy; [done|exact HP|done|left; apply (rt_policy _ _ _ _ Hroots)]).
    assert (psE = []) as -> by (eapply visit_policy; [done|exact HE|done|right; apply (rt_enforcement _ _ _ _ Hroots)]).
    assert (pd_cid P ≠ pd_cid E) as Hpe.
    { intros Heq. destruct HP as (rP & HrP & HaP), HE as (rE & HrE & HaE). rewrite Heq in HrP.
      pose proof (rt_policy _ _ _ _ Hroots). pose proof (rt_enforcement _ _ _ _ Hroots). congruence. }
    destruct HtP as [HcP _], HtE as [HcE _]. exists 4. eexists.
    rewrite (walk_step _ _ _ _ _ _ _ [pd_cid P; pd_cid E]) by (done || lia). cbn [fmap list_fmap app].
    rewrite (walk_step _ _ _ _ _ _ _ []) by (done || lia). cbn [fmap list_fmap app].
    rewrite (walk_step _ _ _ _ _ _ _ []) by (done || lia || set_solver). done.
  - apply Forall_cons in Hall as [Htp _]. destruct (IH _ _ _ (S depth) Htp) as (n & w & Hw); [lia|].
    exists (S n), w. by rewrite (walk_step _ _ _ _ _ _ _ [pd_cid parent]) by (done || lia).
Qed.

Lemma stack_walk_dom now n l path w :
  stack_walk (visit_live s now) n l path = Ok w → path ⊆ dom (db_rows s) → w ⊆ dom (db_rows s).
Proof.
  revert l path. induction n as [|n IH]; [done|]. intros [|[[c a] k] l] path Hw Hp; cbn [stack_walk] in Hw; [by injection Hw as <-|].
  apply bind_Ok in Hw as ([] & _ & Hw). apply bind_Ok in Hw as (ps & Hps & Hw). apply IH in Hw; [done|].
  unfold visit_live in Hps. apply bind_Ok in Hps as (d & (r & Hr & _)%ensure_live_Ok & _). apply elem_of_dom_2 in Hr. set_solver.
Qed.

Lemma validate_iff now c : validate_for_invocation s c now = Ok tt ↔ tree_ok (visit_live s now) WALK_DEPTH ∅ c false.
Proof.
  split; [apply validate_tree|]. intros (n & w & Hw)%(tree_stack _ _ _ _ _ 0); [|done].
  unfold validate_for_invocation. erewrite stack_walk_size; [by rewrite bind_ret_l|exact Hw|].
  apply stack_walk_dom in Hw; [|set_solver]. apply subseteq_size in Hw. rewrite size_dom in Hw. rewrite size_empty. unfold walk_fuel. lia.
Qed.

End WalkAgreement.

(** On every reachable database state, the stack walk of the database kernel and
    the recursive walk of the reference kernel accept the same delegations, although
    one never forgets a visited artifact and the other forgets it on the way back. *)
Theorem database_walk_agrees `{Rfc3339} `{Nfc} `{FloatText} `{Sha256} `{DbTime} (verified : PolicyDelegation → Prop)
    `{!VerifiedArtifacts verified} (node : string) (s : DbState) (cid : string) (now : Z) :
  reachable verified node s →
  validate_for_invocation s cid now = Ok tt ↔ PolicyMemory.validate_for_invocation (abstract s) cid now = Ok tt.
Proof.
  intros [h [Hinv _]%history_inv]; [|done]. rewrite (validate_iff verified node s Hinv).
  rewrite (tree_ok_iff _ (visit_memory (abstract s) now)) by (intros; by eapply visit_iff).
  unfold PolicyMemory.validate_for_invocation. rewrite walks_agree_from by first [by eapply db_placed | by intros x ?%elem_of_empty].
  rewrite bind_Ok. setoid_rewrite walk_memory_tree. split; [intros Ht; by exists ∅|by intros (w & [_ Ht] & _)].
Qed.

(** The stack walks of the database kernel end: with as many iterations as there
    are rows and two, more iterations give the same result, for the walk of
    [validate_for_invocation] and for the one that collects the ancestry. *)
Theorem database_walks_terminate `{Rfc3339} `{Nfc} `{FloatText} `{Sha256} `{DbTime} (verified : PolicyDelegation → Prop)
    `{!VerifiedArtifacts verified} (node : string) (s : DbState) (cid : string) (now : Z) (n : nat) :
  reachable verified node s →
  stack_walk (visit_live s now) (n + walk_fuel s) [(cid, false, 0)] ∅ = stack_walk (visit_live s now) (walk_fuel s) [(cid, false, 0)] ∅ ∧
  stack_walk (λ c _, Ok (rev (ed_parent <$> edges_on s c))) (n + walk_fuel s) [(cid, false, 0)] ∅ = ancestry_cids s cid.
Proof.
  intros [h [Hinv _]%history_inv]; [|done]. split.
  - apply (stack_walk_enough _ (dom (db_rows s)) (λ _, True)); [|by repeat constructor|rewrite size_dom; unfold walk_fuel; lia].
    intros c a ps _ Hps. unfold visit_live in Hps. apply bind_Ok in Hps as (d & (r & Hr & _)%ensure_live_Ok & _).
    split; [by eapply elem_of_dom_2|]. by apply Forall_true.
  - apply (stack_walk_enough _ ({[cid]} ∪ dom (db_rows s)) (λ c, c ∈ {[cid]} ∪ dom (db_rows s))).
    + intros c a ps Hc [= <-]. split; [done|]. apply Forall_forall. intros p. rewrite elem_of_rev. intros (e & -> & He)%list_elem_of_fmap.
      unfold edges_on, by_position in He. rewrite sort_by_perm in He. apply elem_of_edges_of in He as [He _].
      destruct (inv_edge _ _ _ Hinv _ He) as [_ [r Hr]]. apply elem_of_union_r. by eapply elem_of_dom_2.
    + repeat constructor. set_solver.
    + pose proof (size_union_alt ({[cid]} : gset string) (dom (db_rows s))) as Hs. rewrite size_singleton in Hs.
      pose proof (subseteq_size (dom (db_rows s) ∖ {[cid]}) (dom (db_rows s)) ltac:(set_solver)) as Hd. rewrite size_dom in Hd.
      unfold walk_fuel. lia.
Qed.

(** ** Rows that cannot be updated *)

(** A row whose [status_fresh_until] is NULL, as left by the migration that added the
    column: no status can be recorded for it, a revocation included, since the update
    compares the column with NULL. *)
Lemma legacy_status_frozen `{Rfc3339} `{Nfc} `{FloatText} `{Sha256} `{DbTime} (cid : string) (st : AuthorityStatus)
    (attempts : list (DbState * DbState)) :
  Forall (λ rc, ∃ r, db_rows rc.1 !! cid = Some r ∧ row_fresh_until r = None) attempts →
  ∃ e, set_status cid st attempts = Err e.
Proof.
  intros Hall. unfold set_status. assert (Forall (λ rc, ∃ r, db_rows rc.1 !! cid = Some r ∧ row_fresh_until r = None) (take MAX_ATTEMPTS attempts)) as Ht.
  { by apply Forall_take. }
  clear Hall. induction Ht as [|[read cur] l (r & Hr & Hf) _ IH]; [by eexists|]. cbn [set_status_attempts fst] in *.
  unfold set_status_attempt, delegation_row. rewrite Hr. cbn [ok_or]. rewrite bind_ret_l.
  destruct (status_from_model r) as [p|]; [|by eexists]. rewrite bind_ret_l. destruct (validate_status_transition p st) as [[]|]; [|by eexists].
  rewrite bind_ret_l. destruct (status_columns st _) as [[]|]; [|by eexists]. rewrite bind_ret_l, bind_ret_l.
  assert (update_where cid st (λ now, unchanged r now true) cur = None) as ->; [|done].
  unfold update_where. destruct (db_rows cur !! cid) as [r'|]; [|done]. unfold unchanged. rewrite Hf.
  replace (sql_eq (row_fresh_until r') None) with false by by destruct (row_fresh_until r'). by rewrite andb_false_r.
Qed.

(** A status whose window is longer than [MAX_STATUS_AGE], which admitting a new
    artifact accepts, can neither be used nor updated. *)
Lemma overlong_status_frozen `{Rfc3339} `{Nfc} `{FloatText} `{Sha256} `{DbTime} (cid : string) (s : DbState) (r : Row) (f : Z) :
  db_rows s !! cid = Some r → row_fresh_until r = Some f → (MAX_STATUS_AGE < f - row_checked_at r)%Z →
  (∀ now a d, ensure_live_on s cid now a ≠ Ok d) ∧ (∀ st cur s', set_status_attempt cid st s cur ≠ Ok s') ∧
  (∀ o now cur s', apply_status_in_transaction cid o now s cur ≠ Ok s').
Proof.
  intros Hr Hf Hlong. assert (∀ st, status_from_model r ≠ Ok st) as Hno.
  { intros st (-> & _ & Hle & _)%status_from_model_Ok. unfold row_status in Hle. rewrite Hf in Hle. cbn in Hle. lia. }
  split_and!.
  - intros now a d (r' & Hr' & _ & _ & _ & _ & Hst & _)%ensure_live_Ok. rewrite Hr in Hr'. injection Hr' as <-. by eapply Hno.
  - intros st cur s' Hs. unfold set_status_attempt, delegation_row in Hs. rewrite Hr in Hs. cbn [ok_or] in Hs. rewrite bind_ret_l in Hs.
    apply bind_Ok in Hs as (p & Hp & _). by eapply Hno.
  - intros o now cur s' Hs. unfold apply_status_in_transaction, delegation_row in Hs. apply bind_Ok in Hs as ([] & _ & Hs).
    rewrite Hr in Hs. cbn [ok_or] in Hs. rewrite bind_ret_l in Hs. apply bind_Ok in Hs as (p & Hp & _). by eapply Hno.
Qed.

(** ** A concrete history *)

Definition demo_db_time : DbTime := λ _, true.
#[local] Existing Instances demo_rfc demo_nfc demo_float demo_sha demo_db_time.

Definition sec (n : Z) : Z := (n * 1000000000)%Z.
Definition demo_stamp (minute : string) : string := "2026-01-01T00:" +:+ minute +:+ ":00Z".
Definition demo_ok {A} (m : result AuthorityError A) (a : A) : A := match m with Ok x => x | Err _ => a end.
Definition demo_facts (l : list (string * string)) : gmap string string := list_to_map ((λ '(k, v), (POLICY_PREFIX +:+ k, v)) <$> l).

Definition demo_ceiling : string :=
  demo_ok (caps ← canonical_capabilities [demo_capability]; Ok (requested_capabilities_hash_hex caps)) "".
Definition demo_common : list (string * string) :=
  [("ownerDid", "did:owner"); ("policyId", "pol_x"); ("policyDigestHex", "d"); ("capabilityCeilingHashHex", demo_ceiling)].
Definition demo_artifact (role : DelegationRole) (cid issuer audience : string) (proofs : list string) (nb ex : string)
    (mode : DelegationMode) (facts : list (string * string)) (suite : string) : PolicyDelegation :=
  mkPolicyDelegation "xyz.tinycloud.policy/enforcement-delegation/v1" role cid issuer audience [demo_capability] proofs
    (demo_stamp nb) (demo_stamp ex) mode (demo_facts facts) suite "".

Definition demo_P : PolicyDelegation :=
  demo_artifact PolicyAuthority "P" "did:owner" "aud" [] "00" "50" PolicySource demo_common EIP191_SUITE.
Definition demo_E : PolicyDelegation :=
  demo_artifact PolicyEnforcement "E" "did:owner" "did:node" [] "00" "50" ConditionalMint
    (demo_common ++ [("enforcerDid", "did:node"); ("nodeAudience", "aud"); ("attestationBindingDigestHex", "att");
       ("maxSessionTtlSeconds", "300"); ("sessionMode", "attenuable"); ("maxRedelegationDepth", "2");
       ("auditProfile", "vp-digest-v1")]) EIP191_SUITE.

Definition demo_state : VerifiedPolicyState := mkVerifiedPolicyState "did:owner" "pol_x" "d" demo_ceiling GrantAttenuable 300 0 (sec 3000).
Definition demo_challenge : ChallengeState :=
  mkChallengeState "c1" "n" "did:owner" "pol_x" "d" "P" "E" "did:node" "aud" "did:claimant" demo_ceiling 0 (sec 300) None.
Definition demo_bindings : IssuanceBindings :=
  mkIssuanceBindings (sec 60) (sec 30) (sec 300) "c1" "n" "did:claimant" demo_ceiling "claim" "vp".
Definition demo_context : DecisionContext :=
  demo_ok (expected_context demo_P demo_E demo_bindings "did:node") (mkDecisionContext "" "" "" "" "" "" "" "" "" "" "" "").
Definition demo_decision : TrustedPolicyDecision := decision_from_evaluation demo_context (sec 50) (sec 300).
Definition demo_binding : EnforcerBinding := mkEnforcerBinding "att" "did:node" "aud" (sec 3000).

Definition demo_session (audit_digest : string) : list (string * string) :=
  demo_common ++ [("capabilityHashHex", demo_ceiling); ("enforcerDid", "did:node"); ("nodeAudience", "aud");
    ("rootClaimantDid", "did:claimant"); ("sessionSubjectDid", "did:claimant"); ("policyDelegationCid", "P");
    ("enforcementDelegationCid", "E"); ("attestationBindingDigestHex", "att"); ("claimInvocationDigestHex", "claim");
    ("vpDigestHex", "vp"); ("decisionContextDigestHex", tp_digest demo_decision); ("issuanceAuditDigestHex", audit_digest);
    ("issuanceId", "peiss_aaaaaaaaaaaaaaaaaaaaaaaaaa"); ("remainingRedelegationDepth", "2"); ("auditProfile", "vp-digest-v1")].
Definition demo_root (audit_digest : string) : PolicyDelegation :=
  demo_artifact PolicySessionRoot "R" "did:node" "did:claimant" ["P"; "E"] "01" "05" Attenuable (demo_session audit_digest) ED25519_SUITE.
Definition demo_digest : string :=
  match root_audit demo_P demo_E (demo_root "") demo_challenge demo_decision demo_bindings "did:node" "peiss_aaaaaaaaaaaaaaaaaaaaaaaaaa" with
  | Ok a => au_digest a
  | Err _ => ""
  end.
Definition demo_R : PolicyDelegation := demo_root demo_digest.
Definition demo_D : PolicyDelegation :=
  demo_artifact PolicySessionDescendant "D" "did:claimant" "did:friend" ["R"] "02" "04" Attenuable
    (("rootSessionDelegationCid", "R") :: ("immediateParentDelegationCid", "R") :: ("remainingRedelegationDepth", "1") ::
     ("sessionSubjectDid", "did:friend") :: demo_session demo_digest) ED25519_SUITE.

Definition demo_verified_set (d : PolicyDelegation) : Prop := d ∈ [demo_P; demo_E; demo_R; demo_D].

#[local] Instance demo_verified_artifacts : VerifiedArtifacts demo_verified_set.
Proof.
  split.
  - intros d Hd. unfold demo_verified_set in Hd.
    repeat (apply elem_of_cons in Hd as [->|Hd]; [by vm_compute|]). by apply elem_of_nil in Hd.
  - intros d e Hd He Heq. unfold demo_verified_set in *.
    repeat (apply elem_of_cons in Hd as [->|Hd];
      [repeat (apply elem_of_cons in He as [->|He]; [done || discriminate|]); by apply elem_of_nil in He|]).
    by apply elem_of_nil in Hd.
Qed.

Lemma demo_ok_eq {A} (m : result AuthorityError A) a : is_ok m = true → m = Ok (demo_ok m a).
Proof. by destruct m. Qed.

Definition demo_s1 : DbState := demo_ok (insert_verified_authority demo_P (fresh_status 0) db_empty) db_empty.
Definition demo_s2 : DbState := demo_ok (insert_verified_authority demo_E (fresh_status 0) demo_s1) db_empty.
Definition demo_s3 : DbState := demo_ok (insert_challenge demo_challenge demo_s2) db_empty.
Definition demo_s4 : DbState :=
  demo_ok (issue_root "did:node" demo_P demo_E demo_state demo_R demo_binding demo_decision demo_bindings demo_s3 demo_s3) db_empty.
Definition demo_s5 : DbState := demo_ok (persist_descendant demo_D (sec 120) demo_s4 demo_s4 demo_s4) db_empty.
Definition demo_revoked : AuthorityStatus := mkAuthorityStatus (sec 200) (sec 400) 1 (Some (sec 200)).
Definition demo_s6 : DbState :=
  default db_empty (demo_ok (set_status_attempt "P" demo_revoked demo_s4 demo_s5) None).

Lemma demo_commit6 : commit demo_verified_set "did:node" [demo_s4; demo_s3; demo_s2; demo_s1; db_empty] demo_s5 demo_s6.
Proof.
  apply (c_set_status _ _ _ _ "P" demo_revoked demo_s4); [by right; left|]. unfold demo_s6.
  assert ((match set_status_attempt "P" demo_revoked demo_s4 demo_s5 with Ok (Some _) => true | _ => false end) = true) as Hok
    by by vm_compute.
  by destruct (set_status_attempt "P" demo_revoked demo_s4 demo_s5) as [[x|]|].
Qed.

Lemma demo_history5 : history demo_verified_set "did:node" [demo_s5; demo_s4; demo_s3; demo_s2; demo_s1; db_empty].
Proof.
  repeat apply h_commit; [constructor|..].
  - apply (c_insert _ _ _ _ demo_P (fresh_status 0)); [by left|]. by apply demo_ok_eq; vm_compute.
  - apply (c_insert _ _ _ _ demo_E (fresh_status 0)); [by right; left|]. by apply demo_ok_eq; vm_compute.
  - apply (c_challenge _ _ _ _ demo_challenge). by apply demo_ok_eq; vm_compute.
  - apply (c_root _ _ _ _ demo_P demo_E demo_state demo_R demo_binding demo_decision demo_bindings demo_s3);
      [by left|by right; left|by right; right; left|by left|]. by apply demo_ok_eq; vm_compute.
  - apply (c_descendant _ _ _ _ demo_D (sec 120) demo_s4 demo_s4); [by right; right; right; left|by left|by left|].
    by apply demo_ok_eq; vm_compute.
Qed.

Lemma demo_history6 : history demo_verified_set "did:node" [demo_s6; demo_s5; demo_s4; demo_s3; demo_s2; demo_s1; db_empty].
Proof. apply h_commit; [apply demo_history5|apply demo_commit6]. Qed.

Lemma demo_valid : validate_for_invocation demo_s5 "D" (sec 130) = Ok tt.
Proof. by vm_compute. Qed.

Lemma database_refines_memory_witness :
  abstract demo_s6 = abstract demo_s5 ∨ mem_step demo_verified_set "did:node" (abstract demo_s5) (abstract demo_s6).
Proof. exact (database_refines_memory demo_verified_set "did:node" _ _ _ demo_history5 demo_commit6). Defined.

Definition demo_row (s : DbState) (cid : string) : Row := default (mkRow demo_P 0 None 0 None) (db_rows s !! cid).
Lemma demo_row_eq s cid : bool_decide (is_Some (db_rows s !! cid)) = true → db_rows s !! cid = Some (demo_row s cid).
Proof. intros [r Hr]%bool_decide_eq_true. unfold demo_row. by rewrite Hr. Qed.

Lemma demo_stored_D : stored demo_s5 (row_artifact (demo_row demo_s5 "D")).
Proof.
  exists (demo_row demo_s5 "D"). split; [|done].
  assert (pd_cid (row_artifact (demo_row demo_s5 "D")) = "D") as -> by by vm_compute. by apply demo_row_eq; vm_compute.
Qed.

Lemma policy_session_backed_witness :
  ∃ P E R, authorised "did:node" demo_s5 (sec 130) (row_artifact (demo_row demo_s5 "D")) P E R.
Proof.
  refine (policy_session_backed demo_verified_set "did:node" demo_s5 "D" (sec 130) _ (ex_intro _ _ demo_history5) demo_valid demo_stored_D _ _);
    [by vm_compute|right; by vm_compute].
Defined.

Lemma policy_revocation_permanent_witness : validate_for_invocation demo_s6 "D" (sec 210) ≠ Ok tt.
Proof.
  refine (policy_revocation_permanent demo_verified_set "did:node" _ demo_s6 demo_s6 "D" "P" (demo_row demo_s6 "P") (sec 200) (sec 210)
    demo_history6 _ _ _ _ _); [by left|by apply demo_row_eq; vm_compute|by vm_compute|by vm_compute|].
  assert (∀ c p, bool_decide (Exists (λ e, ed_child e = c ∧ ed_parent e = p) (db_edges demo_s6)) = true → parent_of demo_s6 c p) as Hp.
  { intros c p He. apply bool_decide_eq_true, Exists_exists in He as (e & ? & ? & ?). by exists e. }
  eapply rtc_l; [apply Hp|eapply rtc_l; [apply Hp|apply rtc_refl]].
  - instantiate (1 := "R"). by vm_compute.
  - by vm_compute.
Defined.

Definition demo_audit : IssuanceAudit :=
  match db_audits demo_s5 !! "peiss_aaaaaaaaaaaaaaaaaaaaaaaaaa" with
  | Some a => a
  | None => demo_ok (root_audit demo_P demo_E demo_R demo_challenge demo_decision demo_bindings "" "")
              (mkIssuanceAudit "" "" "" "" "" "" "" "" "" "" "" "" "" "" "" "" "" "" "" "")
  end.

Lemma challenge_single_use_witness :
  db_audits demo_s5 !! "peiss_aaaaaaaaaaaaaaaaaaaaaaaaaa" = Some demo_audit ∧
  ∃ c, db_challenges demo_s5 !! au_challenge_id demo_audit = Some c ∧ is_Some (ch_consumed_at c).
Proof.
  assert (db_audits demo_s5 !! "peiss_aaaaaaaaaaaaaaaaaaaaaaaaaa" = Some demo_audit) as Ha.
  { assert (bool_decide (is_Some (db_audits demo_s5 !! "peiss_aaaaaaaaaaaaaaaaaaaaaaaaaa")) = true) as [a Hs]%bool_decide_eq_true by by vm_compute.
    unfold demo_audit. by rewrite Hs. }
  split; [exact Ha|].
  exact (proj2 (proj2 (challenge_single_use demo_verified_set "did:node" demo_s5 _ _ _ _ (ex_intro _ _ demo_history5) Ha Ha eq_refl))).
Defined.

Lemma database_walk_agrees_witness : PolicyMemory.validate_for_invocation (abstract demo_s5) "D" (sec 130) = Ok tt.
Proof. exact (proj1 (database_walk_agrees demo_verified_set "did:node" demo_s5 "D" (sec 130) (ex_intro _ _ demo_history5)) demo_valid). Defined.

Lemma database_walks_terminate_witness :
  is_ok (stack_walk (visit_live demo_s5 (sec 130)) (100 + walk_fuel demo_s5) [("D", false, 0)] ∅) = true.
Proof.
  rewrite (proj1 (database_walks_terminate demo_verified_set "did:node" demo_s5 "D" (sec 130) 100 (ex_intro _ _ demo_history5))).
  by vm_compute.
Defined.

Lemma memory_walks_agree_witness :
  walk_verified_edges (abstract demo_s5) (sec 130) WALK_DEPTH "D" false ∅ = walk_memory_edges (abstract demo_s5) (sec 130) WALK_DEPTH "D" false ∅.
Proof.
  apply (memory_walks_agree demo_verified_set "did:node"). exact (history_mem_reachable _ _ _ _ demo_history5).
Defined.
