(* ===== verification/ShareTypes.v ===== *)
(** * Email shares, values: tinycloud-core/src/share_email/types.rs

    The strings of the protocol with the grammars they are parsed by, the scope of
    a share and its JSON form, and the values that pass between verifier, authority
    and data plane.  A parsed string is a string; [parse] is the only way the code
    makes one.  [serde_json]'s reader for arbitrary values is [read_json]. *)
From S2P Require Import Prelude Str Chars Json SqlCaveat Tables Jcs PolicyCapability Evidence.

Definition KV_GET_ACTION : string := "tinycloud.kv/get".
Definition SQL_READ_ACTION : string := "tinycloud.sql/read".
Definition MAX_MARKDOWN_BYTES : N := 1048576.
Definition MAX_CID_BYTES : nat := 59.
Definition MAX_SHARE_ID_BYTES : nat := 128.
Definition MAX_DATABASE_NAME_BYTES : nat := 128.

(** [serde_json::from_slice::<Value>]: of repeated keys the last value stays. *)
Fixpoint lenient (r : raw) : option json :=
  match r with
  | RNull => Some JNull
  | RBool b => Some (JBool b)
  | RInt z => Some (JNumber (NInt z))
  | RFloat f => Some (JNumber (NFloat f))
  | RString s => Some (JString s)
  | RArray l closed => vs ← mapM lenient l; if closed : bool then Some (JArray vs) else None
  | RObject m closed =>
      (fix go m values :=
         match m with
         | [] => if closed : bool then Some (JObject values) else None
         | (key, r) :: m => v ← lenient r; go m (obj_insert key v values)
         end) m []
  | RBad => None
  end.

Definition read_json `{JsonText} (bytes : string) : option json :=
  let '(r, ended) := json_read bytes in
  v ← lenient r; if ended : bool then Some v else None.

(** ** Strings of a fixed length *)

Section Fixed.
Context `{EvidenceLib}.

(** [Sha256Digest], [ProtocolNonce] (32 bytes), [ProtocolJti] and [SessionHandle] (16). *)
Definition parse_fixed (len : nat) (value : string) : option string :=
  bytes ← b64url_decode value;
  if bool_decide (String.length bytes = len) && bool_decide (b64url_encode bytes = value) then Some value else None.

Definition parse_digest : string → option string := parse_fixed 32.
Definition parse_nonce : string → option string := parse_fixed 32.
Definition parse_jti : string → option string := parse_fixed 16.
Definition parse_session : string → option string := parse_fixed 16.

End Fixed.

(** ** Grammars *)

Definition host_char (c : ascii) : bool := is_ascii_alphanumeric c || bool_decide (c = "-"%char).
Definition web_char (c : ascii) : bool := is_ascii_alphanumeric c || contains_char c ".-_%".

Definition valid_dns_host (value : string) : bool :=
  negb (is_empty value) && (String.length value <=? 253)%nat &&
  forallb (λ label, negb (is_empty label) && (String.length label <=? 63)%nat && forall_char host_char label &&
                    negb (starts_with "-" label) && negb (ends_with_char "-" label)) (split_char "." value).

Definition valid_web_did_identifier (value : string) : bool :=
  match split_char ":" value with
  | host :: segments => valid_dns_host host && forallb (λ s, negb (is_empty s) && forall_char web_char s) segments
  | [] => false
  end.

Definition valid_pkh_did_identifier (value : string) : bool :=
  let parts := split_char ":" value in
  (3 <=? length parts)%nat && forallb (λ s, negb (is_empty s) && forall_char web_char s) parts.

(** [base58_decode]; the digits are kept with the least significant byte first. *)
Definition BASE58_ALPHABET : string := "123456789ABCDEFGHJKLMNPQRSTUVWXYZabcdefghijkmnopqrstuvwxyz".

Fixpoint position (c : ascii) (s : string) : option N :=
  match s with
  | "" => None
  | String d s => if bool_decide (d = c) then Some 0%N else N.succ <$> position c s
  end.

(** One pass over the bytes; what is carried out of the last one. *)
Fixpoint mul_add (carry : N) (bytes : list N) : list N * N :=
  match bytes with
  | [] => ([], carry)
  | b :: bytes =>
      let value := (b * 58 + carry)%N in
      let '(bytes, carry) := mul_add (N.shiftr value 8) bytes in ((value mod 256)%N :: bytes, carry)
  end.

(** The loop that pushes the carry, a [u32]: four bytes at most. *)
Fixpoint push_carry (fuel : nat) (carry : N) : list N :=
  match fuel with
  | 0 => []
  | S fuel => if (carry =? 0)%N then [] else N.land carry 255 :: push_carry fuel (N.shiftr carry 8)
  end.

Fixpoint base58_loop (value : string) (bytes : list N) : option (list N) :=
  match value with
  | "" => Some bytes
  | String c value =>
      digit ← position c BASE58_ALPHABET;
      let '(bytes, carry) := mul_add digit bytes in
      base58_loop value (bytes ++ push_carry 4 carry)
  end.

Fixpoint leading_ones (s : string) : nat :=
  match s with String c s => if bool_decide (c = "1"%char) then S (leading_ones s) else 0 | "" => 0 end.

Definition base58_decode (value : string) : option (list N) :=
  bytes ← base58_loop value [0%N];
  Some (repeat 0%N (leading_ones value) ++ (if bool_decide (bytes = [0%N]) then [] else rev bytes)).

Definition valid_did_key_identifier (value : string) : bool :=
  match value with
  | String c rest => bool_decide (c = "z"%char) && negb (is_empty rest) && bool_decide (is_Some (base58_decode rest))
  | "" => false
  end.

Definition valid_did (value : string) : bool :=
  match split_once ":" value with
  | Some (prefix, rest) =>
      match split_once ":" rest with
      | Some (method, identifier) =>
          bool_decide (prefix = "did") && (String.length value <=? 2048)%nat &&
          (if bool_decide (method = "web") then valid_web_did_identifier identifier
           else if bool_decide (method = "pkh") then valid_pkh_did_identifier identifier
           else if bool_decide (method = "key") then valid_did_key_identifier identifier
           else false)
      | None => false
      end
  | None => false
  end.

Definition valid_did_key (value : string) : bool :=
  match strip_prefix "did:key:z" value with
  | Some multicodec =>
      match base58_decode multicodec with
      | Some bytes => (length bytes =? 34)%nat && bool_decide (take 2 bytes = [237; 1]%N)
      | None => false
      end
  | None => false
  end.

(** [char::is_control]. *)
Definition is_control (c : string) : bool := let cp := code_point c in ((cp <=? 31) || ((127 <=? cp) && (cp <=? 159)))%N.

Definition valid_path (value : string) : bool :=
  negb (is_empty value) && (String.length value <=? 1024)%nat && negb (starts_with "/" value) && negb (ends_with_char "/" value) &&
  negb (contains_str "//" value) && negb (contains_char "\" value) &&
  forallb (λ segment, negb (is_empty segment) && negb (bool_decide (segment = ".")) && negb (bool_decide (segment = "..")) &&
                      forallb (λ c, negb (is_control c) && negb (is_whitespace c)) (chars segment)) (split_char "/" value).

Definition is_ascii_alphabetic (c : ascii) : bool := is_ascii_lower c || is_ascii_upper c.

Definition valid_identifier (value : string) (max_len : nat) (allow_dot : bool) : bool :=
  (String.length value <=? max_len)%nat &&
  match value with String c _ => is_ascii_alphabetic c | "" => false end &&
  forall_char (λ c, is_ascii_alphanumeric c || bool_decide (c = "_"%char) || bool_decide (c = "-"%char) ||
                    (allow_dot && bool_decide (c = "."%char))) value.

Definition base32_char (c : ascii) : bool := is_ascii_lower c || in_range "2" "7" c.

Definition valid_cid (value : string) : bool :=
  (String.length value =? MAX_CID_BYTES)%nat &&
  match strip_prefix "bafkrei" value with Some rest => forall_char base32_char rest | None => false end.

Definition valid_node_cid (value : string) : bool :=
  (String.length value =? MAX_CID_BYTES)%nat &&
  match strip_prefix "bafkrei" value with
  | Some rest => forall_char base32_char rest
  | None => match strip_prefix "bafkr4" value with Some rest => forall_char base32_char rest | None => false end
  end.

Definition length_in (lo hi : nat) (value : string) : bool := ((lo <=? String.length value) && (String.length value <=? hi))%nat.

Definition valid_share_id (value : string) : bool :=
  length_in 1 MAX_SHARE_ID_BYTES value && forall_char (λ c, is_ascii_alphanumeric c || contains_char c "._~-") value.

Definition valid_database_name (value : string) : bool :=
  length_in 1 MAX_DATABASE_NAME_BYTES value && forall_char (λ c, is_ascii_alphanumeric c || contains_char c "_-") value.

Definition is_ascii_lowercase_or_digit (c : ascii) : bool := is_ascii_lower c || is_ascii_digit c.

Definition valid_target_host (value : string) : bool :=
  negb (is_empty value) &&
  forallb (λ label, length_in 1 63 label &&
                    match label with String c _ => is_ascii_lowercase_or_digit c | "" => false end &&
                    match last_char label with Some c => is_ascii_lowercase_or_digit c | None => false end &&
                    forall_char (λ c, is_ascii_lower c || is_ascii_digit c || bool_decide (c = "-"%char)) label) (split_char "." value).

Definition valid_port (port : string) : bool :=
  length_in 1 5 port && forall_char is_ascii_digit port && negb (starts_with "0" port).

Definition valid_target_origin (value : string) : bool :=
  match strip_prefix "https://" value with
  | Some authority =>
      negb (is_empty authority) && negb (contains_char "/" authority) && negb (contains_char "?" authority) &&
      negb (contains_char "#" authority) && negb (contains_char "@" authority) &&
      match rsplit_once ":" authority with
      | Some (host, port) => valid_port port && valid_target_host host
      | None => valid_target_host authority
      end
  | None => false
  end.

Definition valid_material_handle (value : string) : bool :=
  length_in 1 128 value && starts_with "amh_" value && forall_char (λ c, is_ascii_alphanumeric c || contains_char c "_-") value.

(** [validated_string!]. *)
Definition parse_string (valid : string → bool) (value : string) : option string := if valid value then Some value else None.

Definition parse_did : string → option string := parse_string valid_did.
Definition parse_path : string → option string := parse_string valid_path.
Definition parse_database : string → option string := parse_string valid_database_name.
Definition parse_named_statement : string → option string := parse_string (λ v, valid_identifier v 128 true).
Definition parse_origin : string → option string := parse_string valid_target_origin.
Definition parse_share_cid : string → option string := parse_string valid_cid.
Definition parse_share_id : string → option string := parse_string valid_share_id.
Definition parse_policy_cid : string → option string := parse_string valid_cid.
Definition parse_share_delegation : string → option string := parse_string valid_cid.
Definition parse_material_handle : string → option string := parse_string valid_material_handle.
Definition parse_node_cid : string → option string := parse_string valid_node_cid.
Definition parse_did_key : string → option string := parse_string (λ v, valid_did v && valid_did_key v).

Definition parse_safe_integer (value : Z) : option Z := if (Z.abs value <=? MAX_SAFE_INTEGER)%Z then Some value else None.

(** ** Scopes *)

Inductive ShareAction := KvGet | SqlRead.
#[export] Instance ShareAction_eq_dec : EqDecision ShareAction.
Proof. solve_decision. Defined.

Definition action_name (a : ShareAction) : string := match a with KvGet => KV_GET_ACTION | SqlRead => SQL_READ_ACTION end.

Inductive ExactResource :=
| KvResource (path : string)
| SqlResource (database path statement : string).
#[export] Instance ExactResource_eq_dec : EqDecision ExactResource.
Proof. solve_decision. Defined.

Definition resource_name (r : ExactResource) : string := match r with KvResource path | SqlResource _ path _ => path end.

(** The action of a source is the one its kind has.  Arguments are a [BTreeMap]. *)
Inductive ContentSource :=
| KvSource (space path : string)
| SqlSource (space database path statement : string) (arguments : list (string * Z)) (arguments_digest : string).
#[export] Instance ContentSource_eq_dec : EqDecision ContentSource.
Proof. solve_decision. Defined.

Definition source_space (c : ContentSource) : string := match c with KvSource space _ | SqlSource space _ _ _ _ _ => space end.
Definition source_path (c : ContentSource) : string := match c with KvSource _ path | SqlSource _ _ path _ _ _ => path end.

Record ShareScope := mkShareScope {
  sc_share_cid : string;
  sc_share_id : string;
  sc_delegation_cid : option string;
  sc_material_handle : string;
  sc_material_digest : string;
  sc_policy_cid : string;
  sc_node_audience : string;
  sc_target_origin : string;
  sc_action : ShareAction;
  sc_resource : ExactResource;
  sc_source : ContentSource;
  sc_source_digest : string;
}.
#[export] Instance ShareScope_eq_dec : EqDecision ShareScope.
Proof. solve_decision. Defined.

(** *** Their JSON *)

Definition arguments_value (arguments : list (string * Z)) : json := JObject ((λ kv, (kv.1, JNumber (NInt kv.2))) <$> arguments).

Definition source_value (c : ContentSource) : json :=
  match c with
  | KvSource space path => JObject [("action", JString KV_GET_ACTION); ("kind", JString "kv"); ("path", JString path); ("space", JString space)]
  | SqlSource space database path statement arguments digest =>
      JObject [("action", JString SQL_READ_ACTION); ("arguments", arguments_value arguments); ("argumentsDigest", JString digest);
               ("database", JString database); ("kind", JString "sql"); ("path", JString path); ("space", JString space);
               ("statement", JString statement)]
  end.

Definition resource_value (r : ExactResource) : json :=
  match r with
  | KvResource path => JObject [("kv", JObject [("path", JString path)])]
  | SqlResource database path statement =>
      JObject [("sql", JObject [("database", JString database); ("path", JString path); ("statement", JString statement)])]
  end.

Definition scope_value (s : ShareScope) : json :=
  JObject [("action", JString (action_name (sc_action s))); ("authority_material_digest", JString (sc_material_digest s));
           ("authority_material_handle", JString (sc_material_handle s)); ("content_source", source_value (sc_source s));
           ("content_source_digest", JString (sc_source_digest s));
           ("delegation_cid", match sc_delegation_cid s with Some d => JString d | None => JNull end);
           ("node_audience", JString (sc_node_audience s)); ("policy_cid", JString (sc_policy_cid s));
           ("resource", resource_value (sc_resource s)); ("share_cid", JString (sc_share_cid s)); ("share_id", JString (sc_share_id s));
           ("target_origin", JString (sc_target_origin s))].

Definition with_delegation (d : option string) (s : ShareScope) : ShareScope :=
  mkShareScope (sc_share_cid s) (sc_share_id s) d (sc_material_handle s) (sc_material_digest s) (sc_policy_cid s) (sc_node_audience s)
    (sc_target_origin s) (sc_action s) (sc_resource s) (sc_source s) (sc_source_digest s).

(** ** What passes between the parts *)

Inductive PortError := Unavailable | Denied | Replay | PortStorage.
#[export] Instance PortError_eq_dec : EqDecision PortError.
Proof. solve_decision. Defined.

Record HolderEquation := mkHolderEquation {
  he_credential_subject : string;
  he_presentation_holder : string;
  he_presentation_signer : string;
  he_policy_session_holder : string;
  he_read_signer : string;
  he_jti : string;
  he_expires_at : Z;
}.

Record CredentialVerificationEvidence := mkCredentialVerificationEvidence {
  cv_issuer : string;
  cv_subject : string;
  cv_email : string;
  cv_digest : string;
  cv_expires_at : Z;
}.

Record PolicySessionRequest := mkPolicySessionRequest {
  pr_scope : ShareScope;
  pr_holder : string;
  pr_nonce : string;
  pr_presentation_jti : string;
  pr_challenge_id : string;
  pr_challenge_request_digest : string;
  pr_challenge_binding : json;
  pr_policy_recipient_digest : string;
  pr_credential_expires_at : Z;
}.

Record VerifiedSessionAdmission := mkVerifiedSessionAdmission {
  ad_request : PolicySessionRequest;
  ad_email : string;
  ad_credential_digest : string;
  ad_equation : HolderEquation;
}.

Record ReadAuthorizationRequest := mkReadAuthorizationRequest {
  rr_session : string;
  rr_jti : string;
  rr_scope : ShareScope;
  rr_holder : string;
  rr_body_digest : string;
}.

(** A statement of a grant, fixed to a database and path. *)
Record PinnedNamedStatement := mkPinnedNamedStatement { pn_database : string; pn_path : string; pn_statement : ConstrainedStatement }.

Record PolicySession := mkPolicySession {
  ps_handle : string;
  ps_scope : ShareScope;
  ps_holder : string;
  ps_credential_digest : string;
  ps_expires_at : Z;
  ps_statement : option PinnedNamedStatement;
}.

Record AuthorizedRead := mkAuthorizedRead { ar_session : PolicySession; ar_invocation : ReadAuthorizationRequest }.

(** ** Base 58 *)

(** The number of a text in base 58, most significant digit first. *)
Fixpoint base58_number (acc : N) (value : string) : option N :=
  match value with
  | "" => Some acc
  | String c value => digit ← position c BASE58_ALPHABET; base58_number (acc * 58 + digit)%N value
  end.

Fixpoint le_number (bytes : list N) : N := match bytes with [] => 0 | b :: bytes => b + 256 * le_number bytes end%N.

Lemma le_number_app a b : le_number (a ++ b) = (le_number a + 256 ^ N.of_nat (length a) * le_number b)%N.
Proof.
  induction a as [|x a IH]; simpl; [lia|]. rewrite IH. replace (N.of_nat (S (length a))) with (N.succ (N.of_nat (length a))) by lia.
  rewrite N.pow_succ_r'. lia.
Qed.

Lemma shiftr_8 n : N.shiftr n 8 = (n / 256)%N.
Proof. by rewrite N.shiftr_div_pow2. Qed.

Lemma mul_add_number bytes carry : let '(bytes', carry') := mul_add carry bytes in
  (le_number bytes' + 256 ^ N.of_nat (length bytes) * carry' = le_number bytes * 58 + carry)%N ∧ length bytes' = length bytes.
Proof.
  revert carry. induction bytes as [|b bytes IH]; intros carry; simpl; [lia|].
  specialize (IH (N.shiftr (b * 58 + carry) 8)). destruct (mul_add _ bytes) as [bytes' carry']. destruct IH as [IH Hl]. split; simpl; [|lia].
  rewrite shiftr_8 in IH. replace (N.of_nat (S (length bytes))) with (N.succ (N.of_nat (length bytes))) by lia. rewrite N.pow_succ_r'.
  pose proof (N.div_mod (b * 58 + carry) 256). lia.
Qed.

Lemma mul_add_bound bytes carry :
  Forall (λ b, b < 256)%N bytes → (carry < 58)%N → let '(bytes', carry') := mul_add carry bytes in
  Forall (λ b, b < 256)%N bytes' ∧ (carry' < 58)%N.
Proof.
  intros Hb. revert carry. induction Hb as [|b bytes Hb Hbs IH]; intros carry Hc; simpl; [done|].
  specialize (IH (N.shiftr (b * 58 + carry) 8)). destruct (mul_add _ bytes) as [bytes' carry']. destruct IH as [IH ?].
  { rewrite shiftr_8. apply N.Div0.div_lt_upper_bound. lia. }
  split; [|done]. constructor; [|done]. by apply N.mod_lt.
Qed.

Lemma push_carry_small carry : (carry < 58)%N → push_carry 4 carry = if (carry =? 0)%N then [] else [carry].
Proof.
  intros Hc. unfold push_carry. destruct (carry =? 0)%N; [done|]. rewrite shiftr_8, N.div_small by lia. simpl.
  change 255%N with (N.ones 8). by rewrite N.land_ones, N.mod_small by (change (2 ^ 8)%N with 256%N; lia).
Qed.

Lemma position_bound c s n : position c s = Some n → (n < N.of_nat (String.length s))%N.
Proof.
  revert n. induction s as [|d s IH]; intros n Hp; [done|]. cbn [position] in Hp. cbn [String.length]. case_bool_decide; [simplify_eq; lia|].
  destruct (position c s) as [m|]; [|done]. simpl in Hp. simplify_eq. specialize (IH m eq_refl). lia.
Qed.

Lemma base58_loop_number value bytes out :
  Forall (λ b, b < 256)%N bytes → base58_loop value bytes = Some out →
  Forall (λ b, b < 256)%N out ∧ base58_number (le_number bytes) value = Some (le_number out).
Proof.
  revert bytes. induction value as [|c value IH]; intros bytes Hb Hl; [by simplify_eq/=|].
  cbn [base58_loop] in Hl. cbn [base58_number]. destruct (position c BASE58_ALPHABET) as [digit|] eqn:Hp; [|done]. cbn [mbind option_bind] in Hl |- *.
  apply position_bound in Hp. change (N.of_nat (String.length BASE58_ALPHABET)) with 58%N in Hp.
  pose proof (mul_add_number bytes digit) as Hn. pose proof (mul_add_bound bytes digit Hb Hp) as Hbd.
  destruct (mul_add digit bytes) as [bytes' carry]. destruct Hn as [Hn Hlen], Hbd as [Hb' Hc]. rewrite push_carry_small in Hl by done.
  apply IH in Hl as [Hout Hv].
  - split; [done|]. rewrite le_number_app in Hv. rewrite Hlen in Hv. rewrite <- Hv. f_equal. rewrite <- Hn.
    destruct (N.eqb_spec carry 0); simpl; subst; lia.
  - apply Forall_app. split; [done|]. destruct (carry =? 0)%N; [done|]. constructor; [lia|done].
Qed.

(** [base58_decode] reads the number of its text in base 58: what it returns is a
    list of bytes whose number, most significant byte first, is that one, after a
    zero byte for each leading [1]. *)
Theorem base58_decode_number (value : string) (bytes : list N) :
  base58_decode value = Some bytes →
  Forall (λ b, b < 256)%N bytes ∧ base58_number 0 value = Some (le_number (rev bytes)) ∧
  take (leading_ones value) bytes = repeat 0%N (leading_ones value).
Proof.
  unfold base58_decode. destruct (base58_loop value [0%N]) as [out|] eqn:Hl; [|done]. simpl. intros [= <-].
  apply base58_loop_number in Hl as [Hout Hv]; [|by repeat constructor]. split_and!.
  - apply Forall_app. split; [by apply Forall_forall; intros x ->%list_elem_of_In%repeat_spec|case_bool_decide; [done|by apply Forall_rev]].
  - rewrite rev_app_distr, le_number_app.
    assert (∀ n, le_number (rev (repeat 0%N n)) = 0%N) as -> by (intros n; rewrite rev_repeat; induction n; simpl; lia).
    rewrite N.mul_0_r, N.add_0_r. change (le_number [0%N]) with 0%N in Hv. rewrite Hv. case_bool_decide; [by subst|by rewrite rev_involutive].
  - rewrite take_app_le by (rewrite repeat_length; lia). by rewrite take_ge by (rewrite repeat_length; lia).
Qed.

(** ** The JSON of a scope determines it *)

#[local] Instance arguments_value_inj : Inj (=) (=) arguments_value.
Proof.
  intros a b [= Hab]. revert b Hab. induction a as [|[k v] a IH]; intros [|[k' v'] b] Hab; simplify_eq/=; [done|].
  f_equal. by apply IH.
Qed.

Lemma source_value_inj : Inj (=) (=) source_value.
Proof.
  intros [] [] Hv; try discriminate Hv; unfold source_value in Hv.
  - injection Hv as -> ->. done.
  - injection Hv as Ha -> -> -> -> ->. f_equal. apply (inj arguments_value). unfold arguments_value. by rewrite Ha.
Qed.

Lemma resource_value_inj : Inj (=) (=) resource_value.
Proof. intros [] [] Hv; try discriminate Hv; by injection Hv as; subst. Qed.

Lemma scope_value_inj : Inj (=) (=) scope_value.
Proof.
  intros [] [] Hv. unfold scope_value in Hv.
  injection Hv as Ha -> -> Hs -> Hd -> -> Hr -> -> ->. f_equal.
  - destruct sc_delegation_cid0, sc_delegation_cid1; by simplify_eq.
  - destruct sc_action0, sc_action1; try done; discriminate Ha.
  - by apply resource_value_inj.
  - by apply source_value_inj.
Qed.
