(* ===== verification/ShareInvitation.v ===== *)
(** * Email shares, invitations: tinycloud-core/src/share_email/invitation.rs

    The node signs, for the sender of a share, a receipt that lets a mail service
    invite the recipient during five minutes.  Receipts are issued and verified
    here; whether one was used is kept by the protocol state (ShareState).  The
    texts of instants and the signatures are parameters. *)
From S2P Require Import Prelude Str Chars Json SqlCaveat Tables Jcs PolicyCapability Evidence PolicyDelegation ShareTypes.

(** [OffsetDateTime::format] with RFC 3339 and with the three subsecond digits of
    [canonical_timestamp]. *)
Class ShareTime := { rfc3339_text : Z → option string; millis_text : Z → option string }.

Definition seconds (n : Z) : Z := n * 1000000000.

Definition INVITATION_AUTHORIZATION_DOMAIN : string := "xyz.tinycloud.share/invite-authorization/v1" +:+ String (char 0) "".
Definition INVITATION_AUTHORIZATION_TTL : Z := seconds 300.
Definition RETURN_ORIGIN : string := "https://share.tinycloud.xyz".
Definition MAX_INVITATION_BODY_BYTES : N := 65536.

Inductive InvitationError := InvInvalid | InvSignature | InvExpired | InvBodyTooLarge.

(** ** Addresses and names *)

Definition atext (c : ascii) : bool := is_ascii_alphanumeric c || contains_char c "!#$%&'*+-/=?^_`{|}~".

Definition valid_email (value : string) : bool :=
  (3 <=? String.length value)%nat && (String.length value <=? 254)%nat && is_ascii value && (count_char "@" value =? 1)%nat &&
  match split_once "@" value with
  | Some (local, domain) =>
      length_in 1 64 local && length_in 1 253 domain && negb (starts_with_char "." local) && negb (ends_with_char "." local) &&
      forallb (λ part, negb (is_empty part) && forall_char atext part) (split_char "." local) &&
      forallb (λ label, length_in 1 63 label && forall_char (λ c, is_ascii_alphanumeric c || bool_decide (c = "-"%char)) label &&
                        match label with String c _ => is_ascii_alphanumeric c | "" => false end &&
                        match last_char label with Some c => is_ascii_alphanumeric c | None => false end) (split_char "." domain)
  | None => false
  end.

Definition parse_canonical_email (value : string) : result InvitationError string :=
  _ ← ensure (valid_email value) InvInvalid;
  '(local, domain) ← ok_or (split_once "@" value) InvInvalid;
  Ok (local +:+ "@" +:+ to_ascii_lowercase domain).

Definition parse_document_name (value : string) : result InvitationError string :=
  _ ← ensure (negb (is_empty value) && (String.length value <=? 200)%nat && negb (existsb is_control (chars value))) InvInvalid;
  Ok value.

Definition decode_share_url_token `{EvidenceLib} (value : string) : result InvitationError string :=
  bytes ← ok_or (b64url_decode value) InvInvalid;
  _ ← ensure (String.length bytes =? 32)%nat InvInvalid;
  Ok bytes.

(** ** Receipts *)

Inductive SenderTrust := Verified | Unverified.

Record InvitationAuthorization := mkInvitationAuthorization {
  ia_type : string;
  ia_version : N;
  ia_jti : string;
  ia_sender : string;
  ia_share_cid : string;
  ia_share_id : string;
  ia_policy_cid : string;
  ia_delegation_cid : string;
  ia_material_handle : string;
  ia_material_digest : string;
  ia_recipient : string;
  ia_target_origin : string;
  ia_node_audience : string;
  ia_return_origin : string;
  ia_document_name : string;
  ia_sender_trust : SenderTrust;
  ia_source : ContentSource;
  ia_source_digest : string;
  ia_share_expires_at : string;
  ia_issued_at : string;
  ia_expires_at : string;
  ia_abuse_token : string;
}.

Record InvitationProof := mkInvitationProof { ip_alg : string; ip_kid : string; ip_signature : string }.
Record InvitationAuthorizationReceipt := mkReceipt { rc_authorization : InvitationAuthorization; rc_proof : InvitationProof }.

Record InvitationAuthorizationInput := mkInvitationInput {
  in_jti : string;
  in_abuse_token : string;
  in_sender : string;
  in_share_cid : string;
  in_share_id : string;
  in_policy_cid : string;
  in_delegation_cid : string;
  in_material_handle : string;
  in_material_digest : string;
  in_recipient : string;
  in_target_origin : string;
  in_node_audience : string;
  in_document_name : string;
  in_sender_trust : SenderTrust;
  in_source : ContentSource;
  in_source_digest : string;
  in_share_expires_at : string;
  in_request_body_digest : string;
}.

Definition authorization_value (a : InvitationAuthorization) : json :=
  JObject [("authorityMaterialDigest", JString (ia_material_digest a)); ("authorityMaterialHandle", JString (ia_material_handle a));
           ("contentSource", source_value (ia_source a)); ("contentSourceDigest", JString (ia_source_digest a));
           ("delegationCid", JString (ia_delegation_cid a)); ("documentName", JString (ia_document_name a));
           ("expiresAt", JString (ia_expires_at a)); ("issuedAt", JString (ia_issued_at a)); ("jti", JString (ia_jti a));
           ("nodeAudience", JString (ia_node_audience a)); ("policyCid", JString (ia_policy_cid a));
           ("recipientEmail", JString (ia_recipient a)); ("reportAbuseToken", JString (ia_abuse_token a));
           ("returnOrigin", JString (ia_return_origin a)); ("senderDid", JString (ia_sender a));
           ("senderTrust", JString match ia_sender_trust a with Verified => "verified" | Unverified => "unverified" end);
           ("shareCid", JString (ia_share_cid a)); ("shareExpiresAt", JString (ia_share_expires_at a)); ("shareId", JString (ia_share_id a));
           ("targetOrigin", JString (ia_target_origin a)); ("type", JString (ia_type a)); ("version", JNumber (NInt (Z.of_N (ia_version a))))].

Definition receipt_value (r : InvitationAuthorizationReceipt) : json :=
  JObject [("authorization", authorization_value (rc_authorization r));
           ("proof", JObject [("alg", JString (ip_alg (rc_proof r))); ("kid", JString (ip_kid (rc_proof r)));
                              ("signature", JString (ip_signature (rc_proof r)))])].

(** The signer's and the verifier's key, named by a key id. *)
Record InvitationSigner := mkInvitationSigner { is_kid : string; is_sign : string → option string }.
Record InvitationVerifier := mkInvitationVerifier { iv_kid : string; iv_verify : string → string → bool }.

Definition validate_kid (value : string) : result InvitationError unit :=
  '(did, fragment) ← ok_or (split_once "#" value) InvInvalid;
  _ ← ensure (negb (is_empty fragment) && negb (existsb is_whitespace (chars fragment))) InvInvalid;
  _ ← ok_or (parse_did did) InvInvalid;
  Ok tt.

Definition signer_new (kid : string) (sign : string → option string) : result InvitationError InvitationSigner :=
  _ ← validate_kid kid; Ok (mkInvitationSigner kid sign).
Definition verifier_new (kid : string) (verify : string → string → bool) : result InvitationError InvitationVerifier :=
  _ ← validate_kid kid; Ok (mkInvitationVerifier kid verify).

Definition verifier_verify (v : InvitationVerifier) (kid message signature : string) : result InvitationError unit :=
  ensure (bool_decide (kid = iv_kid v) && (String.length signature =? 64)%nat && iv_verify v message signature) InvSignature.

Section Invitation.
Context `{FloatText} `{Sha256} `{EvidenceLib} `{Rfc3339} `{ShareTime}.

Definition canonical_json_digest (v : json) : string := sha256_b64 (canonicalize v).

Definition signed_bytes (a : InvitationAuthorization) : result InvitationError string :=
  let canonical := canonicalize (authorization_value a) in
  _ ← ensure (N.of_nat (String.length canonical) <=? MAX_INVITATION_BODY_BYTES)%N InvBodyTooLarge;
  Ok (INVITATION_AUTHORIZATION_DOMAIN +:+ canonical).

Definition authorization_digest (r : InvitationAuthorizationReceipt) : string := canonical_json_digest (receipt_value r).

(** The actions of a source are fixed by its kind. *)
Definition validate_source (c : ContentSource) : result InvitationError unit :=
  match c with
  | KvSource _ _ => Ok tt
  | SqlSource _ _ _ _ arguments _ => ensure (length arguments <=? 32)%nat InvInvalid
  end.

Definition parse_instant (value : string) : result InvitationError Z := ok_or (rfc3339_parse value) InvInvalid.

Definition validate_authorization_for (a : InvitationAuthorization) (now : Z) (target_origin node_audience return_origin : string)
    : result InvitationError unit :=
  _ ← ensure (bool_decide (ia_type a = "TinyCloudShareInviteAuthorization") && (ia_version a =? 1)%N &&
              bool_decide (ia_return_origin a = return_origin) && bool_decide (ia_target_origin a = target_origin) &&
              bool_decide (ia_node_audience a = node_audience) && negb (bool_decide (ia_jti a = ia_abuse_token a))) InvInvalid;
  issued ← parse_instant (ia_issued_at a);
  expires ← parse_instant (ia_expires_at a);
  share_expires ← parse_instant (ia_share_expires_at a);
  _ ← ensure ((issued <=? now + seconds 60) && (now <? expires) && (expires <=? issued + INVITATION_AUTHORIZATION_TTL) &&
              (expires <=? share_expires) && (issued <? expires))%Z InvExpired;
  _ ← validate_source (ia_source a);
  ensure (bool_decide (ia_source_digest a = canonical_json_digest (source_value (ia_source a)))) InvInvalid.

Definition canonical_timestamp (t : Z) : result InvitationError string := ok_or (millis_text t) InvInvalid.

Definition issue_invitation_authorization_for (i : InvitationAuthorizationInput) (signer : InvitationSigner) (now : Z)
    (target_origin node_audience return_origin : string) : result InvitationError InvitationAuthorizationReceipt :=
  issued_at ← canonical_timestamp now;
  share_expires ← parse_instant (in_share_expires_at i);
  let expires := Z.min (now + INVITATION_AUTHORIZATION_TTL) share_expires in
  _ ← ensure ((now <? expires)%Z && bool_decide (in_target_origin i = target_origin) && bool_decide (in_node_audience i = node_audience)) InvInvalid;
  expires_at ← canonical_timestamp expires;
  let a := mkInvitationAuthorization "TinyCloudShareInviteAuthorization" 1 (in_jti i) (in_sender i) (in_share_cid i) (in_share_id i)
             (in_policy_cid i) (in_delegation_cid i) (in_material_handle i) (in_material_digest i) (in_recipient i) target_origin node_audience
             return_origin (in_document_name i) (in_sender_trust i) (in_source i) (in_source_digest i) (in_share_expires_at i) issued_at
             expires_at (in_abuse_token i) in
  _ ← validate_authorization_for a now (ia_target_origin a) (ia_node_audience a) (ia_return_origin a);
  message ← signed_bytes a;
  signature ← ok_or (is_sign signer message) InvSignature;
  _ ← ensure (String.length signature =? 64)%nat InvSignature;
  Ok (mkReceipt a (mkInvitationProof "EdDSA" (is_kid signer) (b64url_encode signature))).

Definition verify_invitation_authorization_for (r : InvitationAuthorizationReceipt) (verifier : InvitationVerifier) (now : Z)
    (target_origin node_audience return_origin : string) : result InvitationError string :=
  _ ← validate_authorization_for (rc_authorization r) now target_origin node_audience return_origin;
  _ ← ensure (bool_decide (ip_alg (rc_proof r) = "EdDSA")) InvSignature;
  signature ← ok_or (b64url_decode (ip_signature (rc_proof r))) InvSignature;
  message ← signed_bytes (rc_authorization r);
  _ ← verifier_verify verifier (ip_kid (rc_proof r)) message signature;
  Ok (authorization_digest r).

(** The two with the example node's identity. *)
Definition issue_invitation_authorization (i : InvitationAuthorizationInput) (signer : InvitationSigner) (now : Z)
    : result InvitationError InvitationAuthorizationReceipt :=
  issue_invitation_authorization_for i signer now "https://node.example" "did:web:node.example" RETURN_ORIGIN.
Definition verify_invitation_authorization (r : InvitationAuthorizationReceipt) (verifier : InvitationVerifier) (now : Z)
    : result InvitationError string :=
  verify_invitation_authorization_for r verifier now "https://node.example" "did:web:node.example" RETURN_ORIGIN.

End Invitation.

(** ** The two readers of email addresses *)

Lemma atext_local c : local_char c = atext c || bool_decide (c = "."%char).
Proof. destruct c as [[] [] [] [] [] [] [] []]; vm_compute; reflexivity. Qed.
Lemma host_char_ends c : is_ascii_alphanumeric c = label_char c && negb (bool_decide (c = "-"%char)).
Proof. destruct c as [[] [] [] [] [] [] [] []]; vm_compute; reflexivity. Qed.

(** The parts of a dotted word, the first of which may be empty. *)
Definition parts_ok (l : list string) : bool := forallb (λ part, negb (is_empty part) && forall_char atext part) l.
Definition first_open (l : list string) : bool := match l with h :: t => forall_char atext h && parts_ok t | [] => true end.

Definition dotted (s : string) : bool :=
  negb (is_empty s) && negb (starts_with_char "." s) && negb (ends_with_char "." s) && negb (contains_str ".." s) && forall_char local_char s.
Definition dotted_rest (s : string) : bool := negb (ends_with_char "." s) && negb (contains_str ".." s) && forall_char local_char s.

Lemma contains_dots_cons c s :
  contains_str ".." (String c s) = (bool_decide (c = "."%char) && starts_with_char "." s) || contains_str ".." s.
Proof.
  change (contains_str ".." (String c s)) with (starts_with ".." (String c s) || contains_str ".." s). f_equal.
  unfold starts_with. change (strip_prefix ".." (String c s)) with (if decide ("."%char = c) then strip_prefix "." s else None).
  destruct (decide ("."%char = c)) as [<-|Hc]; [|by rewrite bool_decide_false].
  rewrite bool_decide_true by done. destruct s as [|d s]; [done|].
  change (strip_prefix "." (String d s)) with (if decide ("."%char = d) then Some s else None). cbn [starts_with_char].
  destruct (decide ("."%char = d)) as [<-|Hd]; [by rewrite bool_decide_true|by rewrite bool_decide_false].
Qed.

Lemma split_char_nonnil c s : split_char c s ≠ [].
Proof. destruct s as [|d s]; [done|]. cbn [split_char]. destruct (decide (d = c)); [done|]. by destruct (split_char c s). Qed.

Lemma split_dotted s : parts_ok (split_char "." s) = dotted s ∧ first_open (split_char "." s) = dotted_rest s.
Proof.
  induction s as [|c s [IH1 IH2]]; [done|]. unfold dotted, dotted_rest in *. rewrite contains_dots_cons. cbn [split_char forall_char starts_with_char].
  rewrite atext_local. destruct (decide (c = "."%char)) as [->|Hc].
  - cbn [first_open parts_ok forallb forall_char is_empty]. rewrite !bool_decide_true by done. cbn [negb andb]. split; [by rewrite !andb_false_r|].
    change (forallb _ (split_char "." s)) with (parts_ok (split_char "." s)). rewrite IH1, orb_true_r. destruct s as [|d s]; [done|].
    cbn [andb]. change (is_empty (String d s)) with false. change (ends_with_char "." (String "." (String d s))) with (ends_with_char "." (String d s)).
    cbn [negb andb]. rewrite negb_orb. destruct (starts_with_char "." (String d s)); cbn [negb andb]; [by rewrite andb_false_r|done].
  - rewrite (bool_decide_false (c = _)) by done. rewrite orb_false_r. cbn [andb orb]. change (is_empty (String c s)) with false. cbn [negb andb].
    assert (ends_with_char "." (String c s) = ends_with_char "." s) as ->.
    { destruct s; [|done]. by apply bool_decide_false. }
    destruct (split_char "." s) as [|w ws] eqn:Hsp; [by apply split_char_nonnil in Hsp|]. clear Hsp. cbn [first_open parts_ok forallb forall_char is_empty] in *.
    change (is_empty (String c w)) with false. cbn [negb andb]. change (forallb _ ws) with (parts_ok ws) in *.
    destruct (atext c); cbn [andb]; [done|by rewrite !andb_false_r].
Qed.

Lemma valid_label_same label :
  length_in 1 63 label && forall_char (λ c, is_ascii_alphanumeric c || bool_decide (c = "-"%char)) label &&
  match label with String c _ => is_ascii_alphanumeric c | "" => false end &&
  match last_char label with Some c => is_ascii_alphanumeric c | None => false end = valid_label label.
Proof.
  unfold valid_label, length_in. change (λ c, is_ascii_alphanumeric c || bool_decide (c = "-"%char)) with label_char.
  destruct label as [|c label]; [done|]. change (is_empty (String c label)) with false. cbn [negb andb starts_with_char].
  change (1 <=? String.length (String c label))%nat with true. cbn [andb].
  assert (forall_char label_char (String c label) = true →
    (match last_char (String c label) with Some c => is_ascii_alphanumeric c | None => false end) = negb (ends_with_char "-" (String c label))) as Hlast.
  { generalize c. induction label as [|d label IH]; intros e Hall.
    - cbn in Hall |- *. rewrite andb_true_r in Hall. by rewrite host_char_ends, Hall.
    - apply andb_true_iff in Hall as [_ Hall]. exact (IH d Hall). }
  rewrite (host_char_ends c). destruct (forall_char label_char (String c label)) eqn:Hall; [|by rewrite !andb_false_r].
  rewrite Hlast by done. apply andb_true_iff in Hall as [-> _]. cbn [andb]. rewrite !andb_true_r. by rewrite <- andb_assoc.
Qed.

Lemma forallb_same {A} (f g : A → bool) l : (∀ x, f x = g x) → forallb f l = forallb g l.
Proof. intros Hfg. induction l as [|x l IH]; [done|]. cbn [forallb]. by rewrite Hfg, IH. Qed.

Lemma valid_email_split value local domain :
  split_once "@" value = Some (local, domain) →
  valid_email value = true ↔
  is_ascii value && (String.length value <=? 254)%nat = true ∧
  valid_local local && negb (is_empty domain) && (String.length domain <=? 253)%nat && (count_char "@" value =? 1)%nat = true ∧
  forallb valid_label (split_char "." domain) = true.
Proof.
  intros Hs. unfold valid_email. rewrite Hs. pose proof Hs as [-> _]%split_once_Some. rewrite length_append. cbn [String.length].
  change (forallb (λ part, negb (is_empty part) && forall_char atext part) (split_char "." local)) with (parts_ok (split_char "." local)).
  rewrite (proj1 (split_dotted local)), (forallb_same _ valid_label (split_char "." domain)) by (intros; apply valid_label_same).
  unfold valid_local, dotted, length_in. assert (∀ t, negb (is_empty t) = (1 <=? String.length t)%nat) as -> by (by intros []).
  rewrite !andb_true_iff, !Nat.leb_le. assert (∀ t, negb (is_empty t) = true ↔ (1 ≤ String.length t)%nat) as Hne.
  { intros []; cbn; split; intros; try done; lia. }
  rewrite !Hne. split; intros; destruct_and?; split_and?; try done; lia.
Qed.

(** C38: the two places that read a recipient's address agree: the invitation's
    parser and the one that normalizes the address a credential discloses accept
    the same texts and give the same canonical address, so an address that is
    invited is the address that is checked. *)
Theorem email_readers_agree (value email : string) : parse_canonical_email value = Ok email ↔ normalize_email value = Ok email.
Proof.
  unfold parse_canonical_email, normalize_email. destruct (split_once "@" value) as [[local domain]|] eqn:Hs.
  - cbn [ok_or]. pose proof (valid_email_split value local domain Hs) as Hv. split; intros He.
    + apply bind_Ok in He as (? & (Ha & Hb & Hc)%ensure_Ok%Hv & He). rewrite Ha. cbn [ensure]. rewrite !bind_ret_l, Hb. cbn [ensure].
      rewrite bind_ret_l, Hc. rewrite bind_ret_l in He. by injection He as <-.
    + apply bind_Ok in He as (? & Ha%ensure_Ok & He). rewrite bind_ret_l in He. apply bind_Ok in He as (? & Hb%ensure_Ok & He).
      apply bind_Ok in He as (? & Hc%ensure_Ok & He). rewrite (proj2 Hv) by done. by injection He as <-.
  - split; intros He; by apply bind_Ok in He as (? & _ & He).
Qed.

(** ** Receipts and their windows *)

Section Receipts.
Context `{FloatText} `{Sha256} `{EvidenceLib} `{Rfc3339} `{ShareTime}.

(** The texts of instants read back, in milliseconds for [canonical_timestamp]. *)
Record share_time_sound : Prop := {
  rfc3339_reads : ∀ t s, rfc3339_text t = Some s → rfc3339_parse s = Some t;
  millis_reads : ∀ t s, millis_text t = Some s → rfc3339_parse s = Some (t - t mod 1000000)%Z;
}.

Lemma validate_authorization_Ok a now o n r :
  validate_authorization_for a now o n r = Ok tt ↔
  (ia_type a = "TinyCloudShareInviteAuthorization" ∧ ia_version a = 1%N ∧ ia_return_origin a = r ∧ ia_target_origin a = o ∧
   ia_node_audience a = n ∧ ia_jti a ≠ ia_abuse_token a) ∧
  (∃ issued expires share_expires, rfc3339_parse (ia_issued_at a) = Some issued ∧ rfc3339_parse (ia_expires_at a) = Some expires ∧
     rfc3339_parse (ia_share_expires_at a) = Some share_expires ∧
     (issued ≤ now + seconds 60 ∧ now < expires ∧ expires ≤ issued + INVITATION_AUTHORIZATION_TTL ∧ expires ≤ share_expires ∧ issued < expires)%Z) ∧
  validate_source (ia_source a) = Ok tt ∧ ia_source_digest a = canonical_json_digest (source_value (ia_source a)).
Proof.
  unfold validate_authorization_for, parse_instant. split.
  - intros Hv. apply bind_Ok in Hv as (? & Hh%ensure_Ok & Hv). apply bind_Ok in Hv as (issued & Hi%ok_or_Ok & Hv).
    apply bind_Ok in Hv as (expires & He%ok_or_Ok & Hv). apply bind_Ok in Hv as (share & Hs%ok_or_Ok & Hv).
    apply bind_Ok in Hv as (? & Ht%ensure_Ok & Hv). apply bind_Ok in Hv as ([] & Hsrc & Hd%ensure_Ok%bool_decide_eq_true).
    rewrite !andb_true_iff, !bool_decide_eq_true, N.eqb_eq, negb_true_iff, bool_decide_eq_false in Hh.
    rewrite !andb_true_iff, !Z.leb_le, !Z.ltb_lt in Ht. split_and!; naive_solver.
  - intros ((-> & -> & -> & -> & -> & Hj) & (issued & expires & share & -> & -> & -> & L1 & L2 & L3 & L4 & L5) & -> & ->).
    rewrite !(bool_decide_true (_ = _)), (bool_decide_false _ Hj) by done. cbn [ok_or]. rewrite !bind_ret_l.
    rewrite (proj2 (Z.leb_le _ _) L1), (proj2 (Z.ltb_lt _ _) L2), (proj2 (Z.leb_le _ _) L3), (proj2 (Z.leb_le _ _) L4), (proj2 (Z.ltb_lt _ _) L5).
    done.
Qed.

Lemma issue_Ok i signer now o n r receipt :
  issue_invitation_authorization_for i signer now o n r = Ok receipt →
  ∃ issued_at expires_at share message signature, rc_proof receipt = mkInvitationProof "EdDSA" (is_kid signer) (b64url_encode signature) ∧
    is_sign signer message = Some signature ∧ String.length signature = 64%nat ∧
    signed_bytes (rc_authorization receipt) = Ok message ∧ ia_issued_at (rc_authorization receipt) = issued_at ∧ millis_text now = Some issued_at ∧
    ia_expires_at (rc_authorization receipt) = expires_at ∧ rfc3339_parse (ia_share_expires_at (rc_authorization receipt)) = Some share ∧
    millis_text (Z.min (now + INVITATION_AUTHORIZATION_TTL) share) = Some expires_at ∧
    validate_authorization_for (rc_authorization receipt) now o n r = Ok tt.
Proof.
  unfold issue_invitation_authorization_for, canonical_timestamp, parse_instant. intros Hi.
  apply bind_Ok in Hi as (issued_at & Hia%ok_or_Ok & Hi). apply bind_Ok in Hi as (share & Hs%ok_or_Ok & Hi).
  apply bind_Ok in Hi as (? & _ & Hi). apply bind_Ok in Hi as (expires_at & He%ok_or_Ok & Hi). apply bind_Ok in Hi as ([] & Hv & Hi).
  apply bind_Ok in Hi as (message & Hm & Hi). apply bind_Ok in Hi as (signature & Hsig%ok_or_Ok & Hi).
  apply bind_Ok in Hi as (? & Hl%ensure_Ok%Nat.eqb_eq & Hi). injection Hi as <-.
  by exists issued_at, expires_at, share, message, signature.
Qed.

(** An invitation receipt is good for five minutes at most and no longer than
    the share: the node that issued it accepts it, with the digest of exactly this
    receipt, at any later instant before the expiry it states, and at none after. *)
Theorem invitation_receipt_window (i : InvitationAuthorizationInput) (signer : InvitationSigner) (verifier : InvitationVerifier) (now : Z)
    (o n r : string) (receipt : InvitationAuthorizationReceipt) :
  share_time_sound → (∀ t, b64url_decode (b64url_encode t) = Some t) →
  iv_kid verifier = is_kid signer → (∀ m s, is_sign signer m = Some s → iv_verify verifier m s = true) →
  issue_invitation_authorization_for i signer now o n r = Ok receipt →
  ∃ expires share, rfc3339_parse (ia_expires_at (rc_authorization receipt)) = Some expires ∧
    rfc3339_parse (in_share_expires_at i) = Some share ∧ (expires ≤ now + INVITATION_AUTHORIZATION_TTL)%Z ∧ (expires ≤ share)%Z ∧
    ∀ now', (now ≤ now')%Z →
      verify_invitation_authorization_for receipt verifier now' o n r = Ok (authorization_digest receipt) ↔ (now' < expires)%Z.
Proof.
  intros Ht Hb Hk Hsig Hi. pose proof Hi as (issued_at & expires_at & share & message & signature & Hp & Hs & Hl & Hm & <- & Hia & <- & Hsh & He & Hv)%issue_Ok.
  assert (rfc3339_parse (in_share_expires_at i) = Some share) as Hshare.
  { unfold issue_invitation_authorization_for in Hi. apply bind_Ok in Hi as (? & _ & Hi). apply bind_Ok in Hi as (? & Hx%ok_or_Ok & Hi).
    apply bind_Ok in Hi as (? & _ & Hi). apply bind_Ok in Hi as (? & _ & Hi). apply bind_Ok in Hi as ([] & _ & Hi).
    apply bind_Ok in Hi as (? & _ & Hi). apply bind_Ok in Hi as (? & _ & Hi). apply bind_Ok in Hi as (? & _ & Hi). injection Hi as <-. exact Hsh. }
  pose proof Hv as ((Hty & Hver & Hr & Ho & Hn & Hj) & (issued & expires & share' & Hpi & Hpe & Hps & L1 & L2 & L3 & L4 & L5) & Hsrc & Hd)%validate_authorization_Ok.
  pose proof (millis_reads Ht _ _ He) as Hpe'. pose proof (millis_reads Ht _ _ Hia) as Hpi'. simplify_eq.
  eexists _, share. split; [exact Hpe|]. split; [done|].
  pose proof (Z.mod_pos_bound (Z.min (now + INVITATION_AUTHORIZATION_TTL) share) 1000000).
  pose proof (Z.mod_pos_bound now 1000000). split; [lia|]. split; [lia|]. intros now' Hnow. unfold verify_invitation_authorization_for. split.
  - intros Hx. apply bind_Ok in Hx as ([] & (_ & (? & ? & ? & _ & Hx & _ & _ & Hlt & _) & _)%validate_authorization_Ok & _). simplify_eq. done.
  - intros Hlt. assert (validate_authorization_for (rc_authorization receipt) now' _ _ _ = Ok tt) as ->.
    { apply validate_authorization_Ok. split_and!; try done. eexists _, _, _. split_and!; try done. unfold seconds in *. lia. }
    rewrite bind_ret_l, Hp. cbn [ip_alg ip_signature ip_kid]. rewrite Hb. cbn [ok_or]. rewrite bool_decide_true by done. cbn [ensure].
    rewrite !bind_ret_l, Hm, bind_ret_l. unfold verifier_verify. rewrite (bool_decide_true (_ = _)) by done. rewrite Hl, (Hsig _ _ Hs). done.
Qed.

End Receipts.

(** ** Witnesses *)

(** Instants after 1970 as decimal numbers of nanoseconds. *)
Definition demo_instant : Rfc3339 := λ s, Z.of_N <$> parse_u64 s.
Definition demo_clock : ShareTime :=
  {| rfc3339_text := λ t, if bool_decide (0 ≤ t < 2 ^ 63)%Z then Some (fmt_u64 (Z.to_N t)) else None;
     millis_text := λ t, if bool_decide (0 ≤ t < 2 ^ 63)%Z then Some (fmt_u64 (Z.to_N (t - t mod 1000000))) else None |}.
#[local] Existing Instances demo_float demo_sha demo_lib demo_instant demo_clock.

Lemma demo_clock_sound : share_time_sound.
Proof.
  assert (∀ t, (0 ≤ t < 2 ^ 63)%Z → rfc3339_parse (fmt_u64 (Z.to_N t)) = Some t) as Hr.
  { intros t Ht. unfold rfc3339_parse, demo_instant. rewrite parse_fmt_u64 by (unfold u64_max; lia). simpl. f_equal. lia. }
  split; intros t s; simpl; case_bool_decide as Ht; intros [= <-]; apply Hr; [done|].
  pose proof (Z.mod_pos_bound t 1000000). pose proof (Z.mod_le t 1000000). lia.
Qed.

Definition demo_signer : InvitationSigner := mkInvitationSigner "did:web:node.example#key" (λ _, Some demo_signature).
Definition demo_invitation_verifier : InvitationVerifier := mkInvitationVerifier "did:web:node.example#key" (λ _ s, bool_decide (s = demo_signature)).
Definition demo_source : ContentSource := KvSource "did:key:zAlice" "docs/a.md".
Definition demo_input : InvitationAuthorizationInput :=
  mkInvitationInput "j" "t" "did:key:zAlice" "share" "id" "policy" "delegation" "amh_1" "digest" "bob@example.com" "https://node.example"
    "did:web:node.example" "a.md" Unverified demo_source (canonical_json_digest (source_value demo_source)) "9000000000000000" "body".
Definition demo_receipt : result InvitationError InvitationAuthorizationReceipt :=
  issue_invitation_authorization demo_input demo_signer 1000000000.

Example demo_receipt_ok : is_ok demo_receipt = true.
Proof. vm_compute. reflexivity. Qed.

Definition demo_issued : InvitationAuthorizationReceipt :=
  match demo_receipt with
  | Ok r => r
  | Err _ => mkReceipt (mkInvitationAuthorization "" 0 "" "" "" "" "" "" "" "" "" "" "" "" "" Verified demo_source "" "" "" "" "") (mkInvitationProof "" "" "")
  end.
Lemma demo_issued_eq : demo_receipt = Ok demo_issued.
Proof. pose proof demo_receipt_ok as Hok. unfold demo_issued. by destruct demo_receipt. Qed.

Lemma invitation_receipt_window_witness :
  ∃ expires share, rfc3339_parse (ia_expires_at (rc_authorization demo_issued)) = Some expires ∧
    rfc3339_parse (in_share_expires_at demo_input) = Some share ∧ (expires ≤ 1000000000 + INVITATION_AUTHORIZATION_TTL)%Z ∧ (expires ≤ share)%Z ∧
    ∀ now', (1000000000 ≤ now')%Z →
      verify_invitation_authorization_for demo_issued demo_invitation_verifier now' "https://node.example" "did:web:node.example" RETURN_ORIGIN =
        Ok (authorization_digest demo_issued) ↔ (now' < expires)%Z.
Proof.
  apply (invitation_receipt_window demo_input demo_signer demo_invitation_verifier 1000000000 "https://node.example" "did:web:node.example" RETURN_ORIGIN).
  - exact demo_clock_sound.
  - intros t. reflexivity.
  - reflexivity.
  - intros m s [= <-]. reflexivity.
  - exact demo_issued_eq.
Defined.
