(* ===== verification/ShareState.v ===== *)
(** * Email shares, protocol state: tinycloud-core/src/share_email/state.rs

    The tables that stop replays and bound the number of anonymous challenges, and
    the operations of [ProtocolStateRepository].  Every operation runs in one
    transaction: it answers the changed tables, or an error and then nothing has
    changed.  Instants are stored as RFC 3339 text. *)
From S2P Require Import Prelude Str Chars Json SqlCaveat Tables Jcs PolicyCapability Evidence PolicyDelegation PolicyMemory ShareTypes ShareInvitation.

Definition MAX_REQUEST_BODY_BYTES : N := 65536.
Definition CHALLENGE_TTL : Z := seconds 120.
Definition SESSION_TTL : Z := seconds 300.
Definition READ_JTI_TTL : Z := seconds 60.
Definition QUOTA_WINDOW : Z := 86400.

Inductive StateError := Storage | Invalid | BodyTooLarge | QuotaExceeded | Replayed | Expired.
#[export] Instance StateError_eq_dec : EqDecision StateError.
Proof. solve_decision. Defined.

(** ** Rows *)

Record InvitationRow := mkInvitationRow {
  iw_digest : string;
  iw_binding : json;
  iw_issued_at : string;
  iw_expires_at : string;
  iw_consumed_at : option string;
}.

Record ChallengeRow := mkChallengeRow {
  cr_request_digest : string;
  cr_binding : json;
  cr_origin : string;
  cr_ip : string;
  cr_share : string;
  cr_nonce_hash : string;
  cr_issued_at : string;
  cr_expires_at : string;
  cr_consumed_at : option string;
}.

Record PresentationRow := mkPresentationRow {
  pj_nonce : string;
  pj_policy_cid : string;
  pj_session : string;
  pj_issued_at : string;
  pj_expires_at : string;
}.

Record SessionRow := mkSessionRow {
  se_authority_cid : string;
  se_binding : json;
  se_holder_digest : string;
  se_issued_at : string;
  se_expires_at : string;
  se_revoked_at : option string;
}.

Record ReadRow := mkReadRow {
  rd_session : string;
  rd_invocation_digest : string;
  rd_binding : json;
  rd_issued_at : string;
  rd_expires_at : string;
  rd_consumed_at : option string;
}.

Record AuditEvent := mkAuditEvent {
  ae_id : string;
  ae_kind : string;
  ae_outcome : string;
  ae_share : string;
  ae_origin : string;
  ae_holder : option string;
  ae_request : string;
}.

Record QuotaRow := mkQuotaRow { qr_uses : Z; qr_expires_at : string }.

(** The tables by primary key; [share_policy_presentation_jti] has a unique index
    on the nonce as well. *)
Record ShareDb := mkShareDb {
  invitations : gmap string InvitationRow;
  challenges : gmap string ChallengeRow;
  presentations : gmap string PresentationRow;
  sessions : gmap string SessionRow;
  reads : gmap string ReadRow;
  share_audits : gmap string (AuditEvent * string);
  quotas : gmap (string * string * string) QuotaRow;
}.

Definition share_empty : ShareDb := mkShareDb ∅ ∅ ∅ ∅ ∅ ∅ ∅.

Definition set_invitations t (s : ShareDb) : ShareDb := mkShareDb t (challenges s) (presentations s) (sessions s) (reads s) (share_audits s) (quotas s).
Definition set_challenges t (s : ShareDb) : ShareDb := mkShareDb (invitations s) t (presentations s) (sessions s) (reads s) (share_audits s) (quotas s).
Definition set_presentations t (s : ShareDb) : ShareDb := mkShareDb (invitations s) (challenges s) t (sessions s) (reads s) (share_audits s) (quotas s).
Definition set_sessions t (s : ShareDb) : ShareDb := mkShareDb (invitations s) (challenges s) (presentations s) t (reads s) (share_audits s) (quotas s).
Definition set_reads t (s : ShareDb) : ShareDb := mkShareDb (invitations s) (challenges s) (presentations s) (sessions s) t (share_audits s) (quotas s).
Definition set_share_audits t (s : ShareDb) : ShareDb := mkShareDb (invitations s) (challenges s) (presentations s) (sessions s) (reads s) t (quotas s).
Definition set_quotas t (s : ShareDb) : ShareDb := mkShareDb (invitations s) (challenges s) (presentations s) (sessions s) (reads s) (share_audits s) t.

(** An insert [ON CONFLICT DO NOTHING] run with [exec]: when the row is there nothing is
    inserted, which [exec] reports as [DbErr::RecordNotInserted], a storage error here. *)
Definition insert_new {A} (k : string) (v : A) (m : gmap string A) : result StateError (gmap string A) :=
  match m !! k with Some _ => Err Storage | None => Ok (<[k := v]> m) end.

Section State.
Context `{Rfc3339} `{ShareTime}.

Definition timestamp (t : Z) : result StateError string := ok_or (rfc3339_text t) Invalid.
Definition parse_timestamp (s : string) : result StateError Z := ok_or (rfc3339_parse s) Storage.

(** ** Invitations *)

Definition reserve_invitation_authorization (r : InvitationAuthorizationReceipt) (binding : json) (digest : string) (now : Z) (s : ShareDb)
    : result StateError ShareDb :=
  let a := rc_authorization r in
  let existed := bool_decide (is_Some (invitations s !! ia_jti a)) in
  rows ← insert_new (ia_jti a) (mkInvitationRow digest binding (ia_issued_at a) (ia_expires_at a) None) (invitations s);
  let s := set_invitations rows s in
  existing ← ok_or (invitations s !! ia_jti a) Storage;
  _ ← ensure (bool_decide (iw_digest existing = digest) && bool_decide (iw_binding existing = binding)) Replayed;
  if existed then
    _ ← ensure (bool_decide (iw_consumed_at existing = None)) Replayed;
    expires ← parse_timestamp (iw_expires_at existing);
    _ ← ensure (now <? expires)%Z Expired;
    Ok s
  else
    expires ← parse_timestamp (ia_expires_at a);
    _ ← ensure (now <? expires)%Z Expired;
    Ok s.

(** ** Challenges and quotas *)

Record AnonymousChallengeRequest := mkAnonymousChallengeRequest {
  cq_challenge_id : string;
  cq_request_digest : string;
  cq_binding : json;
  cq_origin : string;
  cq_ip : string;
  cq_share : string;
  cq_nonce_hash : string;
  cq_issued_at : Z;
  cq_expires_at : Z;
  cq_body_bytes : N;
  cq_origin_limit : Z;
  cq_ip_limit : Z;
  cq_share_limit : Z;
}.

(** Kind, scope and limit. *)
Definition QuotaUse : Type := string * string * Z.

Definition quota_uses (r : AnonymousChallengeRequest) : list QuotaUse :=
  [("origin", cq_origin r, cq_origin_limit r); ("ip", cq_ip r, cq_ip_limit r); ("share", cq_share r, cq_share_limit r)].

(** The start of the day, in nanoseconds. *)
Definition bucket_of (now : Z) : Z := seconds ((now / 1000000000 / QUOTA_WINDOW) * QUOTA_WINDOW).

Definition increment_quota (q : QuotaUse) (now : Z) (s : ShareDb) : result StateError ShareDb :=
  let '(kind, scope, limit) := q in
  _ ← ensure (negb (is_empty scope) && (0 <? limit)%Z) Invalid;
  start ← timestamp (bucket_of now);
  start_at ← ok_or (rfc3339_parse start) Invalid;
  expires ← timestamp (start_at + seconds QUOTA_WINDOW);
  let row := match quotas s !! (kind, start, scope) with
             | Some row => mkQuotaRow (qr_uses row + 1) (qr_expires_at row)
             | None => mkQuotaRow 1 expires
             end in
  _ ← ensure (qr_uses row <=? limit)%Z QuotaExceeded;
  Ok (set_quotas (<[(kind, start, scope) := row]> (quotas s)) s).

Definition create_anonymous_challenge (r : AnonymousChallengeRequest) (now : Z) (s : ShareDb) : result StateError ShareDb :=
  _ ← ensure (cq_body_bytes r <=? MAX_REQUEST_BODY_BYTES)%N BodyTooLarge;
  _ ← ensure ((now <? cq_expires_at r) && (cq_expires_at r <=? now + CHALLENGE_TTL))%Z Invalid;
  let existed := bool_decide (is_Some (challenges s !! cq_challenge_id r)) in
  issued ← timestamp (cq_issued_at r);
  expires ← timestamp (cq_expires_at r);
  let row := mkChallengeRow (cq_request_digest r) (cq_binding r) (cq_origin r) (cq_ip r) (cq_share r) (cq_nonce_hash r) issued expires None in
  rows ← insert_new (cq_challenge_id r) row (challenges s);
  let s := set_challenges rows s in
  existing ← ok_or (challenges s !! cq_challenge_id r) Storage;
  _ ← ensure (bool_decide (cr_request_digest existing = cq_request_digest r) && bool_decide (cr_binding existing = cq_binding r)) Replayed;
  if existed then Ok s else try_fold (λ s q, increment_quota q now s) (quota_uses r) s.

(** The nonce is compared by the callers that carry one. *)
Definition consume_anonymous_challenge_checked (id request_digest : string) (binding : json) (nonce_hash : option string) (now : Z) (s : ShareDb)
    : result StateError ShareDb :=
  row ← ok_or (challenges s !! id) Replayed;
  _ ← ensure (bool_decide (cr_request_digest row = request_digest) && bool_decide (cr_binding row = binding) &&
              match nonce_hash with Some h => bool_decide (cr_nonce_hash row = h) | None => true end &&
              bool_decide (cr_consumed_at row = None)) Replayed;
  expires ← parse_timestamp (cr_expires_at row);
  _ ← ensure (now <? expires)%Z Replayed;
  at_ ← timestamp now;
  Ok (set_challenges (<[id := mkChallengeRow (cr_request_digest row) (cr_binding row) (cr_origin row) (cr_ip row) (cr_share row) (cr_nonce_hash row)
                                (cr_issued_at row) (cr_expires_at row) (Some at_)]> (challenges s)) s).

Definition consume_anonymous_challenge (id request_digest : string) (binding : json) (now : Z) (s : ShareDb) : result StateError ShareDb :=
  consume_anonymous_challenge_checked id request_digest binding None now s.

Definition consume_anonymous_challenge_in_transaction (id request_digest : string) (binding : json) (nonce_hash : string) (now : Z) (s : ShareDb)
    : result StateError ShareDb :=
  consume_anonymous_challenge_checked id request_digest binding (Some nonce_hash) now s.

(** ** Sessions *)

(** The insertion of a presentation row: primary key and unique nonce. *)
Definition insert_presentation (jti : string) (row : PresentationRow) (s : ShareDb) : option ShareDb :=
  if bool_decide (presentations s !! jti = None) &&
     forallb (λ kv, negb (bool_decide (pj_nonce kv.2 = pj_nonce row))) (map_to_list (presentations s))
  then Some (set_presentations (<[jti := row]> (presentations s)) s) else None.

Definition consume_holder_binding_jti_in_transaction (jti policy_cid session : string) (issued_at expires_at : Z) (s : ShareDb)
    : result StateError ShareDb :=
  _ ← ensure (negb (is_empty jti) && (issued_at <? expires_at)%Z) Invalid;
  let key := "holder-binding:" +:+ jti in
  _ ← ensure (bool_decide (presentations s !! key = None)) Replayed;
  issued ← timestamp issued_at;
  expires ← timestamp expires_at;
  ok_or (insert_presentation key (mkPresentationRow ("holder-binding-nonce:" +:+ jti) policy_cid session issued expires) s) Replayed.

Record SessionHandleMapping := mkSessionHandleMapping {
  sm_handle : string;
  sm_authority_cid : string;
  sm_binding : json;
  sm_holder_digest : string;
  sm_issued_at : Z;
  sm_expires_at : Z;
}.

Definition commit_session (m : SessionHandleMapping) (audit : AuditEvent) (now : Z) (s : ShareDb) : result StateError ShareDb :=
  _ ← ensure ((now <? sm_expires_at m) && (sm_expires_at m <=? now + SESSION_TTL))%Z Invalid;
  _ ← ensure (negb (is_empty (sm_authority_cid m))) Invalid;
  let existed := bool_decide (is_Some (sessions s !! sm_handle m)) in
  issued ← timestamp (sm_issued_at m);
  expires ← timestamp (sm_expires_at m);
  rows ← insert_new (sm_handle m) (mkSessionRow (sm_authority_cid m) (sm_binding m) (sm_holder_digest m) issued expires None) (sessions s);
  let s := set_sessions rows s in
  existing ← ok_or (sessions s !! sm_handle m) Storage;
  _ ← ensure (bool_decide (se_authority_cid existing = sm_authority_cid m) && bool_decide (se_binding existing = sm_binding m)) Replayed;
  if existed then Ok s
  else
    at_ ← timestamp now;
    rows ← insert_new (ae_id audit) (audit, at_) (share_audits s);
    Ok (set_share_audits rows s).

(** ** Reads *)

Record HolderReadJti := mkHolderReadJti {
  hr_jti : string;
  hr_session : string;
  hr_invocation_digest : string;
  hr_binding : json;
  hr_issued_at : Z;
  hr_expires_at : Z;
}.

Definition consume_holder_read_jti (r : HolderReadJti) (now : Z) (s : ShareDb) : result StateError ShareDb :=
  _ ← ensure ((now <? hr_expires_at r) && (hr_expires_at r <=? now + READ_JTI_TTL))%Z Invalid;
  session ← ok_or (sessions s !! hr_session r) Replayed;
  _ ← ensure (bool_decide (se_revoked_at session = None)) Replayed;
  expires ← parse_timestamp (se_expires_at session);
  _ ← ensure (now <? expires)%Z Replayed;
  _ ← ensure (bool_decide (reads s !! hr_jti r = None)) Replayed;
  issued ← timestamp (hr_issued_at r);
  expires ← timestamp (hr_expires_at r);
  at_ ← timestamp now;
  Ok (set_reads (<[hr_jti r := mkReadRow (hr_session r) (hr_invocation_digest r) (hr_binding r) issued expires (Some at_)]> (reads s)) s).

(** ** Cleanup *)

(** [expires_at < now] on texts, byte by byte. *)
Definition text_before (a b : string) : bool := bytes_leb a b && negb (bool_decide (a = b)).

Definition keep_rows {K A} `{Countable K} (expires : A → string) (now : string) (m : gmap K A) : gmap K A :=
  filter (λ kv, text_before (expires kv.2) now = false) m.

Definition cleanup (now : Z) (s : ShareDb) : result StateError ShareDb :=
  now ← timestamp now;
  Ok (mkShareDb (keep_rows iw_expires_at now (invitations s)) (keep_rows cr_expires_at now (challenges s)) (presentations s)
        (keep_rows se_expires_at now (sessions s)) (keep_rows rd_expires_at now (reads s)) (share_audits s)
        (keep_rows qr_expires_at now (quotas s))).

End State.

(** ** The life of the tables *)

Section Runs.
Context `{Rfc3339} `{ShareTime}.

(** An operation other than a challenge or a cleanup. *)
Inductive other_step (now : Z) : relation ShareDb :=
| other_reserve r binding digest s s' : reserve_invitation_authorization r binding digest now s = Ok s' → other_step now s s'
| other_consume id digest binding nonce s s' : consume_anonymous_challenge_checked id digest binding nonce now s = Ok s' → other_step now s s'
| other_binding jti cid session issued expires s s' :
    consume_holder_binding_jti_in_transaction jti cid session issued expires s = Ok s' → other_step now s s'
| other_presentation jti row s s' : insert_presentation jti row s = Some s' → other_step now s s'
| other_session m audit s s' : commit_session m audit now s = Ok s' → other_step now s s'
| other_read r s s' : consume_holder_read_jti r now s = Ok s' → other_step now s s'.

(** The tables at an instant of a clock that does not run backwards, with the
    challenges admitted so far and when; [limits] are the limits of the kinds. *)
Inductive run (limits : string → Z) : Z → list (Z * AnonymousChallengeRequest) → ShareDb → Prop :=
| run_start now : run limits now [] share_empty
| run_tick now now' log s : run limits now log s → (now ≤ now')%Z → run limits now' log s
| run_challenge now log r s s' :
    run limits now log s → Forall (λ q, q.2 = limits q.1.1) (quota_uses r) → create_anonymous_challenge r now s = Ok s' →
    run limits now (if bool_decide (is_Some (challenges s !! cq_challenge_id r)) then log else (now, r) :: log) s'
| run_other now log s s' : run limits now log s → other_step now s s' → run limits now log s'
| run_cleanup now log s s' : run limits now log s → cleanup now s = Ok s' → run limits now log s'.

(** RFC 3339 in UTC: the fields down to the second have a fixed width. *)
Record text_order_sound : Prop := {
  text_reads : ∀ t a, rfc3339_text t = Some a → rfc3339_parse a = Some t;
  text_orders : ∀ t t' a b, rfc3339_text t = Some a → rfc3339_text t' = Some b → text_before a b = true → (t / 1000000000 ≤ t' / 1000000000)%Z;
}.

Lemma insert_presentation_Some jti row s s' :
  insert_presentation jti row s = Some s' →
  s' = set_presentations (<[jti := row]> (presentations s)) s ∧ presentations s !! jti = None ∧
  ∀ j r, presentations s !! j = Some r → pj_nonce r ≠ pj_nonce row.
Proof.
  unfold insert_presentation. destruct (_ && _) eqn:Hb; [|done]. intros [= <-].
  apply andb_true_iff in Hb as [Hn%bool_decide_eq_true Hf]. split_and!; [done|done|]. intros j r Hr.
  rewrite forallb_forall in Hf. specialize (Hf (j, r)). rewrite <- list_elem_of_In, elem_of_map_to_list in Hf. specialize (Hf Hr).
  by apply negb_true_iff, bool_decide_eq_false in Hf.
Qed.

Lemma other_step_quotas now s s' : other_step now s s' → quotas s' = quotas s.
Proof.
  destruct 1 as [r b d s s' Hs|id d b n s s' Hs|j c se i e s s' Hs|j row s s' Hs|m a s s' Hs|r s s' Hs].
  - unfold reserve_invitation_authorization in Hs. case_bool_decide; repeat (apply bind_Ok in Hs as (? & _ & Hs)); by simplify_eq.
  - unfold consume_anonymous_challenge_checked in Hs. repeat (apply bind_Ok in Hs as (? & _ & Hs)). by simplify_eq.
  - unfold consume_holder_binding_jti_in_transaction in Hs. do 4 (apply bind_Ok in Hs as (? & _ & Hs)). apply ok_or_Ok in Hs.
    unfold insert_presentation in Hs. case_match; by simplify_eq.
  - unfold insert_presentation in Hs. case_match; by simplify_eq.
  - unfold commit_session in Hs. case_bool_decide; repeat (apply bind_Ok in Hs as (? & _ & Hs)); by simplify_eq.
  - unfold consume_holder_read_jti in Hs. repeat (apply bind_Ok in Hs as (? & _ & Hs)). by simplify_eq.
Qed.

(** The admitted challenges of a day that count against a kind and scope. *)
Definition counts (kind scope : string) (day : Z) (e : Z * AnonymousChallengeRequest) : bool :=
  bool_decide (bucket_of e.1 = day) && existsb (λ q, bool_decide (q.1 = (kind, scope))) (quota_uses e.2).
Definition admitted (kind scope : string) (day : Z) (log : list (Z * AnonymousChallengeRequest)) : nat :=
  length (List.filter (counts kind scope day) log).

(** The key and the row an increment leaves. *)
Definition quota_key (start : string) (q : QuotaUse) : string * string * string := (q.1.1, start, q.1.2).

Definition incremented (now : Z) (old : option QuotaRow) (row : QuotaRow) : Prop :=
  match old with
  | Some old => row = mkQuotaRow (qr_uses old + 1) (qr_expires_at old)
  | None => qr_uses row = 1%Z ∧ rfc3339_text (bucket_of now + seconds QUOTA_WINDOW) = Some (qr_expires_at row)
  end.

Context (Htext : text_order_sound).

Lemma admitted_cons kind scope day e log :
  admitted kind scope day (e :: log) = ((if counts kind scope day e then 1 else 0) + admitted kind scope day log)%nat.
Proof. unfold admitted. cbn [List.filter]. by destruct (counts kind scope day e). Qed.

Lemma increment_quota_Ok q now s s' :
  increment_quota q now s = Ok s' →
  ∃ start row, rfc3339_text (bucket_of now) = Some start ∧ s' = set_quotas (<[quota_key start q := row]> (quotas s)) s ∧
    (qr_uses row ≤ q.2)%Z ∧ (0 < q.2)%Z ∧ incremented now (quotas s !! quota_key start q) row.
Proof.
  destruct q as [[kind scope] limit]. unfold increment_quota, timestamp. intros Hi.
  apply bind_Ok in Hi as (? & [_ Hpos%Z.ltb_lt]%ensure_Ok%andb_true_iff & Hi). apply bind_Ok in Hi as (start & Hs%ok_or_Ok & Hi).
  apply bind_Ok in Hi as (t & Ht%ok_or_Ok & Hi). apply bind_Ok in Hi as (expires & He%ok_or_Ok & Hi).
  apply bind_Ok in Hi as (? & Hle%ensure_Ok%Z.leb_le & Hi). injection Hi as <-.
  rewrite (text_reads Htext _ _ Hs) in Ht. simplify_eq. eexists start, _. split; [done|]. split; [done|]. split; [done|]. split; [done|].
  unfold incremented, quota_key. cbn [fst snd]. by destruct (quotas s !! _).
Qed.

Lemma increments_Ok qs now s s' :
  NoDup qs.*1.*1 → try_fold (λ s q, increment_quota q now s) qs s = Ok s' →
  ∀ start, rfc3339_text (bucket_of now) = Some start →
  challenges s' = challenges s ∧
  (∀ q, q ∈ qs → (0 < q.2)%Z ∧ ∃ row, quotas s' !! quota_key start q = Some row ∧ (qr_uses row ≤ q.2)%Z ∧
     incremented now (quotas s !! quota_key start q) row) ∧
  (∀ key, (∀ q, q ∈ qs → key ≠ quota_key start q) → quotas s' !! key = quotas s !! key).
Proof.
  intros Hnd Hf start Hstart. revert s Hnd Hf. induction qs as [|q qs IH]; intros s Hnd Hf; cbn [try_fold] in Hf.
  - simplify_eq. split_and!; [done| |done]. intros q Hq. by apply not_elem_of_nil in Hq.
  - apply bind_Ok in Hf as (s1 & (start' & row & Hst & -> & Hle & Hpos & Hinc)%increment_quota_Ok & Hf). simplify_eq.
    apply NoDup_cons in Hnd as [Hnin Hnd]. destruct (IH _ Hnd Hf) as (Hch & Hin & Hout). clear IH. split; [done|].
    assert (∀ q', q' ∈ qs → quota_key start q ≠ quota_key start q') as Hdiff.
    { intros q' Hq' Heq. apply Hnin. injection Heq as Hk _. rewrite Hk. apply list_elem_of_fmap_2, list_elem_of_fmap_2. done. }
    split.
    + intros q' [->|Hq']%elem_of_cons.
      * split; [done|]. exists row. split; [|done]. rewrite Hout by done. simpl. by rewrite lookup_insert_eq.
      * destruct (Hin q' Hq') as (? & row' & ? & ? & Hinc'). split; [done|]. exists row'. split_and!; [done|done|].
        simpl in Hinc'. rewrite lookup_insert_ne in Hinc' by (by apply Hdiff). done.
    + intros key Hkey. rewrite Hout by (intros ? ?; apply Hkey; by right). simpl. rewrite lookup_insert_ne; [done|].
      intros Heq. by apply (Hkey q); [left|].

Qed.

Lemma increments_start q qs now s s' :
  try_fold (λ s q, increment_quota q now s) (q :: qs) s = Ok s' → ∃ start, rfc3339_text (bucket_of now) = Some start.
Proof. cbn [try_fold]. intros Hf. apply bind_Ok in Hf as (? & (start & _ & ? & _)%increment_quota_Ok & _). by exists start. Qed.

(** What the rows of the quota table say about the admitted challenges. *)
Record quota_inv (limits : string → Z) (now : Z) (log : list (Z * AnonymousChallengeRequest)) (s : ShareDb) : Prop := {
  qi_bound : ∀ kind scope day, (Z.of_nat (admitted kind scope day log) ≤ Z.max 0 (limits kind))%Z;
  qi_rows : ∀ kind start scope row, quotas s !! (kind, start, scope) = Some row →
    ∃ day, rfc3339_text day = Some start ∧ rfc3339_text (day + seconds QUOTA_WINDOW) = Some (qr_expires_at row) ∧
      (day mod 1000000000 = 0)%Z ∧ (0 ≤ qr_uses row)%Z;
  qi_count : ∀ kind scope day, admitted kind scope day log = 0%nat ∨ (day + seconds QUOTA_WINDOW ≤ now)%Z ∨
    ∃ start row, rfc3339_text day = Some start ∧ quotas s !! (kind, start, scope) = Some row ∧
      (Z.of_nat (admitted kind scope day log) ≤ qr_uses row)%Z;
}.

Lemma text_inj t t' a : rfc3339_text t = Some a → rfc3339_text t' = Some a → t = t'.
Proof. intros Hr%(text_reads Htext) Hr'%(text_reads Htext). congruence. Qed.

Lemma bucket_whole now : (bucket_of now mod 1000000000 = 0)%Z.
Proof. unfold bucket_of, seconds. apply Z.mod_mul. lia. Qed.
Lemma bucket_now now : (bucket_of now ≤ now < bucket_of now + seconds QUOTA_WINDOW)%Z.
Proof.
  unfold bucket_of, seconds, QUOTA_WINDOW. pose proof (Z.div_mod now 1000000000). pose proof (Z.mod_pos_bound now 1000000000).
  pose proof (Z.div_mod (now / 1000000000) 86400). pose proof (Z.mod_pos_bound (now / 1000000000) 86400). lia.
Qed.

Lemma counts_use kind scope day now r :
  counts kind scope day (now, r) = true ↔ day = bucket_of now ∧ ∃ q, q ∈ quota_uses r ∧ q.1 = (kind, scope).
Proof.
  unfold counts. rewrite andb_true_iff, bool_decide_eq_true, existsb_exists. setoid_rewrite bool_decide_eq_true. setoid_rewrite <- list_elem_of_In.
  naive_solver.
Qed.

Lemma quota_inv_challenge limits now log r s s' :
  quota_inv limits now log s → Forall (λ q, q.2 = limits q.1.1) (quota_uses r) →
  try_fold (λ s q, increment_quota q now s) (quota_uses r) s = Ok s' → quota_inv limits now ((now, r) :: log) s'.
Proof.
  intros [Hb Hr Hc] Hlim Hf. destruct (increments_start _ _ _ _ _ Hf) as [start Hstart].
  destruct (increments_Ok (quota_uses r) now s s') with start as (_ & Hin & Hout); [|done|done|].
  { cbn. repeat constructor; set_solver. }
  assert (∀ kind scope day, counts kind scope day (now, r) = true →
    ∃ row, quotas s' !! (kind, start, scope) = Some row ∧ day = bucket_of now ∧ (0 < limits kind)%Z ∧ (qr_uses row ≤ limits kind)%Z ∧
      (Z.of_nat (admitted kind scope day log) + 1 ≤ qr_uses row)%Z) as Hnew.
  { intros kind scope day (-> & q & Hq & Hk)%counts_use. destruct (Hin q Hq) as (Hpos & row & Hrow & Hle & Hinc).
    rewrite Forall_forall in Hlim. rewrite (Hlim q Hq) in Hpos, Hle. unfold quota_key in Hrow, Hinc. rewrite Hk in Hpos, Hle, Hrow, Hinc. simpl in *.
    exists row. split_and!; try done. pose proof (bucket_now now).
    destruct (Hc kind scope (bucket_of now)) as [H0'|[Hpast|(start' & old & Hst & Hold & Hcnt)]]; [|lia|].
    - rewrite H0'. destruct (quotas s !! (kind, start, scope)) as [old|] eqn:Hold; simpl in Hinc; [|lia].
      subst row. simpl. destruct (Hr _ _ _ _ Hold) as (? & _ & _ & _ & ?). lia.
    - rewrite Hstart in Hst. simplify_eq. rewrite Hold in Hinc. simpl in Hinc. subst row. simpl. lia. }
  split.
  - intros kind scope day. rewrite admitted_cons. destruct (counts kind scope day (now, r)) eqn:Hk; [|apply Hb].
    destruct (Hnew _ _ _ Hk) as (row & _ & _ & ? & ? & ?). lia.
  - intros kind start0 scope row Hrow. destruct (decide ((kind, start0, scope) ∈ quota_key start <$> quota_uses r)) as [(q & Hkey & Hq)%list_elem_of_fmap|Hno].
    + destruct (Hin q Hq) as (_ & row' & Hrow' & _ & Hinc). rewrite Hkey in Hrow. simplify_eq. destruct (quotas s !! quota_key start q) as [old|] eqn:Hold; simpl in Hinc.
      * subst row. destruct (Hr _ _ _ _ Hold) as (day & ? & ? & ? & ?). exists day. simpl. split_and!; try done; [|lia]. by injection Hkey as _ -> _.
      * destruct Hinc as [Hone Hexp]. exists (bucket_of now). injection Hkey as _ -> _. split_and!; [done|done|apply bucket_whole|lia].
    + rewrite Hout in Hrow; [by eapply Hr|]. intros q Hq Heq. apply Hno. rewrite Heq. by apply list_elem_of_fmap_2.
  - intros kind scope day. rewrite admitted_cons. destruct (counts kind scope day (now, r)) eqn:Hk.
    + right. right. destruct (Hnew _ _ _ Hk) as (row & Hrow & -> & _ & _ & ?). exists start, row. split_and!; try done. lia.
    + destruct (Hc kind scope day) as [?|[?|(start' & row & Hst & Hrow & ?)]]; [by left|by right; left|right; right].
      exists start', row. split_and!; try done. rewrite Hout; [done|]. intros q Hq Heq. injection Heq as -> -> ->.
      rewrite (text_inj _ _ _ Hst Hstart) in Hk. assert (counts q.1.1 q.1.2 (bucket_of now) (now, r) = true) as Hk'; [|congruence].
      apply counts_use. split; [done|]. exists q. split; [done|]. by destruct q as [[]].
Qed.

Lemma quota_inv_frame limits now now' log s s' :
  quotas s' = quotas s → (now ≤ now')%Z → quota_inv limits now log s → quota_inv limits now' log s'.
Proof.
  intros Hq Hn [Hb Hr Hc]. split; [done|by rewrite Hq|]. intros kind scope day. rewrite Hq.
  destruct (Hc kind scope day) as [?|[?|?]]; [by left|right; left; lia|by right; right].
Qed.

Lemma quota_inv_cleanup limits now log s s' : quota_inv limits now log s → cleanup now s = Ok s' → quota_inv limits now log s'.
Proof.
  intros [Hb Hr Hc] Hcl. unfold cleanup in Hcl. apply bind_Ok in Hcl as (at_ & Hat%ok_or_Ok & Hcl). injection Hcl as <-. split; [done|..].
  - intros kind start scope row Hrow. simpl in Hrow. apply map_lookup_filter_Some in Hrow as [Hrow _]. by eapply Hr.
  - intros kind scope day. destruct (Hc kind scope day) as [?|[?|(start & row & Hst & Hrow & ?)]]; [by left|by right; left|right].
    destruct (text_before (qr_expires_at row) at_) eqn:Hbefore.
    + left. destruct (Hr _ _ _ _ Hrow) as (day' & Hst' & Hexp & Hmod & _). rewrite (text_inj _ _ _ Hst Hst') in *. clear Hst day.
      pose proof (text_orders Htext _ _ _ _ Hexp Hat Hbefore) as Hle. unfold seconds, QUOTA_WINDOW in *.
      pose proof (Z.div_mod (day' + 86400 * 1000000000) 1000000000). pose proof (Z.div_mod now 1000000000). pose proof (Z.mod_pos_bound now 1000000000).
      rewrite Z.mod_add, Hmod in * by lia. lia.
    + right. exists start, row. split_and!; try done. simpl. by apply map_lookup_filter_Some.
Qed.

Lemma run_quota_inv limits now log s : run limits now log s → quota_inv limits now log s.
Proof.
  induction 1 as [now|now now' log s _ IH Hle|now log r s s' _ IH Hlim Hc|now log s s' _ IH Hs|now log s s' _ IH Hs].
  - split; [intros; unfold admitted; simpl; lia|intros ? ? ? ?; simpl; by rewrite lookup_empty|by left].
  - by eapply quota_inv_frame.
  - unfold create_anonymous_challenge in Hc. apply bind_Ok in Hc as (? & _ & Hc). apply bind_Ok in Hc as (? & _ & Hc).
    apply bind_Ok in Hc as (issued & _ & Hc). apply bind_Ok in Hc as (expires & _ & Hc). apply bind_Ok in Hc as (rows & _ & Hc).
    apply bind_Ok in Hc as (existing & _ & Hc). apply bind_Ok in Hc as (? & _ & Hc). case_bool_decide.
    + injection Hc as <-. by apply (quota_inv_frame limits now now log s); [|lia|].
    + eapply quota_inv_challenge; [|done|exact Hc]. by apply (quota_inv_frame limits now now log s); [|lia|].
  - eapply quota_inv_frame; [by eapply other_step_quotas|reflexivity|done].
  - by eapply quota_inv_cleanup.
Qed.

(** C25: anonymous challenges are rationed.  On a clock that does not run backwards,
    whatever other operations and cleanups come between, the challenges the node
    admits on one day for one origin, one address or one share are never more than
    the limit for that kind. *)
Theorem challenges_rationed (limits : string → Z) (now : Z) (log : list (Z * AnonymousChallengeRequest)) (s : ShareDb) (kind scope : string) (day : Z) :
  run limits now log s → (Z.of_nat (admitted kind scope day log) ≤ Z.max 0 (limits kind))%Z.
Proof. intros Hr%run_quota_inv. apply Hr. Qed.

(** One operation, or the clock going on. *)
Inductive state_step : relation (Z * ShareDb) :=
| ss_tick now now' s : (now ≤ now')%Z → state_step (now, s) (now', s)
| ss_challenge r now s s' : create_anonymous_challenge r now s = Ok s' → state_step (now, s) (now, s')
| ss_other now s s' : other_step now s s' → state_step (now, s) (now, s')
| ss_cleanup now s s' : cleanup now s = Ok s' → state_step (now, s) (now, s').

Lemma fold_increments_frame qs now s s' :
  try_fold (λ s q, increment_quota q now s) qs s = Ok s' → s' = set_quotas (quotas s') s.
Proof.
  revert s. induction qs as [|q qs IH]; intros s Hf; cbn [try_fold] in Hf; [simplify_eq; by destruct s'|].
  apply bind_Ok in Hf as (s1 & (start & row & _ & -> & _)%increment_quota_Ok & Hf). apply IH in Hf. by rewrite Hf.
Qed.

Lemma create_frame r now s s' : create_anonymous_challenge r now s = Ok s' → reads s' = reads s ∧ presentations s' = presentations s.
Proof.
  unfold create_anonymous_challenge. intros Hc. do 7 (apply bind_Ok in Hc as (? & _ & Hc)).
  case_bool_decide; [by simplify_eq|]. apply fold_increments_frame in Hc. by rewrite Hc.
Qed.

Lemma consume_read_Ok r now s s' :
  consume_holder_read_jti r now s = Ok s' →
  reads s !! hr_jti r = None ∧ (∃ session, sessions s !! hr_session r = Some session ∧ se_revoked_at session = None) ∧
  ∃ row, rfc3339_text (hr_expires_at r) = Some (rd_expires_at row) ∧ s' = set_reads (<[hr_jti r := row]> (reads s)) s.
Proof.
  unfold consume_holder_read_jti, timestamp. intros Hc. apply bind_Ok in Hc as (? & _ & Hc). apply bind_Ok in Hc as (session & Hse%ok_or_Ok & Hc).
  apply bind_Ok in Hc as (? & Hrev%ensure_Ok%bool_decide_eq_true & Hc). apply bind_Ok in Hc as (? & _ & Hc). apply bind_Ok in Hc as (? & _ & Hc).
  apply bind_Ok in Hc as (? & Hnone%ensure_Ok%bool_decide_eq_true & Hc). apply bind_Ok in Hc as (? & _ & Hc).
  apply bind_Ok in Hc as (expires & He%ok_or_Ok & Hc). apply bind_Ok in Hc as (? & _ & Hc). injection Hc as <-.
  split; [done|]. split; [by exists session|]. exists (mkReadRow (hr_session r) (hr_invocation_digest r) (hr_binding r) x4 expires (Some x5)). by split.
Qed.

(** Reads only gain rows, except by a cleanup. *)
Lemma other_step_reads now s s' : other_step now s s' → reads s ⊆ reads s' ∧ presentations s ⊆ presentations s'.
Proof.
  destruct 1 as [r b d s s' Hs|id d b n s s' Hs|j c se i e s s' Hs|j row s s' Hs|m a s s' Hs|r s s' Hs].
  - unfold reserve_invitation_authorization in Hs. case_bool_decide; repeat (apply bind_Ok in Hs as (? & _ & Hs)); by simplify_eq.
  - unfold consume_anonymous_challenge_checked in Hs. repeat (apply bind_Ok in Hs as (? & _ & Hs)). by simplify_eq.
  - unfold consume_holder_binding_jti_in_transaction in Hs. do 4 (apply bind_Ok in Hs as (? & _ & Hs)). apply ok_or_Ok in Hs.
    by apply insert_presentation_Some in Hs as [-> [? _]]; split; [|apply insert_subseteq].
  - by apply insert_presentation_Some in Hs as [-> [? _]]; split; [|apply insert_subseteq].
  - unfold commit_session in Hs. case_bool_decide; repeat (apply bind_Ok in Hs as (? & _ & Hs)); by simplify_eq.
  - apply consume_read_Ok in Hs as (? & _ & row & _ & ->). split; [by apply insert_subseteq|done].
Qed.

(** The row of an accepted read stays until its expiry, to the second. *)
Definition read_kept (jti : string) (expires : Z) (st : Z * ShareDb) : Prop :=
  (expires / 1000000000 ≤ st.1 / 1000000000)%Z ∨ ∃ row, reads st.2 !! jti = Some row ∧ rfc3339_text expires = Some (rd_expires_at row).

Lemma read_kept_step jti expires st st' : state_step st st' → read_kept jti expires st → read_kept jti expires st'.
Proof.
  unfold read_kept. destruct 1 as [now now' s Hle|r now s s' Hs|now s s' Hs|now s s' Hs]; simpl; intros [Hpast|(row & Hrow & Hexp)]; try by left.
  - left. etrans; [exact Hpast|]. apply Z.div_le_mono; lia.
  - right. by exists row.
  - right. exists row. by rewrite (proj1 (create_frame _ _ _ _ Hs)).
  - right. exists row. split; [|done]. eapply lookup_weaken, other_step_reads; done.
  - unfold cleanup in Hs. apply bind_Ok in Hs as (at_ & Hat%ok_or_Ok & Hs). injection Hs as <-. simpl.
    destruct (text_before (rd_expires_at row) at_) eqn:Hb; [left; by eapply (text_orders Htext)|]. right. exists row. split; [|done].
    by apply map_lookup_filter_Some.
Qed.

Lemma read_kept_steps jti expires st st' : rtc state_step st st' → read_kept jti expires st → read_kept jti expires st'.
Proof. induction 1 as [|st st1 st2 Hst _ IH]; [done|]. intros Hk. by eapply IH, read_kept_step. Qed.

(** The identifier of an accepted read is used up until it has expired: on a
    clock that does not run backwards, whatever operations and cleanups come
    between, a second read with it can be accepted only in the second in which the
    first one's identifier expires, or later. *)
Theorem read_identifier_used_up (r r2 : HolderReadJti) (now now2 : Z) (s s1 s2 s3 : ShareDb) :
  consume_holder_read_jti r now s = Ok s1 → rtc state_step (now, s1) (now2, s2) → consume_holder_read_jti r2 now2 s2 = Ok s3 →
  hr_jti r2 = hr_jti r → (hr_expires_at r / 1000000000 ≤ now2 / 1000000000)%Z.
Proof.
  intros (_ & _ & row & Hexp & ->)%consume_read_Ok Hs (Hnone & _)%consume_read_Ok Hj.
  assert (read_kept (hr_jti r) (hr_expires_at r) (now2, s2)) as [?|(row' & Hrow & _)]; [|done|rewrite Hj in Hnone; simpl in Hrow; congruence].
  assert (read_kept (hr_jti r) (hr_expires_at r) (now, set_reads (<[hr_jti r := row]> (reads s)) s)) as Hk.
  { right. exists row. simpl. by rewrite lookup_insert_eq. }
  by eapply read_kept_steps.
Qed.

End Runs.

(** ** Examples *)

(** Some instants and their texts: the fraction of a second is written only where
    there is one, and without trailing zeros. *)
Definition demo_texts : list (Z * string) :=
  [(0, "1970-01-01T00:00:00Z"); (10000000000, "1970-01-01T00:00:10Z"); (10500000000, "1970-01-01T00:00:10.5Z");
   (60000000000, "1970-01-01T00:01:00Z"); (120000000000, "1970-01-01T00:02:00Z"); (300000000000, "1970-01-01T00:05:00Z");
   (86400000000000, "1970-01-02T00:00:00Z")]%Z.

Definition demo_table_parse : Rfc3339 := λ s, fst <$> List.find (λ e, bool_decide (e.2 = s)) demo_texts.
Definition demo_table_clock : ShareTime :=
  let text t := snd <$> List.find (λ e, bool_decide (e.1 = t)) demo_texts in {| rfc3339_text := text; millis_text := text |}.

#[local] Existing Instances demo_table_parse demo_table_clock.

Lemma demo_text_in t a : rfc3339_text t = Some a → (t, a) ∈ demo_texts.
Proof.
  unfold rfc3339_text, demo_table_clock. intros ([t' a'] & [Hin Ht%bool_decide_eq_true]%find_some & Ha)%fmap_Some.
  simpl in Ht, Ha. subst. by apply list_elem_of_In.
Qed.

Lemma demo_texts_sound : text_order_sound.
Proof.
  split.
  - intros t a Hin%demo_text_in. assert (Forall (λ e, rfc3339_parse e.2 = Some e.1) demo_texts) as Hf by (repeat constructor).
    rewrite Forall_forall in Hf. by apply (Hf (t, a)).
  - intros t t' a b Ha%demo_text_in Hb%demo_text_in Hbefore.
    assert (forallb (λ e, forallb (λ e', implb (text_before e.2 e'.2) (e.1 / 1000000000 <=? e'.1 / 1000000000)%Z) demo_texts) demo_texts = true) as Hf
      by (vm_compute; reflexivity).
    rewrite forallb_forall in Hf. specialize (Hf (t, a)). rewrite <- list_elem_of_In, forallb_forall in Hf.
    specialize (Hf Ha (t', b)). rewrite <- list_elem_of_In in Hf. specialize (Hf Hb). simpl in Hf. rewrite Hbefore in Hf. by apply Z.leb_le.
Qed.

Definition demo_limits (kind : string) : Z := 1.
Definition demo_challenge (id : string) : AnonymousChallengeRequest :=
  mkAnonymousChallengeRequest id "digest" JNull "https://a.example" "192.0.2.1" "share" "nonce" 0 60000000000 10 1 1 1.
Definition demo_challenged : ShareDb := match create_anonymous_challenge (demo_challenge "c1") 0 share_empty with Ok s => s | Err _ => share_empty end.

(** The first challenge of the day is admitted, and the next one is refused. *)
Lemma challenges_rationed_witness :
  run demo_limits 0 [(0%Z, demo_challenge "c1")] demo_challenged ∧
  admitted "ip" "192.0.2.1" 0 [(0%Z, demo_challenge "c1")] = 1 ∧
  create_anonymous_challenge (demo_challenge "c2") 0 demo_challenged = Err QuotaExceeded ∧
  (Z.of_nat (admitted "ip" "192.0.2.1" 0 [(0%Z, demo_challenge "c1")]) ≤ Z.max 0 (demo_limits "ip"))%Z.
Proof.
  assert (run demo_limits 0 [(0%Z, demo_challenge "c1")] demo_challenged) as Hrun.
  { refine (run_challenge demo_limits 0 [] (demo_challenge "c1") share_empty _ (run_start _ 0) _ _); [repeat constructor|vm_compute; reflexivity]. }
  split; [exact Hrun|]. split; [vm_compute; reflexivity|]. split; [vm_compute; reflexivity|].
  exact (challenges_rationed demo_texts_sound demo_limits 0 _ _ "ip" "192.0.2.1" 0 Hrun).
Defined.

Definition demo_session : ShareDb :=
  set_sessions {["s" := mkSessionRow "cid" JNull "holder" "1970-01-01T00:00:00Z" "1970-01-01T00:05:00Z" None]} share_empty.
Definition demo_read : HolderReadJti := mkHolderReadJti "jti" "s" "digest" JNull 0 10500000000.
Definition demo_read_again : HolderReadJti := mkHolderReadJti "jti" "s" "digest" JNull 0 60000000000.
Definition demo_read_later : HolderReadJti := mkHolderReadJti "jti" "s" "digest" JNull 60000000000 120000000000.
Definition state_of (r : result StateError ShareDb) : ShareDb := match r with Ok s => s | Err _ => share_empty end.
Definition demo_after_read : ShareDb := state_of (consume_holder_read_jti demo_read 0 demo_session).
Definition demo_cleaned (now : Z) : ShareDb := state_of (cleanup now demo_after_read).

Lemma read_identifier_used_up_witness :
  consume_holder_read_jti demo_read_again 0 demo_after_read = Err Replayed ∧
  (hr_expires_at demo_read / 1000000000 ≤ 60000000000 / 1000000000)%Z.
Proof.
  split; [vm_compute; reflexivity|].
  refine (read_identifier_used_up demo_texts_sound demo_read demo_read_later 0 60000000000 demo_session demo_after_read (demo_cleaned 60000000000) _ _ _ _ _).
  - vm_compute. reflexivity.
  - eapply rtc_l; [apply (ss_tick 0 60000000000); lia|]. eapply rtc_l; [apply (ss_cleanup 60000000000 _ (demo_cleaned 60000000000)); vm_compute; reflexivity|]. apply rtc_refl.
  - vm_compute. reflexivity.
  - reflexivity.
Defined.

(** The cleanup compares texts, and ["…10.5Z"] comes before ["…10Z"]: in the second
    in which it expires a read row is deleted early, and its identifier, still
    unexpired, is accepted once more. *)
Theorem unexpired_read_accepted_again :
  consume_holder_read_jti demo_read 0 demo_session = Ok demo_after_read ∧
  consume_holder_read_jti demo_read 10000000000 demo_after_read = Err Replayed ∧
  cleanup 10000000000 demo_after_read = Ok (demo_cleaned 10000000000) ∧
  ∃ s, consume_holder_read_jti demo_read 10000000000 (demo_cleaned 10000000000) = Ok s.
Proof. split_and!; [vm_compute; reflexivity..|]. eexists. vm_compute. reflexivity. Qed.
