(* ===== verification/ShareVerifier.v ===== *)
(** * Email shares, verifier: tinycloud-core/src/share_email/verifier.rs

    A credential and the holder's signed binding are checked against the scope and
    the challenge of a session request; what comes out is the admission the
    authority bridge works on. *)
From S2P Require Import Prelude Str Chars Json SqlCaveat Tables Jcs PolicyCapability Evidence PolicyDelegation PolicyMemory PolicyVerifier ShareTypes ShareInvitation.

Definition HOLDER_BINDING_TYPE : string := "TinyCloudEmailClaimHolderBinding".

(** [Value::get] of a string. *)
Definition text_at (key : string) (v : json) : option string := m ← as_object v; obj_get key m ≫= as_str.

(** [i64::saturating_add] and [saturating_sub]. *)
Definition saturating_i64 (z : Z) : Z := Z.max (- 2 ^ 63) (Z.min z (2 ^ 63 - 1)).

(** [OffsetDateTime::unix_timestamp]. *)
Definition unix_timestamp (t : Z) : Z := (t / 1000000000)%Z.

Record VerificationMetrics := mkVerificationMetrics { vm_rejected : N; vm_accepted : N }.

(** [fetch_add(1)] of an [AtomicU64]. *)
Definition wrapping_succ (n : N) : N := ((n + 1) mod 2 ^ 64)%N.
Definition count_rejected (m : VerificationMetrics) : VerificationMetrics := mkVerificationMetrics (wrapping_succ (vm_rejected m)) (vm_accepted m).
Definition count_accepted (m : VerificationMetrics) : VerificationMetrics := mkVerificationMetrics (vm_rejected m) (wrapping_succ (vm_accepted m)).

Record ExactEmailVerifier := mkExactEmailVerifier {
  xv_trust : IssuerTrustRegistry;
  xv_issuer : string;
  xv_evaluation_time : Z;
  xv_skew : Z;
  xv_expected_expiry : option Z;
}.

Definition at_time (v : ExactEmailVerifier) (now : Z) : ExactEmailVerifier :=
  mkExactEmailVerifier (xv_trust v) (xv_issuer v) now (xv_skew v) (xv_expected_expiry v).

Definition credential_scope (s : ShareScope) : CredentialScope :=
  mkCredentialScope (sc_share_cid s) (sc_share_id s) (sc_policy_cid s) (sc_node_audience s).

(** The members of the holder's message, but for its times and identifier. *)
Definition BINDING_MESSAGE_KEYS : list string :=
  ["type"; "version"; "redemptionId"; "invitationId"; "claimNonce"; "shareCid"; "shareId"; "policyCid"; "contentSource"; "contentSourceDigest";
   "emailHash"; "holderDid"; "credentialDigest"; "targetOrigin"; "nodeAudience"; "audience"; "enforcerDid"; "requestOrigin"; "challengeId";
   "challengeNonce"; "challengeRequestDigest"; "issuedAt"; "expiresAt"; "jti"].

Section Verifier.
Context `{Rfc3339} `{Sha256} `{EvidenceLib} `{JsonText}.

(** [Sha256Digest::from_bytes] is the URL-safe base 64. *)
Definition convert_evidence (e : VerifiedEmailEvidence) : result EvidenceError CredentialVerificationEvidence :=
  issuer ← ok_or (parse_did (ve_issuer e)) Evidence.Invalid;
  subject ← ok_or (parse_did_key (ve_subject e)) Evidence.Invalid;
  Ok (mkCredentialVerificationEvidence issuer subject (ve_email e) (b64url_encode (ve_digest e)) (ve_expires_at e)).

Definition verify_inner (v : ExactEmailVerifier) (credential : string) (scope : ShareScope) (holder email : string) (expiry : Z)
    : result EvidenceError CredentialVerificationEvidence :=
  _ ← ensure (match xv_expected_expiry v with Some configured => bool_decide (configured = expiry) | None => true end) CredentialExpired;
  verified ← verify_sd_jwt credential (xv_trust v) (credential_scope scope) holder email (xv_issuer v)
               (mkVerificationTime (xv_evaluation_time v) (xv_skew v) (Some expiry));
  convert_evidence verified.

Definition verify_exact_email_for (v : ExactEmailVerifier) (credential : string) (scope : ShareScope) (holder email : string) (expiry : Z)
    (m : VerificationMetrics) : result PortError CredentialVerificationEvidence * VerificationMetrics :=
  match verify_inner v credential scope holder email expiry with
  | Ok evidence => (Ok evidence, count_accepted m)
  | Err _ => (Err Denied, count_rejected m)
  end.

Definition validate_holder_binding_message (message : json) (scope : ShareScope) (email_hash credential_digest challenge_id nonce request_digest : string)
    (enforcer holder : string) : result EvidenceError unit :=
  object ← ok_or (as_object message) InvalidHolderProof;
  _ ← ensure (bool_decide (length object = length BINDING_MESSAGE_KEYS) && forallb (λ kv, bool_decide (kv.1 ∈ BINDING_MESSAGE_KEYS)) object)
        InvalidHolderProof;
  ensure (bool_decide (text_of object "type" = Some HOLDER_BINDING_TYPE) &&
          bool_decide ((obj_get "version" object ≫= as_i64) = Some 1%Z) &&
          bool_decide (text_of object "holderDid" = Some holder) &&
          bool_decide (text_of object "shareCid" = Some (sc_share_cid scope)) &&
          bool_decide (text_of object "shareId" = Some (sc_share_id scope)) &&
          bool_decide (text_of object "policyCid" = Some (sc_policy_cid scope)) &&
          bool_decide (text_of object "contentSourceDigest" = Some (sc_source_digest scope)) &&
          bool_decide (text_of object "emailHash" = Some email_hash) &&
          bool_decide (text_of object "credentialDigest" = Some credential_digest) &&
          bool_decide (text_of object "targetOrigin" = Some (sc_target_origin scope)) &&
          bool_decide (text_of object "nodeAudience" = Some (sc_node_audience scope)) &&
          bool_decide (text_of object "audience" = Some (sc_node_audience scope)) &&
          bool_decide (text_of object "enforcerDid" = Some enforcer) &&
          bool_decide (text_of object "requestOrigin" = Some (sc_target_origin scope)) &&
          bool_decide (text_of object "invitationId" = Some (sc_share_cid scope)) &&
          bool_decide (text_of object "redemptionId" = Some (sc_share_id scope)) &&
          bool_decide (text_of object "claimNonce" = Some nonce) &&
          bool_decide (text_of object "challengeId" = Some challenge_id) &&
          bool_decide (text_of object "challengeNonce" = Some nonce) &&
          bool_decide (text_of object "challengeRequestDigest" = Some request_digest) &&
          bool_decide (obj_get "contentSource" object = Some (source_value (sc_source scope)))) ScopeMismatch.

Definition validate_holder_binding_time (message : json) (now skew : Z) : result EvidenceError Z :=
  _ ← ensure (0 <=? skew)%Z InvalidHolderProof;
  issued_text ← ok_or (text_at "issuedAt" message) InvalidHolderProof;
  expires_text ← ok_or (text_at "expiresAt" message) InvalidHolderProof;
  issued ← ok_or (rfc3339_parse issued_text) InvalidHolderProof;
  expires ← ok_or (rfc3339_parse expires_text) InvalidHolderProof;
  let issued := unix_timestamp issued in
  let expires := unix_timestamp expires in
  _ ← ensure ((issued <=? saturating_i64 (now + skew))%Z && (saturating_i64 (now - skew) <? expires)%Z && (issued <? expires)%Z &&
              match text_at "jti" message with Some jti => negb (is_empty jti) | None => false end) InvalidHolderProof;
  Ok expires.

Definition expected_holder_from_message (message : json) : result PortError string :=
  holder ← ok_or (text_at "holderDid" message) Denied; ok_or (parse_did_key holder) Denied.

Definition denied {E A} (r : result E A) : result PortError A := map_err (λ _, Denied) r.

Definition verify_holder_binding (v : ExactEmailVerifier) (artifact : string) (scope : ShareScope)
    (email_hash credential_digest challenge_id nonce request_digest : string)
    (enforcer presentation_holder presentation_signer policy_session_holder read_signer : string) : result PortError HolderEquation :=
  message ← denied (verify_holder_binding_artifact artifact presentation_holder);
  _ ← denied (validate_holder_binding_message message scope email_hash credential_digest challenge_id nonce request_digest enforcer presentation_holder);
  expires ← denied (validate_holder_binding_time message (xv_evaluation_time v) (xv_skew v));
  jti ← ok_or (text_at "jti" message) Denied;
  jti ← ok_or (parse_jti jti) Denied;
  holder ← ok_or (text_at "holderDid" message) Denied;
  _ ← denied (enforce_holder_equation holder [presentation_holder; presentation_signer; policy_session_holder; read_signer]);
  subject ← expected_holder_from_message message;
  Ok (mkHolderEquation subject presentation_holder presentation_signer policy_session_holder read_signer jti expires).

Definition credential_digest_from_evidence (e : CredentialVerificationEvidence) (claimed : string) : result PortError string :=
  _ ← ensure (bool_decide (cv_digest e = claimed)) Denied; Ok (cv_digest e).

(** What is decided after the credential. *)
Definition admit_evidence (v : ExactEmailVerifier) (e : CredentialVerificationEvidence) (r : PolicySessionRequest) (claimed holder_binding : string)
    (expiry : Z) (enforcer presentation_signer read_signer : string) : result PortError VerifiedSessionAdmission :=
  _ ← ensure (bool_decide (cv_subject e = pr_holder r) && bool_decide (cv_expires_at e = expiry)) Denied;
  digest ← credential_digest_from_evidence e claimed;
  email_hash ← denied (normalized_email_hash (cv_email e));
  equation ← verify_holder_binding v holder_binding (pr_scope r) email_hash digest (pr_challenge_id r) (pr_nonce r)
               (pr_challenge_request_digest r) enforcer (pr_holder r) presentation_signer (pr_holder r) read_signer;
  _ ← ensure (bool_decide (he_credential_subject equation = cv_subject e) && (he_expires_at equation <=? expiry)%Z) Denied;
  Ok (mkVerifiedSessionAdmission r (cv_email e) digest equation).

Definition verify_session_admission (v : ExactEmailVerifier) (credential : string) (r : PolicySessionRequest) (claimed holder_binding email : string)
    (expiry : Z) (enforcer presentation_signer read_signer : string) (m : VerificationMetrics)
    : result PortError VerifiedSessionAdmission * VerificationMetrics :=
  let '(evidence, m) := verify_exact_email_for v credential (pr_scope r) (pr_holder r) email expiry m in
  (e ← evidence; admit_evidence v e r claimed holder_binding expiry enforcer presentation_signer read_signer, m).

End Verifier.

(** ** What an admission says *)

(** What the holder has signed: the share, the challenge and the credential. *)
Definition binding_fields (s : ShareScope) (email_hash credential_digest challenge_id nonce request_digest enforcer holder : string) : list (string * json) :=
  [("audience", JString (sc_node_audience s)); ("challengeId", JString challenge_id); ("challengeNonce", JString nonce);
   ("challengeRequestDigest", JString request_digest); ("claimNonce", JString nonce); ("contentSource", source_value (sc_source s));
   ("contentSourceDigest", JString (sc_source_digest s)); ("credentialDigest", JString credential_digest); ("emailHash", JString email_hash);
   ("enforcerDid", JString enforcer); ("holderDid", JString holder); ("invitationId", JString (sc_share_cid s));
   ("nodeAudience", JString (sc_node_audience s)); ("policyCid", JString (sc_policy_cid s)); ("redemptionId", JString (sc_share_id s));
   ("requestOrigin", JString (sc_target_origin s)); ("shareCid", JString (sc_share_cid s)); ("shareId", JString (sc_share_id s));
   ("targetOrigin", JString (sc_target_origin s)); ("type", JString HOLDER_BINDING_TYPE); ("version", JNumber (NInt 1))].

Section Admission.
Context `{Rfc3339} `{Sha256} `{EvidenceLib} `{JsonText}.

Lemma text_of_Some object key s : text_of object key = Some s → obj_get key object = Some (JString s).
Proof. unfold text_of. destruct (obj_get key object) as [[]|]; by intros [= ->]. Qed.

Lemma as_i64_Some v z : as_i64 v = Some z → v = JNumber (NInt z).
Proof. unfold as_i64. destruct v as [| |[]| | |]; try done. by case_bool_decide; intros [= ->]. Qed.

Lemma validate_message_Ok message scope email_hash credential_digest challenge_id nonce request_digest enforcer holder :
  validate_holder_binding_message message scope email_hash credential_digest challenge_id nonce request_digest enforcer holder = Ok tt →
  ∃ object, message = JObject object ∧ length object = length BINDING_MESSAGE_KEYS ∧
    Forall (λ kv, obj_get kv.1 object = Some kv.2) (binding_fields scope email_hash credential_digest challenge_id nonce request_digest enforcer holder).
Proof.
  unfold validate_holder_binding_message. intros Hv. apply bind_Ok in Hv as (object & Ho%ok_or_Ok & Hv).
  apply bind_Ok in Hv as (_ & [Hlen%bool_decide_eq_true _]%ensure_Ok%andb_true_iff & Hv). apply ensure_Ok in Hv.
  rewrite !andb_true_iff, !bool_decide_eq_true in Hv. destruct message; try done. injection Ho as ->. exists object. split_and!; [done|done|].
  destruct_and?. repeat match goal with Hx : text_of _ _ = _ |- _ => apply text_of_Some in Hx end.
  match goal with Hx : _ ≫= as_i64 = _ |- _ => destruct (obj_get "version" object) as [ver|] eqn:Hver; [|done]; apply as_i64_Some in Hx; subst ver end.
  repeat constructor; assumption.
Qed.

Lemma enforce_Ok first rest h : enforce_holder_equation first rest = Ok h → Forall (λ x, x = first) rest.
Proof.
  unfold enforce_holder_equation. intros He. apply bind_Ok in He as (_ & [Hf _]%ensure_Ok%andb_true_iff & _).
  apply Forall_forall. intros x Hx%list_elem_of_In. rewrite forallb_forall in Hf. specialize (Hf x Hx). by apply bool_decide_eq_true in Hf.
Qed.

Lemma parse_string_Some valid s t : parse_string valid s = Some t → t = s.
Proof. unfold parse_string. by case_match; intros [= ->]. Qed.

Lemma validate_time_Ok message now skew expires :
  validate_holder_binding_time message now skew = Ok expires →
  ∃ issued_at expires_at, (text_at "issuedAt" message ≫= rfc3339_parse) = Some issued_at ∧ (text_at "expiresAt" message ≫= rfc3339_parse) = Some expires_at ∧
    expires = unix_timestamp expires_at ∧ (unix_timestamp issued_at < expires)%Z ∧ (unix_timestamp issued_at ≤ saturating_i64 (now + skew))%Z ∧
    (saturating_i64 (now - skew) < expires)%Z.
Proof.
  unfold validate_holder_binding_time. intros Hv. apply bind_Ok in Hv as (_ & _ & Hv). apply bind_Ok in Hv as (it & ->%ok_or_Ok & Hv).
  apply bind_Ok in Hv as (et & ->%ok_or_Ok & Hv). apply bind_Ok in Hv as (i & Hi%ok_or_Ok & Hv). apply bind_Ok in Hv as (e & He%ok_or_Ok & Hv).
  apply bind_Ok in Hv as (_ & Hb%ensure_Ok & Hv). injection Hv as <-. rewrite !andb_true_iff in Hb. destruct Hb as [[[]]].
  exists i, e. cbn [mbind option_bind]. split_and!; try done; lia.
Qed.

(** What a verified binding says of the request [r]. *)
Definition binding_signed (v : ExactEmailVerifier) (r : PolicySessionRequest) (email_hash credential_digest enforcer : string) (binding : string)
    (jti : string) (expires : Z) : Prop :=
  ∃ object issued_at expires_at,
    verify_holder_binding_artifact binding (pr_holder r) = Ok (JObject object) ∧ length object = length BINDING_MESSAGE_KEYS ∧
    Forall (λ kv, obj_get kv.1 object = Some kv.2)
      (binding_fields (pr_scope r) email_hash credential_digest (pr_challenge_id r) (pr_nonce r) (pr_challenge_request_digest r) enforcer (pr_holder r)) ∧
    obj_get "jti" object = Some (JString jti) ∧
    (text_of object "issuedAt" ≫= rfc3339_parse) = Some issued_at ∧ (text_of object "expiresAt" ≫= rfc3339_parse) = Some expires_at ∧
    expires = unix_timestamp expires_at ∧ (unix_timestamp issued_at < expires)%Z ∧
    (unix_timestamp issued_at ≤ saturating_i64 (xv_evaluation_time v + xv_skew v))%Z ∧
    (saturating_i64 (xv_evaluation_time v - xv_skew v) < expires)%Z.

Lemma denied_Ok {E A} (r : result E A) x : denied r = Ok x → r = Ok x.
Proof. unfold denied. destruct r; simpl; by intros [= ->]. Qed.

Lemma verify_holder_binding_Ok v binding r email_hash digest enforcer psigner rsigner e :
  verify_holder_binding v binding (pr_scope r) email_hash digest (pr_challenge_id r) (pr_nonce r) (pr_challenge_request_digest r) enforcer
    (pr_holder r) psigner (pr_holder r) rsigner = Ok e →
  binding_signed v r email_hash digest enforcer binding (he_jti e) (he_expires_at e) ∧
  e = mkHolderEquation (pr_holder r) (pr_holder r) (pr_holder r) (pr_holder r) (pr_holder r) (he_jti e) (he_expires_at e).
Proof.
  unfold verify_holder_binding. intros Hv. apply bind_Ok in Hv as (message & Hart%denied_Ok & Hv).
  apply bind_Ok in Hv as ([] & (object & -> & Hlen & Hfields)%denied_Ok%validate_message_Ok & Hv).
  apply bind_Ok in Hv as (expires & (i & ex & Hi & Hex & ? & ? & ? & ?)%denied_Ok%validate_time_Ok & Hv).
  apply bind_Ok in Hv as (jti & Hjti%ok_or_Ok & Hv). apply bind_Ok in Hv as (jti' & Hpj%ok_or_Ok & Hv).
  apply bind_Ok in Hv as (holder & Hh%ok_or_Ok & Hv). apply bind_Ok in Hv as (? & Heq%denied_Ok%enforce_Ok & Hv).
  apply bind_Ok in Hv as (subject & Hs & Hv). injection Hv as <-. cbn [he_jti he_expires_at].
  unfold parse_jti, parse_fixed in Hpj. apply bind_Some in Hpj as (? & _ & Hpj). case_match; [|done]. injection Hpj as <-.
  unfold text_at in *. cbn [as_object mbind option_bind] in *.
  unfold expected_holder_from_message, text_at in Hs. cbn [as_object mbind option_bind] in Hs. rewrite Hh in Hs. cbn [ok_or] in Hs. rewrite bind_ret_l in Hs.
  apply ok_or_Ok, parse_string_Some in Hs. inversion_clear Heq as [|? ? <- Heq']. inversion_clear Heq' as [|? ? -> Heq]. inversion_clear Heq as [|? ? _ Heq'].
  inversion_clear Heq' as [|? ? -> _]. subst subject. split; [|done]. exists object, i, ex. split_and!; try done. by apply text_of_Some.
Qed.

(** An admission is bound to one holder, credential and challenge.  When a
    session is admitted, the credential is one the trusted issuer signed for the
    holder, the share of the request and the expected address, with the expected
    expiry; the same holder has signed, in time, a binding whose members are those of
    the scope and the challenge of the request, that credential and the enforcer;
    the five holders are one; and the binding does not outlive the credential. *)
Theorem admission_bound (v : ExactEmailVerifier) (credential : string) (r : PolicySessionRequest) (claimed binding email : string) (expiry : Z)
    (enforcer psigner rsigner : string) (m m' : VerificationMetrics) (a : VerifiedSessionAdmission) :
  verify_session_admission v credential r claimed binding email expiry enforcer psigner rsigner m = (Ok a, m') →
  ∃ evidence email_hash jti binding_expiry,
    verify_sd_jwt credential (xv_trust v) (credential_scope (pr_scope r)) (pr_holder r) email (xv_issuer v)
      (mkVerificationTime (xv_evaluation_time v) (xv_skew v) (Some expiry)) = Ok evidence ∧
    ve_subject evidence = pr_holder r ∧ ve_expires_at evidence = expiry ∧ normalized_email_hash (ve_email evidence) = Ok email_hash ∧
    b64url_encode (ve_digest evidence) = claimed ∧
    binding_signed v r email_hash claimed enforcer binding jti binding_expiry ∧ (binding_expiry ≤ expiry)%Z ∧
    a = mkVerifiedSessionAdmission r (ve_email evidence) claimed
          (mkHolderEquation (pr_holder r) (pr_holder r) (pr_holder r) (pr_holder r) (pr_holder r) jti binding_expiry) ∧
    m' = count_accepted m.
Proof.
  unfold verify_session_admission, verify_exact_email_for, verify_inner.
  destruct (ensure _ _ ≫= _) as [evidence|] eqn:Hin; [|by intros [=]]. intros [= Ha <-].
  apply bind_Ok in Hin as (_ & _ & Hin). apply bind_Ok in Hin as (verified & Hsd & Hc). unfold convert_evidence in Hc.
  apply bind_Ok in Hc as (issuer & _ & Hc). apply bind_Ok in Hc as (subject & Hsub%ok_or_Ok%parse_string_Some & Hc). injection Hc as <-. subst subject.
  unfold admit_evidence, credential_digest_from_evidence in Ha. cbn [cv_subject cv_expires_at cv_digest cv_email] in Ha.
  apply bind_Ok in Ha as (_ & [Hholder%bool_decide_eq_true Hexp%bool_decide_eq_true]%ensure_Ok%andb_true_iff & Ha).
  apply bind_Ok in Ha as (digest & Hd & Ha). apply bind_Ok in Hd as (_ & Hclaim%ensure_Ok%bool_decide_eq_true & Hd). injection Hd as <-.
  apply bind_Ok in Ha as (email_hash & Hhash%denied_Ok & Ha). apply bind_Ok in Ha as (equation & [Hb He]%verify_holder_binding_Ok & Ha).
  apply bind_Ok in Ha as (_ & [_ Hle%Z.leb_le]%ensure_Ok%andb_true_iff & Ha). injection Ha as <-.
  exists verified, email_hash, (he_jti equation), (he_expires_at equation). rewrite Hclaim in *. split_and!; try done. by rewrite <- He.
Qed.

End Admission.

(** ** An admitted session *)

Definition demo_holder : string := "did:key:z6MktwupdmLXVVqTzCw4i46r4uGyosGXRnR3XjN4Zq7oMMsw".
Definition demo_share_lib : EvidenceLib :=
  {| b64url_encode := λ s, s; b64url_decode := Some;
     multibase_decode := λ s, match s with String _ s => bytes_string <$> base58_decode s | "" => None end; ed25519_verify := λ _ _ _, true |}.
#[local] Existing Instances demo_sha demo_share_lib demo_instant.

Definition demo_scope : ShareScope :=
  mkShareScope "c" "i" (Some "d") "amh_1" "material" "p" "n" "https://node.example" KvGet (KvResource "docs/a.md") (KvSource "did:web:alice.example" "docs/a.md") "source".
Definition demo_session_request : PolicySessionRequest :=
  mkPolicySessionRequest demo_scope demo_holder "nonce" "presentation" "challenge" "request" JNull "recipient" 200.

Definition demo_share_credential : string := "H.P." +:+ demo_signature +:+ "~D~".
Definition demo_message : json :=
  JObject (foldr (λ kv m, obj_insert kv.1 kv.2 m)
    (binding_fields demo_scope "a@x.org" demo_share_credential "challenge" "nonce" "request" "enforcer" demo_holder)
    [("issuedAt", JString "100000000000"); ("expiresAt", JString "180000000000"); ("jti", JString "0123456789abcdef")]).
Definition demo_canonical : string := match jcs demo_message with Ok s => s | Err _ => "" end.
Definition demo_binding : json :=
  JObject [("domain", JString HOLDER_BINDING_DOMAIN); ("jcs", JString demo_canonical); ("message", demo_message);
           ("messageDigest", JString demo_canonical); ("name", JString HOLDER_BINDING_NAME);
           ("signature", JObject [("alg", JString EDDSA); ("kid", JString (demo_holder +:+ "#z6MktwupdmLXVVqTzCw4i46r4uGyosGXRnR3XjN4Zq7oMMsw"));
                                  ("value", JString demo_signature)]);
           ("signatureDigest", JString demo_signature); ("signedBytesDigest", JString (HOLDER_BINDING_DOMAIN +:+ demo_canonical));
           ("signerDid", JString demo_holder)].
Definition demo_share_text : JsonText :=
  {| json_read := λ s,
       (if decide (s = "H") then RObject [("alg", RString EDDSA)] true
        else if decide (s = "P") then
          RObject [("iss", RString "did:web:issuer.credentials.org"); ("sub", RString demo_holder); ("iat", RInt 100);
                   ("nbf", RInt 100); ("exp", RInt 200); ("jti", RString "j"); ("vct", RString EMAIL_VCT);
                   ("tinycloud_share", RObject [("share_cid", RString "c"); ("share_id", RString "i");
                                                ("policy_cid", RString "p"); ("node_audience", RString "n")] true);
                   ("_sd_alg", RString SD_ALG); ("_sd", RArray [RString "D"] true)] true
        else if decide (s = "D") then RArray [RString "0123456789abcdef"; RString "email"; RString "a@X.org"] true
        else if decide (s = "B") then raw_of demo_binding
        else RBad, true);
     float_unsafe := λ _, false |}.
#[local] Existing Instance demo_share_text.

Definition demo_exact_verifier : ExactEmailVerifier :=
  mkExactEmailVerifier (demo_registry [demo_key 1 "a#1" true]) "did:web:issuer.credentials.org" 150 5 None.
Definition demo_admission : VerifiedSessionAdmission :=
  mkVerifiedSessionAdmission demo_session_request "a@x.org" demo_share_credential
    (mkHolderEquation demo_holder demo_holder demo_holder demo_holder demo_holder "0123456789abcdef" 180).

Lemma admission_bound_witness :
  ∃ jti expires, binding_signed demo_exact_verifier demo_session_request "a@x.org" demo_share_credential "enforcer" "B" jti expires ∧ (expires ≤ 200)%Z.
Proof.
  destruct (admission_bound demo_exact_verifier demo_share_credential demo_session_request demo_share_credential "B" "a@x.org" 200 "enforcer"
    demo_holder demo_holder (mkVerificationMetrics 0 0) (mkVerificationMetrics 0 1) demo_admission)
    as (evidence & hash & jti & expires & Hv & _ & _ & Hh & _ & Hb & Hle & _); [vm_compute; reflexivity|].
  exists jti, expires. split; [|exact Hle]. vm_compute in Hv. injection Hv as <-. vm_compute in Hh. injection Hh as <-. exact Hb.
Defined.
