(* ===== verification/ShareBridge.v ===== *)
(** * Email shares, authority bridge: tinycloud-core/src/share_email/bridge.rs

    [DatabaseAuthorityBridge117]: the admission of a session and the authorization
    of a read, each one transaction over the policy authority's tables and the
    protocol's own.  A transaction answers the new tables, or an error and then
    nothing has changed.  The three providers (authority material, status and
    attestation) are arguments: a record of what they answer while one validation
    runs, so that another validation may be given other answers. *)
From S2P Require Import Prelude Str Chars Identity Json Registry SqlCaveat Tables Jcs PolicyCapability Evidence PolicyDelegation PolicyMemory PolicyDatabase PolicyVerifier ShareTypes ShareInvitation ShareState ShareVerifier.

(** ** Providers *)

Record AuthorityMaterialBundle := mkBundle {
  bu_handle : string;
  bu_digest : string;
  bu_policy_authority : string;
  bu_policy_enforcement : string;
  bu_policy_state : string;
  bu_authority_cid : string;
  bu_enforcement_cid : string;
  bu_delegation_cid : string;
}.

(** [None] is a provider that is not configured or not healthy; [pv_resolve] is
    [resolve_exact]. *)
Record Providers := mkProviders {
  pv_resolve : option (string → string → string → string → result PortError AuthorityMaterialBundle);
  pv_refresh : option (string → result PortError string);
  pv_attest : option (string → string → result PortError string);
}.

(** [resolve_exact] where a provider leaves it to [resolve]. *)
Definition resolve_exact (resolve : string → string → result PortError AuthorityMaterialBundle) (policy delegation handle digest : string)
    : result PortError AuthorityMaterialBundle :=
  bundle ← resolve policy delegation;
  _ ← ensure (bool_decide (bu_handle bundle = handle) && bool_decide (bu_digest bundle = digest)) Denied;
  Ok bundle.

Definition map_authority_error (e : AuthorityError) : PortError :=
  match e with AuthorityStateUnavailable | TransactionFailed => PortStorage | _ => Denied end.
Definition map_state_error (e : StateError) : PortError :=
  match e with Storage => PortStorage | Replayed => Replay | _ => Denied end.

(** The errors of the two stores as errors of the port. *)
Definition authority {A} (r : result AuthorityError A) : result PortError A := map_err map_authority_error r.
Definition protocol {A} (r : result StateError A) : result PortError A := map_err map_state_error r.

(** ** Wire records: [serde_json::from_slice] of a struct with [deny_unknown_fields] *)

(** An object with every key known and none repeated, or an array of the fields. *)
Definition raw_fields (names : list string) (r : raw) : option (list (string * raw)) :=
  match r with
  | RObject m true => if bool_decide (NoDup m.*1) && forallb (λ kv, bool_decide (kv.1 ∈ names)) m then Some m else None
  | RArray l true => if bool_decide (length l = length names) then Some (zip names l) else None
  | _ => None
  end.

Definition raw_get (key : string) (m : list (string * raw)) : option raw := snd <$> List.find (λ kv, bool_decide (kv.1 = key)) m.
Definition raw_str (key : string) (m : list (string * raw)) : option string := match raw_get key m with Some (RString s) => Some s | _ => None end.
Definition raw_uint (key : string) (max : N) (m : list (string * raw)) : option N :=
  match raw_get key m with
  | Some (RInt z) => if ((0 <=? z) && (z <=? Z.of_N max))%Z then Some (Z.to_N z) else None
  | _ => None
  end.
Definition raw_opt_str (key : string) (m : list (string * raw)) : option (option string) :=
  match raw_get key m with
  | None | Some RNull => Some None
  | Some (RString s) => Some (Some s)
  | _ => None
  end.

Record AuthoritySignatureWire := mkSignatureWire { sw_alg : string; sw_kid : string; sw_value : string }.

Definition read_signature (m : list (string * raw)) : option AuthoritySignatureWire :=
  r ← raw_get "signature" m;
  m ← raw_fields ["alg"; "kid"; "value"] r;
  alg ← raw_str "alg" m; kid ← raw_str "kid" m; value ← raw_str "value" m;
  Some (mkSignatureWire alg kid value).

Record AuthorityStatusWire := mkStatusWire {
  tw_kind : string; tw_version : N; tw_parent_cid : string; tw_sequence : N; tw_state : string; tw_checked_at : string;
  tw_fresh_until : string; tw_revoked_at : option string; tw_signer_kid : string; tw_signer_version : N; tw_signature : AuthoritySignatureWire;
}.

Definition STATUS_FIELDS : list string :=
  ["type"; "version"; "parentCid"; "sequence"; "state"; "checkedAt"; "freshUntil"; "revokedAt"; "signerKid"; "signerVersion"; "signature"].

Record AttestationWire := mkAttestationWire {
  aw_kind : string; aw_version : N; aw_target_origin : string; aw_node_audience : string; aw_enforcer_did : string; aw_enforcer_kid : string;
  aw_public_key : string; aw_key_version : N; aw_local_signer_did : string; aw_local_signer_kid : string; aw_measurement : string;
  aw_measurement_digest : string; aw_expires_at : string; aw_enrollment_digest : string; aw_signature : AuthoritySignatureWire;
}.

Definition ATTESTATION_FIELDS : list string :=
  ["type"; "version"; "targetOrigin"; "nodeAudience"; "enforcerDid"; "enforcerKid"; "publicKey"; "keyVersion"; "localSignerDid"; "localSignerKid";
   "measurement"; "measurementDigest"; "expiresAt"; "enrollmentDigest"; "signature"].

Section Wire.
Context `{JsonText}.

Definition read_document (bytes : string) : option raw := let '(r, ended) := json_read bytes in if ended : bool then Some r else None.

Definition read_status (bytes : string) : option AuthorityStatusWire :=
  r ← read_document bytes;
  m ← raw_fields STATUS_FIELDS r;
  kind ← raw_str "type" m; version ← raw_uint "version" 255 m; parent ← raw_str "parentCid" m; sequence ← raw_uint "sequence" u64_max m;
  state ← raw_str "state" m; checked ← raw_str "checkedAt" m; fresh ← raw_str "freshUntil" m; revoked ← raw_opt_str "revokedAt" m;
  kid ← raw_str "signerKid" m; signer_version ← raw_uint "signerVersion" u64_max m; signature ← read_signature m;
  Some (mkStatusWire kind version parent sequence state checked fresh revoked kid signer_version signature).

Definition read_attestation (bytes : string) : option AttestationWire :=
  r ← read_document bytes;
  m ← raw_fields ATTESTATION_FIELDS r;
  kind ← raw_str "type" m; version ← raw_uint "version" 255 m; origin ← raw_str "targetOrigin" m; audience ← raw_str "nodeAudience" m;
  enforcer ← raw_str "enforcerDid" m; enforcer_kid ← raw_str "enforcerKid" m; key ← raw_str "publicKey" m;
  key_version ← raw_uint "keyVersion" u64_max m; signer ← raw_str "localSignerDid" m; signer_kid ← raw_str "localSignerKid" m;
  measurement ← raw_str "measurement" m; measurement_digest ← raw_str "measurementDigest" m; expires ← raw_str "expiresAt" m;
  enrollment ← raw_str "enrollmentDigest" m; signature ← read_signature m;
  Some (mkAttestationWire kind version origin audience enforcer enforcer_kid key key_version signer signer_kid measurement measurement_digest expires
          enrollment signature).

End Wire.

(** [str::trim_start_matches] of a text. *)
Fixpoint trim_start_text (fuel : nat) (p s : string) : string :=
  match fuel with
  | 0 => s
  | S fuel => match strip_prefix p s with Some r => trim_start_text fuel p r | None => s end
  end.

(** ** Identifiers and instants *)

Definition ISSUANCE_ALPHABET : string := "abcdefghijklmnopqrstuvwxyz234567".

(** The letters taken while five bits are there and the text is short of 32; the
    buffer is a [u32]. *)
Fixpoint take_letters (fuel : nat) (buffer bits : N) (output : string) : N * string :=
  match fuel with
  | 0 => (bits, output)
  | S fuel =>
      if (5 <=? bits)%N && (String.length output <? 32)%nat then
        let bits := (bits - 5)%N in
        let letter := default "a"%char (String.get (N.to_nat (N.land (N.shiftr buffer bits) 31)) ISSUANCE_ALPHABET) in
        take_letters fuel buffer bits (output +:+ String letter "")
      else (bits, output)
  end.

Fixpoint issuance_letters (bytes : list N) (buffer bits : N) (output : string) : string :=
  match bytes with
  | [] => output
  | byte :: bytes =>
      let buffer := N.lor (N.shiftl buffer 8 mod 2 ^ 32) byte in
      let '(bits, output) := take_letters 3 buffer (bits + 8) output in
      issuance_letters bytes buffer bits output
  end.

(** Three letters are all that fewer than fifteen bits have: no more fuel is used. *)
Lemma take_letters_enough fuel buffer bits output : (bits < 15)%N → take_letters (3 + fuel) buffer bits output = take_letters 3 buffer bits output.
Proof.
  intros Hb. assert (∀ k o b, (b < 5)%N → take_letters k buffer b o = (b, o)) as Hdone.
  { intros [|k] o b Hlt; [done|]. cbn [take_letters]. by rewrite (proj2 (N.leb_gt 5 b)) by lia. }
  cbn [take_letters Nat.add]. do 3 (destruct ((5 <=? _)%N && _); [|done]). apply Hdone. lia.
Qed.

Fixpoint repeat_char (n : nat) (c : ascii) : string := match n with 0 => "" | S n => String c (repeat_char n c) end.
Definition next_issuance_id (bytes : list N) : string :=
  let output := issuance_letters bytes 0 0 "peiss_" in output +:+ repeat_char (32 - String.length output) "a".

(** [OffsetDateTime::from_unix_timestamp]: the years -9999 to 9999. *)
Definition from_unix_timestamp (t : Z) : option Z := if ((-377705116800 <=? t) && (t <=? 253402300799))%Z then Some (seconds t) else None.

(** [replace_nanosecond(0)]. *)
Definition authority_timestamp_value (t : Z) : Z := seconds (t / 1000000000).

(** [parse::<i64>] and [parse::<u8>]. *)
Definition parse_i64 (s : string) : option Z :=
  match strip_prefix "-" s with
  | Some digits => if is_empty digits then None else n ← parse_digits 0 digits; checked_i64 (- Z.of_N n)
  | None => n ← parse_u64 s; checked_i64 (Z.of_N n)
  end.
Definition parse_u8 (s : string) : option N := n ← parse_u64 s; if (n <=? 255)%N then Some n else None.

Section Bridge.
Context `{Rfc3339} `{ShareTime} `{Nfc} `{FloatText} `{Sha256} `{DbTime} `{JsonText} `{EvidenceLib} `{Blake3} `{CidLib} `{Keccak256} `{Recover}.

(** ** Status and attestation *)

Definition instant (text : string) : result PortError Z := ok_or (rfc3339_parse text) Denied.

Definition signature_ok (s : AuthoritySignatureWire) (kid : string) : bool :=
  bool_decide (sw_alg s = "EdDSA") && bool_decide (sw_kid s = kid) && bool_decide (is_Some (parse_fixed 64 (sw_value s))).

Definition parse_status (bytes expected_cid : string) (now : Z) : result PortError database.AuthorityStatusObservation :=
  w ← ok_or (read_status bytes) Denied;
  _ ← ensure (bool_decide (tw_kind w = "TinyCloudShareAuthorityStatusObservation") && (tw_version w =? 1)%N &&
              bool_decide (tw_parent_cid w = expected_cid) && bool_decide (tw_state w ∈ ["active"; "revoked"]) &&
              negb (tw_signer_version w =? 0)%N && signature_ok (tw_signature w) (tw_signer_kid w)) Denied;
  checked ← instant (tw_checked_at w);
  fresh ← instant (tw_fresh_until w);
  revoked ← match tw_revoked_at w with Some text => t ← instant text; Ok (Some t) | None => Ok None end;
  _ ← ensure (bool_decide (tw_state w = "revoked" ↔ is_Some revoked) && (checked <=? now)%Z && (now <? fresh)%Z &&
              match revoked with Some t => ((checked <=? t) && (t <=? now))%Z | None => true end) Denied;
  Ok (database.mkObservation checked (tw_sequence w) revoked fresh).

Definition attestation_binding (w : AttestationWire) : json :=
  JObject [("enforcerDid", JString (aw_enforcer_did w)); ("enforcerKid", JString (aw_enforcer_kid w));
           ("keyVersion", JNumber (NInt (Z.of_N (aw_key_version w)))); ("nodeAudience", JString (aw_node_audience w));
           ("targetOrigin", JString (aw_target_origin w))].

Definition validate_attestation (bytes origin audience enforcer expected_digest enforcement_expires : string) (now : Z) : result PortError unit :=
  w ← ok_or (read_attestation bytes) Denied;
  expires ← instant (aw_expires_at w);
  enforcement_expires ← instant enforcement_expires;
  ensure (bool_decide (aw_kind w = "TinyCloudShareEnrollmentRuntimeAttestation") && (aw_version w =? 1)%N &&
          bool_decide (aw_target_origin w = origin) && bool_decide (aw_node_audience w = audience) && bool_decide (aw_enforcer_did w = enforcer) &&
          starts_with audience (aw_enforcer_kid w) && bool_decide (aw_local_signer_did w = enforcer) &&
          bool_decide (aw_local_signer_kid w = enforcer +:+ "#" +:+ trim_start_text (String.length enforcer) "did:key:" enforcer) &&
          negb (is_empty (aw_public_key w)) && negb (aw_key_version w =? 0)%N && negb (is_empty (aw_measurement w)) &&
          negb (is_empty (aw_measurement_digest w)) && negb (is_empty (aw_enrollment_digest w)) &&
          signature_ok (aw_signature w) (aw_local_signer_kid w) &&
          bool_decide (sha256_b64 (canonicalize (attestation_binding w)) = expected_digest) &&
          (now <? expires)%Z && (expires <=? enforcement_expires)%Z) Denied.

(** ** The policy document *)

(** The recipient and the earlier of the two expiries. *)
Definition policy_metadata (artifact : PolicyDelegation) (share_policy : string) : option (string * Z) :=
  policy ← read_json share_policy;
  recipient ← text_at "recipientEmail" policy;
  recipient ← match normalize_email recipient with Ok e => Some e | Err _ => None end;
  expiry ← rfc3339_parse (pd_expires_at artifact);
  Some (recipient, match text_at "expiresAt" policy ≫= rfc3339_parse with Some t => Z.min t expiry | None => expiry end).

Definition validate_share_policy_state (bytes : string) (scope : ShareScope) : result PortError unit :=
  value ← ok_or (read_json bytes) Denied;
  ensure (bool_decide (text_at "type" value = Some "TinyCloudSharePolicy") &&
          bool_decide ((as_object value ≫= obj_get "version") = Some (JNumber (NInt 1))) &&
          bool_decide ((as_object value ≫= obj_get "contentSource") = Some (source_value (sc_source scope))) &&
          bool_decide (text_at "contentSourceDigest" value = Some (sc_source_digest scope)) &&
          bool_decide (text_at "action" value = Some (action_name (sc_action scope))) &&
          bool_decide (text_at "resource" value = Some (resource_name (sc_resource scope)))) Denied.

(** ** The grants *)

Definition requested_capability (scope : ShareScope) : result PortError PolicyCapability :=
  let '(service, action) := match sc_source scope with
                            | KvSource _ _ => ("tinycloud.kv", KV_GET_ACTION)
                            | SqlSource _ _ _ _ _ _ => ("tinycloud.sql", SQL_READ_ACTION)
                            end in
  denied (parse (JObject [("actions", JArray [JString action]); ("path", JString (source_path (sc_source scope))); ("service", JString service);
                          ("space", JString (source_space (sc_source scope)))])).

(** A fixed parameter against the arguments, in key order. *)
Definition fixed_matches (arguments : list (string * Z)) (fp : FixedParam) : bool :=
  (0 <=? fp_index fp)%Z &&
  match arguments !! Z.to_nat (fp_index fp) with Some (_, n) => bool_decide (as_i64 (fp_value fp) = Some n) | None => false end.

Definition statement_from_grant (grant : PolicyCapability) (scope : ShareScope) : result PortError (option PinnedNamedStatement) :=
  match sc_source scope with
  | KvSource _ _ => Ok None
  | SqlSource _ database path statement arguments _ =>
      caveat ← ok_or (v ← pc_caveats grant; match parse_sql_caveat v with Ok c => Some c | Err _ => None end) Denied;
      constrained ← ok_or (find_statement statement (statements caveat)) Denied;
      _ ← ensure (bool_decide (length (fixed_params constrained) = length arguments) && forallb (fixed_matches arguments) (fixed_params constrained)) Denied;
      Ok (Some (mkPinnedNamedStatement database path constrained))
  end.

Definition statement_json (st : ConstrainedStatement) : json :=
  JObject [("fixedParams", JArray ((λ fp, JObject [("index", JNumber (NInt (fp_index fp))); ("value", fp_value fp)]) <$> fixed_params st));
           ("name", JString (st_name st)); ("sql", JString (st_sql st))].

Definition with_caveats (c : PolicyCapability) (v : json) : PolicyCapability :=
  mkPolicyCapability (pc_service c) (pc_space c) (pc_path c) (pc_actions c) (Some v).

Definition request_for_grant (scope : ShareScope) (request grant : PolicyCapability) : result PortError PolicyCapability :=
  match sc_action scope with
  | SqlRead =>
      pinned ← statement_from_grant grant scope;
      pinned ← ok_or pinned Denied;
      Ok (with_caveats request (JObject [("mode", JString "constrained-statements"); ("readOnly", JBool true);
                                         ("statements", JArray [statement_json (pn_statement pinned)])]))
  | KvGet => Ok request
  end.

(** The grants of one delegation in turn: whether one contains the request, and the
    statement of the first grant of all that does. *)
Fixpoint match_grants (scope : ShareScope) (request : PolicyCapability) (grants : list PolicyCapability) (matched : bool)
    (statement : option PinnedNamedStatement) : result PortError (bool * option PinnedNamedStatement) :=
  match grants with
  | [] => Ok (matched, statement)
  | grant :: grants =>
      wanted ← request_for_grant scope request grant;
      if is_ok (contains grant wanted) then
        statement ← match statement with Some _ => Ok statement | None => statement_from_grant grant scope end;
        match_grants scope request grants true statement
      else match_grants scope request grants matched statement
  end.

Definition authorized_statement (scope : ShareScope) (policy delegation : PolicyDelegation) : result PortError (option PinnedNamedStatement) :=
  request ← requested_capability scope;
  policy_grants ← denied (try_map parse (pd_capabilities policy));
  delegation_grants ← denied (try_map parse (pd_capabilities delegation));
  '(policy_matched, statement) ← match_grants scope request policy_grants false None;
  '(delegation_matched, statement) ← match_grants scope request delegation_grants false statement;
  _ ← ensure (policy_matched && delegation_matched) Denied;
  Ok statement.

(** ** Validation of a scope *)

Definition scope_digest (scope : ShareScope) : string := sha256_b64 (canonicalize (scope_value scope)).
Definition digest_string (value : string) : string := sha256_b64 value.
Definition holder_digest (holder : string) : string := sha256_b64 holder.

Definition SHA2_256 : N := 18.
Definition policy_state_cid (bytes : string) : string := cid_to_string (mkCid 1 RAW_CODEC (mkHash SHA2_256 (sha256_bytes bytes))).

Definition provider {A} (p : option A) : result PortError A := ok_or p Unavailable.

(** The policy document is canonical, has the CID of the scope's policy and is the
    one the owner signed. *)
Definition check_policy_state (bundle : AuthorityMaterialBundle) (policy_cid : string) (signed_policy : PolicyDelegation) : result PortError unit :=
  value ← ok_or (read_json (bu_policy_state bundle)) Denied;
  _ ← ensure (bool_decide (canonicalize value = bu_policy_state bundle)) Denied;
  _ ← ensure (bool_decide (policy_state_cid (canonicalize value) = policy_cid)) Denied;
  digest ← denied (fact signed_policy "policyDigestHex");
  ensure (bool_decide (digest = hex_encode (sha256_digest (canonicalize value)))) Denied.

(** The delegation of the share belongs to the policy. *)
Definition paired_roots (policy delegation : PolicyDelegation) : bool :=
  bool_decide (pd_role delegation = PolicyEnforcement) && bool_decide (pd_issuer delegation = pd_issuer policy) &&
  bool_decide (pd_capabilities delegation = pd_capabilities policy) &&
  forallb (λ name, bool_decide (pd_facts delegation !! (POLICY_PREFIX +:+ name) = pd_facts policy !! (POLICY_PREFIX +:+ name)))
    ["ownerDid"; "policyId"; "policyDigestHex"].

Definition delegation_of_policy (policy_cid delegation_cid : string) (policy delegation : PolicyDelegation) : bool :=
  bool_decide (delegation_cid = policy_cid) || bool_decide (policy_cid ∈ pd_proofs delegation) ||
  bool_decide (pd_facts delegation !! "policyDelegationCid" = Some policy_cid) || paired_roots policy delegation.

Definition validate_scope_in_transaction (P : Providers) (scope : ShareScope) (now : Z) (s : database.DbState)
    : result PortError (Z * string * option PinnedNamedStatement * string * database.DbState) :=
  share_delegation ← ok_or (sc_delegation_cid scope) Denied;
  resolve ← provider (pv_resolve P);
  refresh ← provider (pv_refresh P);
  attest ← provider (pv_attest P);
  bundle ← resolve (sc_policy_cid scope) share_delegation (sc_material_handle scope) (sc_material_digest scope);
  _ ← validate_share_policy_state (bu_policy_state bundle) scope;
  signed_policy ← authority (verify (bu_policy_authority bundle));
  signed_enforcement ← authority (verify (bu_policy_enforcement bundle));
  _ ← ensure (bool_decide (pd_cid signed_policy = bu_authority_cid bundle) &&
              bool_decide (pd_cid signed_enforcement = bu_enforcement_cid bundle)) Denied;
  _ ← check_policy_state bundle (sc_policy_cid scope) signed_policy;
  '(recipient, expiry) ← ok_or (policy_metadata signed_policy (bu_policy_state bundle)) Denied;
  _ ← ensure (bool_decide (pd_audience signed_policy = sc_node_audience scope)) Denied;
  audience ← denied (fact signed_enforcement "nodeAudience");
  _ ← ensure (bool_decide (audience = sc_node_audience scope)) Denied;
  enforcer ← denied (fact signed_enforcement "enforcerDid");
  enforcer ← ok_or (parse_did_key enforcer) Denied;
  status_bytes ← refresh (bu_authority_cid bundle);
  status ← parse_status status_bytes (bu_authority_cid bundle) now;
  policy_state ← authority (policy_state_from_verified signed_policy signed_enforcement (database.ob_checked_at status) expiry);
  _ ← authority (validate_authority_pair signed_policy signed_enforcement policy_state enforcer);
  s ← authority (database.admit_verified_authority_in_transaction signed_policy status now s s);
  status_bytes ← refresh (bu_enforcement_cid bundle);
  enforcement_status ← parse_status status_bytes (bu_enforcement_cid bundle) now;
  s ← authority (database.admit_verified_authority_in_transaction signed_enforcement enforcement_status now s s);
  attestation ← attest (sc_node_audience scope) enforcer;
  binding_digest ← denied (fact signed_enforcement "attestationBindingDigestHex");
  _ ← validate_attestation attestation (sc_target_origin scope) (sc_node_audience scope) enforcer binding_digest (pd_expires_at signed_enforcement) now;
  _ ← authority (database.validate_for_invocation_in_transaction s (bu_authority_cid bundle) now);
  _ ← authority (database.validate_for_invocation_in_transaction s (bu_delegation_cid bundle) now);
  policy ← authority (database.artifact s (bu_authority_cid bundle));
  delegation ← authority (database.artifact s (bu_delegation_cid bundle));
  _ ← ensure (delegation_of_policy (bu_authority_cid bundle) (bu_delegation_cid bundle) policy delegation) Denied;
  statement ← authorized_statement scope policy delegation;
  Ok (expiry, recipient, statement, bu_delegation_cid bundle, s).

(** ** Reads *)

Record BridgeDb := mkBridgeDb { bd_authority : database.DbState; bd_share : ShareDb }.

Record SessionBinding := mkSessionBinding { sb_scope_digest : string; sb_delegation_cid : string; sb_credential_digest : string }.

Definition session_binding_value (b : SessionBinding) : json :=
  JObject [("credential_digest", JString (sb_credential_digest b)); ("delegation_cid", JString (sb_delegation_cid b));
           ("scope_digest", JString (sb_scope_digest b))].

(** [serde_json::from_value]: an object, or the fields in order. *)
Definition read_session_binding (v : json) : option SessionBinding :=
  '(scope, delegation, credential) ← match v with
    | JObject m => scope ← text_of m "scope_digest"; delegation ← text_of m "delegation_cid"; credential ← text_of m "credential_digest";
                   Some (scope, delegation, credential)
    | JArray [JString scope; JString delegation; JString credential] => Some (scope, delegation, credential)
    | _ => None
    end;
  scope ← parse_digest scope; delegation ← parse_share_delegation delegation; credential ← parse_digest credential;
  Some (mkSessionBinding scope delegation credential).

Definition authorize_read (P : Providers) (r : ReadAuthorizationRequest) (now : Z) (s : BridgeDb) : result PortError (AuthorizedRead * BridgeDb) :=
  session ← ok_or (sessions (bd_share s) !! rr_session r) Denied;
  _ ← ensure (bool_decide (se_revoked_at session = None)) Denied;
  session_expires ← protocol (parse_timestamp (se_expires_at session));
  _ ← ensure (now <? session_expires)%Z Denied;
  _ ← ensure (bool_decide (se_holder_digest session = holder_digest (rr_holder r))) Denied;
  binding ← ok_or (read_session_binding (se_binding session)) PortStorage;
  let scope := match sc_delegation_cid (rr_scope r) with
               | None => with_delegation (Some (sb_delegation_cid binding)) (rr_scope r)
               | Some _ => rr_scope r
               end in
  _ ← ensure (bool_decide (scope_digest scope = sb_scope_digest binding)) Denied;
  '(_, _, statement, _, a) ← validate_scope_in_transaction P scope now (bd_authority s);
  _ ← authority (database.validate_for_invocation_in_transaction a (se_authority_cid session) now);
  share ← protocol (consume_holder_read_jti (mkHolderReadJti (rr_jti r) (rr_session r) (rr_body_digest r) (scope_value (rr_scope r)) now (now + READ_JTI_TTL))
                      now (bd_share s));
  Ok (mkAuthorizedRead (mkPolicySession (rr_session r) scope (rr_holder r) (sb_credential_digest binding) session_expires statement)
        (mkReadAuthorizationRequest (rr_session r) (rr_jti r) scope (rr_holder r) (rr_body_digest r)), mkBridgeDb a share).

(** ** The session root *)

Definition authority_timestamp (t : Z) : result PortError string := ok_or (rfc3339_text (authority_timestamp_value t)) Denied.

(** The record of an issuance; a time the format has no text for ends the request. *)
Definition build_verified (issuance_id : string) (policy enforcement : PolicyDelegation) (claimant capability_hash challenge_id nonce_hash claim_digest
    vp_digest decision_digest : string) (issued expires : Z) : result PortError IssuanceAudit :=
  owner ← denied (fact policy "ownerDid");
  id ← denied (fact policy "policyId");
  digest ← denied (fact policy "policyDigestHex");
  audience ← denied (fact enforcement "nodeAudience");
  issued ← ok_or (rfc3339_text issued) Denied;
  expires ← ok_or (rfc3339_text expires) Denied;
  let a := {| au_issuance_id := issuance_id; au_owner := owner; au_policy_id := id; au_policy_digest := digest; au_policy_cid := pd_cid policy;
              au_enforcement_cid := pd_cid enforcement; au_enforcer := pd_audience enforcement; au_node_audience := audience; au_claimant := claimant;
              au_capability_hash := capability_hash; au_challenge_id := challenge_id; au_nonce_hash := nonce_hash; au_claim_digest := claim_digest;
              au_vp_digest := vp_digest; au_decision_digest := decision_digest; au_decision := "allow"; au_issued_at := issued;
              au_expires_at := expires; au_digest := ""; au_session_cid := "" |} in
  Ok (with_digest (recompute_digest_hex a) a).

Definition equation_holds (e : HolderEquation) (holder : string) : bool :=
  bool_decide (he_credential_subject e = holder) && bool_decide (he_presentation_holder e = holder) && bool_decide (he_presentation_signer e = holder) &&
  bool_decide (he_policy_session_holder e = holder) && bool_decide (he_read_signer e = holder).

(** The facts of the root: those of the policy, and of this issuance. *)
Definition root_facts (policy : PolicyDelegation) (new : list (string * string)) : gmap string string :=
  foldl (λ facts nv, <[POLICY_PREFIX +:+ nv.1 := nv.2]> facts) (pd_facts policy) new.

(** The challenge and the decision for an admission. *)
Definition admission_challenge (a : VerifiedSessionAdmission) (policy enforcement : PolicyDelegation) (capability_hash : string) (now : Z)
    : result PortError ChallengeState :=
  let r := ad_request a in
  enforcer ← denied (fact enforcement "enforcerDid");
  audience ← denied (fact enforcement "nodeAudience");
  owner ← denied (fact policy "ownerDid");
  id ← denied (fact policy "policyId");
  digest ← denied (fact policy "policyDigestHex");
  let c := mkChallengeState (pr_challenge_id r) (digest_string (pr_nonce r)) owner id digest (pd_cid policy) (pd_cid enforcement) enforcer audience
             (pr_holder r) capability_hash now (now + SESSION_TTL) None in
  _ ← authority (validate_challenge_lifetime c);
  Ok c.

Definition admission_context (a : VerifiedSessionAdmission) (policy : PolicyDelegation) (enforcer audience capability_hash : string)
    : result PortError DecisionContext :=
  let r := ad_request a in
  owner ← denied (fact policy "ownerDid");
  id ← denied (fact policy "policyId");
  digest ← denied (fact policy "policyDigestHex");
  ceiling ← denied (fact policy "capabilityCeilingHashHex");
  Ok (mkDecisionContext owner id digest ceiling enforcer audience (pr_holder r) (pr_challenge_id r) (digest_string (pr_nonce r)) capability_hash
        (pr_challenge_request_digest r) (ad_credential_digest a)).

Definition session_expiry (a : VerifiedSessionAdmission) (enforcement : PolicyDelegation) (now policy_expiry credential_expiry : Z) : result PortError Z :=
  binding_expiry ← ok_or (from_unix_timestamp (he_expires_at (ad_equation a))) Denied;
  enforcement_expiry ← authority (expires_at enforcement);
  ttl ← denied (fact enforcement "maxSessionTtlSeconds");
  ttl ← ok_or (parse_i64 ttl) Denied;
  Ok (foldr Z.min (now + seconds ttl)%Z [(now + SESSION_TTL)%Z; policy_expiry; credential_expiry; binding_expiry; enforcement_expiry]).

(** [P] answers for the material and the status; [issuance] are the random bytes of
    the issuance identifier.  Yields the CID of the root and its expiry. *)
Definition issue_root_in_transaction (json_print : json → string) (P : Providers) (signer : option NodeRootSigner) (issuance : list N)
    (a : VerifiedSessionAdmission) (now policy_expiry credential_expiry : Z) (s : database.DbState) : result PortError (string * Z * database.DbState) :=
  let r := ad_request a in
  let scope := pr_scope r in
  let claimant := pr_holder r in
  _ ← ensure (equation_holds (ad_equation a) claimant) Denied;
  let authority_now := authority_timestamp_value now in
  share_delegation ← ok_or (sc_delegation_cid scope) Denied;
  resolve ← provider (pv_resolve P);
  bundle ← resolve (sc_policy_cid scope) share_delegation (sc_material_handle scope) (sc_material_digest scope);
  policy ← authority (verify (bu_policy_authority bundle));
  enforcement ← authority (verify (bu_policy_enforcement bundle));
  refresh ← provider (pv_refresh P);
  status_bytes ← refresh (bu_authority_cid bundle);
  status ← parse_status status_bytes (bu_authority_cid bundle) now;
  policy_state ← authority (policy_state_from_verified policy enforcement (database.ob_checked_at status) (Z.min policy_expiry credential_expiry));
  capabilities ← denied (try_map parse (pd_capabilities policy));
  let capability_hash := requested_capabilities_hash_hex capabilities in
  enforcer ← denied (fact enforcement "enforcerDid");
  audience ← denied (fact enforcement "nodeAudience");
  let nonce_hash := digest_string (pr_nonce r) in
  challenge ← admission_challenge a policy enforcement capability_hash authority_now;
  s ← authority (database.insert_challenge challenge s);
  context ← admission_context a policy enforcer audience capability_hash;
  policy_document ← ok_or (read_json (bu_policy_state bundle)) Denied;
  sender ← ok_or (text_at "issuerDid" policy_document) Denied;
  decision ← authority (evaluate_exact_email_policy
    (mkExactEmailPolicyEvaluation policy enforcement policy_document sender (ad_email a) claimant (source_value (sc_source scope)) (sc_source_digest scope)
       (action_name (sc_action scope)) (resource_name (sc_resource scope)) (dc_owner context) (dc_enforcer context) (dc_node_audience context) context
       authority_now credential_expiry policy_expiry));
  let bindings := mkIssuanceBindings authority_now authority_now credential_expiry (pr_challenge_id r) nonce_hash claimant capability_hash
                    (pr_challenge_request_digest r) (ad_credential_digest a) in
  attestation_digest ← denied (fact enforcement "attestationBindingDigestHex");
  enforcement_expiry ← authority (expires_at enforcement);
  let binding := mkEnforcerBinding attestation_digest enforcer audience (Z.min policy_expiry enforcement_expiry) in
  let issuance_id := next_issuance_id issuance in
  expires ← session_expiry a enforcement now policy_expiry credential_expiry;
  let root_expires := authority_timestamp_value expires in
  audit ← build_verified issuance_id policy enforcement claimant capability_hash (pr_challenge_id r) nonce_hash (pr_challenge_request_digest r)
            (ad_credential_digest a) (tp_digest decision) authority_now root_expires;
  max_depth ← denied (fact enforcement "maxRedelegationDepth");
  let facts := root_facts policy
    [("capabilityHashHex", capability_hash); ("enforcerDid", enforcer); ("nodeAudience", audience); ("rootClaimantDid", claimant);
     ("sessionSubjectDid", claimant); ("policyDelegationCid", pd_cid policy); ("enforcementDelegationCid", pd_cid enforcement);
     ("attestationBindingDigestHex", attestation_digest); ("claimInvocationDigestHex", pr_challenge_request_digest r);
     ("vpDigestHex", ad_credential_digest a); ("decisionContextDigestHex", tp_digest decision); ("issuanceAuditDigestHex", au_digest audit);
     ("issuanceId", issuance_id); ("remainingRedelegationDepth", max_depth); ("auditProfile", "vp-digest-v1")] in
  not_before ← authority_timestamp authority_now;
  expires_text ← authority_timestamp root_expires;
  depth ← ok_or (parse_u8 max_depth) Denied;
  let root := mkPolicyDelegation "xyz.tinycloud.policy/enforcement-delegation/v1" PolicySessionRoot "" enforcer claimant (pd_capabilities enforcement)
                [pd_cid policy; pd_cid enforcement] not_before expires_text (if (0 <? depth)%N then Attenuable else Terminal) facts ED25519_SUITE "" in
  signer ← ok_or signer Unavailable;
  root ← authority (sign_and_verify_root json_print root signer);
  root_expiry ← authority (expires_at root);
  s ← authority (database.issue_root_in_transaction (pd_audience enforcement) policy enforcement policy_state root binding decision bindings s);
  Ok (pd_cid root, root_expiry, s).

(** ** Sessions *)

(** [update_many] by primary key: exactly one row is there to change. *)
Definition set_presentation_expiry (jti expires : string) (s : ShareDb) : result PortError ShareDb :=
  row ← ok_or (presentations s !! jti) PortStorage;
  Ok (set_presentations (<[jti := mkPresentationRow (pj_nonce row) (pj_policy_cid row) (pj_session row) (pj_issued_at row) expires]> (presentations s)) s).

(** [P] answers while the scope is validated, [P'] while the root is issued;
    [handle] and [issuance] are the random bytes. *)
Definition establish_session (json_print : json → string) (P P' : Providers) (signer : option NodeRootSigner) (handle issuance : list N)
    (a : VerifiedSessionAdmission) (now : Z) (s : BridgeDb) : result PortError (PolicySession * BridgeDb) :=
  let r := ad_request a in
  let scope := pr_scope r in
  '(policy_expiry, recipient, statement, _, authority_db) ← validate_scope_in_transaction P scope now (bd_authority s);
  _ ← ensure (bool_decide (digest_string recipient = pr_policy_recipient_digest r)) Denied;
  credential_expiry ← ok_or (from_unix_timestamp (pr_credential_expires_at r)) Denied;
  _ ← ensure (bool_decide (credential_expiry = policy_expiry)) Denied;
  share ← protocol (consume_anonymous_challenge_in_transaction (pr_challenge_id r) (pr_challenge_request_digest r) (pr_challenge_binding r)
                      (digest_string (pr_nonce r)) now (bd_share s));
  let handle := b64url_encode (bytes_string handle) in
  let jti := he_jti (ad_equation a) in
  share ← protocol (consume_holder_binding_jti_in_transaction jti (sc_policy_cid scope) handle now (now + SESSION_TTL) share);
  issued ← protocol (timestamp now);
  reserved ← protocol (timestamp (now + SESSION_TTL));
  share ← ok_or (insert_presentation (pr_presentation_jti r) (mkPresentationRow (pr_nonce r) (sc_policy_cid scope) handle issued reserved) share) Replay;
  '(session_cid, expires, authority_db) ← issue_root_in_transaction json_print P' signer issuance a now policy_expiry credential_expiry authority_db;
  expires_text ← protocol (timestamp expires);
  share ← set_presentation_expiry ("holder-binding:" +:+ jti) expires_text share;
  share ← set_presentation_expiry (pr_presentation_jti r) expires_text share;
  share_delegation ← ok_or (sc_delegation_cid scope) Denied;
  let binding := mkSessionBinding (scope_digest scope) share_delegation (ad_credential_digest a) in
  let mapping := mkSessionHandleMapping handle session_cid (session_binding_value binding) (holder_digest (pr_holder r)) now expires in
  let audit := mkAuditEvent ("share-email-session-" +:+ handle) "share_email.session_established" "accepted" (digest_string (sc_share_cid scope))
                 (digest_string (sc_target_origin scope)) (Some (holder_digest (pr_holder r))) (ad_credential_digest a) in
  share ← protocol (commit_session mapping audit now share);
  Ok (mkPolicySession handle scope (pr_holder r) (ad_credential_digest a) expires statement, mkBridgeDb authority_db share).

(** ** Questions of the HTTP layer *)

(** [PolicyCid::parse], [ShareDelegationCid::parse] and the material. *)
Definition resolve_material (P : Providers) (policy_cid delegation_cid handle digest : string) : result PortError AuthorityMaterialBundle :=
  policy ← ok_or (parse_policy_cid policy_cid) Denied;
  delegation ← ok_or (parse_share_delegation delegation_cid) Denied;
  resolve ← provider (pv_resolve P);
  resolve policy delegation handle digest.

Definition enforcer_did_for (P : Providers) (policy_cid delegation_cid handle digest node_audience : string) : result PortError string :=
  bundle ← resolve_material P policy_cid delegation_cid handle digest;
  enforcement ← authority (verify (bu_policy_enforcement bundle));
  _ ← ensure (bool_decide (pd_cid enforcement = bu_enforcement_cid bundle)) Denied;
  audience ← denied (fact enforcement "nodeAudience");
  _ ← ensure (bool_decide (audience = node_audience)) Denied;
  enforcer ← denied (fact enforcement "enforcerDid");
  ok_or (parse_did_key enforcer) Denied.

Definition policy_sender_recipient_and_expiry (P : Providers) (policy_cid delegation_cid handle digest : string) (now : Z) (s : database.DbState)
    : result PortError (string * string * Z) :=
  bundle ← resolve_material P policy_cid delegation_cid handle digest;
  signed_policy ← authority (verify (bu_policy_authority bundle));
  _ ← ensure (bool_decide (pd_cid signed_policy = bu_authority_cid bundle)) Denied;
  _ ← check_policy_state bundle policy_cid signed_policy;
  policy ← authority (database.artifact s (bu_authority_cid bundle));
  '(recipient, expiry) ← ok_or (policy_metadata policy (bu_policy_state bundle)) Denied;
  _ ← ensure (now <? expiry)%Z Denied;
  document ← ok_or (read_json (bu_policy_state bundle)) Denied;
  sender ← ok_or (text_at "issuerDid" document) Denied;
  Ok (sender, recipient, expiry).

Definition validate_sender_for_policy (P : Providers) (policy_cid delegation_cid handle digest sender : string) : result PortError unit :=
  bundle ← resolve_material P policy_cid delegation_cid handle digest;
  signed_policy ← authority (verify (bu_policy_authority bundle));
  _ ← ensure (bool_decide (pd_cid signed_policy = bu_authority_cid bundle)) Denied;
  document ← ok_or (read_json (bu_policy_state bundle)) Denied;
  _ ← ensure (bool_decide (text_at "issuerDid" document = Some sender)) Denied;
  owner ← authority (fact signed_policy "ownerDid");
  ensure (bool_decide (pd_issuer signed_policy = owner)) Denied.

(** [validate_scope] keeps the statuses it has refreshed when the scope holds. *)
Definition validate_scope (P : Providers) (scope : ShareScope) (now : Z) (s : BridgeDb) : result PortError BridgeDb :=
  '(_, _, _, _, a) ← validate_scope_in_transaction P scope now (bd_authority s);
  Ok (mkBridgeDb a (bd_share s)).

End Bridge.
