(* ===== verification/ShareRuns.v ===== *)
(** * Email shares: what the sessions and reads of a node rest on

    The runs of the bridge over both databases: the clock, the kernel's own commits,
    the operations of the HTTP layer on the protocol's tables, and the sessions and
    reads of the bridge, in any order.  Every session row was written by an
    establishment whose root the authority still holds; identifiers are used once. *)
From stdpp Require Import sorting.
From S2P Require Import Prelude Str Chars Identity Json Registry SqlCaveat Tables Jcs PolicyCapability Evidence PolicyDelegation PolicyMemory PolicyWalk PolicyDatabase PolicyRefinement PolicyVerifier ShareTypes ShareInvitation ShareState ShareVerifier ShareBridge.

(** Arguments as their type has them: in key order, integers a double can hold. *)
Definition source_wf (c : ContentSource) : Prop :=
  match c with
  | KvSource _ _ => True
  | SqlSource _ _ _ _ arguments _ => StronglySorted key_lt arguments ∧ Forall (λ kv, Z.abs kv.2 ≤ MAX_SAFE_INTEGER)%Z arguments
  end.
Definition scope_wf (s : ShareScope) : Prop := source_wf (sc_source s).

Lemma source_value_wf c : source_wf c → wf_json (source_value c).
Proof.
  destruct c as [space path|space database path statement arguments digest]; intros Hc.
  - apply wf_object. split; [repeat constructor; by vm_compute|by repeat constructor].
  - destruct Hc as [Hs Hi]. apply wf_object. split; [repeat constructor; by vm_compute|].
    repeat (apply Forall_cons; split); try done. apply wf_object. split.
    + clear Hi. induction Hs as [|kv l _ IH Hl]; [constructor|]. cbn. constructor; [done|]. apply Forall_fmap. eapply Forall_impl; [exact Hl|]. done.
    + apply Forall_fmap. eapply Forall_impl; [exact Hi|]. intros [k z] Hz. unfold MAX_SAFE_INTEGER in Hz. simpl in *. lia.
Qed.

Lemma scope_value_wf s : scope_wf s → wf_json (scope_value s).
Proof.
  intros Hs. apply wf_object. split; [repeat constructor; by vm_compute|].
  repeat (apply Forall_cons; split); try done; cbn [snd].
  - by apply source_value_wf.
  - by destruct (sc_delegation_cid s).
  - destruct (sc_resource s); apply wf_object; (split; [repeat constructor|]); repeat (apply Forall_cons; split); try done;
      apply wf_object; (split; [repeat constructor; by vm_compute|by repeat constructor]).
Qed.

Section Runs.
Context `{Rfc3339} `{ShareTime} `{Nfc} `{FloatText} `{Sha256} `{DbTime} `{JsonText} `{EvidenceLib} `{Blake3} `{CidLib} `{Keccak256} `{Recover}.
Context (verified : PolicyDelegation → Prop) `{!VerifiedArtifacts verified} (node : string).
Context (Hverify : ∀ bytes d, verify bytes = Ok d → verified d).

(** What the HTTP layer and the background task do to the protocol's tables. *)
Inductive share_step (now : Z) : relation ShareDb :=
| sh_challenge r s s' : create_anonymous_challenge r now s = Ok s' → share_step now s s'
| sh_reserve r binding digest s s' : reserve_invitation_authorization r binding digest now s = Ok s' → share_step now s s'
| sh_consume id digest binding s s' : consume_anonymous_challenge id digest binding now s = Ok s' → share_step now s s'
| sh_cleanup s s' : cleanup now s = Ok s' → share_step now s s'.

(** The clock, the authority's committed states, the sessions established so far and
    the tables. *)
Inductive bridge_run : Z → list database.DbState → list (VerifiedSessionAdmission * PolicySession) → BridgeDb → Prop :=
| br_start now : bridge_run now [] [] (mkBridgeDb database.db_empty share_empty)
| br_tick now now' h log s : bridge_run now h log s → (now ≤ now')%Z → bridge_run now' h log s
| br_share now h log s share : bridge_run now h log s → share_step now (bd_share s) share → bridge_run now h log (mkBridgeDb (bd_authority s) share)
| br_authority now h log s a :
    bridge_run now h log s → commit verified node h (bd_authority s) a → bridge_run now (bd_authority s :: h) log (mkBridgeDb a (bd_share s))
| br_scope now h log s P scope s' : bridge_run now h log s → validate_scope P scope now s = Ok s' → bridge_run now (bd_authority s :: h) log s'
| br_read now h log s P r ar s' : bridge_run now h log s → authorize_read P r now s = Ok (ar, s') → bridge_run now (bd_authority s :: h) log s'
| br_establish now h log s print P P' signer handle issuance a ps s' :
    bridge_run now h log s → (∀ k, signer = Some k → signer_did k = node) → scope_wf (pr_scope (ad_request a)) →
    establish_session print P P' signer handle issuance a now s = Ok (ps, s') → bridge_run now (bd_authority s :: h) ((a, ps) :: log) s'.

(** ** The authority's part *)

(** A state with a history that holds every state of [h]. *)
Definition past (h : list database.DbState) (a : database.DbState) : Prop := ∃ h', history verified node (a :: h') ∧ ∀ x, x ∈ h → x ∈ a :: h'.

Lemma past_commit h a a' : past h a → commit verified node h a a' → past (a :: h) a'.
Proof.
  intros (h' & Hh & Hin) Hc. exists (a :: h'). split.
  - apply h_commit; [done|]. assert (∀ x, x ∈ a :: h → x ∈ a :: h') as Hsub by (intros x [->|Hx]%elem_of_cons; [by left|by apply Hin]).
    destruct Hc;
      [eapply c_insert; [..|eassumption]|eapply c_admit; [..|eassumption]|eapply c_challenge; [..|eassumption]|eapply c_set_status; [..|eassumption]
      |eapply c_apply_status; [..|eassumption]|eapply c_root; [..|eassumption]|eapply c_root_in_transaction; [..|eassumption]
      |eapply c_descendant; [..|eassumption]]; auto.
  - intros x Hx. right. apply elem_of_cons in Hx as [->|Hx]; [by left|by apply Hin].
Qed.

Lemma past_weaken h h' a : (∀ x, x ∈ h → x ∈ h') → past h' a → past h a.
Proof. intros Hs (h0 & Hh & Hin). exists h0. split; [done|]. auto. Qed.

Lemma authority_Ok {A} (r : result AuthorityError A) x : authority r = Ok x → r = Ok x.
Proof. unfold authority. destruct r; simpl; by intros [= ->]. Qed.

Lemma protocol_Ok {A} (r : result StateError A) x : protocol r = Ok x → r = Ok x.
Proof. unfold protocol. destruct r; simpl; by intros [= ->]. Qed.

Lemma validate_scope_past P scope now h a e recipient st d a' :
  past h a → validate_scope_in_transaction P scope now a = Ok (e, recipient, st, d, a') → past (a :: h) a'.
Proof.
  unfold validate_scope_in_transaction. intros Hp Hv. do 6 (apply bind_Ok in Hv as (? & _ & Hv)).
  apply bind_Ok in Hv as (policy & Hpol%authority_Ok%Hverify & Hv). apply bind_Ok in Hv as (enf & Henf%authority_Ok%Hverify & Hv).
  do 2 (apply bind_Ok in Hv as (? & _ & Hv)). apply bind_Ok in Hv as ([recipient' expiry] & _ & Hv).
  do 9 (apply bind_Ok in Hv as (? & _ & Hv)). apply bind_Ok in Hv as (a1 & L1%authority_Ok & Hv).
  do 2 (apply bind_Ok in Hv as (? & _ & Hv)). apply bind_Ok in Hv as (a2 & L2%authority_Ok & Hv).
  do 9 (apply bind_Ok in Hv as (? & _ & Hv)). injection Hv as _ _ _ _ <-.
  eapply past_weaken; [|eapply past_commit; [eapply past_commit; [exact Hp|]|]]; [intros y Hy; right; exact Hy| |];
    (eapply c_admit; [..|done]; [done|by left]).
Qed.

Lemma validate_root_claimant policy enforcement st c root eb t b n audit :
  validate_root policy enforcement st c root eb t b n = Ok audit →
  pd_role root = PolicySessionRoot ∧ pd_issuer root = n ∧ pd_audience root = ib_claimant b ∧ fact root "vpDigestHex" = Ok (ib_vp_digest b).
Proof.
  unfold validate_root. intros Hv. do 3 (apply bind_Ok in Hv as (? & _ & Hv)).
  apply bind_Ok in Hv as ([] & [Hrole%bool_decide_eq_true _]%ensure_Ok%andb_true_iff & Hv). do 6 (apply bind_Ok in Hv as (? & _ & Hv)).
  apply bind_Ok in Hv as ([] & Hnode%ensure_Ok%bool_decide_eq_true & Hv). apply bind_Ok in Hv as (? & _ & Hv).
  apply bind_Ok in Hv as ([] & Haud%ensure_Ok%bool_decide_eq_true & Hv). do 6 (apply bind_Ok in Hv as (? & _ & Hv)).
  apply bind_Ok in Hv as ([] & Hfacts & _). split_and!; [done|done|done|]. rewrite for_each_Ok in Hfacts.
  apply (fact_is_Ok _ _ _ FactsMismatch). apply (Hfacts ("vpDigestHex", ib_vp_digest b)). do 8 right. by left.
Qed.

Lemma sign_and_verify_Ok print d k root : sign_and_verify_root print d k = Ok root → verified root ∧ pd_issuer root = signer_did k.
Proof.
  unfold sign_and_verify_root. intros Hs. do 2 (apply bind_Ok in Hs as (? & _ & Hs)). apply bind_Ok in Hs as (v & Hv%Hverify & Hs).
  apply bind_Ok in Hs as (? & Hi%ensure_Ok%bool_decide_eq_true & Hs). by injection Hs as <-.
Qed.

(** What an issuance leaves: a root for the holder, under a challenge that is new. *)
Record issued (a a' : database.DbState) (adm : VerifiedSessionAdmission) (cid : string) (expires : Z) (R : PolicyDelegation) : Prop := {
  is_new : database.db_rows a !! cid = None;
  is_stored : stored a' R;
  is_cid : pd_cid R = cid;
  is_role : pd_role R = PolicySessionRoot;
  is_holder : pd_audience R = pr_holder (ad_request adm);
  is_credential : fact R "vpDigestHex" = Ok (ad_credential_digest adm);
  is_expires : expires_at R = Ok expires;
  is_challenge : database.db_challenges a !! pr_challenge_id (ad_request adm) = None;
  is_challenged : is_Some (database.db_challenges a' !! pr_challenge_id (ad_request adm));
}.

Lemma issue_root_past print P signer issuance adm now pe ce h a cid expires a' :
  past h a → (∀ k, signer = Some k → signer_did k = node) →
  issue_root_in_transaction print P signer issuance adm now pe ce a = Ok (cid, expires, a') → past (a :: h) a' ∧ ∃ R, issued a a' adm cid expires R.
Proof.
  unfold issue_root_in_transaction. intros Hp Hsigner Hv. do 4 (apply bind_Ok in Hv as (? & _ & Hv)).
  apply bind_Ok in Hv as (policy & Hpol%authority_Ok%Hverify & Hv). apply bind_Ok in Hv as (enf & Henf%authority_Ok%Hverify & Hv).
  do 7 (apply bind_Ok in Hv as (? & _ & Hv)). apply bind_Ok in Hv as (c & Hc & Hv). apply bind_Ok in Hv as (a1 & Ha1%authority_Ok & Hv).
  do 11 (apply bind_Ok in Hv as (? & _ & Hv)). apply bind_Ok in Hv as (? & _ & Hv). apply bind_Ok in Hv as (k & Hk%ok_or_Ok & Hv).
  apply bind_Ok in Hv as (root & [Hroot Hissuer]%authority_Ok%sign_and_verify_Ok & Hv). apply bind_Ok in Hv as (rexp & Hrexp%authority_Ok & Hv).
  apply bind_Ok in Hv as (a2 & Hi%authority_Ok & Hv). injection Hv as <- <- <-. rewrite (Hsigner _ Hk) in Hissuer.
  assert (past (a :: h) a1) as Hp1 by (eapply past_commit; [done|by eapply c_challenge]).
  pose proof Hi as Hi'. unfold database.issue_root_in_transaction in Hi'. apply bind_Ok in Hi' as (audit & Hcheck & Hpersist).
  pose proof Hcheck as Hcheck'. unfold database.check_root in Hcheck'. do 5 (apply bind_Ok in Hcheck' as (? & _ & Hcheck')).
  apply validate_root_claimant in Hcheck' as (Hrole & Hn & Haud & Hvp). rewrite Hissuer in Hn. rewrite <- Hn in *.
  assert (commit verified node (a :: h) a1 a2) as Hcommit by (by eapply c_root_in_transaction; [exact Hpol|exact Henf|exact Hroot|]).
  split; [eapply past_weaken; [|by eapply past_commit]; intros y Hy; by right|].
  destruct Hp1 as (h1 & Hh1 & _). destruct (history_inv verified node _ _ Hh1) as [Hinv Hev].
  destruct (root_effect _ _ _ _ _ _ _ _ _ _ _ _ _ _ (Hev a1 ltac:(by left)) Hinv Hpol Henf Hroot Hcheck Hpersist) as (_ & _ & _ & Hnew & (c1 & Hc1 & _) & _ & _ & ->).
  unfold database.insert_challenge in Ha1. do 3 (apply bind_Ok in Ha1 as (? & _ & Ha1)).
  apply bind_Ok in Ha1 as (? & Hnone%ensure_Ok%bool_decide_eq_true & Ha1). injection Ha1 as <-.
  assert (ch_id c = pr_challenge_id (ad_request adm)) as Hid.
  { unfold admission_challenge in Hc. do 6 (apply bind_Ok in Hc as (? & _ & Hc)). by injection Hc as <-. }
  exists root. split; try done.
  - unfold stored, after_new. cbn [database.db_rows]. eexists. by rewrite lookup_insert_eq.
  - by rewrite <- Hid.
  - change (is_Some (alter (consume (authority_timestamp_value now)) (pr_challenge_id (ad_request adm)) (<[ch_id c := c]> (database.db_challenges a)) !! pr_challenge_id (ad_request adm))).
    rewrite <- Hid, lookup_alter_eq, lookup_insert_eq. by eexists.
Qed.

(** ** The protocol's part *)

(** A presentation row with its nonce. *)
Definition presents (s : ShareDb) (jti nonce : string) : Prop := ∃ row, presentations s !! jti = Some row ∧ pj_nonce row = nonce.

Lemma increments_only qs now s s' : try_fold (λ s q, increment_quota q now s) qs s = Ok s' → s' = set_quotas (quotas s') s.
Proof.
  revert s. induction qs as [|[[kind scope] limit] qs IH]; intros s Hf; cbn [try_fold] in Hf; [simplify_eq; by destruct s'|].
  apply bind_Ok in Hf as (s1 & Hi & Hf). unfold increment_quota in Hi. repeat (apply bind_Ok in Hi as (? & _ & Hi)). injection Hi as <-.
  apply IH in Hf. by rewrite Hf.
Qed.

Lemma share_step_frame now s s' : share_step now s s' → presentations s' = presentations s ∧ sessions s' ⊆ sessions s.
Proof.
  destruct 1 as [r s s' Hs|r b d s s' Hs|id d b s s' Hs|s s' Hs].
  - unfold create_anonymous_challenge in Hs. do 7 (apply bind_Ok in Hs as (? & _ & Hs)).
    case_bool_decide; [by simplify_eq|]. apply increments_only in Hs. by rewrite Hs.
  - unfold reserve_invitation_authorization in Hs. case_bool_decide; repeat (apply bind_Ok in Hs as (? & _ & Hs)); by simplify_eq.
  - unfold consume_anonymous_challenge, consume_anonymous_challenge_checked in Hs. repeat (apply bind_Ok in Hs as (? & _ & Hs)). by simplify_eq.
  - unfold cleanup in Hs. apply bind_Ok in Hs as (? & _ & Hs). simplify_eq. split; [done|]. apply map_filter_subseteq.
Qed.

Lemma presents_insert jti row s s' :
  insert_presentation jti row s = Some s' →
  (∀ j n, presents s j n → presents s' j n ∧ j ≠ jti ∧ n ≠ pj_nonce row) ∧ presents s' jti (pj_nonce row) ∧ sessions s' = sessions s.
Proof.
  intros (-> & Hnone & Hnonce)%insert_presentation_Some. split_and!; [|by exists row; simpl; rewrite lookup_insert_eq|done].
  intros j n (r & Hr & <-). assert (j ≠ jti) as Hne by congruence. split_and!; [|done|by eapply Hnonce].
  exists r. simpl. by rewrite lookup_insert_ne by done.
Qed.

Lemma presents_binding jti cid se i e s s' :
  consume_holder_binding_jti_in_transaction jti cid se i e s = Ok s' →
  (∀ j n, presents s j n → presents s' j n ∧ j ≠ "holder-binding:" +:+ jti) ∧ presents s' ("holder-binding:" +:+ jti) ("holder-binding-nonce:" +:+ jti) ∧
  sessions s' = sessions s.
Proof.
  unfold consume_holder_binding_jti_in_transaction. intros Hs. do 4 (apply bind_Ok in Hs as (? & _ & Hs)). apply ok_or_Ok, presents_insert in Hs as (Ho & Hn & Hse).
  split_and!; [|done|done]. intros j n (? & ? & _)%Ho. done.
Qed.

Lemma presents_expiry jti e s s' :
  set_presentation_expiry jti e s = Ok s' → (∀ j n, presents s j n → presents s' j n) ∧ sessions s' = sessions s.
Proof.
  unfold set_presentation_expiry. intros Hs. apply bind_Ok in Hs as (row & Hr%ok_or_Ok & Hs). injection Hs as <-. split; [|done].
  intros j n (r & Hj & Hn). destruct (decide (j = jti)) as [->|Hne].
  - eexists. simpl. rewrite lookup_insert_eq. split; [done|]. simpl. congruence.
  - exists r. simpl. by rewrite lookup_insert_ne by done.
Qed.

Lemma commit_session_Ok m audit now s s' :
  commit_session m audit now s = Ok s' →
  presentations s' = presentations s ∧ sessions s !! sm_handle m = None ∧
  ∃ issued expires, rfc3339_text (sm_expires_at m) = Some expires ∧
    sessions s' = <[sm_handle m := mkSessionRow (sm_authority_cid m) (sm_binding m) (sm_holder_digest m) issued expires None]> (sessions s).
Proof.
  unfold commit_session, timestamp. intros Hc. do 2 (apply bind_Ok in Hc as (? & _ & Hc)). apply bind_Ok in Hc as (i & _ & Hc).
  apply bind_Ok in Hc as (e & He%ok_or_Ok & Hc). apply bind_Ok in Hc as (rows & Hrows & Hc).
  unfold insert_new in Hrows. destruct (sessions s !! sm_handle m) as [row|] eqn:Hrow; [done|]. injection Hrows as <-.
  rewrite bool_decide_eq_false_2 in Hc by (by intros []). do 4 (apply bind_Ok in Hc as (? & _ & Hc)).
  injection Hc as <-. split_and!; [done|done|]. by exists i, e.
Qed.

(** The session row of an admission and its root. *)
Definition session_row (adm : VerifiedSessionAdmission) (cid : string) (row : SessionRow) : Prop :=
  let r := ad_request adm in
  se_authority_cid row = cid ∧ se_holder_digest row = holder_digest (pr_holder r) ∧
  ∃ delegation, sc_delegation_cid (pr_scope r) = Some delegation ∧
    se_binding row = session_binding_value (mkSessionBinding (scope_digest (pr_scope r)) delegation (ad_credential_digest adm)).

Lemma establish_Ok print P P' signer handle issuance adm now s ps s' :
  establish_session print P P' signer handle issuance adm now s = Ok (ps, s') →
  let r := ad_request adm in let s0 := bd_share s in let s1 := bd_share s' in
  ∃ pe ce recipient st d a1 cid expires,
    validate_scope_in_transaction P (pr_scope r) now (bd_authority s) = Ok (pe, recipient, st, d, a1) ∧
    issue_root_in_transaction print P' signer issuance adm now pe ce a1 = Ok (cid, expires, bd_authority s') ∧
    (∀ j n, presents s0 j n → presents s1 j n ∧ j ≠ "holder-binding:" +:+ he_jti (ad_equation adm) ∧ j ≠ pr_presentation_jti r ∧ n ≠ pr_nonce r) ∧
    presents s1 (pr_presentation_jti r) (pr_nonce r) ∧
    presents s1 ("holder-binding:" +:+ he_jti (ad_equation adm)) ("holder-binding-nonce:" +:+ he_jti (ad_equation adm)) ∧
    (∃ row, session_row adm cid row ∧ sessions s1 = <[ps_handle ps := row]> (sessions s0)) ∧ ps_scope ps = pr_scope r ∧ ps_holder ps = pr_holder r.
Proof.
  unfold establish_session. intros He. apply bind_Ok in He as ([[[[pe recipient] st] d] a1] & Hval & He). apply bind_Ok in He as (? & _ & He).
  apply bind_Ok in He as (ce & _ & He). apply bind_Ok in He as (? & _ & He). apply bind_Ok in He as (sh & Hch%protocol_Ok & He).
  apply bind_Ok in He as (sh1 & (Hb1 & Hb2 & Hb3)%protocol_Ok%presents_binding & He). do 2 (apply bind_Ok in He as (? & _ & He)).
  apply bind_Ok in He as (sh2 & (Hi1 & Hi2 & Hi3)%ok_or_Ok%presents_insert & He). apply bind_Ok in He as ([[cid expires] a2] & Hroot & He).
  apply bind_Ok in He as (? & _ & He). apply bind_Ok in He as (sh3 & [He1 He2]%presents_expiry & He). apply bind_Ok in He as (sh4 & [Hf1 Hf2]%presents_expiry & He).
  apply bind_Ok in He as (delegation & Hdel%ok_or_Ok & He). apply bind_Ok in He as (sh5 & [Hpres Hsess]%protocol_Ok%commit_session_Ok & He).
  injection He as <- <-. cbn [bd_share bd_authority ps_handle ps_scope ps_holder].
  assert (presentations sh = presentations (bd_share s) ∧ sessions sh = sessions (bd_share s)) as [Hp0 Hs0].
  { unfold consume_anonymous_challenge_in_transaction, consume_anonymous_challenge_checked in Hch. repeat (apply bind_Ok in Hch as (? & _ & Hch)). by simplify_eq. }
  assert (∀ j n, presents sh4 j n → presents sh5 j n) as Hlast by (intros j n; unfold presents; by rewrite Hpres).
  assert (sessions sh4 = sessions (bd_share s)) as Hs4 by congruence. rewrite Hs4 in Hsess. cbn [sm_handle sm_authority_cid sm_binding sm_holder_digest sm_expires_at] in Hsess.
  exists pe, ce, recipient, st, d, a1, cid, expires. split_and!; [done|done| | | | |done|done].
  - intros j n Hj. assert (presents sh j n) as Hj' by (unfold presents; by rewrite Hp0). destruct (Hb1 _ _ Hj') as [Hj1 ?]. destruct (Hi1 _ _ Hj1) as (Hj2 & ? & ?).
    split_and!; [auto|done|done|done].
  - auto.
  - apply Hlast, Hf1, He1. by apply Hi1.
  - destruct Hsess as (_ & i & e & _ & ?). eexists. split; [|done]. split_and!; [done|done|]. by exists delegation.
Qed.

(** ** The invariant of the runs *)

Definition holder_root (a : database.DbState) (adm : VerifiedSessionAdmission) (R : PolicyDelegation) : Prop :=
  stored a R ∧ pd_role R = PolicySessionRoot ∧ pd_audience R = pr_holder (ad_request adm) ∧ fact R "vpDigestHex" = Ok (ad_credential_digest adm).

Definition used (s : BridgeDb) (adm : VerifiedSessionAdmission) : Prop :=
  presents (bd_share s) (pr_presentation_jti (ad_request adm)) (pr_nonce (ad_request adm)) ∧
  (∃ n, presents (bd_share s) ("holder-binding:" +:+ he_jti (ad_equation adm)) n) ∧
  is_Some (database.db_challenges (bd_authority s) !! pr_challenge_id (ad_request adm)).

Record run_inv (h : list database.DbState) (log : list (VerifiedSessionAdmission * PolicySession)) (s : BridgeDb) : Prop := {
  ri_past : past h (bd_authority s);
  ri_used : Forall (λ e, used s e.1 ∧ scope_wf (pr_scope (ad_request e.1))) log;
  ri_nonces : NoDup ((λ e, pr_nonce (ad_request e.1)) <$> log);
  ri_presentations : NoDup ((λ e, pr_presentation_jti (ad_request e.1)) <$> log);
  ri_bindings : NoDup ((λ e, he_jti (ad_equation e.1)) <$> log);
  ri_challenges : NoDup ((λ e, pr_challenge_id (ad_request e.1)) <$> log);
  ri_sessions handle row : sessions (bd_share s) !! handle = Some row →
    ∃ adm ps R, (adm, ps) ∈ log ∧ ps_handle ps = handle ∧ session_row adm (pd_cid R) row ∧ holder_root (bd_authority s) adm R;
}.

Lemma past_evolves h a a' : past (a :: h) a' → evolves a a'.
Proof. intros (h' & Hh & Hin). destruct (history_inv verified node _ _ Hh) as [_ Hev]. apply Hev, Hin. by left. Qed.

Lemma past_refl h a : past h a → evolves a a.
Proof. intros (h' & Hh & _). destruct (history_inv verified node _ _ Hh) as [_ Hev]. apply Hev. by left. Qed.

Lemma used_kept s s' adm :
  evolves (bd_authority s) (bd_authority s') → (∀ j n, presents (bd_share s) j n → presents (bd_share s') j n) → used s adm → used s' adm.
Proof.
  intros He Hp (Hn & [n Hb] & [c Hc]). split_and!; [auto|exists n; auto|]. destruct (ev_challenges _ _ He _ _ Hc) as (c' & Hc' & _). by exists c'.
Qed.

Lemma holder_root_kept a a' adm R : evolves a a' → holder_root a adm R → holder_root a' adm R.
Proof. intros He (? & ? & ? & ?). split_and!; try done. by eapply stored_evolves. Qed.

Lemma run_inv_move h h' log s s' :
  run_inv h log s → past h' (bd_authority s') → evolves (bd_authority s) (bd_authority s') →
  (∀ j n, presents (bd_share s) j n → presents (bd_share s') j n) → sessions (bd_share s') ⊆ sessions (bd_share s) → run_inv h' log s'.
Proof.
  intros [Hpast Hu ? ? ? ? Hs] Hp He Hpres Hsub. split; try done.
  - eapply Forall_impl; [exact Hu|]. intros e [? ?]. split; [by eapply used_kept|done].
  - intros handle row Hrow. destruct (Hs handle row) as (adm & ps & R & ? & ? & ? & ?); [by eapply lookup_weaken|].
    exists adm, ps, R. split_and!; try done. by eapply holder_root_kept.
Qed.

Lemma not_in_log {A} (f : VerifiedSessionAdmission → A) log adm :
  Forall (λ e : VerifiedSessionAdmission * PolicySession, f e.1 ≠ f adm) log → f adm ∉ (λ e, f e.1) <$> log.
Proof. intros Hf (e & He & Hin)%list_elem_of_fmap. rewrite Forall_forall in Hf. by apply (Hf e). Qed.

Lemma run_inv_establish h log s now print P P' signer handle issuance adm ps s' :
  run_inv h log s → (∀ k, signer = Some k → signer_did k = node) → scope_wf (pr_scope (ad_request adm)) →
  establish_session print P P' signer handle issuance adm now s = Ok (ps, s') → run_inv (bd_authority s :: h) ((adm, ps) :: log) s'.
Proof.
  intros Hinv Hsigner Hwf (pe & ce & recipient & st & d & a1 & cid & expires & Hval & Hroot & Hpres & Hp1 & Hp2 & Hsess & Hscope & Hholder)%establish_Ok.
  pose proof (validate_scope_past _ _ _ _ _ _ _ _ _ _ (ri_past _ _ _ Hinv) Hval) as Hpast1. pose proof (past_evolves _ _ _ Hpast1) as He1.
  destruct (issue_root_past _ _ _ _ _ _ _ _ _ _ _ _ _ Hpast1 Hsigner Hroot) as [Hpast2 [R HR]]. pose proof (past_evolves _ _ _ Hpast2) as He2.
  assert (past (bd_authority s :: h) (bd_authority s')) as Hpast by (eapply past_weaken; [|exact Hpast2]; intros x Hx; by right).
  pose proof (past_evolves _ _ _ Hpast) as He.
  destruct Hinv as [_ Hu Hn Hj Hb Hc Hs].
  assert (Forall (λ e, used s' e.1 ∧ scope_wf (pr_scope (ad_request e.1))) log) as Hu'.
  { eapply Forall_impl; [exact Hu|]. intros e [? ?]. split; [|done]. eapply used_kept; [exact He| |done]. intros j n ?%Hpres. tauto. }
  split; [done| | | | | |].
  - constructor; [|done]. split; [|done]. split_and!; [done|by eexists|exact (is_challenged _ _ _ _ _ _ HR)].
  - apply NoDup_cons. split; [|done]. apply (not_in_log (λ x, pr_nonce (ad_request x))). eapply Forall_impl; [exact Hu|].
    intros e [[(_ & _ & _ & ?)%Hpres _] _]. done.
  - apply NoDup_cons. split; [|done]. apply (not_in_log (λ x, pr_presentation_jti (ad_request x))). eapply Forall_impl; [exact Hu|].
    intros e [[(_ & _ & ? & _)%Hpres _] _]. done.
  - apply NoDup_cons. split; [|done]. apply (not_in_log (λ x, he_jti (ad_equation x))). eapply Forall_impl; [exact Hu|].
    intros e [[_ [[n (_ & Hne & _)%Hpres] _]] _] Heq. apply Hne. by rewrite Heq.
  - apply NoDup_cons. split; [|done]. apply (not_in_log (λ x, pr_challenge_id (ad_request x))). eapply Forall_impl; [exact Hu|].
    intros e [[_ [_ [c Hcc]]] _] Heq. cbn [fst] in Heq. destruct (ev_challenges _ _ He1 _ _ Hcc) as (c' & Hc' & _). pose proof (is_challenge _ _ _ _ _ _ HR) as Hnone.
    rewrite Heq in Hc'. congruence.
  - intros handle' row Hrow.
    assert (sessions (bd_share s) !! handle' = Some row → ∃ adm0 ps0 R0, (adm0, ps0) ∈ (adm, ps) :: log ∧ ps_handle ps0 = handle' ∧
      session_row adm0 (pd_cid R0) row ∧ holder_root (bd_authority s') adm0 R0) as Hold.
    { intros Hrow'. destruct (Hs _ _ Hrow') as (adm0 & ps0 & R0 & ? & ? & ? & ?). exists adm0, ps0, R0.
      split_and!; [by right|done|done|]. by eapply holder_root_kept. }
    destruct Hsess as (row' & Hrow' & Heq). rewrite Heq in Hrow.
    apply lookup_insert_Some in Hrow as [[<- <-]|[_ Hrow]]; [|auto]. exists adm, ps, R. split_and!; [by left|done| |].
    + by rewrite (is_cid _ _ _ _ _ _ HR).
    + destruct HR. done.
Qed.

Lemma run_inv_holds now h log s : bridge_run now h log s → run_inv h log s.
Proof.
  induction 1 as [now|now now' h log s _ IH _|now h log s share _ IH Hs|now h log s a _ IH Hc|now h log s P scope s' _ IH Hs
    |now h log s P r ar s' _ IH Hr|now h log s print P P' signer handle issuance a ps s' _ IH Hk Hw He].
  - split; try done; try constructor. exists []. split; [constructor|]. by intros x ?%elem_of_nil.
  - done.
  - apply share_step_frame in Hs as [Hp Hsub]. pose proof (ri_past _ _ _ IH) as Hpast. eapply run_inv_move; [done|done|by eapply past_refl| |done].
    intros j n. unfold presents. cbn [bd_share]. by rewrite Hp.
  - assert (past (bd_authority s :: h) a) as Hpast by (eapply past_commit; [apply (ri_past _ _ _ IH)|done]).
    eapply run_inv_move; [done|exact Hpast|by eapply past_evolves|done|done].
  - unfold validate_scope in Hs. apply bind_Ok in Hs as ([[[[pe recipient] st] d] a1] & Hval & Hs). injection Hs as <-.
    pose proof (validate_scope_past _ _ _ _ _ _ _ _ _ _ (ri_past _ _ _ IH) Hval) as Hpast.
    eapply run_inv_move; [done|exact Hpast|by eapply past_evolves|done|done].
  - unfold authorize_read in Hr. do 7 (apply bind_Ok in Hr as (? & _ & Hr)). apply bind_Ok in Hr as ([[[[pe recipient] st] d] a1] & Hval & Hr).
    apply bind_Ok in Hr as (? & _ & Hr). apply bind_Ok in Hr as (share & (_ & _ & row & _ & ->)%protocol_Ok%consume_read_Ok & Hr). injection Hr as _ <-.
    pose proof (validate_scope_past _ _ _ _ _ _ _ _ _ _ (ri_past _ _ _ IH) Hval) as Hpast.
    eapply run_inv_move; [done|exact Hpast|by eapply past_evolves|done|done].
  - by eapply run_inv_establish.
Qed.

(** ** What a validated scope has been granted *)

(** The statement a read of the scope is pinned to: none for a key, and for a query
    the statement of that name with exactly the arguments of the scope. *)
Definition pinned_to (scope : ShareScope) (st : option PinnedNamedStatement) : Prop :=
  match sc_source scope with
  | KvSource _ _ => st = None
  | SqlSource _ database path name arguments _ =>
      ∃ c, st = Some (mkPinnedNamedStatement database path c) ∧ st_name c = name ∧ length (fixed_params c) = length arguments ∧
        Forall (λ fp, ∃ key n, arguments !! Z.to_nat (fp_index fp) = Some (key, n) ∧ fp_value fp = JNumber (NInt n)) (fixed_params c)
  end.

(** A capability of the delegation contains what the scope asks for. *)
Definition granted (scope : ShareScope) (request : PolicyCapability) (d : PolicyDelegation) : Prop :=
  ∃ v grant wanted, v ∈ pd_capabilities d ∧ parse v = Ok grant ∧ request_for_grant scope request grant = Ok wanted ∧ contains grant wanted = Ok tt.

Lemma statement_from_grant_Ok grant scope st : statement_from_grant grant scope = Ok st → pinned_to scope st.
Proof.
  unfold statement_from_grant, pinned_to. destruct (sc_source scope) as [|space db path name arguments digest]; [by intros [= <-]|]. intros Hs.
  apply bind_Ok in Hs as (caveat & _ & Hs). apply bind_Ok in Hs as (c & Hc%ok_or_Ok & Hs). apply find_some in Hc as [_ Hname%bool_decide_eq_true].
  apply bind_Ok in Hs as (? & [Hlen%bool_decide_eq_true Hf]%ensure_Ok%andb_true_iff & Hs). injection Hs as <-. exists c. split_and!; [done|done|done|].
  apply Forall_forall. intros fp Hfp%list_elem_of_In. rewrite forallb_forall in Hf. specialize (Hf _ Hfp). unfold fixed_matches in Hf.
  apply andb_true_iff in Hf as [_ Hf]. destruct (arguments !! _) as [[key n]|]; [|done]. exists key, n. split; [done|]. by apply bool_decide_eq_true, as_i64_Some in Hf.
Qed.

Lemma match_grants_Ok scope request grants m st m' st' :
  match_grants scope request grants m st = Ok (m', st') → (st = None ∨ pinned_to scope st) → (m = true → pinned_to scope st) →
  (st' = None ∨ pinned_to scope st') ∧ (m' = true → pinned_to scope st') ∧
  (m' = true → m = true ∨ ∃ grant wanted, grant ∈ grants ∧ request_for_grant scope request grant = Ok wanted ∧ contains grant wanted = Ok tt).
Proof.
  revert m st. induction grants as [|grant grants IH]; intros m st Hm Hst Hmst; cbn [match_grants] in Hm.
  { injection Hm as <- <-. split_and!; [done|done|by left]. }
  apply bind_Ok in Hm as (wanted & Hw & Hm). destruct (contains grant wanted) as [[]|] eqn:Hc; cbn [is_ok] in Hm.
  - apply bind_Ok in Hm as (st1 & Hst1 & Hm). assert (pinned_to scope st1) as Hp.
    { destruct st; [|by eapply statement_from_grant_Ok]. injection Hst1 as <-. by destruct Hst. }
    destruct (IH _ _ Hm) as (? & ? & _); [by right|done|]. split_and!; [done|done|]. intros _. right. exists grant, wanted. split_and!; [by left|done|done].
  - destruct (IH _ _ Hm Hst Hmst) as (? & ? & Hg). split_and!; [done|done|]. intros [?|(g & w & ? & ? & ?)]%Hg; [by left|right].
    exists g, w. split_and!; [by right|done|done].
Qed.

Lemma try_map_elem {E A B} (f : A → result E B) l l' y : try_map f l = Ok l' → y ∈ l' → ∃ x, x ∈ l ∧ f x = Ok y.
Proof.
  revert l'. induction l as [|x l IH]; intros l' Hm Hy; cbn [try_map] in Hm; [by injection Hm as <-; apply elem_of_nil in Hy|].
  apply bind_Ok in Hm as (y' & Hf & Hm). apply bind_Ok in Hm as (l1 & Hl & Hm). injection Hm as <-.
  apply elem_of_cons in Hy as [->|Hy]; [exists x; split; [by left|done]|]. destruct (IH _ Hl Hy) as (x' & ? & ?). exists x'. split; [by right|done].
Qed.

Lemma authorized_statement_Ok scope policy delegation st :
  authorized_statement scope policy delegation = Ok st →
  ∃ request, requested_capability scope = Ok request ∧ granted scope request policy ∧ granted scope request delegation ∧ pinned_to scope st.
Proof.
  unfold authorized_statement. intros Ha. apply bind_Ok in Ha as (request & Hreq & Ha). apply bind_Ok in Ha as (gp & Hgp%denied_Ok & Ha).
  apply bind_Ok in Ha as (gd & Hgd%denied_Ok & Ha). apply bind_Ok in Ha as ([mp st1] & Hmp & Ha). apply bind_Ok in Ha as ([md st2] & Hmd & Ha).
  apply bind_Ok in Ha as (? & [-> ->]%ensure_Ok%andb_true_iff & Ha). injection Ha as ->. exists request. split; [done|].
  apply match_grants_Ok in Hmp as (Hs1 & Hp1 & Hg1); [|by left|done]. apply match_grants_Ok in Hmd as (_ & Hp2 & Hg2); [|done|done].
  assert (∀ gs d, try_map parse (pd_capabilities d) = Ok gs →
    (∃ g w, g ∈ gs ∧ request_for_grant scope request g = Ok w ∧ contains g w = Ok tt) → granted scope request d) as Hgr.
  { intros gs d Hgs (g & w & Hin & Hw & Hc). destruct (try_map_elem _ _ _ _ Hgs Hin) as (v & Hv & Hparse). by exists v, g, w. }
  split_and!; [eapply Hgr; [exact Hgp|by destruct (Hg1 eq_refl)]|eapply Hgr; [exact Hgd|by destruct (Hg2 eq_refl)]|auto].
Qed.

(** ** Theorems *)

(** C18: what a session is established with is used once.  Whatever the node does in
    between, cleanups included, no two sessions are established with the same
    challenge, the same nonce, the same presentation or the same holder binding. *)
Theorem sessions_single_use (now : Z) (h : list database.DbState) (log : list (VerifiedSessionAdmission * PolicySession)) (s : BridgeDb) :
  bridge_run now h log s →
  NoDup ((λ e, pr_challenge_id (ad_request e.1)) <$> log) ∧ NoDup ((λ e, pr_nonce (ad_request e.1)) <$> log) ∧
  NoDup ((λ e, pr_presentation_jti (ad_request e.1)) <$> log) ∧ NoDup ((λ e, he_jti (ad_equation e.1)) <$> log).
Proof. intros [? ? ? ? ? ? ?]%run_inv_holds. done. Qed.

Lemma read_session_binding_value b b' : read_session_binding (session_binding_value b) = Some b' → b' = b.
Proof.
  destruct b as [scope delegation credential]. unfold read_session_binding, session_binding_value.
  change (text_of _ "scope_digest") with (Some scope). change (text_of _ "delegation_cid") with (Some delegation).
  change (text_of _ "credential_digest") with (Some credential). cbn [mbind option_bind].
  intros Hr. apply bind_Some in Hr as (x & Hx & Hr). apply bind_Some in Hr as (y & Hy%parse_string_Some & Hr). apply bind_Some in Hr as (z & Hz & Hr).
  assert (∀ n v w, parse_fixed n v = Some w → w = v) as Hf.
  { intros n v w Hp. unfold parse_fixed in Hp. apply bind_Some in Hp as (? & _ & Hp). case_match; [|done]. by injection Hp. }
  apply Hf in Hx, Hz. by simplify_eq.
Qed.

Lemma validate_in_transaction a cid now :
  database.validate_for_invocation_in_transaction a cid now = Ok tt → database.validate_for_invocation a cid now = Ok tt.
Proof.
  unfold database.validate_for_invocation_in_transaction, database.validate_for_invocation. intros Hv.
  apply bind_Ok in Hv as (w & Hw & _). by rewrite Hw, bind_ret_l.
Qed.

(** A scope is validated only for what the owner granted.  The policy and the
    delegation of the share may be invoked at that instant, with their ancestry; a
    capability of each contains the read the scope asks for; and a query is pinned to
    the granted statement of that name, with the arguments of the scope for all its
    fixed parameters. *)
Theorem validated_scope_granted (P : Providers) (scope : ShareScope) (now : Z) (a a' : database.DbState) (expiry : Z) (recipient delegation_cid : string)
    (st : option PinnedNamedStatement) :
  validate_scope_in_transaction P scope now a = Ok (expiry, recipient, st, delegation_cid, a') →
  ∃ policy delegation request, stored a' policy ∧ stored a' delegation ∧ pd_cid delegation = delegation_cid ∧
    database.validate_for_invocation a' (pd_cid policy) now = Ok tt ∧ database.validate_for_invocation a' delegation_cid now = Ok tt ∧
    requested_capability scope = Ok request ∧ granted scope request policy ∧ granted scope request delegation ∧ pinned_to scope st.
Proof.
  unfold validate_scope_in_transaction. intros Hv. do 10 (apply bind_Ok in Hv as (? & _ & Hv)). apply bind_Ok in Hv as ([recipient' expiry'] & _ & Hv).
  do 9 (apply bind_Ok in Hv as (? & _ & Hv)). apply bind_Ok in Hv as (a1 & _ & Hv). do 2 (apply bind_Ok in Hv as (? & _ & Hv)).
  apply bind_Ok in Hv as (a2 & _ & Hv). do 3 (apply bind_Ok in Hv as (? & _ & Hv)).
  apply bind_Ok in Hv as ([] & Hl1%authority_Ok%validate_in_transaction & Hv). apply bind_Ok in Hv as ([] & Hl2%authority_Ok%validate_in_transaction & Hv).
  apply bind_Ok in Hv as (policy & [Hsp Hcp]%authority_Ok%artifact_Ok & Hv). apply bind_Ok in Hv as (delegation & [Hsd Hcd]%authority_Ok%artifact_Ok & Hv).
  apply bind_Ok in Hv as (? & _ & Hv). apply bind_Ok in Hv as (st' & (request & ? & ? & ? & ?)%authorized_statement_Ok & Hv).
  injection Hv as _ _ <- <- <-. exists policy, delegation, request. split_and!; try done. by rewrite Hcp.
Qed.

(** The facts of an artifact are all prefixed, and the check of the policy a share's
    delegation names is not: a session passed on below the root is denied as the
    delegation of a share, although its [policyDelegationCid] is the policy. *)
Theorem descendant_delegation_denied (policy delegation : PolicyDelegation) :
  validate_wire_shape delegation = Ok tt → pd_role delegation = PolicySessionDescendant → pd_cid delegation ≠ pd_cid policy →
  pd_cid policy ∉ pd_proofs delegation → delegation_of_policy (pd_cid policy) (pd_cid delegation) policy delegation = false.
Proof.
  intros Hw Hrole Hne Hproof. unfold validate_wire_shape in Hw. do 5 (apply bind_Ok in Hw as (? & _ & Hw)). destruct (wire_profile delegation) as [[[mode count] names] suite].
  do 2 (apply bind_Ok in Hw as (? & _ & Hw)). apply ensure_Ok, bool_decide_eq_true in Hw.
  assert (pd_facts delegation !! "policyDelegationCid" = None) as Hnone.
  { apply not_elem_of_dom. rewrite Hw, elem_of_list_to_set, list_elem_of_fmap. intros (name & Hname & _). discriminate Hname. }
  unfold delegation_of_policy, paired_roots. rewrite Hnone, Hrole. by rewrite !bool_decide_eq_false_2 by done.
Qed.

(** A share whose policy ends within a second is never opened: the expiry asked of the
    credential is in whole seconds and has to equal the policy's. *)
Theorem fractional_share_never_opens (print : json → string) (P P' : Providers) (signer : option NodeRootSigner) (handle issuance : list N)
    (adm : VerifiedSessionAdmission) (now : Z) (s : BridgeDb) (expiry : Z) (recipient : string) (st : option PinnedNamedStatement) (d : string)
    (a : database.DbState) :
  validate_scope_in_transaction P (pr_scope (ad_request adm)) now (bd_authority s) = Ok (expiry, recipient, st, d, a) → (expiry mod 1000000000 ≠ 0)%Z →
  establish_session print P P' signer handle issuance adm now s = Err Denied.
Proof.
  intros Hv Hfrac. unfold establish_session. rewrite Hv, bind_ret_l. cbn beta iota. destruct (bool_decide (digest_string _ = _)); [|done].
  rewrite ensure_true, bind_ret_l. unfold from_unix_timestamp. case_match; [|done]. cbn [ok_or]. rewrite bind_ret_l.
  rewrite bool_decide_eq_false_2; [done|]. intros <-. apply Hfrac. unfold seconds. by rewrite Z.mul_comm, Z_mod_mult || by rewrite Z_mod_mult.
Qed.

(** Two texts that do not collide. *)
Definition no_collision (x y : string) : Prop := sha256_b64 x = sha256_b64 y → x = y.

Definition admitted_value (adm : VerifiedSessionAdmission) : string := canonicalize (scope_value (pr_scope (ad_request adm))).

(** A read is answered for what was admitted.  When the bridge authorizes a read
    in any state the node can reach, its session was established for an admission of
    the same holder, the same scope in every member and the same credential, provided
    the read does not collide with an admission under SHA-256; and the session's root,
    addressed to that holder, rests at that instant on a policy and an enforcement
    delegation of one owner that are stored, in their windows and not revoked. *)
Theorem share_read_backed (now : Z) (h : list database.DbState) (log : list (VerifiedSessionAdmission * PolicySession)) (s s' : BridgeDb)
    (P : Providers) (r : ReadAuthorizationRequest) (ar : AuthorizedRead) :
  bridge_run now h log s → authorize_read P r now s = Ok (ar, s') → scope_wf (rr_scope r) →
  Forall (λ e, no_collision (admitted_value e.1) (canonicalize (scope_value (ps_scope (ar_session ar)))) ∧
               no_collision (pr_holder (ad_request e.1)) (rr_holder r)) log →
  ∃ adm ps policy enforcement root root', (adm, ps) ∈ log ∧ ps_handle ps = rr_session r ∧
    ps_scope (ar_session ar) = pr_scope (ad_request adm) ∧ rr_holder r = pr_holder (ad_request adm) ∧
    ps_credential_digest (ar_session ar) = ad_credential_digest adm ∧
    holder_root (bd_authority s') adm root ∧ authorised node (bd_authority s') now root policy enforcement root'.
Proof.
  intros Hrun Hr Hwf Hnc. pose proof (run_inv_holds _ _ _ _ Hrun) as Hinv. pose proof (run_inv_holds _ _ _ _ (br_read _ _ _ _ _ _ _ _ Hrun Hr)) as Hinv'.
  unfold authorize_read in Hr. apply bind_Ok in Hr as (row & Hrow%ok_or_Ok & Hr). do 3 (apply bind_Ok in Hr as (? & _ & Hr)).
  apply bind_Ok in Hr as (? & Hholder%ensure_Ok%bool_decide_eq_true & Hr). apply bind_Ok in Hr as (binding & Hb%ok_or_Ok & Hr).
  apply bind_Ok in Hr as (? & Hdigest%ensure_Ok%bool_decide_eq_true & Hr). apply bind_Ok in Hr as ([[[[pe recipient] st] d] a1] & Hval & Hr).
  apply bind_Ok in Hr as ([] & Hlive%authority_Ok%validate_in_transaction & Hr). apply bind_Ok in Hr as (share & _ & Hr). injection Hr as <- <-.
  cbn [ar_session ps_scope ps_credential_digest bd_authority] in *.
  destruct (ri_sessions _ _ _ Hinv _ _ Hrow) as (adm & ps & R & Hin & Hps & (Hcid & Hh & delegation & Hdel & Hbind) & HR).
  rewrite Hbind in Hb. apply read_session_binding_value in Hb as ->. cbn [sb_scope_digest sb_delegation_cid sb_credential_digest] in *.
  pose proof (validate_scope_past _ _ _ _ _ _ _ _ _ _ (ri_past _ _ _ Hinv) Hval) as Hpast. pose proof (past_evolves _ _ _ Hpast) as He.
  pose proof (holder_root_kept _ _ _ _ He HR) as HR'. destruct Hpast as (h' & Hh' & _). destruct (history_inv verified node _ _ Hh') as [Hi _].
  pose proof (proj1 (Forall_forall _ _) Hnc _ Hin) as [Hc1 Hc2]. cbn [fst] in Hc1, Hc2.
  pose proof (proj1 (Forall_forall _ _) (ri_used _ _ _ Hinv) _ Hin) as [_ Hwf']. cbn [fst] in Hwf'.
  destruct (tree_backed verified node a1 now WALK_DEPTH ∅ false R Hi) as (Pol & E & R' & Hauth).
  - rewrite Hcid in Hlive. by apply validate_tree in Hlive.
  - apply HR'.
  - left. apply HR'.
  - exists adm, ps, Pol, E, R, R'. split_and!; try done.
    + symmetry. apply scope_value_inj, canonicalize_inj; [by apply scope_value_wf| |].
      * apply scope_value_wf. by destruct (sc_delegation_cid (rr_scope r)).
      * apply Hc1. symmetry. exact Hdigest.
    + symmetry. apply Hc2. unfold holder_digest in *. congruence.
Qed.

End Runs.

(** ** A concrete share *)

(** One owner, one node and one holder; every text has the same SHA-256 digest, the CID
    of a policy document is fixed and that of an artifact a checksum in letters, and the
    clock knows the instants of [demo_texts]. *)
Definition run_sha : Sha256 := λ _, repeat 65%N 32.
Definition run_blake : Blake3 := λ s, fmt_u64 (foldl (λ acc b, (acc * 31 + b) mod 2 ^ 40) 7 (string_bytes s))%N.
Definition run_db_time : DbTime := λ _, true.
Definition run_policy_cid : string := "bafkreihhkhfgdqltz6ivbwcj7pq4idmzv7nsrbz6atilby3ymovnfquwam".
Definition run_cid_text (digits : string) : string :=
  "bafkr4" +:+ repeat_char (53 - String.length digits) "z" +:+ map_string (λ c, char (code c + 49)) digits.
Definition run_cids : CidLib :=
  {| cid_to_string := λ c, if (mh_code (cid_hash c) =? SHA2_256)%N then run_policy_cid else run_cid_text (mh_digest (cid_hash c)); cid_parse := λ _, None |}.
#[local] Existing Instances demo_table_parse demo_table_clock demo_nfc demo_float run_sha run_db_time demo_share_lib run_blake run_cids demo_keccak demo_recover.

Definition run_digest : string := bytes_string (repeat 65%N 32).
Definition run_hex : string := hex_encode (repeat 65%N 32).
Definition run_node : string := "did:key:z6MktwtqAzuD5F77tAMBMwNs1KybZeff61EehV9xB1ZpXQG7".
Definition run_sender : string := "did:key:z6Mkf4XhsxSXfEAWNK6GcFu7TyVs21AfUTRjiguqMhNQeDgk".
Definition run_audience : string := "did:web:node.example".
Definition run_delegation : string := "bafkreihhkhfgdqltz6ivbwcj7pq4idmzv7nsrbz6atilby3ymovnfquwaa".
Definition run_share_cid : string := "bafkreihhkhfgdqltz6ivbwcj7pq4idmzv7nsrbz6atilby3ymovnfquwab".
Definition run_space : string := "did:web:alice.example".
Definition run_capability : json := canonical_value (mkPolicyCapability "tinycloud.kv" run_space "docs/" ["tinycloud.kv/get"] None).
Definition run_nonce : string := bytes_string (repeat 66%N 32).
Definition run_challenge_id : string := bytes_string (repeat 67%N 32).
Definition run_jti : string := bytes_string (repeat 68%N 16).

Definition run_facts (l : list (string * string)) : gmap string string := list_to_map ((λ '(k, v), (POLICY_PREFIX +:+ k, v)) <$> l).
Definition run_common : list (string * string) :=
  [("ownerDid", demo_owner); ("policyId", "pol_x"); ("policyDigestHex", run_hex); ("capabilityCeilingHashHex", run_hex)].
Definition run_policy_unsigned : PolicyDelegation :=
  mkPolicyDelegation "xyz.tinycloud.policy/enforcement-delegation/v1" PolicyAuthority "" demo_owner run_audience [run_capability] []
    "1970-01-01T00:00:00Z" "1970-01-02T00:00:00Z" PolicySource (run_facts run_common) EIP191_SUITE (bytes_string (repeat 1%N 65)).
Definition run_policy_cid_text : string := Eval vm_compute in cid_for_artifact run_policy_unsigned.
Definition run_policy : PolicyDelegation := with_cid run_policy_unsigned run_policy_cid_text.
Definition run_enforcement_unsigned : PolicyDelegation :=
  mkPolicyDelegation "xyz.tinycloud.policy/enforcement-delegation/v1" PolicyEnforcement "" demo_owner run_node [run_capability] []
    "1970-01-01T00:00:00Z" "1970-01-02T00:00:00Z" ConditionalMint
    (run_facts (run_common ++ [("enforcerDid", run_node); ("nodeAudience", run_audience); ("attestationBindingDigestHex", run_digest);
       ("maxSessionTtlSeconds", "300"); ("sessionMode", "attenuable"); ("maxRedelegationDepth", "2"); ("auditProfile", "vp-digest-v1")]))
    EIP191_SUITE (bytes_string (repeat 1%N 65)).
Definition run_enforcement_cid_text : string := Eval vm_compute in cid_for_artifact run_enforcement_unsigned.
Definition run_enforcement : PolicyDelegation := with_cid run_enforcement_unsigned run_enforcement_cid_text.
Definition run_root_unsigned : PolicyDelegation :=
  mkPolicyDelegation "xyz.tinycloud.policy/enforcement-delegation/v1" PolicySessionRoot "" run_node demo_holder [run_capability]
    [pd_cid run_policy; pd_cid run_enforcement] "1970-01-01T00:00:00Z" "1970-01-01T00:02:00Z" Attenuable
    (run_facts (run_common ++ [("capabilityHashHex", run_hex); ("enforcerDid", run_node); ("nodeAudience", run_audience);
       ("rootClaimantDid", demo_holder); ("sessionSubjectDid", demo_holder); ("policyDelegationCid", pd_cid run_policy);
       ("enforcementDelegationCid", pd_cid run_enforcement); ("attestationBindingDigestHex", run_digest); ("claimInvocationDigestHex", run_digest);
       ("vpDigestHex", run_digest); ("decisionContextDigestHex", run_hex); ("issuanceAuditDigestHex", run_hex);
       ("issuanceId", next_issuance_id (repeat 0%N 16)); ("remainingRedelegationDepth", "2"); ("auditProfile", "vp-digest-v1")]))
    ED25519_SUITE demo_signature.
Definition run_root_cid_text : string := Eval vm_compute in cid_for_artifact run_root_unsigned.
Definition run_root : PolicyDelegation := with_cid run_root_unsigned run_root_cid_text.

Definition run_source : ContentSource := KvSource run_space "docs/a.md".
Definition run_state : json :=
  JObject [("action", JString KV_GET_ACTION); ("contentSource", source_value run_source); ("contentSourceDigest", JString run_digest);
           ("expiresAt", JString "1970-01-02T00:00:00Z"); ("issuerDid", JString run_sender); ("recipientEmail", JString "a@x.org");
           ("resource", JString "docs/a.md"); ("type", JString "TinyCloudSharePolicy"); ("version", JNumber (NInt 1))].
Definition run_status (cid : string) : json :=
  JObject [("type", JString "TinyCloudShareAuthorityStatusObservation"); ("version", JNumber (NInt 1)); ("parentCid", JString cid);
           ("sequence", JNumber (NInt 1)); ("state", JString "active"); ("checkedAt", JString "1970-01-01T00:00:00Z");
           ("freshUntil", JString "1970-01-01T00:05:00Z"); ("revokedAt", JNull); ("signerKid", JString "kid"); ("signerVersion", JNumber (NInt 1));
           ("signature", JObject [("alg", JString "EdDSA"); ("kid", JString "kid"); ("value", JString demo_signature)])].
Definition run_signer_kid : string := run_node +:+ "#z6MktwtqAzuD5F77tAMBMwNs1KybZeff61EehV9xB1ZpXQG7".
Definition run_attestation : json :=
  JObject [("type", JString "TinyCloudShareEnrollmentRuntimeAttestation"); ("version", JNumber (NInt 1)); ("targetOrigin", JString "https://node.example");
           ("nodeAudience", JString run_audience); ("enforcerDid", JString run_node); ("enforcerKid", JString (run_audience +:+ "#key"));
           ("publicKey", JString "k"); ("keyVersion", JNumber (NInt 1)); ("localSignerDid", JString run_node); ("localSignerKid", JString run_signer_kid);
           ("measurement", JString "m"); ("measurementDigest", JString "md"); ("expiresAt", JString "1970-01-02T00:00:00Z");
           ("enrollmentDigest", JString "ed"); ("signature", JObject [("alg", JString "EdDSA"); ("kid", JString run_signer_kid); ("value", JString demo_signature)])].

Definition run_documents : list (string * json) :=
  [("policy", JObject (to_value run_policy)); ("enforcement", JObject (to_value run_enforcement)); ("root", JObject (to_value run_root));
   (canonicalize run_state, run_state); ("policy status", run_status (pd_cid run_policy)); ("enforcement status", run_status (pd_cid run_enforcement));
   ("attestation", run_attestation)].
Definition run_text : JsonText :=
  {| json_read := λ s, (match List.find (λ e, bool_decide (e.1 = s)) run_documents with Some (_, v) => raw_of v | None => RBad end, true);
     float_unsafe := λ _, false |}.
#[local] Existing Instance run_text.

Definition run_bundle : AuthorityMaterialBundle :=
  mkBundle "amh_1" run_digest "policy" "enforcement" (canonicalize run_state) (pd_cid run_policy) (pd_cid run_enforcement) (pd_cid run_enforcement).
Definition run_providers : Providers :=
  mkProviders (Some (resolve_exact (λ _ _, Ok run_bundle))) (Some (λ cid, Ok (if decide (cid = pd_cid run_policy) then "policy status" else "enforcement status")))
    (Some (λ _ _, Ok "attestation")).
Definition run_signer : NodeRootSigner := mkNodeRootSigner run_node (λ _, Ok demo_signature).

Definition run_scope : ShareScope :=
  mkShareScope run_share_cid "id" (Some run_delegation) "amh_1" run_digest run_policy_cid run_audience "https://node.example" KvGet (KvResource "docs/a.md") run_source run_digest.
Definition run_binding : json := JObject [("requestDigest", JString run_digest)].
Definition run_admission : VerifiedSessionAdmission :=
  mkVerifiedSessionAdmission (mkPolicySessionRequest run_scope demo_holder run_nonce run_jti run_challenge_id run_digest run_binding run_digest 86400) "a@x.org" run_digest
    (mkHolderEquation demo_holder demo_holder demo_holder demo_holder demo_holder "0123456789abcdef" 120).
Definition run_challenge : AnonymousChallengeRequest :=
  mkAnonymousChallengeRequest run_challenge_id run_digest run_binding "https://a.example" "192.0.2.1" "share" run_digest 0 60000000000 10 1 1 1.

Definition run_ok {E A} (r : result E A) (a : A) : A := match r with Ok x => x | Err _ => a end.
Definition run_s1 : BridgeDb := mkBridgeDb database.db_empty (run_ok (create_anonymous_challenge run_challenge 0 share_empty) share_empty).
Definition run_established : result PortError (PolicySession * BridgeDb) :=
  establish_session (λ _, "root") run_providers run_providers (Some run_signer) (repeat 5%N 16) (repeat 0%N 16) run_admission 0 run_s1.
Definition run_dummy : PolicySession := mkPolicySession "" run_scope "" "" 0 None.
Definition run_session : PolicySession := (run_ok run_established (run_dummy, run_s1)).1.
Definition run_s2 : BridgeDb := (run_ok run_established (run_dummy, run_s1)).2.

(** The read leaves the delegation of its scope to the session. *)
Definition run_request : ReadAuthorizationRequest :=
  mkReadAuthorizationRequest (bytes_string (repeat 5%N 16)) "read" (with_delegation None run_scope) demo_holder "body".
Definition run_read : result PortError (AuthorizedRead * BridgeDb) := authorize_read run_providers run_request 60000000000 run_s2.

Definition run_verified (d : PolicyDelegation) : Prop := d ∈ [run_policy; run_enforcement; run_root].

Lemma NoDup_fmap_eq {A B} (f : A → B) l x y : NoDup (f <$> l) → x ∈ l → y ∈ l → f x = f y → x = y.
Proof.
  intros Hnd [i Hi]%list_elem_of_lookup [j Hj]%list_elem_of_lookup Hf. assert (i = j) as ->; [|congruence].
  eapply NoDup_lookup; [exact Hnd|rewrite list_lookup_fmap, Hi; reflexivity|]. rewrite list_lookup_fmap, Hj. simpl. by rewrite Hf.
Qed.

#[local] Instance run_verified_artifacts : VerifiedArtifacts run_verified.
Proof.
  split.
  - intros d Hd. unfold run_verified in Hd. repeat (apply elem_of_cons in Hd as [->|Hd]; [vm_compute; reflexivity|]). by apply elem_of_nil in Hd.
  - intros d e Hd He. apply (NoDup_fmap_eq pd_cid [run_policy; run_enforcement; run_root]); [|done|done]. apply (bool_decide_eq_true_1 _). vm_compute. reflexivity.
Qed.

Lemma run_verify bytes d : verify bytes = Ok d → run_verified d.
Proof.
  assert (forallb (λ e, match verify e.1 with Ok d => bool_decide (d ∈ [run_policy; run_enforcement; run_root]) | Err _ => true end) run_documents = true) as Hall
    by (vm_compute; reflexivity).
  intros Hv. destruct (List.find (λ e, bool_decide (e.1 = bytes)) run_documents) as [[k v]|] eqn:Hf.
  - apply find_some in Hf as [Hin Hk%bool_decide_eq_true]. simpl in Hk. subst k. rewrite forallb_forall in Hall. specialize (Hall _ Hin). cbn [fst] in Hall.
    rewrite Hv in Hall. by apply bool_decide_eq_true in Hall.
  - unfold verify, from_json, strict_json_value in Hv. unfold json_read, run_text in Hv. by rewrite Hf in Hv.
Qed.

Lemma run_ok_pair {E A B} (r : result E (A * B)) a : is_ok r = true → r = Ok ((run_ok r a).1, (run_ok r a).2).
Proof. by destruct r as [[]|]. Qed.

Lemma run_established_ok : run_established = Ok (run_session, run_s2).
Proof. unfold run_session, run_s2. apply run_ok_pair. vm_compute. reflexivity. Qed.

Lemma run_two (now : Z) : (0 ≤ now)%Z → bridge_run run_verified run_node now [database.db_empty] [(run_admission, run_session)] run_s2.
Proof.
  intros Hnow. eapply br_tick; [|exact Hnow].
  eapply (br_establish _ _ 0 [] [] run_s1 (λ _, "root") run_providers run_providers (Some run_signer) (repeat 5%N 16) (repeat 0%N 16) run_admission run_session run_s2).
  - eapply (br_share _ _ 0 [] [] (mkBridgeDb database.db_empty share_empty)); [apply br_start|]. apply (sh_challenge 0 run_challenge). vm_compute. reflexivity.
  - by intros k [= <-].
  - exact I.
  - exact run_established_ok.
Qed.

Lemma sessions_single_use_witness :
  NoDup ((λ e : VerifiedSessionAdmission * PolicySession, pr_nonce (ad_request e.1)) <$> [(run_admission, run_session)]).
Proof. exact (proj1 (proj2 (sessions_single_use run_verified run_node run_verify 0 _ _ _ (run_two 0 (Z.le_refl 0))))). Defined.

Lemma validated_scope_granted_witness : ∃ policy request, requested_capability run_scope = Ok request ∧ granted run_scope request policy.
Proof.
  destruct (validated_scope_granted run_providers run_scope 0 database.db_empty (run_ok (validate_scope_in_transaction run_providers run_scope 0 database.db_empty)
      (0%Z, "", None, "", database.db_empty)).2 86400000000000 "a@x.org" (pd_cid run_enforcement) None) as (policy & delegation & request & Hs & _ & _ & _ & _ & ? & Hg & _).
  - vm_compute. reflexivity.
  - by exists policy, request.
Defined.

Definition run_dummy_read : AuthorizedRead := mkAuthorizedRead run_dummy run_request.
Definition run_authorized : AuthorizedRead := (run_ok run_read (run_dummy_read, run_s2)).1.
Definition run_s3 : BridgeDb := (run_ok run_read (run_dummy_read, run_s2)).2.

Lemma run_read_ok : run_read = Ok (run_authorized, run_s3).
Proof. unfold run_authorized, run_s3. apply run_ok_pair. vm_compute. reflexivity. Qed.

Lemma share_read_backed_witness :
  ∃ adm ps policy enforcement root root', (adm, ps) ∈ [(run_admission, run_session)] ∧ ps_handle ps = rr_session run_request ∧
    ps_scope (ar_session run_authorized) = pr_scope (ad_request adm) ∧ rr_holder run_request = pr_holder (ad_request adm) ∧
    ps_credential_digest (ar_session run_authorized) = ad_credential_digest adm ∧
    holder_root (bd_authority run_s3) adm root ∧ authorised run_node (bd_authority run_s3) 60000000000 root policy enforcement root'.
Proof.
  refine (share_read_backed run_verified run_node run_verify 60000000000 _ _ run_s2 run_s3 run_providers run_request run_authorized
    (run_two 60000000000 _) _ _ _).
  - lia.
  - exact run_read_ok.
  - exact I.
  - constructor; [|constructor]. split; intros _; vm_compute; reflexivity.
Defined.

(** The read cannot be made again, and a session is not established twice. *)
Example run_replays :
  run_ok (authorize_read run_providers run_request 60000000000 run_s3 ≫= λ _, Ok true) false = false ∧
  establish_session (λ _, "root") run_providers run_providers (Some run_signer) (repeat 6%N 16) (repeat 1%N 16) run_admission 0 run_s2 = Err Replay.
Proof. split; vm_compute; reflexivity. Qed.
