(* ===== verification/ShareMaterial.v ===== *)
(** * Email shares, authority material: tinycloud-core/src/share_email/authority.rs

    The operator's file: records that each hold two signed artifacts, the authority
    material and the policy of a share.  Loading checks the signatures, the two
    delegations, the two status observations and the attestation; what is loaded is
    then the three providers of the bridge, whose answers never change.  [json_print]
    is [serde_json::to_vec]. *)
From S2P Require Import Prelude Str Chars Identity Json Registry SqlCaveat Tables Jcs PolicyCapability Evidence PolicyDelegation PolicyMemory PolicyDatabase PolicyVerifier ShareTypes ShareInvitation ShareState ShareVerifier ShareBridge ShareRuns.

Definition domain (name : string) : string := name +:+ String (char 0) "".
Definition AUTHORITY_MATERIAL_DOMAIN : string := domain "xyz.tinycloud.share/authority-material-bundle/v1".
Definition POLICY_DOMAIN : string := domain "xyz.tinycloud.share/policy/v1".
Definition STATUS_DOMAIN : string := domain "xyz.tinycloud.share/authority-status/v1".
Definition ATTESTATION_DOMAIN : string := domain "xyz.tinycloud.share/enrollment-attestation/v1".

Inductive AuthorityProviderError := Io | Schema | BadSignature | BadArtifact.
#[export] Instance provider_error_dec : EqDecision AuthorityProviderError.
Proof. solve_decision. Defined.

Record LoadedMaterial := mkLoadedMaterial {
  lm_policy_cid : string;
  lm_delegation_cid : string;
  lm_bundle : AuthorityMaterialBundle;
  lm_statuses : list (string * string);
  lm_attestation : string;
  lm_target_origin : string;
  lm_node_audience : string;
  lm_invitation_kid : string;
  lm_invitation_public_key : string;
  lm_enrollment_digest : string;
}.

Record AuthorityTrustDescriptor := mkTrustDescriptor {
  td_target_origin : string;
  td_node_audience : string;
  td_invitation_kid : string;
  td_invitation_public_key : string;
  td_handle : string;
  td_digest : string;
  td_enrollment_digest : string;
}.

(** ** Fields *)

Definition exact_keys (object : list (string * json)) (expected : list string) : result AuthorityProviderError unit :=
  ensure (bool_decide (length object = length expected) && forallb (λ key, bool_decide (is_Some (obj_get key object))) expected) Schema.

Definition field (key : string) (v : json) : option json := m ← as_object v; obj_get key m.
Definition object_field (v : json) (key : string) : result AuthorityProviderError json := ok_or (field key v) Schema.
Definition object_field_from_map (m : list (string * json)) (key : string) : result AuthorityProviderError json := ok_or (obj_get key m) Schema.

Definition string_field (v : json) (key : string) : result AuthorityProviderError string :=
  f ← object_field v key;
  s ← ok_or (as_str f) Schema;
  _ ← ensure (negb (is_empty s)) Schema;
  Ok s.

(** [Value::as_u64]. *)
Definition as_u64 (v : json) : option N :=
  match v with JNumber (NInt z) => if ((0 <=? z) && (z <=? Z.of_N u64_max))%Z then Some (Z.to_N z) else None | _ => None end.
Definition uint_at (key : string) (v : json) : option N := field key v ≫= as_u64.

(** A text field that must be the given one: [string_field(v, key)? != text]. *)
Definition string_field_is (v : json) (key text : string) (e : AuthorityProviderError) : result AuthorityProviderError unit :=
  s ← string_field v key; ensure (bool_decide (s = text)) e.

Definition canonical_web_kid (kid did : string) : bool :=
  match split_once "#" kid with
  | None => false
  | Some (kid_did, fragment) =>
      bool_decide (kid_did = did) && negb (is_empty fragment) && negb (contains_char "#" fragment) && negb (existsb is_whitespace (chars fragment))
  end.

Definition material_kid (did : string) : string := did +:+ "#" +:+ trim_start_text (String.length did) "did:key:" did.

Definition WRAPPER_KEYS : list string :=
  ["name"; "domain"; "signerDid"; "message"; "jcs"; "messageDigest"; "signedBytesDigest"; "signatureDigest"; "signature"].
Definition RELATIONSHIP_KEYS : list string := ["policyOwnerDid"; "senderDid"; "authenticated"].
Definition MATERIAL_KEYS : list string :=
  ["type"; "version"; "handle"; "policyOwnerDid"; "senderDid"; "relationship"; "mapping"; "policyAuthorityBytes"; "policyAuthorityCid";
   "policyEnforcementBytes"; "policyEnforcementCid"; "statusObservations"; "enrollment"; "attestation"].
Definition MAPPING_KEYS : list string := ["sharePolicyCid"; "shareDelegationCid"; "policyAuthorityCid"; "policyEnforcementCid"].
Definition STATUS_KEYS : list string :=
  ["type"; "version"; "parentCid"; "state"; "sequence"; "checkedAt"; "freshUntil"; "revokedAt"; "signerKid"; "signerVersion"; "signature"].
Definition ENROLLMENT_KEYS : list string := ["targetOrigin"; "nodeAudience"; "invitationKid"; "invitationPublicKey"; "keyVersion"; "enabled"].

(** [Duration::seconds(300)]. *)
Definition STATUS_WINDOW : Z := seconds 300.

Section Loader.
Context `{Rfc3339} `{ShareTime} `{Nfc} `{FloatText} `{Sha256} `{DbTime} `{JsonText} `{EvidenceLib} `{Blake3} `{CidLib} `{Keccak256} `{Recover}.
Context (json_print : json → string).

Definition decode_bytes (v : json) (key : string) : result AuthorityProviderError string :=
  encoded ← string_field v key;
  bytes ← ok_or (b64url_decode encoded) Schema;
  _ ← ensure (bool_decide (b64url_encode bytes = encoded)) Schema;
  Ok bytes.

Definition decode_signature (v : json) : result AuthorityProviderError string :=
  encoded ← string_field v "value";
  bytes ← ok_or (b64url_decode encoded) BadSignature;
  _ ← ensure (bool_decide (String.length bytes = 64) && bool_decide (b64url_encode bytes = encoded)) BadSignature;
  Ok bytes.

Definition node_cid_field (v : json) (key : string) : result AuthorityProviderError string :=
  s ← string_field v key; ok_or (parse_node_cid s) Schema.

Definition digest_b64 (bytes : string) : string := sha256_b64 bytes.

Definition verify_detached (signer signed signature : string) : result AuthorityProviderError unit :=
  map_err (λ _, BadSignature) (verify_detached_ed25519 signer signed signature).

Definition material_instant (text : string) (e : AuthorityProviderError) : result AuthorityProviderError Z := ok_or (rfc3339_parse text) e.

(** ** Signed wrappers *)

Definition verify_wrapper (wrapper : json) (name dom : string) : result AuthorityProviderError (json * string) :=
  object ← ok_or (as_object wrapper) Schema;
  _ ← exact_keys object WRAPPER_KEYS;
  _ ← string_field_is wrapper "name" name BadSignature;
  _ ← string_field_is wrapper "domain" dom BadSignature;
  signer ← string_field wrapper "signerDid";
  message ← object_field wrapper "message";
  let message_jcs := canonicalize message in
  _ ← string_field_is wrapper "jcs" message_jcs BadArtifact;
  _ ← string_field_is wrapper "messageDigest" (digest_b64 message_jcs) BadArtifact;
  let signed := dom +:+ message_jcs in
  _ ← string_field_is wrapper "signedBytesDigest" (digest_b64 signed) BadArtifact;
  signature ← object_field wrapper "signature";
  signature_object ← ok_or (as_object signature) BadSignature;
  _ ← exact_keys signature_object ["alg"; "kid"; "value"];
  bytes ← decode_signature signature;
  _ ← string_field_is signature "alg" "EdDSA" BadSignature;
  _ ← string_field_is signature "kid" (material_kid signer) BadSignature;
  _ ← string_field_is wrapper "signatureDigest" (digest_b64 bytes) BadSignature;
  _ ← verify_detached signer signed bytes;
  Ok (message, signer).

(** ** Status observations *)

Definition load_status (policy_cid enforcement_cid : string) (loaded : list (string * string)) (status : json)
    : result AuthorityProviderError (string * string) :=
  object ← ok_or (as_object status) Schema;
  _ ← exact_keys object STATUS_KEYS;
  _ ← string_field_is status "type" "TinyCloudShareAuthorityStatusObservation" BadArtifact;
  _ ← ensure (bool_decide (uint_at "version" status = Some 1%N)) BadArtifact;
  _ ← string_field_is status "state" "active" BadArtifact;
  _ ← ensure (bool_decide (field "revokedAt" status = Some JNull)) BadArtifact;
  _ ← ensure (bool_decide (uint_at "signerVersion" status ≠ Some 0%N)) BadArtifact;
  parent ← node_cid_field status "parentCid";
  _ ← ensure ((bool_decide (parent = policy_cid) || bool_decide (parent = enforcement_cid)) &&
              negb (existsb (λ c, bool_decide (c.1 = parent)) loaded)) BadArtifact;
  checked ← string_field status "checkedAt"; checked ← material_instant checked Schema;
  fresh ← string_field status "freshUntil"; fresh ← material_instant fresh Schema;
  _ ← ensure ((checked <? fresh)%Z && (fresh - checked <=? STATUS_WINDOW)%Z) BadArtifact;
  signer_kid ← string_field status "signerKid";
  '(signer, _) ← ok_or (split_once "#" signer_kid) BadSignature;
  signature_object ← object_field status "signature";
  _ ← ensure (bool_decide (signer_kid = material_kid signer)) BadSignature;
  _ ← string_field_is signature_object "kid" signer_kid BadSignature;
  signature ← decode_signature signature_object;
  _ ← verify_detached signer (STATUS_DOMAIN +:+ canonicalize (JObject (without ["signature"] object))) signature;
  Ok (parent, json_print status).

Fixpoint load_each (policy_cid enforcement_cid : string) (values : list json) (loaded : list (string * string))
    : result AuthorityProviderError (list (string * string)) :=
  match values with
  | [] => Ok loaded
  | status :: values =>
      entry ← load_status policy_cid enforcement_cid loaded status;
      load_each policy_cid enforcement_cid values (loaded ++ [entry])
  end.

Definition load_statuses (v : json) (policy_cid enforcement_cid : string) : result AuthorityProviderError (list (string * string)) :=
  values ← ok_or (as_array v) Schema;
  _ ← ensure (bool_decide (length values = 2)) Schema;
  load_each policy_cid enforcement_cid values [].

(** ** Enrollment and attestation *)

Definition validate_enrollment (v : json) : result AuthorityProviderError unit :=
  object ← ok_or (as_object v) Schema;
  _ ← exact_keys object ENROLLMENT_KEYS;
  origin ← string_field v "targetOrigin";
  audience ← string_field v "nodeAudience";
  kid ← string_field v "invitationKid";
  public_key ← string_field v "invitationPublicKey";
  key ← ok_or (b64url_decode public_key) Schema;
  ensure (bool_decide (b64url_encode key = public_key) && bool_decide (String.length key = 32) && bool_decide (is_Some (parse_origin origin)) &&
          bool_decide (is_Some (parse_did audience)) && canonical_web_kid kid audience &&
          bool_decide (field "enabled" v = Some (JBool true)) && bool_decide (uint_at "keyVersion" v ≠ Some 0%N)) BadArtifact.

Definition validate_material_attestation (v enrollment : json) (enforcement : PolicyDelegation) : result AuthorityProviderError unit :=
  object ← ok_or (as_object v) Schema;
  _ ← exact_keys object ATTESTATION_FIELDS;
  origin ← string_field v "targetOrigin";
  audience ← string_field v "nodeAudience";
  enforcer_kid ← string_field v "enforcerKid";
  expires ← string_field v "expiresAt"; expires ← material_instant expires Schema;
  enforcement_expires ← material_instant (pd_expires_at enforcement) BadArtifact;
  enforcement_not_before ← material_instant (pd_not_before enforcement) BadArtifact;
  enforcer ← string_field v "enforcerDid";
  let binding := JObject [("enforcerDid", JString enforcer); ("enforcerKid", JString enforcer_kid);
                          ("keyVersion", default JNull (field "keyVersion" v)); ("nodeAudience", JString audience); ("targetOrigin", JString origin)] in
  measurement ← string_field v "measurementDigest"; measurement ← ok_or (b64url_decode measurement) BadArtifact;
  _ ← string_field_is v "type" "TinyCloudShareEnrollmentRuntimeAttestation" BadArtifact;
  _ ← ensure (bool_decide (uint_at "version" v = Some 1%N) && bool_decide (field "targetOrigin" v = field "targetOrigin" enrollment) &&
              bool_decide (field "nodeAudience" v = field "nodeAudience" enrollment) &&
              bool_decide (field "keyVersion" v = field "keyVersion" enrollment) &&
              bool_decide (field "publicKey" v = field "invitationPublicKey" enrollment) && starts_with (audience +:+ "#") enforcer_kid) BadArtifact;
  _ ← string_field_is v "enrollmentDigest" (digest_b64 (canonicalize enrollment)) BadArtifact;
  _ ← ensure (bool_decide (String.length measurement = 32) && (enforcement_not_before <? expires)%Z && (expires <=? enforcement_expires)%Z) BadArtifact;
  expected ← map_err (λ _, BadArtifact) (fact enforcement "enforcerDid");
  _ ← ensure (bool_decide (enforcer = expected)) BadArtifact;
  _ ← string_field_is v "localSignerDid" enforcer BadArtifact;
  _ ← string_field_is v "localSignerKid" (material_kid enforcer) BadArtifact;
  expected_binding ← map_err (λ _, BadArtifact) (fact enforcement "attestationBindingDigestHex");
  _ ← ensure (bool_decide (expected_binding = digest_b64 (canonicalize binding))) BadArtifact;
  signature_object ← object_field v "signature";
  signature ← decode_signature signature_object;
  _ ← string_field_is signature_object "kid" (material_kid enforcer) BadSignature;
  verify_detached enforcer (ATTESTATION_DOMAIN +:+ canonicalize (JObject (without ["signature"] object))) signature.

(** ** One record *)

(** The material's own header: sender and owner. *)
Definition check_material (authority policy_sender : json * string) : result AuthorityProviderError unit :=
  let '(authority, sender) := authority in
  _ ← ensure (bool_decide (sender = policy_sender.2)) BadArtifact;
  _ ← string_field_is authority "type" "TinyCloudShareAuthorityMaterial" BadArtifact;
  _ ← ensure (bool_decide (uint_at "version" authority = Some 1%N)) BadArtifact;
  _ ← string_field_is authority "senderDid" sender BadArtifact;
  relationship ← object_field authority "relationship";
  relationship_object ← ok_or (as_object relationship) Schema;
  _ ← exact_keys relationship_object RELATIONSHIP_KEYS;
  _ ← ensure (bool_decide (field "authenticated" relationship = Some (JBool true)) &&
              bool_decide ((field "senderDid" relationship ≫= as_str) = Some sender) &&
              bool_decide (field "policyOwnerDid" relationship = field "policyOwnerDid" authority)) BadArtifact;
  authority_object ← ok_or (as_object authority) Schema;
  exact_keys authority_object MATERIAL_KEYS.

Definition load_record (v : json) : result AuthorityProviderError LoadedMaterial :=
  object ← ok_or (as_object v) Schema;
  _ ← exact_keys object ["authorityMaterial"; "policy"];
  wrapper ← object_field_from_map object "authorityMaterial";
  '(authority, sender) ← verify_wrapper wrapper "authorityMaterial" AUTHORITY_MATERIAL_DOMAIN;
  wrapper ← object_field_from_map object "policy";
  '(policy, policy_sender) ← verify_wrapper wrapper "policy" POLICY_DOMAIN;
  _ ← check_material (authority, sender) (policy, policy_sender);
  mapping ← object_field authority "mapping";
  mapping_object ← ok_or (as_object mapping) Schema;
  _ ← exact_keys mapping_object MAPPING_KEYS;
  share_policy ← string_field mapping "sharePolicyCid"; share_policy ← ok_or (parse_policy_cid share_policy) Schema;
  share_delegation ← string_field mapping "shareDelegationCid"; share_delegation ← ok_or (parse_share_delegation share_delegation) Schema;
  policy_bytes ← decode_bytes authority "policyAuthorityBytes";
  enforcement_bytes ← decode_bytes authority "policyEnforcementBytes";
  policy_parent ← map_err (λ _, BadArtifact) (verify policy_bytes);
  enforcement_parent ← map_err (λ _, BadArtifact) (verify enforcement_bytes);
  policy_cid ← node_cid_field mapping "policyAuthorityCid";
  enforcement_cid ← node_cid_field mapping "policyEnforcementCid";
  _ ← ensure (bool_decide (pd_cid policy_parent = policy_cid) && bool_decide (pd_cid enforcement_parent = enforcement_cid) &&
              bool_decide (pd_issuer policy_parent = pd_issuer enforcement_parent)) BadArtifact;
  _ ← string_field_is policy "type" "TinyCloudSharePolicy" BadArtifact;
  _ ← ensure (bool_decide (uint_at "version" policy = Some 1%N)) BadArtifact;
  _ ← string_field_is policy "issuerDid" sender BadArtifact;
  let policy_state := canonicalize policy in
  _ ← ensure (bool_decide (policy_state_cid policy_state = share_policy)) BadArtifact;
  observations ← object_field authority "statusObservations";
  statuses ← load_statuses observations policy_cid enforcement_cid;
  enrollment ← object_field authority "enrollment";
  _ ← validate_enrollment enrollment;
  origin ← string_field enrollment "targetOrigin";
  audience ← string_field enrollment "nodeAudience";
  kid ← string_field enrollment "invitationKid";
  public_key ← string_field enrollment "invitationPublicKey";
  attestation ← object_field authority "attestation";
  _ ← validate_material_attestation attestation enrollment enforcement_parent;
  handle ← string_field authority "handle"; handle ← ok_or (parse_material_handle handle) Schema;
  Ok (mkLoadedMaterial share_policy share_delegation
        (mkBundle handle (digest_b64 (canonicalize authority)) policy_bytes enforcement_bytes policy_state policy_cid enforcement_cid enforcement_cid)
        statuses (json_print attestation) origin audience kid public_key (digest_b64 (canonicalize enrollment))).

Definition records_of (v : json) : result AuthorityProviderError (list json) :=
  match v with
  | JArray values => Ok values
  | JObject object =>
      match obj_get "records" object with
      | Some (JArray values) => Ok values
      | Some _ => Err Schema
      | None =>
          if bool_decide (is_Some (obj_get "authorityMaterial" object)) && bool_decide (is_Some (obj_get "policy" object))
          then Ok [JObject object] else Err Schema
      end
  | _ => Err Schema
  end.

Definition material_from_json (bytes : string) : result AuthorityProviderError (list LoadedMaterial) :=
  v ← ok_or (read_json bytes) Schema;
  values ← records_of v;
  _ ← ensure (negb (bool_decide (values = []))) Schema;
  try_map load_record values.

(** [std::fs::read] answers nothing for a file that cannot be read. *)
Definition material_from_path (fs_read : string → option string) (path : string) : result AuthorityProviderError (list LoadedMaterial) :=
  bytes ← ok_or (fs_read path) Io;
  material_from_json bytes.

(** ** The providers *)

Definition record_for (records : list LoadedMaterial) (policy delegation handle digest : string) : result PortError LoadedMaterial :=
  ok_or (List.find (λ r, bool_decide (lm_policy_cid r = policy) && bool_decide (lm_delegation_cid r = delegation) &&
                         bool_decide (bu_handle (lm_bundle r) = handle) && bool_decide (bu_digest (lm_bundle r) = digest)) records) Denied.

Definition loaded_resolve (records : list LoadedMaterial) (policy delegation : string) : result PortError AuthorityMaterialBundle :=
  ok_or (lm_bundle <$> List.find (λ r, bool_decide (lm_policy_cid r = policy) && bool_decide (lm_delegation_cid r = delegation)) records) Denied.

Definition loaded_resolve_exact (records : list LoadedMaterial) (policy delegation handle digest : string) : result PortError AuthorityMaterialBundle :=
  r ← record_for records policy delegation handle digest; Ok (lm_bundle r).

Definition status_of (cid : string) (r : LoadedMaterial) : option string := snd <$> List.find (λ c, bool_decide (c.1 = cid)) (lm_statuses r).

Definition loaded_refresh (records : list LoadedMaterial) (cid : string) : result PortError string := ok_or (find_map (status_of cid) records) Denied.

Definition attests (audience enforcer : string) (r : LoadedMaterial) : bool :=
  match read_json (lm_attestation r) with
  | Some v => bool_decide (text_at "nodeAudience" v = Some audience) && bool_decide (text_at "enforcerDid" v = Some enforcer)
  | None => false
  end.

Definition loaded_attest (records : list LoadedMaterial) (audience enforcer : string) : result PortError string :=
  ok_or (lm_attestation <$> List.find (attests audience enforcer) records) Denied.

(** [with_authority_providers] with the three providers of one file. *)
Definition loaded_providers (records : list LoadedMaterial) : Providers :=
  mkProviders (Some (loaded_resolve_exact records)) (Some (loaded_refresh records)) (Some (loaded_attest records)).

Definition later (o : option string) (now : Z) : bool := match o ≫= rfc3339_parse with Some t => (now <? t)%Z | None => false end.

Definition record_is_current (r : LoadedMaterial) (now : Z) : bool :=
  bool_decide (length (lm_statuses r) = 2) &&
  forallb (λ c, match read_json c.2 with
                | Some v => bool_decide (text_at "state" v = Some "active") && later (text_at "freshUntil" v) now
                | None => false
                end) (lm_statuses r) &&
  later (v ← read_json (lm_attestation r); text_at "expiresAt" v) now.

Definition healthy_at (records : list LoadedMaterial) (now : Z) : bool := existsb (λ r, record_is_current r now) records.

(** [ready]: the three providers of one file and a root signer. *)
Definition bridge_ready (records : list LoadedMaterial) (signer : option NodeRootSigner) (now : Z) : bool :=
  healthy_at records now && healthy_at records now && healthy_at records now && bool_decide (is_Some signer).

Definition trust_descriptors (records : list LoadedMaterial) : list AuthorityTrustDescriptor :=
  (λ r, mkTrustDescriptor (lm_target_origin r) (lm_node_audience r) (lm_invitation_kid r) (lm_invitation_public_key r) (bu_handle (lm_bundle r))
          (bu_digest (lm_bundle r)) (lm_enrollment_digest r)) <$> records.

Definition validate_node_trust (records : list LoadedMaterial) (origin audience kid public_key : string) : result AuthorityProviderError unit :=
  let encoded := b64url_encode public_key in
  ensure (negb (bool_decide (records = [])) &&
          forallb (λ r, bool_decide (lm_target_origin r = origin) && bool_decide (lm_node_audience r = audience) &&
                        bool_decide (lm_invitation_kid r = kid) && bool_decide (lm_invitation_public_key r = encoded)) records) BadArtifact.

End Loader.

(** ** What is loaded *)

(** Fields read back from the bytes of a printed value. *)
Lemma raw_get_of key m : raw_get key ((λ '(k, v), (k, raw_of v)) <$> m) = raw_of <$> obj_get key m.
Proof.
  induction m as [|[k v] m IH]; [done|]. unfold raw_get in *. cbn [fmap list_fmap List.find fst obj_get].
  destruct (decide (k = key)) as [->|Hne].
  - by rewrite bool_decide_eq_true_2.
  - rewrite bool_decide_eq_false_2 by done. exact IH.
Qed.

Lemma raw_str_of key m s : raw_str key ((λ '(k, v), (k, raw_of v)) <$> m) = Some s → obj_get key m = Some (JString s).
Proof. unfold raw_str. rewrite raw_get_of. by destruct (obj_get key m) as [[| |[]| | |]|]; simpl; intros [= ->]. Qed.

Section Loaded.
Context `{Rfc3339} `{ShareTime} `{Nfc} `{FloatText} `{Sha256} `{DbTime} `{JsonText} `{EvidenceLib} `{Blake3} `{CidLib} `{Keccak256} `{Recover}.
Context (json_print : json → string).

Lemma string_field_Ok v key s : string_field v key = Ok s → field key v = Some (JString s).
Proof.
  unfold string_field, object_field. intros Hv. apply bind_Ok in Hv as (f & Hf%ok_or_Ok & Hv). apply bind_Ok in Hv as (t & Ht%ok_or_Ok & Hv).
  apply bind_Ok in Hv as (? & _ & [= <-]). rewrite Hf. by destruct f; simplify_eq/=.
Qed.

(** A status observation of a delegation, signed by the key it names and fresh for at
    most five minutes. *)
Record observed (status : json) (cid : string) (checked fresh : Z) : Prop := mkObserved {
  os_parent : field "parentCid" status = Some (JString cid);
  os_state : field "state" status = Some (JString "active");
  os_checked : ∃ text, field "checkedAt" status = Some (JString text) ∧ rfc3339_parse text = Some checked;
  os_fresh : ∃ text, field "freshUntil" status = Some (JString text) ∧ rfc3339_parse text = Some fresh;
  os_window : (checked < fresh ≤ checked + STATUS_WINDOW)%Z;
  os_signed : ∃ m signer signature, status = JObject m ∧ field "signerKid" status = Some (JString (material_kid signer)) ∧
    verify_detached_ed25519 signer (STATUS_DOMAIN +:+ canonicalize (JObject (without ["signature"] m))) signature = Ok tt;
}.

Lemma string_field_is_Ok v key text e : string_field_is v key text e = Ok tt → field key v = Some (JString text).
Proof. unfold string_field_is. intros Hv. apply bind_Ok in Hv as (s & Hs%string_field_Ok & ->%ensure_Ok%bool_decide_eq_true). done. Qed.

Lemma load_status_Ok pc ec loaded status entry :
  load_status json_print pc ec loaded status = Ok entry →
  ∃ checked fresh, observed status entry.1 checked fresh ∧ entry.2 = json_print status ∧ entry.1 ∈ [pc; ec] ∧ entry.1 ∉ loaded.*1.
Proof.
  unfold load_status. intros Hv. apply bind_Ok in Hv as (m & Hm%ok_or_Ok & Hv). apply bind_Ok in Hv as (? & _ & Hv).
  do 2 (apply bind_Ok in Hv as (? & _ & Hv)). apply bind_Ok in Hv as ([] & Hstate%string_field_is_Ok & Hv).
  do 2 (apply bind_Ok in Hv as (? & _ & Hv)). apply bind_Ok in Hv as (parent & Hp & Hv).
  apply bind_Ok in Hp as (parent' & Hp%string_field_Ok & Hparse%ok_or_Ok). unfold parse_node_cid, parse_string in Hparse. case_match; simplify_eq.
  apply bind_Ok in Hv as (? & [Hcid Hnew]%ensure_Ok%andb_true_iff & Hv).
  apply bind_Ok in Hv as (tc & Htc%string_field_Ok & Hv). apply bind_Ok in Hv as (checked & Hc%ok_or_Ok & Hv).
  apply bind_Ok in Hv as (tf & Htf%string_field_Ok & Hv). apply bind_Ok in Hv as (fresh & Hf%ok_or_Ok & Hv).
  apply bind_Ok in Hv as (? & [Hlt%Z.ltb_lt Hle%Z.leb_le]%ensure_Ok%andb_true_iff & Hv). apply bind_Ok in Hv as (kid & Hkid%string_field_Ok & Hv).
  apply bind_Ok in Hv as ([signer ?] & _ & Hv). apply bind_Ok in Hv as (? & _ & Hv).
  apply bind_Ok in Hv as (? & ->%ensure_Ok%bool_decide_eq_true & Hv). apply bind_Ok in Hv as (? & _ & Hv). apply bind_Ok in Hv as (signature & _ & Hv).
  apply bind_Ok in Hv as ([] & Hsig & [= <-]). exists checked, fresh. split_and!; [|done| |].
  - split; [done|done|by exists tc|by exists tf|unfold STATUS_WINDOW in *; lia|]. exists m, signer, signature. split_and!; [by destruct status; simplify_eq/=|done|].
    unfold verify_detached in Hsig. by destruct (verify_detached_ed25519 _ _ _) as [[]|].
  - apply orb_true_iff in Hcid as [->%bool_decide_eq_true| ->%bool_decide_eq_true]; set_solver.
  - intros (e & He & Hin)%list_elem_of_fmap. apply negb_true_iff in Hnew. rewrite <- not_true_iff_false in Hnew. apply Hnew, existsb_exists.
    exists e. split; [by apply list_elem_of_In|]. apply bool_decide_eq_true. exact (eq_sym He).
Qed.

(** Two observations, one of each delegation. *)
Lemma load_statuses_Ok v pc ec l :
  load_statuses json_print v pc ec = Ok l →
  l.*1 ≡ₚ [pc; ec] ∧ ∀ cid bytes, (cid, bytes) ∈ l → ∃ status checked fresh, bytes = json_print status ∧ observed status cid checked fresh.
Proof.
  unfold load_statuses. intros Hv. apply bind_Ok in Hv as (values & _ & Hv). apply bind_Ok in Hv as (? & Hlen%ensure_Ok%bool_decide_eq_true & Hv).
  destruct values as [|s1 [|s2 [|]]]; try done. cbn [load_each] in Hv. apply bind_Ok in Hv as ([c1 b1] & Hl1 & Hv). apply bind_Ok in Hv as ([c2 b2] & Hl2 & Hv).
  injection Hv as <-. apply load_status_Ok in Hl1 as (k1 & f1 & Ho1 & Hb1 & Hin1 & _). apply load_status_Ok in Hl2 as (k2 & f2 & Ho2 & Hb2 & Hin2 & Hne).
  cbn [fst snd app] in *. split.
  - assert (c2 ≠ c1) by set_solver. assert (c1 = pc ∧ c2 = ec ∨ c1 = ec ∧ c2 = pc) as [[-> ->]|[-> ->]] by set_solver; [done|]. apply perm_swap.
  - intros cid bytes Hin. apply elem_of_cons in Hin as [[= -> ->]|Hin]; [by exists s1, k1, f1|]. apply list_elem_of_singleton in Hin as [= -> ->]. by exists s2, k2, f2.
Qed.

(** A wrapper that is accepted: its message is signed by the signer it names, under
    the domain of its kind. *)
Definition wrapped (dom : string) (message : json) (signer : string) : Prop :=
  ∃ signature, String.length signature = 64 ∧ verify_detached_ed25519 signer (dom +:+ canonicalize message) signature = Ok tt.

Lemma decode_signature_Ok v bytes : decode_signature v = Ok bytes → String.length bytes = 64.
Proof.
  unfold decode_signature. intros Hv. do 2 (apply bind_Ok in Hv as (? & _ & Hv)).
  apply bind_Ok in Hv as (? & [Hlen%bool_decide_eq_true _]%ensure_Ok%andb_true_iff & [= <-]). done.
Qed.

Lemma verify_wrapper_Ok w name dom message signer : verify_wrapper w name dom = Ok (message, signer) → wrapped dom message signer.
Proof.
  unfold verify_wrapper. intros Hv. do 4 (apply bind_Ok in Hv as (? & _ & Hv)). apply bind_Ok in Hv as (signer' & _ & Hv).
  apply bind_Ok in Hv as (message' & _ & Hv). do 6 (apply bind_Ok in Hv as (? & _ & Hv)).
  apply bind_Ok in Hv as (bytes & Hlen%decode_signature_Ok & Hv). do 3 (apply bind_Ok in Hv as (? & _ & Hv)).
  apply bind_Ok in Hv as ([] & Hsig & [= <- <-]). exists bytes. split; [done|]. unfold verify_detached in Hsig. by destruct (verify_detached_ed25519 _ _ _) as [[]|].
Qed.

(** What a loaded record is: the policy and the material are signed by one sender, and
    the sender is the policy's issuer; both delegations verify, have the CIDs of the
    mapping and one owner; the policy document is canonical and its CID is the share's
    policy; there is one active observation for each delegation. *)
Record loaded_sound (r : LoadedMaterial) (policy enforcement : PolicyDelegation) (authority document : json) (sender : string) : Prop := mkLoadedSound {
  ls_signed : wrapped AUTHORITY_MATERIAL_DOMAIN authority sender ∧ wrapped POLICY_DOMAIN document sender;
  ls_sender : field "issuerDid" document = Some (JString sender);
  ls_policy : verify (bu_policy_authority (lm_bundle r)) = Ok policy ∧ pd_cid policy = bu_authority_cid (lm_bundle r);
  ls_enforcement : verify (bu_policy_enforcement (lm_bundle r)) = Ok enforcement ∧ pd_cid enforcement = bu_enforcement_cid (lm_bundle r);
  ls_delegation : bu_delegation_cid (lm_bundle r) = bu_enforcement_cid (lm_bundle r);
  ls_owner : pd_issuer policy = pd_issuer enforcement;
  ls_document : bu_policy_state (lm_bundle r) = canonicalize document ∧ lm_policy_cid r = policy_state_cid (canonicalize document);
  ls_digest : bu_digest (lm_bundle r) = sha256_b64 (canonicalize authority);
  ls_observed : (lm_statuses r).*1 ≡ₚ [pd_cid policy; pd_cid enforcement];
  ls_statuses : ∀ cid bytes, (cid, bytes) ∈ lm_statuses r → ∃ status checked fresh, bytes = json_print status ∧ observed status cid checked fresh;
}.

Lemma load_record_Ok v r : load_record json_print v = Ok r → ∃ policy enforcement authority document sender, loaded_sound r policy enforcement authority document sender.
Proof.
  unfold load_record. intros Hv. do 3 (apply bind_Ok in Hv as (? & _ & Hv)). apply bind_Ok in Hv as ([authority sender] & Hwa%verify_wrapper_Ok & Hv).
  apply bind_Ok in Hv as (? & _ & Hv). apply bind_Ok in Hv as ([document sender'] & Hwp%verify_wrapper_Ok & Hv).
  apply bind_Ok in Hv as (? & Hm & Hv). apply bind_Ok in Hm as (? & Hs%ensure_Ok%bool_decide_eq_true & _). cbn [snd] in Hs. subst sender'.
  do 3 (apply bind_Ok in Hv as (? & _ & Hv)). apply bind_Ok in Hv as (? & _ & Hv). apply bind_Ok in Hv as (share_policy & _ & Hv).
  do 4 (apply bind_Ok in Hv as (? & _ & Hv)). apply bind_Ok in Hv as (policy & Hpol%map_err_Ok & Hv). apply bind_Ok in Hv as (enforcement & Henf%map_err_Ok & Hv).
  do 2 (apply bind_Ok in Hv as (? & _ & Hv)).
  apply bind_Ok in Hv as (? & [[<-%bool_decide_eq_true <-%bool_decide_eq_true]%andb_true_iff Hown%bool_decide_eq_true]%ensure_Ok%andb_true_iff & Hv).
  do 2 (apply bind_Ok in Hv as (? & _ & Hv)). apply bind_Ok in Hv as ([] & Hissuer%string_field_is_Ok & Hv).
  apply bind_Ok in Hv as (? & Hcid%ensure_Ok%bool_decide_eq_true & Hv). apply bind_Ok in Hv as (? & _ & Hv).
  apply bind_Ok in Hv as (statuses & [Hob Hst]%load_statuses_Ok & Hv). do 10 (apply bind_Ok in Hv as (? & _ & Hv)). injection Hv as <-.
  by exists policy, enforcement, authority, document, sender.
Qed.

End Loaded.

(** ** What the bridge serves from a file *)

Section Served.
Context `{Rfc3339} `{ShareTime} `{Nfc} `{FloatText} `{Sha256} `{DbTime} `{JsonText} `{EvidenceLib} `{Blake3} `{CidLib} `{Keccak256} `{Recover}.
Context (json_print : json → string).
(** [serde_json] reads back the value it printed. *)
Context (Hprint : ∀ v, json_read (json_print v) = (raw_of v, true)).

Lemma parse_status_observed status cid checked fresh expected now o :
  observed status cid checked fresh → parse_status (json_print status) expected now = Ok o → (checked ≤ now < fresh)%Z.
Proof.
  intros Ho Hp. destruct (os_signed _ _ _ _ Ho) as (m & _ & _ & -> & _ & _). destruct (os_checked _ _ _ _ Ho) as (tc & Htc & Hc).
  destruct (os_fresh _ _ _ _ Ho) as (tf & Htf & Hf). unfold parse_status in Hp. apply bind_Ok in Hp as (w & Hw%ok_or_Ok & Hp).
  assert (tw_checked_at w = tc ∧ tw_fresh_until w = tf) as [<- <-].
  { unfold read_status, read_document in Hw. rewrite Hprint in Hw. apply bind_Some in Hw as (r & [= <-] & Hw). apply bind_Some in Hw as (m' & Hm & Hw).
    unfold raw_fields in Hm. destruct (bool_decide _ && _) in Hm; [|discriminate Hm]. injection Hm as <-.
    repeat (let x := fresh "x" in let E := fresh "E" in apply bind_Some in Hw as (x & E & Hw)). injection Hw as <-.
    cbn [tw_checked_at tw_fresh_until] in *. unfold field in *. cbn [as_object mbind option_bind] in *.
    repeat match goal with Hx : raw_str _ _ = Some _ |- _ => apply raw_str_of in Hx end. by split; simplify_eq. }
  apply bind_Ok in Hp as (? & _ & Hp). unfold instant in Hp. rewrite Hc, Hf in Hp. cbn [ok_or] in Hp. rewrite !bind_ret_l in Hp.
  apply bind_Ok in Hp as (? & _ & Hp). apply bind_Ok in Hp as (? & Hg%ensure_Ok & _). rewrite !andb_true_iff, Z.leb_le, Z.ltb_lt in Hg. naive_solver.
Qed.

(** An observation of a loaded file: of the delegation [cid], fresh at [now]. *)
Definition observed_at (records : list LoadedMaterial) (cid : string) (now : Z) : Prop :=
  ∃ r status checked fresh, r ∈ records ∧ (cid, json_print status) ∈ lm_statuses r ∧ observed status cid checked fresh ∧ (checked ≤ now < fresh)%Z.

Definition all_loaded (records : list LoadedMaterial) : Prop :=
  ∀ r, r ∈ records → ∃ policy enforcement authority document sender, loaded_sound json_print r policy enforcement authority document sender.

Lemma material_loaded bytes records : material_from_json json_print bytes = Ok records → all_loaded records.
Proof.
  unfold material_from_json. intros Hv. do 3 (apply bind_Ok in Hv as (? & _ & Hv)). intros r Hr.
  destruct (try_map_elem _ _ _ _ Hv Hr) as (v & _ & Hl). by eapply load_record_Ok.
Qed.

Lemma refresh_observed records cid bytes now o :
  all_loaded records → loaded_refresh records cid = Ok bytes → parse_status bytes cid now = Ok o → observed_at records cid now.
Proof.
  intros Hall (r & Hr & Hs)%ok_or_Ok%find_map_Some Hp. unfold status_of in Hs.
  destruct (List.find _ (lm_statuses r)) as [[c b]|] eqn:Hf; simplify_eq/=. apply find_some in Hf as [Hin%list_elem_of_In Hc%bool_decide_eq_true]. cbn [fst] in Hc. subst c.
  destruct (Hall r Hr) as (policy & enforcement & authority & document & sender & Hsound).
  destruct (ls_statuses _ _ _ _ _ _ _ Hsound _ _ Hin) as (status & checked & fresh & -> & Ho). exists r, status, checked, fresh. split_and!; [done..| |].
  all: eapply parse_status_observed in Hp; [|exact Ho]; lia.
Qed.

(** The attestation that is handed out for an audience and an enforcer, unexpired. *)
Definition attested_at (records : list LoadedMaterial) (audience enforcer : string) (now : Z) : Prop :=
  ∃ first w expires, List.find (attests audience enforcer) records = Some first ∧ read_attestation (lm_attestation first) = Some w ∧
    rfc3339_parse (aw_expires_at w) = Some expires ∧ (now < expires)%Z.

Lemma validate_attestation_alive bytes origin audience enforcer digest ends now :
  validate_attestation bytes origin audience enforcer digest ends now = Ok tt →
  ∃ w expires, read_attestation bytes = Some w ∧ rfc3339_parse (aw_expires_at w) = Some expires ∧ (now < expires)%Z.
Proof.
  unfold validate_attestation, instant. intros Hv. apply bind_Ok in Hv as (w & Hw%ok_or_Ok & Hv). apply bind_Ok in Hv as (t & Ht%ok_or_Ok & Hv).
  apply bind_Ok in Hv as (? & _ & Hv). apply ensure_Ok in Hv. rewrite !andb_true_iff, Z.ltb_lt in Hv. exists w, t. naive_solver.
Qed.

Definition record_of_scope (scope : ShareScope) (r : LoadedMaterial) : Prop :=
  lm_policy_cid r = sc_policy_cid scope ∧ Some (lm_delegation_cid r) = sc_delegation_cid scope ∧
  bu_handle (lm_bundle r) = sc_material_handle scope ∧ bu_digest (lm_bundle r) = sc_material_digest scope.

Lemma scope_backed records scope now s out :
  all_loaded records → validate_scope_in_transaction (loaded_providers records) scope now s = Ok out →
  ∃ r policy enforcement authority document sender enforcer, r ∈ records ∧ record_of_scope scope r ∧
    loaded_sound json_print r policy enforcement authority document sender ∧
    observed_at records (pd_cid policy) now ∧ observed_at records (pd_cid enforcement) now ∧
    fact enforcement "enforcerDid" = Ok enforcer ∧ attested_at records (sc_node_audience scope) enforcer now.
Proof.
  unfold validate_scope_in_transaction. intros Hall Hv. apply bind_Ok in Hv as (delegation & Hd%ok_or_Ok & Hv).
  cbn [loaded_providers pv_resolve pv_refresh pv_attest provider ok_or] in Hv. rewrite !bind_ret_l in Hv.
  apply bind_Ok in Hv as (bundle & Hb & Hv). apply bind_Ok in Hb as (r & Hr%ok_or_Ok & [= <-]).
  apply find_some in Hr as [Hr%list_elem_of_In Hids]. rewrite !andb_true_iff, !bool_decide_eq_true in Hids. destruct Hids as [[[? Hdel] ?] ?].
  destruct (Hall r Hr) as (policy & enforcement & authority & document & sender & Hsound).
  apply bind_Ok in Hv as (? & _ & Hv). apply bind_Ok in Hv as (policy' & Hp%authority_Ok & Hv). apply bind_Ok in Hv as (enforcement' & He%authority_Ok & Hv).
  destruct (ls_policy _ _ _ _ _ _ _ Hsound) as [Hp' Hpc]. destruct (ls_enforcement _ _ _ _ _ _ _ Hsound) as [He' Hec].
  rewrite Hp in Hp'. injection Hp' as ->. rewrite He in He'. injection He' as ->.
  do 2 (apply bind_Ok in Hv as (? & _ & Hv)). apply bind_Ok in Hv as ([recipient expiry] & _ & Hv). do 3 (apply bind_Ok in Hv as (? & _ & Hv)).
  apply bind_Ok in Hv as (enforcer & Hen%map_err_Ok & Hv). apply bind_Ok in Hv as (enforcer' & Hdid%ok_or_Ok & Hv).
  assert (enforcer' = enforcer) as -> by (unfold parse_did_key, parse_string in Hdid; by case_match; simplify_eq).
  apply bind_Ok in Hv as (bp & Hbp & Hv). apply bind_Ok in Hv as (op & Hop & Hv). do 3 (apply bind_Ok in Hv as (? & _ & Hv)).
  apply bind_Ok in Hv as (be & Hbe & Hv). apply bind_Ok in Hv as (oe & Hoe & Hv). apply bind_Ok in Hv as (? & _ & Hv).
  apply bind_Ok in Hv as (attestation & Hat & Hv). apply bind_Ok in Hv as (? & _ & Hv). apply bind_Ok in Hv as ([] & Hva%validate_attestation_alive & _).
  unfold loaded_attest in Hat. destruct (List.find _ records) as [first|] eqn:Hfirst; simplify_eq/=. destruct Hva as (w & t & ? & ? & ?).
  exists r, policy, enforcement, authority, document, sender, enforcer. rewrite Hpc, Hec. split_and!; [done|unfold record_of_scope; by split_and!|done| | |done|].
  - by eapply refresh_observed.
  - by eapply refresh_observed.
  - by exists first, w, t.
Qed.

(** Every share served from a loaded file rests on that file.  A scope that the
    bridge validates names a record by its policy, delegation, handle and digest; the
    record's material and policy are signed by one sender, its two delegations verify;
    the file has an unexpired observation of each delegation, and the first attestation
    of the file for this node and enforcer has not expired. *)
Theorem loaded_scope_backed (bytes : string) (records : list LoadedMaterial) (scope : ShareScope) (now : Z) (s : database.DbState)
    (out : Z * string * option PinnedNamedStatement * string * database.DbState) :
  material_from_json json_print bytes = Ok records → validate_scope_in_transaction (loaded_providers records) scope now s = Ok out →
  ∃ r policy enforcement authority document sender enforcer, r ∈ records ∧ record_of_scope scope r ∧
    loaded_sound json_print r policy enforcement authority document sender ∧
    observed_at records (pd_cid policy) now ∧ observed_at records (pd_cid enforcement) now ∧
    fact enforcement "enforcerDid" = Ok enforcer ∧ attested_at records (sc_node_audience scope) enforcer now.
Proof. intros Hl%material_loaded Hv. by eapply scope_backed. Qed.

(** The instants at which the observations of a file were made. *)
Definition checked_before (records : list LoadedMaterial) (T : Z) : Prop :=
  ∀ r cid status checked fresh, r ∈ records → (cid, json_print status) ∈ lm_statuses r → observed status cid checked fresh → (checked ≤ T)%Z.

Lemma scope_stops records T now scope s :
  all_loaded records → checked_before records T → (T + STATUS_WINDOW ≤ now)%Z → is_ok (validate_scope_in_transaction (loaded_providers records) scope now s) = false.
Proof.
  intros Hall Hb Hnow. destruct (validate_scope_in_transaction _ _ _ _) as [out|] eqn:Hv; [|done]. exfalso.
  destruct (scope_backed records scope now s out Hall Hv) as (? & ? & ? & ? & ? & ? & ? & _ & _ & _ & (r & status & checked & fresh & Hr & Hin & Ho & Hlt) & _).
  pose proof (Hb _ _ _ _ _ Hr Hin Ho). pose proof (os_window _ _ _ _ Ho). lia.
Qed.

(** The file is read once, when the node starts: five minutes after the last of its
    observations no scope is validated any more, so that no session is opened and no
    share is read until the node is restarted with another file. *)
Theorem loaded_shares_stop (bytes : string) (records : list LoadedMaterial) (T now : Z) :
  material_from_json json_print bytes = Ok records → checked_before records T → (T + STATUS_WINDOW ≤ now)%Z →
  (∀ scope s, is_ok (validate_scope_in_transaction (loaded_providers records) scope now s) = false) ∧
  (∀ r s, is_ok (authorize_read (loaded_providers records) r now s) = false) ∧
  ∀ print P signer handle issuance adm s, is_ok (establish_session print (loaded_providers records) P signer handle issuance adm now s) = false.
Proof.
  intros Hall%material_loaded Hb Hnow. split_and!.
  - intros scope s. by eapply scope_stops.
  - intros r s. destruct (authorize_read _ _ _ _) as [out|] eqn:Ha; [|done]. exfalso. unfold authorize_read in Ha. do 6 (apply bind_Ok in Ha as (? & _ & Ha)).
    apply bind_Ok in Ha as (? & _ & Ha). apply bind_Ok in Ha as (out' & Hv & _). eapply scope_stops in Hnow; [|done..]. by rewrite Hv in Hnow.
  - intros print P signer handle issuance adm s. destruct (establish_session _ _ _ _ _ _ _ _ _) as [out|] eqn:Ha; [|done]. exfalso.
    unfold establish_session in Ha. apply bind_Ok in Ha as (out' & Hv & _). eapply scope_stops in Hnow; [|done..]. by rewrite Hv in Hnow.
Qed.

(** The attestation handed out is the first of the file for the node and the enforcer:
    once it has expired no share of that enforcer is served, whatever attestation the
    share's own record holds. *)
Theorem first_attestation_gates (bytes : string) (records : list LoadedMaterial) (scope : ShareScope) (now : Z) (s : database.DbState) (first : LoadedMaterial)
    (w : AttestationWire) (expires : Z) (enforcer : string) :
  material_from_json json_print bytes = Ok records → List.find (attests (sc_node_audience scope) enforcer) records = Some first →
  read_attestation (lm_attestation first) = Some w → rfc3339_parse (aw_expires_at w) = Some expires → (expires ≤ now)%Z →
  (∀ r policy, r ∈ records → record_of_scope scope r → verify (bu_policy_enforcement (lm_bundle r)) = Ok policy → fact policy "enforcerDid" = Ok enforcer) →
  is_ok (validate_scope_in_transaction (loaded_providers records) scope now s) = false.
Proof.
  intros Hall%material_loaded Hf Hw He Hle Henf. destruct (validate_scope_in_transaction _ _ _ _) as [out|] eqn:Hv; [|done]. exfalso.
  destruct (scope_backed records scope now s out Hall Hv) as (r & policy & enforcement & ? & ? & ? & enforcer' & Hr & Hids & Hsound & _ & _ & He' & Hat).
  destruct (ls_enforcement _ _ _ _ _ _ _ Hsound) as [Hver _]. rewrite (Henf _ _ Hr Hids Hver) in He'. injection He' as <-.
  destruct Hat as (first' & w' & t & Hf' & Hw' & Ht & Hlt). simplify_eq. lia.
Qed.

End Served.

(** ** A concrete file *)

(** A code for JSON values as texts of zeros and ones, for the printer. *)
Fixpoint json_tree (v : json) : gen_tree (Z + string) :=
  match v with
  | JNull => GenNode 0 []
  | JBool b => GenNode (if b then 1 else 2) []
  | JNumber (NInt z) => GenNode 3 [GenLeaf (inl z)]
  | JNumber (NFloat f) => GenNode 4 [GenLeaf (inl f)]
  | JString s => GenLeaf (inr s)
  | JArray l => GenNode 5 (json_tree <$> l)
  | JObject m => GenNode 6 ((λ kv, GenNode 7 [GenLeaf (inr kv.1); json_tree kv.2]) <$> m)
  end.

Fixpoint tree_json (t : gen_tree (Z + string)) : json :=
  match t with
  | GenLeaf (inr s) => JString s
  | GenLeaf (inl z) => JNumber (NInt z)
  | GenNode 1 [] => JBool true
  | GenNode 2 [] => JBool false
  | GenNode 3 [GenLeaf (inl z)] => JNumber (NInt z)
  | GenNode 4 [GenLeaf (inl f)] => JNumber (NFloat f)
  | GenNode 5 l => JArray (tree_json <$> l)
  | GenNode 6 l => JObject ((fix go l := match l with
                             | GenNode _ (GenLeaf (inr k) :: t :: _) :: l => (k, tree_json t) :: go l
                             | _ => [] end) l)
  | _ => JNull
  end.

Lemma tree_json_tree v : tree_json (json_tree v) = v.
Proof.
  induction v as [|[]|[]|s|l IH|m IH] using json_nested_ind; try done.
  - cbn [json_tree tree_json]. f_equal. induction IH as [|v l Hv _ IHl]; [done|]. cbn [fmap list_fmap]. by rewrite Hv, IHl.
  - cbn [json_tree tree_json]. f_equal. induction IH as [|[k v] m Hv _ IHm]; [done|]. cbn [fmap list_fmap fst snd] in *. by rewrite Hv, IHm.
Qed.

Fixpoint positive_text (p : positive) : string :=
  match p with xH => "" | xO p => String "0" (positive_text p) | xI p => String "1" (positive_text p) end.
Fixpoint text_positive (s : string) : option positive :=
  match s with
  | "" => Some xH
  | String c s => p ← text_positive s; if decide (c = "0"%char) then Some (xO p) else if decide (c = "1"%char) then Some (xI p) else None
  end.

Lemma text_positive_text p : text_positive (positive_text p) = Some p.
Proof. induction p as [p IH|p IH|]; cbn [positive_text text_positive]; rewrite ?IH; reflexivity. Qed.

Definition code_print (v : json) : string := positive_text (encode (json_tree v)).
Definition code_read (s : string) : option json := p ← text_positive s; tree_json <$> decode p.

Lemma code_read_print v : code_read (code_print v) = Some v.
Proof.
  unfold code_read, code_print. rewrite text_positive_text. cbn [mbind option_bind]. rewrite decode_encode. cbn [fmap option_fmap option_map].
  by rewrite tree_json_tree.
Qed.

#[local] Existing Instances demo_table_parse demo_table_clock demo_nfc demo_float run_sha run_db_time demo_share_lib run_blake run_cids demo_keccak demo_recover.

Definition file_signature (kid : string) : json := JObject [("alg", JString "EdDSA"); ("kid", JString kid); ("value", JString demo_signature)].
Definition file_wrapper (name dom : string) (message : json) : json :=
  JObject [("domain", JString dom); ("jcs", JString (canonicalize message)); ("message", message); ("messageDigest", JString run_digest);
           ("name", JString name); ("signature", file_signature (material_kid run_sender)); ("signatureDigest", JString run_digest);
           ("signedBytesDigest", JString run_digest); ("signerDid", JString run_sender)].
Definition file_status (cid : string) : json :=
  JObject [("checkedAt", JString "1970-01-01T00:00:00Z"); ("freshUntil", JString "1970-01-01T00:05:00Z"); ("parentCid", JString cid); ("revokedAt", JNull);
           ("sequence", JNumber (NInt 1)); ("signature", file_signature run_signer_kid); ("signerKid", JString run_signer_kid);
           ("signerVersion", JNumber (NInt 1)); ("state", JString "active"); ("type", JString "TinyCloudShareAuthorityStatusObservation");
           ("version", JNumber (NInt 1))].
Definition file_enrollment : json :=
  JObject [("enabled", JBool true); ("invitationKid", JString (run_audience +:+ "#key")); ("invitationPublicKey", JString run_digest);
           ("keyVersion", JNumber (NInt 1)); ("nodeAudience", JString run_audience); ("targetOrigin", JString "https://node.example")].
Definition file_attestation : json :=
  JObject [("enforcerDid", JString run_node); ("enforcerKid", JString (run_audience +:+ "#key")); ("enrollmentDigest", JString run_digest);
           ("expiresAt", JString "1970-01-02T00:00:00Z"); ("keyVersion", JNumber (NInt 1)); ("localSignerDid", JString run_node);
           ("localSignerKid", JString run_signer_kid); ("measurement", JString "m"); ("measurementDigest", JString run_digest);
           ("nodeAudience", JString run_audience); ("publicKey", JString run_digest); ("signature", file_signature run_signer_kid);
           ("targetOrigin", JString "https://node.example"); ("type", JString "TinyCloudShareEnrollmentRuntimeAttestation"); ("version", JNumber (NInt 1))].
Definition file_material : json :=
  JObject [("attestation", file_attestation); ("enrollment", file_enrollment); ("handle", JString "amh_1");
           ("mapping", JObject [("policyAuthorityCid", JString (pd_cid run_policy)); ("policyEnforcementCid", JString (pd_cid run_enforcement));
                                ("shareDelegationCid", JString run_delegation); ("sharePolicyCid", JString run_policy_cid)]);
           ("policyAuthorityBytes", JString "policy"); ("policyAuthorityCid", JString (pd_cid run_policy)); ("policyEnforcementBytes", JString "enforcement");
           ("policyEnforcementCid", JString (pd_cid run_enforcement)); ("policyOwnerDid", JString demo_owner);
           ("relationship", JObject [("authenticated", JBool true); ("policyOwnerDid", JString demo_owner); ("senderDid", JString run_sender)]);
           ("senderDid", JString run_sender); ("statusObservations", JArray [file_status (pd_cid run_policy); file_status (pd_cid run_enforcement)]);
           ("type", JString "TinyCloudShareAuthorityMaterial"); ("version", JNumber (NInt 1))].
Definition file_json : json :=
  JObject [("records", JArray [JObject [("authorityMaterial", file_wrapper "authorityMaterial" AUTHORITY_MATERIAL_DOMAIN file_material);
                                        ("policy", file_wrapper "policy" POLICY_DOMAIN run_state)]])].

Definition file_text : JsonText :=
  {| json_read := λ s, (match code_read s with
                        | Some v => raw_of v
                        | None => match List.find (λ e, bool_decide (e.1 = s)) (("file", file_json) :: run_documents) with Some (_, v) => raw_of v | None => RBad end
                        end, true);
     float_unsafe := λ _, false |}.
#[local] Existing Instance file_text.

Lemma file_prints v : json_read (code_print v) = (raw_of v, true).
Proof. cbn [json_read file_text]. by rewrite code_read_print. Qed.

Definition file_records : list LoadedMaterial := run_ok (material_from_json code_print "file") [].

Lemma file_loads : material_from_json code_print "file" = Ok file_records.
Proof. vm_compute. reflexivity. Qed.

Lemma file_statuses : lm_statuses <$> file_records = [(λ cid, (cid, code_print (file_status cid))) <$> [pd_cid run_policy; pd_cid run_enforcement]].
Proof. vm_compute. reflexivity. Qed.

Lemma file_checked : checked_before code_print file_records 0.
Proof.
  intros r cid status checked fresh Hr Hin Ho.
  assert (lm_statuses r ∈ lm_statuses <$> file_records) as Hs by exact (proj2 (list_elem_of_fmap _ _ _) (ex_intro _ r (conj eq_refl Hr))).
  rewrite file_statuses in Hs. apply list_elem_of_singleton in Hs. rewrite Hs in Hin. apply list_elem_of_fmap in Hin as (cid' & Hcode & _).
  apply (f_equal (code_read ∘ snd)) in Hcode. cbn [snd compose] in Hcode. rewrite !code_read_print in Hcode. apply (inj Some) in Hcode. subst status.
  destruct (os_checked _ _ _ _ Ho) as (text & [= <-] & Hc). vm_compute in Hc. injection Hc as <-. done.
Qed.

Lemma loaded_shares_stop_witness :
  ∀ r s, is_ok (authorize_read (loaded_providers file_records) r (seconds 300) s) = false.
Proof. exact (proj1 (proj2 (loaded_shares_stop code_print file_prints "file" file_records 0 (seconds 300) file_loads file_checked (Z.le_refl _)))). Defined.

(** At the start of the window the share of the file is validated. *)
Definition file_out : Z * string * option PinnedNamedStatement * string * database.DbState :=
  run_ok (validate_scope_in_transaction (loaded_providers file_records) run_scope 0 database.db_empty) (0%Z, "", None, "", database.db_empty).

Lemma run_ok_eq {E A} (r : result E A) a : is_ok r = true → r = Ok (run_ok r a).
Proof. by destruct r. Qed.

Lemma file_validates : validate_scope_in_transaction (loaded_providers file_records) run_scope 0 database.db_empty = Ok file_out.
Proof. unfold file_out. apply run_ok_eq. vm_compute. reflexivity. Qed.

Lemma loaded_scope_backed_witness : ∃ r policy, r ∈ file_records ∧ record_of_scope run_scope r ∧ observed_at code_print file_records (pd_cid policy) 0.
Proof.
  destruct (loaded_scope_backed code_print file_prints "file" file_records run_scope 0 database.db_empty file_out file_loads file_validates)
    as (r & policy & _ & _ & _ & _ & _ & Hr & Hids & _ & Hob & _).
  exists r, policy. split; [exact Hr|]. split; [exact Hids|exact Hob].
Defined.
