(* ===== verification/Storage.v ===== *)
(** * Block storage: tinycloud-core/src/storage/mod.rs and storage/memory.rs

    Values are content-addressed blocks per space.  [BlockStore] are the traits
    ([StorageSetup], [ImmutableReadStore], [ImmutableWriteStore],
    [ImmutableDeleteStore], [StoreSize]) over an explicit store;
    [BlockStoreLaws] is what the database layer relies on.  The in-memory store
    is an instance of both. *)
From S2P Require Import Prelude Str Chars Json Identity Resource Tables.

#[export] Instance SpaceId_countable : Countable SpaceId.
Proof.
  refine (inj_countable' (λ s, (base_did s, name s)) (λ p, {| base_did := p.1; name := p.2 |}) _).
  by intros [].
Defined.

Class BlockStore (B E : Type) := {
  bs_create : B → SpaceId → result E B;
  bs_contains : B → SpaceId → Hash → result E bool;
  bs_read : B → SpaceId → Hash → result E (option string);
  bs_persist : B → SpaceId → string → result E (Hash * B);
  bs_remove : B → SpaceId → Hash → result E (option unit * B);
  bs_total_size : B → SpaceId → result E (option N);
}.

Class BlockStoreLaws (B E : Type) `{Blake3} `{BlockStore B E} := {
  persist_hash (b b' : B) (s : SpaceId) (c : string) (h : Hash) :
    bs_persist b s c = Ok (h, b') → h = hash c;
  persist_read (b b' : B) (s : SpaceId) (c : string) (h : Hash) :
    bs_persist b s c = Ok (h, b') → bs_read b' s h = Ok (Some c);
  persist_frame (b b' : B) (s s' : SpaceId) (c : string) (h h' : Hash) :
    bs_persist b s c = Ok (h, b') → (s', h') ≠ (s, h) → bs_read b' s' h' = bs_read b s' h';
}.

(** ** [MemoryStore] *)

Notation MemoryStore := (gmap SpaceId (gmap Hash string)).

Section Memory.
Context `{Blake3}.

Definition mem_create (b : MemoryStore) (s : SpaceId) : MemoryStore :=
  match b !! s with Some _ => b | None => <[s := ∅]> b end.

Definition mem_contains (b : MemoryStore) (s : SpaceId) (h : Hash) : bool :=
  match b !! s with Some o => bool_decide (is_Some (o !! h)) | None => false end.

Definition mem_read (b : MemoryStore) (s : SpaceId) (h : Hash) : option string :=
  match b !! s with Some o => o !! h | None => None end.

(** [entry(space).or_insert_with(..)], then [insert(hash, data)]. *)
Definition mem_persist (b : MemoryStore) (s : SpaceId) (data : string) : Hash * MemoryStore :=
  let h := hash data in
  (h, <[s := <[h := data]> (default ∅ (b !! s))]> b).

Inductive KeyedWriteError := IncorrectHash.

Definition mem_persist_keyed (b : MemoryStore) (s : SpaceId) (data : string) (h : Hash)
    : result KeyedWriteError MemoryStore :=
  if negb (hash_eqb h (hash data)) then Err IncorrectHash
  else Ok (<[s := <[h := data]> (default ∅ (b !! s))]> b).

Definition mem_remove (b : MemoryStore) (s : SpaceId) (h : Hash) : option unit * MemoryStore :=
  match b !! s with
  | Some o => match o !! h with
              | Some _ => (Some tt, <[s := delete h o]> b)
              | None => (None, b)
              end
  | None => (None, b)
  end.

Definition mem_total_size (b : MemoryStore) (s : SpaceId) : option N :=
  match b !! s with
  | Some o => Some (map_fold (λ _ v n, (N.of_nat (String.length v) + n)%N) 0%N o)
  | None => None
  end.

#[export] Instance memory_store : BlockStore MemoryStore Empty_set :=
  {| bs_create b s := Ok (mem_create b s);
     bs_contains b s h := Ok (mem_contains b s h);
     bs_read b s h := Ok (mem_read b s h);
     bs_persist b s c := Ok (mem_persist b s c);
     bs_remove b s h := Ok (mem_remove b s h);
     bs_total_size b s := Ok (mem_total_size b s) |}.

Lemma mem_read_persist (b : MemoryStore) s s' c h' :
  mem_read (mem_persist b s c).2 s' h' =
  if decide (s' = s ∧ h' = hash c) then Some c else mem_read b s' h'.
Proof.
  unfold mem_read, mem_persist. simpl. destruct (decide (s' = s)) as [->|Hs].
  - rewrite lookup_insert_eq. destruct (decide (h' = hash c)) as [->|Hh].
    + rewrite lookup_insert_eq. by rewrite decide_True.
    + rewrite lookup_insert_ne by done. rewrite decide_False by naive_solver.
      destruct (b !! s); simpl; [done|]. by rewrite lookup_empty.
  - rewrite lookup_insert_ne by done. by rewrite decide_False by naive_solver.
Qed.

#[export] Instance memory_store_laws : BlockStoreLaws MemoryStore Empty_set.
Proof.
  split; intros.
  - by simplify_eq/=.
  - simplify_eq/=. f_equal. change (<[s := _]> b) with (mem_persist b s c).2.
    rewrite mem_read_persist. by rewrite decide_True.
  - simplify_eq/=. f_equal. change (<[s := _]> b) with (mem_persist b s c).2.
    rewrite mem_read_persist. rewrite decide_False; [done|]. naive_solver.
Qed.

End Memory.

(** ** Staging: [HashBuffer] of storage/util.rs *)

(** The staged bytes and the bytes the hasher has been given. *)
Record HashBuffer := mkHashBuffer { buffer : string; hashed : string }.

Definition hash_buffer_new : HashBuffer := mkHashBuffer "" "".
Definition hash_buffer_hash `{Blake3} (b : HashBuffer) : Hash := hash (hashed b).

(** What the inner writer answers to one poll: not yet, or so many bytes taken. *)
Inductive WritePoll := WPending | WReady (n : nat).

#[export] Instance WritePoll_eq_dec : EqDecision WritePoll.
Proof. solve_decision. Defined.

(** [poll_write]: the whole buffer is hashed, then the inner writer is polled. *)
Definition poll_write (b : HashBuffer) (buf : string) (inner : WritePoll) : HashBuffer :=
  mkHashBuffer (match inner with WPending => buffer b | WReady n => buffer b +:+ String.substring 0 n buf end)
    (hashed b +:+ buf).

(** [write_all]: polls until everything is taken; the answers of the inner writer
    are the script, [None] when they run out or are not those of a writer (which
    takes at least one byte and at most all). *)
Fixpoint write_all (b : HashBuffer) (buf : string) (polls : list WritePoll) : option HashBuffer :=
  match polls with
  | [] => if is_empty buf then Some b else None
  | WPending :: polls => if is_empty buf then None else write_all (poll_write b buf WPending) buf polls
  | WReady n :: polls =>
      if bool_decide (1 ≤ n ≤ String.length buf)%nat
      then write_all (poll_write b buf (WReady n)) (String.substring n (String.length buf - n) buf) polls
      else None
  end.

Lemma write_all_spec b buf polls b' :
  write_all b buf polls = Some b' →
  buffer b' = buffer b +:+ buf ∧ (String.length (hashed b) + String.length buf ≤ String.length (hashed b'))%nat ∧
  (buf ≠ "" → polls ≠ [WReady (String.length buf)] →
   String.length (hashed b) + String.length buf < String.length (hashed b'))%nat.
Proof.
  revert b buf. induction polls as [|[|n] polls IH]; intros b buf Hw; cbn [write_all] in Hw.
  - unfold is_empty in Hw. case_bool_decide as Hb; [|done]. simplify_eq. rewrite append_nil_r. split_and!; [done|simpl; lia|done].
  - unfold is_empty in Hw. case_bool_decide as Hb; [done|]. apply IH in Hw as (Hbuf & Hle & _). simpl in Hbuf, Hle.
    rewrite length_append in Hle. assert (String.length buf ≠ 0) by (by intros ->%length_zero). split_and!; [done|lia|lia].
  - case_bool_decide as Hn; [|done]. pose proof (substring_cut buf n ltac:(lia)) as Hcut.
    set (taken := String.substring 0 n buf) in *. set (rest := String.substring n (String.length buf - n) buf) in *.
    destruct (decide (rest = "")) as [Hr|Hr].
    + rewrite Hr in Hw. destruct polls as [|[|m] polls]; simpl in Hw; simplify_eq.
      * simpl. rewrite Hr, append_nil_r in Hcut. fold taken. rewrite Hcut, length_append. split_and!; [done|lia|].
        intros _ Hne. exfalso. apply Hne. do 2 f_equal. rewrite <- (substring_take_length buf n) by lia.
        fold taken. by rewrite Hcut.
      * case_bool_decide; [lia|done].
    + apply IH in Hw as (Hbuf & Hle & _). simpl in Hbuf, Hle. rewrite length_append in Hle. rewrite Hbuf, append_assoc.
      fold taken. rewrite Hcut. assert (String.length rest ≠ 0) by (by intros ->%length_zero).
      split_and!; [done|lia|lia].
Qed.

(** ** Claims *)

(** The in-memory block store is content-addressed: what was persisted in a
    space is read back under the hash of its bytes and under no other change,
    [contains] agrees with [read], removing a block removes exactly it, and
    [persist_keyed] accepts a block exactly under its own hash. *)
Theorem memory_store_content_addressed `{Blake3} (b : MemoryStore) (s s' : SpaceId) (c : string) (h h' : Hash) :
  mem_read (mem_persist b s c).2 s' h' =
    (if decide (s' = s ∧ h' = hash c) then Some c else mem_read b s' h') ∧
  mem_contains b s h = bool_decide (is_Some (mem_read b s h)) ∧
  mem_read (mem_remove b s h).2 s' h' = (if decide (s' = s ∧ h' = h) then None else mem_read b s' h') ∧
  (is_ok (mem_persist_keyed b s c h) = true ↔ h = hash c).
Proof.
  split_and!.
  - apply mem_read_persist.
  - unfold mem_contains, mem_read. by destruct (b !! s).
  - unfold mem_read, mem_remove. destruct (b !! s) as [o|] eqn:Hs.
    + destruct (o !! h) as [v|] eqn:Hh; simpl.
      * destruct (decide (s' = s)) as [->|].
        -- rewrite lookup_insert_eq, Hs. destruct (decide (h' = h)) as [->|].
           ++ rewrite decide_True by done. by rewrite lookup_delete_eq.
           ++ rewrite decide_False by naive_solver. by rewrite lookup_delete_ne.
        -- rewrite lookup_insert_ne by done. by rewrite decide_False by naive_solver.
      * destruct (decide (s' = s ∧ h' = h)) as [[-> ->]|]; [by rewrite Hs|done].
    + simpl. destruct (decide (s' = s ∧ h' = h)) as [[-> ->]|]; [by rewrite Hs|done].
  - unfold mem_persist_keyed. destruct (hash_eqb h (hash c)) eqn:Hh; simpl.
    + by apply hash_eqb_true in Hh.
    + split; [done|]. intros ->. by rewrite (proj2 (hash_eqb_true _ _)) in Hh.
Qed.

(** Staged blocks are hashed twice when a write is retried: writing bytes to a
    [HashBuffer] always stages exactly those bytes, and its hash is the hash of
    what is staged exactly when the inner writer took them in one poll.  A
    pending poll or a partial write (temporary files of an asynchronous runtime
    give both, the in-memory staging neither) makes the hasher see bytes again, so
    the block is stored under a hash that is not its own. *)
Theorem hash_buffer_exact (b b' : HashBuffer) (buf : string) (polls : list WritePoll) :
  hashed b = buffer b → buf ≠ "" → write_all b buf polls = Some b' →
  buffer b' = buffer b +:+ buf ∧ (hashed b' = buffer b' ↔ polls = [WReady (String.length buf)]).
Proof.
  intros Heq Hne Hw. pose proof (write_all_spec _ _ _ _ Hw) as (Hbuf & Hle & Hlt). split; [done|]. split.
  - intros Hh. destruct (decide (polls = [WReady (String.length buf)])) as [|Hp]; [done|].
    specialize (Hlt Hne Hp). rewrite Hh, Hbuf, length_append, Heq in Hlt. lia.
  - intros ->. simpl in Hw. case_bool_decide; [|done]. unfold is_empty in Hw. case_bool_decide as Hr; [|done].
    simplify_eq/=. rewrite Heq. f_equal. symmetry. by apply substring_all.
Qed.

Lemma hash_buffer_exact_witness :
  write_all hash_buffer_new "ab" [WPending; WReady 2] = Some (mkHashBuffer "ab" "abab") ∧ "abab" ≠ "ab".
Proof.
  split; [reflexivity|]. intros Heq.
  apply (hash_buffer_exact hash_buffer_new (mkHashBuffer "ab" "abab") "ab" [WPending; WReady 2]) in Heq; done.
Defined.
