(* ===== verification/Chain.v ===== *)
(** * Walking a proof chain: tinycloud-core/src/models/revocation.rs 56-134

    [ancestor_chain_ids_for_roots] walks the [parent_delegation] table from the
    roots upwards, depth first, over at most 64 distinct nodes.  The walk is a
    loop over an explicit stack; it takes fuel here, [walk_fuel], which is
    enough for every input ([walk_total]). *)
From S2P Require Import Prelude Str Chars Json Identity Resource Tables.
From Stdlib Require Import Sorting.Permutation.

Definition MAX_CHAIN_TRAVERSAL_NODES : nat := 64.
Arguments MAX_CHAIN_TRAVERSAL_NODES : simpl never.

Inductive ChainTraversalError :=
| ChainDb (e : DbErr)
| LimitExceeded.

#[export] Instance ChainTraversalError_eq_dec : EqDecision ChainTraversalError.
Proof. solve_decision. Defined.

(** [find().filter(Revoked.eq(id)).count() > 0]. *)
Definition is_revoked (db : Db) (delegation_id : Hash) : bool :=
  (0 <? length (List.filter (λ r, hash_eqb (r_revoked r) delegation_id) (revocations db)))%nat.

(** The body of [for link in parents]; the stack's top is the list's head. *)
Fixpoint push_parents (visited frontier : list Hash) (links : list ParentRow)
    : result ChainTraversalError (list Hash) :=
  match links with
  | [] => Ok frontier
  | link :: links =>
      if mem (p_parent link) visited || mem (p_parent link) frontier
      then push_parents visited frontier links
      else if (MAX_CHAIN_TRAVERSAL_NODES <=? length visited + length frontier)%nat
      then Err LimitExceeded
      else push_parents visited (p_parent link :: frontier) links
  end.

Section Walk.
Context `{RowOrder}.

(** [parent_delegations ... filter(Child.eq(current)).limit(n)]. *)
Definition read_parents (db : Db) (n : nat) (current : Hash) : list ParentRow :=
  take n (select (λ l, hash_eqb (p_child l) current) (parent_delegations db)).

(** The [while let] loop.  [visited] holds the nodes of [visited] and, latest
    first, of [ordered]: the loop adds a node to both or to neither. *)
Fixpoint walk (fuel : nat) (db : Db) (visited frontier : list Hash)
    : option (result ChainTraversalError (list Hash)) :=
  match fuel with
  | O => None
  | S fuel =>
      match frontier with
      | [] => Some (Ok (rev visited))
      | current :: frontier =>
          if mem current visited then walk fuel db visited frontier
          else
            let visited := current :: visited in
            if (MAX_CHAIN_TRAVERSAL_NODES <? length visited)%nat then Some (Err LimitExceeded)
            else
              let remaining := (MAX_CHAIN_TRAVERSAL_NODES - length visited)%nat in
              match push_parents visited frontier (read_parents db (remaining + 1) current) with
              | Err e => Some (Err e)
              | Ok frontier => walk fuel db visited frontier
              end
      end
  end.

(** Every node enters [visited] at most once and the stack never holds more
    than 64 nodes. *)
Definition walk_fuel : nat := 65 * 66 + 65.

Lemma walk_fuel_enough n : (n ≤ 64 → (65 - 0) * 66 + n < walk_fuel)%nat.
Proof. unfold walk_fuel. lia. Qed.
#[global] Opaque walk_fuel.

Definition ancestor_chain_ids_for_roots (db : Db) (roots : list Hash)
    : result ChainTraversalError (list Hash) :=
  let frontier := dedup (sort_by hash_leb roots) in
  if (MAX_CHAIN_TRAVERSAL_NODES <? length frontier)%nat then Err LimitExceeded
  else default (Err LimitExceeded) (walk walk_fuel db [] (rev frontier)).

Definition ancestor_chain_ids (db : Db) (start : Hash) : result ChainTraversalError (list Hash) :=
  ancestor_chain_ids_for_roots db [start].

Definition first_revoked_ancestor `{CidLib} (db : Db) (start : Hash)
    : result ChainTraversalError (option string) :=
  ids ← ancestor_chain_ids db start;
  Ok (cid_text <$> find (is_revoked db) (drop 1 ids)).

End Walk.
Arguments ancestor_chain_ids_for_roots : simpl never.
Arguments ancestor_chain_ids : simpl never.
Arguments first_revoked_ancestor : simpl never.

(** ** What the walk computes *)

Definition parent_of (db : Db) (child parent : Hash) : Prop :=
  mkParentRow parent child ∈ parent_delegations db.

(** [ancestor db h a]: [a] is [h] or is reached from it through parents. *)
Definition ancestor (db : Db) : relation Hash := rtc (parent_of db).

Definition parent_count (db : Db) (h : Hash) : nat :=
  length (List.filter (λ l, hash_eqb (p_child l) h) (parent_delegations db)).

Definition revoked (db : Db) (h : Hash) : Prop := ∃ r, r ∈ revocations db ∧ r_revoked r = h.

Lemma is_revoked_spec db h : is_revoked db h = true ↔ revoked db h.
Proof.
  unfold is_revoked, revoked. rewrite Nat.ltb_lt. split.
  - destruct (List.filter _ _) as [|r l] eqn:Hf; simpl; [lia|]. intros _.
    assert (In r (r :: l)) as Hr by (simpl; auto). rewrite <- Hf, filter_In, hash_eqb_true in Hr.
    exists r. by rewrite list_elem_of_In.
  - intros (r & Hr & <-). assert (In r (List.filter (λ x, hash_eqb (r_revoked x) (r_revoked r)) (revocations db))) as Hin.
    { by rewrite filter_In, hash_eqb_true, <- list_elem_of_In. }
    destruct (List.filter _ _); [done|simpl; lia].
Qed.

Lemma is_revoked_false db h : is_revoked db h = false ↔ ¬ revoked db h.
Proof. rewrite <- is_revoked_spec. by destruct (is_revoked db h). Qed.

Lemma find_None_forall {A} (f : A → bool) l : find f l = None ↔ ∀ x, x ∈ l → f x = false.
Proof.
  induction l as [|y l IH]; simpl.
  - split; [|done]. intros _ x Hx. by apply not_elem_of_nil in Hx.
  - destruct (f y) eqn:Hy.
    + split; [done|]. intros Hall. specialize (Hall y (list_elem_of_here _ _)). congruence.
    + rewrite IH. split; [|intros Hall x Hx; by apply Hall, list_elem_of_further].
      intros Hall x [->|Hx]%elem_of_cons; auto.
Qed.

Lemma find_Some_elem {A} (f : A → bool) l x : find f l = Some x → x ∈ l ∧ f x = true.
Proof. intros Hf%find_some. by rewrite list_elem_of_In. Qed.

Lemma push_parents_Ok visited frontier links out :
  push_parents visited frontier links = Ok out →
  frontier ⊆ out ∧ (∀ x, x ∈ out → x ∈ frontier ∨ ∃ l, l ∈ links ∧ p_parent l = x) ∧
  (∀ l, l ∈ links → p_parent l ∈ visited ∨ p_parent l ∈ out) ∧
  (length out ≤ length frontier `max` MAX_CHAIN_TRAVERSAL_NODES)%nat.
Proof.
  revert frontier. induction links as [|l links IH]; intros frontier Hp; cbn [push_parents] in Hp.
  { ok_inv. split_and!; [done|auto|set_solver|lia]. }
  destruct (mem (p_parent l) visited || mem (p_parent l) frontier) eqn:Hm.
  - apply IH in Hp as (Hsub & Hin & Hout & Hlen). apply orb_true_iff in Hm.
    rewrite !mem_true in Hm. split_and!; [done|set_solver| |done].
    intros k [->|Hk]%elem_of_cons; [|auto]. destruct Hm; [by left|right; by apply Hsub].
  - destruct (Nat.leb_spec MAX_CHAIN_TRAVERSAL_NODES (length visited + length frontier)) as [Hl|Hl];
      [done|].
    apply IH in Hp as (Hsub & Hin & Hout & Hlen). cbn [length] in Hlen. split_and!; [set_solver| | |lia].
    + intros x [[->|Hx]%elem_of_cons|(k & Hk & <-)]%Hin; [right; exists l; set_solver|by left|set_solver].
    + intros k [->|Hk]%elem_of_cons; [right; apply Hsub; set_solver|auto].
Qed.

Lemma push_parents_err visited frontier links e :
  push_parents visited frontier links = Err e → e = LimitExceeded.
Proof.
  revert frontier. induction links as [|l links IH]; intros frontier; cbn [push_parents]; [done|].
  destruct (_ || _); [apply IH|].
  destruct (MAX_CHAIN_TRAVERSAL_NODES <=? _)%nat; [by intros [= <-]|apply IH].
Qed.

Section WalkFacts.
Context `{RowOrder} (db : Db).

Lemma read_parents_sound n h l : l ∈ read_parents db n h → parent_of db h (p_parent l).
Proof.
  unfold read_parents, parent_of. intros Hl%subseteq_take. apply elem_of_select in Hl as [Hl Hc].
  apply hash_eqb_true in Hc as <-. by destruct l.
Qed.

Lemma read_parents_complete n h p :
  (parent_count db h ≤ n)%nat → parent_of db h p → ∃ l, l ∈ read_parents db n h ∧ p_parent l = p.
Proof.
  intros Hn Hp. exists (mkParentRow p h). split; [|done]. unfold read_parents.
  rewrite take_ge by (by rewrite select_length).
  apply elem_of_select. split; [done|]. by apply hash_eqb_true.
Qed.

(** The walk returns for every stack of at most 64 nodes. *)
Lemma walk_total fuel visited frontier :
  (length visited ≤ 64)%nat → (length frontier ≤ 64)%nat →
  ((65 - length visited) * 66 + length frontier < fuel)%nat →
  is_Some (walk fuel db visited frontier).
Proof.
  revert visited frontier. induction fuel as [|fuel IH]; intros visited frontier Hv Hf Hm; [lia|].
  destruct frontier as [|h frontier]; [by eexists|]. cbn [walk]. cbn [length] in *.
  destruct (mem h visited); [apply IH; lia|].
  destruct (Nat.ltb_spec MAX_CHAIN_TRAVERSAL_NODES (S (length visited))) as [Hl|Hl]; [by eexists|].
  destruct (push_parents _ _ _) as [out|e] eqn:Hp; [|by eexists].
  apply push_parents_Ok in Hp as (_ & _ & _ & Hlen). unfold MAX_CHAIN_TRAVERSAL_NODES in *.
  apply IH; cbn [length]; lia.
Qed.

(** Everything it returns is an ancestor of a root, without repetition and
    within the limit; what was on the stack is returned. *)
Lemma walk_sound fuel visited frontier ids (P : Hash → Prop) :
  walk fuel db visited frontier = Some (Ok ids) →
  (∀ h, h ∈ visited ∨ h ∈ frontier → P h) → (∀ h p, P h → parent_of db h p → P p) →
  NoDup visited → (length visited ≤ 64)%nat →
  (∀ h, h ∈ ids → P h) ∧ NoDup ids ∧ (length ids ≤ 64)%nat ∧
  (length visited ≤ length ids)%nat ∧ (∀ h, h ∈ visited ∨ h ∈ frontier → h ∈ ids) ∧
  ∃ later, ids = rev visited ++ later.
Proof.
  revert visited frontier. induction fuel as [|fuel IH]; intros visited frontier Hw HP Hstep Hnd Hlen;
    [done|].
  destruct frontier as [|h frontier]; cbn [walk] in Hw.
  - simplify_eq. rewrite length_rev.
    split_and!; [|by apply NoDup_ListNoDup, List.NoDup_rev, NoDup_ListNoDup|lia|lia|
      |exists []; by rewrite app_nil_r].
    + intros x Hx. rewrite elem_of_rev in Hx. auto.
    + intros x [Hx|Hx]; [by rewrite elem_of_rev|by apply not_elem_of_nil in Hx].
  - destruct (mem h visited) eqn:Hm.
    { apply mem_true in Hm. destruct (IH _ _ Hw) as (H1 & H2 & H3 & H4 & H5 & H6); auto.
      { intros x [?|?]; apply HP; [by left|by right; right]. } split_and!; auto. intros x [Hx|[->|Hx]%elem_of_cons]; auto. }
    destruct (Nat.ltb_spec MAX_CHAIN_TRAVERSAL_NODES (length (h :: visited))) as [Hl|Hl]; [done|].
    destruct (push_parents _ _ _) as [out|e] eqn:Hp; [|done].
    apply push_parents_Ok in Hp as (Hsub & Hin & _ & _).
    destruct (IH _ _ Hw) as (H1 & H2 & H3 & H4 & H5 & later & H6); auto.
    + intros x [[->|Hx]%elem_of_cons|[Hx|(l & Hl' & <-)]%Hin].
      * apply HP. right. by left.
      * apply HP. by left.
      * apply HP. right. by right.
      * eapply Hstep; [|by eapply read_parents_sound]. apply HP. right. by left.
    + constructor; [|done]. rewrite <- mem_true. by rewrite Hm.
    + simpl in H4. split_and!; auto; [lia| |].
      * intros x [Hx|[->|Hx]%elem_of_cons]; apply H5; [left; by right|left; by left|right; by apply Hsub].
      * exists (h :: later). rewrite H6. simpl. by rewrite <- app_assoc.
Qed.

(** When no node has more parents than the query's limit lets through, the walk
    is closed under parents. *)
Lemma walk_closed fuel visited frontier ids :
  walk fuel db visited frontier = Some (Ok ids) → NoDup visited → (length visited ≤ 64)%nat →
  (∀ h p, h ∈ visited → parent_of db h p → p ∈ visited ∨ p ∈ frontier) →
  (∀ h, h ∈ ids → (parent_count db h + length ids ≤ 65)%nat) →
  ∀ h p, h ∈ ids → parent_of db h p → p ∈ ids.
Proof.
  revert visited frontier. induction fuel as [|fuel IH]; intros visited frontier Hw Hnd Hlen Hcl Hcount;
    [done|].
  destruct frontier as [|h frontier]; cbn [walk] in Hw.
  - simplify_eq. intros h p Hh Hp. rewrite elem_of_rev in Hh |- *.
    destruct (Hcl h p Hh Hp) as [?|Hn]; [done|by apply not_elem_of_nil in Hn].
  - destruct (mem h visited) eqn:Hm.
    { apply mem_true in Hm. apply (IH _ _ Hw); auto. intros x p Hx Hp.
      destruct (Hcl x p Hx Hp) as [?|[->|?]%elem_of_cons]; auto. }
    destruct (Nat.ltb_spec MAX_CHAIN_TRAVERSAL_NODES (length (h :: visited))) as [Hl|Hl]; [done|].
    destruct (push_parents _ _ _) as [out|e] eqn:Hp; [|done].
    apply push_parents_Ok in Hp as (Hsub & _ & Hout & _).
    assert (NoDup (h :: visited)) as Hnd'.
    { constructor; [|done]. rewrite <- mem_true. by rewrite Hm. }
    destruct (walk_sound _ _ _ _ (λ _, True) Hw) as (_ & _ & _ & Hlen' & Hin & _); auto.
    apply (IH _ _ Hw); auto. intros x p [->|Hx]%elem_of_cons Hpar.
    + destruct (read_parents_complete (MAX_CHAIN_TRAVERSAL_NODES - length (h :: visited) + 1) h p)
        as (l & Hl' & <-); [|done|by apply Hout].
      specialize (Hcount h (Hin h (or_introl (list_elem_of_here _ _)))).
      unfold MAX_CHAIN_TRAVERSAL_NODES in *. lia.
    + destruct (Hcl x p Hx Hpar) as [?|[->|Hf]%elem_of_cons];
        [left; by right|left; by left|right; by apply Hsub].
Qed.

End WalkFacts.

Section Chains.
Context `{RowOrder} (db : Db).

Lemma chain_roots_Ok roots ids :
  ancestor_chain_ids_for_roots db roots = Ok ids →
  (length (dedup (sort_by hash_leb roots)) ≤ 64)%nat ∧
  walk walk_fuel db [] (rev (dedup (sort_by hash_leb roots))) = Some (Ok ids).
Proof.
  unfold ancestor_chain_ids_for_roots.
  destruct (Nat.ltb_spec MAX_CHAIN_TRAVERSAL_NODES (length (dedup (sort_by hash_leb roots)))) as [|Hl];
    [done|]. intros Hw. split; [exact Hl|].
  destruct (walk_total db walk_fuel [] (rev (dedup (sort_by hash_leb roots)))) as [r Hr].
  - simpl. lia.
  - rewrite length_rev. exact Hl.
  - rewrite length_rev. by apply walk_fuel_enough.
  - rewrite Hr in Hw |- *. by simpl in Hw; subst.
Qed.

Lemma elem_of_roots h roots : h ∈ rev (dedup (sort_by hash_leb roots)) ↔ h ∈ roots.
Proof. by rewrite elem_of_rev, elem_of_dedup, sort_by_perm. Qed.

Lemma chain_roots_sound roots ids :
  ancestor_chain_ids_for_roots db roots = Ok ids →
  (∀ a, a ∈ ids → ∃ r, r ∈ roots ∧ ancestor db r a) ∧ NoDup ids ∧ (length ids ≤ 64)%nat ∧
  (∀ r, r ∈ roots → r ∈ ids).
Proof.
  intros (_ & Hw)%chain_roots_Ok.
  destruct (walk_sound db _ _ _ _ (λ a, ∃ r, r ∈ roots ∧ ancestor db r a) Hw)
    as (H1 & H2 & H3 & _ & H5 & _).
  - intros h [Hh|Hh]; [by apply not_elem_of_nil in Hh|].
    exists h. rewrite elem_of_roots in Hh. split; [done|apply rtc_refl].
  - intros h p (r & Hr & Ha) Hp. exists r. split; [done|]. by eapply rtc_r.
  - constructor.
  - simpl. lia.
  - split_and!; [exact H1|exact H2|exact H3|]. intros r Hr. apply H5. right. by rewrite elem_of_roots.
Qed.

Lemma chain_roots_complete roots ids :
  ancestor_chain_ids_for_roots db roots = Ok ids →
  (∀ h, h ∈ ids → (parent_count db h + length ids ≤ 65)%nat) →
  ∀ r a, r ∈ roots → ancestor db r a → a ∈ ids.
Proof.
  intros Hids Hcount r a Hr Ha. pose proof (chain_roots_sound _ _ Hids) as (_ & _ & _ & Hin).
  apply chain_roots_Ok in Hids as (_ & Hw). specialize (Hin r Hr). clear Hr.
  revert Hin. unfold ancestor in Ha. induction Ha as [x|x y z Hxy Hyz IH]; [done|]. intros Hx. apply IH.
  apply (walk_closed db _ _ _ _ Hw) with (h := x); try assumption.
  - constructor.
  - simpl. lia.
  - intros h p Hh. by apply not_elem_of_nil in Hh.
Qed.

Lemma walk_head fuel start ids :
  walk fuel db [] [start] = Some (Ok ids) → ∃ rest, ids = start :: rest.
Proof.
  destruct fuel as [|fuel]; [done|]. cbn [walk mem existsb].
  destruct (MAX_CHAIN_TRAVERSAL_NODES <? _)%nat; [done|].
  destruct (push_parents _ _ _) as [out|e]; [|done]. intros Hw.
  destruct (walk_sound db _ _ _ _ (λ _, True) Hw) as (_ & _ & _ & _ & _ & later & ->); auto.
  - apply NoDup_singleton.
  - simpl. lia.
  - by exists later.
Qed.

Lemma chain_head start ids : ancestor_chain_ids db start = Ok ids → ∃ rest, ids = start :: rest.
Proof.
  unfold ancestor_chain_ids. intros Hids. destruct (chain_roots_Ok _ _ Hids) as [_ Hw].
  assert (rev (dedup (sort_by hash_leb [start])) = [start]) as Hroot by done.
  rewrite Hroot in Hw. exact (walk_head _ _ _ Hw).
Qed.

(** ** Revocation along a chain *)

Section Revoked.
Context `{CidLib}.

Lemma first_revoked_sound start s :
  first_revoked_ancestor db start = Ok (Some s) →
  ∃ a, ancestor db start a ∧ a ≠ start ∧ revoked db a ∧ s = cid_text a.
Proof.
  unfold first_revoked_ancestor. intros Hf. ok_inv. rename x into ids, H1 into Hids.
  destruct (find _ _) as [a|] eqn:Hfind; [|done]. simplify_eq/=.
  apply find_Some_elem in Hfind as [Ha Hrev].
  pose proof (chain_head _ _ Hids) as [rest ->]. cbn [drop] in Ha. rewrite drop_0 in Ha.
  unfold ancestor_chain_ids in Hids. apply chain_roots_sound in Hids as (Hs & Hnd & _ & _).
  destruct (Hs a) as (r & Hr & Hra); [by right|]. apply list_elem_of_singleton in Hr as ->.
  exists a. split_and!; [done| |by apply is_revoked_spec|done].
  intros ->. by apply NoDup_cons in Hnd as [? _].
Qed.

(** A chain that passes both checks has no revoked node, when no node of it has
    more parents than the query reads. *)
Lemma unrevoked_chain start ids :
  ancestor_chain_ids db start = Ok ids →
  is_revoked db start = false → first_revoked_ancestor db start = Ok None →
  (∀ h, h ∈ ids → ¬ revoked db h) ∧
  ((∀ h, h ∈ ids → (parent_count db h + length ids ≤ 65)%nat) →
   ∀ a, ancestor db start a → ¬ revoked db a).
Proof.
  intros Hids Hs Hf. unfold first_revoked_ancestor in Hf. rewrite Hids, bind_ret_l in Hf.
  destruct (find _ _) eqn:Hfind; [done|]. rewrite find_None_forall in Hfind.
  pose proof (chain_head _ _ Hids) as [rest ->]. cbn [drop] in Hfind. rewrite drop_0 in Hfind.
  assert (∀ h, h ∈ start :: rest → ¬ revoked db h) as Hno.
  { intros h [->|Hh]%elem_of_cons; apply is_revoked_false; auto. }
  split; [exact Hno|]. intros Hcount a Ha. apply Hno. unfold ancestor_chain_ids in Hids.
  apply (chain_roots_complete _ _ Hids Hcount start a); [by left|exact Ha].
Qed.

End Revoked.
End Chains.

(** ** Claims *)

(** C35: the walk up a proof DAG always returns: for every table and every list of
    roots the loop ends within the fuel the model gives it, whatever the DAG's
    shape, cycles included. *)
Theorem chain_walk_terminates `{RowOrder} (db : Db) (roots : list Hash) :
  (length (dedup (sort_by hash_leb roots)) ≤ MAX_CHAIN_TRAVERSAL_NODES)%nat →
  ∃ r, walk walk_fuel db [] (rev (dedup (sort_by hash_leb roots))) = Some r ∧
       ancestor_chain_ids_for_roots db roots = r.
Proof.
  intros Hl. destruct (walk_total db walk_fuel [] (rev (dedup (sort_by hash_leb roots)))) as [r Hr].
  - simpl. lia.
  - rewrite length_rev. exact Hl.
  - rewrite length_rev. by apply walk_fuel_enough.
  - exists r. split; [done|]. unfold ancestor_chain_ids_for_roots.
    destruct (Nat.ltb_spec MAX_CHAIN_TRAVERSAL_NODES (length (dedup (sort_by hash_leb roots)))); [lia|].
    by rewrite Hr.
Qed.

(** C34: the nodes the walk returns are at most 64, pairwise distinct, contain every
    root, and are all roots or ancestors of a root; and they are all of the
    ancestors when no returned node has more than 65 minus their number parents,
    which is the smallest limit of the parent query during the walk. *)
Theorem chain_walk_exact `{RowOrder} (db : Db) (roots ids : list Hash) :
  ancestor_chain_ids_for_roots db roots = Ok ids →
  (length ids ≤ MAX_CHAIN_TRAVERSAL_NODES)%nat ∧ NoDup ids ∧
  (∀ r, r ∈ roots → r ∈ ids) ∧
  (∀ a, a ∈ ids → ∃ r, r ∈ roots ∧ ancestor db r a) ∧
  ((∀ h, h ∈ ids → (parent_count db h + length ids ≤ 65)%nat) →
   ∀ r a, r ∈ roots → ancestor db r a → a ∈ ids).
Proof.
  intros Hids. pose proof (chain_roots_sound db _ _ Hids) as (? & ? & ? & ?).
  split_and!; try done. by apply chain_roots_complete.
Qed.

(** A small store: [demo_hash n] are distinct hashes, rows come back in
    insertion order. *)
Definition demo_hash (n : N) : Hash := mkHash BLAKE3_256 (String (ascii_of_N n) "").
Definition demo_order : RowOrder.
Proof. by refine {| row_order := λ A l, l |}. Defined.
Definition demo_cids : CidLib :=
  {| cid_to_string := λ c, mh_digest (cid_hash c); cid_parse := λ s, Some (mkCid 1 85 (mkHash BLAKE3_256 s)) |}.

#[local] Existing Instance demo_order.
#[local] Existing Instance demo_cids.

Definition demo_links (l : list (N * N)) : Db :=
  set_parent_delegations ((λ p, mkParentRow (demo_hash p.2) (demo_hash p.1)) <$> l) empty_db.

Lemma chain_walk_terminates_witness :
  ∃ r, walk walk_fuel (demo_links [(1, 2); (2, 1)]%N) [] (rev (dedup (sort_by hash_leb [demo_hash 1]))) = Some r ∧
       ancestor_chain_ids_for_roots (demo_links [(1, 2); (2, 1)]%N) [demo_hash 1] = r.
Proof. apply chain_walk_terminates. vm_compute. lia. Defined.

Lemma chain_walk_exact_witness :
  ancestor (demo_links [(1, 2); (2, 3); (1, 3)]%N) (demo_hash 1) (demo_hash 3) ∧
  demo_hash 3 ∈ [demo_hash 1; demo_hash 3; demo_hash 2].
Proof.
  assert (ancestor (demo_links [(1, 2); (2, 3); (1, 3)]%N) (demo_hash 1) (demo_hash 3)) as Ha.
  { apply (rtc_l _ _ (demo_hash 2)); [|apply rtc_once]; unfold parent_of; apply mem_true; by vm_compute. }
  split; [exact Ha|].
  destruct (chain_walk_exact (demo_links [(1, 2); (2, 3); (1, 3)]%N) [demo_hash 1]
    [demo_hash 1; demo_hash 3; demo_hash 2]) as (_ & _ & _ & _ & Hall); [by vm_compute|].
  apply (Hall) with (r := demo_hash 1); [|by left|exact Ha].
  intros h Hh. repeat (apply elem_of_cons in Hh as [->|Hh]; [vm_compute; lia|]).
  by apply not_elem_of_nil in Hh.
Defined.

(** The parent query of the walk is cut off at the number of nodes left plus
    one, and what it cuts off is silently missing when rows it did read were
    known already.  Here a delegation cites 33 parents, the first of which cites
    32 of the same parents and one more, revoked: the check for a revoked
    ancestor reports none. *)
Theorem revoked_ancestor_missed :
  ∃ (db : Db) (start a : Hash),
    ancestor db start a ∧ revoked db a ∧ first_revoked_ancestor db start = Ok None.
Proof.
  set (ps := (λ n, N.of_nat n) <$> seq 10 32).
  exists (set_revocations [mkRevocationRow (demo_hash 200) "did:key:owner" (demo_hash 3) "" None]
    (demo_links (((λ p, (1, p)%N) <$> 2%N :: ps) ++ ((λ p, (2, p)%N) <$> ps ++ [3%N])))).
  exists (demo_hash 1), (demo_hash 3). split_and!.
  - apply (rtc_l _ _ (demo_hash 2)); [|apply rtc_once]; unfold parent_of; apply mem_true; by vm_compute.
  - eexists. split; [by left|done].
  - by vm_compute.
Qed.
