(* ===== verification/Tokens.v ===== *)
(** * Signed tokens and what the node reads out of them:
      tinycloud-core/src/util.rs, tinycloud-auth/src/authorization.rs (the token
      types), dependencies/cacao/src/siwe_cacao.rs (payload, validity window,
      conversion to a SIWE message) and dependencies/siwe-recap/src/capability.rs

    A UCAN is the [ssi] crate's decoded JWT; a CACAO carries a SIWE message whose
    last resource is a ReCap.  Signature checks, the ReCap's base64/JSON codec
    and the parts of an ability are library code, the classes [TokenLib] and
    [RecapLib].  Times are nanoseconds since the Unix epoch. *)
From S2P Require Import Prelude Str Chars Json Identity Resource Tables.

(** ** Capabilities *)

Record Capability := mkCapability {
  cap_resource : Resource;
  cap_ability : string;
  cap_caveats : list (string * json);
}.

#[export] Instance Capability_eq_dec : EqDecision Capability.
Proof. solve_decision. Defined.

(** [ucan_capabilities_object::Capabilities]: resources, abilities and their
    nota-bene lists, both maps in key order. *)
Notation Attenuations := (list (Uri * list (string * list json))).

(** ** Tokens *)

(** A UCAN payload; [u_expiration] and [u_not_before] are
    [(as_seconds() * 1e9) as i128], [u_encoded] the JWT it was decoded from. *)
Record Ucan := mkUcan {
  u_issuer : string;
  u_audience : string;
  u_not_before : option Z;
  u_expiration : Z;
  u_facts : option (list json);
  u_proof : list Cid;
  u_attenuation : Attenuations;
  u_encoded : string;
}.

(** [cacaos::siwe_cacao::Payload] with its signature. *)
Record Cacao := mkCacao {
  c_domain : string;
  c_iss : string;
  c_statement : option string;
  c_aud : string;
  c_nonce : string;
  c_iat : Z;
  c_exp : option Z;
  c_nbf : option Z;
  c_request_id : option string;
  c_resources : option (list Uri);
  c_signature : string;
}.

Inductive TinyCloudDelegation := DUcan (u : Ucan) | DCacao (c : Cacao).
Inductive TinyCloudRevocation := RCacao (c : Cacao) | RUcan (u : Ucan).

(** Signature verification: [Ucan::verify_signature] (within the resolution
    timeout), [Payload::validate_time], [SiweCacao::verify]. *)
Class TokenLib := {
  ucan_verify_signature : Ucan → bool;
  ucan_validate_time : Ucan → Z → bool;
  cacao_verify : Cacao → bool;
}.

(** [Payload::valid_at]. *)
Definition valid_at (c : Cacao) (t : Z) : bool :=
  match c_nbf c with Some nbf => (nbf <? t)%Z | None => true end &&
  match c_exp c with Some exp => (t <=? exp)%Z | None => true end.

(** ** The SIWE message and its ReCap *)

Inductive SIWEPayloadConversionError := InvalidAddress | InvalidChainId | InvalidSiweDID.

(** The fields of [siwe::Message] that are read again. *)
Record Message := mkMessage {
  m_domain : string;
  m_address : string;
  m_chain_id : N;
  m_statement : option string;
  m_uri : string;
  m_resources : list Uri;
}.

(** [TryInto<Message> for Payload]; the address is kept in hexadecimal. *)
Definition siwe_message (c : Cacao) : result SIWEPayloadConversionError Message :=
  match split_char ":" (c_iss c) with
  | ["did"; "pkh"; "eip155"; chain; String "0" (String "x" h)] =>
      chain_id ← ok_or (parse_u64 chain) InvalidChainId;
      _ ← ensure ((String.length h =? 40)%nat &&
                  forall_char (λ x, bool_decide (is_Some (hex_value x))) h) InvalidAddress;
      Ok {| m_domain := c_domain c; m_address := h; m_chain_id := chain_id;
            m_statement := c_statement c; m_uri := c_aud c;
            m_resources := default [] (c_resources c) |}
  | _ => Err InvalidSiweDID
  end.

Definition RESOURCE_PREFIX : string := "urn:recap:".

(** [siwe_recap::Capability]. *)
Record Recap := mkRecap { rc_attenuations : Attenuations; rc_proof : list Cid }.

Inductive RecapDecodingError := InvalidResourcePrefix (s : string) | RecapDecode.
Inductive RecapError := RecapDecoding (e : RecapDecodingError) | IncorrectStatement (expected : string).

Class RecapLib := {
  recap_encode : Recap → string;             (* serde_jcs, base64url *)
  recap_decode : string → option Recap;      (* base64url, serde_json *)
  ability_namespace : string → string;       (* Ability::namespace *)
  ability_name : string → string;            (* Ability::name *)
}.

Section Recap.
Context `{RecapLib}.

(** [map.entry(namespace).or_default().push(name)]. *)
Fixpoint group_push (ns nm : string) (m : list (string * list string)) : list (string * list string) :=
  match m with
  | [] => [(ns, [nm])]
  | (ns', names) :: m' =>
      if decide (ns' = ns) then (ns, names ++ [nm]) :: m'
      else if String.leb ns ns' then (ns, [nm]) :: m
      else (ns', names) :: group_push ns nm m'
  end.

Definition to_line_groups (r : Recap) : list (Uri * string * list string) :=
  flat_map (λ '(resource, abilities),
    let groups := fold_left (λ m '(ability, _), group_push (ability_namespace ability) (ability_name ability) m)
                    abilities [] in
    (λ '(ns, names), (resource, ns, names)) <$> groups) (rc_attenuations r).

Definition quoted (s : string) : string := "'" +:+ s +:+ "'".

Definition to_statement_lines (r : Recap) : list string :=
  (λ '(resource, ns, names),
     quoted ns +:+ ": " +:+ String.concat ", " (quoted <$> names) +:+ " for " +:+
     quoted (uri_str resource) +:+ ".") <$> to_line_groups r.

Definition numbered (n : nat) (line : string) : string :=
  " (" +:+ fmt_u64 (N.of_nat n + 1) +:+ ") " +:+ line.

Definition to_statement (r : Recap) : string :=
  "I further authorize the stated URI to perform the following actions on my behalf:" +:+
  String.concat "" (imap numbered (to_statement_lines r)).

Definition recap_of_uri (u : Uri) : result RecapDecodingError Recap :=
  encoded ← ok_or (strip_prefix RESOURCE_PREFIX (uri_str u)) (InvalidResourcePrefix (uri_str u));
  ok_or (recap_decode encoded) RecapDecode.

(** [Capability::extract]: the last resource, when it is a ReCap. *)
Definition extract (m : Message) : result RecapDecodingError (option Recap) :=
  match last (m_resources m) with
  | Some u => if starts_with RESOURCE_PREFIX (uri_str u) then Some <$> recap_of_uri u else Ok None
  | None => Ok None
  end.

Definition extract_and_verify (m : Message) : result RecapError (option Recap) :=
  c ← map_err RecapDecoding (extract m);
  match c with
  | None => Ok None
  | Some c =>
      let expected := to_statement c in
      match m_statement m with
      | Some s => if ends_with expected s then Ok (Some c) else Err (IncorrectStatement expected)
      | None => Err (IncorrectStatement expected)
      end
  end.

(** [Capability::build_message]; the encoded ReCap must parse as a URI. *)
Definition build_message `{UriLib} (r : Recap) (m : Message) : option Message :=
  match rc_attenuations r with
  | [] => Some m
  | _ =>
      let statement := to_statement r in
      encoded ← uri_new (RESOURCE_PREFIX +:+ recap_encode r);
      let old := default "" (m_statement m) in
      Some {| m_domain := m_domain m; m_address := m_address m; m_chain_id := m_chain_id m;
              m_statement := Some (if is_empty old then statement else old +:+ " " +:+ statement);
              m_uri := m_uri m; m_resources := m_resources m ++ [encoded] |}
  end.

End Recap.

(** ** tinycloud-core/src/util.rs *)

Inductive DelegationMode := Attenuable | Terminal.
#[export] Instance DelegationMode_eq_dec : EqDecision DelegationMode.
Proof. solve_decision. Defined.

Definition FACT_KEY : string := "xyz.tinycloud.policy/delegationMode".

Definition mode_str (m : DelegationMode) : string :=
  match m with Attenuable => "attenuable" | Terminal => "terminal" end.

(** One fact marks the token terminal. *)
Definition fact_is_terminal (f : json) : bool :=
  match m ← as_object f; v ← obj_get FACT_KEY m; as_str v with
  | Some mode => bool_decide (mode = "terminal")
  | None => false
  end.

Definition read_delegation_mode_from_ucan_facts (facts : option (list json)) : DelegationMode :=
  match facts with
  | None => Attenuable
  | Some facts => if existsb fact_is_terminal facts then Terminal else Attenuable
  end.

Record DelegationInfo := mkDelegationInfo {
  di_capabilities : list Capability;
  di_delegator : string;
  di_delegate : string;
  di_parents : list Cid;
  di_delegation : TinyCloudDelegation;
  di_expiry : option Z;
  di_not_before : option Z;
  di_issued_at : option Z;
  di_delegation_mode : DelegationMode;
}.

Record InvocationInfo := mkInvocationInfo {
  ii_capabilities : list Capability;
  ii_invoker : string;
  ii_parents : list Cid;
  ii_invocation : Ucan;
}.

Record RevocationInfo := mkRevocationInfo {
  ri_parents : list Cid;
  ri_revoked : Cid;
  ri_revoker : string;
  ri_revocation : TinyCloudRevocation;
}.

Inductive DelegationInfoError :=
| SiweConversion (e : SIWEPayloadConversionError)
| SiweCapError (e : RecapError).

Inductive RevocationInfoError := InvalidTarget.

(** [OffsetDateTime::from_unix_timestamp_nanos(..).ok()] is the [time] crate's. *)
Class TimeLib := offset_date_time : Z → option Z.

Section Infos.
Context `{Keccak256} `{UriLib} `{RecapLib} `{TimeLib} `{CidLib}.

(** The array of nota-bene maps becomes one map keyed by the decimal index. *)
Definition index_caveats (nbs : list json) : list (string * json) :=
  fold_left (λ m '(i, v), obj_insert (fmt_u64 (N.of_nat i)) v m) (imap pair nbs) [].

Definition extract_ucan_caps (caps : Attenuations) : list Capability :=
  flat_map (λ '(uri, abilities),
    (λ '(ability, nbs), mkCapability (resource_of_uri uri) ability (index_caveats nbs)) <$> abilities) caps.

Definition extract_siwe_cap (c : Recap) : list Capability * list Cid :=
  (flat_map (λ '(uri, abilities),
     (λ '(ability, _), mkCapability (resource_of_uri uri) ability []) <$> abilities) (rc_attenuations c),
   rc_proof c).

Definition delegation_info (d : TinyCloudDelegation) : result DelegationInfoError DelegationInfo :=
  match d with
  | DUcan u =>
      Ok {| di_capabilities := extract_ucan_caps (u_attenuation u);
            di_delegator := strip_fragment (u_issuer u);
            di_delegate := strip_fragment (u_audience u);
            di_parents := u_proof u;
            di_delegation := d;
            di_expiry := offset_date_time (u_expiration u);
            di_not_before := u_not_before u ≫= offset_date_time;
            di_issued_at := None;
            di_delegation_mode := read_delegation_mode_from_ucan_facts (u_facts u) |}
  | DCacao c =>
      m ← map_err SiweConversion (siwe_message c);
      cap ← map_err SiweCapError (extract_and_verify m);
      let '(capabilities, parents) :=
        match cap with Some cap => extract_siwe_cap cap | None => ([], []) end in
      Ok {| di_capabilities := capabilities;
            di_delegator := strip_fragment (c_iss c);
            di_delegate := strip_fragment (c_aud c);
            di_parents := parents;
            di_delegation := d;
            di_expiry := c_exp c;
            di_not_before := c_nbf c;
            di_issued_at := Some (c_iat c);
            di_delegation_mode := Attenuable |}
  end.

Definition invocation_info (u : Ucan) : InvocationInfo :=
  {| ii_capabilities := extract_ucan_caps (u_attenuation u);
     ii_invoker := strip_fragment (u_issuer u);
     ii_parents := u_proof u;
     ii_invocation := u |}.

(** The first [urn:cid:] resource of the attenuation that parses. *)
Fixpoint explicit_target (att : Attenuations) : option Cid :=
  match att with
  | [] => None
  | (uri, _) :: att =>
      match strip_prefix "urn:cid:" (uri_str uri) ≫= cid_parse with
      | Some cid => Some cid
      | None => explicit_target att
      end
  end.

Definition revocation_info (r : TinyCloudRevocation) : result RevocationInfoError RevocationInfo :=
  match r with
  | RCacao c =>
      match split_once ":" (c_aud c) with
      | Some ("ucan", ps) =>
          revoked ← ok_or (cid_parse ps) InvalidTarget;
          Ok {| ri_parents := []; ri_revoked := revoked;
                ri_revoker := strip_fragment (c_iss c); ri_revocation := r |}
      | _ => Err InvalidTarget
      end
  | RUcan u =>
      revoked ← ok_or (match explicit_target (u_attenuation u) with
                       | Some c => Some c
                       | None => head (u_proof u)
                       end) InvalidTarget;
      Ok {| ri_parents := u_proof u; ri_revoked := revoked;
            ri_revoker := strip_fragment (u_issuer u); ri_revocation := r |}
  end.

End Infos.

(** [DelegationInfo::spaces] and [InvocationInfo::spaces]. *)
Definition cap_spaces (caps : list Capability) : list SpaceId :=
  omap (λ c, resource_space (cap_resource c)) caps.

(** ** The statement a wallet signs lists every capability *)

Section Statement.
Context `{RecapLib}.

Lemma group_push_here ns nm m : ∃ names, (ns, names) ∈ group_push ns nm m ∧ nm ∈ names.
Proof.
  induction m as [|[ns' names] m IH]; simpl.
  - exists [nm]. split; by left.
  - destruct (decide (ns' = ns)); [exists (names ++ [nm]); split; [by left|set_solver]|].
    destruct (String.leb ns ns'); [exists [nm]; split; by left|].
    destruct IH as (l & ? & ?). exists l. split; [by right|done].
Qed.

Lemma group_push_keep ns nm m ns' x names :
  (ns', names) ∈ m → x ∈ names → ∃ names', (ns', names') ∈ group_push ns nm m ∧ x ∈ names'.
Proof.
  induction m as [|[n l] m IH]; simpl; [intros Hn; by apply not_elem_of_nil in Hn|].
  intros [Heq|Hm]%elem_of_cons Hx.
  - simplify_eq. destruct (decide (n = ns)) as [->|].
    + exists (l ++ [nm]). split; [by left|set_solver].
    + destruct (String.leb ns n); exists l; split; try done; [by right; left|by left].
  - destruct (IH Hm Hx) as (names' & Hin & Hx'). destruct (decide (n = ns)) as [->|].
    + exists names. split; [by right|done].
    + destruct (String.leb ns n); [exists names; split; [by right; right|done]|].
      exists names'. split; [by right|done].
Qed.

(** Every ability of a resource is named by a line of its statement. *)
Lemma line_group_complete r uri abilities ability nbs :
  (uri, abilities) ∈ rc_attenuations r → (ability, nbs) ∈ abilities →
  ∃ names, (uri, ability_namespace ability, names) ∈ to_line_groups r ∧ ability_name ability ∈ names.
Proof.
  intros Huri Hab. unfold to_line_groups.
  set (f := λ m '(ability, _), group_push (ability_namespace ability) (ability_name ability) m).
  assert (∃ names, (ability_namespace ability, names) ∈ fold_left f abilities [] ∧
                   ability_name ability ∈ names) as (names & Hn & Hx).
  { assert (∀ m, (ability, nbs) ∈ abilities ∨
       (∃ names, (ability_namespace ability, names) ∈ m ∧ ability_name ability ∈ names) →
       ∃ names, (ability_namespace ability, names) ∈ fold_left f abilities m ∧
                ability_name ability ∈ names) as Hgen; [|by apply Hgen; left].
    clear Huri Hab. induction abilities as [|[a nb] l IH]; intros m Hm; simpl.
    - destruct Hm as [Hm|?]; [by apply not_elem_of_nil in Hm|done].
    - apply IH. destruct Hm as [[Heq|Hl]%elem_of_cons|(names & Hn & Hx)]; [|by left|].
      + simplify_eq. right. apply group_push_here.
      + right. by eapply group_push_keep. }
  exists names. split; [|done]. rewrite list_elem_of_In, in_flat_map. exists (uri, abilities).
  rewrite <- list_elem_of_In. split; [done|]. rewrite <- list_elem_of_In. simpl.
  apply list_elem_of_fmap. exists (ability_namespace ability, names). done.
Qed.

End Statement.

(** ** Claims *)

(** A ReCap that a client writes into a SIWE message is the one the node reads
    back: [extract_and_verify] of the message [build_message] returns recovers
    the capabilities and the proofs, under the codec's round trip and a URI
    parser that keeps the text. *)
Theorem recap_roundtrip `{RecapLib} `{UriLib} (r : Recap) (m m' : Message) :
  recap_decode (recap_encode r) = Some r →
  (∀ s u, uri_new s = Some u → uri_str u = s) →
  rc_attenuations r ≠ [] →
  build_message r m = Some m' → extract_and_verify m' = Ok (Some r).
Proof.
  intros Hcodec Huri Hne Hb. unfold build_message in Hb.
  destruct (rc_attenuations r) as [|att atts] eqn:Hatt; [done|].
  destruct (uri_new _) as [u|] eqn:Hu; [|done]. simpl in Hb. injection Hb as <-.
  apply Huri in Hu. unfold extract_and_verify, extract. cbn [m_resources m_statement].
  rewrite last_snoc, Hu.
  rewrite (proj2 (starts_with_spec RESOURCE_PREFIX _)) by eauto.
  unfold recap_of_uri. rewrite Hu, strip_prefix_app. unfold ok_or.
  rewrite bind_ret_l, Hcodec. simpl. rewrite (proj2 (ends_with_spec (to_statement r) _)); [done|].
  destruct (is_empty _); [by exists ""|].
  exists (default "" (m_statement m) +:+ " "). by rewrite append_assoc.
Qed.

(** Codecs for one ReCap, and a parser of [urn:] URIs. *)
Definition demo_recap_resource : Uri := mkUri "urn" None "x:data" None None.
Definition demo_recap : Recap :=
  mkRecap [(demo_recap_resource, [("tinycloud.kv/get", [])])] [].
Definition demo_recaps : RecapLib :=
  {| recap_encode := λ _, "abc"; recap_decode := λ s, if decide (s = "abc") then Some demo_recap else None;
     ability_namespace := λ a, match split_once "/" a with Some (ns, _) => ns | None => a end;
     ability_name := λ a, match split_once "/" a with Some (_, n) => n | None => "" end |}.
Definition demo_urns : UriLib :=
  {| uri_new := λ s, (λ r, mkUri "urn" None r None None) <$> strip_prefix "urn:" s;
     uri_is_normalized := λ _, true; did_valid := λ _, true |}.
#[local] Existing Instance demo_recaps.
#[local] Existing Instance demo_urns.

Lemma demo_urns_text s u : uri_new s = Some u → uri_str u = s.
Proof.
  simpl. destruct (strip_prefix "urn:" s) as [r|] eqn:Hs; [|done].
  simpl. intros [= <-]. apply strip_prefix_Some in Hs as ->. unfold uri_str. simpl.
  by rewrite !append_nil_r.
Qed.

Lemma recap_roundtrip_witness :
  extract_and_verify
    (mkMessage "example.com" "" 1 (Some "Hello I further authorize the stated URI to perform the following actions on my behalf: (1) 'tinycloud.kv': 'get' for 'urn:x:data'.")
      "did:key:x" [mkUri "urn" None "recap:abc" None None]) = Ok (Some demo_recap).
Proof.
  apply (recap_roundtrip demo_recap (mkMessage "example.com" "" 1 (Some "Hello") "did:key:x" [])).
  - by vm_compute.
  - apply demo_urns_text.
  - done.
  - by vm_compute.
Defined.

(** A CACAO delegation grants nothing its signer did not see: when the node
    reads capabilities out of one, the signed message's statement ends with the
    text generated from them, and every capability's resource and ability name
    stand on a line of that text. *)
Theorem cacao_capabilities_stated `{Keccak256} `{UriLib} `{RecapLib} `{TimeLib} (c : Cacao) (info : DelegationInfo) :
  delegation_info (DCacao c) = Ok info →
  ∀ cap, cap ∈ di_capabilities info →
  ∃ r pre uri names,
    c_statement c = Some (pre +:+ to_statement r) ∧
    cap_resource cap = resource_of_uri uri ∧
    (uri, ability_namespace (cap_ability cap), names) ∈ to_line_groups r ∧
    ability_name (cap_ability cap) ∈ names.
Proof.
  intros Hinfo cap Hcap. cbn [delegation_info] in Hinfo. ok_inv.
  rename x into m, H3 into Hm, x0 into o, H4 into Ho.
  assert (m_statement m = c_statement c) as Hst.
  { unfold siwe_message in Hm. repeat case_match; ok_inv; done. }
  unfold extract_and_verify in Ho. ok_inv.
  destruct x as [r|]; [|ok_inv; by apply not_elem_of_nil in Hcap].
  destruct (m_statement m) as [s|] eqn:Hs; [|done].
  destruct (ends_with _ _) eqn:He; ok_inv. cbn [extract_siwe_cap] in Hinfo. ok_inv. apply ends_with_spec in He as [pre ->].
  cbn [di_capabilities] in Hcap.
  rewrite list_elem_of_In, in_flat_map in Hcap. destruct Hcap as ([uri abilities] & Huri & Hcap).
  rewrite <- list_elem_of_In in Huri. rewrite <- list_elem_of_In in Hcap.
  apply list_elem_of_fmap in Hcap as ([ability nbs] & -> & Hab).
  destruct (line_group_complete r uri abilities ability nbs) as (names & ? & ?); [done..|].
  exists r, pre, uri, names. by split_and!.
Qed.

Definition demo_keccak : Keccak256 := λ _, [].
Definition demo_times : TimeLib := Some.
#[local] Existing Instance demo_keccak.
#[local] Existing Instance demo_times.

Definition demo_cacao : Cacao :=
  {| c_domain := "example.com"; c_iss := "did:pkh:eip155:1:0x0000000000000000000000000000000000000000";
     c_statement := Some (to_statement demo_recap); c_aud := "did:key:session"; c_nonce := "abcdefgh";
     c_iat := 0; c_exp := Some 100%Z; c_nbf := None; c_request_id := None;
     c_resources := Some [mkUri "urn" None "recap:abc" None None]; c_signature := "" |}.

Lemma cacao_capabilities_stated_witness :
  ∃ r pre uri names,
    c_statement demo_cacao = Some (pre +:+ to_statement r) ∧
    Other demo_recap_resource = resource_of_uri uri ∧
    (uri, ability_namespace "tinycloud.kv/get", names) ∈ to_line_groups r ∧
    ability_name "tinycloud.kv/get" ∈ names.
Proof.
  apply (cacao_capabilities_stated demo_cacao
    (mkDelegationInfo [mkCapability (Other demo_recap_resource) "tinycloud.kv/get" []]
      "did:pkh:eip155:1:0x0000000000000000000000000000000000000000" "did:key:session" []
      (DCacao demo_cacao) (Some 100%Z) None (Some 0%Z) Attenuable))
    with (cap := mkCapability (Other demo_recap_resource) "tinycloud.kv/get" []).
  - by vm_compute.
  - by left.
Defined.
