(* ===== verification/Events.v ===== *)
(** * Events and their epochs: tinycloud-core/src/events/mod.rs, and the write-hook
      predicates of tinycloud-core/src/write_hooks.rs

    An event is a delegation, a revocation or an invocation with the key-value
    operations it asks for; the events of a transaction are grouped per space
    into an epoch whose id hashes the events and the previous epochs.  DAG-CBOR
    and the textual forms that go into webhook payloads are library code. *)
From S2P Require Import Prelude Str Chars Json Identity Resource Tables Tokens.

Definition CBOR_CODEC : N := 113.
Definition RAW_CODEC : N := 85.

Inductive Operation :=
| KvWrite (space : SpaceId) (key : string) (value : Hash) (metadata : Metadata)
| KvDelete (space : SpaceId) (key : string) (version : option (Z * Hash * Z)).

Inductive VersionedOperation :=
| VKvWrite (space : SpaceId) (key : string) (value : Hash) (metadata : Metadata) (seq : Z) (epoch : Hash) (epoch_seq : Z)
| VKvDelete (space : SpaceId) (key : string) (version : option (Z * Hash * Z)) (seq : Z) (epoch : Hash) (epoch_seq : Z).

(** [Operation::version] and [Operation::space]. *)
Definition version (op : Operation) (seq : Z) (epoch : Hash) (epoch_seq : Z) : VersionedOperation :=
  match op with
  | KvWrite s k v m => VKvWrite s k v m seq epoch epoch_seq
  | KvDelete s k v => VKvDelete s k v seq epoch epoch_seq
  end.

Definition op_space (op : Operation) : SpaceId :=
  match op with KvWrite s _ _ _ => s | KvDelete s _ _ => s end.

(** [SerializedEvent]: what was read from the token, and its bytes. *)
Inductive Event :=
| EInvocation (i : InvocationInfo) (bytes : string) (ops : list Operation)
| EDelegation (d : DelegationInfo) (bytes : string)
| ERevocation (r : RevocationInfo) (bytes : string).

Definition event_bytes (e : Event) : string :=
  match e with EInvocation _ b _ => b | EDelegation _ b => b | ERevocation _ b => b end.

Definition event_hash `{Blake3} (e : Event) : Hash := hash (event_bytes e).

Inductive OneOrMany := One (c : Cid) | Many (l : list Cid).

(** The operations as they are encoded into an epoch. *)
Inductive EpochOp :=
| OpWrite (key : string) (value : Cid) (metadata : Metadata)
| OpDelete (key : string) (version : option (Z * Cid * Z)).

(** [serde_ipld_dagcbor::to_vec] of the two structures. *)
Class DagCbor := {
  cbor_op : EpochOp → string;
  cbor_epoch : list Cid → list OneOrMany → string;
}.

Section Epochs.
Context `{Blake3} `{DagCbor}.

Definition epoch_op (sp : SpaceId) (op : Operation) : option EpochOp :=
  match op with
  | KvWrite s key value metadata =>
      if decide (s = sp) then Some (OpWrite key (to_cid value CBOR_CODEC) metadata) else None
  | KvDelete s key version =>
      if decide (s = sp)
      then Some (OpDelete key ((λ '(v, h, n), (v, to_cid h CBOR_CODEC, n)) <$> version)) else None
  end.

Definition hash_inv (inv_hash : Hash) (sp : SpaceId) (ops : list Operation) : OneOrMany :=
  match (λ op, to_cid (hash (cbor_op op)) CBOR_CODEC) <$> omap (epoch_op sp) ops with
  | [] => One (to_cid inv_hash RAW_CODEC)
  | ops => Many (to_cid inv_hash RAW_CODEC :: ops)
  end.

Definition epoch_event (sp : SpaceId) (e : Hash * Event) : OneOrMany :=
  match e with
  | (h, EInvocation _ _ ops) => hash_inv h sp ops
  | (h, _) => One (to_cid h RAW_CODEC)
  end.

Definition epoch_hash (sp : SpaceId) (events : list (Hash * Event)) (parents : list Hash) : Hash :=
  hash (cbor_epoch ((λ h, to_cid h CBOR_CODEC) <$> parents) (epoch_event sp <$> events)).

End Epochs.

(** ** tinycloud-core/src/write_hooks.rs *)

(** The formats of a delivery: [serde_json] of the payload and of the stored
    ability list, RFC 3339 timestamps. *)
Class HookFormats := {
  json_text : json → string;
  abilities_of_json : string → option (list string);
  rfc3339 : Z → string;
}.

Definition normalize_prefix (prefix : string) : option string :=
  let trimmed := trim_matches "/" prefix in
  if is_empty trimmed then None else Some trimmed.

Definition matches_prefix (prefix : option string) (p : string) : bool :=
  match prefix ≫= normalize_prefix with
  | None => true
  | Some prefix => bool_decide (p = prefix) || starts_with (prefix +:+ "/") p
  end.

Section Hooks.
Context `{Blake3} `{CidLib} `{HookFormats}.

(** [hook_subscription::Model::abilities]. *)
Definition subscription_abilities (s : HookSubscriptionRow) : option (list string) :=
  match hs_abilities_json s with Some j => abilities_of_json j | None => Some [] end.

Definition subscription_matches_event (s : HookSubscriptionRow) (p ability : string) : bool :=
  matches_prefix (hs_path_prefix s) p &&
  match subscription_abilities s with
  | Some abilities => bool_decide (abilities = []) || mem ability abilities
  | None => false
  end.

Definition hook_delivery_id (subscription_id event_id : string) : string :=
  cid_text (hash (subscription_id +:+ ":" +:+ event_id)).

End Hooks.
