(* ===== verification/Demo.v ===== *)
(** * Concrete parameters and a small world for the witnesses

    Instances of the library classes that evaluate: hashing is the identity, rows
    come back in insertion order, every signature verifies.  [owner] has a space,
    [alice] and [bob] receive delegations. *)
From S2P Require Import Prelude Str Chars Json Identity Resource Tables Chain Tokens.

Definition demo_blake : Blake3 := λ s, s.
Definition demo_tokens : TokenLib :=
  {| ucan_verify_signature := λ _, true; ucan_validate_time := λ _ _, true; cacao_verify := λ _, true |}.

Definition owner : string := "did:key:owner".
Definition alice : string := "did:key:alice".
Definition bob : string := "did:key:bob".

Definition demo_space : SpaceId := {| base_did := owner; name := "main" |}.

Definition demo_kv (p : option string) : Resource :=
  TinyCloud {| space := demo_space; service := "kv"; path := p; query := None; fragment := None |}.

Definition demo_cap (p : option string) (a : string) : Capability := mkCapability (demo_kv p) a [].

Definition demo_ucan (iss aud : string) (parents : list Cid) (bytes : string) : Ucan :=
  mkUcan iss aud None 100 None parents [] bytes.

Definition demo_grant (from to : string) (caps : list Capability) (parents : list Cid)
    (m : DelegationMode) (bytes : string) : DelegationInfo :=
  {| di_capabilities := caps; di_delegator := from; di_delegate := to; di_parents := parents;
     di_delegation := DUcan (demo_ucan from to parents bytes);
     di_expiry := Some 100%Z; di_not_before := None; di_issued_at := None; di_delegation_mode := m |}.

(** The CID of the token with these bytes. *)
Definition demo_cid (bytes : string) : Cid := to_cid (@hash demo_blake bytes) 85.

(** A codec that evaluates: a value is the binary text of its number. *)
Fixpoint bits (p : positive) : string :=
  match p with xH => "" | xO p => String "0" (bits p) | xI p => String "1" (bits p) end.
Fixpoint unbits (s : string) : option positive :=
  match s with
  | "" => Some xH
  | String c s => p ← unbits s; if decide (c = "0"%char) then Some (xO p) else if decide (c = "1"%char) then Some (xI p) else None
  end.

Lemma unbits_bits p : unbits (bits p) = Some p.
Proof. induction p as [p IH|p IH|]; simpl; [by rewrite IH..|done]. Qed.
