(* ===== verification/Delegation.v ===== *)
(** * Accepting a delegation: tinycloud-core/src/models/delegation.rs

    [process] verifies the token, validates every capability against the
    delegator's own authority or against the cited parents, and stores the
    delegation with its abilities and parent links.  All times of one call are
    the same [now]. *)
From S2P Require Import Prelude Str Chars Json Identity Resource Registry SqlCaveat ColumnEncryption Tables Chain Tokens Demo.

Module delegation.

Inductive DelegationError :=
| InvalidTime
| InvalidSignature
| UnauthorizedDelegator (who : string)
| UnauthorizedCapability (r : Resource) (a : string)
| MissingParents
| ExpiryExceedsParent
| NotBeforePrecedesParent
| TerminalParentCannotRedelegate
| ParentRevoked (cid : string)
| AncestorRevoked (ancestor_cid parent_cid : string)
| ChainTraversalLimitExceeded
| CaveatsNotContained (reason : string).

Inductive Error :=
| Db (e : DbErr)
| InvalidDelegation (e : DelegationError).

Section Delegation.
Context `{Keccak256} `{Blake3} `{CidLib} `{RowOrder} `{TokenLib}.

(** ** Verification of the token *)

Definition verify (d : TinyCloudDelegation) (now : Z) : result Error unit :=
  match d with
  | DUcan u =>
      _ ← ensure (ucan_verify_signature u) (InvalidDelegation InvalidSignature);
      ensure (ucan_validate_time u now) (InvalidDelegation InvalidTime)
  | DCacao c =>
      _ ← ensure (cacao_verify c) (InvalidDelegation InvalidSignature);
      ensure (valid_at c now) (InvalidDelegation InvalidTime)
  end.

(** ** Validation *)

Definition is_root_authority (cap : Capability) (delegator : string) : bool :=
  match resource_space (cap_resource cap) with
  | Some s => did_principal_matches (base_did s) delegator
  | None => false
  end ||
  match cap_resource cap with
  | Other uri =>
      match network_id_from_str (uri_str uri) with
      | Ok n => did_principal_matches (owner_did n) delegator
      | Err _ => false
      end
  | TinyCloud _ => false
  end.

Definition parent_is_terminal (p : DelegationRow) : bool :=
  match d_facts p with
  | None => false
  | Some map => match obj_get FACT_KEY map ≫= as_str with
                | Some s => bool_decide (s = "terminal")
                | None => false
                end
  end.

Definition chain_error (e : ChainTraversalError) : Error :=
  match e with
  | ChainDb e => Db e
  | LimitExceeded => InvalidDelegation ChainTraversalLimitExceeded
  end.

Definition ensure_parent_active (db : Tables.Db) (parent_id : Hash) : result Error unit :=
  _ ← ensure (negb (is_revoked db parent_id)) (InvalidDelegation (ParentRevoked (cid_text parent_id)));
  revoked_ancestor ← map_err chain_error (first_revoked_ancestor db parent_id);
  match revoked_ancestor with
  | Some ancestor_cid => Err (InvalidDelegation (AncestorRevoked ancestor_cid (cid_text parent_id)))
  | None => Ok tt
  end.

(** The child's validity window lies within the parent's. *)
Definition expiry_valid (p : DelegationRow) (d : DelegationInfo) : bool :=
  match d_expiry p, di_expiry d with
  | None, _ => true
  | Some _, None => false
  | Some pe, Some de => (de <=? pe)%Z
  end.

Definition not_before_valid (p : DelegationRow) (d : DelegationInfo) : bool :=
  match d_not_before p, di_not_before d with
  | None, _ => true
  | Some _, None => false
  | Some pnbf, Some dnbf => (pnbf <=? dnbf)%Z
  end.

(** The loop over the candidates: the first that contains the child's caveats,
    or the last reason. *)
Fixpoint caveat_loop (child : Caveats) (candidates : list AbilityRow) (last_reason : option string)
    : result string unit :=
  match candidates with
  | [] => Err (default "child-caveats-not-subset-of-parent" last_reason)
  | pc :: candidates =>
      match caveats_contain_child (a_caveats pc) child with
      | Ok _ => Ok tt
      | Err reason => caveat_loop child candidates (Some reason)
      end
  end.

(** [c] is covered by the ability [pc] of a parent, caveats aside. *)
Definition covered_by (c : Capability) (pc : AbilityRow) : bool :=
  resource_extends (cap_resource c) (a_resource pc) && ability_matches (a_ability pc) (cap_ability c).

Definition authorize_cap (parent_abilities : list AbilityRow) (c : Capability) : result Error unit :=
  match List.filter (covered_by c) parent_abilities with
  | [] => Err (InvalidDelegation (UnauthorizedCapability (cap_resource c) (cap_ability c)))
  | candidates =>
      map_err (λ reason, InvalidDelegation (CaveatsNotContained reason))
        (caveat_loop (cap_caveats c) candidates None)
  end.

Definition is_parent (d : DelegationInfo) (p : DelegationRow) : bool :=
  mem (d_id p) (hash_of_cid <$> di_parents d) && bool_decide (d_delegatee p = di_delegator d).

Definition validate (db : Tables.Db) (d : DelegationInfo) : result Error unit :=
  let dependant_caps := List.filter (λ c, negb (is_root_authority c (di_delegator d))) (di_capabilities d) in
  match dependant_caps, di_parents d with
  | [], _ => Ok tt
  | _, [] => Err (InvalidDelegation MissingParents)
  | _, _ =>
      let all_parents := select (is_parent d) (delegations db) in
      _ ← ensure (negb (bool_decide (all_parents = []))) (InvalidDelegation MissingParents);
      _ ← for_each (λ p, ensure_parent_active db (d_id p)) all_parents;
      _ ← for_each (λ p, ensure (negb (parent_is_terminal p))
                           (InvalidDelegation TerminalParentCannotRedelegate)) all_parents;
      let expiry_failed := existsb (λ p, negb (expiry_valid p d)) all_parents in
      let not_before_failed := existsb (λ p, negb (not_before_valid p d)) all_parents in
      let parents := List.filter (λ p, expiry_valid p d && not_before_valid p d) all_parents in
      _ ← match parents with
          | [] => if expiry_failed then Err (InvalidDelegation ExpiryExceedsParent)
                  else if not_before_failed then Err (InvalidDelegation NotBeforePrecedesParent)
                  else Ok tt
          | _ => Ok tt
          end;
      let parent_abilities :=
        flat_map (λ p, select (λ a, hash_eqb (a_delegation a) (d_id p)) (abilities db)) parents in
      for_each (authorize_cap parent_abilities) dependant_caps
  end.

(** ** Storing *)

Definition save_actors (actors : list string) (db : Tables.Db) : result DbErr Tables.Db :=
  match insert_actors actors db with
  | Err RecordNotInserted => Ok db
  | r => r
  end.

Definition mode_facts (m : DelegationMode) : option Facts :=
  match m with
  | Attenuable => None
  | Terminal => Some [(FACT_KEY, JString (mode_str Terminal))]
  end.

Definition delegation_row (d : DelegationInfo) (serialization : string)
    (encryption : option ColumnEncryption) (nonce : string) : DelegationRow :=
  {| d_id := hash serialization; d_delegator := di_delegator d; d_delegatee := di_delegate d;
     d_expiry := di_expiry d; d_issued_at := di_issued_at d; d_not_before := di_not_before d;
     d_facts := mode_facts (di_delegation_mode d);
     d_serialization := maybe_encrypt encryption nonce serialization |}.

Definition ability_rows (h : Hash) (caps : list Capability) : list AbilityRow :=
  (λ c, mkAbilityRow (cap_resource c) (cap_ability c) h (cap_caveats c)) <$> caps.

Definition parent_rows (h : Hash) (parents : list Cid) : list ParentRow :=
  (λ p, mkParentRow (hash_of_cid p) h) <$> parents.

Definition save (db : Tables.Db) (d : DelegationInfo) (serialization : string)
    (encryption : option ColumnEncryption) (nonce : string) : result Error (Hash * Tables.Db) :=
  db ← map_err Db (save_actors [di_delegator d; di_delegate d] db);
  let h := hash serialization in
  match insert_delegation (delegation_row d serialization encryption nonce) db with
  | Err RecordNotInserted => Ok (h, db)
  | Err e => Err (Db e)
  | Ok db =>
      db ← map_err Db (insert_abilities (ability_rows h (di_capabilities d)) db);
      db ← map_err Db (insert_parents (parent_rows h (di_parents d)) db);
      Ok (h, db)
  end.

Definition process (db : Tables.Db) (d : DelegationInfo) (serialization : string)
    (encryption : option ColumnEncryption) (nonce : string) (now : Z)
    : result Error (Hash * Tables.Db) :=
  _ ← verify (di_delegation d) now;
  _ ← validate db d;
  save db d serialization encryption nonce.

(** ** What validation decides *)

(** A stored delegation the token cites and that was issued to its delegator. *)
Definition cited (db : Tables.Db) (d : DelegationInfo) (p : DelegationRow) : Prop :=
  p ∈ delegations db ∧ d_id p ∈ (hash_of_cid <$> di_parents d) ∧ d_delegatee p = di_delegator d.

(** The window of [d] is within that of [p]. *)
Definition narrows (p : DelegationRow) (d : DelegationInfo) : Prop :=
  expiry_valid p d = true ∧ not_before_valid p d = true.

(** The ability [a] grants capability [c] when it is held. *)
Definition grants (a : AbilityRow) (c : Capability) : Prop :=
  resource_extends (cap_resource c) (a_resource a) = true ∧
  ability_matches (a_ability a) (cap_ability c) = true ∧
  caveats_contain_child (a_caveats a) (cap_caveats c) = Ok tt.

(** A cited parent grants the capability for the delegation's window. *)
Definition supported (db : Tables.Db) (d : DelegationInfo) (c : Capability) : Prop :=
  ∃ p a, cited db d p ∧ narrows p d ∧ a ∈ abilities db ∧ a_delegation a = d_id p ∧ grants a c.

(** The parent is not revoked, nor is any ancestor the walk finds. *)
Definition active (db : Tables.Db) (p : DelegationRow) : Prop :=
  is_revoked db (d_id p) = false ∧ first_revoked_ancestor db (d_id p) = Ok None.

(** What the walk reports of an active delegation. *)
Lemma active_chain db p :
  active db p → ∃ ids, ancestor_chain_ids db (d_id p) = Ok ids ∧
    (length ids ≤ MAX_CHAIN_TRAVERSAL_NODES)%nat ∧ (∀ h, h ∈ ids → ¬ revoked db h) ∧
    ((∀ h, h ∈ ids → (parent_count db h + length ids ≤ 65)%nat) → ∀ a, ancestor db (d_id p) a → ¬ revoked db a).
Proof.
  intros [Hr Hf]. pose proof Hf as Hf'. unfold first_revoked_ancestor in Hf'. apply bind_Ok in Hf' as (ids & Hids & _).
  exists ids. split; [done|]. split; [by apply (chain_roots_sound db [d_id p] ids)|by eapply unrevoked_chain].
Qed.

Lemma ensure_parent_active_Ok db h :
  ensure_parent_active db h = Ok tt ↔
  is_revoked db h = false ∧ first_revoked_ancestor db h = Ok None.
Proof.
  unfold ensure_parent_active. generalize (first_revoked_ancestor db h) as r, (is_revoked db h) as b.
  intros [[?|]|?] []; simpl; naive_solver.
Qed.

Lemma caveat_loop_grants child cands reason :
  caveat_loop child cands reason = Ok tt ↔
  ∃ pc, pc ∈ cands ∧ caveats_contain_child (a_caveats pc) child = Ok tt.
Proof.
  revert reason. induction cands as [|pc cands IH]; intros reason; simpl.
  - split; [done|]. intros (pc & Hpc & _). by apply not_elem_of_nil in Hpc.
  - destruct (caveats_contain_child (a_caveats pc) child) as [[]|r] eqn:Hc.
    + split; [|done]. intros _. exists pc. split; [by left|done].
    + rewrite IH. split; intros (x & Hx & Hok); exists x; split; try done; [by right|].
      apply elem_of_cons in Hx as [->|?]; [congruence|done].
Qed.

Lemma covered_by_true c pc :
  covered_by c pc = true ↔
  resource_extends (cap_resource c) (a_resource pc) = true ∧
  ability_matches (a_ability pc) (cap_ability c) = true.
Proof. apply andb_true_iff. Qed.

Lemma elem_of_lfilter {A} (f : A → bool) l x : x ∈ List.filter f l ↔ x ∈ l ∧ f x = true.
Proof. by rewrite !list_elem_of_In, filter_In. Qed.

Lemma authorize_cap_grants l c : authorize_cap l c = Ok tt ↔ ∃ a, a ∈ l ∧ grants a c.
Proof.
  unfold authorize_cap, grants. destruct (List.filter (covered_by c) l) as [|x xs] eqn:Hf.
  - split; [done|]. intros (a & Ha & He & Hm & _).
    assert (a ∈ List.filter (covered_by c) l) as Hin.
    { apply elem_of_lfilter. split; [done|]. by apply covered_by_true. }
    rewrite Hf in Hin. by apply not_elem_of_nil in Hin.
  - rewrite map_err_Ok, caveat_loop_grants, <- Hf. setoid_rewrite elem_of_lfilter.
    setoid_rewrite covered_by_true. naive_solver.
Qed.

Lemma is_parent_true d p :
  is_parent d p = true ↔ d_id p ∈ (hash_of_cid <$> di_parents d) ∧ d_delegatee p = di_delegator d.
Proof. unfold is_parent. by rewrite andb_true_iff, mem_true, bool_decide_eq_true. Qed.

Lemma elem_of_all_parents db d p : p ∈ select (is_parent d) (delegations db) ↔ cited db d p.
Proof. rewrite elem_of_select, is_parent_true. done. Qed.

(** The abilities loaded for the parents that passed the window filter. *)
Lemma elem_of_parent_abilities db d ps a :
  a ∈ flat_map (λ p, select (λ a, hash_eqb (a_delegation a) (d_id p)) (abilities db))
        (List.filter (λ p, expiry_valid p d && not_before_valid p d) ps) ↔
  ∃ p, p ∈ ps ∧ narrows p d ∧ a ∈ abilities db ∧ a_delegation a = d_id p.
Proof.
  rewrite list_elem_of_In, in_flat_map. setoid_rewrite <- list_elem_of_In.
  setoid_rewrite elem_of_select. setoid_rewrite elem_of_lfilter.
  setoid_rewrite andb_true_iff. setoid_rewrite hash_eqb_true. unfold narrows. naive_solver.
Qed.

Lemma delegation_valid db d :
  validate db d = Ok tt ↔
  (∀ c, c ∈ di_capabilities d → is_root_authority c (di_delegator d) = true) ∨
  ((∀ p, cited db d p → active db p ∧ parent_is_terminal p = false) ∧
   ∀ c, c ∈ di_capabilities d → is_root_authority c (di_delegator d) = true ∨ supported db d c).
Proof.
  unfold validate. set (deps := List.filter _ (di_capabilities d)).
  assert (∀ c, c ∈ deps ↔ c ∈ di_capabilities d ∧ is_root_authority c (di_delegator d) = false) as Hdeps.
  { intros c. unfold deps. rewrite elem_of_lfilter, negb_true_iff. done. }
  clearbody deps. destruct deps as [|c0 deps].
  { split; [|done]. intros _. left. intros c Hc.
    destruct (is_root_authority c (di_delegator d)) eqn:Hr; [done|].
    assert (c ∈ []) as Hn by (apply Hdeps; done). by apply not_elem_of_nil in Hn. }
  assert (c0 ∈ di_capabilities d ∧ is_root_authority c0 (di_delegator d) = false) as [Hc0 Hr0].
  { apply Hdeps. by left. }
  set (all := select (is_parent d) (delegations db)) in *.
  assert (∀ p, p ∈ all ↔ cited db d p) as Hall by (intros; apply elem_of_all_parents).
  split.
  - intros Hv. right. destruct (di_parents d) as [|x0 xs] eqn:Hps; [done|].
    clear Hps. ok_inv. rename H5 into Hact, H6 into Hterm.
    rewrite for_each_Ok in Hact; rewrite for_each_Ok in Hterm; rewrite for_each_Ok in Hv. split.
    + intros p Hp%Hall. split; [by apply ensure_parent_active_Ok, Hact|].
      specialize (Hterm p Hp). by rewrite ensure_Ok, negb_true_iff in Hterm.
    + intros c Hc. destruct (is_root_authority c (di_delegator d)) eqn:Hr; [by left|right].
      assert (c ∈ c0 :: deps) as Hd by (apply Hdeps; done).
      apply Hv, authorize_cap_grants in Hd as (a & Ha & Hg).
      apply elem_of_parent_abilities in Ha as (p & Hp%Hall & Hn & Ha & Had). by exists p, a.
  - intros [Hroot|[Hpar Hsup]]; [rewrite Hroot in Hr0; done|].
    destruct (Hsup c0 Hc0) as [Hr|(p0 & a0 & Hp0 & Hn0 & _)]; [congruence|].
    pose proof (proj2 (Hall p0) Hp0) as Hin0.
    destruct (di_parents d) as [|x0 xs] eqn:Hps.
    { destruct Hp0 as (_ & Hid & _). rewrite Hps in Hid. by apply not_elem_of_nil in Hid. }
    rewrite (bool_decide_eq_false_2 (all = [])) by (intros Hnil; rewrite Hnil in Hin0; by apply not_elem_of_nil in Hin0).
    cbn [negb]. rewrite ensure_true, bind_ret_l.
    assert (for_each (λ p, ensure_parent_active db (d_id p)) all = Ok tt) as ->.
    { apply for_each_Ok. intros p Hp%Hall. apply ensure_parent_active_Ok, Hpar, Hp. }
    rewrite bind_ret_l.
    assert (for_each (λ p, ensure (negb (parent_is_terminal p))
              (InvalidDelegation TerminalParentCannotRedelegate)) all = Ok tt) as ->.
    { apply for_each_Ok. intros p Hp%Hall. rewrite ensure_Ok, negb_true_iff. by apply Hpar. }
    rewrite bind_ret_l.
    set (ps := List.filter _ all).
    assert (p0 ∈ ps) as Hps0.
    { apply elem_of_lfilter. destruct Hn0 as [-> ->]. done. }
    assert (∀ e : result Error unit, match ps with [] => e | _ => Ok tt end = Ok tt) as ->.
    { intros e. destruct ps; [by apply not_elem_of_nil in Hps0|done]. }
    rewrite bind_ret_l.
    apply for_each_Ok. intros c [Hc Hr]%Hdeps. apply authorize_cap_grants.
    destruct (Hsup c Hc) as [?|(p & a & Hp & Hn & Ha & Had & Hg)]; [congruence|].
    exists a. split; [|done]. unfold ps. apply elem_of_parent_abilities. exists p.
    split_and!; try done. by apply Hall.
Qed.

(** What [save] appends; a delegation already stored leaves the tables as they
    are, actors aside. *)
Lemma save_actors_Ok l db db' :
  save_actors l db = Ok db' → ∃ t, db' = set_actors t db ∧ ∀ a, a ∈ actors db → a ∈ t.
Proof.
  unfold save_actors, insert_actors. unfold insert_or_ignore.
  destruct (insert_fresh _ _ _ l (actors db)) as [t|e] eqn:Hf.
  - apply insert_fresh_Ok in Hf as (added & -> & _ & _). rewrite bind_ret_l.
    destruct (_ =? _)%nat; simpl; intros [= <-].
    + exists (actors db). split; [by destruct db|done].
    + exists (actors db ++ added). split; [done|]. set_solver.
  - simpl. destruct e; intros Hs; ok_inv. exists (actors db'). split; [by destruct db'|done].
Qed.

(** The rows of a newly stored delegation. *)
Record stored (db : Tables.Db) (d : DelegationInfo) (row : DelegationRow) (db' : Tables.Db) : Prop := {
  stored_fresh : has_delegation db (d_id row) = false;
  stored_delegations : delegations db' = delegations db ++ [row];
  stored_abilities : abilities db' = abilities db ++ ability_rows (d_id row) (di_capabilities d);
  stored_parents : parent_delegations db' = parent_delegations db ++ parent_rows (d_id row) (di_parents d);
  stored_links : ∀ p, p ∈ di_parents d → has_delegation db' (hash_of_cid p) = true;
  stored_rest : ∃ t, db' = set_parent_delegations (parent_delegations db')
                             (set_abilities (abilities db')
                               (set_delegations (delegations db') (set_actors t db)));
}.

Lemma save_Ok db d ser enc nonce h db' :
  save db d ser enc nonce = Ok (h, db') →
  h = hash ser ∧
  ((has_delegation db h = true ∧ ∃ t, db' = set_actors t db) ∨
   stored db d (delegation_row d ser enc nonce) db').
Proof.
  unfold save. intros Hs. ok_inv. rename x into db1, H4 into Ha.
  apply save_actors_Ok in Ha as (t & -> & _).
  unfold insert_delegation in Hs.
  destruct (insert_or_ignore _ _ _ _ _) as [tbl|e] eqn:Hi.
  - apply insert_or_ignore_Ok in Hi as (-> & Hk & _). cbn [mbind result_bind] in Hs.
    apply bind_Ok in Hs as (db2 & Hab%map_err_Ok & Hs). apply bind_Ok in Hs as (db3 & Hpa%map_err_Ok & Hs).
    apply bind_Ok in Hab as (ta & [-> _]%insert_many_Ok & Hab).
    apply bind_Ok in Hpa as (tp & [-> Hfk]%insert_many_Ok & Hpa).
    simplify_eq. split; [done|]. right. constructor; try done.
    + intros p Hp. rewrite Forall_forall in Hfk. apply (Hfk (mkParentRow (hash_of_cid p) (hash ser))).
      unfold parent_rows. apply list_elem_of_fmap. by exists p.
    + by exists t.
  - cbn [mbind result_bind] in Hs. destruct e; try done. simplify_eq. split; [done|]. left.
    split; [|by exists t]. by apply insert_or_ignore_none in Hi.
Qed.

End Delegation.
End delegation.

(** ** Claims *)

Section Claims.
Context `{Keccak256} `{Blake3} `{CidLib} `{RowOrder} `{TokenLib}.
Import delegation.

(** C4: a delegation is accepted exactly when its delegator is the root authority
    of every capability, or when every stored delegation it cites and that was
    issued to its delegator is active (neither revoked nor below a revoked
    ancestor that the walk of at most 64 delegations finds) and not terminal, and
    each capability is the delegator's own or is granted by an ability of such a
    parent whose window contains the new one: its resource extends the parent's,
    its ability is implied by the parent's, its caveats are contained in the
    parent's.  A parent that is active has no revoked ancestor at all when no
    delegation the walk finds has more parents than the walk's query reads, 65
    less the number found; beyond that limit a revoked ancestor can be missed. *)
Theorem delegation_validate_exact (db : Tables.Db) (d : DelegationInfo) :
  (validate db d = Ok tt ↔
   (∀ c, c ∈ di_capabilities d → is_root_authority c (di_delegator d) = true) ∨
   ((∀ p, cited db d p → active db p ∧ parent_is_terminal p = false) ∧
    ∀ c, c ∈ di_capabilities d → is_root_authority c (di_delegator d) = true ∨ supported db d c)) ∧
  (∀ p, active db p → ∃ ids, ancestor_chain_ids db (d_id p) = Ok ids ∧
     (length ids ≤ MAX_CHAIN_TRAVERSAL_NODES)%nat ∧ (∀ h, h ∈ ids → ¬ revoked db h) ∧
     ((∀ h, h ∈ ids → (parent_count db h + length ids ≤ 65)%nat) → ∀ a, ancestor db (d_id p) a → ¬ revoked db a)).
Proof. split; [apply delegation_valid|]. apply active_chain. Qed.

(** What [process] stores: an accepted delegation has a verified signature and
    is within its own validity window, its id is the hash of the signed bytes,
    and the store gains exactly its row, one ability row per capability and one
    link per cited parent, every one of which is a stored delegation; a
    delegation stored before changes nothing but the actor table. *)
Theorem delegation_process_stores (db db' : Tables.Db) (d : DelegationInfo) (ser nonce : string)
    (enc : option ColumnEncryption) (now : Z) (h : Hash) :
  process db d ser enc nonce now = Ok (h, db') →
  verify (di_delegation d) now = Ok tt ∧ validate db d = Ok tt ∧ h = hash ser ∧
  ((has_delegation db h = true ∧ ∃ t, db' = set_actors t db) ∨
   stored db d (delegation_row d ser enc nonce) db').
Proof.
  unfold process. intros Hp. apply bind_Ok in Hp as ([] & Hv & Hp). apply bind_Ok in Hp as ([] & Hval & Hs).
  apply save_Ok in Hs as [? ?]. done.
Qed.

(** A delegation stored as terminal is never built upon: from then on, in every
    store that still holds its row, a delegation by its delegatee that cites it
    is refused unless the delegator is the root authority of everything it
    grants. *)
Theorem terminal_never_redelegated (db db' db2 : Tables.Db) (d d2 : DelegationInfo) (ser nonce : string)
    (enc : option ColumnEncryption) (h : Hash) (c : Capability) :
  save db d ser enc nonce = Ok (h, db') → has_delegation db h = false →
  di_delegation_mode d = Terminal → delegations db' ⊆ delegations db2 →
  h ∈ (hash_of_cid <$> di_parents d2) → di_delegator d2 = di_delegate d →
  c ∈ di_capabilities d2 → is_root_authority c (di_delegator d2) = false →
  is_ok (validate db2 d2) = false.
Proof.
  intros Hs Hfresh Hmode Hsub Hcite Hwho Hc Hroot.
  apply save_Ok in Hs as [-> [[Hold _]|Hst]]; [congruence|].
  destruct (validate db2 d2) as [[]|e] eqn:Hv; [|done].
  apply delegation_valid in Hv as [Hall|[Hpar _]]; [rewrite Hall in Hroot; done|].
  destruct (Hpar (delegation_row d ser enc nonce)) as [_ Ht].
  - split_and!; [|done|done]. apply Hsub. rewrite (stored_delegations _ _ _ _ Hst). set_solver.
  - unfold parent_is_terminal in Ht. cbn [delegation_row d_facts] in Ht. by rewrite Hmode in Ht.
Qed.

End Claims.

(** ** Witnesses *)

#[local] Existing Instances demo_keccak demo_blake demo_cids demo_order demo_tokens.

(** [owner] gives [alice] read access to [docs], terminally. *)
Definition demo_terminal : DelegationInfo :=
  demo_grant owner alice [demo_cap (Some "docs") "tinycloud.kv/get"] [] Terminal "d1".
Definition demo_after_terminal : Tables.Db :=
  match delegation.process empty_db demo_terminal "d1" None "" 0 with Ok (_, db) => db | Err _ => empty_db end.
Definition demo_regrant : DelegationInfo :=
  demo_grant alice bob [demo_cap (Some "docs/a") "tinycloud.kv/get"] [demo_cid "d1"] Attenuable "d2".

Lemma delegation_process_stores_witness :
  delegation.stored empty_db demo_terminal (delegation.delegation_row demo_terminal "d1" None "") demo_after_terminal.
Proof.
  destruct (delegation_process_stores empty_db demo_after_terminal demo_terminal "d1" "" None 0 (hash "d1"))
    as (_ & _ & _ & [[Hold _]|Hst]); [by vm_compute|by vm_compute in Hold|exact Hst].
Defined.

Lemma terminal_never_redelegated_witness :
  is_ok (delegation.validate demo_after_terminal demo_regrant) = false.
Proof.
  apply (terminal_never_redelegated empty_db demo_after_terminal demo_after_terminal demo_terminal demo_regrant
    "d1" "" None (hash "d1") (demo_cap (Some "docs/a") "tinycloud.kv/get")); try (by vm_compute); try done.
  - apply mem_true. by vm_compute.
  - by left.
Defined.
