(* ===== verification/Invocation.v ===== *)
(** * Accepting an invocation: tinycloud-core/src/models/invocation.rs

    [process] verifies the token, authorizes every capability against the
    invoker's own authority or the cited delegations (whose whole chains must be
    unrevoked and within their windows), then records the invocation, its
    key-value operations and the webhook deliveries they cause. *)
From S2P Require Import Prelude Str Chars Json Identity Resource Registry SqlCaveat ColumnEncryption Tables Chain Tokens Events Demo Delegation.

Module invocation.

Inductive InvocationError :=
| InvalidTime
| InvalidSignature
| UnauthorizedInvoker (who : string)
| UnauthorizedAction (r : Resource) (a : string)
| MissingParents
| MissingKvWrite (key : string)
| DelegationRevoked (cid : string)
| DelegationAncestorRevoked (ancestor_cid invoked_cid : string)
| ChainTraversalLimitExceeded
| CaveatsNotContained (reason : string).

Inductive Error :=
| Db (e : DbErr)
| InvalidInvocation (e : InvocationError).

Section Invocation.
Context `{Keccak256} `{Blake3} `{CidLib} `{RowOrder} `{TokenLib} `{HookFormats}.

(** ** Verification and validation *)

Definition verify_invocation (u : Ucan) (now : Z) : result Error unit :=
  _ ← ensure (ucan_verify_signature u) (InvalidInvocation InvalidSignature);
  ensure (ucan_validate_time u now) (InvalidInvocation InvalidTime).

Definition is_root_authority (cap : Capability) (invoker : string) : bool :=
  match resource_space (cap_resource cap) with
  | Some s => did_principal_matches (base_did s) invoker
  | None => false
  end ||
  match cap_resource cap with
  | Other uri =>
      match network_id_from_str (uri_str uri) with
      | Ok n => did_principal_matches (owner_did n) invoker
      | Err _ => false
      end
  | TinyCloud _ => false
  end.

Definition chain_error (e : ChainTraversalError) : Error :=
  match e with
  | ChainDb e => Db e
  | LimitExceeded => InvalidInvocation ChainTraversalLimitExceeded
  end.

(** [now >= expiry || now < not_before]. *)
Definition outside_window (now : Z) (d : DelegationRow) : bool :=
  match d_expiry d with Some e => (e <=? now)%Z | None => false end ||
  match d_not_before d with Some n => (now <? n)%Z | None => false end.

(** The body of the second loop over the cited delegations. *)
Definition check_chain (db : Tables.Db) (dependant_caps : list Capability) (now : Z) (p : DelegationRow)
    : result Error unit :=
  _ ← ensure (negb (is_revoked db (d_id p)))
        (InvalidInvocation (DelegationRevoked (cid_text (d_id p))));
  revoked_ancestor ← map_err chain_error (first_revoked_ancestor db (d_id p));
  _ ← match revoked_ancestor with
      | Some a => Err (InvalidInvocation (DelegationAncestorRevoked a (cid_text (d_id p))))
      | None => Ok tt
      end;
  chain_ids ← map_err chain_error (ancestor_chain_ids db (d_id p));
  let chain := select (λ d, mem (d_id d) chain_ids) (delegations db) in
  _ ← ensure (length chain =? length chain_ids)%nat (InvalidInvocation MissingParents);
  if existsb (outside_window now) chain then
    match dependant_caps with
    | c :: _ => Err (InvalidInvocation (UnauthorizedAction (cap_resource c) (cap_ability c)))
    | [] => Err (InvalidInvocation MissingParents)
    end
  else Ok tt.

Fixpoint caveat_loop (child : Caveats) (candidates : list AbilityRow) (last_reason : option string)
    : result string unit :=
  match candidates with
  | [] => Err (default "invocation-caveats-not-subset-of-chain" last_reason)
  | pc :: candidates =>
      match caveats_contain_invocation (a_caveats pc) child with
      | Ok _ => Ok tt
      | Err reason => caveat_loop child candidates (Some reason)
      end
  end.

Definition authorize_cap (parent_abilities : list AbilityRow) (c : Capability) : result Error unit :=
  match List.filter (λ pc, resource_extends (cap_resource c) (a_resource pc) &&
                           ability_matches (a_ability pc) (cap_ability c)) parent_abilities with
  | [] => Err (InvalidInvocation (UnauthorizedAction (cap_resource c) (cap_ability c)))
  | candidates =>
      map_err (λ reason, InvalidInvocation (CaveatsNotContained reason))
        (caveat_loop (cap_caveats c) candidates None)
  end.

Definition validate (db : Tables.Db) (i : InvocationInfo) (now : Z) : result Error unit :=
  let dependant_caps := List.filter (λ c, negb (is_root_authority c (ii_invoker i))) (ii_capabilities i) in
  match dependant_caps, ii_parents i with
  | [], _ => Ok tt
  | _, [] => Err (InvalidInvocation MissingParents)
  | _, _ =>
      let parents := select (λ d, mem (d_id d) (hash_of_cid <$> ii_parents i)) (delegations db) in
      _ ← ensure (length parents =? length (ii_parents i))%nat (InvalidInvocation MissingParents);
      _ ← for_each (λ p, ensure (did_principal_matches (d_delegatee p) (ii_invoker i))
                           (InvalidInvocation (UnauthorizedInvoker (ii_invoker i)))) parents;
      _ ← for_each (check_chain db dependant_caps now) parents;
      let parents :=
        List.filter (λ p, match d_expiry p with Some e => (now <? e)%Z | None => true end &&
                          match d_not_before p with Some n => (n <=? now)%Z | None => true end) parents in
      let parent_abilities :=
        flat_map (λ p, select (λ a, hash_eqb (a_delegation a) (d_id p)) (abilities db)) parents in
      for_each (authorize_cap parent_abilities) dependant_caps
  end.

Definition verify_and_authorize (db : Tables.Db) (i : InvocationInfo) (now : Z) : result Error unit :=
  _ ← verify_invocation (ii_invocation i) now;
  validate db i now.

(** ** Recording *)

(** [(seq, epoch, epoch_seq)] decides which of two writes of a key is newer;
    epochs compare as the stored bytes do. *)
Definition newer (a b : KvWriteRow) : bool :=
  let ea := hash_bytes (w_epoch a) in
  let eb := hash_bytes (w_epoch b) in
  (w_seq b <? w_seq a)%Z ||
  ((w_seq a =? w_seq b)%Z &&
   (negb (bytes_leb ea eb) || (bool_decide (ea = eb) && (w_epoch_seq b <? w_epoch_seq a)%Z))).

(** The first row of [ORDER BY seq DESC, epoch DESC, epoch_seq DESC]. *)
Fixpoint newest (l : list KvWriteRow) : option KvWriteRow :=
  match l with
  | [] => None
  | w :: l => match newest l with
              | Some v => if newer v w then Some v else Some w
              | None => Some w
              end
  end.

Definition key_writes (db : Tables.Db) (s : SpaceId) (k : string) : list KvWriteRow :=
  List.filter (λ w, bool_decide (w_key w = k) && bool_decide (w_space w = s)) (kv_writes db).

(** The write a delete refers to: the given version, or the newest. *)
Definition deleted_write (db : Tables.Db) (s : SpaceId) (k : string) (v : option (Z * Hash * Z))
    : option KvWriteRow :=
  match v with
  | Some (seq, epoch, epoch_seq) =>
      select_one (λ w, bool_decide (w_key w = k) && bool_decide (w_space w = s) &&
                       (w_seq w =? seq)%Z && hash_eqb (w_epoch w) epoch && (w_epoch_seq w =? epoch_seq)%Z)
        (kv_writes db)
  | None => newest (row_order (key_writes db s k))
  end.

Definition save_operation (h : Hash) (db : Tables.Db) (op : VersionedOperation) : result Error Tables.Db :=
  match op with
  | VKvWrite s k v m seq epoch epoch_seq =>
      map_err Db (insert_kv_write (mkKvWriteRow s k h seq epoch epoch_seq v m) db)
  | VKvDelete s k v _ _ _ =>
      w ← ok_or (deleted_write db s k v) (InvalidInvocation (MissingKvWrite k));
      map_err Db (insert_kv_delete (mkKvDeleteRow h s k (w_invocation w)) db)
  end.

Fixpoint save_operations (h : Hash) (db : Tables.Db) (ops : list VersionedOperation) : result Error Tables.Db :=
  match ops with
  | [] => Ok db
  | op :: ops => db ← save_operation h db op; save_operations h db ops
  end.

(** [KvWebhookPayload]. *)
Definition webhook_payload (event_id s ability key actor epoch : string) (index : N) (timestamp : string) : json :=
  JObject [("type", JString "write"); ("id", JString event_id); ("space", JString s);
           ("service", JString "kv"); ("ability", JString ability); ("path", JString key);
           ("actor", JString actor); ("epoch", JString epoch);
           ("eventIndex", JNumber (NInt (Z.of_N index))); ("timestamp", JString timestamp)].

(** One operation's deliveries; [indexes] counts the operations of each space. *)
Definition enqueue_operation (actor : string) (timestamp : string) (indexes : gmap string N)
    (db : Tables.Db) (op : VersionedOperation) : result DbErr (gmap string N * Tables.Db) :=
  let '(s, key, ability, epoch) :=
    match op with
    | VKvWrite s k _ _ _ e _ => (s, k, "tinycloud.kv/put", e)
    | VKvDelete s k _ _ e _ => (s, k, "tinycloud.kv/del", e)
    end in
  let space_id := space_to_string s in
  let subscriptions :=
    select (λ h, hs_active h && bool_decide (hs_space_id h = space_id) &&
                 bool_decide (hs_target_service h = "kv")) (hook_subscriptions db) in
  let current := default 0%N (indexes !! space_id) in
  let indexes := <[space_id := (current + 1)%N]> indexes in
  match subscriptions with
  | [] => Ok (indexes, db)
  | _ =>
      let epoch_cid := cid_text epoch in
      let event_id := epoch_cid +:+ ":" +:+ fmt_u64 current in
      let payload_json := json_text (webhook_payload event_id space_id ability key actor epoch_cid current timestamp) in
      let pending :=
        (λ sub, {| hd_id := hook_delivery_id (hs_id sub) event_id; hd_subscription_id := hs_id sub;
                   hd_event_id := event_id; hd_payload_json := payload_json; hd_status := "pending";
                   hd_attempts := 0; hd_next_attempt_at := None; hd_last_error := None;
                   hd_created_at := timestamp; hd_delivered_at := None |})
        <$> List.filter (λ sub, subscription_matches_event sub key ability) subscriptions in
      match pending with
      | [] => Ok (indexes, db)
      | _ => db ← insert_hook_deliveries pending db; Ok (indexes, db)
      end
  end.

Fixpoint enqueue_loop (actor timestamp : string) (indexes : gmap string N) (db : Tables.Db)
    (ops : list VersionedOperation) : result DbErr Tables.Db :=
  match ops with
  | [] => Ok db
  | op :: ops =>
      '(indexes, db) ← enqueue_operation actor timestamp indexes db op;
      enqueue_loop actor timestamp indexes db ops
  end.

Definition enqueue_kv_webhook_deliveries (db : Tables.Db) (actor : string) (issued_at : Z)
    (ops : list VersionedOperation) : result DbErr Tables.Db :=
  enqueue_loop actor (rfc3339 issued_at) ∅ db ops.

Definition invoked_rows (h : Hash) (caps : list Capability) : list InvokedRow :=
  (λ c, mkInvokedRow h (cap_resource c) (cap_ability c)) <$> caps.

Definition save (db : Tables.Db) (i : InvocationInfo) (now : Z) (serialization : string)
    (ops : list VersionedOperation) (encryption : option ColumnEncryption) (nonce : string)
    : result Error (Hash * Tables.Db) :=
  let h := hash serialization in
  db ← map_err Db (delegation.save_actors [ii_invoker i] db);
  match insert_invocation
          {| i_id := h; i_invoker := ii_invoker i; i_issued_at := now; i_facts := None;
             i_serialization := maybe_encrypt encryption nonce serialization |} db with
  | Err RecordNotInserted => Ok (h, db)
  | Err e => Err (Db e)
  | Ok db =>
      db ← map_err Db (insert_invoked (invoked_rows h (ii_capabilities i)) db);
      db ← map_err Db (insert_parents (delegation.parent_rows h (ii_parents i)) db);
      db ← save_operations h db ops;
      db ← map_err Db (enqueue_kv_webhook_deliveries db (ii_invoker i) now ops);
      Ok (h, db)
  end.

Definition process (db : Tables.Db) (i : InvocationInfo) (serialization : string)
    (ops : list VersionedOperation) (encryption : option ColumnEncryption) (nonce : string) (now : Z)
    : result Error (Hash * Tables.Db) :=
  _ ← verify_invocation (ii_invocation i) now;
  _ ← validate db i now;
  save db i now serialization ops encryption nonce.

(** ** What validation decides *)

Lemma root_authority_same c who : is_root_authority c who = delegation.is_root_authority c who.
Proof. done. Qed.

Definition cited (db : Tables.Db) (i : InvocationInfo) (p : DelegationRow) : Prop :=
  p ∈ delegations db ∧ d_id p ∈ (hash_of_cid <$> ii_parents i).

(** The chain of [p] that the walk finds is unrevoked, stored, and every
    delegation on it is within its window. *)
Record chain_ok (db : Tables.Db) (now : Z) (p : DelegationRow) (ids : list Hash) : Prop := {
  chain_walk : ancestor_chain_ids db (d_id p) = Ok ids;
  chain_unrevoked : is_revoked db (d_id p) = false ∧ first_revoked_ancestor db (d_id p) = Ok None;
  chain_stored : length (List.filter (λ d, mem (d_id d) ids) (delegations db)) = length ids;
  chain_window : ∀ d, d ∈ delegations db → d_id d ∈ ids → outside_window now d = false;
}.

(** The capability is granted by an ability of a cited delegation. *)
Definition authorized (db : Tables.Db) (i : InvocationInfo) (c : Capability) : Prop :=
  ∃ p a, cited db i p ∧ a ∈ abilities db ∧ a_delegation a = d_id p ∧ delegation.grants a c.

Lemma check_chain_Ok db deps now p :
  check_chain db deps now p = Ok tt ↔ ∃ ids, chain_ok db now p ids.
Proof.
  unfold check_chain. split.
  - intros Hc. apply bind_Ok in Hc as ([] & Hrev & Hc). apply bind_Ok in Hc as (r & Hanc & Hc).
    apply bind_Ok in Hc as ([] & Hr & Hc). apply bind_Ok in Hc as (ids & Hids & Hc).
    apply bind_Ok in Hc as ([] & Hlen & Hc). destruct r; [done|].
    rewrite map_err_Ok in Hanc. rewrite map_err_Ok in Hids.
    rewrite ensure_Ok, negb_true_iff in Hrev. rewrite ensure_Ok, Nat.eqb_eq, select_length in Hlen.
    exists ids. constructor; [done..|]. intros d Hd Hin.
    destruct (existsb (outside_window now) _) eqn:Hex; [by destruct deps|].
    destruct (outside_window now d) eqn:Hw; [|done]. exfalso.
    apply not_true_iff_false in Hex. apply Hex, existsb_exists. exists d.
    rewrite <- list_elem_of_In, elem_of_select, mem_true. done.
  - intros (ids & [Hw [Hrev Hanc] Hlen Hwin]).
    rewrite Hrev. cbn [negb]. rewrite ensure_true, bind_ret_l, Hanc. cbn [map_err]. rewrite !bind_ret_l, Hw.
    cbn [map_err]. rewrite bind_ret_l, select_length, Hlen, Nat.eqb_refl, ensure_true, bind_ret_l.
    destruct (existsb (outside_window now) _) eqn:Hex; [|done]. exfalso.
    apply existsb_exists in Hex as (d & Hd & Ho). rewrite <- list_elem_of_In, elem_of_select, mem_true in Hd.
    destruct Hd. by rewrite Hwin in Ho.
Qed.

Lemma caveat_loop_Ok child cands reason :
  caveat_loop child cands reason = Ok tt ↔
  ∃ pc, pc ∈ cands ∧ caveats_contain_child (a_caveats pc) child = Ok tt.
Proof.
  setoid_rewrite <- caveats_contain_same.
  revert reason. induction cands as [|pc cands IH]; intros reason; simpl.
  - split; [done|]. intros (pc & Hpc & _). by apply not_elem_of_nil in Hpc.
  - destruct (caveats_contain_invocation (a_caveats pc) child) as [[]|r] eqn:Hc.
    + split; [|done]. intros _. exists pc. split; [by left|done].
    + rewrite IH. split; intros (x & Hx & Hok); exists x; split; try done; [by right|].
      apply elem_of_cons in Hx as [->|?]; [congruence|done].
Qed.

Lemma authorize_cap_Ok l c : authorize_cap l c = Ok tt ↔ ∃ a, a ∈ l ∧ delegation.grants a c.
Proof.
  unfold authorize_cap, delegation.grants. set (f := λ pc, _ && _).
  assert (∀ a, a ∈ List.filter f l ↔ a ∈ l ∧ resource_extends (cap_resource c) (a_resource a) = true ∧
                ability_matches (a_ability a) (cap_ability c) = true) as Hin.
  { intros a. rewrite delegation.elem_of_lfilter. unfold f. by rewrite andb_true_iff. }
  destruct (List.filter f l) as [|x xs] eqn:Hf.
  - split; [done|]. intros (a & Ha & He & Hm & _).
    assert (a ∈ []) as Hn by (apply Hin; done). by apply not_elem_of_nil in Hn.
  - rewrite map_err_Ok, caveat_loop_Ok. setoid_rewrite Hin. naive_solver.
Qed.

(** What the walk found of a good chain: nodes of the chain, none revoked, and all of them
    when its query was not cut off. *)
Lemma chain_ok_reach db now p ids :
  chain_ok db now p ids →
  (length ids ≤ MAX_CHAIN_TRAVERSAL_NODES)%nat ∧ (∀ h, h ∈ ids → ancestor db (d_id p) h ∧ ¬ revoked db h) ∧
  ((∀ h, h ∈ ids → (parent_count db h + length ids ≤ 65)%nat) → ∀ a, ancestor db (d_id p) a → a ∈ ids).
Proof.
  intros [Hw [Hrev Hanc] _ _]. destruct (chain_roots_sound db [d_id p] ids Hw) as (Hs & _ & Hlen & _). split_and!; [done| |].
  - intros h Hh. split; [|destruct (unrevoked_chain db (d_id p) ids Hw Hrev Hanc) as [Hno _]; by apply Hno]. destruct (Hs h Hh) as (r & Hr & Ha). by apply list_elem_of_singleton in Hr as ->.
  - intros Hcount a Ha. apply (chain_roots_complete db [d_id p] ids Hw Hcount (d_id p) a); [by left|done].
Qed.

(** A delegation on its own chain is within its window. *)
Lemma chain_ok_window db now p ids :
  p ∈ delegations db → chain_ok db now p ids → outside_window now p = false.
Proof.
  intros Hp [Hw _ _ Hwin]. apply (Hwin p Hp). destruct (chain_head db _ _ Hw) as [rest ->]. by left.
Qed.

Lemma within_window now p :
  outside_window now p = false ↔
  match d_expiry p with Some e => (now <? e)%Z | None => true end &&
  match d_not_before p with Some n => (n <=? now)%Z | None => true end = true.
Proof.
  unfold outside_window. rewrite orb_false_iff, andb_true_iff.
  destruct (d_expiry p), (d_not_before p); rewrite ?Z.leb_gt, ?Z.ltb_lt, ?Z.ltb_ge, ?Z.leb_le; tauto.
Qed.

Lemma invocation_valid db i now :
  validate db i now = Ok tt ↔
  (∀ c, c ∈ ii_capabilities i → is_root_authority c (ii_invoker i) = true) ∨
  (length (List.filter (λ d, mem (d_id d) (hash_of_cid <$> ii_parents i)) (delegations db)) =
     length (ii_parents i) ∧
   (∀ p, cited db i p → did_principal_matches (d_delegatee p) (ii_invoker i) = true ∧
                        ∃ ids, chain_ok db now p ids) ∧
   ∀ c, c ∈ ii_capabilities i → is_root_authority c (ii_invoker i) = true ∨ authorized db i c).
Proof.
  unfold validate. set (deps := List.filter _ (ii_capabilities i)).
  assert (∀ c, c ∈ deps ↔ c ∈ ii_capabilities i ∧ is_root_authority c (ii_invoker i) = false) as Hdeps.
  { intros c. unfold deps. rewrite delegation.elem_of_lfilter, negb_true_iff. done. }
  clearbody deps. destruct deps as [|c0 deps].
  { split; [|done]. intros _. left. intros c Hc.
    destruct (is_root_authority c (ii_invoker i)) eqn:Hr; [done|].
    assert (c ∈ []) as Hn by (apply Hdeps; done). by apply not_elem_of_nil in Hn. }
  assert (c0 ∈ ii_capabilities i ∧ is_root_authority c0 (ii_invoker i) = false) as [Hc0 Hr0].
  { apply Hdeps. by left. }
  set (ps := select _ (delegations db)).
  assert (∀ p, p ∈ ps ↔ cited db i p) as Hps.
  { intros p. unfold ps. rewrite elem_of_select, mem_true. done. }
  assert (length ps = length (List.filter (λ d, mem (d_id d) (hash_of_cid <$> ii_parents i)) (delegations db)))
    as Hlen by apply select_length.
  set (good := λ p : DelegationRow, _ && _).
  assert (∀ a, a ∈ flat_map (λ p, select (λ a, hash_eqb (a_delegation a) (d_id p)) (abilities db)) (List.filter good ps) ↔
     ∃ p, cited db i p ∧ good p = true ∧ a ∈ abilities db ∧ a_delegation a = d_id p) as Habs.
  { intros a. rewrite list_elem_of_In, in_flat_map. setoid_rewrite <- list_elem_of_In.
    setoid_rewrite elem_of_select. setoid_rewrite delegation.elem_of_lfilter. setoid_rewrite Hps.
    setoid_rewrite hash_eqb_true. naive_solver. }
  clearbody ps. rewrite <- Hlen. split.
  - intros Hv. right. destruct (ii_parents i) as [|x0 xs] eqn:Hp0; [done|].
    apply bind_Ok in Hv as ([] & Hl & Hv). apply bind_Ok in Hv as ([] & Hwho & Hv).
    apply bind_Ok in Hv as ([] & Hch & Hv). rewrite ensure_Ok, Nat.eqb_eq in Hl.
    rewrite for_each_Ok in Hwho; rewrite for_each_Ok in Hch; rewrite for_each_Ok in Hv.
    split_and!; [done| |].
    + intros p Hp%Hps. specialize (Hwho p Hp). rewrite ensure_Ok in Hwho.
      split; [done|]. by eapply check_chain_Ok, Hch.
    + intros c Hc. destruct (is_root_authority c (ii_invoker i)) eqn:Hr; [by left|right].
      assert (c ∈ c0 :: deps) as Hd by (apply Hdeps; done).
      apply Hv, authorize_cap_Ok in Hd as (a & (p & Hp & _ & Ha & Had)%Habs & Hg). by exists p, a.
  - intros [Hroot|(Hl & Hpar & Hsup)]; [rewrite Hroot in Hr0; done|].
    destruct (ii_parents i) as [|x0 xs] eqn:Hp0.
    { destruct (Hsup c0 Hc0) as [?|(p & a & [_ Hin] & _)]; [congruence|].
      rewrite Hp0 in Hin. by apply not_elem_of_nil in Hin. }
    rewrite Hl, Nat.eqb_refl, ensure_true, bind_ret_l.
    rewrite (proj2 (for_each_Ok (λ p, ensure (did_principal_matches (d_delegatee p) (ii_invoker i)) _) ps)), bind_ret_l.
    2:{ intros p Hp%Hps. rewrite ensure_Ok. by apply Hpar. }
    rewrite (proj2 (for_each_Ok (check_chain db (c0 :: deps) now) ps)), bind_ret_l.
    2:{ intros p Hp%Hps. apply check_chain_Ok. by apply Hpar. }
    apply for_each_Ok. intros c [Hc Hr]%Hdeps. apply authorize_cap_Ok.
    destruct (Hsup c Hc) as [?|(p & a & Hp & Ha & Had & Hg)]; [congruence|].
    exists a. split; [|done]. apply Habs. exists p. split_and!; try done.
    destruct (Hpar p Hp) as (_ & ids & Hok). apply within_window.
    eapply chain_ok_window; [apply Hp|exact Hok].
Qed.

End Invocation.
End invocation.

(** ** Claims *)

Section Claims.
Context `{Keccak256} `{Blake3} `{CidLib} `{RowOrder} `{TokenLib} `{HookFormats}.
Import invocation.

(** C3: an invocation is authorized exactly when the invoker is the root authority
    of every capability, or when the store has as many of the delegations it cites
    as it cites, they were issued to the invoker, each of their chains, as the
    walk of at most 64 delegations finds it, is unrevoked, fully stored and
    within every window on it at the time of the call, and each capability is
    the invoker's own or is granted by an ability of a cited delegation.  What the
    walk finds is on the chain, and it is the whole chain when no delegation found
    has more parents than the walk's query reads, 65 less the number found; beyond
    that limit a revoked or expired ancestor can be missed. *)
Theorem invocation_validate_exact (db : Tables.Db) (i : InvocationInfo) (now : Z) :
  (validate db i now = Ok tt ↔
   (∀ c, c ∈ ii_capabilities i → is_root_authority c (ii_invoker i) = true) ∨
   (length (List.filter (λ d, mem (d_id d) (hash_of_cid <$> ii_parents i)) (delegations db)) =
      length (ii_parents i) ∧
    (∀ p, cited db i p → did_principal_matches (d_delegatee p) (ii_invoker i) = true ∧
                         ∃ ids, chain_ok db now p ids) ∧
    ∀ c, c ∈ ii_capabilities i → is_root_authority c (ii_invoker i) = true ∨ authorized db i c)) ∧
  (∀ p ids, chain_ok db now p ids →
    (length ids ≤ MAX_CHAIN_TRAVERSAL_NODES)%nat ∧ (∀ h, h ∈ ids → ancestor db (d_id p) h ∧ ¬ revoked db h) ∧
    ((∀ h, h ∈ ids → (parent_count db h + length ids ≤ 65)%nat) → ∀ a, ancestor db (d_id p) a → a ∈ ids)).
Proof. split; [apply invocation_valid|]. apply chain_ok_reach. Qed.

(** Revocation fails closed: an invocation that is accepted and relies on a
    delegation has no revoked delegation anywhere above a delegation it cites,
    and no stored one above it that is expired or not yet valid, provided no
    node on the chain has more parents than the walk's query reads. *)
Theorem revocation_fails_closed (db : Tables.Db) (i : InvocationInfo) (now : Z) (c : Capability)
    (p : DelegationRow) (a : Hash) :
  validate db i now = Ok tt → c ∈ ii_capabilities i → is_root_authority c (ii_invoker i) = false →
  cited db i p →
  (∀ ids h, ancestor_chain_ids db (d_id p) = Ok ids → h ∈ ids → (parent_count db h + length ids ≤ 65)%nat) →
  ancestor db (d_id p) a →
  ¬ revoked db a ∧ ∀ d, d ∈ delegations db → d_id d = a → outside_window now d = false.
Proof.
  intros Hv Hc Hr Hp Hcount Ha. apply invocation_valid in Hv as [Hall|(_ & Hpar & _)].
  { rewrite Hall in Hr; done. }
  destruct (Hpar p Hp) as (_ & ids & [Hw [Hrev Hanc] _ Hwin]). split.
  - eapply (unrevoked_chain db (d_id p) ids); eauto.
  - intros d Hd <-. apply Hwin; [done|].
    apply (chain_roots_complete db [d_id p] ids) with (r := d_id p); [exact Hw| |by left|exact Ha].
    intros h Hh. by apply Hcount.
Qed.

End Claims.

(** ** Witnesses *)

#[local] Existing Instances demo_keccak demo_blake demo_cids demo_order demo_tokens.

(** [owner] delegates to [alice], [alice] to [bob]; [bob] invokes. *)
Definition demo_grant1 : DelegationInfo :=
  demo_grant owner alice [demo_cap (Some "docs") "tinycloud.kv/get"] [] Attenuable "d1".
Definition demo_grant2 : DelegationInfo :=
  demo_grant alice bob [demo_cap (Some "docs/a") "tinycloud.kv/get"] [demo_cid "d1"] Attenuable "d2".
Definition demo_delegated : Tables.Db :=
  match delegation.process empty_db demo_grant1 "d1" None "" 0 with
  | Ok (_, db) => match delegation.process db demo_grant2 "d2" None "" 0 with
                  | Ok (_, db) => db | Err _ => empty_db end
  | Err _ => empty_db
  end.
Definition demo_invocation : InvocationInfo :=
  {| ii_capabilities := [demo_cap (Some "docs/a") "tinycloud.kv/get"]; ii_invoker := bob;
     ii_parents := [demo_cid "d2"]; ii_invocation := demo_ucan bob bob [demo_cid "d2"] "i1" |}.

Lemma revocation_fails_closed_witness : ¬ revoked demo_delegated (hash "d1").
Proof.
  apply (revocation_fails_closed demo_delegated demo_invocation 50
    (demo_cap (Some "docs/a") "tinycloud.kv/get") (delegation.delegation_row demo_grant2 "d2" None "")).
  - by vm_compute.
  - by left.
  - by vm_compute.
  - split; apply mem_true; by vm_compute.
  - intros ids h Hids Hh.
    assert (ids = [hash "d2"; hash "d1"]) as -> by (vm_compute in Hids; by injection Hids as <-).
    repeat (apply elem_of_cons in Hh as [->|Hh]; [vm_compute; lia|]). by apply not_elem_of_nil in Hh.
  - apply rtc_once. unfold parent_of. apply mem_true. by vm_compute.
Defined.
