(* ===== verification/Revocation.v ===== *)
(** * Revoking a delegation: tinycloud-core/src/models/revocation.rs 136-366

    A revocation is accepted from the delegator, the delegatee or the owner of a
    space the delegation reaches, signing directly or through one control
    delegation that names the action and the target ([control_proof_decision]).
    Accepted revocations are rows of the [revocation] table; nothing removes
    them. *)
From S2P Require Import Prelude Str Chars Json Identity Resource Registry SqlCaveat ColumnEncryption Tables Chain Tokens Events Demo Delegation Invocation.

Module revocation.

Inductive ControlProofDecision :=
| DirectSigner (principal : string)
| PersistentPrincipal (principal : string)
| Denied.

Inductive RevocationError :=
| InvalidTime
| InvalidSignature
| UnauthorizedRevoker (who : string)
| MissingParents.

Inductive Error :=
| Db (e : DbErr)
| InvalidRevocation (e : RevocationError).

Section Revocation.
Context `{Keccak256} `{Blake3} `{CidLib} `{RowOrder} `{TokenLib}.

(** [find_by_id(id).one(db)]. *)
Definition find_delegation (db : Tables.Db) (id : Hash) : option DelegationRow :=
  select_one (λ d, hash_eqb (d_id d) id) (delegations db).

(** The resource of a control ability: the target's CID, or the whole
    delegation service of the parent's delegator. *)
Definition controls (target : Hash) (parent : DelegationRow) (r : Resource) : bool :=
  match r with
  | Other uri => bool_decide (uri_str uri = "urn:cid:" +:+ cid_text target)
  | TinyCloud id =>
      bool_decide (service id = "delegation") &&
      match path id with Some p => is_empty p | None => true end &&
      bool_decide (query id = None) && bool_decide (fragment id = None) &&
      bool_decide (base_did (space id) = d_delegator parent)
  end.

Definition control_proof_decision (db : Tables.Db) (signer : string) (proofs : list Cid)
    (requested_action : string) (target : Hash) (now : Z) : result DbErr ControlProofDecision :=
  match proofs with
  | [] => Ok (DirectSigner signer)
  | [proof] =>
      let proof_id := hash_of_cid proof in
      match find_delegation db proof_id with
      | None => Ok Denied
      | Some parent =>
          if negb (did_principal_matches (d_delegatee parent) signer)
             || invocation.outside_window now parent
          then Ok Denied
          else
            match ancestor_chain_ids db proof_id with
            | Err (ChainDb e) => Err e
            | Err LimitExceeded => Ok Denied
            | Ok chain_nodes =>
                if existsb (is_revoked db) chain_nodes then Ok Denied
                else
                  let control_abilities :=
                    select (λ a, hash_eqb (a_delegation a) proof_id &&
                                 bool_decide (a_ability a = requested_action)) (abilities db) in
                  if existsb (λ a, controls target parent (a_resource a)) control_abilities
                  then Ok (PersistentPrincipal (d_delegator parent))
                  else Ok Denied
            end
      end
  | _ => Ok Denied
  end.

(** The principal a control decision lets act. *)
Definition decision_principal (d : ControlProofDecision) : option string :=
  match d with DirectSigner p | PersistentPrincipal p => Some p | Denied => None end.

Definition revoker_is_authorized (db : Tables.Db) (d : DelegationRow) (revoker : string)
    (proofs : list Cid) (now : Z) : result DbErr bool :=
  decision ← control_proof_decision db revoker proofs "tinycloud.delegation/revoke" (d_id d) now;
  match decision_principal decision with
  | None => Ok false
  | Some principal =>
      if did_principal_matches (d_delegator d) principal then Ok true
      else if did_principal_matches (d_delegatee d) principal then Ok true
      else Ok (existsb (λ a, match resource_space (a_resource a) with
                             | Some s => did_principal_matches (base_did s) principal
                             | None => false
                             end)
                 (select (λ a, hash_eqb (a_delegation a) (d_id d)) (abilities db)))
  end.

Definition verify (r : TinyCloudRevocation) (now : Z) : result Error unit :=
  match r with
  | RCacao c =>
      _ ← ensure (cacao_verify c) (InvalidRevocation InvalidSignature);
      ensure (valid_at c now) (InvalidRevocation InvalidTime)
  | RUcan u =>
      _ ← ensure (ucan_verify_signature u) (InvalidRevocation InvalidSignature);
      ensure (ucan_validate_time u now) (InvalidRevocation InvalidTime)
  end.

Definition process (db : Tables.Db) (r : RevocationInfo) (serialization : string) (now : Z)
    : result Error (Hash * Tables.Db) :=
  _ ← verify (ri_revocation r) now;
  let h := hash serialization in
  d ← ok_or (find_delegation db (hash_of_cid (ri_revoked r))) (InvalidRevocation MissingParents);
  authorized ← map_err Db (revoker_is_authorized db d (ri_revoker r) (ri_parents r) now);
  _ ← ensure authorized (InvalidRevocation (UnauthorizedRevoker (ri_revoker r)));
  match insert_revocation
          {| r_id := h; r_serialization := serialization; r_revoker := ri_revoker r;
             r_revoked := d_id d; r_revoked_at := Some now |} db with
  | Err RecordNotInserted => Ok (h, db)
  | Err e => Err (Db e)
  | Ok db =>
      db ← map_err Db (insert_parents (delegation.parent_rows h (ri_parents r)) db);
      Ok (h, db)
  end.

(** ** Who may revoke *)

(** The principals with a say over a delegation. *)
Definition controller (db : Tables.Db) (d : DelegationRow) (who : string) : Prop :=
  did_principal_matches (d_delegator d) who = true ∨ did_principal_matches (d_delegatee d) who = true ∨
  ∃ a s, a ∈ abilities db ∧ a_delegation a = d_id d ∧ resource_space (a_resource a) = Some s ∧
         did_principal_matches (base_did s) who = true.

(** [signer] holds the control delegation [proof] for [action] on [target]. *)
Definition control_delegation (db : Tables.Db) (signer : string) (proof : Hash) (action : string)
    (target : Hash) (now : Z) (parent : DelegationRow) : Prop :=
  parent ∈ delegations db ∧ d_id parent = proof ∧
  did_principal_matches (d_delegatee parent) signer = true ∧
  invocation.outside_window now parent = false ∧
  (∃ ids, ancestor_chain_ids db proof = Ok ids ∧ ∀ h, h ∈ ids → ¬ revoked db h) ∧
  ∃ a, a ∈ abilities db ∧ a_delegation a = proof ∧ a_ability a = action ∧
       controls target parent (a_resource a) = true.

(** A decision names the signer without proofs, or the delegator of a control
    delegation. *)
Lemma control_proof_sound db signer proofs action target now dec who :
  control_proof_decision db signer proofs action target now = Ok dec →
  decision_principal dec = Some who →
  (proofs = [] ∧ who = signer) ∨
  ∃ proof parent, proofs = [proof] ∧ who = d_delegator parent ∧
    control_delegation db signer (hash_of_cid proof) action target now parent.
Proof.
  unfold control_proof_decision. destruct proofs as [|proof [|]]; intros Hd Hw.
  - ok_inv. simpl in Hw. simplify_eq. by left.
  - right. exists proof. destruct (find_delegation db (hash_of_cid proof)) as [parent|] eqn:Hf; ok_inv; [|done].
    apply select_one_Some in Hf as [Hin Hid]. rewrite hash_eqb_true in Hid.
    destruct (did_principal_matches (d_delegatee parent) signer) eqn:Hm; cbn [negb orb] in Hd; ok_inv; [|done].
    destruct (invocation.outside_window now parent) eqn:Hwin; ok_inv; [done|].
    destruct (ancestor_chain_ids db (hash_of_cid proof)) as [ids|[]] eqn:Hids; ok_inv; [|done].
    destruct (existsb (is_revoked db) ids) eqn:Hrev; ok_inv; [done|].
    destruct (existsb (λ a, controls _ _ _) _) eqn:Hex; ok_inv; [|done]. simpl in Hw. simplify_eq.
    apply existsb_exists in Hex as (a & Ha & Hc). rewrite <- list_elem_of_In, elem_of_select in Ha.
    rewrite andb_true_iff, hash_eqb_true, bool_decide_eq_true in Ha. destruct Ha as (Ha & Had & Hact).
    exists parent. split_and!; [done..|]. unfold control_delegation. split_and!; try done.
    + exists ids. split; [done|]. intros h Hh. apply is_revoked_false.
      destruct (is_revoked db h) eqn:Hr; [|done]. apply not_true_iff_false in Hrev. destruct Hrev.
      apply existsb_exists. exists h. by rewrite <- list_elem_of_In.
    + by exists a.
  - ok_inv. done.
Qed.

Lemma revoker_authorized_sound db d revoker proofs now :
  revoker_is_authorized db d revoker proofs now = Ok true →
  ∃ who, controller db d who ∧
    ((proofs = [] ∧ who = revoker) ∨
     ∃ proof parent, proofs = [proof] ∧ who = d_delegator parent ∧
       control_delegation db revoker (hash_of_cid proof) "tinycloud.delegation/revoke" (d_id d) now parent).
Proof.
  unfold revoker_is_authorized. intros Hr. apply bind_Ok in Hr as (dec & Hdec & Hr).
  destruct (decision_principal dec) as [who|] eqn:Hw; ok_inv; [|done].
  exists who. split; [|by eapply control_proof_sound]. unfold controller.
  destruct (did_principal_matches (d_delegator d) who); [by left|].
  destruct (did_principal_matches (d_delegatee d) who); [by right; left|].
  injection Hr as Hex. apply existsb_exists in Hex as (a & Ha & Hs).
  rewrite <- list_elem_of_In, elem_of_select, hash_eqb_true in Ha. destruct Ha.
  destruct (resource_space (a_resource a)) as [s|] eqn:Hsp; [|done]. right. right. by exists a, s.
Qed.

(** What an accepted revocation stores. *)
Lemma process_Ok db r ser now h db' :
  process db r ser now = Ok (h, db') →
  h = hash ser ∧ ∃ d, d ∈ delegations db ∧ d_id d = hash_of_cid (ri_revoked r) ∧
  revoker_is_authorized db d (ri_revoker r) (ri_parents r) now = Ok true ∧
  verify (ri_revocation r) now = Ok tt ∧
  ((db' = db ∧ ∃ row, row ∈ revocations db ∧ r_id row = h) ∨
   db' = set_parent_delegations (parent_delegations db ++ delegation.parent_rows h (ri_parents r))
     (set_revocations (revocations db ++ [mkRevocationRow h (ri_revoker r) (d_id d) ser (Some now)]) db)).
Proof.
  unfold process. intros Hp. apply bind_Ok in Hp as ([] & Hv & Hp). apply bind_Ok in Hp as (d & Hd & Hp).
  apply bind_Ok in Hp as (b & Hb & Hp). apply bind_Ok in Hp as ([] & Hok & Hp).
  rewrite ok_or_Ok in Hd. apply select_one_Some in Hd as [Hd Hid]. rewrite hash_eqb_true in Hid.
  rewrite ensure_Ok in Hok. subst b. rewrite map_err_Ok in Hb. unfold insert_revocation in Hp.
  destruct (insert_or_ignore _ _ _ _ _) as [t|e] eqn:Hi.
  - apply insert_or_ignore_Ok in Hi as (-> & Hk & _). cbn [mbind result_bind] in Hp.
    apply bind_Ok in Hp as (db2 & Hpa%map_err_Ok & Hp). apply bind_Ok in Hpa as (tp & [-> _]%insert_many_Ok & Hpa).
    simplify_eq. split; [done|]. exists d. split_and!; try done. by right.
  - cbn [mbind result_bind] in Hp. destruct e; try done. simplify_eq. split; [done|]. exists d.
    split_and!; try done. left. split; [done|]. apply insert_or_ignore_none in Hi.
    apply existsb_exists in Hi as (row & Hrow & Heq). exists row.
    rewrite <- list_elem_of_In in Hrow. apply hash_eqb_true in Heq. done.
Qed.

End Revocation.
End revocation.

(** ** Claims *)

Section Claims.
Context `{Keccak256} `{Blake3} `{CidLib} `{RowOrder} `{TokenLib}.
Import revocation.

(** Only a controller revokes: an accepted revocation carries a verified
    signature within its window, its target is stored, and the principal it acts
    for is the target's delegator, its delegatee or the owner of a space its
    abilities reach; that principal is the signer itself when no proof is cited,
    and otherwise the delegator of the one cited control delegation, held by the
    signer, current, with an unrevoked chain and the revoke ability on exactly
    this target or on its delegator's delegation service. *)
Theorem revocation_requires_controller (db db' : Tables.Db) (r : RevocationInfo) (ser : string) (now : Z) (h : Hash) :
  process db r ser now = Ok (h, db') →
  verify (ri_revocation r) now = Ok tt ∧
  ∃ d who, d ∈ delegations db ∧ d_id d = hash_of_cid (ri_revoked r) ∧ controller db d who ∧
    ((ri_parents r = [] ∧ who = ri_revoker r) ∨
     ∃ proof parent, ri_parents r = [proof] ∧ who = d_delegator parent ∧
       control_delegation db (ri_revoker r) (hash_of_cid proof) "tinycloud.delegation/revoke" (d_id d) now parent).
Proof.
  intros Hp. apply process_Ok in Hp as (_ & d & Hd & Hid & Hauth & Hv & _).
  apply revoker_authorized_sound in Hauth as (who & Hc & Hsig). split; [done|]. by exists d, who.
Qed.

(** C2: once a revocation that is new to the store is accepted, its target is dead, in
    that store and in every later one that keeps its revocations.  No invocation that
    relies on cited delegations and cites the target is accepted, at any time; no
    delegation that relies on cited delegations and cites the target, issued to its
    delegator, is accepted; and a delegation that is accepted all the same (it cites
    the target, issued to somebody else, beside a parent of its own) has each of its
    capabilities from its delegator or from another parent, never from the target. *)
Theorem revoked_target_never_used (db db' db2 : Tables.Db) (r : RevocationInfo) (ser : string) (now : Z) (h : Hash) :
  process db r ser now = Ok (h, db') →
  (∀ row, row ∈ revocations db → r_id row ≠ h) →
  revocations db' ⊆ revocations db2 →
  (∀ d c p, delegation.cited db2 d p → d_id p = hash_of_cid (ri_revoked r) →
     c ∈ di_capabilities d → delegation.is_root_authority c (di_delegator d) = false →
     is_ok (delegation.validate db2 d) = false) ∧
  (∀ d c, is_ok (delegation.validate db2 d) = true → c ∈ di_capabilities d →
     delegation.is_root_authority c (di_delegator d) = true ∨
     ∃ p a, delegation.cited db2 d p ∧ d_id p ≠ hash_of_cid (ri_revoked r) ∧ delegation.narrows p d ∧
       a ∈ abilities db2 ∧ a_delegation a = d_id p ∧ delegation.grants a c) ∧
  (∀ i c p now2, invocation.cited db2 i p → d_id p = hash_of_cid (ri_revoked r) →
     c ∈ ii_capabilities i → invocation.is_root_authority c (ii_invoker i) = false →
     is_ok (invocation.validate db2 i now2) = false).
Proof.
  intros Hp Hnew Hsub. apply process_Ok in Hp as (_ & d0 & _ & Hid & _ & _ & Hdb).
  assert (is_revoked db2 (hash_of_cid (ri_revoked r)) = true) as Hrev.
  { apply is_revoked_spec. destruct Hdb as [(_ & row & Hrow & Hh)| ->].
    - by destruct (Hnew row Hrow).
    - eexists. split; [apply Hsub; cbn; apply elem_of_app; right; by left|done]. }
  split_and!.
  - intros d c p Hp Hpid Hc Hroot. destruct (delegation.validate db2 d) as [[]|] eqn:Hv; [|done].
    apply delegation.delegation_valid in Hv as [Hall|[Hpar _]]; [rewrite Hall in Hroot; done|].
    destruct (Hpar p Hp) as [[Hr _] _]. congruence.
  - intros d c Hv Hc. destruct (delegation.validate db2 d) as [[]|] eqn:Hd; [|done].
    apply delegation.delegation_valid in Hd as [Hall|[Hpar Hsup]]; [left; by apply Hall|].
    destruct (Hsup c Hc) as [?|(p & a & Hp & ? & ? & ? & ?)]; [by left|right]. exists p, a. split_and!; try done.
    intros Heq. destruct (Hpar p Hp) as [[Hr _] _]. congruence.
  - intros i c p now2 Hp Hpid Hc Hroot. destruct (invocation.validate db2 i now2) as [[]|] eqn:Hv; [|done].
    apply invocation.invocation_valid in Hv as [Hall|(_ & Hpar & _)]; [rewrite Hall in Hroot; done|].
    destruct (Hpar p Hp) as (_ & ids & [_ [Hr _] _ _]). congruence.
Qed.

End Claims.

(** ** Witnesses *)

#[local] Existing Instances demo_keccak demo_blake demo_cids demo_order demo_tokens.

(** [alice] revokes what she gave to [bob]. *)
Definition demo_revocation : RevocationInfo :=
  {| ri_parents := []; ri_revoked := demo_cid "d2"; ri_revoker := alice;
     ri_revocation := RUcan (demo_ucan alice alice [] "r1") |}.
Definition demo_revoked : Tables.Db :=
  match revocation.process demo_delegated demo_revocation "r1" 0 with Ok (_, db) => db | Err _ => empty_db end.

Lemma revocation_requires_controller_witness :
  ∃ d who, d ∈ delegations demo_delegated ∧ d_id d = hash "d2" ∧ revocation.controller demo_delegated d who.
Proof.
  destruct (revocation_requires_controller demo_delegated demo_revoked demo_revocation "r1" 0 (hash "r1"))
    as (_ & d & who & Hd & Hid & Hc & _); [by vm_compute|]. by exists d, who.
Defined.

Lemma revoked_target_never_used_witness :
  is_ok (invocation.validate demo_delegated demo_invocation 50) = true ∧
  is_ok (invocation.validate demo_revoked demo_invocation 50) = false.
Proof.
  split; [by vm_compute|].
  destruct (revoked_target_never_used demo_delegated demo_revoked demo_revoked demo_revocation "r1" 0 (hash "r1"))
    as (_ & _ & Hinv); [by vm_compute| |done|].
  - intros row Hrow. by apply not_elem_of_nil in Hrow.
  - apply (Hinv demo_invocation (demo_cap (Some "docs/a") "tinycloud.kv/get")
      (delegation.delegation_row demo_grant2 "d2" None "")); [|done|by left|by vm_compute].
    split; apply mem_true; by vm_compute.
Defined.
