(* ===== verification/Kv.v ===== *)
(** * The key-value view of a space: tinycloud-core/src/db.rs 86-92, 1719-1930

    A key's value is its newest write, unless a tombstone names that write.  The
    file models the reads ([get_kv_entity], [metadata_with_hash], [get_kv],
    [list_bounded]) and proves that the operations an invocation stores act on
    this view as puts and deletes on a map. *)
From S2P Require Import Prelude Str Chars Json Identity Resource Registry SqlCaveat ColumnEncryption Tables Chain Tokens Events Demo Delegation Invocation.
From Stdlib Require Import Sorting.Permutation Sorting.Sorted.

Import invocation.

(** ** Reads *)

(** The rows of the join with [kv_delete]: same space, key and deleted write. *)
Definition tombstoned (db : Tables.Db) (w : KvWriteRow) : bool :=
  existsb (λ d, bool_decide (del_space d = w_space w) && bool_decide (del_key d = w_key w) &&
                hash_eqb (del_deleted_invocation_id d) (w_invocation w)) (kv_deletes db).

Inductive KvPrecondition :=
| DoesNotExist
| Matches (digest : string).

Definition kv_precondition_matches (p : KvPrecondition) (current : option Hash) : bool :=
  match p, current with
  | DoesNotExist, None => true
  | Matches expected, Some actual => bool_decide (mh_digest actual = expected)
  | _, _ => false
  end.

Section Reads.
Context `{RowOrder}.

Definition get_kv_entity (db : Tables.Db) (s : SpaceId) (k : string) : option KvWriteRow :=
  match newest (row_order (key_writes db s k)) with
  | Some w => if tombstoned db w then None else Some w
  | None => None
  end.

Definition metadata_with_hash (db : Tables.Db) (s : SpaceId) (k : string) : option (Metadata * Hash) :=
  match get_kv_entity db s k with
  | Some e => Some (w_metadata e, w_value e)
  | None => None
  end.

Definition metadata (db : Tables.Db) (s : SpaceId) (k : string) : option Metadata :=
  fst <$> metadata_with_hash db s k.

(** [get_kv]; the block store's [read] may fail or find nothing. *)
Definition get_kv {E C} (read : SpaceId → Hash → result E (option C)) (db : Tables.Db) (s : SpaceId) (k : string)
    : result E (option (Metadata * Hash * C)) :=
  match get_kv_entity db s k with
  | None => Ok None
  | Some e =>
      c ← read s (w_value e);
      Ok (match c with Some c => Some (w_metadata e, w_value e, c) | None => None end)
  end.

(** *** Listing *)

(** [.replace('!', "!!").replace('%', "!%").replace('_', "!_")]. *)
Fixpoint replace_char (c : ascii) (by' : string) (s : string) : string :=
  match s with
  | "" => ""
  | String x s => if bool_decide (x = c) then by' +:+ replace_char c by' s else String x (replace_char c by' s)
  end.

Definition escape_like (prefix : string) : string :=
  replace_char "_" "!_" (replace_char "%" "!%" (replace_char "!" "!!" prefix)).

(** SQL's [text LIKE pattern ESCAPE '!']; [fold] is the case folding the database
    applies to both sides (none on PostgreSQL, ASCII lower case on SQLite). *)
Class Collation := fold_char : ascii → ascii.

Fixpoint like `{Collation} (pattern text : string) : bool :=
  match pattern with
  | "" => is_empty text
  | String "!" (String c p) =>
      match text with String x t => bool_decide (fold_char x = fold_char c) && like p t | "" => false end
  | String "%" p =>
      (fix any (t : string) : bool :=
         like p t || match t with String _ t => any t | "" => false end) text
  | String "_" p => match text with String _ t => like p t | "" => false end
  | String c p =>
      match text with String x t => bool_decide (fold_char x = fold_char c) && like p t | "" => false end
  end.

Context `{Collation}.

(** A row of the listing: live and not superseded. *)
Definition listed (db : Tables.Db) (s : SpaceId) (prefix : string) (w : KvWriteRow) : bool :=
  like (escape_like prefix +:+ "%") (w_key w) && bool_decide (w_space w = s) &&
  negb (tombstoned db w) &&
  negb (existsb (λ n, bool_decide (w_space n = w_space w) && bool_decide (w_key n = w_key w) && newer n w)
          (kv_writes db)).

Definition list_bounded (db : Tables.Db) (s : SpaceId) (prefix : string) (limit : option nat)
    : list string * bool :=
  let rows := sort_by String.leb (w_key <$> row_order (List.filter (listed db s prefix) (kv_writes db))) in
  let rows := match limit with Some n => take (n + 1) rows | None => rows end in
  match limit with
  | Some n => (take n rows, (n <? length rows)%nat)
  | None => (rows, false)
  end.

Definition list_keys (db : Tables.Db) (s : SpaceId) (prefix : string) : list string :=
  fst (list_bounded db s prefix None).

End Reads.

(** ** The order of writes *)

Lemma newer_false a b :
  newer a b = false ↔
  (w_seq a < w_seq b)%Z ∨
  (w_seq a = w_seq b ∧ bytes_leb (hash_bytes (w_epoch a)) (hash_bytes (w_epoch b)) = true ∧
   (hash_bytes (w_epoch a) = hash_bytes (w_epoch b) → (w_epoch_seq a ≤ w_epoch_seq b)%Z)).
Proof.
  unfold newer. rewrite orb_false_iff, andb_false_iff, orb_false_iff, andb_false_iff,
    negb_false_iff, Z.ltb_ge, Z.eqb_neq, bool_decide_eq_false, Z.ltb_ge.
  destruct (decide (hash_bytes (w_epoch a) = hash_bytes (w_epoch b))) as [He|He].
  - split.
    + intros [? [?|[? [?|?]]]]; [left; lia|done|]. destruct (decide (w_seq a = w_seq b)); [|left; lia]. by right.
    + intros [?|(? & ? & Hes)]; [split; [lia|left; lia]|]. specialize (Hes He).
      split; [lia|]. right. split; [done|by right].
  - split.
    + intros [? [?|[? _]]]; [left; lia|]. destruct (decide (w_seq a = w_seq b)); [|left; lia]. by right.
    + intros [?|(? & ? & _)]; [split; [lia|left; lia]|]. split; [lia|]. right. split; [done|by left].
Qed.

Lemma newer_false_trans a b c : newer a b = false → newer b c = false → newer a c = false.
Proof.
  rewrite !newer_false. intros [?|(? & Hab & Hes)] [?|(? & Hbc & Hes')]; try (left; lia).
  right. split_and!; [lia|by eapply bytes_leb_trans|]. intros Heq.
  assert (hash_bytes (w_epoch a) = hash_bytes (w_epoch b)) as Hab'.
  { apply bytes_leb_antisym; [done|]. by rewrite Heq. }
  specialize (Hes Hab'). rewrite Hab' in Heq. specialize (Hes' Heq). lia.
Qed.

Lemma newer_asym a b : newer a b = true → newer b a = false.
Proof.
  destruct (newer b a) eqn:Hba; [|done]. unfold newer in *.
  rewrite orb_true_iff, andb_true_iff, orb_true_iff, andb_true_iff, negb_true_iff in Hba |- *.
  rewrite !bool_decide_eq_true, !Z.ltb_lt, !Z.eqb_eq in Hba |- *.
  intros [?|[Hs [Hb|[He ?]]]]; destruct Hba as [?|[? [Hb'|[He' ?]]]]; try lia.
  - destruct (bytes_leb_total (hash_bytes (w_epoch a)) (hash_bytes (w_epoch b))); congruence.
  - rewrite He' in Hb. destruct (bytes_leb_total (hash_bytes (w_epoch a)) (hash_bytes (w_epoch a))); congruence.
  - rewrite He in Hb'. destruct (bytes_leb_total (hash_bytes (w_epoch b)) (hash_bytes (w_epoch b))); congruence.
Qed.

Lemma newest_None l : newest l = None ↔ l = [].
Proof. destruct l; simpl; [done|]. repeat case_match; naive_solver. Qed.

(** The newest write is a write no other is newer than. *)
Lemma newest_Some l w : newest l = Some w → w ∈ l ∧ ∀ v, v ∈ l → newer v w = false.
Proof.
  revert w. induction l as [|x l IH]; intros w; simpl; [done|].
  destruct (newest l) as [v|] eqn:Hl.
  - destruct (IH v eq_refl) as [Hv Hmax]. destruct (newer v x) eqn:Hvx; intros [= <-].
    + split; [by right|]. intros u [->|Hu]%elem_of_cons; [by apply newer_asym|auto].
    + split; [by left|]. intros u [->|Hu]%elem_of_cons.
      * apply newer_false. right. split_and!; [done| |lia].
        destruct (bytes_leb_total (hash_bytes (w_epoch x)) (hash_bytes (w_epoch x))); done.
      * by eapply newer_false_trans; [apply Hmax|].
  - apply newest_None in Hl as ->. intros [= <-]. split; [by left|].
    intros u Hu. apply list_elem_of_singleton in Hu as ->. apply newer_false. right.
    split_and!; [done| |lia]. destruct (bytes_leb_total (hash_bytes (w_epoch x)) (hash_bytes (w_epoch x))); done.
Qed.

(** A write newer than all others is the newest one. *)
Lemma newest_unique l w :
  w ∈ l → (∀ v, v ∈ l → v ≠ w → newer w v = true) → newest l = Some w.
Proof.
  intros Hw Hmax. destruct (newest l) as [x|] eqn:Hx.
  - destruct (newest_Some _ _ Hx) as [Hin Hnx]. f_equal. destruct (decide (x = w)) as [|Hne]; [done|].
    specialize (Hnx w Hw). rewrite (Hmax x Hin Hne) in Hnx. done.
  - apply newest_None in Hx as ->. by apply not_elem_of_nil in Hw.
Qed.

Lemma elem_of_key_writes db s k w :
  w ∈ key_writes db s k ↔ w ∈ kv_writes db ∧ w_key w = k ∧ w_space w = s.
Proof.
  unfold key_writes. by rewrite delegation.elem_of_lfilter, andb_true_iff, !bool_decide_eq_true.
Qed.

(** ** Operations act on the view as on a map *)

Notation kv_map := (SpaceId → string → option (Metadata * Hash)).

(** What an operation promises: a put binds the key, a delete unbinds it, no other
    key of any space changes. *)
Definition apply_operation (m : kv_map) (op : Operation) : kv_map := λ s k,
  match op with
  | KvWrite s' k' v md => if decide (s' = s ∧ k' = k) then Some (md, v) else m s k
  | KvDelete s' k' _ => if decide (s' = s ∧ k' = k) then None else m s k
  end.

Section Refinement.
Context `{RowOrder} (h : Hash) (ver : SpaceId → Z * Hash * Z).

Definition versioned (op : Operation) : VersionedOperation :=
  let '(seq, epoch, es) := ver (op_space op) in version op seq epoch es.

(** The state between two operations of the invocation [h]: its own writes carry
    the version of their space, all other writes are older, and every tombstone
    names a write. *)
Record kv_inv (db : Tables.Db) : Prop := {
  own_version : ∀ w, w ∈ kv_writes db → w_invocation w = h → w_seq w = (ver (w_space w)).1.1;
  others_older : ∀ w, w ∈ kv_writes db → w_invocation w ≠ h → (w_seq w < (ver (w_space w)).1.1)%Z;
  tombstones : ∀ d, d ∈ kv_deletes db → ∃ w, w ∈ kv_writes db ∧ w_space w = del_space d ∧
                 w_key w = del_key d ∧ w_invocation w = del_deleted_invocation_id d;
}.

Lemma tombstoned_true db w :
  tombstoned db w = true ↔ ∃ d, d ∈ kv_deletes db ∧ del_space d = w_space w ∧ del_key d = w_key w ∧
                                del_deleted_invocation_id d = w_invocation w.
Proof.
  unfold tombstoned. rewrite existsb_exists. setoid_rewrite andb_true_iff. setoid_rewrite andb_true_iff.
  setoid_rewrite hash_eqb_true. setoid_rewrite bool_decide_eq_true. setoid_rewrite <- list_elem_of_In.
  naive_solver.
Qed.

Lemma view_write db s k v md seq epoch es :
  kv_inv db → (∀ w, w ∈ kv_writes db → w_space w = s → w_key w = k → w_invocation w ≠ h) →
  seq = (ver s).1.1 →
  let db' := set_kv_writes (kv_writes db ++ [mkKvWriteRow s k h seq epoch es v md]) db in
  ∀ s' k', metadata_with_hash db' s' k' = apply_operation (metadata_with_hash db) (KvWrite s k v md) s' k'.
Proof.
  intros [Hown Hold Htomb] Hfresh -> db' s' k'. unfold metadata_with_hash, get_kv_entity. simpl.
  set (w0 := mkKvWriteRow s k h (ver s).1.1 epoch es v md).
  assert (key_writes db' s' k' = key_writes db s' k' ++ if decide (s = s' ∧ k = k') then [w0] else []) as Hkw.
  { unfold key_writes, db'. simpl. rewrite List.filter_app. f_equal. simpl.
    destruct (decide (s = s' ∧ k = k')) as [[-> ->]|Hne]; [by rewrite !bool_decide_eq_true_2|].
    destruct (bool_decide (k = k')) eqn:Hk; [|done]. destruct (bool_decide (s = s')) eqn:Hs; [|done].
    rewrite !bool_decide_eq_true in Hk, Hs. naive_solver. }
  rewrite Hkw. destruct (decide (s = s' ∧ k = k')) as [[<- <-]|Hne]; [|by rewrite app_nil_r].
  rewrite (newest_unique _ w0).
  - assert (tombstoned db' w0 = false) as ->; [|done]. apply not_true_iff_false. rewrite tombstoned_true.
    intros (d & Hd & Hs & Hk & Hi). destruct (Htomb d Hd) as (w & Hw & Hws & Hwk & Hwi).
    simpl in Hs, Hk, Hi. apply (Hfresh w Hw); congruence.
  - rewrite row_order_perm. apply elem_of_app. right. by left.
  - intros x Hx Hxw. rewrite row_order_perm, elem_of_app, list_elem_of_singleton in Hx.
    destruct Hx as [Hx|?]; [|done]. apply elem_of_key_writes in Hx as (Hx & Hk & Hs).
    specialize (Hold x Hx (Hfresh x Hx Hs Hk)). rewrite Hs in Hold. unfold newer. simpl.
    by rewrite (proj2 (Z.ltb_lt _ _) Hold).
Qed.

Lemma view_delete db s k w :
  newest (row_order (key_writes db s k)) = Some w →
  let db' := set_kv_deletes (kv_deletes db ++ [mkKvDeleteRow h s k (w_invocation w)]) db in
  ∀ s' k', metadata_with_hash db' s' k' = apply_operation (metadata_with_hash db) (KvDelete s k None) s' k'.
Proof.
  intros Hw db' s' k'. unfold metadata_with_hash, get_kv_entity. cbn [apply_operation].
  assert (∀ x, tombstoned db' x = tombstoned db x ||
     (bool_decide (s = w_space x) && bool_decide (k = w_key x) && hash_eqb (w_invocation w) (w_invocation x))) as Ht.
  { intros x. unfold tombstoned, db'. simpl. rewrite existsb_app. simpl. by rewrite orb_false_r. }
  assert (key_writes db' s' k' = key_writes db s' k') as -> by done.
  destruct (newest_Some _ _ Hw) as [Hin _]. rewrite row_order_perm, elem_of_key_writes in Hin.
  destruct Hin as (_ & Hk & Hs).
  destruct (decide (s = s' ∧ k = k')) as [[<- <-]|Hne].
  - rewrite Hw, Ht. rewrite !bool_decide_eq_true_2 by done.
    rewrite (proj2 (hash_eqb_true _ _)) by done. by rewrite orb_true_r.
  - destruct (newest (row_order (key_writes db s' k'))) as [x|] eqn:Hx; [|done].
    destruct (newest_Some _ _ Hx) as [Hxin _]. rewrite row_order_perm, elem_of_key_writes in Hxin.
    destruct Hxin as (_ & <- & <-). rewrite Ht.
    assert (bool_decide (s = w_space x) && bool_decide (k = w_key x) = false) as ->.
    { apply andb_false_iff. rewrite !bool_decide_eq_false. destruct (decide (s = w_space x)); [right|by left]. naive_solver. }
    by rewrite orb_false_r.
Qed.

Lemma insert_kv_write_Ok row db db' :
  insert_kv_write row db = Ok db' →
  db' = set_kv_writes (kv_writes db ++ [row]) db ∧
  ∀ w, w ∈ kv_writes db → w_space w = w_space row → w_key w = w_key row → w_invocation w ≠ w_invocation row.
Proof.
  unfold insert_kv_write. intros Hi. apply bind_Ok in Hi as (t & Ht & Hi). simpl in Ht.
  apply bind_Ok in Ht as ([] & Hk & Ht). apply bind_Ok in Ht as ([] & _ & Ht). simplify_eq.
  split; [done|]. intros w Hw Hs Hkey Hinv. rewrite ensure_Ok, negb_true_iff in Hk.
  apply not_true_iff_false in Hk. apply Hk, existsb_exists. exists w. rewrite <- list_elem_of_In.
  split; [done|]. by rewrite !bool_decide_eq_true_2, (proj2 (hash_eqb_true _ _)).
Qed.

Lemma insert_kv_delete_Ok row db db' :
  insert_kv_delete row db = Ok db' → db' = set_kv_deletes (kv_deletes db ++ [row]) db.
Proof.
  unfold insert_kv_delete. intros Hi. apply bind_Ok in Hi as (t & [-> _]%insert_many_Ok & Hi). by simplify_eq.
Qed.

(** Only unversioned deletes are ever requested. *)
Definition unversioned (op : Operation) : Prop :=
  match op with KvDelete _ _ (Some _) => False | _ => True end.

Lemma save_operation_refines db op db' :
  kv_inv db → unversioned op → save_operation h db (versioned op) = Ok db' →
  kv_inv db' ∧
  ∀ s k, metadata_with_hash db' s k = apply_operation (metadata_with_hash db) op s k.
Proof.
  intros Hinv Hun Hs. unfold versioned in Hs. destruct op as [s k v md|s k [|]]; try done;
    simpl in Hs; destruct (ver s) as [[seq epoch] es] eqn:Hver; simpl in Hs.
  - apply map_err_Ok in Hs. apply insert_kv_write_Ok in Hs as [-> Hfresh]. simpl in Hfresh.
    assert (seq = (ver s).1.1) as -> by (by rewrite Hver).
    split; [|by apply view_write]. destruct Hinv as [Hown Hold Htomb]. constructor; simpl.
    + intros w [Hw|Hw]%elem_of_app Hh; [auto|]. by apply list_elem_of_singleton in Hw as ->.
    + intros w [Hw|Hw]%elem_of_app Hh; [auto|]. by apply list_elem_of_singleton in Hw as ->.
    + intros d Hd. destruct (Htomb d Hd) as (w & Hw & ?). exists w. split; [|done].
      apply elem_of_app. by left.
  - apply bind_Ok in Hs as (w & Hw & Hs). rewrite ok_or_Ok in Hw. apply map_err_Ok in Hs.
    apply insert_kv_delete_Ok in Hs as ->. split; [|by apply view_delete].
    destruct (newest_Some _ _ Hw) as [Hin _]. rewrite row_order_perm, elem_of_key_writes in Hin.
    destruct Hinv as [Hown Hold Htomb]. constructor; simpl; [done..|].
    intros d [Hd|Hd]%elem_of_app; [auto|]. apply list_elem_of_singleton in Hd as ->. exists w.
    simpl. naive_solver.
Qed.

Lemma apply_operation_ext m m' op :
  (∀ s k, m s k = m' s k) → ∀ s k, apply_operation m op s k = apply_operation m' op s k.
Proof. intros Hm s k. destruct op; simpl; case_decide; auto. Qed.

Lemma apply_operations_ext ops m m' :
  (∀ s k, m s k = m' s k) → ∀ s k, fold_left apply_operation ops m s k = fold_left apply_operation ops m' s k.
Proof.
  revert m m'. induction ops as [|op ops IH]; intros m m' Hm; simpl; [done|].
  apply IH. by apply apply_operation_ext.
Qed.

Lemma save_operations_refines ops db db' :
  kv_inv db → Forall unversioned ops → save_operations h db (versioned <$> ops) = Ok db' →
  kv_inv db' ∧
  ∀ s k, metadata_with_hash db' s k = fold_left apply_operation ops (metadata_with_hash db) s k.
Proof.
  revert db. induction ops as [|op ops IH]; intros db Hinv Hun Hs; simpl in Hs.
  - by simplify_eq.
  - inversion Hun; subst. apply bind_Ok in Hs as (db1 & Hop & Hs).
    apply save_operation_refines in Hop as [Hinv1 Hview1]; [|done..].
    apply IH in Hs as [Hinv2 Hview2]; [|done..]. split; [done|]. intros s k. rewrite Hview2. simpl.
    by apply apply_operations_ext.
Qed.

End Refinement.

(** Deliveries touch no other table. *)
Lemma enqueue_frame `{Blake3} `{CidLib} `{RowOrder} `{HookFormats} actor ts ops idx db db' :
  enqueue_loop actor ts idx db ops = Ok db' → ∃ t, db' = set_hook_deliveries t db.
Proof.
  revert idx db. induction ops as [|op ops IH]; intros idx db Hs; simpl in Hs.
  - simplify_eq. exists (hook_deliveries db'). by destruct db'.
  - apply bind_Ok in Hs as ([idx1 db1] & Hop & Hs). apply IH in Hs as [t ->].
    assert (∃ t1, db1 = set_hook_deliveries t1 db) as [t1 ->]; [|by exists t].
    unfold enqueue_operation in Hop.
    destruct (match op with VKvWrite s k _ _ _ e _ => _ | VKvDelete s k _ _ e _ => _ end) as [[[s k] ab] e].
    destruct (select _ _) as [|sub subs]; [simplify_eq; exists (hook_deliveries db1); by destruct db1|].
    destruct (_ <$> _) as [|d ds]; [simplify_eq; exists (hook_deliveries db1); by destruct db1|].
    apply bind_Ok in Hop as (db2 & Hins & Hop). simplify_eq.
    apply bind_Ok in Hins as (t1 & _ & Hins). simplify_eq. by exists t1.
Qed.

(** ** Listing by prefix *)

Section Listing.
Context `{Collation}.

(** One character of the prefix after the three replacements. *)
Definition escape_char (c : ascii) : string :=
  if bool_decide (c = "!"%char) then "!!" else if bool_decide (c = "%"%char) then "!%"
  else if bool_decide (c = "_"%char) then "!_" else String c "".

Lemma replace_char_app c r s t : replace_char c r (s +:+ t) = replace_char c r s +:+ replace_char c r t.
Proof.
  induction s as [|x s IH]; [done|]. rewrite append_cons. cbn [replace_char].
  rewrite IH. case_bool_decide; [by rewrite append_assoc|by rewrite append_cons].
Qed.

Lemma escape_like_cons c s : escape_like (String c s) = escape_char c +:+ escape_like s.
Proof.
  unfold escape_like, escape_char. cbn [replace_char].
  destruct (bool_decide (c = "!"%char)) eqn:H1.
  { apply bool_decide_eq_true in H1 as ->. by rewrite !replace_char_app. }
  cbn [replace_char]. destruct (bool_decide (c = "%"%char)) eqn:H2.
  { apply bool_decide_eq_true in H2 as ->. by rewrite replace_char_app. }
  cbn [replace_char]. by destruct (bool_decide (c = "_"%char)).
Qed.

(** Matching an escaped character followed by any pattern. *)
Lemma like_escape_char c p t :
  like (escape_char c +:+ p) t =
  match t with String x t => bool_decide (fold_char x = fold_char c) && like p t | "" => false end.
Proof.
  unfold escape_char.
  case_bool_decide as H1; [by subst|]. case_bool_decide as H2; [by subst|]. case_bool_decide as H3; [by subst|].
  destruct c as [[] [] [] [] [] [] [] []]; try done.
Qed.

Lemma like_any t : like "%" t = true.
Proof. induction t as [|c t IH]; [done|exact IH]. Qed.

(** [LIKE '<escaped prefix>%' ESCAPE '!'] is a prefix test, whatever the prefix
    contains. *)
Lemma like_prefix p t :
  like (escape_like p +:+ "%") t = starts_with (map_string fold_char p) (map_string fold_char t).
Proof.
  revert t. induction p as [|c p IH]; intros t.
  - change (escape_like "" +:+ "%") with "%". rewrite like_any. by destruct t.
  - rewrite escape_like_cons, append_assoc, like_escape_char. destruct t as [|x t]; [done|].
    rewrite IH. cbn [map_string]. unfold starts_with, strip_prefix. fold strip_prefix.
    case_bool_decide as Hx; [rewrite Hx|]; simpl.
    + by destruct (decide (fold_char c = fold_char c)).
    + destruct (decide (fold_char c = fold_char x)); [congruence|done].
Qed.

Context `{RowOrder}.

(** Distinct writes of a key never carry the same version. *)
Definition kv_strict (db : Tables.Db) : Prop :=
  ∀ w v, w ∈ kv_writes db → v ∈ kv_writes db → w_space w = w_space v → w_key w = w_key v → w ≠ v →
  newer w v = true ∨ newer v w = true.

Lemma listed_true db s prefix w :
  listed db s prefix w = true ↔
  starts_with (map_string fold_char prefix) (map_string fold_char (w_key w)) = true ∧ w_space w = s ∧
  tombstoned db w = false ∧
  ∀ n, n ∈ kv_writes db → w_space n = w_space w → w_key n = w_key w → newer n w = false.
Proof.
  unfold listed. rewrite !andb_true_iff, like_prefix, bool_decide_eq_true, !negb_true_iff.
  assert (existsb (λ n, bool_decide (w_space n = w_space w) && bool_decide (w_key n = w_key w) && newer n w)
    (kv_writes db) = false ↔
    ∀ n, n ∈ kv_writes db → w_space n = w_space w → w_key n = w_key w → newer n w = false) as ->; [|naive_solver].
  rewrite <- not_true_iff_false, existsb_exists. split.
  - intros Hno n Hn Hs Hk. apply not_true_iff_false. intros Hnew. apply Hno. exists n.
    rewrite <- list_elem_of_In. by rewrite !bool_decide_eq_true_2.
  - intros Hall (n & Hn & Hm). rewrite <- list_elem_of_In in Hn.
    rewrite !andb_true_iff, !bool_decide_eq_true in Hm. destruct Hm as [[Hs Hk] Hnew].
    by rewrite Hall in Hnew.
Qed.

(** The listed row of a key is its live value. *)
Lemma listed_live db s prefix k :
  kv_strict db →
  (∃ w, w ∈ kv_writes db ∧ w_key w = k ∧ listed db s prefix w = true) ↔
  starts_with (map_string fold_char prefix) (map_string fold_char k) = true ∧ is_Some (metadata_with_hash db s k).
Proof.
  intros Hstrict. unfold metadata_with_hash, get_kv_entity. setoid_rewrite listed_true. split.
  - intros (w & Hw & <- & Hpre & <- & Htomb & Hmax). split; [done|].
    rewrite (newest_unique _ w), Htomb; [by eexists| |].
    + by rewrite row_order_perm, elem_of_key_writes.
    + intros v Hv Hne. rewrite row_order_perm, elem_of_key_writes in Hv. destruct Hv as (Hv & Hk & Hs).
      destruct (Hstrict w v) as [?|Hvw]; auto. rewrite Hmax in Hvw; done.
  - intros [Hpre [x Hx]]. destruct (newest _) as [w|] eqn:Hn; [|done].
    destruct (tombstoned db w) eqn:Htomb; [done|]. apply newest_Some in Hn as [Hin Hmax].
    rewrite row_order_perm, elem_of_key_writes in Hin. destruct Hin as (Hw & <- & <-). exists w.
    split_and!; try done. intros n Hnn Hs Hk. apply Hmax. by rewrite row_order_perm, elem_of_key_writes.
Qed.

Lemma elem_of_list_keys db s prefix k :
  kv_strict db →
  k ∈ list_keys db s prefix ↔
  starts_with (map_string fold_char prefix) (map_string fold_char k) = true ∧ is_Some (metadata_with_hash db s k).
Proof.
  intros Hstrict. rewrite <- listed_live by done. unfold list_keys, list_bounded. simpl.
  rewrite sort_by_perm, list_elem_of_fmap. setoid_rewrite row_order_perm.
  setoid_rewrite delegation.elem_of_lfilter. naive_solver.
Qed.

(** ** Claims *)

(** Listing is exact: the keys listed under a prefix are exactly the keys of
    the space with a live value whose text, folded as the database folds it,
    starts with the prefix, whatever wildcard characters it contains; they come
    sorted, and with a limit the first [n] come together with a flag that is set
    exactly when there are more. *)
Theorem list_bounded_exact (db : Tables.Db) (s : SpaceId) (prefix : string) :
  kv_strict db →
  (∀ k, k ∈ list_keys db s prefix ↔
     starts_with (map_string fold_char prefix) (map_string fold_char k) = true ∧
     is_Some (metadata_with_hash db s k)) ∧
  Sorted (λ a b, String.leb a b = true) (list_keys db s prefix) ∧
  ∀ n, list_bounded db s prefix (Some n) =
    (take n (list_keys db s prefix), (n <? length (list_keys db s prefix))%nat).
Proof.
  intros Hstrict. split_and!; [intros k; by apply elem_of_list_keys|apply sort_by_sorted, String.leb_total|].
  intros n. unfold list_keys, list_bounded. cbn [fst]. set (l := sort_by _ _). rewrite take_take, length_take.
  replace (n `min` (n + 1))%nat with n by lia. f_equal.
  destruct (Nat.ltb_spec n ((n + 1) `min` length l)), (Nat.ltb_spec n (length l)); lia.
Qed.

End Listing.

(** ** Witnesses *)

#[local] Existing Instance demo_order.

Definition demo_write (k : string) (seq : Z) : KvWriteRow :=
  mkKvWriteRow demo_space k (mkHash BLAKE3_256 k) seq (mkHash BLAKE3_256 "e") 0 (mkHash BLAKE3_256 "v") [].
Definition demo_kv_db : Tables.Db := set_kv_writes [demo_write "docs/a" 0; demo_write "docs_b" 1] empty_db.

Lemma list_bounded_exact_witness :
  list_bounded (H0 := id) demo_kv_db demo_space "docs_" (Some 1%nat) =
  (take 1 (list_keys (H0 := id) demo_kv_db demo_space "docs_"),
   (1 <? length (list_keys (H0 := id) demo_kv_db demo_space "docs_"))%nat).
Proof.
  apply (list_bounded_exact (H := id) demo_kv_db demo_space "docs_"). intros w v Hw Hv _ Hk Hne.
  repeat (apply elem_of_cons in Hw as [->|Hw]); repeat (apply elem_of_cons in Hv as [->|Hv]);
    try (by apply not_elem_of_nil in Hw); try (by apply not_elem_of_nil in Hv); done.
Defined.

(** On SQLite, whose LIKE ignores ASCII case, a listing returns keys outside the
    requested prefix: a prefix in other case than the key's finds it. *)
Theorem sqlite_listing_ignores_case :
  let _ : Collation := to_ascii_lowercase_char in
  list_keys demo_kv_db demo_space "DOCS/" = ["docs/a"] ∧ starts_with "DOCS/" "docs/a" = false.
Proof. by vm_compute. Qed.
