(* ===== verification/Transact.v ===== *)
(** * Transactions: tinycloud-core/src/db.rs 94-159, 734-847 and 1270-1717

    [transact] groups the events of a transaction by space, opens one epoch per
    space on top of the epochs no other builds on, orders the events in it and
    processes them.  A transaction that fails leaves the store as it was (its
    result is an error, the caller keeps the old one).  The iteration order of a
    [HashMap] is unspecified and is taken from [RowOrder], as the order of query
    results is; [setup] creates the block store and the key pair of a new
    space. *)
From S2P Require Import Prelude Str Chars Json Identity Resource Registry SqlCaveat ColumnEncryption Tables Chain Tokens Events Demo Delegation Invocation Revocation Kv.
From Stdlib Require Import Sorting.Permutation.

Inductive TxError :=
| TxDb (e : DbErr)
| TxInvalidDelegation (e : delegation.DelegationError)
| TxInvalidInvocation (e : invocation.InvocationError)
| TxInvalidRevocation (e : revocation.RevocationError)
| TxEncoding
| TxStoreSetup
| TxSecrets
| SpaceNotFound
| EpochInsert (e : DbErr)
| InvalidCid (s : string)
| TxEncryption (e : EncryptionError)
| TxChainTraversalLimitExceeded
| TxPanic.    (* the [unwrap] on an operation whose space has no epoch *)

Record Commit := mkCommit {
  c_rev : Hash;
  c_seq : Z;
  c_committed_events : list Hash;
  c_consumed_epochs : list Hash;
}.

Record TransactResult := mkTransactResult {
  commits : list (SpaceId * Commit);
  skipped_spaces : list SpaceId;
  delegation_cids : list Hash;
}.

(** The [From] conversions between the error types. *)
Definition tx_of_delegation (e : delegation.Error) : TxError :=
  match e with
  | delegation.InvalidDelegation e => TxInvalidDelegation e
  | delegation.Db e => TxDb e
  end.
Definition tx_of_invocation (e : invocation.Error) : TxError :=
  match e with
  | invocation.InvalidInvocation e => TxInvalidInvocation e
  | invocation.Db e => TxDb e
  end.
Definition tx_of_revocation (e : revocation.Error) : TxError :=
  match e with
  | revocation.InvalidRevocation e => TxInvalidRevocation e
  | revocation.Db e => TxDb e
  end.

(** ** Spaces of a transaction *)

Notation EventSpaces := (list (SpaceId * list (Hash * Event))).

(** [entry(space).or_default()] and the push of an event not yet there. *)
Fixpoint add_event (s : SpaceId) (e : Hash * Event) (m : EventSpaces) : EventSpaces :=
  match m with
  | [] => [(s, [e])]
  | (s', es) :: m =>
      if decide (s' = s)
      then (s', if existsb (λ x, hash_eqb x.1 e.1) es then es else es ++ [e]) :: m
      else (s', es) :: add_event s e m
  end.

Definition add_events (e : Hash * Event) (ss : list SpaceId) (m : EventSpaces) : EventSpaces :=
  fold_left (λ m s, add_event s e m) ss m.

Section Transact.
Context `{Keccak256} `{Blake3} `{CidLib} `{RowOrder} `{TokenLib} `{HookFormats} `{DagCbor}.

Definition revoked_hash (e : Event) : option Hash :=
  match e with ERevocation r _ => Some (hash_of_cid (ri_revoked r)) | _ => None end.

Definition event_spaces (db : Tables.Db) (ev : list (Hash * Event)) : EventSpaces :=
  let targets := omap (λ e, revoked_hash e.2) ev in
  let revoked_events := select (λ o, mem (ev_event o) targets) (event_order db) in
  fold_left (λ m e,
    add_events e
      (match e.2 with
       | EDelegation d _ => cap_spaces (di_capabilities d)
       | EInvocation i _ _ => cap_spaces (ii_capabilities i)
       | ERevocation r _ =>
           omap (λ o, if hash_eqb (hash_of_cid (ri_revoked r)) (ev_event o) then Some (ev_space o) else None)
             revoked_events
       end) m) ev [].

(** A [tinycloud.space/host] capability on the space itself. *)
Definition hosted_space (c : Capability) : option SpaceId :=
  match cap_resource c with
  | TinyCloud r =>
      if bool_decide (cap_ability c = "tinycloud.space/host") && bool_decide (path r = None) &&
         bool_decide (service r = "space") && bool_decide (query r = None) && bool_decide (fragment r = None)
      then Some (space r) else None
  | Other _ => None
  end.

Definition hosted_spaces (evs : list (Hash * Event)) : list SpaceId :=
  dedup (flat_map (λ e, match e.2 with
                        | EDelegation d _ => omap hosted_space (di_capabilities d)
                        | _ => []
                        end) evs).

Definition is_delegation (e : Event) : bool := match e with EDelegation _ _ => true | _ => false end.

(** ** Epochs *)

(** [max(seq) + 1] over the space's events, 0 for a space without events. *)
Definition max_seq (db : Tables.Db) (s : SpaceId) : option Z :=
  foldr (λ o m, if bool_decide (ev_space o = s)
                then Some (match m with Some n => Z.max (ev_seq o) n | None => ev_seq o end) else m)
    None (event_order db).
Definition next_seq (db : Tables.Db) (s : SpaceId) : Z :=
  match max_seq db s with Some n => (n + 1)%Z | None => 0%Z end.

(** The epochs of the space that are no epoch's parent. *)
Definition most_recent (db : Tables.Db) (s : SpaceId) : list Hash :=
  e_id <$> select (λ e, bool_decide (e_space e = s) &&
                        negb (existsb (λ o, hash_eqb (eo_parent o) (e_id e) && bool_decide (eo_space o = e_space e))
                                (epoch_order db))) (epochs db).

Record SpaceOrder := mkSpaceOrder {
  so_space : SpaceId;
  so_seq : Z;
  so_epoch : Hash;
  so_parents : list Hash;
  so_events : list (Hash * Event);
}.

Definition order_space (db : Tables.Db) (se : SpaceId * list (Hash * Event)) : SpaceOrder :=
  let '(s, es) := se in
  let parents := most_recent db s in
  mkSpaceOrder s (next_seq db s) (epoch_hash s es parents) parents es.

Definition epoch_row (o : SpaceOrder) : EpochRow := mkEpochRow (so_seq o) (so_epoch o) (so_space o).
Definition epoch_order_rows (o : SpaceOrder) : list EpochOrderRow :=
  (λ p, mkEpochOrderRow p (so_epoch o) (so_space o)) <$> so_parents o.
Definition event_order_rows (o : SpaceOrder) : list EventOrderRow :=
  imap (λ n e, mkEventOrderRow (so_seq o) (so_epoch o) (Z.of_nat n) e.1 (so_space o)) (so_events o).

(** The position of an event in its epoch, and the version of its operations. *)
Fixpoint event_index (h : Hash) (n : nat) (es : list (Hash * Event)) : option Z :=
  match es with
  | [] => None
  | e :: es => if hash_eqb e.1 h then Some (Z.of_nat n) else event_index h (S n) es
  end.

Definition op_version (orders : list SpaceOrder) (h : Hash) (s : SpaceId) : option (Z * Hash * Z) :=
  o ← find (λ o, bool_decide (so_space o = s)) orders;
  n ← event_index h 0 (so_events o);
  Some (so_seq o, so_epoch o, n).

Definition version_ops (orders : list SpaceOrder) (h : Hash) (ops : list Operation)
    : result TxError (list VersionedOperation) :=
  try_map (λ op, '(seq, epoch, es) ← ok_or (op_version orders h (op_space op)) TxPanic;
                 Ok (version op seq epoch es)) ops.

(** ** Processing *)

Section Process.
Context (encryption : option ColumnEncryption) (nonce : Hash → string) (now : Z).

(** One event; the hash it returns is recorded for delegations. *)
Definition process_event (versions : list Operation → result TxError (list VersionedOperation))
    (db : Tables.Db) (h : Hash) (e : Event) : result TxError (list Hash * Tables.Db) :=
  match e with
  | EDelegation d bytes =>
      '(cid, db) ← map_err tx_of_delegation (delegation.process db d bytes encryption (nonce h) now);
      Ok ([cid], db)
  | EInvocation i bytes ops =>
      ops ← versions ops;
      '(_, db) ← map_err tx_of_invocation (invocation.process db i bytes ops encryption (nonce h) now);
      Ok ([], db)
  | ERevocation r bytes =>
      '(_, db) ← map_err tx_of_revocation (revocation.process db r bytes now);
      Ok ([], db)
  end.

Fixpoint process_events (versions : Hash → list Operation → result TxError (list VersionedOperation))
    (db : Tables.Db) (evs : list (Hash * Event)) : result TxError (list Hash * Tables.Db) :=
  match evs with
  | [] => Ok ([], db)
  | (h, e) :: evs =>
      '(cids, db) ← process_event (versions h) db h e;
      '(cids', db) ← process_events versions db evs;
      Ok (cids ++ cids', db)
  end.

(** The spaces that get an epoch and those that are skipped: a transaction of
    delegations leaves out the spaces that do not exist, any other fails. *)
Definition choose_spaces (db : Tables.Db) (new : list SpaceId) (delegation_only : bool) (m : EventSpaces)
    : result TxError (EventSpaces * list SpaceId) :=
  let exists_ s := has_space db s || mem s new in
  if delegation_only
  then Ok (List.filter (λ x, exists_ x.1) m, List.filter (λ s, negb (exists_ s)) m.*1)
  else if existsb (λ s, negb (exists_ s)) m.*1 then Err SpaceNotFound
  else Ok (m, []).

Definition open_epochs (db : Tables.Db) (orders : list SpaceOrder) : result TxError Tables.Db :=
  db ← map_err EpochInsert (insert_epochs (epoch_row <$> orders) db);
  db ← map_err TxDb (insert_epoch_order (flat_map epoch_order_rows orders) db);
  map_err TxDb (insert_event_order (flat_map event_order_rows orders) db).

Definition insert_new_spaces (db : Tables.Db) (new : list SpaceId) : result TxError Tables.Db :=
  match new with
  | [] => Ok db
  | _ => match insert_spaces new db with
         | Err RecordNotInserted => Ok db
         | r => map_err TxDb r
         end
  end.

Definition transact (setup : SpaceId → result TxError unit) (db : Tables.Db) (events : list Event)
    : result TxError (TransactResult * Tables.Db) :=
  let evs := (λ e, (event_hash e, e)) <$> events in
  let m := row_order (event_spaces db evs) in
  let new := hosted_spaces evs in
  db ← insert_new_spaces db new;
  '(m, skipped) ← choose_spaces db new (forallb (λ e, is_delegation e.2) evs) m;
  match m with
  | [] =>
      '(cids, db) ← process_events (λ _ _, Ok []) db evs;
      _ ← for_each setup new;
      Ok (mkTransactResult [] skipped cids, db)
  | _ =>
      let orders := order_space db <$> m in
      db ← open_epochs db orders;
      '(cids, db) ← process_events (version_ops orders) db evs;
      _ ← for_each setup new;
      Ok (mkTransactResult
            ((λ o, (so_space o, mkCommit (so_epoch o) (so_seq o) (so_events o).*1 (so_parents o))) <$> orders)
            skipped cids, db)
  end.

End Process.

(** ** Entry points *)

(** [acquire_chain_guards]: the nodes whose locks are taken, in order.  One call is
    modelled at a time, so the locks themselves are not part of the state. *)
Definition chain_guards (db : Tables.Db) (roots : list Hash) : result TxError (list Hash) :=
  keys ← map_err (λ e, match e with
                       | ChainDb e => TxDb e
                       | LimitExceeded => TxChainTraversalLimitExceeded
                       end) (ancestor_chain_ids_for_roots db roots);
  Ok (dedup (sort_by hash_leb keys)).

Section Entry.
Context (encryption : option ColumnEncryption) (nonce : Hash → string) (now : Z)
        (setup : SpaceId → result TxError unit).

Definition delegate (db : Tables.Db) (d : DelegationInfo) (bytes : string)
    : result TxError (TransactResult * Tables.Db) :=
  _ ← chain_guards db (hash_of_cid <$> di_parents d);
  transact encryption nonce now setup db [EDelegation d bytes].

Definition revoke (db : Tables.Db) (r : RevocationInfo) (bytes : string)
    : result TxError (TransactResult * Tables.Db) :=
  _ ← chain_guards db (hash_of_cid (ri_revoked r) :: (hash_of_cid <$> ri_parents r));
  transact encryption nonce now setup db [ERevocation r bytes].

End Entry.

Inductive DelegationStatus := Active | Revoked | Expired | Unavailable.

Definition delegation_status (db : Tables.Db) (target : Hash) (invoker : string) (proofs : list Cid) (now : Z)
    : result TxError (option DelegationStatus) :=
  if (1 <? length proofs)%nat then Ok None
  else
    match revocation.find_delegation db target with
    | None => Ok None
    | Some d =>
        let ability_rows := select (λ a, hash_eqb (a_delegation a) target) (abilities db) in
        match chain_guards db (target :: (hash_of_cid <$> proofs)) with
        | Err TxChainTraversalLimitExceeded => Ok (Some Unavailable)
        | Err e => Err e
        | Ok _ =>
            decision ← map_err TxDb
              (revocation.control_proof_decision db invoker proofs "tinycloud.delegation/status" target now);
            match revocation.decision_principal decision with
            | None => Ok None
            | Some principal =>
                if negb (did_principal_matches (d_delegator d) principal
                         || did_principal_matches (d_delegatee d) principal
                         || existsb (λ a, match resource_space (a_resource a) with
                                          | Some s => did_principal_matches (base_did s) principal
                                          | None => false
                                          end) ability_rows)
                then Ok None
                else if is_revoked db target then Ok (Some Revoked)
                else
                  match first_revoked_ancestor db target with
                  | Ok (Some _) => Ok (Some Revoked)
                  | Err LimitExceeded => Ok (Some Unavailable)
                  | Err (ChainDb e) => Err (TxDb e)
                  | Ok None =>
                      if match d_expiry d with Some e => (e <=? now)%Z | None => false end
                      then Ok (Some Expired)
                      else if match d_not_before d with Some n => (now <? n)%Z | None => false end
                      then Ok (Some Unavailable)
                      else Ok (Some Active)
                  end
            end
        end
    end.

End Transact.
