(* ===== verification/Authority.v ===== *)
(** * Authority and integrity of the store

    Invariants of every store that transactions can reach from an empty one:
    tables only grow; ids are unique and references resolve; every stored
    ability is backed by a chain of delegations that ends at the owner of the
    resource.  An accepted invocation is therefore traced back to a delegation
    signed by the owner. *)
From S2P Require Import Prelude Str Chars Json Identity Resource Registry SqlCaveat ColumnEncryption Tables Chain Tokens Events Demo Delegation Invocation Revocation Kv Transact.

(** ** Tables only grow *)

Record grows (db db' : Db) : Prop := {
  grow_actors : actors db `prefix_of` actors db';
  grow_delegations : delegations db `prefix_of` delegations db';
  grow_abilities : abilities db `prefix_of` abilities db';
  grow_parents : parent_delegations db `prefix_of` parent_delegations db';
  grow_revocations : revocations db `prefix_of` revocations db';
  grow_invocations : invocations db `prefix_of` invocations db';
  grow_invoked : invoked_abilities db `prefix_of` invoked_abilities db';
  grow_spaces : spaces db `prefix_of` spaces db';
  grow_epochs : epochs db `prefix_of` epochs db';
  grow_epoch_order : epoch_order db `prefix_of` epoch_order db';
  grow_event_order : event_order db `prefix_of` event_order db';
  grow_writes : kv_writes db `prefix_of` kv_writes db';
  grow_deletes : kv_deletes db `prefix_of` kv_deletes db';
  grow_subscriptions : hook_subscriptions db = hook_subscriptions db';
  grow_deliveries : hook_deliveries db `prefix_of` hook_deliveries db';
}.

#[export] Instance grows_preorder : PreOrder grows.
Proof.
  split.
  - intros db. by constructor.
  - intros a b c [] []. constructor; etrans; eassumption.
Qed.

Create HintDb store.

(** Every insert statement grows its table. *)
Ltac grow_insert :=
  let H := fresh in let t := fresh "t" in let E := fresh in
  intros H; apply bind_Ok in H as (t & E & H); injection H as <-;
  first [apply insert_many_Ok in E as [-> _]
        |unfold insert_or_ignore in E; apply bind_Ok in E as (? & E & ?);
         apply insert_fresh_Ok in E as (? & -> & _); case_match; simplify_eq];
  constructor; simpl; first [reflexivity|by apply prefix_app_r].

Lemma insert_actors_grows l db db' : insert_actors l db = Ok db' → grows db db'.
Proof. grow_insert. Qed.
Lemma insert_delegation_grows r db db' : insert_delegation r db = Ok db' → grows db db'.
Proof. grow_insert. Qed.
Lemma insert_abilities_grows l db db' : insert_abilities l db = Ok db' → grows db db'.
Proof. grow_insert. Qed.
Lemma insert_parents_grows l db db' : insert_parents l db = Ok db' → grows db db'.
Proof. grow_insert. Qed.
Lemma insert_revocation_grows r db db' : insert_revocation r db = Ok db' → grows db db'.
Proof. grow_insert. Qed.
Lemma insert_invocation_grows r db db' : insert_invocation r db = Ok db' → grows db db'.
Proof. grow_insert. Qed.
Lemma insert_invoked_grows l db db' : insert_invoked l db = Ok db' → grows db db'.
Proof. grow_insert. Qed.
Lemma insert_spaces_grows l db db' : insert_spaces l db = Ok db' → grows db db'.
Proof. grow_insert. Qed.
Lemma insert_epochs_grows l db db' : insert_epochs l db = Ok db' → grows db db'.
Proof. grow_insert. Qed.
Lemma insert_epoch_order_grows l db db' : insert_epoch_order l db = Ok db' → grows db db'.
Proof. grow_insert. Qed.
Lemma insert_event_order_grows l db db' : insert_event_order l db = Ok db' → grows db db'.
Proof. grow_insert. Qed.
Lemma insert_kv_write_grows r db db' : insert_kv_write r db = Ok db' → grows db db'.
Proof. grow_insert. Qed.
Lemma insert_kv_delete_grows r db db' : insert_kv_delete r db = Ok db' → grows db db'.
Proof. grow_insert. Qed.
Lemma insert_hook_deliveries_grows l db db' : insert_hook_deliveries l db = Ok db' → grows db db'.
Proof. grow_insert. Qed.

#[export] Hint Resolve insert_actors_grows insert_delegation_grows insert_abilities_grows
  insert_parents_grows insert_revocation_grows insert_invocation_grows insert_invoked_grows
  insert_spaces_grows insert_epochs_grows insert_epoch_order_grows insert_event_order_grows
  insert_kv_write_grows insert_kv_delete_grows insert_hook_deliveries_grows : store.

Section Grow.
Context `{Keccak256} `{Blake3} `{CidLib} `{RowOrder} `{TokenLib} `{HookFormats} `{DagCbor}.

Lemma save_actors_grows l db db' : delegation.save_actors l db = Ok db' → grows db db'.
Proof.
  unfold delegation.save_actors. destruct (insert_actors l db) as [t|[]] eqn:Hi; intros Hs; simplify_eq;
    eauto with store; reflexivity.
Qed.

Lemma delegation_process_grows db d ser enc nonce now h db' :
  delegation.process db d ser enc nonce now = Ok (h, db') → grows db db'.
Proof.
  intros Hp. apply bind_Ok in Hp as (_ & _ & Hp). apply bind_Ok in Hp as (_ & _ & Hp).
  apply bind_Ok in Hp as (db1 & Ha%map_err_Ok & Hp). apply save_actors_grows in Ha. rewrite Ha. clear Ha.
  destruct (insert_delegation _ db1) as [db2|[]] eqn:Hi; simplify_eq/=; [|reflexivity].
  apply insert_delegation_grows in Hi. rewrite Hi.
  apply bind_Ok in Hp as (db3 & Hab%map_err_Ok%insert_abilities_grows & Hp). rewrite Hab.
  apply bind_Ok in Hp as (db4 & Hpa%map_err_Ok%insert_parents_grows & Hp). by simplify_eq.
Qed.

Lemma save_operations_grows h ops db db' :
  invocation.save_operations h db ops = Ok db' → grows db db'.
Proof.
  revert db. induction ops as [|op ops IH]; intros db Hs; simpl in Hs; [by simplify_eq|].
  apply bind_Ok in Hs as (db1 & Hop & Hs). apply IH in Hs. rewrite <- Hs. destruct op; simpl in Hop.
  - apply map_err_Ok in Hop. eauto with store.
  - apply bind_Ok in Hop as (w & _ & Hop%map_err_Ok). eauto with store.
Qed.

Lemma enqueue_loop_grows actor ts ops idx db db' :
  invocation.enqueue_loop actor ts idx db ops = Ok db' → grows db db'.
Proof.
  revert idx db. induction ops as [|op ops IH]; intros idx db Hs; simpl in Hs; [by simplify_eq|].
  apply bind_Ok in Hs as ([idx1 db1] & Hop & Hs). apply IH in Hs. rewrite <- Hs.
  unfold invocation.enqueue_operation in Hop.
  destruct (match op with VKvWrite s k _ _ _ e _ => _ | VKvDelete s k _ _ e _ => _ end) as [[[s k] ab] e].
  destruct (select _ _) as [|sub subs]; [by simplify_eq|].
  destruct (_ <$> _) as [|d ds]; [by simplify_eq|].
  apply bind_Ok in Hop as (db2 & Hins & Hop). simplify_eq. eauto with store.
Qed.

Lemma invocation_process_grows db i ser ops enc nonce now h db' :
  invocation.process db i ser ops enc nonce now = Ok (h, db') → grows db db'.
Proof.
  intros Hp. apply bind_Ok in Hp as (_ & _ & Hp). apply bind_Ok in Hp as (_ & _ & Hp).
  apply bind_Ok in Hp as (db1 & Ha%map_err_Ok & Hp). apply save_actors_grows in Ha. rewrite Ha. clear Ha.
  destruct (insert_invocation _ db1) as [db2|[]] eqn:Hi; simplify_eq/=; [|reflexivity].
  apply insert_invocation_grows in Hi. rewrite Hi.
  apply bind_Ok in Hp as (db3 & Hab%map_err_Ok%insert_invoked_grows & Hp). rewrite Hab.
  apply bind_Ok in Hp as (db4 & Hpa%map_err_Ok%insert_parents_grows & Hp). rewrite Hpa.
  apply bind_Ok in Hp as (db5 & Hops%save_operations_grows & Hp). rewrite Hops.
  apply bind_Ok in Hp as (db6 & Hq%map_err_Ok & Hp). apply enqueue_loop_grows in Hq. by simplify_eq.
Qed.

Lemma revocation_process_grows db r ser now h db' :
  revocation.process db r ser now = Ok (h, db') → grows db db'.
Proof.
  intros (_ & d & _ & _ & _ & _ & [[-> _]| ->])%revocation.process_Ok; [reflexivity|].
  constructor; simpl; first [reflexivity|by apply prefix_app_r].
Qed.

Lemma process_event_grows enc nonce now vs db h e cids db' :
  process_event enc nonce now vs db h e = Ok (cids, db') → grows db db'.
Proof.
  destruct e; simpl; intros Hp.
  - apply bind_Ok in Hp as (? & _ & Hp). apply bind_Ok in Hp as ([] & Hp'%map_err_Ok & Hp). simplify_eq.
    by eapply invocation_process_grows.
  - apply bind_Ok in Hp as ([] & Hp'%map_err_Ok & Hp). simplify_eq. by eapply delegation_process_grows.
  - apply bind_Ok in Hp as ([] & Hp'%map_err_Ok & Hp). simplify_eq. by eapply revocation_process_grows.
Qed.

Lemma insert_new_spaces_grows db new db' : insert_new_spaces db new = Ok db' → grows db db'.
Proof.
  unfold insert_new_spaces. destruct new as [|s l]; [by intros; simplify_eq|].
  destruct (insert_spaces _ db) as [t|[]] eqn:Hi; intros Hs; simplify_eq/=; eauto with store; reflexivity.
Qed.

Lemma open_epochs_grows db orders db' : open_epochs db orders = Ok db' → grows db db'.
Proof.
  intros Hp. apply bind_Ok in Hp as (db1 & He%map_err_Ok%insert_epochs_grows & Hp). rewrite He.
  apply bind_Ok in Hp as (db2 & Ho%map_err_Ok%insert_epoch_order_grows & Hp). rewrite Ho.
  apply map_err_Ok in Hp. eauto with store.
Qed.

(** ** Invariants along a transaction

    A property of stores that the opening of spaces and epochs and each of the
    three kinds of events preserve is preserved by a transaction. *)
Section Invariant.
Context (P : Db → Prop) (encryption : option ColumnEncryption) (nonce : Hash → string) (now : Z).
Hypothesis P_spaces : ∀ db t, P db → P (set_spaces t db).
Hypothesis P_epochs : ∀ db orders db', P db → open_epochs db orders = Ok db' → P db'.
Hypothesis P_delegation : ∀ db d bytes h db', P db →
  delegation.process db d bytes encryption (nonce (hash bytes)) now = Ok (h, db') → P db'.
Hypothesis P_invocation : ∀ db i bytes ops h db', P db →
  invocation.process db i bytes ops encryption (nonce (hash bytes)) now = Ok (h, db') → P db'.
Hypothesis P_revocation : ∀ db r bytes h db', P db →
  revocation.process db r bytes now = Ok (h, db') → P db'.

Lemma process_events_inv vs evs db cids db' :
  (∀ e, e ∈ evs → e.1 = event_hash e.2) → P db →
  process_events encryption nonce now vs db evs = Ok (cids, db') → P db'.
Proof.
  revert db cids. induction evs as [|[h e] evs IH]; intros db cids Hev HP Hs; simpl in Hs; [by simplify_eq|].
  apply bind_Ok in Hs as ([c1 db1] & He & Hs). apply bind_Ok in Hs as ([c2 db2] & Hs & Hr). simplify_eq.
  eapply IH; [|..|exact Hs]; [intros x Hx; apply Hev; by right|]. clear IH Hs.
  pose proof (Hev (h, e) (list_elem_of_here _ _)) as Hh. simpl in Hh. subst h.
  destruct e; simpl in He.
  - apply bind_Ok in He as (? & _ & He). apply bind_Ok in He as ([] & He'%map_err_Ok & He). simplify_eq.
    exact (P_invocation _ _ _ _ _ _ HP He').
  - apply bind_Ok in He as ([] & He'%map_err_Ok & He). simplify_eq. exact (P_delegation _ _ _ _ _ HP He').
  - apply bind_Ok in He as ([] & He'%map_err_Ok & He). simplify_eq. exact (P_revocation _ _ _ _ _ HP He').
Qed.

Lemma insert_new_spaces_set db new db' : insert_new_spaces db new = Ok db' → ∃ t, db' = set_spaces t db.
Proof.
  unfold insert_new_spaces, insert_spaces.
  destruct new as [|s l]; [intros; simplify_eq; exists (spaces db'); by destruct db'|].
  destruct (insert_or_ignore _ _ _ _ _) as [t|[]]; simpl; intros Hs; simplify_eq;
    [by exists t|exists (spaces db'); by destruct db'].
Qed.

Lemma transact_inv setup db events res db' :
  P db → transact encryption nonce now setup db events = Ok (res, db') → P db'.
Proof.
  intros HP Ht. unfold transact in Ht. set (evs := (λ e, (event_hash e, e)) <$> events) in Ht.
  assert (∀ e, e ∈ evs → e.1 = event_hash e.2) as Hev.
  { intros e (x & -> & _)%list_elem_of_fmap. done. }
  apply bind_Ok in Ht as (db1 & [t ->]%insert_new_spaces_set & Ht).
  apply bind_Ok in Ht as ([m skipped] & _ & Ht). destruct m as [|x m].
  - apply bind_Ok in Ht as ([cids db2] & Hp & Ht). apply bind_Ok in Ht as (_ & _ & Ht). simplify_eq.
    eapply process_events_inv; [exact Hev|exact (P_spaces _ t HP)|exact Hp].
  - apply bind_Ok in Ht as (db2 & Ho & Ht). apply bind_Ok in Ht as ([cids db3] & Hp & Ht).
    apply bind_Ok in Ht as (_ & _ & Ht). simplify_eq.
    eapply process_events_inv; [exact Hev|exact (P_epochs _ _ _ (P_spaces _ t HP) Ho)|exact Hp].
Qed.

End Invariant.

Lemma transact_grows encryption nonce now setup db events res db' :
  transact encryption nonce now setup db events = Ok (res, db') → grows db db'.
Proof.
  intros Ht. unfold transact in Ht.
  apply bind_Ok in Ht as (db1 & Hs%insert_new_spaces_grows & Ht). rewrite Hs.
  assert (∀ vs evs db cids db', process_events encryption nonce now vs db evs = Ok (cids, db') → grows db db') as Hpe.
  { clear. intros vs evs. induction evs as [|[h e] evs IH]; intros db cids db' Hs; simpl in Hs; [by simplify_eq|].
    apply bind_Ok in Hs as ([c1 db1] & He & Hs). apply bind_Ok in Hs as ([c2 db2] & Hs & Hr). simplify_eq.
    etrans; [by eapply process_event_grows|by eapply IH]. }
  apply bind_Ok in Ht as ([m skipped] & _ & Ht). destruct m as [|x m].
  - apply bind_Ok in Ht as ([cids db2] & Hp%Hpe & Ht). apply bind_Ok in Ht as (_ & _ & Ht). by simplify_eq.
  - apply bind_Ok in Ht as (db2 & Ho%open_epochs_grows & Ht). rewrite Ho.
    apply bind_Ok in Ht as ([cids db3] & Hp%Hpe & Ht). apply bind_Ok in Ht as (_ & _ & Ht). by simplify_eq.
Qed.

End Grow.

(** ** Backed abilities *)

Section Backed.
Context `{Keccak256}.

Definition row_cap (a : AbilityRow) : Capability := mkCapability (a_resource a) (a_ability a) (a_caveats a).

(** The validity window of [d] is within that of [p]. *)
Definition window_within (d p : DelegationRow) : Prop :=
  match d_expiry p, d_expiry d with
  | None, _ => True | Some _, None => False | Some pe, Some de => (de ≤ pe)%Z
  end ∧
  match d_not_before p, d_not_before d with
  | None, _ => True | Some _, None => False | Some pn, Some dn => (pn ≤ dn)%Z
  end.

(** The ability [a] of the delegation [d] is the delegator's own, or is attenuated
    from a backed ability of a non-terminal parent issued to the delegator. *)
Inductive backed (db : Db) : DelegationRow → AbilityRow → Prop :=
| backed_owner d a :
    d ∈ delegations db → a ∈ abilities db → a_delegation a = d_id d →
    delegation.is_root_authority (row_cap a) (d_delegator d) = true → backed db d a
| backed_parent d a p b :
    d ∈ delegations db → a ∈ abilities db → a_delegation a = d_id d →
    parent_of db (d_id d) (d_id p) → d_delegatee p = d_delegator d →
    delegation.parent_is_terminal p = false → window_within d p →
    delegation.grants b (row_cap a) → backed db p b → backed db d a.

Record sound (db : Db) : Prop := {
  sound_refs : ∀ a, a ∈ abilities db → ∃ d, d ∈ delegations db ∧ d_id d = a_delegation a;
  sound_backed : ∀ d a, d ∈ delegations db → a ∈ abilities db → a_delegation a = d_id d → backed db d a;
}.

Lemma backed_mono db db' d a :
  delegations db ⊆ delegations db' → abilities db ⊆ abilities db' →
  parent_delegations db ⊆ parent_delegations db' → backed db d a → backed db' d a.
Proof.
  intros Hd Ha Hp Hb. induction Hb as [d a ? ? ? ?|d a p b ? ? ? ? ? ? ? ? ? IH].
  - apply backed_owner; auto.
  - eapply (backed_parent _ d a p b); auto. by apply Hp.
Qed.

(** Stores with the same delegations and abilities. *)
Lemma sound_frame db db' :
  delegations db' = delegations db → abilities db' = abilities db →
  parent_delegations db ⊆ parent_delegations db' → sound db → sound db'.
Proof.
  intros Hd Ha Hp [Hr Hb]. split.
  - intros a. rewrite Ha, Hd. auto.
  - intros d a. rewrite Hd, Ha. intros ???. eapply (backed_mono db); auto; by rewrite ?Hd, ?Ha.
Qed.

Lemma grants_trans a b c :
  delegation.grants a (row_cap b) → delegation.grants b c → delegation.grants a c.
Proof.
  intros (He & Hm & Hc) (He' & Hm' & Hc'). split_and!.
  - by eapply resource_extends_trans.
  - by eapply ability_matches_trans.
  - by eapply caveats_contain_child_trans.
Qed.

Lemma root_authority_owner c who :
  delegation.is_root_authority c who = true ↔
  ∃ o, resource_owner (cap_resource c) = Some o ∧ did_principal_matches o who = true.
Proof.
  unfold delegation.is_root_authority, resource_owner. destruct (cap_resource c) as [r|u]; simpl.
  - rewrite orb_false_r. naive_solver.
  - destruct (network_id_from_str (uri_str u)); naive_solver.
Qed.

(** A capability granted by a backed ability is traced to the resource's owner. *)
Lemma backed_trace db d a c :
  backed db d a → delegation.grants a c →
  ∃ d0 a0 o, d0 ∈ delegations db ∧ a0 ∈ abilities db ∧ a_delegation a0 = d_id d0 ∧
    ancestor db (d_id d) (d_id d0) ∧ delegation.grants a0 c ∧
    resource_owner (cap_resource c) = Some o ∧ did_principal_matches o (d_delegator d0) = true.
Proof.
  intros Hb. revert c. induction Hb as [d a Hd Ha Had Hroot|d a p b Hd Ha Had Hpar Hwho Hterm Hwin Hg Hb IH];
    intros c Hgc.
  - apply root_authority_owner in Hroot as (o & Ho & Hm). exists d, a, o.
    split_and!; try done. rewrite <- Ho. apply resource_extends_owner. apply Hgc.
  - destruct (IH c) as (d0 & a0 & o & ? & ? & ? & Hanc & ?); [by eapply grants_trans|].
    exists d0, a0, o. split_and!; try done; try naive_solver. by eapply rtc_l.
Qed.

End Backed.

Section Soundness.
Context `{Keccak256} `{Blake3} `{CidLib} `{RowOrder} `{TokenLib} `{HookFormats} `{DagCbor}.

Lemma open_epochs_frame db orders db' :
  open_epochs db orders = Ok db' →
  ∃ t u v, db' = set_event_order t (set_epoch_order u (set_epochs v db)).
Proof.
  intros Hp. apply bind_Ok in Hp as (db1 & He%map_err_Ok & Hp). apply bind_Ok in He as (v & _ & He).
  apply bind_Ok in Hp as (db2 & Ho%map_err_Ok & Hp). apply bind_Ok in Ho as (u & _ & Ho).
  apply map_err_Ok in Hp. apply bind_Ok in Hp as (t & _ & Hp). simplify_eq. by exists t, u, v.
Qed.

Lemma invocation_process_frame db i ser ops enc nonce now h db' :
  invocation.process db i ser ops enc nonce now = Ok (h, db') →
  delegations db' = delegations db ∧ abilities db' = abilities db ∧
  revocations db' = revocations db ∧ spaces db' = spaces db ∧
  epochs db' = epochs db ∧ epoch_order db' = epoch_order db ∧ event_order db' = event_order db.
Proof.
  intros Hp. apply bind_Ok in Hp as (_ & _ & Hp). apply bind_Ok in Hp as (_ & _ & Hp).
  apply bind_Ok in Hp as (db1 & Ha%map_err_Ok & Hp). apply delegation.save_actors_Ok in Ha as (t & -> & _).
  unfold insert_invocation in Hp.
  destruct (insert_or_ignore _ _ _ _ _) as [ti|[]]; cbn [mbind result_bind] in Hp; simplify_eq; [|done].
  apply bind_Ok in Hp as (db3 & Hab%map_err_Ok & Hp). apply bind_Ok in Hab as (ta & _ & Hab).
  apply bind_Ok in Hp as (db4 & Hpa%map_err_Ok & Hp). apply bind_Ok in Hpa as (tp & _ & Hpa).
  apply bind_Ok in Hp as (db5 & Hops & Hp). apply bind_Ok in Hp as (db6 & Hq%map_err_Ok & Hp).
  apply enqueue_frame in Hq as [tq ->]. simplify_eq. clear -Hops. remember (hash ser) as h eqn:Hh. clear Hh.
  assert (∀ dbx, invocation.save_operations h dbx ops = Ok db5 →
    ∃ w d, db5 = set_kv_deletes d (set_kv_writes w dbx)) as Hfr.
  { clear. induction ops as [|op ops IH]; intros dbx Hs; simpl in Hs.
    - simplify_eq. exists (kv_writes db5), (kv_deletes db5). by destruct db5.
    - apply bind_Ok in Hs as (db1 & Hop & Hs). apply IH in Hs as (w & d & ->). destruct op; simpl in Hop.
      + apply map_err_Ok, insert_kv_write_Ok in Hop as [-> _]. by exists w, d.
      + apply bind_Ok in Hop as (? & _ & Hop%map_err_Ok%insert_kv_delete_Ok). subst. by exists w, d. }
  destruct (Hfr _ Hops) as (w & d & ->). done.
Qed.

Lemma narrows_window p d ser enc nonce :
  delegation.expiry_valid p d = true → delegation.not_before_valid p d = true →
  window_within (delegation.delegation_row d ser enc nonce) p.
Proof.
  unfold delegation.expiry_valid, delegation.not_before_valid, window_within. simpl.
  destruct (d_expiry p), (di_expiry d), (d_not_before p), (di_not_before d); try done;
    rewrite ?Z.leb_le; done.
Qed.

Lemma delegation_process_sound db d ser enc nonce now h db' :
  sound db → delegation.process db d ser enc nonce now = Ok (h, db') → sound db'.
Proof.
  intros Hsound Hp. apply bind_Ok in Hp as ([] & _ & Hp). apply bind_Ok in Hp as ([] & Hv & Hp).
  apply delegation.save_Ok in Hp as [-> [[_ [t ->]]|Hst]]; [by apply (sound_frame db)|].
  pose proof (delegation.stored_delegations _ _ _ _ Hst) as Hd.
  pose proof (delegation.stored_abilities _ _ _ _ Hst) as Ha.
  pose proof (delegation.stored_parents _ _ _ _ Hst) as Hpar.
  pose proof (delegation.stored_fresh _ _ _ _ Hst) as Hfresh.
  set (row := delegation.delegation_row d ser enc nonce) in *.
  destruct Hsound as [Hrefs Hbacked].
  assert (∀ x y, backed db x y → backed db' x y) as Hmono.
  { intros x y. apply backed_mono; rewrite ?Hd, ?Ha, ?Hpar; set_solver. }
  assert (row ∈ delegations db') as Hrow by (rewrite Hd; set_solver).
  assert (∀ x, x ∈ delegations db → d_id x ≠ d_id row) as Hne.
  { intros x Hx Heq. apply not_true_iff_false in Hfresh. apply Hfresh, has_delegation_true. by exists x. }
  split.
  - intros a. rewrite Ha, elem_of_app. intros [Hin|(c & -> & _)%list_elem_of_fmap]; [|by exists row].
    destruct (Hrefs a Hin) as (x & Hx & Hid). exists x. rewrite Hd. set_solver.
  - intros x a Hx Hin Hid. rewrite Hd, elem_of_app, list_elem_of_singleton in Hx.
    rewrite Ha, elem_of_app in Hin.
    destruct Hin as [Hin|(c & Hac & Hc)%list_elem_of_fmap].
    + destruct Hx as [Hx| ->]; [apply Hmono; auto|].
      destruct (Hrefs a Hin) as (y & Hy & Hyid). destruct (Hne y Hy). congruence.
    + destruct Hx as [Hx| ->]; [subst a; simpl in Hid; by destruct (Hne x Hx)|].
      assert (row_cap a = c) as Hcap by (subst a; by destruct c).
      assert (a ∈ abilities db') as Hin.
      { rewrite Ha, elem_of_app. right. apply list_elem_of_fmap. by exists c. }
      apply delegation.delegation_valid in Hv as [Hall|[Hact Hall]].
      { apply backed_owner; try done. rewrite Hcap. by apply Hall. }
      destruct (Hall c Hc) as [Hr|(p & b & Hcited & [Hexp Hnbf] & Hb & Hbp & Hg)].
      { apply backed_owner; try done. by rewrite Hcap. }
      pose proof Hcited as (Hp & Hpid & Hwho). apply (backed_parent _ _ _ p b); try done.
      * unfold parent_of. rewrite Hpar, elem_of_app. right.
        apply list_elem_of_fmap in Hpid as (cid & -> & Hcid). apply list_elem_of_fmap. by exists cid.
      * by apply Hact.
      * by apply narrows_window.
      * by rewrite Hcap.
      * apply Hmono. by apply Hbacked.
Qed.

Lemma transact_sound encryption nonce now setup db events res db' :
  sound db → transact encryption nonce now setup db events = Ok (res, db') → sound db'.
Proof.
  apply transact_inv; clear.
  - intros db t. by apply sound_frame.
  - intros db orders db' Hs (t & u & v & ->)%open_epochs_frame. by apply (sound_frame db).
  - intros db d bytes h db' Hs Hp. by eapply delegation_process_sound.
  - intros db i bytes ops h db' Hs Hp. pose proof (invocation_process_grows _ _ _ _ _ _ _ _ _ Hp) as Hg.
    apply invocation_process_frame in Hp as (Hd & Ha & _). eapply (sound_frame db); eauto.
    intros x Hx. by eapply elem_of_prefix, (grow_parents _ _ Hg).
  - intros db r bytes h db' Hs Hp. pose proof (revocation_process_grows _ _ _ _ _ _ Hp) as Hg.
    apply revocation.process_Ok in Hp as (_ & d & _ & _ & _ & _ & [[-> _]| ->]); [done|].
    eapply (sound_frame db); eauto. intros x Hx. by eapply elem_of_prefix, (grow_parents _ _ Hg).
Qed.

(** ** Reachable stores *)

(** The stores the node can be in: it starts empty, runs transactions over any
    lists of events, and the webhook endpoints rewrite the two hook tables. *)
Inductive reachable : Db → Prop :=
| reach_start : reachable empty_db
| reach_transact encryption nonce now setup db events res db' :
    reachable db → transact encryption nonce now setup db events = Ok (res, db') → reachable db'
| reach_hooks db subs dels : reachable db → reachable (set_hook_deliveries dels (set_hook_subscriptions subs db)).

Lemma reachable_sound db : reachable db → sound db.
Proof.
  induction 1 as [|? ? ? ? ? ? ? ? _ IH Ht|db subs dels _ IH].
  - split; [intros a Ha|intros d a Hd]; by apply not_elem_of_nil in Ha || apply not_elem_of_nil in Hd.
  - by eapply transact_sound.
  - by apply (sound_frame db).
Qed.

(** The capability concerns a resource with an owner, and the invoker is the owner
    or holds it by delegations that start with the owner. *)
Definition traced (db : Db) (i : InvocationInfo) (c : Capability) : Prop :=
  ∃ o, resource_owner (cap_resource c) = Some o ∧
  (did_principal_matches o (ii_invoker i) = true ∨
   ∃ p d0 a0, invocation.cited db i p ∧ did_principal_matches (d_delegatee p) (ii_invoker i) = true ∧
     ancestor db (d_id p) (d_id d0) ∧ d0 ∈ delegations db ∧ a0 ∈ abilities db ∧ a_delegation a0 = d_id d0 ∧
     delegation.grants a0 c ∧ did_principal_matches o (d_delegator d0) = true).

Lemma valid_traced db i now c : sound db → invocation.validate db i now = Ok tt → c ∈ ii_capabilities i → traced db i c.
Proof.
  intros [_ Hbacked] Hv Hc.
  assert (∀ c, invocation.is_root_authority c (ii_invoker i) = true →
    ∃ o, resource_owner (cap_resource c) = Some o ∧ did_principal_matches o (ii_invoker i) = true) as Hroot.
  { intros x Hx. by apply root_authority_owner. }
  apply invocation.invocation_valid in Hv as [Hall|(_ & Hpar & Hall)].
  { destruct (Hroot c (Hall c Hc)) as (o & ? & ?). exists o. split; [done|by left]. }
  destruct (Hall c Hc) as [Hr|(p & a & Hp & Ha & Had & Hg)].
  { destruct (Hroot c Hr) as (o & ? & ?). exists o. split; [done|by left]. }
  destruct (backed_trace db p a c) as (d0 & a0 & o & ? & ? & ? & ? & ? & ? & ?); [by apply Hbacked, Had; [apply Hp|]|done|].
  exists o. split; [done|]. right. exists p, d0, a0. split_and!; try done. by apply Hpar.
Qed.

Lemma traced_mono db db' i c : grows db db' → traced db i c → traced db' i c.
Proof.
  intros Hg (o & Ho & Ht). exists o. split; [done|]. destruct Ht as [|(p & d0 & a0 & [Hp Hpar] & ? & Hanc & Hd & Ha & ?)]; [by left|right].
  exists p, d0, a0. split_and!; try naive_solver.
  - split; [by eapply elem_of_prefix, (grow_delegations _ _ Hg)|done].
  - eapply rtc_subrel; [|exact Hanc]. intros x y Hxy. by eapply elem_of_prefix, (grow_parents _ _ Hg).
  - by eapply elem_of_prefix, (grow_delegations _ _ Hg).
  - by eapply elem_of_prefix, (grow_abilities _ _ Hg).
Qed.

(** Every capability of an invocation that a transaction accepts is traced. *)
Lemma transact_invocation_traced encryption nonce now setup db i bytes ops res db' c :
  sound db → transact encryption nonce now setup db [EInvocation i bytes ops] = Ok (res, db') → c ∈ ii_capabilities i → traced db' i c.
Proof.
  intros Hs Ht Hc.
  assert (∀ vs db cids db', sound db →
    process_events encryption nonce now vs db [(event_hash (EInvocation i bytes ops), EInvocation i bytes ops)] = Ok (cids, db') → traced db' i c) as Hpe.
  { clear Hs Ht. intros vs db0 cids db1 Hs Hp. simpl in Hp. apply bind_Ok in Hp as ([c1 db2] & He & Hp). simplify_eq/=.
    apply bind_Ok in He as (? & _ & He). apply bind_Ok in He as ([] & He'%map_err_Ok & He). simplify_eq.
    eapply traced_mono; [by eapply invocation_process_grows|]. apply bind_Ok in He' as (_ & _ & He').
    apply bind_Ok in He' as ([] & Hv & _). by eapply valid_traced. }
  unfold transact in Ht. apply bind_Ok in Ht as (db1 & [t ->]%insert_new_spaces_set & Ht).
  assert (sound (set_spaces t db)) as Hs1 by by apply (sound_frame db).
  apply bind_Ok in Ht as ([m skipped] & _ & Ht). destruct m as [|x m].
  - apply bind_Ok in Ht as ([cids db2] & Hp & Ht). apply bind_Ok in Ht as (_ & _ & Ht). simplify_eq. by eapply Hpe.
  - apply bind_Ok in Ht as (db2 & (u & v & w & ->)%open_epochs_frame & Ht). apply bind_Ok in Ht as ([cids db3] & Hp & Ht).
    apply bind_Ok in Ht as (_ & _ & Ht). simplify_eq. eapply Hpe, Hp. by apply (sound_frame (set_spaces t db)).
Qed.

(** ** Claims *)

(** C1: no authority out of thin air: in every reachable store, each capability of
    an accepted invocation concerns a resource that has an owner, and either the
    invoker is that owner or there is a stored delegation by the owner, an
    ancestor of a delegation the invocation cites and that was issued to the
    invoker, one of whose abilities covers the capability in resource, ability
    and caveats.  Resources without an owner are never authorized. *)
Theorem invocation_traced_to_owner (db : Db) (i : InvocationInfo) (now : Z) (c : Capability) :
  reachable db → invocation.validate db i now = Ok tt → c ∈ ii_capabilities i →
  ∃ o, resource_owner (cap_resource c) = Some o ∧
  (did_principal_matches o (ii_invoker i) = true ∨
   ∃ p d0 a0, invocation.cited db i p ∧ did_principal_matches (d_delegatee p) (ii_invoker i) = true ∧
     ancestor db (d_id p) (d_id d0) ∧ d0 ∈ delegations db ∧ a0 ∈ abilities db ∧ a_delegation a0 = d_id d0 ∧
     delegation.grants a0 c ∧ did_principal_matches o (d_delegator d0) = true).
Proof. intros Hr%reachable_sound Hv Hc. by eapply valid_traced. Qed.

(** C17: in every reachable store every ability of every delegation is backed: it is
    the delegator's own, or it attenuates in resource, ability, caveats and time
    an ability of a linked, non-terminal parent issued to the delegator, which is
    backed in turn. *)
Theorem stored_abilities_backed (db : Db) (d : DelegationRow) (a : AbilityRow) :
  reachable db → d ∈ delegations db → a ∈ abilities db → a_delegation a = d_id d → backed db d a.
Proof. intros [_ Hb]%reachable_sound. apply Hb. Qed.

(** The store is append-only: a transaction, whatever its events, keeps every
    row of every table in place and only adds rows behind them; in particular no
    revocation is ever lost, and no delegation, write or tombstone changes. *)
Theorem transact_append_only encryption nonce now setup (db db' : Db) (events : list Event) (res : TransactResult) :
  transact encryption nonce now setup db events = Ok (res, db') → grows db db'.
Proof. apply transact_grows. Qed.

End Soundness.

(** ** Witnesses *)

#[local] Existing Instances demo_keccak demo_blake demo_cids demo_order demo_tokens.
Definition demo_formats : HookFormats :=
  {| json_text := λ _, ""; abilities_of_json := λ _, None; rfc3339 := λ _, "" |}.
Definition demo_cbor : DagCbor :=
  {| cbor_op := λ op, match op with OpWrite k _ _ => "w" +:+ k | OpDelete k _ => "d" +:+ k end;
     cbor_epoch := λ ps es, "e" +:+ String.concat "," (mh_digest ∘ cid_hash <$> ps) +:+ ";" +:+
       String.concat "," ((λ e, match e with One c => mh_digest (cid_hash c)
                                 | Many l => String.concat "+" (mh_digest ∘ cid_hash <$> l) end) <$> es) |}.
#[local] Existing Instances demo_formats demo_cbor.

Definition demo_nonce : Hash → string := λ _, "".
Definition demo_setup : SpaceId → result TxError unit := λ _, Ok tt.

(** [owner] creates the space and delegates, [alice] delegates to [bob]. *)
Definition demo_host : DelegationInfo :=
  demo_grant owner owner
    [mkCapability (TinyCloud {| space := demo_space; service := "space"; path := None; query := None; fragment := None |})
       "tinycloud.space/host" []] [] Attenuable "d0".
Definition demo_events : list Event :=
  [EDelegation demo_host "d0"; EDelegation demo_grant1 "d1"; EDelegation demo_grant2 "d2"].
Definition demo_store : Db :=
  match transact None demo_nonce 0 demo_setup empty_db demo_events with Ok (_, db) => db | Err _ => empty_db end.

Lemma demo_store_eq : ∃ res, transact None demo_nonce 0 demo_setup empty_db demo_events = Ok (res, demo_store).
Proof. eexists. vm_compute. reflexivity. Qed.

Lemma demo_store_reachable : reachable demo_store.
Proof. destruct demo_store_eq as [res Hres]. eapply reach_transact; [apply reach_start|exact Hres]. Qed.

Lemma invocation_traced_to_owner_witness :
  ∃ o, resource_owner (demo_kv (Some "docs/a")) = Some o ∧
  (did_principal_matches o bob = true ∨
   ∃ p d0 a0, invocation.cited demo_store demo_invocation p ∧ did_principal_matches (d_delegatee p) bob = true ∧
     ancestor demo_store (d_id p) (d_id d0) ∧ d0 ∈ delegations demo_store ∧ a0 ∈ abilities demo_store ∧
     a_delegation a0 = d_id d0 ∧ delegation.grants a0 (demo_cap (Some "docs/a") "tinycloud.kv/get") ∧
     did_principal_matches o (d_delegator d0) = true).
Proof.
  apply (invocation_traced_to_owner demo_store demo_invocation 50 (demo_cap (Some "docs/a") "tinycloud.kv/get")).
  - apply demo_store_reachable.
  - by vm_compute.
  - by left.
Defined.

Lemma stored_abilities_backed_witness :
  backed demo_store (delegation.delegation_row demo_grant2 "d2" None "")
    (mkAbilityRow (demo_kv (Some "docs/a")) "tinycloud.kv/get" (hash "d2") []).
Proof.
  apply stored_abilities_backed; [apply demo_store_reachable|by apply mem_true; vm_compute| |done].
  right. right. by left.
Defined.

Lemma transact_append_only_witness : grows empty_db demo_store.
Proof.
  destruct (transact None demo_nonce 0 demo_setup empty_db demo_events) as [[res db']|e] eqn:Hres.
  - apply (transact_append_only None demo_nonce 0 demo_setup empty_db demo_store demo_events res).
    rewrite Hres. unfold demo_store. by rewrite Hres.
  - by vm_compute in Hres.
Defined.
