(* ===== verification/KvStore.v ===== *)
(** * The key-value store across transactions

    The integrity of the key-value tables is an invariant of transactions, and a
    transaction of one new invocation acts on the key-value view as its
    operations do, one after the other; the same invocation again changes
    nothing. *)
From S2P Require Import Prelude Str Chars Json Identity Resource Registry SqlCaveat ColumnEncryption Tables Chain Tokens Events Demo Delegation Invocation Revocation Kv Transact Authority.
From Stdlib Require Import Sorting.Permutation.

(** Every write belongs to a stored invocation and is not ahead of its space's
    events; every tombstone names a write. *)
Record kv_store_inv (db : Tables.Db) : Prop := {
  write_invoked : ∀ w, w ∈ kv_writes db → has_invocation db (w_invocation w) = true;
  write_ordered : ∀ w, w ∈ kv_writes db →
    ∃ o, o ∈ event_order db ∧ ev_space o = w_space w ∧ (w_seq w ≤ ev_seq o)%Z;
  tombstone_names : ∀ d, d ∈ kv_deletes db → ∃ w, w ∈ kv_writes db ∧ w_space w = del_space d ∧
    w_key w = del_key d ∧ w_invocation w = del_deleted_invocation_id d;
}.

Lemma has_invocation_true db h : has_invocation db h = true ↔ ∃ i, i ∈ invocations db ∧ i_id i = h.
Proof.
  unfold has_invocation. rewrite existsb_exists. setoid_rewrite hash_eqb_true.
  by setoid_rewrite <- list_elem_of_In.
Qed.

Lemma kv_store_frame db db' :
  kv_writes db' = kv_writes db → kv_deletes db' = kv_deletes db →
  invocations db ⊆ invocations db' → event_order db ⊆ event_order db' →
  kv_store_inv db → kv_store_inv db'.
Proof.
  intros Hw Hd Hi Ho [H1 H2 H3]. split; rewrite ?Hw, ?Hd.
  - intros w Hin. specialize (H1 w Hin). rewrite has_invocation_true in H1 |- *. naive_solver.
  - intros w Hin. destruct (H2 w Hin) as (o & ? & ?). exists o. auto.
  - done.
Qed.

Section Store.
Context `{Keccak256} `{Blake3} `{CidLib} `{RowOrder} `{TokenLib} `{HookFormats} `{DagCbor}.

(** The versions of an epoch's operations point at its event rows. *)
Definition op_ordered (db : Tables.Db) (op : VersionedOperation) : Prop :=
  match op with
  | VKvWrite s _ _ _ seq _ _ => ∃ o, o ∈ event_order db ∧ ev_space o = s ∧ ev_seq o = seq
  | VKvDelete _ _ _ _ _ _ => True
  end.

Lemma save_operations_inv h ops db db' :
  kv_store_inv db → has_invocation db h = true → Forall (op_ordered db) ops →
  invocation.save_operations h db ops = Ok db' → kv_store_inv db'.
Proof.
  revert db. induction ops as [|op ops IH]; intros db Hinv Hh Hops Hs; simpl in Hs; [by simplify_eq|].
  inversion Hops as [|? ? Hop Hrest]; subst. apply bind_Ok in Hs as (db1 & Hsave & Hs).
  destruct op as [s k v md seq e es|s k v seq e es]; simpl in Hsave.
  - apply map_err_Ok, insert_kv_write_Ok in Hsave as [-> _].
    refine (IH (set_kv_writes _ db) _ Hh Hrest Hs). destruct Hinv as [Hi Ho Ht]. split; simpl.
    + intros w [Hw|Hw]%elem_of_app; [by apply Hi|]. by apply list_elem_of_singleton in Hw as ->.
    + intros w [Hw|Hw]%elem_of_app; [auto|]. apply list_elem_of_singleton in Hw as ->.
      destruct Hop as (o & Hin & Hsp & Hseq). exists o. simpl. split_and!; [done|done|lia].
    + intros d Hd. destruct (Ht d Hd) as (w & Hw & ?). exists w. split; [apply elem_of_app; by left|done].
  - apply bind_Ok in Hsave as (w & Hw & Hsave). rewrite ok_or_Ok in Hw.
    apply map_err_Ok, insert_kv_delete_Ok in Hsave as ->.
    refine (IH (set_kv_deletes _ db) _ Hh Hrest Hs). destruct Hinv as [Hi Ho Ht]. split; simpl; [done|done|].
    intros d [Hd|Hd]%elem_of_app; [auto|]. apply list_elem_of_singleton in Hd as ->. simpl.
    exists w. unfold invocation.deleted_write in Hw. destruct v as [[[a b] c]|].
    + apply select_one_Some in Hw as [Hin Hm]. rewrite !andb_true_iff, !bool_decide_eq_true in Hm. naive_solver.
    + destruct (newest_Some _ _ Hw) as [Hin _]. rewrite row_order_perm, elem_of_key_writes in Hin. naive_solver.
Qed.

(** What [invocation.process] does: nothing to the key-value tables for an
    invocation that is already stored, and otherwise the operations, run on a
    store that differs in other tables only. *)
Lemma process_kv db i ser ops enc nonce now h db' :
  invocation.process db i ser ops enc nonce now = Ok (h, db') →
  h = hash ser ∧
  ((has_invocation db h = true ∧ ∃ t, db' = set_actors t db) ∨
   (has_invocation db h = false ∧
    ∃ db1 db2, kv_writes db1 = kv_writes db ∧ kv_deletes db1 = kv_deletes db ∧
      event_order db1 = event_order db ∧ invocations db ⊆ invocations db1 ∧ has_invocation db1 h = true ∧
      invocation.save_operations h db1 ops = Ok db2 ∧ ∃ t, db' = set_hook_deliveries t db2)).
Proof.
  intros Hp. apply bind_Ok in Hp as (_ & _ & Hp). apply bind_Ok in Hp as (_ & _ & Hp).
  apply bind_Ok in Hp as (db1 & Ha%map_err_Ok & Hp). apply delegation.save_actors_Ok in Ha as (t & -> & _).
  unfold insert_invocation in Hp.
  destruct (insert_or_ignore _ _ _ _ _) as [ti|e] eqn:Hi.
  - apply insert_or_ignore_Ok in Hi as (-> & Hk & _). cbn [mbind result_bind] in Hp.
    apply bind_Ok in Hp as (db3 & Hab%map_err_Ok & Hp). apply bind_Ok in Hab as (ta & _ & Hab).
    apply bind_Ok in Hp as (db4 & Hpa%map_err_Ok & Hp). apply bind_Ok in Hpa as (tp & _ & Hpa).
    apply bind_Ok in Hp as (db5 & Hops & Hp). apply bind_Ok in Hp as (db6 & Hq%map_err_Ok & Hp).
    apply enqueue_frame in Hq as [tq ->]. simplify_eq. split; [done|]. right. split; [exact Hk|].
    eexists _, db5. split_and!; [..|exact Hops|by exists tq]; try done.
    + simpl. set_solver.
    + apply has_invocation_true. simpl. eexists. split; [apply elem_of_app; right; by left|done].
  - cbn [mbind result_bind] in Hp. destruct e; try done. simplify_eq. split; [done|]. left.
    split; [|by exists t]. by apply insert_or_ignore_none in Hi.
Qed.

Lemma invocation_process_kv_inv db i ser ops enc nonce now h db' :
  kv_store_inv db → Forall (op_ordered db) ops →
  invocation.process db i ser ops enc nonce now = Ok (h, db') → kv_store_inv db'.
Proof.
  intros Hinv Hops Hp. apply process_kv in Hp as [_ [[_ [t ->]]|(_ & db1 & db2 & Hw & Hd & Ho & Hi & Hh & Hs & t & ->)]].
  - by apply (kv_store_frame db).
  - apply (kv_store_frame db2); try done. eapply save_operations_inv; [..|exact Hs]; [|done|].
    + apply (kv_store_frame db); try done. by rewrite Ho.
    + eapply Forall_impl; [exact Hops|]. intros [] Hop; simpl in *; [by rewrite Ho|done].
Qed.

(** ** Versions of a transaction *)

Lemma event_index_lookup h n es z :
  event_index h n es = Some z → ∃ k e, es !! k = Some e ∧ e.1 = h ∧ z = Z.of_nat (n + k).
Proof.
  revert n. induction es as [|e es IH]; intros n Hz; simpl in Hz; [done|].
  destruct (hash_eqb e.1 h) eqn:He.
  - simplify_eq. apply hash_eqb_true in He. exists 0%nat, e. split_and!; [done|done|lia].
  - destruct (IH _ Hz) as (k & x & Hk & Hx & ->). exists (S k), x. split_and!; [done|done|lia].
Qed.

Lemma op_version_row orders h s seq epoch es :
  op_version orders h s = Some (seq, epoch, es) →
  ∃ o, o ∈ orders ∧ so_space o = s ∧ so_seq o = seq ∧
       mkEventOrderRow seq epoch es h s ∈ event_order_rows o.
Proof.
  unfold op_version. destruct (find _ orders) as [o|] eqn:Hf; simpl; [|done].
  destruct (event_index h 0 (so_events o)) as [n|] eqn:Hn; simpl; [|done]. intros [= <- <- <-].
  apply find_Some_elem in Hf as [Ho Hs]. rewrite bool_decide_eq_true in Hs. exists o. split_and!; try done.
  apply event_index_lookup in Hn as (k & e & Hk & <- & ->). unfold event_order_rows.
  apply list_elem_of_lookup. exists k. rewrite list_lookup_imap, Hk. simpl. by rewrite Hs.
Qed.

Lemma version_ops_ordered db orders h ops vops :
  (∀ o r, o ∈ orders → r ∈ event_order_rows o → r ∈ event_order db) →
  version_ops orders h ops = Ok vops → Forall (op_ordered db) vops.
Proof.
  intros Hrows Hv%try_map_Ok. induction Hv as [|op vop ops vops Hop _ IH]; constructor; [|done].
  apply bind_Ok in Hop as ([[seq epoch] es] & Hver & Hop). rewrite ok_or_Ok in Hver. simplify_eq.
  apply op_version_row in Hver as (o & Ho & Hs & Hseq & Hr). destruct op; simpl; [|done].
  eexists. split; [by eapply Hrows|done].
Qed.

Lemma open_epochs_rows db orders db' :
  open_epochs db orders = Ok db' →
  event_order db' = event_order db ++ flat_map event_order_rows orders.
Proof.
  intros Hp. apply bind_Ok in Hp as (db1 & He%map_err_Ok & Hp). apply bind_Ok in He as (v & _ & He).
  apply bind_Ok in Hp as (db2 & Ho%map_err_Ok & Hp). apply bind_Ok in Ho as (u & _ & Ho).
  apply map_err_Ok in Hp. apply bind_Ok in Hp as (t & [-> _]%insert_many_Ok & Hp). by simplify_eq.
Qed.

(** The invariant along the events, given that the epochs are open. *)
Lemma process_events_kv_inv enc nonce now orders evs db cids db' :
  kv_store_inv db →
  (∀ o r, o ∈ orders → r ∈ event_order_rows o → r ∈ event_order db) →
  process_events enc nonce now (version_ops orders) db evs = Ok (cids, db') → kv_store_inv db'.
Proof.
  revert db cids. induction evs as [|[h e] evs IH]; intros db cids Hinv Hrows Hs; simpl in Hs; [by simplify_eq|].
  apply bind_Ok in Hs as ([c1 db1] & He & Hs). apply bind_Ok in Hs as ([c2 db2] & Hs & Hr). simplify_eq.
  pose proof (process_event_grows _ _ _ _ _ _ _ _ _ He) as Hg.
  eapply IH; [|..|exact Hs].
  - destruct e; simpl in He.
    + apply bind_Ok in He as (vops & Hv & He). apply bind_Ok in He as ([] & He'%map_err_Ok & He). simplify_eq.
      eapply invocation_process_kv_inv; [done| |exact He']. by eapply version_ops_ordered.
    + apply bind_Ok in He as ([] & He'%map_err_Ok & He). simplify_eq.
      apply bind_Ok in He' as ([] & _ & He'). apply bind_Ok in He' as ([] & _ & He').
      apply delegation.save_Ok in He' as [_ [[_ [t ->]]|Hst]]; [by apply (kv_store_frame db)|].
      destruct (delegation.stored_rest _ _ _ _ Hst) as [t ->]. by apply (kv_store_frame db).
    + apply bind_Ok in He as ([] & He'%map_err_Ok & He). simplify_eq.
      apply revocation.process_Ok in He' as (_ & d & _ & _ & _ & _ & [[-> _]| ->]); [done|].
      by apply (kv_store_frame db).
  - intros o r Ho Hr. eapply elem_of_prefix; [by eapply Hrows|apply (grow_event_order _ _ Hg)].
Qed.

Lemma transact_kv_inv enc nonce now setup db events res db' :
  kv_store_inv db → transact enc nonce now setup db events = Ok (res, db') → kv_store_inv db'.
Proof.
  intros Hinv Ht. unfold transact in Ht.
  apply bind_Ok in Ht as (db1 & [t ->]%insert_new_spaces_set & Ht).
  assert (kv_store_inv (set_spaces t db)) as Hinv1 by (by apply (kv_store_frame db)).
  apply bind_Ok in Ht as ([m skipped] & _ & Ht). destruct m as [|x m].
  - apply bind_Ok in Ht as ([cids db2] & Hp & Ht). apply bind_Ok in Ht as (_ & _ & Ht). simplify_eq.
    assert (∀ evs db cids db', kv_store_inv db →
      process_events enc nonce now (λ _ _, Ok []) db evs = Ok (cids, db') → kv_store_inv db') as Hgen; [|by eapply Hgen].
    clear. intros evs. induction evs as [|[h e] evs IH]; intros db cids db' Hinv Hs; simpl in Hs; [by simplify_eq|].
    apply bind_Ok in Hs as ([c1 db1] & He & Hs). apply bind_Ok in Hs as ([c2 db2] & Hs & Hr). simplify_eq.
    eapply IH; [|exact Hs]. destruct e; simpl in He.
    + apply bind_Ok in He as ([] & He'%map_err_Ok & He). simplify_eq.
      by eapply invocation_process_kv_inv; [done| |exact He'].
    + apply (process_events_kv_inv enc nonce now [] [(h, EDelegation d bytes)] db (c1 ++ []) db1); [done| |].
      * intros o r Ho. by apply not_elem_of_nil in Ho.
      * simpl. by rewrite He.
    + apply (process_events_kv_inv enc nonce now [] [(h, ERevocation r bytes)] db (c1 ++ []) db1); [done| |].
      * intros o r' Ho. by apply not_elem_of_nil in Ho.
      * simpl. by rewrite He.
  - apply bind_Ok in Ht as (db2 & Ho & Ht). apply bind_Ok in Ht as ([cids db3] & Hp & Ht).
    apply bind_Ok in Ht as (_ & _ & Ht). simplify_eq.
    pose proof (open_epochs_rows _ _ _ Ho) as Hrows.
    eapply process_events_kv_inv; [| |exact Hp].
    + apply open_epochs_frame in Ho as (a & b & c & ->). apply (kv_store_frame (set_spaces t db)); try done.
      simpl in *. rewrite Hrows. set_solver.
    + intros o r Hin Hr. rewrite Hrows, elem_of_app. right.
      rewrite list_elem_of_In, in_flat_map. exists o. by rewrite <- !list_elem_of_In.
Qed.

Lemma reachable_kv_inv db : reachable db → kv_store_inv db.
Proof.
  induction 1 as [|? ? ? ? ? ? ? ? _ IH Ht|db subs dels _ IH].
  - split; intros ? Hn; by apply not_elem_of_nil in Hn.
  - by eapply transact_kv_inv.
  - by apply (kv_store_frame db).
Qed.

(** ** One invocation, seen through the key-value view *)

Lemma view_frame db db' s k :
  kv_writes db' = kv_writes db → kv_deletes db' = kv_deletes db →
  metadata_with_hash db' s k = metadata_with_hash db s k.
Proof.
  intros Hw Hd. unfold metadata_with_hash, get_kv_entity, invocation.key_writes, tombstoned. by rewrite Hw, Hd.
Qed.

Lemma next_seq_above db o : o ∈ event_order db → (ev_seq o < next_seq db (ev_space o))%Z.
Proof.
  unfold next_seq, max_seq. intros Ho.
  assert (∃ n, foldr (λ o' m, if bool_decide (ev_space o' = ev_space o)
                then Some (match m with Some n => Z.max (ev_seq o') n | None => ev_seq o' end) else m)
    None (event_order db) = Some n ∧ (ev_seq o ≤ n)%Z) as (n & -> & Hn); [|lia].
  induction (event_order db) as [|x l IH]; [by apply not_elem_of_nil in Ho|].
  apply elem_of_cons in Ho as [<-|Ho]; simpl.
  - rewrite bool_decide_eq_true_2 by done. eexists. split; [done|]. case_match; lia.
  - destruct (IH Ho) as (n & -> & Hn). case_bool_decide; eexists; (split; [done|lia]).
Qed.

(** The version an invocation's operations on a space get. *)
Definition space_version (db : Tables.Db) (orders : list SpaceOrder) (h : Hash) (s : SpaceId) : Z * Hash * Z :=
  default (next_seq db s, h, 0%Z) (op_version orders h s).

Lemma space_version_seq db m h s :
  (space_version db (order_space db <$> m) h s).1.1 = next_seq db s.
Proof.
  unfold space_version. destruct (op_version _ h s) as [[[seq epoch] es]|] eqn:Hv; [|done].
  apply op_version_row in Hv as (o & Ho & Hs & Hseq & _). simpl. subst seq.
  apply list_elem_of_fmap in Ho as ([s' l] & -> & _). simpl in *. by subst.
Qed.

Lemma version_ops_versioned db orders h ops vops :
  version_ops orders h ops = Ok vops → vops = versioned (space_version db orders h) <$> ops.
Proof.
  intros Hv%try_map_Ok. induction Hv as [|op vop ops vops Hop _ IH]; [done|]. rewrite fmap_cons, IH. f_equal.
  apply bind_Ok in Hop as ([[seq epoch] es] & Hver & Hop). rewrite ok_or_Ok in Hver. simplify_eq.
  unfold versioned, space_version. by rewrite Hver.
Qed.

Lemma cap_spaces_events db h i bytes ops :
  event_spaces db [(h, EInvocation i bytes ops)] = [] → cap_spaces (ii_capabilities i) = [].
Proof.
  unfold event_spaces. simpl. destruct (cap_spaces (ii_capabilities i)) as [|s l]; [done|].
  unfold add_events. simpl. intros Hn. exfalso.
  assert (∀ l m, m ≠ [] → fold_left (λ m s, add_event s (h, EInvocation i bytes ops) m) l m ≠ []) as Hgen.
  { clear. induction l as [|s l IH]; intros m Hm; simpl; [done|]. apply IH. destruct m as [|[? ?] ?]; simpl; [done|].
    by case_decide. }
  by eapply Hgen, Hn.
Qed.

Lemma transact_invocation_view enc nonce now setup db i bytes ops res db' :
  kv_store_inv db → Forall unversioned ops →
  (∀ op, op ∈ ops → op_space op ∈ cap_spaces (ii_capabilities i)) →
  transact enc nonce now setup db [EInvocation i bytes ops] = Ok (res, db') →
  ∀ s k, metadata_with_hash db' s k =
    if has_invocation db (hash bytes) then metadata_with_hash db s k
    else fold_left apply_operation ops (metadata_with_hash db) s k.
Proof.
  intros Hinv Hun Hsp Ht. unfold transact in Ht. cbn [fmap list_fmap] in Ht.
  change (event_hash (EInvocation i bytes ops)) with (hash bytes) in Ht.
  cbn [hosted_spaces flat_map snd app dedup insert_new_spaces] in Ht.
  rewrite bind_ret_l in Ht. apply bind_Ok in Ht as ([m skipped] & Hch & Ht).
  cbn [forallb is_delegation snd andb] in Hch. unfold choose_spaces in Hch.
  destruct (existsb _ _) in Hch; [done|]. injection Hch as <- <-.
  destruct (row_order _) as [|x m] eqn:Hm.
  - assert (ops = []) as ->.
    { destruct ops as [|op ops]; [done|]. specialize (Hsp op (list_elem_of_here _ _)).
      rewrite (cap_spaces_events db (hash bytes) i bytes (op :: ops)) in Hsp; [by apply not_elem_of_nil in Hsp|].
      pose proof (row_order_perm (event_spaces db [(hash bytes, EInvocation i bytes (op :: ops))])) as Hperm.
      rewrite Hm in Hperm. by apply Permutation_nil_l in Hperm. }
    apply bind_Ok in Ht as ([cids db2] & Hp & Ht). apply bind_Ok in Ht as (_ & _ & Ht). simplify_eq.
    simpl in Hp. apply bind_Ok in Hp as ([c1 db1] & He & Hp). apply bind_Ok in He as ([? ?] & He%map_err_Ok & Hr).
    simplify_eq/=. apply process_kv in He as [-> [[-> [t ->]]|(-> & db1' & db2 & Hw & Hd & _ & _ & _ & Hs & t & ->)]]; [done|].
    simpl in Hs. simplify_eq. intros s k. by apply view_frame.
  - rewrite <- Hm in Ht. clear Hm x m. set (m := row_order _) in Ht.
    apply bind_Ok in Ht as (db2 & Ho & Ht). apply bind_Ok in Ht as ([cids db3] & Hp & Ht).
    apply bind_Ok in Ht as (_ & _ & Ht). simplify_eq.
    simpl in Hp. apply bind_Ok in Hp as ([c1 db1] & He & Hp). apply bind_Ok in He as (vops & Hv & He).
    apply bind_Ok in He as ([? ?] & He%map_err_Ok & Hr). simplify_eq/=.
    rewrite (version_ops_versioned db _ _ _ _ Hv) in He. apply open_epochs_frame in Ho as (a & b & c & ->).
    apply process_kv in He as [-> [[Hh [t ->]]|(Hh & db1' & db2 & Hw & Hd & _ & _ & _ & Hs & t & ->)]].
    { change (has_invocation db (hash bytes) = true) in Hh. by rewrite Hh. }
    change (has_invocation db (hash bytes) = false) in Hh. rewrite Hh.
    apply save_operations_refines in Hs as [_ Hview]; [| |done].
    + intros s k. rewrite (view_frame db2 _ s k) by done. rewrite Hview.
      apply apply_operations_ext. intros. by apply view_frame.
    + split; rewrite ?Hw, ?Hd; simpl.
      * intros w Hin Heq. pose proof (write_invoked _ Hinv w Hin) as Hi. congruence.
      * intros w Hin _. rewrite space_version_seq. destruct (write_ordered _ Hinv w Hin) as (o & Ho & <- & Hle).
        pose proof (next_seq_above db o Ho). lia.
      * apply (tombstone_names _ Hinv).
Qed.

End Store.
