(* ===== verification/Query.v ===== *)
(** * Reading delegations back: tinycloud-core/src/db.rs 1932-2057 and 2332-2540,
      types/capabilities_read_params.rs

    The [tinycloud.capabilities/read] queries: all current delegations of a
    space, a filtered list, the chain of one delegation; and the resolution of a
    session key to the wallet that authorized it.  The two loops that follow
    links take fuel. *)
From S2P Require Import Prelude Str Chars Json Identity Resource Registry SqlCaveat ColumnEncryption Tables Chain Tokens Events Demo Delegation Invocation Revocation Kv Transact Authority.

(** [TinyCloudDelegation::from_bytes] is the codecs' (DAG-CBOR, then JWT). *)
Class TokenCodec := delegation_from_bytes : string → option TinyCloudDelegation.

(** ** [CapabilitiesReadParams] as serde reads it *)

Record ListFilters := mkListFilters {
  lf_direction : option string;
  lf_path : option string;
  lf_actions : option (list string);
}.

Inductive CapabilitiesReadParams :=
| ReadList (filters : option ListFilters)
| ReadChain (delegation_cid : string).

(** An [Option<T>] field: absent and null are [None]; [None] here is a failure. *)
Definition de_option {A} (f : json → option A) (v : option json) : option (option A) :=
  match v with
  | None | Some JNull => Some None
  | Some v => Some <$> f v
  end.

Definition de_strings (v : json) : option (list string) :=
  l ← as_array v; mapM as_str l.

Definition de_filters (v : json) : option ListFilters :=
  match v with
  | JObject m =>
      d ← de_option as_str (obj_get "direction" m);
      p ← de_option as_str (obj_get "path" m);
      a ← de_option de_strings (obj_get "actions" m);
      Some (mkListFilters d p a)
  | JArray [d; p; a] =>
      d ← de_option as_str (Some d);
      p ← de_option as_str (Some p);
      a ← de_option de_strings (Some a);
      Some (mkListFilters d p a)
  | _ => None
  end.

Definition de_read_params (v : json) : option CapabilitiesReadParams :=
  match v with
  | JObject m =>
      tag ← obj_get "type" m ≫= as_str;
      if decide (tag = "list") then ReadList <$> de_option de_filters (obj_get "filters" m)
      else if decide (tag = "chain") then ReadChain <$> (obj_get "delegation_cid" m ≫= as_str)
      else None
  | JArray [JString "list"; f] => ReadList <$> de_option de_filters (Some f)
  | JArray [JString "chain"; c] => ReadChain <$> as_str c
  | _ => None
  end.

(** The first fact with a readable [capabilitiesReadParams]. *)
Fixpoint read_params_of_facts (facts : list json) : option CapabilitiesReadParams :=
  match facts with
  | [] => None
  | f :: facts =>
      match (as_object f ≫= obj_get "capabilitiesReadParams") ≫= de_read_params with
      | Some p => Some p
      | None => read_params_of_facts facts
      end
  end.

Section Query.
Context `{Keccak256} `{CidLib} `{RowOrder} `{TokenCodec}.

(** ** Stored delegations as [DelegationInfo] *)

Definition mode_from_facts (facts : option Facts) : DelegationMode :=
  match f ← facts; v ← obj_get FACT_KEY f; as_str v with
  | Some s => if decide (s = "terminal") then Terminal else Attenuable
  | None => Attenuable
  end.

(** [expiry > now && not_before <= now]. *)
Definition current (now : Z) (d : DelegationRow) : bool :=
  match d_expiry d with Some e => (now <? e)%Z | None => true end &&
  match d_not_before d with Some n => (n <=? now)%Z | None => true end.

Definition abilities_of (db : Tables.Db) (h : Hash) : list AbilityRow :=
  select (λ a, hash_eqb (a_delegation a) h) (abilities db).
Definition parents_of (db : Tables.Db) (h : Hash) : list ParentRow :=
  select (λ l, hash_eqb (p_child l) h) (parent_delegations db).

Definition in_space (s : SpaceId) (l : list AbilityRow) : bool :=
  existsb (λ a, bool_decide (resource_space (a_resource a) = Some s)) l.

Definition info_of_row (encryption : option ColumnEncryption) (d : DelegationRow)
    (ab : list AbilityRow) (ps : list ParentRow) : result TxError DelegationInfo :=
  serialization ← map_err TxEncryption (maybe_decrypt encryption (d_serialization d));
  token ← ok_or (delegation_from_bytes serialization) TxEncoding;
  Ok {| di_capabilities := (λ a, mkCapability (a_resource a) (a_ability a) (a_caveats a)) <$> ab;
        di_delegator := d_delegator d; di_delegate := d_delegatee d;
        di_parents := (λ p, to_cid (p_parent p) 85) <$> ps;
        di_delegation := token; di_expiry := d_expiry d; di_not_before := d_not_before d;
        di_issued_at := d_issued_at d; di_delegation_mode := mode_from_facts (d_facts d) |}.

(** The rows without a revocation. *)
Definition unrevoked (db : Tables.Db) : list DelegationRow :=
  select (λ d, negb (is_revoked db (d_id d))) (delegations db).

Definition get_valid_delegations (db : Tables.Db) (s : SpaceId) (encryption : option ColumnEncryption) (now : Z)
    : result TxError (list (Hash * DelegationInfo)) :=
  let rows := List.filter (λ d, current now d && in_space s (abilities_of db (d_id d))) (unrevoked db) in
  try_map (λ d, i ← info_of_row encryption d (abilities_of db (d_id d)) (parents_of db (d_id d));
                Ok (d_id d, i)) rows.

(** ** The wallet behind a session key *)

Fixpoint resolve_loop (fuel : nat) (db : Tables.Db) (visited : list string) (did : string) : option (option string) :=
  match fuel with
  | O => None
  | S fuel =>
      if mem did visited then Some None
      else
        match select_one (λ d, bool_decide (d_delegatee d = did)) (delegations db) with
        | None => Some None
        | Some del =>
            let next := match canonicalize_did (d_delegator del) with Ok d => d | Err _ => d_delegator del end in
            if starts_with "did:pkh:" (d_delegator del) then Some (Some next)
            else resolve_loop fuel db (did :: visited) next
        end
  end.

(** Each round visits another delegator. *)
Definition resolve_fuel (db : Tables.Db) : nat := length (delegations db) + 2.

Definition resolve_pkh_did (db : Tables.Db) (did : string) : string :=
  let canonical := match canonicalize_did did with Ok d => d | Err _ => did end in
  if starts_with "did:pkh:" canonical then canonical
  else match resolve_loop (resolve_fuel db) db [] canonical with
       | Some (Some d) => d
       | _ => canonical
       end.

(** ** Filtered lists *)

Definition direction_ok (pkh_did : string) (d : DelegationRow) (direction : option string) : bool :=
  match direction with
  | Some "created" => did_principal_matches (d_delegator d) pkh_did
  | Some "received" => did_principal_matches (d_delegatee d) pkh_did
  | _ => true
  end.

Definition path_ok (ab : list AbilityRow) (prefix : option string) : bool :=
  match prefix with
  | None => true
  | Some prefix =>
      existsb (λ a, match tinycloud_resource (a_resource a) ≫= path with
                    | Some p => starts_with prefix p
                    | None => false
                    end) ab
  end.

Definition actions_ok (ab : list AbilityRow) (actions : option (list string)) : bool :=
  match actions with
  | None => true
  | Some l => existsb (λ a, mem (a_ability a) l) ab
  end.

Definition get_filtered_delegations (db : Tables.Db) (s : SpaceId) (invoker : string) (filters : option ListFilters)
    (encryption : option ColumnEncryption) (now : Z) : result TxError (list (Hash * DelegationInfo)) :=
  let pkh_did := resolve_pkh_did db invoker in
  let rows := List.filter (λ d,
      let ab := abilities_of db (d_id d) in
      current now d && in_space s ab && direction_ok pkh_did d (filters ≫= lf_direction) &&
      path_ok ab (filters ≫= lf_path) && actions_ok ab (filters ≫= lf_actions)) (unrevoked db) in
  try_map (λ d, i ← info_of_row encryption d (abilities_of db (d_id d)) (parents_of db (d_id d));
                Ok (d_id d, i)) rows.

(** ** The chain of a delegation: the first parent is followed *)

Fixpoint chain_loop (fuel : nat) (db : Tables.Db) (s : SpaceId) (encryption : option ColumnEncryption) (now : Z)
    (h : Hash) : option (result TxError (list DelegationInfo)) :=
  match fuel with
  | O => None
  | S fuel =>
      match select_one (λ d, hash_eqb (d_id d) h && negb (is_revoked db (d_id d))) (delegations db) with
      | None => Some (Ok [])
      | Some del =>
          let ab := abilities_of db h in
          if negb (current now del) then Some (Ok [])
          else if negb (in_space s ab) then Some (Ok [])
          else
            let ps := parents_of db h in
            match info_of_row encryption del ab ps with
            | Err e => Some (Err e)
            | Ok info =>
                match ps with
                | [] => Some (Ok [info])
                | first :: _ =>
                    match chain_loop fuel db s encryption now (p_parent first) with
                    | Some (Ok rest) => Some (Ok (info :: rest))
                    | r => r
                    end
                end
            end
      end
  end.

(** [None] when the followed parents do not end within the stored delegations. *)
Definition get_delegation_chain (db : Tables.Db) (s : SpaceId) (delegation_cid : string)
    (encryption : option ColumnEncryption) (now : Z) : option (result TxError (list DelegationInfo)) :=
  match cid_parse delegation_cid with
  | None => Some (Err (InvalidCid delegation_cid))
  | Some cid => chain_loop (S (length (delegations db))) db s encryption now (hash_of_cid cid)
  end.

(** ** What the queries return *)

Lemma NoDup_subset_length {A} (l m : list A) :
  NoDup l → l ⊆ m → (length l ≤ length m)%nat.
Proof. intros Hnd Hsub. apply submseteq_length, NoDup_submseteq; [done|]. intros y. apply Hsub. Qed.

(** The canonical delegators: what the loop can move to. *)
Definition next_dids (db : Tables.Db) : list string :=
  (λ d, match canonicalize_did (d_delegator d) with Ok x => x | Err _ => d_delegator d end) <$> delegations db.

Lemma resolve_loop_total fuel db start visited did :
  NoDup visited → visited ⊆ start :: next_dids db → did ∈ start :: next_dids db →
  (length (delegations db) + 1 < fuel + length visited)%nat →
  is_Some (resolve_loop fuel db visited did).
Proof.
  revert visited did. induction fuel as [|fuel IH]; intros visited did Hnd Hsub Hdid Hf; simpl.
  { pose proof (NoDup_subset_length visited (start :: next_dids db) Hnd Hsub) as Hlen.
    simpl in Hlen. unfold next_dids in Hlen. rewrite length_fmap in Hlen. lia. }
  destruct (mem did visited) eqn:Hm; [by eexists|].
  destruct (select_one _ _) as [del|] eqn:Hs; [|by eexists].
  destruct (starts_with _ _); [by eexists|]. apply IH.
  - constructor; [|done]. rewrite <- mem_true. by rewrite Hm.
  - intros x [->|Hx]%elem_of_cons; auto.
  - right. apply list_elem_of_fmap. exists del. split; [done|]. by apply select_one_Some in Hs as [? _].
  - simpl. lia.
Qed.

(** The walk over first parents, where parents have a smaller rank. *)
Lemma chain_loop_total fuel db s enc now (rank : Hash → nat) visited h :
  (∀ c p, parent_of db c p → (rank p < rank c)%nat) →
  NoDup visited → visited ⊆ d_id <$> delegations db → (∀ v, v ∈ visited → (rank h < rank v)%nat) →
  (length (delegations db) < fuel + length visited)%nat →
  is_Some (chain_loop fuel db s enc now h).
Proof.
  intros Hrank. revert visited h. induction fuel as [|fuel IH]; intros visited h Hnd Hsub Hv Hf; simpl.
  { pose proof (NoDup_subset_length visited _ Hnd Hsub) as Hlen. rewrite length_fmap in Hlen. lia. }
  destruct (select_one _ _) as [del|] eqn:Hs; [|by eexists].
  apply select_one_Some in Hs as [Hdel [Hid%hash_eqb_true _]%andb_true_iff].
  destruct (negb (current now del)); [by eexists|]. destruct (negb (in_space _ _)); [by eexists|].
  destruct (info_of_row _ _ _ _); [|by eexists].
  destruct (parents_of db h) as [|first rest] eqn:Hps; [by eexists|].
  assert (parent_of db h (p_parent first)) as Hpar.
  { assert (first ∈ parents_of db h) as Hin by (rewrite Hps; by left).
    apply elem_of_select in Hin as [Hin Hc%hash_eqb_true]. unfold parent_of. rewrite <- Hc. by destruct first. }
  destruct (IH (h :: visited) (p_parent first)) as [[] ->]; try by eexists.
  - constructor; [|done]. intros Hin%Hv. lia.
  - intros x [->|Hx]%elem_of_cons; [|by apply Hsub]. apply list_elem_of_fmap. by exists del.
  - apply Hrank in Hpar. intros v [->|Hin%Hv]%elem_of_cons; lia.
  - simpl. lia.
Qed.

End Query.

(** ** Claims *)

(** What a session list shows: every entry of [capabilities/read] for a space
    is a stored delegation under its id, not revoked, within its window now, with
    an ability on that space, and its capabilities are exactly its stored
    abilities; and no such delegation is left out. *)
Theorem valid_delegations_exact `{CidLib} `{RowOrder} `{TokenCodec} (db : Tables.Db) (s : SpaceId)
    (enc : option ColumnEncryption) (now : Z) (l : list (Hash * DelegationInfo)) :
  get_valid_delegations db s enc now = Ok l →
  (∀ h info, (h, info) ∈ l → ∃ d, d ∈ delegations db ∧ d_id d = h ∧ ¬ revoked db h ∧
     current now d = true ∧ di_delegator info = d_delegator d ∧ di_delegate info = d_delegatee d ∧
     (∀ c, c ∈ di_capabilities info ↔
        ∃ a, a ∈ abilities db ∧ a_delegation a = h ∧ c = mkCapability (a_resource a) (a_ability a) (a_caveats a)) ∧
     ∃ c, c ∈ di_capabilities info ∧ resource_space (cap_resource c) = Some s) ∧
  (∀ d a, d ∈ delegations db → ¬ revoked db (d_id d) → current now d = true →
     a ∈ abilities db → a_delegation a = d_id d → resource_space (a_resource a) = Some s →
     d_id d ∈ l.*1).
Proof.
  unfold get_valid_delegations. intros Hl%try_map_Ok. set (rows := List.filter _ _) in Hl.
  assert (∀ d, d ∈ rows ↔ d ∈ delegations db ∧ ¬ revoked db (d_id d) ∧ current now d = true ∧
     ∃ a, a ∈ abilities db ∧ a_delegation a = d_id d ∧ resource_space (a_resource a) = Some s) as Hrows.
  { intros d. unfold rows, unrevoked. rewrite delegation.elem_of_lfilter, elem_of_select, andb_true_iff,
      negb_true_iff, is_revoked_false. unfold in_space, abilities_of. rewrite existsb_exists.
    setoid_rewrite bool_decide_eq_true. setoid_rewrite <- list_elem_of_In.
    setoid_rewrite elem_of_select. setoid_rewrite hash_eqb_true. naive_solver. }
  split.
  - intros h info Hin. apply list_elem_of_lookup in Hin as [k Hk].
    destruct (Forall2_lookup_r _ _ _ _ _ Hl Hk) as (d & Hd & Hi).
    apply bind_Ok in Hi as (i & Hi & He). simplify_eq. apply list_elem_of_lookup_2 in Hd.
    apply Hrows in Hd as (Hd & Hrev & Hcur & a & Ha & Had & Hsp).
    apply bind_Ok in Hi as (ser & _ & Hi). apply bind_Ok in Hi as (tok & _ & Hi). simplify_eq. cbn.
    assert (∀ c, c ∈ ((λ a, mkCapability (a_resource a) (a_ability a) (a_caveats a)) <$> abilities_of db (d_id d)) ↔
        ∃ a, a ∈ abilities db ∧ a_delegation a = d_id d ∧ c = mkCapability (a_resource a) (a_ability a) (a_caveats a)) as Hc.
    { intros c. rewrite list_elem_of_fmap. unfold abilities_of. setoid_rewrite elem_of_select.
      setoid_rewrite hash_eqb_true. naive_solver. }
    exists d. split_and!; try done. eexists. split; [apply Hc; by exists a|done].
  - intros d a Hd Hrev Hcur Ha Had Hsp. assert (d ∈ rows) as Hin by (apply Hrows; eauto 10).
    apply list_elem_of_lookup in Hin as [k Hk].
    destruct (Forall2_lookup_l _ _ _ _ _ Hl Hk) as ([h info] & Hlk & Hi).
    apply bind_Ok in Hi as (i & _ & He). simplify_eq. apply list_elem_of_fmap.
    exists (d_id d, info). split; [done|]. by eapply list_elem_of_lookup_2.
Qed.

(** Resolving a session key terminates: for every store and every DID the loop
    over delegators ends, delegation cycles included. *)
Theorem resolve_pkh_did_terminates `{Keccak256} `{RowOrder} (db : Tables.Db) (did : string) :
  is_Some (resolve_loop (resolve_fuel db) db [] did).
Proof.
  apply (resolve_loop_total _ db did); [constructor|set_solver|by left|]. unfold resolve_fuel. simpl. lia.
Qed.

(** Reading a delegation's chain terminates when the parent links have no
    cycle (they cite parents by the hash of their bytes): the walk over first
    parents, bounded by the number of stored delegations, always ends with a
    chain or a decoding error. *)
Theorem delegation_chain_terminates `{CidLib} `{RowOrder} `{TokenCodec} (db : Tables.Db) (s : SpaceId)
    (cid : string) (enc : option ColumnEncryption) (now : Z) (rank : Hash → nat) :
  (∀ c p, parent_of db c p → (rank p < rank c)%nat) →
  is_Some (get_delegation_chain db s cid enc now).
Proof.
  intros Hrank. unfold get_delegation_chain. destruct (cid_parse cid) as [c|]; [|by eexists].
  apply (chain_loop_total _ _ _ _ _ rank []); [done|constructor|set_solver| |simpl; lia].
  intros v Hv. by apply not_elem_of_nil in Hv.
Qed.

(** ** Witnesses *)

#[local] Existing Instances demo_keccak demo_blake demo_cids demo_order demo_tokens.
Definition demo_codec : TokenCodec := λ bytes, Some (DUcan (demo_ucan alice bob [] bytes)).
#[local] Existing Instance demo_codec.

Definition demo_sessions : list (Hash * DelegationInfo) :=
  match get_valid_delegations demo_store demo_space None 50 with Ok l => l | Err _ => [] end.

Lemma valid_delegations_exact_witness : hash "d2" ∈ demo_sessions.*1.
Proof.
  destruct (valid_delegations_exact demo_store demo_space None 50 demo_sessions) as [_ Hall]; [by vm_compute|].
  apply (Hall (delegation.delegation_row demo_grant2 "d2" None "")
    (mkAbilityRow (demo_kv (Some "docs/a")) "tinycloud.kv/get" (hash "d2") [])).
  - apply mem_true. by vm_compute.
  - apply is_revoked_false. by vm_compute.
  - by vm_compute.
  - right. right. by left.
  - done.
  - done.
Defined.

Lemma delegation_chain_terminates_witness : is_Some (get_delegation_chain demo_store demo_space "d2" None 50).
Proof.
  apply (delegation_chain_terminates demo_store demo_space "d2" None 50
    (λ h, if hash_eqb h (hash "d2") then 1 else 0)%nat).
  intros c p Hp. assert (parent_delegations demo_store = [mkParentRow (hash "d1") (hash "d2")]) as Hl
    by (vm_compute; reflexivity).
  unfold parent_of in Hp. rewrite Hl in Hp. apply list_elem_of_singleton in Hp. injection Hp as -> ->.
  vm_compute. lia.
Defined.
