(* ===== verification/AccountQuery.v ===== *)
(** * Account-wide delegation queries: tinycloud-core/src/db.rs 261-423 and 2059-2330,
      types/delegation_query.rs, and the route of routes/mod.rs 356-394

    A wallet, or a session key it delegated to, lists the delegations its account
    granted or received, with their state of life, page by page.  The model has the
    derivation of the account from the invocation, the search for the account's
    session keys, the loading of the ancestors level by level, the state of each
    delegation, and the pages.  [find_with_related] under a [limit] is the class
    [LimitedJoin]; Base64 of the cursor is [CursorCodec]. *)
From S2P Require Import Prelude Str Chars Json Identity Resource Registry SqlCaveat ColumnEncryption Tables Chain Tokens Events Demo Delegation Invocation Revocation Kv Transact Authority Query.
From Stdlib Require Import Sorting.Permutation Sorting.Sorted.

(** ** The query (types/delegation_query.rs) *)

Inductive DelegationQueryDirection := Granted | Received | All.
Inductive DelegationQueryStatus := QActive | QPending | QExpired | QRevoked | QAncestorRevoked.

Record DelegationQuery := mkDelegationQuery {
  q_direction : DelegationQueryDirection;
  q_status : option DelegationQueryStatus;
  q_space : option string;
  q_limit : option N;
  q_cursor : option string;
}.

(** *** As serde reads it *)

(** A unit variant: its name, or an object with the name and null. *)
Definition de_variant (v : json) : option string :=
  match v with JString s => Some s | JObject [(s, JNull)] => Some s | _ => None end.

Definition de_direction (v : json) : option DelegationQueryDirection :=
  s ← de_variant v;
  if decide (s = "granted") then Some Granted else if decide (s = "received") then Some Received
  else if decide (s = "all") then Some All else None.

Definition de_status (v : json) : option DelegationQueryStatus :=
  s ← de_variant v;
  if decide (s = "active") then Some QActive else if decide (s = "pending") then Some QPending
  else if decide (s = "expired") then Some QExpired else if decide (s = "revoked") then Some QRevoked
  else if decide (s = "ancestor_revoked") then Some QAncestorRevoked else None.

Definition de_u16 (v : json) : option N :=
  match v with JNumber (NInt z) => if bool_decide (0 ≤ z < 65536)%Z then Some (Z.to_N z) else None | _ => None end.

Definition QUERY_FIELDS : list string := ["direction"; "status"; "space"; "limit"; "cursor"].

Definition de_query (v : json) : option DelegationQuery :=
  let read direction status space limit cursor :=
    d ← match direction with Some v => de_direction v | None => Some All end;
    st ← de_option de_status status;
    sp ← de_option as_str space;
    n ← de_option de_u16 limit;
    c ← de_option as_str cursor;
    Some (mkDelegationQuery d st sp n c) in
  match v with
  | JObject m =>
      if forallb (λ kv, mem kv.1 QUERY_FIELDS) m
      then read (obj_get "direction" m) (obj_get "status" m) (obj_get "space" m) (obj_get "limit" m) (obj_get "cursor" m)
      else None
  | JArray [d; st; sp; n; c] => read (Some d) (Some st) (Some sp) (Some n) (Some c)
  | _ => None
  end.

Inductive DelegationQueryValidationError := InvalidLimit | InvalidSpace | InvalidCursor.

(** URL-safe Base64 of a text, and back to valid UTF-8. *)
Class CursorCodec := {
  cursor_encode : string → string;
  cursor_decode : string → option string;
}.
Class CursorCodecLaws `{CursorCodec} := cursor_roundtrip s : cursor_decode (cursor_encode s) = Some s.

Section Cursor.
Context `{CursorCodec}.

Definition decoded_cursor (q : DelegationQuery) : result DelegationQueryValidationError (option string) :=
  match q_cursor q with
  | None => Ok None
  | Some c => Some <$> ok_or (cid ← cursor_decode c; if is_empty cid then None else Some cid) InvalidCursor
  end.

Definition encode_cursor (cid : string) : string := cursor_encode cid.

Definition validate_query (q : DelegationQuery) : result DelegationQueryValidationError unit :=
  _ ← ensure (match q_limit q with Some n => (1 <=? n)%N && (n <=? 100)%N | None => true end) InvalidLimit;
  _ ← ensure (match q_space q with Some s => negb (is_empty (trim s)) | None => true end) InvalidSpace;
  _ ← decoded_cursor q;
  Ok tt.

End Cursor.

Record DelegationResource := mkDelegationResource {
  dr_resource : string;
  dr_actions : list string;
  dr_caveats : list (list (string * json));
}.

Record AccountDelegationRecord := mkAccountDelegationRecord {
  ar_cid : string;
  ar_direction : string;
  ar_delegator_did : string;
  ar_delegate_did : string;
  ar_resources : list DelegationResource;
  ar_parents : list string;
  ar_issued_at : option Z;
  ar_not_before : option Z;
  ar_expires_at : option Z;
  ar_status : string;
  ar_revoked_at : option Z;
  ar_revoked_by : option string;
  ar_revoked_ancestor_cid : option string;
}.

Record DelegationQueryPage := mkDelegationQueryPage {
  pg_items : list AccountDelegationRecord;
  pg_next_cursor : option string;
}.

(** [DbErr::Custom] carries a text. *)
Inductive AccountDelegationQueryError := Unauthorized | AccountDb (text : string).

(** ** The account of an invocation (db.rs) *)

(** The resource of the list capability: the delegation service, no path. *)
Definition lists_delegations (r : ResourceId) : bool :=
  bool_decide (service r = "delegation") && match path r with Some p => is_empty p | None => true end &&
  bool_decide (query r = None) && bool_decide (fragment r = None).

Definition LIST_ABILITY : string := "tinycloud.delegation/list".

Definition MAX_ACCOUNT_SESSION_NODES : nat := 256.
Definition MAX_ACCOUNT_SESSION_EDGES_PER_LEVEL : nat := 1025.
Definition MAX_ACCOUNT_ANCESTOR_NODES : nat := 4096.
Arguments MAX_ACCOUNT_SESSION_NODES : simpl never.
Arguments MAX_ACCOUNT_SESSION_EDGES_PER_LEVEL : simpl never.
Arguments MAX_ACCOUNT_ANCESTOR_NODES : simpl never.

(** Delegations with their abilities, under a limit: what comes back are some of the
    delegations, each with some of its abilities. *)
Class LimitedJoin := {
  limited_join : nat → list (DelegationRow * list AbilityRow) → list (DelegationRow * list AbilityRow);
  limited_join_sound n l d ab : (d, ab) ∈ limited_join n l → ∃ ab', (d, ab') ∈ l ∧ ab ⊆ ab';
}.

Section Account.
Context `{Keccak256} `{CidLib} `{RowOrder} `{LimitedJoin}.

Definition account_query_principal (db : Tables.Db) (i : InvocationInfo) : option string :=
  match ii_capabilities i with
  | [c] =>
      if negb (bool_decide (cap_ability c = LIST_ABILITY)) then None
      else
        match cap_resource c with
        | TinyCloud r =>
            if negb (lists_delegations r) then None
            else
              let did := base_did (space r) in
              let principal := match canonicalize_did did with Ok d => d | Err _ => did end in
              if negb (starts_with "did:pkh:" principal) then None
              else
                match ii_parents i with
                | [] => if did_principal_matches principal (ii_invoker i) then Some principal else None
                | [proof] =>
                    match ancestor_chain_ids db (hash_of_cid proof) with
                    | Ok ids =>
                        if existsb (λ d, did_principal_matches (d_delegator d) principal)
                             (select (λ d, mem (d_id d) ids) (delegations db))
                        then Some principal else None
                    | Err _ => None
                    end
                | _ => None
                end
        | _ => None
        end
  | _ => None
  end.

(** *** Session keys *)

Definition controls_account (principal : string) (ab : list AbilityRow) : bool :=
  existsb (λ a, bool_decide (a_ability a = LIST_ABILITY) &&
                match tinycloud_resource (a_resource a) with
                | Some r => lists_delegations r && did_principal_matches (base_did (space r)) principal
                | None => false
                end) ab.

(** The loop over the rows of a level: the account's DIDs and the new ones. *)
Fixpoint session_rows (principal : string) (dids next : list string) (rows : list (DelegationRow * list AbilityRow))
    : result AccountDelegationQueryError (list string * list string) :=
  match rows with
  | [] => Ok (dids, next)
  | (d, ab) :: rows =>
      if controls_account principal ab && starts_with "did:key:" (d_delegatee d) && negb (mem (d_delegatee d) dids)
      then
        let dids := d_delegatee d :: dids in
        _ ← ensure (length dids <=? MAX_ACCOUNT_SESSION_NODES)%nat (AccountDb "account-session-graph-node-limit-exceeded");
        session_rows principal dids (d_delegatee d :: next) rows
      else session_rows principal dids next rows
  end.

Definition session_level (db : Tables.Db) (frontier : list string) : list (DelegationRow * list AbilityRow) :=
  limited_join MAX_ACCOUNT_SESSION_EDGES_PER_LEVEL
    ((λ d, (d, abilities_of db (d_id d))) <$> select (λ d, mem (d_delegator d) frontier) (delegations db)).

(** At most [levels] levels. *)
Fixpoint session_loop (levels : nat) (db : Tables.Db) (principal : string) (dids frontier : list string)
    : result AccountDelegationQueryError (list string) :=
  match levels with
  | O => Err (AccountDb "account-session-graph-depth-limit-exceeded")
  | S levels =>
      match frontier with
      | [] => Ok dids
      | _ =>
          let rows := session_level db frontier in
          _ ← ensure (negb (length rows =? MAX_ACCOUNT_SESSION_EDGES_PER_LEVEL)%nat) (AccountDb "account-session-graph-level-limit-exceeded");
          '(dids, next) ← session_rows principal dids [] rows;
          session_loop levels db principal dids (dedup (sort_by bytes_leb next))
      end
  end.

Definition account_session_dids (db : Tables.Db) (principal : string) : result AccountDelegationQueryError (list string) :=
  session_loop MAX_CHAIN_TRAVERSAL_NODES db principal [principal] [principal].

(** *** Ancestors *)

Record AccountAncestorState := mkAccountAncestorState {
  as_parents : gmap Hash (list Hash);
  as_delegations : gmap Hash DelegationRow;
  as_revocations : gmap Hash (list RevocationRow);
}.

(** [entry(k).or_default().push(v)]. *)
Definition push_entry {A} (k : Hash) (v : A) (m : gmap Hash (list A)) : gmap Hash (list A) :=
  <[k := default [] (m !! k) ++ [v]]> m.

(** The loop over the links of a level. *)
Fixpoint load_links (all next : list Hash) (parents : gmap Hash (list Hash)) (links : list ParentRow)
    : result AccountDelegationQueryError (list Hash * list Hash * gmap Hash (list Hash)) :=
  match links with
  | [] => Ok (all, next, parents)
  | l :: links =>
      let parents := push_entry (p_child l) (p_parent l) parents in
      if mem (p_parent l) all then load_links all next parents links
      else
        let all := p_parent l :: all in
        _ ← ensure (length all <=? MAX_ACCOUNT_ANCESTOR_NODES)%nat (AccountDb "account-ancestor-graph-node-limit-exceeded");
        load_links all (p_parent l :: next) parents links
  end.

Fixpoint load_loop (levels : nat) (db : Tables.Db) (all frontier : list Hash) (parents : gmap Hash (list Hash))
    : result AccountDelegationQueryError (list Hash * gmap Hash (list Hash)) :=
  match frontier with
  | [] => Ok (all, parents)
  | _ =>
      match levels with
      | O => Err (AccountDb "account-ancestor-graph-depth-limit-exceeded")
      | S levels =>
          '(all, next, parents) ← load_links all [] parents (select (λ l, mem (p_child l) frontier) (parent_delegations db));
          load_loop levels db all (dedup (sort_by hash_leb next)) parents
      end
  end.

(** The set of the roots: each counts once. *)
Definition distinct (l : list Hash) : list Hash := remove_dups l.

Definition load_account_ancestor_state (db : Tables.Db) (roots : list Hash) : result AccountDelegationQueryError AccountAncestorState :=
  '(all, parents) ← load_loop MAX_CHAIN_TRAVERSAL_NODES db (distinct roots) roots ∅;
  let rows := select (λ d, mem (d_id d) all) (delegations db) in
  let revs := select (λ r, mem (r_revoked r) all) (revocations db) in
  Ok (mkAccountAncestorState ((λ l, dedup (sort_by hash_leb l)) <$> parents)
        (foldl (λ m d, <[d_id d := d]> m) ∅ rows)
        ((λ l, sort_by (λ a b, hash_leb (r_id a) (r_id b)) l) <$> foldl (λ m r, push_entry (r_revoked r) r m) ∅ revs)).

(** *** The state of a delegation *)

Record AccountLifecycle := mkAccountLifecycle {
  lc_status : string;
  lc_direct_revocation : option RevocationRow;
  lc_revoked_ancestor_cid : option string;
}.

Definition parents_in (st : AccountAncestorState) (h : Hash) : list Hash := default [] (as_parents st !! h).
Definition revoked_in (st : AccountAncestorState) (h : Hash) : bool :=
  match as_revocations st !! h with Some (_ :: _) => true | _ => false end.

(** One level: a revoked node ends the search; otherwise what was visited, what is
    effective and the parents of the level. *)
Fixpoint life_level (st : AccountAncestorState) (visited effective frontier level : list Hash)
    : Hash + (list Hash * list Hash * list Hash) :=
  match level with
  | [] => inr (visited, effective, frontier)
  | current :: level =>
      if mem current visited then life_level st visited effective frontier level
      else if revoked_in st current then inl current
      else life_level st (current :: visited) (effective ++ [current]) (frontier ++ parents_in st current) level
  end.

(** The [while] loop. *)
Fixpoint life_loop (fuel : nat) (st : AccountAncestorState) (visited effective frontier : list Hash)
    : option (result AccountDelegationQueryError (Hash + list Hash)) :=
  match frontier with
  | [] => Some (Ok (inr effective))
  | _ =>
      match fuel with
      | O => None
      | S fuel =>
          match life_level st visited effective [] frontier with
          | inl h => Some (Ok (inl h))
          | inr (visited, effective, frontier) =>
              if (MAX_ACCOUNT_ANCESTOR_NODES <? length visited)%nat
              then Some (Err (AccountDb "account-ancestor-graph-node-limit-exceeded"))
              else life_loop fuel st visited effective (dedup (sort_by hash_leb frontier))
          end
      end
  end.

(** Every level but the last visits a node that is a parent of another. *)
Definition life_fuel (st : AccountAncestorState) : nat := S (S (length (concat (map_to_list (as_parents st)).*2))).

Definition window_status (now : Z) (rows : list DelegationRow) : string :=
  if existsb (λ d, match d_expiry d with Some e => (e <=? now)%Z | None => false end) rows then "expired"
  else if existsb (λ d, match d_not_before d with Some n => (now <? n)%Z | None => false end) rows then "pending"
  else "active".

Definition lifecycle (st : AccountAncestorState) (root : Hash) (now : Z) : option (result AccountDelegationQueryError AccountLifecycle) :=
  match as_revocations st !! root with
  | Some (r :: _) => Some (Ok (mkAccountLifecycle "revoked" (Some r) None))
  | _ =>
      walked ← life_loop (life_fuel st) st [root] [root] (sort_by hash_leb (parents_in st root));
      Some (found ← walked;
            match found with
            | inl h => Ok (mkAccountLifecycle "ancestor_revoked" None (Some (cid_text h)))
            | inr effective =>
                let rows := omap (λ h, as_delegations st !! h) effective in
                _ ← ensure (length rows =? length effective)%nat (AccountDb "account-ancestor-delegation-missing");
                Ok (mkAccountLifecycle (window_status now rows) None None)
            end)
  end.

(** ** Records and pages (db.rs) *)

Context `{UriLib} `{HookFormats} `{CursorCodec}.

(** The entries of a resource, by ability and text of the caveats. *)
Definition entry_leb (a b : string * list (string * json)) : bool :=
  if decide (a.1 = b.1) then bytes_leb (json_text (JObject a.2)) (json_text (JObject b.2)) else bytes_leb a.1 b.1.

Definition grouped_resources (ab : list AbilityRow) : list DelegationResource :=
  (λ key,
     let entries := sort_by entry_leb
       ((λ a, (a_ability a, a_caveats a)) <$> List.filter (λ a, bool_decide (resource_display (a_resource a) = key)) ab) in
     mkDelegationResource key entries.*1 entries.*2)
  <$> dedup (sort_by bytes_leb ((λ a, resource_display (a_resource a)) <$> ab)).

Definition matches_space (ab : list AbilityRow) (filter : string) : bool :=
  existsb (λ a, match resource_parse (resource_display (a_resource a)) ≫= resource_space with
                | Some s => bool_decide (space_to_string s = filter) || bool_decide (name s = filter)
                | None => false
                end) ab.

Definition direction_matches (direction : DelegationQueryDirection) (granted : bool) : bool :=
  match direction with Granted => granted | Received => negb granted | All => true end.

Definition status_matches (status : option DelegationQueryStatus) (s : string) : bool :=
  match status with
  | None => true
  | Some QActive => bool_decide (s = "active")
  | Some QPending => bool_decide (s = "pending")
  | Some QExpired => bool_decide (s = "expired")
  | Some QRevoked => bool_decide (s = "revoked") || bool_decide (s = "ancestor_revoked")
  | Some QAncestorRevoked => bool_decide (s = "ancestor_revoked")
  end.

Definition account_record (st : AccountAncestorState) (granted : bool) (d : DelegationRow) (ab : list AbilityRow) (lc : AccountLifecycle)
    : AccountDelegationRecord :=
  mkAccountDelegationRecord (cid_text (d_id d)) (if granted then "granted" else "received") (d_delegator d) (d_delegatee d)
    (grouped_resources ab) (cid_text <$> dedup (sort_by hash_leb (parents_in st (d_id d)))) (d_issued_at d) (d_not_before d) (d_expiry d)
    (lc_status lc) (lc_direct_revocation lc ≫= r_revoked_at) (r_revoker <$> lc_direct_revocation lc) (lc_revoked_ancestor_cid lc).

(** One turn of the loop: no record, or one; the failure of a state ends the query.
    [None] does not happen ([lifecycle_total]). *)
Definition record_of (q : DelegationQuery) (dids : list string) (st : AccountAncestorState) (now : Z) (d : DelegationRow) (ab : list AbilityRow)
    : result AccountDelegationQueryError (option AccountDelegationRecord) :=
  let granted := mem (d_delegator d) dids in
  if negb (direction_matches (q_direction q) granted) then Ok None
  else if negb (match q_space q with Some f => matches_space ab f | None => true end) then Ok None
  else
    lc ← default (Err (AccountDb "")) (lifecycle st (d_id d) now);
    if status_matches (q_status q) (lc_status lc) then Ok (Some (account_record st granted d ab lc)) else Ok None.

(** [right.issued_at.cmp(&left.issued_at).then_with(left.cid.cmp(&right.cid))]. *)
Definition issued_ltb (a b : option Z) : bool :=
  match a, b with None, Some _ => true | Some x, Some y => (x <? y)%Z | _, None => false end.
Definition record_leb (a b : AccountDelegationRecord) : bool :=
  if decide (ar_issued_at a = ar_issued_at b) then bytes_leb (ar_cid a) (ar_cid b) else issued_ltb (ar_issued_at b) (ar_issued_at a).

(** The records of the account that match the query, in order. *)
Definition account_records (db : Tables.Db) (q : DelegationQuery) (principal : string) (now : Z)
    : result AccountDelegationQueryError (list AccountDelegationRecord) :=
  dids ← account_session_dids db principal;
  let rows := select (λ d, mem (d_delegator d) dids || mem (d_delegatee d) dids) (delegations db) in
  st ← load_account_ancestor_state db (d_id <$> rows);
  records ← try_map (λ d, record_of q dids st now d (abilities_of db (d_id d))) rows;
  Ok (sort_by record_leb (omap id records)).

(** [records.drain(..=position)]. *)
Fixpoint after_cursor (cursor : string) (records : list AccountDelegationRecord) : option (list AccountDelegationRecord) :=
  match records with
  | [] => None
  | r :: records => if decide (ar_cid r = cursor) then Some records else after_cursor cursor records
  end.

(** [records[limit - 1]] panics when the limit is 0, which the validation excludes. *)
Definition page_of (q : DelegationQuery) (records : list AccountDelegationRecord) : result AccountDelegationQueryError DelegationQueryPage :=
  cursor ← map_err (λ _, Unauthorized) (decoded_cursor q);
  records ← match cursor with Some c => ok_or (after_cursor c records) Unauthorized | None => Ok records end;
  let limit := N.to_nat (default 50%N (q_limit q)) in
  let next := if (limit <? length records)%nat then (λ r, encode_cursor (ar_cid r)) <$> (records !! (limit - 1)%nat) else None in
  Ok (mkDelegationQueryPage (take limit records) next).

End Account.

Section Route.
Context `{Keccak256} `{CidLib} `{RowOrder} `{LimitedJoin} `{TokenLib} `{UriLib} `{HookFormats} `{CursorCodec}.

(** [now] is the clock at the authorization, [now'] the one of the states. *)
Definition query_account_delegations (db : Tables.Db) (i : InvocationInfo) (q : DelegationQuery) (now now' : Z)
    : result AccountDelegationQueryError DelegationQueryPage :=
  _ ← map_err (λ _, Unauthorized) (invocation.verify_and_authorize db i now);
  principal ← ok_or (account_query_principal db i) Unauthorized;
  records ← account_records db q principal now';
  page_of q records.

Definition delegation_query (db : Tables.Db) (i : InvocationInfo) (request : json) (now now' : Z)
    : result N DelegationQueryPage :=
  q ← ok_or (de_query request) 400%N;
  _ ← map_err (λ _, 400%N) (validate_query q);
  map_err (λ e, match e with Unauthorized => 403%N | AccountDb _ => 503%N end) (query_account_delegations db i q now now').

End Route.

(** ** What the loading finds *)

Section Load.
Context `{RowOrder}.

Lemma elem_of_push_entry {A} (k k' : Hash) (v x : A) m :
  x ∈ default [] (push_entry k v m !! k') ↔ x ∈ default [] (m !! k') ∨ (k' = k ∧ x = v).
Proof.
  unfold push_entry. destruct (decide (k = k')) as [->|Hne].
  - rewrite lookup_insert_eq. cbn. rewrite elem_of_app, list_elem_of_singleton. naive_solver.
  - rewrite lookup_insert_ne by done. naive_solver.
Qed.

(** What is known while the levels are loaded. *)
Record load_inv (db : Tables.Db) (roots all frontier : list Hash) (parents : gmap Hash (list Hash)) : Prop := {
  li_sound : ∀ h p, p ∈ default [] (parents !! h) → parent_of db h p;
  li_done : ∀ h p, h ∈ all → h ∉ frontier → parent_of db h p → p ∈ default [] (parents !! h) ∧ p ∈ all;
  li_all : ∀ h, h ∈ all → ∃ r, r ∈ roots ∧ ancestor db r h;
  li_roots : roots ⊆ all;
}.

Lemma load_links_Ok all next parents links all' next' parents' :
  load_links all next parents links = Ok (all', next', parents') →
  (∀ h p, p ∈ default [] (parents' !! h) ↔ p ∈ default [] (parents !! h) ∨ mkParentRow p h ∈ links) ∧
  (∀ h, h ∈ all' ↔ h ∈ all ∨ ∃ l, l ∈ links ∧ p_parent l = h) ∧
  (∀ h, h ∈ next' ↔ h ∈ next ∨ (h ∈ all' ∧ h ∉ all)).
Proof.
  revert all next parents. induction links as [|l links IH]; intros all next parents; cbn [load_links].
  - intros [= -> -> ->]. split_and!; intros; set_solver.
  - assert (∀ h p, p ∈ default [] (push_entry (p_child l) (p_parent l) parents !! h) ↔
      p ∈ default [] (parents !! h) ∨ mkParentRow p h = l) as Hpush.
    { intros h p. rewrite elem_of_push_entry. destruct l as [p0 c0]. cbn. naive_solver. }
    destruct (mem (p_parent l) all) eqn:Hm.
    + apply mem_true in Hm. intros (Hp & Ha & Hn)%IH. split_and!.
      * intros h p. rewrite Hp, Hpush, elem_of_cons. tauto.
      * intros h. rewrite Ha. setoid_rewrite elem_of_cons. naive_solver.
      * done.
    + intros Hl. apply bind_Ok in Hl as ([] & _ & Hl). apply IH in Hl as (Hp & Ha & Hn).
      assert (p_parent l ∉ all) as Hnin by (rewrite <- mem_true; by rewrite Hm). split_and!.
      * intros h p. rewrite Hp, Hpush, elem_of_cons. tauto.
      * intros h. rewrite Ha. setoid_rewrite elem_of_cons. naive_solver.
      * intros h. rewrite Hn, Ha, !elem_of_cons. split; [|destruct (decide (h = p_parent l)); naive_solver]. naive_solver.
Qed.

Lemma load_loop_Ok levels db roots all frontier parents all' parents' :
  load_inv db roots all frontier parents → frontier ⊆ all → load_loop levels db all frontier parents = Ok (all', parents') →
  load_inv db roots all' [] parents'.
Proof.
  revert all frontier parents. induction levels as [|levels IH]; intros all frontier parents Hinv Hsub; cbn [load_loop].
  - destruct frontier; [|done]. by intros [= <- <-].
  - destruct frontier as [|h0 frontier0] eqn:Hf; [by intros [= <- <-]|]. rewrite <- Hf in *. clear Hf h0 frontier0.
    intros Hl. apply bind_Ok in Hl as ([[all1 next1] parents1] & Hlinks & Hl). apply load_links_Ok in Hlinks as (Hp & Ha & Hn).
    assert (∀ h p, mkParentRow p h ∈ select (λ l, mem (p_child l) frontier) (parent_delegations db) ↔ parent_of db h p ∧ h ∈ frontier) as Hsel.
    { intros h p. rewrite elem_of_select. cbn. rewrite mem_true. done. }
    apply IH in Hl; [done| |].
    + destruct Hinv as [Hs Hd Hal Hr]. split.
      * intros h p. rewrite Hp, Hsel. naive_solver.
      * intros h p Hh Hnf Hpar. rewrite elem_of_dedup, sort_by_perm, Hn in Hnf.
        assert (h ∈ all) as Hin by (destruct (decide (h ∈ all)); [done|exfalso; apply Hnf; auto]).
        destruct (decide (h ∈ frontier)) as [Hfr|Hfr].
        -- assert (mkParentRow p h ∈ select (λ l, mem (p_child l) frontier) (parent_delegations db)) as Hin' by by apply Hsel.
           split; [rewrite Hp; auto|]. rewrite Ha. right. by exists (mkParentRow p h).
        -- destruct (Hd h p Hin Hfr Hpar). split; [rewrite Hp; auto|rewrite Ha; auto].
      * intros h. rewrite Ha. intros [Hin|(l & Hl' & <-)]; [by apply Hal|]. destruct l as [p c]. apply Hsel in Hl' as [Hpar Hc%Hsub].
        destruct (Hal c Hc) as (r & Hr' & Hanc). exists r. split; [done|]. by eapply rtc_r.
      * intros h Hh. rewrite Ha. left. by apply Hr.
    + intros h. rewrite elem_of_dedup, sort_by_perm, Hn. set_solver.
Qed.

(** The loaded state holds the ancestors of the roots. *)
Record loaded (db : Tables.Db) (roots : list Hash) (st : AccountAncestorState) : Prop := {
  ld_parents : ∀ r h p, r ∈ roots → ancestor db r h → p ∈ parents_in st h ↔ parent_of db h p;
  ld_revoked : ∀ r h, r ∈ roots → ancestor db r h → revoked_in st h = true ↔ revoked db h;
  ld_rows : ∀ r h d, r ∈ roots → ancestor db r h → as_delegations st !! h = Some d → d ∈ delegations db ∧ d_id d = h;
}.

Lemma loaded_rows (rows : list DelegationRow) (m : gmap Hash DelegationRow) h d :
  foldl (λ m d, <[d_id d := d]> m) m rows !! h = Some d → m !! h = Some d ∨ (d ∈ rows ∧ d_id d = h).
Proof.
  revert m. induction rows as [|d0 rows IH]; intros m; cbn; [auto|]. intros [Hl|[Hin Hid]]%IH; [|right; split; [by right|done]].
  apply lookup_insert_Some in Hl as [[<- <-]|[_ Hl]]; [right; split; [by left|done]|auto].
Qed.

Lemma elem_of_pushed (revs : list RevocationRow) (m : gmap Hash (list RevocationRow)) h r :
  r ∈ default [] (foldl (λ m r, push_entry (r_revoked r) r m) m revs !! h) ↔ r ∈ default [] (m !! h) ∨ (r ∈ revs ∧ r_revoked r = h).
Proof.
  revert m. induction revs as [|r0 revs IH]; intros m; cbn; [set_solver|]. rewrite IH, elem_of_push_entry, elem_of_cons. naive_solver.
Qed.

Lemma load_state_loaded db roots st : load_account_ancestor_state db roots = Ok st → loaded db roots st.
Proof.
  unfold load_account_ancestor_state. intros Hl. apply bind_Ok in Hl as ([all parents] & Hl & Hst). simplify_eq.
  apply (load_loop_Ok _ db roots) in Hl as [Hs Hd Hal Hr].
  - assert (∀ r h, r ∈ roots → ancestor db r h → h ∈ all) as Hanc.
    { intros r h Hin Ha. assert (r ∈ all) as Hra by by apply Hr. clear Hin. induction Ha as [|x y z Hxy _ IH]; [done|].
      apply IH. by destruct (Hd x y Hra (not_elem_of_nil _) Hxy). }
    split.
    + intros r h p Hin Ha. unfold parents_in. cbn [as_parents]. rewrite lookup_fmap. specialize (Hanc r h Hin Ha).
      assert (p ∈ default [] ((λ l, dedup (sort_by hash_leb l)) <$> parents !! h) ↔ p ∈ default [] (parents !! h)) as ->.
      { destruct (parents !! h); cbn; [by rewrite elem_of_dedup, sort_by_perm|done]. }
      split; [apply Hs|]. intros Hp. by destruct (Hd h p Hanc (not_elem_of_nil _) Hp).
    + intros r h Hin Ha. specialize (Hanc r h Hin Ha). unfold revoked_in. cbn [as_revocations]. rewrite lookup_fmap.
      set (m := foldl _ _ _). assert (∀ x, x ∈ default [] (m !! h) ↔ x ∈ revocations db ∧ r_revoked x = h) as Hm.
      { intros x. unfold m. rewrite elem_of_pushed, lookup_empty. cbn. rewrite elem_of_select, mem_true. split; [|naive_solver].
        intros [Hx|Hx]; [by apply not_elem_of_nil in Hx|naive_solver]. }
      unfold revoked. destruct (m !! h) as [l|]; cbn in *.
      * destruct (sort_by _ l) as [|y l'] eqn:Hsort.
        -- assert (l = []) as -> by (apply Permutation_nil; rewrite <- (sort_by_perm (λ a b, hash_leb (r_id a) (r_id b)) l); by rewrite Hsort).
           split; [done|]. intros (x & Hx%Hm). by apply not_elem_of_nil in Hx.
        -- split; [|done]. intros _. exists y. apply Hm. rewrite <- (sort_by_perm (λ a b, hash_leb (r_id a) (r_id b)) l), Hsort. by left.
      * split; [done|]. intros (x & Hx%Hm). by apply not_elem_of_nil in Hx.
    + intros r h d Hin Ha. cbn [as_delegations]. intros [Hl|[Hl Hid]]%loaded_rows; [by rewrite lookup_empty in Hl|].
      apply elem_of_select in Hl as [Hl _]. done.
  - split; [by intros h p; rewrite lookup_empty; intros ?%not_elem_of_nil| | |].
    + intros h p Hh Hn. exfalso. apply Hn. unfold distinct in Hh. by rewrite elem_of_remove_dups in Hh.
    + intros h Hh. unfold distinct in Hh. rewrite elem_of_remove_dups in Hh. by exists h.
    + intros h Hh. unfold distinct. by rewrite elem_of_remove_dups.
  - intros h Hh. unfold distinct. by rewrite elem_of_remove_dups.
Qed.

End Load.

(** ** The state of a delegation *)

Section Life.
Context `{CidLib} `{RowOrder}.

Lemma life_level_inl st visited effective frontier level h :
  life_level st visited effective frontier level = inl h → h ∈ level ∧ h ∉ visited ∧ revoked_in st h = true.
Proof.
  revert visited effective frontier. induction level as [|c level IH]; intros visited effective frontier; cbn [life_level]; [done|].
  destruct (mem c visited) eqn:Hm; [intros (? & ? & ?)%IH; set_solver|]. destruct (revoked_in st c) eqn:Hr.
  - intros [= <-]. split_and!; [by left| |done]. rewrite <- mem_true. by rewrite Hm.
  - intros (? & ? & ?)%IH. set_solver.
Qed.

(** The nodes a level adds. *)
Lemma life_level_inr st visited effective frontier level visited' effective' frontier' :
  life_level st visited effective frontier level = inr (visited', effective', frontier') →
  ∃ new, (∀ h, h ∈ new ↔ h ∈ level ∧ h ∉ visited) ∧ (∀ h, h ∈ new → revoked_in st h = false) ∧
    (∀ h, h ∈ visited' ↔ h ∈ new ∨ h ∈ visited) ∧ effective' = effective ++ new ∧
    frontier' = frontier ++ (new ≫= parents_in st).
Proof.
  revert visited effective frontier. induction level as [|c level IH]; intros visited effective frontier; cbn [life_level].
  - intros [= -> -> ->]. exists []. split_and!; [set_solver..| |]; by rewrite app_nil_r.
  - destruct (mem c visited) eqn:Hm.
    + apply mem_true in Hm. intros (new & Hn & Hr & Hv & He & Hf)%IH. exists new. split_and!; try done. intros h. rewrite Hn. set_solver.
    + assert (c ∉ visited) as Hc by (rewrite <- mem_true; by rewrite Hm). destruct (revoked_in st c) eqn:Hrc; [done|].
      intros (new & Hn & Hr & Hv & -> & ->)%IH. exists (c :: new). split_and!.
      * intros h. rewrite elem_of_cons, Hn. destruct (decide (h = c)); set_solver.
      * intros h [->|Hh]%elem_of_cons; auto.
      * intros h. rewrite Hv. set_solver.
      * by rewrite <- app_assoc.
      * cbn. by rewrite app_assoc.
Qed.

(** While the levels are walked: what was visited is what is effective, and lies
    among the ancestors; its parents are visited or next. *)
Record life_inv (db : Tables.Db) (root : Hash) (st : AccountAncestorState) (visited effective frontier : list Hash) : Prop := {
  lv_root : root ∈ visited;
  lv_same : ∀ h, h ∈ effective ↔ h ∈ visited;
  lv_ancestor : ∀ h, h ∈ visited → ancestor db root h;
  lv_next : ∀ h, h ∈ frontier → ancestor db root h;
  lv_parents : ∀ h p, h ∈ visited → p ∈ parents_in st h → p ∈ visited ∨ p ∈ frontier;
  lv_revoked : ∀ h, h ∈ visited → revoked_in st h = false;
}.

Lemma ancestor_closed db (V : list Hash) h a :
  ancestor db h a → (∀ c p, c ∈ V → parent_of db c p → p ∈ V) → h ∈ V → a ∈ V.
Proof. intros Ha Hc. induction Ha as [|x y z Hxy _ IH]; [done|]. intros Hx. by eapply IH, Hc. Qed.

(** Nothing is next: every ancestor was visited. *)
Lemma life_done db roots st root visited effective :
  loaded db roots st → root ∈ roots → life_inv db root st visited effective [] →
  ∀ h, (h ∈ effective ↔ ancestor db root h) ∧ (h ∈ effective → ¬ revoked db h).
Proof.
  intros Hld Hroot [Hr Hs Ha _ Hp Hrev] h. rewrite Hs. split; [split; [apply Ha|]|].
  - intros Hanc. eapply ancestor_closed; [exact Hanc| |done]. intros c p Hc Hpar%(ld_parents _ _ _ Hld root); [|done|by apply Ha].
    destruct (Hp c p Hc Hpar) as [|Hn]; [done|by apply not_elem_of_nil in Hn].
  - intros Hh. by rewrite <- (ld_revoked _ _ _ Hld root h Hroot (Ha h Hh)), (Hrev h Hh).
Qed.

Lemma life_loop_spec db roots st root fuel visited effective frontier r :
  loaded db roots st → root ∈ roots → life_inv db root st visited effective frontier →
  life_loop fuel st visited effective frontier = Some (Ok r) →
  match r with
  | inl h => ancestor db root h ∧ h ≠ root ∧ revoked db h
  | inr ids => ∀ h, (h ∈ ids ↔ ancestor db root h) ∧ (h ∈ ids → ¬ revoked db h)
  end.
Proof.
  intros Hld Hroot. revert visited effective frontier. induction fuel as [|fuel IH]; intros visited effective frontier Hinv; cbn [life_loop];
    (destruct frontier as [|f0 fr0] eqn:Hf; [intros [= <-]|]); try done.
  1, 2: by eapply life_done.
  rewrite <- Hf in *. clear Hf f0 fr0. destruct (life_level st visited effective [] frontier) as [h|[[v' e'] f']] eqn:Hl.
  - intros [= <-]. apply life_level_inl in Hl as (Hin & Hn & Hrev). destruct Hinv as [Hr Hs Ha Hnx _ _]. split_and!; [by apply Hnx| |].
    + intros ->. done.
    + by apply (ld_revoked _ _ _ Hld root h Hroot (Hnx h Hin)).
  - apply life_level_inr in Hl as (new & Hn & Hr & Hv & -> & ->). destruct (_ <? _)%nat; [done|]. apply IH.
    destruct Hinv as [Hro Hs Ha Hnx Hp Hrev]. cbn [app]. split.
    + apply Hv. auto.
    + intros h. rewrite elem_of_app, Hs, Hv. tauto.
    + intros h. rewrite Hv, Hn. intros [[Hh _]|Hh]; auto.
    + intros h. rewrite elem_of_dedup, sort_by_perm. intros (x & Hh & Hx)%list_elem_of_bind. apply Hn in Hx as [Hx _].
      eapply rtc_r; [by apply Hnx|]. by apply (ld_parents _ _ _ Hld root x h Hroot (Hnx x Hx)).
    + intros h p Hh%Hv Hpar. rewrite elem_of_dedup, sort_by_perm, list_elem_of_bind. destruct Hh as [Hh|Hh]; [right; by exists h|].
      destruct (Hp h p Hh Hpar) as [Hin|Hin]; [left; apply Hv; auto|].
      left. apply Hv. destruct (decide (p ∈ visited)); [auto|]. left. by apply Hn.
    + intros h [Hh|Hh]%Hv; auto.
Qed.

Lemma life_loop_total st nodes fuel visited effective frontier :
  (∀ h p, p ∈ parents_in st h → p ∈ nodes) → (∀ h, h ∈ frontier → h ∈ nodes) →
  length (List.filter (λ h, negb (mem h visited)) nodes) < fuel → is_Some (life_loop fuel st visited effective frontier).
Proof.
  intros Hpar. revert visited effective frontier. induction fuel as [|fuel IH]; intros visited effective frontier Hf Hlt; [lia|]. cbn [life_loop].
  destruct frontier as [|f0 fr0] eqn:Hfr; [by eexists|]. rewrite <- Hfr in *. clear Hfr f0 fr0.
  destruct (life_level st visited effective [] frontier) as [h|[[v' e'] f']] eqn:Hl; [by eexists|]. destruct (_ <? _)%nat; [by eexists|].
  apply life_level_inr in Hl as (new & Hn & _ & Hv & _ & ->). destruct new as [|x new].
  - cbn. destruct fuel; cbn; by eexists.
  - apply IH.
    + intros h. rewrite elem_of_dedup, sort_by_perm. intros (y & Hy & _)%list_elem_of_bind. by eapply Hpar.
    + assert (x ∈ frontier ∧ x ∉ visited) as [Hx Hxn] by (apply Hn; by left).
      assert (length (List.filter (λ h, negb (mem h v')) nodes) < length (List.filter (λ h, negb (mem h visited)) nodes)); [|lia].
      assert (x ∈ nodes) as Hxnodes by by apply Hf. clear -Hxn Hxnodes Hv.
      assert (x ∈ v') as Hxv by (apply Hv; left; by left). assert (∀ h, h ∈ visited → h ∈ v') as Hsub by (intros; apply Hv; auto). clear Hv.
      assert (∀ h, negb (mem h v') = true → negb (mem h visited) = true) as Himp.
      { intros h. rewrite !negb_true_iff, <- !not_true_iff_false, !mem_true. auto. }
      assert (∀ l, length (List.filter (λ h, negb (mem h v')) l) ≤ length (List.filter (λ h, negb (mem h visited)) l)) as Hle.
      { intros l. induction l as [|y l IHl]; cbn; [done|]. specialize (Himp y).
        destruct (negb (mem y v')); [rewrite Himp by done; cbn; lia|]. destruct (negb (mem y visited)); cbn; lia. }
      induction nodes as [|y nodes IHn]; [by apply not_elem_of_nil in Hxnodes|]. cbn. apply elem_of_cons in Hxnodes as [->|Hxnodes].
      * assert (negb (mem y v') = false) as -> by (rewrite negb_false_iff, mem_true; done).
        assert (negb (mem y visited) = true) as -> by (rewrite negb_true_iff, <- not_true_iff_false, mem_true; done). cbn. specialize (Hle nodes). lia.
      * specialize (IHn Hxnodes). specialize (Himp y). destruct (negb (mem y v')); [rewrite Himp by done; cbn; lia|].
        destruct (negb (mem y visited)); cbn; lia.
Qed.

Lemma elem_of_parents_values st h p : p ∈ parents_in st h → p ∈ concat (map_to_list (as_parents st)).*2.
Proof.
  unfold parents_in. destruct (as_parents st !! h) as [l|] eqn:Hl; [|by intros ?%not_elem_of_nil]. cbn. intros Hp.
  apply list_elem_of_In, in_concat. exists l. rewrite <- !list_elem_of_In. split; [|done]. apply list_elem_of_fmap. exists (h, l).
  split; [done|]. by apply elem_of_map_to_list.
Qed.

(** The fuel is enough for every state. *)
Theorem lifecycle_total (st : AccountAncestorState) (root : Hash) (now : Z) : is_Some (lifecycle st root now).
Proof.
  unfold lifecycle. assert (is_Some (life_loop (life_fuel st) st [root] [root] (sort_by hash_leb (parents_in st root)))) as [r Hr].
  { apply (life_loop_total st (concat (map_to_list (as_parents st)).*2)).
    - apply elem_of_parents_values.
    - intros h. rewrite sort_by_perm. apply elem_of_parents_values.
    - unfold life_fuel. assert (∀ (f : Hash → bool) l, length (List.filter f l) ≤ length l) as Hle.
      { intros f l. induction l as [|y l IH]; cbn; [done|]. destruct (f y); cbn; lia. }
      specialize (Hle (λ h, negb (mem h [root])) (concat (map_to_list (as_parents st)).*2)). lia. }
  destruct (as_revocations st !! root) as [[|x l]|]; rewrite ?Hr; cbn; by eexists.
Qed.

End Life.

(** ** The account *)

Section Sessions.
Context `{Keccak256} `{CidLib} `{RowOrder} `{LimitedJoin}.

(** The principal, and the keys that a member delegated the account's list
    capability to. *)
Inductive account_member (db : Tables.Db) (principal : string) : string → Prop :=
| member_principal : account_member db principal principal
| member_session d a :
    account_member db principal (d_delegator d) → d ∈ delegations db → a ∈ abilities db → a_delegation a = d_id d →
    controls_account principal [a] = true → starts_with "did:key:" (d_delegatee d) = true →
    account_member db principal (d_delegatee d).

Lemma session_rows_Ok db principal rows dids next dids' next' :
  (∀ d ab, (d, ab) ∈ rows → account_member db principal (d_delegator d) ∧ d ∈ delegations db ∧ ab ⊆ abilities_of db (d_id d)) →
  (∀ x, x ∈ dids → account_member db principal x) → (∀ x, x ∈ next → x ∈ dids) →
  session_rows principal dids next rows = Ok (dids', next') →
  (∀ x, x ∈ dids' → account_member db principal x) ∧ (∀ x, x ∈ next' → x ∈ dids') ∧ dids ⊆ dids'.
Proof.
  revert dids next. induction rows as [|[d ab] rows IH]; intros dids next Hrows Hd Hn; cbn [session_rows]; [by intros [= <- <-]|].
  assert (∀ d' ab', (d', ab') ∈ rows → account_member db principal (d_delegator d') ∧ d' ∈ delegations db ∧ ab' ⊆ abilities_of db (d_id d')) as Hrows'
    by (intros d' ab' Hin; apply Hrows; by right).
  destruct (controls_account principal ab && starts_with "did:key:" (d_delegatee d) && negb (mem (d_delegatee d) dids)) eqn:Hc; [|by apply IH].
  apply andb_true_iff in Hc as [[Hc Hk]%andb_true_iff _]. intros Hs. apply bind_Ok in Hs as ([] & _ & Hs).
  apply IH in Hs as (Hd' & Hn' & Hsub); [split_and!; [done|done|set_solver]|done| |set_solver].
  intros x [->|Hx]%elem_of_cons; [|by apply Hd]. destruct (Hrows d ab) as (Hm & Hin & Hab); [by left|].
  apply existsb_exists in Hc as (a & Ha%list_elem_of_In & Hc). apply Hab in Ha. apply elem_of_select in Ha as [Ha Hid%hash_eqb_true].
  eapply member_session; try done. unfold controls_account. cbn [existsb]. by rewrite Hc.
Qed.

Lemma session_loop_members db principal levels dids frontier dids' :
  (∀ x, x ∈ dids → account_member db principal x) → (∀ x, x ∈ frontier → x ∈ dids) →
  session_loop levels db principal dids frontier = Ok dids' → (∀ x, x ∈ dids' → account_member db principal x) ∧ dids ⊆ dids'.
Proof.
  revert dids frontier. induction levels as [|levels IH]; intros dids frontier Hd Hf; cbn [session_loop]; [done|].
  destruct frontier as [|f0 fr0] eqn:Hfr; [by intros [= <-]|]. rewrite <- Hfr in *. clear Hfr f0 fr0. intros Hs.
  apply bind_Ok in Hs as ([] & _ & Hs). apply bind_Ok in Hs as ([dids1 next] & Hr & Hs). cbn in Hs.
  apply (session_rows_Ok db) in Hr as (Hd1 & Hn1 & Hsub1); [|intros d ab Hin|done|by intros x ?%not_elem_of_nil].
  - apply IH in Hs as [Hm Hsub]; [split; [done|set_solver]|done|]. intros x. rewrite elem_of_dedup, sort_by_perm. apply Hn1.
  - apply limited_join_sound in Hin as (ab' & Hin & Hab). apply list_elem_of_fmap in Hin as (d' & [= <- ->] & Hin).
    apply elem_of_select in Hin as [Hin Hm%mem_true]. split_and!; [by apply Hd, Hf|done..].
Qed.

Lemma account_session_members db principal dids :
  account_session_dids db principal = Ok dids → (∀ x, x ∈ dids → account_member db principal x) ∧ principal ∈ dids.
Proof.
  unfold account_session_dids. intros Hs. apply session_loop_members in Hs as [Hm Hsub].
  - split; [done|]. apply Hsub. by left.
  - intros x ->%list_elem_of_singleton. constructor.
  - done.
Qed.

End Sessions.

(** ** The records *)

(** The state of the delegation [h] at an instant, from the tables. *)
Inductive state_of (db : Tables.Db) (now : Z) (h : Hash) : string → Prop :=
| st_revoked : revoked db h → state_of db now h "revoked"
| st_ancestor a : ¬ revoked db h → ancestor db h a → a ≠ h → revoked db a → state_of db now h "ancestor_revoked"
| st_expired a d e : (∀ a, ancestor db h a → ¬ revoked db a) → ancestor db h a → d ∈ delegations db → d_id d = a → d_expiry d = Some e →
    (e ≤ now)%Z → state_of db now h "expired"
| st_pending a d n : (∀ a, ancestor db h a → ¬ revoked db a) →
    (∀ d e, d ∈ delegations db → ancestor db h (d_id d) → d_expiry d = Some e → (now < e)%Z) →
    ancestor db h a → d ∈ delegations db → d_id d = a → d_not_before d = Some n → (now < n)%Z → state_of db now h "pending"
| st_active : (∀ a, ancestor db h a → ¬ revoked db a) →
    (∀ d e, d ∈ delegations db → ancestor db h (d_id d) → d_expiry d = Some e → (now < e)%Z) →
    (∀ d n, d ∈ delegations db → ancestor db h (d_id d) → d_not_before d = Some n → (n ≤ now)%Z) → state_of db now h "active".

Section Status.
Context `{CidLib} `{RowOrder}.

Lemma window_status_state db now h rows :
  (∀ a, ancestor db h a → ¬ revoked db a) →
  (∀ d, d ∈ rows → d ∈ delegations db ∧ ancestor db h (d_id d)) → (∀ d, d ∈ delegations db → ancestor db h (d_id d) → d ∈ rows) →
  state_of db now h (window_status now rows).
Proof.
  intros Hrev Hrows Hall. unfold window_status.
  destruct (existsb (λ d, match d_expiry d with Some e => (e <=? now)%Z | None => false end) rows) eqn:He.
  - apply existsb_exists in He as (d & Hd%list_elem_of_In & He). apply Hrows in Hd as [Hd Ha]. destruct (d_expiry d) as [e|] eqn:Hx; [|done].
    eapply st_expired; [done|exact Ha|done..|]. by apply Z.leb_le.
  - assert (∀ d e, d ∈ delegations db → ancestor db h (d_id d) → d_expiry d = Some e → (now < e)%Z) as Hexp.
    { intros d e Hd Ha Hx. apply not_true_iff_false in He. rewrite existsb_exists in He. apply Z.nle_gt. intros Hle. apply He.
      exists d. rewrite <- list_elem_of_In, Hx. split; [by apply Hall|by apply Z.leb_le]. }
    destruct (existsb (λ d, match d_not_before d with Some n => (now <? n)%Z | None => false end) rows) eqn:Hn.
    + apply existsb_exists in Hn as (d & Hd%list_elem_of_In & Hn). apply Hrows in Hd as [Hd Ha]. destruct (d_not_before d) as [n|] eqn:Hx; [|done].
      eapply st_pending; [done|done|exact Ha|done..|]. by apply Z.ltb_lt.
    + apply st_active; [done..|]. intros d n Hd Ha Hx. apply not_true_iff_false in Hn. rewrite existsb_exists in Hn. apply Z.nlt_ge. intros Hlt.
      apply Hn. exists d. rewrite <- list_elem_of_In, Hx. split; [by apply Hall|by apply Z.ltb_lt].
Qed.

Lemma omap_all {A B} (f : A → option B) l : length (omap f l) = length l → ∀ x, x ∈ l → is_Some (f x).
Proof.
  assert (∀ k, length (omap f k) ≤ length k) as Hle by (induction k as [|x k IH]; cbn; [done|destruct (f x); cbn; lia]).
  induction l as [|y l IH]; cbn; [by intros _ x ?%not_elem_of_nil|]. specialize (Hle l). destruct (f y) as [b|] eqn:Hy; cbn; [|lia].
  intros [= Hl] x [->|Hx]%elem_of_cons; [by eexists|auto].
Qed.

Lemma lifecycle_state db roots st root now lc :
  NoDup (d_id <$> delegations db) → loaded db roots st → root ∈ roots → lifecycle st root now = Some (Ok lc) →
  state_of db now root (lc_status lc).
Proof.
  intros Hnd Hld Hroot Hl. pose proof (ld_revoked _ _ _ Hld root root Hroot (rtc_refl _ _)) as Hrr. unfold revoked_in in Hrr. unfold lifecycle in Hl.
  destruct (as_revocations st !! root) as [[|x l]|] eqn:Hr; [|simplify_eq; constructor; by apply Hrr|].
  all: assert (¬ revoked db root) as Hnr by (rewrite <- Hrr; done).
  all: destruct (life_loop _ _ _ _ _) as [walked|] eqn:Hw; [|done]; cbn in Hl; injection Hl as Hl; apply bind_Ok in Hl as (found & -> & Hl).
  all: apply (life_loop_spec db roots st root) in Hw; [|done|done|].
  2, 4: split; [by left|done|by intros h ->%list_elem_of_singleton| | |].
  2, 5: intros h; rewrite sort_by_perm; intros Hp; apply rtc_once; by apply (ld_parents _ _ _ Hld root root h Hroot (rtc_refl _ _)).
  2, 4: intros h p ->%list_elem_of_singleton; rewrite sort_by_perm; auto.
  2, 3: intros h ->%list_elem_of_singleton; unfold revoked_in; by rewrite Hr.
  all: destruct found as [h|ids]; [simplify_eq; destruct Hw as (Ha & Hne & Hrev); by eapply st_ancestor|].
  all: apply bind_Ok in Hl as ([] & Hlen%ensure_Ok%Nat.eqb_eq & Hl); simplify_eq; cbn [lc_status].
  all: pose proof (omap_all _ _ Hlen) as Hsome; apply window_status_state.
  1, 4: intros a Ha; apply (proj2 (Hw a)), (proj1 (Hw a)), Ha.
  1, 3: intros d (a & Ha & Hd)%list_elem_of_omap; apply (proj1 (Hw a)) in Ha; destruct (ld_rows _ _ _ Hld root a d Hroot Ha Hd) as [? <-]; done.
  all: intros d Hd Ha; apply list_elem_of_omap; exists (d_id d); split; [by apply Hw|];
    destruct (Hsome (d_id d)) as [d' Hd']; [by apply Hw|]; destruct (ld_rows _ _ _ Hld root _ d' Hroot Ha Hd') as [Hin Hid];
    rewrite Hd'; f_equal; by eapply (NoDup_fmap_inj d_id (delegations db)).
Qed.

End Status.

Section Records.
Context `{Keccak256} `{CidLib} `{RowOrder} `{LimitedJoin} `{UriLib} `{HookFormats} `{CursorCodec}.

Lemma record_of_Some q dids st now d ab r :
  record_of q dids st now d ab = Ok (Some r) →
  ∃ lc, lifecycle st (d_id d) now = Some (Ok lc) ∧ r = account_record st (mem (d_delegator d) dids) d ab lc ∧
    status_matches (q_status q) (lc_status lc) = true.
Proof.
  unfold record_of. destruct (negb (direction_matches _ _)); [done|]. destruct (negb _); [done|]. intros Hr.
  apply bind_Ok in Hr as (lc & Hlc & Hr). destruct (status_matches _ _) eqn:Hs; [|done]. simplify_eq.
  destruct (lifecycle_total st (d_id d) now) as [x Hx]. rewrite Hx in *. cbn in Hlc. subst x. by exists lc.
Qed.

Lemma record_of_matching q dids st now d ab r :
  direction_matches (q_direction q) (mem (d_delegator d) dids) = true →
  match q_space q with Some f => matches_space ab f | None => true end = true →
  record_of q dids st now d ab = Ok r →
  ∃ lc, lifecycle st (d_id d) now = Some (Ok lc) ∧
    (status_matches (q_status q) (lc_status lc) = true → r = Some (account_record st (mem (d_delegator d) dids) d ab lc)).
Proof.
  intros Hd Hs. unfold record_of. rewrite Hd. cbn [negb]. rewrite Hs. cbn [negb]. intros Hr. apply bind_Ok in Hr as (lc & Hlc & Hr).
  destruct (lifecycle_total st (d_id d) now) as [x Hx]. rewrite Hx in *. cbn in Hlc. subst x. exists lc. split; [done|].
  intros Hm. rewrite Hm in Hr. by simplify_eq.
Qed.

(** The parts of a list of records. *)
Lemma account_records_parts db q principal now records :
  account_records db q principal now = Ok records →
  ∃ dids rows st found, account_session_dids db principal = Ok dids ∧
    (∀ d, d ∈ rows ↔ d ∈ delegations db ∧ (d_delegator d ∈ dids ∨ d_delegatee d ∈ dids)) ∧ rows ≡ₚ List.filter (λ d, mem (d_delegator d) dids || mem (d_delegatee d) dids) (delegations db) ∧
    loaded db (d_id <$> rows) st ∧
    Forall2 (λ d r, record_of q dids st now d (abilities_of db (d_id d)) = Ok r) rows found ∧ records = sort_by record_leb (omap id found).
Proof.
  unfold account_records. intros Hr. apply bind_Ok in Hr as (dids & Hd & Hr). apply bind_Ok in Hr as (st & Hst & Hr).
  apply bind_Ok in Hr as (found & Hf%try_map_Ok & Hr). simplify_eq.
  eexists dids, _, st, found. split_and!; [done| | |by apply load_state_loaded|done..].
  - intros d. rewrite elem_of_select, orb_true_iff, !mem_true. done.
  - apply row_order_perm.
Qed.

End Records.

(** ** Claims *)

(** An account's listing is exact.  Every record is a stored delegation that a
    member of the account granted or received, a member being the account's
    wallet or a key to which members passed its list capability; the state
    it is shown with is the one the tables give it, its ancestors' revocations
    and windows included; and every such delegation that matches the query
    is listed. *)
Theorem account_records_exact `{Keccak256} `{CidLib} `{RowOrder} `{LimitedJoin} `{UriLib} `{HookFormats} `{CursorCodec}
    (db : Tables.Db) (q : DelegationQuery) (principal : string) (now : Z) (records : list AccountDelegationRecord) :
  NoDup (d_id <$> delegations db) → account_records db q principal now = Ok records →
  ∃ dids, principal ∈ dids ∧ (∀ x, x ∈ dids → account_member db principal x) ∧
    (∀ r, r ∈ records → ∃ d, d ∈ delegations db ∧ (d_delegator d ∈ dids ∨ d_delegatee d ∈ dids) ∧ ar_cid r = cid_text (d_id d) ∧
       state_of db now (d_id d) (ar_status r) ∧ status_matches (q_status q) (ar_status r) = true) ∧
    ∀ d, d ∈ delegations db → (d_delegator d ∈ dids ∨ d_delegatee d ∈ dids) →
      direction_matches (q_direction q) (mem (d_delegator d) dids) = true →
      match q_space q with Some f => matches_space (abilities_of db (d_id d)) f | None => true end = true →
      ∃ s, state_of db now (d_id d) s ∧
        (status_matches (q_status q) s = true → ∃ r, r ∈ records ∧ ar_cid r = cid_text (d_id d) ∧ ar_status r = s).
Proof.
  intros Hnd Hr. apply account_records_parts in Hr as (dids & rows & st & found & Hdids & Hrows & _ & Hld & HF & ->).
  apply account_session_members in Hdids as [Hm Hp]. exists dids. split_and!; [done|done| |].
  - intros r. rewrite sort_by_perm. intros (o & Ho & Hid)%list_elem_of_omap. cbn in Hid. subst o. apply list_elem_of_lookup in Ho as [n Hn].
    destruct (Forall2_lookup_r _ _ _ _ _ HF Hn) as (d & Hd & Hrec). apply list_elem_of_lookup_2 in Hd.
    apply record_of_Some in Hrec as (lc & Hlc & -> & Hsm). exists d. pose proof (proj1 (Hrows d) Hd) as [Hin Hmem]. split_and!; try done.
    eapply lifecycle_state; [done|done| |done]. by apply list_elem_of_fmap_2.
  - intros d Hd Hmem Hdir Hsp. assert (d ∈ rows) as Hin by by apply Hrows. apply list_elem_of_lookup in Hin as [n Hn].
    destruct (Forall2_lookup_l _ _ _ _ _ HF Hn) as (o & Ho & Hrec). apply list_elem_of_lookup_2 in Hn, Ho.
    destruct (record_of_matching _ _ _ _ _ _ _ Hdir Hsp Hrec) as (lc & Hlc & Hsome). exists (lc_status lc). split.
    + eapply lifecycle_state; [done|done| |done]. by apply list_elem_of_fmap_2.
    + intros Hs%Hsome. exists (account_record st (mem (d_delegator d) dids) d (abilities_of db (d_id d)) lc). split_and!; [|done|done]. rewrite sort_by_perm. apply list_elem_of_omap. by exists o.
Qed.

Definition with_cursor (q : DelegationQuery) (c : option string) : DelegationQuery :=
  mkDelegationQuery (q_direction q) (q_status q) (q_space q) (q_limit q) c.

Section Pages.
Context `{Keccak256} `{CidLib} `{RowOrder} `{LimitedJoin} `{TokenLib} `{UriLib} `{HookFormats} `{CursorCodecLaws}.

(** A client that follows the cursors: each request has its own invocation and finds the
    clock at its own instants, of the authorization and of the states. *)
Fixpoint follow_pages (requests : list (InvocationInfo * Z * Z)) (db : Tables.Db) (q : DelegationQuery)
    : option (list AccountDelegationRecord) :=
  match requests with
  | [] => None
  | (i, now, now') :: requests =>
      match query_account_delegations db i q now now' with
      | Err _ => None
      | Ok page =>
          match pg_next_cursor page with
          | None => Some (pg_items page)
          | Some c => rest ← follow_pages requests db (with_cursor q (Some c)); Some (pg_items page ++ rest)
          end
      end
  end.

Lemma after_cursor_app l r k :
  ar_cid r ∉ ar_cid <$> l → after_cursor (ar_cid r) (l ++ r :: k) = Some k.
Proof.
  induction l as [|x l IH]; cbn; [by rewrite decide_True|]. rewrite not_elem_of_cons. intros [Hx Hl]. rewrite decide_False by done. by apply IH.
Qed.

Lemma page_records q c db principal now : account_records db (with_cursor q c) principal now = account_records db q principal now.
Proof. done. Qed.

(** The page after the records [seen], of which the cursor is the last. *)
Lemma page_of_after q seen rest c :
  NoDup (ar_cid <$> seen ++ rest) → (∀ r, r ∈ seen ++ rest → ar_cid r ≠ "") → (1 ≤ default 50 (q_limit q))%N →
  match c with None => seen = [] | Some c => ∃ l r, seen = l ++ [r] ∧ c = encode_cursor (ar_cid r) end →
  let limit := N.to_nat (default 50 (q_limit q))%N in
  ∃ next, page_of (with_cursor q c) (seen ++ rest) = Ok (mkDelegationQueryPage (take limit rest) next) ∧
    match next with
    | None => length rest ≤ limit
    | Some c' => limit < length rest ∧ ∃ l r, take limit rest = l ++ [r] ∧ c' = encode_cursor (ar_cid r)
    end.
Proof.
  intros Hnd Hne Hlim Hc limit. unfold page_of, decoded_cursor. cbn [q_cursor with_cursor q_limit].
  assert (∃ x, (match c with
     | None => Ok None | Some c => Some <$> ok_or (cid ← cursor_decode c; if is_empty cid then None else Some cid) InvalidCursor end) = Ok x ∧
     match x with Some c => ok_or (after_cursor c (seen ++ rest)) Unauthorized | None => Ok (seen ++ rest) end = Ok rest) as (x & -> & Hrest).
  { destruct c as [c|]; [|subst; by exists None]. destruct Hc as (l & r & -> & ->). unfold encode_cursor. rewrite cursor_roundtrip. cbn.
    assert (ar_cid r ≠ "") as Hr by (apply Hne, elem_of_app; left; apply elem_of_app; right; by apply list_elem_of_singleton).
    unfold is_empty. rewrite bool_decide_false by done. exists (Some (ar_cid r)). split; [done|].
    rewrite <- app_assoc. cbn. rewrite after_cursor_app; [done|]. rewrite <- app_assoc, fmap_app in Hnd. apply NoDup_app in Hnd as (_ & Hd & _).
    intros Hin%Hd. apply Hin. cbn. by left. }
  cbn [map_err]. rewrite bind_ret_l, Hrest, bind_ret_l. fold limit. eexists. split; [done|]. destruct (limit <? length rest)%nat eqn:Hlt.
  - apply Nat.ltb_lt in Hlt. destruct (lookup_lt_is_Some_2 rest (limit - 1)) as [r Hr]; [lia|]. rewrite Hr. cbn. split; [done|].
    exists (take (limit - 1) rest), r. split; [|done]. rewrite <- take_S_r by done. f_equal. lia.
  - apply Nat.ltb_ge in Hlt. done.
Qed.

(** The request is authorized for the account, and the account's listing has these records. *)
Definition lists (db : Tables.Db) (q : DelegationQuery) (principal : string) (cids : list string) (request : InvocationInfo * Z * Z) : Prop :=
  invocation.verify_and_authorize db request.1.1 request.1.2 = Ok tt ∧ account_query_principal db request.1.1 = Some principal ∧
  ∃ l, account_records db q principal request.2 = Ok l ∧ ar_cid <$> l = cids.

(** A record as one of the requests found it. *)
Definition shown (db : Tables.Db) (q : DelegationQuery) (principal : string) (requests : list (InvocationInfo * Z * Z)) (r : AccountDelegationRecord) : Prop :=
  ∃ request l, request ∈ requests ∧ account_records db q principal request.2 = Ok l ∧ r ∈ l.

Lemma follow_pages_rest db q principal requests seen rest c :
  Forall (lists db q principal (seen ++ rest)) requests →
  NoDup (seen ++ rest) → (∀ x, x ∈ seen ++ rest → x ≠ "") → (1 ≤ default 50 (q_limit q))%N →
  match c with None => seen = [] | Some c => ∃ l x, seen = l ++ [x] ∧ c = encode_cursor x end →
  length rest < length requests →
  ∃ collected, follow_pages requests db (with_cursor q c) = Some collected ∧ ar_cid <$> collected = rest ∧ Forall (shown db q principal requests) collected.
Proof.
  revert seen rest c. induction requests as [|[[i now] now'] requests IH]; intros seen rest c Hall Hnd Hne Hlim Hc Hf; [cbn in Hf; lia|].
  apply Forall_cons in Hall as [(Hv & Hp & l & Hr & Hl) Hall]. cbn [fst snd] in Hv, Hp, Hr. cbn [follow_pages].
  apply fmap_app_inv in Hl as (seenr & restr & -> & -> & ->). rewrite <- fmap_app in Hnd, Hne.
  assert (query_account_delegations db i (with_cursor q c) now now' = page_of (with_cursor q c) (seenr ++ restr)) as ->.
  { unfold query_account_delegations. rewrite Hv. cbn [map_err]. rewrite bind_ret_l, Hp. cbn [ok_or]. by rewrite bind_ret_l, page_records, Hr, bind_ret_l. }
  assert (Forall (shown db q principal ((i, now, now') :: requests)) restr) as Hshown.
  { apply Forall_forall. intros r Hin. exists (i, now, now'), (seenr ++ restr). split_and!; [by left|done|]. apply elem_of_app. by right. }
  destruct (page_of_after q seenr restr c Hnd) as ([c'|] & -> & Hnext); [|done| |cbn [pg_items pg_next_cursor]..].
  - intros r Hin. apply Hne. by apply list_elem_of_fmap_2.
  - destruct c as [c|]; [|by apply fmap_nil_inv in Hc]. destruct Hc as (l & x & Hx & ->). apply fmap_app_inv in Hx as (lr & xr & -> & Hx & ->).
    destruct xr as [|r []]; [done| |done]. cbn in Hx. simplify_eq. by exists lr, r.
  - destruct Hnext as (Hlt & l & r & Htake & ->). set (limit := N.to_nat _) in *.
    assert (seenr ++ restr = (seenr ++ take limit restr) ++ drop limit restr) as Hsplit by (rewrite <- app_assoc; f_equal; symmetry; apply take_drop).
    change (with_cursor (with_cursor q c) (Some (encode_cursor (ar_cid r)))) with (with_cursor q (Some (encode_cursor (ar_cid r)))).
    rewrite <- fmap_app in Hall. rewrite Hsplit, fmap_app in Hall, Hnd, Hne.
    destruct (IH _ _ (Some (encode_cursor (ar_cid r))) Hall Hnd Hne Hlim) as (collected & -> & Hcids & Hsh).
    + exists (ar_cid <$> (seenr ++ l)), (ar_cid r). split; [|done]. by rewrite Htake, !fmap_app, app_assoc.
    + rewrite length_fmap, length_drop. rewrite length_fmap in Hf. cbn [length] in Hf. assert (1 ≤ limit) by (unfold limit; lia). lia.
    + exists (take limit restr ++ collected). split_and!; [done|by rewrite fmap_app, Hcids, <- fmap_app, take_drop|]. apply Forall_app.
      split; [by apply Forall_take|]. eapply Forall_impl; [done|]. intros x (req & k & Hin & Hk). exists req, k. split; [by right|done].
  - exists (take (N.to_nat (default 50%N (q_limit q))) restr). split_and!; [done|by rewrite take_ge|by apply Forall_take].
Qed.

(** *** The listing at another instant *)

(** Two records of one delegation. *)
Definition same_delegation (r r' : AccountDelegationRecord) : Prop := ar_cid r = ar_cid r' ∧ ar_issued_at r = ar_issued_at r'.

Lemma sort_same_delegation l l' : Forall2 same_delegation l l' → Forall2 same_delegation (sort_by record_leb l) (sort_by record_leb l').
Proof.
  assert (∀ a a' b b', same_delegation a a' → same_delegation b b' → record_leb a b = record_leb a' b') as Hleb.
  { intros a a' b b' [Hc Hi] [Hc' Hi']. unfold record_leb. by rewrite Hc, Hc', Hi, Hi'. }
  assert (∀ x x' k k', same_delegation x x' → Forall2 same_delegation k k' →
    Forall2 same_delegation (insert_by record_leb x k) (insert_by record_leb x' k')) as Hins.
  { intros x x' k k' Hx Hk. induction Hk as [|y y' k k' Hy Hk IH]; cbn [insert_by]; [by constructor; [|constructor]|].
    rewrite (Hleb _ _ _ _ Hx Hy). destruct (record_leb x' y'); constructor; try done. by constructor. }
  induction 1 as [|x x' k k' Hx Hk IH]; cbn; [constructor|]. by apply Hins.
Qed.

Lemma lifecycle_any_time st root now now' lc :
  lifecycle st root now = Some (Ok lc) → ∃ lc', lifecycle st root now' = Some (Ok lc').
Proof.
  unfold lifecycle. destruct (as_revocations st !! root) as [[|r rs]|]; [|by eexists|];
    (destruct (life_loop _ _ _ _ _) as [walked|]; [|done]; cbn; destruct walked as [[h|effective]|e]; cbn; [by eexists| |done];
     intros Heq; injection Heq as Heq; apply bind_Ok in Heq as ([] & -> & _); by eexists).
Qed.

(** Without a status in the query the listing has the same delegations at every instant. *)
Lemma listing_any_time db q principal now now' records :
  q_status q = None → account_records db q principal now = Ok records →
  ∃ l, account_records db q principal now' = Ok l ∧ ar_cid <$> l = ar_cid <$> records.
Proof.
  intros Hq. unfold account_records. intros Hr. apply bind_Ok in Hr as (dids & -> & Hr). apply bind_Ok in Hr as (st & Hst & Hr).
  apply bind_Ok in Hr as (found & Hf%try_map_Ok & [= <-]). rewrite bind_ret_l, Hst, bind_ret_l.
  assert (∃ found', try_map (λ d, record_of q dids st now' d (abilities_of db (d_id d))) (select (λ d, mem (d_delegator d) dids || mem (d_delegatee d) dids) (delegations db))
    = Ok found' ∧ Forall2 same_delegation (omap id found') (omap id found)) as (found' & -> & HF).
  { clear Hst. induction Hf as [|d o rows found Ho Hf IH]; [by exists []|]. destruct IH as (found' & IH & HF). cbn [try_map]. rewrite IH.
    unfold record_of in Ho |- *. destruct (negb (direction_matches _ _)); [injection Ho as <-; by exists (None :: found')|].
    destruct (negb _); [injection Ho as <-; by exists (None :: found')|]. rewrite Hq in Ho |- *. cbn [status_matches] in Ho |- *.
    apply bind_Ok in Ho as (lc & Hlc & [= <-]). destruct (lifecycle st (d_id d) now) as [[lc0|e]|] eqn:Hl; [|done..].
    destruct (lifecycle_any_time st (d_id d) now now' _ Hl) as (lc' & ->). cbn [default from_option id]. rewrite !bind_ret_l.
    eexists. split; [done|]. cbn. by constructor. }
  rewrite bind_ret_l. eexists. split; [done|]. apply sort_same_delegation in HF. clear Hf. induction HF as [|r r' k k' [Hc _] _ IH]; [done|].
  cbn. by rewrite Hc, IH.
Qed.

Lemma records_NoDup db q principal now records :
  NoDup (d_id <$> delegations db) →
  (∀ d d', d ∈ delegations db → d' ∈ delegations db → cid_text (d_id d) = cid_text (d_id d') → d_id d = d_id d') →
  account_records db q principal now = Ok records → NoDup (ar_cid <$> records).
Proof.
  intros Hnd Hinj Hr. apply account_records_parts in Hr as (dids & rows & st & found & _ & Hrows & Hperm & _ & HF & ->).
  rewrite sort_by_perm. assert (NoDup (d_id <$> rows)) as Hnr.
  { rewrite Hperm. clear -Hnd. induction (delegations db) as [|d l IH]; cbn; [constructor|]. cbn in Hnd. apply NoDup_cons in Hnd as [Hn Hnd].
    destruct (_ || _); cbn; [|by apply IH]. apply NoDup_cons. split; [|by apply IH]. intros (d' & Hd' & Hin)%list_elem_of_fmap. apply Hn.
    rewrite Hd'. apply list_elem_of_fmap_2. by apply list_elem_of_In, filter_In, proj1, list_elem_of_In in Hin. }
  assert (∀ d, d ∈ rows → d ∈ delegations db) as Hsub by (intros d Hd; by apply Hrows). clear Hrows Hperm Hnd.
  induction HF as [|d o rows found Ho HF IH]; cbn; [constructor|]. cbn in Hnr. apply NoDup_cons in Hnr as [Hn Hnr].
  assert (NoDup (ar_cid <$> omap id found)) as Hrest by (apply IH; [done|intros d' Hd'; apply Hsub; by right]).
  destruct o as [r|]; [|done]. cbn. apply NoDup_cons. split; [|done]. apply record_of_Some in Ho as (lc & _ & -> & _). cbn [ar_cid account_record].
  intros (r' & Hr' & Hin)%list_elem_of_fmap. apply list_elem_of_omap in Hin as (o & Ho & Hid). cbn in Hid. subst o. apply list_elem_of_lookup in Ho as [n Hlk].
  destruct (Forall2_lookup_r _ _ _ _ _ HF Hlk) as (d' & Hd' & Hrec). apply list_elem_of_lookup_2 in Hd'.
  apply record_of_Some in Hrec as (lc' & _ & -> & _). cbn in Hr'. apply Hn. apply Hinj in Hr'; [|apply Hsub; by left|apply Hsub; by right].
  rewrite Hr'. by apply list_elem_of_fmap_2.
Qed.

End Pages.

(** C36: following the cursors of an account query gives every record once.  On an
    unchanged store a client that asks for the page after the one it has, with
    any limit the validation accepts and with an authorized invocation for each
    request, comes to an end and has collected exactly the delegations of the
    account's listing, each once and in order, and each as one of the requests
    found it.  Every request reads the clock anew: when the query asks for a
    status, the listings at the instants of the requests are to have the same
    delegations (a record that leaves the listing under a client's cursor ends the
    client's run with a refusal); without a status they always have.  No two
    delegations have the same identifier text, and none the empty one. *)
Theorem account_pages_complete `{Keccak256} `{CidLib} `{RowOrder} `{LimitedJoin} `{TokenLib} `{UriLib} `{HookFormats} `{CursorCodecLaws}
    (db : Tables.Db) (q : DelegationQuery) (principal : string) (requests : list (InvocationInfo * Z * Z)) (at_ : Z)
    (records : list AccountDelegationRecord) :
  NoDup (d_id <$> delegations db) →
  (∀ d d', d ∈ delegations db → d' ∈ delegations db → cid_text (d_id d) = cid_text (d_id d') → d_id d = d_id d') →
  (∀ d, d ∈ delegations db → cid_text (d_id d) ≠ "") →
  validate_query q = Ok tt → q_cursor q = None →
  account_records db q principal at_ = Ok records →
  (∀ i now now', (i, now, now') ∈ requests →
     invocation.verify_and_authorize db i now = Ok tt ∧ account_query_principal db i = Some principal ∧
     (q_status q ≠ None → ∃ l, account_records db q principal now' = Ok l ∧ ar_cid <$> l = ar_cid <$> records)) →
  length records < length requests →
  ∃ collected, follow_pages requests db q = Some collected ∧ ar_cid <$> collected = ar_cid <$> records ∧ NoDup (ar_cid <$> collected) ∧
    Forall (shown db q principal requests) collected.
Proof.
  intros Hnd Hinj Hne Hval Hcur Hr Hreq Hlen. assert (q = with_cursor q None) as Hwith by (destruct q; cbn in *; by subst).
  pose proof (records_NoDup _ _ _ _ _ Hnd Hinj Hr) as Hnr.
  destruct (follow_pages_rest db q principal requests [] (ar_cid <$> records) None) as (collected & Hc & Hcids & Hsh); try done.
  - apply Forall_forall. intros [[i now] now'] Hin. destruct (Hreq _ _ _ Hin) as (Hv & Hp & Hl). split_and!; [done|done|]. cbn [snd app].
    destruct (q_status q) eqn:Hq; [by apply Hl|]. by eapply listing_any_time.
  - cbn [app]. intros x (r & -> & Hin)%list_elem_of_fmap. destruct (account_records_parts _ _ _ _ _ Hr) as (dids & rows & st & found & _ & Hrows & _ & _ & HF & ->).
    rewrite sort_by_perm in Hin. apply list_elem_of_omap in Hin as (o & Ho & Hid). cbn in Hid. subst o. apply list_elem_of_lookup in Ho as [n Hlk].
    destruct (Forall2_lookup_r _ _ _ _ _ HF Hlk) as (d & Hd & Hrec). apply list_elem_of_lookup_2 in Hd.
    apply record_of_Some in Hrec as (lc & _ & -> & _). apply Hne. by apply Hrows.
  - unfold validate_query in Hval. apply bind_Ok in Hval as ([] & Hlim%ensure_Ok & _). cbn in Hlim. destruct (q_limit q) as [n|]; cbn; [|lia].
    apply andb_true_iff in Hlim as [Hn%N.leb_le _]. done.
  - by rewrite length_fmap.
  - exists collected. rewrite Hwith. split_and!; [done|done|by rewrite Hcids|done].
Qed.

(** [wallet] gave its session key the list capability; the key granted [bob]
    something, and [wallet] granted [alice] something that has ended. *)
#[local] Existing Instances demo_keccak demo_cids demo_order demo_tokens demo_formats.
#[local] Instance plain_join : LimitedJoin.
Proof. refine {| limited_join := λ n l, take n l |}. intros n l d ab Hin%elem_of_take. destruct Hin as (k & Hk & _). exists ab.
  split; [by eapply list_elem_of_lookup_2|done]. Defined.
Definition plain_cursors : CursorCodec := {| cursor_encode := λ s, s; cursor_decode := Some |}.
#[local] Existing Instance plain_cursors.
#[local] Instance plain_cursor_laws : CursorCodecLaws.
Proof. done. Qed.
Definition account_uris : UriLib := {| uri_new := λ _, None; uri_is_normalized := λ _, true; did_valid := λ _, true |}.
#[local] Existing Instance account_uris.

Definition wallet : string := "did:pkh:wallet".
Definition session_key : string := "did:key:session".
Definition wallet_space : SpaceId := {| base_did := wallet; name := "main" |}.
Definition list_resource : Resource :=
  TinyCloud {| space := wallet_space; service := "delegation"; path := None; query := None; fragment := None |}.
Definition wallet_kv : Resource :=
  TinyCloud {| space := wallet_space; service := "kv"; path := Some "docs"; query := None; fragment := None |}.
Definition account_row (n : N) (from to : string) (expiry : option Z) : DelegationRow :=
  mkDelegationRow (demo_hash n) from to expiry (Some (Z.of_N n)) None None "".
Definition account_db : Tables.Db :=
  set_parent_delegations [mkParentRow (demo_hash 1) (demo_hash 2)]
  (set_abilities [mkAbilityRow list_resource LIST_ABILITY (demo_hash 1) []; mkAbilityRow wallet_kv "tinycloud.kv/get" (demo_hash 2) [];
                  mkAbilityRow wallet_kv "tinycloud.kv/put" (demo_hash 3) []]
  (set_delegations [account_row 1 wallet session_key None; account_row 2 session_key bob None; account_row 3 wallet alice (Some 50%Z)] empty_db)).
Definition account_call : InvocationInfo :=
  {| ii_capabilities := [mkCapability list_resource LIST_ABILITY []]; ii_invoker := wallet; ii_parents := [];
     ii_invocation := mkUcan wallet wallet None 1000 None [] [] "q1" |}.
Definition account_query : DelegationQuery := mkDelegationQuery All None None (Some 1%N) None.
Definition account_listing : list AccountDelegationRecord :=
  match account_records account_db account_query wallet 100 with Ok l => l | Err _ => [] end.

Example account_listing_states : ar_status <$> account_listing = ["expired"; "active"; "active"].
Proof. vm_compute. reflexivity. Qed.

Lemma account_listing_eq : account_records account_db account_query wallet 100 = Ok account_listing.
Proof. vm_compute. reflexivity. Qed.

Lemma account_ids : NoDup (d_id <$> delegations account_db).
Proof. apply (bool_decide_unpack _). vm_compute. exact I. Qed.

Lemma account_records_exact_witness :
  ∃ dids : list string, wallet ∈ dids ∧ (∀ x, x ∈ dids → account_member account_db wallet x) ∧
    ∀ r, r ∈ account_listing → ∃ d, d ∈ delegations account_db ∧ state_of account_db 100 (d_id d) (ar_status r).
Proof.
  destruct (account_records_exact account_db account_query wallet 100 account_listing account_ids account_listing_eq) as (dids & Hp & Hm & Hr & _).
  exists dids. split; [exact Hp|split; [exact Hm|]]. intros r Hin. destruct (Hr r Hin) as (d & Hd & _ & _ & Hs & _). exists d. exact (conj Hd Hs).
Defined.

Lemma account_cids d d' : d ∈ delegations account_db → d' ∈ delegations account_db → cid_text (d_id d) = cid_text (d_id d') → d_id d = d_id d'.
Proof. cbn. rewrite !elem_of_cons. by intros [->|[->|[->|?%not_elem_of_nil]]] [->|[->|[->|?%not_elem_of_nil]]]. Qed.

(** Four requests, at instants before and after the third delegation ends. *)
Definition account_requests : list (InvocationInfo * Z * Z) := [(account_call, 40, 40); (account_call, 60, 60); (account_call, 80, 80); (account_call, 100, 100)]%Z.

Lemma account_pages_complete_witness :
  ∃ collected, follow_pages account_requests account_db account_query = Some collected ∧ ar_cid <$> collected = ar_cid <$> account_listing.
Proof.
  destruct (account_pages_complete account_db account_query wallet account_requests 100 account_listing account_ids account_cids)
    as (collected & Hc & Hcids & _).
  - cbn. intros d. rewrite !elem_of_cons. by intros [->|[->|[->|?%not_elem_of_nil]]].
  - reflexivity.
  - reflexivity.
  - exact account_listing_eq.
  - intros i now now'. unfold account_requests. rewrite !elem_of_cons.
    intros [[= -> -> ->]|[[= -> -> ->]|[[= -> -> ->]|[[= -> -> ->]|?%not_elem_of_nil]]]]; [split_and!; [vm_compute; reflexivity..|intros Hs; by destruct Hs]..|done].
  - vm_compute. lia.
  - exists collected. exact (conj Hc Hcids).
Defined.

(** A client that asks for the active delegations and holds a cursor to one that has ended
    meanwhile is refused as unauthorized. *)
Example ended_cursor_refused :
  let q := mkDelegationQuery All (Some QActive) None (Some 1%N) None in
  match query_account_delegations account_db account_call q 40 40 with
  | Ok page => ar_cid <$> pg_items page = [cid_text (demo_hash 3)] ∧ is_Some (pg_next_cursor page) ∧
      query_account_delegations account_db account_call (with_cursor q (pg_next_cursor page)) 60 60 = Err Unauthorized
  | Err _ => False
  end.
Proof. vm_compute. split; [done|]. split; [by eexists|done]. Qed.
