(* ===== verification/Invoke.v ===== *)
(** * Executing an invocation: tinycloud-core/src/db.rs 94-99, 161-198 and 935-1268

    [invoke_with_options] takes the chain locks, collects the key-value
    operations the capabilities ask for, checks the preconditions on the keys it
    will change, commits the invocation and then computes the outcomes, storing
    the written blocks.  The result carries the block store even on failure,
    because blocks written before a later error stay. *)
From S2P Require Import Prelude Str Chars Json Identity Resource Registry SqlCaveat ColumnEncryption Tables Storage Chain Tokens Events Demo Delegation Invocation Revocation Kv Transact Authority KvStore Query.
From Stdlib Require Import Sorting.Permutation.

Notation KvKey := (SpaceId * string)%type.

Record KvInvokeOptions := mkKvInvokeOptions {
  preconditions : gmap KvKey KvPrecondition;
  max_response_bytes : option N;
  list_limit : option nat;
}.

Inductive TxStoreError (E : Type) :=
| Tx (e : TxError)
| StoreRead (e : E)
| StoreWrite (e : E)
| MissingInput
| KvPreconditionFailed
| KvSerializationConflict
| KvResponseTooLarge (size limit : N).
Arguments Tx {E} e.
Arguments StoreRead {E} e.
Arguments StoreWrite {E} e.
Arguments MissingInput {E}.
Arguments KvPreconditionFailed {E}.
Arguments KvSerializationConflict {E}.
Arguments KvResponseTooLarge {E} size limit.

Inductive InvocationOutcome :=
| OKvList (keys : list string) (truncated : bool)
| OKvDelete (deleted : option Hash)
| OKvMetadata (m : option (Metadata * Hash))
| OKvWrite (h : Hash)
| OKvBatchWrite (paths : list string)
| OKvRead (data : option (Metadata * Hash * string))
| OOpenSessions (l : list (Hash * DelegationInfo))
| ODelegationChain (l : list DelegationInfo)
| OSqlResult (v : json)
| OSqlExport (data : string)
| ODuckDbResult (v : json)
| ODuckDbExport (data : string)
| ODuckDbArrow (data : string).

(** The space, service, canonical ability and path of a capability. *)
Definition cap_target (c : Capability) : option (SpaceId * string * string * string) :=
  r ← tinycloud_resource (cap_resource c);
  p ← path r;
  Some (space r, service r, resolve_alias (cap_ability c), p).

Definition is_put (t : SpaceId * string * string * string) : bool :=
  bool_decide (t.1.1.2 = "kv") && bool_decide (t.1.2 = "tinycloud.kv/put").
Definition is_del (t : SpaceId * string * string * string) : bool :=
  bool_decide (t.1.1.2 = "kv") && bool_decide (t.1.2 = "tinycloud.kv/del").

Definition mutation_key (c : Capability) : option KvKey :=
  t ← cap_target c;
  if is_put t || is_del t then Some (t.1.1.1, t.2) else None.

Definition mutation_keys (caps : list Capability) : list KvKey := omap mutation_key caps.

Section Invoke.
Context `{Keccak256} `{Blake3} `{CidLib} `{RowOrder} `{TokenLib} `{HookFormats} `{DagCbor} `{TokenCodec}
        `{Collation}.
Context {B E : Type} `{!BlockStore B E}.

(** The staging loop: inputs are taken out as the puts consume them; a stage is
    the bytes that were uploaded, its hash their hash. *)
Fixpoint stage_ops (caps : list Capability) (inputs : gmap KvKey (Metadata * string)) (stages : gmap KvKey string)
    : result (TxStoreError E) (gmap KvKey string * list Operation) :=
  match caps with
  | [] => Ok (stages, [])
  | c :: caps =>
      match cap_target c with
      | None => stage_ops caps inputs stages
      | Some t =>
          let key := (t.1.1.1, t.2) in
          if is_put t then
            '(md, content) ← ok_or (inputs !! key) MissingInput;
            '(stages, ops) ← stage_ops caps (delete key inputs) (<[key := content]> stages);
            Ok (stages, KvWrite key.1 key.2 (hash content) md :: ops)
          else if is_del t then
            '(stages, ops) ← stage_ops caps inputs stages;
            Ok (stages, KvDelete key.1 key.2 None :: ops)
          else stage_ops caps inputs stages
      end
  end.

(** The preconditions, and the values the deletes will report. *)
Fixpoint check_preconditions (db : Tables.Db) (pre : gmap KvKey KvPrecondition) (keys : list KvKey)
    (deleted : gmap KvKey Hash) : result (TxStoreError E) (gmap KvKey Hash) :=
  match keys with
  | [] => Ok deleted
  | key :: keys =>
      let current := w_value <$> get_kv_entity db key.1 key.2 in
      _ ← match pre !! key with
          | Some p => ensure (kv_precondition_matches p current) KvPreconditionFailed
          | None => Ok tt
          end;
      check_preconditions db pre keys
        (match current with Some h => <[key := h]> deleted | None => deleted end)
  end.

(** One capability's outcome; [None] for those that have none. *)
Definition outcome (encryption : option ColumnEncryption) (now : Z) (options : KvInvokeOptions) (db : Tables.Db)
    (invoker : string) (params : option CapabilitiesReadParams) (deleted : gmap KvKey Hash)
    (t : SpaceId * string * string * string) (stages : gmap KvKey string) (b : B)
    : result (TxStoreError E) (option InvocationOutcome) * gmap KvKey string * B :=
  let '(s, service, ability, p) := t in
  let key := (s, p) in
  let keep r := (r, stages, b) in
  if decide (service = "kv") then
    if decide (ability = "tinycloud.kv/get") then
      keep (data ← map_err StoreRead (get_kv (bs_read b) db s p);
            match max_response_bytes options, data with
            | Some limit, Some (_, _, content) =>
                let size := N.of_nat (String.length content) in
                if (limit <? size)%N then Err (KvResponseTooLarge size limit) else Ok (Some (OKvRead data))
            | _, _ => Ok (Some (OKvRead data))
            end)
    else if decide (ability = "tinycloud.kv/list") then
      let '(l, truncated) := list_bounded db s p (list_limit options) in
      keep (Ok (Some (OKvList l truncated)))
    else if decide (ability = "tinycloud.kv/del") then keep (Ok (Some (OKvDelete (deleted !! key))))
    else if decide (ability = "tinycloud.kv/put") then
      match stages !! key with
      | None => keep (Ok None)
      | Some content =>
          match bs_persist b s content with
          | Err e => (Err (StoreWrite e), delete key stages, b)
          | Ok (_, b) => (Ok (Some (OKvWrite (hash content))), delete key stages, b)
          end
      end
    else if decide (ability = "tinycloud.kv/metadata") then
      keep (Ok (Some (OKvMetadata (metadata_with_hash db s p))))
    else keep (Ok None)
  else if decide (service = "capabilities" ∧ ability = "tinycloud.capabilities/read" ∧ p = "all") then
    keep (match params with
          | None => l ← map_err Tx (get_valid_delegations db s encryption now); Ok (Some (OOpenSessions l))
          | Some (ReadList filters) =>
              l ← map_err Tx (get_filtered_delegations db s invoker filters encryption now);
              Ok (Some (OOpenSessions l))
          | Some (ReadChain cid) =>
              l ← map_err Tx (default (Err TxPanic) (get_delegation_chain db s cid encryption now));
              Ok (Some (ODelegationChain l))
          end)
  else keep (Ok None).

Fixpoint outcomes (encryption : option ColumnEncryption) (now : Z) (options : KvInvokeOptions) (db : Tables.Db)
    (invoker : string) (params : option CapabilitiesReadParams) (deleted : gmap KvKey Hash)
    (ts : list (SpaceId * string * string * string)) (stages : gmap KvKey string) (b : B)
    : result (TxStoreError E) (list InvocationOutcome) * B :=
  match ts with
  | [] => (Ok [], b)
  | t :: ts =>
      match outcome encryption now options db invoker params deleted t stages b with
      | (Err e, _, b) => (Err e, b)
      | (Ok o, stages, b) =>
          let '(r, b) := outcomes encryption now options db invoker params deleted ts stages b in
          (l ← r; Ok (match o with Some o => o :: l | None => l end), b)
      end
  end.

Definition invoke_with_options (encryption : option ColumnEncryption) (nonce : Hash → string) (now : Z)
    (setup : SpaceId → result TxError unit) (db : Tables.Db) (b : B)
    (i : InvocationInfo) (bytes : string) (inputs : gmap KvKey (Metadata * string)) (options : KvInvokeOptions)
    : result (TxStoreError E) (TransactResult * list InvocationOutcome * Tables.Db) * B :=
  match
    _ ← map_err Tx (chain_guards db (hash_of_cid <$> ii_parents i));
    '(stages, ops) ← stage_ops (ii_capabilities i) inputs ∅;
    deleted ← check_preconditions db (preconditions options) (mutation_keys (ii_capabilities i)) ∅;
    '(commit, db') ← map_err Tx (transact encryption nonce now setup db [EInvocation i bytes ops]);
    Ok (stages, deleted, commit, db')
  with
  | Err e => (Err e, b)
  | Ok (stages, deleted, commit, db') =>
      let params := match u_facts (ii_invocation i) with Some f => read_params_of_facts f | None => None end in
      let '(r, b) := outcomes encryption now options db' (ii_invoker i) params deleted
                       (omap cap_target (ii_capabilities i)) stages b in
      (l ← r; Ok (commit, l, db'), b)
  end.

Definition invoke (encryption : option ColumnEncryption) (nonce : Hash → string) (now : Z)
    (setup : SpaceId → result TxError unit) (db : Tables.Db) (b : B)
    (i : InvocationInfo) (bytes : string) (inputs : gmap KvKey (Metadata * string))
    : result (TxStoreError E) (TransactResult * list InvocationOutcome * Tables.Db) * B :=
  invoke_with_options encryption nonce now setup db b i bytes inputs (mkKvInvokeOptions ∅ None None).

(** ** What the operations are *)

Lemma cap_target_space c t : cap_target c = Some t → resource_space (cap_resource c) = Some t.1.1.1.
Proof.
  unfold cap_target. destruct (cap_resource c) as [r|]; simpl; [|done].
  destruct (path r); simpl; [|done]. by intros [= <-].
Qed.

Lemma cap_spaces_cons c caps t : cap_target c = Some t → t.1.1.1 ∈ cap_spaces (c :: caps).
Proof.
  intros Ht%cap_target_space. unfold cap_spaces. simpl. rewrite Ht. by left.
Qed.

Lemma cap_spaces_further c caps s : s ∈ cap_spaces caps → s ∈ cap_spaces (c :: caps).
Proof. unfold cap_spaces. simpl. case_match; [by right|done]. Qed.

(** The operations are unversioned and lie in the capabilities' spaces. *)
Lemma stage_ops_spaces caps inputs stages st ops :
  stage_ops caps inputs stages = Ok (st, ops) →
  Forall unversioned ops ∧ ∀ op, op ∈ ops → op_space op ∈ cap_spaces caps.
Proof.
  revert inputs stages st ops. induction caps as [|c caps IH]; intros inputs stages st ops Hs; simpl in Hs.
  { simplify_eq. split; [done|]. intros op Hop. by apply not_elem_of_nil in Hop. }
  assert (∀ inputs stages, stage_ops caps inputs stages = Ok (st, ops) →
    Forall unversioned ops ∧ ∀ op, op ∈ ops → op_space op ∈ cap_spaces (c :: caps)) as Hskip.
  { intros i' s' Hs'. apply IH in Hs' as [? Hsp]. split; [done|]. intros op Hop.
    by apply cap_spaces_further, Hsp. }
  destruct (cap_target c) as [t|] eqn:Ht; [|by eapply Hskip].
  destruct (is_put t).
  { apply bind_Ok in Hs as ([md content] & _ & Hs). apply bind_Ok in Hs as ([st' ops'] & Hrec & Hs).
    simplify_eq. apply IH in Hrec as [Hun Hsp]. split; [by constructor|].
    intros op [->|Hop]%elem_of_cons; [by eapply cap_spaces_cons|by apply cap_spaces_further, Hsp]. }
  destruct (is_del t); [|by eapply Hskip].
  apply bind_Ok in Hs as ([st' ops'] & Hrec & Hs).
  simplify_eq. apply IH in Hrec as [Hun Hsp]. split; [by constructor|].
  intros op [->|Hop]%elem_of_cons; [by eapply cap_spaces_cons|by apply cap_spaces_further, Hsp].
Qed.

(** The operation a capability asks for, by the inputs of the call. *)
Definition requested (inputs : gmap KvKey (Metadata * string)) (c : Capability) : option Operation :=
  t ← cap_target c;
  let key := (t.1.1.1, t.2) in
  if is_put t then '(md, content) ← inputs !! key; Some (KvWrite key.1 key.2 (hash content) md)
  else if is_del t then Some (KvDelete key.1 key.2 None)
  else None.

(** Every put has an input of its own. *)
Lemma stage_ops_inputs caps inputs stages st ops c t :
  stage_ops caps inputs stages = Ok (st, ops) → c ∈ caps → cap_target c = Some t → is_put t = true →
  is_Some (inputs !! (t.1.1.1, t.2)).
Proof.
  revert inputs stages st ops. induction caps as [|c' caps IH]; intros inputs stages st ops Hs Hc Ht Hput;
    [by apply not_elem_of_nil in Hc|]. simpl in Hs.
  apply elem_of_cons in Hc as [<-|Hc].
  - rewrite Ht, Hput in Hs. apply bind_Ok in Hs as (? & Hin%ok_or_Ok & _). by eexists.
  - destruct (cap_target c') as [t'|]; [|by eapply IH]. destruct (is_put t').
    + apply bind_Ok in Hs as ([md content] & _ & Hs). apply bind_Ok in Hs as ([st' ops'] & Hrec & _).
      destruct (IH _ _ _ _ Hrec Hc Ht Hput) as [x Hx]. apply lookup_delete_Some in Hx as [_ Hx]. by eexists.
    + destruct (is_del t'); [|by eapply IH]. apply bind_Ok in Hs as ([st' ops'] & Hrec & _). by eapply IH.
Qed.

(** A successful staging yields the requested operations, in order. *)
Lemma stage_ops_requested caps inputs stages st ops :
  stage_ops caps inputs stages = Ok (st, ops) → ops = omap (requested inputs) caps.
Proof.
  revert inputs stages st ops. induction caps as [|c caps IH]; intros inputs stages st ops Hs; simpl in Hs; [by simplify_eq|].
  simpl. unfold requested at 1. destruct (cap_target c) as [t|] eqn:Ht; [|by eapply IH]. simpl.
  destruct (is_put t) eqn:Hput.
  - apply bind_Ok in Hs as ([md content] & Hin%ok_or_Ok & Hs). apply bind_Ok in Hs as ([st' ops'] & Hrec & Hs).
    injection Hs as _ <-. rewrite Hin. simpl. f_equal. rewrite (IH _ _ _ _ Hrec).
    apply list_omap_ext, Forall_Forall2_diag, Forall_forall. intros x Hx. unfold requested.
    destruct (cap_target x) as [t'|] eqn:Ht'; [|done]. simpl. destruct (is_put t') eqn:Hp'; [|done].
    destruct (stage_ops_inputs _ _ _ _ _ _ _ Hrec Hx Ht' Hp') as [v Hv]. rewrite Hv.
    apply lookup_delete_Some in Hv as [_ Hv]. by rewrite Hv.
  - destruct (is_del t); [|by eapply IH].
    apply bind_Ok in Hs as ([st' ops'] & Hrec & Hs). injection Hs as _ <-. f_equal. by eapply IH.
Qed.

(** The steps of a successful call. *)
Lemma invoke_Ok (enc : option ColumnEncryption) (nonce : Hash → string) (now : Z)
    (setup : SpaceId → result TxError unit) db b i bytes inputs options res outs db' b' :
  invoke_with_options enc nonce now setup db b i bytes inputs options = (Ok (res, outs, db'), b') →
  ∃ stages ops deleted, stage_ops (ii_capabilities i) inputs ∅ = Ok (stages, ops) ∧
    check_preconditions db (preconditions options) (mutation_keys (ii_capabilities i)) ∅ = Ok deleted ∧
    transact enc nonce now setup db [EInvocation i bytes ops] = Ok (res, db') ∧
    ∃ params, outcomes enc now options db' (ii_invoker i) params deleted
      (omap cap_target (ii_capabilities i)) stages b = (Ok outs, b').
Proof.
  unfold invoke_with_options. intros Hi. destruct (_ ≫= _) as [[[[stages deleted] commit] db1]|] eqn:Hpre; [|done].
  apply bind_Ok in Hpre as (_ & _ & Hpre). apply bind_Ok in Hpre as ([st ops] & Hst & Hpre).
  apply bind_Ok in Hpre as (del & Hdel & Hpre). apply bind_Ok in Hpre as ([c d] & Ht%map_err_Ok & Hpre).
  simplify_eq. set (params := match u_facts _ with Some _ => _ | None => _ end) in Hi.
  destruct (outcomes _ _ _ _ _ _ _ _ _ _) as [r b1] eqn:Ho. injection Hi as Hr Hb.
  apply bind_Ok in Hr as (l & -> & Hr). simplify_eq. exists stages, ops, deleted. split_and!; try done. by exists params.
Qed.

Lemma check_preconditions_Ok db pre keys deleted out key p :
  check_preconditions db pre keys deleted = Ok out → key ∈ keys → pre !! key = Some p →
  kv_precondition_matches p (w_value <$> get_kv_entity db key.1 key.2) = true.
Proof.
  revert deleted. induction keys as [|k keys IH]; intros deleted Hc Hin Hp; [by apply not_elem_of_nil in Hin|].
  cbn [check_preconditions] in Hc. apply bind_Ok in Hc as ([] & Hm & Hc).
  apply elem_of_cons in Hin as [<-|Hin]; [|by eapply IH]. rewrite Hp in Hm. by apply ensure_Ok in Hm.
Qed.

(** ** Claims *)

(** C11: an accepted invocation acts on the key-value store of every space as its
    puts and deletes on a map: after it, the value of each key is what running the
    operations its capabilities ask for (a put writes the hash of the bytes
    uploaded for its path, a delete removes its path), in order, on the previous
    values gives; no other key changes, and an invocation that was recorded before
    changes nothing. *)
Theorem invoke_refines_map (enc : option ColumnEncryption) (nonce : Hash → string) (now : Z)
    (setup : SpaceId → result TxError unit) (db db' : Tables.Db) (b b' : B) (i : InvocationInfo) (bytes : string)
    (inputs : gmap KvKey (Metadata * string)) (options : KvInvokeOptions) (res : TransactResult)
    (outs : list InvocationOutcome) :
  reachable db →
  invoke_with_options enc nonce now setup db b i bytes inputs options = (Ok (res, outs, db'), b') →
  ∀ s k, metadata_with_hash db' s k =
    if has_invocation db (hash bytes) then metadata_with_hash db s k
    else fold_left apply_operation (omap (requested inputs) (ii_capabilities i)) (metadata_with_hash db) s k.
Proof.
  intros Hreach (stages & ops & deleted & Hst & _ & Ht & _)%invoke_Ok.
  destruct (stage_ops_spaces _ _ _ _ _ Hst) as [Hun Hsp]. rewrite <- (stage_ops_requested _ _ _ _ _ Hst).
  eapply transact_invocation_view; [by apply reachable_kv_inv|done|done|exact Ht].
Qed.

(** Conditional writes: an invocation with preconditions succeeds only if each
    key it changes had, when it ran, no live value where it must not exist and a
    live value with the expected digest where it must match; otherwise nothing
    is committed and no block is written. *)
Theorem invoke_preconditions (enc : option ColumnEncryption) (nonce : Hash → string) (now : Z)
    (setup : SpaceId → result TxError unit) (db : Tables.Db) (b : B) (i : InvocationInfo) (bytes : string)
    (inputs : gmap KvKey (Metadata * string)) (options : KvInvokeOptions) (key : KvKey) (p : KvPrecondition) :
  key ∈ mutation_keys (ii_capabilities i) → preconditions options !! key = Some p →
  (∀ res b', invoke_with_options enc nonce now setup db b i bytes inputs options = (Ok res, b') →
     kv_precondition_matches p (w_value <$> get_kv_entity db key.1 key.2) = true) ∧
  (kv_precondition_matches p (w_value <$> get_kv_entity db key.1 key.2) = false →
   ∃ e, invoke_with_options enc nonce now setup db b i bytes inputs options = (Err e, b)).
Proof.
  intros Hkey Hp. split.
  - intros [[res outs] db'] b' (stages & ops & deleted & _ & Hc & _)%invoke_Ok. by eapply check_preconditions_Ok.
  - intros Hm. unfold invoke_with_options. destruct (_ ≫= _) as [[[[stages deleted] commit] db1]|e] eqn:Hpre; [|by eexists].
    apply bind_Ok in Hpre as (_ & _ & Hpre). apply bind_Ok in Hpre as ([st ops] & _ & Hpre).
    apply bind_Ok in Hpre as (del & Hdel & _).
    rewrite (check_preconditions_Ok _ _ _ _ _ _ _ Hdel Hkey Hp) in Hm. done.
Qed.


End Invoke.

(** ** Witnesses *)

#[local] Existing Instances demo_keccak demo_blake demo_cids demo_order demo_tokens demo_formats demo_cbor
  demo_codec.
Definition demo_collation : Collation := λ c, c.
#[local] Existing Instance demo_collation.

(** [owner] puts and deletes keys of the demo space. *)
Definition demo_call (caps : list Capability) : InvocationInfo :=
  {| ii_capabilities := caps; ii_invoker := owner; ii_parents := []; ii_invocation := demo_ucan owner owner [] "i1" |}.
Definition demo_put : InvocationInfo := demo_call [demo_cap (Some "a") "tinycloud.kv/put"].
Definition demo_inputs : gmap KvKey (Metadata * string) := {[ (demo_space, "a") := ([], "hello") ]}.
Definition demo_options : KvInvokeOptions :=
  mkKvInvokeOptions {[ (demo_space, "a") := DoesNotExist ]} None None.
Definition demo_run := invoke_with_options None demo_nonce 50 demo_setup demo_store (∅ : MemoryStore)
  demo_put "i1" demo_inputs demo_options.
Definition demo_done : TransactResult * list InvocationOutcome * Tables.Db :=
  match demo_run.1 with Ok r => r | Err _ => (mkTransactResult [] [] [], [], empty_db) end.

Lemma demo_run_eq : demo_run = (Ok (demo_done.1.1, demo_done.1.2, demo_done.2), demo_run.2).
Proof.
  assert (is_ok demo_run.1 = true) as Hok by (vm_compute; reflexivity).
  unfold demo_done. revert Hok. destruct demo_run as [[[[? ?] ?]|] ?]; [done|done].
Qed.

Lemma invoke_refines_map_witness :
  metadata_with_hash demo_done.2 demo_space "a" = Some ([], hash "hello").
Proof.
  rewrite (invoke_refines_map None demo_nonce 50 demo_setup demo_store demo_done.2 (∅ : MemoryStore) demo_run.2
    demo_put "i1" demo_inputs demo_options demo_done.1.1 demo_done.1.2 demo_store_reachable demo_run_eq).
  by vm_compute.
Defined.

Lemma invoke_preconditions_witness :
  kv_precondition_matches DoesNotExist (w_value <$> get_kv_entity demo_store demo_space "a") = true.
Proof.
  destruct (invoke_preconditions None demo_nonce 50 demo_setup demo_store (∅ : MemoryStore) demo_put "i1"
    demo_inputs demo_options (demo_space, "a") DoesNotExist) as [Hok _].
  - by left.
  - by vm_compute.
  - exact (Hok _ _ demo_run_eq).
Defined.


(** Two keys, then [caps] in a later invocation. *)
Definition demo_then (caps : list Capability) : result (TxStoreError Empty_set) (TransactResult * list InvocationOutcome * Tables.Db) :=
  let put k := demo_cap (Some k) "tinycloud.kv/put" in
  match invoke None demo_nonce 50 demo_setup demo_store (∅ : MemoryStore) (demo_call [put "a"; put "b"]) "i2"
          {[ (demo_space, "a") := ([], "x"); (demo_space, "b") := ([], "y") ]} with
  | (Ok (_, _, db), b) => (invoke None demo_nonce 60 demo_setup db b (demo_call caps) "i3" ∅).1
  | (Err e, _) => Err e
  end.

(** Two deletes cannot share an invocation: a tombstone is keyed by the
    invocation and the space only, so an invocation that deletes two live keys of
    one space fails with a uniqueness violation, although two puts are accepted
    in one invocation and each of the two deletes alone is accepted. *)
Theorem two_deletes_rejected :
  let del k := demo_cap (Some k) "tinycloud.kv/del" in
  demo_then [del "a"; del "b"] = Err (Tx (TxDb (UniqueViolation "kv_delete"))) ∧
  is_ok (demo_then [del "a"]) = true ∧ is_ok (demo_then [del "b"]) = true.
Proof. vm_compute. split_and!; reflexivity. Qed.
