(* ===== verification/Replay.v ===== *)
(** * Replay protection of the invoke route: tinycloud-node-server/src/invocation_replay.rs

    Each accepted invocation is remembered by the hash of its bytes until a minute
    after its expiration.  The cache is the map behind the mutex; the clock is an
    argument of each call, in nanoseconds. *)
From S2P Require Import Prelude Str Chars Json Identity Resource Tables Chain Tokens Demo.

Definition CLOCK_SKEW_SECONDS : Z := 60.
Definition second : Z := 1000000000.

Inductive InvocationReplayError := Duplicate.

Notation ReplayCache := (gmap Hash Z).

(** The expiration (its cast from a float saturates) plus the skew, or the skew from now when the [time] crate
    cannot represent that instant. *)
Definition invocation_expires_at `{TimeLib} (u : Ucan) (now : Z) : Z :=
  default (now + CLOCK_SKEW_SECONDS * second)%Z
    (offset_date_time (wrap_i64 (as_i64_cast (Z.quot (u_expiration u) second) + CLOCK_SKEW_SECONDS) * second)).

(** Expired entries go first, also when the call is then refused. *)
Definition check_and_insert_key (seen : ReplayCache) (key : Hash) (expires_at now : Z)
    : result InvocationReplayError unit * ReplayCache :=
  let seen := filter (λ kv, (now < kv.2)%Z) seen in
  match seen !! key with
  | Some _ => (Err Duplicate, seen)
  | None => (Ok tt, <[key := expires_at]> seen)
  end.

Definition check_and_insert `{Blake3} `{TimeLib} (seen : ReplayCache) (u : Ucan) (bytes : string) (now : Z)
    : result InvocationReplayError unit * ReplayCache :=
  check_and_insert_key seen (hash bytes) (invocation_expires_at u now) now.

(** ** Sequences of calls *)

Record Call := mkCall { call_ucan : Ucan; call_bytes : string; call_now : Z }.

Definition serve `{Blake3} `{TimeLib} (seen : ReplayCache) (calls : list Call) : ReplayCache :=
  fold_left (λ seen c, (check_and_insert seen (call_ucan c) (call_bytes c) (call_now c)).2) calls seen.

Lemma check_key_spec seen key e now r seen' :
  check_and_insert_key seen key e now = (r, seen') →
  (r = Ok tt ↔ ∀ e', seen !! key = Some e' → (e' ≤ now)%Z) ∧
  ∀ k e', seen' !! k = Some e' ↔
    (seen !! k = Some e' ∧ (now < e')%Z) ∨ (k = key ∧ e' = e ∧ r = Ok tt).
Proof.
  unfold check_and_insert_key. set (kept := filter _ seen).
  assert (∀ k e', kept !! k = Some e' ↔ seen !! k = Some e' ∧ (now < e')%Z) as Hkept
    by (intros; apply map_lookup_filter_Some).
  clearbody kept. destruct (kept !! key) as [e0|] eqn:Hk; intros [= <- <-].
  - apply Hkept in Hk as [Hk Hlt]. split; [|naive_solver]. split; [done|]. intros Hle. specialize (Hle _ Hk). lia.
  - split.
    + split; [|done]. intros _ e' He'. destruct (Z.le_gt_cases e' now); [done|].
      assert (kept !! key = Some e') by (apply Hkept; split; [done|lia]). congruence.
    + intros k e'. destruct (decide (k = key)) as [->|Hne].
      * rewrite lookup_insert_eq. split; [naive_solver|]. intros [[Hs Hlt]|(_ & -> & _)]; [|done].
        assert (kept !! key = Some e') by (by apply Hkept). congruence.
      * rewrite lookup_insert_ne by done. rewrite Hkept. naive_solver.
Qed.

(** An entry that outlives every call of a sequence survives it. *)
Lemma serve_keeps `{Blake3} `{TimeLib} calls seen k e t :
  seen !! k = Some e → (t < e)%Z → Forall (λ c, (call_now c ≤ t)%Z) calls → serve seen calls !! k = Some e.
Proof.
  intros Hk Ht Hcalls. revert seen Hk. induction Hcalls as [|c calls Hc _ IH]; intros seen Hk; [done|].
  apply IH. destruct (check_and_insert seen _ _ _) as [r seen'] eqn:Hcheck. simpl.
  unfold check_and_insert in Hcheck. apply check_key_spec in Hcheck as [_ Hs]. apply Hs. left. split; [done|]. lia.
Qed.

(** ** Claims *)

(** C32: no replay while a token is valid: an invocation whose expiration the
    calendar can represent, once accepted, is refused as a duplicate by every
    later call, whatever calls come between, until a minute after it expires
    (so as long as its signature and time window would still verify). *)
Theorem invocation_replay_rejected `{Blake3} `{TimeLib} (seen : ReplayCache) (u : Ucan) (bytes : string)
    (now e now' : Z) (calls : list Call) :
  offset_date_time (wrap_i64 (as_i64_cast (Z.quot (u_expiration u) second) + CLOCK_SKEW_SECONDS) * second) = Some e →
  (check_and_insert seen u bytes now).1 = Ok tt →
  Forall (λ c, (call_now c ≤ now')%Z) calls → (now' < e)%Z →
  (check_and_insert (serve (check_and_insert seen u bytes now).2 calls) u bytes now').1 = Err Duplicate.
Proof.
  intros He Hok Hcalls Hlt. destruct (check_and_insert seen u bytes now) as [r seen1] eqn:Hfirst. simpl in Hok |- *.
  subst r. unfold check_and_insert in Hfirst. apply check_key_spec in Hfirst as [_ Hs].
  assert (serve seen1 calls !! hash bytes = Some e) as Hkept.
  { eapply serve_keeps; [|exact Hlt|done]. apply Hs. right. split_and!; try done.
    unfold invocation_expires_at. by rewrite He. }
  destruct (check_and_insert (serve seen1 calls) u bytes now') as [r seen2] eqn:Hsecond. simpl.
  unfold check_and_insert in Hsecond. apply check_key_spec in Hsecond as [Hr _].
  destruct r as [[]|[]]; [|done]. apply proj1 in Hr. specialize (Hr eq_refl _ Hkept). lia.
Qed.

(** ** Witnesses *)

#[local] Existing Instance demo_blake.
(** The range of the [time] crate's dates without its [large-dates] feature. *)
Definition demo_calendar : TimeLib := λ z,
  if bool_decide (- 377705116800 * second ≤ z < 253402300800 * second)%Z then Some z else None.
#[local] Existing Instance demo_calendar.

Lemma invocation_replay_rejected_witness :
  (check_and_insert (serve (check_and_insert ∅ (demo_ucan alice alice [] "i") "i" 0).2
     [mkCall (demo_ucan bob bob [] "j") "j" 5]) (demo_ucan alice alice [] "i") "i" 10).1 = Err Duplicate.
Proof.
  apply (invocation_replay_rejected ∅ (demo_ucan alice alice [] "i") "i" 0 60000000000 10); [by vm_compute..| |].
  - constructor; [simpl; lia|constructor].
  - lia.
Defined.

(** A token that expires after the year 9999 is remembered for a minute only:
    after that the same invocation is accepted again, although it is still
    within its validity. *)
Theorem far_expiry_replayed :
  let u := mkUcan alice alice None (253402300800 * second) None [] [] "i" in
  let first := check_and_insert ∅ u "i" 0 in
  first.1 = Ok tt ∧
  (check_and_insert first.2 u "i" (59 * second)).1 = Err Duplicate ∧
  (check_and_insert first.2 u "i" (60 * second)).1 = Ok tt.
Proof. by vm_compute. Qed.
