(* ===== verification/EncryptionNetwork.v ===== *)
(** * Encryption networks: tinycloud-core/src/encryption_network/{types,canonical,protocol,backend,service}.rs
      and tinycloud-node-server/src/routes/encryption.rs

    A network is a key pair of a space owner that the node keeps.  Clients seal the
    keys of their data to its public key; whoever holds the decrypt capability on
    the network asks the node to open such a key and to seal it again to a key of
    its own.  The model has the tables, the life of a network, both forms of
    decrypt and admin requests, with the audit rows that remain when a request is
    refused, the local key backend and the routes.  Base64, SHA-256, Ed25519,
    X25519 and the texts of instants and doubles are parameters. *)
From S2P Require Import Prelude Str Chars Json Identity Resource Registry SqlCaveat ColumnEncryption Tables Jcs PolicyCapability Storage Chain Tokens Events Demo Delegation Invocation Revocation Kv Transact Authority KvStore Query Invoke.

(** ** types.rs *)

Definition ALG_X25519_AES256GCM : string := "x25519-aes256gcm/v1".

Inductive NetworkState := Pending | Generating | Active | Rotating | Revoked | Failed.
#[export] Instance NetworkState_eq_dec : EqDecision NetworkState.
Proof. solve_decision. Defined.

Definition network_state_as_str (s : NetworkState) : string :=
  match s with
  | Pending => "pending" | Generating => "generating" | Active => "active"
  | Rotating => "rotating" | Revoked => "revoked" | Failed => "failed"
  end.

Definition network_state_parse (s : string) : option NetworkState :=
  if decide (s = "pending") then Some Pending else if decide (s = "generating") then Some Generating
  else if decide (s = "active") then Some Active else if decide (s = "rotating") then Some Rotating
  else if decide (s = "revoked") then Some Revoked else if decide (s = "failed") then Some Failed else None.

Inductive KeyBackendKind := LocalOneOfOne | Dstack | Threshold.

Definition key_backend_kind_as_str (k : KeyBackendKind) : string :=
  match k with LocalOneOfOne => "local-one-of-one" | Dstack => "dstack" | Threshold => "threshold" end.

Definition key_backend_kind_parse (s : string) : option KeyBackendKind :=
  if decide (s = "local-one-of-one") then Some LocalOneOfOne else if decide (s = "dstack") then Some Dstack
  else if decide (s = "threshold") then Some Threshold else None.

Record NetworkDescriptor := mkNetworkDescriptor {
  nd_network_id : NetworkId;
  nd_owner_did : string;
  nd_name : string;
  nd_members : list (string * string);
  nd_threshold : Z * Z;
  nd_state : NetworkState;
  nd_public_encryption_key : string;
  nd_alg : string;
  nd_key_version : Z;
  nd_key_backend : KeyBackendKind;
  nd_created_at : string;
  nd_updated_at : string;
}.

(** ** canonical.rs *)

(** The text of a double as [serde_json] writes it; SHA-256 is [Sha256]. *)
Class DisplayFloat := display_float : Z → string.

Section Canonical.
Context `{DisplayFloat} `{Sha256}.

Definition hash_hex (input : string) : string := hex_encode (sha256_digest input).

Definition number_text (n : Number) : string :=
  match n with
  | NInt z => if (z <? 0)%Z then String "-" (fmt_u64 (Z.to_N (- z))) else fmt_u64 (Z.to_N z)
  | NFloat r => display_float r
  end.

(** [write_canonical]; strings are escaped as [serde_json] escapes them, which is
    [Jcs.write_string]; keys are ordered by their bytes. *)
Fixpoint write_canonical (v : json) : string :=
  match v with
  | JNull => "null"
  | JBool b => if b then "true" else "false"
  | JNumber n => number_text n
  | JString s => write_string s
  | JArray l => "[" +:+ String.concat "," (write_canonical <$> l) +:+ "]"
  | JObject m =>
      let entries := sort_by (λ a b, bytes_leb a.1 b.1) ((λ '(k, v), (k, write_canonical v)) <$> m) in
      "{" +:+ String.concat "," ((λ '(k, t), write_string k +:+ ":" +:+ t) <$> entries) +:+ "}"
  end.

Definition canonical_hash (v : json) : string := hash_hex (write_canonical v).

End Canonical.

(** ** protocol.rs *)

Definition DECRYPT_REQUEST_TYPE : string := "tinycloud.encryption.decrypt/v1".
Definition DECRYPT_RESULT_TYPE : string := "tinycloud.encryption.decrypt-result/v1".
Definition NETWORK_ADMIN_TYPE : string := "tinycloud.encryption.network-admin/v1".
Definition DECRYPT_ACTION : string := "tinycloud.encryption/decrypt".
Definition NETWORK_CREATE_ACTION : string := "tinycloud.encryption/network.create".
Definition NETWORK_REVOKE_ACTION : string := "tinycloud.encryption/network.revoke".

Record DecryptRequestBody := mkDecryptRequestBody {
  db_ty : string;
  db_target_node : string;
  db_network_id : NetworkId;
  db_alg : string;
  db_key_version : Z;
  db_encrypted_symmetric_key : string;
  db_encrypted_symmetric_key_hash : string;
  db_receiver_public_key : string;
  db_receiver_public_key_hash : string;
}.

Record DecryptFacts := mkDecryptFacts {
  df_ty : string;
  df_target_node : string;
  df_network_id : NetworkId;
  df_body_hash : string;
  df_encrypted_symmetric_key_hash : string;
  df_receiver_public_key_hash : string;
  df_alg : string;
  df_key_version : Z;
}.

Record NetworkAdminFacts := mkNetworkAdminFacts {
  nf_ty : string;
  nf_target_node : string;
  nf_network_id : NetworkId;
  nf_body_hash : string;
  nf_action : string;
}.

Record InvocationCapability := mkInvocationCapability { ic_with : string; ic_can : string; ic_nb : list (string * json) }.

(** The self-contained envelopes; [F] are the facts. *)
Record Envelope (F : Type) := mkEnvelope {
  en_issuer : string;
  en_audience : string;
  en_att : list InvocationCapability;
  en_facts : F;
  en_nonce : string;
  en_not_before : option Z;
  en_exp : Z;
  en_proof_cid : list string;
  en_sig : string;
}.
Arguments mkEnvelope {F}.
Arguments en_issuer {F}. Arguments en_audience {F}. Arguments en_att {F}. Arguments en_facts {F}. Arguments en_nonce {F}.
Arguments en_not_before {F}. Arguments en_exp {F}. Arguments en_proof_cid {F}. Arguments en_sig {F}.

Record DecryptResponseBody := mkDecryptResponseBody {
  rp_target_node : string;
  rp_network_id : NetworkId;
  rp_invocation_cid : string;
  rp_encrypted_symmetric_key_hash : string;
  rp_receiver_public_key_hash : string;
  rp_wrapped_key : string;
  rp_alg : string;
  rp_key_version : Z;
  rp_request_hash : string;
  rp_node_id : string;
  rp_node_signature : string;
}.

(** The fields of a struct as serde reads them: from an object, others ignored, or
    from an array of exactly these. *)
Definition struct_fields (names : list string) (v : json) : option (list json) :=
  match v with
  | JObject m => mapM (λ k, obj_get k m) names
  | JArray l => if (length l =? length names)%nat then Some l else None
  | _ => None
  end.

Section Protocol.
Context `{Keccak256}.

Definition de_network_id (v : json) : option NetworkId :=
  s ← as_str v; match network_id_from_str s with Ok n => Some n | Err _ => None end.

Definition de_decrypt_body (v : json) : option DecryptRequestBody :=
  l ← struct_fields ["type"; "targetNode"; "networkId"; "alg"; "keyVersion"; "encryptedSymmetricKey"; "encryptedSymmetricKeyHash";
                     "receiverPublicKey"; "receiverPublicKeyHash"] v;
  match l with
  | [ty; target; net; alg; version; key; key_hash; receiver; receiver_hash] =>
      ty ← as_str ty; target ← as_str target; net ← de_network_id net; alg ← as_str alg; version ← as_i64 version;
      key ← as_str key; key_hash ← as_str key_hash; receiver ← as_str receiver; receiver_hash ← as_str receiver_hash;
      Some (mkDecryptRequestBody ty target net alg version key key_hash receiver receiver_hash)
  | _ => None
  end.

Definition de_decrypt_facts (v : json) : option DecryptFacts :=
  l ← struct_fields ["type"; "targetNode"; "networkId"; "bodyHash"; "encryptedSymmetricKeyHash"; "receiverPublicKeyHash"; "alg"; "keyVersion"] v;
  match l with
  | [ty; target; net; body_hash; key_hash; receiver_hash; alg; version] =>
      ty ← as_str ty; target ← as_str target; net ← de_network_id net; body_hash ← as_str body_hash; key_hash ← as_str key_hash;
      receiver_hash ← as_str receiver_hash; alg ← as_str alg; version ← as_i64 version;
      Some (mkDecryptFacts ty target net body_hash key_hash receiver_hash alg version)
  | _ => None
  end.

Definition de_admin_facts (v : json) : option NetworkAdminFacts :=
  l ← struct_fields ["type"; "targetNode"; "networkId"; "bodyHash"; "action"] v;
  match l with
  | [ty; target; net; body_hash; action] =>
      ty ← as_str ty; target ← as_str target; net ← de_network_id net; body_hash ← as_str body_hash; action ← as_str action;
      Some (mkNetworkAdminFacts ty target net body_hash action)
  | _ => None
  end.

End Protocol.

Definition decrypt_facts_json (f : DecryptFacts) : json :=
  JObject [("alg", JString (df_alg f)); ("bodyHash", JString (df_body_hash f));
           ("encryptedSymmetricKeyHash", JString (df_encrypted_symmetric_key_hash f)); ("keyVersion", JNumber (NInt (df_key_version f)));
           ("networkId", JString (network_id_to_string (df_network_id f)));
           ("receiverPublicKeyHash", JString (df_receiver_public_key_hash f)); ("targetNode", JString (df_target_node f)); ("type", JString (df_ty f))].

Definition admin_facts_json (f : NetworkAdminFacts) : json :=
  JObject [("action", JString (nf_action f)); ("bodyHash", JString (nf_body_hash f));
           ("networkId", JString (network_id_to_string (nf_network_id f))); ("targetNode", JString (nf_target_node f)); ("type", JString (nf_ty f))].

(** Caveats are left out when there are none. *)
Definition capability_json (c : InvocationCapability) : json :=
  JObject (("can", JString (ic_can c)) :: match ic_nb c with [] => [] | m => [("nb", JObject m)] end ++ [("with", JString (ic_with c))]).

Definition unsigned_payload {F} (facts_json : F → json) (e : Envelope F) : json :=
  JObject [("att", JArray (capability_json <$> en_att e)); ("aud", JString (en_audience e)); ("exp", JNumber (NInt (en_exp e)));
           ("facts", facts_json (en_facts e)); ("iss", JString (en_issuer e));
           ("nbf", match en_not_before e with Some n => JNumber (NInt n) | None => JNull end); ("nonce", JString (en_nonce e));
           ("prf", JArray (JString <$> en_proof_cid e))].

(** The response without its signature. *)
Definition response_json (r : DecryptResponseBody) : json :=
  JObject [("alg", JString (rp_alg r)); ("encryptedSymmetricKeyHash", JString (rp_encrypted_symmetric_key_hash r));
           ("invocationCid", JString (rp_invocation_cid r)); ("keyVersion", JNumber (NInt (rp_key_version r)));
           ("networkId", JString (network_id_to_string (rp_network_id r))); ("nodeId", JString (rp_node_id r));
           ("receiverPublicKeyHash", JString (rp_receiver_public_key_hash r)); ("requestHash", JString (rp_request_hash r));
           ("targetNode", JString (rp_target_node r)); ("type", JString DECRYPT_RESULT_TYPE); ("wrappedKey", JString (rp_wrapped_key r))].

(** ** backend.rs *)

Inductive KeyBackendError := SealedKeyMissing | InvalidSealedKey | InvalidPublicKey | InvalidWrappedKey | BackendEncryption (e : EncryptionError).

Record GeneratedKey := mkGeneratedKey { gk_public_key : string; gk_sealed_private_key : string; gk_alg : string }.

(** The trait; random bytes are an argument. *)
Class KeyBackend := {
  backend_kind : KeyBackendKind;
  backend_generate : string → result KeyBackendError GeneratedKey;
  backend_unwrap : string → string → result KeyBackendError string;
  backend_rewrap : string → string → string → result KeyBackendError string;
}.

(** X25519 and the column cipher of a key. *)
Class X25519 := {
  x_public : string → string;
  x_shared : string → string → string;
  cipher_of_key : string → ColumnEncryption;
}.

Section Backend.
Context `{X25519}.

(** The random bytes of a wrap: an ephemeral secret and the cipher's nonce. *)
Definition wrap_to_public_key (ephemeral nonce recipient plaintext : string) : result KeyBackendError string :=
  _ ← ensure (String.length recipient =? 32)%nat InvalidPublicKey;
  Ok (x_public ephemeral +:+ encrypt (cipher_of_key (x_shared ephemeral recipient)) nonce plaintext).

Definition unwrap_with_secret (secret wrapped : string) : result KeyBackendError string :=
  _ ← ensure (32 <=? String.length wrapped)%nat InvalidWrappedKey;
  map_err BackendEncryption
    (decrypt (cipher_of_key (x_shared secret (String.substring 0 32 wrapped))) (String.substring 32 (String.length wrapped - 32) wrapped)).

Definition open_private (seal : ColumnEncryption) (sealed : string) : result KeyBackendError string :=
  opened ← map_err BackendEncryption (decrypt seal sealed);
  _ ← ensure (String.length opened =? 32)%nat InvalidSealedKey;
  Ok opened.

(** [LocalOneOfOneBackend]; random bytes are split into a secret and a nonce. *)
Definition random_secret (random : string) : string := String.substring 0 32 random.
Definition random_nonce (random : string) : string := String.substring 32 12 random.

Definition local_backend (seal : ColumnEncryption) : KeyBackend :=
  {| backend_kind := LocalOneOfOne;
     backend_generate := λ random,
       Ok (mkGeneratedKey (x_public (random_secret random)) (encrypt seal (random_nonce random) (random_secret random)) ALG_X25519_AES256GCM);
     backend_unwrap := λ sealed wrapped, secret ← open_private seal sealed; unwrap_with_secret secret wrapped;
     backend_rewrap := λ random symmetric receiver, wrap_to_public_key (random_secret random) (random_nonce random) receiver symmetric |}.

End Backend.

(** ** service.rs: the tables *)

Record NetworkRow := mkNetworkRow {
  nw_owner_did : string;
  nw_name : string;
  nw_alg : string;
  nw_key_version : Z;
  nw_public_key : string;
  nw_state : string;
  nw_threshold_n : Z;
  nw_threshold_t : Z;
  nw_key_backend : string;
  nw_sealed_private_key : option string;
  nw_created_at : string;
  nw_updated_at : string;
}.

Record CeremonyRow := mkCeremonyRow {
  ce_network_id : string;
  ce_kind : string;
  ce_state : string;
  ce_transcript_hash : option string;
  ce_started_at : string;
  ce_completed_at : option string;
  ce_failure : option string;
}.

Record AuditRow := mkAuditRow {
  au_requester : string;
  au_network_id : string;
  au_node_id : string;
  au_outcome : string;
  au_decided_at : string;
}.

(** Tables by primary key. *)
Record EncDb := mkEncDb {
  networks : gmap string NetworkRow;
  members : gmap (string * string) string;
  ceremonies : gmap string CeremonyRow;
  nonces : gmap (string * string) string;
  audits : gmap string AuditRow;
}.

Definition enc_empty : EncDb := mkEncDb ∅ ∅ ∅ ∅ ∅.

Definition set_networks (t : gmap string NetworkRow) (s : EncDb) : EncDb := mkEncDb t (members s) (ceremonies s) (nonces s) (audits s).
Definition set_members (t : gmap (string * string) string) (s : EncDb) : EncDb := mkEncDb (networks s) t (ceremonies s) (nonces s) (audits s).
Definition set_ceremonies (t : gmap string CeremonyRow) (s : EncDb) : EncDb := mkEncDb (networks s) (members s) t (nonces s) (audits s).
Definition set_nonces (t : gmap (string * string) string) (s : EncDb) : EncDb := mkEncDb (networks s) (members s) (ceremonies s) t (audits s).
Definition set_audits (t : gmap string AuditRow) (s : EncDb) : EncDb := mkEncDb (networks s) (members s) (ceremonies s) (nonces s) t.

Inductive EncryptionServiceError :=
| EDb | NetworkNotFound | NetworkAlreadyExists | NetworkNotActive (state : string) | NetworkRevoked | EUnauthorized | AudienceMismatch
| TargetNodeMismatch | OwnerMismatch | NetworkMismatch | EExpired | NotYetValid | HashMismatch (what : string) | AlgKeyVersionMismatch
| SignatureInvalid | WrongInvocationType | NonceReplay | EBackend (e : KeyBackendError) | InvalidBody | EBase64 | Signing.

(** Code that reads and changes the tables and may fail; what was changed before a
    failure stays. *)
Definition M (A : Type) : Type := EncDb → result EncryptionServiceError A * EncDb.
#[export] Instance M_ret : MRet M := λ A a s, (Ok a, s).
#[export] Instance M_bind : MBind M := λ A B f m s, match m s with (Ok a, s) => f a s | (Err e, s) => (Err e, s) end.

Definition fail {A} (e : EncryptionServiceError) : M A := λ s, (Err e, s).
Definition lift {A} (r : result EncryptionServiceError A) : M A := λ s, (r, s).
Definition guard (b : bool) (e : EncryptionServiceError) : M () := λ s, (if b then Ok tt else Err e, s).
Definition get : M EncDb := λ s, (Ok s, s).
Definition put (s : EncDb) : M () := λ _, (Ok tt, s).

(** The parameters of the service. *)
Class EncLib := {
  std_encode : string → string;                    (* Base64 *)
  std_decode : string → option string;
  rfc3339_of : Z → string;                         (* the text of an instant *)
  multibase_decode : string → option string;
  ed25519_verify : string → option (string → string → bool);   (* key bytes, message, signature *)
  ucan_nonce : Ucan → option string;               (* the payload's nonce *)
}.

(** The service: the node's DID and, outside tests, the key it signs with. *)
Record EncryptionService := mkEncryptionService {
  sv_node_did : string;
  sv_sign : option (string → option string);
}.

Definition INVOCATION_TTL_SECONDS : Z := 300.

Section Service.
Context `{Keccak256} `{DisplayFloat} `{Sha256} `{Blake3} `{CidLib} `{RowOrder} `{KeyBackend} `{EncLib}.
Context (sv : EncryptionService).

Definition network_id_matches (actual : string) (expected : NetworkId) : bool :=
  match network_id_from_str actual with
  | Ok n => bool_decide (n = expected)
  | Err _ => bool_decide (actual = network_id_to_string expected)
  end.

(** *** Networks *)

Definition insert_network (id : string) (row : NetworkRow) : M () :=
  s ← get; _ ← guard (bool_decide (networks s !! id = None)) EDb; put (set_networks (<[id := row]> (networks s)) s).

Definition insert_ceremony (id : string) (row : CeremonyRow) : M () :=
  s ← get; _ ← guard (bool_decide (ceremonies s !! id = None)) EDb; put (set_ceremonies (<[id := row]> (ceremonies s)) s).

Definition insert_member (id node role : string) : M () :=
  s ← get; _ ← guard (bool_decide (members s !! (id, node) = None)) EDb; put (set_members (<[(id, node) := role]> (members s)) s).

Definition complete_ceremony (id transcript at_ : string) : M () :=
  s ← get;
  c ← lift (ok_or (ceremonies s !! id) NetworkNotFound);
  put (set_ceremonies (<[id := mkCeremonyRow (ce_network_id c) (ce_kind c) "completed" (Some transcript) (ce_started_at c) (Some at_)
                                 (ce_failure c)]> (ceremonies s)) s).

(** [create_one_of_one_network]; statements run one by one, outside a transaction. *)
Definition create_one_of_one_network (now : Z) (random name owner : string) (threshold : Z * Z) : M NetworkDescriptor :=
  n ← lift (map_err (λ _, InvalidBody) (network_id_new owner name));
  let id := network_id_to_string n in
  s ← get;
  _ ← guard (bool_decide (networks s !! id = None)) NetworkAlreadyExists;
  let at_ := rfc3339_of now in
  let ceremony_id := "ceremony:" +:+ id +:+ ":" +:+ at_ in
  _ ← insert_ceremony ceremony_id (mkCeremonyRow id "initial" "started" None at_ None None);
  generated ← lift (map_err EBackend (backend_generate random));
  _ ← insert_network id
        (mkNetworkRow (owner_did n) name (gk_alg generated) 1 (gk_public_key generated) (network_state_as_str Active) threshold.1 threshold.2
           (key_backend_kind_as_str backend_kind) (Some (gk_sealed_private_key generated)) at_ at_);
  _ ← insert_member id (sv_node_did sv) "primary";
  _ ← complete_ceremony ceremony_id (hash_hex (gk_public_key generated)) at_;
  mret (mkNetworkDescriptor n (owner_did n) name [(sv_node_did sv, "primary")] threshold Active (gk_public_key generated) (gk_alg generated) 1
          backend_kind at_ at_).

Definition get_network (n : NetworkId) : M NetworkDescriptor :=
  let id := network_id_to_string n in
  s ← get;
  row ← lift (ok_or (networks s !! id) NetworkNotFound);
  let ms := (λ kv, (kv.1.2, kv.2)) <$> select (λ kv, bool_decide (kv.1.1 = id)) (map_to_list (members s)) in
  state ← lift (ok_or (network_state_parse (nw_state row)) InvalidBody);
  mret (mkNetworkDescriptor n (nw_owner_did row) (nw_name row) ms (nw_threshold_n row, nw_threshold_t row) state (nw_public_key row) (nw_alg row)
          (nw_key_version row) (default LocalOneOfOne (key_backend_kind_parse (nw_key_backend row))) (nw_created_at row) (nw_updated_at row)).

Definition get_network_by_name (name : string) (owner : option string) : M NetworkDescriptor :=
  match owner with
  | Some owner => n ← lift (map_err (λ _, InvalidBody) (network_id_new owner name)); get_network n
  | None =>
      s ← get;
      '(id, _) ← lift (ok_or (select_one (λ kv, bool_decide (nw_name kv.2 = name) && bool_decide (nw_state kv.2 = network_state_as_str Active))
                                (map_to_list (networks s))) NetworkNotFound);
      n ← lift (map_err (λ _, InvalidBody) (network_id_from_str id));
      get_network n
  end.

Definition with_state (state at_ : string) (r : NetworkRow) : NetworkRow :=
  mkNetworkRow (nw_owner_did r) (nw_name r) (nw_alg r) (nw_key_version r) (nw_public_key r) state (nw_threshold_n r) (nw_threshold_t r)
    (nw_key_backend r) (nw_sealed_private_key r) (nw_created_at r) at_.

Definition revoke_network (now : Z) (n : NetworkId) : M () :=
  let id := network_id_to_string n in
  s ← get;
  row ← lift (ok_or (networks s !! id) NetworkNotFound);
  put (set_networks (<[id := with_state (network_state_as_str Revoked) (rfc3339_of now) row]> (networks s)) s).

(** *** Time, nonces, audit *)

Definition validate_invocation_time (now : Z) (not_before : option Z) (exp : Z) : result EncryptionServiceError unit :=
  let now_ts := (now / 1000000000)%Z in
  _ ← ensure (match not_before with Some nbf => (nbf <=? now_ts)%Z | None => true end) NotYetValid;
  _ ← ensure (now_ts <? exp)%Z EExpired;
  ensure (wrap_i64 (exp - now_ts) <=? INVOCATION_TTL_SECONDS)%Z EExpired.

(** The text of the expiry is only stored. *)
Definition consume_nonce (requester nonce : string) (exp : Z) : M () :=
  s ← get;
  _ ← guard (bool_decide (nonces s !! (requester, nonce) = None)) NonceReplay;
  put (set_nonces (<[(requester, nonce) := rfc3339_of (exp * 1000000000)]> (nonces s)) s).

(** A row whose request hash is present is left as it is. *)
Definition record_audit_row (now : Z) (request_hash requester : string) (n : NetworkId) (outcome : string) : M () :=
  s ← get;
  match audits s !! request_hash with
  | Some _ => mret tt
  | None => put (set_audits (<[request_hash := mkAuditRow requester (network_id_to_string n) (sv_node_did sv) outcome (rfc3339_of now)]> (audits s)) s)
  end.

Definition envelope_cid {F} (facts_json : F → json) (e : Envelope F) : string := canonical_hash (unsigned_payload facts_json e).

Definition record_audit (now : Z) (e : Envelope DecryptFacts) (n : NetworkId) (outcome : string) : M () :=
  record_audit_row now (hash_hex (envelope_cid decrypt_facts_json e +:+ df_body_hash (en_facts e))) (en_issuer e) n outcome.

Definition native_invocation_cid (i : InvocationInfo) : string := cid_text (hash (u_encoded (ii_invocation i))).

Definition record_native_audit (now : Z) (i : InvocationInfo) (n : NetworkId) (facts : DecryptFacts) (outcome : string) : M () :=
  record_audit_row now (hash_hex (native_invocation_cid i +:+ df_body_hash facts)) (ii_invoker i) n outcome.

(** A refusal that is recorded first. *)
Definition guard_audited (b : bool) (audit : M ()) (e : EncryptionServiceError) : M () :=
  if b then mret tt else _ ← audit; fail e.

(** *** Signatures *)

Definition did_key_bytes (did : string) : option string :=
  encoded ← strip_prefix "did:key:" did;
  bytes ← multibase_decode encoded;
  match bytes with
  | String c rest =>
      if negb (bool_decide (c = char 237)) then None
      else if (String.length rest =? 32)%nat then Some rest
      else match rest with
           | String d rest => if bool_decide (d = char 1) && (String.length rest =? 32)%nat then Some rest else None
           | "" => None
           end
  | "" => None
  end.

Definition verify_signature (issuer sig : string) (payload : json) : result EncryptionServiceError unit :=
  key ← ok_or (did_key_bytes issuer) SignatureInvalid;
  verify ← ok_or (ed25519_verify key) SignatureInvalid;
  sig ← ok_or (std_decode sig) SignatureInvalid;
  ensure (verify (write_canonical payload) sig) SignatureInvalid.

Definition sign_response (r : DecryptResponseBody) : result EncryptionServiceError string :=
  let message := write_canonical (response_json r) in
  match sv_sign sv with
  | Some sign => signature ← ok_or (sign message) Signing; Ok (std_encode signature)
  | None => Ok (std_encode (hash_hex message))
  end.

(** *** Native invocations *)

Definition native_fact {T} (de : json → option T) (i : InvocationInfo) : result EncryptionServiceError T :=
  ok_or (facts ← u_facts (ii_invocation i); head (omap de facts)) InvalidBody.

Definition native_exp (i : InvocationInfo) : Z := as_i64_cast (Z.quot (u_expiration (ii_invocation i)) 1000000000).
Definition native_not_before (i : InvocationInfo) : option Z :=
  (λ t, as_i64_cast (Z.quot t 1000000000)) <$> u_not_before (ii_invocation i).
Definition native_nonce (i : InvocationInfo) : result EncryptionServiceError string := ok_or (ucan_nonce (ii_invocation i)) InvalidBody.

Definition verify_network_admin_invocation (now : Z) (n : NetworkId) (action : string) (e : Envelope NetworkAdminFacts) (body : json) : M () :=
  let f := en_facts e in
  _ ← guard (bool_decide (nf_ty f = NETWORK_ADMIN_TYPE)) WrongInvocationType;
  _ ← guard (bool_decide (en_audience e = sv_node_did sv)) AudienceMismatch;
  _ ← guard (bool_decide (nf_target_node f = sv_node_did sv)) TargetNodeMismatch;
  _ ← guard (bool_decide (nf_network_id f = n)) NetworkMismatch;
  _ ← guard (bool_decide (nf_action f = action)) EUnauthorized;
  cap ← lift (ok_or (find (λ c, bool_decide (ic_can c = action)) (en_att e)) EUnauthorized);
  _ ← guard (network_id_matches (ic_with cap) n) NetworkMismatch;
  _ ← guard (did_principal_matches (en_issuer e) (owner_did n)) OwnerMismatch;
  _ ← guard (bool_decide (canonical_hash body = nf_body_hash f)) (HashMismatch "bodyHash");
  _ ← lift (validate_invocation_time now (en_not_before e) (en_exp e));
  _ ← lift (verify_signature (en_issuer e) (en_sig e) (unsigned_payload admin_facts_json e));
  consume_nonce (en_issuer e) (en_nonce e) (en_exp e).

Definition verify_network_admin_authorized (n : NetworkId) (action : string) (i : InvocationInfo) (body : json) : M () :=
  f ← lift (native_fact de_admin_facts i);
  _ ← guard (bool_decide (nf_ty f = NETWORK_ADMIN_TYPE)) WrongInvocationType;
  _ ← guard (bool_decide (u_audience (ii_invocation i) = sv_node_did sv)) AudienceMismatch;
  _ ← guard (bool_decide (nf_target_node f = sv_node_did sv)) TargetNodeMismatch;
  _ ← guard (bool_decide (nf_network_id f = n)) NetworkMismatch;
  _ ← guard (bool_decide (nf_action f = action)) EUnauthorized;
  cap ← lift (ok_or (find (λ c, bool_decide (cap_ability c = action)) (ii_capabilities i)) EUnauthorized);
  _ ← guard (network_id_matches (resource_display (cap_resource cap)) n) NetworkMismatch;
  _ ← guard (bool_decide (canonical_hash body = nf_body_hash f)) (HashMismatch "bodyHash");
  nonce ← lift (native_nonce i);
  consume_nonce (ii_invoker i) nonce (native_exp i).

(** *** Decrypting *)

(** The state of the network allows it, and request and invocation name its key. *)
Definition active_network (n : NetworkId) (body : DecryptRequestBody) (f : DecryptFacts) (audit : string → M ()) : M NetworkDescriptor :=
  d ← get_network n;
  _ ← match nd_state d with
      | Active => mret tt
      | Revoked => _ ← audit "denied:revoked"; fail NetworkRevoked
      | other => _ ← audit "denied:state"; fail (NetworkNotActive (network_state_as_str other))
      end;
  _ ← guard (bool_decide (nd_alg d = db_alg body) && bool_decide (nd_key_version d = db_key_version body)) AlgKeyVersionMismatch;
  _ ← guard (bool_decide (nd_alg d = df_alg f) && bool_decide (nd_key_version d = df_key_version f)) AlgKeyVersionMismatch;
  mret d.

(** The hashes of the facts bind the request; the decoded receiver key and wrapped key. *)
Definition bound_request (body : DecryptRequestBody) (f : DecryptFacts) (body_value : json) (audit : string → M ()) : M (string * string) :=
  receiver ← lift (ok_or (std_decode (db_receiver_public_key body)) EBase64);
  wrapped ← lift (ok_or (std_decode (db_encrypted_symmetric_key body)) EBase64);
  let receiver_hash := canonical_hash (JString (db_receiver_public_key body)) in
  _ ← guard_audited (bool_decide (receiver_hash = db_receiver_public_key_hash body) && bool_decide (receiver_hash = df_receiver_public_key_hash f))
        (audit "denied:receiver-hash") (HashMismatch "receiverPublicKeyHash");
  let key_hash := canonical_hash (JString (db_encrypted_symmetric_key body)) in
  _ ← guard_audited (bool_decide (key_hash = db_encrypted_symmetric_key_hash body) && bool_decide (key_hash = df_encrypted_symmetric_key_hash f))
        (audit "denied:key-hash") (HashMismatch "encryptedSymmetricKeyHash");
  _ ← guard_audited (bool_decide (canonical_hash body_value = df_body_hash f)) (audit "denied:body-hash") (HashMismatch "bodyHash");
  mret (receiver, wrapped).

(** [consume_nonce] with its audit. *)
Definition consume_nonce_audited (requester nonce : string) (exp : Z) (audit : string → M ()) : M () :=
  λ s, match consume_nonce requester nonce exp s with
       | (Err NonceReplay, s) => (_ ← audit "denied:replay"; fail NonceReplay) s
       | r => r
       end.

(** The key is opened and sealed to the receiver, and the answer signed. *)
Definition answer_request (random : string) (n : NetworkId) (d : NetworkDescriptor) (body : DecryptRequestBody) (body_value : json)
    (cid receiver wrapped : string) : M DecryptResponseBody :=
  s ← get;
  row ← lift (ok_or (networks s !! network_id_to_string n) NetworkNotFound);
  sealed ← lift (ok_or (nw_sealed_private_key row) (EBackend SealedKeyMissing));
  symmetric ← lift (map_err EBackend (backend_unwrap sealed wrapped));
  rewrapped ← lift (map_err EBackend (backend_rewrap random symmetric receiver));
  let r signature :=
    mkDecryptResponseBody (sv_node_did sv) n cid (canonical_hash (JString (db_encrypted_symmetric_key body)))
      (canonical_hash (JString (db_receiver_public_key body))) (std_encode rewrapped) (nd_alg d) (nd_key_version d)
      (hash_hex (cid +:+ canonical_hash body_value)) (sv_node_did sv) signature in
  signature ← lift (sign_response (r ""));
  mret (r signature).

(** [decrypt], for the self-contained envelope. *)
Definition decrypt_enveloped (now : Z) (random : string) (n : NetworkId) (e : Envelope DecryptFacts) (body_value : json) : M DecryptResponseBody :=
  body ← lift (ok_or (de_decrypt_body body_value) InvalidBody);
  let f := en_facts e in
  let audit := record_audit now e n in
  _ ← guard (bool_decide (db_ty body = DECRYPT_REQUEST_TYPE) && bool_decide (df_ty f = DECRYPT_REQUEST_TYPE)) WrongInvocationType;
  _ ← guard_audited (bool_decide (en_audience e = sv_node_did sv)) (audit "denied:audience") AudienceMismatch;
  _ ← guard_audited (bool_decide (df_target_node f = sv_node_did sv) && bool_decide (db_target_node body = sv_node_did sv))
        (audit "denied:target-node") TargetNodeMismatch;
  _ ← guard (bool_decide (df_network_id f = n) && bool_decide (db_network_id body = n)) NetworkMismatch;
  _ ← lift (verify_signature (en_issuer e) (en_sig e) (unsigned_payload decrypt_facts_json e));
  cap ← lift (ok_or (find (λ c, bool_decide (ic_can c = DECRYPT_ACTION)) (en_att e)) EUnauthorized);
  _ ← guard (network_id_matches (ic_with cap) n) NetworkMismatch;
  _ ← guard (did_principal_matches (en_issuer e) (owner_did n)) OwnerMismatch;
  d ← active_network n body f audit;
  _ ← lift (validate_invocation_time now (en_not_before e) (en_exp e));
  '(receiver, wrapped) ← bound_request body f body_value audit;
  _ ← consume_nonce_audited (en_issuer e) (en_nonce e) (en_exp e) audit;
  r ← answer_request random n d body body_value (envelope_cid decrypt_facts_json e) receiver wrapped;
  _ ← audit "allowed";
  mret r.

(** [decrypt_authorized], for an invocation the node has accepted. *)
Definition decrypt_authorized (now : Z) (random : string) (n : NetworkId) (i : InvocationInfo) (body_value : json) : M DecryptResponseBody :=
  body ← lift (ok_or (de_decrypt_body body_value) InvalidBody);
  f ← lift (native_fact de_decrypt_facts i);
  let audit := record_native_audit now i n f in
  _ ← guard (bool_decide (db_ty body = DECRYPT_REQUEST_TYPE) && bool_decide (df_ty f = DECRYPT_REQUEST_TYPE)) WrongInvocationType;
  _ ← guard_audited (bool_decide (u_audience (ii_invocation i) = sv_node_did sv)) (audit "denied:audience") AudienceMismatch;
  _ ← guard_audited (bool_decide (df_target_node f = sv_node_did sv) && bool_decide (db_target_node body = sv_node_did sv))
        (audit "denied:target-node") TargetNodeMismatch;
  _ ← guard (bool_decide (df_network_id f = n) && bool_decide (db_network_id body = n)) NetworkMismatch;
  cap ← lift (ok_or (find (λ c, bool_decide (cap_ability c = DECRYPT_ACTION)) (ii_capabilities i)) EUnauthorized);
  _ ← guard (network_id_matches (resource_display (cap_resource cap)) n) NetworkMismatch;
  d ← active_network n body f audit;
  _ ← lift (validate_invocation_time now (native_not_before i) (native_exp i));
  '(receiver, wrapped) ← bound_request body f body_value audit;
  nonce ← lift (native_nonce i);
  _ ← consume_nonce_audited (ii_invoker i) nonce (native_exp i) audit;
  r ← answer_request random n d body body_value (native_invocation_cid i) receiver wrapped;
  _ ← audit "allowed";
  mret r.

End Service.

(** ** routes/encryption.rs *)

Definition as_i32 (v : json) : option Z :=
  match v with JNumber (NInt z) => if bool_decide (-2^31 ≤ z < 2^31)%Z then Some z else None | _ => None end.

Definition de_threshold (v : json) : option (Z * Z) :=
  l ← struct_fields ["n"; "t"] v;
  match l with [n; t] => n ← as_i32 n; t ← as_i32 t; Some (n, t) | _ => None end.

(** Name, owner and threshold, one of one when it is absent. *)
Definition de_create_body (v : json) : option (string * string * (Z * Z)) :=
  let read name owner threshold :=
    name ← as_str name; owner ← as_str owner;
    threshold ← match threshold with Some t => de_threshold t | None => Some (1, 1)%Z end;
    Some (name, owner, threshold) in
  match v with
  | JObject m => name ← obj_get "name" m; owner ← obj_get "ownerDid" m; read name owner (obj_get "threshold" m)
  | JArray [name; owner] => read name owner None
  | JArray [name; owner; threshold] => read name owner (Some threshold)
  | _ => None
  end.

Definition service_status (e : EncryptionServiceError) : N :=
  match e with
  | NetworkNotFound => 404
  | NetworkAlreadyExists | NetworkNotActive _ => 409
  | EDb | EBackend _ | Signing => 500
  | InvalidBody | EBase64 => 400
  | _ => 401
  end.

Section EncryptionRoutes.
Context `{Keccak256} `{DisplayFloat} `{Sha256} `{Blake3} `{CidLib} `{RowOrder} `{KeyBackend} `{EncLib} `{TokenLib} `{HookFormats} `{DagCbor}
        `{TokenCodec} `{Collation}.
Context {B E : Type} `{!BlockStore B E}.
Context (sv : EncryptionService).
(** What executing an invocation depends on. *)
Context (encryption : option ColumnEncryption) (nonce : Hash → string) (setup : SpaceId → result TxError unit).

(** The stores a route works on. *)
Notation Stores := (Tables.Db * B * EncDb)%type.

(** [verify_auth]: the invocation names this node and is executed. *)
Definition verify_encryption_auth (now : Z) (db : Tables.Db) (b : B) (i : InvocationInfo) (bytes : string) : result N Tables.Db * B :=
  if negb (bool_decide (u_audience (ii_invocation i) = sv_node_did sv)) then (Err 401%N, b)
  else
    let '(r, b) := invoke encryption nonce now setup db b i bytes ∅ in
    (map_err (λ _, 401%N) ('(_, _, db) ← r; Ok db), b).

(** A route: authorization, then the service; [now'] is the later clock. *)
Definition with_auth {A} (now : Z) (i : InvocationInfo) (bytes : string) (st : Stores) (k : EncDb → result N A * EncDb) : result N A * Stores :=
  let '(db, b, s) := st in
  match verify_encryption_auth now db b i bytes with
  | (Err e, b) => (Err e, (db, b, s))
  | (Ok db, b) => let '(r, s) := k s in (r, (db, b, s))
  end.

Definition run_service {A} (m : M A) (s : EncDb) : result N A * EncDb := let '(r, s) := m s in (map_err service_status r, s).

Definition create_network_route (now now' : Z) (random : string) (i : InvocationInfo) (bytes : string) (body : json) (st : Stores)
    : result N NetworkDescriptor * Stores :=
  with_auth now i bytes st (λ s,
    match (parts ← ok_or (de_create_body body) 400%N; let '(name, owner, _) := parts in
           n ← map_err (λ _, 400%N) (network_id_new owner name); Ok (parts, n)) with
    | Err e => (Err e, s)
    | Ok (name, owner, threshold, n) =>
        run_service (_ ← verify_network_admin_authorized sv n NETWORK_CREATE_ACTION i body;
                     create_one_of_one_network sv now' random name owner threshold) s
    end).

Definition decrypt_route (now now' : Z) (random network_id : string) (i : InvocationInfo) (bytes : string) (body : json) (st : Stores)
    : result N DecryptResponseBody * Stores :=
  with_auth now i bytes st (λ s,
    match network_id_from_str network_id with
    | Err _ => (Err 400%N, s)
    | Ok n => run_service (decrypt_authorized sv now' random n i body) s
    end).

Definition revoke_network_route (now now' : Z) (network_id : string) (i : InvocationInfo) (bytes : string) (st : Stores)
    : result N () * Stores :=
  with_auth now i bytes st (λ s,
    match network_id_from_str network_id with
    | Err _ => (Err 400%N, s)
    | Ok n => run_service (_ ← verify_network_admin_authorized sv n NETWORK_REVOKE_ACTION i (JObject []); revoke_network now' n) s
    end).

Definition get_network_route (network_id : string) (s : EncDb) : result N NetworkDescriptor :=
  n ← map_err (λ _, 400%N) (network_id_from_str network_id);
  (run_service (get_network n) s).1.

(** [WellKnownRecord]. *)
Record WellKnownRecord := mkWellKnownRecord {
  wk_network_id : string;
  wk_owner_did : string;
  wk_name : string;
  wk_alg : string;
  wk_key_version : Z;
  wk_public_encryption_key : string;
  wk_state : string;
  wk_key_backend : string;
}.

Definition well_known_record (d : NetworkDescriptor) : WellKnownRecord :=
  mkWellKnownRecord (network_id_to_string (nd_network_id d)) (nd_owner_did d) (nd_name d) (nd_alg d) (nd_key_version d)
    (std_encode (nd_public_encryption_key d)) (network_state_as_str (nd_state d)) (key_backend_kind_as_str (nd_key_backend d)).

Definition well_known_network (name : string) (owner : option string) (s : EncDb) : result N WellKnownRecord :=
  well_known_record <$> (run_service (get_network_by_name name owner) s).1.

End EncryptionRoutes.

(** ** Reasoning about the service *)

Lemma M_bind_Ok {A B} (m : M A) (f : A → M B) s b s' :
  (m ≫= f) s = (Ok b, s') ↔ ∃ a s1, m s = (Ok a, s1) ∧ f a s1 = (Ok b, s').
Proof.
  unfold mbind, M_bind. destruct (m s) as [[a|e] s1]; [|naive_solver].
  split; [by eauto|]. intros (? & ? & [= <- <-] & ?). done.
Qed.

Lemma M_bind_Err {A B} (m : M A) (f : A → M B) s e s' :
  (m ≫= f) s = (Err e, s') ↔ m s = (Err e, s') ∨ ∃ a s1, m s = (Ok a, s1) ∧ f a s1 = (Err e, s').
Proof. unfold mbind, M_bind. destruct (m s) as [[a|e'] s1]; naive_solver. Qed.

Lemma lift_Ok {A} (r : result EncryptionServiceError A) s a s' : lift r s = (Ok a, s') ↔ r = Ok a ∧ s' = s.
Proof. unfold lift. naive_solver. Qed.

Lemma guard_Ok b e s a s' : guard b e s = (Ok a, s') ↔ b = true ∧ s' = s.
Proof. unfold guard. destruct b, a; naive_solver. Qed.

Lemma guard_audited_Ok b audit e s a s' : guard_audited b audit e s = (Ok a, s') ↔ b = true ∧ s' = s.
Proof.
  unfold guard_audited. destruct b, a; [unfold mret, M_ret; naive_solver|].
  split; [|naive_solver]. by intros (? & ? & _ & [=])%M_bind_Ok.
Qed.

Lemma get_Ok s a s' : get s = (Ok a, s') ↔ a = s ∧ s' = s.
Proof. unfold get. naive_solver. Qed.

Lemma M_ret_Ok {A} (a : A) s b s' : (mret a : M A) s = (Ok b, s') ↔ b = a ∧ s' = s.
Proof. unfold mret, M_ret. naive_solver. Qed.

(** Takes the successful steps of [H] one by one. *)
Ltac m_steps H :=
  repeat first
    [ let a := fresh "a" in let s := fresh "s" in let E := fresh "E" in
      apply M_bind_Ok in H as (a & s & E & H); cbn beta in H;
      lazymatch type of E with
      | guard _ _ _ = _ => apply guard_Ok in E as [E ->]
      | guard_audited _ _ _ _ = _ => apply guard_audited_Ok in E as [E ->]
      | lift _ _ = _ => apply lift_Ok in E as [E ->]
      | get _ = _ => apply get_Ok in E as [-> ->]
      | _ => idtac
      end ];
  try (apply M_ret_Ok in H as [? ?]; subst).

(** The ways in which [H] may have failed: [k] deals with a failing step, and the
    successful ones are taken as in [m_steps]. *)
Ltac m_errs H k :=
  repeat (
    let a := fresh "a" in let s := fresh "s" in let E := fresh "E" in
    apply M_bind_Err in H as [H|(a & s & E & H)]; [solve [k H]|]; cbn beta in H;
    lazymatch type of E with
    | guard _ _ _ = _ => apply guard_Ok in E as [E ->]
    | guard_audited _ _ _ _ = _ => apply guard_audited_Ok in E as [E ->]
    | lift _ _ = _ => apply lift_Ok in E as [E ->]
    | get _ = _ => apply get_Ok in E as [-> ->]
    | _ => idtac
    end).

(** *** Relations every operation keeps *)

Section Preserves.
Context (R : relation EncDb) `{!PreOrder R}.

Definition preserves {A} (m : M A) : Prop := ∀ s, R s (m s).2.

Lemma preserves_ret {A} (a : A) : preserves (mret a).
Proof. intros s. reflexivity. Qed.
Lemma preserves_fail {A} e : preserves (fail e : M A).
Proof. intros s. reflexivity. Qed.
Lemma preserves_lift {A} (r : result EncryptionServiceError A) : preserves (lift r).
Proof. intros s. reflexivity. Qed.
Lemma preserves_guard b e : preserves (guard b e).
Proof. intros s. reflexivity. Qed.
Lemma preserves_get : preserves get.
Proof. intros s. reflexivity. Qed.

Lemma preserves_bind {A B} (m : M A) (f : A → M B) : preserves m → (∀ a, preserves (f a)) → preserves (m ≫= f).
Proof.
  intros Hm Hf s. unfold mbind, M_bind. pose proof (Hm s) as Hs. destruct (m s) as [[a|e] s1]; [|done].
  etrans; [exact Hs|apply Hf].
Qed.

Lemma preserves_lift_bind {A B} (r : result EncryptionServiceError A) (f : A → M B) :
  (∀ a, r = Ok a → preserves (f a)) → preserves (lift r ≫= f).
Proof. intros Hf s. unfold mbind, M_bind, lift. destruct r; [by apply Hf|reflexivity]. Qed.

Lemma preserves_guard_audited b audit e : preserves audit → preserves (guard_audited b audit e).
Proof. intros Ha. unfold guard_audited. destruct b; [apply preserves_ret|]. apply preserves_bind; [done|]. intros. apply preserves_fail. Qed.

End Preserves.

Create HintDb service.
#[export] Hint Resolve preserves_ret preserves_fail preserves_lift preserves_guard preserves_get preserves_guard_audited : service.

(** Walks through an operation made of the service's primitives. *)
Ltac preserve :=
  intros; repeat first [progress intros|solve [eauto with service typeclass_instances]|apply preserves_lift_bind; [apply _|]; intros ? ?
                       |apply preserves_bind; [apply _|..]|apply preserves_guard_audited; [apply _|]|case_match].

(** What only grows: keys stay what they are, a revoked network stays revoked, and
    nonces and audit rows stay. *)
Definition same_key (r r' : NetworkRow) : Prop :=
  nw_owner_did r' = nw_owner_did r ∧ nw_name r' = nw_name r ∧ nw_alg r' = nw_alg r ∧ nw_key_version r' = nw_key_version r ∧
  nw_public_key r' = nw_public_key r ∧ nw_sealed_private_key r' = nw_sealed_private_key r ∧ nw_key_backend r' = nw_key_backend r.

Record evolves (s s' : EncDb) : Prop := {
  evolves_networks : ∀ id r, networks s !! id = Some r →
    ∃ r', networks s' !! id = Some r' ∧ same_key r r' ∧ (nw_state r = "revoked" → nw_state r' = "revoked");
  evolves_nonces : nonces s ⊆ nonces s';
  evolves_audits : audits s ⊆ audits s';
}.

#[export] Instance evolves_preorder : PreOrder evolves.
Proof.
  split.
  - intros s. split; [|done..]. intros id r Hr. exists r. unfold same_key. naive_solver.
  - intros s1 s2 s3 [Hn1 ? ?] [Hn2 ? ?]. split; [|by etrans..]. intros id r Hr.
    destruct (Hn1 _ _ Hr) as (r2 & Hr2 & Hk2 & Hv2). destruct (Hn2 _ _ Hr2) as (r3 & Hr3 & Hk3 & Hv3).
    exists r3. unfold same_key in *. naive_solver congruence.
Qed.

(** Only the audit rows and the nonces differ. *)
Record same_networks (s s' : EncDb) : Prop := {
  sn_networks : networks s' = networks s;
  sn_members : members s' = members s;
  sn_ceremonies : ceremonies s' = ceremonies s;
}.

#[export] Instance same_networks_preorder : PreOrder same_networks.
Proof. split; [done|]. intros s1 s2 s3 [] []. split; congruence. Qed.

(** Only the audit rows differ. *)
Definition audited (s s' : EncDb) : Prop := s' = set_audits (audits s') s ∧ audits s ⊆ audits s'.

#[export] Instance audited_preorder : PreOrder audited.
Proof.
  split; [by intros []|]. intros s1 s2 s3 [H1 ?] [H2 ?]. split; [|by etrans]. rewrite H2 at 1. by rewrite H1.
Qed.

Lemma audited_evolves s s' : audited s s' → evolves s s'.
Proof.
  intros [-> Ha]. split; simpl; [|done|done]. intros id r Hr. exists r. unfold same_key. naive_solver.
Qed.

Lemma audited_same s s' : audited s s' → same_networks s s'.
Proof. by intros [-> _]. Qed.

Section ServiceProofs.
Context `{Keccak256} `{DisplayFloat} `{Sha256} `{Blake3} `{CidLib} `{RowOrder} `{KeyBackend} `{EncLib}.
Context (sv : EncryptionService).

Lemma record_audit_row_audited now h who n outcome : preserves audited (record_audit_row sv now h who n outcome).
Proof.
  intros s. unfold record_audit_row, mbind, M_bind, get. destruct (audits s !! h) as [r|] eqn:Hh; [reflexivity|].
  split; [done|]. by apply insert_subseteq.
Qed.

Lemma preserves_weaken (R R' : relation EncDb) {A} (m : M A) : (∀ s s', R s s' → R' s s') → preserves R m → preserves R' m.
Proof. intros HR Hm s. apply HR, Hm. Qed.

Lemma record_audit_row_evolves now h who n outcome : preserves evolves (record_audit_row sv now h who n outcome).
Proof. eapply preserves_weaken, record_audit_row_audited. apply audited_evolves. Qed.
Lemma record_audit_row_same now h who n outcome : preserves same_networks (record_audit_row sv now h who n outcome).
Proof. eapply preserves_weaken, record_audit_row_audited. apply audited_same. Qed.

Lemma consume_nonce_spec who nonce exp s :
  consume_nonce who nonce exp s =
    if decide (nonces s !! (who, nonce) = None)
    then (Ok tt, set_nonces (<[(who, nonce) := rfc3339_of (exp * 1000000000)]> (nonces s)) s) else (Err NonceReplay, s).
Proof. unfold consume_nonce, mbind, M_bind, get, guard, put. by destruct (decide _); [rewrite bool_decide_true|rewrite bool_decide_false]. Qed.

Lemma consume_nonce_evolves who nonce exp : preserves evolves (consume_nonce who nonce exp).
Proof.
  intros s. rewrite consume_nonce_spec. case_decide; simpl; [|reflexivity].
  split; simpl; [|by apply insert_subseteq|done]. intros id r Hr. exists r. unfold same_key. naive_solver.
Qed.
Lemma consume_nonce_same who nonce exp : preserves same_networks (consume_nonce who nonce exp).
Proof. intros s. rewrite consume_nonce_spec. by case_decide. Qed.

Lemma put_ceremonies_evolves t s : evolves s (set_ceremonies t s).
Proof. split; simpl; [|done..]. intros id r Hr. exists r. unfold same_key. naive_solver. Qed.
Lemma put_members_evolves t s : evolves s (set_members t s).
Proof. split; simpl; [|done..]. intros id r Hr. exists r. unfold same_key. naive_solver. Qed.

Lemma insert_ceremony_evolves id row : preserves evolves (insert_ceremony id row).
Proof.
  intros s. unfold insert_ceremony, mbind, M_bind, get, guard, put. case_bool_decide; simpl; [apply put_ceremonies_evolves|reflexivity].
Qed.
Lemma complete_ceremony_evolves id transcript at_ : preserves evolves (complete_ceremony id transcript at_).
Proof.
  intros s. unfold complete_ceremony, mbind, M_bind, get, lift, put. destruct (ceremonies s !! id); simpl; [apply put_ceremonies_evolves|reflexivity].
Qed.
Lemma insert_member_evolves id node role : preserves evolves (insert_member id node role).
Proof.
  intros s. unfold insert_member, mbind, M_bind, get, guard, put. case_bool_decide; simpl; [apply put_members_evolves|reflexivity].
Qed.
Lemma insert_network_evolves id row : preserves evolves (insert_network id row).
Proof.
  intros s. unfold insert_network, mbind, M_bind, get, guard, put. case_bool_decide as Hn; simpl; [|reflexivity].
  split; simpl; [|done..]. intros id' r Hr. exists r. split; [|unfold same_key; naive_solver].
  rewrite lookup_insert_ne; [done|]. congruence.
Qed.
Lemma revoke_network_evolves now n : preserves evolves (revoke_network now n).
Proof.
  intros s. unfold revoke_network, mbind, M_bind, get, lift, put. destruct (networks s !! _) as [row|] eqn:Hrow; simpl; [|reflexivity].
  split; simpl; [|done..]. intros id r Hr. destruct (decide (id = network_id_to_string n)) as [->|Hne].
  - rewrite lookup_insert_eq. simplify_eq. eexists. split; [done|]. unfold same_key. naive_solver.
  - rewrite lookup_insert_ne by done. exists r. unfold same_key. naive_solver.
Qed.

Lemma consume_nonce_audited_preserves R `{!PreOrder R} who nonce exp audit :
  (∀ o, preserves R (audit o)) → preserves R (consume_nonce who nonce exp) → preserves R (consume_nonce_audited who nonce exp audit).
Proof.
  intros Ha Hc s. unfold consume_nonce_audited. pose proof (Hc s) as Hs. destruct (consume_nonce who nonce exp s) as [[|[]] s1]; try done.
  etrans; [exact Hs|]. apply preserves_bind; [done|done|]. intros. by apply preserves_fail.
Qed.

Hint Resolve record_audit_row_evolves record_audit_row_same consume_nonce_evolves consume_nonce_same insert_ceremony_evolves
  complete_ceremony_evolves insert_member_evolves insert_network_evolves revoke_network_evolves : service.

Lemma get_network_state n s : (get_network n s).2 = s.
Proof. unfold get_network, mbind, M_bind, get, lift, mret, M_ret. by repeat case_match; simplify_eq. Qed.
Lemma get_network_preserves R `{!PreOrder R} n : preserves R (get_network n).
Proof. intros s. rewrite get_network_state. reflexivity. Qed.
Hint Resolve get_network_preserves : service.

Section Decrypt.
Context (R : relation EncDb) `{!PreOrder R}.
Context (R_audit : ∀ now h who n outcome, preserves R (record_audit_row sv now h who n outcome)).
Context (R_nonce : ∀ who nonce exp, preserves R (consume_nonce who nonce exp)).
Hint Resolve R_audit R_nonce : service.

Lemma active_network_preserves n body f audit : (∀ o, preserves R (audit o)) → preserves R (active_network n body f audit).
Proof. unfold active_network. preserve. Qed.
Lemma bound_request_preserves body f v audit : (∀ o, preserves R (audit o)) → preserves R (bound_request body f v audit).
Proof. unfold bound_request. preserve. Qed.
Lemma answer_request_preserves random n d body v cid receiver wrapped : preserves R (answer_request sv random n d body v cid receiver wrapped).
Proof. unfold answer_request. preserve. Qed.
Lemma record_audit_preserves now e n o : preserves R (record_audit sv now e n o).
Proof. unfold record_audit. eauto with service. Qed.
Lemma record_native_audit_preserves now i n f o : preserves R (record_native_audit sv now i n f o).
Proof. unfold record_native_audit. eauto with service. Qed.
Lemma consume_audited_preserves who nonce exp audit : (∀ o, preserves R (audit o)) → preserves R (consume_nonce_audited who nonce exp audit).
Proof. intros. by apply consume_nonce_audited_preserves. Qed.
Hint Resolve active_network_preserves bound_request_preserves answer_request_preserves record_audit_preserves record_native_audit_preserves
  consume_audited_preserves : service.

Lemma decrypt_enveloped_preserves now random n e v : preserves R (decrypt_enveloped sv now random n e v).
Proof. unfold decrypt_enveloped. preserve. Qed.
Lemma decrypt_authorized_preserves now random n i v : preserves R (decrypt_authorized sv now random n i v).
Proof. unfold decrypt_authorized. preserve. Qed.
Lemma admin_invocation_preserves now n action e v : preserves R (verify_network_admin_invocation sv now n action e v).
Proof. unfold verify_network_admin_invocation. preserve. Qed.
Lemma admin_authorized_preserves n action i v : preserves R (verify_network_admin_authorized sv n action i v).
Proof. unfold verify_network_admin_authorized. preserve. Qed.

End Decrypt.
Hint Resolve decrypt_enveloped_preserves decrypt_authorized_preserves admin_invocation_preserves admin_authorized_preserves : service.

Lemma create_evolves now random name owner threshold : preserves evolves (create_one_of_one_network sv now random name owner threshold).
Proof. unfold create_one_of_one_network. preserve. Qed.

(** ** What the service does over time *)

(** One operation of the service, successful or not. *)
Inductive service_step : relation EncDb :=
| step_create now random name owner threshold s : service_step s (create_one_of_one_network sv now random name owner threshold s).2
| step_revoke now n s : service_step s (revoke_network now n s).2
| step_admin_enveloped now n action e v s : service_step s (verify_network_admin_invocation sv now n action e v s).2
| step_admin n action i v s : service_step s (verify_network_admin_authorized sv n action i v s).2
| step_decrypt_enveloped now random n e v s : service_step s (decrypt_enveloped sv now random n e v s).2
| step_decrypt now random n i v s : service_step s (decrypt_authorized sv now random n i v s).2.

Lemma service_steps_evolve s s' : rtc service_step s s' → evolves s s'.
Proof.
  induction 1 as [|s s1 s2 Hs _ IH]; [reflexivity|]. etrans; [|exact IH]. destruct Hs.
  - apply create_evolves.
  - apply revoke_network_evolves.
  - apply admin_invocation_preserves; auto with service typeclass_instances.
  - apply admin_authorized_preserves; auto with service typeclass_instances.
  - apply decrypt_enveloped_preserves; auto with service typeclass_instances.
  - apply decrypt_authorized_preserves; auto with service typeclass_instances.
Qed.

(** ** What a released key rests on *)

Lemma get_network_Ok n s d s' :
  get_network n s = (Ok d, s') →
  ∃ row, networks s !! network_id_to_string n = Some row ∧ network_state_parse (nw_state row) = Some (nd_state d) ∧
    nd_network_id d = n ∧ nd_alg d = nw_alg row ∧ nd_key_version d = nw_key_version row ∧ nd_owner_did d = nw_owner_did row ∧
    nd_name d = nw_name row ∧ nd_public_encryption_key d = nw_public_key row ∧ s' = s.
Proof.
  intros Hg. unfold get_network in Hg. m_steps Hg. apply ok_or_Ok in E, E0. eexists. split; [exact E|]. by rewrite E0.
Qed.

Lemma network_state_parse_Some t st : network_state_parse t = Some st ↔ t = network_state_as_str st.
Proof.
  unfold network_state_parse. split.
  - intros Hp. repeat case_decide; by simplify_eq.
  - intros ->. by destruct st.
Qed.

Lemma active_network_Ok n body f audit s d s' :
  active_network n body f audit s = (Ok d, s') →
  ∃ row, networks s !! network_id_to_string n = Some row ∧ nw_state row = "active" ∧ s' = s ∧
    nd_alg d = nw_alg row ∧ nd_key_version d = nw_key_version row ∧
    db_alg body = nw_alg row ∧ db_key_version body = nw_key_version row ∧ df_alg f = nw_alg row ∧ df_key_version f = nw_key_version row.
Proof.
  intros Ha. unfold active_network in Ha. m_steps Ha.
  apply get_network_Ok in E as (row & Hrow & Hst & _ & Halg & Hver & _ & _ & _ & ->).
  apply andb_true_iff in E1 as [E1%bool_decide_eq_true E1'%bool_decide_eq_true].
  apply andb_true_iff in E2 as [E2%bool_decide_eq_true E2'%bool_decide_eq_true].
  exists row. apply network_state_parse_Some in Hst. destruct (nd_state a); try (by apply M_bind_Ok in E0 as (? & ? & _ & [=])).
  apply M_ret_Ok in E0 as [_ ->]. simpl in Hst. split_and!; congruence.
Qed.

Lemma bound_request_Ok body f v audit s receiver wrapped s' :
  bound_request body f v audit s = (Ok (receiver, wrapped), s') →
  s' = s ∧ std_decode (db_receiver_public_key body) = Some receiver ∧ std_decode (db_encrypted_symmetric_key body) = Some wrapped ∧
  df_receiver_public_key_hash f = canonical_hash (JString (db_receiver_public_key body)) ∧
  df_encrypted_symmetric_key_hash f = canonical_hash (JString (db_encrypted_symmetric_key body)) ∧
  df_body_hash f = canonical_hash v.
Proof.
  intros Hb. unfold bound_request in Hb. m_steps Hb. simplify_eq.
  apply ok_or_Ok in E, E0. apply bool_decide_eq_true in E3. apply andb_true_iff in E1 as [_ E1%bool_decide_eq_true].
  apply andb_true_iff in E2 as [_ E2%bool_decide_eq_true]. split_and!; congruence.
Qed.

Lemma consume_nonce_audited_Ok who nonce exp audit s u s' :
  consume_nonce_audited who nonce exp audit s = (Ok u, s') →
  nonces s !! (who, nonce) = None ∧ s' = set_nonces (<[(who, nonce) := rfc3339_of (exp * 1000000000)]> (nonces s)) s.
Proof.
  unfold consume_nonce_audited. rewrite consume_nonce_spec. case_decide; [naive_solver|].
  by intros (? & ? & _ & [=])%M_bind_Ok.
Qed.

(** The answer [r] opens the key of the request with the network's stored key and
    seals it to the receiver the request names. *)
Record rewrapped (random : string) (row : NetworkRow) (body : DecryptRequestBody) (r : DecryptResponseBody) : Prop := {
  rw_key : ∃ sealed wrapped receiver key sealed',
    nw_sealed_private_key row = Some sealed ∧ std_decode (db_encrypted_symmetric_key body) = Some wrapped ∧
    std_decode (db_receiver_public_key body) = Some receiver ∧ backend_unwrap sealed wrapped = Ok key ∧
    backend_rewrap random key receiver = Ok sealed' ∧ rp_wrapped_key r = std_encode sealed';
  rw_alg : rp_alg r = nw_alg row ∧ rp_key_version r = nw_key_version row;
}.

Lemma answer_request_Ok random n d body v cid receiver wrapped s r s' :
  answer_request sv random n d body v cid receiver wrapped s = (Ok r, s') →
  s' = s ∧ ∃ row sealed key sealed', networks s !! network_id_to_string n = Some row ∧ nw_sealed_private_key row = Some sealed ∧
    backend_unwrap sealed wrapped = Ok key ∧ backend_rewrap random key receiver = Ok sealed' ∧
    rp_wrapped_key r = std_encode sealed' ∧ rp_alg r = nd_alg d ∧ rp_key_version r = nd_key_version d ∧
    rp_network_id r = n ∧ rp_request_hash r = hash_hex (cid +:+ canonical_hash v).
Proof.
  intros Ha. unfold answer_request in Ha. m_steps Ha. apply ok_or_Ok in E, E0. apply map_err_Ok in E1, E2.
  split; [done|]. by exists a, a0, a1, a2.
Qed.

Lemma answer_request_Err random n d body v cid receiver wrapped s e s' :
  is_Some (networks s !! network_id_to_string n) →
  answer_request sv random n d body v cid receiver wrapped s = (Err e, s') → s' = s ∧ ((∃ be, e = EBackend be) ∨ e = Signing).
Proof.
  intros [row Hrow] Ha. unfold answer_request in Ha. apply M_bind_Err in Ha as [[=]|(? & ? & [-> ->]%get_Ok & Ha)]. rewrite Hrow in Ha.
  apply M_bind_Err in Ha as [[=]|(? & ? & [[= <-] ->]%lift_Ok & Ha)].
  apply M_bind_Err in Ha as [Ha|(? & ? & [_ ->]%lift_Ok & Ha)]; [unfold lift in Ha; destruct (nw_sealed_private_key row); naive_solver|].
  apply M_bind_Err in Ha as [Ha|(? & ? & [_ ->]%lift_Ok & Ha)]; [unfold lift in Ha; destruct (backend_unwrap _ _); naive_solver|].
  apply M_bind_Err in Ha as [Ha|(? & ? & [_ ->]%lift_Ok & Ha)]; [unfold lift in Ha; destruct (backend_rewrap _ _ _); naive_solver|].
  apply M_bind_Err in Ha as [Ha|(? & ? & _ & [=])]. unfold lift, sign_response in Ha.
  destruct (sv_sign sv) as [sign|]; [destruct (sign _)|]; naive_solver.
Qed.

Lemma validate_invocation_time_Ok now nbf exp :
  validate_invocation_time now nbf exp = Ok tt →
  from_option (λ t, t ≤ now / 1000000000)%Z True nbf ∧ (now / 1000000000 < exp)%Z ∧ (wrap_i64 (exp - now / 1000000000) ≤ INVOCATION_TTL_SECONDS)%Z.
Proof.
  unfold validate_invocation_time. intros (_ & Hn%ensure_Ok & (_ & He%ensure_Ok & Ht%ensure_Ok)%bind_Ok)%bind_Ok.
  apply Z.ltb_lt in He. apply Z.leb_le in Ht. split; [|done]. destruct nbf; [by apply Z.leb_le|done].
Qed.

(** What [decrypt_authorized] has established when it answers. *)
Record released (now : Z) (random : string) (n : NetworkId) (i : InvocationInfo) (v : json) (s : EncDb) (r : DecryptResponseBody) (s' : EncDb)
    : Prop := {
  rl_audience : u_audience (ii_invocation i) = sv_node_did sv;
  rl_capability : ∃ c, c ∈ ii_capabilities i ∧ cap_ability c = DECRYPT_ACTION ∧ network_id_matches (resource_display (cap_resource c)) n = true;
  rl_time : (now / 1000000000 < native_exp i)%Z ∧ from_option (λ t, t ≤ now / 1000000000)%Z True (native_not_before i);
  rl_request : ∃ body f row, de_decrypt_body v = Some body ∧ native_fact de_decrypt_facts i = Ok f ∧
    networks s !! network_id_to_string n = Some row ∧ nw_state row = "active" ∧
    db_network_id body = n ∧ df_network_id f = n ∧ df_body_hash f = canonical_hash v ∧
    db_alg body = nw_alg row ∧ db_key_version body = nw_key_version row ∧ rewrapped random row body r;
  rl_nonce : ∃ nonce, native_nonce i = Ok nonce ∧ nonces s !! (ii_invoker i, nonce) = None ∧ is_Some (nonces s' !! (ii_invoker i, nonce));
}.

Lemma decrypt_authorized_Ok now random n i v s r s' :
  decrypt_authorized sv now random n i v s = (Ok r, s') → released now random n i v s r s'.
Proof.
  intros Hd. unfold decrypt_authorized in Hd. m_steps Hd.
  destruct a9 as [receiver wrapped]. m_steps Hd.
  apply ok_or_Ok in E. apply bool_decide_eq_true in E2. apply ok_or_Ok, find_some in E5 as [Hin%list_elem_of_In Hab%bool_decide_eq_true].
  apply andb_true_iff in E4 as [E4%bool_decide_eq_true E4'%bool_decide_eq_true].
  apply active_network_Ok in E7 as (row & Hrow & Hst & -> & Halg & Hver & Hb1 & Hb2 & _ & _). destruct a8.
  apply validate_invocation_time_Ok in E8 as (? & ? & _).
  apply bound_request_Ok in E9 as (-> & Hrec & Hwr & _ & _ & Hbody).
  apply consume_nonce_audited_Ok in E11 as (Hfresh & ->).
  apply answer_request_Ok in E12 as (-> & row' & sealed & key & sealed' & Hrow' & Hsealed & Hun & Hre & Hw & Ha & Hk & _).
  simpl in Hrow'. simplify_eq.
  assert (audited (set_nonces (<[(ii_invoker i, a9) := rfc3339_of (native_exp i * 1000000000)]> (nonces s)) s) s4) as [-> _].
  { pose proof (record_audit_row_audited now (hash_hex (native_invocation_cid i +:+ df_body_hash a0)) (ii_invoker i) (df_network_id a0) "allowed"
      (set_nonces (<[(ii_invoker i, a9) := rfc3339_of (native_exp i * 1000000000)]> (nonces s)) s)) as Hau.
    unfold record_native_audit in E13. rewrite E13 in Hau. exact Hau. }
  split.
  - done.
  - by exists a5.
  - done.
  - exists a, a0, row. split_and!; try done. split; [|split; congruence]. by exists sealed, wrapped, receiver, key, sealed'.
  - exists a9. split_and!; [done|done|]. simpl. rewrite lookup_insert_eq. by eexists.
Qed.

(** *** Refusals *)

(** A request for a key, as an invocation the node has accepted or as an envelope. *)
Inductive KeyRequest :=
| Native (i : InvocationInfo)
| Enveloped (e : Envelope DecryptFacts).

Definition request_decrypt (now : Z) (random : string) (n : NetworkId) (q : KeyRequest) (v : json) : M DecryptResponseBody :=
  match q with
  | Native i => decrypt_authorized sv now random n i v
  | Enveloped e => decrypt_enveloped sv now random n e v
  end.

Definition requester (q : KeyRequest) : string := match q with Native i => ii_invoker i | Enveloped e => en_issuer e end.
Definition request_nonce (q : KeyRequest) : option string :=
  match q with Native i => ucan_nonce (ii_invocation i) | Enveloped e => Some (en_nonce e) end.
Definition request_exp (q : KeyRequest) : Z := match q with Native i => native_exp i | Enveloped e => en_exp e end.

(** The request hash its audit row is stored under. *)
Definition request_key (q : KeyRequest) : option string :=
  match q with
  | Native i => match native_fact de_decrypt_facts i with
                | Ok f => Some (hash_hex (native_invocation_cid i +:+ df_body_hash f))
                | Err _ => None
                end
  | Enveloped e => Some (hash_hex (envelope_cid decrypt_facts_json e +:+ df_body_hash (en_facts e)))
  end.

(** One audit row more, of a refusal. *)
Definition denied (now : Z) (n : NetworkId) (q : KeyRequest) (s s' : EncDb) : Prop :=
  ∃ h o, request_key q = Some h ∧ starts_with "denied:" o = true ∧ audits s !! h = None ∧
    s' = set_audits (<[h := mkAuditRow (requester q) (network_id_to_string n) (sv_node_did sv) o (rfc3339_of now)]> (audits s)) s.

(** The store with the nonce of [q] used. *)
Definition nonce_used (q : KeyRequest) (nonce : string) (s : EncDb) : EncDb :=
  set_nonces (<[(requester q, nonce) := rfc3339_of (request_exp q * 1000000000)]> (nonces s)) s.

Section Refusals.
Context (now : Z) (n : NetworkId) (q : KeyRequest).

(** Computations that change nothing when they succeed, and at most add the audit row of
    a refusal when they fail. *)
Definition checks {A} (m : M A) : Prop :=
  ∀ s, match m s with (Ok _, s') => s' = s | (Err _, s') => s' = s ∨ denied now n q s s' end.
Definition denies (audit : string → M ()) : Prop :=
  ∀ o s, starts_with "denied:" o = true → ∃ s', audit o s = (Ok tt, s') ∧ (s' = s ∨ denied now n q s s').

Lemma checks_ret {A} (a : A) : checks (mret a).
Proof. by intros s. Qed.
Lemma checks_lift {A} (r : result EncryptionServiceError A) : checks (lift r).
Proof. intros s. unfold lift. destruct r; [done|by left]. Qed.
Lemma checks_guard b e : checks (guard b e).
Proof. intros s. unfold guard. destruct b; [done|by left]. Qed.
Lemma checks_bind {A B} (m : M A) (f : A → M B) : checks m → (∀ a, checks (f a)) → checks (m ≫= f).
Proof.
  intros Hm Hf s. unfold mbind, M_bind. specialize (Hm s). destruct (m s) as [[a|e] s1]; [|done]. subst s1. apply Hf.
Qed.
Lemma checks_deny {A} audit o e : denies audit → starts_with "denied:" o = true → checks (audit o ≫= λ _, (fail e : M A)).
Proof. intros Ha Ho s. destruct (Ha o s Ho) as (s' & Hs & Hd). unfold mbind, M_bind. by rewrite Hs. Qed.
Lemma checks_guard_audited b audit o e : denies audit → starts_with "denied:" o = true → checks (guard_audited b (audit o) e).
Proof. intros Ha Ho. unfold guard_audited. destruct b; [apply checks_ret|by apply checks_deny]. Qed.
Lemma checks_get_network : checks (get_network n).
Proof. intros s. pose proof (get_network_state n s) as Hs. destruct (get_network n s) as [[]]; [done|by left]. Qed.

Hint Resolve checks_ret checks_lift checks_guard checks_guard_audited checks_get_network checks_deny : service.

Lemma checks_active_network body f audit : denies audit → checks (active_network n body f audit).
Proof.
  intros Ha. unfold active_network. repeat (apply checks_bind; [auto with service|intros ?]); auto with service.
  destruct (nd_state _); auto with service.
Qed.
Lemma checks_bound_request body f v audit : denies audit → checks (bound_request body f v audit).
Proof. intros Ha. unfold bound_request. repeat (apply checks_bind; [auto with service|intros ?]). auto with service. Qed.

Lemma record_denies h : request_key q = Some h → denies (record_audit_row sv now h (requester q) n).
Proof.
  intros Hh o s Ho. unfold record_audit_row, mbind, M_bind, get. destruct (audits s !! h) eqn:Hs; [by exists s; split; [|left]|].
  eexists. split; [done|]. right. by exists h, o.
Qed.

(** What a failing request leaves. *)
Inductive refused (e : EncryptionServiceError) (s s' : EncDb) : Prop :=
| refused_silently : s' = s → refused e s s'
| refused_audited : denied now n q s s' → refused e s s'
| refused_answer nonce : request_nonce q = Some nonce → nonces s !! (requester q, nonce) = None →
    (∃ be, e = EBackend be) ∨ e = Signing → s' = nonce_used q nonce s → refused e s s'.

Lemma refused_check {A B} (m : M A) (f : A → M B) s e s' :
  checks m → (m ≫= f) s = (Err e, s') → refused e s s' ∨ ∃ a, m s = (Ok a, s) ∧ f a s = (Err e, s').
Proof.
  intros Hm Hs. specialize (Hm s). apply M_bind_Err in Hs as [Hs|(a & s1 & Hs & Hf)].
  - rewrite Hs in Hm. left. destruct Hm; [by apply refused_silently|by apply refused_audited].
  - rewrite Hs in Hm. subst s1. right. by exists a.
Qed.

(** From the nonce on, for a network that is there. *)
Lemma refused_from_nonce random d body v cid receiver wrapped h nonce s e s' :
  request_key q = Some h → request_nonce q = Some nonce → is_Some (networks s !! network_id_to_string n) →
  (consume_nonce_audited (requester q) nonce (request_exp q) (record_audit_row sv now h (requester q) n) ≫= λ _,
   answer_request sv random n d body v cid receiver wrapped ≫= λ r,
   record_audit_row sv now h (requester q) n "allowed" ≫= λ _, mret r) s = (Err e, s') → refused e s s'.
Proof.
  intros Hh Hn Hrow Hs. apply M_bind_Err in Hs as [Hs|(u & s1 & [Hfresh Hs1]%consume_nonce_audited_Ok & Hs)].
  - unfold consume_nonce_audited in Hs. rewrite consume_nonce_spec in Hs. case_decide; [done|].
    pose proof (checks_deny (A := unit) _ "denied:replay" NonceReplay (record_denies h Hh) eq_refl s) as Hd. rewrite Hs in Hd.
    destruct Hd; [by apply refused_silently|by apply refused_audited].
  - apply M_bind_Err in Hs as [Hs|(r & s2 & _ & Hs)].
    + apply answer_request_Err in Hs as (-> & He); [|by rewrite Hs1]. by eapply refused_answer.
    + apply M_bind_Err in Hs as [Hs|(? & ? & _ & [=])]. unfold record_audit_row, mbind, M_bind, get in Hs. by destruct (audits s2 !! h).
Qed.
End Refusals.
#[local] Hint Resolve checks_ret checks_lift checks_guard checks_guard_audited checks_get_network checks_deny checks_active_network
  checks_bound_request : service.

Lemma request_refused now random n q v s e s' :
  request_decrypt now random n q v s = (Err e, s') → refused now n q e s s'.
Proof.
  assert (∀ {A} (r : result EncryptionServiceError A) a, lift r s = (Ok a, s) → r = Ok a) as Hlift by (intros A r a [? _]%lift_Ok; done).
  intros Hs. destruct q as [i|env]; simpl in Hs; [unfold decrypt_authorized in Hs|unfold decrypt_enveloped in Hs].
  - apply (refused_check now n (Native i)) in Hs as [?|(body & _ & Hs)]; [done| |auto with service].
    apply (refused_check now n (Native i)) in Hs as [?|(f & Hf%Hlift & Hs)]; [done| |auto with service]. cbn beta zeta in Hs.
    assert (request_key (Native i) = Some (hash_hex (native_invocation_cid i +:+ df_body_hash f))) as Hk by (simpl; by rewrite Hf).
    pose proof (record_denies now n (Native i) _ Hk) as Hden.
    do 6 (apply (refused_check now n (Native i)) in Hs as [?|(? & _ & Hs)]; [done| |auto with service]; cbn beta in Hs).
    apply (refused_check now n (Native i)) in Hs as [?|(d & (row & Hrow & _)%active_network_Ok & Hs)]; [done| |auto with service].
    do 2 (apply (refused_check now n (Native i)) in Hs as [?|([] & _ & Hs)]; [done| |auto with service]; cbn beta iota in Hs).
    apply (refused_check now n (Native i)) in Hs as [?|(no & Hno%Hlift%ok_or_Ok & Hs)]; [done| |auto with service].
    by eapply (refused_from_nonce now n (Native i)).
  - pose proof (record_denies now n (Enveloped env) _ eq_refl) as Hden. cbn beta zeta in Hs.
    do 9 (apply (refused_check now n (Enveloped env)) in Hs as [?|(? & _ & Hs)]; [done| |auto with service]; cbn beta in Hs).
    apply (refused_check now n (Enveloped env)) in Hs as [?|(d & (row & Hrow & _)%active_network_Ok & Hs)]; [done| |auto with service].
    do 2 (apply (refused_check now n (Enveloped env)) in Hs as [?|([] & _ & Hs)]; [done| |auto with service]; cbn beta iota in Hs).
    by eapply (refused_from_nonce now n (Enveloped env)).
Qed.

(** What an answered request has done to the nonces, and the network it was for. *)
Lemma request_answered now random n q v s r s' :
  request_decrypt now random n q v s = (Ok r, s') →
  (∃ row, networks s !! network_id_to_string n = Some row ∧ nw_state row = "active") ∧
  ∃ nonce, request_nonce q = Some nonce ∧ nonces s !! (requester q, nonce) = None ∧ is_Some (nonces s' !! (requester q, nonce)).
Proof.
  destruct q as [i|env]; simpl; intros Hd.
  - apply decrypt_authorized_Ok in Hd as [_ _ _ (? & ? & row & _ & _ & Hrow & Hst & _) (no & Hno%ok_or_Ok & Hfresh & Hused)].
    split; [by exists row|by exists no].
  - unfold decrypt_enveloped in Hd. cbn zeta in Hd. m_steps Hd. apply active_network_Ok in E8 as (row & Hrow & Hst & -> & _).
    split; [by exists row|]. exists (en_nonce env). destruct a10 as [receiver wrapped]. m_steps Hd.
    apply bound_request_Ok in E10 as [-> _]. apply consume_nonce_audited_Ok in E8 as (Hfresh & ->).
    apply answer_request_Ok in E11 as [-> _]. split_and!; [done|done|].
    pose proof (record_audit_row_audited now (hash_hex (envelope_cid decrypt_facts_json env +:+ df_body_hash (en_facts env))) (en_issuer env) n
      "allowed" (set_nonces (<[(en_issuer env, en_nonce env) := rfc3339_of (en_exp env * 1000000000)]> (nonces s)) s)) as Hau.
    unfold record_audit in E12. rewrite E12 in Hau. destruct Hau as [Hau _]. simpl in Hau. rewrite Hau. simpl. rewrite lookup_insert_eq. by eexists.
Qed.

End ServiceProofs.

(** ** Stored networks *)

Section Stored.
Context `{Keccak256} `{DisplayFloat} `{Sha256} `{Blake3} `{CidLib} `{RowOrder} `{KeyBackend} `{EncLib}.
Context (sv : EncryptionService).

(** A row is stored under the identifier made of its owner and name, and its state
    is the text of a state. *)
Definition networks_wf (s : EncDb) : Prop :=
  ∀ id row, networks s !! id = Some row →
    id = network_id_to_string {| owner_did := nw_owner_did row; network_name := nw_name row |} ∧ is_Some (network_state_parse (nw_state row)).

Definition wf_kept (s s' : EncDb) : Prop := networks_wf s → networks_wf s'.
#[local] Instance wf_kept_preorder : PreOrder wf_kept.
Proof. split; unfold wf_kept; [by intros ? ?|naive_solver]. Qed.

Lemma same_networks_wf s s' : same_networks s s' → wf_kept s s'.
Proof. intros [Hn _ _] Hwf id row. rewrite Hn. apply Hwf. Qed.

Lemma wf_weaken {A} (m : M A) : preserves same_networks m → preserves wf_kept m.
Proof. apply preserves_weaken, same_networks_wf. Qed.

Lemma insert_network_wf id row :
  id = network_id_to_string {| owner_did := nw_owner_did row; network_name := nw_name row |} → is_Some (network_state_parse (nw_state row)) →
  preserves wf_kept (insert_network id row).
Proof.
  intros Hid Hst s Hwf. unfold insert_network, mbind, M_bind, get, guard, put. case_bool_decide; simpl; [|done].
  intros id' row' Hl. simpl in Hl. apply lookup_insert_Some in Hl as [[<- <-]|[_ Hl]]; [done|by apply Hwf].
Qed.

Lemma keep_networks_wf s s' : networks s' = networks s → wf_kept s s'.
Proof. intros Hn Hwf id row. rewrite Hn. apply Hwf. Qed.
Lemma insert_ceremony_wf id row : preserves wf_kept (insert_ceremony id row).
Proof. intros s. apply keep_networks_wf. unfold insert_ceremony, mbind, M_bind, get, guard, put. by case_bool_decide. Qed.
Lemma complete_ceremony_wf id transcript at_ : preserves wf_kept (complete_ceremony id transcript at_).
Proof. intros s. apply keep_networks_wf. unfold complete_ceremony, mbind, M_bind, get, lift, put. by destruct (ceremonies s !! id). Qed.
Lemma insert_member_wf id node role : preserves wf_kept (insert_member id node role).
Proof. intros s. apply keep_networks_wf. unfold insert_member, mbind, M_bind, get, guard, put. by case_bool_decide. Qed.
Hint Resolve insert_ceremony_wf complete_ceremony_wf insert_member_wf : service.

Lemma network_id_new_Ok owner name n : network_id_new owner name = Ok n → network_name n = name.
Proof.
  unfold network_id_new. intros Hn. apply bind_Ok in Hn as (_ & _ & Hn). apply bind_Ok in Hn as (_ & _ & Hn). apply bind_Ok in Hn as (_ & _ & Hn).
  apply bind_Ok in Hn as (? & _ & Hn). by simplify_eq.
Qed.

Lemma create_wf now random name owner threshold : preserves wf_kept (create_one_of_one_network sv now random name owner threshold).
Proof.
  unfold create_one_of_one_network. apply preserves_lift_bind; [apply _|]. intros n Hn%map_err_Ok%network_id_new_Ok.
  repeat (apply preserves_bind; [apply _|solve [eauto with service typeclass_instances]|intros ?]).
  apply preserves_bind; [apply _|..|preserve].
  apply insert_network_wf; simpl; [|by eexists]. rewrite <- Hn. by destruct n.
Qed.

Lemma revoke_wf now n : preserves wf_kept (revoke_network now n).
Proof.
  intros s Hwf. unfold revoke_network, mbind, M_bind, get, lift, put. destruct (networks s !! _) as [row|] eqn:Hrow; simpl; [|done].
  intros id row' Hl. simpl in Hl. apply lookup_insert_Some in Hl as [[<- <-]|[_ Hl]]; [|by apply Hwf]. split; [by apply (Hwf _ _ Hrow)|by eexists].
Qed.

Lemma service_steps_wf s s' : rtc (service_step sv) s s' → wf_kept s s'.
Proof.
  induction 1 as [|s s1 s2 Hs _ IH]; [reflexivity|]. etrans; [|exact IH]. destruct Hs.
  - apply create_wf.
  - apply revoke_wf.
  - apply wf_weaken, admin_invocation_preserves; auto using record_audit_row_same, consume_nonce_same with typeclass_instances.
  - apply wf_weaken, admin_authorized_preserves; auto using record_audit_row_same, consume_nonce_same with typeclass_instances.
  - apply wf_weaken, decrypt_enveloped_preserves; auto using record_audit_row_same, consume_nonce_same with typeclass_instances.
  - apply wf_weaken, decrypt_authorized_preserves; auto using record_audit_row_same, consume_nonce_same with typeclass_instances.
Qed.

Lemma enc_empty_wf : networks_wf enc_empty.
Proof. intros id row. simpl. by rewrite lookup_empty. Qed.

End Stored.

(** ** Sealing and opening *)

Section Sealing.
Context `{X25519}.

(** The cipher opens what it sealed, with a 16-byte tag. *)
Definition cipher_sound (e : ColumnEncryption) : Prop :=
  ∀ nonce data, cipher_decrypt e nonce (cipher_encrypt e nonce data) = Some data ∧ (16 ≤ String.length (cipher_encrypt e nonce data))%nat.

(** RFC 7748: public keys have 32 bytes and both sides derive the same secret. *)
Record x25519_sound : Prop := {
  x_public_length : ∀ a, String.length (x_public a) = 32%nat;
  x_shared_comm : ∀ a b, x_shared a (x_public b) = x_shared b (x_public a);
  x_cipher_sound : ∀ k, cipher_sound (cipher_of_key k);
}.

Lemma decrypt_encrypt e nonce data : cipher_sound e → String.length nonce = 12%nat → decrypt e (encrypt e nonce data) = Ok data.
Proof. intros He Hn. destruct (He nonce data). by apply (column_encryption_roundtrip e nonce data). Qed.

Context (Hx : x25519_sound).

Lemma unwrap_wrap ephemeral nonce secret key wrapped :
  String.length nonce = 12%nat → wrap_to_public_key ephemeral nonce (x_public secret) key = Ok wrapped → unwrap_with_secret secret wrapped = Ok key.
Proof.
  intros Hn Hw. unfold wrap_to_public_key in Hw. apply bind_Ok in Hw as (_ & _ & Hw). injection Hw as <-.
  unfold unwrap_with_secret. set (ct := encrypt _ _ _).
  pose proof (x_public_length Hx ephemeral) as Hl.
  pose proof (substring_app_l (x_public ephemeral) ct) as H1. pose proof (substring_app_r (x_public ephemeral) ct (String.length ct) eq_refl) as H2.
  rewrite Hl in H1, H2. rewrite length_append, Hl. replace (32 + String.length ct - 32)%nat with (String.length ct) by lia.
  rewrite H1, H2. destruct (Nat.leb_spec 32 (32 + String.length ct)); [|lia]. cbn [ensure]. rewrite bind_ret_l.
  rewrite (x_shared_comm Hx). subst ct. rewrite decrypt_encrypt; [done| |done]. apply (x_cipher_sound Hx).
Qed.

(** Random bytes: 32 of a secret and 12 of a nonce. *)
Definition random_ok (random : string) : Prop := String.length random = 44%nat.

Lemma random_secret_length random : random_ok random → String.length (random_secret random) = 32%nat.
Proof. intros Hr. apply substring_take_length. rewrite Hr. lia. Qed.
Lemma random_nonce_length random : random_ok random → String.length (random_nonce random) = 12%nat.
Proof.
  intros Hr. unfold random_nonce. pose proof (substring_cut random 32) as Hc. rewrite Hr in Hc.
  apply (f_equal String.length) in Hc; [|lia]. rewrite length_append, Hr in Hc.
  rewrite (substring_take_length random 32) in Hc by (rewrite Hr; lia). change (44 - 32)%nat with 12%nat in Hc. lia.
Qed.

Lemma local_unwrap_wrap seal random generated ephemeral nonce key wrapped :
  cipher_sound seal → random_ok random → String.length nonce = 12%nat →
  @backend_generate (local_backend seal) random = Ok generated →
  wrap_to_public_key ephemeral nonce (gk_public_key generated) key = Ok wrapped →
  @backend_unwrap (local_backend seal) (gk_sealed_private_key generated) wrapped = Ok key.
Proof.
  intros Hs Hr Hn [= <-] Hw. simpl in *. unfold open_private.
  rewrite decrypt_encrypt; [|done|by apply random_nonce_length]. cbn [map_err]. rewrite bind_ret_l.
  rewrite random_secret_length by done. cbn [ensure Nat.eqb]. rewrite !bind_ret_l. by eapply unwrap_wrap.
Qed.

End Sealing.

(** ** Requests that are answered *)

Section Answered.
Context `{Keccak256} `{DisplayFloat} `{Sha256} `{Blake3} `{CidLib} `{RowOrder} `{KeyBackend} `{EncLib}.
Context (sv : EncryptionService).

(** A request as a client makes it for a network with this algorithm and key version. *)
Record good_request (now : Z) (n : NetworkId) (i : InvocationInfo) (v : json) (alg : string) (version : Z) (s : EncDb)
    (body : DecryptRequestBody) (f : DecryptFacts) : Prop := {
  gr_body : de_decrypt_body v = Some body;
  gr_facts : native_fact de_decrypt_facts i = Ok f;
  gr_types : db_ty body = DECRYPT_REQUEST_TYPE ∧ df_ty f = DECRYPT_REQUEST_TYPE;
  gr_node : u_audience (ii_invocation i) = sv_node_did sv ∧ df_target_node f = sv_node_did sv ∧ db_target_node body = sv_node_did sv;
  gr_network : df_network_id f = n ∧ db_network_id body = n;
  gr_capability : ∃ c, find (λ c, bool_decide (cap_ability c = DECRYPT_ACTION)) (ii_capabilities i) = Some c ∧
    network_id_matches (resource_display (cap_resource c)) n = true;
  gr_key : db_alg body = alg ∧ db_key_version body = version ∧ df_alg f = alg ∧ df_key_version f = version;
  gr_time : validate_invocation_time now (native_not_before i) (native_exp i) = Ok tt;
  gr_receiver : canonical_hash (JString (db_receiver_public_key body)) = db_receiver_public_key_hash body ∧
    canonical_hash (JString (db_receiver_public_key body)) = df_receiver_public_key_hash f;
  gr_wrapped : canonical_hash (JString (db_encrypted_symmetric_key body)) = db_encrypted_symmetric_key_hash body ∧
    canonical_hash (JString (db_encrypted_symmetric_key body)) = df_encrypted_symmetric_key_hash f;
  gr_bound : canonical_hash v = df_body_hash f;
  gr_nonce : ∃ nonce, native_nonce i = Ok nonce ∧ nonces s !! (ii_invoker i, nonce) = None;
}.

Lemma M_bind_step {A B} (m : M A) (f : A → M B) s a s1 : m s = (Ok a, s1) → (m ≫= f) s = f a s1.
Proof. intros Hm. unfold mbind, M_bind. by rewrite Hm. Qed.

(** Takes one step of the operation in the goal. *)
Ltac m_step := erewrite M_bind_step; [|first [by eapply guard_Ok|by eapply guard_audited_Ok|by eapply lift_Ok|by eapply get_Ok|eassumption]].

Lemma get_network_eq n s row st :
  networks s !! network_id_to_string n = Some row → network_state_parse (nw_state row) = Some st →
  ∃ d, get_network n s = (Ok d, s) ∧ nd_state d = st ∧ nd_alg d = nw_alg row ∧ nd_key_version d = nw_key_version row ∧
    nd_owner_did d = nw_owner_did row ∧ nd_name d = nw_name row ∧ nd_public_encryption_key d = nw_public_key row.
Proof.
  intros Hrow Hst. eexists. split; [|shelve]. unfold get_network. m_step.
  erewrite M_bind_step by (apply lift_Ok; split; [by apply ok_or_Ok|done]).
  erewrite M_bind_step by (apply lift_Ok; split; [by apply ok_or_Ok|done]). done.
  Unshelve. done.
Qed.

Lemma audit_Ok now h who n o s : ∃ s', record_audit_row sv now h who n o s = (Ok tt, s').
Proof. unfold record_audit_row, mbind, M_bind, get. destruct (audits s !! h); by eexists. Qed.

(** The service signs every answer. *)
Definition signs : Prop := ∀ message sign, sv_sign sv = Some sign → is_Some (sign message).

Lemma sign_response_Ok r : signs → ∃ t, sign_response sv r = Ok t.
Proof.
  intros Hs. unfold sign_response. destruct (sv_sign sv) as [sign|] eqn:Hsign; [|by eexists].
  destruct (Hs (write_canonical (response_json r)) sign Hsign) as [t ->]. by eexists.
Qed.

Lemma active_network_eq n body f audit s row :
  networks s !! network_id_to_string n = Some row → nw_state row = "active" →
  db_alg body = nw_alg row ∧ db_key_version body = nw_key_version row ∧ df_alg f = nw_alg row ∧ df_key_version f = nw_key_version row →
  ∃ d, active_network n body f audit s = (Ok d, s) ∧ nd_alg d = nw_alg row ∧ nd_key_version d = nw_key_version row.
Proof.
  intros Hrow Hst (? & ? & ? & ?). destruct (get_network_eq n s row Active Hrow) as (d & Hd & Hs & ? & ? & _).
  { by rewrite Hst. }
  exists d. split; [|done]. unfold active_network. rewrite (M_bind_step _ _ _ _ _ Hd), Hs. erewrite M_bind_step by done.
  rewrite !bool_decide_true by congruence. done.
Qed.

Lemma bound_request_eq now n i v alg version s body f receiver wrapped audit s0 :
  good_request now n i v alg version s body f →
  std_decode (db_receiver_public_key body) = Some receiver → std_decode (db_encrypted_symmetric_key body) = Some wrapped →
  bound_request body f v audit s0 = (Ok (receiver, wrapped), s0).
Proof.
  intros [] Hr Hw. destruct gr_receiver0 as [Hr1 Hr2], gr_wrapped0 as [Hw1 Hw2]. unfold bound_request. rewrite Hr, Hw.
  do 2 (erewrite M_bind_step by done). rewrite !(bool_decide_true _ Hr1), !(bool_decide_true _ Hr2). cbn [andb guard_audited].
  erewrite M_bind_step by done. rewrite !(bool_decide_true _ Hw1), !(bool_decide_true _ Hw2). cbn [andb guard_audited].
  erewrite M_bind_step by done. rewrite (bool_decide_true _ gr_bound0). cbn [guard_audited]. by erewrite M_bind_step by done.
Qed.

Lemma answer_request_eq random n d body v cid receiver wrapped s row sealed key sealed' :
  signs → networks s !! network_id_to_string n = Some row → nw_sealed_private_key row = Some sealed →
  backend_unwrap sealed wrapped = Ok key → backend_rewrap random key receiver = Ok sealed' →
  ∃ r, answer_request sv random n d body v cid receiver wrapped s = (Ok r, s) ∧ rp_wrapped_key r = std_encode sealed'.
Proof.
  intros Hsign Hrow Hsealed Hun Hre. unfold answer_request. m_step. rewrite Hrow. erewrite M_bind_step by done.
  rewrite Hsealed. erewrite M_bind_step by done. rewrite Hun. erewrite M_bind_step by done. rewrite Hre. erewrite M_bind_step by done.
  set (r := mkDecryptResponseBody _ _ _ _ _ _ _ _ _ _ ""). destruct (sign_response_Ok r Hsign) as [t Ht]. rewrite Ht.
  erewrite M_bind_step by done. by eexists.
Qed.

Lemma decrypt_accepts now random n i v s body f row sealed wrapped receiver key sealed' :
  signs → good_request now n i v (nw_alg row) (nw_key_version row) s body f →
  networks s !! network_id_to_string n = Some row → nw_state row = "active" → nw_sealed_private_key row = Some sealed →
  std_decode (db_receiver_public_key body) = Some receiver → std_decode (db_encrypted_symmetric_key body) = Some wrapped →
  backend_unwrap sealed wrapped = Ok key → backend_rewrap random key receiver = Ok sealed' →
  ∃ r s', decrypt_authorized sv now random n i v s = (Ok r, s') ∧ rp_wrapped_key r = std_encode sealed'.
Proof.
  intros Hsign Hgood Hrow Hst Hsealed Hrec Hwr Hun Hre. pose proof Hgood as [Hb Hf [Ht1 Ht2] (Ha & Hn1 & Hn2) [Hi1 Hi2] (c & Hc & Hm) Hk Htime _ _ _ (nonce & Hno & Hfresh)].
  unfold decrypt_authorized. rewrite Hb, Hf. do 2 (erewrite M_bind_step by done).
  rewrite (bool_decide_true _ Ht1), (bool_decide_true _ Ht2). erewrite M_bind_step by done.
  rewrite (bool_decide_true _ Ha). erewrite M_bind_step by done.
  rewrite (bool_decide_true _ Hn1), (bool_decide_true _ Hn2). erewrite M_bind_step by done.
  rewrite (bool_decide_true _ Hi1), (bool_decide_true _ Hi2). erewrite M_bind_step by done.
  rewrite Hc. erewrite M_bind_step by done. rewrite Hm. erewrite M_bind_step by done.
  destruct (active_network_eq n body f (record_native_audit sv now i n f) s row Hrow Hst Hk) as (d & Hd & _).
  rewrite (M_bind_step _ _ _ _ _ Hd), Htime. erewrite M_bind_step by done.
  rewrite (M_bind_step _ _ _ _ _ (bound_request_eq _ _ _ _ _ _ _ _ _ _ _ _ _ Hgood Hrec Hwr)), Hno. erewrite M_bind_step by done.
  set (s1 := set_nonces (<[(ii_invoker i, nonce) := rfc3339_of (native_exp i * 1000000000)]> (nonces s)) s).
  rewrite (M_bind_step _ _ _ tt s1) by (unfold consume_nonce_audited; by rewrite consume_nonce_spec, decide_True).
  destruct (answer_request_eq random n d body v (native_invocation_cid i) receiver wrapped s1 row sealed key sealed') as (r & Hr & Hw); try done.
  rewrite (M_bind_step _ _ _ _ _ Hr). destruct (audit_Ok now (hash_hex (native_invocation_cid i +:+ df_body_hash f)) (ii_invoker i) n "allowed" s1) as [s2 Hs2].
  unfold record_native_audit at 1. rewrite (M_bind_step _ _ _ _ _ Hs2). by exists r, s2.
Qed.

(** What creating a network stores. *)
Lemma create_Ok now random name owner threshold s d s' :
  create_one_of_one_network sv now random name owner threshold s = (Ok d, s') →
  ∃ generated row, backend_generate random = Ok generated ∧ networks s' !! network_id_to_string (nd_network_id d) = Some row ∧
    nw_state row = "active" ∧ nw_public_key row = gk_public_key generated ∧ nw_sealed_private_key row = Some (gk_sealed_private_key generated) ∧
    nw_alg row = gk_alg generated ∧ nw_key_version row = 1%Z ∧ nd_public_encryption_key d = gk_public_key generated ∧
    networks s !! network_id_to_string (nd_network_id d) = None.
Proof.
  intros Hc. unfold create_one_of_one_network in Hc. apply M_bind_Ok in Hc as (n & s0 & [_ ->]%lift_Ok & Hc).
  apply M_bind_Ok in Hc as (? & s0 & [-> ->]%get_Ok & Hc). apply M_bind_Ok in Hc as (? & s0 & [Hnone%bool_decide_eq_true ->]%guard_Ok & Hc).
  apply M_bind_Ok in Hc as (? & s1 & _ & Hc). apply M_bind_Ok in Hc as (generated & s0 & [Hg%map_err_Ok ->]%lift_Ok & Hc).
  apply M_bind_Ok in Hc as (? & s2 & Hi & Hc). apply M_bind_Ok in Hc as (? & s3 & Hm & Hc). apply M_bind_Ok in Hc as (? & s4 & Hce & Hc).
  apply M_ret_Ok in Hc as [-> ->]. cbn [nd_network_id nd_public_encryption_key]. exists generated.
  unfold insert_network in Hi. m_steps Hi.
  unfold insert_member in Hm. m_steps Hm.
  unfold complete_ceremony in Hce. m_steps Hce.
  eexists. split; [done|]. simpl. rewrite lookup_insert_eq. by split_and!.
Qed.

End Answered.

(** ** Claims *)

Section Claims.
Context `{Keccak256} `{DisplayFloat} `{Sha256} `{Blake3} `{CidLib} `{RowOrder} `{KeyBackend} `{EncLib} `{TokenLib} `{HookFormats} `{DagCbor}
        `{TokenCodec} `{Collation}.
Context {B E : Type} `{!BlockStore B E}.
Context (sv : EncryptionService).
Context (encryption : option ColumnEncryption) (nonce : Hash → string) (setup : SpaceId → result TxError unit).

Lemma verify_encryption_auth_Ok now db b i bytes db' b' :
  verify_encryption_auth sv encryption nonce setup now db b i bytes = (Ok db', b') →
  ∃ res ops, transact encryption nonce now setup db [EInvocation i bytes ops] = Ok (res, db').
Proof.
  unfold verify_encryption_auth. case_bool_decide; [|done]. cbn [negb]. unfold invoke.
  destruct (invoke_with_options _ _ _ _ _ _ _ _ _ _) as [[[[res outs] db1]|] b1] eqn:Hi; intros [= Hr _].
  apply invoke_Ok in Hi as (stages & ops & deleted & _ & _ & Ht & _). simplify_eq. by exists res, ops.
Qed.

Lemma decrypt_route_Ok now now' random id i bytes v db b s r st' :
  decrypt_route sv encryption nonce setup now now' random id i bytes v (db, b, s) = (Ok r, st') →
  ∃ n, network_id_from_str id = Ok n ∧ (∃ res ops, transact encryption nonce now setup db [EInvocation i bytes ops] = Ok (res, st'.1.1)) ∧
    decrypt_authorized sv now' random n i v s = (Ok r, st'.2).
Proof.
  unfold decrypt_route, with_auth. destruct (verify_encryption_auth _ _ _ _ _ _ _ _ _) as [[db1|e] b1] eqn:Hv; [|done].
  destruct (network_id_from_str id) as [n|] eqn:Hn; [|done]. unfold run_service.
  destruct (decrypt_authorized _ _ _ _ _ _ _) as [[r1|] s1] eqn:Hd; [|done].
  intros Hr. injection Hr as <- <-. exists n. split_and!; [done| |done]. by eapply verify_encryption_auth_Ok.
Qed.

(** A capability that names the network concerns a resource of its owner. *)
Lemma matched_owner db i c id n :
  network_id_from_str id = Ok n → network_id_matches (resource_display (cap_resource c)) n = true → traced db i c →
  resource_owner (cap_resource c) = Some (owner_did n).
Proof.
  intros Hn Hm (o & Ho & _). pose proof (network_id_roundtrip id n Hn) as Hround. revert Hm Ho.
  unfold network_id_matches, resource_owner, resource_display. destruct (cap_resource c) as [r|u].
  - unfold resource_to_string, space_to_string. intros Hm _. exfalso. revert Hm.
    unfold network_id_from_str, network_id_to_string. cbn. by rewrite bool_decide_false.
  - destruct (network_id_from_str (uri_str u)) as [n'|] eqn:Hu.
    + by intros ->%bool_decide_eq_true _.
    + done.
Qed.

(** C10: the node releases a key only to somebody the owner of the network let
    have it.  In every reachable store, when the decrypt route answers, the
    invocation was accepted for this node, it carries the decrypt capability on
    exactly this network, a resource of the network's owner, and that very capability
    is the owner's own or traces to a stored delegation by the owner; the network
    was active, the invocation within its time, its facts fix the whole body by
    its hash, the answer is the body's key opened with the network's key and
    sealed to the receiver the body names, and the nonce was fresh and is used up. *)
Theorem decrypt_released (now now' : Z) (random id bytes : string) (i : InvocationInfo) (v : json) (db : Tables.Db) (b : B) (s : EncDb)
    (r : DecryptResponseBody) (db' : Tables.Db) (b' : B) (s' : EncDb) :
  reachable db →
  decrypt_route sv encryption nonce setup now now' random id i bytes v (db, b, s) = (Ok r, (db', b', s')) →
  ∃ n, network_id_from_str id = Ok n ∧ released sv now' random n i v s r s' ∧
  ∃ c, c ∈ ii_capabilities i ∧ cap_ability c = DECRYPT_ACTION ∧ network_id_matches (resource_display (cap_resource c)) n = true ∧
    resource_owner (cap_resource c) = Some (owner_did n) ∧ traced db' i c.
Proof.
  intros Hr%reachable_sound (n & Hn & (res & ops & Ht) & Hd%decrypt_authorized_Ok)%decrypt_route_Ok.
  exists n. split_and!; [done|done|]. destruct (rl_capability _ _ _ _ _ _ _ _ _ Hd) as (c & Hin & Hab & Hm).
  pose proof (transact_invocation_traced _ _ _ _ _ _ _ _ _ _ _ Hr Ht Hin) as Htr.
  exists c. split_and!; [done|done|done| |done]. by eapply matched_owner.
Qed.

(** C19: revoking a network and using a nonce last: in whatever order creations,
    revocations, admin checks and decrypt requests follow, successful or not, no
    request, enveloped or native, gets a key of a revoked network; and once a
    request, enveloped or native, got a key, no request of the same principal with
    the same nonce, enveloped or native and for whatever network, gets one. *)
Theorem release_refused_for_good (s0 s s' : EncDb) (n : NetworkId) :
  rtc (service_step sv) s s' →
  (∀ now, revoke_network now n s0 = (Ok tt, s) →
    ∀ now random q v r s2, request_decrypt sv now random n q v s' ≠ (Ok r, s2)) ∧
  (∀ now random m q v r, request_decrypt sv now random m q v s0 = (Ok r, s) →
    ∀ now2 random2 m2 q2 v2 r2 s2, requester q2 = requester q → request_nonce q2 = request_nonce q →
    request_decrypt sv now2 random2 m2 q2 v2 s' ≠ (Ok r2, s2)).
Proof.
  intros [Hnet Hnon _]%service_steps_evolve. split.
  - intros now Hr. unfold revoke_network in Hr. m_steps Hr. apply ok_or_Ok in E0.
    destruct (Hnet (network_id_to_string n) (with_state "revoked" (rfc3339_of now) a)) as (r' & Hr' & _ & Hrev); [simpl; by rewrite lookup_insert_eq|].
    intros now2 random q v r s2 [(row & Hrow & Hst) _]%request_answered. naive_solver congruence.
  - intros now random m q v r [_ (no & Hno & _ & t & Ht)]%request_answered now2 random2 m2 q2 v2 r2 s2 Hi Hu
      [_ (no2 & Hno2 & Hfresh & _)]%request_answered.
    rewrite Hu, Hno in Hno2. simplify_eq. rewrite Hi in Hfresh. pose proof (lookup_weaken _ _ _ _ Ht Hnon). congruence.
Qed.

(** C26: what the service stores it can read back.  In every state it can get to,
    looking a network up answers that there is none, or gives the descriptor of
    exactly the network asked for, with its owner and name; no stored row is
    unreadable. *)
Theorem stored_networks_read_back (s : EncDb) (n : NetworkId) :
  rtc (service_step sv) enc_empty s →
  (get_network n s = (Err NetworkNotFound, s) ∧ networks s !! network_id_to_string n = None) ∨
  ∃ d, get_network n s = (Ok d, s) ∧ nd_network_id d = n ∧
    network_id_to_string {| owner_did := nd_owner_did d; network_name := nd_name d |} = network_id_to_string n.
Proof.
  intros Hs. pose proof (service_steps_wf sv _ _ Hs enc_empty_wf) as Hwf.
  destruct (networks s !! network_id_to_string n) as [row|] eqn:Hrow.
  - right. destruct (Hwf _ _ Hrow) as [Hid [st Hst]]. destruct (get_network_eq n s row st Hrow Hst) as (d & Hd & _ & _ & _ & Ho & Hnm & _).
    exists d. split; [done|]. apply get_network_Ok in Hd as (? & _ & _ & ? & _). split; [done|]. by rewrite Ho, Hnm.
  - left. split; [|done]. unfold get_network, mbind, M_bind, get, lift. by rewrite Hrow.
Qed.

(** C27: what a refused decrypt request, enveloped or native, leaves is one of three
    things: the store as it was; the store with one audit row more, of this
    request, its principal and network, with an outcome that says denied; or,
    only when it failed in the key backend (a network without a key included) or
    in signing, the store with its nonce used, which was fresh.  So networks,
    members and ceremonies are as they were, and after any other error the nonce
    can be used again. *)
Theorem refused_decrypt_effects (now' : Z) (random : string) (n : NetworkId) (q : KeyRequest) (v : json) (s : EncDb) (e : EncryptionServiceError)
    (s' : EncDb) :
  request_decrypt sv now' random n q v s = (Err e, s') →
  s' = s ∨
  (∃ h outcome, request_key q = Some h ∧ starts_with "denied:" outcome = true ∧ audits s !! h = None ∧
     s' = set_audits (<[h := mkAuditRow (requester q) (network_id_to_string n) (sv_node_did sv) outcome (rfc3339_of now')]> (audits s)) s) ∨
  (((∃ be, e = EBackend be) ∨ e = Signing) ∧
   ∃ nonce, request_nonce q = Some nonce ∧ nonces s !! (requester q, nonce) = None ∧
     s' = set_nonces (<[(requester q, nonce) := rfc3339_of (request_exp q * 1000000000)]> (nonces s)) s).
Proof.
  intros [->|Hd|no Hno Hfresh He ->]%request_refused; [by left|by right; left|]. right; right. split; [done|]. by exists no.
Qed.

End Claims.

Section KeyRelease.
Context `{Keccak256} `{DisplayFloat} `{Sha256} `{Blake3} `{CidLib} `{RowOrder} `{EncLib} `{X25519}.
Context (seal : ColumnEncryption) (sv : EncryptionService).
#[local] Instance node_backend : KeyBackend := local_backend seal.

(** C37: a key sealed to a network comes back to the receiver.  A network is
    created; after any further operations of the service a client holds a key
    sealed to the public key of the network's descriptor; then a well-formed,
    authorized, fresh request for it on the network, if that is still active, is
    answered, and the receiver opens the answer to that very key.  The ciphers
    open what they sealed, X25519 derives one secret on both sides, Base64 decodes
    what it encoded, the node can sign its answers, and the random bytes and the
    client's nonce have the lengths the key and the cipher ask for. *)
Theorem key_release_roundtrip (now now' : Z) (random random' name owner ephemeral nonce key wrapped secret : string) (threshold : Z * Z)
    (s s1 s2 : EncDb) (d d2 : NetworkDescriptor) (i : InvocationInfo) (v : json) (body : DecryptRequestBody) (f : DecryptFacts) :
  x25519_sound → cipher_sound seal → (∀ t, std_decode (std_encode t) = Some t) → signs sv →
  random_ok random → random_ok random' → String.length nonce = 12%nat →
  create_one_of_one_network sv now random name owner threshold s = (Ok d, s1) →
  rtc (service_step sv) s1 s2 →
  wrap_to_public_key ephemeral nonce (nd_public_encryption_key d) key = Ok wrapped →
  get_network (nd_network_id d) s2 = (Ok d2, s2) → nd_state d2 = Active →
  good_request sv now' (nd_network_id d) i v (nd_alg d2) (nd_key_version d2) s2 body f →
  db_encrypted_symmetric_key body = std_encode wrapped → db_receiver_public_key body = std_encode (x_public secret) →
  ∃ r s3 answer, decrypt_authorized sv now' random' (nd_network_id d) i v s2 = (Ok r, s3) ∧
    std_decode (rp_wrapped_key r) = Some answer ∧ unwrap_with_secret secret answer = Ok key.
Proof.
  intros Hx Hseal Hb64 Hsign Hr Hr' Hn Hc Hs Hw Hg Hst Hgood Hkey Hrec.
  apply create_Ok in Hc as (generated & row & Hgen & Hrow & _ & _ & Hsealed & _ & _ & Hpub & _). rewrite Hpub in Hw.
  destruct (evolves_networks _ _ (service_steps_evolve sv _ _ Hs) _ _ Hrow) as (row2 & Hrow2 & (_ & _ & _ & _ & _ & Hsealed2 & _) & _).
  apply get_network_Ok in Hg as (row3 & Hrow3 & Hst3 & _ & Halg & Hver & _). simplify_eq. rewrite Halg, Hver in Hgood.
  assert (nw_state row3 = "active") as Hact by (apply network_state_parse_Some in Hst3; by rewrite Hst3, Hst).
  pose proof (local_unwrap_wrap Hx seal random generated ephemeral nonce key wrapped Hseal Hr Hn Hgen Hw) as Hun.
  assert (∃ answer, wrap_to_public_key (random_secret random') (random_nonce random') (x_public secret) key = Ok answer) as [answer Hre].
  { unfold wrap_to_public_key. rewrite (x_public_length Hx). by eexists. }
  destruct (decrypt_accepts sv now' random' (nd_network_id d) i v s2 body f row3 (gk_sealed_private_key generated) wrapped (x_public secret) key answer)
    as (r & s3 & Hd & Hrw); try done; [congruence|by rewrite Hrec|by rewrite Hkey|].
  exists r, s3, answer. split_and!; [done|by rewrite Hrw|]. eapply (unwrap_wrap Hx), Hre. by apply random_nonce_length.
Qed.

End KeyRelease.

(** ** Witnesses *)

#[local] Existing Instances demo_keccak demo_blake demo_cids demo_order demo_tokens demo_formats demo_cbor demo_codec demo_collation.

Definition demo_digest : Sha256 := λ s, [N.of_nat (String.length s) mod 256]%N.
Definition demo_float : DisplayFloat := λ _, "0.5".
Definition zeros : string := "00000000000000000000000000000000".
(** Every key pair derives the same secret. *)
Definition demo_x25519 : X25519 :=
  {| x_public := λ secret, String.substring 0 32 (secret +:+ zeros); x_shared := λ _ _, ""; cipher_of_key := λ _, demo_cipher |}.
Definition demo_enc_lib : EncLib :=
  {| std_encode := λ s, s; std_decode := Some; rfc3339_of := λ _, "t"; multibase_decode := Some;
     ed25519_verify := λ _, Some (λ _ _, true); ucan_nonce := λ u, Some (u_encoded u) |}.
Definition demo_backend : KeyBackend := @local_backend demo_x25519 demo_cipher.
#[local] Existing Instances demo_digest demo_float demo_x25519 demo_enc_lib demo_backend.

Definition demo_node : EncryptionService := mkEncryptionService "did:key:node" None.
Definition demo_random : string := "0123456789abcdef0123456789abcdef0123456789ab".
Definition demo_network : NetworkId := {| owner_did := owner; network_name := "main" |}.
Definition demo_network_id : string := network_id_to_string demo_network.
Definition demo_created : result EncryptionServiceError NetworkDescriptor * EncDb :=
  create_one_of_one_network demo_node 0 demo_random "main" owner (1, 1)%Z enc_empty.
Definition demo_descriptor : NetworkDescriptor :=
  match demo_created.1 with Ok d => d | Err _ => mkNetworkDescriptor demo_network "" "" [] (0, 0)%Z Failed "" "" 0 LocalOneOfOne "" "" end.
Definition demo_wrapped : string :=
  match wrap_to_public_key "e" "nonce_nonce_" (nd_public_encryption_key demo_descriptor) "symmetric" with Ok w => w | Err _ => "" end.
Definition demo_receiver : string := "receiver".

Definition demo_request : json :=
  JObject [("alg", JString ALG_X25519_AES256GCM); ("encryptedSymmetricKey", JString demo_wrapped);
           ("encryptedSymmetricKeyHash", JString (canonical_hash (JString demo_wrapped))); ("keyVersion", JNumber (NInt 1));
           ("networkId", JString demo_network_id); ("receiverPublicKey", JString (x_public demo_receiver));
           ("receiverPublicKeyHash", JString (canonical_hash (JString (x_public demo_receiver)))); ("targetNode", JString "did:key:node");
           ("type", JString DECRYPT_REQUEST_TYPE)].
Definition demo_facts : json :=
  decrypt_facts_json (mkDecryptFacts DECRYPT_REQUEST_TYPE "did:key:node" demo_network (canonical_hash demo_request)
    (canonical_hash (JString demo_wrapped)) (canonical_hash (JString (x_public demo_receiver))) ALG_X25519_AES256GCM 1).

(** The owner asks for the key, 100 seconds before the invocation ends. *)
Definition demo_uri : Uri := mkUri "urn" None "tinycloud:encryption:did:key:owner:main" None None.
Definition demo_ask (nonce : string) : InvocationInfo :=
  {| ii_capabilities := [mkCapability (Other demo_uri) DECRYPT_ACTION []]; ii_invoker := owner; ii_parents := [];
     ii_invocation := mkUcan owner "did:key:node" None 100000000000 (Some [demo_facts]) [] [] nonce |}.

Definition demo_release := decrypt_route demo_node None demo_nonce demo_setup 0 0 demo_random demo_network_id (demo_ask "n1") "n1" demo_request
  (demo_store, (∅ : MemoryStore), demo_created.2).

Example demo_release_ok : is_ok demo_release.1 = true.
Proof. vm_compute. reflexivity. Qed.

Definition demo_answer : DecryptResponseBody :=
  match demo_release.1 with Ok r => r | Err _ => mkDecryptResponseBody "" demo_network "" "" "" "" "" 0 "" "" "" end.
Definition demo_after : EncDb := demo_release.2.2.

Lemma demo_release_eq : demo_release = (Ok demo_answer, (demo_release.2.1.1, demo_release.2.1.2, demo_after)).
Proof.
  pose proof demo_release_ok as Hok. unfold demo_answer, demo_after. revert Hok. by destruct demo_release as [[r|e] [[db b] s]].
Qed.

Lemma decrypt_released_witness :
  ∃ n, network_id_from_str demo_network_id = Ok n ∧ released demo_node 0 demo_random n (demo_ask "n1") demo_request demo_created.2 demo_answer demo_after ∧
  ∃ c, c ∈ ii_capabilities (demo_ask "n1") ∧ cap_ability c = DECRYPT_ACTION ∧ network_id_matches (resource_display (cap_resource c)) n = true ∧
    resource_owner (cap_resource c) = Some (owner_did n) ∧ traced demo_release.2.1.1 (demo_ask "n1") c.
Proof.
  apply (decrypt_released demo_node None demo_nonce demo_setup 0 0 demo_random demo_network_id "n1" (demo_ask "n1") demo_request demo_store
    (∅ : MemoryStore) demo_created.2 demo_answer _ demo_release.2.1.2).
  - apply demo_store_reachable.
  - exact demo_release_eq.
Defined.

Lemma demo_direct_eq : decrypt_authorized demo_node 0 demo_random demo_network (demo_ask "n1") demo_request demo_created.2 = (Ok demo_answer, demo_after).
Proof. vm_compute. reflexivity. Qed.

Definition demo_revoked : EncDb := (revoke_network 5 demo_network demo_created.2).2.

Lemma demo_revoked_eq : revoke_network 5 demo_network demo_created.2 = (Ok tt, demo_revoked).
Proof. vm_compute. reflexivity. Qed.

Lemma release_refused_for_good_witness :
  Forall (λ nonce, is_ok (decrypt_authorized demo_node 0 demo_random demo_network (demo_ask nonce) demo_request demo_revoked).1 = false) ["n1"; "n2"] ∧
  is_ok (decrypt_authorized demo_node 0 demo_random demo_network (demo_ask "n1") demo_request demo_after).1 = false.
Proof.
  split.
  - destruct (release_refused_for_good demo_node demo_created.2 demo_revoked demo_revoked demo_network (rtc_refl _ _)) as [Hr _].
    pose proof (Hr 5%Z demo_revoked_eq) as Hd. apply Forall_true. intros nonce.
    specialize (Hd 0%Z demo_random (Native (demo_ask nonce)) demo_request). simpl in Hd.
    destruct (decrypt_authorized _ _ _ _ _ _ _) as [[r|e] s]; [by destruct (Hd r s)|done].
  - destruct (release_refused_for_good demo_node demo_created.2 demo_after demo_after demo_network (rtc_refl _ _)) as [_ Hr].
    specialize (Hr 0%Z demo_random demo_network (Native (demo_ask "n1")) demo_request demo_answer demo_direct_eq
      0%Z demo_random demo_network (Native (demo_ask "n1")) demo_request). simpl in Hr.
    destruct (decrypt_authorized _ _ _ _ _ _ _) as [[r|e] s]; [by destruct (Hr r s)|done].
Defined.

Lemma demo_created_step : rtc (service_step demo_node) enc_empty demo_created.2.
Proof. apply rtc_once, step_create. Qed.

Lemma stored_networks_read_back_witness :
  (get_network demo_network demo_created.2 = (Err NetworkNotFound, demo_created.2) ∧ networks demo_created.2 !! network_id_to_string demo_network = None) ∨
  ∃ d, get_network demo_network demo_created.2 = (Ok d, demo_created.2) ∧ nd_network_id d = demo_network ∧
    network_id_to_string {| owner_did := nd_owner_did d; network_name := nd_name d |} = network_id_to_string demo_network.
Proof. apply (stored_networks_read_back demo_node). apply demo_created_step. Defined.

(** The same invocation again. *)
Definition demo_replayed := decrypt_authorized demo_node 0 demo_random demo_network (demo_ask "n1") demo_request demo_after.

Lemma demo_replayed_eq : demo_replayed = (Err NonceReplay, demo_replayed.2).
Proof. vm_compute. reflexivity. Qed.

Lemma refused_decrypt_effects_witness : networks demo_replayed.2 = networks demo_after ∧ nonces demo_replayed.2 = nonces demo_after.
Proof.
  destruct (refused_decrypt_effects demo_node 0 demo_random demo_network (Native (demo_ask "n1")) demo_request demo_after NonceReplay
    demo_replayed.2 demo_replayed_eq) as [->|[(h & o & _ & _ & _ & ->)|([[be [=]]|[=]] & _)]]; by split.
Defined.

Lemma demo_x25519_sound : @x25519_sound demo_x25519.
Proof.
  assert (cipher_sound demo_cipher) as Hc.
  { intros nonce data. split; [apply strip_prefix_app|]. simpl. rewrite length_append. simpl. lia. }
  split; [|done|done]. intros a. simpl. apply substring_take_length. rewrite length_append. simpl. lia.
Qed.

Definition demo_body : DecryptRequestBody :=
  match de_decrypt_body demo_request with Some b => b | None => mkDecryptRequestBody "" "" demo_network "" 0 "" "" "" "" end.
Definition demo_decoded_facts : DecryptFacts :=
  match de_decrypt_facts demo_facts with Some f => f | None => mkDecryptFacts "" "" demo_network "" "" "" "" 0 end.

Lemma demo_good_request :
  good_request demo_node 0 (nd_network_id demo_descriptor) (demo_ask "n1") demo_request (nd_alg demo_descriptor) (nd_key_version demo_descriptor)
    demo_created.2 demo_body demo_decoded_facts.
Proof.
  constructor.
  6: { exists (mkCapability (Other demo_uri) DECRYPT_ACTION []). split; vm_compute; reflexivity. }
  11: { exists "n1". split; vm_compute; reflexivity. }
  all: repeat match goal with |- _ ∧ _ => split end.
  all: vm_compute; reflexivity.
Qed.

Lemma key_release_roundtrip_witness :
  ∃ r s3 answer, decrypt_authorized demo_node 0 demo_random (nd_network_id demo_descriptor) (demo_ask "n1") demo_request demo_created.2 = (Ok r, s3) ∧
    std_decode (rp_wrapped_key r) = Some answer ∧ unwrap_with_secret demo_receiver answer = Ok "symmetric".
Proof.
  apply (key_release_roundtrip demo_cipher demo_node 0 0 demo_random demo_random "main" owner "e" "nonce_nonce_" "symmetric" demo_wrapped demo_receiver
    (1, 1)%Z enc_empty demo_created.2 demo_created.2 demo_descriptor demo_descriptor (demo_ask "n1") demo_request demo_body demo_decoded_facts).
  - exact demo_x25519_sound.
  - exact (x_cipher_sound demo_x25519_sound "").
  - done.
  - done.
  - done.
  - done.
  - done.
  - vm_compute. reflexivity.
  - apply rtc_refl.
  - vm_compute. reflexivity.
  - vm_compute. reflexivity.
  - vm_compute. reflexivity.
  - exact demo_good_request.
  - vm_compute. reflexivity.
  - vm_compute. reflexivity.
Defined.

(** ** Where the code falls short of what it says *)

(** The request with another hash of the receiver's key. *)
Definition demo_tampered : json :=
  match demo_request with
  | JObject m => JObject ((λ kv : string * json, if bool_decide (kv.1 = "receiverPublicKeyHash") then (kv.1, JString "") else kv) <$> m)
  | v => v
  end.

Definition demo_first_denied := decrypt_route demo_node None demo_nonce demo_setup 0 0 demo_random demo_network_id (demo_ask "n1") "n1" demo_tampered
  (demo_store, (∅ : MemoryStore), demo_created.2).
Definition demo_then_released := decrypt_route demo_node None demo_nonce demo_setup 0 0 demo_random demo_network_id (demo_ask "n1") "n1" demo_request
  demo_first_denied.2.

(** The audit's rows have the request hash as their key, the outcome is not part of
    it: a request refused for its body and then sent as it was signed gets its key,
    and the only row about it says that it was denied. *)
Theorem release_audited_as_denied :
  demo_first_denied.1 = Err 401%N ∧ is_ok demo_then_released.1 = true ∧
  (au_outcome ∘ snd <$> map_to_list (audits demo_then_released.2.2)) = ["denied:receiver-hash"].
Proof. split_and!; vm_compute; reflexivity. Qed.

(** The key wrap reuses the column cipher, which passes data without its version
    byte through: bytes that nobody sealed, after 32 bytes of any public key, are
    opened to themselves under every key. *)
Theorem unsealed_bytes_unwrap `{X25519} (secret peer : string) (c : ascii) (data : string) :
  String.length peer = 32%nat → c ≠ VERSION_ENCRYPTED → unwrap_with_secret secret (peer +:+ String c data) = Ok (String c data).
Proof.
  intros Hp Hc. unfold unwrap_with_secret. pose proof (substring_app_l peer (String c data)) as H1.
  pose proof (substring_app_r peer (String c data) (String.length (String c data)) eq_refl) as H2. rewrite Hp in H1, H2.
  rewrite length_append, Hp. replace (32 + String.length (String c data) - 32)%nat with (String.length (String c data)) by lia.
  rewrite H1, H2. destruct (Nat.leb_spec 32 (32 + String.length (String c data))); [|lia]. cbn [ensure]. rewrite bind_ret_l.
  unfold decrypt. by rewrite bool_decide_false.
Qed.
