(* ===== verification/Quota.v ===== *)
(** * Storage quotas: tinycloud-node-server/src/quota.rs

    [QuotaCache] answers with an admin override, else with the last limit learned
    from the quota service, else with the default, and refreshes stale answers in
    the background.  Requests, refresh tasks and admin calls interleave: the state
    holds the calls and tasks that run, each event is what happens under one lock,
    and an execution is a list of events.  Limits are bytes, instants
    nanoseconds of the monotonic clock; keys are the texts of space ids. *)
From S2P Require Import Prelude Str Chars Resource.

Definition FRESH_TTL : Z := 60000000000.
Definition FAILURE_BACKOFF : Z := 30000000000.

Record RemoteEntry := mkRemoteEntry {
  limit_bytes : option N;
  fetched_at : Z;
  stale : bool;
  last_failure : option Z;
}.

Definition should_spawn_refresh (stale : bool) (fetched_at_elapsed : Z) (last_failure_elapsed : option Z) : bool :=
  (stale && match last_failure_elapsed with Some e => (FAILURE_BACKOFF <=? e)%Z | None => true end)
  || (negb stale && (FRESH_TTL <=? fetched_at_elapsed)%Z).

(** Where a call or a task is that waits.  A request that found no override is
    [Looking] before it reads the cached answers, [FirstFetching] when it asks
    the service itself and [FirstFetched] with the answer.  A refresh is
    [Spawned] before it looks at [inflight], [Fetching] while the service is
    asked, [Fetched] with its answer, [Recorded] before it leaves [inflight].
    [Removing] is a [remove_limit] that has dropped the override. *)
Inductive Task :=
| Looking (key : string)
| Removing (key : string)
| Spawned (key : string)
| Fetching (key : string)
| Fetched (key : string) (answer : option N)
| Recorded (key : string)
| FirstFetching (key : string)
| FirstFetched (key : string) (answer : option N).

#[export] Instance Task_eq_dec : EqDecision Task.
Proof. solve_decision. Defined.

Record QuotaCache := mkQuotaCache {
  overrides : gmap string N;
  remote : gmap string RemoteEntry;
  inflight : gset string;
  tasks : list Task;
}.

Definition new : QuotaCache := mkQuotaCache ∅ ∅ ∅ [].

Definition set_remote (r : gmap string RemoteEntry) (q : QuotaCache) : QuotaCache :=
  mkQuotaCache (overrides q) r (inflight q) (tasks q).
Definition set_overrides (o : gmap string N) (q : QuotaCache) : QuotaCache :=
  mkQuotaCache o (remote q) (inflight q) (tasks q).
Definition set_inflight (i : gset string) (q : QuotaCache) : QuotaCache :=
  mkQuotaCache (overrides q) (remote q) i (tasks q).
Definition set_tasks (t : list Task) (q : QuotaCache) : QuotaCache :=
  mkQuotaCache (overrides q) (remote q) (inflight q) t.

(** [Instant::elapsed] saturates at zero. *)
Definition elapsed (now t : Z) : Z := Z.max 0 (now - t).

Definition record_fetch (remote : gmap string RemoteEntry) (key : string) (fetched : option N) (now : Z)
    : gmap string RemoteEntry :=
  match fetched, (e ← remote !! key; limit_bytes e) with
  | Some limit, _ => <[key := mkRemoteEntry (Some limit) now false None]> remote
  | None, Some previous => <[key := mkRemoteEntry (Some previous) now true (Some now)]> remote
  | None, None => <[key := mkRemoteEntry None now false None]> remote
  end.

Section Cache.
(** The configured default and the address of the quota service; the client
    exists exactly when the address does. *)
Context (default_limit : option N) (quota_url : option string).

(** What [get_limit] does before it may wait for the service: answer at once,
    perhaps after spawning a refresh, or fetch first. *)
Inductive Lookup :=
| Answer (limit : option N) (spawn : bool)
| Fetch.

(** The answer under the lock on the overrides, [None] when the call goes on. *)
Definition limit_before_remote (q : QuotaCache) (key : string) : option (option N) :=
  match overrides q !! key with
  | Some limit => Some (Some limit)
  | None => match quota_url with None => Some default_limit | Some _ => None end
  end.

Definition limit_from_remote (q : QuotaCache) (key : string) (now : Z) : Lookup :=
  match remote q !! key with
  | Some (mkRemoteEntry (Some limit) t st failure) =>
      Answer (Some limit) (should_spawn_refresh st (elapsed now t) (elapsed now <$> failure))
  | Some (mkRemoteEntry None t _ _) => Answer default_limit (FAILURE_BACKOFF <=? elapsed now t)%Z
  | None => Fetch
  end.

(** A request: the overrides are those of [q], the cached answers those of [q'],
    the state when it takes the second lock. *)
Definition get_limit (q q' : QuotaCache) (key : string) (now : Z) : Lookup :=
  match limit_before_remote q key with
  | Some limit => Answer limit false
  | None => limit_from_remote q' key now
  end.

(** The answer of the first fetch, once it is recorded. *)
Definition first_answer (answer : option N) : option N :=
  match answer with Some limit => Some limit | None => default_limit end.

Definition set_limit (q : QuotaCache) (key : string) (limit : N) : QuotaCache :=
  set_overrides (<[key := limit]> (overrides q)) q.

(** [remove_limit] drops the override, then marks the cached answer stale under
    the second lock. *)
Definition drop_override (q : QuotaCache) (key : string) : bool * QuotaCache :=
  (bool_decide (is_Some (overrides q !! key)), set_overrides (delete key (overrides q)) q).

Definition mark_stale (q : QuotaCache) (key : string) : bool * QuotaCache :=
  match remote q !! key with
  | Some e => (true, set_remote (<[key := mkRemoteEntry (limit_bytes e) (fetched_at e) true (last_failure e)]> (remote q)) q)
  | None => (false, q)
  end.

Definition remove_limit (q : QuotaCache) (key : string) : bool * QuotaCache :=
  let '(had_override, q) := drop_override q key in
  let '(had_remote, q) := mark_stale q key in
  (had_override || had_remote, q).

Definition get_override (q : QuotaCache) (key : string) : option N := overrides q !! key.
Definition get_cached_remote (q : QuotaCache) (key : string) : option N := e ← remote q !! key; limit_bytes e.
Definition list_overrides (q : QuotaCache) : gmap string N := overrides q.

(** ** Steps *)

Inductive QuotaEvent :=
| Get (key : string)
| LookUp (key : string)
| Begin (key : string)
| Respond (key : string) (answer : option N)
| Record_ (key : string) (answer : option N)
| Finish (key : string)
| FirstRespond (key : string) (answer : option N)
| FirstRecord (key : string) (answer : option N)
| Set_ (key : string) (limit : N)
| Remove (key : string)
| MarkStale (key : string).

Fixpoint take_task (t : Task) (l : list Task) : option (list Task) :=
  match l with
  | [] => None
  | t' :: l => if decide (t' = t) then Some l else (cons t') <$> take_task t l
  end.

(** One step; [None] when no such call or task runs.  [get_limit] is [Get] and, if
    it goes on, [LookUp] and perhaps [FirstRespond] and [FirstRecord];
    [spawn_refresh]'s task is [Begin], [Respond], [Record_], [Finish];
    [remove_limit] is [Remove], [MarkStale]. *)
Definition step (q : QuotaCache) (now : Z) (e : QuotaEvent) : option QuotaCache :=
  match e with
  | Get key =>
      Some (match limit_before_remote q key with
            | Some _ => q
            | None => set_tasks (Looking key :: tasks q) q
            end)
  | LookUp key =>
      l ← take_task (Looking key) (tasks q);
      Some (match limit_from_remote q key now with
            | Answer _ true => set_tasks (Spawned key :: l) q
            | Answer _ false => set_tasks l q
            | Fetch => set_tasks (FirstFetching key :: l) q
            end)
  | Begin key =>
      l ← take_task (Spawned key) (tasks q);
      Some (if decide (key ∈ inflight q) then set_tasks l q
            else set_inflight ({[key]} ∪ inflight q) (set_tasks (Fetching key :: l) q))
  | Respond key answer =>
      l ← take_task (Fetching key) (tasks q); Some (set_tasks (Fetched key answer :: l) q)
  | Record_ key answer =>
      l ← take_task (Fetched key answer) (tasks q);
      Some (set_remote (record_fetch (remote q) key answer now) (set_tasks (Recorded key :: l) q))
  | Finish key =>
      l ← take_task (Recorded key) (tasks q); Some (set_inflight (inflight q ∖ {[key]}) (set_tasks l q))
  | FirstRespond key answer =>
      l ← take_task (FirstFetching key) (tasks q); Some (set_tasks (FirstFetched key answer :: l) q)
  | FirstRecord key answer =>
      l ← take_task (FirstFetched key answer) (tasks q);
      Some (set_remote (record_fetch (remote q) key answer now) (set_tasks l q))
  | Set_ key limit => Some (set_limit q key limit)
  | Remove key => Some (set_tasks (Removing key :: tasks q) (drop_override q key).2)
  | MarkStale key => l ← take_task (Removing key) (tasks q); Some (set_tasks l (mark_stale q key).2)
  end.

(** An execution: events with the instants they happen at. *)
Fixpoint run (q : QuotaCache) (events : list (Z * QuotaEvent)) : option QuotaCache :=
  match events with
  | [] => Some q
  | (now, e) :: events => q ← step q now e; run q events
  end.

(** ** The specification: overrides and the answers of the service *)

Definition overridden (o : gmap string N) (e : QuotaEvent) : gmap string N :=
  match e with
  | Set_ key limit => <[key := limit]> o
  | Remove key => delete key o
  | _ => o
  end.

Definition learned (m : gmap string N) (e : QuotaEvent) : gmap string N :=
  match e with
  | Record_ key (Some limit) | FirstRecord key (Some limit) => <[key := limit]> m
  | _ => m
  end.

(** The limit that applies: override, else the last answer, else the default. *)
Definition effective (o m : gmap string N) (key : string) : option N :=
  match o !! key with
  | Some limit => Some limit
  | None => match quota_url, m !! key with Some _, Some limit => Some limit | _, _ => default_limit end
  end.

Definition refines (q : QuotaCache) (o m : gmap string N) : Prop :=
  overrides q = o ∧ ∀ key, get_cached_remote q key = m !! key.

Lemma record_fetch_known r key answer now k :
  (e ← record_fetch r key answer now !! k; limit_bytes e) =
  match answer with
  | Some limit => if decide (k = key) then Some limit else e ← r !! k; limit_bytes e
  | None => e ← r !! k; limit_bytes e
  end.
Proof.
  unfold record_fetch. destruct answer as [a|]; [|destruct (r !! key ≫= limit_bytes) eqn:Hr];
    (destruct (decide (k = key)) as [->|Hne]; [rewrite lookup_insert_eq|by rewrite lookup_insert_ne]); done.
Qed.

(** The case of a step that consumed a task. *)
Ltac taken l H :=
  match goal with Hs : context [take_task ?t ?ts] |- _ => destruct (take_task t ts) as [l|] eqn:H; [|done] end;
  simplify_eq/=.

Lemma step_refines q now e q' o m :
  step q now e = Some q' → refines q o m → refines q' (overridden o e) (learned m e).
Proof.
  intros Hs [Ho Hm]. unfold refines, get_cached_remote in *.
  destruct e as [k|k|k|k a|k a|k|k a|k a|k l|k|k]; simpl in Hs.
  - simplify_eq. by destruct (limit_before_remote q k).
  - taken l Ht. by destruct (limit_from_remote q k now) as [? []|].
  - taken l Ht. by case_decide.
  - by taken l Ht.
  - taken l Ht. split; [done|]. intros key. rewrite record_fetch_known, Hm.
    destruct a; [|done]. case_decide; [subst; by rewrite lookup_insert_eq|by rewrite lookup_insert_ne].
  - by taken l Ht.
  - by taken l Ht.
  - taken l Ht. split; [done|]. intros key. rewrite record_fetch_known, Hm.
    destruct a; [|done]. case_decide; [subst; by rewrite lookup_insert_eq|by rewrite lookup_insert_ne].
  - simplify_eq/=. done.
  - by simplify_eq/=.
  - taken l Ht. unfold mark_stale.
    destruct (remote q !! k) as [e|] eqn:He; cbn; (split; [done|]); intros key; rewrite <- Hm; [|done].
    destruct (decide (key = k)) as [->|Hne]; [by rewrite lookup_insert_eq, He|by rewrite lookup_insert_ne].
Qed.

Lemma run_refines events q q' o m :
  run q events = Some q' → refines q o m →
  refines q' (fold_left overridden events.*2 o) (fold_left learned events.*2 m).
Proof.
  revert q o m. induction events as [|[now e] events IH]; intros q o m Hrun Href; simpl in Hrun; [by simplify_eq|].
  destruct (step q now e) as [q1|] eqn:Hs; [|done]. simpl. by eapply IH, step_refines.
Qed.

(** ** One refresh at a time *)

Definition refreshing (key : string) (t : Task) : bool :=
  match t with Fetching k | Fetched k _ | Recorded k => bool_decide (k = key) | _ => false end.

Definition flights (key : string) (l : list Task) : nat := length (filter (λ t, refreshing key t) l).

Lemma take_task_perm t l l' : take_task t l = Some l' → l ≡ₚ t :: l'.
Proof.
  revert l'. induction l as [|t' l IH]; intros l' Ht; simpl in Ht; [done|]. case_decide as Heq.
  - by simplify_eq.
  - destruct (take_task t l) as [m|]; [|done]. simplify_eq/=. rewrite (IH m) by done. apply Permutation_swap.
Qed.

Lemma flights_cons key t l : flights key (t :: l) = ((if refreshing key t then 1 else 0) + flights key l)%nat.
Proof. unfold flights. rewrite filter_cons. by destruct (refreshing key t). Qed.

Lemma take_task_flights t l l' key :
  take_task t l = Some l' → flights key l = ((if refreshing key t then 1 else 0) + flights key l')%nat.
Proof.
  intros Hp%take_task_perm. rewrite <- flights_cons. unfold flights.
  by rewrite Hp.
Qed.

Definition single_flight (q : QuotaCache) : Prop :=
  ∀ key, flights key (tasks q) = if decide (key ∈ inflight q) then 1 else 0.

Lemma step_single_flight q now e q' : step q now e = Some q' → single_flight q → single_flight q'.
Proof.
  intros Hs Hq key. specialize (Hq key). destruct e as [k|k|k|k a|k a|k|k a|k a|k l|k|k]; simpl in Hs.
  - simplify_eq. destruct (limit_before_remote q k); simpl; by rewrite ?flights_cons.
  - taken l Ht. rewrite (take_task_flights _ _ _ key Ht) in Hq.
    destruct (limit_from_remote q k now) as [? []|]; simpl; by rewrite ?flights_cons.
  - taken l Ht. rewrite (take_task_flights _ _ _ key Ht) in Hq.
    simpl in Hq. destruct (decide (k ∈ inflight q)) as [Hk|Hk]; simpl; [done|]. rewrite flights_cons. simpl.
    case_bool_decide as Hkey.
    + subst k. rewrite decide_False in Hq by done. rewrite decide_True by set_solver. lia.
    + rewrite Hq. destruct (decide (key ∈ inflight q)); [rewrite decide_True by set_solver|rewrite decide_False by set_solver]; done.
  - taken l Ht. by rewrite flights_cons, <- Hq, (take_task_flights _ _ _ key Ht).
  - taken l Ht. by rewrite flights_cons, <- Hq, (take_task_flights _ _ _ key Ht).
  - taken l Ht. rewrite (take_task_flights _ _ _ key Ht) in Hq.
    simpl in Hq. case_bool_decide as Hkey.
    + subst k. rewrite decide_False by set_solver. destruct (decide (key ∈ inflight q)); lia.
    + simpl in Hq. rewrite Hq. destruct (decide (key ∈ inflight q)); [rewrite decide_True by set_solver|rewrite decide_False by set_solver]; done.
  - taken l Ht. by rewrite flights_cons, <- Hq, (take_task_flights _ _ _ key Ht).
  - taken l Ht. by rewrite <- Hq, (take_task_flights _ _ _ key Ht).
  - by simplify_eq/=.
  - simplify_eq/=. by rewrite flights_cons.
  - taken l Ht. rewrite (take_task_flights _ _ _ key Ht) in Hq. unfold mark_stale. by destruct (remote q !! k).
Qed.

Lemma run_single_flight events q q' : run q events = Some q' → single_flight q → single_flight q'.
Proof.
  revert q. induction events as [|[now e] events IH]; intros q Hrun Hq; simpl in Hrun; [by simplify_eq|].
  destruct (step q now e) as [q1|] eqn:Hs; [|done]. by eapply IH, step_single_flight.
Qed.

End Cache.

(** ** Claims *)

(** Whatever the interleaving of requests, background refreshes and admin
    calls, the limit a request is answered without asking the service is the
    admin override if one is set when it starts, else the last answer of the quota
    service recorded when it looks, else the configured default: failed refreshes
    and invalidations never lose a known limit, and no refresh brings an override
    back. *)
Theorem quota_answers_refine (default_limit : option N) (quota_url : option string)
    (before between : list (Z * QuotaEvent)) (q q' : QuotaCache) (key : string) (now : Z) (limit : option N) (spawn : bool) :
  run default_limit quota_url new before = Some q →
  run default_limit quota_url q between = Some q' →
  get_limit default_limit quota_url q q' key now = Answer limit spawn →
  limit = effective default_limit quota_url (fold_left overridden before.*2 ∅)
            (fold_left learned between.*2 (fold_left learned before.*2 ∅)) key.
Proof.
  intros Hrun Hrun' Hget. apply (run_refines _ _ _ _ _ ∅ ∅) in Hrun as [Ho Hm]; [|done].
  pose proof (run_refines _ _ between q q' (overrides q) _ Hrun' (conj eq_refl Hm)) as [_ Hm'].
  specialize (Hm' key). unfold get_cached_remote in Hm'. unfold effective. rewrite <- Ho, <- Hm'.
  unfold get_limit, limit_before_remote, limit_from_remote in Hget.
  destruct (overrides q !! key); [by simplify_eq|]. destruct quota_url; [|by simplify_eq].
  destruct (remote q' !! key) as [[[l|] ???]|]; by simplify_eq.
Qed.

(** At most one background refresh per space is in flight, and the in-flight
    set holds exactly the spaces with one, at every point of every execution. *)
Theorem one_refresh_per_space (default_limit : option N) (quota_url : option string)
    (events : list (Z * QuotaEvent)) (q : QuotaCache) (key : string) :
  run default_limit quota_url new events = Some q →
  flights key (tasks q) = if decide (key ∈ inflight q) then 1 else 0.
Proof. intros Hrun%run_single_flight; [apply Hrun|]. intros k. by rewrite decide_False by set_solver. Qed.

(** ** Witnesses *)

(** The service's answer, learned on the first request, is refreshed while the
    plan changes. *)
Definition demo_minute : Z := 60000000000.
Definition demo_refresh : list (Z * QuotaEvent) :=
  [(0, Get "s"); (0, LookUp "s"); (0, FirstRespond "s" (Some 10%N)); (0, FirstRecord "s" (Some 10%N));
   (demo_minute, Get "s"); (demo_minute, LookUp "s"); (demo_minute, Begin "s"); (demo_minute, Respond "s" (Some 10%N))]%Z.
Definition demo_cache (events : list (Z * QuotaEvent)) : QuotaCache :=
  default new (run (Some 5%N) (Some "url") new events).

Lemma quota_answers_refine_witness :
  Some 10%N = effective (Some 5%N) (Some "url") (fold_left overridden demo_refresh.*2 ∅)
                (fold_left learned [] (fold_left learned demo_refresh.*2 ∅)) "s".
Proof.
  apply (quota_answers_refine (Some 5%N) (Some "url") demo_refresh [] (demo_cache demo_refresh) (demo_cache demo_refresh)
           "s" (demo_minute + 1) _ true); by vm_compute.
Defined.

Lemma one_refresh_per_space_witness : flights "s" (tasks (demo_cache demo_refresh)) = 1.
Proof.
  apply (one_refresh_per_space (Some 5%N) (Some "url") demo_refresh (demo_cache demo_refresh) "s"). by vm_compute.
Defined.

(** An invalidation is lost while a refresh is in flight: when the answer that
    was fetched before a plan change is recorded after it, the entry counts as
    fresh, so the next request is answered the old limit and no refresh starts
    for a minute. *)
Theorem quota_invalidation_lost :
  let q := demo_cache (demo_refresh ++ [(demo_minute, Remove "s"); (demo_minute, MarkStale "s"); (demo_minute, Record_ "s" (Some 10%N)); (demo_minute, Finish "s")]) in
  get_limit (Some 5%N) (Some "url") q q "s" demo_minute = Answer (Some 10%N) false ∧
  get_limit (Some 5%N) (Some "url") q q "s" (2 * demo_minute - 1) = Answer (Some 10%N) false.
Proof. by vm_compute. Qed.
