(* ===== verification/Artifacts.v ===== *)
(** * Database artifacts and their sizes: tinycloud-core/src/database_artifacts.rs
      and sql_sizes.rs

    SQL and DuckDB databases of a space are stored as one row each.  [SqlSizes] is
    the process-local mirror of the rows' sizes that [store_size] adds to the size
    of the blocks; the decorator [SizeTrackingArtifactRepository] keeps it up to
    date.  The theorem is that the mirror agrees with the table after any sequence
    of saves, from a start with an empty table or from a seed. *)
From S2P Require Import Prelude Str Chars Json Identity Resource Tables Storage.

Record DatabaseArtifact := mkDatabaseArtifact {
  a_payload : string;
  a_content_hash : string;
  a_revision : Z;
  a_size_bytes : Z;
  a_created_at : string;
  a_updated_at : string;
  a_backend : string;
  a_storage_mode : string;
}.

Inductive DatabaseArtifactError := PayloadTooLarge (size : N).

(** The primary key: service, space, name. *)
Notation ArtifactKey := (string * string * string)%type.
Notation Artifacts := (gmap ArtifactKey DatabaseArtifact).

Definition load (t : Artifacts) (service space name : string) : option DatabaseArtifact :=
  t !! (service, space, name).

(** The update or insert writes the row it then reads back; [now] is the
    current instant as RFC 3339 text. *)
Definition save `{Blake3} `{CidLib} (now : string) (t : Artifacts) (service space name payload : string)
    : result DatabaseArtifactError (DatabaseArtifact * Artifacts) :=
  let size := N.of_nat (String.length payload) in
  _ ← ensure (Z.of_N size <? 2 ^ 63)%Z (PayloadTooLarge size);
  let existing := t !! (service, space, name) in
  let row := {| a_payload := payload;
                a_content_hash := cid_text (hash payload);
                a_revision := match existing with Some e => wrap_i64 (a_revision e + 1) | None => 1%Z end;
                a_size_bytes := Z.of_N size;
                a_created_at := match existing with Some e => a_created_at e | None => now end;
                a_updated_at := now;
                a_backend := "storage.database";
                a_storage_mode := "database-blob" |} in
  Ok (row, <[(service, space, name) := row]> t).

(** ** The mirror *)

Notation SqlSizes := (gmap string (gmap (string * string) N)).

Definition size_update (m : SqlSizes) (service space name : string) (size_bytes : N) : SqlSizes :=
  <[space := <[(service, name) := size_bytes]> (default ∅ (m !! space))]> m.

(** [size.max(0) as u64]. *)
Definition stored_size (z : Z) : N := Z.to_N (Z.max z 0).

Definition seed_row (m : SqlSizes) (kr : ArtifactKey * DatabaseArtifact) : SqlSizes :=
  let '(service, space, name, r) := kr in size_update m service space name (stored_size (a_size_bytes r)).

Definition seed_from `{RowOrder} (t : Artifacts) : SqlSizes :=
  fold_left seed_row (row_order (map_to_list t)) ∅.

(** A sum of [u64] values wraps. *)
Definition sum_u64 (l : list N) : N := (foldr N.add 0 l mod 2 ^ 64)%N.

Definition space_total (m : SqlSizes) (space : SpaceId) : N :=
  match m !! space_to_string space with
  | Some inner => sum_u64 (map_to_list inner).*2
  | None => 0
  end.

Definition tracked_save `{Blake3} `{CidLib} (now : string) (st : Artifacts * SqlSizes) (service space name payload : string)
    : result DatabaseArtifactError (DatabaseArtifact * (Artifacts * SqlSizes)) :=
  '(artifact, t) ← save now st.1 service space name payload;
  Ok (artifact, (t, size_update st.2 service space name (stored_size (a_size_bytes artifact)))).

(** [SpaceDatabase::store_size]: blocks and databases; [None] when there is
    neither. *)
Definition store_size {B E} `{BlockStore B E} (b : B) (sizes : SqlSizes) (s : SpaceId) : result E (option N) :=
  blocks ← bs_total_size b s;
  let sql := space_total sizes s in
  Ok (match blocks with
      | None => if decide (sql = 0%N) then None else Some ((default 0 blocks + sql) mod 2 ^ 64)%N
      | Some n => Some ((n + sql) mod 2 ^ 64)%N
      end).

(** ** The mirror agrees with the table *)

Definition size_of (m : SqlSizes) (k : ArtifactKey) : option N :=
  inner ← m !! k.1.2; inner !! (k.1.1, k.2).

Definition durable_size (t : Artifacts) (k : ArtifactKey) : option N :=
  stored_size ∘ a_size_bytes <$> t !! k.

Definition mirrors (m : SqlSizes) (t : Artifacts) : Prop := ∀ k, size_of m k = durable_size t k.

Lemma size_of_update m service space name n k :
  size_of (size_update m service space name n) k =
  if decide (k = (service, space, name)) then Some n else size_of m k.
Proof.
  destruct k as [[sv sp] nm]. unfold size_of, size_update. simpl. destruct (decide (sp = space)) as [->|Hsp].
  - rewrite lookup_insert_eq. simpl. destruct (decide ((sv, nm) = (service, name))) as [Heq|Hne].
    + simplify_eq. by rewrite lookup_insert_eq, decide_True.
    + rewrite lookup_insert_ne by naive_solver. rewrite decide_False by naive_solver.
      destruct (m !! space); simpl; [done|]. apply lookup_empty.
  - rewrite lookup_insert_ne by done. by rewrite decide_False by naive_solver.
Qed.

Lemma seed_rows_size l m k :
  NoDup l.*1 →
  size_of (fold_left seed_row l m) k =
  match list_to_map (M := Artifacts) l !! k with
  | Some r => Some (stored_size (a_size_bytes r))
  | None => size_of m k
  end.
Proof.
  revert m. induction l as [|[[[sv sp] nm] r] l IH]; intros m Hnd; [by simpl|].
  cbn [fmap list_fmap] in Hnd. apply NoDup_cons in Hnd as [Hnin Hnd]. cbn [fold_left list_to_map foldr].
  rewrite IH by done. cbn [seed_row]. rewrite size_of_update.
  change (list_to_map ((sv, sp, nm, r) :: l)) with (<[(sv, sp, nm) := r]> (list_to_map (M := Artifacts) l)).
  destruct (decide (k = (sv, sp, nm))) as [->|Hne].
  - rewrite lookup_insert_eq. simpl in Hnin. by rewrite not_elem_of_list_to_map_1.
  - by rewrite lookup_insert_ne.
Qed.

Lemma seed_mirrors `{RowOrder} t : mirrors (seed_from t) t.
Proof.
  intros k. unfold seed_from, durable_size. pose proof (row_order_perm (map_to_list t)) as Hp.
  assert (NoDup (row_order (map_to_list t)).*1) as Hnd by (rewrite Hp; apply NoDup_fst_map_to_list).
  rewrite seed_rows_size by done. rewrite (list_to_map_proper _ _ Hnd Hp), list_to_map_to_list.
  unfold size_of. rewrite lookup_empty. by destruct (t !! k).
Qed.

Lemma tracked_save_mirrors `{Blake3} `{CidLib} now st service space name payload a st' :
  tracked_save now st service space name payload = Ok (a, st') → mirrors st.2 st.1 → mirrors st'.2 st'.1.
Proof.
  intros Hs Hm. apply bind_Ok in Hs as ([a' t] & Hsave & Hs). simplify_eq. unfold save in Hsave.
  apply bind_Ok in Hsave as ([] & _ & Hsave). simplify_eq. intros k. cbn [fst snd]. rewrite size_of_update.
  unfold durable_size. destruct (decide (k = (service, space, name))) as [->|Hne].
  - by rewrite lookup_insert_eq.
  - rewrite lookup_insert_ne by done. apply Hm.
Qed.

(** The sizes of the artifacts of a space. *)
Definition space_sizes (t : Artifacts) (s : string) : list ((string * string) * N) :=
  omap (λ '(k, r), if decide (k.1.2 = s) then Some ((k.1.1, k.2), stored_size (a_size_bytes r)) else None) (map_to_list t).

Lemma elem_of_space_sizes t s p n :
  (p, n) ∈ space_sizes t s ↔ durable_size t (p.1, s, p.2) = Some n.
Proof.
  unfold space_sizes, durable_size. rewrite list_elem_of_omap. split.
  - intros ([k r] & Hin%elem_of_map_to_list & Heq). case_decide; [|done]. simplify_eq/=.
    destruct k as [[sv sp] nm]. simpl in *. by rewrite Hin.
  - intros (r & Hin & ->)%fmap_Some. exists ((p.1, s, p.2), r). split; [by apply elem_of_map_to_list|].
    simpl. rewrite decide_True by done. by destruct p.
Qed.

Lemma NoDup_space_sizes t s : NoDup (space_sizes t s).
Proof.
  unfold space_sizes. assert (∀ l : list (ArtifactKey * DatabaseArtifact), NoDup l.*1 →
    NoDup (omap (λ '(k, r), if decide (k.1.2 = s) then Some ((k.1.1, k.2), stored_size (a_size_bytes r)) else None) l)) as Hl.
  { induction l as [|[k r] l IH]; intros Hnd; [constructor|]. cbn in Hnd. apply NoDup_cons in Hnd as [Hnin Hnd].
    cbn. case_decide as Hk; [|by apply IH]. apply NoDup_cons. split; [|by apply IH].
    rewrite list_elem_of_omap. intros ([k' r'] & Hin & Heq). case_decide as Hk'; [|done]. simplify_eq/=.
    apply Hnin. rewrite list_elem_of_fmap. exists (k', r'). split; [|done]. destruct k as [[??]?], k' as [[??]?].
    simpl in *. by simplify_eq. }
  apply Hl, NoDup_fst_map_to_list.
Qed.

Lemma foldr_add_perm (l l' : list N) : l ≡ₚ l' → foldr N.add 0%N l = foldr N.add 0%N l'.
Proof. induction 1; simpl; lia. Qed.

Lemma mirrors_total m t s : mirrors m t → space_total m s = sum_u64 (space_sizes t (space_to_string s)).*2.
Proof.
  intros Hm. unfold space_total. set (key := space_to_string s).
  destruct (m !! key) as [inner|] eqn:Hin.
  - unfold sum_u64. f_equal. apply foldr_add_perm, fmap_Permutation, NoDup_Permutation;
      [apply NoDup_map_to_list|apply NoDup_space_sizes|].
    intros [p n]. rewrite elem_of_map_to_list, elem_of_space_sizes, <- Hm. unfold size_of. simpl. rewrite Hin.
    by destruct p.
  - assert (space_sizes t key = []) as ->; [|done].
    apply elem_of_nil_inv. intros [p n] Hp%elem_of_space_sizes. rewrite <- Hm in Hp. unfold size_of in Hp.
    simpl in Hp. by rewrite Hin in Hp.
Qed.

(** ** Claims *)

Record Save := mkSave { s_now : string; s_service : string; s_space : string; s_name : string; s_payload : string }.

(** A sequence of saves through the decorator; a refused one changes nothing. *)
Definition saves `{Blake3} `{CidLib} (st : Artifacts * SqlSizes) (l : list Save) : Artifacts * SqlSizes :=
  fold_left (λ st s, match tracked_save (s_now s) st (s_service s) (s_space s) (s_name s) (s_payload s) with
                     | Ok (_, st) => st
                     | Err _ => st
                     end) l st.

Lemma saves_mirror `{Blake3} `{CidLib} l st : mirrors st.2 st.1 → mirrors (saves st l).2 (saves st l).1.
Proof.
  revert st. induction l as [|s l IH]; intros st Hm; [done|]. cbn [saves fold_left]. apply IH.
  destruct (tracked_save _ _ _ _ _ _) as [[a st']|] eqn:Hs; [|done]. by eapply tracked_save_mirrors.
Qed.

(** The sizes a space is charged for are the durable ones: seeded from the
    table at start and updated at each save, the mirror gives for every space the
    sum of the sizes of the databases the table then holds, whatever was saved,
    overwritten or refused. *)
Theorem sql_sizes_mirror `{Blake3} `{CidLib} `{RowOrder} (t : Artifacts) (l : list Save) (s : SpaceId) :
  let '(t', sizes) := saves (t, seed_from t) l in
  space_total sizes s = sum_u64 (space_sizes t' (space_to_string s)).*2.
Proof.
  destruct (saves (t, seed_from t) l) as [t' sizes] eqn:Hs. apply mirrors_total.
  pose proof (saves_mirror l (t, seed_from t) (seed_mirrors t)) as Hm. by rewrite Hs in Hm.
Qed.
