(* ===== verification/KvRoute.v ===== *)
(** * The invoke route: tinycloud-node-server/src/routes/mod.rs 82-88 and
      587-1334, routes/util.rs, routes/public.rs 37-39 and auth_guards.rs

    What happens between an HTTP request that carries an invocation and
    [invoke_with_options]: the replay check, the dispatch to the SQL and DuckDB
    services, the conditional and limiting headers, the upload of one body or of a
    multipart batch within the space's quota, and the shape of the answer.  An
    error is its HTTP status; its message is not modelled.  The body is the stream
    the server opens (at most a gigabyte of it): polls of the stream, or the parts
    a multipart parser finds in it.  The staged bytes are the upload; temporary
    files do not fail here. *)
From S2P Require Import Prelude Str Chars Json Identity Resource Registry SqlCaveat ColumnEncryption Tables Storage Chain Tokens Events Demo Delegation Invocation Revocation Kv Transact Authority KvStore Query Invoke Replay Artifacts.

Notation Status := N (only parsing).

(** ** Headers *)

Definition metadata_header (md : Metadata) (name : string) : option string :=
  snd <$> find (λ kv, eq_ignore_ascii_case kv.1 name) md.

(** [BTreeMap::remove] of the first key that matches. *)
Definition take_metadata_header (md : Metadata) (name : string) : option string * Metadata :=
  match find (λ kv, eq_ignore_ascii_case kv.1 name) md with
  | Some (key, value) => (Some value, filter (λ kv, kv.1 ≠ key) md)
  | None => (None, md)
  end.

(** [ObjectHeaders::from_request]. *)
Definition object_headers (hs : list (string * string)) : Metadata :=
  fold_left (λ md '(k, v), obj_insert k v md) hs [].

(** [strip_suffix] of one character. *)
Definition strip_suffix_char (c : ascii) (s : string) : option string :=
  if ends_with_char c s then Some (String.substring 0 (String.length s - 1) s) else None.

Definition etag_prefix : string := String (char 34) "blake3-".

Definition parse_strong_blake3_etag (value : string) : result Status string :=
  digest ← ok_or (d ← strip_prefix etag_prefix (trim value); strip_suffix_char (char 34) d) 400%N;
  _ ← ensure (bool_decide (String.length digest = 64)) 400%N;
  bytes ← ok_or (hex_decode digest) 400%N;
  _ ← ensure (bool_decide (String.length bytes = 32)) 400%N;
  Ok bytes.

Definition kv_etag (h : Hash) : string :=
  etag_prefix +:+ hex_encode (string_bytes (mh_digest h)) +:+ String (char 34) "".

Definition parse_positive_u64_header (md : Metadata) (name : string) : result Status (option N) * Metadata :=
  let '(value, md) := take_metadata_header md name in
  (match value with
   | None => Ok None
   | Some v =>
       n ← ok_or (parse_u64 (trim v)) 400%N;
       _ ← ensure (negb (n =? 0)%N) 400%N;
       Ok (Some n)
   end, md).

(** A put or delete with a path, by the ability as it is written. *)
Definition mutation_target (c : Capability) : option (SpaceId * string * string) :=
  match cap_resource c with
  | TinyCloud r =>
      if bool_decide (service r = "kv") &&
         bool_decide (cap_ability c ∈ ["tinycloud.kv/put"; "tinycloud.kv/del"; "tinycloud.kv/delete"])
      then p ← path r; Some (space r, p, cap_ability c)
      else None
  | _ => None
  end.

Definition conditional (multipart : bool) (targets : list (SpaceId * string * string))
    (if_match if_none_match : option string) : result Status (gmap KvKey KvPrecondition) :=
  match if_none_match, if_match with
  | Some value, _ =>
      _ ← ensure (bool_decide (trim value = "*")) 400%N;
      match targets with
      | [(s, p, a)] =>
          _ ← ensure (negb multipart && bool_decide (a = "tinycloud.kv/put")) 400%N;
          Ok {[ (s, p) := DoesNotExist ]}
      | _ => Err 400%N
      end
  | None, Some value =>
      match targets with
      | [(s, p, _)] =>
          _ ← ensure (negb multipart) 400%N;
          digest ← parse_strong_blake3_etag value;
          Ok {[ (s, p) := Matches digest ]}
      | _ => Err 400%N
      end
  | None, None => Ok ∅
  end.

(** The options, and the headers that are left to be stored with the object. *)
Definition kv_invoke_options (caps : list Capability) (headers : Metadata) (multipart : bool)
    : result Status (KvInvokeOptions * Metadata) :=
  let '(if_match, headers) := take_metadata_header headers "if-match" in
  let '(if_none_match, headers) := take_metadata_header headers "if-none-match" in
  _ ← ensure (negb (bool_decide (is_Some if_match) && bool_decide (is_Some if_none_match))) 400%N;
  pre ← conditional multipart (omap mutation_target caps) if_match if_none_match;
  let '(max_response, headers) := parse_positive_u64_header headers "x-tinycloud-max-response-bytes" in
  max_response ← max_response;
  let '(limit, headers) := parse_positive_u64_header headers "x-tinycloud-limit" in
  limit ← limit;
  list_limit ← match limit with
               | None => Ok None
               | Some n => _ ← ensure (n <=? 1000)%N 400%N; Ok (Some (N.to_nat n))
               end;
  Ok (mkKvInvokeOptions pre max_response list_limit, headers).

Definition is_multipart (headers : Metadata) : bool :=
  match metadata_header headers "content-type" with
  | Some v => starts_with "multipart/form-data" (to_ascii_lowercase v)
  | None => false
  end.

(** ** The expected uploads *)

Definition put_capability (c : Capability) : option KvKey :=
  match cap_resource c with
  | TinyCloud r =>
      if bool_decide (cap_ability c = "tinycloud.kv/put") && bool_decide (service r = "kv")
      then p ← path r; Some (space r, p) else None
  | _ => None
  end.

Definition kv_put_capabilities (caps : list Capability) : list KvKey := omap put_capability caps.

Definition is_tight_kv_put_capability (c : Capability) : bool := bool_decide (is_Some (put_capability c)).

(** The map from path to target; a path twice is refused. *)
Fixpoint expect (acc : gmap string KvKey) (put_caps : list KvKey) : result Status (gmap string KvKey) :=
  match put_caps with
  | [] => Ok acc
  | key :: put_caps =>
      match acc !! key.2 with
      | Some _ => Err 400%N
      | None => expect (<[key.2 := key]> acc) put_caps
      end
  end.

Definition validate_kv_batch_capability_set (caps : list Capability) (put_caps : list KvKey)
    : result Status (gmap string KvKey) :=
  match put_caps with
  | [] => Ok ∅
  | (space, _) :: _ =>
      _ ← ensure (forallb is_tight_kv_put_capability caps) 400%N;
      _ ← ensure (forallb (λ key, bool_decide (key.1 = space)) put_caps) 400%N;
      expect ∅ put_caps
  end.

(** Iteration over a [BTreeMap] keyed by text. *)
Definition btree_list {A} (m : gmap string A) : list (string * A) :=
  sort_by (λ a b, bytes_leb a.1 b.1) (map_to_list m).

(** ** Uploads *)

(** One poll of the body: not yet, bytes (none at the end), or an error with its
    message. *)
Inductive ReadPoll := RPending | RReady (r : result string string).

(** [LimitedReader::poll_read]. *)
Definition limit_exceeded : string := "This write will exceeded the storage limit".
Definition limited_poll (remaining : N) (inner : ReadPoll) : ReadPoll * N :=
  match inner with
  | RReady (Ok bytes) =>
      let n := N.of_nat (String.length bytes) in
      if (remaining <? n)%N then (RReady (Err limit_exceeded), remaining)
      else (inner, remaining - n)%N
  | _ => (inner, remaining)
  end.

(** [futures::io::copy] of the body into the stage, through a [LimitedReader]
    when there is a limit; the stream ends where its polls do. *)
Fixpoint copy (remaining : option N) (polls : list ReadPoll) (stage : string) : result string string :=
  match polls with
  | [] => Ok stage
  | p :: polls =>
      let '(p, remaining) := match remaining with
                             | Some r => let '(p, r) := limited_poll r p in (p, Some r)
                             | None => (p, None)
                             end in
      match p with
      | RPending => copy remaining polls stage
      | RReady (Err e) => Err e
      | RReady (Ok "") => Ok stage
      | RReady (Ok bytes) => copy remaining polls (stage +:+ bytes)
      end
  end.

(** A part of a multipart body, as the parser yields it: header values are [None]
    when they are not visible ASCII, chunks fail when the body does. *)
Record Field := mkField {
  f_name : option string;
  f_headers : list (string * option string);
  f_content_type : option string;
  f_chunks : list (result unit string);
}.

(** The opened body: its polls, and, for a content type, its parts ([None] when
    the content type has no boundary). *)
Record Body := mkBody {
  body_polls : list ReadPoll;
  body_parts : string → option (list (result unit Field));
}.

Inductive DataIn := DataNone | DataOne (d : Body) | DataMany.

(** [percent_decode_str(..).decode_utf8()]. *)
Class PercentDecode := percent_decode_utf8 : string → option string.

Definition field_metadata (f : Field) : Metadata :=
  let md := fold_left (λ md '(key, value),
    if eq_ignore_ascii_case key "content-disposition" || eq_ignore_ascii_case key "content-length" then md
    else match value with Some v => obj_insert key v md | None => md end) (f_headers f) [] in
  match f_content_type f with
  | Some ct => if existsb (λ kv, bool_decide (kv.1 = "content-type")) md then md else obj_insert "content-type" ct md
  | None => md
  end.

Definition is_public_space (s : SpaceId) : bool := bool_decide (name s = "public").

(** What is left of the limit, with the size in use and the limit. *)
Notation Remaining := (option (N * N * N)).

Fixpoint copy_multipart_field_to_stage (chunks : list (result unit string)) (stage : string) (remaining : Remaining)
    : result Status (string * Remaining) :=
  match chunks with
  | [] => Ok (stage, remaining)
  | Err _ :: _ => Err 400%N
  | Ok chunk :: chunks =>
      match remaining with
      | Some (room, used, limit) =>
          let n := N.of_nat (String.length chunk) in
          if (room <? n)%N then Err 413%N
          else copy_multipart_field_to_stage chunks (stage +:+ chunk) (Some (room - n, used, limit)%N)
      | None => copy_multipart_field_to_stage chunks (stage +:+ chunk) None
      end
  end.

Section Route.
Context `{Keccak256} `{Blake3} `{CidLib} `{RowOrder} `{TokenLib} `{TimeLib} `{HookFormats} `{DagCbor} `{TokenCodec}
        `{Collation} `{PercentDecode}.
Context {B E : Type} `{!BlockStore B E}.
(** [config.public_spaces.storage_limit], and the answer of the quota cache for a
    space. *)
Context (public_limit : N) (quota : SpaceId → option N).

Definition space_limit (s : SpaceId) : option N :=
  if is_public_space s then Some public_limit else quota s.

Definition staged_batch_remaining (b : B) (sizes : SqlSizes) (s : SpaceId) : result Status Remaining :=
  match space_limit s with
  | None => Ok None
  | Some limit =>
      size ← map_err (λ _, 500%N) (store_size b sizes s);
      used ← ok_or size 404%N;
      _ ← ensure (used <? limit)%N 402%N;
      Ok (Some (limit - used, used, limit)%N)
  end.

(** The parts in order: each must be expected, and come once. *)
Fixpoint batch_parts (expected : gmap string KvKey) (parts : list (result unit Field))
    (inputs : gmap KvKey (Metadata * string)) (remaining : Remaining)
    : result Status (gmap KvKey (Metadata * string)) :=
  match parts with
  | [] => Ok inputs
  | Err _ :: _ => Err 400%N
  | Ok f :: parts =>
      encoded ← ok_or (f_name f) 400%N;
      p ← ok_or (percent_decode_utf8 encoded) 400%N;
      key ← ok_or (expected !! p) 400%N;
      _ ← ensure (negb (bool_decide (is_Some (inputs !! key)))) 400%N;
      '(stage, remaining) ← copy_multipart_field_to_stage (f_chunks f) "" remaining;
      batch_parts expected parts (<[key := (field_metadata f, stage)]> inputs) remaining
  end.

Definition build_batch_kv_inputs (b : B) (sizes : SqlSizes) (d : Body) (headers : Metadata)
    (expected : gmap string KvKey) : result Status (gmap KvKey (Metadata * string)) :=
  match btree_list expected with
  | [] => Ok ∅
  | (_, (space, _)) :: _ =>
      content_type ← ok_or (metadata_header headers "content-type") 400%N;
      parts ← ok_or (body_parts d content_type) 400%N;
      remaining ← staged_batch_remaining b sizes space;
      inputs ← batch_parts expected parts ∅ remaining;
      _ ← ensure (bool_decide (size inputs = size expected)) 400%N;
      Ok inputs
  end.

(** One body for one put. *)
Definition single_input (b : B) (sizes : SqlSizes) (d : Body) (headers : Metadata) (key : KvKey)
    : result Status (gmap KvKey (Metadata * string)) :=
  remaining ← staged_batch_remaining b sizes key.1;
  stage ← match remaining with
          | Some (room, _, _) =>
              map_err (λ e, if contains_str "storage limit" e then 413%N else 500%N) (copy (Some room) (body_polls d) "")
          | None => map_err (λ _, 500%N) (copy None (body_polls d) "")
          end;
  Ok {[ key := (headers, stage) ]}.

(** The inputs of the invocation; [expected] is [Some] for a multipart request
    with puts. *)
Definition kv_inputs (b : B) (sizes : SqlSizes) (data : DataIn) (headers : Metadata) (put_caps : list KvKey)
    (multipart : bool) (expected : option (gmap string KvKey)) : result Status (gmap KvKey (Metadata * string)) :=
  match data, put_caps, multipart with
  | (DataNone | DataOne _), [], _ => Ok ∅
  | DataOne d, [key], false => single_input b sizes d headers key
  | DataOne d, _ :: _, true => build_batch_kv_inputs b sizes d headers (default ∅ expected)
  | _, _, _ => Err 400%N
  end.

(** What the route prepares from the request: the inputs, the options and, for a
    batch, the paths to report. *)
Definition kv_prepare (b : B) (sizes : SqlSizes) (caps : list Capability) (headers : Metadata) (data : DataIn)
    : result Status (gmap KvKey (Metadata * string) * KvInvokeOptions * option (list string)) :=
  let put_caps := kv_put_capabilities caps in
  let multipart := is_multipart headers in
  '(options, headers) ← kv_invoke_options caps headers multipart;
  expected ← (if multipart && negb (bool_decide (put_caps = []))
              then Some <$> validate_kv_batch_capability_set caps put_caps else Ok None);
  inputs ← kv_inputs b sizes data headers put_caps multipart expected;
  Ok (inputs, options, (λ m, (λ e, e.2.2) <$> btree_list m) <$> expected).

(** ** The answer *)

Inductive DataOut := OutNone | OutOne (o : InvocationOutcome) | OutMany (l : list InvocationOutcome).

Definition is_kv_write (o : InvocationOutcome) : bool := match o with OKvWrite _ => true | _ => false end.

Definition kv_answer (batch : option (list string)) (outs : list InvocationOutcome) : result Status DataOut :=
  match batch with
  | Some paths =>
      if bool_decide (length outs = length paths) && forallb is_kv_write outs
      then Ok (OutOne (OKvBatchWrite paths)) else Err 500%N
  | None =>
      Ok (match rev outs with
          | [] => OutNone
          | [o] => OutOne o
          | o :: next :: rest => OutMany (o :: next :: rev rest)
          end)
  end.

(** [Responder for DataOut]: several outcomes have no representation. *)
Definition respond_to (o : DataOut) : result Status (option InvocationOutcome) :=
  match o with
  | OutNone => Ok None
  | OutOne o => Ok (Some o)
  | OutMany _ => Err 501%N
  end.

(** The errors of the model's tables are constraint violations, none of the codes
    that [is_retryable_database_error] lists. *)
Definition database_error_status (e : DbErr) : Status := 500.

Definition invoke_error_status (e : TxStoreError E) : Status :=
  match e with
  | Tx SpaceNotFound => 404
  | KvPreconditionFailed => 412
  | KvSerializationConflict => 503
  | KvResponseTooLarge _ _ => 413
  | Tx (TxInvalidInvocation (invocation.MissingKvWrite _)) => 404
  | Tx (TxDb e) | Tx (EpochInsert e) => database_error_status e
  | _ => 401
  end.

(** ** The whole route *)

Definition service_caps (svc prefix : string) (caps : list Capability) : list (SpaceId * option string * string) :=
  omap (λ c, match cap_resource c with
             | TinyCloud r => if bool_decide (service r = svc) && starts_with prefix (cap_ability c)
                              then Some (space r, path r, cap_ability c) else None
             | _ => None
             end) caps.

Record Node := mkNode {
  n_seen : ReplayCache;
  n_db : Tables.Db;
  n_blocks : B;
  n_sizes : SqlSizes;
}.

Inductive Reply :=
| ToSql (caps : list (SpaceId * option string * string))
| ToDuckDb (caps : list (SpaceId * option string * string))
| Answered (r : result Status DataOut).

Definition invoke_impl (duckdb : bool) (encryption : option ColumnEncryption) (nonce : Hash → string) (now : Z)
    (setup : SpaceId → result TxError unit) (n : Node) (i : InvocationInfo) (bytes : string) (headers : Metadata)
    (data : DataIn) : Reply * Node :=
  match check_and_insert (n_seen n) (ii_invocation i) bytes now with
  | (Err Duplicate, seen) => (Answered (Err 409%N), mkNode seen (n_db n) (n_blocks n) (n_sizes n))
  | (Ok _, seen) =>
      let n := mkNode seen (n_db n) (n_blocks n) (n_sizes n) in
      let caps := ii_capabilities i in
      match service_caps "sql" "tinycloud.sql/" caps, service_caps "duckdb" "tinycloud.duckdb/" caps with
      | (_ :: _) as sql, _ => (ToSql sql, n)
      | [], (_ :: _) as duck => (if duckdb then ToDuckDb duck else Answered (Err 501%N), n)
      | [], [] =>
          match kv_prepare (n_blocks n) (n_sizes n) caps headers data with
          | Err e => (Answered (Err e), n)
          | Ok (inputs, options, batch) =>
              match invoke_with_options encryption nonce now setup (n_db n) (n_blocks n) i bytes inputs options with
              | (Err e, b) => (Answered (Err (invoke_error_status e)), mkNode seen (n_db n) b (n_sizes n))
              | (Ok (_, outs, db), b) => (Answered (kv_answer batch outs), mkNode seen db b (n_sizes n))
              end
          end
      end
  end.

End Route.

(** ** Entity tags *)

Lemma take_header_value md name : (take_metadata_header md name).1 = metadata_header md name.
Proof. unfold take_metadata_header, metadata_header. by destruct (find _ md) as [[k v]|]. Qed.

Lemma hex_digit_ascii n : (n < 16)%N → (code (hex_digit n) <? 128)%N = true.
Proof.
  intros Hn. apply (N_below_16 (λ n, code (hex_digit n) <? 128)%N); [|done]. by vm_compute.
Qed.

Lemma hex_encode_ascii s : is_ascii (hex_encode (string_bytes s)) = true.
Proof.
  induction s as [|c s IH]; [done|]. cbn [string_bytes hex_encode]. unfold is_ascii in *. cbn [forall_char].
  destruct (nibbles_lt _ (code_lt c)) as (Hhi & Hlo & _). by rewrite !hex_digit_ascii, IH.
Qed.

Lemma strip_suffix_char_app c s : strip_suffix_char c (s +:+ String c "") = Some s.
Proof.
  unfold strip_suffix_char. rewrite (proj2 (ends_with_char_spec c _)) by by exists s.
  f_equal. rewrite length_append. simpl String.length. rewrite Nat.add_sub. apply substring_app_l.
Qed.

Lemma parse_kv_etag h :
  String.length (mh_digest h) = 32 → parse_strong_blake3_etag (kv_etag h) = Ok (mh_digest h).
Proof.
  intros Hlen. unfold parse_strong_blake3_etag, kv_etag.
  set (digest := hex_encode (string_bytes (mh_digest h))).
  assert (String.length digest = 64) as Hd
    by (unfold digest; rewrite length_hex_encode, length_string_bytes, Hlen; done).
  change (etag_prefix +:+ digest +:+ String (char 34) "") with
    (String (char 34) (("blake3-" +:+ digest) +:+ String (char 34) "")).
  rewrite trim_ascii.
  - change (String (char 34) (("blake3-" +:+ digest) +:+ String (char 34) "")) with
      (etag_prefix +:+ (digest +:+ String (char 34) "")).
    rewrite strip_prefix_app. cbn [mbind option_bind]. rewrite strip_suffix_char_app. cbn [ok_or]. rewrite bind_ret_l.
    rewrite bool_decide_eq_true_2 by done. rewrite ensure_true, bind_ret_l. unfold digest. rewrite hex_decode_encode.
    cbn [ok_or]. rewrite bind_ret_l. by rewrite bool_decide_eq_true_2.
  - unfold is_ascii. cbn [forall_char]. rewrite !forall_char_app. unfold digest.
    pose proof (hex_encode_ascii (mh_digest h)) as Ha. unfold is_ascii in Ha. by rewrite Ha.
  - by vm_compute.
  - by vm_compute.
Qed.

(** ** Targets of the route and of the invocation *)

Lemma resolve_put a : resolve_alias a = "tinycloud.kv/put" ↔ a = "tinycloud.kv/put".
Proof. unfold resolve_alias. repeat case_decide; subst; naive_solver. Qed.

Lemma resolve_del a : resolve_alias a = "tinycloud.kv/del" ↔ a = "tinycloud.kv/del" ∨ a = "tinycloud.kv/delete".
Proof. unfold resolve_alias. repeat case_decide; subst; naive_solver. Qed.

Lemma mutation_target_key c : fst <$> mutation_target c = mutation_key c.
Proof.
  unfold mutation_target, mutation_key, cap_target. destruct (cap_resource c) as [r|]; [|done]. simpl.
  destruct (path r) as [p|]; simpl; [|by destruct (_ && _)]. unfold is_put, is_del. simpl.
  destruct (decide (service r = "kv")) as [->|Hs]; [|by rewrite !(bool_decide_eq_false_2 (service r = "kv"))].
  rewrite !bool_decide_eq_true_2 by done. simpl.
  rewrite <- bool_decide_or.
  erewrite (bool_decide_ext (cap_ability c ∈ _)
             (resolve_alias (cap_ability c) = "tinycloud.kv/put" ∨ resolve_alias (cap_ability c) = "tinycloud.kv/del"));
    [by destruct (bool_decide _)|].
  rewrite resolve_put, resolve_del, !elem_of_cons. pose proof (not_elem_of_nil (cap_ability c)). tauto.
Qed.

Lemma mutation_targets_keys caps : (omap mutation_target caps).*1 = mutation_keys caps.
Proof.
  unfold mutation_keys. induction caps as [|c caps IH]; [done|]. simpl. rewrite <- mutation_target_key.
  destruct (mutation_target c); simpl; [f_equal|]; exact IH.
Qed.

Lemma put_capability_target c :
  put_capability c = (t ← cap_target c; if is_put t then Some (t.1.1.1, t.2) else None).
Proof.
  unfold put_capability, cap_target. destruct (cap_resource c) as [r|]; [|done]. simpl.
  destruct (path r) as [p|]; simpl; [|by destruct (_ && _)]. unfold is_put. simpl.
  rewrite (bool_decide_ext _ _ (resolve_put (cap_ability c))), andb_comm. by destruct (_ && _).
Qed.

(** Staging succeeds when every put has an input and no key is put twice. *)
Lemma stage_ops_complete `{Blake3} {E} caps inputs stages :
  NoDup (kv_put_capabilities caps) → (∀ key, key ∈ kv_put_capabilities caps → is_Some (inputs !! key)) →
  is_ok (stage_ops (E := E) caps inputs stages) = true.
Proof.
  unfold kv_put_capabilities. revert inputs stages. induction caps as [|c caps IH]; intros inputs stages Hnd Hin; [done|].
  cbn [omap list_omap] in Hnd, Hin. cbn [stage_ops]. rewrite put_capability_target in Hnd, Hin.
  destruct (cap_target c) as [t|] eqn:Ht; simpl in Hnd, Hin; [|by apply IH]. destruct (is_put t) eqn:Hput.
  - apply NoDup_cons in Hnd as [Hnin Hnd]. destruct (Hin (t.1.1.1, t.2) ltac:(by left)) as [[md content] Hc].
    rewrite Hc. cbn [ok_or]. rewrite bind_ret_l.
    specialize (IH (delete (t.1.1.1, t.2) inputs) (<[(t.1.1.1, t.2) := content]> stages) Hnd).
    destruct (stage_ops _ _ _) as [[st ops]|]; [done|]. apply IH. intros key Hkey.
    rewrite lookup_delete_ne by congruence. apply Hin. by right.
  - destruct (is_del t); [|by apply IH]. specialize (IH inputs stages Hnd Hin).
    by destruct (stage_ops _ _ _) as [[st ops]|].
Qed.

(** ** Uploads stay within the limit *)

Notation len s := (N.of_nat (String.length s)).

Lemma len_append s t : len (s +:+ t) = (len s + len t)%N.
Proof. rewrite length_append. lia. Qed.

Lemma copy_bounded r polls stage out :
  copy (Some r) polls stage = Ok out → (len stage ≤ len out ∧ len out ≤ len stage + r)%N.
Proof.
  revert r stage. induction polls as [|p polls IH]; intros r stage Hc; cbn [copy] in Hc; [simplify_eq; lia|].
  destruct p as [|[bytes|e]]; cbn [limited_poll] in Hc; [by apply IH in Hc| |done].
  destruct (N.ltb_spec r (len bytes)); [done|]. destruct bytes as [|c bytes]; [simplify_eq; lia|].
  apply IH in Hc. rewrite len_append in Hc. lia.
Qed.

Definition room (rem : Remaining) : option N := fst ∘ fst <$> rem.

Lemma copy_field_bounded chunks stage rem out rem' :
  copy_multipart_field_to_stage chunks stage rem = Ok (out, rem') →
  match room rem with
  | Some r => (len stage ≤ len out)%N ∧ room rem' = Some (r - (len out - len stage))%N ∧ (len out - len stage ≤ r)%N
  | None => room rem' = None
  end.
Proof.
  revert stage rem. induction chunks as [|[chunk|] chunks IH]; intros stage rem Hc;
    cbn [copy_multipart_field_to_stage] in Hc; [| |done].
  - simplify_eq. destruct rem' as [[[r u] l]|]; simpl; [|done]. split_and!; [lia|f_equal; lia|lia].
  - destruct rem as [[[r u] l]|]; simpl; [|by apply IH in Hc].
    destruct (N.ltb_spec r (len chunk)); [done|]. apply IH in Hc. simpl in Hc.
    rewrite len_append in Hc. destruct Hc as (? & -> & ?). split_and!; [lia|f_equal; lia|lia].
Qed.

(** The uploaded bytes of a set of inputs. *)
Definition total_bytes (inputs : gmap KvKey (Metadata * string)) : N :=
  foldr N.add 0%N ((λ kv, len kv.2.2) <$> map_to_list inputs).

Lemma total_bytes_insert inputs key md s :
  inputs !! key = None → total_bytes (<[key := (md, s)]> inputs) = (len s + total_bytes inputs)%N.
Proof.
  intros Hk. unfold total_bytes.
  rewrite (foldr_add_perm _ ((λ kv, len kv.2.2) <$> ((key, (md, s)) :: map_to_list inputs))); [done|].
  by apply fmap_Permutation, map_to_list_insert.
Qed.

Lemma batch_parts_spec `{PercentDecode} expected parts inputs rem out :
  batch_parts expected parts inputs rem = Ok out →
  (∀ key, is_Some (out !! key) → is_Some (inputs !! key) ∨ ∃ p, expected !! p = Some key) ∧
  match room rem with
  | Some r => (total_bytes out ≤ total_bytes inputs + r)%N
  | None => True
  end.
Proof.
  revert inputs rem. induction parts as [|[f|] parts IH]; intros inputs rem Hb; cbn [batch_parts] in Hb; [| |done].
  - simplify_eq. split; [by left|]. destruct (room rem); [lia|done].
  - apply bind_Ok in Hb as (encoded & _ & Hb). apply bind_Ok in Hb as (p & _ & Hb).
    apply bind_Ok in Hb as (key & Hkey%ok_or_Ok & Hb). apply bind_Ok in Hb as ([] & Hfresh%ensure_Ok & Hb).
    apply bind_Ok in Hb as ([stage rem'] & Hcopy%copy_field_bounded & Hb).
    apply negb_true_iff, bool_decide_eq_false, eq_None_not_Some in Hfresh.
    apply IH in Hb as [Hkeys Htotal]. split.
    + intros k Hk. apply Hkeys in Hk as [Hk|Hk]; [|by right]. destruct (decide (k = key)) as [->|Hne]; [right; eauto|].
      left. by rewrite lookup_insert_ne in Hk.
    + rewrite total_bytes_insert in Htotal by done. destruct (room rem) as [r|]; [|done].
      destruct Hcopy as (_ & Hrem & Hle). rewrite Hrem in Htotal. simpl in Htotal, Hle. lia.
Qed.

(** What the expected map holds. *)
Lemma expect_spec acc put_caps expected :
  expect acc put_caps = Ok expected →
  NoDup put_caps.*2 ∧ size expected = size acc + length put_caps ∧
  (∀ p key, expected !! p = Some key → acc !! p = Some key ∨ (key ∈ put_caps ∧ key.2 = p)).
Proof.
  revert acc. induction put_caps as [|key put_caps IH]; intros acc He; cbn [expect] in He.
  { simplify_eq. split_and!; [constructor|simpl; lia|by left]. }
  assert (∀ acc, expect acc put_caps = Ok expected → ∀ p, is_Some (acc !! p) → p ∉ put_caps.*2) as Hdisj.
  { clear. induction put_caps as [|k put_caps IH]; intros acc He p Hp; cbn [expect] in He; [apply not_elem_of_nil|].
    destruct (acc !! k.2) eqn:Hk; [done|]. simpl. rewrite not_elem_of_cons. split; [intros ->; rewrite Hk in Hp; by destruct Hp|].
    apply (IH _ He). destruct (decide (p = k.2)) as [->|]; [rewrite Hk in Hp; by destruct Hp|by rewrite lookup_insert_ne]. }
  destruct (acc !! key.2) eqn:Hk; [done|]. pose proof (Hdisj _ He key.2) as Hnin.
  apply IH in He as (Hnd & Hsize & Hin). split_and!.
  - simpl. apply NoDup_cons. split; [|done]. apply Hnin. by rewrite lookup_insert_eq.
  - rewrite Hsize, map_size_insert_None by done. simpl. lia.
  - intros p k' Hp. apply Hin in Hp as [Hp|[Hp ?]]; [|right; split; [by right|done]].
    apply lookup_insert_Some in Hp as [[<- <-]|[_ Hp]]; [right; split; [by left|done]|by left].
Qed.

Lemma remaining_within {B E} `{!BlockStore B E} public quota (b : B) sizes s rem :
  staged_batch_remaining public quota b sizes s = Ok rem →
  match space_limit public quota s with
  | Some limit => ∃ used r, store_size b sizes s = Ok (Some used) ∧ room rem = Some r ∧ (used + r = limit)%N
  | None => rem = None
  end.
Proof.
  unfold staged_batch_remaining. destruct (space_limit _ _ s) as [limit|]; [|by intros [= <-]]. intros Hr.
  apply bind_Ok in Hr as (size & Hsize%map_err_Ok & Hr). apply bind_Ok in Hr as (used & Hused%ok_or_Ok & Hr).
  apply bind_Ok in Hr as ([] & Hlt%ensure_Ok%N.ltb_lt & Hr). simplify_eq.
  exists used, (limit - used)%N. split_and!; [done|done|]. lia.
Qed.

(** The batch is for one space, its paths are distinct. *)
Lemma validate_batch caps put_caps expected :
  validate_kv_batch_capability_set caps put_caps = Ok expected →
  NoDup put_caps ∧ size expected = length put_caps ∧
  (∀ p key, expected !! p = Some key → key ∈ put_caps) ∧
  (∀ k k', k ∈ put_caps → k' ∈ put_caps → k.1 = k'.1).
Proof.
  unfold validate_kv_batch_capability_set. destruct put_caps as [|[space p0] l].
  { intros [= <-]. split_and!; [constructor|done|intros ??; by rewrite lookup_empty|].
    intros k k' Hk. by apply not_elem_of_nil in Hk. }
  intros Hv. apply bind_Ok in Hv as ([] & _ & Hv). apply bind_Ok in Hv as ([] & Hsame%ensure_Ok & Hv).
  apply expect_spec in Hv as (Hnd & Hsize & Hin). split_and!.
  - by eapply NoDup_fmap_1.
  - by rewrite map_size_empty in Hsize.
  - intros p key Hp. apply Hin in Hp as [Hp|[? _]]; [by rewrite lookup_empty in Hp|done].
  - rewrite forallb_forall in Hsame. intros k k' Hk Hk'.
    apply list_elem_of_In, Hsame, bool_decide_eq_true in Hk as ->.
    by apply list_elem_of_In, Hsame, bool_decide_eq_true in Hk' as ->.
Qed.

Section Prepared.
Context `{PercentDecode} {B E : Type} `{!BlockStore B E} (public : N) (quota : SpaceId → option N).

(** The inputs are for exactly these keys, and fit into their spaces. *)
Definition prepared (b : B) (sizes : SqlSizes) (puts : list KvKey) (inputs : gmap KvKey (Metadata * string)) : Prop :=
  NoDup puts ∧ (∀ key, is_Some (inputs !! key) ↔ key ∈ puts) ∧
  ∀ key limit, key ∈ puts → space_limit public quota key.1 = Some limit →
    ∃ used, store_size b sizes key.1 = Ok (Some used) ∧ (used + total_bytes inputs ≤ limit)%N.

Lemma single_prepared b sizes d headers key inputs :
  single_input public quota b sizes d headers key = Ok inputs → prepared b sizes [key] inputs.
Proof.
  unfold single_input. intros Hs. apply bind_Ok in Hs as (rem & Hrem%remaining_within & Hs).
  apply bind_Ok in Hs as (stage & Hcopy & Hs). simplify_eq. split_and!.
  - apply NoDup_singleton.
  - intros k. rewrite list_elem_of_singleton. destruct (decide (k = key)) as [->|Hne].
    + rewrite lookup_singleton_eq. by split.
    + rewrite lookup_singleton_ne by done. split; [by intros []|done].
  - intros k limit ->%list_elem_of_singleton Hlimit. rewrite Hlimit in Hrem.
    destruct Hrem as (used & r & Hused & Hroom & Hsum). exists used. split; [done|].
    destruct rem as [[[r' u] l]|]; [|done]. simplify_eq/=. apply map_err_Ok, copy_bounded in Hcopy as [_ Hle].
    unfold total_bytes. rewrite map_to_list_singleton. simpl in *. lia.
Qed.

Lemma batch_prepared b sizes d headers caps puts expected inputs :
  puts ≠ [] → validate_kv_batch_capability_set caps puts = Ok expected →
  build_batch_kv_inputs public quota b sizes d headers expected = Ok inputs → prepared b sizes puts inputs.
Proof.
  intros Hne (Hnd & Hsize & Hvals & Hspace)%validate_batch Hb. unfold build_batch_kv_inputs in Hb.
  destruct (btree_list expected) as [|[p0 [space p1]] rest] eqn:Hlist.
  { exfalso. apply Hne. destruct puts as [|k puts]; [done|]. exfalso.
    assert (length (map_to_list expected) = 0) as Hl.
    { rewrite <- (sort_by_perm (λ a b, bytes_leb a.1 b.1) (map_to_list expected)).
      unfold btree_list in Hlist. by rewrite Hlist. }
    rewrite length_map_to_list, Hsize in Hl. done. }
  assert ((space, p1) ∈ puts) as Hfirst.
  { apply (Hvals p0), elem_of_map_to_list. rewrite <- (sort_by_perm (λ a b, bytes_leb a.1 b.1) (map_to_list expected)).
    unfold btree_list in Hlist. rewrite Hlist. by left. }
  apply bind_Ok in Hb as (ct & _ & Hb). apply bind_Ok in Hb as (parts & _ & Hb).
  apply bind_Ok in Hb as (rem & Hrem%remaining_within & Hb). apply bind_Ok in Hb as (out & Hparts%batch_parts_spec & Hb).
  apply bind_Ok in Hb as ([] & Hcount%ensure_Ok%bool_decide_eq_true & Hb). simplify_eq.
  destruct Hparts as [Hkeys Htotal]. split_and!; [done| |].
  - assert (dom inputs ⊆ list_to_set (C := gset KvKey) puts) as Hsub.
    { intros k Hk%elem_of_dom. apply elem_of_list_to_set. apply Hkeys in Hk as [Hk|[p Hp]]; [|by eapply Hvals].
      rewrite lookup_empty in Hk. by destruct Hk. }
    assert (dom inputs = list_to_set (C := gset KvKey) puts) as Hdom.
    { apply set_subseteq_size_eq; [done|]. rewrite size_dom, size_list_to_set by done. lia. }
    intros k. by rewrite <- elem_of_dom, Hdom, elem_of_list_to_set.
  - intros k limit Hk Hlimit. rewrite (Hspace k (space, p1) Hk Hfirst) in *. simpl in *. rewrite Hlimit in Hrem.
    destruct Hrem as (used & r & Hused & Hroom & Hsum). exists used. split; [done|]. rewrite Hroom in Htotal.
    unfold total_bytes in Htotal at 2. rewrite map_to_list_empty in Htotal. simpl in Htotal. lia.
Qed.

Lemma kv_prepare_prepared b sizes caps headers data inputs options batch :
  kv_prepare public quota b sizes caps headers data = Ok (inputs, options, batch) →
  prepared b sizes (kv_put_capabilities caps) inputs.
Proof.
  unfold kv_prepare. intros Hp. apply bind_Ok in Hp as ([opts md] & _ & Hp). apply bind_Ok in Hp as (expected & Hexp & Hp).
  apply bind_Ok in Hp as (ins & Hins & Hp). injection Hp as -> _ _. remember (kv_put_capabilities caps) as puts eqn:Hputs.
  assert (puts = [] → inputs = ∅ → prepared b sizes puts inputs) as Hempty.
  { intros -> ->. split_and!; [constructor| |].
    - intros k. rewrite lookup_empty. split; [by intros []|]. intros Hk. by apply not_elem_of_nil in Hk.
    - intros k l Hk. by apply not_elem_of_nil in Hk. }
  clear Hputs. unfold kv_inputs in Hins. destruct data as [|d|], puts as [|k puts]; try done; try (apply Hempty; by simplify_eq).
  destruct (is_multipart headers) eqn:Hm.
  - rewrite bool_decide_eq_false_2 in Hexp by done. cbn [andb negb] in Hexp.
    destruct (validate_kv_batch_capability_set caps (k :: puts)) as [m|] eqn:Hv; [|done].
    simplify_eq/=. assert (build_batch_kv_inputs public quota b sizes d md m = Ok inputs) by by destruct puts.
    by eapply batch_prepared.
  - destruct puts; [|done]. by eapply single_prepared.
Qed.

End Prepared.

(** ** Conditional requests *)

Lemma take_other md name other :
  eq_ignore_ascii_case name other = false →
  metadata_header (take_metadata_header md name).2 other = metadata_header md other.
Proof.
  intros Hne. unfold take_metadata_header. destruct (find _ md) as [[key v]|] eqn:Hf; [|done]. simpl.
  apply find_some in Hf as [_ Hkey]. simpl in Hkey. unfold metadata_header. f_equal. clear v.
  induction md as [|[k w] md IH]; [done|]. rewrite filter_cons. simpl. case_decide as Hk; simpl.
  - by rewrite IH.
  - rewrite IH. assert (k = key) as -> by (by destruct (decide (k = key))).
    destruct (eq_ignore_ascii_case key other) eqn:Ho; [|done]. unfold eq_ignore_ascii_case in *.
    apply bool_decide_eq_true in Hkey, Ho. apply bool_decide_eq_false in Hne. congruence.
Qed.

Lemma kv_options_conditional caps headers multipart opts headers' :
  kv_invoke_options caps headers multipart = Ok (opts, headers') →
  conditional multipart (omap mutation_target caps) (metadata_header headers "if-match")
    (metadata_header headers "if-none-match") = Ok (preconditions opts) ∧
  ¬ (is_Some (metadata_header headers "if-match") ∧ is_Some (metadata_header headers "if-none-match")).
Proof.
  unfold kv_invoke_options. destruct (take_metadata_header headers "if-match") as [im h1] eqn:Him.
  destruct (take_metadata_header h1 "if-none-match") as [inm h2] eqn:Hinm. intros Ho.
  assert (metadata_header headers "if-match" = im) as -> by (by rewrite <- take_header_value, Him).
  assert (metadata_header headers "if-none-match" = inm) as ->.
  { rewrite <- (take_other headers "if-match") by done. rewrite Him. simpl. by rewrite <- take_header_value, Hinm. }
  apply bind_Ok in Ho as ([] & Hboth%ensure_Ok & Ho). apply bind_Ok in Ho as (pre & Hpre & Ho). rewrite Hpre.
  split; [|rewrite <- bool_decide_and in Hboth; by apply negb_true_iff, bool_decide_eq_false in Hboth].
  destruct (parse_positive_u64_header h2 _) as [m h3]. apply bind_Ok in Ho as (m' & _ & Ho).
  destruct (parse_positive_u64_header h3 _) as [l h4]. apply bind_Ok in Ho as (l' & _ & Ho).
  apply bind_Ok in Ho as (ll & _ & Ho). by simplify_eq.
Qed.

(** The one key a conditional request changes, and its condition. *)
Lemma conditional_key multipart caps im inm pre :
  conditional multipart (omap mutation_target caps) im inm = Ok pre → is_Some im ∨ is_Some inm →
  ∃ key, mutation_keys caps = [key] ∧
    match inm, im with
    | Some _, _ => pre = {[ key := DoesNotExist ]}
    | None, Some v => ∃ d, parse_strong_blake3_etag v = Ok d ∧ pre = {[ key := Matches d ]}
    | None, None => True
    end.
Proof.
  rewrite <- mutation_targets_keys. unfold conditional. intros Hc Hsome. destruct inm as [v|].
  - apply bind_Ok in Hc as ([] & _ & Hc). destruct (omap mutation_target caps) as [|[[s p] a] []]; [done| |done].
    apply bind_Ok in Hc as ([] & _ & Hc). exists (s, p). by simplify_eq.
  - destruct im as [v|]; [|by destruct Hsome as [[]|[]]].
    destruct (omap mutation_target caps) as [|[[s p] a] []]; [done| |done].
    apply bind_Ok in Hc as ([] & _ & Hc). apply bind_Ok in Hc as (d & Hd & Hc). exists (s, p). simplify_eq. eauto.
Qed.

Section Claims.
Context `{Keccak256} `{Blake3} `{CidLib} `{RowOrder} `{TokenLib} `{TimeLib} `{HookFormats} `{DagCbor} `{TokenCodec}
        `{Collation} `{PercentDecode}.
Context {B E : Type} `{!BlockStore B E}.

(** An accepted request ran the invocation on what was prepared. *)
Lemma invoke_impl_Ok public quota duckdb (enc : option ColumnEncryption) (nonce : Hash → string) (now : Z)
    (setup : SpaceId → result TxError unit) n i bytes headers data out n' :
  invoke_impl public quota duckdb enc nonce now setup n i bytes headers data = (Answered (Ok out), n') →
  ∃ inputs options batch res,
    kv_prepare public quota (n_blocks n) (n_sizes n) (ii_capabilities i) headers data = Ok (inputs, options, batch) ∧
    invoke_with_options enc nonce now setup (n_db n) (n_blocks n) i bytes inputs options = (Ok res, n_blocks n') ∧
    n_db n' = res.2.
Proof.
  unfold invoke_impl. destruct (check_and_insert _ _ _ _) as [[[]|[]] seen]; [|done].
  destruct (service_caps "sql" _ _); [|done]. destruct (service_caps "duckdb" _ _); [|by destruct duckdb].
  cbn [n_blocks n_sizes n_db]. destruct (kv_prepare _ _ _ _ _ _ _) as [[[inputs options] batch]|] eqn:Hp; [|done].
  destruct (invoke_with_options _ _ _ _ _ _ _ _ _ _) as [[[[res outs] db]|] b] eqn:Hi; [|done].
  intros Hr. exists inputs, options, batch, (res, outs, db). split; [done|].
  apply pair_equal_spec in Hr as [_ <-]. by rewrite Hi.
Qed.

(** C22: uploads stay within the quota: whatever a request uploads, as one body or
    as the parts of a multipart form, the bytes that reach the staging area fit,
    together with what the space stores already, into the limit that applies to
    the space (the public limit or the quota), or the request is refused before
    the invocation runs. *)
Theorem upload_within_quota (public : N) (quota : SpaceId → option N) (b : B) (sizes : SqlSizes)
    (caps : list Capability) (headers : Metadata) (data : DataIn) (inputs : gmap KvKey (Metadata * string))
    (options : KvInvokeOptions) (batch : option (list string)) (key : KvKey) (limit : N) :
  kv_prepare public quota b sizes caps headers data = Ok (inputs, options, batch) →
  key ∈ kv_put_capabilities caps → space_limit public quota key.1 = Some limit →
  ∃ used, store_size b sizes key.1 = Ok (Some used) ∧ (used + total_bytes inputs ≤ limit)%N.
Proof. intros (_ & _ & Hfit)%kv_prepare_prepared. by apply Hfit. Qed.

(** The uploads of an accepted request are exactly those its invocation is
    authorized to write: one for each put capability, no two for the same key and
    none besides, so staging them for the invocation never misses an input. *)
Theorem uploads_match_puts (public : N) (quota : SpaceId → option N) (b : B) (sizes : SqlSizes)
    (caps : list Capability) (headers : Metadata) (data : DataIn) (inputs : gmap KvKey (Metadata * string))
    (options : KvInvokeOptions) (batch : option (list string)) :
  kv_prepare public quota b sizes caps headers data = Ok (inputs, options, batch) →
  NoDup (kv_put_capabilities caps) ∧ (∀ key, is_Some (inputs !! key) ↔ key ∈ kv_put_capabilities caps) ∧
  is_ok (stage_ops (E := E) caps inputs ∅) = true.
Proof.
  intros (Hnd & Hkeys & _)%kv_prepare_prepared. split_and!; [done|done|]. apply stage_ops_complete; [done|].
  intros key. apply Hkeys.
Qed.

(** Conditional requests: a request with If-Match that succeeds changes one
    key, whose value, when the invocation ran, was live and had the entity tag
    the client sent; one with If-None-Match changes one key, which had no live
    value.  Entity tags are those the server hands out with reads and writes. *)
Theorem conditional_request (public : N) (quota : SpaceId → option N) (duckdb : bool) (enc : option ColumnEncryption)
    (nonce : Hash → string) (now : Z) (setup : SpaceId → result TxError unit) (n n' : Node) (i : InvocationInfo)
    (bytes : string) (headers : Metadata) (data : DataIn) (out : DataOut) :
  invoke_impl public quota duckdb enc nonce now setup n i bytes headers data = (Answered (Ok out), n') →
  (∀ h, metadata_header headers "if-match" = Some (kv_etag h) → String.length (mh_digest h) = 32 →
     ∃ key e, mutation_keys (ii_capabilities i) = [key] ∧ get_kv_entity (n_db n) key.1 key.2 = Some e ∧
       mh_digest (w_value e) = mh_digest h) ∧
  (is_Some (metadata_header headers "if-none-match") →
     ∃ key, mutation_keys (ii_capabilities i) = [key] ∧ get_kv_entity (n_db n) key.1 key.2 = None).
Proof.
  intros (inputs & options & batch & [[res outs] db'] & Hprep & Hinv & _)%invoke_impl_Ok.
  apply invoke_Ok in Hinv as (stages & ops & deleted & _ & Hpre & _).
  unfold kv_prepare in Hprep. apply bind_Ok in Hprep as ([opts md] & [Hopts Hboth]%kv_options_conditional & Hprep).
  apply bind_Ok in Hprep as (expected & _ & Hprep). apply bind_Ok in Hprep as (ins & _ & Hprep). injection Hprep as _ -> _.
  split.
  - intros h Hh Hlen. destruct (conditional_key _ _ _ _ _ Hopts) as (key & Hkeys & Hkind); [left; by rewrite Hh|].
    rewrite Hh in Hkind, Hboth. destruct (metadata_header headers "if-none-match") as [v|]; [by destruct Hboth|].
    destruct Hkind as (d & Hd & Hset). rewrite parse_kv_etag in Hd by done. injection Hd as <-.
    rewrite Hkeys in Hpre. pose proof (check_preconditions_Ok _ _ _ _ _ key (Matches (mh_digest h)) Hpre) as Hm.
    rewrite Hset, lookup_singleton_eq in Hm. specialize (Hm ltac:(by left) eq_refl).
    destruct (get_kv_entity _ _ _) as [e|] eqn:He; [|done]. exists key, e. split_and!; [done|done|].
    simpl in Hm. by apply bool_decide_eq_true in Hm.
  - intros [v Hv]. destruct (conditional_key _ _ _ _ _ Hopts) as (key & Hkeys & Hkind); [right; by rewrite Hv|].
    rewrite Hv in Hkind. rewrite Hkeys in Hpre.
    pose proof (check_preconditions_Ok _ _ _ _ _ key DoesNotExist Hpre) as Hm.
    rewrite Hkind, lookup_singleton_eq in Hm. specialize (Hm ltac:(by left) eq_refl).
    exists key. split; [done|]. by destruct (get_kv_entity _ _ _).
Qed.

End Claims.

(** ** Witnesses *)

#[local] Existing Instances demo_keccak demo_blake demo_cids demo_order demo_tokens demo_formats demo_cbor
  demo_codec demo_collation demo_calendar.
Definition demo_percent : PercentDecode := λ s, Some s.
#[local] Existing Instance demo_percent.

(** A multipart form with two parts for two puts, in a space that stores nothing
    and may store ten bytes. *)
Definition demo_blocks : MemoryStore := {[ demo_space := ∅ ]}.
Definition demo_quota (s : SpaceId) : option N := Some 10%N.
Definition demo_form : Metadata := [("content-type", "multipart/form-data; boundary=x")].
Definition demo_part (name text : string) : result unit Field := Ok (mkField (Some name) [] (Some "text/plain") [Ok text]).
Definition demo_upload : DataIn :=
  DataOne (mkBody [] (λ _, Some [demo_part "b" "four"; demo_part "a" "sixsix"])).
Definition demo_puts : list Capability := [demo_cap (Some "a") "tinycloud.kv/put"; demo_cap (Some "b") "tinycloud.kv/put"].
Definition demo_preparation := kv_prepare 0 demo_quota demo_blocks ∅ demo_puts demo_form demo_upload.
Definition demo_prepared : gmap KvKey (Metadata * string) * KvInvokeOptions * option (list string) :=
  match demo_preparation with Ok p => p | Err _ => (∅, mkKvInvokeOptions ∅ None None, None) end.

Lemma demo_prepare : demo_preparation = Ok (demo_prepared.1.1, demo_prepared.1.2, demo_prepared.2).
Proof.
  assert (is_ok demo_preparation = true) as Hok by (vm_compute; reflexivity).
  unfold demo_prepared. revert Hok. by destruct demo_preparation as [[[? ?] ?]|].
Qed.

Lemma upload_within_quota_witness :
  ∃ used, store_size demo_blocks ∅ demo_space = Ok (Some used) ∧ (used + total_bytes demo_prepared.1.1 ≤ 10)%N.
Proof.
  apply (upload_within_quota 0 demo_quota demo_blocks ∅ demo_puts demo_form demo_upload _ _ _ (demo_space, "a") 10 demo_prepare).
  - by left.
  - by vm_compute.
Defined.

Lemma uploads_match_puts_witness : is_ok (stage_ops (E := Empty_set) demo_puts demo_prepared.1.1 ∅) = true.
Proof. apply (uploads_match_puts 0 demo_quota demo_blocks ∅ demo_puts demo_form demo_upload _ _ _ demo_prepare). Defined.

(** A put of 32 bytes (the digest in the demo world), then one on condition that
    they are still there. *)
Definition demo_text : string := "0123456789abcdef0123456789abcdef".
Definition demo_body (text : string) : DataIn := DataOne (mkBody [RPending; RReady (Ok text)] (λ _, None)).
Definition demo_request (n : Node (B := MemoryStore)) (bytes : string) (headers : Metadata) (text : string) :=
  invoke_impl 0 (λ _, None) false None demo_nonce 50 demo_setup n demo_put bytes headers (demo_body text).
Definition demo_first := demo_request (mkNode ∅ demo_store demo_blocks ∅) "r1" [] demo_text.
Definition demo_second := demo_request demo_first.2 "r2" [("If-Match", kv_etag (hash demo_text))] "new".
Definition demo_out : DataOut := match demo_second.1 with Answered (Ok o) => o | _ => OutNone end.

Lemma demo_second_eq : demo_second = (Answered (Ok demo_out), demo_second.2).
Proof.
  assert (match demo_second.1 with Answered (Ok _) => true | _ => false end = true) as Hok by (vm_compute; reflexivity).
  unfold demo_out. revert Hok. by destruct demo_second as [[| |[]] ?].
Qed.

Lemma conditional_request_witness :
  ∃ key e, mutation_keys (ii_capabilities demo_put) = [key] ∧
    get_kv_entity (n_db demo_first.2) key.1 key.2 = Some e ∧ mh_digest (w_value e) = demo_text.
Proof.
  destruct (conditional_request 0 (λ _, None) false None demo_nonce 50 demo_setup demo_first.2 demo_second.2 demo_put "r2"
              [("If-Match", kv_etag (hash demo_text))] (demo_body "new") demo_out demo_second_eq) as [Hmatch _].
  exact (Hmatch (hash demo_text) eq_refl eq_refl).
Defined.
