(* ===== verification/SqlParser.v ===== *)
(** * SQL requests and their validation: tinycloud-core/src/sql/{caveats,types,parser}.rs

    A request carries SQL text.  [validate_sql] parses it, decides from the kind
    of statement, the ability the invocation holds and the caveats of the grant
    whether it may run, and says which tables it writes.  The parser is the
    [sqlparser] crate, the class [SqlParse]; of its syntax tree the model keeps
    what the code reads, a name being the text it displays as. *)
From S2P Require Import Prelude Str Chars Json Registry Tables.

(** ** caveats.rs *)

Record PreparedStatement := mkPreparedStatement { ps_name : string; ps_sql : string }.

Record SqlCaveats := mkSqlCaveats {
  sc_tables : option (list string);
  sc_columns : option (list string);
  sc_statements : option (list PreparedStatement);
  sc_read_only : option bool;
}.

Definition is_table_allowed (c : SqlCaveats) (table : string) : bool :=
  match sc_tables c with None => true | Some tables => bool_decide (table ∈ tables) end.

Definition is_column_allowed (c : SqlCaveats) (column : string) : bool :=
  match sc_columns c with None => true | Some columns => bool_decide (column ∈ columns) end.

Definition is_write_allowed (c : SqlCaveats) : bool := negb (default false (sc_read_only c)).

Definition find_prepared (c : SqlCaveats) (name : string) : option PreparedStatement :=
  statements ← sc_statements c; find (λ s, bool_decide (ps_name s = name)) statements.

(** ** types.rs *)

Inductive SqlValue :=
| VNull
| VInteger (i : Z)
| VReal (repr : Z)
| VText (s : string)
| VBlob (b : string).

#[export] Instance SqlValue_eq_dec : EqDecision SqlValue.
Proof. solve_decision. Defined.

Record SqlStatement := mkSqlStatement { ss_sql : string; ss_params : list SqlValue }.

Inductive SqlRequest :=
| RQuery (sql : string) (params : list SqlValue) (max_rows max_bytes : option N)
| RExecute (sql : string) (params : list SqlValue) (schema : option (list string))
| RBatch (stmts : list SqlStatement)
| RExecuteStatement (name : string) (params : list SqlValue)
| RExport.

Inductive SqlError :=
| ESqlite (m : string)
| EPermissionDenied (m : string)
| EDatabaseNotFound
| EResponseTooLarge (n : N)
| EQuotaExceeded
| EInvalidStatement (m : string)
| ESchemaError (m : string)
| EReadOnlyViolation
| EParseError (m : string)
| EInternal (m : string).

(** [write_hooks::TouchedTables]. *)
Inductive TouchedTables := Supported (tables : list string) | Unsupported.

(** ** The syntax tree *)

Inductive SelectItem := UnnamedIdentifier (value : string) | OtherItem.

Inductive Query := mkQuery (body : SetExpr)
with SetExpr :=
| Select (projection : list SelectItem) (from : list TableWithJoins)
| SetOperation (left right : SetExpr)
| Nested (query : Query)
| OtherExpr
with TableFactor :=
| Table (name : string)
| Derived (subquery : Query)
| NestedJoin (table_with_joins : TableWithJoins)
| OtherFactor
with TableWithJoins := mkTableWithJoins (relation : TableFactor) (joins : list TableFactor).

Inductive Statement :=
| SQuery (query : Query)
| SInsert (table_name : string)
| SUpdate (table : TableWithJoins) (assignments : list (list string))
| SDelete (tables : list string) (from : list TableWithJoins)
| SCreateTable (name : string)
| SCreateView (name : string)
| SAlterTable (name : string)
| SDrop (names : list string)
| SCreateIndex (table_name : string)
| SAttachDatabase
| SOther (display : string).

Definition query_body (q : Query) : SetExpr := let 'mkQuery body := q in body.
Definition relation_of (t : TableWithJoins) : TableFactor := let 'mkTableWithJoins r _ := t in r.

(** [Parser::parse_sql] with the SQLite dialect. *)
Class SqlParse := parse_sql : string → result string (list Statement).

(** ** The first token *)

Definition newline : string := String (char 10) "".

(** [find('\n')] and what follows it; [find("*/")] and what follows it. *)
Fixpoint after_newline (cs : list string) : option (list string) :=
  match cs with
  | [] => None
  | c :: cs => if bool_decide (c = newline) then Some cs else after_newline cs
  end.

Fixpoint after_close (cs : list string) : option (list string) :=
  match cs with
  | c :: cs' =>
      match cs' with
      | d :: rest => if bool_decide (c = "*") && bool_decide (d = "/") then Some rest else after_close cs'
      | [] => None
      end
  | [] => None
  end.

(** Whether two characters start the text. *)
Definition opens (a b : string) (cs : list string) : option (list string) :=
  match cs with
  | c :: d :: rest => if bool_decide (c = a) && bool_decide (d = b) then Some rest else None
  | _ => None
  end.

(** The [while] loop of [first_sql_token]; the inner option is the early return
    on a comment that is never closed. *)
Fixpoint skip_blank (fuel : nat) (cs : list string) : option (option (list string)) :=
  match fuel with
  | O => None
  | S fuel =>
      let cs := trim_start_chars is_whitespace cs in
      match opens "-" "-" cs, opens "/" "*" cs with
      | Some rest, _ => match after_newline rest with Some r => skip_blank fuel r | None => Some None end
      | None, Some rest => match after_close rest with Some r => skip_blank fuel r | None => Some None end
      | None, None => Some (Some cs)
      end
  end.

Definition is_token_char (c : string) : bool :=
  match c with
  | String a "" => in_range "a" "z" a || in_range "A" "Z" a || bool_decide (a = "_"%char)
  | _ => false
  end.

Fixpoint take_token (cs : list string) : list string :=
  match cs with
  | c :: cs => if is_token_char c then c :: take_token cs else []
  | [] => []
  end.

Definition first_sql_token (sql : string) : option string :=
  let cs := chars sql in
  match skip_blank (S (length cs)) cs with
  | Some (Some rest) =>
      let token := String.concat "" (take_token rest) in
      if is_empty token then None else Some (to_ascii_lowercase token)
  | _ => None
  end.

Definition is_pragma_sql (sql : string) : bool := bool_decide (first_sql_token sql = Some "pragma").

(** ** What a statement names *)

Fixpoint extract_tables_from_query (q : Query) : list string :=
  let 'mkQuery body := q in extract_tables_from_set_expr body
with extract_tables_from_set_expr (body : SetExpr) : list string :=
  match body with
  | Select _ from => flat_map extract_tables_from_table_with_joins from
  | SetOperation a b => extract_tables_from_set_expr a ++ extract_tables_from_set_expr b
  | Nested q => extract_tables_from_query q
  | OtherExpr => []
  end
with extract_tables_from_table_factor (f : TableFactor) : list string :=
  match f with
  | Table name => [name]
  | Derived subquery => extract_tables_from_query subquery
  | NestedJoin t => extract_tables_from_table_with_joins t
  | OtherFactor => []
  end
with extract_tables_from_table_with_joins (t : TableWithJoins) : list string :=
  let 'mkTableWithJoins r joins := t in
  extract_tables_from_table_factor r ++ flat_map extract_tables_from_table_factor joins.

Definition extract_tables_from_statement (stmt : Statement) : list string :=
  match stmt with
  | SQuery q => extract_tables_from_query q
  | SInsert t => [t]
  | SUpdate t _ => extract_tables_from_table_with_joins t
  | SDelete _ from => flat_map extract_tables_from_table_with_joins from
  | SCreateTable n | SCreateView n | SAlterTable n | SCreateIndex n => [n]
  | SDrop names => names
  | SAttachDatabase | SOther _ => []
  end.

Definition extract_columns_from_query (q : Query) : list string :=
  match query_body q with
  | Select projection _ => omap (λ i, match i with UnnamedIdentifier v => Some v | OtherItem => None end) projection
  | _ => []
  end.

Definition extract_columns_from_statement (stmt : Statement) : list string :=
  match stmt with
  | SQuery q => extract_columns_from_query q
  | SUpdate _ assignments => concat assignments
  | _ => []
  end.

(** [unique_names]. *)
Fixpoint unique_names_from (unique names : list string) : list string :=
  match names with
  | [] => unique
  | n :: names => unique_names_from (if bool_decide (n ∈ unique) then unique else unique ++ [n]) names
  end.
Definition unique_names (names : list string) : list string := unique_names_from [] names.

Definition target_of_relation (f : TableFactor) : TouchedTables :=
  match f with Table name => Supported [name] | _ => Unsupported end.

Definition extract_write_target_from_update (t : TableWithJoins) : option TouchedTables :=
  Some (target_of_relation (relation_of t)).

Definition extract_write_target_from_delete (tables : list string) (from : list TableWithJoins) : option TouchedTables :=
  match tables with
  | _ :: _ => Some (Supported (unique_names tables))
  | [] => match from with [t] => Some (target_of_relation (relation_of t)) | _ => Some Unsupported end
  end.

Definition extract_write_targets_from_statement (stmt : Statement) : option TouchedTables :=
  match stmt with
  | SInsert t => Some (Supported [t])
  | SUpdate t _ => extract_write_target_from_update t
  | SDelete tables from => extract_write_target_from_delete tables from
  | SCreateTable n | SAlterTable n | SCreateView n => Some (Supported [n])
  | SDrop names => Some (Supported (unique_names names))
  | SCreateIndex t => Some (Supported [t])
  | SQuery _ | SAttachDatabase | SOther _ => None
  end.

(** ** validate_sql *)

Record ParsedQuery := mkParsedQuery {
  pq_statements : list Statement;
  referenced_tables : list string;
  referenced_columns : list string;
  write_targets : list TouchedTables;
  is_read_only : bool;
  is_ddl : bool;
}.

(** What the loop over the statements gathers. *)
Record Gathered := mkGathered {
  g_tables : list string;
  g_columns : list string;
  g_targets : list TouchedTables;
  g_read_only : bool;
  g_ddl : bool;
  g_non_ddl : bool;
}.

(** The body of the loop; a query, an insert, an update, a delete, a definition
    of the schema, or refused. *)
Definition gather (g : Gathered) (stmt : Statement) : result SqlError Gathered :=
  let tables := g_tables g ++ extract_tables_from_statement stmt in
  let targets := g_targets g ++ option_list (extract_write_targets_from_statement stmt) in
  match stmt with
  | SQuery _ =>
      Ok (mkGathered tables (g_columns g ++ extract_columns_from_statement stmt) (g_targets g) (g_read_only g) (g_ddl g) true)
  | SInsert _ => Ok (mkGathered tables (g_columns g) targets false (g_ddl g) true)
  | SUpdate _ _ =>
      Ok (mkGathered tables (g_columns g ++ extract_columns_from_statement stmt) targets false (g_ddl g) true)
  | SDelete _ _ => Ok (mkGathered tables (g_columns g) targets false (g_ddl g) true)
  | SCreateTable _ | SCreateView _ | SAlterTable _ | SDrop _ | SCreateIndex _ =>
      Ok (mkGathered tables (g_columns g) targets false true (g_non_ddl g))
  | SAttachDatabase => Err (EPermissionDenied "ATTACH is not allowed")
  | SOther display => Err (EPermissionDenied ("Statement type not allowed: " +:+ display))
  end.

Fixpoint gather_all (g : Gathered) (l : list Statement) : result SqlError Gathered :=
  match l with [] => Ok g | s :: l => g ← gather g s; gather_all g l end.

Definition check_ability (ability : string) (g : Gathered) : result SqlError unit :=
  _ ← ensure (negb (g_ddl g) || (ability_matches ability "tinycloud.sql/write" || ability_matches ability "tinycloud.sql/schema"))
        (EPermissionDenied "DDL operations require admin, schema, or write ability");
  _ ← ensure (negb (bool_decide (resolve_alias ability = "tinycloud.sql/schema") && (negb (g_ddl g) || g_non_ddl g)))
        (EPermissionDenied "Schema ability only permits DDL operations");
  ensure (g_read_only g || negb (bool_decide (resolve_alias ability = "tinycloud.sql/read"))) EReadOnlyViolation.

Definition check_caveats (caveats : option SqlCaveats) (g : Gathered) : result SqlError unit :=
  match caveats with
  | None => Ok tt
  | Some c =>
      _ ← ensure (negb (default false (sc_read_only c)) || g_read_only g) EReadOnlyViolation;
      _ ← for_each (λ t, ensure (is_table_allowed c t)
              (EPermissionDenied ("Access to table '" +:+ t +:+ "' is not allowed"))) (g_tables g);
      for_each (λ k, ensure (is_column_allowed c k)
              (EPermissionDenied ("Access to column '" +:+ k +:+ "' is not allowed"))) (g_columns g)
  end.

Definition validate_sql `{SqlParse} (sql : string) (caveats : option SqlCaveats) (ability : string)
    : result SqlError ParsedQuery :=
  if is_pragma_sql sql then
    _ ← ensure (ability_matches ability "tinycloud.sql/admin")
          (EPermissionDenied "PRAGMA operations require admin ability");
    Ok (mkParsedQuery [] [] [] [] true false)
  else
    stmts ← map_err EParseError (parse_sql sql);
    _ ← ensure (negb (bool_decide (length stmts = 0))) (EParseError "Empty SQL statement");
    _ ← ensure (bool_decide (length stmts = 1)) (EInvalidStatement "Exactly one SQL statement is required");
    g ← gather_all (mkGathered [] [] [] true false false) stmts;
    _ ← check_ability ability g;
    _ ← check_caveats caveats g;
    Ok (mkParsedQuery stmts (dedup (g_tables g)) (dedup (g_columns g)) (g_targets g) (g_read_only g) (g_ddl g)).

Arguments validate_sql : simpl never.

(** Text for which the validation names no table that is written: a PRAGMA, and what the
    parser takes for a query (an INSERT under a WITH included). *)
Definition silent_statement `{SqlParse} (sql : string) : Prop := is_pragma_sql sql = true ∨ ∃ q, parse_sql sql = Ok [SQuery q].

Lemma no_targets_silent `{SqlParse} sql caveats ability p :
  validate_sql sql caveats ability = Ok p → write_targets p = [] → silent_statement sql.
Proof.
  unfold validate_sql, silent_statement. destruct (is_pragma_sql sql); [by left|]. intros Hv Ht. right.
  apply bind_Ok in Hv as (stmts & Hp%map_err_Ok & Hv). apply bind_Ok in Hv as ([] & _ & Hv).
  apply bind_Ok in Hv as ([] & Hl%ensure_Ok%bool_decide_eq_true & Hv). apply bind_Ok in Hv as (g & Hg & Hv).
  apply bind_Ok in Hv as ([] & _ & Hv). apply bind_Ok in Hv as ([] & _ & [= <-]). cbn [write_targets] in Ht.
  destruct stmts as [|stmt [|]]; [done| |done]. cbn [gather_all] in Hg. apply bind_Ok in Hg as (g' & Hg & [= ->]).
  destruct stmt as [q| | |tables from| | | | | | |]; try (by exists q); exfalso; cbn in Hg; simplify_eq; try done.
  cbn in Ht. unfold extract_write_target_from_delete in Ht. destruct tables; [|done]. destruct from as [|t []]; done.
Qed.

(** ** The first token, exactly *)

(** Text a tokenizer skips: white space, comments to the end of the line, closed
    block comments. *)
Inductive blank : list string → Prop :=
| blank_nil : blank []
| blank_space c cs : is_whitespace c = true → blank cs → blank (c :: cs)
| blank_line body cs : newline ∉ body → blank cs → blank ("-" :: "-" :: body ++ newline :: cs)
| blank_block body cs : after_close (body ++ ["*"]) = None → blank cs → blank ("/" :: "*" :: body ++ "*" :: "/" :: cs).

#[local] Hint Constructors blank : core.

Lemma trim_start_blank cs b : trim_start_chars is_whitespace cs = b →
  ∃ ws, cs = ws ++ b ∧ (∀ x, blank x → blank (ws ++ x)).
Proof.
  intros <-. induction cs as [|c cs (ws & Heq & Hws)]; [by exists []|].
  simpl. destruct (is_whitespace c) eqn:Hc; [|by exists []].
  exists (c :: ws). split; [by simpl; f_equal|]. intros x Hx. simpl. auto.
Qed.

Lemma after_newline_Some cs r : after_newline cs = Some r ↔ ∃ body, cs = body ++ newline :: r ∧ newline ∉ body.
Proof.
  revert r. induction cs as [|c cs IH]; intros r; cbn [after_newline].
  - split; [done|]. by intros ([|??] & ? & _).
  - case_bool_decide as Hc.
    + subst. split.
      * intros [= ->]. exists []. split; [done|]. apply not_elem_of_nil.
      * intros ([|b body] & Heq & Hni); simplify_eq/=; [done|]. set_solver.
    + rewrite IH. split.
      * intros (body & -> & Hni). exists (c :: body). split; [done|]. set_solver.
      * intros ([|b body] & Heq & Hni); simplify_eq/=. exists body. set_solver.
Qed.

Lemma after_close_app body r : after_close (body ++ ["*"]) = None → after_close (body ++ "*" :: "/" :: r) = Some r.
Proof.
  induction body as [|c body IH]; [done|]. intros Hn. destruct body as [|d body].
  - cbn in Hn |- *. destruct (bool_decide (c = "*")); done.
  - cbn [app after_close] in *. destruct (bool_decide (c = "*") && bool_decide (d = "/")); [done|]. by apply IH.
Qed.

Lemma after_close_Some cs r :
  after_close cs = Some r → ∃ body, cs = body ++ "*" :: "/" :: r ∧ after_close (body ++ ["*"]) = None.
Proof.
  induction cs as [|c cs IH]; [done|]. destruct cs as [|d cs]; [done|]. cbn [after_close].
  destruct (bool_decide (c = "*") && bool_decide (d = "/")) eqn:Hb.
  - intros [= ->]. apply andb_true_iff in Hb as [->%bool_decide_eq_true ->%bool_decide_eq_true]. by exists [].
  - intros (body & Heq & Hn)%IH. exists (c :: body). split; [by rewrite Heq|].
    destruct body as [|b body]; cbn [app after_close] in *; simplify_eq; [|by rewrite Hb].
    by rewrite andb_false_r || (destruct (bool_decide (c = "*")); done).
Qed.

Lemma opens_Some a b cs r : opens a b cs = Some r ↔ cs = a :: b :: r.
Proof.
  destruct cs as [|c [|d cs]]; cbn [opens]; [done..|].
  destruct (bool_decide (c = a) && bool_decide (d = b)) eqn:Hb.
  - apply andb_true_iff in Hb as [->%bool_decide_eq_true ->%bool_decide_eq_true]. naive_solver.
  - split; [done|]. intros [= -> -> ->]. by rewrite !bool_decide_true in Hb by done.
Qed.

(** The loop runs out of characters before it runs out of fuel. *)
Lemma trim_start_length p cs : length (trim_start_chars p cs) ≤ length cs.
Proof. induction cs as [|c cs IH]; [done|]. cbn [trim_start_chars]. destruct (p c); simpl; lia. Qed.

Lemma skip_blank_total fuel cs : length cs < fuel → is_Some (skip_blank fuel cs).
Proof.
  revert cs. induction fuel as [|fuel IH]; intros cs Hl; [lia|]. cbn [skip_blank].
  pose proof (trim_start_length is_whitespace cs) as Ht.
  destruct (opens "-" "-" _) as [rest|] eqn:Ho.
  - apply opens_Some in Ho. rewrite Ho in Ht. destruct (after_newline rest) as [r|] eqn:Hr; [|done].
    apply after_newline_Some in Hr as (body & -> & _). apply IH. simpl in Ht. rewrite length_app in Ht. simpl in Ht. lia.
  - destruct (opens "/" "*" _) as [rest|] eqn:Hb; [|done]. apply opens_Some in Hb. rewrite Hb in Ht.
    destruct (after_close rest) as [r|] eqn:Hr; [|done].
    apply after_close_Some in Hr as (body & -> & _). apply IH. simpl in Ht. rewrite length_app in Ht. simpl in Ht. lia.
Qed.

Lemma skip_blank_sound fuel cs r : skip_blank fuel cs = Some (Some r) → ∃ b, cs = b ++ r ∧ blank b.
Proof.
  revert cs. induction fuel as [|fuel IH]; intros cs; [done|]. cbn [skip_blank].
  destruct (trim_start_blank cs _ eq_refl) as (ws & Hcs & Hws). set (t := trim_start_chars _ cs) in *. clearbody t. subst cs.
  destruct (opens "-" "-" t) as [rest|] eqn:Ho; [|destruct (opens "/" "*" t) as [rest|] eqn:Hb].
  - apply opens_Some in Ho as ->. destruct (after_newline rest) as [x|] eqn:Hx; [|done].
    apply after_newline_Some in Hx as (body & -> & Hni). intros (b & -> & Hbl)%IH.
    exists (ws ++ "-" :: "-" :: body ++ newline :: b). split; [|auto]. by rewrite <- app_assoc; simpl; rewrite <- app_assoc.
  - apply opens_Some in Hb as ->. destruct (after_close rest) as [x|] eqn:Hx; [|done].
    apply after_close_Some in Hx as (body & -> & Hni). intros (b & -> & Hbl)%IH.
    exists (ws ++ "/" :: "*" :: body ++ "*" :: "/" :: b). split; [|auto]. by rewrite <- app_assoc; simpl; rewrite <- app_assoc.
  - intros [= <-]. exists ws. split; [done|]. rewrite <- (app_nil_r ws). auto.
Qed.

Lemma skip_blank_complete b fuel t r :
  blank b → is_token_char t = true → length (b ++ t :: r) < fuel → skip_blank fuel (b ++ t :: r) = Some (Some (t :: r)).
Proof.
  intros Hb Ht. assert (is_whitespace t = false ∧ t ≠ "-" ∧ t ≠ "/") as (Hw & Hd & Hs).
  { destruct t as [|a [|??]]; [done| |done]. revert Ht. cbn [is_token_char].
    intros Ht. assert (∀ a, implb (in_range "a" "z" a || in_range "A" "Z" a || bool_decide (a = "_"%char))
      (negb (is_whitespace (String a "")) && negb (bool_decide (String a "" = "-")) && negb (bool_decide (String a "" = "/"))) = true)
      as Hall by (apply ascii_forall; by vm_compute).
    specialize (Hall a). rewrite Ht in Hall. cbn [implb] in Hall.
    apply andb_true_iff in Hall as [[Hw Hd]%andb_true_iff Hs]. apply negb_true_iff in Hw, Hd, Hs.
    by apply bool_decide_eq_false in Hd, Hs. }
  revert fuel. induction Hb as [|c cs Hc _ IH|body cs Hni _ IH|body cs Hni _ IH]; intros [|fuel] Hl; try (simpl in Hl; lia).
  - cbn [app skip_blank trim_start_chars]. rewrite Hw. unfold opens.
    by destruct r; rewrite ?(bool_decide_false (t = "-")), ?(bool_decide_false (t = "/")) by done.
  - specialize (IH (S fuel)). cbn [app skip_blank trim_start_chars] in IH |- *. rewrite Hc. apply IH. simpl in Hl. lia.
  - cbn [app length] in *. rewrite <- app_assoc in *. cbn [app] in *. cbn [skip_blank trim_start_chars].
    replace (is_whitespace "-") with false by (by vm_compute). cbn [opens]. rewrite !bool_decide_true by done. cbn [andb].
    assert (after_newline (body ++ newline :: cs ++ t :: r) = Some (cs ++ t :: r)) as -> by (apply after_newline_Some; eauto).
    apply IH. rewrite length_app in Hl. simpl in Hl. lia.
  - cbn [app length] in *. rewrite <- app_assoc in *. cbn [app] in *. cbn [skip_blank trim_start_chars].
    replace (is_whitespace "/") with false by (by vm_compute). cbn [opens].
    rewrite (bool_decide_false ("/" = "-")) by done. rewrite !(bool_decide_true _ eq_refl). cbn [andb].
    rewrite after_close_app by done. apply IH. rewrite length_app in Hl. simpl in Hl. lia.
Qed.

Lemma take_token_app kw r :
  Forall (λ c, is_token_char c = true) kw → match r with c :: _ => is_token_char c = false | [] => True end →
  take_token (kw ++ r) = kw.
Proof.
  intros Hkw Hr. induction Hkw as [|c kw Hc _ IH]; cbn [app take_token].
  - destruct r as [|c r]; [done|]. cbn [take_token]. by rewrite Hr.
  - by rewrite Hc, IH.
Qed.

Lemma take_token_spec cs : ∃ r, cs = take_token cs ++ r ∧ Forall (λ c, is_token_char c = true) (take_token cs) ∧
  match r with c :: _ => is_token_char c = false | [] => True end.
Proof.
  induction cs as [|c cs (r & Heq & Ha & Hr)]; [by exists []|]. cbn [take_token].
  destruct (is_token_char c) eqn:Hc; [|by exists (c :: cs)].
  exists r. split_and!; [by cbn [app]; f_equal|by constructor|done].
Qed.

Lemma concat_token_nonempty kw :
  Forall (λ c, is_token_char c = true) kw → is_empty (String.concat "" kw) = bool_decide (kw = []).
Proof.
  intros Hkw. destruct Hkw as [|c kw Hc _]; [done|]. rewrite bool_decide_false by done.
  apply bool_decide_eq_false. destruct c as [|a c]; [done|]. by destruct kw.
Qed.

(** A pragma cannot be hidden behind white space or comments, and nothing else
    is taken for one: [is_pragma_sql] holds exactly when, after any white space
    and closed comments, the text goes on with the letters of PRAGMA in any case
    and no further letter or underscore. *)
Theorem pragma_recognised (sql : string) :
  is_pragma_sql sql = true ↔
  ∃ b kw r, chars sql = b ++ kw ++ r ∧ blank b ∧ Forall (λ c, is_token_char c = true) kw ∧
    to_ascii_lowercase (String.concat "" kw) = "pragma" ∧
    match r with c :: _ => is_token_char c = false | [] => True end.
Proof.
  unfold is_pragma_sql, first_sql_token. rewrite bool_decide_eq_true. split.
  - destruct (skip_blank _ _) as [[rest|]|] eqn:Hs; [|done..]. apply skip_blank_sound in Hs as (b & Heq & Hb).
    destruct (is_empty _); [done|]. intros [= Hl]. destruct (take_token_spec rest) as (r & Hrest & Hkw & Hr).
    exists b, (take_token rest), r. rewrite Heq. split_and!; [by rewrite <- Hrest|done..].
  - intros (b & kw & r & Heq & Hb & Hkw & Hl & Hr). rewrite Heq.
    destruct kw as [|t kw]; [done|]. cbn [app]. inversion Hkw as [|?? Ht _]; subst.
    rewrite skip_blank_complete by (try done; lia). change (t :: kw ++ r) with ((t :: kw) ++ r).
    rewrite take_token_app, concat_token_nonempty by done. by rewrite Hl.
Qed.

(** ** Validation, exactly *)

(** What a kind of statement needs of the ability. *)
Definition statement_permitted (ability : string) (stmt : Statement) : bool :=
  let tier := resolve_alias ability in
  match stmt with
  | SQuery _ => negb (bool_decide (tier = "tinycloud.sql/schema"))
  | SInsert _ | SUpdate _ _ | SDelete _ _ =>
      negb (bool_decide (tier = "tinycloud.sql/schema")) && negb (bool_decide (tier = "tinycloud.sql/read"))
  | SCreateTable _ | SCreateView _ | SAlterTable _ | SDrop _ | SCreateIndex _ =>
      ability_matches ability "tinycloud.sql/write" || ability_matches ability "tinycloud.sql/schema"
  | SAttachDatabase | SOther _ => false
  end.

Definition statement_reads (stmt : Statement) : bool := match stmt with SQuery _ => true | _ => false end.

(** What the caveats need of the statement. *)
Definition statement_within_caveats (caveats : option SqlCaveats) (stmt : Statement) : bool :=
  match caveats with
  | None => true
  | Some c =>
      (is_write_allowed c || statement_reads stmt) &&
      forallb (is_table_allowed c) (extract_tables_from_statement stmt) &&
      forallb (is_column_allowed c) (extract_columns_from_statement stmt)
  end.

(** An ability that implies no other confers only itself. *)
Lemma leaf_confers ability required :
  implied_actions (resolve_alias ability) = [] → ability_matches ability required = true →
  resolve_alias required = resolve_alias ability.
Proof.
  intros Hi. rewrite ability_matches_spec. intros Hrt.
  inversion Hrt as [|? ? ? (i & Hin & _) _]; subst; [congruence|]. rewrite Hi in Hin. by apply not_elem_of_nil in Hin.
Qed.

Lemma read_tier_confers ability required :
  resolve_alias ability = "tinycloud.sql/read" → ability_matches ability required = true →
  resolve_alias required = "tinycloud.sql/read".
Proof. intros Hr Hm. rewrite <- Hr. apply leaf_confers; [by rewrite Hr|done]. Qed.

Lemma for_each_ensure_ok {E A} (p : A → bool) (e : A → E) l :
  is_ok (for_each (λ x, ensure (p x) (e x)) l) = forallb p l.
Proof. induction l as [|x l IH]; [done|]. cbn [for_each forallb]. by destruct (p x). Qed.

Lemma is_ok_bind_unit {E A} (m : result E unit) (f : unit → result E A) : is_ok (m ≫= f) = is_ok m && is_ok (f tt).
Proof. by destruct m as [[]|]. Qed.

Lemma is_ok_ensure {E} (b : bool) (e : E) : is_ok (ensure b e) = b.
Proof. by destruct b. Qed.

Lemma check_statement caveats ability stmt g :
  gather (mkGathered [] [] [] true false false) stmt = Ok g →
  is_ok (check_ability ability g) && is_ok (check_caveats caveats g) =
  statement_permitted ability stmt && statement_within_caveats caveats stmt.
Proof.
  intros Hg. f_equal.
  - unfold check_ability, statement_permitted. rewrite !is_ok_bind_unit, !is_ok_ensure.
    pose proof (read_tier_confers ability "tinycloud.sql/write") as Hw.
    pose proof (read_tier_confers ability "tinycloud.sql/schema") as Hs.
    destruct stmt; simplify_eq/=; rewrite ?andb_true_r, ?andb_true_l, ?orb_true_r, ?andb_false_r; try done.
    all: destruct (bool_decide (_ = "tinycloud.sql/read")) eqn:Hr; [|by rewrite ?andb_true_r].
    all: apply bool_decide_eq_true in Hr; destruct (ability_matches ability "tinycloud.sql/write"), (ability_matches ability "tinycloud.sql/schema");
      try (by specialize (Hw Hr eq_refl)); try (by specialize (Hs Hr eq_refl)); done.
  - destruct caveats as [c|]; [|done]. unfold check_caveats, statement_within_caveats, is_write_allowed.
    rewrite !is_ok_bind_unit, is_ok_ensure, !for_each_ensure_ok, andb_assoc.
    destruct stmt; simplify_eq/=; by rewrite ?orb_true_r, ?orb_false_r, ?andb_true_r.
Qed.

(** What [validate_sql] lets through, exactly: a pragma for an ability that
    confers admin, and otherwise a text the parser reads as one statement, of a
    kind the ability permits (no query and no data change for the schema tier, no
    change for the read tier, schema changes only with write or schema) and that
    names only what the caveats allow. *)
Theorem validate_sql_exact `{SqlParse} (sql : string) (caveats : option SqlCaveats) (ability : string) :
  is_ok (validate_sql sql caveats ability) = true ↔
  if is_pragma_sql sql then ability_matches ability "tinycloud.sql/admin" = true
  else ∃ stmt, parse_sql sql = Ok [stmt] ∧ statement_permitted ability stmt = true ∧
         statement_within_caveats caveats stmt = true.
Proof.
  unfold validate_sql. destruct (is_pragma_sql sql).
  { rewrite is_ok_bind_unit, is_ok_ensure. by rewrite andb_true_r. }
  destruct (parse_sql sql) as [stmts|e]; cbn [map_err]; [rewrite bind_ret_l|by split; [|naive_solver]].
  destruct stmts as [|stmt [|stmt' rest]]; [split; [done|naive_solver]| |split; [done|naive_solver]].
  rewrite !is_ok_bind_unit, !is_ok_ensure. cbn [length bool_decide negb andb gather_all].
  transitivity (statement_permitted ability stmt && statement_within_caveats caveats stmt = true).
  2: { rewrite andb_true_iff. naive_solver. }
  destruct (gather _ stmt) as [g|e] eqn:Hg.
  - rewrite !bind_ret_l, <- (check_statement caveats ability stmt g) by done. rewrite !is_ok_bind_unit. by rewrite !andb_true_r.
  - by destruct stmt.
Qed.
