(* ===== verification/ShareRead.v ===== *)
(** * Email shares, data plane: tinycloud-core/src/share_email/data_plane.rs

    A read is signed by its holder, authorized by the bridge and answered by one of
    two adapters, over the key-value store or over a named statement, which yield one
    Markdown document.  The stores behind the adapters and the authority behind the
    coordinator are arguments. *)
From S2P Require Import Prelude Str Chars Json SqlCaveat Tables Jcs PolicyCapability Evidence PolicyDelegation PolicyMemory SqlParser ShareTypes ShareInvitation ShareState ShareVerifier ShareRuns.

(** [libp2p]'s Ed25519: key, message, signature; a key that is no point verifies nothing. *)
Class Libp2pVerify := libp2p_verify : string → string → string → bool.

Definition READ_INVOCATION_DOMAIN : string := "xyz.tinycloud.share/read-invocation/v1" +:+ String (char 0) "".
Definition MARKDOWN_MEDIA_TYPE : string := "text/markdown; charset=utf-8".
Definition MARKDOWN_CACHE_CONTROL : string := "no-store".
Definition MAX_READ_TTL : Z := seconds 60.

Inductive DataPlaneError := DpDenied | InvalidProof | DpExpired | DpReplay | InvalidEncoding | Oversized | InvalidSource | InvalidSqlResult | DpStorage.
#[export] Instance DataPlaneError_eq_dec : EqDecision DataPlaneError.
Proof. solve_decision. Defined.

Definition from_port_error (e : PortError) : DataPlaneError :=
  match e with Replay => DpReplay | PortStorage | Unavailable => DpStorage | Denied => DpDenied end.
Definition from_port {A} (r : result PortError A) : result DataPlaneError A := map_err from_port_error r.

Record HolderReadProof := mkHolderReadProof {
  hp_issued_at : Z;
  hp_expires_at : Z;
  hp_jti : string;
  hp_signer : string;
  hp_signature : string;
}.

Record HolderReadRequest := mkHolderReadRequest {
  hq_session : string;
  hq_jti : string;
  hq_scope : ShareScope;
  hq_holder : string;
  hq_body_digest : string;
  hq_proof : HolderReadProof;
}.

Definition authorization (r : HolderReadRequest) : ReadAuthorizationRequest :=
  mkReadAuthorizationRequest (hq_session r) (hq_jti r) (hq_scope r) (hq_holder r) (hq_body_digest r).

Record MarkdownResponse := mkMarkdownResponse {
  mr_document : string;
  mr_body_digest : string;
  mr_credential_digest : string;
  mr_media_type : string;
  mr_cache_control : string;
}.

Record NamedSqlRows := mkNamedSqlRows { nr_columns : list string; nr_rows : list (list SqlValue) }.

Record SqlReadSource := mkSqlReadSource {
  sr_space : string;
  sr_database : string;
  sr_path : string;
  sr_statement : string;
  sr_arguments : list (string * Z);
  sr_arguments_digest : string;
}.

(** [{:03}] of a number below a thousand. *)
Definition pad3 (n : N) : string :=
  String (char (code "0" + n / 100)%N) (String (char (code "0" + n / 10 mod 10)%N) (String (char (code "0" + n mod 10)%N) "")).

Definition all_but_last (s : string) : string := String.substring 0 (String.length s - 1) s.

Section DataPlane.
Context `{Rfc3339} `{ShareTime} `{FloatText} `{Sha256} `{EvidenceLib} `{Libp2pVerify}.

(** ** The signed request *)

(** [timestamp]: milliseconds are written where the text has no fraction. *)
Definition read_timestamp (t : Z) : result DataPlaneError string :=
  rendered ← ok_or (rfc3339_text t) InvalidProof;
  if ends_with_char "Z" rendered && negb (contains_char "." (all_but_last rendered))
  then Ok (all_but_last rendered +:+ "." +:+ pad3 (Z.to_N (t mod 1000000000 / 1000000)) +:+ "Z")
  else Ok rendered.

Definition digest_arguments (arguments : list (string * Z)) : string := sha256_b64 (canonicalize (arguments_value arguments)).

Definition did_key_public_key (did : string) : result DataPlaneError string :=
  encoded ← ok_or (strip_prefix "did:key:" did) InvalidProof;
  bytes ← ok_or (multibase_decode encoded) InvalidProof;
  match string_bytes bytes with
  | (237 :: rest)%N =>
      if (length rest =? 32)%nat then Ok (String.substring 1 32 bytes)
      else match rest with
           | (1 :: rest)%N => if (length rest =? 32)%nat then Ok (String.substring 2 32 bytes) else Err InvalidProof
           | _ => Err InvalidProof
           end
  | _ => Err InvalidProof
  end.

(** The source has the digest of the scope, and action, resource and source are of
    one kind and name the same thing. *)
Definition validate_read_scope (scope : ShareScope) : result DataPlaneError unit :=
  _ ← ensure (bool_decide (sha256_b64 (canonicalize (source_value (sc_source scope))) = sc_source_digest scope)) InvalidSource;
  match sc_action scope, sc_resource scope, sc_source scope with
  | KvGet, KvResource resource_path, KvSource _ path => ensure (bool_decide (resource_path = path)) InvalidSource
  | SqlRead, SqlResource resource_database resource_path resource_statement, SqlSource _ database path statement arguments arguments_digest =>
      ensure (bool_decide (resource_database = database) && bool_decide (resource_path = path) && bool_decide (resource_statement = statement) &&
              bool_decide (digest_arguments arguments = arguments_digest)) InvalidSource
  | _, _, _ => Err InvalidSource
  end.

Definition signed_read_value (r : HolderReadRequest) (issued expires : string) : json :=
  let scope := hq_scope r in
  JObject [("action", JString (action_name (sc_action scope))); ("authorityMaterialDigest", JString (sc_material_digest scope));
           ("authorityMaterialHandle", JString (sc_material_handle scope)); ("contentSource", source_value (sc_source scope));
           ("contentSourceDigest", JString (sc_source_digest scope)); ("delegationCid", JString (default "" (sc_delegation_cid scope)));
           ("expiresAt", JString expires); ("holderDid", JString (hq_holder r)); ("issuedAt", JString issued); ("jti", JString (hq_jti r));
           ("nodeAudience", JString (sc_node_audience scope)); ("policyCid", JString (sc_policy_cid scope));
           ("requestBodyDigest", JString (hq_body_digest r)); ("resource", JString (resource_name (sc_resource scope)));
           ("sessionId", JString (hq_session r)); ("shareCid", JString (sc_share_cid scope)); ("shareId", JString (sc_share_id scope));
           ("targetOrigin", JString (sc_target_origin scope)); ("type", JString "TinyCloudShareReadInvocation"); ("version", JNumber (NInt 1))].

Definition signed_read_bytes (r : HolderReadRequest) : result DataPlaneError string :=
  issued ← read_timestamp (hp_issued_at (hq_proof r));
  expires ← read_timestamp (hp_expires_at (hq_proof r));
  Ok (READ_INVOCATION_DOMAIN +:+ canonicalize (signed_read_value r issued expires)).

Definition verify_request (r : HolderReadRequest) (now : Z) : result DataPlaneError unit :=
  let p := hq_proof r in
  _ ← ensure (bool_decide (hq_jti r = hp_jti p) && bool_decide (hq_holder r = hp_signer p) && (hp_issued_at p <? hp_expires_at p)%Z &&
              (hp_expires_at p - hp_issued_at p <=? MAX_READ_TTL)%Z && (hp_issued_at p <=? now)%Z && (now <? hp_expires_at p)%Z)
        (if (hp_expires_at p <=? now)%Z then DpExpired else InvalidProof);
  _ ← validate_read_scope (hq_scope r);
  key ← did_key_public_key (hp_signer p);
  message ← signed_read_bytes r;
  ensure (libp2p_verify key message (hp_signature p)) InvalidProof.

Definition proof_from_base64 (issued expires : Z) (jti signer signature : string) : result DataPlaneError HolderReadProof :=
  signature ← ok_or (b64url_decode signature) InvalidProof;
  _ ← ensure (bool_decide (String.length signature = 64)) InvalidProof;
  Ok (mkHolderReadProof issued expires jti signer signature).

(** ** Documents *)

Definition markdown_document (bytes : string) : result DataPlaneError string :=
  _ ← ensure (N.of_nat (String.length bytes) <=? MAX_MARKDOWN_BYTES)%N Oversized;
  _ ← ensure (utf8_valid bytes) InvalidEncoding;
  Ok bytes.

Definition document_error (e : DataPlaneError) : PortError := match e with InvalidEncoding | Oversized => Denied | _ => PortStorage end.

Definition response (document expected_source credential_digest : string) : result DataPlaneError MarkdownResponse :=
  _ ← ensure (N.of_nat (String.length document) <=? MAX_MARKDOWN_BYTES)%N Oversized;
  _ ← ensure (utf8_valid document) InvalidEncoding;
  _ ← ensure (negb (is_empty expected_source)) InvalidSource;
  Ok (mkMarkdownResponse document (sha256_b64 document) credential_digest MARKDOWN_MEDIA_TYPE MARKDOWN_CACHE_CONTROL).

(** ** Adapters *)

Definition read_kv (get_exact : string → string → result PortError (option string)) (a : AuthorizedRead) : result PortError string :=
  let scope := ps_scope (ar_session a) in
  match sc_source scope with
  | KvSource space path =>
      _ ← ensure (bool_decide (sc_action scope = KvGet) && bool_decide (sc_resource scope = KvResource path)) Denied;
      found ← get_exact space path;
      bytes ← ok_or found Denied;
      map_err document_error (markdown_document bytes)
  | _ => Err Denied
  end.

Definition read_sql (execute_named : SqlReadSource → PinnedNamedStatement → result PortError NamedSqlRows) (a : AuthorizedRead) : result PortError string :=
  let scope := ps_scope (ar_session a) in
  match sc_source scope with
  | SqlSource space database path statement arguments arguments_digest =>
      _ ← ensure (bool_decide (sc_action scope = SqlRead) && bool_decide (sc_resource scope = SqlResource database path statement) &&
                  bool_decide (statement = match ps_statement (ar_session a) with Some p => st_name (pn_statement p) | None => "" end)) Denied;
      _ ← ensure (bool_decide (digest_arguments arguments = arguments_digest)) Denied;
      pinned ← ok_or (ps_statement (ar_session a)) Denied;
      result ← execute_named (mkSqlReadSource space database path statement arguments arguments_digest) pinned;
      match nr_rows result with
      | [row] =>
          _ ← ensure (bool_decide (nr_columns result = ["markdown"]) && (length row =? 1)%nat) Denied;
          match row with
          | VText markdown :: _ => map_err document_error (markdown_document markdown)
          | _ => Err Denied
          end
      | _ => Err Denied
      end
  | _ => Err Denied
  end.

(** ** The coordinator *)

Definition same_scope_except_delegation (a b : ShareScope) : bool := bool_decide (with_delegation None a = with_delegation None b).

(** [authorize] is the authority's port over its state [S]; the state is the one the
    authority leaves, whatever comes after. *)
Definition read {S} (authorize : ReadAuthorizationRequest → Z → S → result PortError (AuthorizedRead * S))
    (get_exact : string → string → result PortError (option string)) (execute_named : SqlReadSource → PinnedNamedStatement → result PortError NamedSqlRows)
    (r : HolderReadRequest) (now : Z) (s : S) : result DataPlaneError MarkdownResponse * S :=
  match verify_request r now with
  | Err e => (Err e, s)
  | Ok _ =>
      match authorize (authorization r) now s with
      | Err e => (Err (from_port_error e), s)
      | Ok (a, s) =>
          (_ ← ensure (same_scope_except_delegation (ps_scope (ar_session a)) (hq_scope r) && bool_decide (ps_holder (ar_session a) = hq_holder r) &&
                       bool_decide (rr_jti (ar_invocation a) = hq_jti r) && bool_decide (rr_body_digest (ar_invocation a) = hq_body_digest r)) DpDenied;
           document ← from_port (match sc_source (hq_scope r) with
                                 | KvSource _ _ => read_kv get_exact a
                                 | SqlSource _ _ _ _ _ _ => read_sql execute_named a
                                 end);
           response document (sc_source_digest (hq_scope r)) (ps_credential_digest (ar_session a)), s)
      end
  end.

End DataPlane.

(** ** What an answered read says *)

Section Answers.
Context `{Rfc3339} `{ShareTime} `{FloatText} `{Sha256} `{EvidenceLib} `{Libp2pVerify}.

(** Signed by its holder, in its window. *)
Definition signed_in_time (r : HolderReadRequest) (now : Z) : Prop :=
  let p := hq_proof r in
  hp_signer p = hq_holder r ∧ hp_jti p = hq_jti r ∧ (hp_issued_at p ≤ now < hp_expires_at p)%Z ∧ (hp_expires_at p ≤ hp_issued_at p + MAX_READ_TTL)%Z ∧
  ∃ key message, did_key_public_key (hq_holder r) = Ok key ∧ signed_read_bytes r = Ok message ∧ libp2p_verify key message (hp_signature p) = true.

(** Action, resource and source name one thing. *)
Definition one_source (s : ShareScope) : Prop :=
  match sc_source s with
  | KvSource _ path => sc_action s = KvGet ∧ sc_resource s = KvResource path
  | SqlSource _ database path statement arguments digest =>
      sc_action s = SqlRead ∧ sc_resource s = SqlResource database path statement ∧ digest = digest_arguments arguments
  end ∧ sc_source_digest s = sha256_b64 (canonicalize (source_value (sc_source s))).

Lemma validate_read_scope_Ok s : validate_read_scope s = Ok tt → one_source s.
Proof.
  unfold validate_read_scope, one_source. intros Hv. apply bind_Ok in Hv as ([] & Hd%ensure_Ok%bool_decide_eq_true & Hv). split; [|done].
  destruct (sc_action s), (sc_resource s), (sc_source s); try done; apply ensure_Ok in Hv.
  - apply bool_decide_eq_true in Hv as ->. done.
  - rewrite !andb_true_iff, !bool_decide_eq_true in Hv. destruct Hv as [[[-> ->] ->] <-]. done.
Qed.

Lemma verify_request_Ok r now : verify_request r now = Ok tt → signed_in_time r now ∧ one_source (hq_scope r).
Proof.
  unfold verify_request. intros Hv. apply bind_Ok in Hv as ([] & Hg%ensure_Ok & Hv). apply bind_Ok in Hv as ([] & Hs%validate_read_scope_Ok & Hv).
  apply bind_Ok in Hv as (key & Hkey & Hv). apply bind_Ok in Hv as (message & Hm & Hsig%ensure_Ok).
  rewrite !andb_true_iff, !bool_decide_eq_true in Hg. destruct Hg as [[[[[Hj Hh] ?] ?] ?] ?]. split; [|done].
  unfold signed_in_time. rewrite Hh. split_and!; [done|done|lia|lia|lia|]. by exists key, message.
Qed.

Lemma markdown_document_Ok bytes d : markdown_document bytes = Ok d → d = bytes.
Proof. unfold markdown_document. intros Hm. do 2 (apply bind_Ok in Hm as (? & _ & Hm)). by injection Hm. Qed.

Lemma response_Ok document source credential resp :
  response document source credential = Ok resp →
  resp = mkMarkdownResponse document (sha256_b64 document) credential MARKDOWN_MEDIA_TYPE MARKDOWN_CACHE_CONTROL ∧
  (N.of_nat (String.length document) ≤ MAX_MARKDOWN_BYTES)%N ∧ utf8_valid document = true.
Proof.
  unfold response. intros Hr. apply bind_Ok in Hr as (? & Hl%ensure_Ok%N.leb_le & Hr). apply bind_Ok in Hr as (? & Hu%ensure_Ok & Hr).
  apply bind_Ok in Hr as (? & _ & Hr). by injection Hr as <-.
Qed.

(** What the store of the source holds. *)
Definition stored_document (get_exact : string → string → result PortError (option string))
    (execute_named : SqlReadSource → PinnedNamedStatement → result PortError NamedSqlRows) (s : ShareScope) (pinned : option PinnedNamedStatement)
    (document : string) : Prop :=
  match sc_source s with
  | KvSource space path => get_exact space path = Ok (Some document)
  | SqlSource space database path statement arguments digest =>
      ∃ p, pinned = Some p ∧ st_name (pn_statement p) = statement ∧
        execute_named (mkSqlReadSource space database path statement arguments digest) p = Ok (mkNamedSqlRows ["markdown"] [[VText document]])
  end.

Lemma read_kv_Ok get a d : read_kv get a = Ok d → ∃ space path, sc_source (ps_scope (ar_session a)) = KvSource space path ∧ get space path = Ok (Some d).
Proof.
  unfold read_kv. destruct (sc_source _) as [space path|]; [|done]. intros Hr. apply bind_Ok in Hr as (? & _ & Hr).
  apply bind_Ok in Hr as (found & Hf & Hr). apply bind_Ok in Hr as (bytes & Hb%ok_or_Ok & Hr). apply map_err_Ok, markdown_document_Ok in Hr as ->.
  exists space, path. by rewrite Hf, Hb.
Qed.

Lemma read_sql_Ok execute a d :
  read_sql execute a = Ok d →
  ∃ space database path statement arguments digest p, sc_source (ps_scope (ar_session a)) = SqlSource space database path statement arguments digest ∧
    ps_statement (ar_session a) = Some p ∧ st_name (pn_statement p) = statement ∧
    execute (mkSqlReadSource space database path statement arguments digest) p = Ok (mkNamedSqlRows ["markdown"] [[VText d]]).
Proof.
  unfold read_sql. destruct (sc_source _) as [|space database path statement arguments digest]; [done|]. intros Hr.
  apply bind_Ok in Hr as (? & [_ Hname%bool_decide_eq_true]%ensure_Ok%andb_true_iff & Hr). apply bind_Ok in Hr as (? & _ & Hr).
  apply bind_Ok in Hr as (p & Hp%ok_or_Ok & Hr). apply bind_Ok in Hr as ([columns rows] & He & Hr). cbn [nr_rows nr_columns] in Hr.
  destruct rows as [|row [|]]; [done| |done]. apply bind_Ok in Hr as (? & [->%bool_decide_eq_true Hlen%Nat.eqb_eq]%ensure_Ok%andb_true_iff & Hr).
  destruct row as [|[| | |m|] [|]]; try done. apply map_err_Ok, markdown_document_Ok in Hr as ->.
  exists space, database, path, statement, arguments, digest, p. rewrite Hp in Hname. by split_and!.
Qed.

Lemma same_scope_source a b : same_scope_except_delegation a b = true → sc_source a = sc_source b.
Proof. intros Hs%bool_decide_eq_true. by apply (f_equal sc_source) in Hs. Qed.

(** An answered read returns exactly the document of its source.  The request was
    signed by its holder over all its members and is in its window of at most a
    minute; the authority, whichever it is, has authorized that session, holder,
    identifier and scope; the body is what the key-value store holds under the source's
    key, or the one text in the one row of the pinned statement of that name; it is at
    most 1 MiB of valid UTF-8; and the digest, type and cache headers are fixed. *)
Theorem read_answers_source {S} (authorize : ReadAuthorizationRequest → Z → S → result PortError (AuthorizedRead * S)) get_exact execute_named
    (r : HolderReadRequest) (now : Z) (s s' : S) (resp : MarkdownResponse) :
  read authorize get_exact execute_named r now s = (Ok resp, s') →
  signed_in_time r now ∧ one_source (hq_scope r) ∧
  ∃ a, authorize (authorization r) now s = Ok (a, s') ∧ with_delegation None (ps_scope (ar_session a)) = with_delegation None (hq_scope r) ∧
    ps_holder (ar_session a) = hq_holder r ∧ rr_jti (ar_invocation a) = hq_jti r ∧ rr_body_digest (ar_invocation a) = hq_body_digest r ∧
    stored_document get_exact execute_named (hq_scope r) (ps_statement (ar_session a)) (mr_document resp) ∧
    (N.of_nat (String.length (mr_document resp)) ≤ MAX_MARKDOWN_BYTES)%N ∧ utf8_valid (mr_document resp) = true ∧
    resp = mkMarkdownResponse (mr_document resp) (sha256_b64 (mr_document resp)) (ps_credential_digest (ar_session a)) MARKDOWN_MEDIA_TYPE MARKDOWN_CACHE_CONTROL.
Proof.
  unfold read. destruct (verify_request r now) as [[]|] eqn:Hv; [|done]. apply verify_request_Ok in Hv as [Hs Ho].
  destruct (authorize _ _ _) as [[a s1]|] eqn:Ha; [|done]. intros [= Hr <-]. split; [done|]. split; [done|]. exists a. split; [done|].
  apply bind_Ok in Hr as (? & Hg%ensure_Ok & Hr). rewrite !andb_true_iff, !bool_decide_eq_true in Hg. destruct Hg as [[[Hscope ?] ?] ?].
  apply bind_Ok in Hr as (document & Hd%map_err_Ok & Hr). apply response_Ok in Hr as (-> & ? & ?). cbn [mr_document].
  split; [by apply bool_decide_eq_true in Hscope|]. split_and!; try done. unfold stored_document.
  pose proof (same_scope_source _ _ Hscope) as Hsource. rewrite <- Hsource in *. destruct (sc_source (ps_scope (ar_session a))) as [space path|] eqn:Hsrc.
  - apply read_kv_Ok in Hd as (? & ? & Hk & ?). rewrite Hsrc in Hk. by injection Hk as -> ->.
  - apply read_sql_Ok in Hd as (? & ? & ? & ? & ? & ? & p & Hk & ? & ? & ?). rewrite Hsrc in Hk. injection Hk as -> -> -> -> -> ->. by exists p.
Qed.

Lemma signed_value_wf r issued expires : scope_wf (hq_scope r) → wf_json (signed_read_value r issued expires).
Proof.
  intros Hs. apply wf_object. split; [repeat constructor; by vm_compute|].
  repeat (apply Forall_cons; split); try done; cbn [snd]. by apply source_value_wf.
Qed.

Lemma Ok_eq {E A} (x y : A) : Ok (E := E) x = Ok y → x = y.
Proof. by intros [=]. Qed.

Lemma action_name_inj a b : action_name a = action_name b → a = b.
Proof. by destruct a, b. Qed.

Lemma one_source_resource a b : one_source a → one_source b → sc_source a = sc_source b → sc_resource a = sc_resource b.
Proof. unfold one_source. intros [Ha _] [Hb _] Heq. rewrite Heq in Ha. destruct (sc_source b); [by destruct Ha as [_ ->], Hb as [_ ->]|by destruct Ha as (_ & -> & _), Hb as (_ & -> & _)]. Qed.

(** A holder's signature covers the whole request.  Two requests that pass
    verification and have the same signed bytes agree in session, identifier, holder
    and body digest, in every member of their scopes but an absent and an empty
    delegation, and in their times as written. *)
Theorem signed_read_binds (r r' : HolderReadRequest) (now now' : Z) (message : string) :
  verify_request r now = Ok tt → verify_request r' now' = Ok tt → scope_wf (hq_scope r) → scope_wf (hq_scope r') →
  signed_read_bytes r = Ok message → signed_read_bytes r' = Ok message →
  authorization r = mkReadAuthorizationRequest (hq_session r') (hq_jti r') (with_delegation (sc_delegation_cid (hq_scope r)) (hq_scope r')) (hq_holder r') (hq_body_digest r') ∧
  default "" (sc_delegation_cid (hq_scope r)) = default "" (sc_delegation_cid (hq_scope r')) ∧
  read_timestamp (hp_issued_at (hq_proof r)) = read_timestamp (hp_issued_at (hq_proof r')) ∧
  read_timestamp (hp_expires_at (hq_proof r)) = read_timestamp (hp_expires_at (hq_proof r')).
Proof.
  intros [_ Ho]%verify_request_Ok [_ Ho']%verify_request_Ok Hw Hw' Hm Hm'. unfold signed_read_bytes in Hm, Hm'.
  apply bind_Ok in Hm as (i & -> & Hm). apply bind_Ok in Hm as (e & -> & Hm). apply bind_Ok in Hm' as (i' & -> & Hm'). apply bind_Ok in Hm' as (e' & -> & Hm').
  rewrite <- Hm' in Hm. apply Ok_eq, append_inj_l, canonicalize_inj in Hm; [|by apply signed_value_wf..]. clear Hm'.
  unfold signed_read_value in Hm. injection Hm as Ha Hd Hh Hs Hsd Hdel He Hho Hi Hj Hna Hp Hb _ Hse Hsc Hsi Ho1.
  apply source_value_inj in Hs. apply action_name_inj in Ha. pose proof (one_source_resource _ _ Ho Ho' Hs) as Hr. subst.
  split_and!; [|done|done|done]. unfold authorization. rewrite Hse, Hj, Hho, Hb. f_equal. destruct (hq_scope r), (hq_scope r'). unfold with_delegation. cbn in *. congruence.
Qed.

End Answers.

(** ** A read *)

Definition read_verify : Libp2pVerify := λ _ _ s, bool_decide (s = demo_signature).
#[local] Existing Instances demo_table_parse demo_table_clock demo_float run_sha demo_share_lib read_verify.

Definition read_scope : ShareScope :=
  mkShareScope "share" "id" None "amh_1" run_digest run_digest run_audience "https://node.example" KvGet (KvResource "docs/a.md") run_source run_digest.
Definition read_request : HolderReadRequest :=
  mkHolderReadRequest "session" "read" read_scope demo_holder "body" (mkHolderReadProof 10000000000 60000000000 "read" demo_holder demo_signature).

(** An authority that authorizes what it is asked. *)
Definition read_authorize (r : ReadAuthorizationRequest) (now : Z) (n : nat) : result PortError (AuthorizedRead * nat) :=
  Ok (mkAuthorizedRead (mkPolicySession (rr_session r) (rr_scope r) (rr_holder r) run_digest 0 None) r, S n).
Definition read_get (space path : string) : result PortError (option string) :=
  Ok (if decide ((space, path) = (run_space, "docs/a.md")) then Some "# Plan" else None).
Definition read_execute (_ : SqlReadSource) (_ : PinnedNamedStatement) : result PortError NamedSqlRows := Err PortStorage.

Lemma read_answers_source_witness : signed_in_time read_request 10000000000 ∧ read_get run_space "docs/a.md" = Ok (Some "# Plan").
Proof.
  destruct (read_answers_source read_authorize read_get read_execute read_request 10000000000 0 1
    (mkMarkdownResponse "# Plan" run_digest run_digest MARKDOWN_MEDIA_TYPE MARKDOWN_CACHE_CONTROL)) as (Hs & _ & a & _ & _ & _ & _ & _ & Hd & _).
  - vm_compute. reflexivity.
  - split; [exact Hs|exact Hd].
Defined.

Lemma signed_read_binds_witness :
  ∃ message, signed_read_bytes read_request = Ok message ∧
    authorization read_request = mkReadAuthorizationRequest "session" "read" (with_delegation None read_scope) demo_holder "body".
Proof.
  destruct (signed_read_bytes read_request) as [message|e] eqn:Hm; [|vm_compute in Hm; discriminate Hm]. exists message. split; [reflexivity|].
  refine (proj1 (signed_read_binds read_request read_request 10000000000 10000000000 message _ _ I I Hm Hm)); vm_compute; reflexivity.
Defined.

(** The times of a request are read from its text and written again before the
    signature is checked: where the milliseconds end in a zero the text written is
    shorter than the three digits of the text without a fraction, so a holder who
    always signs three digits is refused. *)
Theorem trimmed_fraction_signed :
  read_timestamp 10000000000 = Ok "1970-01-01T00:00:10.000Z" ∧ read_timestamp 10500000000 = Ok "1970-01-01T00:00:10.5Z".
Proof. split; vm_compute; reflexivity. Qed.
