(* ===== verification/SqlAuthorizer.v ===== *)
(** * The SQL authorizer: tinycloud-core/src/sql/authorizer.rs

    SQLite asks the authorizer about every access a statement makes while it
    compiles it, in order; a denial refuses the statement.  [create_authorizer]
    returns a closure with mutable state, modelled as a function from a state and
    a question to an answer and the next state.  The theorems are about every
    sequence of questions: whatever the engine asks, what an ability or a caveat
    does not allow is never allowed. *)
From S2P Require Import Prelude Str Chars Json Registry Tables SqlParser.

(** ** [rusqlite::hooks]: what the engine asks *)

Inductive AuthAction :=
| Unknown
| CreateIndex (index_name table_name : string)
| CreateTable (table_name : string)
| CreateTempIndex (index_name table_name : string)
| CreateTempTable (table_name : string)
| CreateTempTrigger (trigger_name table_name : string)
| CreateTempView (view_name : string)
| CreateTrigger (trigger_name table_name : string)
| CreateView (view_name : string)
| Delete (table_name : string)
| DropIndex (index_name table_name : string)
| DropTable (table_name : string)
| DropTempIndex (index_name table_name : string)
| DropTempTable (table_name : string)
| DropTempTrigger (trigger_name table_name : string)
| DropTempView (view_name : string)
| DropTrigger (trigger_name table_name : string)
| DropView (view_name : string)
| Insert (table_name : string)
| Pragma (pragma_name : string) (pragma_value : option string)
| Read (table_name column_name : string)
| SelectAction
| Transaction (operation : string)
| Update (table_name column_name : string)
| Attach (filename : string)
| Detach (db_name : string)
| AlterTable (db_name table_name : string)
| Reindex (index_name : string)
| Analyze (table_name : string)
| CreateVtable (table_name module_name : string)
| DropVtable (table_name module_name : string)
| Function_ (function_name : string)
| Savepoint (operation savepoint_name : string)
| Recursive_.

Record AuthContext := mkAuthContext { action : AuthAction; database_name : option string }.

Inductive Authorization := Allow | Deny.

#[export] Instance Authorization_eq_dec : EqDecision Authorization.
Proof. solve_decision. Defined.

Definition allow_if (b : bool) : Authorization := if b then Allow else Deny.

(** ** The tables a write may touch *)

Definition can_write_data (ability : string) (is_admin : bool) : bool :=
  is_admin || ability_matches ability "tinycloud.sql/write".

Definition is_sqlite_schema_table (t : string) : bool :=
  bool_decide (t ∈ ["sqlite_master"; "sqlite_schema"; "sqlite_temp_master"; "sqlite_temp_schema"]).

Definition is_schema_tier (ability : string) : bool := bool_decide (resolve_alias ability = "tinycloud.sql/schema").

Definition can_write_table (ability : string) (is_admin : bool) (t : string) : bool :=
  can_write_data ability is_admin || (is_schema_tier ability && is_sqlite_schema_table t).

Inductive SchemaDdlKind := DdlAlterTable | DdlDropIndex | DdlDropTable.
#[export] Instance SchemaDdlKind_eq_dec : EqDecision SchemaDdlKind.
Proof. solve_decision. Defined.

Record SchemaDdlState := mkSchemaDdlState { ds_database : option string; ds_kind : SchemaDdlKind }.

Inductive SchemaDropKind := DropKindTable | DropKindView.
#[export] Instance SchemaDropKind_eq_dec : EqDecision SchemaDropKind.
Proof. solve_decision. Defined.

Record SchemaDropTarget := mkSchemaDropTarget {
  dt_database : option string;
  dt_object : string;
  dt_kind : SchemaDropKind;
}.

Definition schema_ddl_matches_database (db : option string) (st : option SchemaDdlState) (kinds : list SchemaDdlKind) : bool :=
  match st with
  | Some s => bool_decide (ds_database s = db) && bool_decide (ds_kind s ∈ kinds)
  | None => false
  end.

Definition is_sqlite_stat_table (t : string) : bool := bool_decide (t ∈ ["sqlite_stat1"; "sqlite_stat4"]).

Definition can_update_table (ability : string) (is_admin : bool) (db : option string) (t : string)
    (ddl : option SchemaDdlState) : bool :=
  can_write_table ability is_admin t ||
  (is_schema_tier ability && bool_decide (t ∈ ["sqlite_sequence"; "sqlite_stat1"; "sqlite_stat4"]) &&
   schema_ddl_matches_database db ddl [DdlAlterTable]).

Definition can_delete_table (ability : string) (is_admin : bool) (db : option string) (t : string)
    (ddl : option SchemaDdlState) (drop : option SchemaDropTarget) : bool :=
  can_write_table ability is_admin t ||
  (is_schema_tier ability &&
   (match drop with
    | Some target => bool_decide (dt_database target = db) && bool_decide (dt_object target = t)
    | None => false
    end ||
    (bool_decide (t = "sqlite_sequence") &&
     match drop with Some target => bool_decide (dt_kind target = DropKindTable) | None => false end &&
     schema_ddl_matches_database db ddl [DdlDropTable]) ||
    (is_sqlite_stat_table t && schema_ddl_matches_database db ddl [DdlDropIndex; DdlDropTable]))).

(** ** The closure *)

Definition readonly_pragmas : list string :=
  ["table_info"; "table_list"; "table_xinfo"; "database_list"; "index_list"; "index_info"; "foreign_key_list"].

Definition allowed_functions : list string :=
  ["abs"; "changes"; "char"; "coalesce"; "glob"; "hex"; "ifnull"; "iif"; "instr"; "last_insert_rowid"; "length";
   "like"; "likely"; "lower"; "ltrim"; "max"; "min"; "nullif"; "printf"; "quote"; "random"; "randomblob";
   "replace"; "round"; "rtrim"; "sign"; "soundex"; "substr"; "substring"; "total_changes"; "trim"; "typeof";
   "unicode"; "unlikely"; "upper"; "zeroblob";
   "avg"; "count"; "group_concat"; "sum"; "total";
   "date"; "time"; "datetime"; "julianday"; "strftime"; "unixepoch"; "timediff";
   "json"; "json_array"; "json_array_length"; "json_extract"; "json_insert"; "json_object"; "json_patch";
   "json_remove"; "json_replace"; "json_set"; "json_type"; "json_valid"; "json_quote"; "json_group_array";
   "json_group_object"; "json_each"; "json_tree";
   "acos"; "acosh"; "asin"; "asinh"; "atan"; "atan2"; "atanh"; "ceil"; "ceiling"; "cos"; "cosh"; "degrees"; "exp";
   "floor"; "ln"; "log"; "log10"; "log2"; "mod"; "pi"; "pow"; "power"; "radians"; "sin"; "sinh"; "sqrt"; "tan";
   "tanh"; "trunc"].

Definition alter_table_functions : list string :=
  ["sqlite_rename_column"; "sqlite_rename_table"; "sqlite_rename_test"; "sqlite_drop_column"; "sqlite_rename_quotefix"].

(** The captured variables that change. *)
Record AuthState := mkAuthState {
  schema_ddl_authorized : bool;
  schema_ddl_state : option SchemaDdlState;
  schema_drop_target : option SchemaDropTarget;
  alter_table_authorized : bool;
}.

Definition initial_state : AuthState := mkAuthState false None None false.

Section Authorizer.
Context (caveats : option SqlCaveats) (ability : string) (is_admin : bool).

Definition write_caveats (t : string) : bool :=
  match caveats with None => true | Some c => is_write_allowed c && is_table_allowed c t end.
Definition column_caveats (c : string) : bool :=
  match caveats with None => true | Some cv => is_column_allowed cv c end.
Definition read_caveats (t c : string) : bool :=
  match caveats with None => true | Some cv => is_table_allowed cv t && is_column_allowed cv c end.

(** [is_admin || ability_matches(write) || ability_matches(schema)]. *)
Definition can_define : bool :=
  is_admin || ability_matches ability "tinycloud.sql/write" || ability_matches ability "tinycloud.sql/schema".

(** [!is_admin && resolve_alias(ability) == "tinycloud.sql/schema"]. *)
Definition schema_only : bool := negb is_admin && is_schema_tier ability.

(** An allowed definition of the schema, and the state it leaves for the schema
    tier. *)
Definition define (st : AuthState) (ddl : option SchemaDdlState) (drop : option SchemaDropTarget) : Authorization * AuthState :=
  if can_define then
    (Allow, if schema_only
            then mkAuthState true (match ddl with Some d => Some d | None => schema_ddl_state st end)
                   (match drop with Some d => Some d | None => schema_drop_target st end) (alter_table_authorized st)
            else st)
  else (Deny, st).

Definition authorize (st : AuthState) (ctx : AuthContext) : Authorization * AuthState :=
  let db := database_name ctx in
  match action ctx with
  | Attach _ | Detach _ => (Deny, st)
  | Pragma name _ => (allow_if (bool_decide (name ∈ readonly_pragmas) || is_admin), st)
  | Function_ name =>
      (allow_if (bool_decide (name ∈ allowed_functions) ||
                 (alter_table_authorized st && bool_decide (name ∈ alter_table_functions))), st)
  | Read t c =>
      (allow_if (negb (schema_only && negb (schema_ddl_authorized st) && negb (is_sqlite_schema_table t)) &&
                 read_caveats t c), st)
  | Insert t => (allow_if (can_write_table ability is_admin t && write_caveats t), st)
  | Delete t =>
      (allow_if (can_delete_table ability is_admin db t (schema_ddl_state st) (schema_drop_target st) && write_caveats t), st)
  | Update t c =>
      (allow_if (can_update_table ability is_admin db t (schema_ddl_state st) && (write_caveats t && column_caveats c)), st)
  | CreateTable _ | CreateTempTable _ => (allow_if can_define, st)
  | DropTable o | DropTempTable o =>
      define st (Some (mkSchemaDdlState db DdlDropTable)) (Some (mkSchemaDropTarget db o DropKindTable))
  | DropView o | DropTempView o => define st None (Some (mkSchemaDropTarget db o DropKindView))
  | AlterTable d _ =>
      let '(a, st) := define st (Some (mkSchemaDdlState (Some d) DdlAlterTable)) None in
      (a, if bool_decide (a = Allow)
          then mkAuthState (schema_ddl_authorized st) (schema_ddl_state st) (schema_drop_target st) true else st)
  | DropIndex _ _ | DropTempIndex _ _ => define st (Some (mkSchemaDdlState db DdlDropIndex)) None
  | CreateIndex _ _ | CreateTrigger _ _ | DropTrigger _ _ | CreateView _ | CreateTempIndex _ _
  | CreateTempTrigger _ _ | DropTempTrigger _ _ | CreateTempView _ | Reindex _ => define st None None
  | Transaction _ | Savepoint _ _ | SelectAction =>
      (allow_if (negb (schema_only && negb (schema_ddl_authorized st))), st)
  | Unknown | Analyze _ | CreateVtable _ _ | DropVtable _ _ | Recursive_ => (Deny, st)
  end.

(** The answers to a sequence of questions; the engine stops at a denial. *)
Fixpoint authorize_all (st : AuthState) (l : list AuthContext) : bool :=
  match l with
  | [] => true
  | ctx :: l => let '(a, st) := authorize st ctx in bool_decide (a = Allow) && authorize_all st l
  end.

End Authorizer.

(** ** The answers along a sequence *)

Section Traces.
Context (caveats : option SqlCaveats) (ability : string) (is_admin : bool).
Notation auth := (authorize caveats ability is_admin).

Definition state_after (st : AuthState) (l : list AuthContext) : AuthState := fold_left (λ st ctx, (auth st ctx).2) l st.

Lemma authorize_all_split st before ctx after :
  authorize_all caveats ability is_admin st (before ++ ctx :: after) = true →
  (auth (state_after st before) ctx).1 = Allow.
Proof.
  revert st. induction before as [|c before IH]; intros st; cbn [app authorize_all].
  - destruct (auth st ctx) as [a st'] eqn:Ha. cbn [state_after fold_left]. rewrite Ha.
    by intros [Hd%bool_decide_eq_true _]%andb_true_iff.
  - destruct (auth st c) as [a st'] eqn:Ha. intros [_ Hall]%andb_true_iff. cbn [state_after fold_left]. rewrite Ha. by apply IH.
Qed.

Lemma allow_if_Allow b : allow_if b = Allow ↔ b = true.
Proof. by destruct b. Qed.

Lemma define_answer st ddl drop : (define ability is_admin st ddl drop).1 = allow_if (can_define ability is_admin).
Proof. unfold define. by destruct (can_define _ _). Qed.

(** *** Abilities that confer neither write, schema nor admin only read *)

Definition reads_only (a : AuthAction) : bool :=
  match a with
  | Read _ _ | SelectAction | Transaction _ | Savepoint _ _ => true
  | Pragma name _ => bool_decide (name ∈ readonly_pragmas)
  | Function_ name => bool_decide (name ∈ allowed_functions)
  | _ => false
  end.

Lemma read_only_step st ctx :
  can_define ability is_admin = false → alter_table_authorized st = false →
  (auth st ctx).1 = Allow → reads_only (action ctx) = true.
Proof.
  intros Hc Halt Ha. unfold can_define in Hc. apply orb_false_iff in Hc as [[Hadm Hw]%orb_false_iff Hs].
  assert (is_schema_tier ability = false) as Ht.
  { apply bool_decide_eq_false. intros Ht. assert (ability_matches ability "tinycloud.sql/schema" = true); [|congruence].
    apply ability_matches_spec. by rewrite Ht. }
  assert (∀ t, can_write_table ability is_admin t = false) as Hwt.
  { intros t. unfold can_write_table, can_write_data. by rewrite Hadm, Hw, Ht. }
  assert (can_define ability is_admin = false) as Hc by (unfold can_define; by rewrite Hadm, Hw, Hs).
  revert Ha. destruct ctx as [a db]. unfold authorize, can_update_table, can_delete_table.
  destruct a; cbn [action database_name]; rewrite ?define_answer, ?Hwt, ?Ht, ?Hc, ?andb_false_r;
    cbn [fst allow_if andb orb reads_only]; try done.
  - rewrite Hadm, orb_false_r. by intros ?%allow_if_Allow.
  - destruct (define _ _ _ _ _) as [x st'] eqn:Hd. pose proof (define_answer st (Some (mkSchemaDdlState (Some db_name) DdlAlterTable)) None) as Hx.
    rewrite Hd, Hc in Hx. by simpl in *; subst.
  - rewrite Halt. cbn [andb]. rewrite orb_false_r. by intros ?%allow_if_Allow.
Qed.

Lemma no_define_state st l : can_define ability is_admin = false → state_after st l = st.
Proof.
  intros Hc. revert st. induction l as [|ctx l IH]; intros st; [done|]. cbn [state_after fold_left].
  assert ((auth st ctx).2 = st) as Hst; [|by rewrite Hst; apply IH].
  unfold authorize, define. rewrite Hc. by destruct (action ctx).
Qed.

(** *** The caveats hold for every ability *)

Definition within_caveats (a : AuthAction) : bool :=
  match caveats with
  | None => true
  | Some c =>
      match a with
      | Read t k => is_table_allowed c t && is_column_allowed c k
      | Insert t | Delete t => is_write_allowed c && is_table_allowed c t
      | Update t k => is_write_allowed c && is_table_allowed c t && is_column_allowed c k
      | _ => true
      end
  end.

Lemma within_caveats_step st ctx : (auth st ctx).1 = Allow → within_caveats (action ctx) = true.
Proof.
  destruct ctx as [a db]. unfold authorize, within_caveats, write_caveats, read_caveats, column_caveats.
  destruct caveats as [c|]; [|done]. destruct a; cbn [action fst]; try done;
    intros Ha%allow_if_Allow; apply andb_true_iff in Ha as [_ Ha]; try done.
Qed.

(** *** The schema tier changes no rows but those it drops *)

(** The question announces a change of the schema; CREATE TABLE does not count. *)
Definition defines (a : AuthAction) : bool :=
  match a with
  | CreateIndex _ _ | CreateTempIndex _ _ | CreateTempTrigger _ _ | CreateTempView _ | CreateTrigger _ _ | CreateView _
  | DropIndex _ _ | DropTable _ | DropTempIndex _ _ | DropTempTable _ | DropTempTrigger _ _ | DropTempView _
  | DropTrigger _ _ | DropView _ | AlterTable _ _ | Reindex _ => true
  | _ => false
  end.

(** The object a question asks to drop, and the database it is in. *)
Definition dropped (ctx : AuthContext) : option (option string * string) :=
  match action ctx with
  | DropTable o | DropTempTable o | DropView o | DropTempView o => Some (database_name ctx, o)
  | _ => None
  end.

(** The database whose auxiliary tables a question opens. *)
Definition ddl_database (kinds : list SchemaDdlKind) (ctx : AuthContext) : option (option string) :=
  match action ctx with
  | AlterTable d _ => if decide (DdlAlterTable ∈ kinds) then Some (Some d) else None
  | DropIndex _ _ | DropTempIndex _ _ => if decide (DdlDropIndex ∈ kinds) then Some (database_name ctx) else None
  | DropTable _ | DropTempTable _ => if decide (DdlDropTable ∈ kinds) then Some (database_name ctx) else None
  | _ => None
  end.

Record state_explained (before : list AuthContext) (st : AuthState) : Prop := {
  se_ddl : schema_ddl_authorized st = true → ∃ c, c ∈ before ∧ defines (action c) = true;
  se_state : ∀ d, schema_ddl_state st = Some d → ∃ c, c ∈ before ∧ ddl_database [ds_kind d] c = Some (ds_database d);
  se_drop : ∀ t, schema_drop_target st = Some t → ∃ c, c ∈ before ∧ dropped c = Some (dt_database t, dt_object t);
}.

Lemma explained_step before ctx st :
  state_explained before st → state_explained (before ++ [ctx]) (auth st ctx).2.
Proof.
  intros [Hddl Hst Hdrop].
  assert (∀ (P : AuthContext → Prop), (∃ c, c ∈ before ∧ P c) → ∃ c, c ∈ before ++ [ctx] ∧ P c) as Hmono.
  { intros P (c & Hc & HP). exists c. set_solver. }
  assert (state_explained (before ++ [ctx]) st) as Hsame by (split; naive_solver).
  assert (∀ ddl drop, defines (action ctx) = true →
    (∀ d, ddl = Some d → ddl_database [ds_kind d] ctx = Some (ds_database d)) →
    (∀ t, drop = Some t → dropped ctx = Some (dt_database t, dt_object t)) →
    state_explained (before ++ [ctx]) (define ability is_admin st ddl drop).2) as Hdef.
  { intros ddl drop Hd Hk Ht. unfold define. destruct (can_define _ _); [|done]. cbn [snd].
    destruct (schema_only _ _); [|done]. split; cbn.
    - intros _. exists ctx. set_solver.
    - intros d. destruct ddl as [d'|]; [intros [= ->]; exists ctx; set_solver|naive_solver].
    - intros t. destruct drop as [t'|]; [intros [= ->]; exists ctx; set_solver|naive_solver]. }
  unfold authorize. destruct ctx as [a db]. destruct a; cbn [action database_name snd]; try done;
    try (apply Hdef; cbn; [done|naive_solver..]).
  pose proof (Hdef (Some (mkSchemaDdlState (Some db_name) DdlAlterTable)) None eq_refl ltac:(cbn; naive_solver) ltac:(done)) as Hx.
  destruct (define _ _ _ _ _) as [x st'] eqn:Hd. cbn [snd] in *. case_bool_decide; [|done]. by destruct Hx; split.
Qed.

Lemma explained_after before l st :
  state_explained before st → state_explained (before ++ l) (state_after st l).
Proof.
  revert before st. induction l as [|c l IH]; intros before st Hst; [by rewrite app_nil_r|].
  cbn [state_after fold_left]. change (c :: l) with ([c] ++ l). rewrite app_assoc. by apply IH, explained_step.
Qed.

Lemma ddl_matches st before db kinds :
  state_explained before st → schema_ddl_matches_database db (schema_ddl_state st) kinds = true →
  ∃ c, c ∈ before ∧ ddl_database kinds c = Some db.
Proof.
  intros [_ Hst _]. unfold schema_ddl_matches_database. destruct (schema_ddl_state st) as [d|]; [|done].
  intros [Hdb%bool_decide_eq_true Hk%bool_decide_eq_true]%andb_true_iff. destruct (Hst d eq_refl) as (c & Hc & Hd).
  exists c. split; [done|]. revert Hd. unfold ddl_database. subst db.
  destruct (action c); try done; case_decide as Hs; intros [= ->]; apply list_elem_of_singleton in Hs;
    rewrite <- Hs in Hk; by rewrite decide_True.
Qed.

(** What the schema tier may be allowed, given what it was allowed before. *)
Definition schema_confined (before : list AuthContext) (ctx : AuthContext) : Prop :=
  match action ctx with
  | Insert t => is_sqlite_schema_table t = true
  | Update t _ =>
      is_sqlite_schema_table t = true ∨
      t ∈ ["sqlite_sequence"; "sqlite_stat1"; "sqlite_stat4"] ∧
      ∃ c, c ∈ before ∧ ddl_database [DdlAlterTable] c = Some (database_name ctx)
  | Delete t =>
      is_sqlite_schema_table t = true ∨
      (∃ c, c ∈ before ∧ dropped c = Some (database_name ctx, t)) ∨
      t ∈ ["sqlite_sequence"; "sqlite_stat1"; "sqlite_stat4"] ∧
      ∃ c, c ∈ before ∧ ddl_database [DdlDropIndex; DdlDropTable] c = Some (database_name ctx)
  | Read t _ => is_sqlite_schema_table t = true ∨ ∃ c, c ∈ before ∧ defines (action c) = true
  | SelectAction | Transaction _ | Savepoint _ _ => ∃ c, c ∈ before ∧ defines (action c) = true
  | Pragma name _ => name ∈ readonly_pragmas
  | Attach _ | Detach _ | Analyze _ | CreateVtable _ _ | DropVtable _ _ => False
  | _ => True
  end.

Lemma schema_step before st ctx :
  is_admin = false → is_schema_tier ability = true → state_explained before st →
  (auth st ctx).1 = Allow → schema_confined before ctx.
Proof.
  intros Hadm Ht Hst. pose proof Ht as Htier. apply bool_decide_eq_true in Htier.
  assert (ability_matches ability "tinycloud.sql/write" = false) as Hw.
  { apply not_true_is_false. intros Hm. apply leaf_confers in Hm; [|by rewrite Htier]. by rewrite Htier in Hm. }
  assert (∀ t, can_write_table ability is_admin t = is_sqlite_schema_table t) as Hwt.
  { intros t. unfold can_write_table, can_write_data. by rewrite Hadm, Hw, Ht. }
  pose proof (λ db kinds, ddl_matches st before db kinds Hst) as Hddl. destruct Hst as [Hauth _ Hdrop].
  unfold authorize, schema_confined, can_update_table, can_delete_table, schema_only.
  destruct ctx as [a db]. destruct a; cbn [action database_name fst]; try done; rewrite ?Hwt, ?Ht, ?Hadm; cbn [negb andb];
    intros Ha%allow_if_Allow.
  - apply andb_true_iff in Ha as [Ha _]. apply orb_true_iff in Ha as [Ha|Ha]; [by left|right].
    apply orb_true_iff in Ha as [[Ha|Ha]%orb_true_iff|Ha].
    + left. destruct (schema_drop_target st) as [t|] eqn:Htg; [|done].
      apply andb_true_iff in Ha as [<-%bool_decide_eq_true <-%bool_decide_eq_true]. by apply Hdrop.
    + right. apply andb_true_iff in Ha as [[->%bool_decide_eq_true _]%andb_true_iff (c & Hc & Hd)%Hddl].
      split; [set_solver|]. exists c. split; [done|]. revert Hd. unfold ddl_database.
      destruct (action c); try done; repeat case_decide; set_solver.
    + right. apply andb_true_iff in Ha as [Hs%bool_decide_eq_true Hd%Hddl]. split; [set_solver|done].
  - by apply andb_true_iff in Ha as [Ha _].
  - rewrite orb_false_r in Ha. by apply bool_decide_eq_true in Ha.
  - apply andb_true_iff in Ha as [Ha _]. destruct (is_sqlite_schema_table table_name); [by left|right].
    destruct (schema_ddl_authorized st); [by apply Hauth|done].
  - destruct (schema_ddl_authorized st); [by apply Hauth|done].
  - destruct (schema_ddl_authorized st); [by apply Hauth|done].
  - apply andb_true_iff in Ha as [Ha _]. apply orb_true_iff in Ha as [Ha|Ha]; [by left|right].
    apply andb_true_iff in Ha as [Hs%bool_decide_eq_true Hd%Hddl]. by split.
  - destruct (schema_ddl_authorized st); [by apply Hauth|done].
Qed.

End Traces.

(** ** Claims *)

(** An ability that confers neither write, schema nor admin only reads: of a
    statement the engine goes through with, whatever it asks about, nothing asked
    was an insert, update, delete, change of schema, attached database or
    changing pragma. *)
Theorem read_ability_only_reads (caveats : option SqlCaveats) (ability : string) (is_admin : bool) (asked : list AuthContext) :
  can_define ability is_admin = false →
  authorize_all caveats ability is_admin initial_state asked = true →
  ∀ ctx, ctx ∈ asked → reads_only (action ctx) = true.
Proof.
  intros Hc Hall ctx (before & after & ->)%list_elem_of_split. apply authorize_all_split in Hall. rewrite no_define_state in Hall by done. by apply (read_only_step caveats ability is_admin initial_state).
Qed.

Definition demo_read : list AuthContext :=
  [mkAuthContext SelectAction None; mkAuthContext (Read "items" "name") (Some "main"); mkAuthContext (Function_ "lower") None].

Lemma read_ability_only_reads_witness :
  authorize_all None "tinycloud.sql/select" false initial_state demo_read = true ∧
  ∀ ctx, ctx ∈ demo_read → reads_only (action ctx) = true.
Proof.
  split; [by vm_compute|]. apply (read_ability_only_reads None "tinycloud.sql/select" false); by vm_compute.
Defined.

(** The caveats bind every ability, admin included: of a statement the engine
    goes through with, every column read, written and every table written is one
    the caveats allow, and nothing is written under a read-only caveat. *)
Theorem sql_caveats_bind (caveats : SqlCaveats) (ability : string) (is_admin : bool) (asked : list AuthContext) (ctx : AuthContext) :
  authorize_all (Some caveats) ability is_admin initial_state asked = true → ctx ∈ asked →
  match action ctx with
  | Read t k => is_table_allowed caveats t = true ∧ is_column_allowed caveats k = true
  | Insert t | Delete t => is_write_allowed caveats = true ∧ is_table_allowed caveats t = true
  | Update t k => is_write_allowed caveats = true ∧ is_table_allowed caveats t = true ∧ is_column_allowed caveats k = true
  | _ => True
  end.
Proof.
  intros Hall (before & after & ->)%list_elem_of_split.
  apply authorize_all_split, within_caveats_step in Hall. revert Hall. unfold within_caveats.
  destruct (action ctx); try done; rewrite !andb_true_iff; tauto.
Qed.

Lemma sql_caveats_bind_witness :
  is_table_allowed (mkSqlCaveats (Some ["items"]) None None None) "items" = true ∧
  is_column_allowed (mkSqlCaveats (Some ["items"]) None None None) "name" = true.
Proof.
  apply (sql_caveats_bind (mkSqlCaveats (Some ["items"]) None None None) "tinycloud.sql/admin" true demo_read
           (mkAuthContext (Read "items" "name") (Some "main"))); [by vm_compute|]. right. left.
Defined.

(** C21: the schema tier changes no data but what it drops: along every statement
    the engine goes through with, rows are inserted only into the schema tables,
    updated there or in the auxiliary tables of a database being altered, deleted
    there, from the object that the same statement drops or from the auxiliary
    tables of that database, and rows of other tables are read only once a change
    of the schema other than CREATE TABLE was announced. *)
Theorem schema_tier_confined (caveats : option SqlCaveats) (ability : string) (before after : list AuthContext) (ctx : AuthContext) :
  resolve_alias ability = "tinycloud.sql/schema" →
  authorize_all caveats ability false initial_state (before ++ ctx :: after) = true →
  schema_confined before ctx.
Proof.
  intros Ht Hall%authorize_all_split. eapply schema_step; [done|by apply bool_decide_eq_true| |done].
  apply (explained_after caveats ability false []). by split.
Qed.

Definition demo_drop : list AuthContext :=
  [mkAuthContext (DropTable "items") (Some "main"); mkAuthContext (Delete "sqlite_master") (Some "main")].

Lemma schema_tier_confined_witness : schema_confined demo_drop (mkAuthContext (Delete "items") (Some "main")).
Proof.
  apply (schema_tier_confined None "tinycloud.sql/schema" demo_drop []); by vm_compute.
Defined.
