(* ===== verification/SqlService.v ===== *)
(** * The SQL service: tinycloud-core/src/sql/{database,storage,service}.rs

    Each database of a space has an actor that owns a SQLite connection and runs
    one request at a time; the service starts actors, routes requests to them,
    and after a write exports the database and saves it as an artifact (Artifacts).
    An actor ends after five idle minutes or by a panic, at any moment between two
    messages: [Fate] says what happens to it before a message is sent.

    The engine is the class [Sqlite].  Its connections are in autocommit mode; the
    file system does not fail; the backend of the artifacts may ([env_save]).  A
    statement is compiled under the authorizer installed on the connection. *)
From S2P Require Import Prelude Str Chars Json Identity Resource Registry Tables Storage Chain Tokens Demo Artifacts SqlParser SqlAuthorizer.

Notation Row := (list SqlValue) (only parsing).

(** [rusqlite]: [compile] gives what preparing a text asks the authorizer, in order,
    and then the names of its columns or an error; [query_rows] the answers of
    successive calls of [Rows::next] (or the error of binding the parameters);
    [query_after] the connection after that many calls; [open_file] and
    [export_db] read and write a database file. *)
Class Sqlite := {
  Conn : Type;
  open_in_memory : Conn;
  open_file : string → Conn;
  export_db : Conn → string;
  page_bytes : Conn → N;
  compile : Conn → string → list AuthContext * result string (list string);
  denied : Conn → string → string;
  query_rows : Conn → string → list SqlValue → result string (list (result string Row));
  query_after : Conn → string → list SqlValue → nat → Conn;
  execute_sql : Conn → string → list SqlValue → result string unit * Conn;
  execute_batch_sql : Conn → string → result string unit * Conn;
  changes : Conn → N;
  last_insert_rowid : Conn → Z;
}.

(** [serde_json] of the names of columns and of a row. *)
Class RowJson := {
  columns_json : list string → string;
  row_json : Row → string;
}.

Record QueryResponse := mkQueryResponse { qr_columns : list string; qr_rows : list Row; qr_row_count : N }.
Record ExecuteResponse := mkExecuteResponse { er_changes : N; er_last_insert_row_id : option Z }.

Inductive SqlResponse :=
| QueryAnswer (q : QueryResponse)
| ExecuteAnswer (e : ExecuteResponse)
| BatchAnswer (l : list ExecuteResponse).

Record SqlExecutionResult := mkSqlExecutionResult { response : SqlResponse; res_targets : list TouchedTables }.

(** ** The text of an answer *)

Definition quoted (s : string) : string := String (char 34) s +:+ String (char 34) "".

(** The elements of a JSON array. *)
Fixpoint comma_separated (l : list string) : string :=
  match l with
  | [] => ""
  | [x] => x
  | x :: l => x +:+ "," +:+ comma_separated l
  end.

Definition response_json `{RowJson} (q : QueryResponse) : string :=
  "{" +:+ quoted "columns" +:+ ":" +:+ columns_json (qr_columns q) +:+ "," +:+ quoted "rows" +:+ ":[" +:+
  comma_separated (row_json <$> qr_rows q) +:+ "]," +:+ quoted "rowCount" +:+ ":" +:+ fmt_u64 (qr_row_count q) +:+ "}".

Definition size_of_text (s : string) : N := N.of_nat (String.length s).

(** ** Queries (database.rs) *)

Definition MAX_RESPONSE_SIZE : N := 10 * 1024 * 1024.
Definition MAX_BOUNDED_QUERY_ROWS : N := 1000.
Definition MAX_BOUNDED_QUERY_BYTES : N := 4 * 1024 * 1024.

Definition validate_query_limits (max_rows max_bytes : option N) : result SqlError unit :=
  let outside (o : option N) (m : N) := match o with Some v => (v =? 0)%N || (m <? v)%N | None => false end in
  _ ← ensure (negb (outside max_rows MAX_BOUNDED_QUERY_ROWS)) (EInvalidStatement "maxRows must be between 1 and 1000");
  ensure (negb (outside max_bytes MAX_BOUNDED_QUERY_BYTES)) (EInvalidStatement "maxBytes must be between 1 and 4194304").

(** [create_authorizer]: what the closure captures; it starts in [initial_state]. *)
Record Authorizer := mkAuthorizer { au_caveats : option SqlCaveats; au_ability : string; au_admin : bool }.

Definition allows (a : Authorizer) (asked : list AuthContext) : bool :=
  authorize_all (au_caveats a) (au_ability a) (au_admin a) initial_state asked.

Section Database.
Context `{!Sqlite} `{RowJson} `{SqlParse}.

(** [conn.prepare(sql)] with an authorizer. *)
Definition prepare (a : Authorizer) (c : Conn) (sql : string) : result string (list string) :=
  let '(asked, r) := compile c sql in if allows a asked then r else Err (denied c sql).

(** The loop over the rows: the rows, and how often [next] was called. *)
Fixpoint fetch_rows (response_limit : N) (max_rows : option N) (answers : list (result string Row)) (rows : list Row) (size : N)
    : result SqlError (list Row) * nat :=
  match answers with
  | [] => (Ok rows, 1)
  | Err e :: _ => (Err (ESqlite e), 1)
  | Ok row :: answers =>
      let n := N.of_nat (length rows) in
      if (match max_rows with Some limit => (limit <=? n)%N | None => false end) then (Err (EResponseTooLarge size), 1)
      else
        let size := (size + (size_of_text (row_json row) + (if decide (rows = []) then 0 else 1) +
                     size_of_text (fmt_u64 (n + 1)) - size_of_text (fmt_u64 n)))%N in
        if (response_limit <? size)%N then (Err (EResponseTooLarge size), 1)
        else let '(r, k) := fetch_rows response_limit max_rows answers (rows ++ [row]) size in (r, S k)
  end.

Definition too_large (limit : N) (q : QueryResponse) : result SqlError unit :=
  let size := size_of_text (response_json q) in ensure (negb (limit <? size)%N) (EResponseTooLarge size).

Definition execute_query (a : Authorizer) (c : Conn) (sql : string) (params : list SqlValue) (max_rows max_bytes : option N)
    : result SqlError QueryResponse * Conn :=
  match validate_query_limits max_rows max_bytes with
  | Err e => (Err e, c)
  | Ok _ =>
      match map_err ESqlite (prepare a c sql) with
      | Err e => (Err e, c)
      | Ok columns =>
          let response_limit := default MAX_RESPONSE_SIZE max_bytes in
          let empty := mkQueryResponse columns [] 0 in
          match too_large response_limit empty, map_err ESqlite (query_rows c sql params) with
          | Err e, _ | Ok _, Err e => (Err e, c)
          | Ok _, Ok answers =>
              let '(r, calls) := fetch_rows response_limit max_rows answers [] (size_of_text (response_json empty)) in
              (rows ← r;
               let q := mkQueryResponse columns rows (N.of_nat (length rows)) in
               _ ← too_large response_limit q;
               Ok q, query_after c sql params calls)
          end
      end
  end.

Definition execute_statement (a : Authorizer) (c : Conn) (sql : string) (params : list SqlValue) (is_insert : bool)
    : result SqlError ExecuteResponse * Conn :=
  match map_err ESqlite (prepare a c sql) with
  | Err e => (Err e, c)
  | Ok _ =>
      let '(r, c) := execute_sql c sql params in
      (_ ← map_err ESqlite r; Ok (mkExecuteResponse (changes c) (if is_insert then Some (last_insert_rowid c) else None)), c)
  end.

Definition execute_batch (a : Authorizer) (c : Conn) (sql : string) : result SqlError unit * Conn :=
  match map_err ESchemaError (prepare a c sql) with
  | Err e => (Err e, c)
  | Ok _ => let '(r, c) := execute_batch_sql c sql in (map_err ESchemaError r, c)
  end.

Definition is_query_statement (p : ParsedQuery) : bool :=
  match pq_statements p with [SQuery _] => true | _ => false end.
Definition is_insert_statement (p : ParsedQuery) : bool :=
  match pq_statements p with [SInsert _] => true | _ => false end.

End Database.

(** ** One message (database.rs) *)

(** The connection and the authorizer installed on it. *)
Record Live `{!Sqlite} := mkLive { conn : Conn; installed : option Authorizer }.
Arguments mkLive {_}.

Section Message.
Context `{!Sqlite} `{RowJson} `{SqlParse}.

(** [conn.authorizer(Some(auth))], a call, [conn.authorizer(None)]. *)
Definition under {A} (a : Authorizer) (l : Live) (f : Authorizer → Conn → result SqlError A * Conn) : result SqlError A * Live :=
  let '(r, c) := f a (conn l) in (r, mkLive c None).

(** The schema statements of an execute request; a failure returns before the
    authorizer is taken off again. *)
Fixpoint run_schema (a : Authorizer) (l : Live) (targets : list TouchedTables) (stmts : list string)
    : result SqlError (list TouchedTables) * Live :=
  match stmts with
  | [] => (Ok targets, l)
  | sql :: stmts =>
      match validate_sql sql (au_caveats a) (au_ability a) with
      | Err e => (Err e, l)
      | Ok parsed =>
          match execute_batch a (conn l) sql with
          | (Err e, c) => (Err e, mkLive c (Some a))
          | (Ok _, c) => run_schema a (mkLive c None) (targets ++ write_targets parsed) stmts
          end
      end
  end.

(** The second loop of a batch. *)
Fixpoint run_batch (a : Authorizer) (l : Live) (stmts : list (SqlStatement * bool)) (results : list ExecuteResponse)
    : result SqlError (list ExecuteResponse) * Live :=
  match stmts with
  | [] => (Ok results, l)
  | (stmt, is_insert) :: stmts =>
      match under a l (λ a c, execute_statement a c (ss_sql stmt) (ss_params stmt) is_insert) with
      | (Err e, l) => (Err e, l)
      | (Ok r, l) => run_batch a l stmts (results ++ [r])
      end
  end.

Definition handle_message (l : Live) (request : SqlRequest) (caveats : option SqlCaveats) (ability : string)
    : result SqlError SqlExecutionResult * Live :=
  let a := mkAuthorizer caveats ability (ability_matches ability "tinycloud.sql/admin") in
  match request with
  | RQuery sql params max_rows max_bytes =>
      match validate_sql sql caveats ability with
      | Err e => (Err e, l)
      | Ok parsed =>
          let '(r, l) := under a l (λ a c, execute_query a c sql params max_rows max_bytes) in
          (q ← r; Ok (mkSqlExecutionResult (QueryAnswer q) (write_targets parsed)), l)
      end
  | RExecute sql params schema =>
      match run_schema a l [] (default [] schema) with
      | (Err e, l) => (Err e, l)
      | (Ok targets, l) =>
          match validate_sql sql caveats ability with
          | Err e => (Err e, l)
          | Ok parsed =>
              let '(r, l) := under a l (λ a c, execute_statement a c sql params (is_insert_statement parsed)) in
              (e ← r; Ok (mkSqlExecutionResult (ExecuteAnswer e) (targets ++ write_targets parsed)), l)
          end
      end
  | RBatch stmts =>
      match try_map (λ s, validate_sql (ss_sql s) caveats ability) stmts with
      | Err e => (Err e, l)
      | Ok parsed =>
          let '(r, l) := run_batch a l (zip stmts (is_insert_statement <$> parsed)) [] in
          (results ← r; Ok (mkSqlExecutionResult (BatchAnswer results) (concat (write_targets <$> parsed))), l)
      end
  | RExecuteStatement name params =>
      match (c ← ok_or caveats (EInvalidStatement "No caveats found");
             prepared ← ok_or (find_prepared c name) (EInvalidStatement ("Statement '" +:+ name +:+ "' not found"));
             parsed ← validate_sql (ps_sql prepared) caveats ability;
             Ok (ps_sql prepared, parsed)) with
      | Err e => (Err e, l)
      | Ok (sql, parsed) =>
          let '(r, l) :=
            under a l (λ a c,
              if is_query_statement parsed
              then let '(r, c) := execute_query a c sql params None None in (QueryAnswer <$> r, c)
              else let '(r, c) := execute_statement a c sql params (is_insert_statement parsed) in (ExecuteAnswer <$> r, c)) in
          (x ← r; Ok (mkSqlExecutionResult x (write_targets parsed)), l)
      end
  | RExport => (Err (EInternal "Export should be handled by service"), l)
  end.

End Message.

(** ** Actors and the service (database.rs, storage.rs, service.rs) *)

Notation DbKey := (string * string)%type (only parsing).

(** [StorageMode]: the file's name is the key's. *)
Inductive StorageMode := InMemory | File.

Record Actor `{!Sqlite} := mkActor { ac_live : Live; ac_mode : StorageMode }.
Arguments mkActor {_}.

(** What becomes of an actor before the next message reaches it: an idle actor
    takes its entry out of the map, one that panicked leaves it there. *)
Inductive Fate := Stays | Idles | Panics.

Section Service.
Context `{!Sqlite} `{RowJson} `{SqlParse} `{Blake3} `{CidLib} (memory_threshold : N).

(** [databases] holds the handles, [None] when the actor behind it has ended;
    [cache] the database files; [artifacts] the durable rows and their sizes. *)
Record SqlService := mkSqlService {
  databases : gmap DbKey (option Actor);
  cache : gmap DbKey string;
  artifacts : Artifacts * SqlSizes;
}.

Definition set_databases (d : gmap DbKey (option Actor)) (s : SqlService) : SqlService := mkSqlService d (cache s) (artifacts s).
Definition set_cache (c : gmap DbKey string) (s : SqlService) : SqlService := mkSqlService (databases s) c (artifacts s).

Definition durable_payload (s : SqlService) (key : DbKey) : option string :=
  a_payload <$> load (artifacts s).1 "sql" key.1 key.2.

(** [spawn_actor]: the actor opens the file if there is one. *)
Definition spawn_actor (s : SqlService) (key : DbKey) : Actor :=
  match cache s !! key with
  | Some file => mkActor (mkLive (open_file file) None) File
  | None => mkActor (mkLive open_in_memory None) InMemory
  end.

Definition hydrate_cache (s : SqlService) (key : DbKey) : SqlService :=
  match durable_payload s key with
  | Some payload => set_cache (<[key := payload]> (cache s)) s
  | None => set_cache (delete key (cache s)) s
  end.

(** [SqlService::handle]: an entry of the map, whether its actor lives or not. *)
Definition handle (s : SqlService) (key : DbKey) : SqlService :=
  match databases s !! key with
  | Some _ => s
  | None => let s := hydrate_cache s key in set_databases (<[key := Some (spawn_actor s key)]> (databases s)) s
  end.

(** An actor ends; a file keeps what was written to it. *)
Definition end_actor (f : Fate) (s : SqlService) (key : DbKey) : SqlService :=
  match f, databases s !! key with
  | Stays, _ | _, (None | Some None) => s
  | _, Some (Some a) =>
      let s := match ac_mode a with
               | File => set_cache (<[key := export_db (conn (ac_live a))]> (cache s)) s
               | InMemory => s
               end in
      set_databases (match f with Idles => delete key (databases s) | _ => <[key := None]> (databases s) end) s
  end.

(** [storage::database_size] reads two pragmas through the connection, under the
    authorizer if one is installed. *)
Definition database_size (l : Live) : result unit N :=
  match installed l with
  | None => Ok (page_bytes (conn l))
  | Some a =>
      if allows a [mkAuthContext (Pragma "page_count" None) None] && allows a [mkAuthContext (Pragma "page_size" None) None]
      then Ok (page_bytes (conn l)) else Err tt
  end.

(** The actor's answer to an execute message: the request, then the promotion of
    a grown in-memory database to a file. *)
Definition actor_execute (a : Actor) (request : SqlRequest) (caveats : option SqlCaveats) (ability : string)
    : result SqlError SqlExecutionResult * Actor :=
  let '(r, l) := handle_message (ac_live a) request caveats ability in
  let promote := is_ok r && match ac_mode a with InMemory => true | File => false end &&
                 match database_size l with Ok size => (memory_threshold <? size)%N | Err _ => false end in
  (r, if promote then mkActor (mkLive (open_file (export_db (conn l))) None) File else mkActor l (ac_mode a)).

(** [DatabaseHandle::execute] and [export] of the handle of a key. *)
Definition not_available : SqlError := EInternal "Database actor not available".

Definition send_execute (s : SqlService) (key : DbKey) (request : SqlRequest) (caveats : option SqlCaveats) (ability : string)
    : option (result SqlError SqlExecutionResult * SqlService) :=
  match databases s !! key with
  | Some (Some a) =>
      let '(r, a) := actor_execute a request caveats ability in
      Some (r, set_databases (<[key := Some a]> (databases s)) s)
  | _ => None
  end.

Definition send_export (s : SqlService) (key : DbKey) : option string :=
  match databases s !! key with Some (Some a) => Some (export_db (conn (ac_live a))) | _ => None end.

Definition discard_local_state (s : SqlService) (key : DbKey) : SqlService :=
  mkSqlService (delete key (databases s)) (delete key (cache s)) (artifacts s).

(** What the environment does during a call: the actor's fate before each of the
    three messages, the failure of the artifact backend, the clock. *)
Record Env := mkEnv {
  env_send : Fate;
  env_resend : Fate;
  env_export : Fate;
  env_save : option string;
  env_now : string;
}.

Definition save_artifact (env : Env) (s : SqlService) (key : DbKey) (payload : string) : result SqlError SqlService :=
  match env_save env with
  | Some e => Err (EInternal e)
  | None =>
      '(_, arts) ← map_err (λ _, EInternal "artifact payload too large")
                     (tracked_save (env_now env) (artifacts s) "sql" key.1 key.2 payload);
      Ok (mkSqlService (databases s) (cache s) arts)
  end.

(** The request reaches an actor, a fresh one if the handle was stale. *)
Definition route_request (env : Env) (s : SqlService) (key : DbKey) (request : SqlRequest) (caveats : option SqlCaveats)
    (ability : string) : result SqlError SqlExecutionResult * SqlService :=
  let s := end_actor (env_send env) (handle s key) key in
  match send_execute s key request caveats ability with
  | Some answer => answer
  | None =>
      let s := handle (set_databases (delete key (databases s)) s) key in
      let s := end_actor (env_resend env) s key in
      match send_execute s key request caveats ability with
      | Some answer => answer
      | None => (Err not_available, s)
      end
  end.

(** [SqlService::execute]. *)
Definition service_execute (env : Env) (s : SqlService) (space : SpaceId) (db_name : string) (request : SqlRequest)
    (caveats : option SqlCaveats) (ability : string) : result SqlError SqlExecutionResult * SqlService :=
  let key := (space_to_string space, db_name) in
  match route_request env s key request caveats ability with
  | (Err e, s) => (Err e, s)
  | (Ok res, s) =>
      match res_targets res with
      | [] => (Ok res, s)
      | _ :: _ =>
          let s := end_actor (env_export env) s key in
          match send_export s key with
          | None => (Err not_available, discard_local_state s key)
          | Some payload =>
              match save_artifact env s key payload with
              | Err e => (Err e, discard_local_state s key)
              | Ok s => (Ok res, s)
              end
          end
      end
  end.

(** [SqlService::export]. *)
Definition service_export (fate : Fate) (s : SqlService) (space : SpaceId) (db_name : string)
    : result SqlError string * SqlService :=
  let key := (space_to_string space, db_name) in
  let s := end_actor fate s key in
  match send_export s key with
  | Some payload => (Ok payload, s)
  | None =>
      let s := set_databases (delete key (databases s)) s in
      match durable_payload s key with
      | Some payload => (Ok payload, set_cache (<[key := payload]> (cache s)) s)
      | None => (Err EDatabaseNotFound, s)
      end
  end.

Definition db_name_from_path (path : option string) : string :=
  match path with Some p => List.last (split_char "/" p) "default" | None => "default" end.

End Service.

(** ** The size of an answer *)

Lemma dec_go_length_mono fuel n m acc acc' :
  (n ≤ m)%N → String.length acc = String.length acc' → String.length (dec_go fuel n acc) ≤ String.length (dec_go fuel m acc').
Proof.
  revert n m acc acc'. induction fuel as [|fuel IH]; intros n m acc acc' Hnm Hacc; cbn [dec_go]; [lia|].
  pose proof (N.Div0.div_le_mono n m 10 Hnm) as Hdiv.
  destruct (N.ltb_spec n 10), (N.ltb_spec m 10); cbn [String.length]; try lia.
  - clear IH. assert (∀ f k a, String.length a ≤ String.length (dec_go f k a)) as Hg.
    { induction f as [|f IH]; intros k a; cbn [dec_go]; [done|]. destruct (k <? 10)%N; cbn [String.length]; [lia|].
      etrans; [|apply IH]. cbn [String.length]. lia. }
    etrans; [|apply Hg]. cbn [String.length]. lia.
  - apply IH; [done|]. cbn [String.length]. lia.
Qed.

Lemma fmt_u64_mono n m : (n ≤ m)%N → (size_of_text (fmt_u64 n) ≤ size_of_text (fmt_u64 m))%N.
Proof. intros Hnm. unfold size_of_text, fmt_u64. pose proof (dec_go_length_mono 20 n m "" "" Hnm eq_refl). lia. Qed.

Lemma size_of_text_app s t : size_of_text (s +:+ t) = (size_of_text s + size_of_text t)%N.
Proof. unfold size_of_text. rewrite length_append. lia. Qed.

Lemma comma_separated_snoc l x :
  comma_separated (l ++ [x]) = comma_separated l +:+ (if decide (l = []) then "" else ",") +:+ x.
Proof.
  induction l as [|y l IH]; [done|]. destruct l as [|z l]; [done|].
  change (comma_separated ((y :: z :: l) ++ [x])) with (y +:+ "," +:+ comma_separated ((z :: l) ++ [x])).
  rewrite IH, !decide_False by done. change (comma_separated (y :: z :: l)) with (y +:+ "," +:+ comma_separated (z :: l)).
  by rewrite !append_assoc.
Qed.

Section Sizes.
Context `{!Sqlite} `{RowJson} `{SqlParse}.

Definition full_response (columns : list string) (rows : list Row) : QueryResponse :=
  mkQueryResponse columns rows (N.of_nat (length rows)).

Lemma response_size_snoc columns rows row :
  size_of_text (response_json (full_response columns (rows ++ [row]))) =
  (size_of_text (response_json (full_response columns rows)) +
   (size_of_text (row_json row) + (if decide (rows = []) then 0 else 1) +
    size_of_text (fmt_u64 (N.of_nat (length rows) + 1)) - size_of_text (fmt_u64 (N.of_nat (length rows)))))%N.
Proof.
  pose proof (fmt_u64_mono (N.of_nat (length rows)) (N.of_nat (length rows) + 1) ltac:(lia)) as Hd.
  unfold response_json, full_response. cbn [qr_columns qr_rows qr_row_count].
  rewrite fmap_app. change (row_json <$> [row]) with [row_json row]. rewrite comma_separated_snoc, length_app. cbn [length].
  replace (N.of_nat (length rows + 1)) with (N.of_nat (length rows) + 1)%N by lia.
  rewrite !size_of_text_app.
  assert (size_of_text (if decide (row_json <$> rows = []) then "" else ",") = if decide (rows = []) then 0%N else 1%N) as Hc.
  { destruct rows; by vm_compute. }
  rewrite Hc. lia.
Qed.

Lemma response_size_mono columns rows more :
  (size_of_text (response_json (full_response columns rows)) ≤ size_of_text (response_json (full_response columns (rows ++ more))))%N.
Proof.
  revert rows. induction more as [|row more IH]; intros rows; [by rewrite app_nil_r|].
  change (row :: more) with ([row] ++ more). rewrite app_assoc. etrans; [|apply IH].
  rewrite response_size_snoc. lia.
Qed.

Definition fits (limit : N) (max_rows : option N) (q : QueryResponse) : bool :=
  (size_of_text (response_json q) <=? limit)%N &&
  match max_rows with Some m => (N.of_nat (length (qr_rows q)) <=? m)%N | None => true end.

Lemma fetch_rows_exact limit max_rows columns rows more :
  (size_of_text (response_json (full_response columns rows)) ≤ limit)%N →
  match max_rows with Some m => (N.of_nat (length rows) ≤ m)%N | None => True end →
  ∃ k, if fits limit max_rows (full_response columns (rows ++ more))
       then fetch_rows limit max_rows (Ok <$> more) rows (size_of_text (response_json (full_response columns rows))) = (Ok (rows ++ more), k)
       else ∃ n, fetch_rows limit max_rows (Ok <$> more) rows (size_of_text (response_json (full_response columns rows))) = (Err (EResponseTooLarge n), k).
Proof.
  revert rows. induction more as [|row more IH]; intros rows Hsize Hrows; cbn [fmap list_fmap fetch_rows].
  { exists 1. rewrite app_nil_r. replace (fits _ _ _) with true; [done|]. symmetry. unfold fits. rewrite andb_true_iff. split; [by apply N.leb_le|].
    destruct max_rows; [by apply N.leb_le|done]. }
  rewrite <- response_size_snoc.
  destruct (match max_rows with Some m => (m <=? N.of_nat (length rows))%N | None => false end) eqn:Hm.
  { exists 1. replace (fits _ _ _) with false; [by eauto|]. symmetry. unfold fits. destruct max_rows as [m|]; [|done].
    apply N.leb_le in Hm. apply andb_false_iff. right. apply N.leb_gt. cbn [qr_rows full_response]. rewrite length_app. simpl. lia. }
  change (row :: more) with ([row] ++ more). rewrite app_assoc.
  destruct (N.ltb_spec limit (size_of_text (response_json (full_response columns (rows ++ [row]))))) as [Hl|Hl].
  { exists 1. replace (fits _ _ _) with false; [by eauto|]. symmetry. unfold fits. apply andb_false_iff. left. apply N.leb_gt.
    eapply N.lt_le_trans; [exact Hl|]. apply response_size_mono. }
  destruct (IH (rows ++ [row]) Hl) as (k & Hk).
  { destruct max_rows as [m|]; [|done]. apply N.leb_gt in Hm. rewrite length_app. simpl. lia. }
  exists (S k). destruct (fits _ _ _); [by rewrite Hk|]. destruct Hk as (n & ->). by exists n.
Qed.

(** A query's answer is complete or refused, and never larger than allowed:
    when the statement compiles and its rows arrive, the answer holds all of them
    exactly if they are no more than the requested number and the JSON text of
    the answer is within the byte limit, which the running count of the loop
    decides as the serialized answer would; otherwise the response is too large. *)
Theorem query_answer_exact (a : Authorizer) (c : Conn) (sql : string) (params : list SqlValue) (max_rows max_bytes : option N)
    (columns : list string) (rows : list Row) :
  validate_query_limits max_rows max_bytes = Ok tt → prepare a c sql = Ok columns → query_rows c sql params = Ok (Ok <$> rows) →
  let q := full_response columns rows in
  if fits (default MAX_RESPONSE_SIZE max_bytes) max_rows q
  then (execute_query a c sql params max_rows max_bytes).1 = Ok q
  else ∃ n, (execute_query a c sql params max_rows max_bytes).1 = Err (EResponseTooLarge n).
Proof.
  intros Hlim Hprep Hrows. cbv zeta. unfold execute_query. rewrite Hlim, Hprep, Hrows. cbn [map_err].
  set (limit := default _ _). change (mkQueryResponse columns [] 0) with (full_response columns []). unfold too_large at 1 3.
  pose proof (response_size_mono columns [] rows) as Hmono. cbn [app] in Hmono.
  destruct (N.ltb_spec limit (size_of_text (response_json (full_response columns [])))) as [Hl|Hl]; cbn [negb ensure].
  { replace (fits _ _ _) with false by (symmetry; unfold fits; apply andb_false_iff; left; apply N.leb_gt; lia). by eauto. }
  destruct (fetch_rows_exact limit max_rows columns [] rows Hl) as (k & Hk); [destruct max_rows; [simpl; lia|done]|].
  cbn [app] in Hk. destruct (fits limit max_rows (full_response columns rows)) eqn:Hf.
  - rewrite Hk. cbn [fst]. rewrite bind_ret_l. fold (full_response columns rows). unfold too_large.
    unfold fits in Hf. apply andb_true_iff in Hf as [Hs%N.leb_le _]. destruct (N.ltb_spec limit (size_of_text (response_json (full_response columns rows)))); [lia|done].
  - destruct Hk as (n & ->). by exists n.
Qed.

End Sizes.

(** ** Reading leaves the database as it is *)

(** [main] is the content of the main database.  A backup copies it, and a
    statement that asks the authorizer about nothing but reads does not change
    it: SQLite announces every access before it makes it. *)
Class SqliteLaws `{!Sqlite} := {
  Main : Type;
  main : Conn → Main;
  backup_faithful c : main (open_file (export_db c)) = main c;
  reads_preserve c sql :
    Forall (λ ctx, reads_only (action ctx) = true) (compile c sql).1 →
    (∀ params n, main (query_after c sql params n) = main c) ∧
    (∀ params, main (execute_sql c sql params).2 = main c) ∧ main (execute_batch_sql c sql).2 = main c;
}.

(** An ability that confers neither write, schema nor admin. *)
Definition read_ability (ability : string) : bool :=
  negb (ability_matches ability "tinycloud.sql/write" || ability_matches ability "tinycloud.sql/schema" ||
        ability_matches ability "tinycloud.sql/admin").

Section Reads.
Context `{SqliteLaws} `{RowJson} `{SqlParse}.

(** The texts a request runs. *)
Definition request_texts (request : SqlRequest) (caveats : option SqlCaveats) : list string :=
  match request with
  | RQuery sql _ _ _ => [sql]
  | RExecute sql _ schema => default [] schema ++ [sql]
  | RBatch stmts => ss_sql <$> stmts
  | RExecuteStatement name _ => option_list (ps_sql <$> (caveats ≫= λ c, find_prepared c name))
  | RExport => []
  end.

Lemma run_schema_targets a l targets stmts targets' l' :
  run_schema a l targets stmts = (Ok targets', l') → targets' = [] → targets = [] ∧ Forall silent_statement stmts.
Proof.
  revert l targets. induction stmts as [|sql stmts IH]; intros l targets; cbn [run_schema]; [by intros [= -> _] ->|].
  destruct (validate_sql _ _ _) as [p|] eqn:Hv; [|done]. destruct (execute_batch a (conn l) sql) as [[u|e] c]; [|done].
  intros Hr Ht. destruct (IH _ _ Hr Ht) as [[-> Hp]%app_eq_nil Hs]. split; [done|]. constructor; [by eapply no_targets_silent|done].
Qed.

(** A request that names no table it writes runs queries and pragmas alone. *)
Lemma handle_message_silent l request caveats ability res l' :
  handle_message l request caveats ability = (Ok res, l') → res_targets res = [] → Forall silent_statement (request_texts request caveats).
Proof.
  destruct request as [sql params mr mb|sql params schema|stmts|name params|]; cbn [handle_message request_texts]; [| | | |done].
  - destruct (validate_sql sql caveats ability) as [p|] eqn:Hv; [|done]. destruct (under _ _ _) as [[q|e] l1]; [|done].
    intros [= <- _] Ht. apply Forall_singleton. by eapply no_targets_silent.
  - destruct (run_schema _ _ _ _) as [[targets|e] l1] eqn:Hr; [|done]. destruct (validate_sql sql caveats ability) as [p|] eqn:Hv; [|done].
    destruct (under _ _ _) as [[q|e] l2]; [|done]. intros [= <- _] [Ht Hp]%app_eq_nil.
    apply run_schema_targets in Hr as [_ Hs]; [|done]. apply Forall_app. split; [done|]. apply Forall_singleton. by eapply no_targets_silent.
  - destruct (try_map _ stmts) as [parsed|] eqn:Ht; [|done]. destruct (run_batch _ _ _ _) as [[q|e] l1]; [|done].
    intros [= <- _] Hc. cbn [res_targets] in Hc. apply try_map_Ok in Ht. apply Forall_fmap. revert Hc.
    induction Ht as [|s p stmts parsed Hv _ IH]; [constructor|]. intros [Hp Hc]%app_eq_nil. constructor; [by eapply no_targets_silent|auto].
  - destruct caveats as [c|]; [|done]. cbn [ok_or]. rewrite bind_ret_l. destruct (find_prepared c name) as [prepared|] eqn:Hf; [|done].
    cbn [ok_or]. rewrite bind_ret_l. destruct (validate_sql (ps_sql prepared) (Some c) ability) as [p|] eqn:Hv; [|done].
    rewrite bind_ret_l. destruct (under _ _ _) as [[q|e] l1]; [|done]. intros [= <- _] Ht. cbn. rewrite Hf. cbn.
    apply Forall_singleton. by eapply no_targets_silent.
Qed.

Definition reader (a : Authorizer) : Prop := can_define (au_ability a) (au_admin a) = false.

Lemma prepare_reads a c sql columns :
  reader a → prepare a c sql = Ok columns → Forall (λ ctx, reads_only (action ctx) = true) (compile c sql).1.
Proof.
  intros Ha. unfold prepare. destruct (compile c sql) as [asked r]. destruct (allows a asked) eqn:Hall; [|done]. intros _.
  apply Forall_forall. intros ctx Hctx. by eapply read_ability_only_reads.
Qed.

Lemma execute_query_reads a c sql params mr mb : reader a → main (execute_query a c sql params mr mb).2 = main c.
Proof.
  intros Ha. unfold execute_query. destruct (validate_query_limits mr mb); [|done].
  destruct (prepare a c sql) as [columns|] eqn:Hp; cbn [map_err]; [|done].
  apply prepare_reads, reads_preserve in Hp as (Hq & _); [|done].
  destruct (too_large _ _); [|done]. destruct (query_rows c sql params); cbn [map_err]; [|done].
  destruct (fetch_rows _ _ _ _ _). apply Hq.
Qed.

Lemma execute_statement_reads a c sql params i : reader a → main (execute_statement a c sql params i).2 = main c.
Proof.
  intros Ha. unfold execute_statement. destruct (prepare a c sql) as [columns|] eqn:Hp; cbn [map_err]; [|done].
  apply prepare_reads, reads_preserve in Hp as (_ & He & _); [|done]. specialize (He params). by destruct (execute_sql c sql params).
Qed.

Lemma execute_batch_reads a c sql : reader a → main (execute_batch a c sql).2 = main c.
Proof.
  intros Ha. unfold execute_batch. destruct (prepare a c sql) as [columns|] eqn:Hp; cbn [map_err]; [|done].
  apply prepare_reads, reads_preserve in Hp as (_ & _ & He); [|done]. by destruct (execute_batch_sql c sql).
Qed.

Lemma run_schema_reads a l targets stmts : reader a → main (conn (run_schema a l targets stmts).2) = main (conn l).
Proof.
  intros Ha. revert l targets. induction stmts as [|sql stmts IH]; intros l targets; cbn [run_schema]; [done|].
  destruct (validate_sql _ _ _); [|done]. pose proof (execute_batch_reads a (conn l) sql Ha) as Hb.
  destruct (execute_batch a (conn l) sql) as [[u|e] c]; [|done]. by rewrite IH.
Qed.

Lemma under_main {A} a l (f : Authorizer → Conn → result SqlError A * Conn) :
  main (f a (conn l)).2 = main (conn l) → main (conn (under a l f).2) = main (conn l).
Proof. unfold under. by destruct (f a (conn l)). Qed.

Lemma run_batch_reads a l stmts results : reader a → main (conn (run_batch a l stmts results).2) = main (conn l).
Proof.
  intros Ha. revert l results. induction stmts as [|[stmt i] stmts IH]; intros l results; cbn [run_batch]; [done|].
  pose proof (under_main a l (λ a c, execute_statement a c (ss_sql stmt) (ss_params stmt) i)
    (execute_statement_reads _ _ _ _ _ Ha)) as Hu.
  destruct (under _ _ _) as [[r|e] l']; [|done]. by rewrite IH.
Qed.

Lemma reader_of ability caveats :
  read_ability ability = true → reader (mkAuthorizer caveats ability (ability_matches ability "tinycloud.sql/admin")).
Proof.
  unfold read_ability, reader, can_define. cbn [au_ability au_admin].
  destruct (ability_matches ability "tinycloud.sql/write"), (ability_matches ability "tinycloud.sql/schema"),
    (ability_matches ability "tinycloud.sql/admin"); done.
Qed.

Lemma handle_message_reads l request caveats ability :
  read_ability ability = true → main (conn (handle_message l request caveats ability).2) = main (conn l).
Proof.
  intros Hr%(reader_of _ caveats). unfold handle_message. set (a := mkAuthorizer _ _ _) in *. clearbody a.
  destruct request as [sql params mr mb|sql params schema|stmts|name params|]; [| | | |done].
  - destruct (validate_sql _ _ _); [|done].
    pose proof (under_main a l (λ a c, execute_query a c sql params mr mb) (execute_query_reads _ _ _ _ _ _ Hr)) as Hu.
    by destruct (under _ _ _).
  - pose proof (run_schema_reads a l [] (default [] schema) Hr) as Hs. destruct (run_schema _ _ _ _) as [[t|e] l']; [|done].
    destruct (validate_sql _ _ _) as [parsed|]; [|done].
    pose proof (under_main a l' (λ a c, execute_statement a c sql params (is_insert_statement parsed)) (execute_statement_reads _ _ _ _ _ Hr)) as Hu.
    destruct (under _ _ _). cbn [snd] in *. congruence.
  - destruct (try_map _ _) as [parsed|]; [|done]. pose proof (run_batch_reads a l (zip stmts (is_insert_statement <$> parsed)) [] Hr) as Hb.
    by destruct (run_batch _ _ _ _).
  - destruct (ok_or caveats _ ≫= _) as [[sql parsed]|]; [|done].
    match goal with |- context [under a l ?f] => pose proof (under_main a l f) as Hu end.
    destruct (under _ _ _). apply Hu. cbv beta. destruct (is_query_statement parsed).
    + pose proof (execute_query_reads a (conn l) sql params None None Hr). by destruct (execute_query _ _ _ _ _ _).
    + pose proof (execute_statement_reads a (conn l) sql params (is_insert_statement parsed) Hr). by destruct (execute_statement _ _ _ _ _).
Qed.

(** A successful request leaves no authorizer installed, so the promotion check
    that follows it is never refused. *)
Lemma handle_message_uninstalls l request caveats ability res l' :
  handle_message l request caveats ability = (Ok res, l') → installed l = None → installed l' = None.
Proof.
  intros Hm Hl. unfold handle_message in Hm. set (a := mkAuthorizer _ _ _) in *. clearbody a.
  assert (∀ A (f : Authorizer → Conn → result SqlError A * Conn) l, installed (under a l f).2 = None) as Hu.
  { intros A f l0. unfold under. by destruct (f a (conn l0)). }
  assert (∀ stmts l targets, installed l = None → is_ok (run_schema a l targets stmts).1 = true → installed (run_schema a l targets stmts).2 = None) as Hs.
  { clear. induction stmts as [|sql stmts IH]; intros l targets Hl; cbn [run_schema]; [done|].
    destruct (validate_sql _ _ _); [|done]. destruct (execute_batch _ _ _) as [[u|e] c]; [|done]. by apply IH. }
  assert (∀ stmts l results, installed l = None → installed (run_batch a l stmts results).2 = None) as Hb.
  { induction stmts as [|[stmt i] stmts IH]; intros l0 results Hl0; cbn [run_batch]; [done|].
    specialize (Hu _ (λ a c, execute_statement a c (ss_sql stmt) (ss_params stmt) i) l0).
    destruct (under _ _ _) as [[r|e] l1]; [by apply IH|done]. }
  destruct request as [sql params mr mb|sql params schema|stmts|name params|]; [| | | |done].
  - destruct (validate_sql _ _ _); [|done]. specialize (Hu _ (λ a c, execute_query a c sql params mr mb) l).
    destruct (under _ _ _). by simplify_eq.
  - specialize (Hs (default [] schema) l [] Hl). destruct (run_schema _ _ _ _) as [[t|e] l1]; [|done].
    destruct (validate_sql _ _ _) as [parsed|]; [|done].
    specialize (Hu _ (λ a c, execute_statement a c sql params (is_insert_statement parsed)) l1). destruct (under _ _ _). by simplify_eq.
  - destruct (try_map _ _) as [parsed|]; [|done]. specialize (Hb (zip stmts (is_insert_statement <$> parsed)) l [] Hl).
    destruct (run_batch _ _ _ _). by simplify_eq.
  - destruct (ok_or caveats _ ≫= _) as [[sql parsed]|]; [|done].
    match type of Hm with context [under a l ?f] => specialize (Hu _ f l) end. destruct (under _ _ _). by simplify_eq.
Qed.

End Reads.

(** ** What is durable, and what a request sees *)

Section Durability.
Context `{SqliteLaws} `{RowJson} `{SqlParse} `{Blake3} `{CidLib} (memory_threshold : N).
Notation route_request := (route_request memory_threshold).
Notation service_execute := (service_execute memory_threshold).
Notation send_execute := (send_execute memory_threshold).

(** The content of the saved artifact, the empty database if there is none. *)
Definition durable (s : SqlService) (key : DbKey) : Main :=
  main (match durable_payload s key with Some p => open_file p | None => open_in_memory end).

(** The content the next request runs on. *)
Definition visible (s : SqlService) (key : DbKey) : Main :=
  match databases s !! key with Some (Some a) => main (conn (ac_live a)) | _ => durable s key end.

Definition clean (s : SqlService) (key : DbKey) : Prop := visible s key = durable s key.

(** Whether the handle of a key has an actor behind it. *)
Definition alive (s : SqlService) (key : DbKey) : bool :=
  match databases s !! key with Some (Some _) => true | _ => false end.

Lemma durable_artifacts s s' key : artifacts s' = artifacts s → durable s' key = durable s key.
Proof. intros Ha. unfold durable, durable_payload. by rewrite Ha. Qed.

Lemma not_alive_visible s key : alive s key = false → visible s key = durable s key.
Proof. unfold alive, visible. by destruct (databases s !! key) as [[?|]|]. Qed.

Lemma hydrate_artifacts s key : artifacts (hydrate_cache s key) = artifacts s ∧ databases (hydrate_cache s key) = databases s.
Proof. unfold hydrate_cache. by destruct (durable_payload s key). Qed.

(** [handle] starts an actor on the durable content and changes nothing else. *)
Lemma handle_spec s key :
  artifacts (handle s key) = artifacts s ∧ visible (handle s key) key = visible s key ∧
  (databases s !! key = None → alive (handle s key) key = true).
Proof.
  unfold handle. destruct (databases s !! key) as [d|] eqn:Hd; [done|].
  destruct (hydrate_artifacts s key) as [Ha Hdb]. split_and!; [done| |].
  - unfold visible. cbn [set_databases databases]. rewrite lookup_insert_eq, Hd. unfold spawn_actor, hydrate_cache, durable.
    destruct (durable_payload s key) as [p|]; cbn [set_cache cache].
    + by rewrite lookup_insert_eq.
    + by rewrite lookup_delete_eq.
  - intros _. unfold alive. cbn [set_databases databases]. by rewrite lookup_insert_eq.
Qed.

Lemma end_actor_spec f s key :
  artifacts (end_actor f s key) = artifacts s ∧
  (visible (end_actor f s key) key = visible s key ∨ visible (end_actor f s key) key = durable s key).
Proof.
  unfold end_actor. destruct (databases s !! key) as [[a|]|] eqn:Hd; [|by destruct f; auto..].
  destruct f; [by auto|split..]; try (by destruct (ac_mode a)); right; unfold visible; cbn [set_databases databases].
  - rewrite lookup_delete_eq. apply durable_artifacts. by destruct (ac_mode a).
  - rewrite lookup_insert_eq. apply durable_artifacts. by destruct (ac_mode a).
Qed.

(** A message that reaches an actor runs on what is visible, and what it leaves is
    visible, promoted or not. *)
Lemma send_execute_spec s key request caveats ability r s' :
  send_execute s key request caveats ability = Some (r, s') →
  artifacts s' = artifacts s ∧ alive s' key = true ∧
  ∃ l l', handle_message l request caveats ability = (r, l') ∧ main (conn l) = visible s key ∧ visible s' key = main (conn l').
Proof.
  unfold SqlService.send_execute, actor_execute. destruct (databases s !! key) as [[a|]|] eqn:Hd; [|done..].
  destruct (handle_message (ac_live a) request caveats ability) as [r0 l'] eqn:Hm.
  intros Heq. simplify_eq. split; [done|]. split.
  - unfold alive. cbn [set_databases databases]. by rewrite lookup_insert_eq.
  - exists (ac_live a), l'. split; [done|]. unfold visible. cbn [set_databases databases]. rewrite lookup_insert_eq, Hd. split; [done|].
    destruct (_ && _); [apply backup_faithful|done].
Qed.

Lemma send_execute_alive s key request caveats ability :
  alive s key = true → is_Some (send_execute s key request caveats ability).
Proof.
  unfold alive, SqlService.send_execute. destruct (databases s !! key) as [[a|]|]; [|done..]. intros _. by destruct (actor_execute _ _ _ _ _).
Qed.

(** The request runs on what was visible or, after a restart, on what is durable. *)
Lemma route_request_spec env s key request caveats ability r s' :
  route_request env s key request caveats ability = (r, s') →
  artifacts s' = artifacts s ∧
  ((alive s' key = true ∧ ∃ l l', handle_message l request caveats ability = (r, l') ∧
     (main (conn l) = visible s key ∨ main (conn l) = durable s key) ∧ visible s' key = main (conn l')) ∨
   r = Err not_available ∧ visible s' key = durable s key).
Proof.
  unfold SqlService.route_request. destruct (handle_spec s key) as (Ha1 & Hv1 & _).
  destruct (end_actor_spec (env_send env) (handle s key) key) as (Ha2 & Hv2).
  set (s2 := end_actor (env_send env) (handle s key) key) in *. clearbody s2.
  destruct (send_execute s2 _ _ _ _) as [[r1 s3]|] eqn:Hs1.
  { intros [= -> ->]. apply send_execute_spec in Hs1 as (Ha3 & Hal & l & l' & Hm & Hl & Hv). split; [congruence|]. left. split; [done|].
    exists l, l'. split_and!; [done| |done]. rewrite Hl. destruct Hv2 as [->| ->]; [left; congruence|right].
    apply durable_artifacts. congruence. }
  set (s3 := set_databases _ s2). destruct (handle_spec s3 key) as (Ha4 & Hv4 & _).
  destruct (end_actor_spec (env_resend env) (handle s3 key) key) as (Ha5 & Hv5).
  assert (visible s3 key = durable s key) as Hv3.
  { unfold visible, s3. cbn [set_databases databases]. rewrite lookup_delete_eq. apply durable_artifacts. simpl. congruence. }
  assert (artifacts s3 = artifacts s) as Ha3 by (unfold s3; simpl; congruence).
  assert (visible (end_actor (env_resend env) (handle s3 key) key) key = durable s key) as Hv6.
  { destruct Hv5 as [->| ->]; [congruence|]. apply durable_artifacts. congruence. }
  set (s5 := end_actor _ _ _) in *. clearbody s5. destruct (send_execute s5 _ _ _ _) as [[r1 s6]|] eqn:Hs2.
  - intros [= -> ->]. apply send_execute_spec in Hs2 as (Ha6 & Hal & l & l' & Hm & Hl & Hv). split; [congruence|]. left. split; [done|].
    exists l, l'. split_and!; [done|right; congruence|done].
  - intros [= <- <-]. split; [congruence|]. right. by split.
Qed.

Lemma save_artifact_spec env s key payload s' :
  save_artifact env s key payload = Ok s' →
  databases s' = databases s ∧ durable s' key = main (open_file payload) ∧ ∀ k, k ≠ key → durable s' k = durable s k.
Proof.
  unfold save_artifact. destruct (env_save env); [done|]. intros Hs. apply bind_Ok in Hs as ([a arts] & Hs%map_err_Ok & [= <-]).
  split; [done|]. unfold tracked_save in Hs. apply bind_Ok in Hs as ([a' t] & Hsave & [= _ <-]).
  unfold save in Hsave. apply bind_Ok in Hsave as ([] & _ & [= _ <-]).
  unfold durable, durable_payload, load. cbn [artifacts fst]. split.
  - by rewrite lookup_insert_eq.
  - intros [k1 k2] Hk. rewrite lookup_insert_ne; [done|]. destruct key as [key1 key2]. simpl. congruence.
Qed.

Lemma discard_spec s key : ∀ k, durable (discard_local_state s key) k = durable s k.
Proof. intros k. by apply durable_artifacts. Qed.

Lemma discard_clean s key : clean (discard_local_state s key) key.
Proof. apply not_alive_visible. unfold alive. simpl. by rewrite lookup_delete_eq. Qed.

(** The whole call. *)
Lemma service_execute_spec env s space db_name request caveats ability r s' :
  service_execute env s space db_name request caveats ability = (r, s') →
  let key := (space_to_string space, db_name) in
  (∀ k, k ≠ key → durable s' k = durable s k) ∧
  ((∃ l l' res, r = Ok res ∧ handle_message l request caveats ability = (Ok res, l') ∧
      (main (conn l) = visible s key ∨ main (conn l) = durable s key) ∧ visible s' key = main (conn l') ∧
      durable s' key = if decide (res_targets res = []) then durable s key else main (conn l')) ∨
   (∃ e, r = Err e ∧ durable s' key = durable s key ∧
      (visible s' key = durable s key ∨
       ∃ l l', handle_message l request caveats ability = (Err e, l') ∧
         (main (conn l) = visible s key ∨ main (conn l) = durable s key) ∧ visible s' key = main (conn l')))).
Proof.
  intros He key. unfold SqlService.service_execute in He. fold key in He.
  destruct (route_request env s key request caveats ability) as [r1 s1] eqn:Hr. apply route_request_spec in Hr as (Ha1 & Hcase).
  assert (∀ k, durable s1 k = durable s k) as Hd1 by (intros k; by apply durable_artifacts).
  destruct r1 as [res|e]; [|simplify_eq; split; [by intros|right]]; [|exists e; split_and!; [done..|]].
  2: { destruct Hcase as [(_ & l & l' & ?)|[_ ?]]; [right; naive_solver|by left]. }
  destruct Hcase as [(Hal & l & l' & Hm & Hl & Hv)|[? _]]; [|done].
  destruct (res_targets res) as [|tg tgs] eqn:Ht.
  { simplify_eq. split; [by intros|left]. exists l, l', res. split_and!; [done..|]. by rewrite Ht, decide_True. }
  destruct (end_actor_spec (env_export env) s1 key) as (Ha2 & Hv2). set (s2 := end_actor (env_export env) s1 key) in *.
  assert (∀ k, durable s2 k = durable s k) as Hd2 by (intros k; rewrite <- Hd1; by apply durable_artifacts).
  assert (∀ e, (r, s') = (Err e, discard_local_state s2 key) →
    (∀ k, k ≠ key → durable s' k = durable s k) ∧
    ∃ e, r = Err e ∧ durable s' key = durable s key ∧ visible s' key = durable s key) as Hdisc.
  { intros e [= -> ->]. split; [by intros; rewrite discard_spec|]. exists e. rewrite discard_spec. split_and!; [done..|].
    rewrite (discard_clean s2 key). by rewrite discard_spec. }
  destruct (send_export s2 key) as [payload|] eqn:Hx; [|edestruct Hdisc; [by symmetry|naive_solver]].
  destruct (save_artifact env s2 key payload) as [s3|e] eqn:Hs; [|edestruct Hdisc; [by symmetry|naive_solver]].
  simplify_eq. apply save_artifact_spec in Hs as (Hdb & Hk & Ho). split; [intros; rewrite Ho; auto|left].
  assert (main (open_file payload) = visible s2 key) as Hp.
  { revert Hx. unfold send_export, visible. destruct (databases s2 !! key) as [[a|]|]; [|done..]. intros [= <-]. apply backup_faithful. }
  assert (visible s2 key = visible s1 key) as Hsame.
  { revert Hx. unfold s2, end_actor, send_export, visible, alive in *. destruct (databases s1 !! key) as [[a|]|] eqn:Hdk; [|done..].
    destruct (env_export env); [by rewrite Hdk|..]; cbn [set_databases databases]; by rewrite ?lookup_delete_eq, ?lookup_insert_eq. }
  exists l, l', res. split_and!; [done..| |].
  - rewrite <- Hv, <- Hsame. unfold visible. rewrite Hdb. destruct (databases s2 !! key) as [[a|]|] eqn:Hdk; [done| |];
      exfalso; unfold send_export in Hx; by rewrite Hdk in Hx.
  - rewrite Ht, decide_False by done. congruence.
Qed.

End Durability.

(** ** Claims *)

(** C13: a write whose table the parser names is durable exactly when it is acknowledged.
    Whatever happens to the actor or to the artifact store meanwhile: an answer
    [Ok] means the request ran on what was visible or, after a restart, durable,
    that what it left is what the next request sees, and that the saved artifact
    holds it too, unless the parser named no table that the request writes; then
    the artifact holds what it held, and each statement of the request is a PRAGMA
    or what the parser takes for a query (such a statement can write all the same,
    as an admin's PRAGMA or an INSERT under WITH does: that is acknowledged,
    visible and not saved).  After an error the artifact holds what it held;
    artifacts of other databases never change. *)
Theorem sql_writes_durable `{SqliteLaws} `{RowJson} `{SqlParse} `{Blake3} `{CidLib} (memory_threshold : N) (env : Env)
    (s s' : SqlService) (space : SpaceId) (db_name : string) (request : SqlRequest) (caveats : option SqlCaveats)
    (ability : string) (r : result SqlError SqlExecutionResult) :
  service_execute memory_threshold env s space db_name request caveats ability = (r, s') →
  let key := (space_to_string space, db_name) in
  (∀ k, k ≠ key → durable s' k = durable s k) ∧
  match r with
  | Ok res => ∃ l l', handle_message l request caveats ability = (Ok res, l') ∧
      (main (conn l) = visible s key ∨ main (conn l) = durable s key) ∧ visible s' key = main (conn l') ∧
      (res_targets res ≠ [] → durable s' key = main (conn l')) ∧
      (res_targets res = [] → durable s' key = durable s key ∧ Forall silent_statement (request_texts request caveats))
  | Err _ => durable s' key = durable s key
  end.
Proof.
  intros He key. destruct (service_execute_spec _ _ _ _ _ _ _ _ _ _ He) as (Ho & [(l & l' & res & -> & Hm & Hl & Hv & Hd)|(e & -> & Hd & _)]).
  - split; [done|]. exists l, l'. fold key in Hl, Hv, Hd. split_and!; [done..| |].
    + intros Ht. by rewrite decide_False in Hd.
    + intros Ht. rewrite decide_True in Hd by done. split; [done|]. by eapply handle_message_silent.
  - by split.
Qed.

(** Requests with an ability that confers neither write, schema nor admin change
    no database: as long as what is visible is what is saved, it stays so across
    the request, through restarts of the actor and failures of the store, and
    every saved database keeps its content. *)
Theorem sql_reads_change_nothing `{SqliteLaws} `{RowJson} `{SqlParse} `{Blake3} `{CidLib} (memory_threshold : N) (env : Env)
    (s s' : SqlService) (space : SpaceId) (db_name : string) (request : SqlRequest) (caveats : option SqlCaveats)
    (ability : string) (r : result SqlError SqlExecutionResult) :
  read_ability ability = true →
  clean s (space_to_string space, db_name) →
  service_execute memory_threshold env s space db_name request caveats ability = (r, s') →
  clean s' (space_to_string space, db_name) ∧ ∀ k, durable s' k = durable s k.
Proof.
  intros Hr Hc He. destruct (service_execute_spec _ _ _ _ _ _ _ _ _ _ He) as (Ho & Hcase). set (key := (_, _)) in *.
  assert (∀ l r l', handle_message l request caveats ability = (r, l') →
    main (conn l) = visible s key ∨ main (conn l) = durable s key → main (conn l') = durable s key) as Hm.
  { intros l r0 l' Hm Hl. pose proof (handle_message_reads l request caveats ability Hr) as Hsame. rewrite Hm in Hsame.
    cbn [snd] in Hsame. rewrite Hsame. destruct Hl as [->| ->]; [apply Hc|done]. }
  assert (durable s' key = durable s key ∧ visible s' key = durable s key) as [Hd Hv].
  { destruct Hcase as [(l & l' & res & -> & Hh & Hl & Hv & Hd)|(e & -> & Hd & Hv)].
    - rewrite Hd, Hv. pose proof (Hm _ _ _ Hh Hl). split; [by case_decide|done].
    - split; [done|]. destruct Hv as [->|(l & l' & Hh & Hl & ->)]; [done|]. by eapply Hm. }
  split; [unfold clean; congruence|]. intros k. destruct (decide (k = key)) as [->|Hk]; [done|by apply Ho].
Qed.

(** ** A small engine *)

(** The database is the text of the rows inserted so far; a statement that starts
    with INSERT or PRAGMA appends its text, one that ends in an exclamation mark fails
    after it was compiled, anything else reads the rows as one value. *)
Definition toy_insert (sql : string) : bool := starts_with "INSERT" sql.
Definition toy_fails (sql : string) : bool := ends_with_char "!" sql.

Definition toy_pragma (sql : string) : bool := starts_with "PRAGMA" sql.

Definition toy_run (c sql : string) : result string unit * string :=
  if toy_fails sql then (Err "constraint failed", c) else (Ok tt, if toy_insert sql || toy_pragma sql then c +:+ sql else c).

#[local] Instance toy_engine : Sqlite := {|
  Conn := string;
  open_in_memory := "";
  open_file := id;
  export_db := id;
  page_bytes := λ c, N.of_nat (String.length c);
  compile := λ _ sql, if toy_insert sql then ([mkAuthContext (Insert "t") (Some "main")], Ok [])
                      else if toy_pragma sql then ([mkAuthContext (Pragma "user_version" None) (Some "main")], Ok [])
                      else ([mkAuthContext SelectAction None; mkAuthContext (Read "t" "c") (Some "main")], Ok ["c"]);
  denied := λ _ _, "not authorized";
  query_rows := λ c _ _, Ok [Ok [VText c]];
  query_after := λ c _ _ _, c;
  execute_sql := λ c sql _, toy_run c sql;
  execute_batch_sql := λ c sql, toy_run c sql;
  changes := λ _, 1%N;
  last_insert_rowid := λ _, 1%Z;
|}.

#[local] Instance toy_laws : SqliteLaws.
Proof.
  refine {| Main := string; main := id |}; [done|]. intros c sql. cbn. destruct (toy_insert sql) eqn:Hi.
  - intros Hf. apply Forall_cons in Hf as [Hf _]. done.
  - destruct (toy_pragma sql) eqn:Hp.
    + intros Hf. apply Forall_cons in Hf as [Hf _]. done.
    + intros _. unfold toy_run. rewrite Hi, Hp. by destruct (toy_fails sql).
Defined.

#[local] Instance toy_json : RowJson := {| columns_json := λ _, "[]"; row_json := λ _, "[]" |}.
#[local] Instance toy_parse : SqlParse := λ sql,
  Ok [if toy_insert sql then SInsert "t" else SQuery (mkQuery (Select [UnnamedIdentifier "c"] [mkTableWithJoins (Table "t") []]))].
#[local] Instance toy_cids : CidLib := {| cid_to_string := λ _, ""; cid_parse := λ _, None |}.
#[local] Existing Instance demo_blake.

Definition toy_env : Env := mkEnv Stays Stays Stays None "now".
Definition toy_start : SqlService := mkSqlService ∅ ∅ (∅, ∅).
Definition toy_call (env : Env) (s : SqlService) (request : SqlRequest) (ability : string) : result SqlError SqlExecutionResult * SqlService :=
  service_execute 1000 env s demo_space "main" request None ability.
Definition toy_write : SqlRequest := RExecute "INSERT a" [] None.
Definition toy_batch : SqlRequest := RBatch [mkSqlStatement "INSERT b" []; mkSqlStatement "INSERT c!" []].
Definition toy_read : SqlRequest := RQuery "SELECT c FROM t" [] None None.

Lemma query_answer_exact_witness :
  (execute_query (mkAuthorizer None "tinycloud.sql/read" false) "x" "SELECT c FROM t" [] (Some 1%N) None).1 =
  Ok (full_response ["c"] [[VText "x"]]).
Proof.
  exact (query_answer_exact (mkAuthorizer None "tinycloud.sql/read" false) "x" "SELECT c FROM t" [] (Some 1%N) None
           ["c"] [[VText "x"]] eq_refl eq_refl eq_refl).
Defined.

Lemma sql_writes_durable_witness :
  ∃ r s', toy_call toy_env toy_start toy_write "tinycloud.sql/write" = (r, s') ∧ is_ok r = true ∧
    ∀ k, k ≠ (space_to_string demo_space, "main") → durable s' k = durable toy_start k.
Proof.
  destruct (toy_call toy_env toy_start toy_write "tinycloud.sql/write") as [r s'] eqn:He.
  exists r, s'. split; [done|]. split.
  - assert (is_ok (toy_call toy_env toy_start toy_write "tinycloud.sql/write").1 = true) as Hok by (by vm_compute). by rewrite He in Hok.
  - exact (proj1 (sql_writes_durable 1000 toy_env toy_start s' demo_space "main" toy_write None "tinycloud.sql/write" r He)).
Defined.

Lemma sql_reads_change_nothing_witness :
  ∃ r s', toy_call toy_env toy_start toy_read "tinycloud.sql/read" = (r, s') ∧ is_ok r = true ∧
    clean s' (space_to_string demo_space, "main") ∧ ∀ k, durable s' k = durable toy_start k.
Proof.
  destruct (toy_call toy_env toy_start toy_read "tinycloud.sql/read") as [r s'] eqn:He.
  exists r, s'. split; [done|]. split.
  - assert (is_ok (toy_call toy_env toy_start toy_read "tinycloud.sql/read").1 = true) as Hok by (by vm_compute). by rewrite He in Hok.
  - exact (sql_reads_change_nothing 1000 toy_env toy_start s' demo_space "main" toy_read None "tinycloud.sql/read" r eq_refl eq_refl He).
Defined.

(** A write the parser does not name is acknowledged and not saved: an admin's PRAGMA is
    seen by the next request, and is gone when the actor has ended. *)
Theorem unnamed_write_lost :
  let key := (space_to_string demo_space, "main") in
  let '(r, s) := toy_call toy_env toy_start (RExecute "PRAGMA user_version = 1" [] None) "tinycloud.sql/admin" in
  is_ok r = true ∧ visible s key = "PRAGMA user_version = 1" ∧ durable s key = "" ∧ visible (end_actor Idles s key) key = "".
Proof. vm_compute. done. Qed.

(** A batch that fails in the middle is not undone: what its first statements
    wrote is seen by the next request, is not saved, and disappears when the actor
    next ends. *)
Theorem failed_batch_half_visible :
  let key := (space_to_string demo_space, "main") in
  let '(r, s) := toy_call toy_env toy_start toy_batch "tinycloud.sql/write" in
  is_ok r = false ∧ visible s key = "INSERT b" ∧ durable s key = "" ∧ visible (end_actor Idles s key) key = "".
Proof. vm_compute. done. Qed.
