(* ===== verification/ShareConfig.v ===== *)
(** * Email shares, configuration: [ShareEmailConfig] of tinycloud-node-server/src/config.rs

    The settings of the share protocol and the trust bundle that production nodes
    resolve them from.  URL parsing and the file system are parameters; [fixture] is
    the feature [mounted-fixture] of the build. *)
From S2P Require Import Prelude Str Chars Identity Json Tables Jcs PolicyCapability Evidence PolicyVerifier ShareTypes ShareInvitation ShareBridge.

Record ShareEmailPostgresTlsConfig := mkPostgresTls { pt_sslmode : string; pt_root_cert_path : option string }.

Record ShareEmailConfig := mkShareEmailConfig {
  cf_enabled : bool;
  cf_target_origin : string;
  cf_node_audience : string;
  cf_return_origin : string;
  cf_allowed_origins : list string;
  cf_node_signing_kid : string;
  cf_invitation_kid : string;
  cf_invitation_public_key : option string;
  cf_issuer_did : string;
  cf_issuer_vct : string;
  cf_issuer_kid : string;
  cf_issuer_key_version : N;
  cf_issuer_public_key : option string;
  cf_authority_material_path : option string;
  cf_trust_bundle_path : option string;
  cf_share_origin : option string;
  cf_registry_origin : option string;
  cf_credentials_origin : option string;
  cf_postgres_tls : ShareEmailPostgresTlsConfig;
  cf_readiness_max_age_seconds : N;
  cf_clock_skew_seconds : Z;
  cf_challenge_ttl_seconds : N;
  cf_space_name : string;
}.

Definition default_share_return_origin : string := "https://share.tinycloud.xyz".
Definition default_share_allowed_origins : list string := [default_share_return_origin].
Definition default_share_issuer_key_version : N := 1.
Definition default_share_postgres_sslmode : string := "disabled".
Definition default_postgres_tls : ShareEmailPostgresTlsConfig := mkPostgresTls default_share_postgres_sslmode None.
Definition default_share_email_config : ShareEmailConfig :=
  mkShareEmailConfig false "" "" default_share_return_origin default_share_allowed_origins "" "" None "" EMAIL_VCT "" default_share_issuer_key_version None None
    None None None None default_postgres_tls 300 30 120 "default".

Record ShareEmailTrustBundle := mkTrustBundle {
  tb_version : string;
  tb_share_origin : string;
  tb_return_origin : string;
  tb_registry_origin : string;
  tb_credentials_origin : string;
  tb_node_origin : string;
  tb_node_audience : string;
  tb_node_invitation_kid : string;
  tb_node_invitation_public_key : string;
  tb_node_key_version : N;
  tb_node_enabled : bool;
  tb_issuer_did : string;
  tb_issuer_vct : string;
  tb_issuer_kid : string;
  tb_issuer_public_key : string;
  tb_issuer_key_version : N;
  tb_issuer_enabled : bool;
}.

Definition TRUST_BUNDLE_FIELDS : list string :=
  ["version"; "shareOrigin"; "returnOrigin"; "registryOrigin"; "credentialsOrigin"; "nodeOrigin"; "nodeAudience"; "nodeInvitationKid";
   "nodeInvitationPublicKey"; "nodeKeyVersion"; "nodeEnabled"; "issuerDid"; "issuerVct"; "issuerKid"; "issuerPublicKey"; "issuerKeyVersion"; "issuerEnabled"].

Definition u32_max : N := 4294967295.
Definition raw_bool (key : string) (m : list (string * raw)) : option bool := match raw_get key m with Some (RBool b) => Some b | _ => None end.

(** [reqwest::Url]. *)
Record Url := mkUrl {
  url_scheme : string;
  url_origin : string;
  url_path : string;
  url_query : option string;
  url_fragment : option string;
  url_username : string;
  url_password : option string;
  url_port : option N;
  url_host : option string;
}.
Class UrlLib := url_parse : string → option Url.

(** ** Texts *)

Definition contains_placeholder (value : string) : bool :=
  existsb (λ p, contains_str p (to_ascii_lowercase value)) ["example"; "localhost"; "127.0.0.1"; "fixture"; "placeholder"; "seed"; "test"].

(** The first piece of [split(['/', ':'])]. *)
Fixpoint first_piece (s : string) : string :=
  match s with "" => "" | String c s => if contains_char c "/:" then "" else String c (first_piece s) end.

Definition is_placeholder_domain (value : string) : bool :=
  let rest := match strip_prefix "https://" value with Some r => r | None => match strip_prefix "did:web:" value with Some r => r | None => value end end in
  let host := to_ascii_lowercase (first_piece rest) in
  bool_decide (host = "localhost") || ends_with ".example" host || ends_with ".invalid" host || ends_with ".test" host.

Definition canonical_kid_matches (kid did : string) : bool :=
  match split_once "#" kid with
  | None => false
  | Some (prefix, fragment) =>
      bool_decide (prefix = did) && negb (is_empty fragment) && negb (contains_char "#" fragment) && negb (existsb is_whitespace (chars fragment))
  end.

Definition origin_audience_matches (origin audience : string) : bool :=
  match strip_prefix "https://" origin with
  | None => false
  | Some value =>
      let host := match split_once ":" value with Some (host, _) => host | None => value end in
      bool_decide (audience = "did:web:" +:+ host)
  end.

Definition is_postgres_database (database : string) : bool := starts_with "postgres://" database || starts_with "postgresql://" database.

(** The value of a key that occurs once; [None] is a key that is repeated. *)
Fixpoint query_value (key : string) (pairs : list string) (found : option string) : option (option string) :=
  match pairs with
  | [] => Some found
  | item :: pairs =>
      match split_once "=" item with
      | Some (k, value) =>
          if bool_decide (k = key) then match found with Some _ => None | None => query_value key pairs (Some value) end
          else query_value key pairs found
      | None => query_value key pairs found
      end
  end.

Definition database_has_query (database expected_key expected_value : string) : bool :=
  match split_once "?" database with
  | None => false
  | Some (_, query) => bool_decide (query_value expected_key (split_char "&" query) None = Some (Some expected_value))
  end.

Definition FORBIDDEN : list string := ["sslrootcert"; "sslcert"; "sslkey"; "sslpassword"; "sslcrl"; "hostaddr"].
Definition database_has_forbidden_query (database : string) : bool :=
  match split_once "?" database with
  | None => false
  | Some (_, query) => existsb (λ item, match split_once "=" item with Some (k, _) => bool_decide (k ∈ FORBIDDEN) | None => false end) (split_char "&" query)
  end.

Section Config.
Context `{JsonText} `{EvidenceLib} `{UrlLib}.
(** The build's feature, and the file system: contents and which paths are files. *)
Context (fixture : bool) (fs_read : string → option string) (fs_is_file : string → bool).

Definition is_repeated_test_key (value : string) : bool :=
  match b64url_decode value with
  | Some bytes =>
      (String.length bytes =? 32)%nat && forallb (λ p : N * N, (p.1 =? p.2)%N) (zip (string_bytes bytes) (tail (string_bytes bytes)))
  | None => false
  end.

Definition is_fixture_public_key (value : string) : bool :=
  bool_decide (value = "IVL40Zt5HSRFMkLhXy6rbLfP-ntqXtMAl5YOBpiB2xI") || bool_decide (value = "Ivwpd5Lwtv_Av8_bftsMCqFOAlo2XsDjQuhuOCnLdLY") ||
  is_repeated_test_key value.

Definition canonical_key (value : string) : bool :=
  match b64url_decode value with Some bytes => (String.length bytes =? 32)%nat && bool_decide (b64url_encode bytes = value) | None => false end.

Definition canonical_https_origin_with_optional_port (value : string) : bool :=
  match url_parse value with
  | None => false
  | Some url =>
      bool_decide (url_scheme url = "https") && bool_decide (url_origin url = value) && bool_decide (url_path url = "/") &&
      bool_decide (url_query url = None) && bool_decide (url_fragment url = None) && is_empty (url_username url) && bool_decide (url_password url = None)
  end.

Definition canonical_https_origin (value : string) : bool :=
  match url_parse value with
  | None => false
  | Some url =>
      bool_decide (url_scheme url = "https") && bool_decide (url_origin url = value) && bool_decide (url_path url = "/") &&
      bool_decide (url_query url = None) && bool_decide (url_fragment url = None) && is_empty (url_username url) && bool_decide (url_password url = None) &&
      bool_decide (url_port url = None)
  end.

Definition host_of (value : string) : option string := url ← url_parse value; url_host url.

(** ** The trust bundle *)

Definition read_bundle (bytes : string) : option ShareEmailTrustBundle :=
  r ← read_document bytes;
  m ← raw_fields TRUST_BUNDLE_FIELDS r;
  version ← raw_str "version" m; share ← raw_str "shareOrigin" m; return_origin ← raw_str "returnOrigin" m; registry ← raw_str "registryOrigin" m;
  credentials ← raw_str "credentialsOrigin" m; origin ← raw_str "nodeOrigin" m; audience ← raw_str "nodeAudience" m; kid ← raw_str "nodeInvitationKid" m;
  key ← raw_str "nodeInvitationPublicKey" m; key_version ← raw_uint "nodeKeyVersion" u32_max m; enabled ← raw_bool "nodeEnabled" m;
  issuer ← raw_str "issuerDid" m; vct ← raw_str "issuerVct" m; issuer_kid ← raw_str "issuerKid" m; issuer_key ← raw_str "issuerPublicKey" m;
  issuer_version ← raw_uint "issuerKeyVersion" u32_max m; issuer_enabled ← raw_bool "issuerEnabled" m;
  Some (mkTrustBundle version share return_origin registry credentials origin audience kid key key_version enabled issuer vct issuer_kid issuer_key
          issuer_version issuer_enabled).

Definition contains_fixture_material (b : ShareEmailTrustBundle) : bool :=
  existsb contains_placeholder [tb_share_origin b; tb_return_origin b; tb_registry_origin b; tb_credentials_origin b; tb_node_origin b; tb_node_audience b;
                                tb_node_invitation_kid b; tb_issuer_did b; tb_issuer_vct b; tb_issuer_kid b] ||
  is_fixture_public_key (tb_node_invitation_public_key b) || is_fixture_public_key (tb_issuer_public_key b).

(** A node origin without a host stops the check with its own message, unless an
    earlier clause failed. *)
Definition bundle_validate (b : ShareEmailTrustBundle) : result string unit :=
  let fixture_origin := fixture && canonical_https_origin_with_optional_port (tb_share_origin b) in
  let fixture_node_origin := fixture && canonical_https_origin_with_optional_port (tb_node_origin b) in
  let inconsistent := "share email trust bundle is inconsistent" in
  _ ← ensure (bool_decide (tb_version b = "tinycloud.share-email-trust-bundle/v1") &&
              (fixture_origin || bool_decide (tb_share_origin b = "https://share.tinycloud.xyz")) &&
              bool_decide (tb_return_origin b = tb_share_origin b) && canonical_https_origin (tb_registry_origin b) &&
              bool_decide (tb_credentials_origin b = "https://witness.credentials.org") &&
              (canonical_https_origin (tb_node_origin b) || fixture_node_origin)) inconsistent;
  host ← ok_or (host_of (tb_node_origin b)) "trust bundle node origin";
  ensure (bool_decide (tb_node_audience b = "did:web:" +:+ host) &&
          bool_decide (tb_node_invitation_kid b = tb_node_audience b +:+ "#invitation-key-" +:+ fmt_u64 (tb_node_key_version b)) &&
          negb (tb_node_key_version b =? 0)%N && tb_node_enabled b && bool_decide (tb_issuer_did b = "did:web:issuer.credentials.org") &&
          bool_decide (tb_issuer_vct b = "opencredentials.email/v1") && canonical_kid_matches (tb_issuer_kid b) (tb_issuer_did b) &&
          negb (tb_issuer_key_version b =? 0)%N && tb_issuer_enabled b && canonical_key (tb_node_invitation_public_key b) &&
          canonical_key (tb_issuer_public_key b) && (fixture || negb (contains_fixture_material b))) inconsistent.

(** A setting that is unset, or says what the bundle says. *)
Definition agrees (value : option string) (bundle : string) : bool := match value with None => true | Some v => bool_decide (v = bundle) end.
Definition unset_or (value bundle : string) : bool := is_empty value || bool_decide (value = bundle).

Definition matches_config (b : ShareEmailTrustBundle) (c : ShareEmailConfig) : result string unit :=
  ensure (unset_or (cf_target_origin c) (tb_node_origin b) && unset_or (cf_node_audience c) (tb_node_audience b) &&
          (bool_decide (cf_return_origin c = default_share_return_origin) || bool_decide (cf_return_origin c = tb_return_origin b)) &&
          (bool_decide (cf_allowed_origins c = default_share_allowed_origins) || bool_decide (cf_allowed_origins c = [tb_return_origin b])) &&
          unset_or (cf_node_signing_kid c) (tb_node_invitation_kid b) && unset_or (cf_invitation_kid c) (tb_node_invitation_kid b) &&
          agrees (cf_invitation_public_key c) (tb_node_invitation_public_key b) && unset_or (cf_issuer_did c) (tb_issuer_did b) &&
          bool_decide (cf_issuer_vct c = tb_issuer_vct b) && unset_or (cf_issuer_kid c) (tb_issuer_kid b) &&
          ((cf_issuer_key_version c =? default_share_issuer_key_version)%N || (cf_issuer_key_version c =? tb_issuer_key_version b)%N) &&
          agrees (cf_issuer_public_key c) (tb_issuer_public_key b) && agrees (cf_share_origin c) (tb_share_origin b) &&
          agrees (cf_registry_origin c) (tb_registry_origin b) && agrees (cf_credentials_origin c) (tb_credentials_origin b))
    "share email trust bundle disagrees with configured trust".

(** The settings of the bundle in place of the configured ones. *)
Definition resolved_with (b : ShareEmailTrustBundle) (c : ShareEmailConfig) : ShareEmailConfig :=
  mkShareEmailConfig (cf_enabled c) (tb_node_origin b) (tb_node_audience b) (tb_return_origin b) [tb_return_origin b] (tb_node_invitation_kid b)
    (tb_node_invitation_kid b) (Some (tb_node_invitation_public_key b)) (tb_issuer_did b) (tb_issuer_vct b) (tb_issuer_kid b) (tb_issuer_key_version b)
    (Some (tb_issuer_public_key b)) (cf_authority_material_path c) (cf_trust_bundle_path c) (cf_share_origin c) (cf_registry_origin c)
    (cf_credentials_origin c) (cf_postgres_tls c) (cf_readiness_max_age_seconds c) (cf_clock_skew_seconds c) (cf_challenge_ttl_seconds c) (cf_space_name c).

Definition resolve_trust_bundle (c : ShareEmailConfig) : result string ShareEmailConfig :=
  if negb (cf_enabled c) then Ok c
  else
    match cf_trust_bundle_path c with
    | None => if fixture then Ok c else Err "share email trust bundle is required"
    | Some path =>
        bytes ← ok_or (fs_read path) "share email trust bundle is unreadable";
        _ ← ensure (String.length bytes <=? 64 * 1024)%nat "share email trust bundle is too large";
        bundle ← ok_or (read_bundle bytes) "share email trust bundle is invalid";
        _ ← bundle_validate bundle;
        _ ← matches_config bundle c;
        Ok (resolved_with bundle c)
    end.

(** ** Validation *)

Definition uses_fixture_identity (c : ShareEmailConfig) : bool :=
  is_placeholder_domain (cf_target_origin c) || is_placeholder_domain (cf_node_audience c) || is_placeholder_domain (cf_issuer_did c) ||
  match cf_invitation_public_key c with Some k => is_fixture_public_key k | None => false end ||
  match cf_issuer_public_key c with Some k => is_fixture_public_key k | None => false end.

Definition OPEN_CREDENTIALS_ISSUER_DID : string := "did:web:issuer.credentials.org".

Definition validate_fields (c : ShareEmailConfig) : result string unit :=
  _ ← ensure (fixture || negb (uses_fixture_identity c)) "share email production trust bundle contains a fixture identity";
  ensure (bool_decide (is_Some (parse_origin (cf_target_origin c))) && bool_decide (is_Some (parse_origin (cf_return_origin c))) &&
          bool_decide (length (cf_allowed_origins c) = 1) && bool_decide (head (cf_allowed_origins c) = Some (cf_return_origin c)) &&
          forallb (λ o, negb (bool_decide (o = "*")) && bool_decide (is_Some (parse_origin o))) (cf_allowed_origins c) &&
          bool_decide (is_Some (parse_did (cf_node_audience c))) && origin_audience_matches (cf_target_origin c) (cf_node_audience c) &&
          bool_decide (cf_node_signing_kid c = cf_invitation_kid c) && canonical_kid_matches (cf_node_signing_kid c) (cf_node_audience c) &&
          negb (is_empty (cf_issuer_did c)) && bool_decide (cf_issuer_did c = OPEN_CREDENTIALS_ISSUER_DID) && bool_decide (cf_issuer_vct c = EMAIL_VCT) &&
          canonical_kid_matches (cf_issuer_kid c) (cf_issuer_did c) && negb (cf_issuer_key_version c =? 0)%N &&
          (0 <=? cf_clock_skew_seconds c)%Z && (cf_clock_skew_seconds c <=? 300)%Z && negb (cf_challenge_ttl_seconds c =? 0)%N &&
          (cf_challenge_ttl_seconds c <=? 120)%N && bool_decide (is_Some (cf_invitation_public_key c)) && bool_decide (is_Some (cf_issuer_public_key c)) &&
          match cf_authority_material_path c with Some path => negb (is_empty (trim path)) | None => false end &&
          negb (cf_readiness_max_age_seconds c =? 0)%N && (cf_readiness_max_age_seconds c <=? 300)%N)
    "share email configuration is incomplete".

Definition config_validate (c : ShareEmailConfig) : result string unit :=
  if negb (cf_enabled c) then Ok tt else c ← resolve_trust_bundle c; validate_fields c.

Definition validate_for_database (c : ShareEmailConfig) (database : string) : result string unit :=
  _ ← config_validate c;
  if negb (cf_enabled c) then Ok tt
  else if is_postgres_database database then
    _ ← ensure (bool_decide (pt_sslmode (cf_postgres_tls c) = "verify-full") && database_has_query database "sslmode" "verify-full" &&
                negb (database_has_forbidden_query database) && bool_decide (is_Some (pt_root_cert_path (cf_postgres_tls c))))
          "share email PostgreSQL requires sslmode=verify-full and a CA bundle";
    let root_cert := default "" (pt_root_cert_path (cf_postgres_tls c)) in
    ensure (negb (is_empty (trim root_cert)) && fs_is_file root_cert) "share email PostgreSQL CA bundle is missing"
  else
    ensure (bool_decide (pt_sslmode (cf_postgres_tls c) = "disabled") && bool_decide (pt_root_cert_path (cf_postgres_tls c) = None))
      "share email PostgreSQL TLS settings require a PostgreSQL database".

(** ** Trust comes from the bundle *)

Lemma resolve_Ok c r :
  cf_enabled c = true → resolve_trust_bundle c = Ok r →
  (cf_trust_bundle_path c = None ∧ fixture = true ∧ r = c) ∨
  ∃ path bytes b, cf_trust_bundle_path c = Some path ∧ fs_read path = Some bytes ∧ (String.length bytes ≤ 64 * 1024)%nat ∧ read_bundle bytes = Some b ∧
    bundle_validate b = Ok tt ∧ matches_config b c = Ok tt ∧ r = resolved_with b c.
Proof.
  unfold resolve_trust_bundle. intros ->. cbn [negb]. destruct (cf_trust_bundle_path c) as [path|]; [|destruct fixture; [intros [= <-]; by left|done]].
  intros Hr. right. ok_inv. exists path. eexists _, _. split_and!; try done. by apply Nat.leb_le.
Qed.

Lemma unset_or_same v : unset_or v v = true.
Proof. unfold unset_or. rewrite (bool_decide_eq_true_2 (v = v)) by done. apply orb_true_r. Qed.

Lemma matches_resolved b c : matches_config b c = Ok tt → matches_config b (resolved_with b c) = Ok tt.
Proof.
  unfold matches_config. intros Hm%ensure_Ok. rewrite !andb_true_iff in Hm. cbn [resolved_with cf_target_origin cf_node_audience cf_return_origin cf_allowed_origins
    cf_node_signing_kid cf_invitation_kid cf_invitation_public_key cf_issuer_did cf_issuer_vct cf_issuer_kid cf_issuer_key_version cf_issuer_public_key
    cf_share_origin cf_registry_origin cf_credentials_origin agrees].
  destruct Hm as [[[_ ->] ->] ->]. rewrite !unset_or_same, N.eqb_refl.
  rewrite (bool_decide_eq_true_2 (tb_return_origin b = tb_return_origin b)), (bool_decide_eq_true_2 ([_] = [tb_return_origin b])),
    (bool_decide_eq_true_2 (tb_issuer_vct b = tb_issuer_vct b)), !(bool_decide_eq_true_2 (tb_node_invitation_public_key b = _)),
    (bool_decide_eq_true_2 (tb_issuer_public_key b = _)) by done. by rewrite !orb_true_r.
Qed.

(** Resolving is stable: the settings the node starts with are resolved again when they
    are validated, and stay what they are. *)
Lemma resolve_stable c r : resolve_trust_bundle c = Ok r → resolve_trust_bundle r = Ok r.
Proof.
  destruct (cf_enabled c) eqn:He; [|unfold resolve_trust_bundle; rewrite He; intros [= <-]; by rewrite He].
  intros Hr. destruct (resolve_Ok c r He Hr) as [(Hp & Hf & ->)|(path & bytes & b & Hp & Hread & Hlen & Hb & Hv & Hm & ->)]; [exact Hr|].
  unfold resolve_trust_bundle. cbn [resolved_with cf_enabled cf_trust_bundle_path]. rewrite He, Hp. cbn [negb]. rewrite Hread. cbn [ok_or].
  rewrite bind_ret_l. rewrite (proj2 (Nat.leb_le _ _) Hlen). rewrite ensure_true, bind_ret_l, Hb. cbn [ok_or]. rewrite bind_ret_l, Hv, bind_ret_l.
  fold (resolved_with b c). by rewrite matches_resolved.
Qed.

(** What other nodes and people trust this node by. *)
Definition trust_of (c : ShareEmailConfig) : list string * list (option string) * N :=
  ([cf_target_origin c; cf_node_audience c; cf_return_origin c; cf_node_signing_kid c; cf_invitation_kid c; cf_issuer_did c; cf_issuer_vct c; cf_issuer_kid c]
   ++ cf_allowed_origins c, [cf_invitation_public_key c; cf_issuer_public_key c], cf_issuer_key_version c).

(** In a production build trust comes from the mounted bundle alone.  Whatever else two
    configurations say, the nodes they start have the same origins, audience, keys and
    issuer when they name the same bundle; a setting that disagrees with the bundle stops
    the start instead of overriding it. *)
Theorem trust_from_bundle (c c' r r' : ShareEmailConfig) :
  fixture = false → cf_enabled c = true → cf_enabled c' = true → cf_trust_bundle_path c = cf_trust_bundle_path c' →
  resolve_trust_bundle c = Ok r → resolve_trust_bundle c' = Ok r' → trust_of r = trust_of r'.
Proof.
  intros Hf He He' Hp Hr Hr'. destruct (resolve_Ok c r He Hr) as [(_ & Hx & _)|(path & bytes & b & Hpath & Hread & _ & Hb & _ & _ & ->)]; [congruence|].
  destruct (resolve_Ok c' r' He' Hr') as [(_ & Hx & _)|(path' & bytes' & b' & Hpath' & Hread' & _ & Hb' & _ & _ & ->)]; [congruence|].
  assert (b = b') as <- by congruence. done.
Qed.

(** The query of a database URL holds the key exactly once. *)
Definition values_of (key : string) (pairs : list string) : list string :=
  omap (λ item, '(k, v) ← split_once "=" item; if bool_decide (k = key) then Some v else None) pairs.

Lemma query_value_spec key pairs found v :
  query_value key pairs found = Some (Some v) → match found with Some w => w = v ∧ values_of key pairs = [] | None => values_of key pairs = [v] end.
Proof.
  revert found. induction pairs as [|item pairs IH]; intros found; cbn [query_value].
  - by intros [= ->].
  - unfold values_of. cbn [omap list_omap]. destruct (split_once "=" item) as [[k w]|]; cbn [mbind option_bind]; [|apply IH].
    destruct (bool_decide (k = key)); [|apply IH]. destruct found as [w'|]; [done|]. intros [-> Hn]%IH. unfold values_of in Hn. by rewrite Hn.
Qed.

(** A node with email shares reaches a PostgreSQL database only with its certificate
    verified: the URL asks for [verify-full] once and sets no other TLS parameter. *)
Theorem postgres_verified (c : ShareEmailConfig) (database base query : string) :
  cf_enabled c = true → is_postgres_database database = true → split_once "?" database = Some (base, query) →
  validate_for_database c database = Ok tt →
  values_of "sslmode" (split_char "&" query) = ["verify-full"] ∧ Forall (λ key, values_of key (split_char "&" query) = []) FORBIDDEN.
Proof.
  unfold validate_for_database. intros He Hp Hq Hv. apply bind_Ok in Hv as (? & _ & Hv). rewrite He, Hp in Hv. cbn [negb] in Hv.
  apply bind_Ok in Hv as (? & Hg%ensure_Ok & _). rewrite !andb_true_iff in Hg. destruct Hg as [[[_ Hssl] Hforb] _].
  unfold database_has_query in Hssl. rewrite Hq in Hssl. apply bool_decide_eq_true, query_value_spec in Hssl. split; [exact Hssl|].
  apply negb_true_iff in Hforb. unfold database_has_forbidden_query in Hforb. rewrite Hq in Hforb. apply Forall_forall. intros key Hkey.
  clear Hssl. unfold values_of. induction (split_char "&" query) as [|item l IH]; [done|]. cbn [existsb] in Hforb. apply orb_false_iff in Hforb as [Hi Hl].
  cbn [omap list_omap]. destruct (split_once "=" item) as [[k v]|]; cbn [mbind option_bind]; [|by apply IH].
  apply bool_decide_eq_false in Hi. rewrite (bool_decide_eq_false_2 (k = key)) by (intros ->; by apply Hi). by apply IH.
Qed.

End Config.

(** ** A concrete bundle *)

Definition bundle_urls : UrlLib := λ s, host ← strip_prefix "https://" s; Some (mkUrl "https" s "/" None None "" None None (Some host)).
Definition bundle_lib : EvidenceLib := {| b64url_encode := λ s, s; b64url_decode := Some; multibase_decode := λ _, None; ed25519_verify := λ _ _ _, true |}.
Definition bundle_key : string := "0123456789abcdef0123456789abcdef".
Definition bundle_json (host : string) : raw :=
  RObject [("version", RString "tinycloud.share-email-trust-bundle/v1"); ("shareOrigin", RString "https://share.tinycloud.xyz");
           ("returnOrigin", RString "https://share.tinycloud.xyz"); ("registryOrigin", RString "https://registry.tinycloud.xyz");
           ("credentialsOrigin", RString "https://witness.credentials.org"); ("nodeOrigin", RString ("https://" +:+ host));
           ("nodeAudience", RString ("did:web:" +:+ host)); ("nodeInvitationKid", RString ("did:web:" +:+ host +:+ "#invitation-key-1"));
           ("nodeInvitationPublicKey", RString bundle_key); ("nodeKeyVersion", RInt 1); ("nodeEnabled", RBool true);
           ("issuerDid", RString "did:web:issuer.credentials.org"); ("issuerVct", RString "opencredentials.email/v1");
           ("issuerKid", RString "did:web:issuer.credentials.org#1"); ("issuerPublicKey", RString bundle_key); ("issuerKeyVersion", RInt 1);
           ("issuerEnabled", RBool true)] true.
Definition bundle_text : JsonText := {| json_read := λ host, (bundle_json host, true); float_unsafe := λ _, false |}.
#[local] Existing Instances bundle_urls bundle_lib bundle_text.

(** The file at a path holds the bundle of the node named by the path. *)
Definition bundle_config (origin path : string) : ShareEmailConfig :=
  mkShareEmailConfig true origin "" default_share_return_origin default_share_allowed_origins "" "" None "" EMAIL_VCT "" 1 None (Some "material") (Some path)
    None None None default_postgres_tls 300 30 120 "default".
Definition bundle_resolved (origin path : string) : ShareEmailConfig :=
  match resolve_trust_bundle false Some (bundle_config origin path) with Ok r => r | Err _ => default_share_email_config end.

Lemma trust_from_bundle_witness :
  trust_of (bundle_resolved "" "node.tinycloud.xyz") = trust_of (bundle_resolved "https://node.tinycloud.xyz" "node.tinycloud.xyz").
Proof.
  refine (trust_from_bundle false Some (bundle_config "" "node.tinycloud.xyz") (bundle_config "https://node.tinycloud.xyz" "node.tinycloud.xyz") _ _ _ _ _ _ _ _);
    vm_compute; reflexivity.
Defined.

(** A setting that disagrees stops the start. *)
Example bundle_disagrees :
  resolve_trust_bundle false Some (bundle_config "https://other.tinycloud.xyz" "node.tinycloud.xyz") =
    Err "share email trust bundle disagrees with configured trust".
Proof. vm_compute. reflexivity. Qed.

(** The words that mark a fixture are looked for anywhere in a text: a production bundle
    for a host such as attestation.tinycloud.xyz, which holds the letters of [test], is
    refused. *)
Theorem attestation_host_refused :
  resolve_trust_bundle false Some (bundle_config "" "attestation.tinycloud.xyz") = Err "share email trust bundle is inconsistent" ∧
  is_placeholder_domain "https://attestation.tinycloud.xyz" = false.
Proof. split; vm_compute; reflexivity. Qed.
