(* ===== verification/ShareRoute.v ===== *)
(** * Email shares, routes: tinycloud-node-server/src/share_email.rs

    The four routes of the protocol with their JSON bodies and the stores behind the
    data plane.  A handler gets the bytes of a body and the two databases of the
    bridge and yields an answer or an error with a status and a code, and the
    databases: what an earlier transaction of the handler committed stays when a
    later step fails.  The clock, the random bytes and the providers at each call of
    the bridge are arguments. *)
From stdpp Require Import sorting.
From S2P Require Import Prelude Handler Str Chars Identity Json Resource Registry SqlCaveat Tables Jcs PolicyCapability Evidence PolicyDelegation PolicyMemory PolicyWalk PolicyDatabase PolicyRefinement PolicyVerifier ShareTypes ShareInvitation ShareState ShareVerifier ShareBridge ShareRuns Storage Kv Artifacts SqlParser ShareRead SqlAuthorizer SqlService ShareConfig.

Definition POLICY_CHALLENGE_DOMAIN : string := "xyz.tinycloud.share/policy-challenge/v1" +:+ String (char 0) "".
Definition POLICY_SESSION_DOMAIN : string := "xyz.tinycloud.share/policy-session/v1" +:+ String (char 0) "".
Definition READ_RESPONSE_DOMAIN : string := "xyz.tinycloud.share/read-response/v1" +:+ String (char 0) "".
Definition PRESENTATION_DOMAIN : string := "xyz.tinycloud.share/policy-presentation/v1" +:+ String (char 0) "".

(** A status and a code. *)
Definition ApiError : Type := N * string.

(** ** Bodies as serde reads them *)

(** The members of a struct that takes no others: of an object, or in their order. *)
Definition struct_of (names : list string) (v : json) : option (list (string * json)) :=
  match v with
  | JObject m => if forallb (λ kv, bool_decide (kv.1 ∈ names)) m then Some m else None
  | JArray l => if (length l =? length names)%nat then Some (zip names l) else None
  | _ => None
  end.

Definition field {A} (de : json → option A) (key : string) (m : list (string * json)) : option A := obj_get key m ≫= de.
Definition de_text (parse : string → option string) (v : json) : option string := as_str v ≫= parse.
Definition de_version (v : json) : option N :=
  match v with JNumber (NInt z) => if bool_decide (0 ≤ z < 256)%Z then Some (Z.to_N z) else None | _ => None end.

(** A unit variant: its name, or an object with the name and null. *)
Definition de_unit_variant (v : json) : option string :=
  match v with JString s => Some s | JObject [(s, JNull)] => Some s | _ => None end.
Definition de_action (v : json) : option ShareAction :=
  s ← de_unit_variant v;
  if bool_decide (s = KV_GET_ACTION) then Some KvGet else if bool_decide (s = SQL_READ_ACTION) then Some SqlRead else None.

(** In the content of a tagged enum serde takes an empty object for null as well. *)
Definition de_content_variant (name : string) (v : json) : option unit :=
  match v with
  | JString s | JObject [(s, JNull)] | JObject [(s, JObject [])] => if bool_decide (s = name) then Some tt else None
  | _ => None
  end.

Definition de_safe_integer (v : json) : option Z :=
  match v with JNumber (NInt z) => if bool_decide (-2^63 ≤ z < 2^63)%Z then parse_safe_integer z else None | _ => None end.
Definition de_arguments (v : json) : option (list (string * Z)) :=
  m ← as_object v; mapM (λ kv, z ← de_safe_integer kv.2; Some (kv.1, z)) m.

Section Bodies.
Context `{FloatText} `{Sha256} `{EvidenceLib}.

Definition KV_SOURCE_FIELDS : list string := ["action"; "space"; "path"].
Definition SQL_SOURCE_FIELDS : list string := ["action"; "space"; "database"; "path"; "statement"; "arguments"; "argumentsDigest"].

Definition de_source (v : json) : option ContentSource :=
  '(kind, rest) ← match v with
    | JObject m => kind ← field as_str "kind" m; Some (kind, JObject (List.filter (λ kv, negb (bool_decide (kv.1 = "kind"))) m))
    | JArray (JString kind :: l) => Some (kind, JArray l)
    | _ => None
    end;
  if bool_decide (kind = "kv") then
    m ← struct_of KV_SOURCE_FIELDS rest;
    _ ← field (de_content_variant KV_GET_ACTION) "action" m;
    space ← field (de_text parse_did) "space" m;
    path ← field (de_text parse_path) "path" m;
    Some (KvSource space path)
  else if bool_decide (kind = "sql") then
    m ← struct_of SQL_SOURCE_FIELDS rest;
    _ ← field (de_content_variant SQL_READ_ACTION) "action" m;
    space ← field (de_text parse_did) "space" m;
    database ← field (de_text parse_database) "database" m;
    path ← field (de_text parse_path) "path" m;
    statement ← field (de_text parse_named_statement) "statement" m;
    arguments ← field de_arguments "arguments" m;
    digest ← field (de_text parse_digest) "argumentsDigest" m;
    Some (SqlSource space database path statement arguments digest)
  else None.

Record DetachedProof := mkDetachedProof { dp_alg : string; dp_kid : string; dp_signature : string }.
Definition proof_value (p : DetachedProof) : json :=
  JObject [("alg", JString (dp_alg p)); ("kid", JString (dp_kid p)); ("signature", JString (dp_signature p))].
Definition de_proof (v : json) : option DetachedProof :=
  m ← struct_of ["alg"; "kid"; "signature"] v;
  alg ← field as_str "alg" m; kid ← field as_str "kid" m; signature ← field as_str "signature" m;
  Some (mkDetachedProof alg kid signature).

(** *** The challenge *)

Record PolicyChallengeRequest := mkPolicyChallengeRequest {
  wq_share_cid : string;
  wq_share_id : string;
  wq_delegation_cid : string;
  wq_material_handle : string;
  wq_material_digest : string;
  wq_policy_cid : string;
  wq_source : ContentSource;
  wq_source_digest : string;
  wq_holder : string;
  wq_target_origin : string;
  wq_node_audience : string;
  wq_action : ShareAction;
  wq_resource : string;
  wq_body_digest : string;
}.

Definition CHALLENGE_REQUEST_FIELDS : list string :=
  ["shareCid"; "shareId"; "delegationCid"; "authorityMaterialHandle"; "authorityMaterialDigest"; "policyCid"; "contentSource"; "contentSourceDigest";
   "holderDid"; "targetOrigin"; "nodeAudience"; "action"; "resource"; "requestBodyDigest"].

Definition read_request_fields (m : list (string * json)) : option PolicyChallengeRequest :=
  share_cid ← field (de_text parse_share_cid) "shareCid" m;
  share_id ← field (de_text parse_share_id) "shareId" m;
  delegation ← field (de_text parse_share_delegation) "delegationCid" m;
  handle ← field (de_text parse_material_handle) "authorityMaterialHandle" m;
  digest ← field (de_text parse_digest) "authorityMaterialDigest" m;
  policy ← field (de_text parse_policy_cid) "policyCid" m;
  source ← field de_source "contentSource" m;
  source_digest ← field (de_text parse_digest) "contentSourceDigest" m;
  holder ← field (de_text parse_did_key) "holderDid" m;
  origin ← field (de_text parse_origin) "targetOrigin" m;
  audience ← field (de_text parse_did) "nodeAudience" m;
  action ← field de_action "action" m;
  resource ← field (de_text parse_path) "resource" m;
  body_digest ← field (de_text parse_digest) "requestBodyDigest" m;
  Some (mkPolicyChallengeRequest share_cid share_id delegation handle digest policy source source_digest holder origin audience action resource body_digest).

Definition de_challenge_request (v : json) : option PolicyChallengeRequest := m ← struct_of CHALLENGE_REQUEST_FIELDS v; read_request_fields m.

(** The members a request has in common with what is made of it. *)
Definition request_fields (q : PolicyChallengeRequest) : list (string * json) :=
  [("shareCid", JString (wq_share_cid q)); ("shareId", JString (wq_share_id q)); ("delegationCid", JString (wq_delegation_cid q));
   ("authorityMaterialHandle", JString (wq_material_handle q)); ("authorityMaterialDigest", JString (wq_material_digest q));
   ("policyCid", JString (wq_policy_cid q)); ("contentSource", source_value (wq_source q)); ("contentSourceDigest", JString (wq_source_digest q));
   ("holderDid", JString (wq_holder q)); ("targetOrigin", JString (wq_target_origin q)); ("nodeAudience", JString (wq_node_audience q));
   ("action", JString (action_name (wq_action q))); ("resource", JString (wq_resource q)); ("requestBodyDigest", JString (wq_body_digest q))].

(** [serde_json::to_value] of a struct. *)
Definition object_of (l : list (string * json)) : json := JObject (foldl (λ m kv, obj_insert kv.1 kv.2 m) [] l).
Definition challenge_request_value (q : PolicyChallengeRequest) : json := object_of (request_fields q).

(** The members of the request are those of [pc_request]. *)
Record PolicyChallenge := mkPolicyChallenge {
  pc_challenge_id : string;
  pc_nonce : string;
  pc_request : PolicyChallengeRequest;
  pc_enforcer : string;
  pc_issued_at : string;
  pc_expires_at : string;
}.
Definition challenge_value (c : PolicyChallenge) : json :=
  object_of ([("type", JString "TinyCloudSharePolicyChallenge"); ("version", JNumber (NInt 1)); ("challengeId", JString (pc_challenge_id c));
              ("nonce", JString (pc_nonce c))] ++ request_fields (pc_request c) ++
             [("enforcerDid", JString (pc_enforcer c)); ("issuedAt", JString (pc_issued_at c)); ("expiresAt", JString (pc_expires_at c))]).

(** *** The session *)

(** The members of the request are those of [pp_request]. *)
Record PolicyPresentation := mkPolicyPresentation {
  pp_type : string;
  pp_version : N;
  pp_challenge_id : string;
  pp_nonce : string;
  pp_request : PolicyChallengeRequest;
  pp_enforcer : string;
  pp_credential_digest : string;
  pp_issued_at : string;
  pp_expires_at : string;
  pp_jti : string;
}.

Definition PRESENTATION_FIELDS : list string :=
  ["type"; "version"; "challengeId"; "nonce"; "shareCid"; "shareId"; "delegationCid"; "authorityMaterialHandle"; "authorityMaterialDigest"; "policyCid";
   "contentSource"; "contentSourceDigest"; "holderDid"; "targetOrigin"; "nodeAudience"; "enforcerDid"; "credentialDigest"; "action"; "resource";
   "requestBodyDigest"; "issuedAt"; "expiresAt"; "jti"].

Definition de_presentation (v : json) : option PolicyPresentation :=
  m ← struct_of PRESENTATION_FIELDS v;
  type ← field as_str "type" m;
  version ← field de_version "version" m;
  challenge_id ← field (de_text parse_nonce) "challengeId" m;
  nonce ← field (de_text parse_nonce) "nonce" m;
  q ← read_request_fields m;
  enforcer ← field (de_text parse_did_key) "enforcerDid" m;
  credential ← field (de_text parse_digest) "credentialDigest" m;
  issued ← field as_str "issuedAt" m;
  expires ← field as_str "expiresAt" m;
  jti ← field (de_text parse_jti) "jti" m;
  Some (mkPolicyPresentation type version challenge_id nonce q enforcer credential issued expires jti).

Definition presentation_value (p : PolicyPresentation) : json :=
  object_of ([("type", JString (pp_type p)); ("version", JNumber (NInt (Z.of_N (pp_version p)))); ("challengeId", JString (pp_challenge_id p));
              ("nonce", JString (pp_nonce p))] ++ request_fields (pp_request p) ++
             [("enforcerDid", JString (pp_enforcer p)); ("credentialDigest", JString (pp_credential_digest p)); ("issuedAt", JString (pp_issued_at p));
              ("expiresAt", JString (pp_expires_at p)); ("jti", JString (pp_jti p))]).

Record SessionRequest := mkSessionRequest {
  sr_presentation : PolicyPresentation;
  sr_credential : string;
  sr_proof : DetachedProof;
  sr_holder_binding : json;
  sr_read_signer : string;
}.

Definition de_session_request (v : json) : option SessionRequest :=
  m ← struct_of ["presentation"; "credential"; "proof"; "holderBinding"; "readSignerDid"] v;
  p ← field de_presentation "presentation" m;
  credential ← field as_str "credential" m;
  proof ← field de_proof "proof" m;
  binding ← field Some "holderBinding" m;
  signer ← field (de_text parse_did_key) "readSignerDid" m;
  Some (mkSessionRequest p credential proof binding signer).

Definition session_request_value (r : SessionRequest) : json :=
  object_of [("presentation", presentation_value (sr_presentation r)); ("credential", JString (sr_credential r)); ("proof", proof_value (sr_proof r));
             ("holderBinding", sr_holder_binding r); ("readSignerDid", JString (sr_read_signer r))].

(** The members of the presentation that a session repeats. *)
Definition session_value (p : PolicyPresentation) (session_id credential_digest issued expires : string) : json :=
  object_of ([("type", JString "TinyCloudSharePolicySession"); ("version", JNumber (NInt 1)); ("sessionId", JString session_id)] ++
             List.filter (λ kv, negb (bool_decide (kv.1 = "requestBodyDigest"))) (request_fields (pp_request p)) ++
             [("credentialDigest", JString credential_digest); ("issuedAt", JString issued); ("expiresAt", JString expires)]).

(** *** The read *)

(** The members of the request are those of [ri_request]. *)
Record ReadInvocation := mkReadInvocation {
  ri_type : string;
  ri_version : N;
  ri_session : string;
  ri_request : PolicyChallengeRequest;
  ri_issued_at : string;
  ri_expires_at : string;
  ri_jti : string;
}.

Definition READ_INVOCATION_FIELDS : list string :=
  ["type"; "version"; "sessionId"; "shareCid"; "shareId"; "policyCid"; "delegationCid"; "authorityMaterialHandle"; "authorityMaterialDigest";
   "contentSource"; "contentSourceDigest"; "holderDid"; "targetOrigin"; "nodeAudience"; "action"; "resource"; "requestBodyDigest"; "issuedAt";
   "expiresAt"; "jti"].

Definition de_read_invocation (v : json) : option ReadInvocation :=
  m ← struct_of READ_INVOCATION_FIELDS v;
  type ← field as_str "type" m;
  version ← field de_version "version" m;
  session ← field (de_text parse_session) "sessionId" m;
  q ← read_request_fields m;
  issued ← field as_str "issuedAt" m;
  expires ← field as_str "expiresAt" m;
  jti ← field (de_text parse_jti) "jti" m;
  Some (mkReadInvocation type version session q issued expires jti).

Definition read_invocation_value (i : ReadInvocation) : json :=
  object_of ([("type", JString (ri_type i)); ("version", JNumber (NInt (Z.of_N (ri_version i)))); ("sessionId", JString (ri_session i))] ++
             request_fields (ri_request i) ++
             [("issuedAt", JString (ri_issued_at i)); ("expiresAt", JString (ri_expires_at i)); ("jti", JString (ri_jti i))]).

Record ReadRequest := mkReadRequest {
  rq_session : string;
  rq_delegation_cid : string;
  rq_material_handle : string;
  rq_material_digest : string;
  rq_source : ContentSource;
  rq_source_digest : string;
  rq_action : ShareAction;
  rq_resource : string;
  rq_body_digest : string;
  rq_invocation : ReadInvocation;
  rq_proof : DetachedProof;
}.

Definition READ_REQUEST_FIELDS : list string :=
  ["sessionId"; "delegationCid"; "authorityMaterialHandle"; "authorityMaterialDigest"; "contentSource"; "contentSourceDigest"; "action"; "resource";
   "requestBodyDigest"; "invocation"; "proof"].

Definition de_read_request (v : json) : option ReadRequest :=
  m ← struct_of READ_REQUEST_FIELDS v;
  session ← field (de_text parse_session) "sessionId" m;
  delegation ← field (de_text parse_share_delegation) "delegationCid" m;
  handle ← field (de_text parse_material_handle) "authorityMaterialHandle" m;
  digest ← field (de_text parse_digest) "authorityMaterialDigest" m;
  source ← field de_source "contentSource" m;
  source_digest ← field (de_text parse_digest) "contentSourceDigest" m;
  action ← field de_action "action" m;
  resource ← field (de_text parse_path) "resource" m;
  body_digest ← field (de_text parse_digest) "requestBodyDigest" m;
  invocation ← field de_read_invocation "invocation" m;
  proof ← field de_proof "proof" m;
  Some (mkReadRequest session delegation handle digest source source_digest action resource body_digest invocation proof).

Definition read_request_value (r : ReadRequest) : json :=
  object_of [("sessionId", JString (rq_session r)); ("delegationCid", JString (rq_delegation_cid r));
             ("authorityMaterialHandle", JString (rq_material_handle r)); ("authorityMaterialDigest", JString (rq_material_digest r));
             ("contentSource", source_value (rq_source r)); ("contentSourceDigest", JString (rq_source_digest r));
             ("action", JString (action_name (rq_action r))); ("resource", JString (rq_resource r)); ("requestBodyDigest", JString (rq_body_digest r));
             ("invocation", read_invocation_value (rq_invocation r)); ("proof", proof_value (rq_proof r))].

(** The answer's members other than the proof; [q] is the request of the invocation,
    the delegation and material are those of the body. *)
Record ReadResponse := mkReadResponse {
  rs_session : string;
  rs_jti : string;
  rs_request : PolicyChallengeRequest;
  rs_credential_digest : string;
  rs_issued_at : string;
  rs_expires_at : string;
  rs_media_type : string;
  rs_content : string;
  rs_body_digest : string;
  rs_delegation_cid : string;
  rs_material_handle : string;
  rs_material_digest : string;
}.

Definition response_value (r : ReadResponse) : json :=
  let q := rs_request r in
  object_of [("type", JString "TinyCloudShareReadResponse"); ("version", JNumber (NInt 1)); ("sessionId", JString (rs_session r));
             ("requestJti", JString (rs_jti r)); ("readJti", JString (rs_jti r)); ("audience", JString (wq_node_audience q));
             ("holderDid", JString (wq_holder q)); ("credentialDigest", JString (rs_credential_digest r)); ("issuedAt", JString (rs_issued_at r));
             ("expiresAt", JString (rs_expires_at r)); ("mediaType", JString (rs_media_type r)); ("content", JString (rs_content r));
             ("contentSource", source_value (wq_source q)); ("contentSourceDigest", JString (wq_source_digest q));
             ("action", JString (action_name (wq_action q))); ("resource", JString (wq_resource q)); ("requestBodyDigest", JString (wq_body_digest q));
             ("bodyDigest", JString (rs_body_digest r)); ("delegationCid", JString (rs_delegation_cid r));
             ("authorityMaterialHandle", JString (rs_material_handle r)); ("authorityMaterialDigest", JString (rs_material_digest r))].

(** *** The invitation *)

(** The request has the members of the input of the authorization it asks for. *)
Definition INVITATION_REQUEST_FIELDS : list string :=
  ["jti"; "reportAbuseToken"; "senderDid"; "shareCid"; "shareId"; "delegationCid"; "authorityMaterialHandle"; "authorityMaterialDigest"; "policyCid";
   "recipientEmail"; "targetOrigin"; "nodeAudience"; "documentName"; "senderTrust"; "contentSource"; "contentSourceDigest"; "shareExpiresAt";
   "requestBodyDigest"].

Definition ok_of {X A} (r : result X A) : option A := match r with Ok a => Some a | Err _ => None end.

Definition de_sender_trust (v : json) : option SenderTrust :=
  s ← de_unit_variant v;
  if bool_decide (s = "verified") then Some Verified else if bool_decide (s = "unverified") then Some Unverified else None.

Definition de_invitation_request (v : json) : option InvitationAuthorizationInput :=
  m ← struct_of INVITATION_REQUEST_FIELDS v;
  jti ← field (de_text parse_jti) "jti" m;
  abuse ← field (de_text parse_jti) "reportAbuseToken" m;
  sender ← field (de_text parse_did_key) "senderDid" m;
  share_cid ← field (de_text parse_share_cid) "shareCid" m;
  share_id ← field (de_text parse_share_id) "shareId" m;
  delegation ← field (de_text parse_share_delegation) "delegationCid" m;
  handle ← field (de_text parse_material_handle) "authorityMaterialHandle" m;
  digest ← field (de_text parse_digest) "authorityMaterialDigest" m;
  policy ← field (de_text parse_policy_cid) "policyCid" m;
  email ← field (de_text (ok_of ∘ parse_canonical_email)) "recipientEmail" m;
  origin ← field (de_text parse_origin) "targetOrigin" m;
  audience ← field (de_text parse_did) "nodeAudience" m;
  document ← field (de_text (ok_of ∘ parse_document_name)) "documentName" m;
  trust ← field de_sender_trust "senderTrust" m;
  source ← field de_source "contentSource" m;
  source_digest ← field (de_text parse_digest) "contentSourceDigest" m;
  expires ← field as_str "shareExpiresAt" m;
  body_digest ← field (de_text parse_digest) "requestBodyDigest" m;
  Some (mkInvitationInput jti abuse sender share_cid share_id policy delegation handle digest email origin audience document trust source
          source_digest expires body_digest).

Definition invitation_request_value (i : InvitationAuthorizationInput) : json :=
  object_of [("jti", JString (in_jti i)); ("reportAbuseToken", JString (in_abuse_token i)); ("senderDid", JString (in_sender i));
             ("shareCid", JString (in_share_cid i)); ("shareId", JString (in_share_id i)); ("delegationCid", JString (in_delegation_cid i));
             ("authorityMaterialHandle", JString (in_material_handle i)); ("authorityMaterialDigest", JString (in_material_digest i));
             ("policyCid", JString (in_policy_cid i)); ("recipientEmail", JString (in_recipient i)); ("targetOrigin", JString (in_target_origin i));
             ("nodeAudience", JString (in_node_audience i)); ("documentName", JString (in_document_name i));
             ("senderTrust", JString match in_sender_trust i with Verified => "verified" | Unverified => "unverified" end);
             ("contentSource", source_value (in_source i)); ("contentSourceDigest", JString (in_source_digest i));
             ("shareExpiresAt", JString (in_share_expires_at i)); ("requestBodyDigest", JString (in_request_body_digest i))].

Definition de_invitation_envelope (v : json) : option (InvitationAuthorizationInput * DetachedProof) :=
  m ← struct_of ["request"; "proof"] v;
  request ← field de_invitation_request "request" m;
  proof ← field de_proof "proof" m;
  Some (request, proof).

(** ** Digests and signatures *)

Definition digest (v : json) : string := sha256_b64 (canonicalize v).
Definition digest_text (text : string) : string := sha256_b64 text.

Definition verify_canonical_body_digest (preimage : json) (claimed : string) : bool := bool_decide (digest preimage = claimed).

Definition without (key : string) (m : list (string * json)) : list (string * json) := List.filter (λ kv, negb (bool_decide (kv.1 = key))) m.
Definition has_key (key : string) (m : list (string * json)) : bool := bool_decide (is_Some (obj_get key m)).

Definition verify_request_body_digest (request : json) (claimed : string) : bool :=
  match request with
  | JObject m => has_key "requestBodyDigest" m && verify_canonical_body_digest (JObject (without "requestBodyDigest" m)) claimed
  | _ => false
  end.

Definition invitation_request_body (i : InvitationAuthorizationInput) : json :=
  object_of [("shareCid", JString (in_share_cid i)); ("shareId", JString (in_share_id i)); ("policyCid", JString (in_policy_cid i));
             ("delegationCid", JString (in_delegation_cid i)); ("authorityMaterialHandle", JString (in_material_handle i));
             ("authorityMaterialDigest", JString (in_material_digest i)); ("recipientEmail", JString (in_recipient i));
             ("targetOrigin", JString (in_target_origin i)); ("nodeAudience", JString (in_node_audience i));
             ("action", JString match in_source i with KvSource _ _ => "tinycloud.kv/get" | SqlSource _ _ _ _ _ _ => "tinycloud.sql/read" end);
             ("resource", JString (source_path (in_source i)))].

Definition set_key (key : string) (v : json) (m : list (string * json)) : list (string * json) :=
  (λ kv, if bool_decide (kv.1 = key) then (key, v) else kv) <$> m.

Definition verify_read_request_body_digest (request : json) (outer inner : string) : bool :=
  match request with
  | JObject m =>
      let m := without "proof" m in
      has_key "requestBodyDigest" m &&
      (let m := without "requestBodyDigest" m in
       match obj_get "invocation" m with
       | Some (JObject i) =>
           has_key "requestBodyDigest" i &&
           (let computed := digest (JObject (set_key "invocation" (JObject (without "requestBodyDigest" i)) m)) in
            bool_decide (computed = outer) && bool_decide (computed = inner))
       | _ => false
       end)
  | _ => false
  end.

(** The key id of a did:key. *)
Definition did_key_kid (signer : string) : string := signer +:+ "#" +:+ trim_start_text (String.length signer) "did:key:" signer.

Definition verify_did_key_signature `{Libp2pVerify} (signer : string) (proof : DetachedProof) (domain : string) (message : json) : bool :=
  bool_decide (dp_alg proof = "EdDSA") && bool_decide (dp_kid proof = did_key_kid signer) &&
  match strip_prefix "did:key:" signer with
  | Some encoded =>
      match multibase_decode encoded, b64url_decode (dp_signature proof) with
      | Some bytes, Some signature =>
          match string_bytes bytes with
          | (237 :: 1 :: rest)%N =>
              (length rest =? 32)%nat && (String.length signature =? 64)%nat &&
              libp2p_verify (String.substring 2 32 bytes) (domain +:+ canonicalize message) signature
          | _ => false
          end
      | _, _ => false
      end
  | None => false
  end.

(** The node's own proofs. *)
Definition sign (signer : InvitationSigner) (domain : string) (message : json) : option DetachedProof :=
  signature ← is_sign signer (domain +:+ canonicalize message);
  Some (mkDetachedProof "EdDSA" (is_kid signer) (b64url_encode signature)).

End Bodies.

(** ** The node *)

(** [root_signer] is the bridge's. *)
Record ShareEmailRuntime := mkShareEmailRuntime {
  rt_config : ShareEmailConfig;
  rt_verifier : ExactEmailVerifier;
  rt_signer : InvitationSigner;
  rt_root_signer : option NodeRootSigner;
}.

(** [ShareOriginGuard]: a browser's origin is the configured one. *)
Definition share_origin_guard (runtime : option ShareEmailRuntime) (origin : option string) : result ApiError unit :=
  match origin with
  | None => Ok tt
  | Some origin =>
      ensure (bool_decide ((rt ← runtime; head (cf_allowed_origins (rt_config rt))) = Some origin)) (403%N, "")
  end.

Section Routes.
Context `{Rfc3339} `{ShareTime} `{Nfc} `{FloatText} `{Sha256} `{DbTime} `{JsonText} `{EvidenceLib} `{Blake3} `{CidLib} `{Keccak256} `{Recover}
        `{Libp2pVerify}.
Context (json_print : json → string).

Definition capability_unavailable (status : N) : ApiError := (status, "capability_unavailable").

Definition bounded (v : json) : bool := (N.of_nat (String.length (json_print v)) <=? MAX_REQUEST_BODY_BYTES)%N.

Definition read_bounded_json (body : string) : result ApiError json :=
  _ ← ensure (N.of_nat (String.length body) <=? MAX_REQUEST_BODY_BYTES)%N (413%N, "invalid_content_source");
  ok_or (read_json body) (400%N, "invalid_content_source").

Definition ready (runtime : option ShareEmailRuntime) : result ApiError ShareEmailRuntime := ok_or runtime (capability_unavailable 503).

(** [timestamp]; a time the format has no text for is a panic, which is answered as
    an internal error. *)
Definition wire_timestamp (t : Z) : result ApiError string := ok_or (millis_text t) (500%N, "").

(** ** Scopes *)

Definition source_resource (c : ContentSource) : ExactResource :=
  match c with KvSource _ path => KvResource path | SqlSource _ database path statement _ _ => SqlResource database path statement end.

Definition action_of_kind (a : ShareAction) (c : ContentSource) : bool :=
  match a, c with KvGet, KvSource _ _ | SqlRead, SqlSource _ _ _ _ _ _ => true | _, _ => false end.

Definition scope_from_request (q : PolicyChallengeRequest) (config : ShareEmailConfig) : option ShareScope :=
  let source := wq_source q in
  if (match source with
      | KvSource _ _ => true
      | SqlSource _ _ _ _ arguments arguments_digest => bool_decide (digest (arguments_value arguments) = arguments_digest)
      end) &&
     bool_decide (digest (source_value source) = wq_source_digest q) && bool_decide (wq_resource q = source_path source) &&
     bool_decide (wq_target_origin q = cf_target_origin config) && bool_decide (wq_node_audience q = cf_node_audience config) &&
     action_of_kind (wq_action q) source
  then Some (mkShareScope (wq_share_cid q) (wq_share_id q) (Some (wq_delegation_cid q)) (wq_material_handle q) (wq_material_digest q) (wq_policy_cid q)
               (wq_node_audience q) (wq_target_origin q) (wq_action q) (source_resource source) source (wq_source_digest q))
  else None.

Definition scope_from_presentation (p : PolicyPresentation) (config : ShareEmailConfig) : option ShareScope :=
  if verify_request_body_digest (challenge_request_value (pp_request p)) (wq_body_digest (pp_request p))
  then scope_from_request (pp_request p) config else None.

(** ** Challenges *)

Definition policy_error {A} (e : ApiError) (r : result PortError A) : result ApiError A := map_err (λ _, e) r.

Definition challenge_row (challenge_id nonce request_digest ip : string) (scope : ShareScope) (now expires : Z) (body_bytes : N)
    : AnonymousChallengeRequest :=
  mkAnonymousChallengeRequest challenge_id request_digest (JObject [("requestDigest", JString request_digest)])
    (digest (JString (sc_target_origin scope))) (digest (JString ip)) (digest (JString (sc_share_cid scope))) (digest_text nonce)
    now expires body_bytes 120 240 60.

(** [P] and [P'] are the providers at the two calls of the bridge, [id] and [nonce]
    the random bytes, [ip] the text of the client's address. *)
Definition policy_challenge (runtime : option ShareEmailRuntime) (P P' : Providers) (origin : option string) (ip : string) (now : Z) (id nonce : list N)
    (body : string) : handler BridgeDb ApiError json :=
  _ ← answer (share_origin_guard runtime origin);
  rt ← answer (ready runtime);
  value ← answer (read_bounded_json body);
  q ← answer (ok_or (de_challenge_request value) (400%N, "invalid_content_source"));
  let body_bytes := N.of_nat (String.length (json_print (challenge_request_value q))) in
  _ ← answer (ensure (body_bytes <=? MAX_REQUEST_BODY_BYTES)%N (413%N, "invalid_content_source"));
  _ ← answer (ensure (verify_request_body_digest (challenge_request_value q) (wq_body_digest q)) (400%N, "invalid_content_source"));
  scope ← answer (ok_or (scope_from_request q (rt_config rt)) (400%N, "invalid_content_source"));
  _ ← commit_to (λ s, s ← policy_error (400%N, "policy_denied") (validate_scope P scope now s); Ok (tt, s));
  enforcer ← answer (policy_error (403%N, "policy_denied")
                       (enforcer_did_for P' (wq_policy_cid q) (wq_delegation_cid q) (wq_material_handle q) (wq_material_digest q) (sc_node_audience scope)));
  let challenge_id := b64url_encode (bytes_string id) in
  let nonce := b64url_encode (bytes_string nonce) in
  let expires := (now + seconds (Z.of_N (cf_challenge_ttl_seconds (rt_config rt))))%Z in
  issued_text ← answer (wire_timestamp now);
  expires_text ← answer (wire_timestamp expires);
  let challenge := challenge_value (mkPolicyChallenge challenge_id nonce q enforcer issued_text expires_text) in
  proof ← answer (ok_or (sign (rt_signer rt) POLICY_CHALLENGE_DOMAIN challenge) (capability_unavailable 500));
  _ ← commit_to (λ s, share ← map_err (λ _, capability_unavailable 429)
                                (create_anonymous_challenge (challenge_row challenge_id nonce (wq_body_digest q) ip scope now expires body_bytes)
                                   now (bd_share s));
                      Ok (tt, mkBridgeDb (bd_authority s) share));
  mret (JObject [("challenge", challenge); ("proof", proof_value proof)]).

(** ** Sessions *)

(** What a presentation says of itself. *)
Definition presentation_current (p : PolicyPresentation) (config : ShareEmailConfig) (now : Z) : result ApiError unit :=
  issued ← ok_or (rfc3339_parse (pp_issued_at p)) (403%N, "policy_denied");
  expires ← ok_or (rfc3339_parse (pp_expires_at p)) (403%N, "policy_denied");
  ensure (bool_decide (pp_type p = "TinyCloudSharePolicyPresentation") && (pp_version p =? 1)%N && (now <? expires)%Z &&
          (issued <=? now + seconds (cf_clock_skew_seconds config))%Z && (issued <? expires)%Z &&
          (expires - issued <=? seconds (Z.of_N (cf_challenge_ttl_seconds config)))%Z) (403%N, "policy_denied").

Definition session_admission_request (p : PolicyPresentation) (scope : ShareScope) (email : string) (policy_expiry : Z) : PolicySessionRequest :=
  let request_digest := wq_body_digest (pp_request p) in
  mkPolicySessionRequest scope (wq_holder (pp_request p)) (pp_nonce p) (pp_jti p) (pp_challenge_id p) request_digest
    (JObject [("requestDigest", JString request_digest)]) (digest_text email) (unix_timestamp policy_expiry).

(** [P] to [P4] are the providers at the calls of the bridge, the last two within the
    transaction; the counters of the verifier are left out. *)
Definition policy_session (runtime : option ShareEmailRuntime) (P P2 P3 P4 : Providers) (origin : option string) (now : Z) (handle issuance : list N)
    (body : string) : handler BridgeDb ApiError json :=
  _ ← answer (share_origin_guard runtime origin);
  rt ← answer (ready runtime);
  value ← answer (read_bounded_json body);
  r ← answer (ok_or (de_session_request value) (400%N, "policy_denied"));
  _ ← answer (ensure (bounded (session_request_value r)) (413%N, "policy_denied"));
  let p := sr_presentation r in
  let q := pp_request p in
  scope ← answer (ok_or (scope_from_presentation p (rt_config rt)) (400%N, "invalid_content_source"));
  _ ← answer (ensure (verify_did_key_signature (wq_holder q) (sr_proof r) PRESENTATION_DOMAIN (presentation_value p)) (403%N, "invalid_holder_proof"));
  _ ← answer (presentation_current p (rt_config rt) now);
  '(_, email, policy_expiry) ← look (λ s, policy_error (403%N, "policy_denied")
      (policy_sender_recipient_and_expiry P (wq_policy_cid q) (wq_delegation_cid q) (wq_material_handle q) (wq_material_digest q) now (bd_authority s)));
  enforcer ← answer (policy_error (403%N, "policy_denied")
      (enforcer_did_for P2 (wq_policy_cid q) (wq_delegation_cid q) (wq_material_handle q) (wq_material_digest q) (sc_node_audience scope)));
  _ ← answer (ensure (bool_decide (pp_enforcer p = enforcer)) (403%N, "policy_denied"));
  admission ← answer (policy_error (403%N, "invalid_holder_proof")
      (verify_session_admission (at_time (rt_verifier rt) (unix_timestamp now)) (sr_credential r) (session_admission_request p scope email policy_expiry)
         (pp_credential_digest p) (json_print (sr_holder_binding r)) email (unix_timestamp policy_expiry) enforcer (wq_holder q) (sr_read_signer r)
         (mkVerificationMetrics 0 0)).1);
  session ← commit_to (λ s, policy_error (403%N, "policy_denied")
      (establish_session json_print P3 P4 (rt_root_signer rt) handle issuance admission now s));
  issued_text ← answer (wire_timestamp now);
  expires_text ← answer (wire_timestamp (ps_expires_at session));
  let value := session_value p (ps_handle session) (ps_credential_digest session) issued_text expires_text in
  proof ← answer (ok_or (sign (rt_signer rt) POLICY_SESSION_DOMAIN value) (capability_unavailable 500));
  mret (JObject [("proof", proof_value proof); ("session", value)]).

(** ** Reads *)

Definition with_material (handle material_digest : string) (q : PolicyChallengeRequest) : PolicyChallengeRequest :=
  mkPolicyChallengeRequest (wq_share_cid q) (wq_share_id q) (wq_delegation_cid q) handle material_digest (wq_policy_cid q) (wq_source q)
    (wq_source_digest q) (wq_holder q) (wq_target_origin q) (wq_node_audience q) (wq_action q) (wq_resource q) (wq_body_digest q).

(** The body repeats members of the invocation. *)
Definition body_repeats (r : ReadRequest) : bool :=
  let i := rq_invocation r in
  let q := ri_request i in
  bool_decide (rq_session r = ri_session i) && bool_decide (rq_delegation_cid r = wq_delegation_cid q) &&
  bool_decide (rq_material_handle r = wq_material_handle q) && bool_decide (rq_material_digest r = wq_material_digest q) &&
  bool_decide (rq_source r = wq_source q) && bool_decide (rq_source_digest r = wq_source_digest q) && bool_decide (rq_action r = wq_action q) &&
  bool_decide (rq_resource r = wq_resource q) && bool_decide (rq_body_digest r = wq_body_digest q).

Definition read_error (e : DataPlaneError) : ApiError :=
  match e with DpStorage => capability_unavailable 503 | _ => (403%N, "read_denied") end.

(** The request of the data plane that a body asks for. *)
Definition holder_read_request (value : json) (r : ReadRequest) (config : ShareEmailConfig) : result ApiError HolderReadRequest :=
  let i := rq_invocation r in
  let q := ri_request i in
  _ ← ensure (bool_decide (ri_type i = "TinyCloudShareReadInvocation") && (ri_version i =? 1)%N) (403%N, "read_denied");
  scope ← ok_or (scope_from_request (with_material (rq_material_handle r) (rq_material_digest r) q) config) (400%N, "read_denied");
  _ ← ensure (verify_read_request_body_digest value (rq_body_digest r) (wq_body_digest q)) (400%N, "read_denied");
  _ ← ensure (body_repeats r) (403%N, "read_denied");
  issued ← ok_or (rfc3339_parse (ri_issued_at i)) (400%N, "read_denied");
  expires ← ok_or (rfc3339_parse (ri_expires_at i)) (400%N, "read_denied");
  signature ← ok_or (b64url_decode (dp_signature (rq_proof r))) (400%N, "invalid_holder_proof");
  _ ← ensure (bool_decide (dp_alg (rq_proof r) = "EdDSA") && bool_decide (dp_kid (rq_proof r) = did_key_kid (wq_holder q)) &&
              (String.length signature =? 64)%nat) (403%N, "invalid_holder_proof");
  Ok (mkHolderReadRequest (ri_session i) (ri_jti i) scope (wq_holder q) (wq_body_digest q)
        (mkHolderReadProof issued expires (ri_jti i) (wq_holder q) signature)).

(** The stores of the data plane are arguments; [now] is the clock when the data plane
    is asked, [now'] when it has answered. *)
Definition read_route (get_exact : string → string → result PortError (option string)) (execute_named : SqlReadSource → PinnedNamedStatement → result PortError NamedSqlRows)
    (runtime : option ShareEmailRuntime) (P : Providers) (origin : option string) (now now' : Z) (body : string)
    : handler BridgeDb ApiError (ReadResponse * DetachedProof) :=
  _ ← answer (share_origin_guard runtime origin);
  rt ← answer (ready runtime);
  value ← answer (read_bounded_json body);
  r ← answer (ok_or (de_read_request value) (400%N, "read_denied"));
  _ ← answer (ensure (bounded (read_request_value r)) (413%N, "read_denied"));
  request ← answer (holder_read_request value r (rt_config rt));
  document ← (λ s, let '(d, s) := ShareRead.read (authorize_read P) get_exact execute_named request now s in (map_err read_error d, s)) : handler BridgeDb ApiError MarkdownResponse;
  let expires := Z.min (now' + seconds 60) (hp_expires_at (hq_proof request)) in
  _ ← answer (ensure (now' <? expires)%Z (403%N, "read_denied"));
  issued_text ← answer (wire_timestamp now');
  expires_text ← answer (wire_timestamp expires);
  let i := rq_invocation r in
  let response := mkReadResponse (ri_session i) (ri_jti i) (ri_request i) (mr_credential_digest document) issued_text expires_text
                    (mr_media_type document) (mr_document document) (mr_body_digest document)
                    (rq_delegation_cid r) (rq_material_handle r) (rq_material_digest r) in
  proof ← answer (ok_or (sign (rt_signer rt) READ_RESPONSE_DOMAIN (response_value response)) (capability_unavailable 500));
  mret (response, proof).

(** ** Invitations *)

Definition invitation_scope_request (i : InvitationAuthorizationInput) : PolicyChallengeRequest :=
  mkPolicyChallengeRequest (in_share_cid i) (in_share_id i) (in_delegation_cid i) (in_material_handle i) (in_material_digest i) (in_policy_cid i)
    (in_source i) (in_source_digest i) (in_sender i) (in_target_origin i) (in_node_audience i)
    (match in_source i with KvSource _ _ => KvGet | SqlSource _ _ _ _ _ _ => SqlRead end) (source_path (in_source i)) (in_request_body_digest i).

Definition with_sender (sender : string) (i : InvitationAuthorizationInput) : InvitationAuthorizationInput :=
  mkInvitationInput (in_jti i) (in_abuse_token i) sender (in_share_cid i) (in_share_id i) (in_policy_cid i) (in_delegation_cid i)
    (in_material_handle i) (in_material_digest i) (in_recipient i) (in_target_origin i) (in_node_audience i) (in_document_name i) (in_sender_trust i)
    (in_source i) (in_source_digest i) (in_share_expires_at i) (in_request_body_digest i).

(** [P], [P2] and [P3] are the providers at the three calls of the bridge. *)
Definition authorize_invitation (runtime : option ShareEmailRuntime) (P P2 P3 : Providers) (origin : option string) (now : Z) (body : string)
    : handler BridgeDb ApiError json :=
  let invalid := (403%N, "invitation_authorization_invalid") in
  _ ← answer (share_origin_guard runtime origin);
  value ← answer (read_bounded_json body);
  rt ← answer (ready runtime);
  let config := rt_config rt in
  '(i, proof) ← answer (ok_or (de_invitation_envelope value) (400%N, "invitation_authorization_invalid"));
  _ ← answer (ensure (verify_did_key_signature (in_sender i) proof INVITATION_AUTHORIZATION_DOMAIN (invitation_request_value i)) invalid);
  _ ← answer (ensure (verify_canonical_body_digest (invitation_request_body i) (in_request_body_digest i)) invalid);
  scope ← answer (ok_or (scope_from_request (invitation_scope_request i) config) invalid);
  _ ← commit_to (λ s, s ← policy_error invalid (validate_scope P scope now s); Ok (tt, s));
  _ ← answer (policy_error invalid (validate_sender_for_policy P2 (in_policy_cid i) (in_delegation_cid i) (in_material_handle i) (in_material_digest i)
                                      (in_sender i)));
  '(_, email, policy_expiry) ← look (λ s, policy_error invalid
      (policy_sender_recipient_and_expiry P3 (in_policy_cid i) (in_delegation_cid i) (in_material_handle i) (in_material_digest i) now (bd_authority s)));
  _ ← answer (ensure (bool_decide (email = in_recipient i) && bool_decide (in_target_origin i = cf_target_origin config) &&
                      bool_decide (in_node_audience i = cf_node_audience config) &&
                      bool_decide (rfc3339_parse (in_share_expires_at i) = Some policy_expiry)) invalid);
  sender ← answer (ok_or (parse_did (in_sender i)) invalid);
  target ← answer (ok_or (parse_origin (cf_target_origin config)) (capability_unavailable 503));
  audience ← answer (ok_or (parse_did (cf_node_audience config)) (capability_unavailable 503));
  return_origin ← answer (ok_or (parse_origin (cf_return_origin config)) (capability_unavailable 503));
  receipt ← answer (map_err (λ _, invalid) (issue_invitation_authorization_for (with_sender sender i) (rt_signer rt) now target audience return_origin));
  let auth_digest := authorization_digest receipt in
  let binding := JObject [("authorizationDigest", JString auth_digest);
                          ("shareDigest", JString (digest (JString (ia_share_cid (rc_authorization receipt)))))] in
  _ ← commit_to (λ s, share ← map_err (λ _, invalid) (reserve_invitation_authorization receipt binding auth_digest now (bd_share s));
                      Ok (tt, mkBridgeDb (bd_authority s) share));
  mret (receipt_value receipt).

End Routes.

(** ** The stores behind the data plane *)

Section Stores.
Context `{UriLib} `{RowOrder} {B E : Type} `{!BlockStore B E}.

(** [TinyCloudKvStore::get_exact]. *)
Definition get_exact (space_name : string) (db : Tables.Db) (b : B) (space path : string) : result PortError (option string) :=
  _ ← ensure (did_valid space) Denied;
  found ← map_err (λ _, PortStorage) (get_kv (bs_read b) db {| base_did := space; name := space_name |} path);
  match found with
  | None => Ok None
  | Some (_, _, content) => _ ← ensure (N.of_nat (String.length content) <=? MAX_MARKDOWN_BYTES)%N Denied; Ok (Some content)
  end.

Context `{!Sqlite} `{RowJson} `{SqlParse} `{Blake3} `{CidLib} (memory_threshold : N).

(** [SqlNamedStore::execute_named], with the service after it. *)
Definition execute_named (space_name : string) (env : Env) (service : SqlService) (source : SqlReadSource) (pinned : PinnedNamedStatement)
    : result PortError NamedSqlRows * SqlService :=
  let st := pn_statement pinned in
  if bool_decide (sr_statement source = st_name st) && bool_decide (sr_database source = pn_database pinned) &&
     bool_decide (sr_path source = pn_path pinned) && did_valid (sr_space source) then
    let caveats := mkSqlCaveats None None (Some [mkPreparedStatement (st_name st) (st_sql st)]) (Some true) in
    match service_execute memory_threshold env service {| base_did := sr_space source; name := space_name |} (sr_database source)
            (RExecuteStatement (sr_statement source) (VInteger ∘ snd <$> sr_arguments source)) (Some caveats) "tinycloud.sql/read" with
    | (Err _, service) => (Err PortStorage, service)
    | (Ok result, service) =>
        (match response result with
         | QueryAnswer q => Ok (mkNamedSqlRows (qr_columns q) (qr_rows q))
         | _ => Err Denied
         end, service)
    end
  else (Err Denied, service).

End Stores.

(** ** Objects that were read have their keys in order *)

Lemma elem_of_obj_insert {A} k (v : A) m x : x ∈ obj_insert k v m → x = (k, v) ∨ x ∈ m.
Proof.
  induction m as [|[k' v'] m IH]; cbn [obj_insert]; [set_solver|]. case_decide; [set_solver|]. destruct (String.leb k k'); set_solver.
Qed.

Lemma obj_insert_ordered k (v : json) m : StronglySorted key_lt m → StronglySorted key_lt (obj_insert k v m).
Proof.
  induction m as [|[k' v'] m IH]; intros Hs; [by repeat constructor|]. cbn [obj_insert]. case_decide as Hk.
  - subst k'. apply StronglySorted_inv in Hs as [Hs Hall]. by constructor.
  - apply StronglySorted_inv in Hs as [Hs Hall]. rewrite leb_bytes_leb. destruct (bytes_leb k k') eqn:Hle.
    + constructor; [by constructor|]. apply Forall_cons. split; [by split; simpl; [|congruence]|]. eapply Forall_impl; [exact Hall|].
      intros [k2 v2] [Hle2 Hne2]. simpl in *. split; simpl; [by eapply bytes_leb_trans|]. intros ->. apply Hne2. by apply bytes_leb_antisym.
    + constructor; [by apply IH|]. apply Forall_forall. intros x [->|Hx]%elem_of_obj_insert; [|by eapply Forall_forall in Hx; [|exact Hall]].
      split; simpl; [|congruence]. destruct (bytes_leb_total k k'); congruence.
Qed.

Fixpoint sorted_json (v : json) : Prop :=
  match v with
  | JArray l => foldr (λ x P, sorted_json x ∧ P) True l
  | JObject m => StronglySorted key_lt m ∧ foldr (λ kv P, sorted_json kv.2 ∧ P) True m
  | _ => True
  end.

Lemma sorted_array l : sorted_json (JArray l) ↔ Forall sorted_json l.
Proof. induction l as [|x l IH]; simpl; [done|]. rewrite Forall_cons. tauto. Qed.

Lemma sorted_object m : sorted_json (JObject m) ↔ StronglySorted key_lt m ∧ Forall (λ kv, sorted_json kv.2) m.
Proof. simpl. apply and_iff_compat_l. induction m as [|x m IH]; simpl; [done|]. rewrite Forall_cons. tauto. Qed.

Lemma lenient_sorted r v : lenient r = Some v → sorted_json v.
Proof.
  revert v. induction r as [|b|z|f|s|l c IH|m c IH|] using raw_nested_ind; intros v Hv; cbn [lenient] in Hv; try (by injection Hv as <-); [| |done].
  - apply bind_Some in Hv as (vs & Hvs%mapM_Some & Hv). destruct c; [|done]. injection Hv as <-. apply sorted_array.
    revert IH. induction Hvs as [|r w l vs Hw _ IHvs]; intros IH; [constructor|]. apply Forall_cons in IH as [IH IHl]. constructor; auto.
  - assert (∀ values, sorted_json (JObject values) →
      ∀ w, (fix go m values := match m with [] => if c : bool then Some (JObject values) else None
            | (key, r) :: m => v ← lenient r; go m (obj_insert key v values) end) m values = Some w → sorted_json w) as Hgo;
      [|eapply Hgo; [|exact Hv]; apply sorted_object; split; constructor].
    clear v Hv. induction IH as [|[k r] m Hx _ IHm]; intros values Hwf w Hw; [destruct c; [|done]; by injection Hw as <-|].
    apply bind_Some in Hw as (v & Hv%Hx & Hw). apply IHm in Hw; [done|]. apply sorted_object in Hwf as [Hs Hall].
    apply sorted_object. split; [by apply obj_insert_ordered|]. apply Forall_forall.
    intros x [->|Hin]%elem_of_obj_insert; [done|]. by eapply Forall_forall in Hin; [|exact Hall].
Qed.

Lemma read_json_sorted `{JsonText} bytes v : read_json bytes = Some v → sorted_json v.
Proof.
  unfold read_json. destruct (json_read bytes) as [r ended]. intros (w & Hw & Hv)%bind_Some. destruct ended; [|done].
  injection Hv as <-. by eapply lenient_sorted.
Qed.

(** *** Sources that were read are well formed *)

Lemma struct_of_sorted names v m : sorted_json v → struct_of names v = Some m → Forall (λ kv, sorted_json kv.2) m.
Proof.
  unfold struct_of. destruct v as [| | | |l|o]; try done.
  - intros Hl%sorted_array. case_match; [|done]. intros [= <-]. apply Forall_forall. intros [k v] Hin%elem_of_zip_r. by eapply Forall_forall in Hin; [|exact Hl].
  - intros [_ Hm]%sorted_object. case_match; [|done]. by intros [= <-].
Qed.

Lemma field_Some {A} (de : json → option A) key m a : field de key m = Some a → ∃ v, (key, v) ∈ m ∧ de v = Some a.
Proof. unfold field. intros (v & Hv%obj_get_elem & Hd)%bind_Some. eauto. Qed.

Lemma field_sorted {A} (de : json → option A) key m a :
  Forall (λ kv, sorted_json kv.2) m → field de key m = Some a → ∃ v, sorted_json v ∧ de v = Some a.
Proof. intros Hm (v & Hin & Hd)%field_Some. exists v. split; [|done]. by eapply Forall_forall in Hin; [|exact Hm]. Qed.

Lemma de_arguments_wf v l :
  sorted_json v → de_arguments v = Some l → StronglySorted key_lt l ∧ Forall (λ kv, Z.abs kv.2 ≤ MAX_SAFE_INTEGER)%Z l.
Proof.
  unfold de_arguments. destruct v as [| | | | |m]; try done. intros [Hs _]%sorted_object. cbn [as_object mbind option_bind].
  intros Hm%mapM_Some. revert Hs. induction Hm as [|[k v] [k' z] m l Hx Hm IH]; intros Hs; [split; constructor|].
  apply StronglySorted_inv in Hs as [Hs Hall]. apply IH in Hs as [Hs Hi]. cbn [snd fst] in Hx. apply bind_Some in Hx as (z' & Hz & [= <- <-]).
  split.
  - constructor; [done|]. clear IH Hi Hs. induction Hm as [|[k1 v1] [k2 z2] m l Hx _ IH]; [constructor|].
    apply Forall_cons in Hall as [Hk Hall]. constructor; [|auto]. apply bind_Some in Hx as (? & _ & [= <- _]). exact Hk.
  - constructor; [|done]. unfold de_safe_integer in Hz. destruct v as [| |[]| | |]; try done. case_match; [|done]. unfold parse_safe_integer in Hz.
    case_match eqn:Hb; [|done]. injection Hz as <-. simpl. by apply Z.leb_le.
Qed.

Lemma elem_of_kept {A} (f : A → bool) l x : x ∈ List.filter f l ↔ x ∈ l ∧ f x = true.
Proof. by rewrite !list_elem_of_In, filter_In. Qed.

Lemma sorted_lfilter {A} (R : relation A) (f : A → bool) l : StronglySorted R l → StronglySorted R (List.filter f l).
Proof.
  induction 1 as [|x l Hs IH Hall]; [constructor|]. cbn [List.filter]. destruct (f x); [|done]. constructor; [done|].
  apply Forall_forall. intros y [Hy _]%elem_of_kept. by eapply Forall_forall in Hy; [|exact Hall].
Qed.

Lemma de_source_wf `{EvidenceLib} v c : sorted_json v → de_source v = Some c → source_wf c.
Proof.
  intros Hv Hd. unfold de_source in Hd. apply bind_Some in Hd as ([kind rest] & Hk & Hd).
  assert (sorted_json rest) as Hrest.
  { destruct v as [| | | |[|[] l]|m]; try done.
    - injection Hk as _ <-. apply sorted_array in Hv. apply sorted_array. by inversion_clear Hv.
    - apply bind_Some in Hk as (? & _ & [= _ <-]). apply sorted_object in Hv as [Hs Hall]. apply sorted_object. split; [by apply sorted_lfilter|].
      apply Forall_forall. intros y [Hy _]%elem_of_kept. by eapply Forall_forall in Hy; [|exact Hall]. }
  case_bool_decide; [|case_bool_decide; [|done]]; apply bind_Some in Hd as (m & Hm & Hd).
  - do 3 (apply bind_Some in Hd as (? & _ & Hd)). by injection Hd as <-.
  - do 5 (apply bind_Some in Hd as (? & _ & Hd)). apply bind_Some in Hd as (arguments & Ha & Hd). apply bind_Some in Hd as (? & _ & Hd).
    injection Hd as <-. apply struct_of_sorted in Hm; [|done]. apply field_sorted in Ha as (w & Hw & Ha); [|done]. exact (de_arguments_wf _ _ Hw Ha).
Qed.

(** ** What the routes do to the bridge *)

Section Served.
Context `{Rfc3339} `{ShareTime} `{Nfc} `{FloatText} `{Sha256} `{DbTime} `{JsonText} `{EvidenceLib} `{Blake3} `{CidLib} `{Keccak256} `{Recover}
        `{Libp2pVerify}.
Context (verified : PolicyDelegation → Prop) `{!VerifiedArtifacts verified} (node : string).
Context (Hverify : ∀ bytes d, verify bytes = Ok d → verified d).
Context (json_print : json → string) (rt : ShareEmailRuntime) (Hsigner : ∀ k, rt_root_signer rt = Some k → signer_did k = node).

(** A presentation received at [t] for which the node admitted a session: signed by
    its holder and current, for the recipient and the enforcer of the share's policy. *)
Definition opened (t : Z) (body : string) (adm : VerifiedSessionAdmission) : Prop :=
  ∃ value r scope email policy_expiry P P2 a sender metrics,
    let p := sr_presentation r in
    let q := pp_request p in
    read_bounded_json body = Ok value ∧ de_session_request value = Some r ∧ scope_from_presentation p (rt_config rt) = Some scope ∧
    verify_did_key_signature (wq_holder q) (sr_proof r) PRESENTATION_DOMAIN (presentation_value p) = true ∧
    presentation_current p (rt_config rt) t = Ok tt ∧
    policy_sender_recipient_and_expiry P (wq_policy_cid q) (wq_delegation_cid q) (wq_material_handle q) (wq_material_digest q) t a
      = Ok (sender, email, policy_expiry) ∧
    enforcer_did_for P2 (wq_policy_cid q) (wq_delegation_cid q) (wq_material_handle q) (wq_material_digest q) (sc_node_audience scope) = Ok (pp_enforcer p) ∧
    verify_session_admission (at_time (rt_verifier rt) (unix_timestamp t)) (sr_credential r) (session_admission_request p scope email policy_expiry)
      (pp_credential_digest p) (json_print (sr_holder_binding r)) email (unix_timestamp policy_expiry) (pp_enforcer p) (wq_holder q) (sr_read_signer r)
      (mkVerificationMetrics 0 0) = (Ok adm, metrics).

(** The state of a run goes on to another; the sessions it adds come from [body]. *)
Definition advances (now : Z) (bodies : list string) : relation BridgeDb := λ s s', ∀ h log,
  bridge_run verified node now h log s →
  ∃ h' log', bridge_run verified node now h' log' s' ∧ ∀ e, e ∈ log' → e ∈ log ∨ ∃ body, body ∈ bodies ∧ opened now body e.1.

#[local] Instance advances_preorder now bodies : PreOrder (advances now bodies).
Proof.
  split.
  - intros s h log Hs. exists h, log. split; [done|]. by left.
  - intros s1 s2 s3 L12 L23 h log Hs. destruct (L12 _ _ Hs) as (h2 & log2 & Hs2 & Hin2). destruct (L23 _ _ Hs2) as (h3 & log3 & Hs3 & Hin3).
    exists h3, log3. split; [done|]. intros e [Hin|?]%Hin3; [|by right]. by apply Hin2.
Qed.

Lemma advances_share now bodies s share :
  share_step now (bd_share s) share → advances now bodies s (mkBridgeDb (bd_authority s) share).
Proof. intros Hs h log Hr. exists h, log. split; [by eapply br_share|]. by left. Qed.

Lemma advances_scope now bodies P scope s s' : validate_scope P scope now s = Ok s' → advances now bodies s s'.
Proof. intros Hs h log Hr. exists (bd_authority s :: h), log. split; [by eapply br_scope|]. by left. Qed.

Lemma challenge_advances P P' origin ip now id nonce body s :
  leads (advances now []) (policy_challenge json_print (Some rt) P P' origin ip now id nonce body) s.
Proof.
  unfold policy_challenge. leads_steps; refine (leads_commit _ _ _ _); intros [] s' Hc.
  - apply bind_Ok in Hc as (st & Hs%map_err_Ok & [= <-]). by eapply advances_scope.
  - apply bind_Ok in Hc as (share & Hs%map_err_Ok & [= <-]). by eapply advances_share, sh_challenge.
Qed.

Lemma invitation_advances P P2 P3 origin now body s :
  leads (advances now []) (authorize_invitation (Some rt) P P2 P3 origin now body) s.
Proof.
  unfold authorize_invitation. leads_steps; refine (leads_commit _ _ _ _); intros [] s' Hc.
  - apply bind_Ok in Hc as (st & Hs%map_err_Ok & [= <-]). by eapply advances_scope.
  - apply bind_Ok in Hc as (share & Hs%map_err_Ok & [= <-]). by eapply advances_share, sh_reserve.
Qed.

Ltac destruct_unit := repeat match goal with u : unit |- _ => destruct u end.

(** The facts of the steps before the one at hand. *)
Ltac earlier_steps :=
  repeat match goal with
  | Hx : answer _ _ = (Ok _, _) |- _ => apply answer_Ok in Hx as [Hx ->]
  | Hx : look _ _ = (Ok _, _) |- _ => apply look_Ok in Hx as [Hx ->]
  | Hx : ok_or _ _ = Ok _ |- _ => apply ok_or_Ok in Hx
  | Hx : ensure _ _ = Ok _ |- _ => apply ensure_Ok in Hx
  | Hx : policy_error _ _ = Ok _ |- _ => apply map_err_Ok in Hx
  end.

Lemma read_bounded_sorted body v : read_bounded_json body = Ok v → sorted_json v.
Proof. unfold read_bounded_json. intros Hb. apply bind_Ok in Hb as (? & _ & Hb%ok_or_Ok). by eapply read_json_sorted. Qed.

Lemma read_request_fields_wf m q : Forall (λ kv, sorted_json kv.2) m → read_request_fields m = Some q → source_wf (wq_source q).
Proof.
  intros Hm Hq. unfold read_request_fields in Hq. do 6 (apply bind_Some in Hq as (? & _ & Hq)). apply bind_Some in Hq as (source & Hs & Hq).
  do 7 (apply bind_Some in Hq as (? & _ & Hq)). injection Hq as <-. apply field_sorted in Hs as (v & Hv & Hs); [|done]. by eapply de_source_wf.
Qed.

Lemma scope_from_request_Some q config scope :
  scope_from_request q config = Some scope →
  scope = mkShareScope (wq_share_cid q) (wq_share_id q) (Some (wq_delegation_cid q)) (wq_material_handle q) (wq_material_digest q) (wq_policy_cid q)
            (cf_node_audience config) (cf_target_origin config) (wq_action q) (source_resource (wq_source q)) (wq_source q) (wq_source_digest q) ∧
  wq_node_audience q = cf_node_audience config ∧ wq_target_origin q = cf_target_origin config ∧ wq_resource q = source_path (wq_source q) ∧
  wq_source_digest q = digest (source_value (wq_source q)).
Proof.
  unfold scope_from_request. destruct (_ && _) eqn:Hg; [|done]. intros [= <-]. rewrite !andb_true_iff, !bool_decide_eq_true in Hg.
  destruct Hg as [[[[[_ <-] ->] <-] <-] _]. done.
Qed.

Lemma de_session_request_wf v r : sorted_json v → de_session_request v = Some r → source_wf (wq_source (pp_request (sr_presentation r))).
Proof.
  intros Hv Hr. unfold de_session_request in Hr. apply bind_Some in Hr as (m & Hm%struct_of_sorted & Hr); [|done].
  apply bind_Some in Hr as (p & Hp & Hr). do 4 (apply bind_Some in Hr as (? & _ & Hr)). injection Hr as <-. cbn [sr_presentation].
  apply field_sorted in Hp as (w & Hw & Hp); [|done]. unfold de_presentation in Hp. apply bind_Some in Hp as (m' & Hm'%struct_of_sorted & Hp); [|done].
  do 4 (apply bind_Some in Hp as (? & _ & Hp)). apply bind_Some in Hp as (q & Hq & Hp). do 5 (apply bind_Some in Hp as (? & _ & Hp)).
  injection Hp as <-. cbn [pp_request]. by eapply read_request_fields_wf.
Qed.

Lemma presentation_scope p config scope : scope_from_presentation p config = Some scope → scope_from_request (pp_request p) config = Some scope.
Proof. unfold scope_from_presentation. by case_match. Qed.

Lemma opened_scope t body adm : opened t body adm → scope_wf (pr_scope (ad_request adm)).
Proof.
  intros (value & r & scope & email & pe & P & P2 & a & sender & m & Hb%read_bounded_sorted & Hr & Hs & _ & _ & _ & _ & Hadm).
  apply admission_bound in Hadm as (? & ? & ? & ? & _ & _ & _ & _ & _ & _ & _ & -> & _). cbn [ad_request session_admission_request pr_scope].
  apply presentation_scope, scope_from_request_Some in Hs as [-> _]. by eapply de_session_request_wf.
Qed.

Lemma session_advances P P2 P3 P4 origin now handle issuance body s :
  leads (advances now [body]) (policy_session json_print (Some rt) P P2 P3 P4 origin now handle issuance body) s.
Proof.
  unfold policy_session. leads_steps. earlier_steps. refine (leads_commit _ _ _ _). intros ps s' He%map_err_Ok h log Hrun.
  unfold ready in *. cbn in *. simplify_eq.
  match goal with Hx : bool_decide (pp_enforcer _ = _) = true |- _ => apply bool_decide_eq_true in Hx; subst end.
  match goal with Hx : (verify_session_admission _ _ _ _ _ _ _ _ _ _ _).1 = Ok ?adm |- _ =>
    rename adm into admission; destruct (verify_session_admission _ _ _ _ _ _ _ _ _ _ _) as [o m] eqn:Hadm in Hx; simpl in Hx; subst o end.
  destruct_unit. assert (opened now body admission) as Ho by (repeat eexists; eassumption).
  exists (bd_authority s :: h), ((admission, ps) :: log). split; [eapply br_establish; [done|done|by eapply opened_scope|exact He]|].
  intros e [->|He']%elem_of_cons; [right; exists body; split; [by left|done]|by left].
Qed.

Lemma read_advances get exec P origin now now' body s : leads (advances now []) (read_route json_print get exec (Some rt) P origin now now' body) s.
Proof.
  unfold read_route. leads_steps. earlier_steps. unfold leads, ShareRead.read.
  destruct (verify_request _ _) as [[]|]; [|reflexivity]. destruct (authorize_read _ _ _ _) as [[ar s']|] eqn:Ha; [|reflexivity].
  simpl. intros h log Hrun. exists (bd_authority s :: h), log. split; [by eapply br_read|]. by left.
Qed.

(** What the node serves: the routes with any bodies and any answers of the providers,
    and the background task.  The log has the bodies presented for a session. *)
Inductive served : Z → list (Z * string) → BridgeDb → Prop :=
| sv_start now : served now [] (mkBridgeDb database.db_empty share_empty)
| sv_tick now now' log s : served now log s → (now ≤ now')%Z → served now' log s
| sv_cleanup now log s share : served now log s → cleanup now (bd_share s) = Ok share → served now log (mkBridgeDb (bd_authority s) share)
| sv_challenge now log s P P' origin ip id nonce body r s' :
    served now log s → policy_challenge json_print (Some rt) P P' origin ip now id nonce body s = (r, s') → served now log s'
| sv_session now log s P P2 P3 P4 origin handle issuance body r s' :
    served now log s → policy_session json_print (Some rt) P P2 P3 P4 origin now handle issuance body s = (r, s') → served now ((now, body) :: log) s'
| sv_read now log s get exec P origin now' body r s' :
    served now log s → read_route json_print get exec (Some rt) P origin now now' body s = (r, s') → served now log s'
| sv_invite now log s P P2 P3 origin body r s' :
    served now log s → authorize_invitation (Some rt) P P2 P3 origin now body s = (r, s') → served now log s'.

(** Every state the node serves is one of a run of the bridge, and its sessions were
    opened by presentations that were received. *)
Lemma served_runs now log s :
  served now log s →
  ∃ h runs, bridge_run verified node now h runs s ∧ ∀ e, e ∈ runs → ∃ t body, (t, body) ∈ log ∧ (t ≤ now)%Z ∧ opened t body e.1.
Proof.
  assert (∀ now (log : list (Z * string)) s h runs s', bridge_run verified node now h runs s → advances now [] s s' →
    (∀ e, e ∈ runs → ∃ t body, (t, body) ∈ log ∧ (t ≤ now)%Z ∧ opened t body e.1) →
    ∃ h runs, bridge_run verified node now h runs s' ∧ ∀ e, e ∈ runs → ∃ t body, (t, body) ∈ log ∧ (t ≤ now)%Z ∧ opened t body e.1) as Hkeep.
  { intros now0 log0 s0 h runs s' Hrun Hadv Hlog. destruct (Hadv _ _ Hrun) as (h' & runs' & Hrun' & Hin). exists h', runs'. split; [done|].
    intros e [He|(body & []%not_elem_of_nil & _)]%Hin. by apply Hlog. }
  induction 1 as [now|now now' log s _ (h & runs & Hrun & Hlog) Hle|now log s share _ (h & runs & Hrun & Hlog) Hc
    |now log s P P' origin ip id nonce body r s' _ (h & runs & Hrun & Hlog) Hc|now log s P P2 P3 P4 origin handle issuance body r s' _ (h & runs & Hrun & Hlog) Hc
    |now log s get exec P origin now' body r s' _ (h & runs & Hrun & Hlog) Hc|now log s P P2 P3 origin body r s' _ (h & runs & Hrun & Hlog) Hc].
  - exists [], []. split; [apply br_start|]. by intros e He%elem_of_nil.
  - exists h, runs. split; [by eapply br_tick|]. intros e (t & body & ? & ? & ?)%Hlog. exists t, body. split_and!; [done|lia|done].
  - eapply Hkeep; [exact Hrun| |done]. by eapply advances_share, sh_cleanup.
  - eapply Hkeep; [exact Hrun| |done]. pose proof (challenge_advances P P' origin ip now id nonce body s) as Hl. unfold leads in Hl. by rewrite Hc in Hl.
  - pose proof (session_advances P P2 P3 P4 origin now handle issuance body s) as Hl. unfold leads in Hl. rewrite Hc in Hl.
    destruct (Hl _ _ Hrun) as (h' & runs' & Hrun' & Hin). exists h', runs'. split; [done|].
    intros e [(t & b & ? & ? & ?)%Hlog|(b & ->%list_elem_of_singleton & Ho)]%Hin.
    + exists t, b. split_and!; [by right|done|done].
    + exists now, body. split_and!; [by left|lia|done].
  - eapply Hkeep; [exact Hrun| |done]. pose proof (read_advances get exec P origin now now' body s) as Hl. unfold leads in Hl. by rewrite Hc in Hl.
  - eapply Hkeep; [exact Hrun| |done]. pose proof (invitation_advances P P2 P3 origin now body s) as Hl. unfold leads in Hl. by rewrite Hc in Hl.
Qed.

(** What an answered read route has done. *)
Lemma read_route_Ok get exec P origin now now' body s resp proof s' :
  read_route json_print get exec (Some rt) P origin now now' body s = (Ok (resp, proof), s') →
  ∃ value r request document,
    read_bounded_json body = Ok value ∧ de_read_request value = Some r ∧ holder_read_request value r (rt_config rt) = Ok request ∧
    ShareRead.read (authorize_read P) get exec request now s = (Ok document, s') ∧
    rs_request resp = ri_request (rq_invocation r) ∧ rs_session resp = ri_session (rq_invocation r) ∧ rs_jti resp = ri_jti (rq_invocation r) ∧
    rs_credential_digest resp = mr_credential_digest document ∧ rs_content resp = mr_document document ∧ rs_body_digest resp = mr_body_digest document ∧
    (∃ expires, expires = Z.min (now' + seconds 60) (hp_expires_at (hq_proof request)) ∧ (now' < expires)%Z ∧
       millis_text now' = Some (rs_issued_at resp) ∧ millis_text expires = Some (rs_expires_at resp)) ∧
    sign (rt_signer rt) READ_RESPONSE_DOMAIN (response_value resp) = Some proof.
Proof.
  unfold read_route. intros Hr. handler_steps Hr.
  match goal with Hx : (let '(_, _) := ShareRead.read _ _ _ ?q _ _ in _) = _ |- _ =>
    destruct (ShareRead.read (authorize_read P) get exec q now s) as [d s1] eqn:Hread; injection Hx as Hd%map_err_Ok ->; subst d end.
  unfold ready, wire_timestamp in *. repeat match goal with Hx : ok_or _ _ = Ok _ |- _ => apply ok_or_Ok in Hx | Hx : ensure _ _ = Ok _ |- _ => apply ensure_Ok in Hx end.
  injection Hr as <- <- <-. simplify_eq. repeat match goal with Hx : (_ <? _)%Z = true |- _ => apply Z.ltb_lt in Hx end.
  do 4 eexists. split_and!; try eassumption; try reflexivity. eexists. split_and!; try eassumption; reflexivity.
Qed.

Lemma holder_read_request_Ok value r config request :
  holder_read_request value r config = Ok request →
  let i := rq_invocation r in
  let q := ri_request i in
  scope_from_request q config = Some (hq_scope request) ∧ hq_session request = ri_session i ∧ hq_jti request = ri_jti i ∧ hq_holder request = wq_holder q ∧
  hq_body_digest request = wq_body_digest q ∧ rfc3339_parse (ri_issued_at i) = Some (hp_issued_at (hq_proof request)) ∧
  rfc3339_parse (ri_expires_at i) = Some (hp_expires_at (hq_proof request)) ∧
  verify_read_request_body_digest value (wq_body_digest q) (wq_body_digest q) = true.
Proof.
  unfold holder_read_request. intros Hr. apply bind_Ok in Hr as (? & _ & Hr). apply bind_Ok in Hr as (scope & Hs%ok_or_Ok & Hr).
  apply bind_Ok in Hr as (? & Hd%ensure_Ok & Hr). apply bind_Ok in Hr as (? & Hb%ensure_Ok & Hr).
  apply bind_Ok in Hr as (issued & Hi%ok_or_Ok & Hr). apply bind_Ok in Hr as (expires & He%ok_or_Ok & Hr). do 2 (apply bind_Ok in Hr as (? & _ & Hr)).
  injection Hr as <-. cbn [hq_scope hq_session hq_jti hq_holder hq_body_digest hq_proof hp_issued_at hp_expires_at].
  unfold body_repeats in Hb. rewrite !andb_true_iff, !bool_decide_eq_true in Hb. destruct_and!. split_and!; try done; [|congruence].
  rewrite <- Hs. f_equal. destruct (ri_request (rq_invocation r)); cbn in *. unfold with_material. cbn. congruence.
Qed.

Lemma de_read_request_wf v r : sorted_json v → de_read_request v = Some r → source_wf (wq_source (ri_request (rq_invocation r))).
Proof.
  intros Hv Hr. unfold de_read_request in Hr. apply bind_Some in Hr as (m & Hm%struct_of_sorted & Hr); [|done].
  do 9 (apply bind_Some in Hr as (? & _ & Hr)). apply bind_Some in Hr as (i & Hi & Hr). apply bind_Some in Hr as (? & _ & Hr). injection Hr as <-.
  cbn [rq_invocation]. apply field_sorted in Hi as (w & Hw & Hi); [|done]. unfold de_read_invocation in Hi.
  apply bind_Some in Hi as (m' & Hm'%struct_of_sorted & Hi); [|done]. do 3 (apply bind_Some in Hi as (? & _ & Hi)).
  apply bind_Some in Hi as (q & Hq & Hi). do 3 (apply bind_Some in Hi as (? & _ & Hi)). injection Hi as <-. by eapply read_request_fields_wf.
Qed.

(** C8: a document is answered over HTTP only to a person the share was opened for.
    When the read route answers, in any state the routes can lead to, a presentation
    was received before that the same holder signed, for the same share, policy,
    delegation, source and node; its credential is one the trusted issuer signed for
    that holder and the recipient of the share's policy; the holder's session root rests,
    at the moment of the read, on stored and unrevoked delegations of one owner; the
    holder has signed the read, within its minute; and the answer is the document of
    the source, with its digest, that credential, and the node's signature.  Digests
    of the read are assumed not to collide with those of a presentation. *)
Theorem share_read_end_to_end get exec (P : Providers) (origin : option string) (now now' : Z) (log : list (Z * string)) (s s' : BridgeDb)
    (body : string) (resp : ReadResponse) (proof : DetachedProof) :
  served now log s →
  read_route json_print get exec (Some rt) P origin now now' body s = (Ok (resp, proof), s') →
  (∀ t presented adm scope, (t, presented) ∈ log → opened t presented adm → scope_from_request (rs_request resp) (rt_config rt) = Some scope →
     no_collision (admitted_value adm) (canonicalize (scope_value scope)) ∧ no_collision (pr_holder (ad_request adm)) (wq_holder (rs_request resp))) →
  ∃ t presented adm request evidence email policy enforcement root root' pinned,
    (t, presented) ∈ log ∧ (t ≤ now)%Z ∧ opened t presented adm ∧
    scope_from_request (rs_request resp) (rt_config rt) = Some (pr_scope (ad_request adm)) ∧
    wq_holder (rs_request resp) = pr_holder (ad_request adm) ∧ pr_policy_recipient_digest (ad_request adm) = digest_text email ∧
    (∃ credential expiry, verify_sd_jwt credential (xv_trust (rt_verifier rt)) (credential_scope (pr_scope (ad_request adm))) (pr_holder (ad_request adm))
       email (xv_issuer (rt_verifier rt)) (mkVerificationTime (unix_timestamp t) (xv_skew (rt_verifier rt)) (Some expiry)) = Ok evidence) ∧
    rs_credential_digest resp = b64url_encode (ve_digest evidence) ∧
    holder_root (bd_authority s') adm root ∧ authorised node (bd_authority s') now root policy enforcement root' ∧
    signed_in_time request now ∧ hq_scope request = pr_scope (ad_request adm) ∧ hq_holder request = pr_holder (ad_request adm) ∧
    hq_session request = rs_session resp ∧ hq_jti request = rs_jti resp ∧
    stored_document get exec (pr_scope (ad_request adm)) pinned (rs_content resp) ∧ rs_body_digest resp = sha256_b64 (rs_content resp) ∧
    sign (rt_signer rt) READ_RESPONSE_DOMAIN (response_value resp) = Some proof.
Proof.
  intros Hserved (value & r & request & document & Hb%read_bounded_sorted & Hde & Hreq & Hread & Hq & Hsess & Hjti & Hcred & Hcontent & Hbody & _ & Hsign)%read_route_Ok Hnc.
  pose proof Hde as Hwf%de_read_request_wf; [|done]. apply holder_read_request_Ok in Hreq as (Hscope & Hs & Hj & Hh & _).
  apply read_answers_source in Hread as (Hsigned & _ & ar & Hauth & Hsc & _ & _ & _ & Hdoc & _ & _ & Hresp).
  pose proof (f_equal mr_body_digest Hresp) as Hbd. pose proof (f_equal mr_credential_digest Hresp) as Hcd. cbn in Hbd, Hcd. clear Hresp.
  destruct (served_runs _ _ _ Hserved) as (h & runs & Hrun & Hlog). rewrite Hq in *.
  assert (ps_scope (ar_session ar) = hq_scope request) as Hps.
  { apply scope_from_request_Some in Hscope as [Hscope _]. clear -Hauth Hscope. unfold authorize_read in Hauth.
    do 7 (apply bind_Ok in Hauth as (? & _ & Hauth)). apply bind_Ok in Hauth as ([[[[? ?] ?] ?] ?] & _ & Hauth).
    do 2 (apply bind_Ok in Hauth as (? & _ & Hauth)). injection Hauth as <- _. cbn. by rewrite Hscope. }
  destruct (share_read_backed verified node Hverify now h runs s s' P (authorization request) ar Hrun Hauth) as
    (adm & ps & policy & enforcement & root & root' & Hin & _ & Hsame & Hholder & Hcd' & Hroot & Haz).
  { cbn. apply scope_from_request_Some in Hscope as [-> _]. exact Hwf. }
  { apply Forall_forall. intros e (t & presented & Hin & _ & Ho)%Hlog. rewrite Hps. cbn. rewrite Hh. by eapply Hnc. }
  destruct (Hlog _ Hin) as (t & presented & Hin' & Hle & Ho). cbn [fst] in Ho. cbn in Hholder. rewrite Hps in Hsame.
  pose proof Ho as (value' & r' & scope & email & pe & P1 & P2 & a & sender & m & _ & _ & _ & _ & _ & _ & _ & Hadm).
  apply admission_bound in Hadm as (evidence & hash & jti & be & Hsd & _ & _ & _ & Hdig & _ & _ & Heq & _).
  rewrite Heq in Hcd', Hsame, Hholder. cbn in Hcd', Hsame, Hholder.
  exists t, presented, adm, request, evidence, email, policy, enforcement, root, root', (ps_statement (ar_session ar)).
  rewrite Heq. cbn [ad_request session_admission_request pr_scope pr_holder pr_policy_recipient_digest].
  split_and!; try congruence; try done; [|exact (ex_intro _ _ (ex_intro _ _ Hsd))|]; (rewrite Heq in Ho; exact Ho) || (rewrite Heq in Hroot; exact Hroot).
Qed.
End Served.

(** ** A share opened and read over HTTP *)

(** The run of [ShareRuns], with the credential and the binding of its holder; the
    texts of the bodies are names of their values. *)
#[local] Existing Instances demo_table_parse demo_table_clock demo_nfc demo_float run_sha run_db_time demo_share_lib run_blake run_cids demo_keccak demo_recover read_verify.

Definition http_config : ShareEmailConfig :=
  mkShareEmailConfig true "https://node.example" run_audience "https://share.example" ["https://share.example"] "" "" None "" EMAIL_VCT "" 1 None None None
    None None None default_postgres_tls 300 5 120 "main".
Definition http_runtime : ShareEmailRuntime :=
  mkShareEmailRuntime http_config (mkExactEmailVerifier (demo_registry [demo_key 1 "a#1" true]) "did:web:issuer.credentials.org" 0 5 None)
    (mkInvitationSigner "did:web:node.example#key" (λ _, Some demo_signature)) (Some run_signer).

Definition http_request : PolicyChallengeRequest :=
  mkPolicyChallengeRequest run_share_cid "id" run_delegation "amh_1" run_digest run_policy_cid run_source run_digest demo_holder "https://node.example"
    run_audience KvGet "docs/a.md" run_digest.

Definition http_credential : string := "H.P." +:+ demo_signature +:+ "~D~".
Definition http_message : json :=
  object_of (binding_fields run_scope run_digest run_digest run_challenge_id run_nonce run_digest run_node demo_holder ++
    [("issuedAt", JString "1970-01-01T00:00:00Z"); ("expiresAt", JString "1970-01-01T00:02:00Z"); ("jti", JString "0123456789abcdef")]).
Definition http_canonical : string := match jcs http_message with Ok s => s | Err _ => "" end.
Definition http_binding : json :=
  JObject [("domain", JString HOLDER_BINDING_DOMAIN); ("jcs", JString http_canonical); ("message", http_message); ("messageDigest", JString run_digest);
           ("name", JString HOLDER_BINDING_NAME);
           ("signature", JObject [("alg", JString EDDSA); ("kid", JString (did_key_kid demo_holder)); ("value", JString demo_signature)]);
           ("signatureDigest", JString run_digest); ("signedBytesDigest", JString run_digest); ("signerDid", JString demo_holder)].
Definition http_proof : DetachedProof := mkDetachedProof "EdDSA" (did_key_kid demo_holder) demo_signature.
Definition http_presentation : PolicyPresentation :=
  mkPolicyPresentation "TinyCloudSharePolicyPresentation" 1 run_challenge_id run_nonce http_request run_node run_digest "1970-01-01T00:00:00Z"
    "1970-01-01T00:02:00Z" run_jti.
Definition http_session_request : SessionRequest := mkSessionRequest http_presentation http_credential http_proof http_binding demo_holder.
Definition http_session_id : string := bytes_string (repeat 5%N 16).
Definition http_read_request : ReadRequest :=
  mkReadRequest http_session_id run_delegation "amh_1" run_digest run_source run_digest KvGet "docs/a.md" run_digest
    (mkReadInvocation "TinyCloudShareReadInvocation" 1 http_session_id http_request "1970-01-01T00:01:00Z" "1970-01-01T00:02:00Z" run_jti) http_proof.

Definition http_documents : list (string * json) :=
  run_documents ++ [("challenge", challenge_request_value http_request); ("session", session_request_value http_session_request);
                    ("read", read_request_value http_read_request); ("binding", http_binding);
                    ("H", JObject [("alg", JString EDDSA)]); ("D", JArray [JString "0123456789abcdef"; JString "email"; JString "a@X.org"]);
                    ("P", JObject [("iss", JString "did:web:issuer.credentials.org"); ("sub", JString demo_holder); ("iat", JNumber (NInt 0));
                                   ("nbf", JNumber (NInt 0)); ("exp", JNumber (NInt 86400)); ("jti", JString "j"); ("vct", JString EMAIL_VCT);
                                   ("tinycloud_share", JObject [("share_cid", JString run_share_cid); ("share_id", JString "id");
                                                                ("policy_cid", JString run_policy_cid); ("node_audience", JString run_audience)]);
                                   ("_sd_alg", JString SD_ALG); ("_sd", JArray [JString run_digest])])].
Definition http_text : JsonText :=
  {| json_read := λ s, (match List.find (λ e, bool_decide (e.1 = s)) http_documents with Some (_, v) => raw_of v | None => RBad end, true);
     float_unsafe := λ _, false |}.
#[local] Existing Instance http_text.

(** The printer knows the binding; a root is printed by its name. *)
Definition http_print (v : json) : string := if bool_decide (is_Some (as_object v ≫= obj_get "signerDid")) then "binding" else "root".

Definition http_s0 : BridgeDb := mkBridgeDb database.db_empty share_empty.
Definition http_challenged : result ApiError json * BridgeDb :=
  policy_challenge http_print (Some http_runtime) run_providers run_providers None "192.0.2.1" 0 (repeat 67%N 32) (repeat 66%N 32) "challenge" http_s0.
Definition http_opened : result ApiError json * BridgeDb :=
  policy_session http_print (Some http_runtime) run_providers run_providers run_providers run_providers (Some "https://share.example") 0
    (repeat 5%N 16) (repeat 0%N 16) "session" http_challenged.2.
Definition http_read : result ApiError (ReadResponse * DetachedProof) * BridgeDb :=
  read_route http_print read_get read_execute (Some http_runtime) run_providers None 60000000000 60000000000 "read" http_opened.2.

Definition http_answer : ReadResponse :=
  mkReadResponse http_session_id run_jti http_request run_digest "1970-01-01T00:01:00Z" "1970-01-01T00:02:00Z" MARKDOWN_MEDIA_TYPE "# Plan" run_digest
    run_delegation "amh_1" run_digest.

Lemma http_read_ok : http_read.1 = Ok (http_answer, mkDetachedProof "EdDSA" "did:web:node.example#key" demo_signature).
Proof. vm_compute. reflexivity. Qed.

Lemma http_verify bytes d : verify bytes = Ok d → run_verified d.
Proof.
  assert (forallb (λ e, match verify e.1 with Ok d => bool_decide (d ∈ [run_policy; run_enforcement; run_root]) | Err _ => true end) http_documents = true) as Hall
    by (vm_compute; reflexivity).
  intros Hv. destruct (List.find (λ e, bool_decide (e.1 = bytes)) http_documents) as [[k v]|] eqn:Hf.
  - apply find_some in Hf as [Hin Hk%bool_decide_eq_true]. simpl in Hk. subst k. rewrite forallb_forall in Hall. specialize (Hall _ Hin). cbn [fst] in Hall.
    rewrite Hv in Hall. by apply bool_decide_eq_true in Hall.
  - unfold verify, from_json, strict_json_value in Hv. unfold json_read, http_text in Hv. by rewrite Hf in Hv.
Qed.

Lemma Some_eq {A} (x y : A) : Some x = Some y → x = y.
Proof. by intros [=]. Qed.

Lemma http_admitted adm : opened http_print http_runtime 0 "session" adm → pr_scope (ad_request adm) = run_scope ∧ pr_holder (ad_request adm) = demo_holder.
Proof.
  intros (value & r & scope & email & pe & P & P2 & a & sender & m & Hb & Hr & Hs & _ & _ & _ & _ & Hadm).
  apply admission_bound in Hadm as (? & ? & ? & ? & _ & _ & _ & _ & _ & _ & _ & -> & _). cbn [ad_request session_admission_request pr_scope pr_holder].
  assert (read_bounded_json "session" = Ok (session_request_value http_session_request)) as Hv by (vm_compute; reflexivity).
  assert (de_session_request (session_request_value http_session_request) = Some http_session_request) as Hd by (vm_compute; reflexivity).
  assert (scope_from_presentation http_presentation http_config = Some run_scope) as Hp by (vm_compute; reflexivity).
  rewrite Hv in Hb. apply Ok_eq in Hb as <-. rewrite Hd in Hr. apply Some_eq in Hr as <-. change (rt_config http_runtime) with http_config in Hs.
  change (sr_presentation http_session_request) with http_presentation in *. rewrite Hp in Hs. apply Some_eq in Hs as <-. clear. split; reflexivity.
Qed.

Lemma http_served : served http_print http_runtime 60000000000 [(0%Z, "session")] http_opened.2.
Proof.
  refine (sv_tick _ _ 0 _ _ _ _ _); [|lia].
  refine (sv_session _ _ 0 [] http_challenged.2 _ _ _ _ _ _ _ _ http_opened.1 http_opened.2 _ (surjective_pairing http_opened)).
  refine (sv_challenge _ _ 0 [] http_s0 _ _ _ _ _ _ _ http_challenged.1 http_challenged.2 _ (surjective_pairing http_challenged)). apply sv_start.
Qed.

Lemma share_read_end_to_end_witness :
  read_get run_space "docs/a.md" = Ok (Some (rs_content http_answer)) ∧
  ∃ adm, opened http_print http_runtime 0 "session" adm ∧ wq_holder (rs_request http_answer) = pr_holder (ad_request adm).
Proof.
  pose proof run_verified_artifacts.
  destruct (share_read_end_to_end run_verified run_node http_verify http_print http_runtime) with
    (get := read_get) (exec := read_execute) (P := run_providers) (origin := @None string) (now := 60000000000%Z) (now' := 60000000000%Z)
    (log := [(0%Z, "session")]) (s := http_opened.2) (s' := http_read.2) (body := "read") (resp := http_answer)
    (proof := mkDetachedProof "EdDSA" "did:web:node.example#key" demo_signature)
    as (t & presented & adm & request & evidence & email & policy & enforcement & root & root' & pinned & Hin & _ & Ho & _ & Hh & _ & _ & _ & _ & _ & _ & _ & _ & _ & _ & Hd & _).
  - by intros k [= <-].
  - exact http_served.
  - transitivity (http_read.1, http_read.2); [exact (surjective_pairing http_read)|]. exact (f_equal (λ x, (x, http_read.2)) http_read_ok).
  - intros t presented adm scope [= -> ->]%list_elem_of_singleton [Hs Hh]%http_admitted Hsc.
    assert (scope_from_request (rs_request http_answer) (rt_config http_runtime) = Some run_scope) as Hp by (vm_compute; reflexivity).
    rewrite Hp in Hsc. apply Some_eq in Hsc as <-. unfold admitted_value. rewrite Hs, Hh. split; intros _; reflexivity.
  - apply list_elem_of_singleton in Hin as [= -> ->]. pose proof (http_admitted adm Ho) as [Hs _]. rewrite Hs in Hd. split; [exact Hd|]. by exists adm.
Defined.
