(* ===== verification/ShareCompose.v ===== *)
(** * Email shares, start of the node: [compose] of tinycloud-node-server/src/share_email.rs
    and the start of the server in lib.rs

    The node resolves its configuration, loads the operator's file and checks both
    against its own signing key before it serves a share.  The key derived from the
    node's secret is an argument, as are the file system and the clock. *)
From S2P Require Import Prelude Handler Str Chars Identity Json Resource Registry SqlCaveat Tables Jcs PolicyCapability Evidence PolicyDelegation PolicyMemory PolicyDatabase PolicyVerifier ShareTypes ShareInvitation ShareState ShareVerifier ShareBridge ShareRuns ShareMaterial ShareRead ShareConfig ShareRoute.

Inductive ComposeError :=
| ConfigError (message : string)
| IssuerKeyRequired
| KeyEncoding
| KeyLength
| IssuerTrust (e : EvidenceError)
| InvitationKeyRequired
| InvalidInvitationKey
| VerifierKid (e : InvitationError)
| KeyMismatch
| SignerKid (e : InvitationError)
| MaterialRequired
| MaterialInvalid
| EnrollmentMismatch
| NotReady
| SelfCheck.

(** The Ed25519 key pair that [StaticSecret::derive_key] gives: the public key, its
    [did:key] and the signatures made with it. *)
Record NodeKey := mkNodeKey { nk_public : string; nk_did : string; nk_sign : string → string }.

Record ShareEmailHostTrustDescriptor := mkHostTrust {
  ht_authority : AuthorityTrustDescriptor;
  ht_issuer_did : string;
  ht_issuer_vct : string;
  ht_issuer_kid : string;
  ht_issuer_public_key : string;
}.

Record CapabilityDescriptor := mkCapabilityDescriptor {
  cd_id : string;
  cd_version : N;
  cd_origin : string;
  cd_return_origin : string;
  cd_routes : list string;
  cd_content_kinds : list string;
  cd_mail_provider : string;
  cd_status : string;
}.

Definition NODE_CAPABILITY_ROUTES : list string :=
  ["/share/v1/invitations/authorize"; "/share/v1/policy/challenges"; "/share/v1/policy/session"; "/share/v1/read"].

Definition capability (rt : ShareEmailRuntime) : CapabilityDescriptor :=
  mkCapabilityDescriptor "tinycloud.node-policy-email-v1" 1 (cf_target_origin (rt_config rt)) (cf_return_origin (rt_config rt)) NODE_CAPABILITY_ROUTES
    ["kv"; "sql"] "resend" "ready".

(** What [compose] builds: the part the routes use, and the loaded file. *)
Record Composed := mkComposed {
  co_runtime : ShareEmailRuntime;
  co_records : list LoadedMaterial;
  co_invitation_verifier : InvitationVerifier;
  co_trust : list AuthorityTrustDescriptor;
  co_host_trust : list ShareEmailHostTrustDescriptor;
}.

Section Compose.
Context `{Rfc3339} `{ShareTime} `{Nfc} `{FloatText} `{Sha256} `{DbTime} `{JsonText} `{EvidenceLib} `{Blake3} `{CidLib} `{Keccak256} `{Recover}
        `{Libp2pVerify} `{UrlLib}.
Context (json_print : json → string) (fixture : bool) (fs_read : string → option string) (fs_is_file : string → bool).
(** [PublicKey::try_from_bytes]: the bytes are a point of the curve. *)
Context (ed25519_point : string → bool).

Definition decode_key32 (value : string) : result ComposeError string :=
  bytes ← ok_or (b64url_decode value) KeyEncoding;
  _ ← ensure (String.length bytes =? 32)%nat KeyLength;
  Ok bytes.

Definition root_signer (key : NodeKey) : NodeRootSigner := mkNodeRootSigner (nk_did key) (λ bytes, Ok (nk_sign key bytes)).

Definition compose (config : ShareEmailConfig) (key : NodeKey) (now : Z) : result ComposeError (option Composed) :=
  if negb (cf_enabled config) then Ok None
  else
    _ ← map_err ConfigError (config_validate fixture fs_read config);
    issuer_text ← ok_or (cf_issuer_public_key config) IssuerKeyRequired;
    issuer_key ← decode_key32 issuer_text;
    trust ← map_err IssuerTrust (registry_new [IssuerKey_new (cf_issuer_did config) (cf_issuer_vct config) (cf_issuer_key_version config) (cf_issuer_kid config) issuer_key]);
    let verifier := mkExactEmailVerifier trust (cf_issuer_did config) (unix_timestamp now) (cf_clock_skew_seconds config) None in
    invite_text ← ok_or (cf_invitation_public_key config) InvitationKeyRequired;
    invite_key ← decode_key32 invite_text;
    _ ← ensure (ed25519_point invite_key) InvalidInvitationKey;
    invitation_verifier ← map_err VerifierKid (verifier_new (cf_invitation_kid config) (libp2p_verify invite_key));
    _ ← ensure (bool_decide (nk_public key = invite_key)) KeyMismatch;
    signer ← map_err SignerKid (signer_new (cf_node_signing_kid config) (λ message, Some (nk_sign key message)));
    path ← ok_or (cf_authority_material_path config) MaterialRequired;
    material ← map_err (λ _, MaterialInvalid) (material_from_path json_print fs_read path);
    _ ← map_err (λ _, EnrollmentMismatch)
          (validate_node_trust material (cf_target_origin config) (cf_node_audience config) (cf_invitation_kid config) invite_key);
    let descriptors := trust_descriptors material in
    let host := (λ a, mkHostTrust a (cf_issuer_did config) (cf_issuer_vct config) (cf_issuer_kid config) issuer_text) <$> descriptors in
    _ ← ensure (bridge_ready material (Some (root_signer key)) now) NotReady;
    Ok (Some (mkComposed (mkShareEmailRuntime config verifier signer (Some (root_signer key))) material invitation_verifier descriptors host)).

(** [self_check]: ready, and the database opens and closes a transaction. *)
Definition self_check (material : list LoadedMaterial) (signer : option NodeRootSigner) (now : Z) (database_opens : bool) : bool :=
  bridge_ready material signer now && database_opens.

(** The start of the server, as far as email shares go; [now'] is the clock at the
    check that follows the composition. *)
Definition share_email_startup (config : ShareEmailConfig) (database : string) (key : NodeKey) (now now' : Z) (database_opens : bool)
    : result ComposeError (option Composed) :=
  config ← map_err ConfigError (resolve_trust_bundle fixture fs_read config);
  _ ← map_err ConfigError (validate_for_database fixture fs_read fs_is_file config database);
  runtime ← compose config key now;
  match runtime with
  | Some c => _ ← ensure (self_check (co_records c) (rt_root_signer (co_runtime c)) now' database_opens) SelfCheck; Ok (Some c)
  | None => Ok None
  end.

(** ** What a started node is *)

(** The trust tuple and the bounds a node starts with. *)
Record started (config : ShareEmailConfig) (key : NodeKey) (c : Composed) : Prop := mkStarted {
  sd_config : rt_config (co_runtime c) = config;
  sd_origins : cf_allowed_origins config = [cf_return_origin config];
  sd_kid : cf_node_signing_kid config = cf_invitation_kid config ∧ canonical_kid_matches (cf_node_signing_kid config) (cf_node_audience config) = true;
  sd_skew : (0 ≤ xv_skew (rt_verifier (co_runtime c)) ≤ 300)%Z;
  sd_ttl : (0 < cf_challenge_ttl_seconds config ≤ 120)%N;
  sd_issuer : ∃ issuer, active_key (xv_trust (rt_verifier (co_runtime c))) OPEN_CREDENTIALS_ISSUER_DID EMAIL_VCT = Ok issuer ∧
    xv_issuer (rt_verifier (co_runtime c)) = OPEN_CREDENTIALS_ISSUER_DID ∧ option_bind _ _ b64url_decode (cf_issuer_public_key config) = Some (ik_public_key issuer);
  sd_signer : is_kid (rt_signer (co_runtime c)) = cf_invitation_kid config ∧ is_sign (rt_signer (co_runtime c)) = λ message, Some (nk_sign key message);
  sd_root : rt_root_signer (co_runtime c) = Some (root_signer key);
  sd_loaded : all_loaded json_print (co_records c);
  sd_enrolled : ∀ r, r ∈ co_records c → lm_target_origin r = cf_target_origin config ∧ lm_node_audience r = cf_node_audience config ∧
    lm_invitation_kid r = cf_invitation_kid config ∧ lm_invitation_public_key r = b64url_encode (nk_public key);
  sd_production : fixture = false → uses_fixture_identity config = false ∧ is_Some (cf_trust_bundle_path config);
}.

Lemma validate_fields_Ok c :
  validate_fields fixture c = Ok tt →
  (fixture = false → uses_fixture_identity c = false) ∧ cf_allowed_origins c = [cf_return_origin c] ∧
  (cf_node_signing_kid c = cf_invitation_kid c ∧ canonical_kid_matches (cf_node_signing_kid c) (cf_node_audience c) = true) ∧
  cf_issuer_did c = OPEN_CREDENTIALS_ISSUER_DID ∧ cf_issuer_vct c = EMAIL_VCT ∧
  (0 ≤ cf_clock_skew_seconds c ≤ 300)%Z ∧ (0 < cf_challenge_ttl_seconds c ≤ 120)%N.
Proof.
  unfold validate_fields. intros Hv. apply bind_Ok in Hv as (? & Hf%ensure_Ok & Hv%ensure_Ok). rewrite !andb_true_iff in Hv.
  destruct_and!. repeat match goal with Hx : bool_decide _ = true |- _ => apply bool_decide_eq_true in Hx end.
  repeat match goal with Hx : (_ <=? _)%Z = true |- _ => apply Z.leb_le in Hx | Hx : (_ <=? _)%N = true |- _ => apply N.leb_le in Hx
                       | Hx : negb (_ =? _)%N = true |- _ => apply negb_true_iff, N.eqb_neq in Hx end.
  split_and!; try done; try lia.
  - intros ->. by destruct (uses_fixture_identity c).
  - destruct (cf_allowed_origins c) as [|o [|]]; simplify_eq/=; congruence.
Qed.

Lemma registry_one k r : ik_enabled k = true → registry_new [k] = Ok r → active_key r (ik_issuer k) (ik_vct k) = Ok k.
Proof.
  intros He Hr. unfold registry_new, insert_all, registry_insert in Hr. ok_inv. unfold active_key, keys_of. rewrite insert_empty, map_to_list_singleton.
  cbn [fmap list_fmap List.filter snd]. rewrite !bool_decide_eq_true_2 by done. cbn [andb List.filter]. by rewrite He.
Qed.

Lemma compose_Ok config key now c :
  resolve_trust_bundle fixture fs_read config = Ok config → compose config key now = Ok (Some c) → started config key c ∧ cf_enabled config = true.
Proof.
  unfold compose. intros Hres Hc. destruct (cf_enabled config) eqn:Hen; [|done]. cbn [negb] in Hc.
  apply bind_Ok in Hc as ([] & Hval%map_err_Ok & Hc). unfold config_validate in Hval. rewrite Hen, Hres in Hval. cbn [negb] in Hval. rewrite bind_ret_l in Hval.
  apply validate_fields_Ok in Hval as (Hfix & Horig & Hkid & Hdid & Hvct & Hskew & Httl).
  apply bind_Ok in Hc as (issuer_text & Hit%ok_or_Ok & Hc). apply bind_Ok in Hc as (issuer_key & Hik & Hc). apply bind_Ok in Hc as (trust & Htrust%map_err_Ok & Hc).
  apply bind_Ok in Hc as (invite_text & _ & Hc). apply bind_Ok in Hc as (invite_key & _ & Hc). apply bind_Ok in Hc as (? & _ & Hc).
  apply bind_Ok in Hc as (iv & _ & Hc). apply bind_Ok in Hc as (? & <-%ensure_Ok%bool_decide_eq_true & Hc). apply bind_Ok in Hc as (signer & Hs%map_err_Ok & Hc).
  apply bind_Ok in Hs as (? & _ & [= <-]). apply bind_Ok in Hc as (path & _ & Hc). apply bind_Ok in Hc as (material & Hm%map_err_Ok & Hc).
  apply bind_Ok in Hm as (bytes & _ & Hm%material_loaded). apply bind_Ok in Hc as ([] & Hnt%map_err_Ok%ensure_Ok & Hc).
  apply andb_true_iff in Hnt as [_ Hnt]. apply bind_Ok in Hc as (? & _ & [= <-]). split; [|done].
  apply registry_one in Htrust; [|done]. cbn [ik_issuer ik_vct IssuerKey_new] in Htrust.
  split; cbn [co_runtime co_records rt_config rt_verifier rt_signer rt_root_signer xv_skew xv_trust xv_issuer is_kid is_sign]; try done.
  - rewrite <- Hdid, <- Hvct. eexists. split_and!; [exact Htrust|done|]. rewrite Hit. unfold decode_key32 in Hik. apply bind_Ok in Hik as (b & Hb%ok_or_Ok & Hik).
    by apply bind_Ok in Hik as (? & _ & [= <-]).
  - split; [by destruct Hkid|done].
  - intros r Hr. rewrite forallb_forall in Hnt. apply list_elem_of_In, Hnt in Hr. rewrite !andb_true_iff, !bool_decide_eq_true in Hr. naive_solver.
  - intros Hf. split; [by apply Hfix|]. destruct (resolve_Ok fixture fs_read config config Hen Hres) as [(_ & Hx & _)|(path' & ? & ? & -> & _)]; [congruence|done].
Qed.

Lemma startup_Ok config database key now now' opens c :
  share_email_startup config database key now now' opens = Ok (Some c) → ∃ resolved, resolve_trust_bundle fixture fs_read config = Ok resolved ∧ started resolved key c.
Proof.
  unfold share_email_startup. intros Hs. apply bind_Ok in Hs as (resolved & Hres%map_err_Ok & Hs). apply bind_Ok in Hs as (? & _ & Hs).
  apply bind_Ok in Hs as ([c'|] & Hc & Hs); [|done]. apply bind_Ok in Hs as (? & _ & [= <-]). exists resolved. split; [done|].
  apply (compose_Ok _ _ now); [by eapply resolve_stable|done].
Qed.

(** C9: a started node answers a read only on the operator's file and with its own key.
    From the start of the server to an answer: the browser, if any, comes from the one
    origin of the configuration, the scope names a record of the file that is enrolled for
    this node's origin, audience and signing key, the record's signatures and delegations
    verified when it was loaded, both delegations are observed as active at the moment of
    the read, and the answer is signed with the key that the record enrols. *)
Theorem started_node_serves_file (Hprint : ∀ v, json_read (json_print v) = (raw_of v, true)) (config : ShareEmailConfig) (database : string) (key : NodeKey)
    (t t' : Z) (opens : bool) (c : Composed) get exec (origin : option string) (now now' : Z) (body : string) (s s' : BridgeDb) (resp : ReadResponse)
    (proof : DetachedProof) :
  share_email_startup config database key t t' opens = Ok (Some c) →
  read_route json_print get exec (Some (co_runtime c)) (loaded_providers (co_records c)) origin now now' body s = (Ok (resp, proof), s') →
  ∃ resolved scope r policy enforcement authority document sender,
    resolve_trust_bundle fixture fs_read config = Ok resolved ∧ started resolved key c ∧
    (origin = None ∨ origin = Some (cf_return_origin resolved)) ∧
    scope_from_request (rs_request resp) resolved = Some scope ∧ r ∈ co_records c ∧ record_of_scope scope r ∧
    lm_target_origin r = cf_target_origin resolved ∧ lm_node_audience r = cf_node_audience resolved ∧
    loaded_sound json_print r policy enforcement authority document sender ∧
    observed_at json_print (co_records c) (pd_cid policy) now ∧ observed_at json_print (co_records c) (pd_cid enforcement) now ∧
    lm_invitation_public_key r = b64url_encode (nk_public key) ∧
    proof = mkDetachedProof "EdDSA" (lm_invitation_kid r) (b64url_encode (nk_sign key (READ_RESPONSE_DOMAIN +:+ canonicalize (response_value resp)))).
Proof.
  intros (resolved & Hres & Hst)%startup_Ok Hread. pose proof (sd_config _ _ _ Hst) as Hcfg. pose proof Hread as Horigin.
  unfold read_route in Horigin. apply handler_bind_Ok in Horigin as (? & ? & Hg & _). apply answer_Ok in Hg as [Hg _].
  assert (∀ k, rt_root_signer (co_runtime c) = Some k → signer_did k = nk_did key) as Hroot by (rewrite (sd_root _ _ _ Hst); by intros k [= <-]).
  apply (read_route_Ok (nk_did key) json_print _ Hroot) in Hread as (value & r & request & doc & _ & _ & Hreq & Hread & Hq & _ & _ & _ & _ & _ & _ & Hsign).
  apply holder_read_request_Ok in Hreq as (Hscope & _). apply read_answers_source in Hread as (_ & _ & a & Hauth & _).
  rewrite Hcfg, <- Hq in Hscope. pose proof Hscope as [Hsc _]%scope_from_request_Some. unfold authorize_read in Hauth.
  do 7 (apply bind_Ok in Hauth as (? & _ & Hauth)). apply bind_Ok in Hauth as (out & Hv & _). cbn [rr_scope authorization] in Hv. rewrite Hsc in Hv.
  cbn [sc_delegation_cid] in Hv. rewrite <- Hsc in Hv.
  destruct (scope_backed json_print Hprint _ _ _ _ _ (sd_loaded _ _ _ Hst) Hv) as (m & policy & enforcement & authority & document & sender & enforcer & Hm & Hids & Hsound & Ho1 & Ho2 & _).
  destruct (sd_enrolled _ _ _ Hst m Hm) as (? & ? & Hkid & Hkey). destruct (sd_signer _ _ _ Hst) as [Hsk Hss].
  exists resolved, (hq_scope request), m, policy, enforcement, authority, document, sender. split_and!; try done.
  - unfold share_origin_guard in Hg. destruct origin as [o|]; [right|by left]. apply ensure_Ok, bool_decide_eq_true in Hg. cbn in Hg. rewrite Hcfg, (sd_origins _ _ _ Hst) in Hg.
    cbn in Hg. by injection Hg as <-.
  - unfold sign in Hsign. rewrite Hss, Hsk in Hsign. cbn in Hsign. injection Hsign as <-. by rewrite Hkid.
Qed.

End Compose.

(** ** A node started on a file *)

#[local] Existing Instances demo_table_parse demo_table_clock demo_nfc demo_float run_sha run_db_time demo_share_lib run_blake run_cids demo_keccak demo_recover read_verify bundle_urls.

Definition node_documents : list (string * json) := ("file", file_json) :: http_documents.
Definition node_text : JsonText :=
  {| json_read := λ s, (match code_read s with
                        | Some v => raw_of v
                        | None => match List.find (λ e, bool_decide (e.1 = s)) node_documents with Some (_, v) => raw_of v | None => RBad end
                        end, true);
     float_unsafe := λ _, false |}.
#[local] Existing Instance node_text.

Lemma node_prints v : json_read (code_print v) = (raw_of v, true).
Proof. cbn [json_read node_text]. by rewrite code_read_print. Qed.

(** The file system: one file, whose text is its name. *)
Definition node_fs (path : string) : option string := if bool_decide (path = "file") then Some path else None.
Definition node_config : ShareEmailConfig :=
  mkShareEmailConfig true "https://node.example" run_audience "https://share.example" ["https://share.example"] (run_audience +:+ "#key") (run_audience +:+ "#key")
    (Some run_digest) OPEN_CREDENTIALS_ISSUER_DID EMAIL_VCT (OPEN_CREDENTIALS_ISSUER_DID +:+ "#1") 1 (Some bundle_key) (Some "file") None
    None None None default_postgres_tls 300 5 120 "main".
Definition node_key : NodeKey := mkNodeKey run_digest run_node (λ _, demo_signature).

Definition node_startup : result ComposeError (option Composed) :=
  share_email_startup code_print true node_fs (λ _, true) (λ _, true) node_config "sqlite:node.db" node_key 0 0 true.
Definition node_dummy : Composed := mkComposed http_runtime [] (mkInvitationVerifier "" (λ _ _, true)) [] [].
Definition node_composed : Composed := match node_startup with Ok (Some c) => c | _ => node_dummy end.

Lemma node_started : node_startup = Ok (Some node_composed).
Proof. unfold node_composed. assert (match node_startup with Ok (Some _) => true | _ => false end = true) as Hs by (vm_compute; reflexivity).
  by destruct node_startup as [[c|]|].
Qed.

Definition node_read : result ApiError (ReadResponse * DetachedProof) * BridgeDb :=
  read_route code_print read_get read_execute (Some (co_runtime node_composed)) (loaded_providers (co_records node_composed)) None 60000000000 60000000000 "read"
    http_opened.2.

Lemma node_read_ok : node_read.1 = Ok (http_answer, mkDetachedProof "EdDSA" "did:web:node.example#key" demo_signature).
Proof. vm_compute. reflexivity. Qed.

Lemma started_node_serves_file_witness :
  ∃ resolved r, started code_print true resolved node_key node_composed ∧ r ∈ co_records node_composed ∧ lm_target_origin r = cf_target_origin resolved.
Proof.
  destruct (started_node_serves_file code_print true node_fs (λ _, true) (λ _, true) node_prints node_config "sqlite:node.db" node_key 0 0 true node_composed
    read_get read_execute None 60000000000 60000000000 "read" http_opened.2 node_read.2 http_answer (mkDetachedProof "EdDSA" "did:web:node.example#key" demo_signature)
    node_started) as (resolved & scope & r & ? & ? & ? & ? & ? & _ & Hst & _ & _ & Hr & _ & Ho & _).
  - transitivity (node_read.1, node_read.2); [exact (surjective_pairing node_read)|]. exact (f_equal (λ x, (x, node_read.2)) node_read_ok).
  - exists resolved, r. split; [exact Hst|]. split; [exact Hr|exact Ho].
Defined.
