(* ===== verification/SqlRoute.v ===== *)
(** * The SQL route: tinycloud-node-server/src/routes/mod.rs 1501-2029, 2251-2285 and
      2385-2582

    What happens to an invocation that holds SQL capabilities (Reply [ToSql] of
    KvRoute): the caveat that the delegation chain pins on it, the authorization of
    the invocation, the database and the ability its capabilities select, the
    constrained-statements profile, the quota check of writes, the execution by
    the service (SqlService) and the events of the tables written.  An error is
    its HTTP status.  The request is the body as [serde] reads it. *)
From S2P Require Import Prelude Str Chars Json Identity Resource Registry SqlCaveat ColumnEncryption Tables Storage Chain Tokens Events Demo Delegation Invocation Revocation Kv Transact Authority KvStore Query Invoke Replay Artifacts KvRoute SqlParser SqlAuthorizer SqlService.

Notation Scope := (SpaceId * option string * string)%type (only parsing).

(** ** Which database, with which ability *)

Fixpoint select_database_path (selected : option string) (caps : list Scope) : result Status (option string) :=
  match caps with
  | [] => Ok selected
  | (_, None, _) :: caps => select_database_path selected caps
  | (_, Some p, _) :: caps =>
      match selected with
      | None => select_database_path (Some p) caps
      | Some s => if bool_decide (s = p) then select_database_path selected caps else Err 400%N
      end
  end.

Definition preferred_abilities (service : string) : list string :=
  if decide (service = "sql") then
    ["tinycloud.sql/write"; "tinycloud.sql/schema"; "tinycloud.sql/admin"; "tinycloud.sql/*"; "tinycloud.sql/read"; "tinycloud.sql/select"]
  else if decide (service = "duckdb") then
    ["tinycloud.duckdb/write"; "tinycloud.duckdb/admin"; "tinycloud.duckdb/*"; "tinycloud.duckdb/import"; "tinycloud.duckdb/export";
     "tinycloud.duckdb/read"; "tinycloud.duckdb/select"]
  else [].

Definition held_as (caps : list Scope) (preferred : string) : option string :=
  snd <$> find (λ c : Scope, bool_decide (resolve_alias c.2 = resolve_alias preferred)) caps.

Definition preferred_database_ability (caps : list Scope) (service : string) : option string :=
  find_map (held_as caps) (preferred_abilities service).

Definition select_database_scope (caps : list Scope) (service : string) : result Status Scope :=
  match caps with
  | [] => Err 400%N
  | (space, _, _) :: _ =>
      _ ← ensure (forallb (λ c : Scope, bool_decide (c.1.1 = space)) caps) 400%N;
      path ← select_database_path None caps;
      ability ← ok_or (preferred_database_ability caps service) 401%N;
      Ok (space, path, ability)
  end.

Definition has_database_admin_capability (caps : list Scope) (service : string) : bool :=
  let admin := if decide (service = "sql") then Some "tinycloud.sql/admin"
               else if decide (service = "duckdb") then Some "tinycloud.duckdb/admin" else None in
  match admin with Some a => existsb (λ c : Scope, ability_matches c.2 a) caps | None => false end.

Definition sql_request_requires_admin (request : SqlRequest) : bool :=
  match request with
  | RQuery sql _ _ _ => is_pragma_sql sql
  | RExecute sql _ schema => is_pragma_sql sql || match schema with Some l => existsb is_pragma_sql l | None => false end
  | RBatch stmts => existsb (λ s, is_pragma_sql (ss_sql s)) stmts
  | RExecuteStatement _ _ | RExport => false
  end.

Definition require_sql_admin_for_request (request : SqlRequest) (caps : list Scope) : result Status unit :=
  ensure (negb (sql_request_requires_admin request) || has_database_admin_capability caps "sql") 401%N.

(** ** The caveat the chain carries *)

Section Chain.
Context `{RowOrder}.

(** [frontier.drain(..).filter(|h| visited.insert(h))]: the new nodes, in order. *)
Fixpoint drain (visited frontier : list Hash) : list Hash :=
  match frontier with
  | [] => []
  | h :: frontier => if mem h visited then drain visited frontier else h :: drain (h :: visited) frontier
  end.

Fixpoint chain_caveat_loop (fuel : nat) (db : Db) (visited frontier : list Hash)
    : option (option SqlConstrainedStatementCaveat) :=
  match fuel with
  | O => None
  | S fuel =>
      match drain visited frontier with
      | [] => Some None
      | batch =>
          match find_map (λ row, extract_sql_caveat (a_caveats row)) (select (λ row, mem (a_delegation row) batch) (abilities db)) with
          | Some caveat => Some (Some caveat)
          | None =>
              let visited := rev batch ++ visited in
              let parents := select (λ link, mem (p_child link) batch) (parent_delegations db) in
              chain_caveat_loop fuel db visited (List.filter (λ h, negb (mem h visited)) (p_parent <$> parents))
          end
      end
  end.

(** Every round but the last visits a cited parent or the parent of a link. *)
Definition derive_chain_constrained_caveat (db : Db) (parent_cids : list Cid) : option SqlConstrainedStatementCaveat :=
  match parent_cids with
  | [] => None
  | _ =>
      default None (chain_caveat_loop (S (length parent_cids + length (parent_delegations db))) db [] (hash_of_cid <$> parent_cids))
  end.
End Chain.

Definition constrained_caveat_to_sql_caveats (c : SqlConstrainedStatementCaveat) : SqlCaveats :=
  mkSqlCaveats None None (Some ((λ s, mkPreparedStatement (st_name s) (st_sql s)) <$> statements c)) (Some (read_only c)).

(** ** The constrained-statements profile *)

(** [i64 as usize]. *)
Definition as_usize (z : Z) : N := Z.to_N (z mod 2 ^ 64).

(** A whole-number [f64] code of an integer beyond [i64]: [Number::as_f64]. *)
Class NumberAsF64 := integer_as_f64 : Z → Z.

Definition json_to_sql_value `{NumberAsF64} (v : json) : option SqlValue :=
  match v with
  | JNull => Some VNull
  | JBool b => Some (VInteger (if b then 1 else 0))
  | JString s => Some (VText s)
  | JNumber (NInt z) => match as_i64 v with Some i => Some (VInteger i) | None => Some (VReal (integer_as_f64 z)) end
  | JNumber (NFloat f) => Some (VReal f)
  | JArray _ | JObject _ => None
  end.

Definition pinned_at (fixed : list FixedParam) (i : nat) : option FixedParam :=
  find (λ fp, bool_decide (as_usize (fp_index fp) = N.of_nat i)) fixed.

(** [iter().map(|fp| fp.index).max()]. *)
Definition max_index (fixed : list FixedParam) : option Z :=
  foldr (λ fp m, Some (match m with Some z => Z.max (fp_index fp) z | None => fp_index fp end)) None fixed.

(** The length of the parameters: [(m as usize) + 1] wraps. *)
Definition params_length (fixed : list FixedParam) (caller : list SqlValue) : nat :=
  let max_fixed := match max_index fixed with Some m => ((as_usize m + 1) mod 2 ^ 64)%N | None => 0%N end in
  Nat.max (length caller) (N.to_nat max_fixed).

Definition param_at `{NumberAsF64} (fixed : list FixedParam) (caller : list SqlValue) (i : nat) : result Status SqlValue :=
  match pinned_at fixed i, caller !! i with
  | Some fp, _ => ok_or (json_to_sql_value (fp_value fp)) 403%N
  | None, Some v => Ok v
  | None, None => Ok VNull
  end.

Definition substitute_fixed_params `{NumberAsF64} (fixed : list FixedParam) (caller : list SqlValue) : result Status (list SqlValue) :=
  try_map (param_at fixed caller) (seq 0 (params_length fixed caller)).

Definition bindable (fixed : list FixedParam) (ip : nat * SqlValue) : bool :=
  bool_decide (is_Some (pinned_at fixed ip.1)) ||
  match ip.2 with
  | VText s => negb (looks_like_escape s)
  | VNull | VInteger _ | VReal _ => true
  | VBlob _ => false
  end.

(** The index is used as [usize]: one beyond the caller's parameters is no
    override. *)
Definition overrides (params : list SqlValue) (fp : FixedParam) : bool :=
  (as_usize (fp_index fp) <? N.of_nat (length params))%N.

Definition enforce_constrained_profile `{NumberAsF64} (caveat : SqlConstrainedStatementCaveat) (request : SqlRequest)
    : result Status SqlRequest :=
  match request with
  | RExecuteStatement name params =>
      stmt ← ok_or (find_statement name (statements caveat)) 403%N;
      _ ← ensure (negb (contains_write_keyword (st_sql stmt))) 403%N;
      _ ← ensure (negb (is_multistatement (st_sql stmt))) 403%N;
      _ ← ensure (forallb (λ fp, negb (overrides params fp)) (fixed_params stmt)) 403%N;
      _ ← ensure (forallb (bindable (fixed_params stmt)) (zip (seq 0 (length params)) params)) 403%N;
      substituted ← substitute_fixed_params (fixed_params stmt) params;
      Ok (RExecuteStatement name substituted)
  | RQuery _ _ _ _ | RExecute _ _ _ | RBatch _ | RExport => Err 403%N
  end.

(** ** The caveats of the invocation's facts *)

(** [serde_json::from_value::<SqlCaveats>] of an optional field, of a list of
    strings and of a prepared statement; a struct is also read from an array of
    its fields. *)
Definition optional_field {A} (f : json → option A) (v : option json) : option (option A) :=
  match v with None | Some JNull => Some None | Some v => Some <$> f v end.

Definition strings_of_json (v : json) : option (list string) := l ← as_array v; mapM as_str l.

Definition prepared_of_json (v : json) : option PreparedStatement :=
  match v with
  | JObject m => name ← obj_get "name" m ≫= as_str; sql ← obj_get "sql" m ≫= as_str; Some (mkPreparedStatement name sql)
  | JArray [name; sql] => name ← as_str name; sql ← as_str sql; Some (mkPreparedStatement name sql)
  | _ => None
  end.

Definition sql_caveats_of_json (v : json) : option SqlCaveats :=
  let read (tables columns stmts ro : option json) :=
    tables ← optional_field strings_of_json tables;
    columns ← optional_field strings_of_json columns;
    stmts ← optional_field (λ v, l ← as_array v; mapM prepared_of_json l) stmts;
    ro ← optional_field as_bool ro;
    Some (mkSqlCaveats tables columns stmts ro) in
  match v with
  | JObject m => read (obj_get "tables" m) (obj_get "columns" m) (obj_get "statements" m) (obj_get "readOnly" m)
  | JArray [a; b; c; d] => read (Some a) (Some b) (Some c) (Some d)
  | _ => None
  end.

Definition facts_caveats (u : Ucan) : option SqlCaveats :=
  facts ← u_facts u;
  find_map (λ fact, m ← as_object fact; v ← obj_get "sqlCaveats" m; sql_caveats_of_json v) facts.

(** ** Write events *)

Record WriteEvent := mkWriteEvent {
  we_id : string;
  we_space : string;
  we_service : string;
  we_ability : string;
  we_path : option string;
  we_actor : string;
  we_epoch : string;
  we_event_index : N;
  we_timestamp : string;
}.

Definition database_write_ability (service : string) : string :=
  if decide (service = "sql") then "tinycloud.sql/write"
  else if decide (service = "duckdb") then "tinycloud.duckdb/write" else "tinycloud.kv/put".

Definition db_table_path (db_name table : string) : string := db_name +:+ "/" +:+ table.

(** The tables named by supported targets, in order. *)
Definition touched (targets : list TouchedTables) : list string :=
  flat_map (λ t, match t with Supported tables => tables | Unsupported => [] end) targets.

Definition database_write_events (space service db_name actor epoch timestamp : string) (targets : list TouchedTables) : list WriteEvent :=
  imap (λ i table,
          mkWriteEvent (epoch +:+ ":" +:+ fmt_u64 (N.of_nat i)) space service (database_write_ability service)
            (Some (db_table_path db_name table)) actor epoch (N.of_nat i) timestamp)
       (touched targets).

(** ** The handler *)

Inductive SqlAnswer := SqlExport (bytes : string) | SqlResult (r : SqlResponse).

Definition sql_error_to_status (e : SqlError) : Status :=
  match e with
  | ESqlite _ | EInvalidStatement _ | ESchemaError _ | EParseError _ => 400
  | EPermissionDenied _ | EReadOnlyViolation => 403
  | EDatabaseNotFound => 404
  | EResponseTooLarge _ => 413
  | EQuotaExceeded => 429
  | EInternal _ => 500
  end.

Section Handler.
Context `{Keccak256} `{Blake3} `{CidLib} `{RowOrder} `{TokenLib} `{TimeLib} `{HookFormats} `{DagCbor} `{TokenCodec} `{Collation}.
Context `{!Sqlite} `{RowJson} `{SqlParse} `{NumberAsF64}.
Context {B E : Type} `{!BlockStore B E}.
Context (public_limit : N) (quota : SpaceId → option N) (memory_threshold : N).

Definition verify_auth_status (e : TxStoreError E) : Status :=
  match e with
  | Tx SpaceNotFound => 404
  | Tx (TxDb e) | Tx (EpochInsert e) => database_error_status e
  | _ => 401
  end.

(** [verify_auth]: the invocation without inputs, as every other. *)
Definition verify_auth (encryption : option ColumnEncryption) (nonce : Hash → string) (now : Z) (setup : SpaceId → result TxError unit)
    (db : Tables.Db) (b : B) (i : InvocationInfo) (bytes : string) : result Status (TransactResult * Tables.Db) * B :=
  let '(r, b) := invoke encryption nonce now setup db b i bytes ∅ in
  (map_err verify_auth_status ('(commit, _, db) ← r; Ok (commit, db)), b).

Definition sql_request_is_write (request : SqlRequest) (caveats : option SqlCaveats) (ability : string) : bool :=
  let is_write_sql sql := match validate_sql sql caveats ability with Ok p => negb (is_read_only p) | Err _ => false end in
  match request with
  | RQuery sql _ _ _ => is_write_sql sql
  | RExecute sql _ schema => match schema with Some (_ :: _) => true | _ => false end || is_write_sql sql
  | RBatch stmts => existsb (λ s, is_write_sql (ss_sql s)) stmts
  | RExecuteStatement name _ =>
      match caveats ≫= λ c, find_prepared c name with Some stmt => is_write_sql (ps_sql stmt) | None => false end
  | RExport => false
  end.

(** What is to be done once the invocation is authorized: which database, what
    request, under which caveats and ability. *)
Record SqlPlan := mkSqlPlan {
  sp_space : SpaceId;
  sp_db_name : string;
  sp_request : SqlRequest;
  sp_caveats : option SqlCaveats;
  sp_ability : string;
}.

Definition sql_plan (chain : option SqlConstrainedStatementCaveat) (facts : option SqlCaveats) (caps : list Scope)
    (request : option SqlRequest) : result Status SqlPlan :=
  '(space, path, ability) ← select_database_scope caps "sql";
  request ← ok_or request 400%N;
  _ ← require_sql_admin_for_request request caps;
  request ← match chain with Some caveat => enforce_constrained_profile caveat request | None => Ok request end;
  Ok (mkSqlPlan space (db_name_from_path path) request
        (match chain with Some c => Some (constrained_caveat_to_sql_caveats c) | None => facts end) ability).

(** The execution of a plan: an export, or a statement after the quota check of a
    write.  The sizes the quota counts are the service's. *)
Definition run_plan (env : Env) (fate : Fate) (b : B) (s : SqlService) (p : SqlPlan)
    : result Status (SqlAnswer * list TouchedTables) * SqlService :=
  match sp_request p with
  | RExport =>
      let '(r, s) := service_export fate s (sp_space p) (sp_db_name p) in
      (bytes ← map_err sql_error_to_status r; Ok (SqlExport bytes, []), s)
  | request =>
      match (if sql_request_is_write request (sp_caveats p) (sp_ability p)
             then _ ← staged_batch_remaining public_limit quota b (artifacts s).2 (sp_space p); Ok tt
             else Ok tt) with
      | Err e => (Err e, s)
      | Ok _ =>
          let '(r, s) := service_execute memory_threshold env s (sp_space p) (sp_db_name p) request (sp_caveats p) (sp_ability p) in
          (res ← map_err sql_error_to_status r; Ok (SqlResult (response res), res_targets res), s)
      end
  end.

(** [handle_sql_invoke]; [body] is what [read_json_body] gave, [parse_request] what
    [serde] makes of it, [timestamp] the RFC 3339 text of the clock.  The answer
    and the events that are handed to the hook delivery. *)
Definition handle_sql_invoke (encryption : option ColumnEncryption) (nonce : Hash → string) (now : Z)
    (setup : SpaceId → result TxError unit) (env : Env) (fate : Fate) (parse_request : string → option SqlRequest)
    (timestamp : option string) (db : Tables.Db) (b : B) (s : SqlService) (i : InvocationInfo) (bytes : string)
    (body : result Status string) (caps : list Scope)
    : result Status (SqlAnswer * list WriteEvent) * (Tables.Db * B * SqlService) :=
  let chain := derive_chain_constrained_caveat db (ii_parents i) in
  let facts := facts_caveats (ii_invocation i) in
  match verify_auth encryption nonce now setup db b i bytes with
  | (Err e, b) => (Err e, (db, b, s))
  | (Ok (auth, db), b) =>
      match body ≫= λ text, sql_plan chain facts caps (parse_request text) with
      | Err e => (Err e, (db, b, s))
      | Ok p =>
          let '(r, s) := run_plan env fate b s p in
          ('(answer, targets) ← r;
           Ok (answer,
               match snd <$> find (λ sc, bool_decide (sc.1 = sp_space p)) (commits auth), timestamp with
               | Some commit, Some timestamp =>
                   database_write_events (space_to_string (sp_space p)) "sql" (sp_db_name p) (ii_invoker i)
                     (cid_text (c_rev commit)) timestamp targets
               | _, _ => []
               end), (db, b, s))
      end
  end.

End Handler.

(** ** The selected scope *)

Lemma select_database_path_spec caps : ∀ selected p, select_database_path selected caps = Ok p →
  (∀ q, selected = Some q → p = Some q) ∧ ∀ sp q a, (sp, Some q, a) ∈ caps → p = Some q.
Proof.
  induction caps as [|[[sp0 q0] a0] caps IH]; intros selected p; cbn [select_database_path].
  - intros [= ->]. split; [done|]. intros sp q a Hin%not_elem_of_nil. done.
  - destruct q0 as [q0|].
    + destruct selected as [q1|].
      * case_bool_decide; [subst|done]. intros [Hs Hc]%IH. split; [done|]. intros sp q a [Heq|Hin]%elem_of_cons; [simplify_eq; by apply Hs|by eapply Hc].
      * intros [Hs Hc]%IH. split; [done|]. intros sp q a [Heq|Hin]%elem_of_cons; [simplify_eq; by apply Hs|by eapply Hc].
    + intros [Hs Hc]%IH. split; [done|]. intros sp q a [Heq|Hin]%elem_of_cons; [done|by eapply Hc].
Qed.

Lemma preferred_held caps service ability :
  preferred_database_ability caps service = Some ability → ∃ sp q, (sp, q, ability) ∈ caps.
Proof.
  intros (x & _ & Hx)%find_map_Some. unfold held_as in Hx. apply fmap_Some in Hx as ([[sp q] a] & Hf & ->).
  apply find_some in Hf as [Hin _]. exists sp, q. by apply list_elem_of_In.
Qed.

(** A request runs on what one of its capabilities grants: the selected space is
    that of every SQL capability, the selected path is the path of every one that
    names a path, and the ability is one of them as it is held, granted on that
    very path or on all paths of the service. *)
Theorem selected_scope_granted (caps : list Scope) (svc : string) (sp : SpaceId) (p : option string) (ability : string) :
  select_database_scope caps svc = Ok (sp, p, ability) →
  (∀ c, c ∈ caps → c.1.1 = sp) ∧ (∀ c q, c ∈ caps → c.1.2 = Some q → p = Some q) ∧
  ∃ c, c ∈ caps ∧ c.2 = ability ∧ (c.1.2 = p ∨ c.1.2 = None).
Proof.
  unfold select_database_scope. destruct caps as [|[[sp0 q0] a0] caps'] eqn:Hcaps; [done|]. rewrite <- Hcaps. clear Hcaps.
  intros Hs. apply bind_Ok in Hs as ([] & Hsp%ensure_Ok & Hs). apply bind_Ok in Hs as (p' & Hp & Hs).
  apply bind_Ok in Hs as (ab & Hab%ok_or_Ok & Hs). simplify_eq.
  apply select_database_path_spec in Hp as [_ Hpath]. apply preferred_held in Hab as (sp1 & q1 & Hin).
  split_and!.
  - intros c Hc. rewrite forallb_forall in Hsp. apply list_elem_of_In, Hsp, bool_decide_eq_true in Hc. done.
  - intros [[sp2 q2] a2] q Hc Hq. simpl in Hq. subst. by eapply Hpath.
  - exists (sp1, q1, ability). split_and!; [done..|]. destruct q1 as [q1|]; [left; symmetry; by eapply Hpath|by right].
Qed.

Lemma selected_scope_granted_witness :
  ∃ c, c ∈ [(demo_space, Some "db", "tinycloud.sql/read"); (demo_space, None, "tinycloud.sql/write")] ∧
    c.2 = "tinycloud.sql/write" ∧ (c.1.2 = Some "db" ∨ c.1.2 = None).
Proof.
  refine (proj2 (proj2 (selected_scope_granted
    [(demo_space, Some "db", "tinycloud.sql/read"); (demo_space, None, "tinycloud.sql/write")] "sql" demo_space (Some "db") "tinycloud.sql/write" _))).
  by vm_compute.
Defined.

(** ** Pinned parameters *)

Lemma pinned_at_Some fixed i fp : pinned_at fixed i = Some fp → fp ∈ fixed ∧ as_usize (fp_index fp) = N.of_nat i.
Proof. intros [Hin Hb]%find_some. split; [by apply list_elem_of_In|by apply bool_decide_eq_true in Hb]. Qed.

Lemma max_index_bound fixed fp : fp ∈ fixed → ∃ m, max_index fixed = Some m ∧ (fp_index fp ≤ m)%Z.
Proof.
  induction fixed as [|x fixed IH]; [by intros ?%not_elem_of_nil|]. intros [->|Hin]%elem_of_cons; cbn [max_index foldr].
  - eexists. split; [done|]. fold (max_index fixed). destruct (max_index fixed); lia.
  - destruct (IH Hin) as (m & Hm & Hle). fold (max_index fixed). rewrite Hm. eexists. split; [done|]. lia.
Qed.

Lemma max_index_range fixed m : max_index fixed = Some m → ∃ fp, fp ∈ fixed ∧ fp_index fp = m.
Proof.
  revert m. induction fixed as [|x fixed IH]; intros m; [done|]. cbn [max_index foldr]. fold (max_index fixed).
  destruct (max_index fixed) as [z|] eqn:Hz; intros [= <-].
  - destruct (Z.max_spec (fp_index x) z) as [[_ ->]|[_ ->]]; [|exists x; split; [by left|done]].
    destruct (IH z eq_refl) as (fp & Hin & Heq). exists fp. split; [by right|done].
  - exists x. split; [by left|done].
Qed.

(** Indices a statement can bind: [0 ≤ index < 2^32]. *)
Definition sane_pins (fixed : list FixedParam) : Prop := ∀ fp, fp ∈ fixed → (0 ≤ fp_index fp < 2 ^ 32)%Z.

Lemma as_usize_small z : (0 ≤ z < 2 ^ 32)%Z → as_usize z = Z.to_N z.
Proof. intros Hz. unfold as_usize. rewrite Z.mod_small by lia. done. Qed.

Lemma pinned_in_range fixed caller fp : sane_pins fixed → fp ∈ fixed → Z.to_nat (fp_index fp) < params_length fixed caller.
Proof.
  intros Hsane Hin. unfold params_length. destruct (max_index_bound fixed fp Hin) as (m & Hm & Hle). rewrite Hm.
  destruct (max_index_range fixed m Hm) as (fp' & Hin' & <-). pose proof (Hsane _ Hin). pose proof (Hsane _ Hin').
  rewrite as_usize_small, N.mod_small by lia. lia.
Qed.

Lemma substitute_spec `{NumberAsF64} fixed caller out :
  substitute_fixed_params fixed caller = Ok out →
  length out = params_length fixed caller ∧ ∀ i v, out !! i = Some v → param_at fixed caller i = Ok v.
Proof.
  intros Hs%try_map_Ok. pose proof (Forall2_length _ _ _ Hs) as Hlen. rewrite length_seq in Hlen. split; [done|].
  intros i v Hv. destruct (Forall2_lookup_r _ _ _ _ _ Hs Hv) as (j & Hj & Hp). apply lookup_seq in Hj as [-> _]. done.
Qed.

(** ** The caveat of the chain *)

(** A delegation carries a caveat in one of its ability rows. *)
Definition carries (db : Db) (a : Hash) (c : SqlConstrainedStatementCaveat) : Prop :=
  ∃ row, row ∈ abilities db ∧ a_delegation row = a ∧ extract_sql_caveat (a_caveats row) = Some c.

Section ChainSpec.
Context `{RowOrder} (db : Db).

Lemma elem_of_drain frontier visited h : h ∈ drain visited frontier ↔ h ∈ frontier ∧ h ∉ visited.
Proof.
  revert visited. induction frontier as [|x frontier IH]; intros visited; cbn [drain].
  - set_solver.
  - destruct (mem x visited) eqn:Hm.
    + apply mem_true in Hm. rewrite IH. set_solver.
    + assert (x ∉ visited) by (intros Hin%mem_true; congruence). rewrite elem_of_cons, IH.
      destruct (decide (h = x)) as [->|Hne]; set_solver.
Qed.

Definition next_frontier (visited batch : list Hash) : list Hash :=
  List.filter (λ h, negb (mem h visited)) (p_parent <$> select (λ link, mem (p_child link) batch) (parent_delegations db)).

Lemma elem_of_next visited batch h :
  h ∈ next_frontier visited batch ↔ h ∉ visited ∧ ∃ b, b ∈ batch ∧ parent_of db b h.
Proof.
  unfold next_frontier, parent_of. rewrite list_elem_of_In, filter_In, <- list_elem_of_In, negb_true_iff, list_elem_of_fmap. split.
  - intros [(link & -> & (Hin & Hc%mem_true)%elem_of_select) Hv]. split; [intros Hm%mem_true; congruence|].
    exists (p_child link). split; [done|]. by destruct link.
  - intros [Hv (b & Hb & Hin)]. split.
    + exists (mkParentRow h b). split; [done|]. apply elem_of_select. split; [done|]. by apply mem_true.
    + apply not_true_is_false. by intros ?%mem_true.
Qed.

(** The nodes seen so far carry no caveat, and their parents are seen or waiting. *)
Definition walk_inv (visited frontier : list Hash) : Prop :=
  (∀ v c, v ∈ visited → ¬ carries db v c) ∧ (∀ v p, v ∈ visited → parent_of db v p → p ∈ visited ∨ p ∈ frontier).

Lemma batch_caveat batch :
  match find_map (λ row, extract_sql_caveat (a_caveats row)) (select (λ row, mem (a_delegation row) batch) (abilities db)) with
  | Some c => ∃ a, a ∈ batch ∧ carries db a c
  | None => ∀ a c, a ∈ batch → ¬ carries db a c
  end.
Proof.
  destruct (find_map _ _) as [c|] eqn:Hf.
  - apply find_map_Some in Hf as (row & (Hin & Hm%mem_true)%elem_of_select & Hx). exists (a_delegation row). split; [done|]. by exists row.
  - intros a c Ha (row & Hin & <- & Hx). eapply find_map_None in Hf; [|apply elem_of_select; split; [exact Hin|by apply mem_true]]. congruence.
Qed.

Lemma walk_inv_step visited frontier :
  walk_inv visited frontier → (∀ a c, a ∈ drain visited frontier → ¬ carries db a c) →
  let visited' := rev (drain visited frontier) ++ visited in
  walk_inv visited' (next_frontier visited' (drain visited frontier)).
Proof.
  intros [Hno Hpar] Hb visited'. assert (∀ v, v ∈ visited' ↔ v ∈ visited ∨ v ∈ frontier) as Hv.
  { intros v. unfold visited'. rewrite elem_of_app, elem_of_rev, elem_of_drain. destruct (decide (v ∈ visited)); tauto. }
  split.
  - intros v c. unfold visited'. rewrite elem_of_app, elem_of_rev. intros [?|?]; [by apply Hb|by apply Hno].
  - intros v p Hvv Hp. destruct (decide (p ∈ visited')) as [|Hn]; [by left|right]. apply elem_of_next. split; [done|].
    revert Hvv. unfold visited'. rewrite elem_of_app, elem_of_rev. intros [Hbv|Hvv]; [by exists v|].
    exfalso. apply Hn, Hv. by eapply Hpar.
Qed.

Lemma closed_ancestors (P : Hash → Prop) x a :
  (∀ v p, P v → parent_of db v p → P p) → P x → ancestor db x a → P a.
Proof. intros Hc Hx Ha. revert Hx. induction Ha as [|x y z Hxy _ IH]; [done|]. intros Hx. apply IH. by eapply Hc. Qed.

Lemma chain_caveat_loop_spec fuel visited frontier r :
  chain_caveat_loop fuel db visited frontier = Some r → walk_inv visited frontier →
  match r with
  | Some c => ∃ f a, f ∈ frontier ∧ ancestor db f a ∧ carries db a c
  | None => ∀ f a c, f ∈ frontier → ancestor db f a → ¬ carries db a c
  end.
Proof.
  revert visited frontier. induction fuel as [|fuel IH]; intros visited frontier; [done|]. cbn [chain_caveat_loop].
  intros Hl Hinv. pose proof (batch_caveat (drain visited frontier)) as Hb. destruct (drain visited frontier) as [|h t] eqn:Hd.
  - simplify_eq. intros f a c Hf Ha. assert (∀ v, v ∈ frontier → v ∈ visited) as Hsub.
    { intros v Hv. destruct (decide (v ∈ visited)) as [|Hn]; [done|]. assert (v ∈ drain visited frontier) as Hx by by apply elem_of_drain.
      rewrite Hd in Hx. by apply not_elem_of_nil in Hx. }
    destruct Hinv as [Hno Hpar]. apply Hno. apply (closed_ancestors (λ v, v ∈ visited) f a); [|by apply Hsub|done].
    intros v p Hv Hp. destruct (Hpar v p Hv Hp); auto.
  - rewrite <- Hd in *. destruct (find_map _ _) as [c|].
    + simplify_eq. destruct Hb as (a & Ha%elem_of_drain & Hc). exists a, a. split_and!; [tauto|apply rtc_refl|done].
    + pose proof (walk_inv_step visited frontier Hinv Hb) as Hinv'. pose proof (IH _ _ Hl Hinv') as Hr. fold (next_frontier (rev (drain visited frontier) ++ visited) (drain visited frontier)) in Hr.
      destruct r as [c|].
      * destruct Hr as (f & a & (_ & b & (Hbf & _)%elem_of_drain & Hp)%elem_of_next & Ha & Hc). exists b, a. split_and!; [done| |done]. by eapply rtc_l.
      * intros f a c Hf Ha Hc.
        set (visited' := rev (drain visited frontier) ++ visited) in *.
        assert (f ∈ visited') as Hfv.
        { unfold visited'. rewrite elem_of_app, elem_of_rev, elem_of_drain. destruct (decide (f ∈ visited)); tauto. }
        assert (∀ v, v ∈ visited' → ancestor db v a → False) as Hgo; [|by eapply Hgo].
        intros v Hv Hva. revert Hv. induction Hva as [v|v p z Hvp Hpz IHa]; intros Hv.
        { destruct Hinv' as [Hno _]. by eapply Hno. }
        destruct Hinv' as [_ Hpar]. destruct (Hpar v p Hv Hvp) as [|Hf']; [by apply IHa|]. by eapply Hr.
Qed.

(** The loop visits a new node each round. *)
Lemma chain_caveat_loop_total fuel visited frontier nodes :
  (∀ h, h ∈ frontier → h ∈ nodes) → (∀ link, link ∈ parent_delegations db → p_parent link ∈ nodes) →
  length (List.filter (λ h, negb (mem h visited)) nodes) < fuel → is_Some (chain_caveat_loop fuel db visited frontier).
Proof.
  intros Hf Hp. revert visited frontier Hf. induction fuel as [|fuel IH]; intros visited frontier Hf Hl; [lia|]. cbn [chain_caveat_loop].
  destruct (drain visited frontier) as [|h t] eqn:Hd; [done|]. rewrite <- Hd. destruct (find_map _ _); [done|]. apply IH.
  - intros x (_ & b & _ & Hx)%elem_of_next. by apply Hp in Hx.
  - assert (h ∈ drain visited frontier) as [Hin Hnv]%elem_of_drain by (rewrite Hd; by left).
    eapply Nat.lt_le_trans; [|apply Nat.lt_succ_r, Hl]. apply Hf in Hin. clear -Hin Hnv Hd.
    assert (∀ x, mem x visited = true → mem x (rev (drain visited frontier) ++ visited) = true) as Hmono.
    { intros x Hx%mem_true. apply mem_true, elem_of_app. by right. }
    assert (mem h (rev (drain visited frontier) ++ visited) = true) as Hh.
    { apply mem_true, elem_of_app. left. apply elem_of_rev. rewrite Hd. by left. }
    assert (mem h visited = false) as Hh0 by (apply not_true_is_false; by intros ?%mem_true).
    generalize dependent (rev (drain visited frontier) ++ visited). intros v' Hmono Hh.
    assert (∀ l, length (List.filter (λ x, negb (mem x v')) l) ≤ length (List.filter (λ x, negb (mem x visited)) l)) as Hle.
    { induction l as [|x l IH]; [done|]. cbn [List.filter]. specialize (Hmono x). destruct (mem x visited).
      - rewrite Hmono by done. done.
      - destruct (mem x v'); simpl; lia. }
    induction nodes as [|x nodes IH]; [by apply not_elem_of_nil in Hin|]. cbn [List.filter].
    apply elem_of_cons in Hin as [->|Hin].
    + rewrite Hh, Hh0. cbn [negb length]. specialize (Hle nodes). lia.
    + specialize (IH Hin). specialize (Hmono x). destruct (mem x visited), (mem x v'); cbn [negb length]; lia.
Qed.

Lemma filter_length_le {A} (p : A → bool) l : length (List.filter p l) ≤ length l.
Proof. induction l as [|x l IH]; [done|]. cbn [List.filter]. destruct (p x); simpl; lia. Qed.

Lemma derive_spec parents :
  match derive_chain_constrained_caveat db parents with
  | Some c => ∃ cid a, cid ∈ parents ∧ ancestor db (hash_of_cid cid) a ∧ carries db a c
  | None => ∀ cid a c, cid ∈ parents → ancestor db (hash_of_cid cid) a → ¬ carries db a c
  end.
Proof.
  unfold derive_chain_constrained_caveat. destruct parents as [|p0 ps] eqn:Hps; [by intros cid a c ?%not_elem_of_nil|].
  rewrite <- Hps. clear Hps p0 ps. set (fuel := S _).
  destruct (chain_caveat_loop_total fuel [] (hash_of_cid <$> parents) ((hash_of_cid <$> parents) ++ (p_parent <$> parent_delegations db))) as [r Hr].
  { intros h Hh. apply elem_of_app. by left. }
  { intros link Hl. apply elem_of_app. right. by apply list_elem_of_fmap_2. }
  { pose proof (filter_length_le (λ h, negb (mem h [])) ((hash_of_cid <$> parents) ++ (p_parent <$> parent_delegations db))) as Hle.
    rewrite length_app, !length_fmap in Hle. unfold fuel. lia. }
  rewrite Hr. cbn [default]. apply chain_caveat_loop_spec in Hr; [|by split; intros ??? ?%not_elem_of_nil || intros ? ? ?%not_elem_of_nil].
  destruct r as [c|]; simpl.
  - destruct Hr as (f & a & (cid & -> & Hin)%list_elem_of_fmap & Ha & Hc). by exists cid, a.
  - intros cid a c Hin. apply Hr. by apply list_elem_of_fmap_2.
Qed.

End ChainSpec.

(** ** What a constrained chain lets through *)

(** The parameters a statement is run with: as pinned where the caveat pins,
    elsewhere the caller's, which are all before the first pin, or NULL.  Every pin
    has its place among them when the indices are ones a statement can bind. *)
Record params_pinned `{NumberAsF64} (fixed : list FixedParam) (caller out : list SqlValue) : Prop := {
  pp_caller : ∀ fp, fp ∈ fixed → (N.of_nat (length caller) ≤ as_usize (fp_index fp))%N;
  pp_pinned : ∀ fp v, fp ∈ fixed → out !! N.to_nat (as_usize (fp_index fp)) = Some v →
    ∃ fp', pinned_at fixed (N.to_nat (as_usize (fp_index fp))) = Some fp' ∧ json_to_sql_value (fp_value fp') = Some v;
  pp_bound : sane_pins fixed → ∀ fp, fp ∈ fixed → is_Some (out !! N.to_nat (as_usize (fp_index fp)));
  pp_other : ∀ i v, out !! i = Some v → pinned_at fixed i = None → v = default VNull (caller !! i);
}.

Lemma substituted_pinned `{NumberAsF64} fixed caller out :
  forallb (λ fp, negb (overrides caller fp)) fixed = true → substitute_fixed_params fixed caller = Ok out → params_pinned fixed caller out.
Proof.
  intros Hov (Hlen & Hout)%substitute_spec. rewrite forallb_forall in Hov. split.
  - intros fp Hin. pose proof (Hov fp ltac:(by apply list_elem_of_In)) as Ho. unfold overrides in Ho.
    by apply negb_true_iff, N.ltb_ge in Ho.
  - intros fp v Hin Hv. pose proof (Hout _ _ Hv) as Hp. unfold param_at in Hp.
    destruct (pinned_at fixed _) as [fp'|] eqn:Hfp; [apply ok_or_Ok in Hp; by exists fp'|].
    exfalso. eapply find_none in Hfp; [|by apply list_elem_of_In]. apply bool_decide_eq_false in Hfp. apply Hfp. by rewrite N2Nat.id.
  - intros Hsane fp Hin. pose proof (pinned_in_range fixed caller fp Hsane Hin) as Hr. rewrite <- Hlen in Hr.
    apply lookup_lt_is_Some_2. pose proof (Hsane fp Hin). rewrite as_usize_small, Z_N_nat by done. done.
  - intros i v Hv Hnone. apply Hout in Hv. unfold param_at in Hv. rewrite Hnone in Hv. by destruct (caller !! i); simplify_eq.
Qed.

Lemma find_prepared_constrained c name stmt :
  find_statement name (statements c) = Some stmt →
  find_prepared (constrained_caveat_to_sql_caveats c) name = Some (mkPreparedStatement name (st_sql stmt)).
Proof.
  unfold find_prepared, constrained_caveat_to_sql_caveats, find_statement. cbn [sc_statements mbind option_bind].
  induction (statements c) as [|s l IH]; [done|]. cbn [fmap list_fmap find ps_name]. case_bool_decide as Hn; [|done]. intros [= ->]. by rewrite Hn.
Qed.

(** The statement of the caveat that a request names, and the parameters it is
    run with. *)
Definition runs_named `{NumberAsF64} (c : SqlConstrainedStatementCaveat) (request request' : SqlRequest) : Prop :=
  ∃ stmt caller out,
    request = RExecuteStatement (st_name stmt) caller ∧ request' = RExecuteStatement (st_name stmt) out ∧
    stmt ∈ statements c ∧ contains_write_keyword (st_sql stmt) = false ∧ is_multistatement (st_sql stmt) = false ∧
    find_prepared (constrained_caveat_to_sql_caveats c) (st_name stmt) = Some (mkPreparedStatement (st_name stmt) (st_sql stmt)) ∧
    params_pinned (fixed_params stmt) caller out.

Lemma enforce_spec `{NumberAsF64} c request request' :
  enforce_constrained_profile c request = Ok request' → runs_named c request request'.
Proof.
  destruct request as [| | |name caller|]; [done..| |done]. cbn [enforce_constrained_profile]. intros He.
  apply bind_Ok in He as (stmt & Hf%ok_or_Ok & He). apply bind_Ok in He as ([] & Hw%ensure_Ok%negb_true_iff & He).
  apply bind_Ok in He as ([] & Hm%ensure_Ok%negb_true_iff & He). apply bind_Ok in He as ([] & Ho%ensure_Ok & He).
  apply bind_Ok in He as ([] & _ & He). apply bind_Ok in He as (out & Hs & He). simplify_eq.
  pose proof (find_statement_Some _ _ _ Hf) as [Hin <-]. exists stmt, caller, out.
  split_and!; [done..|by apply find_prepared_constrained|by apply substituted_pinned].
Qed.

Lemma sql_plan_constrained `{NumberAsF64} c facts caps request p :
  sql_plan (Some c) facts caps request = Ok p →
  ∃ req, request = Some req ∧ runs_named c req (sp_request p) ∧ sp_caveats p = Some (constrained_caveat_to_sql_caveats c).
Proof.
  unfold sql_plan. intros Hp. apply bind_Ok in Hp as ([[space path] ability] & _ & Hp). apply bind_Ok in Hp as (req & ->%ok_or_Ok & Hp).
  apply bind_Ok in Hp as ([] & _ & Hp). apply bind_Ok in Hp as (req' & He%enforce_spec & Hp). simplify_eq. by exists req.
Qed.

(** ** Claims *)

(** C12: a caveat on the chain binds every SQL request made under it.  If a
    delegation that the invocation cites, or any ancestor of it, carries a
    constrained-statements caveat, a request is answered only if it names a
    statement of such a caveat on the chain; what the service then runs is that
    statement's text, which holds no write keyword and no second statement, under
    that caveat: no raw query, batch or export, whatever the body and the facts of
    the invocation say.  The caller's parameters all come before the pinned ones, a
    parameter that is bound at the place of a pin has a value pinned there, and the
    others are the caller's or NULL; and every pin is bound, provided the pins'
    indices are between 0 and 2^32 - 1 (the parser lets every 64-bit integer pass,
    and an index out of that range may have no place among the parameters). *)
Theorem constrained_chain_binds `{Keccak256} `{Blake3} `{CidLib} `{RowOrder} `{TokenLib} `{TimeLib} `{HookFormats} `{DagCbor}
    `{TokenCodec} `{Collation} `{!Sqlite} `{RowJson} `{SqlParse} `{NumberAsF64} {B E : Type} `{!BlockStore B E}
    (public_limit : N) (quota : SpaceId → option N) (memory_threshold : N) (encryption : option ColumnEncryption)
    (nonce : Hash → string) (now : Z) (setup : SpaceId → result TxError unit) (env : Env) (fate : Fate)
    (parse_request : string → option SqlRequest) (timestamp : option string) (db : Tables.Db) (b : B) (s : SqlService)
    (i : InvocationInfo) (bytes : string) (body : result Status string) (caps : list Scope)
    (cid : Cid) (a : Hash) (c0 : SqlConstrainedStatementCaveat)
    (answer : SqlAnswer) (events : list WriteEvent) (st : Tables.Db * B * SqlService) :
  cid ∈ ii_parents i → ancestor db (hash_of_cid cid) a → carries db a c0 →
  handle_sql_invoke public_limit quota memory_threshold encryption nonce now setup env fate parse_request timestamp db b s i bytes body caps
    = (Ok (answer, events), st) →
  ∃ c cid' a' text request request' space db_name ability res,
    cid' ∈ ii_parents i ∧ ancestor db (hash_of_cid cid') a' ∧ carries db a' c ∧
    body = Ok text ∧ parse_request text = Some request ∧ runs_named c request request' ∧
    service_execute memory_threshold env s space db_name request' (Some (constrained_caveat_to_sql_caveats c)) ability = (Ok res, st.2) ∧
    answer = SqlResult (response res).
Proof.
  intros Hcid Ha Hc Hh. unfold handle_sql_invoke in Hh. pose proof (derive_spec db (ii_parents i)) as Hd.
  destruct (derive_chain_constrained_caveat db (ii_parents i)) as [c|]; [|by destruct (Hd _ _ _ Hcid Ha Hc)].
  destruct Hd as (cid' & a' & Hcid' & Ha' & Hc'). destruct (verify_auth _ _ _ _ _ _ _ _) as [[[auth db']|e] b']; [|done].
  destruct body as [text|e]; [|done]. rewrite bind_ret_l in Hh.
  destruct (sql_plan _ _ _ _) as [p|e] eqn:Hp; [|done]. apply sql_plan_constrained in Hp as (request & Hreq & Hn & Hcav).
  destruct Hn as (stmt & caller & out & -> & Hreq' & Hrest). unfold run_plan in Hh. rewrite Hreq', Hcav in Hh.
  destruct (if sql_request_is_write _ _ _ then _ else _) as [?|e]; [|done].
  destruct (service_execute _ _ _ _ _ _ _ _) as [[res|e] s'] eqn:Hx; [|done]. cbn [map_err] in Hh. rewrite !bind_ret_l in Hh. simplify_eq.
  exists c, cid', a', text, (RExecuteStatement (st_name stmt) caller), (RExecuteStatement (st_name stmt) out), (sp_space p), (sp_db_name p), (sp_ability p), res.
  split_and!; try done. by exists stmt, caller, out.
Qed.

(** A pin leaves no room after it: a caller can give parameters only at places
    before every pinned one, although the substitution means to keep the places
    of the others. *)
Theorem pins_bound_caller_params `{NumberAsF64} (c : SqlConstrainedStatementCaveat) (stmt : ConstrainedStatement) (fp : FixedParam)
    (params : list SqlValue) (request : SqlRequest) :
  find_statement (st_name stmt) (statements c) = Some stmt → fp ∈ fixed_params stmt → sane_pins (fixed_params stmt) →
  enforce_constrained_profile c (RExecuteStatement (st_name stmt) params) = Ok request →
  length params ≤ Z.to_nat (fp_index fp).
Proof.
  intros Hf Hin Hsane He. cbn [enforce_constrained_profile] in He. rewrite Hf in He. cbn [ok_or] in He. rewrite bind_ret_l in He.
  apply bind_Ok in He as ([] & _ & He). apply bind_Ok in He as ([] & _ & He). apply bind_Ok in He as ([] & Ho%ensure_Ok & He).
  apply bind_Ok in He as ([] & _ & He). apply bind_Ok in He as (out & Hs & _).
  pose proof (pp_caller _ _ _ (substituted_pinned _ _ _ Ho Hs) fp Hin) as Hle. rewrite as_usize_small in Hle by by apply Hsane. lia.
Qed.

(** A pin at a negative index is dropped: the statement runs with the caller's parameters
    alone. *)
Theorem negative_pin_dropped `{NumberAsF64} (c : SqlConstrainedStatementCaveat) (stmt : ConstrainedStatement) (value : json) :
  find_statement (st_name stmt) (statements c) = Some stmt → fixed_params stmt = [{| fp_index := -1; fp_value := value |}] →
  contains_write_keyword (st_sql stmt) = false → is_multistatement (st_sql stmt) = false →
  enforce_constrained_profile c (RExecuteStatement (st_name stmt) []) = Ok (RExecuteStatement (st_name stmt) []).
Proof. intros Hf Hp Hw Hm. cbn [enforce_constrained_profile]. rewrite Hf. cbn [ok_or]. by rewrite bind_ret_l, Hp, Hw, Hm. Qed.

(** A pin decides how long the parameters get, with no bound but the index. *)
Theorem pins_set_params_length `{NumberAsF64} (fixed : list FixedParam) (caller out : list SqlValue) (fp : FixedParam) :
  fp ∈ fixed → (∀ fp', fp' ∈ fixed → 0 ≤ fp_index fp' < 2 ^ 63)%Z →
  substitute_fixed_params fixed caller = Ok out → (fp_index fp < Z.of_nat (length out))%Z.
Proof.
  intros Hin Hr (Hlen & _)%substitute_spec. rewrite Hlen. unfold params_length.
  destruct (max_index_bound fixed fp Hin) as (m & Hm & Hle). rewrite Hm. destruct (max_index_range fixed m Hm) as (fp' & Hin' & <-).
  pose proof (Hr _ Hin'). unfold as_usize. rewrite Z.mod_small by lia. rewrite N.mod_small by lia. lia.
Qed.

(** The schema tier, which may read no rows, is given the whole database by an
    export: the plan of an export does not depend on the ability. *)
Theorem schema_tier_may_export `{NumberAsF64} (p : option string) :
  sql_plan None None [(demo_space, p, "tinycloud.sql/schema")] (Some RExport) =
  Ok (mkSqlPlan demo_space (db_name_from_path p) RExport None "tinycloud.sql/schema").
Proof. by destruct p. Qed.

(** Databases are told apart by the last segment of the path alone: grants on
    different paths of a space may be grants on the same database. *)
Theorem database_of_last_segment (q r : string) :
  contains_char "/" r = false → db_name_from_path (Some (q +:+ "/" +:+ r)) = r ∧ db_name_from_path (Some r) = r.
Proof.
  intros Hr. assert (∀ s, contains_char "/" s = false → split_char "/" s = [s]) as Hone.
  { induction s as [|ch s IH]; [done|]. rewrite contains_char_cons. intros [Hc Hs]%orb_false_iff. cbn [split_char].
    apply bool_decide_eq_false in Hc. rewrite decide_False, IH by done. done. }
  unfold db_name_from_path. rewrite (Hone r Hr). split; [|done].
  assert (∀ q, ∃ l, split_char "/" (q +:+ "/" +:+ r) = l ++ [r] ∧ l ≠ []) as Happ; [|destruct (Happ q) as (l & -> & _); by rewrite last_last].
  induction q0 as [|ch q0 (l & IH & Hl)].
  - exists [""]. change ("" +:+ "/" +:+ r) with (String "/" r). cbn [split_char]. rewrite decide_True, Hone by done. done.
  - rewrite append_cons. cbn [split_char]. rewrite IH. case_decide; [by exists ("" :: l)|].
    destruct l as [|w l]; [done|]. by exists (String ch w :: l).
Qed.

(** ** Witness *)

#[local] Existing Instances demo_keccak demo_blake demo_cids demo_order demo_tokens demo_formats demo_cbor
  demo_codec demo_collation demo_calendar toy_engine toy_json toy_parse.
Definition demo_f64 : NumberAsF64 := λ z, z.
#[local] Existing Instance demo_f64.

(** [owner] lets [alice] run one statement with its first parameter pinned. *)
Definition sql_caveats : list (string * json) :=
  [("0", demo_caveat [JObject [("fixedParams", JArray [demo_param 0 "alice"]); ("name", JString "mine"); ("sql", JString "SELECT c FROM t")]])].
Definition sql_cap : Capability :=
  mkCapability (TinyCloud {| space := demo_space; service := "sql"; path := Some "db"; query := None; fragment := None |})
    "tinycloud.sql/read" sql_caveats.
Definition sql_events : list Event := [EDelegation demo_host "d0"; EDelegation (demo_grant owner alice [sql_cap] [] Attenuable "s1") "s1"].
Definition sql_store : Tables.Db :=
  match transact None demo_nonce 0 demo_setup empty_db sql_events with Ok (_, db) => db | Err _ => empty_db end.
Definition sql_invocation : InvocationInfo :=
  {| ii_capabilities := [sql_cap]; ii_invoker := alice; ii_parents := [demo_cid "s1"]; ii_invocation := demo_ucan alice alice [demo_cid "s1"] "i1" |}.
Definition sql_scopes : list Scope := [(demo_space, Some "db", "tinycloud.sql/read")].

Definition sql_call (request : SqlRequest) :=
  handle_sql_invoke 0 (λ _, None) 1000 None demo_nonce 50 demo_setup toy_env Stays (λ _, Some request) (Some "now") sql_store
    (∅ : MemoryStore) toy_start sql_invocation "i1" (Ok "body") sql_scopes.
Definition sql_named : SqlRequest := RExecuteStatement "mine" [].
Definition sql_done : SqlAnswer * list WriteEvent := match (sql_call sql_named).1 with Ok x => x | Err _ => (SqlExport "", []) end.

Lemma sql_call_eq : sql_call sql_named = (Ok (sql_done.1, sql_done.2), (sql_call sql_named).2).
Proof.
  assert (is_ok (sql_call sql_named).1 = true) as Hok by (vm_compute; reflexivity).
  unfold sql_done. revert Hok. by destruct (sql_call sql_named) as [[[? ?]|] ?].
Qed.

(** A raw query under the same caveat is refused. *)
Example sql_raw_blocked : is_ok (sql_call (RQuery "SELECT c FROM t" [] None None)).1 = false.
Proof. vm_compute. reflexivity. Qed.

Lemma sql_carried : ∃ c, carries sql_store (hash_of_cid (demo_cid "s1")) c.
Proof.
  exists {| read_only := true; statements := [{| st_name := "mine"; st_sql := "SELECT c FROM t";
              fixed_params := [{| fp_index := 0; fp_value := JString "alice" |}] |}] |}.
  exists (mkAbilityRow (cap_resource sql_cap) "tinycloud.sql/read" (hash_of_cid (demo_cid "s1")) sql_caveats).
  split_and!; [apply (list_elem_of_lookup_2 _ 1); by vm_compute|done|by vm_compute].
Qed.

Lemma constrained_chain_binds_witness :
  ∃ c cid' a' text request request' space db_name ability res,
    cid' ∈ ii_parents sql_invocation ∧ ancestor sql_store (hash_of_cid cid') a' ∧ carries sql_store a' c ∧
    Ok (E := N) "body" = Ok text ∧ Some sql_named = Some request ∧ runs_named c request request' ∧
    service_execute 1000 toy_env toy_start space db_name request' (Some (constrained_caveat_to_sql_caveats c)) ability = (Ok res, (sql_call sql_named).2.2) ∧
    sql_done.1 = SqlResult (response res).
Proof.
  destruct sql_carried as [c0 Hc0].
  refine (constrained_chain_binds 0 (λ _, None) 1000 None demo_nonce 50 demo_setup toy_env Stays (λ _, Some sql_named) (Some "now") sql_store
    (∅ : MemoryStore) toy_start sql_invocation "i1" (Ok "body") sql_scopes (demo_cid "s1") (hash_of_cid (demo_cid "s1")) c0
    sql_done.1 sql_done.2 (sql_call sql_named).2 _ _ Hc0 sql_call_eq).
  - by left.
  - apply rtc_refl.
Defined.
