(* ===== verification/DuckParser.v ===== *)
(** * DuckDB requests and their validation: tinycloud-core/src/duckdb/{caveats,parser}.rs

    DuckDB has no authorizer: what [validate_sql] accepts is run.  The parser is the
    [sqlparser] crate with its generic dialect, the class [DuckParse]; of its syntax
    tree the model keeps what the code reads, and the queries nested in expressions,
    in the source of an insert and in the definition of a table or view, which the
    code does not read. *)
From S2P Require Import Prelude Str Chars Json Registry Tables SqlParser.

(** ** caveats.rs *)

Record DuckDbCaveats := mkDuckDbCaveats {
  dc_tables : option (list string);
  dc_columns : option (list string);
  dc_statements : option (list PreparedStatement);
  dc_read_only : option bool;
}.

Definition duck_table_allowed (c : DuckDbCaveats) (table : string) : bool :=
  match dc_tables c with None => true | Some tables => bool_decide (table ∈ tables) end.

Definition duck_column_allowed (c : DuckDbCaveats) (column : string) : bool :=
  match dc_columns c with None => true | Some columns => negb (bool_decide (column = "*")) && bool_decide (column ∈ columns) end.

Definition duck_write_allowed (c : DuckDbCaveats) : bool := negb (default false (dc_read_only c)).

Definition duck_find_statement (c : DuckDbCaveats) (name : string) : option PreparedStatement :=
  statements ← dc_statements c; find (λ s, bool_decide (ps_name s = name)) statements.

Definition find_statement_by_sql (c : DuckDbCaveats) (sql : string) : option PreparedStatement :=
  statements ← dc_statements c; find (λ s, bool_decide (ps_sql s = sql)) statements.

(** ** types.rs: errors *)

Inductive DuckDbError :=
| DDuckDb (m : string)
| DPermissionDenied (m : string)
| DDatabaseNotFound
| DResponseTooLarge (n : N)
| DQuotaExceeded
| DInvalidStatement (m : string)
| DSchemaError (m : string)
| DReadOnlyViolation
| DParseError (m : string)
| DIngestError (m : string)
| DExportError (m : string)
| DImportError (m : string)
| DInternal (m : string).

(** [Display]. *)
Definition duck_error_text (e : DuckDbError) : string :=
  match e with
  | DDuckDb m => "DuckDB error: " +:+ m
  | DPermissionDenied m => "Permission denied: " +:+ m
  | DDatabaseNotFound => "Database not found"
  | DResponseTooLarge n => "Response too large: " +:+ fmt_u64 n +:+ " bytes"
  | DQuotaExceeded => "Quota exceeded"
  | DInvalidStatement m => "Invalid statement: " +:+ m
  | DSchemaError m => "Schema error: " +:+ m
  | DReadOnlyViolation => "Read-only violation"
  | DParseError m => "Parse error: " +:+ m
  | DIngestError m => "Ingest error: " +:+ m
  | DExportError m => "Export error: " +:+ m
  | DImportError m => "Import error: " +:+ m
  | DInternal m => "Internal error: " +:+ m
  end.

(** ** The syntax tree *)

(** [OtherExpr] is any other expression, with the queries in it. *)
Inductive DExpr :=
| DIdentifier (value : string)
| DCompoundIdentifier (parts : list string)
| DOtherExpr (queries : list DQuery)
with DSelectItem :=
| DUnnamedExpr (e : DExpr)
| DExprWithAlias (e : DExpr) (alias : string)
| DWildcard
with DQuery := mkDQuery (ctes : list DQuery) (body : DSetExpr)
with DSetExpr :=
| DSelect (projection : list DSelectItem) (from : list DTableWithJoins) (conditions : list DExpr)
| DSetOperation (left right : DSetExpr)
| DNestedQuery (query : DQuery)
| DOtherSetExpr
with DTableFactor :=
| DTable (name : string)
| DDerived (subquery : DQuery)
| DNestedJoin (table_with_joins : DTableWithJoins)
| DOtherFactor
with DTableWithJoins := mkDTableWithJoins (relation : DTableFactor) (joins : list DTableFactor).

Inductive DStatement :=
| DSQuery (query : DQuery)
| DSInsert (table_name : string) (source : option DQuery)
| DSUpdate (table : DTableWithJoins) (assignments : list (list string))
| DSDelete (tables : list string) (from : list DTableWithJoins)
| DSCreateTable (name : string) (query : option DQuery)
| DSCreateView (name : string) (query : DQuery)
| DSAlterTable (name : string)
| DSDrop (names : list string)
| DSCreateIndex (table_name : string)
| DSExplainTable
| DSExplain (analyze : bool) (statement : DStatement)
| DSStartTransaction
| DSCommit
| DSRollback
| DSSetVariable (variable : string)
| DSCopy
| DSInstall
| DSLoad
| DSAttachDatabase
| DSOther (display : string).

Definition d_relation (t : DTableWithJoins) : DTableFactor := let 'mkDTableWithJoins r _ := t in r.

(** [Parser::parse_sql] with the generic dialect, and [str::to_uppercase]. *)
Class DuckParse := duck_parse_sql : string → result string (list DStatement).
Class Uppercase := to_uppercase : string → string.

(** ** What a statement names *)

Fixpoint tables_of_query (q : DQuery) : list string :=
  let 'mkDQuery _ body := q in tables_of_set_expr body
with tables_of_set_expr (body : DSetExpr) : list string :=
  match body with
  | DSelect _ from _ => flat_map tables_of_table_with_joins from
  | DSetOperation a b => tables_of_set_expr a ++ tables_of_set_expr b
  | DNestedQuery q => tables_of_query q
  | DOtherSetExpr => []
  end
with tables_of_table_factor (f : DTableFactor) : list string :=
  match f with
  | DTable name => [name]
  | DDerived subquery => tables_of_query subquery
  | DNestedJoin t => tables_of_table_with_joins t
  | DOtherFactor => []
  end
with tables_of_table_with_joins (t : DTableWithJoins) : list string :=
  let 'mkDTableWithJoins r joins := t in tables_of_table_factor r ++ flat_map tables_of_table_factor joins.

Definition tables_of_statement (stmt : DStatement) : list string :=
  match stmt with
  | DSQuery q => tables_of_query q
  | DSInsert t _ => [t]
  | DSUpdate t _ => tables_of_table_with_joins t
  | DSDelete _ from => flat_map tables_of_table_with_joins from
  | DSCreateTable n _ | DSAlterTable n | DSCreateIndex n | DSCreateView n _ => [n]
  | DSDrop names => names
  | _ => []
  end.

Definition column_of_item (i : DSelectItem) : option string :=
  match i with
  | DUnnamedExpr (DIdentifier v) => Some v
  | DUnnamedExpr (DCompoundIdentifier parts) => last parts
  | DWildcard => Some "*"
  | _ => None
  end.

Definition columns_of_query (q : DQuery) : list string :=
  let 'mkDQuery _ body := q in match body with DSelect projection _ _ => omap column_of_item projection | _ => [] end.

Definition columns_of_statement (stmt : DStatement) : list string :=
  match stmt with DSQuery q => columns_of_query q | DSUpdate _ assignments => concat assignments | _ => [] end.

Definition duck_target_of_relation (f : DTableFactor) : TouchedTables := match f with DTable name => Supported [name] | _ => Unsupported end.

Definition duck_write_target_from_update (t : DTableWithJoins) : option TouchedTables := Some (duck_target_of_relation (d_relation t)).

Definition duck_write_target_from_delete (tables : list string) (from : list DTableWithJoins) : option TouchedTables :=
  match tables with
  | _ :: _ => Some (Supported (unique_names tables))
  | [] => match from with [t] => Some (duck_target_of_relation (d_relation t)) | _ => Some Unsupported end
  end.

Definition duck_write_targets_from_statement (stmt : DStatement) : option TouchedTables :=
  match stmt with
  | DSInsert t _ => Some (Supported [t])
  | DSUpdate t _ => duck_write_target_from_update t
  | DSDelete tables from => duck_write_target_from_delete tables from
  | DSCreateTable n _ | DSAlterTable n | DSCreateView n _ => Some (Supported [n])
  | DSDrop names => Some (Supported (unique_names names))
  | DSCreateIndex t => Some (Supported [t])
  | _ => None
  end.

(** ** The allowlist and the blocklists *)

(** [split_whitespace().next()]. *)
Definition first_word (cs : list string) : option string :=
  match trim_start_chars is_whitespace cs with
  | [] => None
  | cs => Some (String.concat "" ((fix take cs := match cs with c :: cs => if is_whitespace c then [] else c :: take cs | [] => [] end) cs))
  end.

Definition statement_type_name (stmt : DStatement) : string :=
  match stmt with
  | DSQuery _ => "SELECT"
  | DSInsert _ _ => "INSERT"
  | DSUpdate _ _ => "UPDATE"
  | DSDelete _ _ => "DELETE"
  | DSCreateTable _ _ => "CREATE TABLE"
  | DSCreateView _ _ => "CREATE VIEW"
  | DSCreateIndex _ => "CREATE INDEX"
  | DSDrop _ => "DROP"
  | DSAlterTable _ => "ALTER TABLE"
  | DSCopy => "COPY"
  | DSInstall => "INSTALL"
  | DSLoad => "LOAD"
  | DSSetVariable _ => "SET"
  | DSAttachDatabase => "ATTACH"
  | DSStartTransaction => "BEGIN"
  | DSCommit => "COMMIT"
  | DSRollback => "ROLLBACK"
  | DSExplain _ _ => "EXPLAIN"
  | DSExplainTable => "EXPLAIN TABLE"
  | DSOther display => default "UNKNOWN" (first_word (chars display))
  end.

Definition check_statement_allowed (stmt : DStatement) (has_write : bool) : result DuckDbError unit :=
  match stmt with
  | DSQuery _ | DSExplainTable | DSExplain _ _ => Ok tt
  | DSInsert _ _ | DSUpdate _ _ | DSDelete _ _ | DSCreateTable _ _ | DSCreateView _ _ | DSCreateIndex _ | DSDrop _ | DSAlterTable _ =>
      ensure has_write (DPermissionDenied "Write ability required")
  | DSStartTransaction | DSCommit | DSRollback => Ok tt
  | other => Err (DPermissionDenied ("Statement type not allowed: " +:+ statement_type_name other +:+
                                     ". Request admin access or a specific delegation."))
  end.

Definition BLOCKED_SETTINGS : list string :=
  ["ENABLE_EXTERNAL_ACCESS"; "ALLOW_UNSIGNED_EXTENSIONS"; "ENABLE_LOGGING"; "LOG_QUERY_PATH"; "LOCK_CONFIGURATION"].

Definition BLOCKED_FUNCTIONS : list string :=
  ["READ_CSV"; "READ_PARQUET"; "READ_JSON"; "READ_CSV_AUTO"; "READ_JSON_AUTO"; "HTTPFS"; "S3://"; "HTTP://"; "HTTPS://"; "PARQUET_SCAN"; "CSV_SCAN";
   "JSON_SCAN"; "READ_BLOB"; "READ_TEXT"; "GLOB("; "PARQUET_METADATA"; "SCAN_PARQUET_OBJECTS"; "ICEBERG_SCAN"; "DELTA_SCAN"; "QUERY_TABLE"].

Section Validate.
Context `{DuckParse} `{Uppercase}.

Definition check_admin_blocked (stmt : DStatement) : result DuckDbError unit :=
  match stmt with
  | DSSetVariable variable =>
      ensure (negb (existsb (λ s, contains_str s (to_uppercase variable)) BLOCKED_SETTINGS)) (DPermissionDenied ("Cannot modify security setting: " +:+ variable))
  | _ => Ok tt
  end.

Definition check_blocked_functions (sql : string) (is_admin : bool) : result DuckDbError unit :=
  if is_admin then Ok tt
  else for_each (λ pattern, ensure (negb (contains_str pattern (to_uppercase sql)))
                              (DPermissionDenied ("External access function '" +:+ pattern +:+ "' is not allowed"))) BLOCKED_FUNCTIONS.

(** [classify_statement] and the write target of the statement. *)
Record Classified := mkClassified { cl_tables : list string; cl_columns : list string; cl_targets : list TouchedTables; cl_read_only : bool; cl_ddl : bool }.

Definition classify_statement (g : Classified) (stmt : DStatement) : Classified :=
  let tables := cl_tables g ++ tables_of_statement stmt in
  let columns := cl_columns g ++ columns_of_statement stmt in
  let targets := cl_targets g ++ option_list (duck_write_targets_from_statement stmt) in
  match stmt with
  | DSQuery _ => mkClassified tables columns targets (cl_read_only g) (cl_ddl g)
  | DSInsert _ _ | DSUpdate _ _ | DSDelete _ _ => mkClassified tables columns targets false (cl_ddl g)
  | DSCreateTable _ _ | DSAlterTable _ | DSDrop _ | DSCreateIndex _ | DSCreateView _ _ => mkClassified tables (cl_columns g) targets false true
  | DSSetVariable _ => mkClassified (cl_tables g) (cl_columns g) targets false (cl_ddl g)
  | _ => mkClassified (cl_tables g) (cl_columns g) targets (cl_read_only g) (cl_ddl g)
  end.

Definition apply_caveat_checks (c : DuckDbCaveats) (tables columns : list string) (read_only : bool) : result DuckDbError unit :=
  _ ← ensure (negb (default false (dc_read_only c)) || read_only) DReadOnlyViolation;
  _ ← for_each (λ t, ensure (duck_table_allowed c t) (DPermissionDenied ("Access to table '" +:+ t +:+ "' is not allowed"))) tables;
  for_each (λ k, ensure (duck_column_allowed c k) (DPermissionDenied ("Access to column '" +:+ k +:+ "' is not allowed"))) columns.

Record DuckParsedQuery := mkDuckParsedQuery {
  dq_statements : list DStatement;
  dq_tables : list string;
  dq_columns : list string;
  dq_targets : list TouchedTables;
  dq_read_only : bool;
  dq_ddl : bool;
}.

Definition parsed_query (stmts : list DStatement) (g : Classified) : DuckParsedQuery :=
  mkDuckParsedQuery stmts (dedup (cl_tables g)) (dedup (cl_columns g)) (cl_targets g) (cl_read_only g) (cl_ddl g).

Definition nothing_seen : Classified := mkClassified [] [] [] true false.

(** The loop of the normal path. *)
Fixpoint gather_allowed (is_admin has_write : bool) (g : Classified) (stmts : list DStatement) : result DuckDbError Classified :=
  match stmts with
  | [] => Ok g
  | stmt :: stmts =>
      _ ← (if is_admin then check_admin_blocked stmt else check_statement_allowed stmt has_write);
      gather_allowed is_admin has_write (classify_statement g stmt) stmts
  end.

Definition duck_validate_sql (sql : string) (caveats : option DuckDbCaveats) (ability : string) : result DuckDbError DuckParsedQuery :=
  let is_admin := ability_matches ability "tinycloud.duckdb/admin" in
  let has_write := is_admin || ability_matches ability "tinycloud.duckdb/write" in
  let normal :=
    stmts ← map_err DParseError (duck_parse_sql sql);
    _ ← ensure (negb (bool_decide (stmts = []))) (DParseError "Empty SQL statement");
    g ← gather_allowed is_admin has_write nothing_seen stmts;
    _ ← check_blocked_functions sql is_admin;
    _ ← ensure (negb (cl_ddl g) || has_write) (DPermissionDenied "DDL operations require write or admin ability");
    _ ← ensure (cl_read_only g || negb (bool_decide (resolve_alias ability = "tinycloud.duckdb/read"))) DReadOnlyViolation;
    _ ← match caveats with Some c => apply_caveat_checks c (cl_tables g) (cl_columns g) (cl_read_only g) | None => Ok tt end;
    Ok (parsed_query stmts g) in
  match caveats with
  | Some c =>
      if bool_decide (is_Some (find_statement_by_sql c sql)) then
        _ ← check_blocked_functions sql is_admin;
        stmts ← map_err DParseError (duck_parse_sql sql);
        let g := foldl classify_statement nothing_seen stmts in
        _ ← apply_caveat_checks c (cl_tables g) (cl_columns g) (cl_read_only g);
        Ok (parsed_query stmts g)
      else normal
  | None => normal
  end.

(** [extract_write_targets] of a text. *)
Definition table_target_name (t : DTableWithJoins) : option string := match d_relation t with DTable name => Some name | _ => None end.

Definition collect_write_targets (stmt : DStatement) : option (list string) :=
  match stmt with
  | DSInsert t _ => Some [t]
  | DSUpdate t _ => (λ n, [n]) <$> table_target_name t
  | DSDelete _ from => match from with [t] => (λ n, [n]) <$> table_target_name t | _ => None end
  | DSCreateTable n _ | DSCreateView n _ | DSAlterTable n | DSCreateIndex n => Some [n]
  | DSDrop names => Some names
  | _ => None
  end.

Definition extract_write_targets (sql : string) : result DuckDbError TouchedTables :=
  stmts ← map_err DParseError (duck_parse_sql sql);
  _ ← ensure (negb (bool_decide (stmts = []))) (DParseError "Empty SQL statement");
  Ok (match mapM collect_write_targets stmts with
      | Some names => match concat names with [] => Unsupported | tables => Supported (dedup (sort_by bytes_leb tables)) end
      | None => Unsupported
      end).

End Validate.
Arguments duck_validate_sql : simpl never.

(** ** What is accepted *)

(** A text that the caveats do not hold as a prepared statement. *)
Definition not_prepared (caveats : option DuckDbCaveats) (sql : string) : Prop := (c ← caveats; find_statement_by_sql c sql) = None.

(** Statements that change the database when they are run at the top level. *)
Definition writes (stmt : DStatement) : bool :=
  match stmt with
  | DSInsert _ _ | DSUpdate _ _ | DSDelete _ _ | DSCreateTable _ _ | DSCreateView _ _ | DSCreateIndex _ | DSDrop _ | DSAlterTable _ => true
  | _ => false
  end.

(** Statements a reader may give. *)
Definition reads (stmt : DStatement) : bool :=
  match stmt with DSQuery _ | DSExplainTable | DSExplain _ _ | DSStartTransaction | DSCommit | DSRollback => true | _ => false end.

Section Accepted.
Context `{DuckParse} `{Uppercase}.

Lemma check_statement_reads stmt : check_statement_allowed stmt false = Ok tt ↔ reads stmt = true.
Proof. by destruct stmt. Qed.

Lemma classify_reads g stmt : reads stmt = true → cl_targets (classify_statement g stmt) = cl_targets g ∧ cl_read_only (classify_statement g stmt) = cl_read_only g.
Proof. destruct stmt; try done; intros _; cbn; by rewrite ?app_nil_r. Qed.

Lemma gather_reads g stmts g' :
  gather_allowed false false g stmts = Ok g' → forallb reads stmts = true ∧ cl_targets g' = cl_targets g ∧ cl_read_only g' = cl_read_only g.
Proof.
  revert g. induction stmts as [|stmt stmts IH]; intros g; cbn [gather_allowed forallb]; [by intros [= <-]|].
  intros Hg. apply bind_Ok in Hg as ([] & Hs%check_statement_reads & Hg). apply IH in Hg as (-> & -> & ->).
  destruct (classify_reads g stmt Hs) as [-> ->]. by rewrite Hs.
Qed.

Lemma duck_validate_normal sql caveats ability p :
  not_prepared caveats sql → duck_validate_sql sql caveats ability = Ok p →
  let is_admin := ability_matches ability "tinycloud.duckdb/admin" in
  ∃ stmts g, duck_parse_sql sql = Ok stmts ∧ stmts ≠ [] ∧
    gather_allowed is_admin (is_admin || ability_matches ability "tinycloud.duckdb/write") nothing_seen stmts = Ok g ∧
    check_blocked_functions sql is_admin = Ok tt ∧
    (cl_read_only g = true ∨ resolve_alias ability ≠ "tinycloud.duckdb/read") ∧
    match caveats with Some c => apply_caveat_checks c (cl_tables g) (cl_columns g) (cl_read_only g) = Ok tt | None => True end ∧ p = parsed_query stmts g.
Proof.
  unfold not_prepared, duck_validate_sql. intros Hnp Hv. cbv zeta in Hv |- *.
  assert (∀ c, caveats = Some c → bool_decide (is_Some (find_statement_by_sql c sql)) = false) as Hpre.
  { intros c ->. cbn in Hnp. rewrite Hnp. apply bool_decide_eq_false_2. by intros [? ?]. }
  destruct caveats as [c|]; [rewrite (Hpre c eq_refl) in Hv|].
  all: apply bind_Ok in Hv as (stmts & Hp%map_err_Ok & Hv); apply bind_Ok in Hv as (? & Hne%ensure_Ok%negb_true_iff%bool_decide_eq_false & Hv);
    apply bind_Ok in Hv as (g & Hg & Hv); apply bind_Ok in Hv as ([] & Hb & Hv); apply bind_Ok in Hv as (? & _ & Hv);
    apply bind_Ok in Hv as (? & Hro%ensure_Ok%orb_true_iff & Hv); apply bind_Ok in Hv as ([] & Hc & [= <-]); exists stmts, g; split_and!; try done;
    (destruct Hro as [Hro|Hro%negb_true_iff%bool_decide_eq_false]; [by left|by right]).
Qed.

(** A reader's text changes nothing by itself.  Unless the caveats name the text as a
    prepared statement, what is accepted from an invocation without write or admin ability
    are queries, explanations and transaction control; it is classified as read-only and
    touches no table. *)
Theorem duck_reader_confined (sql : string) (caveats : option DuckDbCaveats) (ability : string) (p : DuckParsedQuery) :
  not_prepared caveats sql → ability_matches ability "tinycloud.duckdb/admin" = false → ability_matches ability "tinycloud.duckdb/write" = false →
  duck_validate_sql sql caveats ability = Ok p →
  dq_statements p ≠ [] ∧ forallb reads (dq_statements p) = true ∧ dq_read_only p = true ∧ dq_targets p = [].
Proof.
  intros Hnp Ha Hw Hv. apply duck_validate_normal in Hv as (stmts & g & _ & Hne & Hg & _ & _ & _ & ->); [|done]. rewrite Ha, Hw in Hg.
  apply gather_reads in Hg as (Hr & Ht & Hro). by cbn.
Qed.

(** What the loop gathers: what it had, and what each statement names. *)
Lemma classify_gathers g stmt :
  (∀ t, t ∈ tables_of_statement stmt → t ∈ cl_tables (classify_statement g stmt)) ∧
  (∀ k, k ∈ columns_of_statement stmt → k ∈ cl_columns (classify_statement g stmt)) ∧
  cl_tables g ⊆ cl_tables (classify_statement g stmt) ∧ cl_columns g ⊆ cl_columns (classify_statement g stmt) ∧
  (cl_read_only (classify_statement g stmt) = true → cl_read_only g = true ∧ writes stmt = false).
Proof. destruct stmt; cbn; split_and!; try done; set_solver. Qed.

Lemma gathered_foldl stmts : ∀ g,
  let g' := foldl classify_statement g stmts in
  (∀ stmt t, stmt ∈ stmts → t ∈ tables_of_statement stmt → t ∈ cl_tables g') ∧
  (∀ stmt k, stmt ∈ stmts → k ∈ columns_of_statement stmt → k ∈ cl_columns g') ∧
  cl_tables g ⊆ cl_tables g' ∧ cl_columns g ⊆ cl_columns g' ∧
  (cl_read_only g' = true → cl_read_only g = true ∧ forallb (negb ∘ writes) stmts = true).
Proof.
  induction stmts as [|stmt stmts IH]; intros g; cbn [foldl].
  { split_and!; try done; intros ? ? ?%not_elem_of_nil; done. }
  destruct (IH (classify_statement g stmt)) as (It & Ic & Mt & Mc & Ro). destruct (classify_gathers g stmt) as (Ht & Hc & Gt & Gc & Gro).
  split_and!.
  - intros s t [->|Hs]%elem_of_cons Hin; [by apply Mt, Ht|by eapply It].
  - intros s k [->|Hs]%elem_of_cons Hin; [by apply Mc, Hc|by eapply Ic].
  - by etrans.
  - by etrans.
  - intros [[Hg Hw]%Gro Hf]%Ro. split; [done|]. cbn. by rewrite Hw.
Qed.

Lemma gather_allowed_foldl is_admin has_write stmts : ∀ g g',
  gather_allowed is_admin has_write g stmts = Ok g' → g' = foldl classify_statement g stmts.
Proof.
  induction stmts as [|stmt stmts IH]; intros g g'; cbn [gather_allowed foldl]; [by intros [= <-]|].
  intros Hg. apply bind_Ok in Hg as ([] & _ & Hg). by apply IH.
Qed.

(** Prepared or not, an accepted text was parsed, and its statements passed the
    checks of the caveats. *)
Lemma duck_validate_checked sql c ability p :
  duck_validate_sql sql (Some c) ability = Ok p →
  ∃ stmts, duck_parse_sql sql = Ok stmts ∧ let g := foldl classify_statement nothing_seen stmts in
    apply_caveat_checks c (cl_tables g) (cl_columns g) (cl_read_only g) = Ok tt ∧ p = parsed_query stmts g.
Proof.
  intros Hv. destruct (find_statement_by_sql c sql) as [st|] eqn:Hf.
  - unfold duck_validate_sql in Hv. cbv zeta in Hv. rewrite (bool_decide_eq_true_2 (is_Some _)) in Hv by by rewrite Hf.
    apply bind_Ok in Hv as ([] & _ & Hv). apply bind_Ok in Hv as (stmts & Hp%map_err_Ok & Hv). apply bind_Ok in Hv as ([] & Hc & [= <-]). by exists stmts.
  - apply duck_validate_normal in Hv as (stmts & g & Hp & _ & ->%gather_allowed_foldl & _ & _ & Hc & ->); [|by unfold not_prepared; cbn]. by exists stmts.
Qed.

Lemma caveat_checks_Ok c tables columns ro :
  apply_caveat_checks c tables columns ro = Ok tt →
  (dc_read_only c = Some true → ro = true) ∧ (∀ t, t ∈ tables → duck_table_allowed c t = true) ∧ (∀ k, k ∈ columns → duck_column_allowed c k = true).
Proof.
  intros Hc. apply bind_Ok in Hc as (? & Hr%ensure_Ok & Hc). apply bind_Ok in Hc as ([] & Ht & Hk).
  rewrite for_each_Ok in Ht, Hk. split_and!.
  - intros Heq. by rewrite Heq in Hr.
  - intros t Hin. by apply Ht, ensure_Ok in Hin.
  - intros k Hin. by apply Hk, ensure_Ok in Hin.
Qed.

(** Caveats bind whoever runs the text.  Every statement of an accepted text, with
    any ability and prepared or not, names only tables and columns that the caveats
    allow, and under a read-only caveat none of them writes. *)
Theorem duck_caveats_confine (sql : string) (c : DuckDbCaveats) (ability : string) (p : DuckParsedQuery) (stmt : DStatement) :
  duck_validate_sql sql (Some c) ability = Ok p → stmt ∈ dq_statements p →
  (∀ t, t ∈ tables_of_statement stmt → duck_table_allowed c t = true) ∧ (∀ k, k ∈ columns_of_statement stmt → duck_column_allowed c k = true) ∧
  (dc_read_only c = Some true → writes stmt = false).
Proof.
  intros (stmts & _ & (Hro & Ht & Hk)%caveat_checks_Ok & ->)%duck_validate_checked Hin. cbn in Hin.
  destruct (gathered_foldl stmts nothing_seen) as (Gt & Gc & _ & _ & Gro). split_and!.
  - intros t Hn. by eapply Ht, Gt.
  - intros k Hn. by eapply Hk, Gc.
  - intros Heq%Hro. apply Gro in Heq as [_ Hf]. rewrite forallb_forall in Hf. by apply list_elem_of_In, Hf, negb_true_iff in Hin.
Qed.

Lemma blocked_functions_Ok sql is_admin :
  forallb (λ w, negb (contains_str w (to_uppercase sql))) BLOCKED_FUNCTIONS = true → check_blocked_functions sql is_admin = Ok tt.
Proof.
  intros Hb. unfold check_blocked_functions. destruct is_admin; [done|]. apply for_each_Ok. intros w Hw. rewrite forallb_forall in Hb.
  by rewrite (Hb w) by by apply list_elem_of_In.
Qed.

(** Only the outermost query counts: a statement of an explanation is neither
    classified nor checked.  DuckDB runs what it explains when [ANALYZE] is given,
    so an insert into any table is accepted from a reader, whatever the caveats. *)
Theorem explained_write_accepted (sql ability : string) (caveats : option DuckDbCaveats) (stmt : DStatement) :
  not_prepared caveats sql → duck_parse_sql sql = Ok [DSExplain true stmt] →
  forallb (λ w, negb (contains_str w (to_uppercase sql))) BLOCKED_FUNCTIONS = true →
  duck_validate_sql sql caveats ability = Ok (mkDuckParsedQuery [DSExplain true stmt] [] [] [] true false).
Proof.
  intros Hnp Hp Hb. unfold duck_validate_sql. cbv zeta. rewrite Hp.
  assert (check_blocked_functions sql (ability_matches ability "tinycloud.duckdb/admin") = Ok tt) as Hbl by by apply blocked_functions_Ok.
  assert (∀ c, caveats = Some c → bool_decide (is_Some (find_statement_by_sql c sql)) = false) as Hpre.
  { intros c ->. cbn in Hnp. unfold not_prepared in Hnp. cbn in Hnp. rewrite Hnp. apply bool_decide_eq_false_2. by intros [? ?]. }
  assert (∀ adm w, gather_allowed adm w nothing_seen [DSExplain true stmt] = Ok nothing_seen) as Hg by by intros [] w.
  assert (∀ c, apply_caveat_checks c [] [] true = Ok tt) as Hc.
  { intros c. unfold apply_caveat_checks. by rewrite orb_true_r. }
  destruct caveats as [c|]; [rewrite (Hpre c eq_refl)|]; cbn [map_err]; rewrite bind_ret_l; cbn [bool_decide negb]; rewrite (bool_decide_eq_false_2 (_ = [])) by done;
    cbn [negb]; rewrite ensure_true, bind_ret_l, Hg, bind_ret_l, Hbl, bind_ret_l; cbn [nothing_seen cl_ddl negb orb cl_read_only cl_tables cl_columns];
    rewrite ensure_true, bind_ret_l, ensure_true, bind_ret_l; [by rewrite Hc|done].
Qed.

(** The prepared statements of the caveats are run with any ability: a text that names
    itself is accepted whatever it does, as long as it parses and holds no blocked word. *)
Theorem prepared_statement_unrestricted (sql name ability : string) (stmts : list DStatement) :
  duck_parse_sql sql = Ok stmts → forallb (λ w, negb (contains_str w (to_uppercase sql))) BLOCKED_FUNCTIONS = true →
  duck_validate_sql sql (Some (mkDuckDbCaveats None None (Some [mkPreparedStatement name sql]) None)) ability =
    Ok (parsed_query stmts (foldl classify_statement nothing_seen stmts)).
Proof.
  intros Hp Hb. unfold duck_validate_sql, find_statement_by_sql. cbn [dc_statements mbind option_bind find ps_sql].
  rewrite (bool_decide_eq_true_2 (sql = sql)) by done. rewrite (bool_decide_eq_true_2 (is_Some _)) by done.
  rewrite blocked_functions_Ok by done.
  rewrite bind_ret_l, Hp. cbn [map_err]. rewrite bind_ret_l. set (g := foldl _ _ _).
  assert (apply_caveat_checks (mkDuckDbCaveats None None (Some [mkPreparedStatement name sql]) None) (cl_tables g) (cl_columns g) (cl_read_only g) = Ok tt) as ->; [|done].
  unfold apply_caveat_checks. cbn [dc_read_only default negb orb]. rewrite ensure_true, bind_ret_l.
  eapply bind_step; [apply for_each_Ok; by intros t _|]. apply for_each_Ok. by intros t _.
Qed.

End Accepted.

(** ** A small parser *)

Section Demo.

Definition select_from (column table : string) : DQuery :=
  mkDQuery [] (DSelect [DUnnamedExpr (DIdentifier column)] [mkDTableWithJoins (DTable table) []] []).

(** The texts used below and the statements they stand for. *)
Definition demo_statements : list (string * DStatement) :=
  [("SELECT id FROM events", DSQuery (select_from "id" "events"));
   ("CREATE TABLE events (id INTEGER)", DSCreateTable "events" None);
   ("CREATE UNIQUE INDEX one ON events (id)", DSCreateIndex "events");
   ("INSERT INTO events VALUES (1)", DSInsert "events" None);
   ("DROP TABLE events", DSDrop ["events"]);
   ("EXPLAIN ANALYZE INSERT INTO events VALUES (1)", DSExplain true (DSInsert "events" None));
   ("INSERT INTO events SELECT note FROM secrets", DSInsert "events" (Some (select_from "note" "secrets")));
   ("BEGIN", DSStartTransaction);
   ("COMMIT", DSCommit);
   ("ROLLBACK", DSRollback)].

Definition demo_duck_parse : DuckParse := λ sql,
  match find (λ e, bool_decide (e.1 = sql)) demo_statements with Some (_, stmt) => Ok [stmt] | None => Err "syntax error" end.

Definition demo_uppercase : Uppercase := to_ascii_uppercase.

#[local] Existing Instances demo_duck_parse demo_uppercase.

Definition events_only : DuckDbCaveats := mkDuckDbCaveats (Some ["events"]) (Some ["id"]) None None.

Lemma duck_reader_confined_witness :
  dq_targets (mkDuckParsedQuery [DSQuery (select_from "id" "events")] ["events"] ["id"] [] true false) = [].
Proof.
  refine (proj2 (proj2 (proj2 (duck_reader_confined "SELECT id FROM events" (Some events_only) "tinycloud.duckdb/read" _ _ _ _ _)))); by vm_compute.
Defined.

Lemma duck_caveats_confine_witness :
  duck_table_allowed events_only "events" = true.
Proof.
  refine (proj1 (duck_caveats_confine "INSERT INTO events VALUES (1)" events_only "tinycloud.duckdb/write"
    (mkDuckParsedQuery [DSInsert "events" None] ["events"] [] [Supported ["events"]] false false) (DSInsert "events" None) _ _) "events" _).
  - by vm_compute.
  - by apply list_elem_of_singleton.
  - by apply list_elem_of_singleton.
Defined.

(** The source of an insert is not looked at: a writer whose caveats name one table
    copies another into it. *)
Theorem insert_source_unchecked :
  duck_table_allowed events_only "secrets" = false ∧
  is_ok (duck_validate_sql "INSERT INTO events SELECT note FROM secrets" (Some events_only) "tinycloud.duckdb/write") = true.
Proof. by vm_compute. Qed.

End Demo.
