(* ===== verification/DuckTypes.v ===== *)
(** * DuckDB values and answers: tinycloud-core/src/duckdb/types.rs

    The values of a request and of an answer, between JSON ([serde]), the program's
    [DuckDbValue] and the values of the [duckdb] crate ([RawValue]).  A hash map is
    the list of its entries in key order, and is iterated in the order [row_order];
    a float is the code of its bits; a decimal is the text it displays as. *)
From stdpp Require Import sorting.
From S2P Require Import Prelude Str Chars Json Tables Jcs Evidence SqlParser DuckParser.

(** ** Values *)

Inductive DuckDbValue :=
| DvNull
| DvBoolean (b : bool)
| DvInteger (i : Z)
| DvBigInt (i : Z)
| DvFloat (repr : Z)
| DvDouble (repr : Z)
| DvText (s : string)
| DvBlob (b : string)
| DvDate (s : string)
| DvTimestamp (s : string)
| DvList (items : list DuckDbValue)
| DvStruct (fields : list (string * DuckDbValue)).

Inductive TimeUnit := Second | Millisecond | Microsecond | Nanosecond.

(** [duckdb::types::Value]. *)
Inductive RawValue :=
| RawNull
| RawBoolean (b : bool)
| RawTinyInt (i : Z)
| RawSmallInt (i : Z)
| RawInt (i : Z)
| RawBigInt (i : Z)
| RawHugeInt (i : Z)
| RawUTinyInt (i : Z)
| RawUSmallInt (i : Z)
| RawUInt (i : Z)
| RawUBigInt (i : Z)
| RawFloat (repr : Z)
| RawDouble (repr : Z)
| RawDecimal (display : string)
| RawTimestamp (unit : TimeUnit) (val : Z)
| RawText (s : string)
| RawBlob (b : string)
| RawDate32 (d : Z)
| RawTime64 (unit : TimeUnit) (val : Z)
| RawInterval (months days nanos : Z)
| RawList (items : list RawValue)
| RawEnum (s : string)
| RawStruct (fields : list (string * RawValue))
| RawArray (items : list RawValue)
| RawMap (entries : list (RawValue * RawValue))
| RawUnion (v : RawValue).

(** [Display] of floats and [Debug] of a value; the calendar date that many days
    after 1970-01-01, if the [time] crate has it; [Number::from_f64] of a double and
    of a float as a double, which fails unless the number is finite. *)
Class DuckText := {
  f32_text : Z → string;
  f64_text : Z → string;
  debug_text : RawValue → string;
  calendar_date : Z → option string;
  number_from_f32 : Z → option Z;
  number_from_f64 : Z → option Z;
}.

(** [Display] of an integer of up to 128 bits. *)
Definition fmt_int (z : Z) : string :=
  if (z <? 0)%Z then "-" +:+ dec_go 39 (Z.to_N (- z)) "" else dec_go 39 (Z.to_N z) "".

(** [{:0w}]. *)
Fixpoint zeros (n : nat) : string := match n with O => "" | S n => String "0" (zeros n) end.
Definition zero_padded (width : nat) (z : Z) : string :=
  if (z <? 0)%Z then let digits := dec_go 39 (Z.to_N (- z)) "" in "-" +:+ zeros (width - 1 - String.length digits) +:+ digits
  else let digits := fmt_int z in zeros (width - String.length digits) +:+ digits.

(** Products of [i64] wrap; division truncates. *)
Definition to_micros (unit : TimeUnit) (val : Z) : Z :=
  match unit with
  | Second => wrap_i64 (val * 1000000)
  | Millisecond => wrap_i64 (val * 1000)
  | Microsecond => val
  | Nanosecond => Z.quot val 1000
  end.

Definition format_timestamp (unit : TimeUnit) (val : Z) : string :=
  let micros := to_micros unit val in
  fmt_int (Z.quot micros 1000000) +:+ "." +:+ zero_padded 6 (Z.abs (Z.rem micros 1000000)).

Definition format_time64 (unit : TimeUnit) (val : Z) : string :=
  let micros := to_micros unit val in
  let total_secs := Z.quot micros 1000000 in
  zero_padded 2 (Z.quot total_secs 3600) +:+ ":" +:+ zero_padded 2 (Z.quot (Z.rem total_secs 3600) 60) +:+ ":" +:+
  zero_padded 2 (Z.rem total_secs 60) +:+ "." +:+ zero_padded 6 (Z.abs (Z.rem micros 1000000)).

Definition format_date32 `{DuckText} (days : Z) : string := default (fmt_int days) (calendar_date days).

(** ** Conversions *)

Section Conversions.
Context `{DuckText} `{RowOrder}.

Definition map_key_text (k : RawValue) : string :=
  match k with
  | RawText s => s
  | RawBoolean b => if b then "true" else "false"
  | RawTinyInt i | RawSmallInt i | RawInt i | RawBigInt i => fmt_int i
  | RawFloat f => f32_text f
  | RawDouble f => f64_text f
  | other => debug_text other
  end.

(** Entries inserted one by one into an empty hash map. *)
Definition collect_fields {A} (entries : list (string * A)) : list (string * A) := foldl (λ m e, obj_insert e.1 e.2 m) [] entries.

(** [From<duckdb::types::Value> for DuckDbValue]. *)
Fixpoint from_raw (v : RawValue) : DuckDbValue :=
  match v with
  | RawNull => DvNull
  | RawBoolean b => DvBoolean b
  | RawTinyInt i | RawSmallInt i | RawInt i | RawBigInt i | RawUTinyInt i | RawUSmallInt i | RawUInt i => DvInteger i
  | RawHugeInt i => DvBigInt i
  | RawUBigInt i => if (i <=? 2 ^ 63 - 1)%Z then DvInteger i else DvText (fmt_int i)
  | RawFloat f => DvFloat f
  | RawDouble f => DvDouble f
  | RawDecimal d => DvText d
  | RawTimestamp unit val => DvTimestamp (format_timestamp unit val)
  | RawText s => DvText s
  | RawBlob b => DvBlob b
  | RawDate32 d => DvDate (format_date32 d)
  | RawTime64 unit val => DvText (format_time64 unit val)
  | RawInterval months days nanos =>
      DvText ("INTERVAL " +:+ fmt_int months +:+ " months " +:+ fmt_int days +:+ " days " +:+ fmt_int nanos +:+ " nanos")
  | RawList items | RawArray items => DvList (map from_raw items)
  | RawEnum s => DvText s
  | RawStruct fields => DvStruct (collect_fields (map (λ '(k, v), (k, from_raw v)) fields))
  | RawMap entries => DvStruct (collect_fields (map (λ '(k, v), (map_key_text k, from_raw v)) entries))
  | RawUnion v => from_raw v
  end.

(** [From<&DuckDbValue> for duckdb::types::Value]. *)
Fixpoint to_raw (v : DuckDbValue) : RawValue :=
  match v with
  | DvNull => RawNull
  | DvBoolean b => RawBoolean b
  | DvInteger i => RawBigInt i
  | DvBigInt i => RawHugeInt i
  | DvFloat f => RawFloat f
  | DvDouble f => RawDouble f
  | DvText s | DvDate s | DvTimestamp s => RawText s
  | DvBlob b => RawBlob b
  | DvList items => RawList (map to_raw items)
  | DvStruct fields => RawStruct (row_order (map (λ '(k, v), (k, to_raw v)) fields))
  end.

(** [Serialize]: [serde_json::to_value]. *)
Fixpoint value_json (v : DuckDbValue) : json :=
  match v with
  | DvNull => JNull
  | DvBoolean b => JBool b
  | DvInteger i => JNumber (NInt i)
  | DvBigInt i => JString (fmt_int i)
  | DvFloat f => match number_from_f32 f with Some n => JNumber (NFloat n) | None => JNull end
  | DvDouble f => match number_from_f64 f with Some n => JNumber (NFloat n) | None => JNull end
  | DvText s | DvDate s | DvTimestamp s => JString s
  | DvBlob b => JArray ((λ c, JNumber (NInt (Z.of_N c))) <$> string_bytes b)
  | DvList items => JArray (map value_json items)
  | DvStruct fields => JObject (map (λ '(k, v), (k, value_json v)) fields)
  end.

End Conversions.

(** [Deserialize]: the visitor's answer to a JSON value; [visit_u64] is [v as i64]. *)
Fixpoint value_of_json (v : json) : DuckDbValue :=
  match v with
  | JNull => DvNull
  | JBool b => DvBoolean b
  | JNumber (NInt z) => DvInteger (wrap_i64 z)
  | JNumber (NFloat f) => DvDouble f
  | JString s => DvText s
  | JArray l => DvList (map value_of_json l)
  | JObject m => DvStruct (map (λ '(k, v), (k, value_of_json v)) m)
  end.

(** ** Requests and answers *)

Record DuckDbStatement := mkDuckDbStatement { ds_sql : string; ds_params : list DuckDbValue }.
Record IngestStatement := mkIngestStatement { in_source : string; in_format : string; in_table : string; in_mode : string }.

Inductive DuckDbRequest :=
| DrQuery (sql : string) (params : list DuckDbValue)
| DrExecute (sql : string) (params : list DuckDbValue) (schema : option (list string))
| DrBatch (statements : list DuckDbStatement) (transactional : bool)
| DrExecuteStatement (name : string) (params : list DuckDbValue)
| DrDescribe
| DrIngest (statement : IngestStatement)
| DrExportToKv (sql key format : string)
| DrExport
| DrImport (data : string).

Record DuckQueryResponse := mkDuckQueryResponse { dqr_columns : list string; dqr_rows : list (list DuckDbValue); dqr_row_count : N }.
Record ColumnInfo := mkColumnInfo { ci_name : string; ci_type : string; ci_nullable : bool }.
Record TableInfo := mkTableInfo { ti_name : string; ti_columns : list ColumnInfo }.
Record ViewInfo := mkViewInfo { vi_name : string; vi_sql : string }.
Record SchemaInfo := mkSchemaInfo { si_tables : list TableInfo; si_views : list ViewInfo }.

(** An execute answer is its number of changes. *)
Inductive DuckDbResponse :=
| DuckQueryAnswer (q : DuckQueryResponse)
| DuckExecuteAnswer (changes : N)
| DuckBatchAnswer (results : list N)
| DuckDescribeAnswer (s : SchemaInfo)
| DuckIngestAnswer (rows_inserted : N) (table : string)
| DuckExportToKvAnswer (key : string) (size : N)
| DuckArrowAnswer (bytes : string).

Record DuckDbExecutionResult := mkDuckDbExecutionResult { de_response : DuckDbResponse; de_targets : list TouchedTables }.

Definition column_json (c : ColumnInfo) : json :=
  JObject [("name", JString (ci_name c)); ("nullable", JBool (ci_nullable c)); ("type", JString (ci_type c))].

Definition execute_json (changes : N) : json := JObject [("changes", JNumber (NInt (Z.of_N changes)))].

Definition duck_response_json `{DuckText} (r : DuckDbResponse) : json :=
  match r with
  | DuckQueryAnswer q =>
      JObject [("columns", JArray (JString <$> dqr_columns q)); ("rowCount", JNumber (NInt (Z.of_N (dqr_row_count q))));
               ("rows", JArray ((λ row, JArray (value_json <$> row)) <$> dqr_rows q))]
  | DuckExecuteAnswer changes => execute_json changes
  | DuckBatchAnswer results => JObject [("results", JArray (execute_json <$> results))]
  | DuckDescribeAnswer s =>
      JObject [("tables", JArray ((λ t, JObject [("columns", JArray (column_json <$> ti_columns t)); ("name", JString (ti_name t))]) <$> si_tables s));
               ("views", JArray ((λ v, JObject [("name", JString (vi_name v)); ("sql", JString (vi_sql v))]) <$> si_views s))]
  | DuckIngestAnswer rows_inserted table => JObject [("rowsInserted", JNumber (NInt (Z.of_N rows_inserted))); ("table", JString table)]
  | DuckExportToKvAnswer key size => JObject [("key", JString key); ("size", JNumber (NInt (Z.of_N size)))]
  | DuckArrowAnswer bytes => JArray ((λ c, JNumber (NInt (Z.of_N c))) <$> string_bytes bytes)
  end.

(** ** Round trips *)

Section ValueInd.
Context (P : DuckDbValue → Prop).
Context (Hleaf : ∀ v, match v with DvList _ | DvStruct _ => False | _ => True end → P v).
Context (Hlist : ∀ l, Forall P l → P (DvList l)) (Hstruct : ∀ m, Forall (λ kv, P kv.2) m → P (DvStruct m)).

Fixpoint duck_value_ind (v : DuckDbValue) : P v :=
  match v with
  | DvList l =>
      Hlist l ((fix go l : Forall P l := match l with [] => Forall_nil_2 _ | x :: l => Forall_cons_2 _ _ _ (duck_value_ind x) (go l) end) l)
  | DvStruct m =>
      Hstruct m ((fix go m : Forall (λ kv, P kv.2) m := match m with [] => Forall_nil_2 _ | kv :: m => Forall_cons_2 _ _ _ (duck_value_ind kv.2) (go m) end) m)
  | v => Hleaf v I
  end.
End ValueInd.

(** Every hash map of a value in key order. *)
Fixpoint duck_value_wf (v : DuckDbValue) : Prop :=
  match v with
  | DvList l => foldr (λ v acc, duck_value_wf v ∧ acc) True l
  | DvStruct m => StronglySorted key_lt m ∧ foldr (λ kv acc, duck_value_wf kv.2 ∧ acc) True m
  | _ => True
  end.

(** What the engine gives back for a bound value: dates and timestamps are bound as
    text. *)
Fixpoint as_bound (v : DuckDbValue) : DuckDbValue :=
  match v with
  | DvDate s | DvTimestamp s => DvText s
  | DvList l => DvList (map as_bound l)
  | DvStruct m => DvStruct (map (λ '(k, v), (k, as_bound v)) m)
  | v => v
  end.

Lemma foldr_and_Forall {A} (P : A → Prop) l : foldr (λ x acc, P x ∧ acc) True l ↔ Forall P l.
Proof. induction l as [|x l IH]; cbn; [by split; [constructor|]|]. by rewrite IH, Forall_cons. Qed.

Lemma fields_keys {A B} (f : A → B) (m : list (string * A)) : (map (λ '(k, v), (k, f v)) m).*1 = m.*1.
Proof. induction m as [|[k v] m IH]; cbn; [done|]. by f_equal. Qed.

Lemma fields_sorted {A B} (f : A → B) (m : list (string * A)) :
  StronglySorted key_lt m → StronglySorted key_lt (map (λ '(k, v), (k, f v)) m).
Proof.
  induction m as [|[k v] m IH]; [constructor|]. intros [Hs Hall]%StronglySorted_inv. cbn [map]. constructor; [by apply IH|].
  apply Forall_map. eapply Forall_impl; [exact Hall|]. by intros [k' v'].
Qed.

Lemma key_sorted_NoDup {A} (m : list (string * A)) : StronglySorted key_lt m → NoDup m.*1.
Proof.
  induction m as [|[k v] m IH]; [constructor|]. intros [Hs Hall]%StronglySorted_inv. cbn. constructor; [|by apply IH].
  intros ([k' v'] & Hk & Hin)%list_elem_of_fmap. cbn in Hk. subst. rewrite Forall_forall in Hall. by apply Hall in Hin as [_ ?].
Qed.

Lemma collect_fields_insert {A} (entries : list (string * A)) : ∀ m,
  NoDup (m.*1 ++ entries.*1) → StronglySorted key_lt m →
  let r := foldl (λ m e, obj_insert e.1 e.2 m) m entries in r ≡ₚ entries ++ m ∧ StronglySorted key_lt r.
Proof.
  induction entries as [|[k v] entries IH]; intros m Hnd Hs; [by cbn|]. cbn [foldl fst snd].
  cbn [fmap list_fmap fst] in Hnd. assert (k ∉ m.*1) as Hk.
  { rewrite NoDup_app in Hnd. intros Hin. destruct Hnd as (_ & Hd & _). apply (Hd k Hin). by left. }
  destruct (IH (obj_insert k v m)) as [Hp Hsr].
  - rewrite obj_insert_perm by done. cbn [fmap list_fmap fst]. by rewrite <- Permutation_middle in Hnd.
  - by apply obj_insert_sorted.
  - split; [|done]. rewrite Hp, obj_insert_perm by done. cbn. by rewrite Permutation_middle.
Qed.

(** A hash map is the same in whatever order its entries were inserted. *)
Lemma collect_fields_perm {A} (entries m : list (string * A)) : entries ≡ₚ m → StronglySorted key_lt m → collect_fields entries = m.
Proof.
  intros Hp Hs. destruct (collect_fields_insert entries []) as [Hr Hsr]; [cbn; rewrite Hp; by apply key_sorted_NoDup|constructor|].
  apply key_lt_unique; [done..|]. rewrite app_nil_r in Hr. unfold collect_fields. by rewrite Hr.
Qed.

(** A parameter comes back as it was bound: what the engine stores for a value and
    gives back is that value, with dates and timestamps as text; the order in which
    the fields of a struct are handed over does not matter. *)
Theorem bound_value_returns `{DuckText} `{RowOrder} (v : DuckDbValue) : duck_value_wf v → from_raw (to_raw v) = as_bound v.
Proof.
  induction v as [v Hl|l IH|m IH] using duck_value_ind; intros Hwf.
  - by destruct v.
  - cbn [to_raw from_raw as_bound duck_value_wf] in *. apply foldr_and_Forall in Hwf. f_equal. rewrite map_map.
    apply map_ext_Forall. rewrite Forall_forall in *. auto.
  - cbn [to_raw from_raw as_bound duck_value_wf] in *. destruct Hwf as [Hs Hwf]. rewrite (foldr_and_Forall (λ kv, duck_value_wf kv.2)) in Hwf. f_equal.
    apply collect_fields_perm; [|by apply fields_sorted]. rewrite row_order_perm, map_map. apply Permutation_refl', map_ext_Forall.
    rewrite Forall_forall in *. intros [k v] Hin. f_equal. by apply (IH (k, v)), (Hwf (k, v)).
Qed.

(** Values that JSON can carry: no floats, blobs or 128-bit integers, and no dates,
    which are read as text. *)
Fixpoint json_plain (v : DuckDbValue) : bool :=
  match v with
  | DvNull | DvBoolean _ | DvText _ => true
  | DvInteger i => ((- 2 ^ 63 <=? i) && (i <? 2 ^ 63))%Z
  | DvList l => forallb json_plain l
  | DvStruct m => forallb (λ kv, json_plain kv.2) m
  | _ => false
  end.

Theorem plain_value_json `{DuckText} (v : DuckDbValue) : json_plain v = true → value_of_json (value_json v) = v.
Proof.
  induction v as [v Hl|l IH|m IH] using duck_value_ind; intros Hp.
  - destruct v; try done. cbn [json_plain value_json value_of_json] in *. apply andb_true_iff in Hp as [?%Z.leb_le ?%Z.ltb_lt].
    f_equal. unfold wrap_i64. rewrite Z.mod_small; lia.
  - cbn [json_plain value_json value_of_json] in *. f_equal. rewrite map_map. rewrite <- (map_id l) at 2. apply map_ext_Forall.
    rewrite forallb_forall in Hp. rewrite Forall_forall in *. intros x Hin. apply IH; [done|]. by apply Hp, list_elem_of_In.
  - cbn [json_plain value_json value_of_json] in *. f_equal. rewrite map_map. rewrite <- (map_id m) at 2. apply map_ext_Forall.
    rewrite forallb_forall in Hp. rewrite Forall_forall in *. intros [k v] Hin. f_equal. apply (IH (k, v)); [done|]. by apply (Hp (k, v)), list_elem_of_In.
Qed.

(** ** What is lost *)

(** A number beyond [i64] is bound as a negative one. *)
Theorem large_parameter_wraps : value_of_json (JNumber (NInt (2 ^ 64 - 1))) = DvInteger (-1).
Proof. by vm_compute. Qed.

(** An instant less than a second before 1970 is written as the one as long after it. *)
Theorem timestamp_sign_lost (micros : Z) :
  (0 < micros < 1000000)%Z → format_timestamp Microsecond (- micros) = format_timestamp Microsecond micros.
Proof.
  intros Hm. unfold format_timestamp, to_micros. rewrite Z.quot_opp_l, Z.rem_opp_l by lia. rewrite Z.abs_opp. rewrite Z.quot_small by lia. done.
Qed.
