(* ===== verification/DuckService.v ===== *)
(** * The DuckDB service: tinycloud-core/src/duckdb/{storage,describe,database,service}.rs

    As in the SQL service every database of a space has an actor that owns a
    connection and runs one request at a time, and a request that wrote exports the
    database and saves it as an artifact.  Other than there, a text is run as it is
    once [validate_sql] accepts it, a request meets the actor that is there or fails,
    and an in-memory database is exported by copying its tables into a file.

    The engine is the class [DuckDb].  The file system does not fail; the table of
    artifacts may. *)
From S2P Require Import Prelude Str Chars Json Identity Resource Registry Tables Storage Chain Tokens Demo Artifacts SqlParser SqlAuthorizer SqlService DuckParser DuckTypes.

(** The [duckdb] crate.  [duck_open] opens a file with these bytes or a new one;
    [duck_file] are the bytes of its file when a connection is closed or was
    checkpointed.  [duck_query] prepares and runs a text: the names of the columns
    and the answers of successive calls of [Rows::next]; [duck_query_arrow] gives the
    text of the Arrow stream or the error of its writer; [duck_text_rows] the rows of
    a query whose columns are texts. *)
Class DuckDb := {
  DConn : Type;
  Batch : Type;
  duck_open_in_memory : result string DConn;
  duck_open : option string → result string DConn;
  duck_file : DConn → string;
  duck_query : DConn → string → list RawValue → result string (list string * list (result string (list (result string RawValue)))) * DConn;
  duck_query_arrow : DConn → string → list RawValue → result string (result string string) * DConn;
  duck_execute : DConn → string → list RawValue → result string N * DConn;
  duck_execute_batch : DConn → string → result string unit * DConn;
  duck_text_rows : DConn → string → list string → result string (list (list string));
  duck_batches : DConn → string → result string (list Batch);
  duck_appender : DConn → string → result string unit;
  duck_append : DConn → string → Batch → result string unit * DConn;
  duck_blocks : DConn → result string (option Z);
}.

(** ** storage.rs *)

Definition validate_max_memory (value : string) : result DuckDbError unit :=
  let trimmed := trim value in
  let bad := DInternal ("Invalid max_memory: " +:+ value) in
  _ ← ensure (match trimmed with "" => false | String c _ => is_ascii_digit c end) bad;
  ensure (forall_char (λ c, is_ascii_alphanumeric c || bool_decide (c = " "%char)) trimmed) bad.

Definition security_settings (max_memory : string) : string :=
  "SET enable_external_access = false;SET allow_unsigned_extensions = false;SET max_memory = '" +:+ max_memory +:+ "';".

(** [s.replace(c, "cc")]. *)
Fixpoint double_char (a : ascii) (s : string) : string :=
  match s with "" => "" | String c s => if decide (c = a) then String c (String c (double_char a s)) else String c (double_char a s) end.

Definition TABLE_NAMES : string :=
  "SELECT table_name FROM information_schema.tables WHERE table_schema = 'main' AND table_type = 'BASE TABLE'".
Definition VIEW_TEXTS : string := "SELECT view_name, sql FROM duckdb_views() WHERE schema_name = 'main'".
Definition table_ddl_query (table : string) : string := "SELECT sql FROM duckdb_tables() WHERE table_name = '" +:+ double_char "'" table +:+ "'".
Definition table_rows_query (table : string) : string :=
  "SELECT * FROM " +:+ String (char 34) (double_char (char 34) table) +:+ String (char 34) "".

Section Storage.
Context `{!DuckDb}.

Definition apply_security_settings (c : DConn) (max_memory : string) : result DuckDbError DConn :=
  _ ← validate_max_memory max_memory;
  let '(r, c) := duck_execute_batch c (security_settings max_memory) in
  _ ← map_err (λ e, DInternal ("Failed to apply security settings: " +:+ e)) r;
  Ok c.

(** [StorageMode::File] holds what is in the file. *)
Definition open_connection (file : option string) (max_memory : string) : result DuckDbError DConn :=
  c ← map_err DInternal (match file with None => duck_open_in_memory | Some bytes => duck_open (Some bytes) end);
  apply_security_settings c max_memory.

Definition duck_database_size (c : DConn) : result DuckDbError N :=
  size ← map_err DInternal (duck_blocks c);
  Ok (match size with Some s => Z.to_N (s mod 2 ^ 64) | None => 0%N end).

(** The rows of a table, batch by batch. *)
Fixpoint append_batches (dest : DConn) (table : string) (batches : list Batch) : result DuckDbError unit * DConn :=
  match batches with
  | [] => (Ok tt, dest)
  | b :: batches =>
      match duck_append dest table b with
      | (Err e, dest) => (Err (DInternal ("Failed to append batch for " +:+ table +:+ ": " +:+ e)), dest)
      | (Ok _, dest) => append_batches dest table batches
      end
  end.

Definition first_text (rows : list (list string)) : result string string :=
  match rows with (text :: _) :: _ => Ok text | _ => Err "Query returned no rows" end.

(** One round of the loop of [copy_tables]. *)
Definition copy_table (src dest : DConn) (table : string) : result DuckDbError unit * DConn :=
  match map_err (λ e, DInternal ("Failed to get DDL for " +:+ table +:+ ": " +:+ e)) (duck_text_rows src (table_ddl_query table) [] ≫= first_text) with
  | Err e => (Err e, dest)
  | Ok create_sql =>
      match duck_execute_batch dest create_sql with
      | (Err e, dest) => (Err (DInternal ("Failed to create table " +:+ table +:+ ": " +:+ e)), dest)
      | (Ok _, dest) =>
          match (batches ← map_err DInternal (duck_batches src (table_rows_query table));
                 _ ← map_err (λ e, DInternal ("Failed to create appender for " +:+ table +:+ ": " +:+ e)) (duck_appender dest table);
                 Ok batches) with
          | Err e => (Err e, dest)
          | Ok batches => append_batches dest table batches
          end
      end
  end.

Fixpoint copy_each (src dest : DConn) (tables : list string) : result DuckDbError unit * DConn :=
  match tables with
  | [] => (Ok tt, dest)
  | t :: tables => match copy_table src dest t with (Err e, dest) => (Err e, dest) | (Ok _, dest) => copy_each src dest tables end
  end.

(** Text rows of one or two columns. *)
Definition one_column (rows : list (list string)) : result string (list string) :=
  try_map (λ row, match row with x :: _ => Ok x | [] => Err "Invalid column index" end) rows.
Definition two_columns (rows : list (list string)) : result string (list (string * string)) :=
  try_map (λ row, match row with x :: y :: _ => Ok (x, y) | _ => Err "Invalid column index" end) rows.

Definition copy_tables (src dest : DConn) : result DuckDbError unit * DConn :=
  match map_err DInternal (duck_text_rows src TABLE_NAMES [] ≫= one_column) with
  | Err e => (Err e, dest)
  | Ok names =>
      match copy_each src dest names with
      | (Err e, dest) => (Err e, dest)
      | (Ok _, dest) =>
          match map_err DInternal (duck_text_rows src VIEW_TEXTS [] ≫= two_columns) with
          | Err e => (Err e, dest)
          | Ok views => (Ok tt, foldl (λ dest v, (duck_execute_batch dest v.2).2) dest views)
          end
      end
  end.

(** The file that was there before, the connection to it (if it opened) and whether
    the copy is complete. *)
Definition promote_to_file (c : DConn) (file : option string) (max_memory : string) : result DuckDbError unit * option DConn :=
  match map_err DInternal (duck_open file) with
  | Err e => (Err e, None)
  | Ok f =>
      match apply_security_settings f max_memory with
      | Err e => (Err e, Some f)
      | Ok f => let '(r, f) := copy_tables c f in (r, Some f)
      end
  end.

End Storage.

(** ** describe.rs *)

Definition DESCRIBE_TABLES : string :=
  "SELECT table_name FROM information_schema.tables WHERE table_schema = 'main' AND table_type = 'BASE TABLE' ORDER BY table_name".
Definition DESCRIBE_COLUMNS : string :=
  "SELECT column_name, data_type, is_nullable FROM information_schema.columns WHERE table_schema = 'main' AND table_name = ? ORDER BY ordinal_position".
Definition DESCRIBE_VIEWS : string := "SELECT view_name, sql FROM duckdb_views() WHERE schema_name = 'main' ORDER BY view_name".

Section Describe.
Context `{!DuckDb}.

Definition column_info (row : list string) : result string ColumnInfo :=
  match row with
  | name :: data_type :: nullable :: _ => Ok (mkColumnInfo name data_type (bool_decide (nullable = "YES")))
  | _ => Err "Invalid column index"
  end.

Definition describe_columns (c : DConn) (table : string) : result DuckDbError (list ColumnInfo) :=
  map_err DDuckDb (duck_text_rows c DESCRIBE_COLUMNS [table] ≫= try_map column_info).

Definition describe_tables (c : DConn) : result DuckDbError (list TableInfo) :=
  names ← map_err DDuckDb (duck_text_rows c DESCRIBE_TABLES [] ≫= one_column);
  try_map (λ name, columns ← describe_columns c name; Ok (mkTableInfo name columns)) names.

Definition describe_views (c : DConn) : result DuckDbError (list ViewInfo) :=
  rows ← map_err DDuckDb (duck_text_rows c DESCRIBE_VIEWS [] ≫= two_columns);
  Ok (map (λ v, mkViewInfo v.1 v.2) rows).

Definition keep_columns (allowed : list string) (t : TableInfo) : TableInfo :=
  mkTableInfo (ti_name t) (List.filter (λ k, bool_decide (ci_name k ∈ allowed)) (ti_columns t)).

Definition describe_schema (c : DConn) (caveats : option DuckDbCaveats) : result DuckDbError SchemaInfo :=
  tables ← describe_tables c;
  views ← describe_views c;
  let allowed := caveats ≫= dc_tables in
  let tables := match allowed with Some l => List.filter (λ t, bool_decide (ti_name t ∈ l)) tables | None => tables end in
  let views := match allowed with Some l => List.filter (λ v, bool_decide (vi_name v ∈ l)) views | None => views end in
  Ok (mkSchemaInfo (match caveats ≫= dc_columns with Some l => keep_columns l <$> tables | None => tables end) views).

End Describe.

(** ** One message (database.rs) *)

Definition MAX_DUCK_RESPONSE_SIZE : N := 10 * 1024 * 1024.

Fixpoint estimate_value_size (v : DuckDbValue) : N :=
  match v with
  | DvNull => 4
  | DvBoolean _ => 5
  | DvInteger _ => 8
  | DvBigInt _ => 20
  | DvFloat _ | DvDouble _ => 8
  | DvText s | DvDate s | DvTimestamp s => N.of_nat (String.length s) + 2
  | DvBlob b => N.of_nat (String.length b) * 2
  | DvList items => foldr (λ v n, estimate_value_size v + n) 0 items + 2
  | DvStruct fields => foldr (λ kv n, N.of_nat (String.length kv.1) + estimate_value_size kv.2 + 4 + n) 0 fields + 2
  end%N.

Definition row_size (row : list DuckDbValue) : N := foldr (λ v n, estimate_value_size v + n)%N 0%N row.

Section Messages.
Context `{!DuckDb} `{DuckParse} `{Uppercase} `{DuckText} `{RowOrder}.

Definition bound (params : list DuckDbValue) : list RawValue := to_raw <$> params.

(** The values of a row: [row.get(i)] for every column. *)
Definition row_values (columns : nat) (row : list (result string RawValue)) : result DuckDbError (list DuckDbValue) :=
  try_map (λ i, v ← map_err DDuckDb (default (Err "Invalid column index") (row !! i)); Ok (from_raw v)) (seq 0 columns).

Fixpoint collect_rows (columns : nat) (answers : list (result string (list (result string RawValue)))) (rows : list (list DuckDbValue)) (size : N)
    : result DuckDbError (list (list DuckDbValue)) :=
  match answers with
  | [] => Ok rows
  | answer :: answers =>
      row ← map_err DDuckDb answer;
      values ← row_values columns row;
      let size := (size + row_size values)%N in
      _ ← ensure (negb (MAX_DUCK_RESPONSE_SIZE <? size)%N) (DResponseTooLarge size);
      collect_rows columns answers (rows ++ [values]) size
  end.

Definition duck_execute_query (c : DConn) (sql : string) (params : list DuckDbValue) : result DuckDbError DuckQueryResponse * DConn :=
  let '(r, c) := duck_query c sql (bound params) in
  ('(columns, answers) ← map_err DDuckDb r;
   rows ← collect_rows (length columns) answers [] 0;
   Ok (mkDuckQueryResponse columns rows (N.of_nat (length rows))), c).

Definition execute_query_arrow (c : DConn) (sql : string) (params : list DuckDbValue) : result DuckDbError string * DConn :=
  let '(r, c) := duck_query_arrow c sql (bound params) in
  (written ← map_err DDuckDb r;
   buf ← map_err DInternal written;
   let size := N.of_nat (String.length buf) in
   _ ← ensure (negb (MAX_DUCK_RESPONSE_SIZE <? size)%N) (DResponseTooLarge size);
   Ok buf, c).

Definition duck_execute_statement (c : DConn) (sql : string) (params : list DuckDbValue) : result DuckDbError N * DConn :=
  let '(r, c) := duck_execute c sql (bound params) in (map_err DDuckDb r, c).

Fixpoint duck_run_batch (c : DConn) (stmts : list DuckDbStatement) (results : list N) : result DuckDbError (list N) * DConn :=
  match stmts with
  | [] => (Ok results, c)
  | stmt :: stmts =>
      match duck_execute_statement c (ds_sql stmt) (ds_params stmt) with
      | (Err e, c) => (Err e, c)
      | (Ok n, c) => duck_run_batch c stmts (results ++ [n])
      end
  end.

Definition execute_batch_transactional (c : DConn) (stmts : list DuckDbStatement) : result DuckDbError (list N) * DConn :=
  match duck_execute_batch c "BEGIN TRANSACTION;" with
  | (Err e, c) => (Err (DDuckDb e), c)
  | (Ok _, c) =>
      match duck_run_batch c stmts [] with
      | (Err e, c) => (Err e, (duck_execute_batch c "ROLLBACK;").2)
      | (Ok results, c) =>
          match duck_execute_batch c "COMMIT;" with
          | (Err e, c) => (Err (DDuckDb e), c)
          | (Ok _, c) => (Ok results, c)
          end
      end
  end.

(** The schema statements of an execute request. *)
Fixpoint duck_run_schema (caveats : option DuckDbCaveats) (ability : string) (c : DConn) (targets : list TouchedTables) (stmts : list string)
    : result DuckDbError (list TouchedTables) * DConn :=
  match stmts with
  | [] => (Ok targets, c)
  | sql :: stmts =>
      match duck_validate_sql sql caveats ability with
      | Err e => (Err e, c)
      | Ok parsed =>
          match duck_execute_batch c sql with
          | (Err e, c) => (Err (DSchemaError e), c)
          | (Ok _, c) => duck_run_schema caveats ability c (targets ++ dq_targets parsed) stmts
          end
      end
  end.

(** [sql.trim_start().to_uppercase().starts_with("SELECT")]. *)
Definition looks_like_select (sql : string) : bool :=
  starts_with "SELECT" (to_uppercase (String.concat "" (trim_start_chars is_whitespace (chars sql)))).

Definition answered {A} (f : A → DuckDbResponse) (targets : list TouchedTables) (r : result DuckDbError A) : result DuckDbError DuckDbExecutionResult :=
  a ← r; Ok (mkDuckDbExecutionResult (f a) targets).

Definition duck_handle_message (c : DConn) (request : DuckDbRequest) (caveats : option DuckDbCaveats) (ability : string) (arrow_format : bool)
    : result DuckDbError DuckDbExecutionResult * DConn :=
  match request with
  | DrQuery sql params =>
      match duck_validate_sql sql caveats ability with
      | Err e => (Err e, c)
      | Ok parsed =>
          if arrow_format
          then let '(r, c) := execute_query_arrow c sql params in (answered DuckArrowAnswer (dq_targets parsed) r, c)
          else let '(r, c) := duck_execute_query c sql params in (answered DuckQueryAnswer (dq_targets parsed) r, c)
      end
  | DrExecute sql params schema =>
      match duck_run_schema caveats ability c [] (default [] schema) with
      | (Err e, c) => (Err e, c)
      | (Ok targets, c) =>
          match duck_validate_sql sql caveats ability with
          | Err e => (Err e, c)
          | Ok parsed =>
              let '(r, c) := duck_execute_statement c sql params in (answered DuckExecuteAnswer (targets ++ dq_targets parsed) r, c)
          end
      end
  | DrBatch stmts transactional =>
      match try_map (λ s, duck_validate_sql (ds_sql s) caveats ability) stmts with
      | Err e => (Err e, c)
      | Ok parsed =>
          let '(r, c) := if transactional then execute_batch_transactional c stmts else duck_run_batch c stmts [] in
          (answered DuckBatchAnswer (concat (dq_targets <$> parsed)) r, c)
      end
  | DrExecuteStatement name params =>
      match (cv ← ok_or caveats (DInvalidStatement "No caveats found");
             prepared ← ok_or (duck_find_statement cv name) (DInvalidStatement ("Statement '" +:+ name +:+ "' not found"));
             parsed ← duck_validate_sql (ps_sql prepared) caveats ability;
             Ok (ps_sql prepared, parsed)) with
      | Err e => (Err e, c)
      | Ok (sql, parsed) =>
          if looks_like_select sql
          then let '(r, c) := duck_execute_query c sql params in (answered DuckQueryAnswer (dq_targets parsed) r, c)
          else let '(r, c) := duck_execute_statement c sql params in (answered DuckExecuteAnswer (dq_targets parsed) r, c)
      end
  | DrDescribe => (answered DuckDescribeAnswer [] (describe_schema c caveats), c)
  | DrIngest _ | DrExportToKv _ _ _ => (Err (DInternal "KV bridge not yet available"), c)
  | DrExport => (Err (DInternal "Export should be handled by service"), c)
  | DrImport _ => (Err (DInternal "Import should be handled by service"), c)
  end.

End Messages.

(** ** Actors and the service (database.rs, service.rs) *)

Record DuckActor `{!DuckDb} := mkDuckActor { da_conn : DConn; da_mode : StorageMode }.
Arguments mkDuckActor {_}.

(** What the environment does during a call: the actor's fate before each of the two
    messages, the failures of the table of artifacts, the clock. *)
Record DuckEnv := mkDuckEnv {
  dv_send : Fate;
  dv_export : Fate;
  dv_load : option string;
  dv_save : option string;
  dv_now : string;
}.

Definition validate_db_name (name : string) : result DuckDbError unit :=
  ensure (negb (contains_str ".." name || contains_char "/" name || contains_char "\" name || contains_char (char 0) name || bool_decide (name = "")))
         (DPermissionDenied "Invalid database name").

Definition duck_db_name_from_path (path : option string) : string :=
  match path with
  | Some p => let name := List.last (split_char "/" p) "default" in if is_ok (validate_db_name name) then name else "default"
  | None => "default"
  end.

Section Service.
Context `{!DuckDb} `{DuckParse} `{Uppercase} `{DuckText} `{RowOrder} `{Blake3} `{CidLib}.
Context (memory_threshold : N) (max_memory : string).

(** [duck_databases] holds the handles, [None] when the actor behind one has ended;
    [duck_cache] the database files; [duck_artifacts] the durable rows and their
    sizes. *)
Record DuckDbService := mkDuckDbService {
  duck_databases : gmap (string * string) (option DuckActor);
  duck_cache : gmap (string * string) string;
  duck_artifacts : Artifacts * SqlSizes;
}.

Definition set_duck_databases (d : gmap (string * string) (option DuckActor)) (s : DuckDbService) : DuckDbService :=
  mkDuckDbService d (duck_cache s) (duck_artifacts s).
Definition set_duck_cache (c : gmap (string * string) string) (s : DuckDbService) : DuckDbService :=
  mkDuckDbService (duck_databases s) c (duck_artifacts s).

Definition duck_load (env : DuckEnv) (s : DuckDbService) (key : string * string) : result DuckDbError (option string) :=
  match dv_load env with
  | Some e => Err (DInternal e)
  | None => Ok (a_payload <$> load (duck_artifacts s).1 "duckdb" key.1 key.2)
  end.

Definition duck_hydrate_cache (env : DuckEnv) (s : DuckDbService) (key : string * string) : result DuckDbError DuckDbService :=
  payload ← duck_load env s key;
  Ok (set_duck_cache (match payload with Some p => <[key := p]> (duck_cache s) | None => delete key (duck_cache s) end) s).

(** [spawn_actor]: the file if there is one; an actor whose connection does not open
    takes its entry out of the map. *)
Definition duck_spawn_actor (s : DuckDbService) (key : string * string) : result DuckDbError DuckActor :=
  let file := duck_cache s !! key in
  c ← open_connection file max_memory;
  Ok (mkDuckActor c (match file with Some _ => File | None => InMemory end)).

(** [DuckDbService::handle], and the error that the messages to an actor that did not
    start are answered with. *)
Definition duck_handle (env : DuckEnv) (s : DuckDbService) (key : string * string) : result DuckDbError unit * DuckDbService :=
  match duck_databases s !! key with
  | Some _ => (Ok tt, s)
  | None =>
      match duck_hydrate_cache env s key with
      | Err e => (Err e, s)
      | Ok s =>
          match duck_spawn_actor s key with
          | Err e => (Err (DInternal ("Failed to open: " +:+ duck_error_text e)), s)
          | Ok a => (Ok tt, set_duck_databases (<[key := Some a]> (duck_databases s)) s)
          end
      end
  end.

(** An actor ends: an idle one takes its entry out of the map, one that panicked
    leaves it there; a file keeps what was written to it. *)
Definition duck_end_actor (f : Fate) (s : DuckDbService) (key : string * string) : DuckDbService :=
  match f, duck_databases s !! key with
  | Stays, _ | _, (None | Some None) => s
  | _, Some (Some a) =>
      let s := match da_mode a with File => set_duck_cache (<[key := duck_file (da_conn a)]> (duck_cache s)) s | InMemory => s end in
      set_duck_databases (match f with Idles => delete key (duck_databases s) | _ => <[key := None]> (duck_databases s) end) s
  end.

(** The actor's answer to an execute message: the request, then the promotion of a
    grown in-memory database to a file; a failed promotion leaves what it wrote. *)
Definition duck_actor_execute (file : option string) (a : DuckActor) (request : DuckDbRequest) (caveats : option DuckDbCaveats) (ability : string)
    (arrow_format : bool) : result DuckDbError DuckDbExecutionResult * DuckActor * option string :=
  let '(r, c) := duck_handle_message (da_conn a) request caveats ability arrow_format in
  let grown := is_ok r && match da_mode a with InMemory => true | File => false end &&
               match duck_database_size c with Ok size => (memory_threshold <? size)%N | Err _ => false end in
  if grown then
    match promote_to_file c file max_memory with
    | (Ok _, Some f) => (r, mkDuckActor f File, Some (duck_file f))
    | (_, Some f) => (r, mkDuckActor c InMemory, Some (duck_file f))
    | (_, None) => (r, mkDuckActor c InMemory, file)
    end
  else (r, mkDuckActor c (da_mode a), file).

Definition handle_export (a : DuckActor) : result DuckDbError string * DuckActor :=
  match da_mode a with
  | File =>
      let '(r, c) := duck_execute_batch (da_conn a) "CHECKPOINT;" in
      (_ ← map_err DInternal r; Ok (duck_file c), mkDuckActor c File)
  | InMemory =>
      (match map_err DInternal (duck_open None) with
       | Err e => Err e
       | Ok dest => let '(r, dest) := copy_tables (da_conn a) dest in _ ← r; Ok (duck_file dest)
       end, a)
  end.

Definition actor_not_available : DuckDbError := DInternal "Database actor not available".

(** [DatabaseHandle::execute] and [export]. *)
Definition duck_send_execute (s : DuckDbService) (key : string * string) (request : DuckDbRequest) (caveats : option DuckDbCaveats) (ability : string)
    (arrow_format : bool) : result DuckDbError DuckDbExecutionResult * DuckDbService :=
  match duck_databases s !! key with
  | Some (Some a) =>
      let '(r, a, file) := duck_actor_execute (duck_cache s !! key) a request caveats ability arrow_format in
      (r, mkDuckDbService (<[key := Some a]> (duck_databases s))
            (match file with Some f => <[key := f]> (duck_cache s) | None => duck_cache s end) (duck_artifacts s))
  | _ => (Err actor_not_available, s)
  end.

Definition duck_send_export (s : DuckDbService) (key : string * string) : result DuckDbError string * DuckDbService :=
  match duck_databases s !! key with
  | Some (Some a) => let '(r, a) := handle_export a in (r, set_duck_databases (<[key := Some a]> (duck_databases s)) s)
  | _ => (Err actor_not_available, s)
  end.

Definition duck_discard_local_state (s : DuckDbService) (key : string * string) : DuckDbService :=
  mkDuckDbService (delete key (duck_databases s)) (delete key (duck_cache s)) (duck_artifacts s).

Definition duck_save (env : DuckEnv) (s : DuckDbService) (key : string * string) (payload : string) : result DuckDbError DuckDbService :=
  match dv_save env with
  | Some e => Err (DInternal e)
  | None =>
      '(_, arts) ← map_err (λ _, DInternal "artifact payload too large") (tracked_save (dv_now env) (duck_artifacts s) "duckdb" key.1 key.2 payload);
      Ok (mkDuckDbService (duck_databases s) (duck_cache s) arts)
  end.

(** The export and the save after a write. *)
Definition duck_persist (env : DuckEnv) (s : DuckDbService) (key : string * string) : result DuckDbError unit * DuckDbService :=
  match duck_send_export (duck_end_actor (dv_export env) s key) key with
  | (Err e, s) => (Err e, duck_discard_local_state s key)
  | (Ok payload, s) =>
      match duck_save env s key payload with
      | Err e => (Err e, duck_discard_local_state s key)
      | Ok s => (Ok tt, s)
      end
  end.

Definition duck_service_execute (env : DuckEnv) (s : DuckDbService) (space : SpaceId) (db_name : string) (request : DuckDbRequest)
    (caveats : option DuckDbCaveats) (ability : string) (arrow_format : bool) : result DuckDbError DuckDbExecutionResult * DuckDbService :=
  match validate_db_name db_name with
  | Err e => (Err e, s)
  | Ok _ =>
      let key := (space_to_string space, db_name) in
      match duck_handle env s key with
      | (Err e, s) => (Err e, s)
      | (Ok _, s) =>
          match duck_send_execute (duck_end_actor (dv_send env) s key) key request caveats ability arrow_format with
          | (Err e, s) => (Err e, s)
          | (Ok res, s) =>
              match de_targets res with
              | [] => (Ok res, s)
              | _ :: _ => match duck_persist env s key with (Err e, s) => (Err e, s) | (Ok _, s) => (Ok res, s) end
              end
          end
      end
  end.

Definition duck_service_export (env : DuckEnv) (s : DuckDbService) (space : SpaceId) (db_name : string) : result DuckDbError string * DuckDbService :=
  match validate_db_name db_name with
  | Err e => (Err e, s)
  | Ok _ =>
      let key := (space_to_string space, db_name) in
      match duck_databases s !! key with
      | Some _ => duck_send_export (duck_end_actor (dv_export env) s key) key
      | None =>
          match duck_load env s key with
          | Err e => (Err e, s)
          | Ok None => (Err DDatabaseNotFound, s)
          | Ok (Some payload) => (Ok payload, set_duck_cache (<[key := payload]> (duck_cache s)) s)
          end
      end
  end.

(** The file is opened once before it takes the place of the database. *)
Definition validate_import (data : string) : result DuckDbError DConn :=
  c ← map_err (λ e, DImportError ("Invalid DuckDB file: " +:+ e)) (duck_open (Some data));
  c ← apply_security_settings c max_memory;
  let '(r, c) := duck_execute_batch c "SELECT 1" in
  _ ← map_err (λ e, DImportError ("Database validation failed: " +:+ e)) r;
  Ok c.

Definition duck_import_db (env : DuckEnv) (s : DuckDbService) (space : SpaceId) (db_name data : string) : result DuckDbError unit * DuckDbService :=
  match (_ ← validate_db_name db_name; validate_import data) with
  | Err e => (Err e, s)
  | Ok c =>
      let key := (space_to_string space, db_name) in
      let s := mkDuckDbService (delete key (duck_databases s)) (<[key := duck_file c]> (duck_cache s)) (duck_artifacts s) in
      match duck_save env s key data with
      | Err e => (Err e, duck_discard_local_state s key)
      | Ok s => (Ok tt, s)
      end
  end.

End Service.

(** ** What is assumed of the engine *)

(** Statements that begin or end a transaction. *)
Fixpoint touches_transaction (stmt : DStatement) : bool :=
  match stmt with
  | DSStartTransaction | DSCommit | DSRollback => true
  | DSExplain _ stmt => touches_transaction stmt
  | _ => false
  end.

Definition transaction_free `{DuckParse} (sql : string) : bool :=
  match duck_parse_sql sql with Ok stmts => forallb (negb ∘ touches_transaction) stmts | Err _ => false end.

(** [content] is all that a connection sees, [open_tx] what a rollback goes back to
    while a transaction is open.  [catalog] lists the base tables with the statement
    that made them and their rows; a [plain_table] is made by its statement alone,
    without the types, sequences or tables it may refer to. *)
Class DuckLaws `{!DuckDb} `{DuckParse} := {
  Content : Type;
  content : DConn → Content;
  open_tx : DConn → option Content;
  tx_begin c r c' : duck_execute_batch c "BEGIN TRANSACTION;" = (r, c') →
    content c' = content c ∧ match r with Ok _ => open_tx c = None ∧ open_tx c' = Some (content c) | Err _ => open_tx c' = open_tx c end;
  tx_commit c m r c' : open_tx c = Some m → duck_execute_batch c "COMMIT;" = (r, c') →
    open_tx c' = None ∧ content c' = if is_ok r then content c else m;
  tx_rollback c m : open_tx c = Some m → let c' := (duck_execute_batch c "ROLLBACK;").2 in open_tx c' = None ∧ content c' = m;
  tx_statement c m sql params : open_tx c = Some m → transaction_free sql = true → open_tx (duck_execute c sql params).2 = Some m;

  catalog : DConn → list (string * (string * list Batch));
  plain_table : string → string → Prop;
  catalog_names c : duck_text_rows c TABLE_NAMES [] = Ok (map (λ t, [t.1]) (catalog c));
  catalog_distinct c : NoDup (catalog c).*1;
  catalog_ddl c t ddl rows : (t, (ddl, rows)) ∈ catalog c → duck_text_rows c (table_ddl_query t) [] = Ok [[ddl]];
  catalog_rows c t ddl rows : (t, (ddl, rows)) ∈ catalog c → duck_batches c (table_rows_query t) = Ok rows;
  table_created c t ddl : plain_table t ddl → t ∉ (catalog c).*1 → open_tx c = None →
    ∃ c', duck_execute_batch c ddl = (Ok tt, c') ∧ catalog c' = catalog c ++ [(t, (ddl, []))] ∧ open_tx c' = None;
  table_appender c t : t ∈ (catalog c).*1 → duck_appender c t = Ok tt;
  table_appended c l t ddl rows b : catalog c = l ++ [(t, (ddl, rows))] → open_tx c = None →
    ∃ c', duck_append c t b = (Ok tt, c') ∧ catalog c' = l ++ [(t, (ddl, rows ++ [b]))] ∧ open_tx c' = None;
  view_texts c : ∃ views, duck_text_rows c VIEW_TEXTS [] = Ok (map (λ v, [v.1; v.2]) views) ∧
    ∀ c' v, v ∈ views → open_tx c' = None → catalog (duck_execute_batch c' v.2).2 = catalog c' ∧ open_tx (duck_execute_batch c' v.2).2 = None;
  new_file c : duck_open None = Ok c → catalog c = [] ∧ open_tx c = None;
  closed_file c c' : open_tx c = None → duck_open (Some (duck_file c)) = Ok c' → catalog c' = catalog c;
  checkpointed_file c c1 c' : duck_execute_batch c "CHECKPOINT;" = (Ok tt, c1) → duck_open (Some (duck_file c1)) = Ok c' → catalog c' = catalog c1;
}.

(** ** A transactional batch is all or nothing *)

Section Transactions.
Context `{DuckLaws} `{Uppercase} `{DuckText} `{RowOrder}.

Lemma run_batch_tx stmts : ∀ c m results, open_tx c = Some m → forallb (λ s, transaction_free (ds_sql s)) stmts = true →
  let '(r, c') := duck_run_batch c stmts results in
  open_tx c' = Some m ∧ ∀ l, r = Ok l → length l = length results + length stmts.
Proof.
  induction stmts as [|stmt stmts IH]; intros c m results Htx Hfree; cbn [duck_run_batch].
  { split; [done|]. intros l [= <-]. cbn. lia. }
  cbn [forallb] in Hfree. apply andb_true_iff in Hfree as [Hf Hfree]. unfold duck_execute_statement.
  pose proof (tx_statement c m (ds_sql stmt) (bound (ds_params stmt)) Htx Hf) as Ht. destruct (duck_execute c _ _) as [[n|e] c1]; cbn [map_err snd] in *; [|done].
  specialize (IH c1 m (results ++ [n]) Ht Hfree). destruct (duck_run_batch c1 stmts _) as [r c2]. destruct IH as [Htx2 Hl]. split; [done|].
  intros l Hr. rewrite (Hl l Hr), length_app. cbn. lia.
Qed.

(** C16: a transactional batch is all or nothing.  If none of its statements begins or ends
    a transaction, a batch that is refused or fails at any statement or at the commit
    leaves the database and the connection's transaction as they were; one that succeeds
    ran every statement and leaves no transaction open. *)
Theorem transactional_batch_atomic (c : DConn) (stmts : list DuckDbStatement) (caveats : option DuckDbCaveats) (ability : string) (arrow : bool) :
  forallb (λ s, transaction_free (ds_sql s)) stmts = true →
  match duck_handle_message c (DrBatch stmts true) caveats ability arrow with
  | (Err _, c') => content c' = content c ∧ open_tx c' = open_tx c
  | (Ok res, c') => open_tx c' = None ∧ ∃ l, de_response res = DuckBatchAnswer l ∧ length l = length stmts
  end.
Proof.
  intros Hfree. unfold duck_handle_message. destruct (try_map _ stmts) as [parsed|e]; [|done]. unfold execute_batch_transactional.
  destruct (duck_execute_batch c "BEGIN TRANSACTION;") as [[[]|e] c1] eqn:Hb; apply tx_begin in Hb as [Hc1 Ht1]; [|by cbn]. destruct Ht1 as [Ht0 Ht1].
  pose proof (run_batch_tx stmts c1 _ [] Ht1 Hfree) as Hrun. destruct (duck_run_batch c1 stmts []) as [[l|e] c2]; destruct Hrun as [Ht2 Hl].
  - destruct (duck_execute_batch c2 "COMMIT;") as [[[]|e] c3] eqn:Hcm; destruct (tx_commit _ _ _ _ Ht2 Hcm) as [Ht3 Hc3]; cbn in *.
    + split; [done|]. exists l. split; [done|]. by apply Hl.
    + by rewrite Ht0.
  - destruct (tx_rollback _ _ Ht2) as [Ht3 Hc3]. cbn. by rewrite Ht0.
Qed.

End Transactions.

(** ** Copies and durability *)

Section Durability.
Context `{DuckLaws} `{Uppercase} `{DuckText} `{RowOrder} `{Blake3} `{CidLib} (memory_threshold : N) (max_memory : string).
Notation duck_service_execute := (duck_service_execute memory_threshold max_memory).

Definition plain_catalog (c : DConn) : Prop := Forall (λ t, plain_table t.1 t.2.1) (catalog c).

Lemma one_column_names {A} (l : list (string * A)) : one_column (map (λ t, [t.1]) l) = Ok l.*1.
Proof. unfold one_column. induction l as [|[t x] l IH]; [done|]. cbn [map try_map fst]. by rewrite IH. Qed.

Lemma two_columns_pairs (l : list (string * string)) : two_columns (map (λ v, [v.1; v.2]) l) = Ok l.
Proof. unfold two_columns. induction l as [|[a b] l IH]; [done|]. cbn [map try_map fst snd]. by rewrite IH. Qed.

Lemma append_batches_catalog l t ddl batches : ∀ dest rows,
  catalog dest = l ++ [(t, (ddl, rows))] → open_tx dest = None →
  ∃ dest', append_batches dest t batches = (Ok tt, dest') ∧ catalog dest' = l ++ [(t, (ddl, rows ++ batches))] ∧ open_tx dest' = None.
Proof.
  induction batches as [|b batches IH]; intros dest rows Hc Ht; cbn [append_batches].
  { exists dest. by rewrite app_nil_r. }
  destruct (table_appended dest l t ddl rows b Hc Ht) as (d1 & -> & Hc1 & Ht1).
  destruct (IH d1 _ Hc1 Ht1) as (d2 & -> & Hc2 & Ht2). exists d2. by rewrite <- app_assoc in Hc2.
Qed.

Lemma copy_table_catalog src dest t ddl rows :
  (t, (ddl, rows)) ∈ catalog src → plain_table t ddl → t ∉ (catalog dest).*1 → open_tx dest = None →
  ∃ dest', copy_table src dest t = (Ok tt, dest') ∧ catalog dest' = catalog dest ++ [(t, (ddl, rows))] ∧ open_tx dest' = None.
Proof.
  intros Hin Hp Hn Ht. unfold copy_table. rewrite (catalog_ddl _ _ _ _ Hin). cbn [mbind result_bind first_text map_err].
  destruct (table_created dest t ddl Hp Hn Ht) as (d1 & -> & Hc1 & Ht1). rewrite (catalog_rows _ _ _ _ Hin).
  rewrite table_appender by (rewrite Hc1, fmap_app; apply elem_of_app; right; by left). cbn [map_err mbind result_bind].
  apply (append_batches_catalog (catalog dest) t ddl rows d1 [] Hc1 Ht1).
Qed.

Lemma copy_each_catalog src (l : list (string * (string * list Batch))) : ∀ dest,
  l ⊆ catalog src → NoDup l.*1 → Forall (λ t, plain_table t.1 t.2.1) l → (∀ t, t ∈ l.*1 → t ∉ (catalog dest).*1) → open_tx dest = None →
  ∃ dest', copy_each src dest l.*1 = (Ok tt, dest') ∧ catalog dest' = catalog dest ++ l ∧ open_tx dest' = None.
Proof.
  induction l as [|[t [ddl rows]] l IH]; intros dest Hsub Hnd Hp Hn Ht; cbn [copy_each fmap list_fmap fst].
  { exists dest. by rewrite app_nil_r. }
  cbn [fmap list_fmap fst] in Hnd. apply NoDup_cons in Hnd as [Htl Hnd]. apply Forall_cons in Hp as [Hpt Hp].
  destruct (copy_table_catalog src dest t ddl rows) as (d1 & -> & Hc1 & Ht1); [apply Hsub; by left|done|apply Hn; by left|done|].
  destruct (IH d1) as (d2 & -> & Hc2 & Ht2); [set_solver|done|done| |done|].
  { intros x Hx. rewrite Hc1, fmap_app, elem_of_app. intros [Hd|Hd%list_elem_of_singleton]; [|cbn in Hd; by subst].
    apply (Hn x); [by right|done]. }
  exists d2. split_and!; [done| |done]. rewrite Hc2, Hc1. by rewrite <- app_assoc.
Qed.

(** A copy into a new database has the same tables with the same rows, if each of
    them is made by its statement alone. *)
Lemma copy_tables_catalog src dest :
  plain_catalog src → catalog dest = [] → open_tx dest = None →
  ∃ dest', copy_tables src dest = (Ok tt, dest') ∧ catalog dest' = catalog src ∧ open_tx dest' = None.
Proof.
  intros Hp Hc Ht. unfold copy_tables. rewrite catalog_names.
  cbn [mbind result_bind]. rewrite one_column_names. cbn [map_err].
  destruct (copy_each_catalog src (catalog src) dest) as (d1 & -> & Hc1 & Ht1); [done|apply catalog_distinct|done| |done|].
  { intros t _. rewrite Hc. apply not_elem_of_nil. }
  destruct (view_texts src) as (views & -> & Hv). cbn [mbind result_bind]. rewrite two_columns_pairs. cbn [map_err].
  eexists. split; [done|]. rewrite Hc in Hc1. cbn in Hc1. rewrite <- Hc1. clear Hc1. revert d1 Ht1. induction views as [|v views IH]; intros d1 Ht1; [done|].
  cbn [foldl]. destruct (Hv d1 v) as [Hcv Htv]; [by left|done|]. rewrite <- Hcv. apply IH; [|done]. intros c' v' Hin. apply Hv. by right.
Qed.

(** The exported bytes hold the tables of the connection. *)
Lemma handle_export_catalog a payload a' c' :
  handle_export a = (Ok payload, a') → plain_catalog (da_conn a') → duck_open (Some payload) = Ok c' → catalog c' = catalog (da_conn a').
Proof.
  unfold handle_export. destruct (da_mode a).
  - destruct (duck_open None) as [dest|e] eqn:Ho; cbn [map_err]; [|done]. apply new_file in Ho as [Hc Ht]. destruct (copy_tables (da_conn a) dest) as [r d] eqn:Hcp.
    intros [= Hr <-] Hp Hopen. destruct (copy_tables_catalog (da_conn a) dest Hp Hc Ht) as (d' & Heq & Hc' & Ht'). rewrite Heq in Hcp. simplify_eq.
    cbn in Hr. simplify_eq. rewrite <- Hc'. by apply closed_file.
  - destruct (duck_execute_batch (da_conn a) "CHECKPOINT;") as [[[]|e] c1] eqn:Hcp; cbn; [|done]. intros [= <- <-] _ Hopen. by eapply checkpointed_file.
Qed.

Definition duck_durable (s : DuckDbService) (key : string * string) : option string := a_payload <$> load (duck_artifacts s).1 "duckdb" key.1 key.2.

Lemma duck_handle_artifacts env s key : duck_artifacts (duck_handle max_memory env s key).2 = duck_artifacts s.
Proof.
  unfold duck_handle. destruct (duck_databases s !! key); [done|]. unfold duck_hydrate_cache. destruct (duck_load env s key); cbn; [|done].
  by destruct (duck_spawn_actor _ _ _).
Qed.

Lemma duck_end_actor_artifacts f s key : duck_artifacts (duck_end_actor f s key) = duck_artifacts s.
Proof. unfold duck_end_actor. destruct f, (duck_databases s !! key) as [[a|]|]; try done; by destruct (da_mode a). Qed.

Lemma duck_send_artifacts s key request caveats ability arrow :
  duck_artifacts (duck_send_execute memory_threshold max_memory s key request caveats ability arrow).2 = duck_artifacts s.
Proof. unfold duck_send_execute. destruct (duck_databases s !! key) as [[a|]|]; [|done..]. by destruct (duck_actor_execute _ _ _ _ _ _ _) as [[r a'] f]. Qed.

(** A save changes the artifact of its database alone. *)
Lemma duck_save_only env s key payload s' k :
  duck_save env s key payload = Ok s' → k ≠ ("duckdb", key.1, key.2) → (duck_artifacts s').1 !! k = (duck_artifacts s).1 !! k.
Proof.
  unfold duck_save. destruct (dv_save env); [done|]. intros Hs Hk. apply bind_Ok in Hs as ([row arts] & Hsave%map_err_Ok & [= <-]).
  apply bind_Ok in Hsave as ([row' t] & Hsave & [= _ <-]). apply bind_Ok in Hsave as (? & _ & [= _ <-]). cbn. by rewrite lookup_insert_ne.
Qed.

Lemma duck_send_export_artifacts s key : duck_artifacts (duck_send_export s key).2 = duck_artifacts s.
Proof. unfold duck_send_export. destruct (duck_databases s !! key) as [[a|]|]; [|done..]. by destruct (handle_export a). Qed.

Lemma duck_persist_only env s key s' k :
  duck_persist env s key = (Ok tt, s') → k ≠ ("duckdb", key.1, key.2) → (duck_artifacts s').1 !! k = (duck_artifacts s).1 !! k.
Proof.
  unfold duck_persist. pose proof (duck_end_actor_artifacts (dv_export env) s key) as Ha. set (s1 := duck_end_actor _ s key) in *. clearbody s1.
  pose proof (duck_send_export_artifacts s1 key) as He.
  destruct (duck_send_export s1 key) as [[payload|e] s2]; [|done]. cbn [snd] in He. destruct (duck_save env s2 key payload) as [s3|e] eqn:Hs; [|done].
  intros [= <-] Hk. rewrite (duck_save_only _ _ _ _ _ _ Hs Hk). congruence.
Qed.

(** A write that cannot be saved leaves the artifacts, and no actor. *)
Lemma duck_persist_refused env s key e s' :
  duck_persist env s key = (Err e, s') → duck_artifacts s' = duck_artifacts s ∧ duck_databases s' !! key = None.
Proof.
  unfold duck_persist. pose proof (duck_end_actor_artifacts (dv_export env) s key) as Ha. set (s1 := duck_end_actor _ s key) in *. clearbody s1.
  pose proof (duck_send_export_artifacts s1 key) as He. destruct (duck_send_export s1 key) as [[payload|e1] s2]; cbn [snd] in He.
  - destruct (duck_save env s2 key payload); [done|]. intros [= <- <-]. split; [cbn; congruence|apply lookup_delete_eq].
  - intros [= <- <-]. split; [cbn; congruence|apply lookup_delete_eq].
Qed.

Lemma duck_persist_saved env s key s' :
  duck_persist env s key = (Ok tt, s') →
  ∃ a payload, duck_databases s' !! key = Some (Some a) ∧ duck_durable s' key = Some payload ∧
    (plain_catalog (da_conn a) → ∀ c, duck_open (Some payload) = Ok c → catalog c = catalog (da_conn a)).
Proof.
  unfold duck_persist, duck_send_export. set (s1 := duck_end_actor _ _ _). clearbody s1. destruct (duck_databases s1 !! key) as [[a|]|]; [|done..].
  destruct (handle_export a) as [[payload|e] a'] eqn:Hex; [|done]. set (s2 := set_duck_databases _ s1).
  destruct (duck_save env s2 key payload) as [s3|e] eqn:Hs; [|done]. intros [= <-].
  unfold duck_save in Hs. destruct (dv_save env); [done|]. apply bind_Ok in Hs as ([row arts] & Hsave%map_err_Ok & [= <-]). cbn [duck_databases].
  unfold tracked_save in Hsave. apply bind_Ok in Hsave as ([row' t] & Hsave & [= _ <-]). unfold save in Hsave.
  apply bind_Ok in Hsave as (? & _ & [= _ <-]). exists a', payload. split_and!.
  - apply lookup_insert_eq.
  - unfold duck_durable, load. cbn [duck_artifacts fst]. by rewrite lookup_insert_eq.
  - intros Hp c Hc. by eapply handle_export_catalog.
Qed.

Lemma duck_send_message s key request caveats ability arrow :
  match duck_send_execute memory_threshold max_memory s key request caveats ability arrow with
  | (Ok res, _) => ∃ c c', duck_handle_message c request caveats ability arrow = (Ok res, c')
  | (Err _, _) => True
  end.
Proof.
  unfold duck_send_execute. destruct (duck_databases s !! key) as [[a|]|]; [|done..]. unfold duck_actor_execute.
  destruct (duck_handle_message (da_conn a) request caveats ability arrow) as [[res|e] c'] eqn:Hm.
  - repeat case_match; simplify_eq; eauto.
  - by repeat case_match; simplify_eq.
Qed.


(** What an answered request did: a message of its own to a connection, and an export
    if it wrote. *)
Lemma duck_service_cases env s space db_name request caveats ability arrow :
  let key := (space_to_string space, db_name) in
  match duck_service_execute env s space db_name request caveats ability arrow with
  | (Err _, s') => duck_artifacts s' = duck_artifacts s
  | (Ok res, s') =>
      (∃ c c', duck_handle_message c request caveats ability arrow = (Ok res, c')) ∧
      if decide (de_targets res = []) then duck_artifacts s' = duck_artifacts s else ∃ s2, duck_artifacts s2 = duck_artifacts s ∧ duck_persist env s2 key = (Ok tt, s')
  end.
Proof.
  intros key. unfold DuckService.duck_service_execute. fold key. destruct (validate_db_name db_name); [|done].
  pose proof (duck_handle_artifacts env s key) as Ha. destruct (duck_handle max_memory env s key) as [[[]|e] s1]; cbn [snd] in Ha; [|done].
  pose proof (duck_send_artifacts (duck_end_actor (dv_send env) s1 key) key request caveats ability arrow) as Hs. rewrite duck_end_actor_artifacts, Ha in Hs.
  pose proof (duck_send_message (duck_end_actor (dv_send env) s1 key) key request caveats ability arrow) as Hm.
  destruct (duck_send_execute _ _ _ _ _ _ _ _) as [[res|e] s2]; cbn [snd] in Hs; [|done]. destruct (de_targets res) as [|t ts] eqn:Ht; [by rewrite Ht|].
  destruct (duck_persist env s2 key) as [[[]|e] s3] eqn:Hps.
  - rewrite Ht. split; [done|]. by exists s2.
  - apply duck_persist_refused in Hps as [-> _]. done.
Qed.

(** The request was run by the actor and names a table it writes. *)
Definition ran_a_write (env : DuckEnv) (s : DuckDbService) (key : string * string) (request : DuckDbRequest)
    (caveats : option DuckDbCaveats) (ability : string) (arrow : bool) : Prop :=
  ∃ s1 res s2, duck_handle max_memory env s key = (Ok tt, s1) ∧
    duck_send_execute memory_threshold max_memory (duck_end_actor (dv_send env) s1 key) key request caveats ability arrow = (Ok res, s2) ∧
    de_targets res ≠ [].

(** A database without an actor is opened from its artifact. *)
Lemma duck_handle_reopens env s key s' :
  duck_databases s !! key = None → duck_handle max_memory env s key = (Ok tt, s') →
  ∃ c mode, open_connection (duck_durable s key) max_memory = Ok c ∧ duck_databases s' !! key = Some (Some (mkDuckActor c mode)).
Proof.
  intros Hn. unfold duck_handle, duck_hydrate_cache, duck_load. rewrite Hn. destruct (dv_load env); [done|]. rewrite bind_ret_l.
  fold (duck_durable s key). set (s1 := set_duck_cache _ s). unfold duck_spawn_actor.
  assert (duck_cache s1 !! key = duck_durable s key) as ->.
  { subst s1. cbn. destruct (duck_durable s key); [apply lookup_insert_eq|apply lookup_delete_eq]. }
  destruct (open_connection _ max_memory) as [c|e]; [|done]. rewrite bind_ret_l. intros [= <-].
  eexists c, _. split; [done|]. apply lookup_insert_eq.
Qed.

Lemma duck_unsaved env s space db_name request caveats ability arrow e s' :
  let key := (space_to_string space, db_name) in
  duck_service_execute env s space db_name request caveats ability arrow = (Err e, s') → validate_db_name db_name = Ok tt →
  ran_a_write env s key request caveats ability arrow → duck_databases s' !! key = None.
Proof.
  intros key Hx Hv (s1 & res & s2 & Hh & Hs & Ht). unfold DuckService.duck_service_execute in Hx. fold key in Hx. rewrite Hv, Hh, Hs in Hx.
  destruct (de_targets res); [done|]. destruct (duck_persist env s2 key) as [[[]|e'] s3] eqn:Hp; [done|]. simplify_eq. by eapply duck_persist_refused.
Qed.

(** C14: an acknowledged write to a table is durable.  A request that fails, or for which
    the parser names no table it writes, leaves the saved artifacts alone.  When a request
    that names a table it writes is answered, its database has an artifact, and the
    connection the next request will see is there; the artifact, when it opens, has the
    tables of that connection with their rows, provided these tables are plain, each made
    by the statement stored for it without types, sequences or other tables (indexes are
    not part of this).  When such a request ran and could not be saved it fails, the
    connection is gone, and the next one is opened from the artifact. *)
Theorem duck_acknowledged_durable (env : DuckEnv) (s : DuckDbService) (space : SpaceId) (db_name : string) (request : DuckDbRequest)
    (caveats : option DuckDbCaveats) (ability : string) (arrow : bool) :
  let key := (space_to_string space, db_name) in
  match duck_service_execute env s space db_name request caveats ability arrow with
  | (Err _, s') =>
      duck_artifacts s' = duck_artifacts s ∧
      (validate_db_name db_name = Ok tt → ran_a_write env s key request caveats ability arrow →
       duck_databases s' !! key = None ∧
       ∀ env' s2, duck_handle max_memory env' s' key = (Ok tt, s2) →
         ∃ c mode, open_connection (duck_durable s key) max_memory = Ok c ∧ duck_databases s2 !! key = Some (Some (mkDuckActor c mode)))
  | (Ok res, s') =>
      if decide (de_targets res = []) then duck_artifacts s' = duck_artifacts s
      else ∃ a payload, duck_databases s' !! key = Some (Some a) ∧ duck_durable s' key = Some payload ∧
             (plain_catalog (da_conn a) → ∀ c, duck_open (Some payload) = Ok c → catalog c = catalog (da_conn a))
  end.
Proof.
  intros key. pose proof (duck_service_cases env s space db_name request caveats ability arrow) as Hc. cbv zeta in Hc. fold key in Hc.
  destruct (duck_service_execute _ _ _ _ _ _ _ _) as [[res|e] s'] eqn:Hx.
  - destruct Hc as [_ Hc]. case_decide; [done|]. destruct Hc as (s2 & _ & Hp). by eapply duck_persist_saved.
  - split; [done|]. intros Hv Hw. pose proof (duck_unsaved _ _ _ _ _ _ _ _ _ _ Hx Hv Hw) as Hn. split; [done|].
    intros env' s2 Hh. assert (duck_durable s key = duck_durable s' key) as -> by (unfold duck_durable; by rewrite Hc). by eapply duck_handle_reopens.
Qed.

End Durability.

(** ** Names, settings and answers *)

Lemma existsb_false_iff {A} (f : A → bool) l : existsb f l = false ↔ ∀ x, x ∈ l → f x = false.
Proof.
  induction l as [|y l IH]; cbn; [split; [intros _ x ?%not_elem_of_nil; done|done]|]. rewrite orb_false_iff, IH. split.
  - intros [Hy Hl] x [->|Hx]%elem_of_cons; [done|by apply Hl].
  - intros Hall. split; [apply Hall; by left|]. intros x Hx. apply Hall. by right.
Qed.

Lemma concat_contains c l : contains_char c (String.concat "" l) = existsb (contains_char c) l.
Proof.
  induction l as [|x l IH]; [done|]. cbn [existsb]. destruct l as [|y l]; [cbn; by rewrite orb_false_r|].
  change (String.concat "" (x :: y :: l)) with (x +:+ "" +:+ String.concat "" (y :: l)). by rewrite !contains_char_app, IH.
Qed.

Lemma concat_chars s : String.concat "" (chars s) = s.
Proof.
  induction s as [|c s IH]; [done|]. cbn [chars]. destruct (chars s) as [|[|d w] ws] eqn:Hc.
  - cbn in *. by subst.
  - change (String.concat "" (String c "" :: "" :: ws)) with (String c (String.concat "" ("" :: ws))). by rewrite IH.
  - destruct (is_continuation d).
    + destruct ws as [|y ws]; cbn in *; by rewrite <- IH.
    + change (String.concat "" (String c "" :: String d w :: ws)) with (String c (String.concat "" (String d w :: ws))). by rewrite IH.
Qed.

Lemma trim_start_rest p x l : x ∈ l → p x = true ∨ x ∈ trim_start_chars p l.
Proof.
  induction l as [|y l IH]; [by intros ?%not_elem_of_nil|]. cbn [trim_start_chars]. intros Hx. destruct (p y) eqn:Hy; [|by right].
  apply elem_of_cons in Hx as [->|Hx]; [by left|by apply IH].
Qed.

Lemma trim_contains c s : forallb (negb ∘ contains_char c) unicode_whitespace = true → contains_char c (trim s) = false → contains_char c s = false.
Proof.
  intros Hws. unfold trim, trim_end_chars. rewrite concat_contains. rewrite <- (concat_chars s) at 2. rewrite concat_contains. intros Ht.
  apply existsb_false_iff. intros x Hx. assert (is_whitespace x = true → contains_char c x = false) as Hblank.
  { unfold is_whitespace. intros Hw%bool_decide_eq_true%list_elem_of_In. rewrite forallb_forall in Hws. by apply Hws, negb_true_iff in Hw. }
  destruct (trim_start_rest is_whitespace x (chars s) Hx) as [Hw|Hx1]; [by apply Hblank|].
  rewrite <- elem_of_rev in Hx1. destruct (trim_start_rest is_whitespace x _ Hx1) as [Hw|Hx2]; [by apply Hblank|].
  rewrite existsb_false_iff in Ht. apply Ht. by rewrite elem_of_rev.
Qed.

(** The memory limit cannot leave the quotes it is written in. *)
Theorem max_memory_quoted (value : string) : validate_max_memory value = Ok tt → contains_char "'" value = false.
Proof.
  intros Hv. apply bind_Ok in Hv as (? & _ & Hv%ensure_Ok). apply trim_contains; [by vm_compute|].
  induction (trim value) as [|a s IH]; [done|]. cbn [forall_char] in Hv. apply andb_true_iff in Hv as [Ha Hs]. rewrite contains_char_cons, IH by done.
  rewrite bool_decide_eq_false_2; [done|]. by intros ->.
Qed.

(** A database's file is in the directory of its space: its name is no path. *)
Theorem db_name_confined (path : option string) :
  let name := duck_db_name_from_path path in
  validate_db_name name = Ok tt ∧ name ≠ "" ∧ contains_char "/" name = false ∧ contains_str ".." name = false.
Proof.
  assert (∀ name, validate_db_name name = Ok tt → name ≠ "" ∧ contains_char "/" name = false ∧ contains_str ".." name = false) as Hspec.
  { intros name Hv%ensure_Ok%negb_true_iff. rewrite !orb_false_iff in Hv. destruct Hv as [[[[Hd Hs] _] _] Hn%bool_decide_eq_false]. done. }
  unfold duck_db_name_from_path. destruct path as [p|]; [|by vm_compute]. destruct (validate_db_name (List.last (split_char "/" p) "default")) as [[]|e] eqn:Hv; cbn [is_ok].
  - split; [done|by apply Hspec].
  - by vm_compute.
Qed.

Section Answers.
Context `{!DuckDb} `{DuckText} `{RowOrder}.

Definition rows_size (rows : list (list DuckDbValue)) : N := foldr (λ r n, row_size r + n)%N 0%N rows.

(** The answers that bring these rows, and the values made of them. *)
Definition arriving (raws : list (list RawValue)) : list (result string (list (result string RawValue))) := map (λ r, Ok (map Ok r)) raws.
Definition read_rows (raws : list (list RawValue)) : list (list DuckDbValue) := map (map from_raw) raws.

Lemma row_values_all (raw : list RawValue) : row_values (length raw) (map Ok raw) = Ok (map from_raw raw).
Proof.
  unfold row_values. apply try_map_Ok. apply Forall2_same_length_lookup_2; [by rewrite length_seq, length_map|].
  intros i k v Hk Hv.
  apply lookup_seq in Hk as [-> Hi]. change (map from_raw raw) with (from_raw <$> raw) in Hv. apply list_lookup_fmap_Some in Hv as (x & -> & Hx).
  change (map Ok raw) with (Ok (E := string) <$> raw). rewrite list_lookup_fmap. cbn. by rewrite Hx.
Qed.

Lemma collect_rows_exact columns (raws : list (list RawValue)) : ∀ rows size,
  Forall (λ r, length r = columns) raws → (size ≤ MAX_DUCK_RESPONSE_SIZE)%N →
  let all := read_rows raws in
  if (size + rows_size all <=? MAX_DUCK_RESPONSE_SIZE)%N
  then collect_rows columns (arriving raws) rows size = Ok (rows ++ all)
  else ∃ n, collect_rows columns (arriving raws) rows size = Err (DResponseTooLarge n).
Proof.
  induction raws as [|raw raws IH]; intros rows size Hlen Hsize; cbv zeta.
  { change (rows_size (read_rows [])) with 0%N. change (arriving []) with (@nil (result string (list (result string RawValue)))). cbn [collect_rows]. change (read_rows []) with (@nil (list DuckDbValue)). rewrite N.add_0_r, (proj2 (N.leb_le _ _) Hsize). by rewrite app_nil_r. }
  change (arriving (raw :: raws)) with (Ok (E := string) (map (Ok (E := string)) raw) :: arriving raws).
  change (read_rows (raw :: raws)) with (map from_raw raw :: read_rows raws). cbn [collect_rows rows_size foldr].
  apply Forall_cons in Hlen as [Hr Hlen]. subst columns. cbn [map_err]. rewrite bind_ret_l, row_values_all, bind_ret_l. fold (rows_size (read_rows raws)).
  rewrite N.add_assoc. destruct (N.ltb_spec MAX_DUCK_RESPONSE_SIZE (size + row_size (map from_raw raw))) as [Hbig|Hfit]; cbn [negb ensure].
  - rewrite (proj2 (N.leb_gt _ _)) by lia. by eexists.
  - rewrite bind_ret_l. specialize (IH (rows ++ [map from_raw raw]) (size + row_size (map from_raw raw))%N Hlen Hfit). cbv zeta in IH.
    destruct (_ <=? _)%N; [by rewrite IH, <- app_assoc|done].
Qed.

(** An answer is complete or refused: when all rows arrive, the answer holds them all
    if their estimated size is within ten mebibytes, and otherwise is too large. *)
Theorem duck_query_exact (c c' : DConn) (sql : string) (params : list DuckDbValue) (columns : list string) (raws : list (list RawValue)) :
  duck_query c sql (bound params) = (Ok (columns, arriving raws), c') → Forall (λ r, length r = length columns) raws →
  let rows := read_rows raws in
  if (rows_size rows <=? MAX_DUCK_RESPONSE_SIZE)%N
  then duck_execute_query c sql params = (Ok (mkDuckQueryResponse columns rows (N.of_nat (length rows))), c')
  else ∃ n, duck_execute_query c sql params = (Err (DResponseTooLarge n), c').
Proof.
  intros Hq Hlen. cbv zeta. unfold duck_execute_query. rewrite Hq. cbn [map_err].
  pose proof (collect_rows_exact (length columns) raws [] 0 Hlen ltac:(done)) as Hc. cbv zeta in Hc. rewrite N.add_0_l in Hc. cbn [app] in Hc.
  destruct (_ <=? _)%N.
  - by rewrite bind_ret_l, Hc.
  - destruct Hc as (n & Hc). exists n. by rewrite bind_ret_l, Hc.
Qed.

End Answers.

(** A database whose actor panicked stays unavailable: its handle is kept, and no
    request starts another actor. *)
Theorem panicked_database_stuck `{!DuckDb} `{DuckParse} `{Uppercase} `{DuckText} `{RowOrder} `{Blake3} `{CidLib} (memory_threshold : N) (max_memory : string)
    (env : DuckEnv) (s : DuckDbService) (space : SpaceId) (db_name : string) (request : DuckDbRequest) (caveats : option DuckDbCaveats) (ability : string) (arrow : bool) :
  duck_databases s !! (space_to_string space, db_name) = Some None → validate_db_name db_name = Ok tt →
  duck_service_execute memory_threshold max_memory env s space db_name request caveats ability arrow = (Err actor_not_available, s) ∧
  duck_service_export env s space db_name = (Err actor_not_available, s).
Proof.
  intros Hd Hn. unfold duck_service_execute, duck_service_export, duck_handle, duck_send_execute, duck_send_export. rewrite Hn. cbv zeta. rewrite Hd.
  assert (∀ f, duck_end_actor f s (space_to_string space, db_name) = s) as He by (intros f; unfold duck_end_actor; rewrite Hd; by destruct f).
  by rewrite !He, Hd.
Qed.

(** ** A small engine *)

Section Mini.

(** A database of tables with one column, the names of its unique indexes, and what
    a rollback goes back to.  It knows the statements of DuckParser's small parser. *)
Record MiniDuck := mkMiniDuck {
  md_tables : list (string * (string * list Z));
  md_indexes : list string;
  md_saved : option (list (string * (string * list Z)) * list string);
}.

Definition mini_catalog (c : MiniDuck) : list (string * (string * list Z)) := if decide (NoDup (md_tables c).*1) then md_tables c else [].

Fixpoint strip_end (suffix s : string) : option string :=
  if decide (s = suffix) then Some "" else match s with "" => None | String c s => String c <$> strip_end suffix s end.

Definition mini_ddl (table : string) : string := "CREATE TABLE " +:+ table +:+ " (id INTEGER)".
Definition created_table (sql : string) : option string := strip_prefix "CREATE TABLE " sql ≫= strip_end " (id INTEGER)".

Fixpoint mini_append (table : string) (x : Z) (l : list (string * (string * list Z))) : list (string * (string * list Z)) :=
  match l with
  | [] => []
  | (t, (ddl, rows)) :: l => if decide (t = table) then (t, (ddl, rows ++ [x])) :: l else (t, (ddl, rows)) :: mini_append table x l
  end.

Definition mini_insert (c : MiniDuck) (table : string) (x : Z) : result string N * MiniDuck :=
  match find (λ t, bool_decide (t.1 = table)) (mini_catalog c) with
  | None => (Err "table does not exist", c)
  | Some (_, (_, rows)) =>
      if negb (bool_decide (md_indexes c = [])) && bool_decide (x ∈ rows) then (Err "duplicate key", c)
      else (Ok 1%N, mkMiniDuck (mini_append table x (mini_catalog c)) (md_indexes c) (md_saved c))
  end.

Definition mini_begin (c : MiniDuck) : result string N * MiniDuck :=
  match md_saved c with
  | None => (Ok 0%N, mkMiniDuck (md_tables c) (md_indexes c) (Some (md_tables c, md_indexes c)))
  | Some _ => (Err "cannot start a transaction within a transaction", c)
  end.
Definition mini_commit (c : MiniDuck) : result string N * MiniDuck :=
  match md_saved c with Some _ => (Ok 0%N, mkMiniDuck (md_tables c) (md_indexes c) None) | None => (Err "no transaction is active", c) end.
Definition mini_rollback (c : MiniDuck) : result string N * MiniDuck :=
  match md_saved c with Some (tables, indexes) => (Ok 0%N, mkMiniDuck tables indexes None) | None => (Err "no transaction is active", c) end.

Definition mini_commands : list (string * (MiniDuck → result string N * MiniDuck)) :=
  [("BEGIN TRANSACTION;", mini_begin); ("BEGIN", mini_begin); ("COMMIT;", mini_commit); ("COMMIT", mini_commit);
   ("ROLLBACK;", mini_rollback); ("ROLLBACK", mini_rollback);
   ("INSERT INTO events VALUES (1)", λ c, mini_insert c "events" 1); ("EXPLAIN ANALYZE INSERT INTO events VALUES (1)", λ c, mini_insert c "events" 1);
   ("CREATE UNIQUE INDEX one ON events (id)", λ c, (Ok 0%N, mkMiniDuck (mini_catalog c) ("one" :: md_indexes c) (md_saved c)));
   ("DROP TABLE events", λ c, (Ok 0%N, mkMiniDuck (List.filter (λ t, negb (bool_decide (t.1 = "events"))) (mini_catalog c)) (md_indexes c) (md_saved c)));
   ("CHECKPOINT;", λ c, if md_saved c then (Err "cannot checkpoint", c) else (Ok 0%N, c));
   ("SELECT id FROM events", λ c, (Ok 0%N, c)); ("SELECT 1", λ c, (Ok 0%N, c))].

Definition mini_run (c : MiniDuck) (sql : string) : result string N * MiniDuck :=
  match created_table sql with
  | Some t =>
      if bool_decide (t ∈ (mini_catalog c).*1) then (Err "table exists", c)
      else (Ok 0%N, mkMiniDuck (mini_catalog c ++ [(t, (sql, []))]) (md_indexes c) (md_saved c))
  | None =>
      match find (λ e, bool_decide (e.1 = sql)) mini_commands with
      | Some (_, f) => f c
      | None => if starts_with "SET " sql then (Ok 0%N, c) else (Err "syntax error", c)
      end
  end.

Definition mini_rows (c : MiniDuck) : result string (list string * list (result string (list (result string RawValue)))) :=
  match find (λ t, bool_decide (t.1 = "events")) (mini_catalog c) with
  | Some (_, (_, rows)) => Ok (["id"], map (λ x, Ok [Ok (RawInt x)]) rows)
  | None => Err "table does not exist"
  end.

#[local] Instance mini_engine : DuckDb := {|
  DConn := MiniDuck;
  Batch := Z;
  duck_open_in_memory := Ok (mkMiniDuck [] [] None);
  duck_open f := match f with
                 | None => Ok (mkMiniDuck [] [] None)
                 | Some bytes => ok_or ('(tables, indexes) ← unbits bytes ≫= decode; Some (mkMiniDuck tables indexes None)) "not a database"
                 end;
  duck_file c := bits (encode (mini_catalog c, md_indexes c));
  duck_query c sql _ := if bool_decide (sql = "SELECT id FROM events") then (mini_rows c, c)
                        else let '(r, c) := mini_run c sql in (_ ← r; Ok ([], []), c);
  duck_query_arrow c sql _ := (Err "no arrow", c);
  duck_execute c sql _ := mini_run c sql;
  duck_execute_batch c sql := let '(r, c) := mini_run c sql in (_ ← r; Ok tt, c);
  duck_text_rows c sql _ :=
    if bool_decide (sql = TABLE_NAMES) then Ok (map (λ t, [t.1]) (mini_catalog c))
    else if bool_decide (sql = VIEW_TEXTS) then Ok []
    else match find (λ t, bool_decide (table_ddl_query t.1 = sql)) (mini_catalog c) with Some (_, (ddl, _)) => Ok [[ddl]] | None => Ok [] end;
  duck_batches c sql := match find (λ t, bool_decide (table_rows_query t.1 = sql)) (mini_catalog c) with Some (_, (_, rows)) => Ok rows | None => Err "table does not exist" end;
  duck_appender c t := ensure (bool_decide (t ∈ (mini_catalog c).*1)) "table does not exist";
  duck_append c t b := let '(r, c) := (Ok tt, mkMiniDuck (mini_append t b (mini_catalog c)) (md_indexes c) (md_saved c)) in (r, c);
  duck_blocks c := Ok (Some 0%Z);
|}.

#[local] Existing Instances demo_duck_parse demo_uppercase.

Lemma strip_end_app suffix t : strip_end suffix (t +:+ suffix) = Some t.
Proof.
  induction t as [|c t IH].
  - change ("" +:+ suffix) with suffix. destruct suffix; cbn [strip_end]; by rewrite decide_True.
  - rewrite append_cons. cbn [strip_end]. rewrite decide_False; [by rewrite IH|]. intros Heq. apply (f_equal String.length) in Heq.
    rewrite <- append_cons, length_append in Heq. cbn in Heq. lia.
Qed.

Lemma created_mini_ddl t : created_table (mini_ddl t) = Some t.
Proof. unfold created_table, mini_ddl. rewrite strip_prefix_app. cbn. apply strip_end_app. Qed.

Lemma double_char_inj a : Inj (=) (=) (double_char a).
Proof.
  intros s. induction s as [|c s IH]; intros [|d t]; cbn [double_char]; [done|by case_decide..|].
  repeat case_decide; intros Heq; simplify_eq; try done; f_equal; by apply IH.
Qed.

Lemma append_cancel_l p s t : p +:+ s = p +:+ t → s = t.
Proof. induction p as [|c p IH]; [done|]. rewrite !append_cons. intros [= ?]. by apply IH. Qed.

Lemma append_cancel_r p s t : s +:+ p = t +:+ p → s = t.
Proof.
  revert t. induction s as [|c s IH]; intros [|d t]; [done|..]; rewrite ?append_cons; intros Heq.
  - apply (f_equal String.length) in Heq. change ("" +:+ p) with p in Heq. cbn in Heq. rewrite length_append in Heq. lia.
  - apply (f_equal String.length) in Heq. change ("" +:+ p) with p in Heq. cbn in Heq. rewrite length_append in Heq. lia.
  - simplify_eq. f_equal. by apply IH.
Qed.

Lemma ddl_query_inj s t : table_ddl_query s = table_ddl_query t → s = t.
Proof. intros Heq%append_cancel_l%append_cancel_r. exact (double_char_inj "'"%char s t Heq). Qed.

Lemma rows_query_inj s t : table_rows_query s = table_rows_query t → s = t.
Proof.
  intros Heq%append_cancel_l%append_cancel_r. injection Heq as Heq. exact (double_char_inj (char 34) s t Heq).
Qed.

Lemma mini_catalog_NoDup c : NoDup (mini_catalog c).*1.
Proof. unfold mini_catalog. case_decide; [done|constructor]. Qed.

Lemma mini_catalog_of l indexes saved : NoDup l.*1 → mini_catalog (mkMiniDuck l indexes saved) = l.
Proof. intros Hl. unfold mini_catalog. by rewrite decide_True. Qed.

(** A lookup by an injective key finds the entry. *)
Lemma find_entry (key : string → string) (l : list (string * (string * list Z))) t x :
  (∀ s t, key s = key t → s = t) → NoDup l.*1 → (t, x) ∈ l → find (λ e, bool_decide (key e.1 = key t)) l = Some (t, x).
Proof.
  intros Hinj Hnd Hin. induction l as [|[s y] l IH]; [by apply not_elem_of_nil in Hin|]. cbn [fmap list_fmap fst] in Hnd. apply NoDup_cons in Hnd as [Hs Hnd].
  cbn [find fst]. apply elem_of_cons in Hin as [[= -> ->]|Hin]; [by rewrite bool_decide_eq_true_2|].
  rewrite bool_decide_eq_false_2; [by apply IH|]. intros ->%Hinj. apply Hs. apply list_elem_of_fmap. by exists (t, x).
Qed.

Lemma mini_append_last l t ddl rows b : NoDup (l ++ [(t, (ddl, rows))]).*1 → mini_append t b (l ++ [(t, (ddl, rows))]) = l ++ [(t, (ddl, rows ++ [b]))].
Proof.
  induction l as [|[s [d r]] l IH]; cbn [app mini_append]; [by rewrite decide_True|]. cbn [fmap list_fmap fst]. intros [Hs Hl]%NoDup_cons.
  rewrite decide_False; [by rewrite IH|]. intros ->. apply Hs. rewrite fmap_app. apply elem_of_app. right. by left.
Qed.

Lemma not_ddl_query t : table_ddl_query t ≠ TABLE_NAMES ∧ table_ddl_query t ≠ VIEW_TEXTS.
Proof. by split. Qed.

Lemma mini_insert_saved c t x : md_saved (mini_insert c t x).2 = md_saved c.
Proof. unfold mini_insert. destruct (find _ _) as [[? [? ?]]|]; [|done]. by destruct (_ && _). Qed.

(** Statements that parse and do not touch the transaction keep it. *)
Lemma mini_run_saved c sql : transaction_free sql = true → md_saved (mini_run c sql).2 = md_saved c.
Proof.
  unfold transaction_free, duck_parse_sql, demo_duck_parse. destruct (find _ demo_statements) as [[text stmt]|] eqn:Hf; [|done].
  apply find_some in Hf as [Hin Heq%bool_decide_eq_true]. cbn in Heq. subst text. intros Hfree. unfold mini_run.
  destruct (created_table sql); [by destruct (bool_decide _)|].
  apply list_elem_of_In in Hin. unfold demo_statements in Hin.
  repeat (apply elem_of_cons in Hin as [[= -> ->]|Hin]; [try done; apply mini_insert_saved|]). by apply not_elem_of_nil in Hin.
Qed.

#[local] Instance mini_laws : DuckLaws.
Proof.
  refine {| Content := list (string * (string * list Z)) * list string; content c := (md_tables c, md_indexes c); open_tx := md_saved;
            catalog := mini_catalog; plain_table t ddl := ddl = mini_ddl t |}.
  - intros c r c'. change (duck_execute_batch c "BEGIN TRANSACTION;") with (let '(r, c) := mini_begin c in (_ ← r; Ok tt, c)).
    unfold mini_begin. destruct (md_saved c) eqn:Hs; intros [= <- <-]; cbn; by rewrite ?Hs.
  - intros c m r c' Hs. change (duck_execute_batch c "COMMIT;") with (let '(r, c) := mini_commit c in (_ ← r; Ok tt, c)).
    unfold mini_commit. rewrite Hs. by intros [= <- <-].
  - intros c [tables indexes] Hs. change (duck_execute_batch c "ROLLBACK;") with (let '(r, c) := mini_rollback c in (_ ← r; Ok tt, c)).
    unfold mini_rollback. by rewrite Hs.
  - intros c m sql params Hs Hf. rewrite <- Hs. by apply mini_run_saved.
  - done.
  - apply mini_catalog_NoDup.
  - intros c t ddl rows Hin. cbn. rewrite !bool_decide_eq_false_2 by by apply not_ddl_query.
    by rewrite (find_entry table_ddl_query _ t (ddl, rows) ddl_query_inj (mini_catalog_NoDup c) Hin).
  - intros c t ddl rows Hin. cbn. by rewrite (find_entry table_rows_query _ t (ddl, rows) rows_query_inj (mini_catalog_NoDup c) Hin).
  - intros c t ddl -> Hn Hs. eexists. cbn. unfold mini_run. rewrite created_mini_ddl, bool_decide_eq_false_2 by done. cbn. split_and!; [done| |done].
    apply mini_catalog_of. rewrite fmap_app. apply NoDup_app. split_and!; [apply mini_catalog_NoDup| |apply NoDup_singleton].
    intros x Hx Hx'%list_elem_of_singleton. cbn in Hx'. by subst.
  - intros c t Hin. cbn. by rewrite bool_decide_eq_true_2.
  - intros c l t ddl rows b Hc Hs. eexists. cbn. split_and!; [done| |done]. pose proof (mini_catalog_NoDup c) as Hnd. rewrite Hc in Hnd |- *.
    rewrite mini_append_last by done. apply mini_catalog_of. rewrite fmap_app in *. done.
  - intros c. exists []. split; [done|]. by intros ? ? ?%not_elem_of_nil.
  - intros c [= <-]. done.
  - intros c c' _. cbn. rewrite unbits_bits. cbn. rewrite decode_encode. cbn. intros [= <-]. apply mini_catalog_of, mini_catalog_NoDup.
  - intros c c1 c' Hc. assert (c1 = c) as ->.
    { change (duck_execute_batch c "CHECKPOINT;") with (let '(r, c1) := (if md_saved c then (Err "cannot checkpoint", c) else (Ok 0%N, c)) : result string N * MiniDuck in (_ ← r; Ok tt, c1)) in Hc.
      destruct (md_saved c); by inversion Hc. }
    cbn. rewrite unbits_bits. cbn. rewrite decode_encode. cbn. intros [= <-]. apply mini_catalog_of, mini_catalog_NoDup.
Defined.

#[local] Instance mini_text : DuckText :=
  {| f32_text _ := ""; f64_text _ := ""; debug_text _ := ""; calendar_date _ := None; number_from_f32 f := Some f; number_from_f64 f := Some f |}.
#[local] Instance mini_order : RowOrder := {| row_order A l := l; row_order_perm A l := Permutation_refl l |}.
#[local] Instance mini_cids : CidLib := {| cid_to_string := λ _, ""; cid_parse := λ _, None |}.
#[local] Existing Instance demo_blake.

(** *** A batch *)

Definition one_indexed : MiniDuck := mkMiniDuck [("events", (mini_ddl "events", []))] ["one"] None.
Definition insert_twice : list DuckDbStatement := let i := mkDuckDbStatement "INSERT INTO events VALUES (1)" [] in [i; i].

Lemma transactional_batch_atomic_witness :
  forallb (λ s, transaction_free (ds_sql s)) insert_twice = true ∧
  match duck_handle_message one_indexed (DrBatch insert_twice true) None "tinycloud.duckdb/write" false with
  | (Err _, c') => content c' = content one_indexed ∧ open_tx c' = open_tx one_indexed
  | (Ok res, c') => open_tx c' = None ∧ ∃ l, de_response res = DuckBatchAnswer l ∧ length l = length insert_twice
  end.
Proof.
  assert (forallb (λ s, transaction_free (ds_sql s)) insert_twice = true) as Hf by by vm_compute.
  split; [exact Hf|]. exact (transactional_batch_atomic one_indexed insert_twice None "tinycloud.duckdb/write" false Hf).
Defined.

(** Without a transaction the first insert stays, with it it is undone. *)
Example second_insert_fails :
  let run tx := duck_handle_message one_indexed (DrBatch insert_twice tx) None "tinycloud.duckdb/write" false in
  is_ok (run true).1 = false ∧ (run true).2 = one_indexed ∧ is_ok (run false).1 = false ∧ mini_catalog (run false).2 = [("events", (mini_ddl "events", [1%Z]))].
Proof. by vm_compute. Qed.

(** *** Sequences of requests *)

Definition mini_env (fate : Fate) : DuckEnv := mkDuckEnv fate Stays None None "now".
Definition mini_start : DuckDbService := mkDuckDbService ∅ ∅ (∅, ∅).
Definition mini_key : string * string := (space_to_string demo_space, "main").
Notation call s request ability := (duck_service_execute 1000 "128MB" (mini_env Stays) s demo_space "main" request None ability false).

Definition reader_runs (sql : string) (s : DuckDbService) : result DuckDbError DuckDbExecutionResult * DuckDbService :=
  call s (DrQuery sql []) "tinycloud.duckdb/read".
Definition writer_runs (sql : string) (s : DuckDbService) : result DuckDbError DuckDbExecutionResult * DuckDbService :=
  call s (DrExecute sql [] None) "tinycloud.duckdb/write".

(** Calls one after the other; every one of them succeeds. *)
Fixpoint all_succeed (calls : list (DuckDbService → result DuckDbError DuckDbExecutionResult * DuckDbService)) (s : DuckDbService) : option DuckDbService :=
  match calls with
  | [] => Some s
  | f :: calls => match f s with (Ok _, s) => all_succeed calls s | (Err _, _) => None end
  end.

Definition saved_catalog (s : DuckDbService) : option (list (string * (string * list Z))) :=
  p ← duck_durable s mini_key; match duck_open (Some p) with Ok c => Some (mini_catalog c) | Err _ => None end.
Definition live_catalog (s : DuckDbService) : option (list (string * (string * list Z))) :=
  a ← duck_databases s !! mini_key; mini_catalog ∘ da_conn <$> a.

Definition create_events : DuckDbService → result DuckDbError DuckDbExecutionResult * DuckDbService := writer_runs "CREATE TABLE events (id INTEGER)".
Definition insert_one : DuckDbService → result DuckDbError DuckDbExecutionResult * DuckDbService := writer_runs "INSERT INTO events VALUES (1)".
Definition create_index : DuckDbService → result DuckDbError DuckDbExecutionResult * DuckDbService := writer_runs "CREATE UNIQUE INDEX one ON events (id)".

Definition events_with (rows : list Z) : list (string * (string * list Z)) := [("events", (mini_ddl "events", rows))].

(** An insert that was acknowledged is in the artifact. *)
Example insert_saved :
  (all_succeed [create_events; insert_one] mini_start ≫= saved_catalog) = Some (events_with [1%Z]).
Proof. by vm_compute. Qed.

Definition creation : result DuckDbError DuckDbExecutionResult * DuckDbService := create_events mini_start.
(** The store of artifacts fails when the insert is to be saved. *)
Definition broken_env : DuckEnv := mkDuckEnv Stays Stays None (Some "disk full") "now".
Definition insertion : result DuckDbError DuckDbExecutionResult * DuckDbService :=
  duck_service_execute 1000 "128MB" broken_env creation.2 demo_space "main" (DrExecute "INSERT INTO events VALUES (1)" [] None) None "tinycloud.duckdb/write" false.
Definition writes (r : result DuckDbError DuckDbExecutionResult) : bool :=
  match r with Ok res => negb (bool_decide (de_targets res = [])) | Err _ => false end.

Lemma creation_writes : writes creation.1 = true.
Proof. by vm_compute. Qed.
Lemma creation_live : live_catalog creation.2 = Some (events_with []).
Proof. by vm_compute. Qed.
Lemma creation_opens : from_option (λ p, is_ok (duck_open (Some p))) false (duck_durable creation.2 mini_key) = true.
Proof. by vm_compute. Qed.
Lemma insertion_fails : is_ok insertion.1 = false.
Proof. by vm_compute. Qed.
Lemma insertion_ran :
  let '(r, s1) := duck_handle "128MB" broken_env creation.2 mini_key in
  is_ok r && writes (duck_send_execute 1000 "128MB" (duck_end_actor (dv_send broken_env) s1 mini_key) mini_key
    (DrExecute "INSERT INTO events VALUES (1)" [] None) None "tinycloud.duckdb/write" false).1 = true.
Proof. by vm_compute. Qed.

Lemma duck_acknowledged_durable_witness :
  (∃ a payload c, duck_databases creation.2 !! mini_key = Some (Some a) ∧ duck_durable creation.2 mini_key = Some payload ∧
     duck_open (Some payload) = Ok c ∧ catalog c = catalog (da_conn a)) ∧
  is_ok insertion.1 = false ∧ duck_databases insertion.2 !! mini_key = None.
Proof.
  split_and!; [|exact insertion_fails|].
  - pose proof (duck_acknowledged_durable 1000 "128MB" (mini_env Stays) mini_start demo_space "main"
      (DrExecute "CREATE TABLE events (id INTEGER)" [] None) None "tinycloud.duckdb/write" false) as Hd. cbv zeta in Hd.
    change (duck_service_execute 1000 "128MB" (mini_env Stays) mini_start demo_space "main" (DrExecute "CREATE TABLE events (id INTEGER)" [] None) None
      "tinycloud.duckdb/write" false) with creation in Hd. fold mini_key in Hd.
    pose proof creation_writes as Hw. pose proof creation_live as Hl. pose proof creation_opens as Ho.
    destruct creation as [[res|e] s']; [|done]. cbn [fst snd writes] in *. apply negb_true_iff, bool_decide_eq_false in Hw.
    rewrite decide_False in Hd by done. destruct Hd as (a & payload & Ha & Hp & Hc). rewrite Hp in Ho. cbn [from_option] in Ho.
    destruct (duck_open (Some payload)) as [c|] eqn:Hopen; [|done]. exists a, payload, c. split_and!; try done. apply Hc; [|done].
    unfold live_catalog in Hl. rewrite Ha in Hl. cbn in Hl. injection Hl as Hl. unfold plain_catalog. change (catalog (da_conn a)) with (mini_catalog (da_conn a)).
    rewrite Hl. by repeat constructor.
  - pose proof (duck_acknowledged_durable 1000 "128MB" broken_env creation.2 demo_space "main"
      (DrExecute "INSERT INTO events VALUES (1)" [] None) None "tinycloud.duckdb/write" false) as Hd. cbv zeta in Hd.
    change (duck_service_execute 1000 "128MB" broken_env creation.2 demo_space "main" (DrExecute "INSERT INTO events VALUES (1)" [] None) None
      "tinycloud.duckdb/write" false) with insertion in Hd. fold mini_key in Hd.
    pose proof insertion_fails as Hf. pose proof insertion_ran as Hr. destruct insertion as [[res|e] s']; [done|]. cbn [snd].
    destruct Hd as [_ Hd]. apply Hd; [done|]. unfold ran_a_write.
    destruct (duck_handle "128MB" broken_env creation.2 mini_key) as [[[]|e1] s1]; [|done]. cbn [is_ok andb] in Hr.
    destruct (duck_send_execute _ _ _ _ _ _ _ _) as [[res|e2] s2] eqn:Hs; [|done]. cbn [fst writes] in Hr.
    apply negb_true_iff, bool_decide_eq_false in Hr. by exists s1, res, s2.
Defined.

(** The connection of a database is shared, and a reader may begin and roll back a
    transaction on it: a write acknowledged in between is undone, and the next saved
    artifact has lost it. *)
Theorem reader_rollback_loses_write :
  (all_succeed [create_events; reader_runs "BEGIN"; insert_one] mini_start ≫= saved_catalog) = Some (events_with [1%Z]) ∧
  (all_succeed [create_events; reader_runs "BEGIN"; insert_one; reader_runs "ROLLBACK"] mini_start ≫= live_catalog) = Some (events_with []) ∧
  (all_succeed [create_events; reader_runs "BEGIN"; insert_one; reader_runs "ROLLBACK"; create_index] mini_start ≫= saved_catalog) = Some (events_with []).
Proof. by vm_compute. Qed.

(** [EXPLAIN ANALYZE] of an insert by a reader changes the database that later requests
    see, and is not saved. *)
Theorem reader_changes_live_data :
  (all_succeed [create_events; reader_runs "EXPLAIN ANALYZE INSERT INTO events VALUES (1)"] mini_start ≫= live_catalog) = Some (events_with [1%Z]) ∧
  (all_succeed [create_events; reader_runs "EXPLAIN ANALYZE INSERT INTO events VALUES (1)"] mini_start ≫= saved_catalog) = Some (events_with []).
Proof. by vm_compute. Qed.

(** The copy of an in-memory database has its tables and views, not its indexes: a
    unique index that was acknowledged is gone when the actor has ended, and the
    duplicate it refused is accepted. *)
Theorem unique_index_lost :
  (all_succeed [create_events; create_index; insert_one; insert_one] mini_start ≫= saved_catalog) = None ∧
  (s ← all_succeed [create_events; create_index; insert_one] mini_start; all_succeed [insert_one] (duck_end_actor Idles s mini_key) ≫= saved_catalog) =
    Some (events_with [1%Z; 1%Z]).
Proof. by vm_compute. Qed.

End Mini.
