(* ===== verification/DuckRoute.v ===== *)
(** * The DuckDB route: tinycloud-node-server/src/routes/mod.rs 2031-2249

    What happens to an invocation that holds DuckDB capabilities: the caveats of its
    own facts, the authorization, the database and the ability its capabilities
    select, the import, the export or the execution by the service with the quota
    check of writes, and the events of the tables written.  An error is its HTTP
    status. *)
From S2P Require Import Prelude Str Chars Json Identity Resource Registry SqlCaveat ColumnEncryption Tables Storage Chain Tokens Events Demo Delegation Invocation Revocation Kv Transact Authority KvStore Query Invoke Replay Artifacts KvRoute SqlParser SqlAuthorizer SqlService SqlRoute DuckParser DuckTypes DuckService.

(** ** The caveats of the invocation's facts *)

(** [serde_json::from_value::<DuckDbCaveats>]. *)
Definition duckdb_caveats_of_json (v : json) : option DuckDbCaveats :=
  let read (tables columns stmts ro : option json) :=
    tables ← optional_field strings_of_json tables;
    columns ← optional_field strings_of_json columns;
    stmts ← optional_field (λ v, l ← as_array v; mapM prepared_of_json l) stmts;
    ro ← optional_field as_bool ro;
    Some (mkDuckDbCaveats tables columns stmts ro) in
  match v with
  | JObject m => read (obj_get "tables" m) (obj_get "columns" m) (obj_get "statements" m) (obj_get "readOnly" m)
  | JArray [a; b; c; d] => read (Some a) (Some b) (Some c) (Some d)
  | _ => None
  end.

Definition duck_facts_caveats (u : Ucan) : option DuckDbCaveats :=
  facts ← u_facts u;
  find_map (λ fact, m ← as_object fact; v ← obj_get "duckdbCaveats" m; duckdb_caveats_of_json v) facts.

(** ** The handler *)

Definition duckdb_error_to_status (e : DuckDbError) : Status :=
  match e with
  | DDuckDb _ | DInvalidStatement _ | DSchemaError _ | DParseError _ => 400
  | DPermissionDenied _ | DReadOnlyViolation => 403
  | DDatabaseNotFound => 404
  | DResponseTooLarge _ => 413
  | DQuotaExceeded => 429
  | DIngestError _ | DExportError _ | DImportError _ | DInternal _ => 500
  end.

Inductive DuckAnswer := DuckResult (v : json) | DuckArrow (bytes : string) | DuckExport (bytes : string).

Section Handler.
Context `{Keccak256} `{Blake3} `{CidLib} `{RowOrder} `{TokenLib} `{TimeLib} `{HookFormats} `{DagCbor} `{TokenCodec} `{Collation}.
Context `{!DuckDb} `{DuckParse} `{Uppercase} `{DuckText}.
Context {B E : Type} `{!BlockStore B E}.
Context (public_limit : N) (quota : SpaceId → option N) (memory_threshold : N) (max_memory : string).

Definition duckdb_request_is_write (request : DuckDbRequest) (caveats : option DuckDbCaveats) (ability : string) : bool :=
  let is_write_sql sql := match duck_validate_sql sql caveats ability with Ok p => negb (dq_read_only p) | Err _ => false end in
  match request with
  | DrQuery sql _ => is_write_sql sql
  | DrExecute sql _ schema => match schema with Some (_ :: _) => true | _ => false end || is_write_sql sql
  | DrBatch stmts _ => existsb (λ s, is_write_sql (ds_sql s)) stmts
  | DrExecuteStatement name _ => match caveats ≫= λ c, duck_find_statement c name with Some stmt => is_write_sql (ps_sql stmt) | None => false end
  | DrIngest _ | DrImport _ | DrExportToKv _ _ _ => true
  | DrDescribe | DrExport => false
  end.

(** The check that there is room for a write. *)
Definition room_left (b : B) (s : DuckDbService) (space : SpaceId) : result Status unit :=
  _ ← staged_batch_remaining public_limit quota b (duck_artifacts s).2 space; Ok tt.

Definition run_import (env : DuckEnv) (b : B) (s : DuckDbService) (space : SpaceId) (db_name : string) (data : result Status string)
    : result Status (DuckAnswer * list TouchedTables) * DuckDbService :=
  match (_ ← room_left b s space; data) with
  | Err e => (Err e, s)
  | Ok bytes =>
      let '(r, s) := duck_import_db max_memory env s space db_name bytes in
      (_ ← map_err duckdb_error_to_status r; Ok (DuckResult (JObject [("imported", JBool true)]), []), s)
  end.

Definition run_request (env : DuckEnv) (b : B) (s : DuckDbService) (space : SpaceId) (db_name : string) (request : DuckDbRequest)
    (caveats : option DuckDbCaveats) (ability : string) (arrow_format : bool) : result Status (DuckAnswer * list TouchedTables) * DuckDbService :=
  match request with
  | DrExport =>
      match caveats with
      | Some _ => (Err 403%N, s)
      | None =>
          let '(r, s) := duck_service_export env s space db_name in
          (bytes ← map_err duckdb_error_to_status r; Ok (DuckExport bytes, []), s)
      end
  | _ =>
      match (if duckdb_request_is_write request caveats ability then room_left b s space else Ok tt) with
      | Err e => (Err e, s)
      | Ok _ =>
          let '(r, s) := duck_service_execute memory_threshold max_memory env s space db_name request caveats ability arrow_format in
          (res ← map_err duckdb_error_to_status r;
           Ok (match de_response res with DuckArrowAnswer bytes => DuckArrow bytes | other => DuckResult (duck_response_json other) end, de_targets res), s)
      end
  end.

(** What follows the authorization; [body] is what [read_json_body] gave, [data] the
    first hundred megabytes of the body, [parse_request] what [serde] makes of a text. *)
Definition duck_run (env : DuckEnv) (parse_request : string → option DuckDbRequest) (b : B) (s : DuckDbService) (body data : result Status string)
    (caps : list (SpaceId * option string * string)) (caveats : option DuckDbCaveats) (arrow_format : bool)
    : result Status (SpaceId * string * DuckAnswer * list TouchedTables) * DuckDbService :=
  match select_database_scope caps "duckdb" with
  | Err e => (Err e, s)
  | Ok (space, path, ability) =>
      let db_name := duck_db_name_from_path path in
      let '(r, s) :=
        if bool_decide (ability = "tinycloud.duckdb/import") then run_import env b s space db_name data
        else match (text ← body; ok_or (parse_request text) 400%N) with
             | Err e => (Err e, s)
             | Ok request => run_request env b s space db_name request caveats ability arrow_format
             end in
      ('(answer, targets) ← r; Ok (space, db_name, answer, targets), s)
  end.

Definition handle_duckdb_invoke (encryption : option ColumnEncryption) (nonce : Hash → string) (now : Z)
    (setup : SpaceId → result TxError unit) (env : DuckEnv) (parse_request : string → option DuckDbRequest)
    (timestamp : option string) (db : Tables.Db) (b : B) (s : DuckDbService) (i : InvocationInfo) (bytes : string)
    (body data : result Status string) (caps : list (SpaceId * option string * string)) (arrow_format : bool)
    : result Status (DuckAnswer * list WriteEvent) * (Tables.Db * B * DuckDbService) :=
  let caveats := duck_facts_caveats (ii_invocation i) in
  match verify_auth encryption nonce now setup db b i bytes with
  | (Err e, b) => (Err e, (db, b, s))
  | (Ok (auth, db), b) =>
      let '(r, s) := duck_run env parse_request b s body data caps caveats arrow_format in
      ('(space, db_name, answer, targets) ← r;
       Ok (answer,
           match snd <$> find (λ sc, bool_decide (sc.1 = space)) (commits auth), timestamp with
           | Some commit, Some timestamp =>
               database_write_events (space_to_string space) "duckdb" db_name (ii_invoker i) (cid_text (c_rev commit)) timestamp targets
           | _, _ => []
           end), (db, b, s))
  end.

End Handler.

(** ** What grows the artifacts passed the quota check *)

Section Quota.
Context `{!DuckDb} `{DuckParse} `{Uppercase} `{DuckText} `{RowOrder}.

Lemma targets_write g stmts : cl_targets g = [] → cl_targets (foldl classify_statement g stmts) ≠ [] → cl_read_only (foldl classify_statement g stmts) = false.
Proof.
  intros Hg Ht. apply not_true_is_false. intros Hro. apply Ht. clear Ht. destruct (gathered_foldl stmts g) as (_ & _ & _ & _ & Hw). apply Hw in Hro as [_ Hro].
  clear Hw. revert g Hg. induction stmts as [|stmt stmts IH]; intros g Hg; [done|]. cbn [foldl forallb] in *. apply andb_true_iff in Hro as [Hs Hro]. apply IH; [done|].
  destruct stmt; try done; cbn; by rewrite Hg.
Qed.

(** A text with write targets is not read-only. *)
Lemma accepted_targets sql caveats ability p : duck_validate_sql sql caveats ability = Ok p → dq_targets p ≠ [] → dq_read_only p = false.
Proof.
  intros Hv Ht. assert (∃ stmts, p = parsed_query stmts (foldl classify_statement nothing_seen stmts)) as (stmts & ->).
  { destruct caveats as [c|].
    - apply duck_validate_checked in Hv as (stmts & _ & _ & ->). by exists stmts.
    - apply duck_validate_normal in Hv as (stmts & g & _ & _ & ->%gather_allowed_foldl & _ & _ & _ & ->); [by exists stmts|done]. }
  by apply targets_write.
Qed.

Lemma batch_targets caveats ability stmts parsed :
  try_map (λ s, duck_validate_sql (ds_sql s) caveats ability) stmts = Ok parsed → concat (dq_targets <$> parsed) ≠ [] →
  ∃ s p, s ∈ stmts ∧ duck_validate_sql (ds_sql s) caveats ability = Ok p ∧ dq_targets p ≠ [].
Proof.
  rewrite try_map_Ok. induction 1 as [|s p stmts parsed Hs Hl IH]; [done|]. cbn. intros Hne. destruct (dq_targets p) as [|t ts] eqn:Hp.
  - destruct (IH Hne) as (s' & p' & Hin & ?). exists s', p'. split; [by right|done].
  - exists s, p. split_and!; [by left|done|by rewrite Hp].
Qed.

(** A request that reports a table it wrote is one the quota check counts as a write. *)
Lemma reported_write_counted c c' request caveats ability arrow res :
  duck_handle_message c request caveats ability arrow = (Ok res, c') → de_targets res ≠ [] → duckdb_request_is_write request caveats ability = true.
Proof.
  intros Hm Ht. assert (∀ A f targets (r : result DuckDbError A), answered f targets r = Ok res → de_targets res = targets) as Ha.
  { intros A f targets r Hr. apply bind_Ok in Hr as (a & _ & [= <-]). done. }
  assert (∀ sql p, duck_validate_sql sql caveats ability = Ok p → dq_targets p ≠ [] →
    match duck_validate_sql sql caveats ability with Ok p => negb (dq_read_only p) | Err _ => false end = true) as Hw.
  { intros sql p Hv Hp. rewrite Hv. by rewrite (accepted_targets _ _ _ _ Hv Hp). }
  unfold duckdb_request_is_write. unfold duck_handle_message in Hm. destruct request as [sql params|sql params schema|stmts tx|name params| | | | |]; try done.
  - destruct (duck_validate_sql sql caveats ability) as [p|] eqn:Hv; [|done].
    assert (de_targets res = dq_targets p) as Heq.
    { destruct arrow; [destruct (execute_query_arrow _ _ _)|destruct (duck_execute_query _ _ _)]; injection Hm as Hm _; by eapply Ha. }
    rewrite Heq in Ht. specialize (Hw sql p Hv Ht). by rewrite Hv in Hw.
  - destruct schema as [[|s0 schema]|]; [|done|]; cbn [default from_option id duck_run_schema orb] in *; destruct (duck_validate_sql sql caveats ability) as [p|] eqn:Hv; try done;
      destruct (duck_execute_statement _ _ _); injection Hm as Hm _; apply Ha in Hm; cbn in Hm; rewrite Hm in Ht; specialize (Hw sql p Hv Ht); by rewrite Hv in Hw.
  - destruct (try_map _ stmts) as [parsed|] eqn:Hp; [|done]. destruct (if tx then _ else _). injection Hm as Hm _. apply Ha in Hm. rewrite Hm in Ht.
    destruct (batch_targets _ _ _ _ Hp Ht) as (s & p & Hin & Hv & Hpt). apply existsb_exists. exists s. split; [by apply list_elem_of_In|]. by eapply Hw.
  - destruct (ok_or caveats _ ≫= _) as [[sql p]|e] eqn:Hb; [|done].
    apply bind_Ok in Hb as (cv & ->%ok_or_Ok & Hb). apply bind_Ok in Hb as (st & Hf%ok_or_Ok & Hb). apply bind_Ok in Hb as (p' & Hv & [= <- ->]).
    assert (de_targets res = dq_targets p) as Heq.
    { destruct (looks_like_select _); [destruct (duck_execute_query _ _ _)|destruct (duck_execute_statement _ _ _)]; injection Hm as Hm _; by eapply Ha. }
    rewrite Heq in Ht. cbn [mbind option_bind]. rewrite Hf. by apply (Hw _ p).
  - injection Hm as Hm _. apply Ha in Hm. by rewrite Hm in Ht.
Qed.

End Quota.

(** ** What a request may change *)

Section Confined.
Context `{Keccak256} `{Blake3} `{CidLib} `{RowOrder} `{TokenLib} `{TimeLib} `{HookFormats} `{DagCbor} `{TokenCodec} `{Collation}.
Context `{!DuckDb} `{DuckParse} `{Uppercase} `{DuckText}.
Context {B E : Type} `{!BlockStore B E}.
Context (public_limit : N) (quota : SpaceId → option N) (memory_threshold : N) (max_memory : string).
Notation room_left := (room_left public_limit quota).

(** Only this artifact may differ. *)
Definition only_artifact (key : ArtifactKey) (s s' : DuckDbService) : Prop := ∀ k, k ≠ key → (duck_artifacts s').1 !! k = (duck_artifacts s).1 !! k.

Lemma run_import_confined env (b : B) s space db_name data :
  let s' := (run_import public_limit quota max_memory env b s space db_name data).2 in
  duck_artifacts s' ≠ duck_artifacts s → room_left b s space = Ok tt ∧ only_artifact ("duckdb", space_to_string space, db_name) s s'.
Proof.
  cbv zeta. unfold run_import. destruct (room_left b s space) as [[]|e]; [|done]. rewrite bind_ret_l. destruct data as [bytes|e]; [|done].
  unfold duck_import_db. destruct (validate_db_name db_name ≫= _) as [c|e]; [|done]. set (s1 := mkDuckDbService _ _ (duck_artifacts s)).
  destruct (duck_save env s1 _ bytes) as [s2|e] eqn:Hs; [|done]. intros _. split; [done|]. intros k Hk. by apply (duck_save_only _ _ _ _ _ k Hs).
Qed.

Lemma run_request_confined env (b : B) s space db_name request caveats ability arrow :
  let s' := (run_request public_limit quota memory_threshold max_memory env b s space db_name request caveats ability arrow).2 in
  duck_artifacts s' ≠ duck_artifacts s → room_left b s space = Ok tt ∧ only_artifact ("duckdb", space_to_string space, db_name) s s'.
Proof.
  cbv zeta. unfold run_request. assert (request = DrExport ∨ request ≠ DrExport) as [->|Hne] by (destruct request; auto).
  { destruct caveats; [done|]. assert (duck_artifacts (duck_service_export env s space db_name).2 = duck_artifacts s) as He; [|by destruct (duck_service_export _ _ _ _)].
    unfold duck_service_export. destruct (validate_db_name db_name); [|done]. cbv zeta. destruct (duck_databases s !! _).
    - rewrite duck_send_export_artifacts. apply duck_end_actor_artifacts.
    - by destruct (duck_load env s _) as [[p|]|e]. }
  set (gate := if duckdb_request_is_write request caveats ability then room_left b s space else Ok tt).
  assert (∀ X Y : result Status (DuckAnswer * list TouchedTables) * DuckDbService, (match request with DrExport => X | _ => Y end) = Y) as Hreq by by destruct request.
  rewrite Hreq. destruct gate as [[]|e] eqn:Hg; [|done]. subst gate.
  pose proof (duck_service_cases memory_threshold max_memory env s space db_name request caveats ability arrow) as Hc. cbv zeta in Hc.
  destruct (duck_service_execute _ _ _ _ _ _ _ _ _ _) as [[res|e] s']; cbn [snd]; [|done]. intros Hdiff. destruct Hc as [(c & c' & Hm) Hc].
  case_decide as Ht; [done|]. destruct Hc as (s2 & Ha & Hp). rewrite (reported_write_counted _ _ _ _ _ _ _ Hm Ht) in Hg. split; [done|].
  intros k Hk. rewrite (duck_persist_only _ _ _ _ k Hp) by done. by rewrite Ha.
Qed.

(** C15: a DuckDB request changes the durable data of its own database alone, and only with
    room for it.  When the artifacts after a request differ from those before, the invocation
    was authorized, the database is the one that its capabilities select, the space was below
    its storage limit, and no other artifact changed. *)
Theorem duck_request_confined (encryption : option ColumnEncryption) (nonce : Hash → string) (now : Z)
    (setup : SpaceId → result TxError unit) (env : DuckEnv) (parse_request : string → option DuckDbRequest)
    (timestamp : option string) (db : Tables.Db) (b : B) (s : DuckDbService) (i : InvocationInfo) (bytes : string)
    (body data : result Status string) (caps : list (SpaceId * option string * string)) (arrow : bool) r db' b' s' :
  handle_duckdb_invoke public_limit quota memory_threshold max_memory encryption nonce now setup env parse_request timestamp db b s i bytes body data caps arrow =
    (r, (db', b', s')) →
  duck_artifacts s' ≠ duck_artifacts s →
  ∃ auth space path ability,
    verify_auth encryption nonce now setup db b i bytes = (Ok (auth, db'), b') ∧ select_database_scope caps "duckdb" = Ok (space, path, ability) ∧
    room_left b' s space = Ok tt ∧ only_artifact ("duckdb", space_to_string space, duck_db_name_from_path path) s s'.
Proof.
  unfold handle_duckdb_invoke. destruct (verify_auth _ _ _ _ _ _ _ _) as [[[auth db1]|e] b1]; [|by intros [= <- <- <- <-]].
  unfold duck_run. destruct (select_database_scope caps "duckdb") as [[[space path] ability]|e]; [|by intros [= <- <- <- <-]].
  cbv zeta. case_bool_decide.
  - pose proof (run_import_confined env b1 s space (duck_db_name_from_path path) data) as Hr. cbv zeta in Hr. destruct (run_import _ _ _ _ _ _ _ _ _) as [r1 s1].
    intros [= <- <- <- <-] Hd. destruct (Hr Hd) as [Hroom Honly]. by exists auth, space, path, ability.
  - destruct (_ ≫= _) as [request|e]; [|by intros [= <- <- <- <-]].
    pose proof (run_request_confined env b1 s space (duck_db_name_from_path path) request (duck_facts_caveats (ii_invocation i)) ability arrow) as Hr. cbv zeta in Hr.
    destruct (run_request _ _ _ _ _ _ _ _ _ _ _ _) as [r1 s1]. intros [= <- <- <- <-] Hd. destruct (Hr Hd) as [Hroom Honly]. by exists auth, space, path, ability.
Qed.

End Confined.

(** ** Invocations end to end *)

#[local] Existing Instances demo_keccak demo_blake demo_cids demo_order demo_tokens demo_formats demo_cbor
  demo_codec demo_collation demo_calendar mini_engine demo_duck_parse demo_uppercase mini_text.

(** [owner] lets [alice] read one database, and [bob] write it. *)
Definition duck_cap (ability : string) : Capability :=
  mkCapability (TinyCloud {| space := demo_space; service := "duckdb"; path := Some "main"; query := None; fragment := None |}) ability [].
Definition duck_store : Tables.Db :=
  match transact None demo_nonce 0 demo_setup empty_db
          [EDelegation demo_host "d0"; EDelegation (demo_grant owner alice [duck_cap "tinycloud.duckdb/read"] [] Attenuable "s1") "s1";
           EDelegation (demo_grant owner bob [duck_cap "tinycloud.duckdb/write"] [] Attenuable "s2") "s2"] with
  | Ok (_, db) => db
  | Err _ => empty_db
  end.

Definition duck_ucan (who parent bytes : string) (facts : option (list json)) : Ucan :=
  let u := demo_ucan who who [demo_cid parent] bytes in
  mkUcan (u_issuer u) (u_audience u) (u_not_before u) (u_expiration u) facts (u_proof u) (u_attenuation u) (u_encoded u).
Definition duck_invocation (who ability parent : string) (facts : option (list json)) : InvocationInfo :=
  {| ii_capabilities := [duck_cap ability]; ii_invoker := who; ii_parents := [demo_cid parent]; ii_invocation := duck_ucan who parent "i1" facts |}.

(** A database with one row, saved. *)
Definition duck_seeded : DuckDbService := default mini_start (all_succeed [create_events; insert_one] mini_start).

Definition duck_call (who ability parent : string) (facts : option (list json)) (request : DuckDbRequest) :=
  handle_duckdb_invoke 0 (λ _, None) 1000 "128MB" None demo_nonce 50 demo_setup (mini_env Stays) (λ _, Some request) (Some "now") duck_store
    (∅ : MemoryStore) duck_seeded (duck_invocation who ability parent facts) "i1" (Ok "body") (Err 400%N)
    [(demo_space, Some "main", ability)] false.

Definition drop_events : DuckDbRequest := DrExecute "DROP TABLE events" [] None.
Definition bob_drops := duck_call bob "tinycloud.duckdb/write" "s2" None drop_events.

(** A fact that lists the statement as a prepared one. *)
Definition listing (sql : string) : list json :=
  [JObject [("duckdbCaveats", JObject [("statements", JArray [JObject [("name", JString "x"); ("sql", JString sql)]])])]].

(** A reader runs what it lists.  The caveats are those of the invocation's own facts, not
    of the delegation it rests on, and a statement that they list is not held against the
    ability: a holder of [tinycloud.duckdb/read] cannot drop a table, unless it writes the
    statement into the facts of its invocation; then the table is dropped, durably. *)
Theorem reader_runs_listed_statement :
  (duck_call alice "tinycloud.duckdb/read" "s1" None drop_events).1 = Err 403%N ∧
  is_ok (duck_call alice "tinycloud.duckdb/read" "s1" (Some (listing "DROP TABLE events")) drop_events).1 = true ∧
  saved_catalog duck_seeded = Some (events_with [1%Z]) ∧
  saved_catalog (duck_call alice "tinycloud.duckdb/read" "s1" (Some (listing "DROP TABLE events")) drop_events).2.2 = Some [].
Proof. by vm_compute. Qed.

Lemma bob_drops_saved : duck_artifacts bob_drops.2.2 ≠ duck_artifacts duck_seeded.
Proof.
  assert (saved_catalog bob_drops.2.2 = Some []) as Ha by by vm_compute. assert (saved_catalog duck_seeded = Some (events_with [1%Z])) as Hb by by vm_compute.
  assert (Some (events_with [1%Z]) ≠ Some []) as Hne by done. unfold saved_catalog, duck_durable in Ha, Hb. intros Heq. rewrite Heq, Hb in Ha. exact (Hne Ha).
Qed.

Lemma bob_drops_pair : bob_drops = (bob_drops.1, (bob_drops.2.1.1, bob_drops.2.1.2, bob_drops.2.2)).
Proof. by destruct bob_drops as [? [[? ?] ?]]. Qed.

Lemma duck_request_confined_witness :
  ∃ auth space path ability,
    verify_auth None demo_nonce 50 demo_setup duck_store (∅ : MemoryStore) (duck_invocation bob "tinycloud.duckdb/write" "s2" None) "i1" =
      (Ok (auth, bob_drops.2.1.1), bob_drops.2.1.2) ∧
    select_database_scope [(demo_space, Some "main", "tinycloud.duckdb/write")] "duckdb" = Ok (space, path, ability) ∧
    room_left 0 (λ _, None) bob_drops.2.1.2 duck_seeded space = Ok tt ∧
    only_artifact ("duckdb", space_to_string space, duck_db_name_from_path path) duck_seeded bob_drops.2.2.
Proof.
  exact (duck_request_confined 0 (λ _, None) 1000 "128MB" None demo_nonce 50 demo_setup (mini_env Stays) (λ _, Some drop_events) (Some "now") duck_store
    (∅ : MemoryStore) duck_seeded (duck_invocation bob "tinycloud.duckdb/write" "s2" None) "i1" (Ok "body") (Err 400%N)
    [(demo_space, Some "main", "tinycloud.duckdb/write")] false bob_drops.1 bob_drops.2.1.1 bob_drops.2.1.2 bob_drops.2.2 bob_drops_pair bob_drops_saved).
Defined.
