(* ===== verification/SignedUrls.v ===== *)
(** * Signed URLs: tinycloud-node-server/src/signed_urls.rs, routes/mod.rs 191-251 and
      the tickets of tinycloud-core/src/db.rs 616-633

    The holder of a key-value read capability mints a ticket: a row that lets
    anyone with its identifier read one key for at most five minutes.  The model
    has minting with the authorization of the invocation before it, the table of
    tickets, and the download.  Instants are nanoseconds; the text of an instant is
    [time]'s RFC 3339, the class [TimeText]; the identifier of a ticket is given
    (an HMAC of random bytes).  The theorem follows a download back to the
    invocation that was accepted for it. *)
From S2P Require Import Prelude Str Chars Json Identity Resource Registry SqlCaveat ColumnEncryption Tables Storage Chain Tokens Events Demo Delegation Invocation Revocation Kv Transact Authority KvStore Query Invoke Replay Artifacts KvRoute SqlParser SqlAuthorizer SqlService SqlRoute.

(** [OffsetDateTime::from_unix_timestamp], [format] and [parse] with [Rfc3339]. *)
Class TimeText := {
  from_unix : Z → option Z;
  format_time : Z → option string;
  parse_time : string → option Z;
}.

(** A representable second is that second; what is formatted is read back. *)
Class TimeTextLaws `{TimeText} := {
  from_unix_exact s t : from_unix s = Some t → t = (s * second)%Z;
  parse_format t text : format_time t = Some text → parse_time text = Some t;
}.

Definition MAX_TTL_SECONDS : N := 300.
Definition SIGNED_KV_SERVICE : string := "kv".
Definition SIGNED_KV_ABILITY : string := "tinycloud.kv/get".

Record SignedKvUrlRequest := mkSignedKvUrlRequest {
  rq_space : string;
  rq_path : string;
  rq_ttl_seconds : option N;
  rq_max_uses : option N;
  rq_content_hash : option string;
  rq_etag : option string;
}.

Record Ticket := mkTicket {
  tk_issuer_did : string;
  tk_subject_did : string;
  tk_space_id : string;
  tk_path : string;
  tk_service : string;
  tk_ability : string;
  tk_created_at : string;
  tk_expires_at : string;
  tk_invocation_expires_at : option string;
  tk_parent_expires_at : option string;
  tk_content_hash : option string;
  tk_etag : option string;
  tk_parent_cids : option (list string);
}.

Notation Tickets := (gmap string Ticket).

(** ** Scope and binding *)

Definition requested_kv_resource (s : SpaceId) (p : string) : Resource :=
  TinyCloud {| space := s; service := SIGNED_KV_SERVICE; path := Some p; query := None; fragment := None |}.

Section Scope.
Context `{Keccak256} `{UriLib}.

Definition matches_attenuable_kv_get (c : Capability) (requested : Resource) : bool :=
  bool_decide (cap_ability c = SIGNED_KV_ABILITY) && resource_extends requested (cap_resource c).

Definition has_attenuable_kv_get (i : InvocationInfo) (s : SpaceId) (p : string) : bool :=
  existsb (λ c, matches_attenuable_kv_get c (requested_kv_resource s p)) (ii_capabilities i).

Definition is_hexdigit (c : ascii) : bool := bool_decide (is_Some (hex_value c)).

Definition normalize_content_hash (value : string) : result Status string :=
  let bare := trim_matches (char 34) (trim value) in
  let normalized := to_ascii_lowercase (default bare (strip_prefix "blake3-" bare)) in
  _ ← ensure (bool_decide (String.length normalized = 64) && forall_char is_hexdigit normalized) 400%N;
  Ok normalized.

Definition validate_signed_kv_hash_binding (t : Ticket) (h : Hash) : result Status unit :=
  let current := hex_encode (string_bytes (mh_digest h)) in
  _ ← match tk_content_hash t with
      | Some bound => bound ← normalize_content_hash bound; ensure (bool_decide (bound = current)) 412%N
      | None => Ok tt
      end;
  match tk_etag t with
  | Some bound => ensure (bool_decide (trim bound = kv_etag h)) 412%N
  | None => Ok tt
  end.

(** ** Minting *)

Context `{TimeText} `{RowOrder} `{CidLib}.

Definition unix_timestamp (t : Z) : Z := (t / second)%Z.

(** [as_seconds().floor() as i64]. *)
Definition invocation_expiry (i : InvocationInfo) : Z := as_i64_cast (u_expiration (ii_invocation i) / second)%Z.

Definition min_list (l : list Z) : option Z :=
  foldr (λ x m, Some (match m with Some y => Z.min x y | None => x end)) None l.

Definition find_parent_expiry (db : Tables.Db) (i : InvocationInfo) : option Z :=
  match ii_parents i with
  | [] => None
  | parents =>
      min_list (omap (λ d, unix_timestamp <$> d_expiry d)
                  (select (λ d, mem (d_id d) (hash_of_cid <$> parents)) (delegations db)))
  end.

Definition text_of_unix (s : Z) : result Status string := ok_or (t ← from_unix s; format_time t) 500%N.

(** The instant a ticket ends, in seconds. *)
Definition ticket_expiry (db : Tables.Db) (i : InvocationInfo) (request : SignedKvUrlRequest) (now : Z) : Z :=
  let invocation_exp := invocation_expiry i in
  let parent_exp := default invocation_exp (find_parent_expiry db i) in
  let ttl := Z.of_N (N.min (default MAX_TTL_SECONDS (rq_ttl_seconds request)) MAX_TTL_SECONDS) in
  Z.min (Z.min (unix_timestamp now + ttl) invocation_exp) parent_exp.

(** [mint_signed_kv_url]: the identifier and the table with the new row; an
    identifier that is taken violates the primary key. *)
Definition mint_signed_kv_url (db : Tables.Db) (tickets : Tickets) (i : InvocationInfo) (request : SignedKvUrlRequest)
    (ticket_id : string) (now : Z) : result Status (string * string * Tickets) :=
  _ ← ensure (negb (bool_decide (is_Some (rq_max_uses request)))) 400%N;
  s ← map_err (λ _, 400%N) (space_from_str (rq_space request));
  let p := rq_path request in
  _ ← ensure (has_attenuable_kv_get i s p) 403%N;
  let exp := ticket_expiry db i request now in
  _ ← ensure (unix_timestamp now <? exp)%Z 401%N;
  created_at ← ok_or (format_time now) 500%N;
  expires_at ← text_of_unix exp;
  invocation_expires_at ← text_of_unix (invocation_expiry i);
  parent_expires_at ← match find_parent_expiry db i with Some e => Some <$> text_of_unix e | None => Ok None end;
  content_hash ← match rq_content_hash request with Some h => Some <$> normalize_content_hash h | None => Ok None end;
  let t := mkTicket (ii_invoker i) (ii_invoker i) (space_to_string s) p SIGNED_KV_SERVICE SIGNED_KV_ABILITY created_at expires_at
             (Some invocation_expires_at) parent_expires_at content_hash (trim <$> rq_etag request)
             (match ii_parents i with [] => None | parents => Some (cid_to_string <$> parents) end) in
  _ ← ensure (negb (bool_decide (is_Some (tickets !! ticket_id)))) 500%N;
  Ok ("/signed/kv/" +:+ ticket_id, expires_at, <[ticket_id := t]> tickets).

(** ** Use *)

Definition validate_signed_kv_ticket (t : Ticket) (now : Z) : result Status (SpaceId * string) :=
  _ ← ensure (bool_decide (tk_service t = SIGNED_KV_SERVICE) && bool_decide (tk_ability t = SIGNED_KV_ABILITY)) 403%N;
  expires_at ← ok_or (parse_time (tk_expires_at t)) 401%N;
  _ ← ensure (now <? expires_at)%Z 401%N;
  s ← map_err (λ _, 401%N) (space_from_str (tk_space_id t));
  Ok (s, tk_path t).

Definition load_signed_kv_ticket (tickets : Tickets) (ticket_id : string) (now : Z) : result Status Ticket :=
  t ← ok_or (tickets !! ticket_id) 401%N;
  _ ← validate_signed_kv_ticket t now;
  Ok t.

End Scope.

(** ** The routes *)

Section Routes.
Context `{Keccak256} `{UriLib} `{Blake3} `{CidLib} `{RowOrder} `{TokenLib} `{TimeLib} `{HookFormats} `{DagCbor} `{TokenCodec} `{Collation}
        `{TimeText}.
Context {B E : Type} `{!BlockStore B E}.

(** [create_signed_kv_url]: the invocation is executed without inputs, then the
    ticket is minted; [now'] is the clock when it is. *)
Definition create_signed_kv_url (encryption : option ColumnEncryption) (nonce : Hash → string) (now now' : Z)
    (setup : SpaceId → result TxError unit) (db : Tables.Db) (b : B) (tickets : Tickets) (i : InvocationInfo) (bytes : string)
    (request : SignedKvUrlRequest) (ticket_id : string) : result Status (string * string) * (Tables.Db * B * Tickets) :=
  match verify_auth encryption nonce now setup db b i bytes with
  | (Err e, b) => (Err e, (db, b, tickets))
  | (Ok (_, db), b) =>
      match mint_signed_kv_url db tickets i request ticket_id now' with
      | Err e => (Err e, (db, b, tickets))
      | Ok (url, expires_at, tickets) => (Ok (url, expires_at), (db, b, tickets))
      end
  end.

(** [signed_kv_get]; the ticket is validated when it is loaded and again, [now']
    being the later instant. *)
Definition signed_kv_get (now now' : Z) (db : Tables.Db) (b : B) (tickets : Tickets) (ticket_id : string)
    : result Status (Metadata * Hash * string) :=
  t ← load_signed_kv_ticket tickets ticket_id now;
  '(s, key) ← validate_signed_kv_ticket t now';
  found ← map_err (λ _, 500%N) (get_kv (bs_read b) db s key);
  '(md, h, content) ← ok_or found 404%N;
  _ ← validate_signed_kv_hash_binding t h;
  Ok (md, h, content).

End Routes.

(** ** Where a ticket comes from *)

Section History.
Context `{Keccak256} `{UriLib} `{Blake3} `{CidLib} `{RowOrder} `{TokenLib} `{TimeLib} `{HookFormats} `{DagCbor} `{TokenCodec} `{Collation}
        `{TimeTextLaws}.
Context {B E : Type} `{!BlockStore B E}.

(** The tables of tickets that minting, whatever else happens, leads to. *)
Inductive ticket_history : Tickets → Prop :=
| history_start : ticket_history ∅
| history_mint encryption nonce now now' setup db (b : B) tickets i bytes request ticket_id r db' b' tickets' :
    ticket_history tickets →
    create_signed_kv_url encryption nonce now now' setup db b tickets i bytes request ticket_id = (r, (db', b', tickets')) →
    ticket_history tickets'.

(** An invocation was accepted, leading to [db]. *)
Definition accepted (i : InvocationInfo) (now : Z) (db : Tables.Db) : Prop :=
  ∃ encryption nonce setup db0 (b0 b : B) bytes res, verify_auth encryption nonce now setup db0 b0 i bytes = (Ok (res, db), b).

(** A capability of the invocation covers the key, and the ticket ends within five
    minutes, with the invocation and with every cited delegation. *)
Record justifies (i : InvocationInfo) (minted : Z) (db : Tables.Db) (s : SpaceId) (p : string) (exp : Z) : Prop := {
  jf_cap : ∃ c, c ∈ ii_capabilities i ∧ cap_ability c = SIGNED_KV_ABILITY ∧
    resource_extends (requested_kv_resource s p) (cap_resource c) = true;
  jf_ttl : (exp ≤ unix_timestamp minted + 300)%Z;
  jf_invocation : (exp ≤ invocation_expiry i)%Z;
  jf_parents : ∀ d e, d ∈ delegations db → d_id d ∈ hash_of_cid <$> ii_parents i → d_expiry d = Some e → (exp ≤ unix_timestamp e)%Z;
}.

(** One call of the route stored the ticket: the invocation was executed at [now], which
    led to [db], and the ticket minted at [minted]. *)
Definition minted_in (ticket_id : string) (t : Ticket) (i : InvocationInfo) (now minted : Z) (db : Tables.Db) : Prop :=
  ∃ encryption nonce setup db0 (b0 b : B) tickets tickets' bytes request r,
    create_signed_kv_url encryption nonce now minted setup db0 b0 tickets i bytes request ticket_id = (Ok r, (db, b, tickets')) ∧
    tickets' !! ticket_id = Some t.

Definition ticket_justified (ticket_id : string) (t : Ticket) : Prop :=
  ∃ i now minted db text s exp, minted_in ticket_id t i now minted db ∧ accepted i now db ∧
    space_from_str text = Ok s ∧ tk_space_id t = space_to_string s ∧
    parse_time (tk_created_at t) = Some minted ∧ parse_time (tk_expires_at t) = Some (exp * second)%Z ∧ justifies i minted db s (tk_path t) exp.

Lemma min_list_bound l x : x ∈ l → ∃ m, min_list l = Some m ∧ (m ≤ x)%Z.
Proof.
  induction l as [|y l IH]; [by intros ?%not_elem_of_nil|]. cbn [min_list foldr]. fold (min_list l).
  intros [->|Hin]%elem_of_cons.
  - eexists. split; [done|]. destruct (min_list l); lia.
  - destruct (IH Hin) as (m & -> & Hm). eexists. split; [done|]. lia.
Qed.

Lemma find_parent_expiry_bound db i d e :
  d ∈ delegations db → d_id d ∈ hash_of_cid <$> ii_parents i → d_expiry d = Some e →
  ∃ m, find_parent_expiry db i = Some m ∧ (m ≤ unix_timestamp e)%Z.
Proof.
  intros Hd Hid He. unfold find_parent_expiry. destruct (ii_parents i) as [|p ps] eqn:Hp; [by apply not_elem_of_nil in Hid|].
  rewrite <- Hp in *. apply min_list_bound, list_elem_of_omap. exists d. split; [|by rewrite He].
  apply elem_of_select. split; [done|]. by apply mem_true.
Qed.

Lemma mint_justifies db tickets i request ticket_id minted url text tickets' :
  mint_signed_kv_url db tickets i request ticket_id minted = Ok (url, text, tickets') →
  ∃ t s exp, tickets' = <[ticket_id := t]> tickets ∧ space_from_str (rq_space request) = Ok s ∧ tk_space_id t = space_to_string s ∧
    parse_time (tk_created_at t) = Some minted ∧ parse_time (tk_expires_at t) = Some (exp * second)%Z ∧ justifies i minted db s (tk_path t) exp.
Proof.
  unfold mint_signed_kv_url. intros Hm. apply bind_Ok in Hm as ([] & _ & Hm). apply bind_Ok in Hm as (s & Hs%map_err_Ok & Hm).
  apply bind_Ok in Hm as ([] & Hcap%ensure_Ok & Hm). set (exp := ticket_expiry db i request minted) in *.
  apply bind_Ok in Hm as ([] & _ & Hm). apply bind_Ok in Hm as (created & Hcreated%ok_or_Ok & Hm). apply bind_Ok in Hm as (ends & Hends & Hm).
  apply bind_Ok in Hm as (iexp & _ & Hm). apply bind_Ok in Hm as (pexp & _ & Hm). apply bind_Ok in Hm as (ch & _ & Hm).
  apply bind_Ok in Hm as ([] & _ & Hm). simplify_eq. eexists _, s, exp. split_and!; [done..|by apply parse_format| |].
  - cbn [tk_expires_at]. unfold text_of_unix in Hends. apply ok_or_Ok in Hends.
    destruct (from_unix exp) as [t|] eqn:Ht; [|done]. apply from_unix_exact in Ht as ->. by apply parse_format.
  - cbn [tk_path]. unfold exp, ticket_expiry. split.
    + apply existsb_exists in Hcap as (c & Hin & [Hab%bool_decide_eq_true Hx]%andb_true_iff). exists c. split_and!; [by apply list_elem_of_In|done..].
    + unfold MAX_TTL_SECONDS. lia.
    + lia.
    + intros d e Hd Hid He. destruct (find_parent_expiry_bound db i d e Hd Hid He) as (m & -> & Hm). simpl. lia.
Qed.

Lemma history_justified tickets : ticket_history tickets → map_Forall ticket_justified tickets.
Proof.
  induction 1 as [|encryption nonce now now' setup db b tickets i bytes request ticket_id r db' b' tickets' _ IH Hc]; [apply map_Forall_empty|].
  unfold create_signed_kv_url in Hc. destruct (verify_auth _ _ _ _ _ _ _ _) as [[[res db1]|e] b1] eqn:Hv; [|by simplify_eq].
  destruct (mint_signed_kv_url _ _ _ _ _ _) as [[[url text] tickets1]|e] eqn:Hm; [|by simplify_eq]. simplify_eq. pose proof Hm as Hmint.
  apply mint_justifies in Hm as (t & s & exp & -> & Hs & Hsp & Hcr & Hexp & Hj). apply map_Forall_insert_2; [|done].
  exists i, now, now', db', (rq_space request), s, exp. split_and!; [|by exists encryption, nonce, setup, db, b, b', bytes, res|done..].
  eexists encryption, nonce, setup, db, b, b', tickets, _, bytes, request, _. unfold create_signed_kv_url. rewrite Hv, Hmint. split; [done|apply lookup_insert_eq].
Qed.

(** The text of a URI is kept by [UriStr::new]: a space's text names that space. *)
Lemma space_text_roundtrip text s s' :
  (∀ t u, uri_new t = Some u → uri_str u = t) →
  space_from_str text = Ok s → space_from_str (space_to_string s) = Ok s' → s' = s.
Proof.
  intros Hlaw. assert (∀ t s, space_from_str t = Ok s → ∃ suf, t = "tinycloud:" +:+ suf +:+ String ":" (name s) ∧
    did_from_suffix suf = Ok (base_did s) ∧ contains_char ":" (name s) = false ∧ contains_char "/" suf = false) as Hparse.
  { intros t s0 Hs. unfold space_from_str in Hs. apply bind_Ok in Hs as (u & Hu%ok_or_Ok & Hs). apply Hlaw in Hu.
    unfold space_try_from in Hs. destruct u as [sch auth pth q f]. cbn [scheme_str authority_str path_str query_str fragment_str] in *.
    case_bool_decide as Hsch; [|done]. case_bool_decide as Ha; [done|]. case_bool_decide as Hq; [done|]. case_bool_decide as Hf; [done|].
    rewrite <- eq_None_not_Some in Ha, Hq, Hf. subst. cbn [negb orb] in Hs.
    destruct (ends_with_char ":" pth || contains_char "/" pth || negb _) eqn:Hb; [done|].
    apply orb_false_iff in Hb as [[_ Hslash]%orb_false_iff _].
    destruct (split_space pth) as [[suf n]|] eqn:Hsp; [|done]. apply split_space_Some in Hsp as (-> & Hcol & Hne).
    apply bind_Ok in Hs as (d & Hd & [= <-]). exists suf. split_and!; [|done..|].
    - unfold uri_str. simpl. by rewrite append_nil_r.
    - rewrite contains_char_app in Hslash. by apply orb_false_iff in Hslash as [? _]. }
  intros (suf & -> & Hd & Hcol & Hsl)%Hparse (suf' & Heq & Hd' & Hcol' & _)%Hparse.
  destruct (did_from_suffix_print _ _ (name s) Hd Hsl) as [Hprint _].
  destruct s as [d n], s' as [d' n']. cbn [base_did name] in *. unfold space_to_string in Heq. cbn [name] in Heq.
  change (":" +:+ n) with (String ":" n) in Heq. apply append_inj_l in Heq.
  assert (rsplit_once ":" (suffix {| base_did := d; name := n |} +:+ String ":" n) = Some (suffix {| base_did := d; name := n |}, n)) as Hr1
    by by apply rsplit_once_app.
  assert (rsplit_once ":" (suf' +:+ String ":" n') = Some (suf', n')) as Hr2 by by apply rsplit_once_app.
  rewrite Heq, Hr2 in Hr1. simplify_eq. rewrite Hprint in Hd'. by simplify_eq.
Qed.

End History.

(** ** Claims *)

(** C23: a signed download is an authorized read.  What a ticket serves is the current
    value of a key that a capability of an invocation covered, which was accepted
    in the very call that stored the ticket; it is served before the end that the
    ticket records, which is within five minutes of the minting that the ticket
    records and no later than the end of the invocation and of every delegation it
    cites, and only if the content is the one the ticket is bound to.  (The text of
    a URI that parses is kept, and a time that was formatted parses to itself.) *)
Theorem signed_get_authorized `{Keccak256} `{UriLib} `{Blake3} `{CidLib} `{RowOrder} `{TokenLib} `{TimeLib} `{HookFormats} `{DagCbor}
    `{TokenCodec} `{Collation} `{TimeTextLaws} {B E : Type} `{!BlockStore B E} (now now' : Z) (db : Tables.Db) (b : B) (tickets : Tickets)
    (ticket_id : string) (md : Metadata) (h : Hash) (content : string) :
  (∀ t u, uri_new t = Some u → uri_str u = t) →
  ticket_history (B := B) tickets →
  signed_kv_get now now' db b tickets ticket_id = Ok (md, h, content) →
  ∃ t s i at_ minted db0 exp, tickets !! ticket_id = Some t ∧ get_kv (bs_read b) db s (tk_path t) = Ok (Some (md, h, content)) ∧
    minted_in (B := B) ticket_id t i at_ minted db0 ∧ accepted (B := B) i at_ db0 ∧
    parse_time (tk_created_at t) = Some minted ∧ parse_time (tk_expires_at t) = Some (exp * second)%Z ∧
    justifies i minted db0 s (tk_path t) exp ∧ (now' < exp * second)%Z ∧ validate_signed_kv_hash_binding t h = Ok tt.
Proof.
  intros Hlaw Hh Hg. unfold signed_kv_get in Hg. apply bind_Ok in Hg as (t & Ht & Hg). apply bind_Ok in Hg as ([s key] & Hv & Hg).
  apply bind_Ok in Hg as (found & Hf%map_err_Ok & Hg). apply bind_Ok in Hg as ([[md1 h1] c1] & ->%ok_or_Ok & Hg).
  apply bind_Ok in Hg as ([] & Hb & Hg). simplify_eq.
  unfold load_signed_kv_ticket in Ht. apply bind_Ok in Ht as (t1 & Ht%ok_or_Ok & Hl). apply bind_Ok in Hl as (sp1 & _ & [= ->]).
  pose proof (history_justified tickets Hh _ _ Ht) as (i & at_ & minted & db0 & text & s0 & exp & Hmint & Hacc & Hs0 & Hsp & Hcr & Hexp & Hj).
  unfold validate_signed_kv_ticket in Hv. apply bind_Ok in Hv as ([] & _ & Hv). apply bind_Ok in Hv as (e & He%ok_or_Ok & Hv).
  apply bind_Ok in Hv as ([] & Hlt%ensure_Ok%Z.ltb_lt & Hv). apply bind_Ok in Hv as (s1 & Hs1%map_err_Ok & [= -> <-]).
  rewrite Hsp in Hs1. pose proof (space_text_roundtrip text s0 s Hlaw Hs0 Hs1) as ->.
  exists t, s0, i, at_, minted, db0, exp. split_and!; try done. congruence.
Qed.

#[local] Existing Instances demo_keccak demo_blake demo_cids demo_order demo_tokens demo_formats demo_cbor
  demo_codec demo_collation demo_calendar.

Definition plain_uris : UriLib :=
  {| uri_new := λ s, (λ p, mkUri "tinycloud" None p None None) <$> strip_prefix "tinycloud:" s;
     uri_is_normalized := λ _, true; did_valid := λ _, true |}.
#[local] Existing Instance plain_uris.

Definition plain_times : TimeText :=
  {| from_unix := λ s, Some (s * second)%Z;
     format_time := λ t, if decide (0 ≤ t < 2 ^ 64)%Z then Some (fmt_u64 (Z.to_N t)) else None;
     parse_time := λ s, Z.of_N <$> parse_u64 s |}.
#[local] Existing Instance plain_times.
#[local] Instance plain_time_laws : TimeTextLaws.
Proof.
  split; [by intros s t [= <-]|]. intros t text. cbn [format_time parse_time plain_times]. case_decide as Ht; [|done].
  intros Heq. apply (inj Some) in Heq as <-. rewrite parse_fmt_u64 by (unfold u64_max; lia). cbn [fmap option_fmap option_map]. f_equal. lia.
Qed.

Lemma plain_uris_exact t u : uri_new t = Some u → uri_str u = t.
Proof. cbn. intros (p & Hp%strip_prefix_Some & ->)%fmap_Some. subst. unfold uri_str. simpl. by rewrite append_nil_r. Qed.

(** [owner] has put a value, and mints a ticket for it after fifty seconds. *)
Definition signed_invocation : InvocationInfo :=
  {| ii_capabilities := [demo_cap (Some "a") "tinycloud.kv/get"]; ii_invoker := owner; ii_parents := [];
     ii_invocation := mkUcan owner owner None (1000 * second) None [] [] "g1" |}.
Definition signed_request : SignedKvUrlRequest := mkSignedKvUrlRequest (space_to_string demo_space) "a" None None None None.
Definition signed_mint :=
  create_signed_kv_url None demo_nonce (50 * second) (50 * second) demo_setup demo_done.2 demo_run.2 ∅ signed_invocation "g1" signed_request "t1".
Definition signed_tickets : Tickets := signed_mint.2.2.
Definition signed_download : result N (Metadata * Hash * string) :=
  signed_kv_get (60 * second) (60 * second) demo_done.2 demo_run.2 signed_tickets "t1".

Lemma signed_download_eq : signed_download = Ok ([], hash "hello", "hello").
Proof. vm_compute. reflexivity. Qed.

Lemma signed_tickets_history : ticket_history (B := MemoryStore) signed_tickets.
Proof.
  unfold signed_tickets. destruct signed_mint as [r [[db' b'] tickets']] eqn:Hm. cbn [snd].
  exact (history_mint _ _ _ _ _ _ _ _ _ _ _ _ _ _ _ _ history_start Hm).
Qed.

Lemma signed_get_authorized_witness :
  ∃ t s i at_ minted db0 exp, signed_tickets !! "t1" = Some t ∧
    get_kv (bs_read demo_run.2) demo_done.2 s (tk_path t) = Ok (Some ([], hash "hello", "hello")) ∧
    minted_in (B := MemoryStore) "t1" t i at_ minted db0 ∧ accepted (B := MemoryStore) i at_ db0 ∧
    parse_time (tk_created_at t) = Some minted ∧ parse_time (tk_expires_at t) = Some (exp * second)%Z ∧
    justifies i minted db0 s (tk_path t) exp ∧ (60 * second < exp * second)%Z ∧ validate_signed_kv_hash_binding t (hash "hello") = Ok tt.
Proof.
  exact (signed_get_authorized (60 * second) (60 * second) demo_done.2 demo_run.2 signed_tickets "t1" [] (hash "hello") "hello"
    plain_uris_exact signed_tickets_history signed_download_eq).
Defined.
