(* ===== verification/Hooks.v ===== *)
(** * Hook streams and subscriptions: tinycloud-node-server/src/hooks.rs and
      routes/hooks.rs, with the subscription queries of tinycloud-core/src/db.rs

    A client that holds hook capabilities asks for a ticket, a signed list of
    scopes with an end, and opens a stream of write events with it; or it registers
    a webhook, a row that makes the node post events to a URL (Webhooks).  The
    model has the ticket with its authentication code, the lease counter of the
    streams as interleaved steps of threads, the filter and the deadline of a
    stream, and the routes.  The authentication code, Base64 and the JSON text of
    the claims are the class [TicketCodec]. *)
From S2P Require Import Prelude Str Chars Json Identity Resource Registry SqlCaveat ColumnEncryption Tables Storage Chain Tokens Events Demo Delegation Invocation Revocation Kv Transact Authority KvStore Query Invoke Replay Artifacts KvRoute SqlParser SqlAuthorizer SqlService SqlRoute SignedUrls.

(** ** Tickets (hooks.rs) *)

Record HookSubscription := mkHookSubscription {
  hk_space : string;
  hk_service : string;
  hk_path_prefix : option string;
  hk_abilities : list string;
}.

#[export] Instance HookSubscription_eq_dec : EqDecision HookSubscription.
Proof. solve_decision. Defined.

Record HookTicketClaims := mkHookTicketClaims {
  cl_v : N;
  cl_sub : string;
  cl_scopes : list HookSubscription;
  cl_iat : Z;
  cl_exp : Z;
  cl_parent_exp : Z;
}.

(** [serde_json] of the claims, URL-safe Base64, the HMAC under the ticket key. *)
Class TicketCodec := {
  claims_text : HookTicketClaims → string;
  claims_of_text : string → option HookTicketClaims;
  b64_encode : string → string;
  b64_decode : string → option string;
  ticket_mac : string → string;
}.

Class TicketCodecLaws `{TicketCodec} := {
  claims_text_read c : claims_of_text (claims_text c) = Some c;
  b64_read s : b64_decode (b64_encode s) = Some s;
  b64_no_dot s : contains_char "." (b64_encode s) = false;
}.

Section Tickets.
Context `{TicketCodec}.

Definition sign_ticket (c : HookTicketClaims) : string :=
  let encoded := b64_encode (claims_text c) in encoded +:+ "." +:+ b64_encode (ticket_mac encoded).

Definition verify_ticket (ticket : string) : result string HookTicketClaims :=
  '(encoded, sig) ← ok_or (split_once "." ticket) "invalid ticket format";
  sig ← ok_or (b64_decode sig) "invalid ticket signature";
  _ ← ensure (bool_decide (sig = ticket_mac encoded)) "invalid ticket signature";
  payload ← ok_or (b64_decode encoded) "invalid ticket payload";
  ok_or (claims_of_text payload) "invalid ticket payload".

(** A signed ticket is read back as it was signed. *)
Theorem ticket_roundtrip `{!TicketCodecLaws} (c : HookTicketClaims) : verify_ticket (sign_ticket c) = Ok c.
Proof.
  unfold verify_ticket, sign_ticket. set (e := b64_encode (claims_text c)). change ("." +:+ ?x) with (String "." x).
  rewrite split_once_app by apply b64_no_dot. cbn [ok_or]. rewrite bind_ret_l, b64_read. cbn [ok_or]. rewrite bind_ret_l, bool_decide_true by done.
  cbn [ensure]. rewrite bind_ret_l. unfold e. rewrite b64_read. cbn [ok_or]. rewrite bind_ret_l. by rewrite claims_text_read.
Qed.

End Tickets.

(** ** Scopes *)

Definition matches_scope (ev : WriteEvent) (scope : HookSubscription) : bool :=
  bool_decide (we_space ev = hk_space scope) && bool_decide (we_service ev = hk_service scope) &&
  (bool_decide (hk_abilities scope = []) || bool_decide (we_ability ev ∈ hk_abilities scope)) &&
  match hk_path_prefix scope, we_path ev with
  | None, _ => true
  | Some prefix, Some p => bool_decide (p = prefix) || starts_with (prefix +:+ "/") p
  | Some prefix, None => is_empty prefix
  end.

Definition normalize_path_prefix (p : option string) : option string := p ≫= normalize_prefix.

Definition hook_scope_path (service : string) (prefix : option string) : string :=
  match prefix with
  | Some p => if is_empty p then service else service +:+ "/" +:+ p
  | None => service
  end.

(** ** The lease counter (hooks.rs) *)

Module lease.

(** What a thread knows: the counter it loaded; the leases that are held. *)
Record State := mkState { active : N; loaded : gmap nat N; held : gset nat }.

Definition start : State := mkState 0 ∅ ∅.

(** The steps of [try_acquire_stream] and of dropping a lease. *)
Inductive step (max : N) : State → State → Prop :=
| step_load st t :
    loaded st !! t = None → t ∉ held st → (active st < max)%N →
    step max st (mkState (active st) (<[t := active st]> (loaded st)) (held st))
| step_refused st t :
    loaded st !! t = None → (max ≤ active st)%N → step max st st
| step_exchanged st t :
    loaded st !! t = Some (active st) →
    step max st (mkState (active st + 1) (delete t (loaded st)) ({[t]} ∪ held st))
| step_contended st t c :
    loaded st !! t = Some c → c ≠ active st →
    step max st (mkState (active st) (delete t (loaded st)) (held st))
| step_drop st t :
    t ∈ held st → step max st (mkState (active st - 1) (loaded st) (held st ∖ {[t]})).

Record inv (max : N) (st : State) : Prop := {
  inv_count : active st = N.of_nat (size (held st));
  inv_loaded : ∀ t c, loaded st !! t = Some c → (c < max)%N ∧ t ∉ held st;
  inv_max : (active st ≤ max)%N;
}.

Lemma inv_start max : inv max start.
Proof. split; [done|by intros t c Hl; cbn [loaded start] in Hl; rewrite lookup_empty in Hl|apply N.le_0_l]. Qed.

Lemma inv_step max st st' : step max st st' → inv max st → inv max st'.
Proof.
  intros Hs [Hc Hl Hm]. destruct Hs as [st t Ht Hh Hlt|st t Ht Hge|st t Ht|st t c Ht Hne|st t Hh]; [| |  | |]; cbn.
  - split; cbn; [done| |done]. intros t' c. rewrite lookup_insert_Some. intros [[<- <-]|[_ Hx]]; [done|by apply (Hl t')].
  - by split.
  - destruct (Hl _ _ Ht) as [Hlt Hnh]. split; cbn.
    + rewrite size_union by set_solver. rewrite size_singleton. lia.
    + intros t' c'. rewrite lookup_delete_Some. intros [Hne Hx]. destruct (Hl _ _ Hx). set_solver.
    + lia.
  - split; cbn; [done| |done]. intros t' c'. rewrite lookup_delete_Some. intros [_ Hx]. by apply (Hl t').
  - assert (size (held st) = S (size (held st ∖ {[t]}))) as Hsz.
    { assert (held st = {[t]} ∪ (held st ∖ {[t]})) as Heq by (rewrite <- union_difference_L; set_solver).
      rewrite Heq at 1. rewrite size_union by set_solver. by rewrite size_singleton. }
    split; cbn; [lia| |lia]. intros t' c' Hx. destruct (Hl _ _ Hx). set_solver.
Qed.

End lease.

(** Whatever way threads interleave, the number of open event streams is the
    counter and never exceeds the configured maximum: a thread takes a lease only
    if the counter is still what it compared with the maximum. *)
Theorem stream_leases_bounded (max : N) (st : lease.State) :
  rtc (lease.step max) lease.start st →
  lease.active st = N.of_nat (size (lease.held st)) ∧ (N.of_nat (size (lease.held st)) ≤ max)%N.
Proof.
  intros Hr. assert (lease.inv max st) as [Hc _ Hm].
  { revert Hr. generalize (lease.inv_start max). generalize lease.start. intros s Hi Hr. induction Hr as [|x y z Hxy _ IH]; [done|].
    apply IH. by eapply lease.inv_step. }
  split; [done|]. lia.
Qed.

Definition one_lease : lease.State := lease.mkState (0 + 1) (delete 7%nat (<[7%nat := 0%N]> ∅)) ({[7%nat]} ∪ ∅).

Lemma stream_leases_bounded_witness :
  lease.active one_lease = N.of_nat (size (lease.held one_lease)) ∧ (N.of_nat (size (lease.held one_lease)) ≤ 1)%N.
Proof.
  apply (stream_leases_bounded 1 one_lease). eapply rtc_l.
  - apply (lease.step_load 1 lease.start 7%nat); [done|set_solver|done].
  - apply rtc_once. exact (lease.step_exchanged 1 (lease.mkState 0 (<[7%nat := 0%N]> ∅) ∅) 7%nat (lookup_insert_eq _ _ _)).
Defined.

(** ** Configuration (config.rs) *)

Record HooksConfig := mkHooksConfig {
  max_ticket_ttl_seconds : N;
  max_scopes_per_ticket : N;
  max_active_sse_streams : N;
  sse_broadcast_capacity : N;
  max_webhook_subscriptions_per_space : N;
  webhook_timeout_seconds : N;
  webhook_max_attempts : N;
}.

Definition default_hooks : HooksConfig := mkHooksConfig 300 32 100 1024 5 10 5.

(** ** Authorization of a scope (routes/hooks.rs) *)

(** The abilities a service's events carry; [duckdb] says whether the feature is
    compiled in. *)
Definition hook_service_abilities (duckdb : bool) (service : string) : option (list string) :=
  if decide (service = "kv") then Some ["tinycloud.kv/put"; "tinycloud.kv/del"]
  else if decide (service = "sql") then Some ["tinycloud.sql/write"]
  else if duckdb && bool_decide (service = "duckdb") then Some ["tinycloud.duckdb/write"]
  else None.

Definition validate_subscription (duckdb : bool) (s : HookSubscription) : result Status unit :=
  allowed ← ok_or (hook_service_abilities duckdb (hk_service s)) 400%N;
  ensure (forallb (λ a, mem a allowed) (hk_abilities s)) 400%N.

Definition scope_extends (requested authorized : string) : bool :=
  bool_decide (requested = authorized) || starts_with (authorized +:+ "/") requested.

(** One capability allows [ability] on the scope. *)
Definition allows_hook (s : HookSubscription) (ability : string) (c : Capability) : bool :=
  match cap_resource c with
  | TinyCloud r =>
      bool_decide (cap_ability c = ability) && bool_decide (service r = "hooks") &&
      bool_decide (space_to_string (space r) = hk_space s) &&
      match path r with
      | Some p => scope_extends (hook_scope_path (hk_service s) (hk_path_prefix s)) p
      | None => true
      end
  | _ => false
  end.

Definition is_hook_action_authorized (i : InvocationInfo) (s : HookSubscription) (ability : string) : bool :=
  existsb (allows_hook s ability) (ii_capabilities i).

Definition normalized_scope (s : HookSubscription) : HookSubscription :=
  mkHookSubscription (hk_space s) (hk_service s) (normalize_path_prefix (hk_path_prefix s)) (hk_abilities s).

(** One turn of the loop over the requested scopes. *)
Definition check_scope (duckdb : bool) (i : InvocationInfo) (s : HookSubscription) : result Status HookSubscription :=
  let s := normalized_scope s in
  _ ← validate_subscription duckdb s;
  _ ← ensure (is_hook_action_authorized i s "tinycloud.hooks/subscribe") 403%N;
  Ok s.

(** [x as i64] of an unsigned integer. *)
Definition u64_as_i64 (n : N) : Z := wrap_i64 (Z.of_N n).

(** ** Tickets and streams (routes/hooks.rs) *)

Section Streams.
Context `{TimeText} `{RowOrder} `{TicketCodec}.

Definition hook_ticket_expiry (cfg : HooksConfig) (db : Tables.Db) (i : InvocationInfo) (ttl_seconds : option N) (now : Z) : Z :=
  let invocation_exp := invocation_expiry i in
  let parent_exp := default invocation_exp (find_parent_expiry db i) in
  let ttl := u64_as_i64 (N.min (default (max_ticket_ttl_seconds cfg) ttl_seconds) (max_ticket_ttl_seconds cfg)) in
  Z.min (Z.min (wrap_i64 (unix_timestamp now + ttl)) invocation_exp) parent_exp.

(** [create_hook_ticket] and [mint_hook_ticket]. *)
Definition mint_hook_ticket (cfg : HooksConfig) (duckdb : bool) (db : Tables.Db) (i : InvocationInfo)
    (subscriptions : list HookSubscription) (ttl_seconds : option N) (now : Z) : result Status (string * string) :=
  _ ← ensure (negb (bool_decide (subscriptions = []))) 400%N;
  _ ← ensure (N.of_nat (length subscriptions) <=? max_scopes_per_ticket cfg)%N 400%N;
  scopes ← mapM (check_scope duckdb i) subscriptions;
  let exp := hook_ticket_expiry cfg db i ttl_seconds now in
  let parent_exp := default (invocation_expiry i) (find_parent_expiry db i) in
  _ ← ensure (unix_timestamp now <? exp)%Z 401%N;
  let ticket := sign_ticket (mkHookTicketClaims 1 (ii_invoker i) scopes (unix_timestamp now) exp parent_exp) in
  expires_at ← text_of_unix exp;
  Ok (ticket, expires_at).

Definition stream_deadline (cfg : HooksConfig) (c : HookTicketClaims) (now : Z) : Z :=
  Z.min (Z.min (cl_exp c) (cl_parent_exp c)) (wrap_i64 (unix_timestamp now + u64_as_i64 (max_ticket_ttl_seconds cfg))).

(** [hook_events] up to the stream: the claims of the ticket and the second the
    stream ends; [streams] are the leases that are out. *)
Definition hook_events (cfg : HooksConfig) (streams : N) (ticket : string) (now : Z) : result Status (HookTicketClaims * Z) :=
  c ← map_err (λ _, 401%N) (verify_ticket ticket);
  _ ← ensure (streams <? max_active_sse_streams cfg)%N 429%N;
  let deadline := stream_deadline cfg c now in
  _ ← ensure (unix_timestamp now <? deadline)%Z 401%N;
  Ok (c, deadline).

End Streams.

(** What one turn of the stream's [select!] finds ready. *)
Inductive Selected := Deadline | Received (ev : WriteEvent) | Lagged | Closed.

(** The stream itself: what it yields for what the turns find. *)
Fixpoint stream_yields (scopes : list HookSubscription) (turns : list Selected) : list WriteEvent :=
  match turns with
  | [] | Deadline :: _ | Closed :: _ => []
  | Lagged :: turns => stream_yields scopes turns
  | Received ev :: turns =>
      if existsb (matches_scope ev) scopes then ev :: stream_yields scopes turns else stream_yields scopes turns
  end.

(** The path of an event as a hook capability names it. *)
Definition event_scope (ev : WriteEvent) : string :=
  match we_path ev with Some p => we_service ev +:+ "/" +:+ p | None => we_service ev end.

Lemma scope_extends_trans a b c : scope_extends a b = true → scope_extends b c = true → scope_extends a c = true.
Proof.
  unfold scope_extends. rewrite !orb_true_iff, !bool_decide_eq_true. intros [->|Hab] [->|Hbc]; auto.
  right. eapply starts_with_trans; [exact Hbc|]. apply starts_with_spec in Hab as (r & ->). apply starts_with_spec.
  exists ("/" +:+ r). by rewrite append_assoc.
Qed.

(** An event in a normalized scope lies below the path of the scope. *)
Lemma matches_scope_extends ev s :
  matches_scope ev s = true → hk_path_prefix s = normalize_path_prefix (hk_path_prefix s) →
  we_space ev = hk_space s ∧ scope_extends (event_scope ev) (hook_scope_path (hk_service s) (hk_path_prefix s)) = true.
Proof.
  unfold matches_scope. intros [[[Hsp%bool_decide_eq_true Hsv%bool_decide_eq_true]%andb_true_iff _]%andb_true_iff Hp]%andb_true_iff Hn.
  split; [done|]. unfold event_scope, scope_extends, hook_scope_path. rewrite <- Hsv. destruct (hk_path_prefix s) as [p|].
  - assert (is_empty p = false) as He.
    { cbn in Hn. unfold normalize_prefix in Hn. destruct (is_empty (trim_matches "/" p)) eqn:Ht; [done|]. congruence. }
    rewrite He. destruct (we_path ev) as [q|]; [|congruence].
    apply orb_true_iff in Hp as [->%bool_decide_eq_true|(r & ->)%starts_with_spec].
    + by rewrite bool_decide_true.
    + apply orb_true_iff. right. apply starts_with_spec. exists r. by rewrite !append_assoc.
  - destruct (we_path ev) as [q|]; [|by rewrite bool_decide_true]. apply orb_true_iff. right. apply starts_with_spec.
    exists q. by rewrite append_assoc.
Qed.

Lemma trim_end_idem c s : trim_end c (trim_end c s) = trim_end c s.
Proof.
  induction s as [|a s IH]; [done|]. simpl. destruct (trim_end c s) as [|b r] eqn:Hs.
  - case_decide; [done|]. simpl. by rewrite decide_False.
  - change (trim_end c (String a (String b r))) with
      (match trim_end c (String b r) with "" => if decide (a = c) then "" else String a "" | r' => String a r' end). by rewrite IH.
Qed.

Lemma trim_matches_idem c s : trim_matches c (trim_matches c s) = trim_matches c s.
Proof.
  unfold trim_matches. enough (trim_start c (trim_end c (trim_start c s)) = trim_end c (trim_start c s)) as -> by apply trim_end_idem.
  induction s as [|a s IH]; [done|]. simpl. case_decide as Ha; [done|]. simpl.
  destruct (trim_end c s); simpl; [by rewrite (decide_False (P := a = c)) by done; simpl; rewrite decide_False by done|by rewrite decide_False by done].
Qed.

Lemma normalize_path_prefix_idem p : normalize_path_prefix (normalize_path_prefix p) = normalize_path_prefix p.
Proof.
  destruct p as [p|]; [|done]. unfold normalize_path_prefix. cbn. unfold normalize_prefix.
  destruct (is_empty (trim_matches "/" p)) eqn:He; [done|]. cbn. by rewrite trim_matches_idem, He.
Qed.

Lemma stream_yields_spec ev scopes turns :
  ev ∈ stream_yields scopes turns → ∃ s, s ∈ scopes ∧ matches_scope ev s = true.
Proof.
  induction turns as [|[|ev'| |] turns IH]; cbn; try (by intros ?%not_elem_of_nil); [|done].
  destruct (existsb (matches_scope ev') scopes) eqn:He; [|done]. rewrite elem_of_cons. intros [->|Hin]; [|by apply IH].
  apply existsb_exists in He as (s & Hs & Hm). exists s. by rewrite list_elem_of_In.
Qed.

Lemma check_scope_Ok duckdb i s s' :
  check_scope duckdb i s = Ok s' →
  s' = normalized_scope s ∧ is_hook_action_authorized i s' "tinycloud.hooks/subscribe" = true ∧ validate_subscription duckdb s' = Ok tt.
Proof.
  unfold check_scope. intros Hc. apply bind_Ok in Hc as ([] & Hv & Hc). apply bind_Ok in Hc as ([] & Ha%ensure_Ok & Hc). by simplify_eq.
Qed.

Lemma mapM_result_elem {E A B} (f : A → result E B) l k y : mapM f l = Ok k → y ∈ k → ∃ x, x ∈ l ∧ f x = Ok y.
Proof.
  revert k. induction l as [|x l IH]; intros k; cbn; [intros [= <-]; by intros ?%not_elem_of_nil|].
  intros Hm. apply bind_Ok in Hm as (y' & Hy & Hm). apply bind_Ok in Hm as (k' & Hk & [= <-]).
  rewrite elem_of_cons. intros [->|Hin].
  - exists x. split; [apply elem_of_cons; by left|done].
  - destruct (IH _ Hk Hin) as (x' & ? & ?). exists x'. split; [apply elem_of_cons; by right|done].
Qed.

Lemma hook_authorized_covers i ev s ability :
  is_hook_action_authorized i s ability = true → matches_scope ev s = true →
  hk_path_prefix s = normalize_path_prefix (hk_path_prefix s) →
  ∃ c r, c ∈ ii_capabilities i ∧ cap_resource c = TinyCloud r ∧ cap_ability c = ability ∧ service r = "hooks" ∧
    space_to_string (space r) = we_space ev ∧ ∀ p, path r = Some p → scope_extends (event_scope ev) p = true.
Proof.
  intros (c & Hin & Hc)%existsb_exists Hm Hn. destruct (matches_scope_extends ev s Hm Hn) as [Hsp Hext].
  unfold allows_hook in Hc. destruct (cap_resource c) as [r|] eqn:Hr; [|done].
  rewrite !andb_true_iff, !bool_decide_eq_true in Hc. destruct Hc as [[[Ha Hs] Hspace] Hp].
  exists c, r. split_and!; [by apply list_elem_of_In|done..|congruence|]. intros p Hpr. rewrite Hpr in Hp. by eapply scope_extends_trans.
Qed.

Lemma wrap_i64_small z : (0 ≤ z < 2 ^ 63)%Z → wrap_i64 z = z.
Proof. intros Hz. unfold wrap_i64. rewrite Z.mod_small; lia. Qed.

(** C28: a hook stream shows what its ticket was authorized for.  Every event that the
    stream of a minted ticket yields lies in the space and below the path of a
    hook capability of the invocation that asked for the ticket; the stream ends
    no later than that invocation and than every delegation it cites, and within
    the configured lifetime. *)
Theorem hook_stream_authorized `{TimeText} `{RowOrder} `{TicketCodecLaws} (cfg : HooksConfig) (duckdb : bool) (db : Tables.Db)
    (i : InvocationInfo) (subscriptions : list HookSubscription) (ttl : option N) (now now' : Z) (streams : N)
    (ticket expires_at : string) (c : HookTicketClaims) (deadline : Z) :
  (Z.of_N (max_ticket_ttl_seconds cfg) < 2 ^ 62)%Z → (0 ≤ unix_timestamp now' < 2 ^ 62)%Z →
  mint_hook_ticket cfg duckdb db i subscriptions ttl now = Ok (ticket, expires_at) →
  hook_events cfg streams ticket now' = Ok (c, deadline) →
  (deadline ≤ invocation_expiry i)%Z ∧ (deadline ≤ unix_timestamp now' + Z.of_N (max_ticket_ttl_seconds cfg))%Z ∧
  (∀ d e, d ∈ delegations db → d_id d ∈ hash_of_cid <$> ii_parents i → d_expiry d = Some e → (deadline ≤ unix_timestamp e)%Z) ∧
  ∀ turns ev, ev ∈ stream_yields (cl_scopes c) turns →
    ∃ cap r, cap ∈ ii_capabilities i ∧ cap_resource cap = TinyCloud r ∧ cap_ability cap = "tinycloud.hooks/subscribe" ∧
      service r = "hooks" ∧ space_to_string (space r) = we_space ev ∧ ∀ p, path r = Some p → scope_extends (event_scope ev) p = true.
Proof.
  intros Httl Hnow Hm He. unfold mint_hook_ticket in Hm. apply bind_Ok in Hm as ([] & _ & Hm). apply bind_Ok in Hm as ([] & _ & Hm).
  apply bind_Ok in Hm as (scopes & Hscopes & Hm). apply bind_Ok in Hm as ([] & _ & Hm). apply bind_Ok in Hm as (text & _ & Hm).
  simplify_eq. unfold hook_events in He. rewrite ticket_roundtrip in He. cbn [map_err] in He. rewrite bind_ret_l in He.
  apply bind_Ok in He as ([] & _ & He). apply bind_Ok in He as ([] & _ & He). simplify_eq. cbn [cl_scopes].
  unfold stream_deadline, hook_ticket_expiry. cbn [cl_exp cl_parent_exp].
  assert (wrap_i64 (unix_timestamp now' + u64_as_i64 (max_ticket_ttl_seconds cfg)) =
    unix_timestamp now' + Z.of_N (max_ticket_ttl_seconds cfg))%Z as Hw.
  { set (m := Z.of_N (max_ticket_ttl_seconds cfg)) in *. assert (0 ≤ m)%Z as Hm0 by (unfold m; lia). assert (u64_as_i64 (max_ticket_ttl_seconds cfg) = m) as -> by (apply wrap_i64_small; lia).
    rewrite wrap_i64_small; lia. }
  rewrite Hw. split_and!; [lia|lia| |].
  - intros d e Hd Hid Hexp. destruct (find_parent_expiry_bound db i d e Hd Hid Hexp) as (m & -> & Hle). cbn [default from_option id]. lia.
  - intros turns ev (s & Hs & Hmatch)%stream_yields_spec. destruct (mapM_result_elem _ _ _ _ Hscopes Hs) as (s0 & _ & Hc).
    apply check_scope_Ok in Hc as (-> & Hauth & _). eapply hook_authorized_covers; [done..|]. cbn. by rewrite normalize_path_prefix_idem.
Qed.

(** A text without dots is the text with its dots escaped. *)
Fixpoint escape_dots (s : string) : string :=
  match s with
  | "" => ""
  | String c s =>
      if decide (c = "."%char) then String "~" (String "d" (escape_dots s))
      else if decide (c = "~"%char) then String "~" (String "t" (escape_dots s)) else String c (escape_dots s)
  end.
Fixpoint unescape_dots (s : string) : option string :=
  match s with
  | "" => Some ""
  | String "~" (String c s) => String (if decide (c = "d"%char) then "." else "~") <$> unescape_dots s
  | String c s => String c <$> unescape_dots s
  end.

Lemma undot_escape s : unescape_dots (escape_dots s) = Some s.
Proof.
  induction s as [|c s IH]; [done|]. cbn [escape_dots]. case_decide as Hd; [by subst; cbn; rewrite IH|].
  case_decide as Ht; [by subst; cbn; rewrite IH|]. destruct c as [[] [] [] [] [] [] [] []]; try done; cbn; by rewrite IH.
Qed.
Lemma escape_no_dot s : contains_char "." (escape_dots s) = false.
Proof.
  induction s as [|c s IH]; [done|]. cbn [escape_dots]. repeat case_decide; rewrite !contains_char_cons, IH; try done.
  by rewrite bool_decide_false.
Qed.

#[local] Instance HookSubscription_countable : Countable HookSubscription :=
  inj_countable' (λ s, (hk_space s, hk_service s, hk_path_prefix s, hk_abilities s))
    (λ '(a, b, c, d), mkHookSubscription a b c d) ltac:(by intros []).
#[local] Instance HookTicketClaims_eq_dec : EqDecision HookTicketClaims.
Proof. solve_decision. Defined.
#[local] Instance HookTicketClaims_countable : Countable HookTicketClaims :=
  inj_countable' (λ c, (cl_v c, cl_sub c, cl_scopes c, cl_iat c, cl_exp c, cl_parent_exp c))
    (λ '(a, b, c, d, e, f), mkHookTicketClaims a b c d e f) ltac:(by intros []).

Definition binary_codec : TicketCodec :=
  {| claims_text := λ c, bits (encode c); claims_of_text := λ s, p ← unbits s; decode p;
     b64_encode := escape_dots; b64_decode := unescape_dots; ticket_mac := λ s, s |}.
#[local] Existing Instance binary_codec.
#[local] Instance binary_codec_laws : TicketCodecLaws.
Proof.
  split; cbn [claims_text claims_of_text b64_encode b64_decode binary_codec].
  - intros c. rewrite unbits_bits. apply decode_encode.
  - exact undot_escape.
  - exact escape_no_dot.
Qed.

#[local] Existing Instances demo_keccak demo_blake demo_cids demo_order demo_tokens demo_formats demo_cbor
  demo_codec demo_collation demo_calendar plain_uris plain_times.

Definition hook_cap : Capability :=
  mkCapability (TinyCloud {| space := demo_space; service := "hooks"; path := Some "kv/docs"; query := None; fragment := None |})
    "tinycloud.hooks/subscribe" [].
Definition hook_call (invoker bytes : string) : InvocationInfo :=
  {| ii_capabilities := [hook_cap]; ii_invoker := invoker; ii_parents := [];
     ii_invocation := mkUcan invoker invoker None (1000 * second) None [] [] bytes |}.
Definition hook_request : list HookSubscription :=
  [mkHookSubscription (space_to_string demo_space) "kv" (Some "/docs/") ["tinycloud.kv/put"]].
Definition hook_claims : HookTicketClaims :=
  mkHookTicketClaims 1 owner (normalized_scope <$> hook_request) 50 350 1000.

Lemma mint_hook_ticket_intro `{TimeText} `{RowOrder} `{TicketCodec} cfg duckdb db i subscriptions ttl now scopes exp text :
  subscriptions ≠ [] → (N.of_nat (length subscriptions) <=? max_scopes_per_ticket cfg)%N = true →
  mapM (check_scope duckdb i) subscriptions = Ok scopes → hook_ticket_expiry cfg db i ttl now = exp →
  (unix_timestamp now <? exp)%Z = true → text_of_unix exp = Ok text →
  mint_hook_ticket cfg duckdb db i subscriptions ttl now =
  Ok (sign_ticket (mkHookTicketClaims 1 (ii_invoker i) scopes (unix_timestamp now) exp
        (default (invocation_expiry i) (find_parent_expiry db i))), text).
Proof.
  intros Hne Hlen Hs <- Hlt Ht. unfold mint_hook_ticket. rewrite bool_decide_false by done. cbn [negb ensure]. rewrite bind_ret_l, Hlen.
  cbn [ensure]. rewrite bind_ret_l, Hs, bind_ret_l, Hlt. cbn [ensure]. rewrite bind_ret_l, Ht. by rewrite bind_ret_l.
Qed.

Lemma hook_minted :
  mint_hook_ticket default_hooks false demo_done.2 (hook_call owner "h1") hook_request None (50 * second) =
  Ok (sign_ticket hook_claims, "350000000000").
Proof.
  rewrite (mint_hook_ticket_intro default_hooks false _ _ _ _ _ (cl_scopes hook_claims) 350 "350000000000");
    [|done|vm_compute; reflexivity..].
  do 3 f_equal; vm_compute; reflexivity.
Qed.

Lemma hook_stream_opened :
  hook_events default_hooks 0 (sign_ticket hook_claims) (60 * second) = Ok (hook_claims, 350%Z).
Proof. unfold hook_events. rewrite ticket_roundtrip. vm_compute. reflexivity. Qed.

Lemma hook_stream_authorized_witness :
  (350 ≤ invocation_expiry (hook_call owner "h1"))%Z ∧
  (350 ≤ unix_timestamp (60 * second) + Z.of_N (max_ticket_ttl_seconds default_hooks))%Z.
Proof.
  destruct (hook_stream_authorized default_hooks false demo_done.2 (hook_call owner "h1") hook_request None (50 * second) (60 * second) 0
    (sign_ticket hook_claims) "350000000000" hook_claims 350 ltac:(done) ltac:(done) hook_minted hook_stream_opened) as (Hi & Ht & _).
  exact (conj Hi Ht).
Defined.

(** The hook routes do not authorize the invocation they are called with: a stranger
    without any delegation, whose invocation the node rejects, is given a ticket
    for the events of the space. *)
Theorem unauthorized_invocation_gets_ticket :
  (verify_auth None demo_nonce (50 * second) demo_setup demo_done.2 demo_run.2 (hook_call bob "h2") "h2").1 = Err 401%N ∧
  ∃ ticket, mint_hook_ticket default_hooks false demo_done.2 (hook_call bob "h2") hook_request None (50 * second) =
    Ok (ticket, "350000000000").
Proof.
  split; [vm_compute; reflexivity|]. eexists.
  apply (mint_hook_ticket_intro _ _ _ _ _ _ _ (cl_scopes hook_claims) 350); [done|vm_compute; reflexivity..].
Qed.
