(* ===== verification/Webhooks.v ===== *)
(** * Webhooks: tinycloud-node-server/src/routes/hooks.rs 177-348 and
      webhook_dispatcher.rs, the subscription and delivery queries of
      tinycloud-core/src/db.rs 425-648, and the deliveries of database writes of
      routes/mod.rs 2290-2383

    A subscription is a row that asks for posts to a URL; a write event makes a
    delivery row for each matching subscription (key-value writes in [Invocation],
    database writes here), and a dispatcher that wakes every second posts what is
    due, at most a batch of 32, and records the answer.  The answers of the
    callbacks, the instants and the HMAC are given.  The theorems bound the posts of
    a delivery and show that every delivery comes to an end. *)
From S2P Require Import Prelude Str Chars Json Identity Resource Registry SqlCaveat ColumnEncryption Tables Storage Chain Tokens Events Demo Delegation Invocation Revocation Kv Transact Authority KvStore Query Invoke Replay Artifacts KvRoute SqlParser SqlAuthorizer SqlService SqlRoute SignedUrls Hooks.

(** ** Subscriptions (db.rs) *)

(** SQL's [LIKE] without an [ESCAPE] clause: the database's own escape character,
    none on SQLite and the backslash on PostgreSQL. *)
Class LikeEscape := like_escape : option ascii.

Fixpoint like_plain `{Collation} `{LikeEscape} (pattern text : string) : bool :=
  match pattern with
  | "" => is_empty text
  | String c p =>
      if decide (Some c = like_escape) then
        match p, text with
        | String c p, String x t => bool_decide (fold_char x = fold_char c) && like_plain p t
        | _, _ => false
        end
      else if decide (c = "%"%char) then
        (fix any (t : string) : bool :=
           like_plain p t || match t with String _ t => any t | "" => false end) text
      else if decide (c = "_"%char) then match text with String _ t => like_plain p t | "" => false end
      else match text with String x t => bool_decide (fold_char x = fold_char c) && like_plain p t | "" => false end
  end.

Definition count_active_hook_subscriptions (db : Tables.Db) (space_id : string) : N :=
  N.of_nat (length (List.filter (λ h, bool_decide (hs_space_id h = space_id) && hs_active h) (hook_subscriptions db))).

Definition create_hook_subscription (m : HookSubscriptionRow) (db : Tables.Db) : result DbErr Tables.Db :=
  t ← insert_many "hook_subscription" (λ a b, bool_decide (hs_id a = hs_id b)) (λ _, true) [m] (hook_subscriptions db);
  Ok (set_hook_subscriptions t db).

Definition find_hook_subscription (db : Tables.Db) (id : string) : option HookSubscriptionRow :=
  find (λ h, bool_decide (hs_id h = id)) (hook_subscriptions db).

Definition deactivated (h : HookSubscriptionRow) : HookSubscriptionRow :=
  mkHookSubscriptionRow (hs_id h) (hs_subscriber_did h) (hs_space_id h) (hs_target_service h) (hs_path_prefix h)
    (hs_abilities_json h) (hs_callback_url h) (hs_encrypted_secret h) (hs_secret_key_id h) false (hs_created_at h).

Definition deactivate_hook_subscription (id : string) (db : Tables.Db) : Tables.Db :=
  set_hook_subscriptions ((λ h, if decide (hs_id h = id) then deactivated h else h) <$> hook_subscriptions db) db.

Definition prefix_listed `{Collation} `{LikeEscape} (prefix : option string) (h : HookSubscriptionRow) : bool :=
  match prefix ≫= normalize_prefix with
  | Some p =>
      match hs_path_prefix h with
      | Some q => bool_decide (q = p) || like_plain (p +:+ "/" +:+ "%") q
      | None => false
      end
  | None => true
  end.

Definition list_active_hook_subscriptions `{Collation} `{LikeEscape} `{RowOrder} (db : Tables.Db) (space_id target_service : string)
    (prefix : option string) : list HookSubscriptionRow :=
  sort_by (λ a b, String.leb (hs_created_at a) (hs_created_at b))
    (select (λ h, bool_decide (hs_space_id h = space_id) && bool_decide (hs_target_service h = target_service) && hs_active h &&
                  prefix_listed prefix h) (hook_subscriptions db)).

(** ** The routes (routes/hooks.rs) *)

Record HookWebhookRequest := mkHookWebhookRequest {
  wr_space : string;
  wr_service : string;
  wr_path_prefix : option string;
  wr_abilities : list string;
  wr_callback_url : string;
  wr_secret : string;
}.

Record HookWebhookResponse := mkHookWebhookResponse {
  wp_id : string;
  wp_subscriber_did : string;
  wp_space : string;
  wp_service : string;
  wp_path_prefix : option string;
  wp_abilities : list string;
  wp_callback_url : string;
  wp_secret_key_id : string;
  wp_active : bool;
  wp_created_at : string;
}.

Definition HOOK_WEBHOOK_SECRET_KEY_ID : string := "primary".

Section Routes.
Context `{Blake3} `{CidLib} `{HookFormats} `{RowOrder} `{Collation} `{LikeEscape}.
(** [reqwest::Url::parse] succeeds. *)
Context (url_parses : string → bool).

Definition normalize_webhook_request (duckdb : bool) (r : HookWebhookRequest) : result Status HookSubscription :=
  let s := mkHookSubscription (wr_space r) (wr_service r) (normalize_path_prefix (wr_path_prefix r)) (wr_abilities r) in
  _ ← validate_subscription duckdb s;
  _ ← ensure (negb (is_empty (trim (wr_callback_url r)))) 400%N;
  _ ← ensure (negb (is_empty (wr_secret r))) 400%N;
  _ ← ensure (url_parses (wr_callback_url r)) 400%N;
  Ok s.

Definition hook_subscription_id (subscriber_did : string) (s : HookSubscription) (callback_url created_at : string) : string :=
  cid_text (hash (subscriber_did +:+ ":" +:+ hk_space s +:+ ":" +:+ hk_service s +:+ ":" +:+ default "" (hk_path_prefix s) +:+ ":" +:+
    callback_url +:+ ":" +:+ created_at)).

(** [hook_subscription::Model::set_abilities]. *)
Definition set_abilities (abilities : list string) : option string :=
  match abilities with [] => None | l => Some (json_text (JArray (JString <$> l))) end.

Definition webhook_response_from_model (h : HookSubscriptionRow) : result Status HookWebhookResponse :=
  abilities ← ok_or (subscription_abilities h) 500%N;
  Ok (mkHookWebhookResponse (hs_id h) (hs_subscriber_did h) (hs_space_id h) (hs_target_service h) (hs_path_prefix h) abilities
        (hs_callback_url h) (hs_secret_key_id h) (hs_active h) (hs_created_at h)).

(** The row of a request; [nonce] is the cipher's random nonce. *)
Definition webhook_model (encryption : ColumnEncryption) (nonce : string) (i : InvocationInfo) (s : HookSubscription)
    (r : HookWebhookRequest) (created_at : string) : HookSubscriptionRow :=
  mkHookSubscriptionRow (hook_subscription_id (ii_invoker i) s (wr_callback_url r) created_at) (ii_invoker i) (hk_space s)
    (hk_service s) (hk_path_prefix s) (set_abilities (hk_abilities s)) (wr_callback_url r)
    (encrypt encryption nonce (wr_secret r)) HOOK_WEBHOOK_SECRET_KEY_ID true created_at.

Definition create_webhook (cfg : HooksConfig) (duckdb : bool) (encryption : ColumnEncryption) (nonce : string) (now : Z)
    (db : Tables.Db) (i : InvocationInfo) (r : HookWebhookRequest) : result Status HookWebhookResponse * Tables.Db :=
  match
    (s ← normalize_webhook_request duckdb r;
     _ ← ensure (is_hook_action_authorized i s "tinycloud.hooks/register") 403%N;
     _ ← ensure (count_active_hook_subscriptions db (hk_space s) <? max_webhook_subscriptions_per_space cfg)%N 429%N;
     let m := webhook_model encryption nonce i s r (rfc3339 now) in
     db ← map_err (λ _, 500%N) (create_hook_subscription m db);
     Ok (m, db))
  with
  | Ok (m, db) => (webhook_response_from_model m, db)
  | Err e => (Err e, db)
  end.

Definition list_webhooks (duckdb : bool) (db : Tables.Db) (i : InvocationInfo) (query_space query_service : string)
    (query_prefix : option string) : result Status (list HookWebhookResponse) :=
  let prefix := normalize_path_prefix query_prefix in
  let s := mkHookSubscription query_space query_service prefix [] in
  _ ← validate_subscription duckdb s;
  _ ← ensure (is_hook_action_authorized i s "tinycloud.hooks/list") 403%N;
  mapM webhook_response_from_model (list_active_hook_subscriptions db query_space query_service prefix).

Definition delete_webhook (db : Tables.Db) (i : InvocationInfo) (id : string) : result Status Tables.Db :=
  h ← ok_or (find_hook_subscription db id) 404%N;
  abilities ← ok_or (subscription_abilities h) 500%N;
  let s := mkHookSubscription (hs_space_id h) (hs_target_service h) (hs_path_prefix h) abilities in
  _ ← ensure (is_hook_action_authorized i s "tinycloud.hooks/unregister") 403%N;
  Ok (deactivate_hook_subscription id db).

(** ** Deliveries of database writes (routes/mod.rs) *)

(** The JSON of a write event; the path is left out when there is none. *)
Definition write_event_json (ev : WriteEvent) : json :=
  JObject ([("type", JString "write"); ("id", JString (we_id ev)); ("space", JString (we_space ev));
            ("service", JString (we_service ev)); ("ability", JString (we_ability ev))] ++
           match we_path ev with Some p => [("path", JString p)] | None => [] end ++
           [("actor", JString (we_actor ev)); ("epoch", JString (we_epoch ev));
            ("eventIndex", JNumber (NInt (Z.of_N (we_event_index ev)))); ("timestamp", JString (we_timestamp ev))]).

Definition pending_delivery (ev : WriteEvent) (h : HookSubscriptionRow) : HookDeliveryRow :=
  mkHookDeliveryRow (hook_delivery_id (hs_id h) (we_id ev)) (hs_id h) (we_id ev) (json_text (write_event_json ev)) "pending" 0 None None
    (we_timestamp ev) None.

(** The deliveries of one event; the rows the code caches are those of the same
    query. *)
Definition event_deliveries (db : Tables.Db) (ev : WriteEvent) : list HookDeliveryRow :=
  match we_path ev with
  | Some p =>
      pending_delivery ev <$>
        List.filter (λ h, subscription_matches_event h p (we_ability ev))
          (list_active_hook_subscriptions db (we_space ev) (we_service ev) (Some p))
  | None => []
  end.

Definition enqueue_hook_deliveries (rows : list HookDeliveryRow) (db : Tables.Db) : result DbErr Tables.Db :=
  match rows with
  | [] => Ok db
  | _ =>
      match insert_hook_deliveries rows db with
      | Err RecordNotInserted => Ok db
      | r => r
      end
  end.

Definition enqueue_database_webhook_deliveries (db : Tables.Db) (events : list WriteEvent) : result DbErr Tables.Db :=
  enqueue_hook_deliveries (flat_map (event_deliveries db) events) db.

End Routes.

(** ** Deliveries (db.rs) *)

Record PendingWebhookDelivery := mkPending {
  pd_id : string;
  pd_subscription_id : string;
  pd_event_id : string;
  pd_payload_json : string;
  pd_attempts : Z;
  pd_callback_url : string;
  pd_encrypted_secret : string;
  pd_secret_key_id : string;
  pd_subscription_active : bool;
}.

Definition open_delivery (r : HookDeliveryRow) : bool :=
  bool_decide (hd_status r = "pending") || bool_decide (hd_status r = "retrying").

(** [next_attempt_at] is text and compared as text. *)
Definition due_delivery (now : string) (r : HookDeliveryRow) : bool :=
  open_delivery r && match hd_next_attempt_at r with None => true | Some t => String.leb t now end.

(** [ORDER BY created_at, attempts]. *)
Definition delivery_leb (a b : HookDeliveryRow) : bool :=
  if decide (hd_created_at a = hd_created_at b) then (hd_attempts a <=? hd_attempts b)%Z
  else String.leb (hd_created_at a) (hd_created_at b).

Definition join_subscription (db : Tables.Db) (r : HookDeliveryRow) : option PendingWebhookDelivery :=
  h ← find_hook_subscription db (hd_subscription_id r);
  Some (mkPending (hd_id r) (hd_subscription_id r) (hd_event_id r) (hd_payload_json r) (hd_attempts r) (hs_callback_url h)
          (hs_encrypted_secret h) (hs_secret_key_id h) (hs_active h)).

Definition list_due_webhook_deliveries `{RowOrder} (db : Tables.Db) (now : string) (limit : nat) : list PendingWebhookDelivery :=
  omap (join_subscription db) (take limit (sort_by delivery_leb (select (due_delivery now) (hook_deliveries db)))).

(** [find_by_id] and [update]: no row, no change. *)
Definition update_delivery (id : string) (f : HookDeliveryRow → HookDeliveryRow) (db : Tables.Db) : Tables.Db :=
  set_hook_deliveries ((λ r, if decide (hd_id r = id) then f r else r) <$> hook_deliveries db) db.

Definition mark_webhook_delivery_delivered (id : string) (attempts : Z) (delivered_at : string) : Tables.Db → Tables.Db :=
  update_delivery id (λ r, mkHookDeliveryRow (hd_id r) (hd_subscription_id r) (hd_event_id r) (hd_payload_json r) "delivered" attempts
                             None None (hd_created_at r) (Some delivered_at)).

Definition mark_webhook_delivery_failed (id : string) (attempts : Z) (next_attempt_at : option string) (last_error : string)
    (dead_letter : bool) : Tables.Db → Tables.Db :=
  update_delivery id (λ r, mkHookDeliveryRow (hd_id r) (hd_subscription_id r) (hd_event_id r) (hd_payload_json r)
                             (if dead_letter then "dead_letter" else "retrying") attempts next_attempt_at (Some last_error)
                             (hd_created_at r) None).

(** ** The dispatcher (webhook_dispatcher.rs) *)

(** What [reqwest] answers; [text] is the text of the status or of the error. *)
Inductive Answer := Responded (status : N) (text : string) | SendFailed (text : string).

Record Post := mkPost {
  po_url : string;
  po_delivery_id : string;
  po_event_id : string;
  po_subscription_id : string;
  po_signature : string;
  po_body : string;
}.

(** HMAC-SHA-256: secret, payload. *)
Class WebhookMac := webhook_mac : string → string → string.

Definition DISPATCH_BATCH_SIZE : nat := 32.

Definition dispatcher_max_attempts (cfg : HooksConfig) : Z := u64_as_i64 (N.max (webhook_max_attempts cfg) 1).

(** In seconds. *)
Definition retry_delay_for_attempt (n : Z) : Z :=
  if decide (n = 2)%Z then 30 else if decide (n = 3)%Z then 120 else if decide (n = 4)%Z then 600
  else if decide (n = 5)%Z then 3600 else 0.

(** The text of an error of the column encryption. *)
Definition encryption_error_text (e : EncryptionError) : string :=
  match e with Decrypt => "decryption failed: aead::Error" | TooShort => "encrypted data too short" end.

Section Dispatch.
Context `{HookFormats} `{RowOrder} `{WebhookMac}.
Context (encryption : ColumnEncryption) (max_attempts : Z).

Definition sign_payload (secret payload : string) : string :=
  "sha256=" +:+ hex_encode (string_bytes (webhook_mac secret payload)).

Definition record_terminal_failure (id : string) (attempts : Z) (error : string) : Tables.Db → Tables.Db :=
  mark_webhook_delivery_failed id attempts None error true.

Definition record_retryable_failure (now : Z) (id : string) (attempts : Z) (error : string) : Tables.Db → Tables.Db :=
  let next_attempt_number := (attempts + 1)%Z in
  if (max_attempts <? next_attempt_number)%Z then mark_webhook_delivery_failed id attempts None error true
  else mark_webhook_delivery_failed id attempts (Some (rfc3339 (now + retry_delay_for_attempt next_attempt_number * second))) error false.

Definition dispatch_delivery (now : Z) (answer : Answer) (d : PendingWebhookDelivery) (db : Tables.Db) : Tables.Db * list Post :=
  let current_attempt := (pd_attempts d + 1)%Z in
  if negb (pd_subscription_active d) then (record_terminal_failure (pd_id d) current_attempt "subscription inactive" db, [])
  else if negb (bool_decide (pd_secret_key_id d = "primary")) then
    (record_terminal_failure (pd_id d) current_attempt ("unsupported webhook secret key id " +:+ pd_secret_key_id d) db, [])
  else
    match decrypt encryption (pd_encrypted_secret d) with
    | Err e => (record_terminal_failure (pd_id d) current_attempt ("secret decryption failed: " +:+ encryption_error_text e) db, [])
    | Ok secret =>
        let post := mkPost (pd_callback_url d) (pd_id d) (pd_event_id d) (pd_subscription_id d)
                      (sign_payload secret (pd_payload_json d)) (pd_payload_json d) in
        match answer with
        | Responded status text =>
            if (200 <=? status)%N && (status <? 300)%N
            then (mark_webhook_delivery_delivered (pd_id d) current_attempt (rfc3339 now) db, [post])
            else (record_retryable_failure now (pd_id d) current_attempt ("callback returned " +:+ text) db, [post])
        | SendFailed text => (record_retryable_failure now (pd_id d) current_attempt text db, [post])
        end
    end.

(** One round: the instant of the query, and for each delivery the instant it is
    handled and the answer of its callback. *)
Record Round := mkRound { rd_now : Z; rd_clock : string → Z; rd_answer : string → Answer }.

Fixpoint dispatch_each (rd : Round) (ds : list PendingWebhookDelivery) (db : Tables.Db) : Tables.Db * list Post :=
  match ds with
  | [] => (db, [])
  | d :: ds =>
      let '(db, posts) := dispatch_delivery (rd_clock rd (pd_id d)) (rd_answer rd (pd_id d)) d db in
      let '(db, posts') := dispatch_each rd ds db in
      (db, posts ++ posts')
  end.

Definition dispatch_due_once (rd : Round) (db : Tables.Db) : Tables.Db * list Post :=
  dispatch_each rd (list_due_webhook_deliveries db (rfc3339 (rd_now rd)) DISPATCH_BATCH_SIZE) db.

(** The rounds of [spawn_webhook_dispatcher]. *)
Fixpoint dispatch_rounds (rounds : list Round) (db : Tables.Db) : Tables.Db * list Post :=
  match rounds with
  | [] => (db, [])
  | rd :: rounds =>
      let '(db, posts) := dispatch_due_once rd db in
      let '(db, posts') := dispatch_rounds rounds db in
      (db, posts ++ posts')
  end.

End Dispatch.

(** ** Every delivery comes to an end *)

Section Settle.
Context `{HookFormats} `{RowOrder} `{WebhookMac}.
Context (encryption : ColumnEncryption) (max_attempts : Z).

(** What handling does to a row: one more attempt is counted, and the row stays open
    only if another one is allowed. *)
Definition advanced (r r' : HookDeliveryRow) : Prop :=
  hd_id r' = hd_id r ∧ hd_attempts r' = (hd_attempts r + 1)%Z ∧ (open_delivery r' = true → (hd_attempts r + 2 ≤ max_attempts)%Z) ∧
  hd_subscription_id r' = hd_subscription_id r ∧ hd_payload_json r' = hd_payload_json r.

Definition handled (ids : list string) (r r' : HookDeliveryRow) : Prop :=
  (hd_id r ∈ ids ∧ advanced r r') ∨ (hd_id r ∉ ids ∧ r' = r).

(** A batch is read from the table: each element from a row. *)
Definition from_rows (ds : list PendingWebhookDelivery) (rows : list HookDeliveryRow) : Prop :=
  ∀ d r, d ∈ ds → r ∈ rows → hd_id r = pd_id d → hd_attempts r = pd_attempts d.

Lemma dispatch_delivery_update now answer d db :
  ∃ f, (dispatch_delivery encryption max_attempts now answer d db).1 = update_delivery (pd_id d) f db ∧
    ∀ r, hd_attempts r = pd_attempts d → advanced r (f r).
Proof.
  assert (∀ next e dead, (dead = false → (pd_attempts d + 2 ≤ max_attempts)%Z) →
    ∃ f, mark_webhook_delivery_failed (pd_id d) (pd_attempts d + 1) next e dead db = update_delivery (pd_id d) f db ∧
      ∀ r, hd_attempts r = pd_attempts d → advanced r (f r)) as Hfail.
  { intros next e dead Hd. eexists. split; [done|]. intros r Hr. unfold advanced. cbn. split_and!; [done|lia| |done..].
    rewrite Hr. destruct dead; [done|]. by intros _; apply Hd. }
  assert (∀ e, ∃ f, record_retryable_failure max_attempts now (pd_id d) (pd_attempts d + 1) e db = update_delivery (pd_id d) f db ∧
      ∀ r, hd_attempts r = pd_attempts d → advanced r (f r)) as Hretry.
  { intros e. unfold record_retryable_failure. destruct (max_attempts <? pd_attempts d + 1 + 1)%Z eqn:Hlt; [by apply Hfail|].
    apply Z.ltb_ge in Hlt. apply Hfail. lia. }
  unfold dispatch_delivery, record_terminal_failure. destruct (pd_subscription_active d); [|by apply Hfail].
  cbn [negb]. case_bool_decide; [|by apply Hfail]. cbn [negb].
  destruct (decrypt encryption (pd_encrypted_secret d)); [|by apply Hfail]. destruct answer as [status text|text]; [|by apply Hretry].
  destruct (_ && _); [|by apply Hretry]. cbn [fst]. eexists. split; [done|]. intros r Hr. unfold advanced. cbn. split_and!; [done|lia|done..].
Qed.

Lemma dispatch_delivery_posts now answer d db :
  (dispatch_delivery encryption max_attempts now answer d db).2 = [] ∨
  ∃ post, (dispatch_delivery encryption max_attempts now answer d db).2 = [post] ∧ po_delivery_id post = pd_id d.
Proof.
  unfold dispatch_delivery. destruct (pd_subscription_active d), (bool_decide _), (decrypt _ _), answer as [status text|text]; cbn; eauto;
    destruct (_ && _); cbn; eauto.
Qed.

Lemma update_delivery_rows id f db :
  hook_deliveries (update_delivery id f db) = (λ r, if decide (hd_id r = id) then f r else r) <$> hook_deliveries db.
Proof. done. Qed.

Lemma handled_ids ids rows rows' : Forall2 (handled ids) rows rows' → hd_id <$> rows' = hd_id <$> rows.
Proof.
  induction 1 as [|r r' rows rows' Hr _ IH]; [done|]. rewrite !fmap_cons, IH. f_equal. by destruct Hr as [(_ & Hi & _)|[_ ->]].
Qed.

(** A batch with distinct identifiers handles each of its rows once. *)
Lemma dispatch_each_rows rd ds db :
  NoDup (pd_id <$> ds) → from_rows ds (hook_deliveries db) →
  Forall2 (handled (pd_id <$> ds)) (hook_deliveries db) (hook_deliveries (dispatch_each encryption max_attempts rd ds db).1).
Proof.
  revert db. induction ds as [|d ds IH]; intros db Hnd Hfrom; cbn [dispatch_each fst].
  - apply Forall_Forall2_diag, Forall_forall. intros r _. right. split; [apply not_elem_of_nil|done].
  - destruct (dispatch_delivery _ _ _ _ _ _) as [db1 posts] eqn:Hd.
    destruct (dispatch_delivery_update (rd_clock rd (pd_id d)) (rd_answer rd (pd_id d)) d db) as (f & Hf & Hadv).
    rewrite Hd in Hf. cbn [fst] in Hf. subst db1. destruct (dispatch_each _ _ rd ds _) as [db2 posts'] eqn:Hds. cbn [fst].
    rewrite fmap_cons in Hnd. apply NoDup_cons in Hnd as [Hnin Hnd].
    assert (from_rows ds (hook_deliveries (update_delivery (pd_id d) f db))) as Hfrom'.
    { intros d' r Hd' Hr Hid. rewrite update_delivery_rows in Hr. apply list_elem_of_fmap in Hr as (r0 & -> & Hr0).
      case_decide as Hc; [|by apply Hfrom; [apply elem_of_cons; right|..]].
      assert (advanced r0 (f r0)) as (Hi & _) by (apply Hadv, Hfrom; [apply elem_of_cons; by left|done..]).
      exfalso. apply Hnin. rewrite <- Hc, <- Hi, Hid. by apply list_elem_of_fmap_2. }
    specialize (IH _ Hnd Hfrom'). rewrite Hds in IH. cbn [fst] in IH. rewrite update_delivery_rows in IH.
    rewrite Forall2_fmap_l in IH. assert (∀ r, r ∈ hook_deliveries db → hd_id r = pd_id d → advanced r (f r)) as Hadv'
      by (intros r Hr Hid; apply Hadv, Hfrom; [apply elem_of_cons; by left|done..]).
    revert IH Hadv'. generalize (hook_deliveries db) (hook_deliveries db2). clear -Hnin. intros rows rows' HF Hadv.
    induction HF as [|r r' l l' Hr HF IHF]; constructor.
    + rewrite fmap_cons. destruct Hr as [[Hin Ha]|[Hin ->]]; case_decide as Hc.
      * assert (advanced r (f r)) as (Hi & _) by (apply Hadv; [apply elem_of_cons; by left|done]). rewrite Hi, Hc in Hin. done.
      * left. split; [apply elem_of_cons; by right|done].
      * left. split; [apply elem_of_cons; by left|]. apply Hadv; [apply elem_of_cons; by left|done].
      * right. split; [|done]. rewrite elem_of_cons. intuition.
    + apply IHF. intros r0 Hr0. apply Hadv. apply elem_of_cons. by right.
Qed.

(** The table: identifiers are unique, and a delivery refers to a subscription. *)
Definition deliveries_wf (db : Tables.Db) : Prop :=
  NoDup (hd_id <$> hook_deliveries db) ∧
  ∀ r, r ∈ hook_deliveries db → is_Some (find_hook_subscription db (hd_subscription_id r)).

Lemma NoDup_fmap_filter {A B} (f : A → B) (p : A → bool) l : NoDup (f <$> l) → NoDup (f <$> List.filter p l).
Proof.
  induction l as [|x l IH]; cbn; [done|]. rewrite NoDup_cons. intros [Hx Hl]. destruct (p x); cbn; [|by apply IH].
  rewrite NoDup_cons. split; [|by apply IH]. intros (y & Hy & Hin)%list_elem_of_fmap. apply Hx. rewrite Hy. apply list_elem_of_fmap_2.
  by apply list_elem_of_In, filter_In, proj1, list_elem_of_In in Hin.
Qed.

Definition due_rows (db : Tables.Db) (now : string) (limit : nat) : list HookDeliveryRow :=
  take limit (sort_by delivery_leb (select (due_delivery now) (hook_deliveries db))).

Lemma elem_of_due_rows db now limit r : r ∈ due_rows db now limit → r ∈ hook_deliveries db ∧ due_delivery now r = true.
Proof. intros (n & Hn & _)%elem_of_take. apply list_elem_of_lookup_2 in Hn. by rewrite sort_by_perm, elem_of_select in Hn. Qed.

Lemma due_rows_NoDup db now limit : NoDup (hd_id <$> hook_deliveries db) → NoDup (hd_id <$> due_rows db now limit).
Proof.
  intros Hnd. unfold due_rows. rewrite fmap_take. eapply sublist_NoDup; [|apply sublist_take].
  rewrite sort_by_perm. unfold select. rewrite row_order_perm. by apply NoDup_fmap_filter.
Qed.

Lemma list_due_ids db now limit : deliveries_wf db →
  pd_id <$> list_due_webhook_deliveries db now limit = hd_id <$> due_rows db now limit.
Proof.
  intros [_ Hsub]. unfold list_due_webhook_deliveries. fold (due_rows db now limit).
  assert (∀ r, r ∈ due_rows db now limit → is_Some (find_hook_subscription db (hd_subscription_id r))) as Hs
    by (intros r [Hr _]%elem_of_due_rows; by apply Hsub).
  revert Hs. generalize (due_rows db now limit). clear. intros l Hs. induction l as [|r l IH]; [done|].
  destruct (Hs r) as [h Hh]; [apply elem_of_cons; by left|]. cbn. unfold join_subscription at 1. rewrite Hh. cbn. f_equal.
  apply IH. intros r' Hr'. apply Hs, elem_of_cons. by right.
Qed.

Lemma list_due_from_rows db now limit : deliveries_wf db → from_rows (list_due_webhook_deliveries db now limit) (hook_deliveries db).
Proof.
  intros [Hnd Hsub] d r (r0 & Hr0 & Hj)%list_elem_of_omap Hr Hid. apply elem_of_due_rows in Hr0 as [Hr0 _].
  unfold join_subscription in Hj. destruct (find_hook_subscription _ _) as [h|]; [|done]. cbn in Hj. simplify_eq. cbn in *.
  by rewrite (NoDup_fmap_inj hd_id _ r r0 Hnd Hr Hr0 Hid).
Qed.

(** A row in the batch is open. *)
Lemma due_row_open db now limit r : deliveries_wf db → r ∈ hook_deliveries db → hd_id r ∈ hd_id <$> due_rows db now limit → open_delivery r = true.
Proof.
  intros [Hnd _] Hr (r0 & Hid & Hr0)%list_elem_of_fmap. apply elem_of_due_rows in Hr0 as [Hr0 [Ho _]%andb_true_iff].
  by rewrite (NoDup_fmap_inj hd_id _ r r0 Hnd Hr Hr0 Hid).
Qed.

(** What is left of an open row: the attempts it may still see. *)
Definition weight (r : HookDeliveryRow) : nat :=
  if open_delivery r then S (Z.to_nat (max_attempts - hd_attempts r - 1)) else 0.

Lemma advanced_weight r r' : open_delivery r = true → advanced r r' → weight r' < weight r.
Proof.
  intros Ho (_ & Ha & Hopen & _). unfold weight. rewrite Ho. destruct (open_delivery r'); [|lia]. specialize (Hopen eq_refl). rewrite Ha. lia.
Qed.

Lemma dispatch_each_subscriptions rd ds db :
  hook_subscriptions (dispatch_each encryption max_attempts rd ds db).1 = hook_subscriptions db.
Proof.
  revert db. induction ds as [|d ds IH]; intros db; cbn [dispatch_each fst]; [done|]. destruct (dispatch_delivery _ _ _ _ _ _) as [db1 posts] eqn:Hd.
  destruct (dispatch_delivery_update (rd_clock rd (pd_id d)) (rd_answer rd (pd_id d)) d db) as (f & Hf & _). rewrite Hd in Hf. cbn in Hf. subst db1.
  specialize (IH (update_delivery (pd_id d) f db)). by destruct (dispatch_each _ _ rd ds _).
Qed.

(** One round, row by row. *)
Lemma round_rows rd db : deliveries_wf db →
  let ids := hd_id <$> due_rows db (rfc3339 (rd_now rd)) DISPATCH_BATCH_SIZE in
  let db' := (dispatch_due_once encryption max_attempts rd db).1 in
  Forall2 (handled ids) (hook_deliveries db) (hook_deliveries db') ∧ deliveries_wf db'.
Proof.
  intros Hwf. cbn zeta. rewrite <- list_due_ids by done. unfold dispatch_due_once.
  set (ds := list_due_webhook_deliveries _ _ _). assert (Forall2 (handled (pd_id <$> ds)) (hook_deliveries db)
    (hook_deliveries (dispatch_each encryption max_attempts rd ds db).1)) as HF.
  { apply dispatch_each_rows; [|by apply list_due_from_rows]. unfold ds. rewrite list_due_ids by done. by apply due_rows_NoDup, Hwf. }
  split; [done|]. destruct Hwf as [Hnd Hsub]. split.
  - by rewrite (handled_ids _ _ _ HF).
  - intros r' Hr'. unfold find_hook_subscription. rewrite dispatch_each_subscriptions. apply list_elem_of_lookup in Hr' as [n Hn].
    destruct (Forall2_lookup_r _ _ _ _ _ HF Hn) as (r & Hr & Hh). apply list_elem_of_lookup_2 in Hr.
    specialize (Hsub r Hr). unfold find_hook_subscription in Hsub. by destruct Hh as [(_ & _ & _ & _ & -> & _)|[_ ->]].
Qed.

Lemma sum_Forall2 (P : HookDeliveryRow → HookDeliveryRow → Prop) (w : HookDeliveryRow → nat) rows rows' :
  Forall2 P rows rows' → (∀ r r', r ∈ rows → P r r' → w r' ≤ w r) →
  sum_list_with w rows' ≤ sum_list_with w rows ∧
  ((∃ r, r ∈ rows ∧ ∀ r', P r r' → w r' < w r) → sum_list_with w rows' < sum_list_with w rows).
Proof.
  intros HF. induction HF as [|r r' rows rows' Hr _ IH]; intros Hle; cbn [sum_list_with].
  - split; [done|]. by intros (r & ?%not_elem_of_nil & _).
  - destruct IH as [Hsum Hlt]; [intros r0 r0' Hin; apply Hle, elem_of_cons; by right|].
    pose proof (Hle r r' (proj2 (elem_of_cons _ _ _) (or_introl eq_refl)) Hr) as Hw. split; [lia|].
    intros (r0 & [->|Hin]%elem_of_cons & Hstrict); [specialize (Hstrict _ Hr); lia|].
    specialize (Hlt (ex_intro _ r0 (conj Hin Hstrict))). lia.
Qed.

(** A round uses up an attempt of each row it handles. *)
Lemma round_weight rd db : deliveries_wf db →
  let total := sum_list_with weight ∘ hook_deliveries in
  let db' := (dispatch_due_once encryption max_attempts rd db).1 in
  total db' ≤ total db ∧ (due_rows db (rfc3339 (rd_now rd)) DISPATCH_BATCH_SIZE ≠ [] → total db' < total db).
Proof.
  intros Hwf. cbn zeta. destruct (round_rows rd db Hwf) as [HF _]. set (now := rfc3339 (rd_now rd)) in *.
  assert (∀ r r', r ∈ hook_deliveries db → handled (hd_id <$> due_rows db now DISPATCH_BATCH_SIZE) r r' → weight r' ≤ weight r) as Hle.
  { intros r r' Hr [[Hin Ha]|[_ ->]]; [|done]. apply Nat.lt_le_incl, advanced_weight; [|done]. by eapply due_row_open. }
  destruct (sum_Forall2 _ weight _ _ HF Hle) as [Hsum Hlt]. split; [done|]. intros Hne. apply Hlt.
  destruct (due_rows db now DISPATCH_BATCH_SIZE) as [|r0 due] eqn:Hd; [done|].
  assert (r0 ∈ due_rows db now DISPATCH_BATCH_SIZE) as [Hr0 [Ho _]%andb_true_iff]%elem_of_due_rows by (rewrite Hd; apply elem_of_cons; by left).
  exists r0. split; [done|]. intros r' [[_ Ha]|[Hn _]]; [by apply advanced_weight|].
  exfalso. apply Hn. rewrite fmap_cons. apply elem_of_cons. by left.
Qed.

Lemma idle_round rd db : due_rows db (rfc3339 (rd_now rd)) DISPATCH_BATCH_SIZE = [] → dispatch_due_once encryption max_attempts rd db = (db, []).
Proof. intros Hd. unfold dispatch_due_once, list_due_webhook_deliveries. fold (due_rows db (rfc3339 (rd_now rd)) DISPATCH_BATCH_SIZE). by rewrite Hd. Qed.

Lemma no_weight_closed db r : sum_list_with weight (hook_deliveries db) = 0 → r ∈ hook_deliveries db → open_delivery r = false.
Proof.
  intros Hz Hr. pose proof (sum_list_with_in r weight _ Hr) as Hle. unfold weight in Hle at 1. destruct (open_delivery r); [lia|done].
Qed.

(** *** Waiting *)

(** The longest delay before another attempt, in nanoseconds. *)
Definition MAX_DELAY : Z := (3600 * second)%Z.

Lemma retry_delay_bound n : (0 ≤ retry_delay_for_attempt n * second ≤ MAX_DELAY)%Z.
Proof. unfold retry_delay_for_attempt, MAX_DELAY, second. repeat case_decide; lia. Qed.

(** The next attempt of an open row is at most the longest delay after [t]. *)
Definition next_by (t : Z) (r : HookDeliveryRow) : Prop :=
  open_delivery r = true → hd_next_attempt_at r = None ∨ ∃ u, hd_next_attempt_at r = Some (rfc3339 u) ∧ (0 ≤ u ≤ t + MAX_DELAY)%Z.

Lemma next_by_mono t t' r : (t ≤ t')%Z → next_by t r → next_by t' r.
Proof. intros Ht Hn Ho. destruct (Hn Ho) as [?|(u & ? & ?)]; [by left|right]. exists u. split; [done|lia]. Qed.

Lemma dispatch_delivery_next t now answer d db : (0 ≤ now ≤ t)%Z →
  Forall (next_by t) (hook_deliveries db) → Forall (next_by t) (hook_deliveries (dispatch_delivery encryption max_attempts now answer d db).1).
Proof.
  intros Hnow Hall. assert (∀ f, (∀ r, next_by t (f r)) → Forall (next_by t) (hook_deliveries (update_delivery (pd_id d) f db))) as Hup.
  { intros f Hf. rewrite update_delivery_rows. apply Forall_fmap. eapply Forall_impl; [done|]. intros r Hr. cbn. by case_decide. }
  assert (∀ e, Forall (next_by t) (hook_deliveries (record_retryable_failure max_attempts now (pd_id d) (pd_attempts d + 1) e db))) as Hretry.
  { intros e. unfold record_retryable_failure. destruct (_ <? _)%Z; apply Hup; intros r Ho; [by left|right]. eexists. split; [done|].
    pose proof (retry_delay_bound (pd_attempts d + 1 + 1)). lia. }
  unfold dispatch_delivery, record_terminal_failure. destruct (pd_subscription_active d); [|apply Hup; intros r Ho; by left].
  cbn [negb]. case_bool_decide; [|apply Hup; intros r Ho; by left]. cbn [negb].
  destruct (decrypt encryption (pd_encrypted_secret d)); [|apply Hup; intros r Ho; by left]. destruct answer as [status text|text]; [|apply Hretry].
  destruct (_ && _); [|apply Hretry]. apply Hup. intros r Ho. by left.
Qed.

Lemma dispatch_each_next t rd ds db : (∀ id, 0 ≤ rd_clock rd id ≤ t)%Z →
  Forall (next_by t) (hook_deliveries db) → Forall (next_by t) (hook_deliveries (dispatch_each encryption max_attempts rd ds db).1).
Proof.
  intros Hc. revert db. induction ds as [|d ds IH]; intros db Hall; cbn [dispatch_each fst]; [done|].
  pose proof (dispatch_delivery_next t _ (rd_answer rd (pd_id d)) d db (Hc (pd_id d)) Hall) as Hone.
  destruct (dispatch_delivery _ _ _ _ _ _) as [db1 posts]. specialize (IH db1 Hone). by destruct (dispatch_each _ _ rd ds db1).
Qed.

(** How often the dispatcher came round again after more than the longest delay: a round
    counts when it begins a second and the longest delay after every instant of the
    rounds up to the last one that counted.  [ends] bounds the instants of a round. *)
Fixpoint waits (ends : Round → Z) (since latest : Z) (rounds : list Round) : nat :=
  match rounds with
  | [] => 0
  | rd :: rounds =>
      let latest := Z.max latest (ends rd) in
      if (since + MAX_DELAY + second <=? rd_now rd)%Z then S (waits ends latest latest rounds) else waits ends since latest rounds
  end.

(** The end of the year 9999, after which there is no RFC 3339 text. *)
Definition LAST_INSTANT : Z := (253402300799 * second)%Z.

Section Waiting.
Context (texts_ordered : ∀ t u, (0 ≤ t)%Z → (t + second ≤ u)%Z → (u ≤ LAST_INSTANT)%Z → String.leb (rfc3339 t) (rfc3339 u) = true).

(** After the longest delay every open row is due. *)
Lemma all_due since rd db : (since + MAX_DELAY + second ≤ rd_now rd)%Z → (rd_now rd ≤ LAST_INSTANT)%Z → Forall (next_by since) (hook_deliveries db) →
  due_rows db (rfc3339 (rd_now rd)) DISPATCH_BATCH_SIZE = [] → sum_list_with weight (hook_deliveries db) = 0.
Proof.
  intros Hlate Hlast Hnext Hd. assert (∀ r, r ∈ hook_deliveries db → open_delivery r = false) as Hclosed.
  { intros r Hr. destruct (open_delivery r) eqn:Ho; [|done]. exfalso. rewrite Forall_forall in Hnext.
    assert (due_delivery (rfc3339 (rd_now rd)) r = true) as Hdue.
    { unfold due_delivery. rewrite Ho. destruct (Hnext r Hr Ho) as [->|(u & -> & Hu)]; [done|]. apply texts_ordered; lia. }
    assert (r ∈ sort_by delivery_leb (select (due_delivery (rfc3339 (rd_now rd))) (hook_deliveries db))) as Hin by by rewrite sort_by_perm, elem_of_select.
    unfold due_rows in Hd. destruct (sort_by _ _); [by apply not_elem_of_nil in Hin|done]. }
  revert Hclosed. generalize (hook_deliveries db). clear. intros l Hc. induction l as [|r l IH]; [done|]. cbn [sum_list_with].
  rewrite IH by (intros r' ?; apply Hc, elem_of_cons; by right). unfold weight. by rewrite Hc by (apply elem_of_cons; by left).
Qed.

(** The clocks of the rounds: no instant of a round is before the epoch or after its end. *)
Definition clocked (ends : Round → Z) (rounds : list Round) : Prop :=
  Forall (λ rd, (rd_now rd ≤ LAST_INSTANT)%Z ∧ ∀ id, (0 ≤ rd_clock rd id ≤ ends rd)%Z) rounds.

(** Since the last round that counted nothing was handled, or a row was. *)
Lemma rounds_settle ends rounds : clocked ends rounds → ∀ db since latest, deliveries_wf db → (since ≤ latest)%Z →
  Forall (next_by latest) (hook_deliveries db) →
  (Forall (next_by since) (hook_deliveries db) ∧ sum_list_with weight (hook_deliveries db) ≤ waits ends since latest rounds ∨
   sum_list_with weight (hook_deliveries db) < waits ends since latest rounds) →
  ∀ r, r ∈ hook_deliveries (dispatch_rounds encryption max_attempts rounds db).1 → open_delivery r = false.
Proof.
  induction 1 as [|rd rounds [Hlast Hclock] _ IH]; intros db since latest Hwf Hle Hlatest Hcount; cbn [dispatch_rounds waits] in *.
  - intros r. apply (no_weight_closed db). destruct Hcount as [[_ ?]|?]; lia.
  - set (latest' := Z.max latest (ends rd)) in *. destruct (round_weight rd db Hwf) as [_ Hless]. destruct (round_rows rd db Hwf) as [_ Hwf'].
    assert (Forall (next_by latest') (hook_deliveries db)) as Hlatest' by (eapply Forall_impl; [done|]; intros r; apply next_by_mono; lia).
    assert (Forall (next_by latest') (hook_deliveries (dispatch_due_once encryption max_attempts rd db).1)) as Hnext'
      by (apply dispatch_each_next; [intros id; specialize (Hclock id); lia|done]).
    cbn zeta in *. destruct (decide (due_rows db (rfc3339 (rd_now rd)) DISPATCH_BATCH_SIZE = [])) as [Hidle|Hbusy].
    + pose proof (all_due since rd db) as Hdue. rewrite idle_round in * by done. cbn [fst] in *.
      assert (∀ since', (since' ≤ latest')%Z → (Forall (next_by since') (hook_deliveries db) ∧ sum_list_with weight (hook_deliveries db) ≤ waits ends since' latest' rounds ∨
        sum_list_with weight (hook_deliveries db) < waits ends since' latest' rounds) →
        ∀ r, r ∈ hook_deliveries (dispatch_rounds encryption max_attempts rounds db).1 → open_delivery r = false) as Hgo by (intros since' ? ?; by eapply (IH db since' latest')).
      destruct (dispatch_rounds _ _ rounds db) as [db2 posts2]. cbn [fst] in *. destruct (Z.leb_spec (since + MAX_DELAY + second) (rd_now rd)) as [Hlate|_].
      * apply (Hgo latest'); [done|]. left. split; [done|]. destruct Hcount as [[Hs _]|Hc]; [rewrite (Hdue Hlate Hlast Hs Hidle)|]; lia.
      * apply (Hgo since); [lia|done].
    + specialize (Hless Hbusy). destruct (dispatch_due_once _ _ rd db) as [db1 posts]. cbn [fst compose] in *.
      specialize (IH db1). destruct (dispatch_rounds _ _ rounds db1) as [db2 posts2]. cbn [fst] in *.
      destruct (Z.leb_spec (since + MAX_DELAY + second) (rd_now rd)).
      * apply (IH latest' latest'); [done|lia|done|]. left. split; [done|]. lia.
      * apply (IH since latest'); [done|lia|done|]. right. lia.
Qed.
End Waiting.

(** *** Posts *)

Definition posts_of (id : string) (posts : list Post) : nat := length (List.filter (λ p, bool_decide (po_delivery_id p = id)) posts).

Lemma posts_of_app id l k : posts_of id (l ++ k) = posts_of id l + posts_of id k.
Proof. unfold posts_of. by rewrite List.filter_app, length_app. Qed.

Lemma dispatch_each_posts rd ds db id :
  NoDup (pd_id <$> ds) →
  posts_of id (dispatch_each encryption max_attempts rd ds db).2 ≤ (if decide (id ∈ pd_id <$> ds) then 1 else 0).
Proof.
  revert db. induction ds as [|d ds IH]; intros db; cbn [dispatch_each snd]; [by intros _; case_decide; cbn; lia|].
  rewrite fmap_cons, NoDup_cons. intros [Hnin Hnd]. destruct (dispatch_delivery_posts (rd_clock rd (pd_id d)) (rd_answer rd (pd_id d)) d db) as [Hp|(po & Hp & Hid)];
    destruct (dispatch_delivery _ _ _ _ _ _) as [db1 posts] eqn:Hd; cbn [snd] in Hp; subst posts;
    specialize (IH db1 Hnd); destruct (dispatch_each _ _ rd ds db1) as [db2 posts']; cbn [snd] in *; rewrite posts_of_app.
  - change (posts_of id []) with 0. repeat case_decide; set_solver by lia.
  - unfold posts_of at 1. cbn. rewrite Hid. case_bool_decide as Hc; cbn; repeat case_decide; try lia; set_solver by lia.
Qed.

Lemma rounds_posts rounds db r : deliveries_wf db → r ∈ hook_deliveries db →
  posts_of (hd_id r) (dispatch_rounds encryption max_attempts rounds db).2 ≤ weight r.
Proof.
  revert db r. induction rounds as [|rd rounds IH]; intros db r Hwf Hr; cbn [dispatch_rounds snd]; [apply Nat.le_0_l|].
  destruct (round_rows rd db Hwf) as [HF Hwf']. cbn zeta in *.
  pose proof (dispatch_each_posts rd (list_due_webhook_deliveries db (rfc3339 (rd_now rd)) DISPATCH_BATCH_SIZE) db (hd_id r)) as Hposts.
  rewrite list_due_ids in Hposts by done. specialize (Hposts (due_rows_NoDup _ _ _ (proj1 Hwf))).
  fold (dispatch_due_once encryption max_attempts rd db) in Hposts.
  destruct (dispatch_due_once encryption max_attempts rd db) as [db1 posts]. cbn [fst snd] in *.
  apply list_elem_of_lookup in Hr as [n Hn]. destruct (Forall2_lookup_l _ _ _ _ _ HF Hn) as (r' & Hr' & Hh).
  apply list_elem_of_lookup_2 in Hn, Hr'. specialize (IH db1 r' Hwf' Hr'). destruct (dispatch_rounds _ _ rounds db1) as [db2 posts2]. cbn [snd] in *.
  rewrite posts_of_app. destruct Hh as [[Hin Ha]|[Hn' ->]].
  - rewrite decide_True in Hposts by done. pose proof (advanced_weight r r' (due_row_open _ _ _ _ Hwf Hn Hin) Ha). destruct Ha as (Hid & _).
    rewrite Hid in IH. lia.
  - rewrite decide_False in Hposts by done. lia.
Qed.

(** What a post is made of: an active subscription and the payload of its row. *)
Definition post_of (db : Tables.Db) (post : Post) : Prop :=
  ∃ r h secret, r ∈ hook_deliveries db ∧ hd_id r = po_delivery_id post ∧ open_delivery r = true ∧
    find_hook_subscription db (hd_subscription_id r) = Some h ∧ hs_active h = true ∧ decrypt encryption (hs_encrypted_secret h) = Ok secret ∧
    po_url post = hs_callback_url h ∧ po_body post = hd_payload_json r ∧ po_signature post = sign_payload secret (hd_payload_json r).

Lemma dispatch_each_made rd ds db post :
  post ∈ (dispatch_each encryption max_attempts rd ds db).2 →
  ∃ d secret, d ∈ ds ∧ pd_subscription_active d = true ∧ decrypt encryption (pd_encrypted_secret d) = Ok secret ∧
    post = mkPost (pd_callback_url d) (pd_id d) (pd_event_id d) (pd_subscription_id d) (sign_payload secret (pd_payload_json d)) (pd_payload_json d).
Proof.
  revert db. induction ds as [|d ds IH]; intros db; cbn [dispatch_each snd]; [by intros ?%not_elem_of_nil|].
  destruct (dispatch_delivery _ _ _ _ _ _) as [db1 posts] eqn:Hd. destruct (dispatch_each _ _ rd ds db1) as [db2 posts'] eqn:Hds. cbn [snd].
  rewrite elem_of_app. intros [Hin|Hin].
  - exists d. unfold dispatch_delivery in Hd. destruct (pd_subscription_active d); cbn [negb] in Hd; [|by simplify_eq; apply not_elem_of_nil in Hin].
    case_bool_decide; cbn [negb] in Hd; [|by simplify_eq; apply not_elem_of_nil in Hin].
    destruct (decrypt _ _) as [secret|]; [|by simplify_eq; apply not_elem_of_nil in Hin]. exists secret.
    assert (post ∈ [mkPost (pd_callback_url d) (pd_id d) (pd_event_id d) (pd_subscription_id d) (sign_payload secret (pd_payload_json d))
      (pd_payload_json d)]) as Hp by (destruct (rd_answer rd (pd_id d)); [destruct (_ && _)|]; by simplify_eq).
    apply list_elem_of_singleton in Hp as ->. split_and!; [apply elem_of_cons; by left|done..].
  - destruct (IH db1) as (d' & secret & ? & ? & ? & ?); [by rewrite Hds|]. exists d', secret. split_and!; [apply elem_of_cons; by right|done..].
Qed.

Lemma round_posts_made rd db post : post ∈ (dispatch_due_once encryption max_attempts rd db).2 → post_of db post.
Proof.
  intros (d & secret & Hd & Hactive & Hs & ->)%dispatch_each_made. apply list_elem_of_omap in Hd as (r & Hr & Hj).
  apply elem_of_due_rows in Hr as [Hr [Ho _]%andb_true_iff]. unfold join_subscription in Hj.
  destruct (find_hook_subscription db _) as [h|] eqn:Hh; [|done]. cbn in Hj. simplify_eq. exists r, h, secret. by split_and!.
Qed.

Lemma rounds_posts_made rounds db post : deliveries_wf db →
  post ∈ (dispatch_rounds encryption max_attempts rounds db).2 → post_of db post.
Proof.
  revert db. induction rounds as [|rd rounds IH]; intros db Hwf; cbn [dispatch_rounds snd]; [by intros ?%not_elem_of_nil|].
  destruct (round_rows rd db Hwf) as [HF Hwf']. pose proof (round_posts_made rd db post) as Hround.
  pose proof (dispatch_each_subscriptions rd (list_due_webhook_deliveries db (rfc3339 (rd_now rd)) DISPATCH_BATCH_SIZE) db) as Hsubs.
  fold (dispatch_due_once encryption max_attempts rd db) in Hsubs. specialize (IH (dispatch_due_once encryption max_attempts rd db).1 Hwf').
  destruct (dispatch_due_once encryption max_attempts rd db) as [db1 posts]. cbn [fst snd] in *.
  destruct (dispatch_rounds _ _ rounds db1) as [db2 posts2]. cbn [snd] in *. rewrite elem_of_app. intros [Hin|Hin]; [by apply Hround|].
  destruct (IH Hin) as (r' & h & secret & Hr' & Hid & Ho & Hh & Hact & Hs & Hurl & Hbody & Hsig).
  apply list_elem_of_lookup in Hr' as [n Hn]. destruct (Forall2_lookup_r _ _ _ _ _ HF Hn) as (r & Hr & Hhd). apply list_elem_of_lookup_2 in Hr.
  unfold find_hook_subscription in Hh. rewrite Hsubs in Hh.
  exists r, h, secret. destruct Hhd as [(Hin' & Hidr & _ & _ & Hsub & Hpay)|[_ ->]]; [|by split_and!].
  rewrite Hsub in Hh. rewrite Hpay in Hbody, Hsig. rewrite Hidr in Hid. split_and!; try done.
  exact (due_row_open db _ _ r Hwf Hr Hin').
Qed.

End Settle.

(** ** Claims *)

(** C24: every webhook delivery comes to an end.  Each round of the dispatcher in which a
    delivery is due uses up at least one of the attempts that are left; and once the
    dispatcher has come round again after more than the longest delay (an hour, and
    a second for texts of instants that are compared as texts) as often as there
    are attempts left, no delivery is pending or retrying, whatever the callbacks
    answer, however many rounds there are in between and whatever is due in them.
    At the start no open delivery waits for longer than that delay; the instants
    are between 1970 and the year 9999, and their texts are ordered as they are
    when they are a second apart. *)
Theorem deliveries_settle `{HookFormats} `{RowOrder} `{WebhookMac} (encryption : ColumnEncryption) (max_attempts start : Z)
    (ends : Round → Z) (rounds : list Round) (db : Tables.Db) :
  (∀ t u, (0 ≤ t)%Z → (t + second ≤ u)%Z → (u ≤ LAST_INSTANT)%Z → String.leb (rfc3339 t) (rfc3339 u) = true) →
  deliveries_wf db →
  (∀ rd, due_rows db (rfc3339 (rd_now rd)) DISPATCH_BATCH_SIZE ≠ [] →
     sum_list_with (weight max_attempts) (hook_deliveries (dispatch_due_once encryption max_attempts rd db).1) <
     sum_list_with (weight max_attempts) (hook_deliveries db)) ∧
  (clocked ends rounds → Forall (next_by start) (hook_deliveries db) →
   sum_list_with (weight max_attempts) (hook_deliveries db) ≤ waits ends start start rounds →
   ∀ r, r ∈ hook_deliveries (dispatch_rounds encryption max_attempts rounds db).1 → open_delivery r = false).
Proof.
  intros Htext Hwf. split; [intros rd; by apply round_weight|]. intros Hclock Hnext Hw. by eapply rounds_settle; [..|left].
Qed.

(** A delivery is posted at most the configured number of times, whatever the
    callbacks answer and however long the dispatcher runs, and every post goes to
    the callback of an active subscription, with the payload that was enqueued
    and its HMAC under the secret of the subscription. *)
Theorem webhook_posts_bounded `{HookFormats} `{RowOrder} `{WebhookMac} (encryption : ColumnEncryption) (cfg : HooksConfig)
    (rounds : list Round) (db : Tables.Db) :
  deliveries_wf db → (Z.of_N (webhook_max_attempts cfg) < 2 ^ 63)%Z →
  let posts := (dispatch_rounds encryption (dispatcher_max_attempts cfg) rounds db).2 in
  (∀ r, r ∈ hook_deliveries db → hd_attempts r = 0%Z → posts_of (hd_id r) posts ≤ N.to_nat (N.max (webhook_max_attempts cfg) 1)) ∧
  ∀ post, post ∈ posts → post_of encryption db post.
Proof.
  intros Hwf Hmax. cbn zeta. split; [|intros post; by apply rounds_posts_made].
  intros r Hr Hzero. etrans; [by apply rounds_posts|]. unfold weight. rewrite Hzero. unfold dispatcher_max_attempts, u64_as_i64.
  rewrite wrap_i64_small by lia. destruct (open_delivery r); lia.
Qed.

(** A clock whose texts are ordered as the instants are: twenty decimal digits. *)
Definition padded (t : Z) : string :=
  let s := fmt_u64 (Z.to_N t) in String.concat "" (repeat "0" (20 - String.length s)) +:+ s.
Definition padded_formats : HookFormats := {| json_text := λ _, ""; abilities_of_json := λ _, None; rfc3339 := padded |}.
Definition length_mac : WebhookMac := λ secret payload, secret +:+ payload.
#[local] Existing Instances padded_formats length_mac demo_order.

Definition hook_db : Tables.Db :=
  set_hook_deliveries [mkHookDeliveryRow "d1" "s1" "e1" "{}" "pending" 0 None None "t0" None]
    (set_hook_subscriptions [mkHookSubscriptionRow "s1" owner "space" "kv" None None "https://callback" "secret" "primary" true "t0"] empty_db).
Definition failing_round (seconds : Z) : Round :=
  mkRound (seconds * second) (λ _, (seconds * second)%Z) (λ _, Responded 503 "503 Service Unavailable").
Definition failing_rounds : list Round := [failing_round 10; failing_round 40; failing_round 160; failing_round 760; failing_round 4360].

Lemma hook_db_wf : deliveries_wf hook_db.
Proof. split; [apply NoDup_singleton|]. intros r ->%list_elem_of_singleton. by eexists. Qed.

(** A dispatcher that comes round once a minute for five hours and a quarter, with a
    callback that always fails, and a clock that shows minutes as strokes. *)
Definition minute_strokes : HookFormats :=
  {| json_text := λ _, ""; abilities_of_json := λ _, None; rfc3339 := λ t, String.concat "" (repeat "|" (Z.to_nat (t / (60 * second)))) |}.
Definition minutely : list Round := (λ n, failing_round (60 * Z.of_nat n)) <$> seq 1 315.

Lemma strokes_leb m n : m ≤ n → String.leb (String.concat "" (repeat "|" m)) (String.concat "" (repeat "|" n)) = true.
Proof.
  assert (∀ k, String.concat "" (repeat "|" (S k)) = String "|" (String.concat "" (repeat "|" k))) as Hs by by intros [|k].
  revert n. induction m as [|m IH]; intros [|n] Hle; [done| |lia|].
  - by rewrite Hs.
  - rewrite !Hs. unfold String.leb. cbn [String.compare]. change (Ascii.compare "|" "|") with Eq. cbn iota. apply IH. lia.
Qed.

Lemma minutely_clocked : clocked rd_now minutely.
Proof.
  apply Forall_fmap, Forall_forall. intros n [_ Hn]%elem_of_seq. cbn. unfold LAST_INSTANT, second. split; [lia|]. intros _. lia.
Qed.

Lemma deliveries_settle_witness :
  Forall (λ r, open_delivery r = false) (hook_deliveries (@dispatch_rounds minute_strokes _ _ demo_cipher 5 minutely hook_db).1).
Proof.
  apply Forall_forall, (@deliveries_settle minute_strokes _ _ demo_cipher 5 0 rd_now minutely hook_db).
  - intros t u Ht Hu _. apply strokes_leb. unfold second in *. apply Z2Nat.inj_le; [apply Z.div_pos; lia..|]. apply Z.div_le_mono; unfold second in *; lia.
  - exact hook_db_wf.
  - exact minutely_clocked.
  - apply Forall_singleton. intros _. by left.
  - apply Nat.leb_le. vm_compute. reflexivity.
Defined.

Lemma webhook_posts_bounded_witness :
  posts_of "d1" (dispatch_rounds demo_cipher (dispatcher_max_attempts default_hooks) failing_rounds hook_db).2 ≤ 5.
Proof.
  apply (proj1 (webhook_posts_bounded demo_cipher default_hooks failing_rounds hook_db hook_db_wf ltac:(done))
    (mkHookDeliveryRow "d1" "s1" "e1" "{}" "pending" 0 None None "t0" None)); [by apply list_elem_of_singleton|done].
Defined.

(** All five attempts of the default configuration are made before the row is a
    dead letter. *)
Example failing_posts :
  posts_of "d1" (dispatch_rounds demo_cipher (dispatcher_max_attempts default_hooks) failing_rounds hook_db).2 = 5 ∧
  hd_status <$> hook_deliveries (dispatch_rounds demo_cipher (dispatcher_max_attempts default_hooks) failing_rounds hook_db).1 = ["dead_letter"].
Proof. split; vm_compute; reflexivity. Qed.

(** There is no delay before the sixth attempt and the later ones, which a larger
    configured maximum allows. *)
Theorem no_backoff_after_five (n : Z) : (5 < n)%Z → retry_delay_for_attempt n = 0%Z.
Proof. intros Hn. unfold retry_delay_for_attempt. repeat (rewrite decide_False by lia). done. Qed.

(** ** Which subscriptions database writes reach *)

Section Reach.
Context `{Blake3} `{CidLib} `{HookFormats} `{RowOrder} `{Collation} `{LikeEscape}.
(** Folding keeps the slash apart, and it is not the escape character. *)
Context (fold_slash : ∀ x, fold_char x = fold_char "/" → x = "/"%char) (escape_slash : like_escape ≠ Some "/"%char).

Fixpoint slashes (s : string) : nat :=
  match s with "" => 0 | String c s => (if decide (c = "/"%char) then 1 else 0) + slashes s end.

Lemma slashes_app s t : slashes (s +:+ t) = slashes s + slashes t.
Proof. induction s as [|c s IH]; [done|]. change (String c s +:+ t) with (String c (s +:+ t)). cbn [slashes]. rewrite IH. lia. Qed.

(** A match has at least the slashes of its pattern. *)
Lemma like_plain_slashes p t : like_plain p t = true → slashes p ≤ slashes t.
Proof.
  assert (∀ c x, fold_char x = fold_char c → (if decide (c = "/"%char) then 1 else 0) ≤ (if decide (x = "/"%char) then 1 else 0)) as Hc.
  { intros c x Hx. destruct (decide (c = "/"%char)) as [->|]; [|lia]. apply fold_slash in Hx as ->. done. }
  revert t. induction p as [p IH] using (induction_ltof1 _ String.length). unfold ltof in IH. intros t.
  destruct p as [|c p]; [cbn; lia|]. cbn [like_plain]. case_decide as He.
  - destruct p as [|c' p]; [done|]. destruct t as [|x t]; [done|]. intros [Hx%bool_decide_eq_true Hl]%andb_true_iff.
    apply IH in Hl; [|cbn; lia]. specialize (Hc _ _ Hx). cbn [slashes]. rewrite (decide_False (P := c = "/"%char)) by congruence. lia.
  - case_decide as Hp; [subst|case_decide as Hu; [subst|]].
    + cbn [slashes]. rewrite decide_False by done. induction t as [|x t IHt].
      * rewrite orb_false_r. intros Hl. apply IH in Hl; cbn in *; lia.
      * intros [Hl|Hl]%orb_true_iff; [apply IH in Hl; cbn in *; lia|]. specialize (IHt Hl). cbn in *. lia.
    + destruct t as [|x t]; [done|]. intros Hl. apply IH in Hl; [|cbn; lia]. cbn [slashes]. rewrite (decide_False (P := "_"%char = "/"%char)) by done. lia.
    + destruct t as [|x t]; [done|]. intros [Hx%bool_decide_eq_true Hl]%andb_true_iff. apply IH in Hl; [|cbn; lia].
      specialize (Hc _ _ Hx). cbn [slashes]. lia.
Qed.

(** The query for an event's subscriptions asks for prefixes below the event's path,
    the match for prefixes above it: only a prefix that is the path passes both. *)
Theorem database_webhooks_exact_path (db : Tables.Db) (ev : WriteEvent) (p : string) (d : HookDeliveryRow) :
  (∀ h, h ∈ hook_subscriptions db → hs_path_prefix h = normalize_path_prefix (hs_path_prefix h)) →
  we_path ev = Some p → normalize_prefix p = Some p → d ∈ event_deliveries db ev →
  ∃ h, h ∈ hook_subscriptions db ∧ d = pending_delivery ev h ∧ hs_path_prefix h = Some p.
Proof.
  intros Hnorm Hp Hpn Hd. unfold event_deliveries in Hd. rewrite Hp in Hd. apply list_elem_of_fmap in Hd as (h & -> & Hh).
  apply list_elem_of_In, filter_In in Hh as [Hh Hm]. apply list_elem_of_In in Hh. unfold list_active_hook_subscriptions in Hh.
  rewrite sort_by_perm, elem_of_select in Hh. destruct Hh as [Hin [_ Hl]%andb_true_iff].
  exists h. split; [done|]. split; [done|]. unfold prefix_listed in Hl. cbn [mbind option_bind] in Hl. rewrite Hpn in Hl.
  specialize (Hnorm h Hin). destruct (hs_path_prefix h) as [q|] eqn:Hq; [|done].
  apply orb_true_iff in Hl as [->%bool_decide_eq_true|Hl]; [done|]. exfalso. apply like_plain_slashes in Hl.
  unfold subscription_matches_event in Hm. apply andb_true_iff in Hm as [Hm _]. unfold matches_prefix in Hm. rewrite Hq in Hm.
  unfold normalize_path_prefix in Hnorm. cbn [mbind option_bind] in Hm, Hnorm. rewrite <- Hnorm in Hm.
  rewrite !slashes_app in Hl. cbn [slashes] in Hl. rewrite decide_True in Hl by done.
  apply orb_true_iff in Hm as [->%bool_decide_eq_true|(r & ->)%starts_with_spec]; rewrite ?slashes_app in Hl; cbn in Hl; lia.
Qed.

End Reach.

(** A webhook that was created is in the listing of its scope. *)
Theorem created_webhook_listed `{Blake3} `{CidLib} `{HookFormats} `{RowOrder} `{Collation} `{LikeEscape} (url_parses : string → bool)
    (cfg : HooksConfig) (duckdb : bool) (encryption : ColumnEncryption) (nonce : string) (now : Z) (db db' : Tables.Db)
    (i : InvocationInfo) (r : HookWebhookRequest) (response : HookWebhookResponse) :
  create_webhook url_parses cfg duckdb encryption nonce now db i r = (Ok response, db') →
  ∃ h, h ∈ list_active_hook_subscriptions db' (wr_space r) (wr_service r) (normalize_path_prefix (wr_path_prefix r)) ∧
    webhook_response_from_model h = Ok response ∧ hs_id h ∉ hs_id <$> hook_subscriptions db.
Proof.
  unfold create_webhook. intros Hc.
  match type of Hc with (match ?x with _ => _ end) = _ => destruct x as [[m db1]|e] eqn:Hm end; [|done]. simplify_eq. apply bind_Ok in Hm as (s & Hs & Hm).
  apply bind_Ok in Hm as ([] & _ & Hm). apply bind_Ok in Hm as ([] & _ & Hm). apply bind_Ok in Hm as (db2 & Hi%map_err_Ok & Hm). simplify_eq.
  unfold create_hook_subscription in Hi. apply bind_Ok in Hi as (t & Ht & Hi). simplify_eq. cbn [insert_many] in Ht.
  apply bind_Ok in Ht as ([] & Hfresh%ensure_Ok%negb_true_iff & Ht). apply bind_Ok in Ht as ([] & _ & Ht). simplify_eq.
  unfold normalize_webhook_request in Hs. apply bind_Ok in Hs as ([] & _ & Hs). apply bind_Ok in Hs as ([] & _ & Hs).
  apply bind_Ok in Hs as ([] & _ & Hs). apply bind_Ok in Hs as ([] & _ & Hs). simplify_eq. cbn [hk_space hk_service hk_path_prefix] in *.
  eexists. split_and!; [|done|].
  - unfold list_active_hook_subscriptions. rewrite sort_by_perm, elem_of_select. split; [cbn; apply elem_of_app; right; by apply list_elem_of_singleton|].
    cbn. rewrite !bool_decide_true by done. cbn. unfold prefix_listed. fold (normalize_path_prefix (normalize_path_prefix (wr_path_prefix r))).
    rewrite normalize_path_prefix_idem. cbn [hs_path_prefix]. destruct (normalize_path_prefix (wr_path_prefix r)); [|done].
    cbn. by rewrite bool_decide_true.
  - intros (h & Hh & Hin)%list_elem_of_fmap. apply not_true_iff_false in Hfresh. apply Hfresh, existsb_exists. exists h.
    split; [by apply list_elem_of_In|]. by apply bool_decide_eq_true.
Qed.

#[local] Existing Instances demo_keccak demo_blake demo_cids demo_tokens demo_cbor demo_codec demo_collation demo_calendar.
#[local] Instance no_escape : LikeEscape := None.

Definition table_event : WriteEvent :=
  mkWriteEvent "e:0" "space" "sql" "tinycloud.sql/write" (Some "main.db/users") owner "e" 0 "t".
Definition prefix_subscription (prefix : option string) : HookSubscriptionRow :=
  mkHookSubscriptionRow "s1" owner "space" "sql" prefix None "https://callback" "secret" "primary" true "t0".

(** A subscription to a whole database, or to every database of the space, matches
    the event and is not delivered; one to the table is. *)
Example database_webhook_missed :
  subscription_matches_event (prefix_subscription (Some "main.db")) "main.db/users" "tinycloud.sql/write" = true ∧
  event_deliveries (set_hook_subscriptions [prefix_subscription (Some "main.db")] empty_db) table_event = [] ∧
  event_deliveries (set_hook_subscriptions [prefix_subscription None] empty_db) table_event = [] ∧
  length (event_deliveries (set_hook_subscriptions [prefix_subscription (Some "main.db/users")] empty_db) table_event) = 1.
Proof. split_and!; vm_compute; reflexivity. Qed.

(** Nor do the webhook routes authorize the invocation: the stranger of
    [unauthorized_invocation_gets_ticket] registers a callback for the space's
    writes. *)
Definition register_call : InvocationInfo :=
  {| ii_capabilities := [mkCapability (cap_resource hook_cap) "tinycloud.hooks/register" []]; ii_invoker := bob; ii_parents := [];
     ii_invocation := mkUcan bob bob None (1000 * second) None [] [] "h3" |}.
Definition register_request : HookWebhookRequest :=
  mkHookWebhookRequest (space_to_string demo_space) "kv" (Some "docs") [] "https://elsewhere" "secret".

Example unauthorized_invocation_gets_webhook :
  (verify_auth None demo_nonce (50 * second) demo_setup demo_done.2 demo_run.2 register_call "h3").1 = Err 401%N ∧
  is_ok (create_webhook (λ _, true) default_hooks false demo_cipher "nonce" (50 * second) demo_done.2 register_call register_request).1 = true.
Proof. split; vm_compute; reflexivity. Qed.
