(* ===== verification/Link.v ===== *)
(** * Names and certificates of a node: tinycloud-node-server/src/link/{mod,state,ip,payload,client,commands}.rs

    A node claims a name at a service outside the repository, which answers signed
    requests; every request for a name carries the next number of one counter, kept in
    a file beside the name.  The world of a command is the node's link directory and
    the requests sent so far; the service is a function of these requests, so that it
    may answer in any way it likes.  Commands hold a lock on the directory: they run
    one after the other. *)
From S2P Require Import Prelude Str Chars Json Tables Jcs.

(** ** mod.rs *)

Inductive LinkError :=
| Signing (m : string)
| InterfaceError (m : string)
| NoLanIps
| CsrError (m : string)
| HttpError (m : string)
| NameConflict (name body : string)
| StaleSequence (name body : string)
| RateLimited (retry_after : option string) (body : string)
| UnexpectedStatus (status : N) (body : string)
| InvalidName (m : string).

Definition DOMAIN_SUFFIX : string := "local.tinycloud.link".
Definition DEFAULT_SERVICE_URL : string := "https://api.tinycloud.link".
Definition DEFAULT_BIND_ADDR : string := "0.0.0.0:8443".

Definition is_label_char (c : ascii) : bool := is_ascii_lower c || is_ascii_digit c || bool_decide (c = "-"%char).

Definition last_char (s : string) : option ascii := last (String.list_ascii_of_string s).

Definition normalize_name_label (name : string) : result LinkError string :=
  let lower := to_ascii_lowercase name in
  let n := String.length lower in
  _ ← ensure ((3 <=? n) && (n <=? 32)) (InvalidName ("name `" +:+ name +:+ "` must be 3-32 characters"));
  _ ← ensure (forall_char is_label_char lower &&
              match lower with String c _ => negb (bool_decide (c = "-"%char)) | "" => false end &&
              match last_char lower with Some c => negb (bool_decide (c = "-"%char)) | None => false end)
             (InvalidName ("name `" +:+ name +:+
                "` must be a dns-safe label (lowercase letters, digits, hyphens; cannot start or end with a hyphen)"));
  _ ← ensure (negb (starts_with "xn--" lower)) (InvalidName ("name `" +:+ name +:+ "` must not be a punycode (" +:+ write_string "xn--" +:+ ") label"));
  Ok lower.

Definition fqdn_for_name (name : string) : string := name +:+ "." +:+ DOMAIN_SUFFIX.

Definition local_url (name : string) (bind_port : N) : string :=
  "https://" +:+ fqdn_for_name name +:+ (if (bind_port =? 443)%N then "" else ":" +:+ fmt_u64 bind_port).

(** ** state.rs *)

Record LinkState := mkLinkState {
  ls_version : N;
  ls_name : string;
  ls_service_url : string;
  ls_sequence : N;
  ls_last_lan_ips : list string;
  ls_cert_not_after : option string;
  ls_bind : option string;
  ls_tunnel_enabled : bool;
  ls_tunnel_service_url : option string;
}.

Definition new_link_state (name service_url : string) (bind : option string) : LinkState :=
  mkLinkState 1 name service_url 0 [] None bind false None.

(** [u64::saturating_add]. *)
Definition saturating_add (a b : N) : N := N.min (a + b) u64_max.

Definition next_sequence (s : LinkState) : N := saturating_add (ls_sequence s) 1.

Definition effective_tunnel_service_url (s : LinkState) : string := default (ls_service_url s) (ls_tunnel_service_url s).

Definition set_sequence (n : N) (s : LinkState) : LinkState :=
  mkLinkState (ls_version s) (ls_name s) (ls_service_url s) n (ls_last_lan_ips s) (ls_cert_not_after s) (ls_bind s) (ls_tunnel_enabled s) (ls_tunnel_service_url s).

Record TunnelRuntimeState := mkTunnelRuntimeState { tr_connected : bool; tr_last_error : option string }.

(** The link directory: state.json, the TLS key and certificate, tunnel-state.json. *)
Record LinkDir := mkLinkDir {
  ld_state : option LinkState;
  ld_tls : option (string * string);
  ld_tunnel : option TunnelRuntimeState;
}.

Definition remove_link_dir : LinkDir := mkLinkDir None None None.

(** ** ip.rs *)

Inductive IpAddr := V4 (a b c d : N) | V6 (segments : list N).

#[export] Instance IpAddr_eq_dec : EqDecision IpAddr.
Proof. solve_decision. Defined.

(** [if_addrs::Interface]. *)
Record Interface := mkInterface { if_name : string; if_ip : IpAddr; if_loopback : bool }.

Definition MAX_LAN_IPS : nat := 8.

Definition v4_private (a b : N) : bool := (a =? 10)%N || ((a =? 172)%N && (16 <=? b)%N && (b <=? 31)%N) || ((a =? 192)%N && (b =? 168)%N).

Definition is_private_ipv4 (a b c d : N) : bool :=
  if (a =? 127)%N || bool_decide ((a, b, c, d) = (255, 255, 255, 255)%N) || ((224 <=? a)%N && (a <=? 239)%N) || bool_decide ((a, b, c, d) = (0, 0, 0, 0)%N)
  then false else v4_private a b || ((a =? 169)%N && (b =? 254)%N).

Definition first_segment (segments : list N) : N := default 0%N (head segments).
Definition unique_local (segments : list N) : bool := (N.land (first_segment segments) 65024 =? 64512)%N.
Definition is_ipv6_link_local (segments : list N) : bool := (N.land (first_segment segments) 65472 =? 65152)%N.

Definition is_private_ipv6 (segments : list N) : bool :=
  if bool_decide (segments = [0; 0; 0; 0; 0; 0; 0; 1]%N) || (N.land (first_segment segments) 65280 =? 65280)%N || bool_decide (segments = [0; 0; 0; 0; 0; 0; 0; 0]%N)
  then false else unique_local segments || is_ipv6_link_local segments.

Definition is_private_lan_address (ip : IpAddr) : bool := match ip with V4 a b c d => is_private_ipv4 a b c d | V6 s => is_private_ipv6 s end.

Definition is_preferred_lan_address (ip : IpAddr) : bool := match ip with V4 a b _ _ => v4_private a b | V6 s => unique_local s end.

Definition VIRTUAL_INTERFACE_PREFIXES : list string := ["bridge"; "vmnet"; "utun"; "awdl"; "llw"; "docker"; "virbr"; "veth"; "br-"].

Definition is_virtual_bridge_interface (name : string) : bool := existsb (λ p, starts_with p name) VIRTUAL_INTERFACE_PREFIXES.

Definition push_new (ip : IpAddr) (virtual : bool) (bucket : list (IpAddr * bool)) : list (IpAddr * bool) :=
  if bool_decide (ip ∈ bucket.*1) then bucket else bucket ++ [(ip, virtual)].

(** One interface goes to a bucket, or none. *)
Definition publishable (i : Interface) : bool :=
  negb (if_loopback i) && negb (match if_ip i with V6 s => is_ipv6_link_local s | V4 _ _ _ _ => false end) && is_private_lan_address (if_ip i).

Definition sort_interface (buckets : list (IpAddr * bool) * list (IpAddr * bool)) (i : Interface) : list (IpAddr * bool) * list (IpAddr * bool) :=
  let '(preferred, fallback) := buckets in
  if publishable i then
    let virtual := is_virtual_bridge_interface (if_name i) in
    if is_preferred_lan_address (if_ip i) then (push_new (if_ip i) virtual preferred, fallback) else (preferred, push_new (if_ip i) virtual fallback)
  else buckets.

Definition select_lan_ips (addrs : list Interface) : result LinkError (list IpAddr) :=
  let '(preferred, fallback) := foldl sort_interface ([], []) addrs in
  let all := preferred ++ fallback in
  let physical := (List.filter (λ e, negb e.2) all).*1 in
  let ips := take MAX_LAN_IPS (if decide (physical = []) then all.*1 else physical) in
  _ ← ensure (negb (bool_decide (ips = []))) NoLanIps;
  Ok ips.

(** ** payload.rs and tunnel/auth.rs *)

(** The requests a node signs, to the name service and to the tunnel relay. *)
Inductive LinkAction :=
| ActClaim (lan_ips : list string)
| ActDelete
| ActCert (csr : string)
| ActTunnel.

Record LinkRequest := mkLinkRequest {
  rq_url : string;
  rq_action : LinkAction;
  rq_name : string;
  rq_subject : string;
  rq_sequence : N;
  rq_signature : string;
}.

(** [serde_json::to_string] of a struct whose fields have these texts. *)
Definition struct_text (fields : list (string * string)) : string :=
  "{" +:+ String.concat "," (map (λ f, write_string f.1 +:+ ":" +:+ f.2) fields) +:+ "}".

Definition strings_text (l : list string) : string := "[" +:+ String.concat "," (map write_string l) +:+ "]".

Definition action_name (a : LinkAction) : string :=
  match a with ActClaim _ => "claim" | ActDelete => "delete" | ActCert _ => "cert" | ActTunnel => "tunnel" end.

(** The fields between subject and sequence. *)
Definition action_fields (a : LinkAction) : list (string * string) :=
  match a with
  | ActClaim ips => [("lanIps", strings_text ips)]
  | ActCert csr => [("csr", write_string csr)]
  | ActDelete | ActTunnel => []
  end.

Definition canonical_payload (a : LinkAction) (name subject : string) (sequence : N) : string :=
  struct_text ([("version", "1"); ("action", write_string (action_name a)); ("name", write_string name); ("subject", write_string subject)] ++
               action_fields a ++ [("sequence", fmt_u64 sequence)]).

(** ** client.rs *)

Record HttpResponse := mkHttpResponse { hr_status : N; hr_retry_after : option string; hr_body : string }.
Record CertIssuanceResponse := mkCertIssuance { ci_chain_pem : string; ci_not_after : string }.

Definition is_success (status : N) : bool := (200 <=? status)%N && (status <? 300)%N.

(** The service's answer to the last of the requests sent so far (or the error of the
    HTTP client), what [serde] reads in an error body and in the body of an issued
    certificate, the node's DID and its signatures, the host's interfaces, and a fresh
    key with the signing request for a name.  The commands load the identity and list
    the interfaces anew each time; here they, the signatures and the signing request of
    a name are the same throughout a run, so a history in which the host changes its
    addresses or the node its key between two commands is not one of the model's. *)
Class LinkEnv := {
  link_service : list LinkRequest → result string HttpResponse;
  percent_encode : string → string;               (* every byte but ASCII letters and digits *)
  error_body : string → option string;
  issuance_body : string → result string CertIssuanceResponse;
  node_identity : result string string;
  node_sign : string → result string string;
  host_interfaces : result string (list Interface);
  ip_text : IpAddr → string;
  generate_csr : string → result LinkError (string * string);
}.

(** ** commands.rs *)

Record World := mkWorld { w_dir : LinkDir; w_signed : list LinkRequest }.

Definition write_state (s : LinkState) (w : World) : World :=
  mkWorld (mkLinkDir (Some s) (ld_tls (w_dir w)) (ld_tunnel (w_dir w))) (w_signed w).

Definition write_tls_material (key cert : string) (w : World) : World :=
  mkWorld (mkLinkDir (ld_state (w_dir w)) (Some (key, cert)) (ld_tunnel (w_dir w))) (w_signed w).

Inductive CommandError := LinkFailed (e : LinkError) | Message (m : string).

Inductive LinkListenerState := ListenerDisabled | ListenerStopped | ListenerRunning.

Record LinkStatusReport := mkLinkStatusReport {
  lr_enabled : bool;
  lr_name : option string;
  lr_local_url : option string;
  lr_cert_not_after : option string;
  lr_service_url : option string;
  lr_bind : option string;
  lr_sequence : option N;
  lr_listener : LinkListenerState;
}.

Definition link_disabled_report : LinkStatusReport := mkLinkStatusReport false None None None None None None ListenerDisabled.

(** [port.parse::<u16>()] of what follows the last colon. *)
Definition parse_bind_port (bind : string) : option N :=
  '(_, port) ← rsplit_once ":" bind; n ← parse_u64 port; if (n <? 65536)%N then Some n else None.

Definition link_build_status (s : LinkState) (issuance : option CertIssuanceResponse) : LinkStatusReport :=
  mkLinkStatusReport true (Some (ls_name s)) (Some (local_url (ls_name s) (default 8443%N (ls_bind s ≫= parse_bind_port))))
    (match issuance with Some i => Some (ci_not_after i) | None => ls_cert_not_after s end)
    (Some (ls_service_url s)) (ls_bind s) (Some (ls_sequence s)) ListenerStopped.

Definition SEQUENCE_RESYNC_JUMP : N := 100.

Section Commands.
Context `{LinkEnv}.

Definition classify_conflict (name body : string) : LinkError :=
  if contains_str "stale" (default "" (error_body body)) then StaleSequence name body else NameConflict name body.

Definition map_error_status (r : HttpResponse) (name : string) : LinkError :=
  if (hr_status r =? 409)%N then classify_conflict name (hr_body r)
  else if (hr_status r =? 429)%N then RateLimited (hr_retry_after r) (hr_body r)
  else UnexpectedStatus (hr_status r) (hr_body r).

Definition interpret_response (name : string) (r : HttpResponse) : result LinkError unit :=
  if is_success (hr_status r) then Ok tt else Err (map_error_status r name).

Definition interpret_issuance (name : string) (r : HttpResponse) : result LinkError CertIssuanceResponse :=
  if is_success (hr_status r) then map_err HttpError (issuance_body (hr_body r)) else Err (map_error_status r name).

(** A name that is not there is deleted. *)
Definition interpret_delete (name : string) (r : HttpResponse) : result LinkError unit :=
  match interpret_response name r with
  | Err (UnexpectedStatus status body) => if (status =? 404)%N then Ok tt else Err (UnexpectedStatus status body)
  | r => r
  end.

(** The method is the action's. *)
Definition request_url (base : string) (a : LinkAction) (name : string) : string :=
  trim_end "/" base +:+ (match a with ActCert _ => "/v1/certs/" | _ => "/v1/names/" end) +:+ percent_encode name.

(** One call of [send]: sign the payload and send the request. *)
Definition send_request {T} (base : string) (a : LinkAction) (name subject : string) (read : HttpResponse → result LinkError T) (sequence : N) (w : World)
    : result LinkError T * World :=
  match node_sign (canonical_payload a name subject sequence) with
  | Err e => (Err (Signing e), w)
  | Ok signature =>
      let log := w_signed w ++ [mkLinkRequest (request_url base a name) a name subject sequence signature] in
      (r ← map_err HttpError (link_service log); read r, mkWorld (w_dir w) log)
  end.

Definition send_with_sequence {T} (a : LinkAction) (name subject : string) (read : HttpResponse → result LinkError T) (s : LinkState) (w : World)
    : result LinkError T * (LinkState * World) :=
  let sequence := next_sequence s in
  let s := set_sequence sequence s in
  match send_request (ls_service_url s) a name subject read sequence (write_state s w) with
  | (Err (StaleSequence _ _), w) =>
      let resynced := saturating_add (ls_sequence s) SEQUENCE_RESYNC_JUMP in
      let s := set_sequence resynced s in
      let '(r, w) := send_request (ls_service_url s) a name subject read resynced (write_state s w) in
      (r, (s, w))
  | (r, w) => (r, (s, w))
  end.

Definition request_cert (name subject : string) (s : LinkState) (w : World) : result CommandError (CertIssuanceResponse * LinkState) * World :=
  match generate_csr name with
  | Err e => (Err (LinkFailed e), w)
  | Ok (key, csr) =>
      match send_with_sequence (ActCert csr) name subject (interpret_issuance name) s w with
      | (Err e, (_, w)) => (Err (LinkFailed e), w)
      | (Ok issuance, (s, w)) =>
          let s := mkLinkState (ls_version s) (ls_name s) (ls_service_url s) (ls_sequence s) (ls_last_lan_ips s) (Some (ci_not_after issuance)) (ls_bind s)
                     (ls_tunnel_enabled s) (ls_tunnel_service_url s) in
          (Ok (issuance, s), write_state s (write_tls_material key (ci_chain_pem issuance) w))
      end
  end.

(** Claim the name for these addresses, and keep them. *)
Definition claim_addresses (name subject : string) (ips : list string) (s : LinkState) (w : World) : result CommandError LinkState * World :=
  match send_with_sequence (ActClaim ips) name subject (interpret_response name) s w with
  | (Err e, (_, w)) => (Err (LinkFailed e), w)
  | (Ok _, (s, w)) =>
      let s := mkLinkState (ls_version s) (ls_name s) (ls_service_url s) (ls_sequence s) ips (ls_cert_not_after s) (ls_bind s)
                 (ls_tunnel_enabled s) (ls_tunnel_service_url s) in
      (Ok s, write_state s w)
  end.

Definition discover_lan_ips : result LinkError (list IpAddr) := addrs ← map_err InterfaceError host_interfaces; select_lan_ips addrs.

(** The label, the node's DID and the texts of its addresses. *)
Definition enable_inputs (name : string) : result CommandError (string * string * list string) :=
  label ← map_err LinkFailed (normalize_name_label name);
  did ← map_err Message node_identity;
  ips ← map_err LinkFailed discover_lan_ips;
  Ok (label, did, map ip_text ips).

(** Where [enable] starts: the state on disk or a new one, under this name, service and
    bind address. *)
Definition enable_state (label : string) (service_url bind : option string) (w : World) : LinkState :=
  let service_url := default DEFAULT_SERVICE_URL service_url in
  let bind := default DEFAULT_BIND_ADDR bind in
  let s := default (new_link_state label service_url (Some bind)) (ld_state (w_dir w)) in
  mkLinkState (ls_version s) label service_url (ls_sequence s) (ls_last_lan_ips s) (ls_cert_not_after s) (Some bind)
    (ls_tunnel_enabled s) (ls_tunnel_service_url s).

(** A claimed name gets its certificate, and the command its report. *)
Definition certify_claimed (did : string) (claimed : result CommandError LinkState) (w : World) : result CommandError LinkStatusReport * World :=
  match claimed with
  | Err e => (Err e, w)
  | Ok s =>
      let '(r, w) := request_cert (ls_name s) did s w in
      ('(issuance, s) ← r; Ok (link_build_status s (Some issuance)), w)
  end.

Definition link_enable (name : string) (service_url bind : option string) (w : World) : result CommandError LinkStatusReport * World :=
  match enable_inputs name with
  | Err e => (Err e, w)
  | Ok (label, did, ips) =>
      let '(claimed, w) := claim_addresses label did ips (enable_state label service_url bind w) w in
      certify_claimed did claimed w
  end.

Definition renew_inputs (w : World) : result CommandError (LinkState * string * list string) :=
  s ← ok_or (ld_state (w_dir w)) (Message "link is not enabled — run `tinycloud node link enable <name>`");
  did ← map_err Message node_identity;
  ips ← map_err LinkFailed discover_lan_ips;
  Ok (s, did, map ip_text ips).

(** The addresses are claimed again when they changed. *)
Definition link_renew (w : World) : result CommandError LinkStatusReport * World :=
  match renew_inputs w with
  | Err e => (Err e, w)
  | Ok (s, did, ips) =>
      let '(claimed, w) := if decide (ips = ls_last_lan_ips s) then (Ok s, w) else claim_addresses (ls_name s) did ips s w in
      certify_claimed did claimed w
  end.

(** The directory goes whatever the service answers. *)
Definition link_disable (w : World) : result CommandError LinkStatusReport * World :=
  match ld_state (w_dir w) with
  | None => (Ok link_disabled_report, w)
  | Some s =>
      match map_err Message node_identity with
      | Err e => (Err e, w)
      | Ok did =>
          let '(r, (_, w)) := send_with_sequence ActDelete (ls_name s) did (interpret_delete (ls_name s)) s w in
          (_ ← map_err LinkFailed r; Ok link_disabled_report, mkWorld remove_link_dir (w_signed w))
      end
  end.

Definition link_status (w : World) : LinkStatusReport :=
  match ld_state (w_dir w) with Some s => link_build_status s None | None => link_disabled_report end.

End Commands.

(** ** Names *)

Lemma lower_char_idem c : to_ascii_lowercase_char (to_ascii_lowercase_char c) = to_ascii_lowercase_char c.
Proof.
  eapply bool_decide_eq_true_1. revert c.
  apply (ascii_forall (λ c, bool_decide (to_ascii_lowercase_char (to_ascii_lowercase_char c) = to_ascii_lowercase_char c))).
  vm_compute. reflexivity.
Qed.

Lemma lowercase_idem s : to_ascii_lowercase (to_ascii_lowercase s) = to_ascii_lowercase s.
Proof. unfold to_ascii_lowercase. induction s as [|c s IH]; simpl; [done|]. by rewrite lower_char_idem, IH. Qed.

(** A name is accepted up to the case of its letters, which the label forgets. *)
Lemma normalize_name_label_lower name label :
  normalize_name_label name = Ok label → label = to_ascii_lowercase name ∧ normalize_name_label label = Ok label.
Proof.
  unfold normalize_name_label. intros Hl. ok_inv. rewrite lowercase_idem.
  split; [done|]. by repeat match goal with H : _ = true |- _ => rewrite H; clear H end.
Qed.

(** ** What a signature binds *)

Lemma strings_text_inj l l' r r' : strings_text l +:+ r = strings_text l' +:+ r' → l = l' ∧ r = r'.
Proof.
  unfold strings_text. rewrite !append_assoc. intros Heq. apply append_inj_l in Heq.
  apply (items_inj write_string (λ _, True) "]") in Heq; [done|done|done| | | |].
  - intros x _. exists (char 34). by eexists.
  - apply Forall_forall. intros x _ x' s s' _ _ _. apply write_string_inj.
  - by apply Forall_forall.
  - by apply Forall_forall.
Qed.

(** The text of the action's own field, if it has one. *)
Definition action_text (a : LinkAction) : string :=
  match a with
  | ActClaim ips => "," +:+ write_string "lanIps" +:+ ":" +:+ strings_text ips
  | ActCert csr => "," +:+ write_string "csr" +:+ ":" +:+ write_string csr
  | ActDelete | ActTunnel => ""
  end.

Lemma canonical_payload_text a name subject sequence :
  canonical_payload a name subject sequence =
    ("{" +:+ write_string "version" +:+ ":1," +:+ write_string "action" +:+ ":") +:+ write_string (action_name a) +:+
    ("," +:+ write_string "name" +:+ ":") +:+ write_string name +:+
    ("," +:+ write_string "subject" +:+ ":") +:+ write_string subject +:+
    action_text a +:+ ("," +:+ write_string "sequence" +:+ ":") +:+ fmt_u64 sequence +:+ "}".
Proof.
  unfold canonical_payload, struct_text. destruct a; cbn [action_fields app map String.concat fst snd action_text];
    rewrite ?append_assoc; reflexivity.
Qed.

Lemma action_text_inj a a' r r' : action_name a = action_name a' → action_text a +:+ r = action_text a' +:+ r' → a = a' ∧ r = r'.
Proof.
  intros Ha. destruct a, a'; try done; cbn [action_text]; rewrite ?append_assoc; intros Heq; try done.
  - do 3 apply append_inj_l in Heq. by apply strings_text_inj in Heq as [-> ->].
  - do 3 apply append_inj_l in Heq. by apply write_string_inj in Heq as [-> ->].
Qed.

(** The text a node signs says everything about the request: two requests
    (claims, deletions, certificate requests, tunnel authentications) with the same
    text are the same request, for the same name, subject and sequence, with the same
    addresses or signing request.  A signature cannot be moved to another request. *)
Theorem link_payload_binds a a' name name' subject subject' sequence sequence'
    (Hsequence : (sequence ≤ u64_max)%N) (Hsequence' : (sequence' ≤ u64_max)%N)
    (Heq : canonical_payload a name subject sequence = canonical_payload a' name' subject' sequence') :
  a = a' ∧ name = name' ∧ subject = subject' ∧ sequence = sequence'.
Proof.
  rewrite !canonical_payload_text in Heq. apply append_inj_l, write_string_inj in Heq as [Ha Heq].
  apply append_inj_l, write_string_inj in Heq as [-> Heq]. apply append_inj_l, write_string_inj in Heq as [-> Heq].
  apply action_text_inj in Heq as [-> Heq]; [|done]. apply append_inj_l, digits_inj in Heq as [Heq _]; try done; try apply fmt_u64_digits.
  by apply fmt_u64_inj in Heq as ->.
Qed.

(** ** Addresses *)

(** An entry of a bucket stands for an interface seen so far. *)
Definition entry_of (seen : list Interface) (wanted : bool) (e : IpAddr * bool) : Prop :=
  is_preferred_lan_address e.1 = wanted ∧
  ∃ i, i ∈ seen ∧ publishable i = true ∧ if_ip i = e.1 ∧ is_virtual_bridge_interface (if_name i) = e.2.

Record sorted (seen : list Interface) (buckets : list (IpAddr * bool) * list (IpAddr * bool)) : Prop := {
  so_preferred : Forall (entry_of seen true) buckets.1;
  so_fallback : Forall (entry_of seen false) buckets.2;
  so_preferred_once : NoDup buckets.1.*1;
  so_fallback_once : NoDup buckets.2.*1;
  so_complete : ∀ i, i ∈ seen → publishable i = true → if_ip i ∈ (buckets.1 ++ buckets.2).*1;
}.

Lemma entry_of_mono seen i b e : entry_of seen b e → entry_of (seen ++ [i]) b e.
Proof. intros [Hp (j & Hj & Hrest)]. split; [done|]. exists j. split; [|done]. apply elem_of_app. by left. Qed.

Lemma push_new_spec ip v bucket : (push_new ip v bucket).*1 = bucket.*1 ++ (if bool_decide (ip ∈ bucket.*1) then [] else [ip]).
Proof. unfold push_new. case_bool_decide; [by rewrite app_nil_r|]. by rewrite fmap_app. Qed.

Lemma push_new_NoDup ip v bucket : NoDup bucket.*1 → NoDup (push_new ip v bucket).*1.
Proof.
  rewrite push_new_spec. intros Hb. case_bool_decide as Hip; [by rewrite app_nil_r|].
  apply NoDup_app. repeat split; [done| |by apply NoDup_singleton]. intros x Hx Hin. by apply list_elem_of_singleton in Hin as ->.
Qed.

Lemma push_new_Forall P ip v bucket : P (ip, v) → Forall P bucket → Forall P (push_new ip v bucket).
Proof. intros Hp Hb. unfold push_new. case_bool_decide; [done|]. apply Forall_app. by repeat constructor. Qed.

Lemma push_new_has ip v bucket x : x ∈ bucket.*1 ∨ x = ip → x ∈ (push_new ip v bucket).*1.
Proof. rewrite push_new_spec, elem_of_app. intros [Hx| ->]; [by left|]. case_bool_decide; [by left|]. right. by apply list_elem_of_singleton. Qed.

Lemma sort_interface_sorted seen buckets i : sorted seen buckets → sorted (seen ++ [i]) (sort_interface buckets i).
Proof.
  intros [Hp Hf Hnp Hnf Hc]. destruct buckets as [p f]. simpl in *. unfold sort_interface.
  assert (Hmono : ∀ b l, Forall (entry_of seen b) l → Forall (entry_of (seen ++ [i]) b) l).
  { intros b l Hl. eapply Forall_impl; [apply Hl|]. intros e. apply entry_of_mono. }
  destruct (publishable i) eqn:Hi.
  2:{ split; simpl; auto. intros j Hj Hpub. apply elem_of_app in Hj as [Hj|Hj]; [by apply Hc|].
      apply list_elem_of_singleton in Hj as ->. congruence. }
  assert (Hent : entry_of (seen ++ [i]) (is_preferred_lan_address (if_ip i)) (if_ip i, is_virtual_bridge_interface (if_name i))).
  { split; [done|]. exists i. split; [|done]. apply elem_of_app. right. by apply list_elem_of_singleton. }
  assert (Hseen : ∀ j, j ∈ seen ++ [i] → publishable j = true → if_ip j ∈ (p ++ f).*1 ∨ if_ip j = if_ip i).
  { intros j Hj Hpub. apply elem_of_app in Hj as [Hj|Hj]; [left; by apply Hc|]. apply list_elem_of_singleton in Hj as ->. by right. }
  destruct (is_preferred_lan_address (if_ip i)); split; simpl; auto using push_new_NoDup, push_new_Forall;
    intros j Hj Hpub; specialize (Hseen j Hj Hpub); rewrite fmap_app in *; rewrite elem_of_app in *;
    destruct Hseen as [[?|?]| ->]; auto using push_new_has.
Qed.

Lemma fold_sorted addrs : sorted addrs (foldl sort_interface ([], []) addrs).
Proof.
  induction addrs as [|i addrs IH] using rev_ind.
  - split; simpl; try constructor. intros i Hi. by apply not_elem_of_nil in Hi.
  - rewrite foldl_app. simpl. by apply sort_interface_sorted.
Qed.

Lemma sorted_NoDup seen buckets : sorted seen buckets → NoDup (buckets.1 ++ buckets.2).*1.
Proof.
  intros [Hp Hf Hnp Hnf _]. rewrite fmap_app. apply NoDup_app. repeat split; [done| |done].
  intros x Hx Hx'. apply list_elem_of_fmap in Hx as (e & -> & He). apply list_elem_of_fmap in Hx' as (e' & Heq & He').
  rewrite Forall_forall in Hp, Hf. destruct (Hp e He) as [H1 _], (Hf e' He') as [H2 _]. congruence.
Qed.

(** The addresses kept, as a list in the order of the buckets: what [truncate] and the
    choice of physical interfaces leave. *)
Definition kept (all : list (IpAddr * bool)) : list (IpAddr * bool) :=
  let physical := List.filter (λ e, negb e.2) all in take MAX_LAN_IPS (if decide (physical.*1 = []) then all else physical).

Lemma select_kept addrs :
  let '(p, f) := foldl sort_interface ([], []) addrs in
  select_lan_ips addrs = if decide (kept (p ++ f) = []) then Err NoLanIps else Ok (kept (p ++ f)).*1.
Proof.
  unfold select_lan_ips, kept. destruct (foldl _ _ _) as [p f].
  set (ph := List.filter _ _). set (l := take _ (if decide (ph.*1 = []) then p ++ f else ph)).
  assert (Hl : take MAX_LAN_IPS (if decide (ph.*1 = []) then (p ++ f).*1 else ph.*1) = l.*1).
  { subst l. rewrite fmap_take. by case_decide. }
  rewrite Hl. clearbody l. by destruct l as [|e l]; simpl; case_decide.
Qed.

Lemma kept_sublist all : kept all `sublist_of` all.
Proof.
  unfold kept. etrans; [apply sublist_take|]. case_decide as Hd; [done|clear Hd].
  induction all as [|e all IH]; simpl; [done|]. destruct (negb e.2); [by apply sublist_skip|by apply sublist_cons].
Qed.

Lemma kept_physical all : (Forall (λ e, e.2 = false) (kept all)) ∨ (Forall (λ e, e.2 = true) all).
Proof.
  unfold kept. case_decide as Hd.
  - right. apply fmap_nil_inv in Hd. apply Forall_forall. intros e He. destruct e.2 eqn:Hv; [done|].
    exfalso. assert (Hin : e ∈ List.filter (λ e, negb e.2) all) by (apply list_elem_of_In, filter_In; rewrite Hv; split; [by apply list_elem_of_In|done]).
    rewrite Hd in Hin. by apply not_elem_of_nil in Hin.
  - left. apply Forall_take, Forall_forall. intros e He. apply list_elem_of_In, filter_In in He as [_ He]. by apply negb_true_iff in He.
Qed.

Lemma kept_length all : length (kept all) ≤ MAX_LAN_IPS.
Proof. unfold kept. rewrite length_take. lia. Qed.

Lemma kept_nil all : kept all = [] → all = [].
Proof.
  unfold kept. case_decide as Hd; intros Ht; apply take_nil_inv in Ht as [Ht|Ht]; try done.
  by rewrite Ht in Hd.
Qed.

(** The addresses a node publishes are those of its interfaces, and nothing else: at
    least one and at most eight, none twice, each the address of an interface of the
    host that is not loopback, private and not an IPv6 link-local address; private and
    unique-local addresses come before link-local ones; and either all are addresses of
    physical interfaces, or every address that could be published is one of a virtual
    interface.  The node refuses only when no interface has such an address. *)
Theorem published_addresses_exact addrs :
  match select_lan_ips addrs with
  | Ok ips =>
      1 ≤ length ips ≤ MAX_LAN_IPS ∧ NoDup ips ∧
      (∀ ip, ip ∈ ips → ∃ i, i ∈ addrs ∧ publishable i = true ∧ if_ip i = ip) ∧
      (∃ p f, ips = p ++ f ∧ Forall (λ ip, is_preferred_lan_address ip = true) p ∧ Forall (λ ip, is_preferred_lan_address ip = false) f) ∧
      ((∀ ip, ip ∈ ips → ∃ i, i ∈ addrs ∧ if_ip i = ip ∧ is_virtual_bridge_interface (if_name i) = false) ∨
       (∀ i, i ∈ addrs → publishable i = true → ∃ j, j ∈ addrs ∧ if_ip j = if_ip i ∧ is_virtual_bridge_interface (if_name j) = true))
  | Err e => e = NoLanIps ∧ ∀ i, i ∈ addrs → publishable i = false
  end.
Proof.
  pose proof (select_kept addrs) as Hsel. pose proof (fold_sorted addrs) as Hs. destruct (foldl _ _ _) as [p f]. rewrite Hsel.
  pose proof Hs as [Hp Hf _ _ Hc]. simpl in Hp, Hf, Hc.
  assert (Hentry : ∀ e, e ∈ p ++ f → ∃ b, entry_of addrs b e).
  { intros e He. rewrite Forall_forall in Hp, Hf. apply elem_of_app in He as [He|He]; eauto. }
  pose proof (kept_sublist (p ++ f)) as Hsub. destruct (decide _) as [Hd|Hd].
  - split; [done|]. intros i Hi. destruct (publishable i) eqn:Hpub; [|done]. specialize (Hc i Hi Hpub).
    apply kept_nil in Hd. rewrite Hd in Hc. by apply not_elem_of_nil in Hc.
  - split_and!.
    + rewrite length_fmap. destruct (kept _); [done|simpl; lia].
    + rewrite length_fmap. apply kept_length.
    + eapply sublist_NoDup; [|by apply fmap_sublist]. by apply (sorted_NoDup addrs (p, f)).
    + intros ip Hip. apply list_elem_of_fmap in Hip as (e & -> & He). eapply elem_of_sublist in He; [|done].
      destruct (Hentry e He) as (b & _ & i & Hi & Hpub & Hip & _). by exists i.
    + apply sublist_app_r in Hsub as (kp & kf & -> & Hkp & Hkf). exists kp.*1, kf.*1. rewrite fmap_app, !Forall_fmap.
      split; [done|]. split; (apply Forall_forall; intros e He; eapply elem_of_sublist in He; [|done]).
      { rewrite Forall_forall in Hp. apply Hp, He. }
      { rewrite Forall_forall in Hf. apply Hf, He. }
    + destruct (kept_physical (p ++ f)) as [Hk|Hk]; rewrite Forall_forall in Hk.
      * left. intros ip Hip. apply list_elem_of_fmap in Hip as (e & -> & He). specialize (Hk e He). eapply elem_of_sublist in He; [|done].
        destruct (Hentry e He) as (b & _ & i & Hi & Hpub & Hip & Hv). exists i. by rewrite Hv.
      * right. intros i Hi Hpub. specialize (Hc i Hi Hpub). apply list_elem_of_fmap in Hc as (e & Heq & He). specialize (Hk e He).
        destruct (Hentry e He) as (b & _ & j & Hj & _ & Hip & Hv). exists j. rewrite Heq, Hv. done.
Qed.

(** ** The counter *)

(** The counter on disk; a node that has no state starts from none. *)
Definition counter (w : World) : N := match ld_state (w_dir w) with Some s => ls_sequence s | None => 0%N end.

(** The requests carry numbers above [c], each above the one before, up to [c']. *)
Fixpoint climbs (c : N) (l : list LinkRequest) (c' : N) : Prop :=
  match l with
  | [] => (c ≤ c')%N
  | r :: l => (c < rq_sequence r)%N ∧ climbs (rq_sequence r) l c'
  end.

Lemma climbs_app c l c' l' c'' : climbs c l c' → climbs c' l' c'' → climbs c (l ++ l') c''.
Proof.
  revert c. induction l as [|r l IH]; simpl.
  - intros c Hc Hl'. revert c' Hc Hl'. destruct l' as [|r' l']; simpl; intros c' Hc; [lia|]. intros [? ?]. split; [lia|done].
  - intros c [Hr Hl] Hl'. eauto.
Qed.

Lemma climbs_bounds c l c' r : climbs c l c' → r ∈ l → (c < rq_sequence r ≤ c')%N.
Proof.
  assert (Hle : ∀ l c, climbs c l c' → (c ≤ c')%N).
  { clear. induction l as [|r l IH]; simpl; intros c; [done|]. intros [Hr Hl]. apply IH in Hl. lia. }
  revert c. induction l as [|r' l IH]; simpl; intros c Hc Hr; [by apply not_elem_of_nil in Hr|]. destruct Hc as [Hr' Hl].
  apply elem_of_cons in Hr as [->|Hr]; [apply Hle in Hl; lia|]. specialize (IH _ Hl Hr). lia.
Qed.

Lemma climbs_NoDup c l c' : climbs c l c' → NoDup (map rq_sequence l).
Proof.
  revert c. induction l as [|r l IH]; simpl; intros c; [by constructor|]. intros [_ Hl]. constructor; [|eauto].
  intros Hin. apply list_elem_of_In, in_map_iff in Hin as (r' & Heq & Hr'). apply list_elem_of_In in Hr'.
  apply (climbs_bounds _ _ _ _ Hl) in Hr'. lia.
Qed.

(** From one world to the next the counter climbs with the requests signed, as long as
    it has not reached the end of [u64]. *)
Definition advances (w w' : World) : Prop :=
  (counter w ≤ u64_max)%N →
  (counter w ≤ counter w' ≤ u64_max)%N ∧
  ∃ l, w_signed w' = w_signed w ++ l ∧ ((counter w' < u64_max)%N → climbs (counter w) l (counter w')).

#[export] Instance advances_preorder : PreOrder advances.
Proof.
  split.
  - intros w Hw. split; [lia|]. exists []. rewrite app_nil_r. split; [done|]. intros _. simpl. lia.
  - intros w1 w2 w3 H12 H23 Hw. destruct (H12 Hw) as (Hc & l & Hl & Hcl). destruct (H23 ltac:(lia)) as (Hc' & l' & Hl' & Hcl').
    split; [lia|]. exists (l ++ l'). rewrite Hl', Hl, app_assoc. split; [done|]. intros Hlt.
    eapply climbs_app; [apply Hcl; lia|by apply Hcl'].
Qed.

(** The same counter and no request. *)
Lemma advances_same w w' : counter w' = counter w → w_signed w' = w_signed w → advances w w'.
Proof. intros Hc Hs Hw. rewrite Hc. split; [lia|]. exists []. rewrite Hs, app_nil_r. split; [done|]. intros _. simpl. lia. Qed.

Section Sending.
Context `{LinkEnv}.

(** A request is signed after its number is on disk. *)
Lemma send_request_spec {T} base a name subject (read : HttpResponse → result LinkError T) sequence w :
  let '(r, w') := send_request base a name subject read sequence w in
  w_dir w' = w_dir w ∧
  ∃ l, w_signed w' = w_signed w ++ l ∧
       (l = [] ∨ ∃ signature, l = [mkLinkRequest (request_url base a name) a name subject sequence signature]).
Proof.
  unfold send_request. destruct (node_sign _) as [signature|e]; simpl.
  - split; [done|]. exists [mkLinkRequest (request_url base a name) a name subject sequence signature]. eauto.
  - split; [done|]. exists []. rewrite app_nil_r. eauto.
Qed.

Lemma send_request_advances {T} base a name subject (read : HttpResponse → result LinkError T) s sequence w :
  (ls_sequence s ≤ u64_max)%N → counter w = ls_sequence s → sequence = saturating_add (ls_sequence s) 1 ∨ sequence = saturating_add (ls_sequence s) SEQUENCE_RESYNC_JUMP →
  let '(r, w') := send_request base a name subject read sequence (write_state (set_sequence sequence s) w) in
  w_dir w' = w_dir (write_state (set_sequence sequence s) w) ∧ advances w w'.
Proof.
  intros Hs Hw Hseq. pose proof (send_request_spec base a name subject read sequence (write_state (set_sequence sequence s) w)) as Hsend.
  destruct (send_request _ _ _ _ _ _ _) as [r w']. destruct Hsend as (Hd & l & Hl & Hcases). split; [done|].
  assert (Hc : counter w' = sequence) by (unfold counter; by rewrite Hd).
  assert (Hlt : (ls_sequence s ≤ sequence ≤ u64_max)%N ∧ ((sequence < u64_max)%N → (ls_sequence s < sequence)%N)).
  { unfold saturating_add, SEQUENCE_RESYNC_JUMP in Hseq. destruct Hseq as [-> | ->]; lia. }
  intros _. rewrite Hc, Hw. split; [lia|]. exists l. split; [done|]. intros Hmax. destruct Hlt as [_ Hlt]. specialize (Hlt Hmax).
  destruct Hcases as [-> | (signature & ->)]; simpl; lia.
Qed.

Lemma send_with_sequence_advances {T} a name subject (read : HttpResponse → result LinkError T) s w :
  (ls_sequence s ≤ u64_max)%N → counter w = ls_sequence s →
  let '(r, (s', w')) := send_with_sequence a name subject read s w in
  ld_state (w_dir w') = Some s' ∧ ld_tls (w_dir w') = ld_tls (w_dir w) ∧ ld_tunnel (w_dir w') = ld_tunnel (w_dir w) ∧
  (∃ n, s' = set_sequence n s) ∧ advances w w'.
Proof.
  intros Hs Hw. unfold send_with_sequence. pose proof (send_request_advances (ls_service_url (set_sequence (next_sequence s) s)) a name subject read s (next_sequence s) w Hs Hw ltac:(by left)) as H1.
  destruct (send_request _ _ _ _ _ _ _) as [r w1]. destruct H1 as [Hd1 Ha1].
  assert (Hone : ld_state (w_dir w1) = Some (set_sequence (next_sequence s) s) ∧ ld_tls (w_dir w1) = ld_tls (w_dir w) ∧ ld_tunnel (w_dir w1) = ld_tunnel (w_dir w)) by by rewrite Hd1.
  destruct Hone as (Hst1 & Htls1 & Htun1).
  assert (Hdone : ld_state (w_dir w1) = Some (set_sequence (next_sequence s) s) ∧ ld_tls (w_dir w1) = ld_tls (w_dir w) ∧ ld_tunnel (w_dir w1) = ld_tunnel (w_dir w) ∧
                  (∃ n, set_sequence (next_sequence s) s = set_sequence n s) ∧ advances w w1) by eauto 10.
  destruct r as [x|[]]; try exact Hdone.
  set (s1 := set_sequence (next_sequence s) s) in *.
  pose proof (send_request_advances (ls_service_url (set_sequence (saturating_add (ls_sequence s1) SEQUENCE_RESYNC_JUMP) s1)) a name subject read s1 (saturating_add (ls_sequence s1) SEQUENCE_RESYNC_JUMP) w1) as H2.
  destruct (send_request _ _ _ _ _ _ _) as [r w2].
  destruct H2 as [Hd2 Ha2]; [subst s1; simpl; unfold next_sequence, saturating_add; lia|unfold counter; by rewrite Hst1|by right|].
  rewrite Hd2. simpl. split_and!; [done|done|done|by eexists|by etrans].
Qed.
End Sending.

(** ** Commands *)

Section CommandLemmas.
Context `{LinkEnv}.

Lemma counter_state w s : ld_state (w_dir w) = Some s → counter w = ls_sequence s.
Proof. intros Hs. unfold counter. by rewrite Hs. Qed.

(** The answer to the last request of a world, read as an issued certificate. *)
Definition issued (w : World) (name csr : string) (issuance : CertIssuanceResponse) : Prop :=
  ∃ r answer, last (w_signed w) = Some r ∧ rq_action r = ActCert csr ∧ rq_name r = name ∧
    link_service (w_signed w) = Ok answer ∧ interpret_issuance name answer = Ok issuance.

Lemma send_request_Ok {T} base a name subject (read : HttpResponse → result LinkError T) sequence w x w' :
  send_request base a name subject read sequence w = (Ok x, w') →
  ∃ r answer, last (w_signed w') = Some r ∧ rq_action r = a ∧ rq_name r = name ∧ link_service (w_signed w') = Ok answer ∧ read answer = Ok x.
Proof.
  unfold send_request. destruct (node_sign _) as [signature|e]; [|by intros]. intros Heq. injection Heq as Hr <-. simpl.
  ok_inv. eexists _, _. rewrite last_snoc. eauto.
Qed.

Lemma send_with_sequence_Ok {T} a name subject (read : HttpResponse → result LinkError T) s w x s' w' :
  send_with_sequence a name subject read s w = (Ok x, (s', w')) →
  ∃ r answer, last (w_signed w') = Some r ∧ rq_action r = a ∧ rq_name r = name ∧ link_service (w_signed w') = Ok answer ∧ read answer = Ok x.
Proof.
  unfold send_with_sequence. destruct (send_request _ _ _ _ _ _ _) as [[y|[]] w1] eqn:Hsend; intros Heq; simplify_eq/=.
  - by apply send_request_Ok in Hsend.
  - destruct (send_request _ _ _ _ _ (saturating_add _ _) _) as [r w2] eqn:Hsend2. simplify_eq/=. by apply send_request_Ok in Hsend2.
Qed.

Lemma claim_addresses_spec name subject ips s w :
  (ls_sequence s ≤ u64_max)%N → counter w = ls_sequence s →
  let '(r, w') := claim_addresses name subject ips s w in
  advances w w' ∧ ld_tls (w_dir w') = ld_tls (w_dir w) ∧ (∀ s', r = Ok s' → ld_state (w_dir w') = Some s' ∧ ls_name s' = ls_name s).
Proof.
  intros Hs Hw. unfold claim_addresses.
  pose proof (send_with_sequence_advances (ActClaim ips) name subject (interpret_response name) s w Hs Hw) as Hsend.
  destruct (send_with_sequence _ _ _ _ _ _) as [[x|e] [s' w']]; destruct Hsend as (Hst & Htls & _ & (n & ->) & Ha).
  - split_and!; [|done|by intros ? [= <-]]. etrans; [done|]. by apply advances_same; [rewrite (counter_state _ _ Hst)|].
  - by split_and!.
Qed.

Lemma request_cert_spec name subject s w :
  (ls_sequence s ≤ u64_max)%N → counter w = ls_sequence s →
  let '(r, w') := request_cert name subject s w in
  advances w w' ∧
  match r with
  | Ok (issuance, s') =>
      ∃ key csr, generate_csr name = Ok (key, csr) ∧ issued w' name csr issuance ∧
        ld_tls (w_dir w') = Some (key, ci_chain_pem issuance) ∧ ld_state (w_dir w') = Some s' ∧ ls_name s' = ls_name s ∧ ls_cert_not_after s' = Some (ci_not_after issuance)
  | Err _ => ld_tls (w_dir w') = ld_tls (w_dir w)
  end.
Proof.
  intros Hs Hw. unfold request_cert. destruct (generate_csr name) as [[key csr]|e] eqn:Hcsr; [|done].
  pose proof (send_with_sequence_advances (ActCert csr) name subject (interpret_issuance name) s w Hs Hw) as Hsend.
  destruct (send_with_sequence _ _ _ _ _ _) as [[x|e] [s' w']] eqn:Heq; destruct Hsend as (Hst & Htls & _ & (n & ->) & Ha).
  - split. { etrans; [done|]. by apply advances_same; [rewrite (counter_state _ _ Hst)|]. }
    exists key, csr. split_and!; [done| |done..]. by apply send_with_sequence_Ok in Heq.
  - done.
Qed.

(** What a command that gets a certificate leaves on disk. *)
Definition certified (w : World) (out : result CommandError LinkStatusReport * World) : Prop :=
  match out with
  | (Ok report, w') =>
      ∃ name key csr issuance, generate_csr name = Ok (key, csr) ∧ issued w' name csr issuance ∧
        ld_tls (w_dir w') = Some (key, ci_chain_pem issuance) ∧
        lr_name report = Some name ∧ lr_cert_not_after report = Some (ci_not_after issuance)
  | (Err _, w') => ld_tls (w_dir w') = ld_tls (w_dir w)
  end.

Lemma certify_claimed_spec did claimed w w1 :
  (counter w ≤ u64_max)%N → advances w w1 → ld_tls (w_dir w1) = ld_tls (w_dir w) →
  (∀ s, claimed = Ok s → ld_state (w_dir w1) = Some s) →
  advances w (certify_claimed did claimed w1).2 ∧ certified w (certify_claimed did claimed w1).
Proof.
  intros Hmax Ha Htls Hclaimed. destruct claimed as [s|e]; [|done]. specialize (Hclaimed s eq_refl).
  pose proof (request_cert_spec (ls_name s) did s w1) as Hcert. unfold certify_claimed.
  rewrite (counter_state w1 s Hclaimed) in Hcert. pose proof (counter_state w1 s Hclaimed) as Hc.
  destruct (request_cert _ _ _ _) as [[[issuance s']|e] w'].
  - destruct Hcert as (Ha' & key & csr & Hcsr & Hiss & Htls' & _ & Hname & _); [destruct (Ha Hmax); lia|done|].
    split; [by etrans|]. exists (ls_name s), key, csr, issuance. split_and!; try done. simpl. by rewrite Hname.
  - destruct Hcert as [Ha' Htls']; [destruct (Ha Hmax); lia|done|]. split; [by etrans|]. simpl. congruence.
Qed.

Lemma link_enable_spec name service_url bind w :
  (counter w ≤ u64_max)%N → advances w (link_enable name service_url bind w).2 ∧ certified w (link_enable name service_url bind w).
Proof.
  intros Hmax. unfold link_enable. destruct (enable_inputs name) as [[[label did] ips]|e]; [|done].
  assert (Hc : counter w = ls_sequence (enable_state label service_url bind w)) by (unfold counter, enable_state; by destruct (ld_state _)).
  pose proof (claim_addresses_spec label did ips (enable_state label service_url bind w) w ltac:(lia) Hc) as Hclaim.
  destruct (claim_addresses _ _ _ _ _) as [claimed w1]. destruct Hclaim as (Ha & Htls & Hst).
  apply certify_claimed_spec; [done..|]. intros s Hs. by apply Hst in Hs as [? _].
Qed.

Lemma link_renew_spec w : (counter w ≤ u64_max)%N → advances w (link_renew w).2 ∧ certified w (link_renew w).
Proof.
  intros Hmax. unfold link_renew. destruct (renew_inputs w) as [[[s did] ips]|e] eqn:Hin; [|done].
  assert (Hs : ld_state (w_dir w) = Some s).
  { unfold renew_inputs in Hin. ok_inv. by destruct (ld_state _); simplify_eq/=. }
  case_decide; [by apply certify_claimed_spec; [..|intros ? [= <-]]|]. pose proof (counter_state w s Hs) as Hc.
  pose proof (claim_addresses_spec (ls_name s) did ips s w ltac:(lia) Hc) as Hclaim.
  destruct (claim_addresses _ _ _ _ _) as [claimed w1]. destruct Hclaim as (Ha & Htls & Hst).
  apply certify_claimed_spec; [done..|]. intros s' Hs'. by apply Hst in Hs' as [? _].
Qed.
End CommandLemmas.

(** The certificate a node serves is for the key beside it.  When [link enable] or
    [link renew] succeeds, the files hold a key the node generated and the chain the
    service issued, in answer to the node's last request, for the signing request of
    this very key, under the name reported; when it fails, at any point, the key and
    the certificate of before are still there. *)
Theorem certificate_for_own_key `{LinkEnv} (w : World) (Hcounter : (counter w ≤ u64_max)%N) :
  certified w (link_renew w) ∧ ∀ name service_url bind, certified w (link_enable name service_url bind w).
Proof. split; [by apply link_renew_spec|]. intros. by apply link_enable_spec. Qed.

(** ** A counter that fell behind *)

Section Stale.
Context `{LinkEnv}.
Context {T : Type} (a : LinkAction) (name subject : string) (read : HttpResponse → result LinkError T) (x : T).

(** A service that has the record [stored] for the name, and compares numbers:
    [existing.sequence >= request.sequence => 409]. *)
Definition compares (stored : N) : Prop := ∀ log r,
  last log = Some r →
  if (rq_sequence r <=? stored)%N
  then ∃ answer body, link_service log = Ok answer ∧ read answer = Err (StaleSequence name body)
  else ∃ answer, link_service log = Ok answer ∧ read answer = Ok x.

Lemma send_request_compares stored base sequence w :
  (∀ payload, ∃ signature, node_sign payload = Ok signature) → compares stored →
  if (sequence <=? stored)%N
  then ∃ body w', send_request base a name subject read sequence w = (Err (StaleSequence name body), w') ∧ length (w_signed w') = S (length (w_signed w))
  else ∃ w', send_request base a name subject read sequence w = (Ok x, w') ∧ length (w_signed w') = S (length (w_signed w)).
Proof.
  intros Hsign Hcmp. unfold send_request. destruct (Hsign (canonical_payload a name subject sequence)) as [signature ->].
  set (r := mkLinkRequest _ _ _ _ _ _). specialize (Hcmp (w_signed w ++ [r]) r (last_snoc _ _)). simpl in Hcmp.
  destruct (sequence <=? stored)%N.
  - destruct Hcmp as (answer & body & -> & Hread). exists body. eexists. simpl. rewrite Hread. split; [done|]. simpl. rewrite length_app. simpl. lia.
  - destruct Hcmp as (answer & -> & Hread). eexists. simpl. rewrite Hread. split; [done|]. simpl. rewrite length_app. simpl. lia.
Qed.

(** A counter that fell behind the service's record catches up.  Against a service
    that refuses the numbers up to its record, a request succeeds at once when the
    counter is not behind, succeeds at the second attempt when it is at most a hundred
    behind, and is refused after two when it is more; each failed command brings the
    counter a hundred and one closer. *)
Theorem stale_counter_recovers (stored : N) (s : LinkState) (w : World)
    (Hsign : ∀ payload, ∃ signature, node_sign payload = Ok signature)
    (Hservice : compares stored)
    (Hroom : (ls_sequence s + 101 ≤ u64_max)%N) :
  let '(r, (s', w')) := send_with_sequence a name subject read s w in
  let sent := length (w_signed w') - length (w_signed w) in
  if (stored <=? ls_sequence s)%N then r = Ok x ∧ ls_sequence s' = (ls_sequence s + 1)%N ∧ sent = 1
  else if (stored <=? ls_sequence s + 100)%N then r = Ok x ∧ ls_sequence s' = (ls_sequence s + 101)%N ∧ sent = 2
  else (∃ body, r = Err (StaleSequence name body)) ∧ ls_sequence s' = (ls_sequence s + 101)%N ∧ sent = 2.
Proof.
  unfold send_with_sequence. set (s1 := set_sequence (next_sequence s) s).
  assert (Hn : next_sequence s = (ls_sequence s + 1)%N) by (unfold next_sequence, saturating_add; lia).
  assert (Hn' : saturating_add (ls_sequence s1) SEQUENCE_RESYNC_JUMP = (ls_sequence s + 101)%N).
  { subst s1. simpl. rewrite Hn. unfold saturating_add, SEQUENCE_RESYNC_JUMP. lia. }
  pose proof (send_request_compares stored (ls_service_url s1) (next_sequence s) (write_state s1 w) Hsign Hservice) as H1.
  rewrite Hn' in *. subst s1. rewrite Hn in *. 
  destruct (N.leb_spec stored (ls_sequence s)).
  - rewrite (proj2 (N.leb_gt (ls_sequence s + 1) stored)) in H1 by lia. destruct H1 as (w1 & -> & Hlen). simpl in *. split_and!; [done|done|lia].
  - rewrite (proj2 (N.leb_le (ls_sequence s + 1) stored)) in H1 by lia. destruct H1 as (body & w1 & -> & Hlen).
    set (s2 := set_sequence (ls_sequence s + 101) _). pose proof (send_request_compares stored (ls_service_url s2) (ls_sequence s + 101) (write_state s2 w1) Hsign Hservice) as H2.
    destruct (N.leb_spec stored (ls_sequence s + 100)).
    + rewrite (proj2 (N.leb_gt (ls_sequence s + 101) stored)) in H2 by lia. destruct H2 as (w2 & -> & Hlen2). simpl in *. split_and!; [done|done|lia].
    + rewrite (proj2 (N.leb_le (ls_sequence s + 101) stored)) in H2 by lia. destruct H2 as (body2 & w2 & -> & Hlen2). simpl in *. split_and!; [by eexists|done|lia].
Qed.
End Stale.

(** ** A node and a service *)

Module LinkDemo.

(** A service whose record of the name is at fifty, and that issues certificates. *)
Definition demo_service (log : list LinkRequest) : result string HttpResponse :=
  match last log with
  | Some r => if (rq_sequence r <=? 50)%N then Ok (mkHttpResponse 409 None "stale record sequence") else Ok (mkHttpResponse 200 None "issued")
  | None => Err "no request"
  end.

Definition demo_env : LinkEnv :=
  {| link_service := demo_service;
     percent_encode s := s;
     error_body b := Some b;
     issuance_body _ := Ok (mkCertIssuance "chain" "2027-01-01T00:00:00Z");
     node_identity := Ok "did:key:node";
     node_sign p := Ok "signature";
     host_interfaces := Ok [mkInterface "lo" (V4 127 0 0 1) true; mkInterface "docker0" (V4 172 17 0 1) false; mkInterface "en0" (V4 192 168 1 20) false];
     ip_text ip := match ip with V4 a b c d => fmt_u64 a +:+ "." +:+ fmt_u64 b +:+ "." +:+ fmt_u64 c +:+ "." +:+ fmt_u64 d | V6 _ => "" end;
     generate_csr _ := Ok ("key", "csr") |}.

#[local] Existing Instance demo_env.

Definition empty_world : World := mkWorld (mkLinkDir None None None) [].

(** The first claim is stale, the second one is a hundred further. *)
Example demo_enable :
  let '(r, w) := link_enable "Office" None None empty_world in
  (λ report, lr_local_url report) <$> r = Ok (Some "https://office.local.tinycloud.link:8443") ∧
  map rq_sequence (w_signed w) = [1; 101; 102]%N ∧ ld_tls (w_dir w) = Some ("key", "chain").
Proof. vm_compute. split_and!; reflexivity. Qed.

(** The address of the bridge is left out. *)
Example demo_addresses : discover_lan_ips = Ok [V4 192 168 1 20].
Proof. vm_compute. reflexivity. Qed.

Example demo_payload : canonical_payload (ActClaim ["192.168.1.20"]) "office" "did:key:z6MkiFake" 2 =
  String.concat (String (char 34) "") ["{"; "version"; ":1,"; "action"; ":"; "claim"; ","; "name"; ":"; "office"; ","; "subject"; ":"; "did:key:z6MkiFake"; ",";
    "lanIps"; ":["; "192.168.1.20"; "],"; "sequence"; ":2}"].
Proof. vm_compute. reflexivity. Qed.

(** The service compares numbers, so a counter that is behind catches up. *)
Lemma demo_recovers : let '(r, (s', w')) := send_with_sequence ActDelete "office" "did:key:node" (interpret_delete "office") (new_link_state "office" "" None) empty_world in
  r = Ok tt ∧ ls_sequence s' = 101%N ∧ length (w_signed w') - 0 = 2.
Proof.
  apply (stale_counter_recovers ActDelete "office" "did:key:node" (interpret_delete "office") tt 50).
  - intros payload. by exists "signature".
  - intros log r Hlast. unfold link_service, demo_env, demo_service. rewrite Hlast. destruct (rq_sequence r <=? 50)%N; [|by eexists].
    eexists _, _. split; [reflexivity|]. reflexivity.
  - vm_compute. discriminate.
Qed.

End LinkDemo.
