(* ===== verification/TunnelFrames.v ===== *)
(** * Requests through the tunnel: tinycloud-node-server/src/tunnel/{protocol,connection}.rs

    The relay sends the head of an HTTP request and then its body in chunks, many
    requests at a time, over one socket.  A connection keeps the requests whose body is
    not complete; a complete one is forwarded to the node's own HTTP interface, and the
    answer goes back in frames.  Requests that are complete are served by tasks of their
    own, which only write to the socket: each is a function to the frames it sends. *)
From S2P Require Import Prelude Str Chars Json Tables Jcs.

(** ** protocol.rs *)

Definition MAX_FRAME_PAYLOAD_BYTES : N := 1048576.
Definition BODY_CHUNK_BYTES : N := 262144.
Definition DEFAULT_MAX_BODY_BYTES : N := 26214400.

Definition CLOSE_STALE_SEQUENCE : N := 4409.
Definition CLOSE_SUPERSEDED : N := 4410.

Definition Headers : Type := list (string * string).

Inductive TunnelFrame :=
| FAck
| FError (id : option string) (message : string)
| FRequest (id method path : string) (headers : Headers)
| FRequestBody (id chunk : string) (last_chunk : bool)
| FResponse (id : string) (status : N) (headers : Headers)
| FResponseBody (id chunk : string) (last_chunk : bool).

(** [serde] with [tag = "type"]; the fields of each variant in their order. *)
Definition frame_fields (f : TunnelFrame) : list (string * string) :=
  let flag (b : bool) := if b then "true" else "false" in
  let pairs (h : Headers) := "[" +:+ String.concat "," (map (λ p, "[" +:+ write_string p.1 +:+ "," +:+ write_string p.2 +:+ "]") h) +:+ "]" in
  let tag (t : string) := ("type", write_string t) in
  match f with
  | FAck => [tag "ack"]
  | FError id message => tag "error" :: (match id with Some id => [("id", write_string id)] | None => [] end) ++ [("message", write_string message)]
  | FRequest id method path headers =>
      [tag "request"; ("id", write_string id); ("method", write_string method); ("path", write_string path); ("headers", pairs headers)]
  | FRequestBody id chunk last_chunk => [tag "requestBody"; ("id", write_string id); ("chunk", write_string chunk); ("done", flag last_chunk)]
  | FResponse id status headers => [tag "response"; ("id", write_string id); ("status", fmt_u64 status); ("headers", pairs headers)]
  | FResponseBody id chunk last_chunk => [tag "responseBody"; ("id", write_string id); ("chunk", write_string chunk); ("done", flag last_chunk)]
  end.

Definition frame_encode (f : TunnelFrame) : string :=
  "{" +:+ String.concat "," (map (λ p, write_string p.1 +:+ ":" +:+ p.2) (frame_fields f)) +:+ "}".

Definition frame_id (f : TunnelFrame) : option string :=
  match f with
  | FAck => None
  | FError id _ => id
  | FRequest id _ _ _ | FRequestBody id _ _ | FResponse id _ _ | FResponseBody id _ _ => Some id
  end.

(** ** connection.rs *)

Record PendingRequest := mkPending { pr_method : string; pr_path : string; pr_headers : Headers; pr_body : string }.

(** What leaves the node for its own HTTP interface, and what comes back.  A header's
    value is a text here: [String::from_utf8_lossy] of the bytes received. *)
Record Forwarded := mkForwarded { fw_method : string; fw_url : string; fw_headers : Headers; fw_body : string }.
Record UpstreamResponse := mkUpstreamResponse { ur_content_length : option N; ur_status : N; ur_headers : Headers; ur_body : result string string }.

(** [base64::STANDARD], [serde_json] on a frame, [Debug] of a string, [http]'s methods and
    headers, and the node's HTTP interface as its client sees it. *)
Class TunnelEnv := {
  b64_encode : string → string;
  b64_decode : string → result string string;
  frame_parse : string → result string TunnelFrame;
  debug_str : string → string;
  method_from_bytes : string → bool;
  header_valid : string * string → bool;
  upstream : Forwarded → result string UpstreamResponse;
}.

Definition DEFAULT_MAX_PENDING_REQUESTS : N := 64.

Definition effective_max_pending (env_value : option string) : N :=
  match env_value ≫= parse_u64 with
  | Some n => if (0 <? n)%N then n else DEFAULT_MAX_PENDING_REQUESTS
  | None => DEFAULT_MAX_PENDING_REQUESTS
  end.

(** [char::is_control]: the code points below 32 and from 127 to 159. *)
Definition is_control (c : string) : bool := let n := code_point c in (n <? 32)%N || ((127 <=? n)%N && (n <=? 159)%N).

Definition STRIPPED_HEADERS : list string := ["connection"; "keep-alive"; "transfer-encoding"; "upgrade"; "te"; "trailer"; "content-length"].

Definition should_strip_forwarded_header (name : string) : bool :=
  let lower := to_ascii_lowercase name in bool_decide (lower ∈ STRIPPED_HEADERS) || starts_with "proxy-" lower.

Notation Pending := (gmap string PendingRequest).

Section Connection.
Context `{TunnelEnv}.

Definition validate_request_path (path : string) : result string unit :=
  _ ← ensure (starts_with "/" path) ("rejected request: path must start with '/': " +:+ debug_str path);
  _ ← ensure (negb (contains_str "://" path)) ("rejected request: path must not embed a scheme: " +:+ debug_str path);
  ensure (negb (existsb (λ c, is_whitespace c || is_control c) (chars path)))
    ("rejected request: path contains whitespace/control characters: " +:+ debug_str path).

(** The tasks a frame starts. *)
Inductive Spawned :=
| SendError (id message : string)
| ServeRequest (id : string) (req : PendingRequest).

Definition blen (s : string) : N := N.of_nat (String.length s).

(** One chunk of the body of a request that is pending: the request with the chunk at
    its end, or why the request is given up. *)
Definition append_chunk (req : PendingRequest) (chunk : string) : result string PendingRequest :=
  if is_empty chunk then Ok req else
  bytes ← map_err (λ e, "invalid base64 body chunk: " +:+ e) (b64_decode chunk);
  _ ← ensure (blen (pr_body req) + blen bytes <=? DEFAULT_MAX_BODY_BYTES)%N "request body exceeds max size";
  Ok (mkPending (pr_method req) (pr_path req) (pr_headers req) (pr_body req +:+ bytes)).

Definition handle_frame (max_pending : N) (text : string) (pending : Pending) : Pending * option Spawned :=
  match frame_parse text with
  | Err _ => (pending, None)
  | Ok (FRequest id method path headers) =>
      match validate_request_path path with
      | Err reason => (pending, Some (SendError id reason))
      | Ok _ =>
          if (max_pending <=? N.of_nat (size pending))%N then (pending, Some (SendError id "too many in-flight requests"))
          else (<[id := mkPending method path headers ""]> pending, None)
      end
  | Ok (FRequestBody id chunk last_chunk) =>
      match pending !! id with
      | None => (pending, None)
      | Some req =>
          match append_chunk req chunk with
          | Err message => (delete id pending, Some (SendError id message))
          | Ok req => if last_chunk then (delete id pending, Some (ServeRequest id req)) else (<[id := req]> pending, None)
          end
      end
  | Ok (FAck | FResponse _ _ _ | FResponseBody _ _ _) => (pending, None)
  | Ok (FError (Some id) _) => (delete id pending, None)
  | Ok (FError None _) => (pending, None)
  end.

(** [serve_request]: the request forwarded, ... *)
Definition forwarded (upstream_addr : string) (req : PendingRequest) : result string Forwarded :=
  _ ← ensure (method_from_bytes (pr_method req)) ("invalid HTTP method: " +:+ pr_method req);
  Ok (mkForwarded (pr_method req) ("http://" +:+ upstream_addr +:+ pr_path req)
        (List.filter (λ h, negb (should_strip_forwarded_header h.1) && header_valid h) (pr_headers req)) (pr_body req)).

(** ... the answer that is sent back, ... *)
Definition checked_answer (r : UpstreamResponse) : result string (N * Headers * string) :=
  _ ← ensure (match ur_content_length r with Some len => (len <=? DEFAULT_MAX_BODY_BYTES)%N | None => true end) "upstream response body exceeds max size";
  body ← map_err (λ e, "failed to read upstream response body: " +:+ e) (ur_body r);
  _ ← ensure (blen body <=? DEFAULT_MAX_BODY_BYTES)%N "upstream response body exceeds max size";
  Ok (ur_status r, List.filter (λ h, negb (should_strip_forwarded_header h.1)) (ur_headers r), body).

(** ... its body in chunks, one turn of the loop for each, ... *)
Fixpoint body_frames (fuel : nat) (id body : string) (offset : N) : list TunnelFrame :=
  match fuel with
  | O => []
  | S fuel =>
      if (offset <? blen body)%N then
        let stop := N.min (offset + BODY_CHUNK_BYTES) (blen body) in
        FResponseBody id (b64_encode (String.substring (N.to_nat offset) (N.to_nat (stop - offset)) body)) (stop =? blen body)%N
          :: body_frames fuel id body stop
      else []
  end.

Definition response_frames (id : string) (status : N) (headers : Headers) (body : string) : list TunnelFrame :=
  FResponse id status headers ::
  (if is_empty body then [FResponseBody id "" true] else body_frames (String.length body) id body 0).

(** ... all of it. *)
Definition serve_request (upstream_addr id : string) (req : PendingRequest) : list TunnelFrame :=
  match (f ← forwarded upstream_addr req;
         r ← map_err (λ e, "upstream request failed: " +:+ e) (upstream f);
         checked_answer r) with
  | Err message => [FError (Some id) message]
  | Ok (status, headers, body) => response_frames id status headers body
  end.

(** The frames of a connection, one after the other, with the tasks they start. *)
Fixpoint handle_frames (max_pending : N) (texts : list string) (pending : Pending) : Pending * list Spawned :=
  match texts with
  | [] => (pending, [])
  | text :: texts =>
      let '(pending, s) := handle_frame max_pending text pending in
      let '(pending, l) := handle_frames max_pending texts pending in
      (pending, option_list s ++ l)
  end.

(** [chunk_body], the relay's way to cut a body: [slice::chunks]. *)
Fixpoint chunks (fuel : nat) (body : string) : list string :=
  match fuel with
  | O => []
  | S fuel =>
      if is_empty body then []
      else String.substring 0 (N.to_nat (N.min BODY_CHUNK_BYTES (blen body))) body ::
           chunks fuel (String.substring (N.to_nat (N.min BODY_CHUNK_BYTES (blen body)))
                         (String.length body - N.to_nat (N.min BODY_CHUNK_BYTES (blen body))) body)
  end.

Definition chunk_body (body : string) : list string :=
  if is_empty body then [""] else map b64_encode (chunks (String.length body) body).

End Connection.

(** ** What a connection keeps and serves *)

Section Reassembly.
Context `{TunnelEnv}.

(** The frames that parse; the chunks of a request among them, with their marks. *)
Definition parsed (texts : list string) : list TunnelFrame :=
  omap (λ t, match frame_parse t with Ok f => Some f | Err _ => None end) texts.

Definition chunks_of (id : string) (fs : list TunnelFrame) : list (string * bool) :=
  omap (λ f, match f with FRequestBody id' c d => if decide (id' = id) then Some (c, d) else None | _ => None end) fs.

Definition decoded (c : string * bool) (bytes : string) : Prop :=
  if is_empty c.1 then bytes = "" else b64_decode c.1 = Ok bytes.

(** The request whose head came with these frames, and whose body is that of the chunks
    that came after it; when it is complete the last chunk, and no other, is marked. *)
Definition assembled (fs : list TunnelFrame) (id : string) (complete : bool) (req : PendingRequest) : Prop :=
  ∃ before after bodies n,
    fs = before ++ FRequest id (pr_method req) (pr_path req) (pr_headers req) :: after ∧
    validate_request_path (pr_path req) = Ok tt ∧
    Forall2 decoded (chunks_of id after) bodies ∧ pr_body req = String.concat "" bodies ∧
    (chunks_of id after).*2 = replicate n false ++ (if complete then [true] else []).

Lemma concat_snoc l s : String.concat "" (l ++ [s]) = String.concat "" l +:+ s.
Proof.
  induction l as [|x l IH]; [simpl; by rewrite ?append_nil_r|].
  destruct l as [|y l]; [done|]. change (String.concat "" ((x :: y :: l) ++ [s])) with (x +:+ "" +:+ String.concat "" ((y :: l) ++ [s])).
  rewrite IH. change (String.concat "" (x :: y :: l)) with (x +:+ "" +:+ String.concat "" (y :: l)). by rewrite !append_assoc.
Qed.

Lemma chunks_of_snoc id fs f : chunks_of id (fs ++ [f]) = chunks_of id fs ++ chunks_of id [f].
Proof. apply omap_app. Qed.

(** A frame that is not a chunk of the request leaves it as it is. *)
Lemma assembled_other fs id req f : chunks_of id [f] = [] → assembled fs id false req → assembled (fs ++ [f]) id false req.
Proof.
  intros Hf (before & after & bodies & n & -> & Hp & Hb & Hbody & Hn). exists before, (after ++ [f]), bodies, n.
  rewrite chunks_of_snoc, Hf, app_nil_r. split_and!; try done. by rewrite <- app_assoc.
Qed.

Lemma append_chunk_Ok req chunk req' :
  append_chunk req chunk = Ok req' →
  ∃ bytes, decoded (chunk, false) bytes ∧ req' = mkPending (pr_method req) (pr_path req) (pr_headers req) (pr_body req +:+ bytes) ∧
    (blen (pr_body req) ≤ DEFAULT_MAX_BODY_BYTES → blen (pr_body req') ≤ DEFAULT_MAX_BODY_BYTES)%N.
Proof.
  unfold append_chunk, decoded. simpl. destruct (is_empty chunk) eqn:Hc.
  - intros [= <-]. exists "". rewrite append_nil_r. by destruct req.
  - intros Ha. ok_inv. eexists. split; [done|]. split; [done|]. intros _. simpl. unfold blen in *. rewrite length_append. 
    match goal with Hle : (_ <=? _)%N = true |- _ => apply N.leb_le in Hle end. lia.
Qed.

Lemma assembled_chunk fs id req chunk d req' :
  assembled fs id false req → append_chunk req chunk = Ok req' → assembled (fs ++ [FRequestBody id chunk d]) id d req'.
Proof.
  intros (before & after & bodies & n & -> & Hp & Hb & Hbody & Hn) Ha. apply append_chunk_Ok in Ha as (bytes & Hdec & -> & _).
  exists before, (after ++ [FRequestBody id chunk d]), (bodies ++ [bytes]), (if d then n else S n).
  assert (Hone : chunks_of id [FRequestBody id chunk d] = [(chunk, d)]) by (unfold chunks_of; simpl; by rewrite decide_True).
  rewrite chunks_of_snoc, Hone. split_and!.
  - by rewrite <- app_assoc.
  - done.
  - apply Forall2_app; [done|]. by repeat constructor.
  - simpl. by rewrite concat_snoc, Hbody.
  - rewrite fmap_app, Hn. destruct d; simpl; rewrite app_nil_r; [done|]. by rewrite <- replicate_S_end.
Qed.

(** What holds of the pending requests after some frames, and of the tasks started. *)
Record connection_inv (max_pending : N) (texts : list string) (pending : Pending) (tasks : list Spawned) : Prop := {
  ci_size : (N.of_nat (size pending) ≤ max_pending)%N;
  ci_pending : ∀ id req, pending !! id = Some req → assembled (parsed texts) id false req ∧ (blen (pr_body req) ≤ DEFAULT_MAX_BODY_BYTES)%N;
  ci_served : ∀ id req, ServeRequest id req ∈ tasks →
    ∃ sofar, sofar `prefix_of` parsed texts ∧ assembled sofar id true req ∧ (blen (pr_body req) ≤ DEFAULT_MAX_BODY_BYTES)%N;
}.

Lemma handle_frames_snoc max_pending texts text pending :
  handle_frames max_pending (texts ++ [text]) pending =
    let '(p, l) := handle_frames max_pending texts pending in
    let '(p', s) := handle_frame max_pending text p in (p', l ++ option_list s).
Proof.
  revert pending. induction texts as [|t texts IH]; intros pending; simpl.
  - destruct (handle_frame _ _ _) as [p s]. by rewrite app_nil_r.
  - destruct (handle_frame _ t _) as [p s]. rewrite IH. destruct (handle_frames _ _ _) as [p' l].
    destruct (handle_frame _ _ _) as [p'' s']. by rewrite app_assoc.
Qed.

Lemma parsed_snoc texts text : parsed (texts ++ [text]) = parsed texts ++ match frame_parse text with Ok f => [f] | Err _ => [] end.
Proof. unfold parsed. rewrite omap_app. simpl. by destruct (frame_parse text). Qed.

(** The tasks so far stay explained when frames follow. *)
Lemma served_later max_pending texts text pending tasks :
  connection_inv max_pending texts pending tasks → ∀ id req, ServeRequest id req ∈ tasks →
  ∃ sofar, sofar `prefix_of` parsed (texts ++ [text]) ∧ assembled sofar id true req ∧ (blen (pr_body req) ≤ DEFAULT_MAX_BODY_BYTES)%N.
Proof.
  intros Hinv id req Hin. destruct (ci_served _ _ _ _ Hinv id req Hin) as (sofar & Hpre & Hrest). exists sofar. split; [|done].
  rewrite parsed_snoc. by apply prefix_app_r.
Qed.

(** A pending request of before that a frame does not touch. *)
Lemma pending_later max_pending texts text f pending tasks id req :
  connection_inv max_pending texts pending tasks → frame_parse text = Ok f → pending !! id = Some req → chunks_of id [f] = [] →
  assembled (parsed (texts ++ [text])) id false req ∧ (blen (pr_body req) ≤ DEFAULT_MAX_BODY_BYTES)%N.
Proof.
  intros Hinv Hf Hreq Hid. rewrite parsed_snoc, Hf. destruct (ci_pending _ _ _ _ Hinv id req Hreq) as [Ha Hb].
  split; [by apply assembled_other|done].
Qed.

(** A frame that takes requests away, or changes none, and serves none. *)
Lemma drop_inv max_pending texts text pending tasks pending' s :
  connection_inv max_pending texts pending tasks → pending' ⊆ pending → size pending' ≤ size pending →
  (∀ id req f, frame_parse text = Ok f → pending' !! id = Some req → chunks_of id [f] = []) →
  (∀ id req, s ≠ Some (ServeRequest id req)) →
  connection_inv max_pending (texts ++ [text]) pending' (tasks ++ option_list s).
Proof.
  intros Hinv Hsub Hsize Hf Hs. split.
  - pose proof (ci_size _ _ _ _ Hinv). lia.
  - intros id req Hreq. pose proof (lookup_weaken _ _ _ _ Hreq Hsub) as Hold. destruct (frame_parse text) as [f|e] eqn:Hp.
    + eapply pending_later; eauto.
    + rewrite parsed_snoc, Hp, app_nil_r. by apply (ci_pending _ _ _ _ Hinv).
  - intros id req Hin. apply elem_of_app in Hin as [Hin|Hin]; [by eapply served_later|].
    destruct s as [t|]; [|by apply not_elem_of_nil in Hin]. apply list_elem_of_singleton in Hin as <-. by destruct (Hs id req).
Qed.

Lemma chunks_of_body id id' c d : id ≠ id' → chunks_of id [FRequestBody id' c d] = [].
Proof. intros Hne. unfold chunks_of. simpl. by rewrite decide_False. Qed.

Lemma append_chunk_bound req chunk req' :
  append_chunk req chunk = Ok req' → (blen (pr_body req) ≤ DEFAULT_MAX_BODY_BYTES)%N → (blen (pr_body req') ≤ DEFAULT_MAX_BODY_BYTES)%N.
Proof. intros Ha. apply append_chunk_Ok in Ha as (bytes & _ & _ & Hb). done. Qed.

Lemma head_inv max_pending texts text pending tasks id method path headers :
  connection_inv max_pending texts pending tasks → frame_parse text = Ok (FRequest id method path headers) →
  validate_request_path path = Ok tt → (N.of_nat (size pending) < max_pending)%N →
  connection_inv max_pending (texts ++ [text]) (<[id := mkPending method path headers ""]> pending) (tasks ++ []).
Proof.
  intros Hinv Hf Hpath Hroom. split.
  - rewrite map_size_insert. destruct (pending !! id); simpl; lia.
  - intros id' req Hreq. destruct (decide (id = id')) as [->|Hne].
    + rewrite lookup_insert_eq in Hreq. simplify_eq/=. split; [|done]. rewrite parsed_snoc, Hf.
      exists (parsed texts), [], [], 0. by split_and!.
    + rewrite lookup_insert_ne in Hreq by done. by eapply pending_later.
  - rewrite app_nil_r. by eapply served_later.
Qed.

Lemma body_inv max_pending texts text pending tasks id chunk d req req' :
  connection_inv max_pending texts pending tasks → frame_parse text = Ok (FRequestBody id chunk d) →
  pending !! id = Some req → append_chunk req chunk = Ok req' →
  connection_inv max_pending (texts ++ [text]) (if d then delete id pending else <[id := req']> pending)
    (tasks ++ (if d then [ServeRequest id req'] else [])).
Proof.
  intros Hinv Hf Hreq Hchunk. destruct (ci_pending _ _ _ _ Hinv id req Hreq) as [Hass Hb].
  assert (Hnew : assembled (parsed (texts ++ [text])) id d req' ∧ (blen (pr_body req') ≤ DEFAULT_MAX_BODY_BYTES)%N).
  { rewrite parsed_snoc, Hf. split; [by eapply assembled_chunk|by eapply append_chunk_bound]. }
  split.
  - pose proof (ci_size _ _ _ _ Hinv). destruct d.
    + rewrite map_size_delete, Hreq. simpl. lia.
    + rewrite map_size_insert, Hreq. simpl. lia.
  - intros id' req1 Hreq1. destruct (decide (id = id')) as [<-|Hne]; destruct d.
    + by rewrite lookup_delete_eq in Hreq1.
    + rewrite lookup_insert_eq in Hreq1. by simplify_eq/=.
    + rewrite lookup_delete_ne in Hreq1 by done. eapply pending_later; try done. by apply chunks_of_body.
    + rewrite lookup_insert_ne in Hreq1 by done. eapply pending_later; try done. by apply chunks_of_body.
  - intros id' req1 Hin. apply elem_of_app in Hin as [Hin|Hin]; [by eapply served_later|]. destruct d; [|by apply not_elem_of_nil in Hin].
    apply list_elem_of_singleton in Hin. simplify_eq/=. by exists (parsed (texts ++ [text])).
Qed.

Lemma handle_frame_inv max_pending texts text pending tasks :
  connection_inv max_pending texts pending tasks →
  let '(pending', s) := handle_frame max_pending text pending in connection_inv max_pending (texts ++ [text]) pending' (tasks ++ option_list s).
Proof.
  intros Hinv. unfold handle_frame.
  assert (Hsame : ∀ s, (∀ id req f, frame_parse text = Ok f → pending !! id = Some req → chunks_of id [f] = []) →
            (∀ id req, s ≠ Some (ServeRequest id req)) → connection_inv max_pending (texts ++ [text]) pending (tasks ++ option_list s)).
  { intros s Hf Hs. by apply (drop_inv _ _ _ pending). }
  assert (Hdel : ∀ id s, (∀ id' f, frame_parse text = Ok f → id' ≠ id → chunks_of id' [f] = []) →
            (∀ id req, s ≠ Some (ServeRequest id req)) → connection_inv max_pending (texts ++ [text]) (delete id pending) (tasks ++ option_list s)).
  { intros id s Hf Hs. apply (drop_inv _ _ _ pending); [done|apply delete_subseteq| | |done].
    - rewrite map_size_delete. destruct (pending !! id); simpl; lia.
    - intros id' req f Hp Hreq. apply Hf; [done|]. intros ->. by rewrite lookup_delete_eq in Hreq. }
  destruct (frame_parse text) as [[|[id|] m|id method path headers|id chunk d|id st h|id c d]|e] eqn:Hf;
    try (apply Hsame; [by intros; simplify_eq/=|done]); try (apply Hdel; [by intros; simplify_eq/=|done]).
  - destruct (validate_request_path path) as [[]|e] eqn:Hpath; [|by apply Hsame; intros; simplify_eq/=].
    destruct (N.leb_spec max_pending (N.of_nat (size pending))); [by apply Hsame; intros; simplify_eq/=|]. by apply head_inv.
  - destruct (pending !! id) as [req|] eqn:Hreq.
    + destruct (append_chunk req chunk) as [req'|e] eqn:Ha.
      * pose proof (body_inv _ _ _ _ _ _ _ _ _ _ Hinv Hf Hreq Ha) as Hb. by destruct d.
      * apply Hdel; [|done]. intros id' f Hp Hne. simplify_eq/=. by apply chunks_of_body.
    + apply Hsame; [|done]. intros id' req f Hp Hr. simplify_eq/=. apply chunks_of_body. intros ->. congruence.
Qed.

Lemma handle_frames_inv max_pending texts :
  let '(pending, tasks) := handle_frames max_pending texts ∅ in connection_inv max_pending texts pending tasks.
Proof.
  induction texts as [|text texts IH] using rev_ind.
  - split; [rewrite map_size_empty; simpl; lia|..]; [intros id req Hreq; by rewrite lookup_empty in Hreq|intros id req Hin; by apply not_elem_of_nil in Hin].
  - rewrite handle_frames_snoc. destruct (handle_frames _ _ _) as [p l]. apply (handle_frame_inv _ _ text) in IH.
    by destruct (handle_frame _ _ _).
Qed.
End Reassembly.

(** What a tunnel connection holds is bounded, whatever the relay sends: after any
    messages there are at most as many unfinished requests as the limit, and none has
    more than 25 MiB of body. *)
Theorem tunnel_memory_bounded `{TunnelEnv} (max_pending : N) (texts : list string) :
  (N.of_nat (size (handle_frames max_pending texts ∅).1) ≤ max_pending)%N ∧
  ∀ id req, (handle_frames max_pending texts ∅).1 !! id = Some req → (blen (pr_body req) ≤ DEFAULT_MAX_BODY_BYTES)%N.
Proof.
  pose proof (handle_frames_inv max_pending texts) as Hinv. destruct (handle_frames _ _ _) as [pending tasks]. simpl.
  split; [by eapply ci_size|]. intros id req Hreq. by apply (ci_pending _ _ _ _ Hinv) in Hreq as [_ ?].
Qed.

(** The authority of an [http] URL: what is between the scheme and the first character
    that ends it. *)
Fixpoint until_delimiter (s : string) : string :=
  match s with
  | "" => ""
  | String c s => if bool_decide (c ∈ ["/"%char; "?"%char; "#"%char; "\"%char]) then "" else String c (until_delimiter s)
  end.

Definition url_authority (url : string) : option string := until_delimiter <$> strip_prefix "http://" url.

Lemma until_delimiter_app s r : until_delimiter s = s → until_delimiter (s +:+ String "/" r) = s.
Proof.
  induction s as [|c s IH]; [done|]. simpl. case_bool_decide; [done|]. intros Heq. injection Heq as Heq. by rewrite IH.
Qed.

Lemma forwarded_confined `{TunnelEnv} addr req f :
  until_delimiter addr = addr → validate_request_path (pr_path req) = Ok tt → forwarded addr req = Ok f →
  fw_url f = "http://" +:+ addr +:+ pr_path req ∧ url_authority (fw_url f) = Some addr ∧ fw_body f = pr_body req ∧ fw_method f = pr_method req ∧
  fw_headers f = List.filter (λ h, negb (should_strip_forwarded_header h.1) && header_valid h) (pr_headers req).
Proof.
  intros Haddr Hpath Hf. unfold forwarded in Hf. unfold validate_request_path in Hpath. ok_inv. simpl. split_and!; try done.
  unfold url_authority. rewrite strip_prefix_app. simpl. f_equal.
  match goal with Hs : starts_with "/" _ = true |- _ => apply starts_with_spec in Hs as [r ->] end. by apply until_delimiter_app.
Qed.

(** C30: a request the node forwards is the one the relay sent.  Whatever the messages of a
    connection, each request that is served is made of a head and of the chunks with its
    identifier that came after this head, up to the one marked as the last, decoded and in
    order, with at most 25 MiB.  It is forwarded unless its method is no HTTP method: to the
    node's own HTTP interface, whatever the path says, at the path of the head, with the
    method and the body, and with the headers of the head, in order, less those of the
    connection itself and those that are no valid headers. *)
Theorem tunnel_forwards_what_came `{TunnelEnv} (max_pending : N) (texts : list string) (upstream_addr id : string) (req : PendingRequest)
    (Haddr : until_delimiter upstream_addr = upstream_addr)
    (Hserved : ServeRequest id req ∈ (handle_frames max_pending texts ∅).2) :
  (∃ sofar, sofar `prefix_of` parsed texts ∧ assembled sofar id true req) ∧
  (blen (pr_body req) ≤ DEFAULT_MAX_BODY_BYTES)%N ∧
  is_ok (forwarded upstream_addr req) = method_from_bytes (pr_method req) ∧
  ∀ f, forwarded upstream_addr req = Ok f →
    fw_url f = "http://" +:+ upstream_addr +:+ pr_path req ∧ url_authority (fw_url f) = Some upstream_addr ∧
    fw_body f = pr_body req ∧ fw_method f = pr_method req ∧
    fw_headers f = List.filter (λ h, negb (should_strip_forwarded_header h.1) && header_valid h) (pr_headers req).
Proof.
  pose proof (handle_frames_inv max_pending texts) as Hinv. destruct (handle_frames _ _ _) as [pending tasks].
  destruct (ci_served _ _ _ _ Hinv id req Hserved) as (sofar & Hpre & Hass & Hb). split_and!; [by exists sofar|done|by unfold forwarded, ensure; destruct (method_from_bytes _)|].
  intros f. apply forwarded_confined; [done|]. by destruct Hass as (? & ? & ? & ? & _ & ? & _).
Qed.

(** ** Answers *)

Section Answers.
Context `{TunnelEnv}.

(** The frames of these chunks, the last one marked. *)
Fixpoint frames_of (id : string) (cs : list string) : list TunnelFrame :=
  match cs with
  | [] => []
  | c :: cs => FResponseBody id (b64_encode c) (bool_decide (cs = [])) :: frames_of id cs
  end.

Lemma substring_shift pre rest m : String.substring (String.length pre) m (pre +:+ rest) = String.substring 0 m rest.
Proof. induction pre as [|c pre IH]; [done|exact IH]. Qed.

Lemma blen_app s t : blen (s +:+ t) = (blen s + blen t)%N.
Proof. unfold blen. rewrite length_append. lia. Qed.

Lemma blen_nonempty s : is_empty s = false → (0 < blen s)%N.
Proof. destruct s; [done|]. unfold blen. simpl. lia. Qed.

(** The size of the next chunk. *)
Definition chunk_size (rest : string) : nat := N.to_nat (N.min BODY_CHUNK_BYTES (blen rest)).

Lemma chunk_size_le rest : chunk_size rest ≤ String.length rest.
Proof. unfold chunk_size, blen. lia. Qed.

Lemma chunk_size_pos rest : is_empty rest = false → 0 < chunk_size rest.
Proof. intros Hr. apply blen_nonempty in Hr. unfold chunk_size, BODY_CHUNK_BYTES. lia. Qed.

(** A body is its first chunk and the rest. *)
Lemma chunk_split rest :
  rest = String.substring 0 (chunk_size rest) rest +:+ String.substring (chunk_size rest) (String.length rest - chunk_size rest) rest ∧
  String.length (String.substring 0 (chunk_size rest) rest) = chunk_size rest ∧
  String.length (String.substring (chunk_size rest) (String.length rest - chunk_size rest) rest) = String.length rest - chunk_size rest.
Proof.
  pose proof (substring_cut rest _ (chunk_size_le rest)) as Hcut. pose proof (substring_take_length rest _ (chunk_size_le rest)) as Hlen.
  split_and!; [done|done|]. apply (f_equal String.length) in Hcut. rewrite length_append, Hlen in Hcut. lia.
Qed.

Lemma chunks_nil fuel rest : String.length rest ≤ fuel → chunks fuel rest = [] ↔ rest = "".
Proof. destruct fuel; simpl; [intros Hl; split; [intros _; apply length_zero; lia|done]|]. intros _. destruct rest; done. Qed.

Lemma chunks_concat fuel rest : String.length rest ≤ fuel → String.concat "" (chunks fuel rest) = rest.
Proof.
  revert rest. induction fuel as [|fuel IH]; intros rest Hl; simpl; [symmetry; apply length_zero; lia|].
  destruct (is_empty rest) eqn:Hr; [unfold is_empty in Hr; by apply bool_decide_eq_true in Hr|].
  fold (chunk_size rest). destruct (chunk_split rest) as (Hsplit & _ & Hlen). pose proof (chunk_size_pos rest Hr) as Hpos.
  set (tl := String.substring (chunk_size rest) _ _) in *. specialize (IH tl ltac:(lia)).
  transitivity (String.substring 0 (chunk_size rest) rest +:+ String.concat "" (chunks fuel tl)); [|by rewrite IH, <- Hsplit].
  destruct (chunks fuel tl); [by simpl; rewrite append_nil_r|done].
Qed.

Lemma chunks_small fuel rest : Forall (λ c, (blen c ≤ BODY_CHUNK_BYTES)%N ∧ is_empty c = false) (chunks fuel rest).
Proof.
  revert rest. induction fuel as [|fuel IH]; intros rest; simpl; [constructor|]. destruct (is_empty rest) eqn:Hr; constructor; [|apply IH].
  fold (chunk_size rest). destruct (chunk_split rest) as (_ & Hlen & _). pose proof (chunk_size_pos rest Hr).
  unfold blen. rewrite Hlen. split; [unfold chunk_size, blen; lia|]. destruct (String.substring _ _ _); [simpl in Hlen; lia|done].
Qed.

(** The loop over the offsets cuts the body as [slice::chunks] does. *)
Lemma body_frames_chunks fuel id pre rest :
  String.length rest ≤ fuel → body_frames fuel id (pre +:+ rest) (blen pre) = frames_of id (chunks fuel rest).
Proof.
  revert pre rest. induction fuel as [|fuel IH]; intros pre rest Hl; [done|].
  cbn [body_frames chunks]. rewrite blen_app. destruct (is_empty rest) eqn:Hr.
  { unfold is_empty in Hr. apply bool_decide_eq_true in Hr as ->. rewrite (proj2 (N.ltb_ge _ _)); [done|]. unfold blen. simpl. lia. }
  pose proof (blen_nonempty rest Hr) as Hne. rewrite (proj2 (N.ltb_lt _ _)) by lia. fold (chunk_size rest).
  destruct (chunk_split rest) as (Hsplit & Hlen1 & Hlen2). pose proof (chunk_size_pos rest Hr) as Hpos.
  set (hd := String.substring 0 (chunk_size rest) rest) in *. set (tl := String.substring (chunk_size rest) _ rest) in *.
  assert (Hhd : blen hd = N.of_nat (chunk_size rest)) by (unfold blen; by rewrite Hlen1).
  assert (Htl : blen rest = (blen hd + blen tl)%N) by (rewrite Hsplit at 1; apply blen_app).
  assert (Hstop : N.min (blen pre + BODY_CHUNK_BYTES) (blen pre + blen rest) = blen (pre +:+ hd)).
  { rewrite blen_app, Hhd. unfold chunk_size. lia. }
  rewrite Hstop. cbn [frames_of]. f_equal; [f_equal|].
  - f_equal. replace (N.to_nat (blen pre)) with (String.length pre) by (unfold blen; lia). rewrite substring_shift. subst hd. f_equal.
    rewrite blen_app, Hhd. lia.
  - rewrite blen_app. case_bool_decide as Hnil.
    + apply chunks_nil in Hnil as ->; [|lia]. apply N.eqb_eq. unfold blen in *. simpl in *. lia.
    + apply N.eqb_neq. intros Heq. apply Hnil, chunks_nil; [lia|]. apply length_zero. unfold blen in *. lia.
  - rewrite Hsplit at 1. rewrite <- append_assoc. apply IH. lia.
Qed.

Lemma frames_of_zip id cs : cs ≠ [] →
  frames_of id cs = zip_with (FResponseBody id) (map b64_encode cs) (replicate (length cs - 1) false ++ [true]).
Proof.
  induction cs as [|c cs IH]; [done|]. intros _. cbn [frames_of map length]. destruct cs as [|c' cs]; [done|].
  rewrite IH by done. simpl. by rewrite Nat.sub_0_r.
Qed.

Lemma decoded_chunks cs :
  (∀ b, b64_decode (b64_encode b) = Ok b) → (∀ b, is_empty b = false → is_empty (b64_encode b) = false) →
  Forall (λ c, (blen c ≤ BODY_CHUNK_BYTES)%N ∧ is_empty c = false) cs → Forall2 (λ c, decoded (c, false)) (map b64_encode cs) cs.
Proof. intros Hdec Hne Hcs. induction Hcs as [|c cs [_ Hc] Hcs IH]; simpl; constructor; [|done]. unfold decoded. simpl. by rewrite Hne, Hdec. Qed.
End Answers.

(** The answer arrives as the node's HTTP interface gave it.  The frames of a response
    are its head and the chunks [chunk_body] cuts its body in, the last of them marked and
    no other, each of at most 256 KiB; and the relay that decodes them one after the other
    has the body again, the empty one too. *)
Theorem response_reassembles `{TunnelEnv} (id : string) (status : N) (headers : Headers) (body : string)
    (Hdecode : ∀ b, b64_decode (b64_encode b) = Ok b)
    (Hnonempty : ∀ b, is_empty b = false → is_empty (b64_encode b) = false) :
  response_frames id status headers body =
    FResponse id status headers :: zip_with (FResponseBody id) (chunk_body body) (replicate (length (chunk_body body) - 1) false ++ [true]) ∧
  ∃ pieces, Forall2 (λ c, decoded (c, false)) (chunk_body body) pieces ∧ String.concat "" pieces = body ∧
    Forall (λ b, blen b ≤ BODY_CHUNK_BYTES)%N pieces.
Proof.
  unfold response_frames, chunk_body. destruct (is_empty body) eqn:Hb.
  - unfold is_empty in Hb. apply bool_decide_eq_true in Hb as ->. split; [done|]. exists [""]. split_and!; [by repeat constructor|done|].
    repeat constructor. unfold blen, BODY_CHUNK_BYTES. simpl. lia.
  - split.
    + f_equal. rewrite (body_frames_chunks _ id "" body), frames_of_zip, length_map; [done| |done].
      intros Hnil. apply chunks_nil in Hnil as ->; done.
    + exists (chunks (String.length body) body). pose proof (chunks_small (String.length body) body) as Hs.
      split_and!; [by apply decoded_chunks|by apply chunks_concat|eapply Forall_impl; [done|]; by intros ? [? _]].
Qed.

(** Every body frame fits in a message of the relay, whatever the identifier up to half
    a message: base64 writes four characters for three bytes, none of which JSON
    escapes. *)
Lemma body_frame_fits `{TunnelEnv} id c d :
  (∀ b, blen (b64_encode b) = 4 * ((blen b + 2) / 3))%N → escape_all (b64_encode c) = b64_encode c →
  (blen c ≤ BODY_CHUNK_BYTES)%N → (blen (escape_all id) ≤ 524288)%N →
  (blen (frame_encode (FResponseBody id (b64_encode c) d)) ≤ MAX_FRAME_PAYLOAD_BYTES)%N.
Proof.
  intros Hlen Hplain Hc Hid.
  assert (Htext : frame_encode (FResponseBody id (b64_encode c) d) =
    ("{" +:+ write_string "type" +:+ ":" +:+ write_string "responseBody" +:+ "," +:+ write_string "id" +:+ ":") +:+ write_string id +:+
    ("," +:+ write_string "chunk" +:+ ":") +:+ write_string (b64_encode c) +:+ ("," +:+ write_string "done" +:+ ":" +:+ (if d then "true" else "false") +:+ "}")).
  { unfold frame_encode. cbn [frame_fields map String.concat fst snd]. rewrite ?append_assoc. reflexivity. }
  assert (Hw : ∀ s, blen (write_string s) = (blen (escape_all s) + 2)%N).
  { intros s. unfold write_string. unfold blen. simpl. rewrite length_append. simpl. lia. }
  rewrite Htext, !blen_app, !Hw, Hplain, Hlen.
  assert (Hn : (4 * ((blen c + 2) / 3) ≤ 349528)%N).
  { unfold BODY_CHUNK_BYTES in Hc. pose proof (N.Div0.div_le_mono (blen c + 2) 262146 3 ltac:(lia)) as Hd. change (262146 / 3)%N with 87382%N in Hd. lia. }
  revert Hn Hid. generalize (4 * ((blen c + 2) / 3))%N (blen (escape_all id)). intros n m Hn Hm. unfold MAX_FRAME_PAYLOAD_BYTES.
  destruct d; repeat match goal with |- context [blen ?s] => let v := eval vm_compute in (blen s) in change (blen s) with v end; lia.
Qed.

(** ** A connection *)

Module TunnelFramesDemo.

(** A relay whose frames are one word, and base64 that changes nothing. *)
Definition demo_tunnel : TunnelEnv :=
  {| b64_encode s := s;
     b64_decode s := Ok s;
     frame_parse t :=
       if decide (t = "ack") then Ok FAck
       else if decide (t = "head") then Ok (FRequest "1" "POST" "/invoke" [("Content-Length", "4"); ("Accept", "*/*")])
       else if decide (t = "body") then Ok (FRequestBody "1" "ab" false)
       else if decide (t = "last") then Ok (FRequestBody "1" "cd" true)
       else Err "malformed";
     debug_str s := s;
     method_from_bytes _ := true;
     header_valid _ := true;
     upstream _ := Err "refused" |}.

#[local] Existing Instance demo_tunnel.

Definition demo_texts : list string := ["head"; "body"; "noise"; "last"].

Definition demo_request : PendingRequest := mkPending "POST" "/invoke" [("Content-Length", "4"); ("Accept", "*/*")] "abcd".

Example demo_served : (handle_frames 64 demo_texts ∅).2 = [ServeRequest "1" demo_request].
Proof. vm_compute. reflexivity. Qed.

Lemma tunnel_forwards_what_came_witness :
  forwarded "127.0.0.1:8000" demo_request = Ok (mkForwarded "POST" "http://127.0.0.1:8000/invoke" [("Accept", "*/*")] "abcd") ∧
  url_authority "http://127.0.0.1:8000/invoke" = Some "127.0.0.1:8000" ∧
  ∃ sofar, sofar `prefix_of` parsed demo_texts ∧ assembled sofar "1" true demo_request.
Proof.
  split; [vm_compute; reflexivity|]. split; [vm_compute; reflexivity|].
  refine (proj1 (tunnel_forwards_what_came 64 demo_texts "127.0.0.1:8000" "1" demo_request _ _)).
  - vm_compute. reflexivity.
  - rewrite demo_served. apply list_elem_of_singleton. reflexivity.
Defined.

Lemma response_reassembles_witness : ∃ pieces, Forall2 (λ c, decoded (c, false)) (chunk_body "abc") pieces ∧ String.concat "" pieces = "abc".
Proof.
  destruct (response_reassembles "1" 200 [] "abc") as [_ (pieces & H1 & H2 & _)].
  - intros b. reflexivity.
  - intros b Hb. exact Hb.
  - exists pieces. split; [exact H1|exact H2].
Defined.

(** A path that is not one of the node is refused with an error for its request. *)
Example demo_refused_path : validate_request_path "@evil.com/x" = Err "rejected request: path must start with '/': @evil.com/x".
Proof. vm_compute. reflexivity. Qed.

End TunnelFramesDemo.
