(* ===== verification/Tunnel.v ===== *)
(** * The tunnel's task: tinycloud-node-server/src/tunnel/{reconnect,commands,connection}.rs

    The task [serve] starts opens the tunnel, and opens it again when it drops.  It is a
    state machine: what the disk, the relay and the clock do are its events, and between
    two of them the commands of other processes may run, since the lock is held only
    while the counter moves. *)
From S2P Require Import Prelude Str Chars Json Tables Jcs Link TunnelFrames.

(** ** reconnect.rs *)

Definition u32_max : N := 4294967295.
Definition saturating_succ32 (n : N) : N := N.min (n + 1) u32_max.

(** Durations are in nanoseconds. *)
Definition BACKOFF_BASE : N := 500000000.
Definition BACKOFF_CAP : N := 60000000000.
Definition MAX_CONSECUTIVE_STALE_RESYNCS : N := 3.

Inductive AttemptOutcome := OutcomeAck | OutcomeClosed (code : N) | OutcomeTransportError.

Inductive ReconnectAction := ActServe | ActResyncAndRetry (jump : N) | ActStop | ActBackoff (delay : N).

Record BackoffState := mkBackoff { bs_attempt : N; bs_stale_streak : N }.

Definition new_backoff : BackoffState := mkBackoff 0 0.

(** The quotient to the nearest integer, ties to the even one. *)
Definition round_half_even (n d : N) : N :=
  let q := (n / d)%N in
  let r := (n mod d)%N in
  if (2 * r <? d)%N then q else if (d <? 2 * r)%N then (q + 1)%N else if N.even q then q else (q + 1)%N.

(** A number of more than 53 bits rounded to the nearest [f64]. *)
Definition round_f64 (n : N) : N := let k := (N.size n - 53)%N in (round_half_even n (2 ^ k) * 2 ^ k)%N.

(** [rand::random::<f64>()] is a multiple of [2^-53] below one, given here by its
    numerator.  [0.5 + jitter * 0.5] is rounded to a multiple of [2^-53]; the delay in
    halves of a second, a whole number, is exact; their product is rounded to an [f64],
    and [from_secs_f64] rounds it to a nanosecond. *)
Definition mul_jitter (halves jitter : N) : N :=
  let factor := round_half_even (2 ^ 53 + jitter) 2 in
  round_half_even (round_f64 (factor * halves) * 1000000000) (2 ^ 54).

Definition backoff_delay (s : BackoffState) (jitter : N) : N :=
  let unjittered := N.min (BACKOFF_BASE * 2 ^ N.min (bs_attempt s) 10) BACKOFF_CAP in
  mul_jitter (unjittered / BACKOFF_BASE) jitter.

Definition back_off (s : BackoffState) (streak jitter : N) : ReconnectAction * BackoffState :=
  (ActBackoff (backoff_delay s jitter), mkBackoff (saturating_succ32 (bs_attempt s)) streak).

Definition next_action (s : BackoffState) (outcome : AttemptOutcome) (jitter : N) : ReconnectAction * BackoffState :=
  match outcome with
  | OutcomeAck => (ActServe, new_backoff)
  | OutcomeClosed code =>
      if (code =? CLOSE_SUPERSEDED)%N then (ActStop, s)
      else if (code =? CLOSE_STALE_SEQUENCE)%N then
        let streak := saturating_succ32 (bs_stale_streak s) in
        if (MAX_CONSECUTIVE_STALE_RESYNCS <? streak)%N then back_off s streak jitter
        else (ActResyncAndRetry SEQUENCE_RESYNC_JUMP, mkBackoff (bs_attempt s) streak)
      else back_off s 0 jitter
  | OutcomeTransportError => back_off s 0 jitter
  end.

(** What follows a sequence of outcomes. *)
Fixpoint next_actions (s : BackoffState) (l : list (AttemptOutcome * N)) : list ReconnectAction :=
  match l with
  | [] => []
  | (o, jitter) :: l => let '(a, s) := next_action s o jitter in a :: next_actions s l
  end.

(** ** commands.rs *)

Definition REMOTE_DOMAIN_SUFFIX : string := "tinycloud.link".
Definition TUNNEL_DISABLED_ERROR : string := "tunnel: disabled".

Definition remote_url (name : string) : string := "https://" +:+ name +:+ "." +:+ REMOTE_DOMAIN_SUFFIX.

Record TunnelStatusReport := mkTunnelStatus {
  ts_enabled : bool;
  ts_connected : bool;
  ts_remote_url : option string;
  ts_service_url : option string;
  ts_last_error : option string;
}.

Definition tunnel_disabled_report : TunnelStatusReport := mkTunnelStatus false false None None None.

Definition tunnel_build_status (dir : LinkDir) : TunnelStatusReport :=
  match ld_state dir with
  | Some s =>
      if ls_tunnel_enabled s then
        let runtime := default (mkTunnelRuntimeState false None) (ld_tunnel dir) in
        mkTunnelStatus true (tr_connected runtime) (Some (remote_url (ls_name s))) (Some (effective_tunnel_service_url s)) (tr_last_error runtime)
      else tunnel_disabled_report
  | None => tunnel_disabled_report
  end.

Definition set_tunnel (enabled : bool) (url : option string) (s : LinkState) : LinkState :=
  mkLinkState (ls_version s) (ls_name s) (ls_service_url s) (ls_sequence s) (ls_last_lan_ips s) (ls_cert_not_after s) (ls_bind s) enabled url.

Definition record_runtime_state (st : option TunnelRuntimeState) (w : World) : World :=
  mkWorld (mkLinkDir (ld_state (w_dir w)) (ld_tls (w_dir w)) st) (w_signed w).

Definition tunnel_enable (service_url : option string) (w : World) : result string TunnelStatusReport * World :=
  match ld_state (w_dir w) with
  | None => (Err "link is not enabled — run `tinycloud node link enable <name>` first; the tunnel reuses that claimed name and its sequence counter", w)
  | Some s => let w := write_state (set_tunnel true service_url s) w in (Ok (tunnel_build_status (w_dir w)), w)
  end.

Definition tunnel_disable (w : World) : TunnelStatusReport * World :=
  match ld_state (w_dir w) with
  | None => (tunnel_disabled_report, w)
  | Some s => (tunnel_disabled_report, record_runtime_state None (write_state (set_tunnel false (ls_tunnel_service_url s) s) w))
  end.

Definition tunnel_status (w : World) : TunnelStatusReport := tunnel_build_status (w_dir w).

Definition load_enabled_state (w : World) : option LinkState :=
  s ← ld_state (w_dir w); if ls_tunnel_enabled s then Some s else None.

Definition bump_sequence_for_tunnel (extra_jump : N) (w : World) : result string (string * string * N) * World :=
  match ld_state (w_dir w) with
  | None => (Err "tunnel: link state.json is missing", w)
  | Some s =>
      if ls_tunnel_enabled s then
        let sequence := saturating_add (next_sequence s) extra_jump in
        let s := set_sequence sequence s in
        (Ok (ls_name s, effective_tunnel_service_url s, sequence), write_state s w)
      else (Err TUNNEL_DISABLED_ERROR, w)
  end.

(** ** connection.rs *)

Definition to_ws_url `{LinkEnv} (service_url name : string) : string :=
  let trimmed := trim_end "/" service_url in
  let ws_base :=
    match strip_prefix "https://" trimmed with
    | Some rest => "wss://" +:+ rest
    | None => match strip_prefix "http://" trimmed with Some rest => "ws://" +:+ rest | None => trimmed end
    end in
  ws_base +:+ "/v1/tunnel/" +:+ percent_encode name.

(** A close frame: its code and reason, if it has them. *)
Definition close_code_and_reason (frame : option (N * string)) : N * string := default (0%N, "") frame.

(** What comes in answer to the authentication, with the [Debug] text of a message that
    is neither text nor a close frame. *)
Inductive AckReply := ReplyTimeout | ReplyEnd | ReplyError (e : string) | ReplyText (t : string) | ReplyClose (frame : option (N * string)) | ReplyOther (debug : string).

Inductive AckOutcome := AckAck | AckClosed (code : N) (reason : string) | AckFailed (e : string).

(** What a live socket brings. *)
Inductive SocketEvent := SockIdle | SockEnd | SockError | SockClose (frame : option (N * string)) | SockText (t : string) | SockOther.

(** Where the task is: at the head of its loop; with a number taken and nothing signed yet;
    with a signed record, dialing; connected, before the record is sent; waiting for the
    answer; serving; waiting before the next attempt; or gone. *)
Inductive Phase :=
| AtTop
| Bumped (name service_url : string) (sequence : N)
| Dialing (url : string) (auth : LinkRequest)
| Connected (auth : LinkRequest)
| AwaitingAck
| Serving (pending : Pending)
| Sleeping (delay : N)
| Finished.

Record TunnelTask := mkTask { tk_backoff : BackoffState; tk_jump : N; tk_shutdown : bool; tk_phase : Phase }.

Definition new_task : TunnelTask := mkTask new_backoff 0 false AtTop.

Definition set_phase (p : Phase) (t : TunnelTask) : TunnelTask := mkTask (tk_backoff t) (tk_jump t) (tk_shutdown t) p.

Inductive TaskEvent :=
| EvLoop                                       (* the loop goes round *)
| EvSign                                       (* the identity is resolved, the record signed *)
| EvConnect (r : result string unit)           (* [connect_async] returns *)
| EvAuthSent (r : result string unit)          (* the record is written to the socket *)
| EvReply (m : AckReply)                       (* [wait_for_ack] *)
| EvSocket (m : SocketEvent)
| EvSlept                                      (* the delay is over *)
| EvShutdown                                   (* shutdown is requested *)
| EvNoticed.                                   (* and seen by the task that waits for it *)

(** The node's DID, or why it cannot be had; [Debug] of a frame. *)
Class TaskEnv := {
  serve_identity : result string string;
  debug_frame : TunnelFrame → string;
}.

Section Task.
Context `{LinkEnv, TunnelEnv, TaskEnv}.

Definition wait_for_ack (m : AckReply) : AckOutcome :=
  match m with
  | ReplyTimeout => AckFailed "timed out waiting for auth ack"
  | ReplyEnd => AckFailed "connection closed before auth ack"
  | ReplyError e => AckFailed e
  | ReplyText t =>
      match frame_parse t with
      | Ok FAck => AckAck
      | Ok other => AckFailed ("expected ack, got " +:+ debug_frame other)
      | Err e => AckFailed ("malformed ack frame: " +:+ e)
      end
  | ReplyClose frame => let '(code, reason) := close_code_and_reason frame in AckClosed code reason
  | ReplyOther d => AckFailed ("unexpected message: " +:+ d)
  end.

Definition record_state (connected : bool) (last_error : option string) (w : World) : World :=
  record_runtime_state (Some (mkTunnelRuntimeState connected last_error)) w.

(** The loop is left: the marker is reset. *)
Definition leave (t : TunnelTask) (w : World) : TunnelTask * World := (set_phase Finished t, record_state false None w).

(** An attempt is over. *)
Definition after_attempt (outcome : AttemptOutcome) (jitter : N) (t : TunnelTask) (w : World) : TunnelTask * World :=
  let '(action, backoff) := next_action (tk_backoff t) outcome jitter in
  let t := mkTask backoff (tk_jump t) (tk_shutdown t) (tk_phase t) in
  match action with
  | ActServe => (set_phase Finished t, w)
  | ActResyncAndRetry jump => (mkTask backoff jump (tk_shutdown t) AtTop, w)
  | ActStop => leave t w
  | ActBackoff delay => (set_phase (Sleeping delay) t, w)
  end.

(** The attempt could not be prepared. *)
Definition prepare_failed (e : string) (jitter : N) (t : TunnelTask) (w : World) : TunnelTask * World :=
  if decide (e = TUNNEL_DISABLED_ERROR) then (set_phase Finished t, record_runtime_state None w)
  else
    let w := record_state false (Some e) w in
    let t := mkTask (tk_backoff t) 0 (tk_shutdown t) (tk_phase t) in
    match next_action (tk_backoff t) OutcomeTransportError jitter with
    | (ActBackoff delay, backoff) => (mkTask backoff 0 (tk_shutdown t) (Sleeping delay), w)
    | (_, backoff) => (mkTask backoff 0 (tk_shutdown t) AtTop, w)
    end.

(** [build_auth_frame], after the node's identity. *)
Definition sign_auth (name service_url : string) (sequence : N) : result string LinkRequest :=
  did ← serve_identity;
  signature ← map_err (λ e, "failed to sign canonical payload: " +:+ e) (node_sign (canonical_payload ActTunnel name did sequence));
  Ok (mkLinkRequest (to_ws_url service_url name) ActTunnel name did sequence signature).

(** [connect_and_serve] until the tunnel is live. *)
Definition on_reply (outcome : AckOutcome) (jitter : N) (t : TunnelTask) (w : World) : TunnelTask * World :=
  match outcome with
  | AckAck => (mkTask new_backoff (tk_jump t) (tk_shutdown t) (Serving ∅), record_state true None w)
  | AckClosed code reason =>
      if (code =? CLOSE_SUPERSEDED)%N then
        (set_phase Finished t, record_state false (Some ("superseded by a newer connection (close code " +:+ fmt_u64 code +:+ "): " +:+ reason)) w)
      else after_attempt (OutcomeClosed code) jitter t (record_state false (Some ("tunnel auth rejected (close code " +:+ fmt_u64 code +:+ "): " +:+ reason)) w)
  | AckFailed e => after_attempt OutcomeTransportError jitter t (record_state false (Some e) w)
  end.

(** The live connection drops. *)
Definition dropped (outcome : AttemptOutcome) (jitter : N) (t : TunnelTask) (w : World) : TunnelTask * World :=
  after_attempt outcome jitter t (record_state false (Some "tunnel connection dropped") w).

(** One turn of [serve_requests]. *)
Definition on_socket (max_pending : N) (m : SocketEvent) (jitter : N) (pending : Pending) (t : TunnelTask) (w : World) : TunnelTask * World :=
  match m with
  | SockIdle | SockEnd | SockError => dropped OutcomeTransportError jitter t w
  | SockClose frame =>
      let '(code, reason) := close_code_and_reason frame in
      if (code =? CLOSE_SUPERSEDED)%N then
        (set_phase Finished t,
         record_state false (Some ("tunnel closed (close code " +:+ fmt_u64 code +:+ "): superseded by a newer connection: " +:+ reason)) w)
      else dropped (OutcomeClosed code) jitter t w
  | SockText text => (set_phase (Serving (handle_frame max_pending text pending).1) t, w)
  | SockOther => (t, w)
  end.

(** [run]: what an event does to the task, if it is one the task can meet. *)
Definition task_step (max_pending jitter : N) (e : TaskEvent) (t : TunnelTask) (w : World) : TunnelTask * World :=
  match e, tk_phase t with
  | EvShutdown, _ => (mkTask (tk_backoff t) (tk_jump t) true (tk_phase t), w)
  | EvLoop, AtTop =>
      if tk_shutdown t then leave t w
      else match bump_sequence_for_tunnel (tk_jump t) w with
           | (Ok (name, url, sequence), w) => (set_phase (Bumped name url sequence) t, w)
           | (Err e, w) => prepare_failed e jitter t w
           end
  | EvSign, Bumped name url sequence =>
      match sign_auth name url sequence with
      | Ok auth => (mkTask (tk_backoff t) 0 (tk_shutdown t) (Dialing (rq_url auth) auth), mkWorld (w_dir w) (w_signed w ++ [auth]))
      | Err e => prepare_failed e jitter t w
      end
  | EvConnect (Ok _), Dialing _ auth => (set_phase (Connected auth) t, w)
  | EvConnect (Err e), Dialing _ _ => after_attempt OutcomeTransportError jitter t (record_state false (Some ("connect failed: " +:+ e)) w)
  | EvAuthSent (Ok _), Connected _ => (set_phase AwaitingAck t, w)
  | EvAuthSent (Err e), Connected _ => after_attempt OutcomeTransportError jitter t (record_state false (Some ("failed to send auth frame: " +:+ e)) w)
  | EvReply m, AwaitingAck => on_reply (wait_for_ack m) jitter t w
  | EvSocket m, Serving pending => on_socket max_pending m jitter pending t w
  | EvSlept, Sleeping _ => (set_phase AtTop t, w)
  | EvNoticed, Serving _ => if tk_shutdown t then leave t w else (t, w)
  | EvNoticed, Sleeping _ => if tk_shutdown t then leave t w else (t, w)
  | _, _ => (t, w)
  end.

(** ** runtime.rs *)

(** The loopback address always parses. *)
Definition spawn_tunnel_task (w : World) : option TunnelTask := match load_enabled_state w with Some _ => Some new_task | None => None end.

(** ** The node: the task of [serve] and the commands *)

Record Node := mkNode { nd_world : World; nd_task : option TunnelTask }.

Inductive NodeEvent :=
| NodeTask (max_pending jitter : N) (e : TaskEvent)
| NodeServe                                              (* [serve] starts *)
| NodeLinkEnable (name : string) (service_url bind : option string)
| NodeLinkRenew
| NodeLinkDisable
| NodeTunnelEnable (service_url : option string)
| NodeTunnelDisable.

Definition node_step (e : NodeEvent) (nd : Node) : Node :=
  match e with
  | NodeTask max_pending jitter e =>
      match nd_task nd with
      | Some t => let '(t, w) := task_step max_pending jitter e t (nd_world nd) in mkNode w (Some t)
      | None => nd
      end
  | NodeServe => mkNode (nd_world nd) (spawn_tunnel_task (nd_world nd))
  | NodeLinkEnable name service_url bind => mkNode (link_enable name service_url bind (nd_world nd)).2 (nd_task nd)
  | NodeLinkRenew => mkNode (link_renew (nd_world nd)).2 (nd_task nd)
  | NodeLinkDisable => mkNode (link_disable (nd_world nd)).2 (nd_task nd)
  | NodeTunnelEnable service_url => mkNode (tunnel_enable service_url (nd_world nd)).2 (nd_task nd)
  | NodeTunnelDisable => mkNode (tunnel_disable (nd_world nd)).2 (nd_task nd)
  end.

Definition node_run (events : list NodeEvent) (nd : Node) : Node := foldl (λ nd e, node_step e nd) nd events.

End Task.

(** ** Delays *)

Lemma round_half_even_bounds n d a b : (d ≠ 0)%N → (a * d ≤ n ≤ b * d)%N → (a ≤ round_half_even n d ≤ b)%N.
Proof.
  intros Hd [Ha Hb]. unfold round_half_even.
  pose proof (N.div_mod n d Hd) as Hn. pose proof (N.mod_lt n d Hd) as Hr.
  set (q := (n / d)%N) in *. set (r := (n mod d)%N) in *.
  assert (Hq : (a ≤ q ≤ b)%N) by (split; nia).
  assert (Hup : (d ≤ 2 * r → q + 1 ≤ b)%N) by (intros; nia).
  destruct (N.ltb_spec (2 * r) d); [lia|]. specialize (Hup ltac:(lia)).
  destruct (d <? 2 * r)%N; [lia|]. destruct (N.even q); lia.
Qed.

(** Rounding to an [f64] keeps a number between two that are multiples of every power of
    two it may round to. *)
Lemma round_f64_bounds n lo hi :
  (n < 2 ^ 60)%N → (lo * 2 ^ 7 ≤ n ≤ hi * 2 ^ 7)%N → (lo * 2 ^ 7 ≤ round_f64 n ≤ hi * 2 ^ 7)%N.
Proof.
  intros Hn [Hlo Hhi]. unfold round_f64. set (k := (N.size n - 53)%N).
  assert (Hk : (k ≤ 7)%N).
  { subst k. destruct (decide (n = 0%N)) as [->|Hne]; [done|]. rewrite N.size_log2 by done.
    assert (N.log2 n < 60)%N by (apply N.log2_lt_pow2; lia). lia. }
  assert (Hpow : (2 ^ 7 = 2 ^ (7 - k) * 2 ^ k)%N) by (rewrite <- N.pow_add_r; f_equal; lia).
  assert (H2k : (2 ^ k ≠ 0)%N) by (apply N.pow_nonzero; lia).
  pose proof (round_half_even_bounds n (2 ^ k) (lo * 2 ^ (7 - k)) (hi * 2 ^ (7 - k)) H2k) as Hb.
  rewrite Hpow in Hlo, Hhi |- *. rewrite !N.mul_assoc in *. specialize (Hb (conj Hlo Hhi)).
  split; apply N.mul_le_mono_r; apply Hb.
Qed.

Lemma mul_jitter_bounds halves jitter :
  (halves ≤ 120)%N → (jitter < 2 ^ 53)%N → (halves * 250000000 ≤ mul_jitter halves jitter ≤ halves * 500000000)%N.
Proof.
  intros Hh Hj. unfold mul_jitter.
  assert (Hf : (2 ^ 52 ≤ round_half_even (2 ^ 53 + jitter) 2 ≤ 2 ^ 53)%N) by (apply round_half_even_bounds; lia).
  set (f := round_half_even (2 ^ 53 + jitter) 2) in *.
  assert (Hp : (halves * 2 ^ 45 * 2 ^ 7 ≤ round_f64 (f * halves) ≤ halves * 2 ^ 46 * 2 ^ 7)%N).
  { apply round_f64_bounds; [|split]; nia. }
  apply round_half_even_bounds; [done|]. nia.
Qed.

Lemma backoff_delay_bounds s jitter : (jitter < 2 ^ 53)%N → (250000000 ≤ backoff_delay s jitter ≤ BACKOFF_CAP)%N.
Proof.
  intros Hj. unfold backoff_delay. set (e := N.min (bs_attempt s) 10).
  assert (Hh : (1 ≤ N.min (BACKOFF_BASE * 2 ^ e) BACKOFF_CAP / BACKOFF_BASE ≤ 120)%N).
  { assert (1 ≤ 2 ^ e)%N by (pose proof (N.pow_nonzero 2 e); lia). unfold BACKOFF_BASE, BACKOFF_CAP. split.
    - apply N.div_le_lower_bound; lia.
    - etrans; [apply N.Div0.div_le_mono, N.le_min_r|]. done. }
  set (h := (N.min _ _ / _)%N) in *. pose proof (mul_jitter_bounds h jitter ltac:(lia) Hj). unfold BACKOFF_CAP. lia.
Qed.

(** A failed attempt: a wait, or the next attempt at once and a longer streak. *)
Definition failed (a : AttemptOutcome * N) : Prop := a.1 ≠ OutcomeAck ∧ a.1 ≠ OutcomeClosed CLOSE_SUPERSEDED ∧ (a.2 < 2 ^ 53)%N.

Lemma succ32_small n : (saturating_succ32 n ≤ MAX_CONSECUTIVE_STALE_RESYNCS)%N → (saturating_succ32 n = n + 1 ∧ n + 1 ≤ 3)%N.
Proof. unfold saturating_succ32, u32_max, MAX_CONSECUTIVE_STALE_RESYNCS. lia. Qed.

Lemma next_action_failed s o jitter :
  failed (o, jitter) →
  (∃ delay, (next_action s o jitter).1 = ActBackoff delay ∧ (250000000 ≤ delay ≤ BACKOFF_CAP)%N) ∨
  ((next_action s o jitter).1 = ActResyncAndRetry SEQUENCE_RESYNC_JUMP ∧
   bs_stale_streak (next_action s o jitter).2 = (bs_stale_streak s + 1)%N ∧ (bs_stale_streak s + 1 ≤ 3)%N).
Proof.
  intros (Hack & Hsup & Hj). pose proof (backoff_delay_bounds s jitter Hj) as Hd. cbn [fst snd] in *.
  assert (Hwait : ∀ streak, ∃ delay, (back_off s streak jitter).1 = ActBackoff delay ∧ (250000000 ≤ delay ≤ BACKOFF_CAP)%N).
  { intros streak. exists (backoff_delay s jitter). split; [reflexivity|exact Hd]. }
  clear Hd. destruct o as [|code|]; [done| |left; apply Hwait].
  unfold next_action. destruct (N.eqb_spec code CLOSE_SUPERSEDED) as [->|_]; [done|].
  destruct (N.eqb_spec code CLOSE_STALE_SEQUENCE) as [->|_]; [|left; apply Hwait].
  destruct (N.ltb_spec MAX_CONSECUTIVE_STALE_RESYNCS (saturating_succ32 (bs_stale_streak s))) as [Hlt|Hlt]; [left; apply Hwait|].
  right. apply succ32_small in Hlt as [Heq Hle]. rewrite Heq. done.
Qed.

Lemma unpaced_short s l :
  Forall failed l → (∀ delay, ActBackoff delay ∉ next_actions s l) → l = [] ∨ (bs_stale_streak s + N.of_nat (length l) ≤ 3)%N.
Proof.
  intros Hl. revert s. induction Hl as [|[o jitter] l Ho Hl IH]; intros s Hno; [by left|right]. simpl in Hno.
  pose proof (next_action_failed s o jitter Ho) as Hact. destruct (next_action s o jitter) as [a s']. simpl in Hact.
  destruct Hact as [(delay & -> & _)|(-> & Hs' & Hle)].
  - destruct (Hno delay). by apply elem_of_cons; left.
  - destruct (IH s') as [->|IH']; [|simpl; lia|simpl; lia]. intros delay Hin. apply (Hno delay). by apply elem_of_cons; right.
Qed.

Lemma waits_bounded s l delay : Forall failed l → ActBackoff delay ∈ next_actions s l → (250000000 ≤ delay ≤ BACKOFF_CAP)%N.
Proof.
  intros Hl. revert s. induction Hl as [|[o jitter] l Ho Hl IH]; intros s Hin; [by apply not_elem_of_nil in Hin|]. simpl in Hin.
  pose proof (next_action_failed s o jitter Ho) as Hact. destruct (next_action s o jitter) as [a s']. simpl in Hact.
  apply elem_of_cons in Hin as [<-|Hin]; [|by eapply IH]. destruct Hact as [(d & Heq & ?)|(? & _)]; by simplify_eq/=.
Qed.

Lemma has_wait (l : list ReconnectAction) : (∃ delay, ActBackoff delay ∈ l) ∨ ∀ delay, ActBackoff delay ∉ l.
Proof.
  induction l as [|a l [[delay IH]|IH]]; [right; intros; apply not_elem_of_nil|left; exists delay; by apply elem_of_cons; right|].
  destruct a as [| | |delay]; [right..|left; exists delay; by apply elem_of_cons; left];
    intros d Hin; apply elem_of_cons in Hin as [?|?]; [done|by eapply IH|done|by eapply IH|done|by eapply IH].
Qed.

(** The tunnel never hammers the relay: of any four attempts that fail in a row,
    whatever came before and whatever the close codes, at least one is followed by a
    wait; and every wait is between a quarter of a second and a minute, with the
    rounding of the random factor. *)
Theorem failed_attempts_paced (s : BackoffState) (attempts : list (AttemptOutcome * N))
    (Hfour : length attempts = 4) (Hfailed : Forall failed attempts) :
  (∃ delay, ActBackoff delay ∈ next_actions s attempts) ∧
  ∀ delay, ActBackoff delay ∈ next_actions s attempts → (250000000 ≤ delay ≤ BACKOFF_CAP)%N.
Proof.
  split; [|intros delay; by apply waits_bounded]. destruct (has_wait (next_actions s attempts)) as [?|Hno]; [done|].
  apply unpaced_short in Hno as [->|Hle]; [done|rewrite Hfour in Hle; lia|done].
Qed.

(** ** Numbers *)

Section Numbers.
Context `{LinkEnv, TunnelEnv, TaskEnv}.

(** The number the task has taken and not signed yet. *)
Definition reserved (t : option TunnelTask) : list N :=
  match t with Some (mkTask _ _ _ (Bumped _ _ n)) => [n] | _ => [] end.
#[local] Arguments reserved : simpl never.

Definition numbers (nd : Node) : list N := map rq_sequence (w_signed (nd_world nd)) ++ reserved (nd_task nd).

(** No number is used twice, and all are at most the counter, which only climbs. *)
Record numbered (nd : Node) : Prop := {
  nb_u64 : (counter (nd_world nd) ≤ u64_max)%N;
  nb_once : (counter (nd_world nd) < u64_max)%N → NoDup (numbers nd) ∧ ∀ n, n ∈ numbers nd → (n ≤ counter (nd_world nd))%N;
}.

(** The world moves on as commands do, the task keeps its number or drops it. *)
Lemma numbered_advances nd w' t' :
  numbered nd → advances (nd_world nd) w' → reserved t' `sublist_of` reserved (nd_task nd) → numbered (mkNode w' t').
Proof.
  intros [Hmax Honce] Ha Hres. destruct (Ha Hmax) as (Hc & l & Hl & Hclimb). split; simpl; [lia|]. intros Hlt.
  destruct Honce as [Hnd Hle]; [lia|]. specialize (Hclimb Hlt). unfold numbers in *. simpl. rewrite Hl, map_app.
  assert (Hnew : ∀ n, n ∈ map rq_sequence l → (counter (nd_world nd) < n ≤ counter w')%N).
  { intros n Hn. apply list_elem_of_In, in_map_iff in Hn as (r & <- & Hr). apply list_elem_of_In in Hr. by eapply climbs_bounds. }
  assert (Hkept : map rq_sequence (w_signed (nd_world nd)) ++ reserved t' `sublist_of` map rq_sequence (w_signed (nd_world nd)) ++ reserved (nd_task nd)).
  { by apply sublist_app. }
  assert (Hold : ∀ n, n ∈ map rq_sequence (w_signed (nd_world nd)) ++ reserved t' → (n ≤ counter (nd_world nd))%N).
  { intros n Hn. apply Hle. by eapply elem_of_sublist. }
  split.
  - rewrite <- app_assoc, (app_Permutation_comm (map rq_sequence l)), app_assoc.
    apply NoDup_app. split_and!; [by eapply sublist_NoDup| |by eapply climbs_NoDup].
    intros n Hn Hn'. specialize (Hold n Hn). specialize (Hnew n Hn'). lia.
  - intros n Hn. rewrite !elem_of_app in Hn. destruct Hn as [[Hn|Hn]|Hn]; [| |].
    + specialize (Hold n ltac:(apply elem_of_app; by left)). lia.
    + by apply Hnew.
    + specialize (Hold n ltac:(apply elem_of_app; by right)). lia.
Qed.

(** A step that only writes the runtime marker, and ends outside [Bumped] or where it was. *)
Definition marks (t : TunnelTask) (w : World) (out : TunnelTask * World) : Prop :=
  ld_state (w_dir out.2) = ld_state (w_dir w) ∧ w_signed out.2 = w_signed w ∧
  (reserved (Some out.1) = [] ∨ reserved (Some out.1) = reserved (Some t)).

Lemma marks_trans t t1 w w1 out : ld_state (w_dir w1) = ld_state (w_dir w) → w_signed w1 = w_signed w →
  reserved (Some out.1) = [] → marks t1 w1 out → marks t w out.
Proof. intros Hd Hs Hr (Hd' & Hs' & _). unfold marks. rewrite Hd', Hs', Hd, Hs. eauto. Qed.

Lemma after_attempt_marks o jitter t w t0 : marks t0 w (after_attempt o jitter t w).
Proof. unfold after_attempt. destruct (next_action _ _ _) as [[] b]; by split_and!; [..|left]. Qed.

Lemma recorded_attempt_marks b e o jitter t w t0 : marks t0 w (after_attempt o jitter t (record_state b e w)).
Proof. unfold after_attempt. destruct (next_action _ _ _) as [[] b']; by split_and!; [..|left]. Qed.

Lemma prepare_failed_marks e jitter t w t0 : marks t0 w (prepare_failed e jitter t w).
Proof.
  unfold prepare_failed. case_decide; [by split_and!; [..|left]|]. destruct (next_action _ _ _) as [[] b]; by split_and!; [..|left].
Qed.

Lemma on_reply_marks o jitter t w t0 : marks t0 w (on_reply o jitter t w).
Proof.
  destruct o as [|code reason|e]; simpl; [by split_and!; [..|left]| |apply recorded_attempt_marks].
  destruct (_ =? _)%N; [by split_and!; [..|left]|apply recorded_attempt_marks].
Qed.

Lemma on_socket_marks max_pending m jitter pending t w : tk_phase t = Serving pending → marks t w (on_socket max_pending m jitter pending t w).
Proof.
  intros Hp. destruct m as [| | |frame|text|]; simpl; try apply recorded_attempt_marks; try (by split_and!; [..|left]); [|by split_and!; [..|right]].
  destruct (close_code_and_reason frame) as [code reason]. destruct (_ =? _)%N; [by split_and!; [..|left]|apply recorded_attempt_marks].
Qed.

(** What a step of the task does with numbers: nothing, take one, or sign with the one
    taken. *)
Lemma task_step_cases max_pending jitter e t w :
  let out := task_step max_pending jitter e t w in
  marks t w out ∨
  (∃ s n, ld_state (w_dir w) = Some s ∧ ls_tunnel_enabled s = true ∧ n = saturating_add (next_sequence s) (tk_jump t) ∧
     ld_state (w_dir out.2) = Some (set_sequence n s) ∧ w_signed out.2 = w_signed w ∧ reserved (Some out.1) = [n]) ∨
  (∃ r, w_signed out.2 = w_signed w ++ [r] ∧ ld_state (w_dir out.2) = ld_state (w_dir w) ∧ rq_action r = ActTunnel ∧
     reserved (Some t) = [rq_sequence r] ∧ reserved (Some out.1) = []).
Proof.
  assert (Hstay : marks t w (t, w)) by (split_and!; [done|done|by right]).
  destruct t as [b j sh p]. unfold task_step. destruct e as [| |[]|[]| | | | |]; destruct p; simpl tk_phase; simpl tk_shutdown; cbv zeta; try (by left);
    try (left; apply recorded_attempt_marks); try (left; apply on_reply_marks); try (left; by apply on_socket_marks).
  all: try (left; destruct sh; by split_and!; [..|left]).
  all: try (left; by split_and!; [..|left]).
  - destruct sh; [left; by split_and!; [..|left]|]. unfold bump_sequence_for_tunnel.
    destruct (ld_state (w_dir w)) as [s|] eqn:Hs; [|left; apply prepare_failed_marks].
    destruct (ls_tunnel_enabled s) eqn:Hen; [|left; apply prepare_failed_marks]. right. left. exists s. eexists. by split_and!.
  - simpl. destruct (sign_auth name service_url sequence) as [auth|e] eqn:Hsign; [|left; apply prepare_failed_marks]. right. right. exists auth.
    unfold sign_auth in Hsign. ok_inv. by split_and!.
Qed.

Lemma task_step_numbered max_pending jitter e t w :
  numbered (mkNode w (Some t)) →
  let out := task_step max_pending jitter e t w in numbered (mkNode out.2 (Some out.1)).
Proof.
  intros Hnb. pose proof (task_step_cases max_pending jitter e t w) as Hcases. simpl in Hcases |- *.
  destruct (task_step _ _ _ _ _) as [t' w']. simpl in *.
  destruct Hcases as [(Hd & Hs & Hr)|[(s & n & Hst & _ & Hn & Hd & Hs & Hr)|(r & Hs & Hd & _ & Hr & Hr')]].
  - apply (numbered_advances (mkNode w (Some t))); [done| |].
    + apply advances_same; [unfold counter; simpl in *; by rewrite Hd|done].
    + simpl in Hr. destruct Hr as [->| ->]; [apply sublist_nil_l|done].
  - destruct Hnb as [Hmax Honce]. unfold numbers in Honce. simpl in *. rewrite (counter_state w s Hst) in *.
    assert (Hc : counter w' = n) by by rewrite (counter_state w' _ Hd).
    assert (Hle : (ls_sequence s ≤ n ≤ u64_max)%N ∧ ((n < u64_max)%N → (ls_sequence s < n)%N)).
    { rewrite Hn. unfold next_sequence, saturating_add. lia. }
    split; simpl; rewrite Hc; [lia|]. intros Hlt. unfold numbers. simpl. rewrite Hs, Hr. destruct Honce as [Hnd Hall]; [lia|].
    assert (Hall' : ∀ m, m ∈ map rq_sequence (w_signed w) → (m < n)%N).
    { intros m Hm. specialize (Hall m ltac:(apply elem_of_app; by left)). lia. }
    split.
    + apply NoDup_app in Hnd as (Hnd & _ & _). apply NoDup_app. split_and!; [done| |apply NoDup_singleton].
      intros m Hm Hin. apply list_elem_of_singleton in Hin as ->. specialize (Hall' n Hm). lia.
    + intros m Hm. apply elem_of_app in Hm as [Hm|Hm]; [specialize (Hall' m Hm); lia|]. apply list_elem_of_singleton in Hm as ->. lia.
  - destruct Hnb as [Hmax Honce]. unfold numbers in Honce. simpl in *.
    assert (Hc : counter w' = counter w) by (unfold counter; by rewrite Hd).
    split; simpl; rewrite Hc; [done|]. unfold numbers. simpl. rewrite Hs, Hr', map_app, app_nil_r. simpl. rewrite Hr in Honce. done.
Qed.

(** The counter starts again from nothing when the link is disabled. *)
Definition keeps_counter (e : NodeEvent) : bool := match e with NodeLinkDisable => false | _ => true end.

Lemma node_step_numbered e nd : keeps_counter e = true → numbered nd → numbered (node_step e nd).
Proof.
  intros Hk Hnb. pose proof (nb_u64 _ Hnb) as Hmax. destruct e as [mp jitter e| |name url bind| | |url|]; try done; simpl.
  - destruct nd as [w [t|]]; [|done]. simpl. pose proof (task_step_numbered mp jitter e t w Hnb) as Hstep. by destruct (task_step _ _ _ _ _).
  - apply (numbered_advances nd); [done..|]. unfold spawn_tunnel_task. destruct (load_enabled_state _); apply sublist_nil_l.
  - apply (numbered_advances nd); [done|by apply link_enable_spec|done].
  - apply (numbered_advances nd); [done|by apply link_renew_spec|done].
  - apply (numbered_advances nd); [done| |done]. unfold tunnel_enable. destruct (ld_state _) as [s|] eqn:Hs; [|done].
    apply advances_same; [|done]. unfold counter. simpl. by rewrite Hs.
  - apply (numbered_advances nd); [done| |done]. unfold tunnel_disable. destruct (ld_state _) as [s|] eqn:Hs; [|done].
    apply advances_same; [|done]. unfold counter. simpl. by rewrite Hs.
Qed.

Lemma node_run_numbered events nd : forallb keeps_counter events = true → numbered nd → numbered (node_run events nd).
Proof.
  revert nd. induction events as [|e events IH]; intros nd Hk Hnb; [done|]. simpl in Hk. apply andb_true_iff in Hk as [He Hk].
  by apply IH, node_step_numbered.
Qed.
End Numbers.

(** C29: a node signs no number twice.  Whatever commands run and whatever the tunnel's task
    meets, in any order and interleaved between the moment the task takes a number and the
    moment it signs with it, with restarts of the node, and whatever the service and the
    relay answer: as long as the link is not disabled and the counter has not come to the
    end of [u64], all requests the node ever signed (claims, certificates and tunnel
    authentications) have different numbers, none above the counter on disk. *)
Theorem sequence_signed_once `{LinkEnv, TunnelEnv, TaskEnv} (events : list NodeEvent) (dir : LinkDir)
    (Hu64 : (counter (mkWorld dir []) ≤ u64_max)%N)
    (Hkeeps : forallb keeps_counter events = true) :
  let w := nd_world (node_run events (mkNode (mkWorld dir []) None)) in
  (counter w < u64_max)%N →
  NoDup (map rq_sequence (w_signed w)) ∧ ∀ r, r ∈ w_signed w → (rq_sequence r ≤ counter w)%N.
Proof.
  intros w Hlt. assert (Hnb : numbered (node_run events (mkNode (mkWorld dir []) None))).
  { apply node_run_numbered; [done|]. split; [done|]. intros _. split; [constructor|]. intros n Hn. by apply not_elem_of_nil in Hn. }
  destruct (nb_once _ Hnb Hlt) as [Hnd Hle]. split; [by apply NoDup_app in Hnd as [? _]|].
  intros r Hr. apply Hle, elem_of_app. left. by apply list_elem_of_In, in_map, list_elem_of_In.
Qed.

(** ** A tunnel that is turned off *)

Section Quiet.
Context `{LinkEnv, TunnelEnv, TaskEnv}.

Definition tunnel_on (w : World) : bool := match ld_state (w_dir w) with Some s => ls_tunnel_enabled s | None => false end.

Definition is_auth (r : LinkRequest) : bool := match rq_action r with ActTunnel => true | _ => false end.

(** The tunnel authentications a node signed. *)
Definition tunnel_auths (w : World) : list LinkRequest := List.filter is_auth (w_signed w).

Lemma tunnel_auths_snoc w l r : w_signed w = l ++ [r] → tunnel_auths w = List.filter is_auth l ++ (if is_auth r then [r] else []).
Proof. intros Hw. unfold tunnel_auths. rewrite Hw, List.filter_app. simpl. by destruct (is_auth r). Qed.

Lemma send_request_quiet {T} base a name subject (read : HttpResponse → result LinkError T) sequence w :
  a ≠ ActTunnel →
  w_dir (send_request base a name subject read sequence w).2 = w_dir w ∧ tunnel_auths (send_request base a name subject read sequence w).2 = tunnel_auths w.
Proof.
  intros Ha. unfold send_request. destruct (node_sign _) as [signature|e]; [|done]. split; [done|]. simpl.
  erewrite tunnel_auths_snoc by reflexivity. unfold is_auth at 2. simpl. destruct a; try done; apply app_nil_r.
Qed.

(** The commands of the link keep the flag of the state they start from. *)
Definition keeps_flag (on : bool) (w w' : World) : Prop := tunnel_on w' = on ∧ tunnel_auths w' = tunnel_auths w.

Lemma send_with_sequence_quiet {T} a name subject (read : HttpResponse → result LinkError T) s w :
  a ≠ ActTunnel →
  let out := (send_with_sequence a name subject read s w).2 in ls_tunnel_enabled out.1 = ls_tunnel_enabled s ∧ keeps_flag (ls_tunnel_enabled s) w out.2.
Proof.
  intros Ha. unfold send_with_sequence, keeps_flag.
  pose proof (send_request_quiet (ls_service_url (set_sequence (next_sequence s) s)) a name subject read (next_sequence s) (write_state (set_sequence (next_sequence s) s) w) Ha) as [Hd Hs].
  destruct (send_request _ _ _ _ _ _ _) as [r w1]. simpl in Hd, Hs.
  assert (Hon : tunnel_on w1 = ls_tunnel_enabled s) by (unfold tunnel_on; by rewrite Hd).
  destruct r as [x|[]]; try (split_and!; [done|done|exact Hs]).
  set (s1 := set_sequence _ _). set (n := saturating_add _ _).
  pose proof (send_request_quiet (ls_service_url (set_sequence n s1)) a name subject read n (write_state (set_sequence n s1) w1) Ha) as [Hd2 Hs2].
  destruct (send_request _ _ _ _ _ _ _) as [r w2]. simpl in Hd2, Hs2 |- *. split_and!; [done|unfold tunnel_on; by rewrite Hd2|].
  etrans; [exact Hs2|exact Hs].
Qed.

Lemma claim_addresses_quiet name subject ips s w :
  let out := claim_addresses name subject ips s w in
  keeps_flag (ls_tunnel_enabled s) w out.2 ∧ ∀ s', out.1 = Ok s' → ls_tunnel_enabled s' = ls_tunnel_enabled s.
Proof.
  unfold claim_addresses. pose proof (send_with_sequence_quiet (ActClaim ips) name subject (interpret_response name) s w ltac:(done)) as [Hs' [Hon Hs]].
  destruct (send_with_sequence _ _ _ _ _ _) as [[x|e] [s' w']]; simpl in *; [|by split_and!].
  split_and!; [split; [done|exact Hs]|by intros ? [= <-]].
Qed.

Lemma certify_claimed_quiet did claimed on w0 w :
  keeps_flag on w0 w → (∀ s, claimed = Ok s → ls_tunnel_enabled s = on) → keeps_flag on w0 (certify_claimed did claimed w).2.
Proof.
  intros [Hon Hw] Hs. destruct claimed as [s|e]; [|done]. specialize (Hs s eq_refl). unfold certify_claimed, request_cert.
  destruct (generate_csr _) as [[key csr]|e]; [|done].
  pose proof (send_with_sequence_quiet (ActCert csr) (ls_name s) did (interpret_issuance (ls_name s)) s w ltac:(done)) as [Hs' [Hon' Hw']].
  destruct (send_with_sequence _ _ _ _ _ _) as [[x|e] [s' w']]; simpl in *; split.
  - unfold tunnel_on. simpl. congruence.
  - etrans; [exact Hw'|done].
  - congruence.
  - congruence.
Qed.

Lemma link_enable_quiet name url bind w : tunnel_on w = false → keeps_flag false w (link_enable name url bind w).2.
Proof.
  intros Hon. unfold link_enable. destruct (enable_inputs name) as [[[label did] ips]|e]; [|done].
  assert (Hflag : ls_tunnel_enabled (enable_state label url bind w) = false).
  { unfold enable_state, tunnel_on in *. by destruct (ld_state (w_dir w)). }
  pose proof (claim_addresses_quiet label did ips (enable_state label url bind w) w) as [Hk Hs].
  destruct (claim_addresses _ _ _ _ _) as [claimed w1]. rewrite Hflag in *. by apply certify_claimed_quiet.
Qed.

Lemma link_renew_quiet w : tunnel_on w = false → keeps_flag false w (link_renew w).2.
Proof.
  intros Hon. unfold link_renew. destruct (renew_inputs w) as [[[s did] ips]|e] eqn:Hin; [|done].
  assert (Hflag : ls_tunnel_enabled s = false).
  { unfold renew_inputs in Hin. ok_inv. unfold tunnel_on in Hon. by destruct (ld_state (w_dir w)); simplify_eq/=. }
  case_decide; [apply certify_claimed_quiet; [done|by intros ? [= <-]]|].
  pose proof (claim_addresses_quiet (ls_name s) did ips s w) as [Hk Hs].
  destruct (claim_addresses _ _ _ _ _) as [claimed w1]. rewrite Hflag in *. by apply certify_claimed_quiet.
Qed.

Lemma link_disable_quiet w : tunnel_on w = false → keeps_flag false w (link_disable w).2.
Proof.
  intros Hon. unfold link_disable. destruct (ld_state (w_dir w)) as [s|] eqn:Hs; [|done]. destruct (map_err Message node_identity) as [did|e]; [|done].
  pose proof (send_with_sequence_quiet ActDelete (ls_name s) did (interpret_delete (ls_name s)) s w ltac:(done)) as [_ [_ Hw]].
  destruct (send_with_sequence _ _ _ _ _ _) as [r [s' w']]. split; [done|exact Hw].
Qed.

(** Every event but the one that turns the tunnel on. *)
Definition not_tunnel_enable (e : NodeEvent) : bool := match e with NodeTunnelEnable _ => false | _ => true end.

(** One event: the tunnel stays off, and what is signed comes out of what was taken. *)
Lemma node_step_quiet e nd :
  not_tunnel_enable e = true → tunnel_on (nd_world nd) = false →
  tunnel_on (nd_world (node_step e nd)) = false ∧
  ∃ l, tunnel_auths (nd_world (node_step e nd)) = tunnel_auths (nd_world nd) ++ l ∧
       length l + length (reserved (nd_task (node_step e nd))) ≤ length (reserved (nd_task nd)).
Proof.
  intros He Hon.
  assert (Hcmd : ∀ w', keeps_flag false (nd_world nd) w' → tunnel_on w' = false ∧ ∃ l, tunnel_auths w' = tunnel_auths (nd_world nd) ++ l ∧ length l + length (reserved (nd_task nd)) ≤ length (reserved (nd_task nd))).
  { intros w' [Hon' Hw']. split; [done|]. exists []. rewrite app_nil_r. split; [done|]. simpl. lia. }
  destruct e as [mp jitter e| |name url bind| | |url|]; try done; simpl.
  - destruct nd as [w [t|]]; simpl in *; [|split; [done|]; exists []; rewrite app_nil_r; split; [done|simpl; lia]].
    pose proof (task_step_cases mp jitter e t w) as Hcases. simpl in Hcases. destruct (task_step _ _ _ _ _) as [t' w']. simpl in *.
    destruct Hcases as [(Hd & Hs & Hr)|[(s & n & Hst & Hen & _)|(r & Hs & Hd & Ha & Hr & Hr')]]; simpl in *.
    + split; [unfold tunnel_on; by rewrite Hd|]. exists []. unfold tunnel_auths. rewrite app_nil_r, Hs. split; [done|].
      destruct Hr as [-> | ->]; simpl; lia.
    + unfold tunnel_on in Hon. rewrite Hst in Hon. congruence.
    + split; [unfold tunnel_on; by rewrite Hd|]. exists [r]. split; [|rewrite Hr, Hr'; simpl; lia].
      rewrite (tunnel_auths_snoc w' _ _ Hs). unfold is_auth at 2. by rewrite Ha.
  - split; [done|]. exists []. rewrite app_nil_r. split; [done|].
    unfold spawn_tunnel_task. destruct (load_enabled_state _); simpl; unfold reserved; simpl; lia.
  - apply Hcmd. by apply link_enable_quiet.
  - apply Hcmd. by apply link_renew_quiet.
  - apply Hcmd. by apply link_disable_quiet.
  - apply Hcmd. unfold tunnel_disable. by destruct (ld_state _).
Qed.
End Quiet.

(** C31: a tunnel that is turned off stays off.  Once the flag on disk is off, whatever the
    other commands and the events of the task, until the next [tunnel enable]: the node
    signs no tunnel authentication, but one if the task had already taken its number; and
    a task that comes round its loop while the link is there, and was not told to shut
    down, ends with its marker removed. *)
Theorem disabled_tunnel_stays_off `{LinkEnv, TunnelEnv, TaskEnv} (events : list NodeEvent) (nd : Node)
    (Hoff : tunnel_on (nd_world nd) = false)
    (Hevents : forallb not_tunnel_enable events = true) :
  let nd' := node_run events nd in
  tunnel_on (nd_world nd') = false ∧
  (∃ l, tunnel_auths (nd_world nd') = tunnel_auths (nd_world nd) ++ l ∧ length l ≤ length (reserved (nd_task nd))) ∧
  ∀ max_pending jitter t, nd_task nd' = Some t → tk_phase t = AtTop → tk_shutdown t = false → is_Some (ld_state (w_dir (nd_world nd'))) →
    let '(t', w') := task_step max_pending jitter EvLoop t (nd_world nd') in tk_phase t' = Finished ∧ ld_tunnel (w_dir w') = None.
Proof.
  assert (Hrun : ∀ events nd, tunnel_on (nd_world nd) = false → forallb not_tunnel_enable events = true →
    tunnel_on (nd_world (node_run events nd)) = false ∧
    ∃ l, tunnel_auths (nd_world (node_run events nd)) = tunnel_auths (nd_world nd) ++ l ∧
         length l + length (reserved (nd_task (node_run events nd))) ≤ length (reserved (nd_task nd))).
  { clear. induction events as [|e events IH]; intros nd Hoff Hev; [split; [done|]; exists []; rewrite app_nil_r; split; [done|simpl; lia]|].
    simpl in Hev. apply andb_true_iff in Hev as [He Hev]. destruct (node_step_quiet e nd He Hoff) as [Hoff1 (l1 & Hl1 & Hn1)].
    destruct (IH (node_step e nd) Hoff1 Hev) as [Hoff2 (l2 & Hl2 & Hn2)]. split; [done|]. exists (l1 ++ l2).
    change (node_run (e :: events) nd) with (node_run events (node_step e nd)). rewrite Hl2, Hl1, app_assoc, length_app. split; [done|lia]. }
  destruct (Hrun events nd Hoff Hevents) as [Hoff' (l & Hl & Hn)]. split_and!; [done|exists l; split; [done|lia]|].
  intros max_pending jitter t Ht Htop Hsh [s Hs]. unfold task_step. rewrite Htop, Hsh. unfold bump_sequence_for_tunnel. rewrite Hs.
  unfold tunnel_on in Hoff'. rewrite Hs in Hoff'. rewrite Hoff'. unfold prepare_failed. by rewrite decide_True.
Qed.

(** The task of a link that was disabled does not end: every round waits and tries again,
    and writes its marker into the directory that was removed. *)
Lemma disabled_link_retried `{LinkEnv, TunnelEnv, TaskEnv} max_pending jitter t w :
  tk_phase t = AtTop → tk_shutdown t = false → ld_state (w_dir w) = None →
  let '(t', w') := task_step max_pending jitter EvLoop t w in
  (∃ delay, tk_phase t' = Sleeping delay) ∧
  w_dir w' = mkLinkDir None (ld_tls (w_dir w)) (Some (mkTunnelRuntimeState false (Some "tunnel: link state.json is missing"))).
Proof.
  intros Htop Hsh Hs. unfold task_step. rewrite Htop, Hsh. unfold bump_sequence_for_tunnel. rewrite Hs. unfold prepare_failed.
  rewrite decide_False by done. simpl. rewrite Hs. split; [by eexists|done].
Qed.

(** ** A node *)

Module TunnelDemo.

(** A service that accepts every request. *)
Definition demo_link : LinkEnv :=
  {| link_service _ := Ok (mkHttpResponse 200 None "");
     percent_encode s := s;
     error_body _ := None;
     issuance_body _ := Ok (mkCertIssuance "chain" "2027-01-01T00:00:00Z");
     node_identity := Ok "did:key:node";
     node_sign p := Ok "signature";
     host_interfaces := Ok [mkInterface "lo" (V4 127 0 0 1) true; mkInterface "en0" (V4 192 168 1 20) false];
     ip_text _ := "192.168.1.20";
     generate_csr _ := Ok ("key", "csr") |}.

Definition demo_task : TaskEnv := {| serve_identity := Ok "did:key:node"; debug_frame _ := "" |}.

#[local] Existing Instances demo_link TunnelFramesDemo.demo_tunnel demo_task.

Definition empty_dir : LinkDir := mkLinkDir None None None.

(** Enable the link and the tunnel, start, connect, renew while the tunnel dials. *)
Definition demo_events : list NodeEvent :=
  [NodeLinkEnable "Office" None None; NodeTunnelEnable None; NodeServe; NodeTask 64 0 EvLoop; NodeLinkRenew; NodeTask 64 0 EvSign;
   NodeTask 64 0 (EvConnect (Ok tt)); NodeTask 64 0 (EvAuthSent (Ok tt)); NodeTask 64 0 (EvReply (ReplyClose (Some (4409%N, "stale"))));
   NodeTask 64 0 EvLoop; NodeTask 64 0 EvSign; NodeTask 64 0 (EvConnect (Ok tt)); NodeTask 64 0 (EvAuthSent (Ok tt)); NodeTask 64 0 (EvReply (ReplyText "ack"))].

Definition demo_node : Node := node_run demo_events (mkNode (mkWorld empty_dir []) None).

(** The certificate renewed meanwhile takes the number after the tunnel's, which the relay
    finds stale; the tunnel is a hundred and one further with the next. *)
Example demo_numbers : map rq_sequence (w_signed (nd_world demo_node)) = [1; 2; 4; 3; 105]%N.
Proof. vm_compute. reflexivity. Qed.

Example demo_connected : tunnel_status (nd_world demo_node) =
  mkTunnelStatus true true (Some "https://office.tinycloud.link") (Some "https://api.tinycloud.link") None.
Proof. vm_compute. reflexivity. Qed.

(** Disabling the link and enabling it again under the same name starts over: the number
    of the first claim is signed again, for another claim. *)
Example disabled_link_restarts :
  map rq_sequence (w_signed (nd_world (node_run [NodeLinkEnable "office" None None; NodeLinkDisable; NodeLinkEnable "office" None None]
    (mkNode (mkWorld empty_dir []) None)))) = [1; 2; 3; 1; 2]%N.
Proof. vm_compute. reflexivity. Qed.

Lemma sequence_signed_once_witness :
  let w := nd_world demo_node in
  (counter w <? u64_max)%N = true ∧ NoDup (map rq_sequence (w_signed w)) ∧ ∀ r, r ∈ w_signed w → (rq_sequence r ≤ counter w)%N.
Proof.
  split; [vm_compute; reflexivity|]. apply (sequence_signed_once demo_events empty_dir).
  - apply N.leb_le. vm_compute. reflexivity.
  - vm_compute. reflexivity.
  - apply N.ltb_lt. vm_compute. reflexivity.
Defined.

(** The tunnel is turned off after the task took a number: it signs this one and no other. *)
Definition off_node : Node :=
  node_run [NodeLinkEnable "office" None None; NodeTunnelEnable None; NodeServe; NodeTask 64 0 EvLoop; NodeTunnelDisable] (mkNode (mkWorld empty_dir []) None).

Definition off_events : list NodeEvent := [NodeTask 64 0 EvSign; NodeLinkRenew; NodeTask 64 0 (EvConnect (Err "refused")); NodeTask 64 0 EvSlept].

Lemma disabled_tunnel_stays_off_witness :
  length (tunnel_auths (nd_world (node_run off_events off_node))) = 1 ∧
  tunnel_on (nd_world (node_run off_events off_node)) = false ∧
  ∃ l, tunnel_auths (nd_world (node_run off_events off_node)) = tunnel_auths (nd_world off_node) ++ l ∧ length l ≤ length (reserved (nd_task off_node)).
Proof.
  split; [vm_compute; reflexivity|]. destruct (disabled_tunnel_stays_off off_events off_node) as (H1 & H2 & _).
  - vm_compute. reflexivity.
  - vm_compute. reflexivity.
  - split; [exact H1|exact H2].
Defined.

Lemma failed_attempts_paced_witness :
  let attempts := [(OutcomeClosed 4409, 0%N); (OutcomeClosed 4409, 5%N); (OutcomeClosed 4409, 7%N); (OutcomeClosed 4409, (2 ^ 53 - 1)%N)] in
  next_actions new_backoff attempts = [ActResyncAndRetry 100; ActResyncAndRetry 100; ActResyncAndRetry 100; ActBackoff 500000000] ∧
  ∃ delay, ActBackoff delay ∈ next_actions new_backoff attempts.
Proof.
  split; [vm_compute; reflexivity|]. apply (failed_attempts_paced new_backoff); [reflexivity|].
  repeat (constructor; [split; [discriminate|split; [discriminate|apply N.ltb_lt; vm_compute; reflexivity]]|]). constructor.
Defined.

End TunnelDemo.
