(* ===== verification/FileStore.v ===== *)
(** * The block store on disk: tinycloud-node-server/src/storage/{file_system,size}.rs

    A block is a file named after its hash, in a directory named after its space; the
    size of a space is counted in memory, and read off the directories when the store is
    opened.  Paths are lists of components below the root; suffixes and names of spaces
    have no slash, since [space_try_from] refuses one. *)
From S2P Require Import Prelude Str Chars Identity Resource Tables Storage.

(** [base64::URL_SAFE] of a hash. *)
Class HashFile := hash_file : Hash → string.

(** ** Paths *)

(** [PathBuf::join] of one component, as the file system resolves it. *)
Definition push_component (p : list string) (c : string) : list string :=
  if decide (c = ".") then p else if decide (c = "..") then removelast p else p ++ [c].

Definition resolve (components : list string) : list string := foldl push_component [] components.

Definition space_dir (s : SpaceId) : list string := resolve [suffix s; name s].

Definition get_path `{HashFile} (s : SpaceId) (h : Hash) : list string := resolve [suffix s; name s; hash_file h].

(** ** size.rs: [SpaceSizes] *)

Notation SpaceSizes := (gmap SpaceId N).

Definition init_size (s : SpaceId) (sizes : SpaceSizes) : SpaceSizes := <[s := 0%N]> sizes.

(** [add_assign] and [sub_assign] of [u64] wrap around. *)
Definition increment_size (s : SpaceId) (size : N) (sizes : SpaceSizes) : SpaceSizes := alter (λ n, ((n + size) mod 2 ^ 64)%N) s sizes.
Definition decrement_size (s : SpaceId) (size : N) (sizes : SpaceSizes) : SpaceSizes := alter (λ n, ((n + 2 ^ 64 - size) mod 2 ^ 64)%N) s sizes.
Definition get_size (s : SpaceId) (sizes : SpaceSizes) : option N := sizes !! s.

(** ** file_system.rs *)

Record FileSystemStore := mkFileStore {
  fs_files : gmap (list string) string;
  fs_dirs : gset (list string);
  fs_sizes : SpaceSizes;
}.

Definition bytes_of (c : string) : N := N.of_nat (String.length c).

Definition is_dir (p : list string) (st : FileSystemStore) : bool := bool_decide (p = [] ∨ p ∈ fs_dirs st).

(** [Path::exists]. *)
Definition path_exists (p : list string) (st : FileSystemStore) : bool := is_dir p st || bool_decide (is_Some (fs_files st !! p)).

Inductive FileError := NotFound | IsADirectory | InvalidDid (suffix : string) | WriteFailed.

(** [create]; [create_dir_all] makes the suffix directory as well. *)
Definition fs_create (s : SpaceId) (st : FileSystemStore) : FileSystemStore :=
  mkFileStore (fs_files st) (fs_dirs st ∪ {[ resolve [suffix s] ]} ∪ {[ space_dir s ]}) (init_size s (fs_sizes st)).

Definition fs_total_size (s : SpaceId) (st : FileSystemStore) : option N := get_size s (fs_sizes st).

(** [space_size]: the files of one directory, not those of its subdirectories. *)
Definition space_size (files : gmap (list string) string) (d : list string) : N :=
  map_fold (λ p c n, if decide (removelast p = d) then (bytes_of c + n)%N else n) 0%N files.

Section FileSystem.
Context `{Blake3, HashFile}.

Definition fs_contains (s : SpaceId) (h : Hash) (st : FileSystemStore) : bool := path_exists (get_path s h) st.

Definition fs_read (s : SpaceId) (h : Hash) (st : FileSystemStore) : result FileError (option string) :=
  match fs_files st !! get_path s h with
  | Some c => Ok (Some c)
  | None => if is_dir (get_path s h) st then Err IsADirectory else Ok None
  end.

Definition write_block (s : SpaceId) (h : Hash) (c : string) (st : FileSystemStore) : FileSystemStore :=
  mkFileStore (<[get_path s h := c]> (fs_files st)) (fs_dirs st) (fs_sizes st).

Definition count_block (s : SpaceId) (c : string) (st : FileSystemStore) : FileSystemStore :=
  mkFileStore (fs_files st) (fs_dirs st) (increment_size s (bytes_of c) (fs_sizes st)).

(** [persist] of a temporary file: the file is moved, all of it. *)
Definition fs_persist (s : SpaceId) (c : string) (st : FileSystemStore) : result FileError Hash * FileSystemStore :=
  let h := hash c in
  if fs_contains s h st then (Ok h, st)
  else if is_dir (removelast (get_path s h)) st then (Ok h, count_block s c (write_block s h c st))
  else (Err NotFound, st).

(** [persist] of a buffer: the file is created and then written.  A fault is the number of
    bytes that reach the file before the writing fails or the node stops. *)
Definition fs_persist_buffer (fault : option nat) (s : SpaceId) (c : string) (st : FileSystemStore) : result FileError Hash * FileSystemStore :=
  let h := hash c in
  if fs_contains s h st then (Ok h, st)
  else if is_dir (removelast (get_path s h)) st then
    match fault with
    | None => (Ok h, count_block s c (write_block s h c st))
    | Some n => (Err WriteFailed, write_block s h (String.substring 0 n c) st)
    end
  else (Err NotFound, st).

Definition fs_remove (s : SpaceId) (h : Hash) (st : FileSystemStore) : result FileError (option unit) * FileSystemStore :=
  match fs_files st !! get_path s h with
  | Some c => (Ok (Some tt), mkFileStore (delete (get_path s h) (fs_files st)) (fs_dirs st) (decrement_size s (bytes_of c) (fs_sizes st)))
  | None => (if is_dir (get_path s h) st then Err IsADirectory else Ok None, st)
  end.
End FileSystem.

(** [store_sizes] and [open]: a directory in a directory of the root is a space. *)
Definition space_of (d : list string) : option SpaceId :=
  match d with [suf; nm] => Some {| base_did := "did:" +:+ suf; name := nm |} | _ => None end.

Definition bad_suffix `{UriLib} (d : list string) : bool := match d with [suf] => negb (did_valid ("did:" +:+ suf)) | _ => false end.

Definition store_sizes `{UriLib} (files : gmap (list string) string) (dirs : gset (list string)) : result FileError SpaceSizes :=
  match List.filter bad_suffix (elements dirs) with
  | d :: _ => Err (InvalidDid (String.concat "/" d))
  | [] => Ok (list_to_map (omap (λ d, s ← space_of d; Some (s, space_size files d)) (elements dirs)))
  end.

Definition fs_open `{UriLib} (files : gmap (list string) string) (dirs : gset (list string)) : result FileError FileSystemStore :=
  sizes ← store_sizes files dirs; Ok (mkFileStore files dirs sizes).

(** ** Spaces whose directory is their own *)

(** A space as [space_try_from] makes it, whose name is not one that the file system
    gives a meaning of its own. *)
Definition dots (c : string) : bool := bool_decide (c = ".") || bool_decide (c = "..").

Definition proper `{UriLib} (s : SpaceId) : Prop :=
  base_did s = "did:" +:+ suffix s ∧ did_valid (base_did s) = true ∧ dots (suffix s) = false ∧ dots (name s) = false.

Lemma push_proper p c : dots c = false → push_component p c = p ++ [c].
Proof. intros Hc. apply orb_false_iff in Hc as [Hdot%bool_decide_eq_false Hdots%bool_decide_eq_false]. unfold push_component. by rewrite !decide_False. Qed.

Section Proper.
Context `{Blake3, HashFile, UriLib}.
Hypothesis hash_file_inj : ∀ h h', hash_file h = hash_file h' → h = h'.
Hypothesis hash_file_plain : ∀ h, dots (hash_file h) = false.

Lemma space_dir_proper s : proper s → space_dir s = [suffix s; name s].
Proof. intros (_ & _ & Hsuf & Hname). unfold space_dir, resolve. simpl. by rewrite !push_proper. Qed.

Lemma get_path_proper s h : proper s → get_path s h = [suffix s; name s; hash_file h].
Proof. intros (_ & _ & Hsuf & Hname). unfold get_path, resolve. simpl. by rewrite !push_proper. Qed.

Lemma proper_eq s s' : proper s → proper s' → suffix s = suffix s' → name s = name s' → s = s'.
Proof. intros (Hd & _) (Hd' & _) Hs Hn. destruct s, s'. simpl in *. rewrite Hs in Hd. congruence. Qed.

Lemma get_path_inj s s' h h' : proper s → proper s' → get_path s h = get_path s' h' → s = s' ∧ h = h'.
Proof. intros Hp Hp'. rewrite !get_path_proper by done. intros [= Hsuf Hname Hfile]. split; [by apply proper_eq|by apply hash_file_inj]. Qed.

(** Blocks added to the bytes of their directory, and to those of no other. *)
Lemma space_size_insert files s h c d :
  proper s → files !! get_path s h = None →
  space_size (<[get_path s h := c]> files) d = ((if decide (d = space_dir s) then bytes_of c else 0) + space_size files d)%N.
Proof.
  intros Hp Hnone. unfold space_size. rewrite map_fold_insert_L; [|intros; repeat case_decide; lia|done].
  rewrite get_path_proper, space_dir_proper by done. simpl. repeat case_decide; simplify_eq; lia.
Qed.

Lemma space_size_delete files s h c d :
  proper s → files !! get_path s h = Some c →
  space_size files d = ((if decide (d = space_dir s) then bytes_of c else 0) + space_size (delete (get_path s h) files) d)%N.
Proof.
  intros Hp Hc. rewrite <- (space_size_insert (delete (get_path s h) files) s h c d Hp (lookup_delete_eq _ _)). by rewrite insert_delete_id.
Qed.

(** The memory store counts the same way. *)
Definition object_bytes (o : gmap Hash string) : N := map_fold (λ _ v n, (N.of_nat (String.length v) + n)%N) 0%N o.

Lemma object_bytes_insert o h c : o !! h = None → object_bytes (<[h := c]> o) = (bytes_of c + object_bytes o)%N.
Proof. intros Hn. unfold object_bytes. rewrite map_fold_insert_L; [done| |done]. intros; lia. Qed.

Lemma object_bytes_delete o h c : o !! h = Some c → object_bytes o = (bytes_of c + object_bytes (delete h o))%N.
Proof. intros Hc. rewrite <- (object_bytes_insert (delete h o) h c (lookup_delete_eq _ _)). by rewrite insert_delete_id. Qed.

(** A store on disk stands for a store in memory: the same blocks in every space, the
    counted size and the size on disk both that of the blocks. *)
Record stands_for (st : FileSystemStore) (m : MemoryStore) : Prop := {
  sf_spaces : ∀ s o, proper s → m !! s = Some o →
    space_dir s ∈ fs_dirs st ∧ (∀ h, fs_files st !! get_path s h = o !! h) ∧
    space_size (fs_files st) (space_dir s) = object_bytes o ∧ fs_sizes st !! s = Some (object_bytes o);
  sf_none : ∀ s, proper s → m !! s = None →
    space_dir s ∉ fs_dirs st ∧ (∀ h, fs_files st !! get_path s h = None) ∧ space_size (fs_files st) (space_dir s) = 0%N ∧ fs_sizes st !! s = None;
  sf_dirs : ∀ d, d ∈ fs_dirs st → (∃ suf, d = [suf] ∧ did_valid ("did:" +:+ suf) = true) ∨ ∃ s, proper s ∧ d = space_dir s;
}.

(** What a node does with its blocks: spaces are created, blocks are written and removed. *)
Inductive BlockOp := OpCreate (s : SpaceId) | OpPersist (s : SpaceId) (c : string) | OpRemove (s : SpaceId) (h : Hash).

Inductive BlockAnswer := AnsUnit | AnsHash (h : Hash) | AnsRemoved (r : option unit) | AnsError.

Definition file_op (op : BlockOp) (st : FileSystemStore) : BlockAnswer * FileSystemStore :=
  match op with
  | OpCreate s => (AnsUnit, fs_create s st)
  | OpPersist s c => let '(r, st) := fs_persist s c st in (match r with Ok h => AnsHash h | Err _ => AnsError end, st)
  | OpRemove s h => let '(r, st) := fs_remove s h st in (match r with Ok o => AnsRemoved o | Err _ => AnsError end, st)
  end.

Definition memory_op (op : BlockOp) (m : MemoryStore) : BlockAnswer * MemoryStore :=
  match op with
  | OpCreate s => (AnsUnit, mem_create m s)
  | OpPersist s c => let '(h, m) := mem_persist m s c in (AnsHash h, m)
  | OpRemove s h => let '(r, m) := mem_remove m s h in (AnsRemoved r, m)
  end.

(** Spaces are created once, and hold blocks once they are created. *)
Definition allowed (op : BlockOp) (m : MemoryStore) : Prop :=
  match op with
  | OpCreate s => proper s ∧ m !! s = None
  | OpPersist s c => proper s ∧ ∃ o, m !! s = Some o ∧ (object_bytes o + bytes_of c < 2 ^ 64)%N ∧ (∀ c', o !! hash c = Some c' → c' = c)
  | OpRemove s h => proper s ∧ ∃ o, m !! s = Some o ∧ (object_bytes o < 2 ^ 64)%N
  end.

Lemma space_dir_inj s s' : proper s → proper s' → space_dir s = space_dir s' → s = s'.
Proof. intros Hp Hp'. rewrite !space_dir_proper by done. intros [= Hsuf Hname]. by apply proper_eq. Qed.

Lemma parent_path s h : proper s → removelast (get_path s h) = space_dir s.
Proof. intros Hp. by rewrite get_path_proper, space_dir_proper. Qed.

(** No directory is where a block is. *)
Lemma block_no_dir st m s h : stands_for st m → proper s → is_dir (get_path s h) st = false.
Proof.
  intros Hsf Hp. apply bool_decide_eq_false. rewrite get_path_proper by done. intros [Hd|Hd]; [done|].
  apply (sf_dirs _ _ Hsf) in Hd as [(suf & Heq & _)|(s' & Hp' & Heq)]; [done|]. by rewrite space_dir_proper in Heq.
Qed.

(** A space other than the one an operation is about. *)
Lemma other_path s s' h h' : proper s → proper s' → s ≠ s' → get_path s h ≠ get_path s' h'.
Proof. intros Hp Hp' Hne Heq. apply get_path_inj in Heq as [? _]; done. Qed.

Lemma create_stands st m s : stands_for st m → proper s → m !! s = None → stands_for (fs_create s st) (mem_create m s).
Proof.
  intros Hsf Hp Hnone. destruct (sf_none _ _ Hsf s Hp Hnone) as (_ & Hfiles & Hsize & _). unfold mem_create. rewrite Hnone.
  assert (Hsuf : resolve [suffix s] = [suffix s]) by (destruct Hp as (_ & _ & Hs & _); unfold resolve; simpl; by rewrite push_proper).
  split; simpl.
  - intros s' o Hp' Ho. destruct (decide (s = s')) as [<-|Hne].
    + rewrite lookup_insert_eq in Ho. simplify_eq. split_and!; [set_solver|intros h; by rewrite Hfiles|done|]. unfold init_size. by rewrite lookup_insert_eq.
    + rewrite lookup_insert_ne in Ho by done. destruct (sf_spaces _ _ Hsf s' o Hp' Ho) as (? & ? & ? & ?).
      split_and!; [set_solver|done|done|]. unfold init_size. by rewrite lookup_insert_ne.
  - intros s' Hp' Ho. destruct (decide (s = s')) as [<-|Hne]; [by rewrite lookup_insert_eq in Ho|]. rewrite lookup_insert_ne in Ho by done.
    destruct (sf_none _ _ Hsf s' Hp' Ho) as (Hd & ? & ? & ?). split_and!; [|done|done|unfold init_size; by rewrite lookup_insert_ne].
    rewrite Hsuf, (space_dir_proper s') in * by done. rewrite (space_dir_proper s) by done.
    rewrite !elem_of_union, !elem_of_singleton. intros [[?|?]|[= Hs1 Hs2]]; [done|done|]. by apply Hne, proper_eq.
  - intros d Hd. rewrite Hsuf, !elem_of_union, !elem_of_singleton in Hd. destruct Hd as [[Hd| ->]| ->].
    + by apply (sf_dirs _ _ Hsf).
    + left. exists (suffix s). split; [done|]. destruct Hp as (Hdid & Hval & _). by rewrite <- Hdid.
    + right. by exists s.
Qed.

Lemma block_insert_stands st m s o h c sizes :
  stands_for st m → proper s → m !! s = Some o → o !! h = None →
  sizes !! s = Some (bytes_of c + object_bytes o)%N → (∀ s', s' ≠ s → sizes !! s' = fs_sizes st !! s') →
  stands_for (mkFileStore (<[get_path s h := c]> (fs_files st)) (fs_dirs st) sizes) (<[s := <[h := c]> o]> m).
Proof.
  intros Hsf Hp Ho Hh Hcount Hothers. destruct (sf_spaces _ _ Hsf s o Hp Ho) as (Hdir & Hfiles & Hsize & _).
  assert (Hnew : fs_files st !! get_path s h = None) by by rewrite Hfiles.
  split; simpl.
  - intros s' o' Hp' Ho'. destruct (decide (s = s')) as [<-|Hne].
    + rewrite lookup_insert_eq in Ho'. simplify_eq. split_and!; [done| | |by rewrite object_bytes_insert].
      * intros h'. destruct (decide (h = h')) as [<-|Hne']; [by rewrite !lookup_insert_eq|].
        rewrite !lookup_insert_ne by (done || (intros Heq; apply get_path_inj in Heq as [_ ?]; done)). apply Hfiles.
      * rewrite space_size_insert, decide_True, object_bytes_insert by done. by rewrite Hsize.
    + rewrite lookup_insert_ne in Ho' by done. destruct (sf_spaces _ _ Hsf s' o' Hp' Ho') as (? & Hf & Hs & Hc).
      split_and!; [done| | |by rewrite Hothers]. 
      * intros h'. rewrite lookup_insert_ne; [apply Hf|]. by apply other_path.
      * rewrite space_size_insert, decide_False; [done| |done|done]. intros Heq. apply Hne. symmetry. by apply space_dir_inj.
  - intros s' Hp' Ho'. destruct (decide (s = s')) as [<-|Hne]; [by rewrite lookup_insert_eq in Ho'|]. rewrite lookup_insert_ne in Ho' by done.
    destruct (sf_none _ _ Hsf s' Hp' Ho') as (? & Hf & Hs & Hc). split_and!; [done| | |by rewrite Hothers].
    + intros h'. rewrite lookup_insert_ne; [apply Hf|]. by apply other_path.
    + rewrite space_size_insert, decide_False; [done| |done|done]. intros Heq. apply Hne. symmetry. by apply space_dir_inj.
  - apply (sf_dirs _ _ Hsf).
Qed.

Lemma block_delete_stands st m s o h c sizes :
  stands_for st m → proper s → m !! s = Some o → o !! h = Some c →
  sizes !! s = Some (object_bytes (delete h o)) → (∀ s', s' ≠ s → sizes !! s' = fs_sizes st !! s') →
  stands_for (mkFileStore (delete (get_path s h) (fs_files st)) (fs_dirs st) sizes) (<[s := delete h o]> m).
Proof.
  intros Hsf Hp Ho Hh Hcount Hothers. destruct (sf_spaces _ _ Hsf s o Hp Ho) as (Hdir & Hfiles & Hsize & _).
  assert (Hold : fs_files st !! get_path s h = Some c) by by rewrite Hfiles.
  assert (Hother : ∀ s', proper s' → s ≠ s' → space_size (delete (get_path s h) (fs_files st)) (space_dir s') = space_size (fs_files st) (space_dir s')).
  { intros s' Hp' Hne. rewrite (space_size_delete (fs_files st) s h c (space_dir s')), decide_False; [done| |done|done].
    intros Heq. apply Hne. symmetry. by apply space_dir_inj. }
  split; simpl.
  - intros s' o' Hp' Ho'. destruct (decide (s = s')) as [<-|Hne].
    + rewrite lookup_insert_eq in Ho'. simplify_eq. split_and!; [done| | |done].
      * intros h'. destruct (decide (h = h')) as [<-|Hne']; [by rewrite !lookup_delete_eq|].
        rewrite !lookup_delete_ne by (done || (intros Heq; apply get_path_inj in Heq as [_ ?]; done)). apply Hfiles.
      * rewrite (space_size_delete (fs_files st) s h c), decide_True in Hsize by done. rewrite (object_bytes_delete o h c Hh) in Hsize. lia.
    + rewrite lookup_insert_ne in Ho' by done. destruct (sf_spaces _ _ Hsf s' o' Hp' Ho') as (? & Hf & Hs & Hc).
      split_and!; [done| |by rewrite Hother|by rewrite Hothers]. intros h'. rewrite lookup_delete_ne; [apply Hf|]. by apply other_path.
  - intros s' Hp' Ho'. destruct (decide (s = s')) as [<-|Hne]; [by rewrite lookup_insert_eq in Ho'|]. rewrite lookup_insert_ne in Ho' by done.
    destruct (sf_none _ _ Hsf s' Hp' Ho') as (? & Hf & Hs & Hc). split_and!; [done| |by rewrite Hother|by rewrite Hothers].
    intros h'. rewrite lookup_delete_ne; [apply Hf|]. by apply other_path.
  - apply (sf_dirs _ _ Hsf).
Qed.

(** One operation: both stores give the same answer and stand for each other. *)
Lemma file_op_refines op st m :
  stands_for st m → allowed op m →
  (file_op op st).1 = (memory_op op m).1 ∧ stands_for (file_op op st).2 (memory_op op m).2.
Proof.
  intros Hsf. destruct op as [s|s c|s h]; simpl.
  - intros [Hp Hnone]. split; [done|]. by apply create_stands.
  - intros [Hp (o & Ho & Hroom & Hsame)]. destruct (sf_spaces _ _ Hsf s o Hp Ho) as (Hdir & Hfiles & _ & Hcount).
    unfold fs_persist, fs_contains, path_exists. rewrite (block_no_dir st m), Hfiles by done. simpl. rewrite Ho. simpl.
    destruct (o !! hash c) as [c'|] eqn:Hc.
    + rewrite bool_decide_eq_true_2 by done. simpl. split; [done|].
      rewrite (Hsame c' eq_refl) in Hc. rewrite (insert_id o) by done. by rewrite (insert_id m).
    + rewrite bool_decide_eq_false_2 by by apply eq_None_not_Some. simpl.
      rewrite parent_path by done. unfold is_dir. rewrite bool_decide_eq_true_2 by by right. simpl. split; [done|].
      unfold count_block, write_block. simpl. apply block_insert_stands; try done; unfold increment_size.
      * rewrite lookup_alter_eq, Hcount. simpl. f_equal. rewrite N.mod_small; lia.
      * intros s' Hne. by rewrite lookup_alter_ne.
  - intros [Hp (o & Ho & Hroom)]. destruct (sf_spaces _ _ Hsf s o Hp Ho) as (Hdir & Hfiles & _ & Hcount).
    unfold fs_remove, mem_remove. rewrite Hfiles, Ho. destruct (o !! h) as [c|] eqn:Hh.
    + simpl. split; [done|]. apply (block_delete_stands st m s o h c); try done; unfold decrement_size.
      * rewrite lookup_alter_eq, Hcount. simpl. f_equal. rewrite (object_bytes_delete o h c Hh) in *.
        replace (bytes_of c + object_bytes (delete h o) + 2 ^ 64 - bytes_of c)%N with (object_bytes (delete h o) + 1 * 2 ^ 64)%N by lia.
        rewrite N.Div0.mod_add. apply N.mod_small. lia.
      * intros s' Hne. by rewrite lookup_alter_ne.
    + by rewrite (block_no_dir st m).
Qed.

(** The histories of both stores. *)
Fixpoint file_run (ops : list BlockOp) (st : FileSystemStore) : list BlockAnswer * FileSystemStore :=
  match ops with
  | [] => ([], st)
  | op :: ops => let '(a, st) := file_op op st in let '(l, st) := file_run ops st in (a :: l, st)
  end.

Fixpoint memory_run (ops : list BlockOp) (m : MemoryStore) : list BlockAnswer * MemoryStore :=
  match ops with
  | [] => ([], m)
  | op :: ops => let '(a, m) := memory_op op m in let '(l, m) := memory_run ops m in (a :: l, m)
  end.

Fixpoint all_allowed (ops : list BlockOp) (m : MemoryStore) : Prop :=
  match ops with [] => True | op :: ops => allowed op m ∧ all_allowed ops (memory_op op m).2 end.

(** What the theorem asks of a history: spaces are created once and hold blocks once they
    are created, and the bytes of a space fit in 64 bits. *)
Definition permitted (op : BlockOp) (m : MemoryStore) : Prop :=
  match op with
  | OpCreate s => proper s ∧ m !! s = None
  | OpPersist s c => proper s ∧ ∃ o, m !! s = Some o ∧ (object_bytes o + bytes_of c < 2 ^ 64)%N
  | OpRemove s h => proper s ∧ ∃ o, m !! s = Some o ∧ (object_bytes o < 2 ^ 64)%N
  end.

Fixpoint all_permitted (ops : list BlockOp) (m : MemoryStore) : Prop :=
  match ops with [] => True | op :: ops => permitted op m ∧ all_permitted ops (memory_op op m).2 end.

(** No two contents of one space share a hash. *)
Definition collision_free (ops : list BlockOp) : Prop :=
  ∀ s c c', OpPersist s c ∈ ops → OpPersist s c' ∈ ops → hash c = hash c' → c = c'.

(** Every block is under the hash of its content, which was written. *)
Definition blocks_hashed (ops : list BlockOp) (m : MemoryStore) : Prop :=
  ∀ s o h c, m !! s = Some o → o !! h = Some c → hash c = h ∧ OpPersist s c ∈ ops.

Lemma memory_op_hashed all op m : op ∈ all → blocks_hashed all m → blocks_hashed all (memory_op op m).2.
Proof.
  intros Hin Hm s o h c. destruct op as [s'|s' c'|s' h']; simpl.
  - unfold mem_create. destruct (m !! s') eqn:Hs'; [apply Hm|]. destruct (decide (s' = s)) as [<-|Hne]; [|rewrite lookup_insert_ne by done; apply Hm].
    rewrite lookup_insert_eq. intros [= <-]. by rewrite lookup_empty.
  - destruct (decide (s' = s)) as [<-|Hne]; [|rewrite lookup_insert_ne by done; apply Hm]. rewrite lookup_insert_eq. intros [= <-].
    destruct (decide (hash c' = h)) as [<-|Hne]; [rewrite lookup_insert_eq; by intros [= <-]|]. rewrite lookup_insert_ne by done.
    destruct (m !! s') as [o'|] eqn:Hs'; simpl; [by apply Hm|by rewrite lookup_empty].
  - unfold mem_remove. destruct (m !! s') as [o'|] eqn:Hs'; [|apply Hm]. destruct (o' !! h') eqn:Hh'; [|apply Hm]. simpl.
    destruct (decide (s' = s)) as [<-|Hne]; [|rewrite lookup_insert_ne by done; apply Hm]. rewrite lookup_insert_eq. intros [= <-].
    intros [_ Hc]%lookup_delete_Some. by eapply Hm.
Qed.

Lemma permitted_allowed all ops m :
  (∀ op, op ∈ ops → op ∈ all) → collision_free all → blocks_hashed all m → all_permitted ops m →
  all_allowed ops m ∧ blocks_hashed all (memory_run ops m).2.
Proof.
  intros Hin Hfree. revert m. induction ops as [|op ops IH]; intros m Hm; [done|]. intros [Hop Hall].
  assert (op ∈ all) as Hop' by (apply Hin; by left).
  destruct (IH ltac:(intros; apply Hin; by right) _ (memory_op_hashed all op m Hop' Hm) Hall) as [Hallowed Hh].
  simpl. destruct (memory_op op m) as [a m'] eqn:Hmo. simpl in *. destruct (memory_run ops m') as [l m''] eqn:Hmr. simpl in *. split; [|done]. split; [|done].
  destruct op as [s|s c|s h]; simpl in *; [done| |done]. destruct Hop as (Hp & o & Ho & Hroom). split; [done|]. exists o. split_and!; [done|done|].
  intros c' Hc'. destruct (Hm _ _ _ _ Ho Hc') as [Heq Hw]. by eapply Hfree.
Qed.

Lemma file_run_refines ops st m :
  stands_for st m → all_allowed ops m → (file_run ops st).1 = (memory_run ops m).1 ∧ stands_for (file_run ops st).2 (memory_run ops m).2.
Proof.
  revert st m. induction ops as [|op ops IH]; intros st m Hsf Hall; [done|]. destruct Hall as [Hop Hall]. simpl.
  destruct (file_op_refines op st m Hsf Hop) as [Ha Hsf'].
  destruct (file_op op st) as [a st'], (memory_op op m) as [a' m']. simpl in *. destruct (IH st' m' Hsf' Hall) as [Hl Hrun].
  destruct (file_run ops st'), (memory_run ops m'). simpl in *. by subst.
Qed.

Lemma empty_stands : stands_for (mkFileStore ∅ ∅ ∅) ∅.
Proof.
  split.
  - intros s o _ Ho. by rewrite lookup_empty in Ho.
  - intros s _ _. split_and!; [set_solver|intros h; apply lookup_empty|done|apply lookup_empty].
  - set_solver.
Qed.

(** Opening the directories again counts what was counted. *)
Lemma open_stands st m :
  stands_for st m → ∃ st', fs_open (fs_files st) (fs_dirs st) = Ok st' ∧ stands_for st' m.
Proof.
  intros Hsf. unfold fs_open, store_sizes.
  assert (Hbad : List.filter bad_suffix (elements (fs_dirs st)) = []).
  { destruct (List.filter _ _) as [|d l] eqn:Hl; [done|]. exfalso.
    assert (Hin : d ∈ List.filter bad_suffix (elements (fs_dirs st))) by (rewrite Hl; by left).
    apply list_elem_of_In, filter_In in Hin as [Hin Hb]. apply list_elem_of_In, elem_of_elements in Hin.
    apply (sf_dirs _ _ Hsf) in Hin as [(suf & -> & Hval)|(s & Hp & ->)]; [simpl in Hb; by rewrite Hval in Hb|].
    by rewrite space_dir_proper in Hb. }
  rewrite Hbad. simpl. eexists. split; [done|]. set (l := omap _ _).
  assert (Hl : ∀ s n, proper s → (s, n) ∈ l ↔ space_dir s ∈ fs_dirs st ∧ n = space_size (fs_files st) (space_dir s)).
  { intros s n Hp. subst l. rewrite list_elem_of_omap. split.
    - intros (d & Hd & Heq). apply elem_of_elements in Hd. destruct d as [|suf [|nm [|? ?]]]; simplify_eq/=.
      rewrite (space_dir_proper _ Hp). pose proof (suffix_did suf nm) as Hs. rewrite Hs. simpl. done.
    - intros [Hd ->]. exists (space_dir s). split; [by apply elem_of_elements|]. rewrite (space_dir_proper s Hp). simpl.
      destruct Hp as (Hdid & _). by destruct s; simpl in *; rewrite <- Hdid. }
  split; simpl.
  - intros s o Hp Ho. destruct (sf_spaces _ _ Hsf s o Hp Ho) as (? & ? & Hs & _). split_and!; try done.
    apply elem_of_list_to_map_1'; [|apply Hl; [done|]; split; [done|]; by rewrite Hs]. intros n Hn. apply Hl in Hn as [_ ->]; [done|done].
  - intros s Hp Ho. destruct (sf_none _ _ Hsf s Hp Ho) as (Hd & ? & ? & _). split_and!; try done.
    apply not_elem_of_list_to_map_1. intros Hin. apply list_elem_of_fmap in Hin as ([s' n] & -> & Hin). apply Hl in Hin as [? _]; done.
  - apply (sf_dirs _ _ Hsf).
Qed.
End Proper.

(** C39: the store on disk is the store in memory.  Whatever blocks are written and removed
    in the spaces that were created (once each, under names that are not dots, with fewer
    than 2^64 bytes, every write being whole and no two contents of a space having the
    same hash), every operation answers as the memory store does, every read and every
    size is the same, and what is read under a hash has that hash; and a node that is
    stopped and opens the directories again goes on with the same reads and the same
    sizes.  File names are those of one hash only, and are not dots. *)
Theorem file_store_refines_memory `{Blake3, HashFile, UriLib} (ops : list BlockOp)
    (Hinj : ∀ h h', hash_file h = hash_file h' → h = h')
    (Hplain : ∀ h, dots (hash_file h) = false)
    (Hfree : collision_free ops) (Hops : all_permitted ops ∅) :
  let '(answers, st) := file_run ops (mkFileStore ∅ ∅ ∅) in
  let '(answers', m) := memory_run ops ∅ in
  answers = answers' ∧
  ∃ reopened, fs_open (fs_files st) (fs_dirs st) = Ok reopened ∧
  ∀ s, proper s → ∀ store, store = st ∨ store = reopened →
    fs_total_size s store = mem_total_size m s ∧ (∀ h, fs_read s h store = Ok (mem_read m s h)) ∧
    ∀ h c, fs_read s h store = Ok (Some c) → hash c = h.
Proof.
  assert (blocks_hashed ops ∅) as Hempty by (intros s o h c Hs; by rewrite lookup_empty in Hs).
  destruct (permitted_allowed ops ops ∅ ltac:(done) Hfree Hempty Hops) as [Hallowed Hhashed].
  destruct (file_run_refines Hinj Hplain ops (mkFileStore ∅ ∅ ∅) ∅ (empty_stands Hinj Hplain) Hallowed) as [Ha Hsf].
  destruct (file_run ops _) as [answers st], (memory_run ops ∅) as [answers' m]. simpl in *. split; [done|].
  destruct (open_stands st m Hsf) as (reopened & Hopen & Hsf'). exists reopened. split; [done|].
  intros s Hp store Hstore. assert (Hst : stands_for store m) by by destruct Hstore as [-> | ->].
  assert (fs_total_size s store = mem_total_size m s ∧ ∀ h, fs_read s h store = Ok (mem_read m s h)) as [Hsize Hread].
  2:{ split_and!; [done|done|]. intros h c. rewrite Hread. unfold mem_read. destruct (m !! s) as [o|] eqn:Ho; [|done]. intros [= Hc]. by eapply Hhashed. }
  unfold fs_total_size, get_size, mem_total_size, fs_read, mem_read. destruct (m !! s) as [o|] eqn:Ho.
  - destruct (sf_spaces _ _ Hst s o Hp Ho) as (_ & Hf & _ & Hc). split; [by rewrite Hc|]. intros h. rewrite Hf.
    destruct (o !! h); [done|]. by rewrite (block_no_dir Hplain store m).
  - destruct (sf_none _ _ Hst s Hp Ho) as (_ & Hf & _ & Hc). split; [done|]. intros h. rewrite Hf. by rewrite (block_no_dir Hplain store m).
Qed.

(** ** What does not hold *)

(** A block whose writing stopped in the middle is taken for the whole one ever after: the
    next [persist] of the same bytes answers their hash and writes nothing, and a read
    answers what reached the disk. *)
Lemma torn_block_served `{Blake3, HashFile} n s c st :
  n < String.length c → fs_contains s (hash c) st = false → is_dir (removelast (get_path s (hash c))) st = true →
  let st' := (fs_persist_buffer (Some n) s c st).2 in
  fs_persist s c st' = (Ok (hash c), st') ∧ fs_persist_buffer None s c st' = (Ok (hash c), st') ∧
  fs_read s (hash c) st' = Ok (Some (String.substring 0 n c)) ∧ String.substring 0 n c ≠ c.
Proof.
  intros Hn Hnew Hdir. unfold fs_persist_buffer. rewrite Hnew, Hdir. simpl.
  assert (Hin : fs_contains s (hash c) (write_block s (hash c) (String.substring 0 n c) st) = true).
  { unfold fs_contains, path_exists, write_block. simpl. rewrite lookup_insert_eq. by rewrite bool_decide_eq_true_2, orb_true_r. }
  unfold fs_persist. rewrite Hin. split_and!; [done|done| |].
  - unfold fs_read, write_block. simpl. by rewrite lookup_insert_eq.
  - intros Heq. apply (f_equal String.length) in Heq. rewrite substring_take_length in Heq; lia.
Qed.

Module FileStoreDemo.

(** Hashes as file names: the code in strokes, then the digest. *)
Fixpoint strokes (n : nat) (d : string) : string := match n with O => String "-" d | S n => String "1" (strokes n d) end.

Lemma strokes_inj n n' d d' : strokes n d = strokes n' d' → n = n' ∧ d = d'.
Proof. revert n'. induction n as [|n IH]; intros [|n'] Heq; simplify_eq/=; [done|]. by apply IH in Heq as [-> ->]. Qed.

Definition demo_digest : Blake3 := λ s, s.
Definition demo_hash_file : HashFile := λ h, String "b" (strokes (N.to_nat (mh_code h)) (mh_digest h)).
Definition demo_dids : UriLib := {| uri_new _ := None; uri_is_normalized _ := true; did_valid _ := true |}.
#[local] Existing Instances demo_digest demo_hash_file demo_dids.

Lemma demo_hash_file_inj h h' : hash_file h = hash_file h' → h = h'.
Proof.
  destruct h as [n d], h' as [n' d']. unfold hash_file, demo_hash_file. simpl. intros Heq. injection Heq as Heq.
  apply strokes_inj in Heq as [Hn ->]. f_equal. lia.
Qed.

Definition home : SpaceId := {| base_did := "did:key:alice"; name := "default" |}.

Definition demo_ops : list BlockOp := [OpCreate home; OpPersist home "hello world"; OpPersist home "hello"; OpRemove home (hash "hello")].

Lemma demo_proper : proper home.
Proof. repeat split. Qed.

Lemma file_store_refines_memory_witness :
  fs_total_size home (file_run demo_ops (mkFileStore ∅ ∅ ∅)).2 = Some 11%N ∧
  (let '(answers, st) := file_run demo_ops (mkFileStore ∅ ∅ ∅) in
   let '(answers', m) := memory_run demo_ops ∅ in
   answers = answers' ∧
   ∃ reopened, fs_open (fs_files st) (fs_dirs st) = Ok reopened ∧
   ∀ s, proper s → ∀ store, store = st ∨ store = reopened →
     fs_total_size s store = mem_total_size m s ∧ (∀ h, fs_read s h store = Ok (mem_read m s h)) ∧
     ∀ h c, fs_read s h store = Ok (Some c) → hash c = h).
Proof.
  split; [vm_compute; reflexivity|]. apply (file_store_refines_memory demo_ops); [exact demo_hash_file_inj|intros h; reflexivity| |].
  { intros s c c' _ _ Heq. by injection Heq. }
  split; [split; [exact demo_proper|reflexivity]|]. split; [split; [exact demo_proper|]; eexists; split; [reflexivity|vm_compute; reflexivity]|].
  split; [split; [exact demo_proper|]; eexists; split; [vm_compute; reflexivity|vm_compute; reflexivity]|].
  split; [split; [exact demo_proper|]; eexists; split; [vm_compute; reflexivity|vm_compute; reflexivity]|]. exact I.
Defined.

(** Creating a space again, as every host delegation of its owner does, forgets what it
    holds: the size is zero with eleven bytes on disk, until the node starts again. *)
Example rehosted_space_forgets_size :
  let st := (file_run [OpCreate home; OpPersist home "hello world"; OpCreate home] (mkFileStore ∅ ∅ ∅)).2 in
  fs_total_size home st = Some 0%N ∧ space_size (fs_files st) (space_dir home) = 11%N ∧
  fs_read home (hash "hello world") st = Ok (Some "hello world") ∧
  match fs_open (fs_files st) (fs_dirs st) with Ok st' => fs_total_size home st' = Some 11%N | Err _ => False end.
Proof. vm_compute. repeat split; reflexivity. Qed.

(** Spaces named with dots share the root: what one owner stores is there for another, and
    their sizes are not found again. *)
Example dotted_spaces_shared :
  let alice := {| base_did := "did:key:alice"; name := ".." |} in
  let bob := {| base_did := "did:key:bob"; name := ".." |} in
  let st := (file_run [OpCreate alice; OpCreate bob; OpPersist alice "secret"] (mkFileStore ∅ ∅ ∅)).2 in
  fs_read bob (hash "secret") st = Ok (Some "secret") ∧ fs_total_size bob st = Some 0%N ∧
  match fs_open (fs_files st) (fs_dirs st) with Ok st' => fs_total_size alice st' = None | Err _ => False end.
Proof. vm_compute. repeat split; reflexivity. Qed.

End FileStoreDemo.
