(* ===== verification/Public.v ===== *)
(** * Public spaces: tinycloud-node-server/src/routes/public.rs

    The keys of a space named [public] are read without authority, at a limited rate for
    each address.  The rate limiter counts in [f64]; its arithmetic is that of the
    binary64 format ([SpecFloat]). *)
From Stdlib Require Import SpecFloat.
From S2P Require Import Prelude Str Chars Identity Resource Tables Storage Tokens Events Demo Kv Chain KvRoute.

(** ** Numbers: [f64] *)

Definition f64 : Type := spec_float.
Definition f64_of_N (n : N) : f64 := binary_normalize 53 1024 (Z.of_N n) 0 false.
Definition f64_add : f64 → f64 → f64 := SFadd 53 1024.
Definition f64_sub : f64 → f64 → f64 := SFsub 53 1024.
Definition f64_mul : f64 → f64 → f64 := SFmul 53 1024.
Definition f64_div : f64 → f64 → f64 := SFdiv 53 1024.

(** [f64::min]. *)
Definition f64_min (a b : f64) : f64 := if SFltb a b then a else b.

(** [Duration::as_secs_f64] of nanoseconds. *)
Definition as_secs_f64 (ns : N) : f64 := f64_add (f64_of_N (ns / 1000000000)) (f64_div (f64_of_N (ns mod 1000000000)) (f64_of_N 1000000000)).

(** ** The rate limiter *)

(** Addresses are given by their text. *)
Record TokenBucket := mkBucket { tb_tokens : f64; tb_last_refill : N }.
Record RateLimiter := mkLimiter { rl_state : gmap string TokenBucket; rl_tokens_per_second : f64; rl_burst : N }.

Definition new_limiter (rate_limit_per_minute rate_limit_burst : N) : RateLimiter :=
  mkLimiter ∅ (f64_div (f64_of_N rate_limit_per_minute) (f64_of_N 60)) rate_limit_burst.

Definition max_tokens (l : RateLimiter) : f64 := f64_add (f64_of_N (rl_burst l)) (rl_tokens_per_second l).

(** The bucket of an address, refilled; [duration_since] is zero for an earlier instant. *)
Definition refilled (l : RateLimiter) (ip : string) (now : N) : f64 :=
  let b := default (mkBucket (max_tokens l) now) (rl_state l !! ip) in
  f64_min (f64_add (tb_tokens b) (f64_mul (as_secs_f64 (now - tb_last_refill b)) (rl_tokens_per_second l))) (max_tokens l).

Definition set_bucket (l : RateLimiter) (ip : string) (b : TokenBucket) : RateLimiter :=
  mkLimiter (<[ip := b]> (rl_state l)) (rl_tokens_per_second l) (rl_burst l).

Definition rate_check (l : RateLimiter) (ip : string) (now : N) : result Status unit * RateLimiter :=
  let tokens := refilled l ip now in
  if SFleb (f64_of_N 1) tokens then (Ok tt, set_bucket l ip (mkBucket (f64_sub tokens (f64_of_N 1)) now))
  else (Err 429%N, set_bucket l ip (mkBucket tokens now)).

(** ** Responses *)

Definition Refusal : Type := N * string.

Definition CACHE_CONTROL : string := "public, max-age=60".
Definition CORS_ORIGIN : string := "*".
Definition CORS_METHODS : string := "GET, HEAD, OPTIONS".
Definition CORS_ALLOW_HEADERS : string := "If-None-Match".
Definition CORS_EXPOSE_HEADERS : string := "ETag, Content-Type, Content-Length".
Definition PUBLIC_SAFE_HEADERS : list string := ["content-type"; "content-encoding"; "content-language"].

(** [to_lowercase] makes a safe name of a text exactly when the ASCII one does: the only
    other character whose lower case is an ASCII letter is the Kelvin sign, and no safe
    name has a k. *)
Definition safe_header (k : string) : bool := bool_decide (to_ascii_lowercase k ∈ PUBLIC_SAFE_HEADERS).

Definition sanitized_metadata (md : Metadata) : Metadata := List.filter (λ kv, safe_header kv.1) md.

(** [Response::set_header] replaces a header of the same name, in any case. *)
Definition set_header (headers : Metadata) (h : string * string) : Metadata :=
  List.filter (λ kv, negb (bool_decide (to_ascii_lowercase kv.1 = to_ascii_lowercase h.1))) headers ++ [h].

Definition public_headers (etag : option string) : Metadata :=
  [("Cache-Control", CACHE_CONTROL); ("Access-Control-Allow-Origin", CORS_ORIGIN); ("Access-Control-Allow-Methods", CORS_METHODS);
   ("Access-Control-Allow-Headers", CORS_ALLOW_HEADERS); ("Access-Control-Expose-Headers", CORS_EXPOSE_HEADERS)] ++
  match etag with Some e => [("ETag", e)] | None => [] end.

Definition add_public_headers (headers : Metadata) (etag : option string) : Metadata := foldl set_header headers (public_headers etag).

Record PublicResponse := mkPublicResponse { pu_status : N; pu_headers : Metadata; pu_body : option string }.

Definition value_response (body : option string) (md : Metadata) (etag : string) : PublicResponse :=
  mkPublicResponse 200 (add_public_headers (foldl set_header [] (sanitized_metadata md)) (Some etag)) body.

Definition not_modified_response (etag : string) : PublicResponse := mkPublicResponse 304 (add_public_headers [] (Some etag)) None.

(** ** Routes *)

(** [RawKeyPath]: the segments of the path. *)
Definition raw_key_path (segments : list string) : option string :=
  let joined := String.concat "/" segments in if is_empty joined then None else Some joined.

Section Routes.
Context `{RowOrder, Collation, Keccak256, UriLib} {B E : Type} `{!BlockStore B E} (error_text : E → string).

(** What the three routes share: the rate, the space and that it is public. *)
Definition public_space (l : RateLimiter) (ip : string) (now : N) (space_id : string) : result Refusal SpaceId * RateLimiter :=
  match rate_check l ip now with
  | (Err s, l) => (Err (s, "Rate limit exceeded"), l)
  | (Ok _, l) =>
      (space_id ← map_err (λ _, (400%N, "Invalid space ID")) (space_from_str space_id);
       _ ← ensure (is_public_space space_id) (403%N, "Not a public space");
       Ok space_id, l)
  end.

(** The value of a key, answered by [answer] unless the client has it. *)
Definition public_value (blocks : B) (db : Tables.Db) (key : string) (if_none_match : option string)
    (answer : Metadata → string → string → PublicResponse) (space_id : SpaceId) : result Refusal PublicResponse :=
  v ← map_err (λ e, (500%N, error_text e)) (get_kv (bs_read blocks) db space_id key);
  match v with
  | Some (md, h, content) =>
      let etag := kv_etag h in
      if bool_decide (if_none_match = Some etag) then Ok (not_modified_response etag) else Ok (answer md content etag)
  | None => Err (404%N, "Key not found")
  end.

Definition public_kv_get (blocks : B) (db : Tables.Db) (l : RateLimiter) (ip : string) (now : N) (space_id key : string) (if_none_match : option string)
    : result Refusal PublicResponse * RateLimiter :=
  let '(s, l) := public_space l ip now space_id in
  (space_id ← s; public_value blocks db key if_none_match (λ md content etag, value_response (Some content) md etag) space_id, l).

Definition public_kv_head (blocks : B) (db : Tables.Db) (l : RateLimiter) (ip : string) (now : N) (space_id key : string) (if_none_match : option string)
    : result Refusal PublicResponse * RateLimiter :=
  let '(s, l) := public_space l ip now space_id in
  (space_id ← s; public_value blocks db key if_none_match (λ md content etag, value_response None md etag) space_id, l).

Definition public_kv_list (db : Tables.Db) (l : RateLimiter) (ip : string) (now : N) (space_id : string) (prefix : option string)
    : result Refusal (list string * Metadata) * RateLimiter :=
  let '(s, l) := public_space l ip now space_id in
  (space_id ← s; Ok (list_keys db space_id (default "" prefix), add_public_headers [("Content-Type", "application/json")] None), l).

Definition public_kv_options : N := 204.
End Routes.

(** ** What is disclosed *)

Lemma set_header_elem headers h x : x ∈ set_header headers h → x ∈ headers ∨ x = h.
Proof.
  unfold set_header. intros Hx. apply elem_of_app in Hx as [Hx|Hx]; [left|right; by apply list_elem_of_singleton].
  apply list_elem_of_In, filter_In in Hx as [Hx _]. by apply list_elem_of_In.
Qed.

Lemma set_headers_elem hs headers x : x ∈ foldl set_header headers hs → x ∈ headers ∨ x ∈ hs.
Proof.
  revert headers. induction hs as [|h hs IH]; intros headers Hx; simpl in Hx; [by left|].
  apply IH in Hx as [Hx|Hx]; [|right; by apply elem_of_cons; right]. apply set_header_elem in Hx as [?| ->]; [by left|]. right. by apply elem_of_cons; left.
Qed.

Lemma value_response_headers body md etag x :
  x ∈ pu_headers (value_response body md etag) → x ∈ public_headers (Some etag) ∨ (x ∈ md ∧ safe_header x.1 = true).
Proof.
  simpl. intros Hx. unfold add_public_headers in Hx. apply set_headers_elem in Hx as [Hx|Hx]; [|by left]. apply set_headers_elem in Hx as [Hx|Hx].
  - by apply not_elem_of_nil in Hx.
  - right. apply list_elem_of_In, filter_In in Hx as [Hx Hs]. split; [by apply list_elem_of_In|done].
Qed.

(** *** The headers that are there *)

(** Names as they are compared. *)
Definition header_names (headers : Metadata) : list string := (λ kv, to_ascii_lowercase kv.1) <$> headers.

Lemma header_names_elem headers x : x ∈ headers → to_ascii_lowercase x.1 ∈ header_names headers.
Proof. intros Hx. apply (list_elem_of_fmap_2 (λ kv : string * string, to_ascii_lowercase kv.1) _ _ Hx). Qed.

Lemma set_header_keeps headers h x : x ∈ headers → to_ascii_lowercase x.1 ≠ to_ascii_lowercase h.1 → x ∈ set_header headers h.
Proof.
  intros Hx Hne. unfold set_header. apply elem_of_app. left. apply list_elem_of_In, filter_In. split; [by apply list_elem_of_In|].
  by rewrite bool_decide_eq_false_2.
Qed.

Lemma set_header_names headers h n : n ∈ header_names (set_header headers h) ↔ n ∈ header_names headers ∨ n = to_ascii_lowercase h.1.
Proof.
  unfold header_names. rewrite !list_elem_of_fmap. split.
  - intros (x & -> & [Hx| ->]%set_header_elem); [left; by exists x|by right].
  - assert (h ∈ set_header headers h) as Hh by (unfold set_header; apply elem_of_app; right; by apply list_elem_of_singleton).
    intros [(x & -> & Hx)| ->]; [|by exists h]. destruct (decide (to_ascii_lowercase x.1 = to_ascii_lowercase h.1)) as [Heq|Hne]; [by exists h|].
    exists x. split; [done|by apply set_header_keeps].
Qed.

Lemma set_header_distinct headers h : NoDup (header_names headers) → NoDup (header_names (set_header headers h)).
Proof.
  unfold header_names, set_header. intros Hnd. rewrite fmap_app. apply NoDup_app. split_and!; [| |apply NoDup_singleton].
  - induction headers as [|x headers IH]; [constructor|]. rewrite fmap_cons, NoDup_cons in Hnd. destruct Hnd as [Hx Hnd]. cbn [List.filter].
    destruct (negb _); [|by apply IH]. rewrite fmap_cons. apply NoDup_cons. split; [|by apply IH].
    intros (y & Hy & [Hin _]%list_elem_of_In%filter_In)%list_elem_of_fmap. apply Hx. rewrite Hy. apply list_elem_of_In in Hin.
    apply (list_elem_of_fmap_2 (λ kv : string * string, to_ascii_lowercase kv.1) _ _ Hin).
  - intros n (x & -> & [_ Hx]%list_elem_of_In%filter_In)%list_elem_of_fmap. apply negb_true_iff, bool_decide_eq_false in Hx.
    intros Hn%list_elem_of_singleton. done.
Qed.

Lemma set_headers_names hs headers n : n ∈ header_names (foldl set_header headers hs) ↔ n ∈ header_names headers ∨ n ∈ header_names hs.
Proof.
  revert headers. induction hs as [|h hs IH]; intros headers; simpl; [rewrite elem_of_nil; tauto|].
  rewrite IH, set_header_names, elem_of_cons. tauto.
Qed.

Lemma set_headers_distinct hs headers : NoDup (header_names headers) → NoDup (header_names (foldl set_header headers hs)).
Proof. revert headers. induction hs as [|h hs IH]; intros headers Hnd; simpl; [done|]. by apply IH, set_header_distinct. Qed.

Lemma set_headers_keep hs headers x : x ∈ headers → to_ascii_lowercase x.1 ∉ header_names hs → x ∈ foldl set_header headers hs.
Proof.
  revert headers. induction hs as [|h hs IH]; intros headers Hx Hn; simpl; [done|]. unfold header_names in Hn. rewrite fmap_cons, not_elem_of_cons in Hn.
  destruct Hn. by apply IH; [apply set_header_keeps|].
Qed.

Lemma set_headers_present hs headers x : NoDup (header_names hs) → x ∈ hs → x ∈ foldl set_header headers hs.
Proof.
  revert headers. induction hs as [|h hs IH]; intros headers Hnd Hx; [by apply not_elem_of_nil in Hx|]. simpl.
  unfold header_names in Hnd. rewrite fmap_cons, NoDup_cons in Hnd. destruct Hnd as [Hh Hnd]. apply elem_of_cons in Hx as [->|Hx]; [|by apply IH].
  apply set_headers_keep; [|done]. unfold set_header. apply elem_of_app. right. by apply list_elem_of_singleton.
Qed.

Lemma public_headers_present headers etag x : x ∈ public_headers etag → x ∈ add_public_headers headers etag.
Proof. apply set_headers_present. destruct etag; apply (bool_decide_unpack _); by vm_compute. Qed.

(** The headers of an answer: those of the route, and for each safe name of the metadata
    one value stored under it. *)
Lemma value_response_complete body md etag :
  let headers := pu_headers (value_response body md etag) in
  NoDup (header_names headers) ∧ (∀ x, x ∈ public_headers (Some etag) → x ∈ headers) ∧
  ∀ x, x ∈ md → safe_header x.1 = true → to_ascii_lowercase x.1 ∈ header_names headers.
Proof.
  simpl. unfold add_public_headers. split_and!.
  - apply set_headers_distinct, set_headers_distinct. constructor.
  - intros x. apply public_headers_present.
  - intros x Hx Hs. apply set_headers_names. left. apply set_headers_names. right. apply header_names_elem.
    apply list_elem_of_In, filter_In. split; [by apply list_elem_of_In|done].
Qed.

Section Disclosure.
Context `{RowOrder, Collation, Keccak256, UriLib} {B E : Type} `{!BlockStore B E} (error_text : E → string).

Lemma public_space_Ok l ip now id s l' :
  public_space l ip now id = (Ok s, l') →
  space_from_str id = Ok s ∧ name s = "public" ∧ SFleb (f64_of_N 1) (refilled l ip now) = true.
Proof.
  unfold public_space, rate_check. destruct (SFleb _ _) eqn:Hle; [|by intros]. intros Heq. injection Heq as Hs _. ok_inv.
  unfold is_public_space in *. split_and!; [done| |done]. by eapply bool_decide_eq_true_1.
Qed.

Lemma public_value_Ok blocks db key inm answer s r :
  public_value error_text blocks db key inm answer s = Ok r →
  ∃ md h content, get_kv (bs_read blocks) db s key = Ok (Some (md, h, content)) ∧
    if bool_decide (inm = Some (kv_etag h)) then r = not_modified_response (kv_etag h) else r = answer md content (kv_etag h).
Proof.
  unfold public_value. intros Hr. ok_inv. case_match; [|done]. destruct p as [[md h] content]. exists md, h, content. split; [done|].
  by case_bool_decide; simplify_eq.
Qed.

(** A refusal that says the key is not there is about a public space. *)
Lemma public_value_absent blocks db key inm answer s m :
  public_value error_text blocks db key inm answer s = Err (404%N, m) → get_kv (bs_read blocks) db s key = Ok None.
Proof.
  unfold public_value. destruct (get_kv (bs_read blocks) db s key) as [[[[md h] content]|]|e]; simpl; [|done|done].
  by case_bool_decide.
Qed.
End Disclosure.

(** C40: a public route discloses public values alone.  Whatever the request, an answered
    [GET] is for a space named [public] and an address that had a token left, and it is
    either that the client's value is the current one, or the current value of the key
    with its own entity tag and the other headers of the route, and of the stored
    metadata only the headers that are safe, one for each safe name in it; no header
    comes twice.  That a key is not there is said of a public space too. *)
Theorem public_get_confined `{RowOrder, Keccak256, UriLib} {B E : Type} `{!BlockStore B E} (error_text : E → string)
    (blocks : B) (db : Tables.Db) (l : RateLimiter) (ip : string) (now : N) (id key : string) (if_none_match : option string) :
  match (public_kv_get error_text blocks db l ip now id key if_none_match).1 with
  | Ok r =>
      ∃ s md h content, space_from_str id = Ok s ∧ name s = "public" ∧ SFleb (f64_of_N 1) (refilled l ip now) = true ∧
        get_kv (bs_read blocks) db s key = Ok (Some (md, h, content)) ∧
        ((if_none_match = Some (kv_etag h) ∧ r = not_modified_response (kv_etag h)) ∨
         (if_none_match ≠ Some (kv_etag h) ∧ pu_status r = 200%N ∧ pu_body r = Some content ∧
          ("ETag", kv_etag h) ∈ pu_headers r ∧ NoDup (header_names (pu_headers r)) ∧
          (∀ x, x ∈ public_headers (Some (kv_etag h)) → x ∈ pu_headers r) ∧
          (∀ x, x ∈ md → safe_header x.1 = true → to_ascii_lowercase x.1 ∈ header_names (pu_headers r)) ∧
          ∀ x, x ∈ pu_headers r → x ∈ public_headers (Some (kv_etag h)) ∨ (x ∈ md ∧ safe_header x.1 = true)))
  | Err (status, _) => status = 404%N → ∃ s, space_from_str id = Ok s ∧ name s = "public" ∧ get_kv (bs_read blocks) db s key = Ok None
  end.
Proof.
  unfold public_kv_get. destruct (public_space l ip now id) as [[s|e] l'] eqn:Hs; simpl.
  - apply public_space_Ok in Hs as (Hid & Hname & Hrate). destruct (public_value _ _ _ _ _ _ _) as [r|[status m]] eqn:Hv.
    + apply public_value_Ok in Hv as (md & h & content & Hget & Hr). exists s, md, h, content. split_and!; try done.
      case_bool_decide as Hinm; [by left|right]. subst r. destruct (value_response_complete (Some content) md (kv_etag h)) as (Hnd & Hpub & Hmd).
      split_and!; [done|done|done| |done|done|done|intros x; apply value_response_headers]. apply Hpub. apply elem_of_app. right. by apply list_elem_of_singleton.
    + intros ->. exists s. split_and!; try done. by eapply public_value_absent.
  - destruct e as [status m]. intros ->. unfold public_space, rate_check in Hs. destruct (SFleb _ _); [|by simplify_eq].
    injection Hs as Hs _. destruct (space_from_str id) as [s|e]; simpl in Hs; [|done]. unfold ensure in Hs. by destruct (is_public_space s).
Qed.

(** The values of other spaces do not show.  For a space that is not public, the three
    public routes answer the same whatever the databases and blocks hold. *)
Theorem private_spaces_silent `{RowOrder, Collation, Keccak256, UriLib} {B E : Type} `{!BlockStore B E} (error_text : E → string)
    (blocks blocks' : B) (db db' : Tables.Db) (l : RateLimiter) (ip : string) (now : N) (id key : string) (if_none_match prefix : option string)
    (Hprivate : ∀ s, space_from_str id = Ok s → name s ≠ "public") :
  public_kv_get error_text blocks db l ip now id key if_none_match = public_kv_get error_text blocks' db' l ip now id key if_none_match ∧
  public_kv_head error_text blocks db l ip now id key if_none_match = public_kv_head error_text blocks' db' l ip now id key if_none_match ∧
  public_kv_list db l ip now id prefix = public_kv_list db' l ip now id prefix.
Proof.
  unfold public_kv_get, public_kv_head, public_kv_list. destruct (public_space l ip now id) as [[s|e] l'] eqn:Hs; [|done].
  apply public_space_Ok in Hs as (Hid & Hname & _). by destruct (Hprivate s Hid).
Qed.

(** ** The limiter *)

(** A check is about one address. *)
Lemma rate_check_other l ip now ip' : ip' ≠ ip → rl_state (rate_check l ip now).2 !! ip' = rl_state l !! ip'.
Proof. intros Hne. unfold rate_check. destruct (SFleb _ _); simpl; by rewrite lookup_insert_ne. Qed.

Definition rate_checks (l : RateLimiter) (requests : list (string * N)) : RateLimiter := foldl (λ l r, (rate_check l r.1 r.2).2) l requests.

(** Every address that was ever seen keeps a bucket: the limiter only grows. *)
Lemma buckets_never_evicted l requests : dom (rl_state (rate_checks l requests)) = dom (rl_state l) ∪ list_to_set requests.*1.
Proof.
  revert l. induction requests as [|[ip now] requests IH]; intros l; simpl; [set_solver|].
  change (rate_checks l ((ip, now) :: requests)) with (rate_checks (rate_check l ip now).2 requests). rewrite IH.
  assert (Hd : dom (rl_state (rate_check l ip now).2) = {[ip]} ∪ dom (rl_state l)).
  { unfold rate_check. destruct (SFleb _ _); simpl; apply dom_insert_L. }
  rewrite Hd. set_solver.
Qed.

Fixpoint admitted (l : RateLimiter) (requests : list (string * N)) : list bool :=
  match requests with
  | [] => []
  | (ip, now) :: requests => let '(r, l) := rate_check l ip now in (match r with Ok _ => true | Err _ => false end) :: admitted l requests
  end.

(** With the default configuration, eleven requests of one address are admitted at once,
    the twelfth is refused, and a second later one more is admitted; another address
    has its own. *)
Example default_limits :
  admitted (new_limiter 60 10) (replicate 12 ("a", 5%N) ++ [("b", 5%N); ("a", 1000000005%N); ("a", 1000000005%N)]) =
    replicate 11 true ++ [false; true; true; false].
Proof. vm_compute. reflexivity. Qed.

(** ** Two spaces *)

Module PublicDemo.

Definition demo_uris : UriLib :=
  {| uri_new s := match strip_prefix "tinycloud:" s with Some p => Some (mkUri "tinycloud" None p None None) | None => None end;
     uri_is_normalized _ := true;
     did_valid _ := true |}.
Definition plain_collation : Collation := λ c, c.
#[local] Existing Instances demo_keccak demo_blake demo_order plain_collation demo_uris.

Definition no_errors (e : Empty_set) : string := match e with end.

Definition demo_limiter : RateLimiter := new_limiter 60 10.

Lemma private_spaces_silent_witness :
  let ask := public_kv_get no_errors (∅ : MemoryStore) Tables.empty_db demo_limiter "10.0.0.1" 5 "tinycloud:key:alice:default" "a" None in
  ask.1 = Err (403%N, "Not a public space") ∧
  ∀ (blocks : MemoryStore) db, ask = public_kv_get no_errors blocks db demo_limiter "10.0.0.1" 5 "tinycloud:key:alice:default" "a" None.
Proof.
  split; [vm_compute; reflexivity|]. intros blocks db.
  refine (proj1 (private_spaces_silent no_errors ∅ blocks Tables.empty_db db demo_limiter "10.0.0.1" 5 "tinycloud:key:alice:default" "a" None None _)).
  intros s Hs. vm_compute in Hs. injection Hs as <-. discriminate.
Defined.

End PublicDemo.
